(* ===== verification/_CoqProject ===== *)
-Q . S2P
Prelude.v
Capability.v
NameTable.v
GenTable.v
IntrusiveFifo.v
Rendezvous.v
Notification.v
Timer.v
Handshake.v
Scheduler.v
PageFrames.v
Regions.v
PageFormat.v
Aarch64.v
Sv39.v
X86.v
Mapper.v
DmaValidator.v
UserHeap.v
Elf.v
BootSlot.v
AddressSpaces.v
NifeFs.v
Glob.v
ActivationSet.v
Calendar.v
LineEditor.v
Manifest.v
ElfNote.v
ManifestNote.v
Nav.v
ShellWords.v
NameSets.v
SubtreeScope.v
FsProtocol.v
FileMemo.v
FileServer.v
FileEngine.v
TreeEngine.v
FileConfinement.v
GrantPlan.v
Revocation.v
MappingCalls.v
KernelIpc.v
IpcInvariant.v
IpcQueues.v
IpcTeardown.v
IpcReap.v
IpcSystem.v
IpcAuthority.v
