(* ===== verification/Prelude.v ===== *)
(** * nife: a capability microkernel, modelled and verified in Rocq

    nife is an operating system written in Rust around a small capability
    microkernel.  The kernel (src/kernel) keeps its decision logic in
    freestanding crates (src/crates), each a pure state machine with an explicit
    store; the kernel, the boot loader and the user components call them.  This
    library models those crates and the part of the kernel that composes them,
    definition by definition, and proves what the rest of the system relies on.

    ** How the program is modelled

    - A crate's state is a [Record] with the fields of the Rust struct, its
      enums are [Inductive] types with the same constructors, and every
      operation is an executable function with the source's name.
    - Machine integers are [Z] with their width written out: [wrap w] where the
      source wraps, [checked] arithmetic returning an option where the source
      checks, and [Panicked] where it would panic (index out of range, overflow
      in a build with overflow checks, [unwrap], [assert!]).
    - Fallible code returns [result] ([Ok]/[Err]); code that can panic returns
      [run] ([Done]/[Panicked]).  State is passed explicitly.
    - A loop whose end is not structural takes fuel and returns an option; its
      totality at the fuel the model gives it is a lemma.  The fuel is always a
      bound the state itself fixes: the number of words of the frame bitmap,
      the number of table slots, the queue size of a virtqueue, the number of
      pages of a span, the free bytes over the smallest block of a heap, the
      bytes that are left of a name or of a directory, the positions of a name
      times those of a glob pattern, the bytes and program headers of an image,
      the length of a command line and its greatest number of stages, the names
      a sweep has left, the pages and entries of a mapping log, and for the
      teardown of a region the sizes of the tables it empties.
    - Code outside src/ (the intrusive-list storage of a caller, hardware
      registers, firmware, checksums of other packages) is an argument of the
      definitions, and what is relied on is a named hypothesis.

    ** Where each part is

    - [Prelude] (this file): results, panics, machine integers, list updates,
      the tactics and hint databases of the library.
    - [Capability] (crates/capability): slots, rights, tables, derivation,
      transfer and revocation.  [NameTable] and [GenTable]
      (crates/generational_table): stale-proof names.
    - [IntrusiveFifo] (crates/intrusive_fifo), [Rendezvous], [Notification] and
      [Timer] (crates/inter_process_communication): the queues, the synchronous
      endpoint, the asynchronous bit set and the timer list.
    - [Handshake] (crates/thread_wake_handshake and, in module StealSlot,
      crates/work_steal_slot) and [Scheduler] (kernel/src/sched.rs,
      kernel/src/cpu.rs): the per-thread block/wake word, the per-core run
      queues, and the interleaving of every core's steps as one step relation.
    - [KernelIpc] (the IPC half of kernel/src/sched.rs and the calls of
      kernel/src/syscall.rs on endpoints, replies and notifications): what a
      thread does when it invokes a capability, over the scheduler's machine and
      the contracts that [Rendezvous] and [Notification] are proved to implement;
      a call that blocks is a first half and a continuation.  [IpcInvariant]:
      the invariant of threads, queues and reply capabilities, and that every
      call keeps it.  [IpcQueues]: what each path does to the queues of senders.
      [IpcTeardown] and [IpcReap]: that signals, deaths, strands
      and the teardown of a region keep it.  [IpcSystem]: executions as a step
      relation, the moves that compute one, and what holds of every reachable
      state.  [IpcAuthority]: which capabilities and how many objects any
      execution can lead to.
    - [Revocation] (kernel/src/revoke.rs and the sweeps of kernel/src/sched.rs):
      the registry of address spaces, the mapping logs, taking frames and regions
      back.  A page a space was loaded with, which the source maps without recording
      it (AddressSpace::map_new), is told apart by a set of places the proofs carry
      beside the state.  [MappingCalls] (kernel/src/syscall.rs,
      kernel/src/user.rs): the system calls that map, unmap, slice and list.
    - [PageFrames] (crates/page_frames) and [Regions] (crates/memory_regions):
      physical memory, from bitmap to untyped regions.
    - [PageFormat], [Aarch64], [Sv39], [X86], [Mapper] (crates/paging): the
      descriptor formats behind one class, and the page-table walk, map, unmap,
      span and device-domain operations proved for any format that obeys it.
    - [DmaValidator] (crates/direct_memory_access_validator, and the
      notification path of kernel/src/virtio.rs): what a device may reach.
    - [UserHeap] (crates/user_mode_heap): the free-list allocator.
    - [Elf] (crates/elf): what the loader accepts.  [ElfNote]
      (crates/elf/src/note.rs): the search for a note in an image.
    - [Manifest] (crates/grant_plan: what a program declares), [ManifestNote]
      (crates/manifest_note, and how components/src/timetable.rs reads it): the
      manifest an image carries.
    - [Nav] (crates/grant_plan/src/nav.rs), [ShellWords] (word.rs, line.rs,
      parse), [NameSets] (expand.rs) and [GrantPlan] (the plan itself): from a
      command line to the capabilities a program is started with.
    - [ActivationSet] (crates/activation_set, and the generations that
      crates/system_initializer keeps): what is installed, as tables of text and the
      steps that make one live.
    - [BootSlot] (crates/boot_slot, with uefi_loader/src/chooser.rs): the A/B
      boot protocol and its attempt counter.
    - [SubtreeScope] (crates/subtree_scope): directory rights, the path walk
      and the bindings of badges to directories.  [FsProtocol]
      (crates/filesystem_protocol): the file contract's words, verbs and byte
      formats, the attribute store among them.  [FileMemo] and [FileServer]
      (redoxfs_server/src/memo.rs, lib.rs and the loop in
      src/bin/redoxfs_server.rs): every verb over any engine of the class
      [Engine].  [FileEngine]: the laws of the engine on consistent images, and what
      the server's transactions leave alone.  [TreeEngine]: an engine that keeps the
      laws.  [FileConfinement]: the server's invariant, and what a client can reach.
    - [AddressSpaces] (crates/address_space_identifier, cpu_set,
      address_space_map): identifiers of address spaces, sets of cores, and the
      bands of the user address space.  [NifeFs] (crates/nifefs): the packed
      boot image.  [Glob] (crates/glob): the shell's pattern matcher.
    - [Calendar] (crates/calendar): dates, weekdays, offsets and RFC 3339 text.
      [LineEditor] (crates/line_editor): the terminal's line discipline, with a
      terminal of any width, which wraps, that follows the bytes it sends, and a
      reference editor.

    ** What the theorems show

    - Authority: a capability never gains rights along any sequence of table
      operations; revocation removes exactly the matching slots; a removed name
      never resolves again.
    - Scheduling: a thread is on at most one core, a ready thread is queued
      exactly once, no wake is lost, whatever the interleaving.
    - Queues: endpoints refine an abstract rendezvous; no waiter, signal or bit
      is lost; ticks fire exactly the timers that are due.
    - IPC, of every state the kernel can reach: the queues hold threads blocked on
      them alone, and a thread that comes to wait is in one until it is received; a reply capability answers one open call, once; no
      call, death, interrupt or teardown panics; a server that leaves and a
      region that is torn down free everybody who waits on them; a message
      crosses whichever side comes first; capabilities spread by delegation
      alone; tables and counters keep their bounds.
    - Revocation and mapping: a revoked run or region is reachable through no
      capability and no page table, and what shares no base with it is not touched;
      a run is mapped whole or not at all; every mapping a system call made is in
      exactly one log entry, and a listing shows each once.
    - Planning: a program is given exactly what its manifest declares and its
      line designates; a manifest's bytes are canonical and are read back from
      the image that carries them; paths, words and batches of names mean what
      they say.
    - Memory: no frame or page is handed out twice; the mapper refines a finite
      map of pages for every descriptor format; a device domain reaches exactly
      its grant; a validated descriptor chain stays inside the grant.
    - Loading and booting: an accepted image stays inside its file and its
      address range; a bad upgrade leaves the old slot bootable.
    - Installing: a change either leaves the live table or makes the next one live,
      and which it was is what it answers, up to the size of a table the system reads
      back; a bare word runs what was installed last.
    - Files: the server does not panic and a bound client stays inside the
      directory it was granted, as long as the binder binds each handle once and no
      directory is removed while a handle to it is open (two runs show why); the
      memo answers as the engine would and stays in its budgets; the attribute
      store is a map; the wire formats round-trip.
    - Images, names and patterns: a packed image reads back as it was written
      and a malformed one never makes the reader panic; no two address spaces
      share an identifier; the matcher decides the language its patterns denote
      within a polynomial bound.
    - Time and text: a printed timestamp is read back and the reader answers on
      any bytes; the closed-form day number counts days; the terminal shows the
      line being edited, whatever is typed, as long as it fits the row, and the editor
      does what the reference editor does.

    ** What is not modelled

    Assembly, context switch, trap entry and device register access
    (kernel/src/arch, kernel/src/drivers), whose effect is not in the source
    text; the RedoxFS engine under the file server (vendored), which is a
    parameter with laws; the other user components and services (components),
    which are clients of the interfaces modelled here; build tools (xtask); and
    the crates the manifest lists as not modelled.  Of the parts that are
    modelled: locks, tracing and statistics, instruction-cache synchronisation,
    the revocation of device frames and port ranges, the timers in a region's
    teardown, and the system calls on other objects than those named above.
    Memory ordering is modelled as interleaving of atomic steps, not as a weak
    memory model; a system call runs with interrupts masked, so a thread is not
    ended between two of its critical sections unless the source lets it. *)

From stdpp Require Export prelude gmap list numbers strings.
From Stdlib Require Export ZArith Lia Sorted.
#[export] Set Default Goal Selector "1".
Local Open Scope Z_scope.

(** ** Rust's [Result] and panics *)

(** [Result<A, E>], the error type first so that [result E] is a monad. *)
Inductive result (E A : Type) : Type :=
  | Ok (a : A)
  | Err (e : E).
Arguments Ok {E A} a.
Arguments Err {E A} e.

#[export] Instance result_ret {E} : MRet (result E) := fun A a => Ok a.
#[export] Instance result_bind {E} : MBind (result E) :=
  fun A B f r => match r with Ok a => f a | Err e => Err e end.
#[export] Instance result_eq_dec `{EqDecision E, EqDecision A} :
  EqDecision (result E A).
Proof. solve_decision. Defined.

(** [Option::ok_or]. *)
Definition ok_or {E A} (o : option A) (e : E) : result E A :=
  match o with Some a => Ok a | None => Err e end.

(** Code that may panic (an [assert!], an [expect], an index out of range). *)
Inductive run (A : Type) : Type :=
  | Done (a : A)
  | Panicked.
Arguments Done {A} a.
Arguments Panicked {A}.

#[export] Instance run_ret : MRet run := fun A a => Done a.
#[export] Instance run_bind : MBind run :=
  fun A B f r => match r with Done a => f a | Panicked => Panicked end.
#[export] Instance run_eq_dec `{EqDecision A} : EqDecision (run A).
Proof. solve_decision. Defined.

(** ** Machine integers

    A [w]-bit unsigned integer is a [Z] in [in_width w]. The operations below
    are the standard library's, at a width given in bits. *)

Definition in_width (w x : Z) : Prop := 0 <= x < 2 ^ w.
Definition wrap (w x : Z) : Z := x mod 2 ^ w.
Definition u64_max : Z := 2 ^ 64 - 1.
Definition u32_max : Z := 2 ^ 32 - 1.

Definition checked_add (w x y : Z) : option Z :=
  if decide (x + y < 2 ^ w) then Some (x + y) else None.
Definition checked_mul (w x y : Z) : option Z :=
  if decide (x * y < 2 ^ w) then Some (x * y) else None.
Definition saturating_add (w x y : Z) : Z := Z.min (x + y) (2 ^ w - 1).
Definition saturating_mul (w x y : Z) : Z := Z.min (x * y) (2 ^ w - 1).
Definition saturating_sub (x y : Z) : Z := Z.max 0 (x - y).

(** Rust's [!x] on a [w]-bit word. *)
Definition not_w (w x : Z) : Z := Z.ldiff (Z.ones w) x.

Definition is_multiple_of (x n : Z) : bool := x mod n =? 0.
Definition div_ceil (x n : Z) : Z := (x + n - 1) / n.
Definition next_multiple_of (x n : Z) : Z := div_ceil x n * n.

(** [trailing_zeros] of a [w]-bit word; [w] itself for the zero word. *)
Fixpoint trailing_zeros (w : nat) (x : Z) : nat :=
  match w with
  | O => O
  | S w' => if Z.odd x then O else S (trailing_zeros w' (x / 2))
  end.

(** [trailing_ones] of a [w]-bit word; [w] itself for the all-ones word. *)
Fixpoint trailing_ones (w : nat) (x : Z) : nat :=
  match w with
  | O => O
  | S w' => if Z.odd x then S (trailing_ones w' (x / 2)) else O
  end.

(** [count_ones] of a [w]-bit word. *)
Fixpoint count_ones (w : nat) (x : Z) : nat :=
  match w with
  | O => O
  | S w' => ((if Z.odd x then 1 else 0) + count_ones w' (x / 2))%nat
  end.

(** ** Bytes

    A byte is a [Z] below 256; a word of [n] bytes is little-endian. *)

Definition bytes_ok (b : list Z) : Prop := Forall (fun x => 0 <= x < 256) b.
Definition from_le_bytes (l : list Z) : Z := foldr (fun x n => x + 256 * n) 0 l.
Fixpoint to_le_bytes (n : nat) (x : Z) : list Z :=
  match n with O => [] | S n' => x mod 256 :: to_le_bytes n' (x / 256) end.

(** Settle a decidable proposition about concrete data by evaluation. *)
Ltac vm_decide := apply (bool_decide_unpack _); vm_compute; exact I.

#[export] Instance bytes_ok_dec b : Decision (bytes_ok b).
Proof. unfold bytes_ok. apply _. Defined.

Lemma from_le_range l : bytes_ok l -> 0 <= from_le_bytes l < 256 ^ Z.of_nat (length l).
Proof.
  induction 1 as [|x l Hx _ IH]; simpl from_le_bytes; simpl length; [done|].
  rewrite Nat2Z.inj_succ, Z.pow_succ_r by lia. lia.
Qed.

Lemma length_to_le n x : length (to_le_bytes n x) = n.
Proof. revert x. induction n; intros; simpl; auto. Qed.

Lemma to_le_ok n x : bytes_ok (to_le_bytes n x).
Proof.
  revert x. induction n; intros x; simpl; constructor; [|apply IHn].
  apply Z.mod_pos_bound. lia.
Qed.

(** A word read back from its own bytes, and bytes rebuilt from their word. *)
Lemma from_to_le n x : 0 <= x < 256 ^ Z.of_nat n -> from_le_bytes (to_le_bytes n x) = x.
Proof.
  revert x. induction n as [|n IH]; intros x Hx; [simpl in *; lia|].
  rewrite Nat2Z.inj_succ, Z.pow_succ_r in Hx by lia.
  simpl from_le_bytes. rewrite IH.
  - pose proof (Z.div_mod x 256). lia.
  - split; [apply Z.div_pos; lia | apply Z.div_lt_upper_bound; lia].
Qed.

Lemma to_from_le l : bytes_ok l -> to_le_bytes (length l) (from_le_bytes l) = l.
Proof.
  induction 1 as [|x l Hx _ IH]; [done|]. simpl length. cbn [to_le_bytes]. simpl from_le_bytes. f_equal.
  - rewrite Z.mul_comm, Z.mod_add by lia. by apply Z.mod_small.
  - rewrite Z.mul_comm, Z.div_add, Z.div_small, Z.add_0_l by lia. done.
Qed.

(** ** Text *)

(** The bytes of a literal. *)
Definition lit (s : string) : list Z := (fun a => Z.of_N (Ascii.N_of_ascii a)) <$> String.list_ascii_of_string s.

Definition is_ascii_digit (b : Z) : bool := (48 <=? b) && (b <=? 57).
Definition is_ascii_alphabetic (b : Z) : bool := ((65 <=? b) && (b <=? 90)) || ((97 <=? b) && (b <=? 122)).
Definition is_ascii_alphanumeric (b : Z) : bool := is_ascii_alphabetic b || is_ascii_digit b.
Definition is_ascii_whitespace (b : Z) : bool :=
  (b =? 32) || (b =? 9) || (b =? 10) || (b =? 12) || (b =? 13).

(** [core::str::from_utf8(..).is_ok()]. *)
Definition cont (b : Z) : bool := (0x80 <=? b) && (b <=? 0xBF).
Definition between (lo hi b : Z) : bool := (lo <=? b) && (b <=? hi).
Fixpoint utf8_valid (l : list Z) : bool :=
  match l with
  | [] => true
  | b0 :: r =>
      if between 0 0x7F b0 then utf8_valid r
      else if between 0xC2 0xDF b0 then
        match r with b1 :: r1 => cont b1 && utf8_valid r1 | _ => false end
      else if between 0xE0 0xEF b0 then
        match r with
        | b1 :: b2 :: r2 =>
            between (if b0 =? 0xE0 then 0xA0 else 0x80) (if b0 =? 0xED then 0x9F else 0xBF) b1 &&
            cont b2 && utf8_valid r2
        | _ => false
        end
      else if between 0xF0 0xF4 b0 then
        match r with
        | b1 :: b2 :: b3 :: r3 =>
            between (if b0 =? 0xF0 then 0x90 else 0x80) (if b0 =? 0xF4 then 0x8F else 0xBF) b1 &&
            cont b2 && cont b3 && utf8_valid r3
        | _ => false
        end
      else false
  end.

(** ** Slices and fixed arrays *)

(** A run of bytes written over blank ones. *)
Lemma list_inserts_blank (a b l : list Z) n : (length l <= n)%nat ->
  list_inserts (length a) l (a ++ replicate n 0 ++ b) = a ++ (l ++ replicate (n - length l) 0) ++ b.
Proof.
  revert a n. induction l as [|x l IH]; intros a n Hn; cbn [list_inserts length]; [by rewrite Nat.sub_0_r|].
  destruct n as [|n]; [simpl in Hn; lia|]. cbn [length replicate] in *.
  replace (S (length a)) with (length (a ++ [0])) by (rewrite length_app; simpl; lia).
  replace (a ++ (0 :: replicate n 0) ++ b) with ((a ++ [0]) ++ replicate n 0 ++ b) by by rewrite <- (assoc_L app).
  rewrite IH by lia. rewrite <- (assoc_L app), insert_app_r_alt, Nat.sub_diag by done. done.
Qed.


(** [slots.iter().position(p)]. *)
Fixpoint position {A} (p : A -> bool) (l : list A) : option nat :=
  match l with
  | [] => None
  | x :: l' => if p x then Some 0%nat else S <$> position p l'
  end.

Definition is_some {A} (o : option A) : bool :=
  match o with Some _ => true | None => false end.
Definition is_none {A} (o : option A) : bool := negb (is_some o).

(** How many entries of an [[Option<T>; N]] array are occupied. *)
Definition occupied {A} (l : list (option A)) : nat :=
  length (filter (fun o => is_some o = true) l).

(** ** Bit lemmas *)

Create HintDb nife discriminated.

Lemma testbit_not_w w x i :
  0 <= w -> 0 <= i -> Z.testbit (not_w w x) i = (i <? w) && negb (Z.testbit x i).
Proof. intros. unfold not_w. by rewrite Z.ldiff_spec, Z.testbit_ones_nonneg. Qed.

Lemma testbit_bit n i :
  0 <= n -> Z.testbit (Z.shiftl 1 n) i = bool_decide (i = n).
Proof.
  intros. rewrite Z.shiftl_1_l. case_bool_decide as Hi.
  - subst. by apply Z.pow2_bits_true.
  - rewrite Z.pow2_bits_false; [done | congruence].
Qed.

Lemma testbit_above w x i :
  in_width w x -> w <= i -> Z.testbit x i = false.
Proof.
  intros [? ?] ?. destruct (decide (x = 0)) as [-> | ?]; [apply Z.testbit_0_l|].
  apply Z.bits_above_log2; [done|].
  assert (Z.log2 x < w); [|lia]. apply Z.log2_lt_pow2; lia.
Qed.

Lemma in_width_bits w x :
  0 <= w -> 0 <= x -> (forall i, w <= i -> Z.testbit x i = false) -> in_width w x.
Proof.
  intros Hw Hx Hb. split; [done|].
  destruct (decide (x = 0)) as [-> | Hnz]; [lia|].
  apply Z.log2_lt_pow2; [lia|].
  destruct (Z.lt_ge_cases (Z.log2 x) w) as [|Hge]; [done|].
  exfalso. specialize (Hb (Z.log2 x) Hge). rewrite Z.bit_log2 in Hb; [done | lia].
Qed.

Lemma in_width_land w x y : in_width w x -> 0 <= y -> in_width w (Z.land x y).
Proof.
  intros Hx Hy. destruct (Hx) as [? ?].
  assert (0 <= w); [destruct (Z.lt_ge_cases w 0) as [Hn|]; [|done];
    rewrite (Z.pow_neg_r 2 w Hn) in *; lia|].
  apply in_width_bits; [done| apply Z.land_nonneg; auto |].
  intros i Hi. rewrite Z.land_spec, (testbit_above w x i); auto.
Qed.

Lemma in_width_lor w x y : 0 <= w -> in_width w x -> in_width w y -> in_width w (Z.lor x y).
Proof.
  intros ? Hx Hy. apply in_width_bits; [done | apply Z.lor_nonneg; split; [apply Hx | apply Hy] |].
  intros i Hi. by rewrite Z.lor_spec, (testbit_above w x i), (testbit_above w y i).
Qed.

Lemma in_width_not_w w x : 0 <= w -> in_width w (not_w w x).
Proof.
  intros Hw. assert (0 <= not_w w x).
  { unfold not_w. apply Z.ldiff_nonneg. left. rewrite Z.ones_equiv.
    assert (0 < 2 ^ w) by (apply Z.pow_pos_nonneg; lia). lia. }
  apply in_width_bits; [done|done|].
  intros i Hi. rewrite testbit_not_w by lia. by destruct (Z.ltb_spec i w); [lia|].
Qed.

Lemma in_width_bit w n : 0 <= n < w -> in_width w (Z.shiftl 1 n).
Proof.
  intros. rewrite Z.shiftl_1_l. split; [apply Z.pow_nonneg; lia|].
  apply Z.pow_lt_mono_r; lia.
Qed.

Lemma wrap_small w x : in_width w x -> wrap w x = x.
Proof. intros. by apply Z.mod_small. Qed.

Lemma wrap_range w x : 0 <= w -> in_width w (wrap w x).
Proof. intros. apply Z.mod_pos_bound. apply Z.pow_pos_nonneg; lia. Qed.

Lemma shiftr_width w n x : 0 <= n <= w -> in_width w x -> in_width (w - n) (Z.shiftr x n).
Proof.
  intros Hn [Hx0 Hx]. rewrite Z.shiftr_div_pow2 by lia.
  assert (0 < 2 ^ n) by (apply Z.pow_pos_nonneg; lia). split.
  - by apply Z.div_pos.
  - apply Z.div_lt_upper_bound; [done|]. rewrite <- Z.pow_add_r by lia.
    by replace (n + (w - n)) with w by lia.
Qed.

(** ** Bit scans *)

Lemma trailing_zeros_bound w x : (trailing_zeros w x <= w)%nat.
Proof. revert x. induction w; intros; simpl; [done|]. destruct (Z.odd x); [lia|]. specialize (IHw (x / 2)). lia. Qed.

Lemma trailing_zeros_low w x i :
  0 <= i < Z.of_nat (trailing_zeros w x) -> Z.testbit x i = false.
Proof.
  revert x i. induction w as [|w IH]; intros x i Hi; cbn [trailing_zeros] in Hi; [lia|].
  destruct (Z.odd x) eqn:Hodd; [lia|].
  destruct (decide (i = 0)) as [->|]; [by rewrite Z.bit0_odd|].
  replace i with (Z.succ (Z.pred i)) by lia.
  rewrite <- Z.div2_bits by lia. apply IH. lia.
Qed.

Lemma trailing_zeros_hit w x :
  (trailing_zeros w x < w)%nat -> Z.testbit x (Z.of_nat (trailing_zeros w x)) = true.
Proof.
  revert x. induction w as [|w IH]; intros x Hlt; cbn [trailing_zeros] in *; [lia|].
  destruct (Z.odd x) eqn:Hodd; [by rewrite Z.bit0_odd|].
  rewrite Nat2Z.inj_succ, <- Z.div2_bits by lia. apply IH. lia.
Qed.

(** A nonzero word has its lowest set bit below the width. *)
Lemma trailing_zeros_lt w x :
  in_width (Z.of_nat w) x -> x <> 0 -> (trailing_zeros w x < w)%nat.
Proof.
  intros Hw Hnz. destruct (decide (trailing_zeros w x < w)%nat) as [|Hge]; [done|].
  exfalso. apply Hnz. apply Z.bits_inj_0. intros i.
  destruct (Z.lt_ge_cases i 0); [by apply Z.testbit_neg_r|].
  destruct (Z.lt_ge_cases i (Z.of_nat w)).
  - apply (trailing_zeros_low w). pose proof (trailing_zeros_bound w x). lia.
  - by apply (testbit_above (Z.of_nat w)).
Qed.

Lemma trailing_ones_low w x i :
  0 <= i < Z.of_nat (trailing_ones w x) -> Z.testbit x i = true.
Proof.
  revert x i. induction w as [|w IH]; intros x i Hi; cbn [trailing_ones] in Hi; [lia|].
  destruct (Z.odd x) eqn:Hodd; [|lia].
  destruct (decide (i = 0)) as [->|]; [by rewrite Z.bit0_odd|].
  replace i with (Z.succ (Z.pred i)) by lia.
  rewrite <- Z.div2_bits by lia. apply IH. lia.
Qed.

Lemma trailing_ones_stop w x :
  (trailing_ones w x < w)%nat -> Z.testbit x (Z.of_nat (trailing_ones w x)) = false.
Proof.
  revert x. induction w as [|w IH]; intros x Hlt; cbn [trailing_ones] in *; [lia|].
  destruct (Z.odd x) eqn:Hodd; [|by rewrite Z.bit0_odd].
  rewrite Nat2Z.inj_succ, <- Z.div2_bits by lia. apply IH. lia.
Qed.

Lemma trailing_ones_bound w x : (trailing_ones w x <= w)%nat.
Proof. revert x. induction w; intros; simpl; [done|]. destruct (Z.odd x); [|lia]. specialize (IHw (x / 2)). lia. Qed.

(** A word that is not all ones has a clear bit below the width. *)
Lemma trailing_ones_lt w x :
  in_width (Z.of_nat w) x -> x <> 2 ^ Z.of_nat w - 1 -> (trailing_ones w x < w)%nat.
Proof.
  intros Hw Hnz. destruct (decide (trailing_ones w x < w)%nat) as [|Hge]; [done|].
  exfalso. apply Hnz. rewrite Z.sub_1_r, <- Z.ones_equiv. apply Z.bits_inj'. intros i Hi.
  rewrite Z.testbit_ones_nonneg by lia.
  destruct (Z.ltb_spec i (Z.of_nat w)).
  - apply (trailing_ones_low w). pose proof (trailing_ones_bound w x). lia.
  - by apply (testbit_above (Z.of_nat w)).
Qed.

(** [x & (x - 1)] clears the lowest set bit and no other. *)
Lemma clear_lowest x t i :
  0 < x -> 0 <= t -> (forall j, 0 <= j < t -> Z.testbit x j = false) ->
  Z.testbit x t = true -> 0 <= i ->
  Z.testbit (Z.land x (x - 1)) i = Z.testbit x i && negb (bool_decide (i = t)).
Proof.
  intros Hx Ht Hlow Hhit Hi.
  assert (Hdec : x = Z.shiftl (x / 2 ^ t) t).
  { apply Z.bits_inj'. intros j Hj. rewrite Z.shiftl_spec by done.
    destruct (Z.lt_ge_cases j t).
    - rewrite (Z.testbit_neg_r _ (j - t)) by lia. apply Hlow. lia.
    - rewrite Z.div_pow2_bits by lia. f_equal. lia. }
  set (q := x / 2 ^ t) in *.
  assert (Hodd : Z.odd q = true).
  { rewrite <- Z.bit0_odd. unfold q. rewrite Z.div_pow2_bits by lia. by rewrite Z.add_0_l. }
  assert (Hpow : 0 < 2 ^ t) by (apply Z.pow_pos_nonneg; lia).
  apply Z.odd_spec in Hodd as [m Hm].
  assert (Hx1 : x - 1 = Z.shiftl (q - 1) t + Z.ones t).
  { rewrite Hdec, !Z.shiftl_mul_pow2, Z.ones_equiv by lia. nia. }
  assert (Hx1' : x - 1 = Z.lor (Z.shiftl (q - 1) t) (Z.ones t)).
  { rewrite Hx1. apply Z.add_nocarry_lor. apply Z.bits_inj'. intros j Hj.
    rewrite Z.land_spec, Z.shiftl_spec, Z.testbit_0_l by done.
    destruct (Z.lt_ge_cases j t).
    - by rewrite Z.testbit_neg_r by lia.
    - by rewrite Z.ones_spec_high, andb_false_r by lia. }
  rewrite Z.land_spec, Hx1', Z.lor_spec, Z.shiftl_spec by done.
  destruct (Z.lt_ge_cases i t).
  - rewrite Hlow by lia. done.
  - rewrite Z.ones_spec_high by lia. rewrite orb_false_r.
    rewrite Hdec at 1 2. rewrite Z.shiftl_spec by done.
    case_bool_decide as Heq.
    + subst i. rewrite Z.sub_diag. replace (q - 1) with (2 * m) by lia.
      rewrite Z.testbit_even_0. simpl. by rewrite !andb_false_r.
    + replace (i - t) with (Z.succ (i - t - 1)) by lia.
      replace (q - 1) with (2 * m) by lia. rewrite Hm.
      rewrite Z.testbit_odd_succ, Z.testbit_even_succ by lia.
      by destruct (Z.testbit m (i - t - 1)).
Qed.

(** ** List lemmas *)

Section lists.
Context {A : Type}.
Implicit Types l : list A.

Lemma position_Some p l i :
  position p l = Some i ->
  exists x, l !! i = Some x /\ p x = true /\
            forall j y, (j < i)%nat -> l !! j = Some y -> p y = false.
Proof.
  revert i. induction l as [|x l IH]; intros i Hp; [done|].
  simpl in Hp. destruct (p x) eqn:Hx.
  - simplify_eq. exists x. split_and!; [done|done|]. intros; lia.
  - destruct (position p l) as [k|] eqn:Hk; [|done]. simplify_eq/=.
    destruct (IH k eq_refl) as (y & Hy & Hpy & Hlow). exists y.
    split_and!; [done|done|]. intros [|j] z Hj Hz; simplify_eq/=; [done|].
    apply (Hlow j z); [lia|done].
Qed.

Lemma position_None p l :
  position p l = None -> forall i x, l !! i = Some x -> p x = false.
Proof.
  induction l as [|x l IH]; intros Hp i y Hy; [done|].
  simpl in Hp. destruct (p x) eqn:Hx; [done|].
  destruct (position p l) eqn:Hk; [done|].
  destruct i; simplify_eq/=; eauto.
Qed.
End lists.

(** Sweeps over an indexed array visit their hits in index order. *)
Lemma omap_imap_sorted {A B} (f : nat -> A -> option B) (key : B -> nat) (l : list A) (k : nat) :
  (forall i a b, f i a = Some b -> key b = i) ->
  StronglySorted lt (key <$> omap (fun '(i, a) => f i a) (imap (fun i a => ((k + i)%nat, a)) l)) /\
  Forall (fun i => (k <= i)%nat) (key <$> omap (fun '(i, a) => f i a) (imap (fun i a => ((k + i)%nat, a)) l)).
Proof.
  intros Hkey. revert k. induction l as [|a l IH]; intros k; simpl; [by repeat constructor|].
  specialize (IH (S k)).
  assert (Heq : imap ((fun i a => ((k + i)%nat, a)) ∘ S) l = imap (fun i a => ((S k + i)%nat, a)) l).
  { apply imap_ext. intros. simpl. by rewrite Nat.add_succ_r. }
  rewrite Heq, Nat.add_0_r. destruct IH as [IH1 IH2].
  destruct (f k a) as [b|] eqn:Hf; simpl.
  - rewrite (Hkey _ _ _ Hf). split.
    + constructor; [done|]. eapply Forall_impl; [exact IH2|]. simpl. lia.
    + constructor; [done|]. eapply Forall_impl; [exact IH2|]. simpl. lia.
  - split; [done|]. eapply Forall_impl; [exact IH2|]. simpl. lia.
Qed.

Lemma drop_imap_pair {A} (l : list A) n :
  drop n (imap (fun i a => (i, a)) l) = imap (fun i a => ((n + i)%nat, a)) (drop n l).
Proof.
  apply list_eq. intros i. rewrite lookup_drop, !list_lookup_imap, lookup_drop. done.
Qed.

Lemma sorted_nodup_fmap {A} (key : A -> nat) (name : A -> Z) (l : list A) :
  (forall x y, x ∈ l -> y ∈ l -> name x = name y -> key x = key y) ->
  StronglySorted lt (key <$> l) -> NoDup (name <$> l).
Proof.
  induction l as [|x l IH]; intros Hinj Hs; simpl in *; [constructor|].
  apply StronglySorted_inv in Hs as [Hs Hall]. constructor.
  - intros Hin. apply list_elem_of_fmap in Hin as (y & Hy & Hin).
    assert (key x = key y) by (apply Hinj; [left|by right|done]).
    rewrite Forall_fmap, Forall_forall in Hall. specialize (Hall y Hin). simpl in Hall. lia.
  - apply IH; [|done]. intros; apply Hinj; by try right.
Qed.

Lemma omap_imap_length {A B} (f : nat -> A -> B) (l : list (option A)) (k : nat -> nat) :
  length (omap (fun '(i, o) => f i <$> o) (imap (fun i o => (k i, o)) l)) =
  length (omap (fun o => o) l).
Proof.
  revert k. induction l as [|o l IH]; intros k; [done|].
  simpl. destruct o; simpl; [f_equal|]; apply (IH (k ∘ S)).
Qed.

Section occupancy.
Context {A : Type}.
Implicit Types l : list (option A).

Lemma occupied_cons (o : option A) l :
  occupied (o :: l) = ((if is_some o then 1 else 0) + occupied l)%nat.
Proof. unfold occupied. rewrite filter_cons. by destruct o. Qed.

Lemma occupied_replicate n : occupied (replicate n (@None A)) = 0%nat.
Proof. induction n; [done|]. simpl. by rewrite occupied_cons. Qed.

Lemma occupied_le l : (occupied l <= length l)%nat.
Proof. apply length_filter. Qed.

Lemma occupied_insert l i o o' :
  l !! i = Some o ->
  (occupied (<[i:=o']> l) + (if is_some o then 1 else 0) =
   occupied l + (if is_some o' then 1 else 0))%nat.
Proof.
  revert i. induction l as [|x l IH]; intros [|i] Hi; simplify_eq/=.
  - rewrite !occupied_cons. lia.
  - rewrite !occupied_cons. specialize (IH i Hi). lia.
Qed.

Lemma occupied_pos l i a : l !! i = Some (Some a) -> (0 < occupied l)%nat.
Proof.
  revert i. induction l as [|x l IH]; intros [|i] Hi; simplify_eq/=;
    rewrite occupied_cons; [simpl; lia|]. specialize (IH i Hi). lia.
Qed.

Lemma occupied_all l : occupied l = length l -> forall i o, l !! i = Some o -> is_some o = true.
Proof.
  induction l as [|x l IH]; intros Hl i o Hi; [done|].
  rewrite occupied_cons in Hl. simpl in Hl. pose proof (occupied_le l).
  destruct x; simpl in Hl; [|lia]. destruct i; simplify_eq/=; [done|].
  apply (IH ltac:(lia) i o Hi).
Qed.

Lemma occupied_zero l : occupied l = 0%nat -> forall i o, l !! i = Some o -> o = None.
Proof.
  intros Hz i [a|] Hi; [|done]. pose proof (occupied_pos l i a Hi). lia.
Qed.
End occupancy.

#[global] Arguments trailing_zeros : simpl never.
#[global] Arguments trailing_ones : simpl never.
#[global] Arguments count_ones : simpl never.
#[global] Arguments Nat.eqb : simpl never.
#[global] Arguments Nat.leb : simpl never.
#[global] Arguments Nat.ltb : simpl never.

(** ** Finite executions of a step relation *)

Section executions.
Context {S : Type} (step : S -> S -> Prop).

Inductive steps : S -> S -> Prop :=
  | steps_refl s : steps s s
  | steps_step s1 s2 s3 : step s1 s2 -> steps s2 s3 -> steps s1 s3.

Lemma steps_invariant (P : S -> Prop) :
  (forall s s', P s -> step s s' -> P s') ->
  forall s s', steps s s' -> P s -> P s'.
Proof. intros Hstep s s' Hs. induction Hs; eauto. Qed.

Lemma steps_trans s1 s2 s3 : steps s1 s2 -> steps s2 s3 -> steps s1 s3.
Proof. induction 1; eauto using steps. Qed.
End executions.

#[export] Hint Constructors steps : nife.
