(* ===== verification/Capability.v ===== *)
(** * Capability tables (crates/capability/src/lib.rs)

    [Rights] is a 32-bit set of verbs; a [Cap] names an object with rights; a
    [CapabilityTable] is a process's slot array with its free-slot word, its
    occupancy count and its high-water mark. The crate's one global, the [PEAK]
    word that [note_peak] raises, is threaded with the table in [World], so an
    operation's effect on it is part of the operation. *)

From S2P Require Import Prelude.
Local Open Scope Z_scope.

Module Capability.

(** ** Rights *)

Record Rights := MkRights { bits : Z }.

#[export] Instance Rights_eq_dec : EqDecision Rights.
Proof. solve_decision. Defined.

Definition NONE : Rights := MkRights 0.
Definition READ : Rights := MkRights (Z.shiftl 1 0).
Definition WRITE : Rights := MkRights (Z.shiftl 1 1).
Definition GRANT : Rights := MkRights (Z.shiftl 1 2).
Definition ENUMERATE : Rights := MkRights (Z.shiftl 1 3).
Definition ALL : Rights := MkRights 15.

Definition from_bits (b : Z) : Rights := MkRights (Z.land b (bits ALL)).
Definition union (r other : Rights) : Rights := MkRights (Z.lor (bits r) (bits other)).
Definition intersect (r other : Rights) : Rights := MkRights (Z.land (bits r) (bits other)).
Definition allows (r needed : Rights) : bool := Z.land (bits r) (bits needed) =? bits needed.
Definition is_subset_of (r other : Rights) : bool :=
  Z.land (bits r) (not_w 32 (bits other)) =? 0.

(** ** Capabilities and the supervisor's decisions *)

Record Cap (Obj : Type) := MkCap { object : Obj; rights : Rights }.
Arguments MkCap {Obj} object rights.
Arguments object {Obj} c : rename.
Arguments rights {Obj} c : rename.

#[export] Instance Cap_eq_dec {Obj} `{EqDecision Obj} : EqDecision (Cap Obj).
Proof. solve_decision. Defined.

Definition mint_child {Obj} (c : Cap Obj) (o : Obj) : Cap Obj := MkCap o (rights c).

Inductive Reap := Permitted | StillAlive | NotSupervised.

Definition reap_decision (fault_ep : option Z) (invoked_ep : Z) (dead : bool) : Reap :=
  match fault_ep with
  | Some ep => if ep =? invoked_ep then (if dead then Permitted else StillAlive)
               else NotSupervised
  | None => NotSupervised
  end.

Definition survey_includes (fault_ep : option Z) (invoked_ep : Z) : bool :=
  match fault_ep with Some ep => ep =? invoked_ep | None => false end.

Inductive Error := NoSuchSlot | CannotWiden | NoFreeSlot.

#[export] Instance Error_eq_dec : EqDecision Error.
Proof. solve_decision. Defined.

Definition MAX_SLOTS : nat := 32.

(** ** The table *)

Record CapabilityTable (Obj : Type) := MkTable {
  slots : list (option (Cap Obj));
  free : Z;
  used : Z;
  peak : Z }.
Arguments MkTable {Obj} slots free used peak.
Arguments slots {Obj} c : rename.
Arguments free {Obj} c : rename.
Arguments used {Obj} c : rename.
Arguments peak {Obj} c : rename.

(** A table together with the crate's static [PEAK] word. *)
Record World (Obj : Type) := MkWorld { table : CapabilityTable Obj; PEAK : Z }.
Arguments MkWorld {Obj} table PEAK.
Arguments table {Obj} w : rename.
Arguments PEAK {Obj} w : rename.

(** [PEAK.fetch_max(packed)]. *)
Definition note_peak (PEAK peak : Z) (ceiling : nat) : Z :=
  let ceiling := Z.min (Z.of_nat ceiling) 65535 in
  let packed := Z.lor (Z.shiftl peak 16) ceiling in
  Z.max PEAK packed.

Definition highest_seen (PEAK : Z) : Z * Z := (Z.shiftr PEAK 16, Z.land PEAK 65535).

Section table.
Context {Obj : Type} (N : nat).

Definition ALL_FREE : Z :=
  if decide (N = MAX_SLOTS) then u32_max else Z.shiftl 1 (Z.of_nat N) - 1.

Definition new : CapabilityTable Obj := MkTable (replicate N None) ALL_FREE 0 0.

Definition slot (t : CapabilityTable Obj) (s : nat) : option (Cap Obj) := mjoin (slots t !! s).

Definition first_free (t : CapabilityTable Obj) : option nat :=
  if free t =? 0 then None else Some (trailing_zeros 32 (free t)).

Definition occupied_mask (t : CapabilityTable Obj) : Z := Z.land (not_w 32 (free t)) ALL_FREE.

Definition all_free (t : CapabilityTable Obj) : bool := free t =? ALL_FREE.

Definition fill (w : World Obj) (s : nat) (cap : Cap Obj) : option bool * World Obj :=
  let t := table w in
  match slots t !! s with
  | None => (None, w)
  | Some old =>
      let was_empty := is_none old in
      let slots' := <[s := Some cap]> (slots t) in
      let free' := Z.land (free t) (not_w 32 (Z.shiftl 1 (Z.of_nat s))) in
      if was_empty then
        let used' := used t + 1 in
        if used' >? peak t then
          (Some was_empty,
           MkWorld (MkTable slots' free' used' used') (note_peak (PEAK w) used' N))
        else (Some was_empty, MkWorld (MkTable slots' free' used' (peak t)) (PEAK w))
      else (Some was_empty, MkWorld (MkTable slots' free' (used t) (peak t)) (PEAK w))
  end.

Definition empty (w : World Obj) (s : nat) : option (Cap Obj) * World Obj :=
  let t := table w in
  match slots t !! s with
  | Some (Some cap) =>
      (Some cap,
       MkWorld (MkTable (<[s := None]> (slots t))
                  (Z.lor (free t) (Z.shiftl 1 (Z.of_nat s)))
                  (used t - 1) (peak t)) (PEAK w))
  | _ => (None, w)
  end.

Definition is_empty (t : CapabilityTable Obj) : bool := all_free t.

Definition get (t : CapabilityTable Obj) (s : Z) : result Error (Cap Obj) :=
  ok_or (slot t (Z.to_nat s)) NoSuchSlot.

Definition get_with (t : CapabilityTable Obj) (s : Z) (needed : Rights) : result Error (Cap Obj) :=
  cap ← get t s;
  if negb (allows (rights cap) needed) then Err CannotWiden else Ok cap.

Definition insert (w : World Obj) (cap : Cap Obj) : result Error Z * World Obj :=
  match first_free (table w) with
  | None => (Err NoFreeSlot, w)
  | Some s => (Ok (Z.of_nat s), (fill w s cap).2)
  end.

Definition insert_at (w : World Obj) (s : Z) (cap : Cap Obj) : result Error Z * World Obj :=
  if s >=? Z.of_nat N then (Err NoSuchSlot, w)
  else if is_some (slot (table w) (Z.to_nat s)) then (Err NoFreeSlot, w)
  else (Ok s, (fill w (Z.to_nat s) cap).2).

Definition put (w : World Obj) (s : Z) (cap : Cap Obj) : result Error unit * World Obj :=
  match fill w (Z.to_nat s) cap with
  | (Some _, w') => (Ok tt, w')
  | (None, w') => (Err NoSuchSlot, w')
  end.

Definition derive (w : World Obj) (from to : Z) (r : Rights) : result Error unit * World Obj :=
  match get (table w) from with
  | Err e => (Err e, w)
  | Ok src =>
      if negb (is_subset_of r (rights src)) then (Err CannotWiden, w)
      else put w to (MkCap (object src) r)
  end.

Definition delete (w : World Obj) (s : Z) : result Error unit * World Obj :=
  match empty w (Z.to_nat s) with
  | (Some _, w') => (Ok tt, w')
  | (None, w') => (Err NoSuchSlot, w')
  end.

(** The [while occupied != 0] loop; [None] stands for a loop still running
    when the fuel is spent. *)
Fixpoint delete_matching_loop (fuel : nat) (occ : Z) (matches : Obj -> bool) (w : World Obj)
  : option (World Obj) :=
  match fuel with
  | O => None
  | S fuel' =>
      if occ =? 0 then Some w else
      let s := trailing_zeros 32 occ in
      let occ' := Z.land occ (occ - 1) in
      let w' :=
        match slot (table w) s with
        | Some c => if matches (object c) then (empty w s).2 else w
        | None => w
        end in
      delete_matching_loop fuel' occ' matches w'
  end.

Definition delete_matching (matches : Obj -> bool) (w : World Obj) : option (World Obj) :=
  delete_matching_loop (S MAX_SLOTS) (occupied_mask (table w)) matches w.
End table.

(** ** The rights lattice *)

Lemma is_subset_of_spec a b :
  in_width 32 (bits a) ->
  is_subset_of a b = true <->
  forall i, 0 <= i -> Z.testbit (bits a) i = true -> Z.testbit (bits b) i = true.
Proof.
  intros Ha. unfold is_subset_of. rewrite Z.eqb_eq. split.
  - intros Hz i Hi Hbit. destruct (Z.testbit (bits b) i) eqn:Hb; [done|].
    assert (Hf : Z.testbit (Z.land (bits a) (not_w 32 (bits b))) i = false)
      by (rewrite Hz; apply Z.testbit_0_l).
    rewrite Z.land_spec, testbit_not_w, Hbit, Hb in Hf by lia.
    destruct (Z.ltb_spec i 32); [done|]. by rewrite (testbit_above 32 (bits a) i) in Hbit.
  - intros Hsub. apply Z.bits_inj'. intros i Hi.
    rewrite Z.land_spec, testbit_not_w, Z.testbit_0_l by lia.
    destruct (Z.testbit (bits a) i) eqn:Hbit; [|done].
    rewrite (Hsub i Hi Hbit). by destruct (i <? 32).
Qed.

Lemma subset_refl a : in_width 32 (bits a) -> is_subset_of a a = true.
Proof. intros. by apply is_subset_of_spec. Qed.

Lemma subset_trans a b c :
  in_width 32 (bits a) -> in_width 32 (bits b) ->
  is_subset_of a b = true -> is_subset_of b c = true -> is_subset_of a c = true.
Proof.
  intros Ha Hb. rewrite !is_subset_of_spec by done. intros Hab Hbc i Hi Hbit. auto.
Qed.

(** ** Table well-formedness *)

Section wf.
Context {Obj : Type} (N : nat).
Implicit Types (t : CapabilityTable Obj) (w : World Obj).

(** The free word, the occupancy count and the high-water mark all agree with
    the slot array, and the global [PEAK] has seen this table's own peak. *)
Record wf (w : World Obj) : Prop := {
  wf_length : length (slots (table w)) = N;
  wf_free_width : in_width 32 (free (table w));
  wf_free : forall i : nat,
    Z.testbit (free (table w)) (Z.of_nat i) = true <-> slots (table w) !! i = Some None;
  wf_used : used (table w) = Z.of_nat (occupied (slots (table w)));
  wf_peak : used (table w) <= peak (table w) <= Z.of_nat N;
  wf_PEAK : peak (table w) <= (highest_seen (PEAK w)).1 }.

Hypothesis HN : (N <= MAX_SLOTS)%nat.

Lemma ALL_FREE_ones : ALL_FREE N = Z.ones (Z.of_nat N).
Proof.
  unfold ALL_FREE, MAX_SLOTS. rewrite Z.ones_equiv. case_decide as Hd.
  - subst. done.
  - rewrite Z.shiftl_1_l. lia.
Qed.

Lemma wf_new P : 0 <= P -> wf (MkWorld (new N) P).
Proof.
  intros HP. unfold MAX_SLOTS in HN. constructor; simpl.
  - apply length_replicate.
  - rewrite ALL_FREE_ones, Z.ones_equiv. split.
    + assert (0 < 2 ^ Z.of_nat N) by (apply Z.pow_pos_nonneg; lia). lia.
    + assert (2 ^ Z.of_nat N <= 2 ^ 32) by (apply Z.pow_le_mono_r; lia). lia.
  - intros i. rewrite ALL_FREE_ones, Z.testbit_ones_nonneg, lookup_replicate by lia.
    rewrite Z.ltb_lt. naive_solver lia.
  - by rewrite occupied_replicate.
  - lia.
  - rewrite Z.shiftr_div_pow2 by lia. apply Z.div_pos; lia.
Qed.

Lemma highest_seen_note_peak P p :
  0 <= p <= Z.of_nat N -> p <= (highest_seen (note_peak P p N)).1.
Proof.
  intros Hp. unfold MAX_SLOTS in HN. unfold note_peak, highest_seen. simpl.
  rewrite Z.min_l by lia.
  transitivity (Z.shiftr (Z.lor (Z.shiftl p 16) (Z.of_nat N)) 16).
  - rewrite Z.shiftr_lor, Z.shiftr_shiftl_l, Z.sub_diag, Z.shiftl_0_r by lia.
    rewrite (Z.shiftr_div_pow2 (Z.of_nat N)), Z.div_small, Z.lor_0_r by lia. done.
  - rewrite !Z.shiftr_div_pow2 by lia. apply Z.div_le_mono; lia.
Qed.

Lemma highest_seen_mono P p : (highest_seen P).1 <= (highest_seen (note_peak P p N)).1.
Proof.
  unfold note_peak, highest_seen. simpl. rewrite !Z.shiftr_div_pow2 by lia.
  apply Z.div_le_mono; lia.
Qed.

(** What [fill] leaves in the slots, whatever branch it takes. *)
Lemma fill_slots w s cap :
  slots (table (fill N w s cap).2) = <[s := Some cap]> (slots (table w)).
Proof.
  unfold fill. destruct (slots (table w) !! s) as [[old|]|] eqn:Hs; simpl; try done.
  - by destruct (_ >? _).
  - rewrite list_insert_ge; [done|]. by apply lookup_ge_None.
Qed.

Lemma fill_result w s cap :
  (fill N w s cap).1 = is_none <$> slots (table w) !! s.
Proof.
  unfold fill. destruct (slots (table w) !! s) as [[old|]|]; simpl; try done.
  by destruct (_ >? _).
Qed.

Lemma fill_wf w s cap : wf w -> wf (fill N w s cap).2.
Proof.
  intros Hw. destruct (slots (table w) !! s) as [old|] eqn:Hs;
    [|unfold fill; by rewrite Hs].
  assert (Hlt : (s < N)%nat) by (rewrite <- (wf_length w Hw); by eapply lookup_lt_Some).
  pose proof (occupied_insert (slots (table w)) s old (Some cap) Hs) as Hocc.
  pose proof (occupied_le (<[s:=Some cap]> (slots (table w)))) as Hle.
  rewrite length_insert, (wf_length w Hw) in Hle. simpl in Hocc.
  assert (Hfree : forall i : nat,
    Z.testbit (Z.land (free (table w)) (not_w 32 (Z.shiftl 1 (Z.of_nat s)))) (Z.of_nat i) = true
    <-> <[s:=Some cap]> (slots (table w)) !! i = Some None).
  { intros i. rewrite Z.land_spec, testbit_not_w, testbit_bit, andb_true_iff by lia.
    rewrite (wf_free w Hw i). destruct (decide (s = i)) as [->|Hne].
    - rewrite list_lookup_insert_eq by (rewrite (wf_length w Hw); lia).
      rewrite bool_decide_eq_true_2 by done. rewrite andb_false_r. naive_solver.
    - rewrite list_lookup_insert_ne by done. rewrite bool_decide_eq_false_2 by lia.
      rewrite andb_true_r, Z.ltb_lt. split; [naive_solver|]. intros Hi. split; [done|].
      apply lookup_lt_Some in Hi. rewrite (wf_length w Hw) in Hi. unfold MAX_SLOTS in HN. lia. }
  assert (Hwidth : in_width 32 (Z.land (free (table w)) (not_w 32 (Z.shiftl 1 (Z.of_nat s))))).
  { apply in_width_land; [apply Hw|]. apply in_width_not_w. lia. }
  pose proof (wf_used w Hw). pose proof (wf_peak w Hw). pose proof (wf_PEAK w Hw).
  unfold fill. rewrite Hs. destruct old as [old|]; simpl in *.
  - constructor; simpl; try done; try lia. rewrite length_insert. apply Hw.
  - destruct (Z.gtb_spec (used (table w) + 1) (peak (table w))); constructor; simpl; try done;
      try lia; try (rewrite length_insert; apply Hw).
    apply highest_seen_note_peak. lia.
Qed.

Lemma empty_slots w s :
  slots (table (empty w s).2) = <[s := None]> (slots (table w)).
Proof.
  unfold empty. destruct (slots (table w) !! s) as [[c|]|] eqn:Hs; simpl; try done.
  - by rewrite list_insert_id.
  - rewrite list_insert_ge; [done|]. by apply lookup_ge_None.
Qed.

Lemma empty_wf w s : wf w -> wf (empty w s).2.
Proof.
  intros Hw. unfold empty. destruct (slots (table w) !! s) as [[c|]|] eqn:Hs; [|done|done].
  assert (Hlt : (s < N)%nat) by (rewrite <- (wf_length w Hw); by eapply lookup_lt_Some).
  pose proof (occupied_insert (slots (table w)) s (Some c) None Hs) as Hocc. simpl in Hocc.
  pose proof (wf_used w Hw). pose proof (wf_peak w Hw). pose proof (wf_PEAK w Hw).
  unfold MAX_SLOTS in HN. constructor; simpl; try done; try lia.
  - rewrite length_insert. apply Hw.
  - apply in_width_lor; [lia|apply Hw|apply in_width_bit; lia].
  - intros i. rewrite Z.lor_spec, testbit_bit, orb_true_iff, (wf_free w Hw i) by lia.
    destruct (decide (s = i)) as [->|Hne].
    + rewrite list_lookup_insert_eq by (rewrite (wf_length w Hw); lia).
      rewrite bool_decide_eq_true_2 by done. naive_solver.
    + rewrite list_lookup_insert_ne by done. rewrite bool_decide_eq_false_2 by lia. naive_solver.
Qed.

Lemma empty_PEAK w s : PEAK (empty w s).2 = PEAK w.
Proof. unfold empty. by destruct (slots (table w) !! s) as [[c|]|]. Qed.

(** *** The bulk delete *)

(** The slots [delete_matching_loop] leaves: a slot whose bit is in the mask
    and whose object matches is emptied, every other slot is as it was. *)
Definition swept (occ : Z) (matches : Obj -> bool) (i : nat) (o : option (Cap Obj)) :=
  match o with
  | Some c => if Z.testbit occ (Z.of_nat i) && matches (object c) then None else Some c
  | None => None
  end.

Lemma swept_step occ (matches : Obj -> bool) w :
  wf w -> in_width 32 occ -> occ <> 0 ->
  let s := trailing_zeros 32 occ in
  let w' := match slot (table w) s with
            | Some c => if matches (object c) then (empty w s).2 else w
            | None => w
            end in
  forall i, imap (swept (Z.land occ (occ - 1)) matches) (slots (table w')) !! i =
            imap (swept occ matches) (slots (table w)) !! i.
Proof.
  intros Hw Hocc Hnz s w' i.
  assert (Hs : (s < 32)%nat) by (by apply trailing_zeros_lt).
  rewrite !list_lookup_imap.
  assert (Hbit : Z.testbit (Z.land occ (occ - 1)) (Z.of_nat i) =
                 Z.testbit occ (Z.of_nat i) && negb (bool_decide (i = s))).
  { destruct Hocc as [? ?]. rewrite (clear_lowest occ (Z.of_nat s)); try lia.
    - do 2 f_equal. apply bool_decide_ext. lia.
    - apply trailing_zeros_low.
    - by apply trailing_zeros_hit. }
  assert (Hhit : Z.testbit occ (Z.of_nat s) = true) by (by apply trailing_zeros_hit).
  assert (Hslots : slots (table w') !! i =
    if decide (i = s) then (fun o => match o with Some c => if matches (object c) then None else Some c | None => None end) <$> slots (table w) !! i
    else slots (table w) !! i).
  { unfold w', slot. case_decide as Hd.
    - subst i. destruct (slots (table w) !! s) as [[c|]|] eqn:Hsl; simpl; try by rewrite Hsl.
      destruct (matches (object c)); [|by rewrite Hsl].
      rewrite empty_slots, list_lookup_insert_eq; [done|]. by eapply lookup_lt_Some.
    - destruct (slots (table w) !! s) as [[c|]|] eqn:Hsl; simpl; try done.
      destruct (matches (object c)); [|done].
      by rewrite empty_slots, list_lookup_insert_ne. }
  rewrite Hslots. case_decide as Hd.
  - subst i. rewrite bool_decide_eq_true_2, andb_false_r in Hbit by done.
    destruct (slots (table w) !! s) as [[c|]|]; simpl; try done.
    unfold swept. rewrite Hhit. simpl. destruct (matches (object c)); [done|]. by rewrite Hbit.
  - rewrite bool_decide_eq_false_2, andb_true_r in Hbit by done.
    destruct (slots (table w) !! i) as [[c|]|]; simpl; try done. by rewrite Hbit.
Qed.

(** With enough fuel for the bits still set, the loop ends, keeps the table
    well formed, and sweeps exactly the matching slots of the mask. *)
Lemma delete_matching_loop_spec fuel k occ (matches : Obj -> bool) w :
  wf w -> in_width 32 occ -> (k <= 32)%nat ->
  (forall i, 0 <= i < Z.of_nat k -> Z.testbit occ i = false) ->
  (33 <= fuel + k)%nat ->
  exists w', delete_matching_loop fuel occ matches w = Some w' /\ wf w' /\
    slots (table w') = imap (swept occ matches) (slots (table w)) /\
    PEAK w' = PEAK w.
Proof.
  revert k occ w. induction fuel as [|fuel IH]; intros k occ w Hw Hocc Hk Hlow Hfuel; [lia|].
  simpl. destruct (Z.eqb_spec occ 0) as [->|Hnz].
  - exists w. split_and!; try done. apply list_eq. intros i. rewrite list_lookup_imap.
    destruct (slots (table w) !! i) as [[c|]|]; simpl; try done.
    by rewrite Z.testbit_0_l.
  - set (s := trailing_zeros 32 occ).
    set (w1 := match slot (table w) s with
               | Some c => if matches (object c) then (empty w s).2 else w
               | None => w end).
    assert (Hw1 : wf w1 /\ PEAK w1 = PEAK w).
    { unfold w1. destruct (slot (table w) s) as [c|]; [|done].
      destruct (matches (object c)); [|done]. split; [by apply empty_wf|apply empty_PEAK]. }
    assert (Hs : (s < 32)%nat) by (by apply trailing_zeros_lt).
    assert (Hks : (k <= s)%nat).
    { destruct (decide (k <= s)%nat) as [|Hgt]; [done|]. exfalso.
      pose proof (trailing_zeros_hit 32 occ Hs) as Hhit. fold s in Hhit.
      rewrite Hlow in Hhit by lia. done. }
    destruct (IH (S s) (Z.land occ (occ - 1)) w1) as (w' & Hrun & Hwf & Hsl & HP).
    + apply Hw1.
    + apply in_width_land; [done|]. destruct Hocc. lia.
    + lia.
    + intros i Hi. destruct Hocc as [? ?].
      rewrite (clear_lowest occ (Z.of_nat s)); try lia.
      * destruct (decide (i = Z.of_nat s)) as [->|Hne].
        { by rewrite bool_decide_eq_true_2, andb_false_r by done. }
        by rewrite (trailing_zeros_low 32 occ) by (fold s; lia).
      * apply trailing_zeros_low.
      * by apply trailing_zeros_hit.
    + lia.
    + exists w'. split_and!; [done|done| |by rewrite HP; apply Hw1].
      rewrite Hsl. apply list_eq. intros i. by apply swept_step.
Qed.

Lemma occupied_mask_spec w i :
  wf w -> Z.testbit (occupied_mask N (table w)) (Z.of_nat i) = true <->
          exists c, slots (table w) !! i = Some (Some c).
Proof.
  intros Hw. unfold occupied_mask. unfold MAX_SLOTS in HN.
  rewrite Z.land_spec, testbit_not_w, ALL_FREE_ones, Z.testbit_ones_nonneg by lia.
  pose proof (wf_free w Hw i) as Hf. pose proof (wf_length w Hw) as Hl.
  rewrite !andb_true_iff, negb_true_iff, !Z.ltb_lt. split.
  - intros [[_ Hnf] Hlt].
    destruct (lookup_lt_is_Some_2 (slots (table w)) i) as [[c|] Hc]; [lia|by exists c|].
    apply Hf in Hc. congruence.
  - intros [c Hc]. apply lookup_lt_Some in Hc as Hlt. split_and!; try lia.
    destruct (Z.testbit (free (table w)) (Z.of_nat i)) eqn:Hb; [|done].
    by rewrite (proj1 Hf eq_refl) in Hc.
Qed.

Lemma delete_matching_total (matches : Obj -> bool) w :
  wf w -> exists w', delete_matching N matches w = Some w' /\ wf w' /\ PEAK w' = PEAK w /\
    slots (table w') =
      (fun o => match o with
                | Some c => if matches (object c) then None else Some c
                | None => None end) <$> slots (table w).
Proof.
  intros Hw. unfold delete_matching.
  destruct (delete_matching_loop_spec (S MAX_SLOTS) 0 (occupied_mask N (table w)) matches w)
    as (w' & Hrun & Hwf & Hsl & HP); [done | | lia | intros; lia | unfold MAX_SLOTS; lia |].
  - unfold occupied_mask. apply in_width_land; [apply in_width_not_w; lia|].
    rewrite ALL_FREE_ones. rewrite Z.ones_equiv.
    assert (0 < 2 ^ Z.of_nat N) by (apply Z.pow_pos_nonneg; lia). lia.
  - exists w'. split_and!; try done. rewrite Hsl. apply list_eq. intros i.
    rewrite list_lookup_imap, list_lookup_fmap.
    destruct (slots (table w) !! i) as [[c|]|] eqn:Hi; simpl; try done.
    rewrite (proj2 (occupied_mask_spec w i Hw)) by (by exists c). done.
Qed.
End wf.

(** ** Executions *)

Section executions.
Context {Obj : Type} (N : nat).
Implicit Types w : World Obj.

(** The operations that move or shrink authority already in the table; the
    rights argument of [derive] is a [u32]. *)
Inductive attenuate : World Obj -> World Obj -> Prop :=
  | att_derive w from to r :
      in_width 32 (bits r) -> attenuate w (derive N w from to r).2
  | att_delete w s : attenuate w (delete w s).2
  | att_delete_matching w w' m : delete_matching N m w = Some w' -> attenuate w w'.

(** Every public operation that changes a table. *)
Inductive step : World Obj -> World Obj -> Prop :=
  | step_insert w cap : step w (insert N w cap).2
  | step_insert_at w s cap : step w (insert_at N w s cap).2
  | step_put w s cap : step w (put N w s cap).2
  | step_derive w from to r : step w (derive N w from to r).2
  | step_delete w s : step w (delete w s).2
  | step_delete_matching w w' m : delete_matching N m w = Some w' -> step w w'.

Definition rights_ok w : Prop :=
  forall i c, slots (table w) !! i = Some (Some c) -> in_width 32 (bits (rights c)).

(** [w'] holds no authority that [w] did not hold. *)
Definition no_wider w w' : Prop :=
  forall i c', slots (table w') !! i = Some (Some c') ->
  exists j c, slots (table w) !! j = Some (Some c) /\
    object c' = object c /\ is_subset_of (rights c') (rights c) = true.

Lemma put_slots w s cap :
  slots (table (put N w s cap).2) = <[Z.to_nat s := Some cap]> (slots (table w)).
Proof.
  unfold put. pose proof (fill_slots N w (Z.to_nat s) cap) as Hs.
  by destruct (fill N w (Z.to_nat s) cap) as [[?|] ?].
Qed.

Lemma put_wf w s cap : (N <= MAX_SLOTS)%nat -> wf N w -> wf N (put N w s cap).2.
Proof.
  intros HN Hw. unfold put. pose proof (fill_wf N HN w (Z.to_nat s) cap Hw) as Hs.
  by destruct (fill N w (Z.to_nat s) cap) as [[?|] ?].
Qed.

Lemma delete_slots w s :
  slots (table (delete w s).2) = <[Z.to_nat s := None]> (slots (table w)).
Proof.
  unfold delete. pose proof (empty_slots w (Z.to_nat s)) as Hs.
  by destruct (empty w (Z.to_nat s)) as [[?|] ?].
Qed.

Lemma delete_wf w s : (N <= MAX_SLOTS)%nat -> wf N w -> wf N (delete w s).2.
Proof.
  intros HN Hw. unfold delete. pose proof (empty_wf N HN w (Z.to_nat s) Hw) as Hs.
  by destruct (empty w (Z.to_nat s)) as [[?|] ?].
Qed.

(** A derivation either changes nothing or writes one narrower copy. *)
Lemma derive_cases w from to r :
  (derive N w from to r).2 = w \/
  exists j c, slots (table w) !! j = Some (Some c) /\ is_subset_of r (rights c) = true /\
    (derive N w from to r).2 = (put N w to (MkCap (object c) r)).2.
Proof.
  unfold derive, get, slot. destruct (slots (table w) !! Z.to_nat from) as [[c|]|] eqn:Hf;
    simpl; try by left.
  destruct (is_subset_of r (rights c)) eqn:Hsub; simpl; [|by left].
  right. by exists (Z.to_nat from), c.
Qed.

Lemma step_wf w w' : (N <= MAX_SLOTS)%nat -> wf N w -> step w w' -> wf N w'.
Proof.
  intros HN Hw Hstep. destruct Hstep.
  - unfold insert. destruct (first_free (table w)); [|done]. by apply fill_wf.
  - unfold insert_at. repeat case_match; try done; by apply fill_wf.
  - by apply put_wf.
  - destruct (derive_cases w from to r) as [->|(j & c & _ & _ & ->)]; [done|by apply put_wf].
  - by apply delete_wf.
  - destruct (delete_matching_total N HN m w Hw) as (w1 & Hrun & Hwf & _). congruence.
Qed.

Lemma no_wider_refl w : rights_ok w -> no_wider w w.
Proof. intros Hok i c Hc. exists i, c. split_and!; [done|done|]. apply subset_refl. eauto. Qed.

Lemma attenuate_no_wider w w' :
  (N <= MAX_SLOTS)%nat -> wf N w -> rights_ok w -> attenuate w w' ->
  no_wider w w' /\ rights_ok w'.
Proof.
  intros HN Hw Hok Hatt. destruct Hatt as [w from to r Hr|w s|w w' m Hrun].
  - destruct (derive_cases w from to r) as [->|(j & c & Hj & Hsub & ->)];
      [by split; [apply no_wider_refl|]|].
    split; intros i c' Hi; rewrite put_slots in Hi;
      apply list_lookup_insert_Some in Hi as [(<- & ? & _)|(_ & Hi)]; simplify_eq/=; eauto.
    + exists i, c'. split_and!; [done|done|]. apply subset_refl. eauto.
  - split; intros i c' Hi; rewrite delete_slots in Hi;
      apply list_lookup_insert_Some in Hi as [(_ & ? & _)|(_ & Hi)]; simplify_eq/=; eauto.
    exists i, c'. split_and!; [done|done|]. apply subset_refl. eauto.
  - destruct (delete_matching_total N HN m w Hw) as (w1 & Hrun' & _ & _ & Hsl).
    simplify_eq. split; intros i c' Hi; rewrite Hsl in Hi;
      apply list_lookup_fmap_Some in Hi as ([c|] & Hc & Hi); [|done| |done];
      destruct (m (object c)); simplify_eq/=; eauto.
    exists i, c. split_and!; [done|done|]. apply subset_refl. eauto.
Qed.

Lemma no_wider_trans w1 w2 w3 :
  rights_ok w2 -> rights_ok w3 -> no_wider w1 w2 -> no_wider w2 w3 -> no_wider w1 w3.
Proof.
  intros Hok2 Hok3 H12 H23 i c' Hi. destruct (H23 i c' Hi) as (j & c & Hj & Ho & Hs).
  destruct (H12 j c Hj) as (k & b & Hk & Ho' & Hs'). exists k, b.
  split_and!; [done|congruence|]. eapply (subset_trans _ (rights c)); eauto.
Qed.
End executions.

(** ** The component's properties *)

(** C1: no sequence of derivations, deletions and bulk deletions on a table
    widens authority: every capability left in the table names an object that
    was in it at the start, with rights that are a subset of a capability to
    that object held then. *)
Theorem authority_never_widens {Obj} (N : nat) (w w' : World Obj)
  (HN : (N <= MAX_SLOTS)%nat) (Hw : wf N w) (Hok : rights_ok w)
  (Hs : steps (attenuate N) w w') : no_wider w w'.
Proof.
  enough (wf N w' /\ rights_ok w' /\ no_wider w w') by naive_solver.
  revert w w' Hs Hw Hok. induction 1 as [w|w1 w2 w3 H12 H23 IH]; intros Hw Hok.
  - split_and!; auto using no_wider_refl.
  - destruct (attenuate_no_wider N w1 w2 HN Hw Hok H12) as [Hnw Hok2].
    assert (Hw2 : wf N w2) by (apply (step_wf N w1); [done|done|]; destruct H12; econstructor; eauto).
    destruct (IH Hw2 Hok2) as (Hw3 & Hok3 & Hnw3). split_and!; try done.
    apply (no_wider_trans w1 w2 w3); done.
Qed.

(** C38: every operation preserves table well-formedness, so in every table
    reachable from an empty one the free word is exactly the set of empty
    slots, the occupancy count is exact, the high-water mark bounds it and is at
    most the table size, and the global [PEAK] has recorded it. *)
Theorem reachable_tables_well_formed {Obj} (N : nat) (P : Z) (w : World Obj)
  (HN : (N <= MAX_SLOTS)%nat) (HP : 0 <= P)
  (Hs : steps (step N) (MkWorld (new N) P) w) : wf N w.
Proof.
  eapply (steps_invariant (step N) (wf N)); [|exact Hs|by apply wf_new].
  intros. by eapply step_wf.
Qed.

(** [insert] on a well-formed table fails exactly when every slot is
    occupied, leaving the table alone; otherwise it fills the lowest-numbered
    empty slot, reports that slot, and touches no other. *)
Theorem insert_takes_lowest_empty_slot {Obj} (N : nat) (w : World Obj) (cap : Cap Obj)
  (HN : (N <= MAX_SLOTS)%nat) (Hw : wf N w) :
  match insert N w cap with
  | (Err e, w') => e = NoFreeSlot /\ w' = w /\
      forall i, (i < N)%nat -> exists c, slots (table w) !! i = Some (Some c)
  | (Ok s, w') => exists i, s = Z.of_nat i /\ slots (table w) !! i = Some None /\
      (forall j, (j < i)%nat -> exists c, slots (table w) !! j = Some (Some c)) /\
      slots (table w') = <[i := Some cap]> (slots (table w))
  end.
Proof.
  assert (Hocc : forall i, (i < N)%nat -> Z.testbit (free (table w)) (Z.of_nat i) = false ->
            exists c, slots (table w) !! i = Some (Some c)).
  { intros i Hi Hb. rewrite <- (wf_length N w Hw) in Hi.
    apply lookup_lt_is_Some_2 in Hi as [[c|] Hc]; [by exists c|].
    apply (wf_free N w Hw) in Hc. congruence. }
  unfold insert, first_free. destruct (Z.eqb_spec (free (table w)) 0) as [Hz|Hnz].
  - split_and!; [done|done|]. intros i Hi. apply Hocc; [done|]. by rewrite Hz, Z.testbit_0_l.
  - set (s := trailing_zeros 32 (free (table w))).
    assert (Hlt : (s < 32)%nat) by (apply trailing_zeros_lt; [apply Hw|done]).
    assert (Hsl : slots (table w) !! s = Some None)
      by (apply (wf_free N w Hw); by apply trailing_zeros_hit).
    exists s. split_and!; [done|done| |apply fill_slots].
    intros j Hj. apply lookup_lt_Some in Hsl. rewrite (wf_length N w Hw) in Hsl.
    apply Hocc; [lia|]. apply (trailing_zeros_low 32). fold s. lia.
Qed.

(** The bulk delete behind revocation ends, keeps the table well formed, and
    removes exactly the capabilities whose object matches: none is left, every
    other slot is as it was, and the global peak is not touched. *)
Theorem delete_matching_revokes_exactly {Obj} (N : nat) (matches : Obj -> bool) (w : World Obj)
  (HN : (N <= MAX_SLOTS)%nat) (Hw : wf N w) :
  exists w', delete_matching N matches w = Some w' /\ wf N w' /\ PEAK w' = PEAK w /\
    forall i o, slots (table w) !! i = Some o ->
      slots (table w') !! i =
        Some (match o with Some c => if matches (object c) then None else Some c | None => None end).
Proof.
  destruct (delete_matching_total N HN matches w Hw) as (w' & Hrun & Hwf & HP & Hsl).
  exists w'. split_and!; try done. intros i o Ho. by rewrite Hsl, list_lookup_fmap, Ho.
Qed.

(** [derive] on every branch: a missing source or target slot is
    [NoSuchSlot], rights the source lacks are [CannotWiden], neither changes
    anything; otherwise the target slot holds the source's object under exactly
    the rights asked for, and every other slot is as it was. *)
Theorem derive_outcome {Obj} (N : nat) (w : World Obj) (from to : Z) (r : Rights) :
  match derive N w from to r with
  | (Err NoSuchSlot, w') => w' = w /\
      (slot (table w) (Z.to_nat from) = None \/ slots (table w) !! Z.to_nat to = None)
  | (Err CannotWiden, w') => w' = w /\
      exists c, slot (table w) (Z.to_nat from) = Some c /\ is_subset_of r (rights c) = false
  | (Err NoFreeSlot, _) => False
  | (Ok _, w') => exists c, slot (table w) (Z.to_nat from) = Some c /\
      is_subset_of r (rights c) = true /\
      slots (table w') = <[Z.to_nat to := Some (MkCap (object c) r)]> (slots (table w))
  end.
Proof.
  unfold derive, get. destruct (slot (table w) (Z.to_nat from)) as [c|] eqn:Hc; simpl; [|by auto].
  destruct (is_subset_of r (rights c)) eqn:Hsub; simpl; [|by split; [|exists c]].
  unfold put. pose proof (fill_slots N w (Z.to_nat to) (MkCap (object c) r)) as Hsl.
  pose proof (fill_result N w (Z.to_nat to) (MkCap (object c) r)) as Hres.
  destruct (fill N w (Z.to_nat to) (MkCap (object c) r)) as [[b|] w'] eqn:Hfill; simpl in *.
  - by exists c.
  - unfold fill in Hfill.
    destruct (slots (table w) !! Z.to_nat to) as [[?|]|] eqn:Hto; simplify_eq/=; auto.
Qed.

(** ** Witnesses *)

(** A two-slot table with one capability to object 7, readable and writable. *)
Definition sample : World nat :=
  (insert 2 (MkWorld (new 2) 0) (MkCap 7%nat (union READ WRITE))).2.

Lemma sample_wf : wf 2 sample.
Proof.
  apply (step_wf 2 (MkWorld (new 2) 0)); [unfold MAX_SLOTS; lia| |constructor].
  apply wf_new; [unfold MAX_SLOTS; lia|lia].
Qed.

Lemma sample_rights_ok : rights_ok sample.
Proof. intros [|[|i]] c Hc; vm_compute in Hc; simplify_eq. split; vm_compute; congruence. Qed.

Lemma authority_never_widens_witness :
  no_wider sample (derive 2 sample 0 1 READ).2 /\
  slot (table (derive 2 sample 0 1 READ).2) 1 = Some (MkCap 7%nat READ).
Proof.
  split; [|vm_compute; reflexivity].
  apply (authority_never_widens 2 sample _).
  - unfold MAX_SLOTS; lia.
  - exact sample_wf.
  - exact sample_rights_ok.
  - apply (steps_step _ _ (derive 2 sample 0 1 READ).2); [|apply steps_refl].
    apply (att_derive 2 sample 0 1 READ). split; vm_compute; congruence.
Defined.

Lemma reachable_tables_well_formed_witness : wf 2 (delete sample 0).2.
Proof.
  apply (reachable_tables_well_formed 2 0).
  - unfold MAX_SLOTS; lia.
  - lia.
  - apply (steps_step _ _ sample); [apply (step_insert 2)|].
    apply (steps_step _ _ (delete sample 0).2); [apply (step_delete 2)|apply steps_refl].
Defined.

Lemma insert_takes_lowest_empty_slot_witness :
  exists i, slots (table sample) !! i = Some None /\
    slots (table (insert 2 sample (MkCap 9%nat READ)).2) =
      <[i := Some (MkCap 9%nat READ)]> (slots (table sample)).
Proof.
  pose proof (insert_takes_lowest_empty_slot 2 sample (MkCap 9%nat READ)
    ltac:(unfold MAX_SLOTS; lia) sample_wf) as H.
  destruct (insert 2 sample (MkCap 9%nat READ)) as [[s|e] w'] eqn:E.
  - destruct H as (i & _ & Hi & _ & Hsl). exists i. split; [exact Hi|exact Hsl].
  - vm_compute in E. discriminate E.
Defined.

Lemma delete_matching_revokes_exactly_witness :
  exists w', delete_matching 2 (fun o => Nat.eqb o 7) sample = Some w' /\
    slots (table w') !! 0%nat = Some None.
Proof.
  destruct (delete_matching_revokes_exactly 2 (fun o => Nat.eqb o 7) sample
    ltac:(unfold MAX_SLOTS; lia) sample_wf) as (w' & Hrun & _ & _ & Hsl).
  exists w'. split; [exact Hrun|].
  exact (Hsl 0%nat (Some (MkCap 7%nat (union READ WRITE))) eq_refl).
Defined.

End Capability.
