(* ===== verification/NameTable.v ===== *)
(** * The name-table interface

    What a table of generational names promises to the kernel objects stored in
    one. [NameTable] lists the operations; [NameTableLaws] is the contract. The
    region accounting is proved against this interface only; GenTable.v
    discharges it for [generational_table::Table]. *)

From S2P Require Import Prelude.
Local Open Scope Z_scope.

Class NameTable (T tbl : Type) := {
  nt_ok : tbl -> Prop;
  nt_get : tbl -> Z -> option T;
  nt_insert : tbl -> (Z -> T) -> option (Z * tbl);
  (** [*get_mut(name)? = v]: writing through the reference. *)
  nt_set : tbl -> Z -> T -> tbl;
  nt_remove : tbl -> Z -> option T * tbl;
  nt_iter : tbl -> list (Z * T) }.

Class NameTableLaws (T tbl : Type) `{NameTable T tbl} := {
  nt_insert_ok t f n t' : nt_ok t -> nt_insert t f = Some (n, t') ->
    nt_ok t' /\ nt_get t n = None /\ 0 <= n < u64_max /\
    (forall m, nt_get t' m = if decide (m = n) then Some (f n) else nt_get t m);
  nt_set_ok t n v : nt_ok t -> is_Some (nt_get t n) ->
    nt_ok (nt_set t n v) /\
    (forall m, nt_get (nt_set t n v) m = if decide (m = n) then Some v else nt_get t m);
  nt_remove_ok t n : nt_ok t ->
    (nt_remove t n).1 = nt_get t n /\ nt_ok (nt_remove t n).2 /\
    (forall m, nt_get (nt_remove t n).2 m = if decide (m = n) then None else nt_get t m);
  nt_iter_spec t n v : nt_ok t -> (n, v) ∈ nt_iter t <-> nt_get t n = Some v;
  nt_iter_nodup t : nt_ok t -> NoDup (nt_iter t).*1 }.
