(* ===== verification/GenTable.v ===== *)
(** * The generational table (crates/generational_table/src/lib.rs)

    A fixed array of slots, a generation per slot, the live count and the [top]
    bound that sweeps stop at. A name packs [(generation, slot)] in a [u64]. *)

From Stdlib Require Import Sorted.
From S2P Require Import Prelude NameTable.
Local Open Scope Z_scope.

Module GenTable.

Record Table (T : Type) := MkTable {
  slots : list (option T);
  gens : list Z;
  live : Z;
  top : nat }.
Arguments MkTable {T} slots gens live top.
Arguments slots {T} t : rename.
Arguments gens {T} t : rename.
Arguments live {T} t : rename.
Arguments top {T} t : rename.

Definition name (slot : nat) (generation : Z) : Z :=
  Z.lor (Z.shiftl generation 32) (Z.of_nat slot).

(** The cast of [name >> 32] to [u32] is the identity on a [u64]. *)
Definition unpack (name : Z) : nat * Z :=
  (Z.to_nat (Z.land name 4294967295), Z.shiftr name 32).

Section ops.
Context {T : Type} (N : nat).
Implicit Types t : Table T.

Definition new : Table T := MkTable (replicate N None) (replicate N 0) 0 0.

Definition insert_with (t : Table T) (f : Z -> T) : option (Z * Table T) :=
  slot ← position is_none (slots t);
  generation ← gens t !! slot;
  let n := name slot generation in
  Some (n, MkTable (<[slot := Some (f n)]> (slots t)) (gens t) (live t + 1)
             (if (top t <=? slot)%nat then S slot else top t)).

Definition slot_of (t : Table T) (n : Z) : option nat :=
  let '(slot, generation) := unpack n in
  g ← gens t !! slot;
  if negb (g =? generation) then None
  else _ ← mjoin (slots t !! slot);
       Some slot.

Definition get (t : Table T) (n : Z) : option T :=
  slot ← slot_of t n;
  mjoin (slots t !! slot).

(** The reference [get_mut] returns: the value and the table a write through
    the reference leaves. *)
Definition get_mut (t : Table T) (n : Z) : option (T * (T -> Table T)) :=
  slot ← slot_of t n;
  v ← mjoin (slots t !! slot);
  Some (v, fun v' => MkTable (<[slot := Some v']> (slots t)) (gens t) (live t) (top t)).

(** The [for _ in 0..N] walk that brings [top] down over empty slots. *)
Fixpoint shrink_top (fuel : nat) (slots : list (option T)) (top : nat) : nat :=
  match fuel with
  | O => top
  | S fuel' =>
      if (top =? 0)%nat || is_some (mjoin (slots !! (top - 1)%nat)) then top
      else shrink_top fuel' slots (top - 1)
  end.

Definition remove (t : Table T) (n : Z) : option T * Table T :=
  match slot_of t n with
  | None => (None, t)
  | Some slot =>
      match slots t !! slot, gens t !! slot with
      | Some (Some value), Some g =>
          let slots' := <[slot := None]> (slots t) in
          (Some value,
           MkTable slots' (<[slot := wrap 32 (g + 1)]> (gens t)) (live t - 1)
             (if (S slot =? top t)%nat then shrink_top N slots' (top t) else top t))
      | _, _ => (None, t)
      end
  end.

Definition len (t : Table T) : Z := live t.
Definition is_empty (t : Table T) : bool := live t =? 0.

(** [slots.iter().enumerate()], with the generation of each slot. *)
Definition entries (t : Table T) : list (nat * option T) :=
  imap (fun i o => (i, o)) (take (top t) (slots t)).

Definition live_slots (t : Table T) : list nat :=
  omap (fun '(i, o) => (fun _ => i) <$> o) (entries t).

Definition values (t : Table T) : list T := omap (fun o => o) (take (top t) (slots t)).

Definition iter_from (t : Table T) (from : nat) : list (nat * Z * T) :=
  omap (fun '(slot, o) =>
          (fun v => (slot, name slot (default 0 (gens t !! slot)), v)) <$> o)
       (drop from (entries t)).

Definition iter (t : Table T) : list (Z * T) :=
  (fun '(_, n, v) => (n, v)) <$> iter_from t 0.
(** A sweep that visits each live entry through [iter_mut]. *)
Definition iter_mut (t : Table T) (visit : T -> T) : Table T :=
  MkTable (imap (fun i o => if (i <? top t)%nat then visit <$> o else o) (slots t))
    (gens t) (live t) (top t).
End ops.

(** ** Names *)

Lemma name_arith slot g :
  Z.of_nat slot < 2 ^ 32 -> name slot g = g * 2 ^ 32 + Z.of_nat slot.
Proof.
  intros Hs. unfold name. rewrite <- Z.shiftl_mul_pow2 by lia.
  symmetry. apply Z.add_nocarry_lor. apply Z.bits_inj'. intros i Hi.
  rewrite Z.land_spec, Z.shiftl_spec, Z.testbit_0_l by done.
  destruct (Z.lt_ge_cases i 32).
  - by rewrite Z.testbit_neg_r by lia.
  - rewrite (testbit_above 32 (Z.of_nat slot) i); [apply andb_false_r|split; lia|done].
Qed.

Lemma unpack_arith n : unpack n = (Z.to_nat (n mod 2 ^ 32), n / 2 ^ 32).
Proof.
  unfold unpack. rewrite Z.shiftr_div_pow2 by lia.
  change 4294967295 with (Z.ones 32). by rewrite Z.land_ones by lia.
Qed.

Lemma unpack_name slot g : Z.of_nat slot < 2 ^ 32 -> unpack (name slot g) = (slot, g).
Proof.
  intros Hs. rewrite unpack_arith, name_arith by done. f_equal.
  - rewrite Z.add_comm, Z.mod_add, Z.mod_small, Nat2Z.id by lia. done.
  - rewrite Z.add_comm, Z.div_add, Z.div_small by lia. done.
Qed.

Lemma name_unpack n : name (unpack n).1 (unpack n).2 = n.
Proof.
  rewrite unpack_arith. simpl. pose proof (Z.mod_pos_bound n (2 ^ 32)).
  rewrite name_arith; rewrite Z2Nat.id by lia; [|lia].
  pose proof (Z.div_mod n (2 ^ 32)). lia.
Qed.

Lemma unpack_inj n m : unpack n = unpack m -> n = m.
Proof. intros H. by rewrite <- (name_unpack n), <- (name_unpack m), H. Qed.

#[global] Opaque name unpack.

(** ** Well-formedness *)

Section wf.
Context {T : Type} (N : nat).
Implicit Types t : Table T.

(** [top] is one past the highest live slot, [live] counts the live slots, and
    every generation is a [u32]. *)
Record wf t : Prop := {
  wf_slots : length (slots t) = N;
  wf_gens : length (gens t) = N;
  wf_gens_width i g : gens t !! i = Some g -> in_width 32 g;
  wf_live : live t = Z.of_nat (occupied (slots t));
  wf_top : (top t <= N)%nat;
  wf_above i : (top t <= i < N)%nat -> slots t !! i = Some None;
  wf_tight k : top t = S k -> is_some (mjoin (slots t !! k)) = true }.

Hypothesis HN : Z.of_nat N <= u32_max.

Lemma table_wf_new : wf (new N).
Proof.
  constructor; simpl; try done; try lia.
  - apply length_replicate.
  - apply length_replicate.
  - intros i g Hg. apply lookup_replicate in Hg as [-> _]. by split.
  - by rewrite occupied_replicate.
  - intros i Hi. apply lookup_replicate. split; [done|lia].
Qed.

Lemma get_Some t n v :
  get t n = Some v <->
  gens t !! (unpack n).1 = Some (unpack n).2 /\ slots t !! (unpack n).1 = Some (Some v).
Proof.
  unfold get, slot_of. destruct (unpack n) as [s g]; simpl.
  destruct (gens t !! s) as [g'|]; simpl; [|naive_solver].
  destruct (Z.eqb_spec g' g) as [->|]; simpl; [|naive_solver].
  destruct (slots t !! s) as [[v'|]|] eqn:Hs; simpl; try rewrite Hs; simpl; naive_solver.
Qed.

Lemma slot_of_Some t n s :
  slot_of t n = Some s <->
  s = (unpack n).1 /\ gens t !! s = Some (unpack n).2 /\ exists v, slots t !! s = Some (Some v).
Proof.
  unfold slot_of. destruct (unpack n) as [s' g]; simpl.
  destruct (gens t !! s') as [g'|] eqn:Hg; simpl; [|naive_solver].
  destruct (Z.eqb_spec g' g) as [->|]; simpl; [|naive_solver].
  destruct (slots t !! s') as [[v'|]|] eqn:Hs; simpl; naive_solver.
Qed.

Lemma slot_of_get t n : slot_of t n = None <-> get t n = None.
Proof.
  unfold get. destruct (slot_of t n) as [s|] eqn:Hs; simpl; [|done].
  apply slot_of_Some in Hs as (-> & _ & v & Hv). rewrite Hv. done.
Qed.

Lemma slot_bound t i o : wf t -> slots t !! i = Some o -> Z.of_nat i < u32_max.
Proof. intros Hw Hi. apply lookup_lt_Some in Hi. rewrite (wf_slots t Hw) in Hi. lia. Qed.

(** First fit succeeds exactly when there is an empty slot, and the name it
    mints is fresh and resolves to the new entry. *)
Lemma insert_with_Some t f n t' :
  wf t -> insert_with t f = Some (n, t') ->
  exists s g, n = name s g /\ unpack n = (s, g) /\ gens t !! s = Some g /\
    slots t !! s = Some None /\
    (forall j, (j < s)%nat -> exists v, slots t !! j = Some (Some v)) /\
    t' = MkTable (<[s := Some (f n)]> (slots t)) (gens t) (live t + 1)
           (if (top t <=? s)%nat then S s else top t).
Proof.
  intros Hw Hi. unfold insert_with in Hi.
  destruct (position is_none (slots t)) as [s|] eqn:Hp; [|done]. simpl in Hi.
  apply position_Some in Hp as ([v|] & Hs & Hnone & Hlow); [done|].
  destruct (gens t !! s) as [g|] eqn:Hg; [|done]. simpl in Hi.
  assert (Hn : n = name s g) by naive_solver. exists s, g.
  pose proof (slot_bound t s None Hw Hs). unfold u32_max in *.
  split_and!; [done|by rewrite Hn, unpack_name by lia|done|done| |].
  - intros j Hj. destruct (lookup_lt_is_Some_2 (slots t) j) as [[v|] Hv].
    + apply lookup_lt_Some in Hs. lia.
    + by exists v.
    + specialize (Hlow j None Hj Hv). done.
  - rewrite Hn. naive_solver.
Qed.

Lemma insert_with_None t f :
  wf t -> insert_with t f = None -> forall i, (i < N)%nat -> exists v, slots t !! i = Some (Some v).
Proof.
  intros Hw Hi i Hlt. unfold insert_with in Hi.
  destruct (position is_none (slots t)) as [s|] eqn:Hp; simpl in Hi.
  - apply position_Some in Hp as (o & Hs & _). apply lookup_lt_Some in Hs.
    rewrite (wf_slots t Hw), <- (wf_gens t Hw) in Hs.
    apply lookup_lt_is_Some_2 in Hs as [g Hg]. by rewrite Hg in Hi.
  - destruct (lookup_lt_is_Some_2 (slots t) i) as [[v|] Hv]; [by rewrite (wf_slots t Hw)|by exists v|].
    by pose proof (position_None _ _ Hp i None Hv).
Qed.

Lemma insert_with_wf t f n t' : wf t -> insert_with t f = Some (n, t') -> wf t'.
Proof.
  intros Hw Hi. destruct (insert_with_Some t f n t' Hw Hi) as (s & g & _ & _ & Hg & Hs & _ & ->).
  pose proof (lookup_lt_Some _ _ _ Hs) as Hlt.
  pose proof (occupied_insert _ s None (Some (f n)) Hs) as Hocc. simpl in Hocc.
  pose proof (wf_slots t Hw). pose proof (wf_live t Hw). pose proof (wf_top t Hw).
  constructor; simpl; try apply Hw; try lia.
  - by rewrite length_insert.
  - by destruct (Nat.leb_spec (top t) s); lia.
  - intros i Hi'. destruct (Nat.leb_spec (top t) s).
    + rewrite list_lookup_insert_ne by lia. apply (wf_above t Hw). lia.
    + rewrite list_lookup_insert_ne by lia. apply (wf_above t Hw). lia.
  - intros k Hk. destruct (Nat.leb_spec (top t) s); simplify_eq.
    + rewrite list_lookup_insert_eq by done. done.
    + destruct (decide (s = k)) as [->|].
      * by rewrite list_lookup_insert_eq by done.
      * rewrite list_lookup_insert_ne by done. by apply (wf_tight t Hw).
Qed.

(** ** Removal *)

Lemma shrink_top_spec fuel (sl : list (option T)) tp :
  (tp <= fuel)%nat -> (tp <= length sl)%nat ->
  let r := shrink_top fuel sl tp in
  (r <= tp)%nat /\ (forall i, (r <= i < tp)%nat -> sl !! i = Some None) /\
  (forall k, r = S k -> is_some (mjoin (sl !! k)) = true).
Proof.
  revert tp. induction fuel as [|fuel IH]; intros tp Hf Hl; simpl.
  - assert (tp = 0%nat) as -> by lia. split_and!; [done|intros; lia|done].
  - destruct (Nat.eqb_spec tp 0) as [->|Hnz]; simpl; [split_and!; [done|intros; lia|done]|].
    destruct (is_some (mjoin (sl !! (tp - 1)%nat))) eqn:Ho.
    + split_and!; [done|intros; lia|]. intros k ->. by replace (S k - 1)%nat with k in Ho by lia.
    + destruct (IH (tp - 1)%nat) as (Hle & Hab & Hti); [lia|lia|]. split_and!; [lia| |done].
      intros i Hi. destruct (decide (i = tp - 1)%nat) as [->|]; [|apply Hab; lia].
      destruct (lookup_lt_is_Some_2 sl (tp - 1)) as [[v|] Hv]; [lia| |done].
      by rewrite Hv in Ho.
Qed.

Lemma remove_None t n : get t n = None -> remove N t n = (None, t).
Proof. intros Hg. unfold remove. apply slot_of_get in Hg. by rewrite Hg. Qed.

Lemma remove_Some t n v :
  get t n = Some v ->
  let s := (unpack n).1 in
  remove N t n =
    (Some v,
     MkTable (<[s := None]> (slots t)) (<[s := wrap 32 ((unpack n).2 + 1)]> (gens t))
       (live t - 1)
       (if (S s =? top t)%nat then shrink_top N (<[s := None]> (slots t)) (top t) else top t)).
Proof.
  intros Hg s. apply get_Some in Hg as [Hgen Hsl]. unfold remove.
  assert (Hs : slot_of t n = Some s) by (apply slot_of_Some; naive_solver).
  unfold s in *. by rewrite Hs, Hsl, Hgen.
Qed.

Lemma remove_wf t n : wf t -> wf (remove N t n).2.
Proof.
  intros Hw. destruct (get t n) as [v|] eqn:Hg; [|by rewrite remove_None].
  rewrite (remove_Some t n v Hg). apply get_Some in Hg as [Hgen Hsl]. simpl.
  set (s := (unpack n).1) in *. pose proof (lookup_lt_Some _ _ _ Hsl) as Hlt.
  pose proof (occupied_insert _ s (Some v) None Hsl) as Hocc. simpl in Hocc.
  pose proof (wf_slots t Hw) as Hlen. pose proof (wf_live t Hw). pose proof (wf_top t Hw).
  assert (Hshr := shrink_top_spec N (<[s:=None]> (slots t)) (top t)).
  rewrite length_insert, Hlen in Hshr.
  destruct Hshr as (Hle & Hab & Hti); [done|done|].
  constructor; simpl; try lia.
  - by rewrite length_insert.
  - rewrite length_insert. apply Hw.
  - intros i g Hi. apply list_lookup_insert_Some in Hi as [(_ & <- & _)|(_ & Hi)].
    + apply wrap_range. lia.
    + by eapply (wf_gens_width t Hw).
  - destruct (Nat.eqb_spec (S s) (top t)); lia.
  - intros i Hi. destruct (Nat.eqb_spec (S s) (top t)) as [Heq|Hne].
    + destruct (decide (i < top t)%nat); [apply Hab; lia|].
      rewrite list_lookup_insert_ne by lia. apply (wf_above t Hw). lia.
    + destruct (decide (s = i)) as [->|]; [by rewrite list_lookup_insert_eq|].
      rewrite list_lookup_insert_ne by done. apply (wf_above t Hw). lia.
  - intros k Hk. destruct (Nat.eqb_spec (S s) (top t)) as [Heq|Hne]; [by apply Hti|].
    rewrite list_lookup_insert_ne by lia. by apply (wf_tight t Hw).
Qed.

(** ** The interface's lookups *)

Lemma insert_with_get t f n t' m :
  wf t -> insert_with t f = Some (n, t') ->
  get t n = None /\ get t' m = if decide (m = n) then Some (f n) else get t m.
Proof.
  intros Hw Hi.
  destruct (insert_with_Some t f n t' Hw Hi) as (s & g & _ & Hun & Hg & Hs & _ & ->).
  assert (Hlt : (s < length (slots t))%nat) by (by eapply lookup_lt_Some).
  split.
  - destruct (get t n) as [v|] eqn:Hget; [|done]. apply get_Some in Hget as [_ Hv].
    rewrite Hun in Hv. simpl in Hv. congruence.
  - apply option_eq. intros v. rewrite get_Some. simpl.
    case_decide as Hmn.
    + subst m. rewrite Hun. simpl. rewrite list_lookup_insert_eq by done. naive_solver.
    + rewrite get_Some. split; intros [Hgm Hsm]; (split; [done|]).
      * destruct (decide (s = (unpack m).1)) as [Heq|]; [|by rewrite list_lookup_insert_ne in Hsm].
        exfalso. apply Hmn, unpack_inj. rewrite Hun, (surjective_pairing (unpack m)).
        rewrite <- Heq in Hgm. congruence.
      * rewrite list_lookup_insert_ne; [done|]. intros ->. congruence.
Qed.

Lemma remove_get t n m :
  wf t -> (remove N t n).1 = get t n /\
  get (remove N t n).2 m = if decide (m = n) then None else get t m.
Proof.
  intros Hw. destruct (get t n) as [v|] eqn:Hg.
  - rewrite (remove_Some t n v Hg). apply get_Some in Hg as [Hgen Hsl]. simpl. split; [done|].
    set (s := (unpack n).1) in *.
    assert (Hlt : (s < length (slots t))%nat) by (by eapply lookup_lt_Some).
    apply option_eq. intros v'. rewrite get_Some. simpl.
    case_decide as Hmn.
    + subst m. fold s. rewrite (list_lookup_insert_eq (slots t)) by done. naive_solver.
    + rewrite get_Some. destruct (decide (s = (unpack m).1)) as [Heq|Hne].
      * rewrite <- Heq, (list_lookup_insert_eq (slots t)) by done.
        split; [naive_solver|]. intros [Hgm _]. exfalso. apply Hmn, unpack_inj.
        rewrite (surjective_pairing (unpack m)), (surjective_pairing (unpack n)).
        fold s. congruence.
      * by rewrite !list_lookup_insert_ne.
  - rewrite (remove_None t n Hg). simpl. split; [done|]. case_decide; [by subst|done].
Qed.

Definition set (t : Table T) (n : Z) (v : T) : Table T :=
  match get_mut t n with Some (_, write) => write v | None => t end.

Lemma set_lookup t n v :
  wf t -> is_Some (get t n) ->
  wf (set t n v) /\ forall m, get (set t n v) m = if decide (m = n) then Some v else get t m.
Proof.
  intros Hw [v0 Hg]. apply get_Some in Hg as Hg'. destruct Hg' as [Hgen Hsl].
  set (s := (unpack n).1) in *.
  assert (Hset : set t n v = MkTable (<[s := Some v]> (slots t)) (gens t) (live t) (top t)).
  { unfold set, get_mut. rewrite (proj2 (slot_of_Some t n s)) by naive_solver. simpl.
    rewrite Hsl. done. }
  assert (Hlt : (s < length (slots t))%nat) by (by eapply lookup_lt_Some).
  pose proof (occupied_insert _ s (Some v0) (Some v) Hsl) as Hocc. simpl in Hocc.
  rewrite Hset. split.
  - pose proof (wf_live t Hw). constructor; simpl; try apply Hw; try lia.
    + rewrite length_insert. apply Hw.
    + intros i Hi. pose proof (wf_above t Hw i Hi). rewrite list_lookup_insert_ne; [done|].
      intros <-. congruence.
    + intros k Hk. destruct (decide (s = k)) as [->|]; [by rewrite list_lookup_insert_eq|].
      rewrite list_lookup_insert_ne by done. by apply (wf_tight t Hw).
  - intros m. apply option_eq. intros v'. rewrite get_Some. simpl. case_decide as Hmn.
    + subst m. fold s. rewrite list_lookup_insert_eq by done. naive_solver.
    + rewrite get_Some. destruct (decide (s = (unpack m).1)) as [Heq|Hne].
      * split; intros [Hgm _]; exfalso; apply Hmn, unpack_inj;
          rewrite (surjective_pairing (unpack m)), (surjective_pairing (unpack n));
          fold s; congruence.
      * by rewrite list_lookup_insert_ne.
Qed.

(** ** Sweeps *)

Lemma entries_lookup t i e :
  entries t !! i = Some e <-> e.1 = i /\ (i < top t)%nat /\ slots t !! i = Some e.2.
Proof.
  unfold entries. rewrite list_lookup_imap, fmap_Some. destruct e as [j o]; simpl. split.
  - intros (o' & Ho & ?). simplify_eq. apply lookup_take_Some in Ho as [? ?]. done.
  - intros (-> & Hlt & Ho). exists o. split; [|done]. by apply lookup_take_Some.
Qed.

Lemma slots_occupied_below_top t i v :
  wf t -> slots t !! i = Some (Some v) -> (i < top t)%nat.
Proof.
  intros Hw Hi. destruct (decide (i < top t)%nat) as [|Hge]; [done|].
  apply lookup_lt_Some in Hi as Hlt. rewrite (wf_slots t Hw) in Hlt.
  pose proof (wf_above t Hw i). naive_solver lia.
Qed.

Lemma elem_of_iter_from t from slot n v :
  wf t ->
  (slot, n, v) ∈ iter_from t from <->
  (from <= slot)%nat /\ get t n = Some v /\ (unpack n).1 = slot.
Proof.
  intros Hw. unfold iter_from. rewrite list_elem_of_omap. split.
  - intros ([i o] & Hin & Ho). apply list_elem_of_lookup in Hin as [k Hk].
    rewrite lookup_drop in Hk. apply entries_lookup in Hk as (Hi & Hlt & Hsl). simpl in *. subst i.
    destruct o as [v'|]; simplify_eq/=.
    pose proof (slot_bound t _ _ Hw Hsl) as Hb. unfold u32_max in Hb.
    assert (Hl : (from + k < length (gens t))%nat).
    { rewrite (wf_gens t Hw), <- (wf_slots t Hw). by eapply lookup_lt_Some. }
    apply lookup_lt_is_Some_2 in Hl as [g Hg]. rewrite Hg. simpl.
    split_and!; [lia| |by rewrite unpack_name by lia].
    apply get_Some. rewrite unpack_name by lia. done.
  - intros (Hf & Hg & Hs). apply get_Some in Hg as [Hgen Hsl]. rewrite Hs in *.
    exists (slot, Some v). split.
    + apply list_elem_of_lookup. exists (slot - from)%nat. rewrite lookup_drop.
      replace (from + (slot - from))%nat with slot by lia. apply entries_lookup. simpl.
      split_and!; [done|by eapply slots_occupied_below_top|done].
    + simpl. rewrite Hgen. simpl. do 2 f_equal. f_equal. rewrite <- Hs. by rewrite name_unpack.
Qed.

Lemma iter_from_sorted t from :
  StronglySorted lt ((fun '(slot, _, _) => slot) <$> iter_from t from).
Proof.
  unfold iter_from, entries. rewrite drop_imap_pair.
  apply (omap_imap_sorted
    (fun slot o => (fun v => (slot, name slot (default 0 (gens t !! slot)), v)) <$> o)
    (fun '(slot, _, _) => slot)).
  intros i [v|] [[slot n] v'] Hb; simplify_eq/=. done.
Qed.

Lemma elem_of_iter t n v : wf t -> (n, v) ∈ iter t <-> get t n = Some v.
Proof.
  intros Hw. unfold iter. rewrite list_elem_of_fmap. split.
  - intros ([[slot n'] v'] & Heq & Hin). simplify_eq. apply elem_of_iter_from in Hin; naive_solver.
  - intros Hg. exists ((unpack n).1, n, v). split; [done|]. apply elem_of_iter_from; [done|].
    split_and!; [lia|done|done].
Qed.

Lemma iter_nodup t : wf t -> NoDup (iter t).*1.
Proof.
  intros Hw. unfold iter. rewrite <- list_fmap_compose.
  apply (sorted_nodup_fmap (fun '(slot, _, _) => slot)); [|apply iter_from_sorted].
  intros [[s1 n1] v1] [[s2 n2] v2] H1 H2 Heq. simpl in Heq. subst.
  apply elem_of_iter_from in H1 as (_ & _ & ?), H2 as (_ & _ & ?); congruence.
Qed.
End wf.

(** ** The interface, discharged *)

(** The interface's carrier fixes the capacity: a table of [N] slots. *)
#[export] Instance gen_table_ops {T} (N : nat) : NameTable T (Table T) := {
  nt_ok t := Z.of_nat N <= u32_max /\ wf N t;
  nt_get := get;
  nt_insert := insert_with;
  nt_set := set;
  nt_remove := remove N;
  nt_iter := iter }.

#[export] Instance gen_table_laws {T} (N : nat) :
  @NameTableLaws T (Table T) (gen_table_ops N).
Proof.
  split; simpl.
  - intros t f n t' [HN Hw] Hi.
    split_and!; [done|by eapply insert_with_wf|by eapply (insert_with_get N HN t f n t' 0)| | |].
    + destruct (insert_with_Some N HN t f n t' Hw Hi) as (s & g & -> & _ & Hg & Hs & _).
      pose proof (slot_bound N HN t s None Hw Hs). apply (wf_gens_width N t Hw) in Hg as [? ?].
      unfold u32_max in *. rewrite name_arith by lia. lia.
    + destruct (insert_with_Some N HN t f n t' Hw Hi) as (s & g & -> & _ & Hg & Hs & _).
      pose proof (slot_bound N HN t s None Hw Hs). apply (wf_gens_width N t Hw) in Hg as [? ?].
      unfold u32_max, u64_max in *. rewrite name_arith by lia. lia.
    + intros m. by eapply (insert_with_get N HN t f n t' m).
  - intros t n v [HN Hw] Hg. destruct (set_lookup N t n v Hw Hg). done.
  - intros t n [HN Hw]. split_and!; [by apply (remove_get N t n 0)|done|by apply remove_wf|].
    intros m. by apply (remove_get N t n m).
  - intros t n v [HN Hw]. by apply elem_of_iter with N.
  - intros t [HN Hw]. by apply iter_nodup with N.
Qed.

(** ** Executions, counting removals *)

Section executions.
Context {T : Type} (N : nat).
Implicit Types t : Table T.

Inductive op : nat -> Table T -> Table T -> Prop :=
  | op_insert t f n t' : insert_with t f = Some (n, t') -> op 0 t t'
  | op_write t n v0 write v : get_mut t n = Some (v0, write) -> op 0 t (write v)
  | op_iter_mut t visit : op 0 t (iter_mut t visit)
  | op_remove t n : op 1 t (remove N t n).2.

(** [exec k t t']: [t'] follows from [t] by operations of which [k] are calls of
    [remove]. *)
Inductive exec : nat -> Table T -> Table T -> Prop :=
  | exec_refl t : exec 0 t t
  | exec_step j k t1 t2 t3 : op j t1 t2 -> exec k t2 t3 -> exec (j + k) t1 t3.

Hypothesis HN : Z.of_nat N <= u32_max.

Lemma write_as_set t n v0 write v :
  get_mut t n = Some (v0, write) -> is_Some (get t n) /\ write v = set t n v.
Proof.
  intros Hg. unfold set. rewrite Hg. split; [|done]. unfold get_mut in Hg.
  destruct (slot_of t n) as [s|] eqn:Hs; simpl in Hg; [|done].
  destruct (get t n) as [v'|] eqn:Hget; [done|]. apply slot_of_get in Hget. congruence.
Qed.

Lemma occupied_imap (l : list (option T)) (f : nat -> option T -> option T) :
  (forall i o, is_some (f i o) = is_some o) -> occupied (imap f l) = occupied l.
Proof.
  revert f. induction l as [|o l IH]; intros f Hf; [done|].
  simpl. rewrite !occupied_cons, Hf, IH; [done|]. intros i o'. apply Hf.
Qed.

Lemma iter_mut_wf t visit : wf N t -> wf N (iter_mut t visit).
Proof.
  intros Hw.
  assert (Hf : forall i o, is_some (if (i <? top t)%nat then visit <$> o else o) = is_some o).
  { intros i o. by destruct (i <? top t)%nat, o. }
  constructor; simpl; try apply Hw.
  - rewrite length_imap. apply Hw.
  - rewrite (occupied_imap _ _ Hf). apply Hw.
  - intros i Hi. rewrite list_lookup_imap, (wf_above N t Hw i Hi). simpl.
    by destruct (i <? top t)%nat.
  - intros k Hk. pose proof (wf_tight N t Hw k Hk) as Ht. rewrite list_lookup_imap.
    destruct (slots t !! k) as [[v|]|]; simpl in *; try done. by destruct (k <? top t)%nat.
Qed.

Lemma op_wf k t t' : wf N t -> op k t t' -> wf N t'.
Proof.
  intros Hw Hop. destruct Hop as [t f n t' Hi|t n v0 write v Hg|t visit|t n].
  - by eapply insert_with_wf.
  - destruct (write_as_set t n v0 write v Hg) as [Hs ->]. by apply set_lookup.
  - by apply iter_mut_wf.
  - by apply remove_wf.
Qed.

Lemma exec_wf k t t' : exec k t t' -> wf N t -> wf N t'.
Proof. induction 1 as [|j k t1 t2 t3 Hop Hex IH]; intros Hw; [done|]. apply IH. by eapply op_wf. Qed.

(** An operation bumps a slot's generation by at most the removals it makes. *)
Lemma op_gens k t t' s g :
  op k t t' -> gens t !! s = Some g -> in_width 32 g ->
  exists j, (j <= k)%nat /\ gens t' !! s = Some (wrap 32 (g + Z.of_nat j)).
Proof.
  intros Hop Hg Hw.
  assert (Hsame : gens t' = gens t ->
    exists j, (j <= k)%nat /\ gens t' !! s = Some (wrap 32 (g + Z.of_nat j))).
  { intros ->. exists 0%nat. split; [lia|]. simpl. by rewrite Z.add_0_r, wrap_small. }
  destruct Hop as [t f n t' Hi|t n v0 write v Hgm|t visit|t n].
  - apply Hsame. unfold insert_with in Hi.
    destruct (position is_none (slots t)) as [s'|]; simpl in Hi; [|done].
    destruct (gens t !! s') as [g'|]; simpl in Hi; [|done]. by simplify_eq.
  - apply Hsame. unfold get_mut in Hgm. destruct (slot_of t n); simpl in Hgm; [|done].
    destruct (mjoin (slots t !! n0)); simpl in Hgm; [|done]. by simplify_eq.
  - by apply Hsame.
  - destruct (get t n) as [v|] eqn:Hget; [|apply Hsame; by rewrite remove_None].
    rewrite (remove_Some N t n v Hget). simpl. apply get_Some in Hget as [Hgen _].
    destruct (decide ((unpack n).1 = s)) as [<-|Hne].
    + exists 1%nat. split; [lia|]. rewrite list_lookup_insert_eq by (by eapply lookup_lt_Some).
      naive_solver.
    + exists 0%nat. split; [lia|]. rewrite list_lookup_insert_ne by done.
      simpl. by rewrite Z.add_0_r, wrap_small.
Qed.

Lemma exec_gens k t t' s g :
  exec k t t' -> gens t !! s = Some g -> in_width 32 g ->
  exists j, (j <= k)%nat /\ gens t' !! s = Some (wrap 32 (g + Z.of_nat j)).
Proof.
  intros Hex. revert g. induction Hex as [t|j k t1 t2 t3 Hop Hex IH]; intros g Hg Hw.
  - exists 0%nat. split; [done|]. simpl. by rewrite Z.add_0_r, wrap_small.
  - destruct (op_gens j t1 t2 s g Hop Hg Hw) as (a & Ha & Hg2).
    destruct (IH _ Hg2) as (b & Hb & Hg3); [apply wrap_range; lia|].
    exists (a + b)%nat. split; [lia|]. rewrite Hg3. unfold wrap.
    rewrite Z.add_mod_idemp_l by lia. do 2 f_equal. lia.
Qed.

(** ** The finite map a table implements *)

Definition abs (t : Table T) : gmap Z T := list_to_map (iter t).

Lemma abs_lookup t n : wf N t -> abs t !! n = get t n.
Proof.
  intros Hw. apply option_eq. intros v. rewrite <- (elem_of_iter N HN t n v Hw).
  unfold abs. symmetry. apply elem_of_list_to_map. by apply iter_nodup with N.
Qed.

Lemma occupied_take (l : list (option T)) k :
  (forall i, (k <= i < length l)%nat -> l !! i = Some None) ->
  occupied l = length (omap (fun o => o) (take k l)).
Proof.
  revert k. induction l as [|o l IH]; intros k Hk; [by destruct k|].
  rewrite occupied_cons. destruct k as [|k]; simpl.
  - rewrite (IH 0%nat) by (intros i Hi; apply (Hk (S i)); simpl; lia).
    assert (o = None) as -> by (pose proof (Hk 0%nat); simpl in *; naive_solver lia). done.
  - rewrite (IH k) by (intros i Hi; apply (Hk (S i)); simpl; lia). by destruct o.
Qed.

Lemma length_iter t : wf N t -> Z.of_nat (length (iter t)) = live t.
Proof.
  intros Hw. rewrite (wf_live N t Hw). f_equal. unfold iter. rewrite length_fmap.
  unfold iter_from, entries. rewrite drop_0.
  rewrite (occupied_take (slots t) (top t)).
  - apply (omap_imap_length
      (fun slot v => (slot, name slot (default 0 (gens t !! slot)), v)) _ (fun i => i)).
  - intros i Hi. apply (wf_above N t Hw). rewrite (wf_slots N t Hw) in Hi. lia.
Qed.

Lemma size_abs t : wf N t -> Z.of_nat (size (abs t)) = live t.
Proof.
  intros Hw. rewrite <- (length_iter t Hw). f_equal. unfold abs.
  by rewrite map_size_list_to_map by (by apply iter_nodup with N).
Qed.

Lemma abs_new : abs (new N) = ∅.
Proof. unfold abs, iter, iter_from, entries. simpl. done. Qed.

Lemma abs_insert t f n t' :
  wf N t -> insert_with t f = Some (n, t') -> abs t !! n = None /\ abs t' = <[n := f n]> (abs t).
Proof.
  intros Hw Hi. pose proof (insert_with_wf N HN t f n t' Hw Hi) as Hw'. split.
  - rewrite abs_lookup by done. by eapply (insert_with_get N HN t f n t' 0).
  - apply map_eq. intros m. rewrite abs_lookup, lookup_insert, abs_lookup by done.
    destruct (insert_with_get N HN t f n t' m Hw Hi) as [_ ->].
    repeat case_decide; naive_solver.
Qed.

Lemma abs_remove t n :
  wf N t -> (remove N t n).1 = abs t !! n /\ abs (remove N t n).2 = base.delete n (abs t).
Proof.
  intros Hw. split.
  - rewrite abs_lookup by done. by apply (remove_get N t n 0).
  - apply map_eq. intros m. rewrite abs_lookup by (by apply remove_wf).
    destruct (remove_get N t n m Hw) as [_ ->]. rewrite lookup_delete, abs_lookup by done.
    repeat case_decide; naive_solver.
Qed.
End executions.

(** ** The component's properties *)

(** C23: a removed name stays dead. After [remove] succeeds on a name, no
    execution with fewer than [2^32 - 1] further removals makes that name
    resolve again, whatever else is inserted, written or removed meanwhile. *)
Theorem removed_name_never_resolves {T} (N k : nat) (t t' : Table T) (n : Z) (v : T)
  (HN : Z.of_nat N <= u32_max) (Hw : wf N t) (Hg : get t n = Some v)
  (Hex : exec N k (remove N t n).2 t') (Hk : Z.of_nat k < 2 ^ 32 - 1) :
  get t' n = None.
Proof.
  rewrite (remove_Some N t n v Hg) in Hex. simpl in Hex.
  apply get_Some in Hg as [Hgen Hsl]. pose proof (wf_gens_width N t Hw _ _ Hgen) as [Hg0 Hg1].
  destruct (exec_gens N k _ t' (unpack n).1 (wrap 32 ((unpack n).2 + 1)) Hex)
    as (j & Hj & Hg'); simpl.
  - by rewrite list_lookup_insert_eq by (by eapply lookup_lt_Some).
  - apply wrap_range. lia.
  - destruct (get t' n) as [v'|] eqn:Hget; [|done]. apply get_Some in Hget as [Hgen' _].
    rewrite Hg' in Hgen'. exfalso. simplify_eq. unfold wrap in Hgen'.
    rewrite Z.add_mod_idemp_l in Hgen' by lia.
    set (g := (unpack n).2) in *. pose proof (Z.div_mod (g + 1 + Z.of_nat j) (2 ^ 32)).
    pose proof (Z.mod_pos_bound (g + 1 + Z.of_nat j) (2 ^ 32)). nia.
Qed.

(** The table implements a finite map from names to entries. From an empty
    table, along every execution: lookup is map lookup; a successful insert adds
    one fresh key; an insert fails exactly when [N] entries are live; a remove
    returns and deletes exactly its key; the live count is the map's size. *)
Theorem table_refines_finite_map {T} (N k : nat) (t : Table T)
  (HN : Z.of_nat N <= u32_max) (Hex : exec N k (new N) t) :
  (forall n, get t n = abs t !! n) /\
  Z.of_nat (size (abs t)) = len t /\
  (forall f, match insert_with t f with
     | Some (n, t') => abs t !! n = None /\ abs t' = <[n := f n]> (abs t)
     | None => size (abs t) = N end) /\
  (forall n, (remove N t n).1 = abs t !! n /\ abs (remove N t n).2 = base.delete n (abs t)).
Proof.
  assert (Hw : wf N t) by (eapply exec_wf; [done|exact Hex|by apply table_wf_new]).
  split_and!.
  - intros n. by rewrite (abs_lookup N).
  - by apply (size_abs N).
  - intros f. destruct (insert_with t f) as [[n t']|] eqn:Hi; [by apply (abs_insert N)|].
    pose proof (size_abs N HN t Hw) as Hsz. rewrite (wf_live N t Hw) in Hsz.
    apply Nat2Z.inj in Hsz. rewrite Hsz. rewrite <- (wf_slots N t Hw).
    pose proof (insert_with_None N t f Hw Hi) as Hall. rewrite <- (wf_slots N t Hw) in Hall.
    clear -Hall. revert Hall. generalize (slots t). intros l.
    induction l as [|o l IH]; intros Hall; [done|]. rewrite occupied_cons.
    destruct (Hall 0%nat) as [v Hv]; [simpl; lia|]. simplify_eq/=. f_equal. apply IH.
    intros i Hi. apply (Hall (S i)). lia.
  - intros n. by apply abs_remove.
Qed.

(** A resumed sweep is complete. In a well-formed table [iter_from from]
    yields, in strictly increasing slot order, every live entry whose slot is at
    least [from] and nothing else, although the walk stops at [top]. *)
Theorem iter_from_is_complete {T} (N : nat) (t : Table T) (from : nat)
  (HN : Z.of_nat N <= u32_max) (Hw : wf N t) :
  StronglySorted lt ((fun '(slot, _, _) => slot) <$> iter_from t from) /\
  (forall slot n v, (slot, n, v) ∈ iter_from t from <->
     (from <= slot)%nat /\ get t n = Some v /\ (unpack n).1 = slot).
Proof. split; [apply iter_from_sorted|]. intros slot n v. by apply (elem_of_iter_from N HN). Qed.

(** ** Witnesses *)

Definition sample : option (Z * Table nat) := insert_with (new 2) (fun _ => 5%nat).

Lemma removed_name_never_resolves_witness :
  exists t n, sample = Some (n, t) /\ get t n = Some 5%nat /\
    get (remove 2 t n).2 n = None.
Proof.
  destruct sample as [[n t]|] eqn:E; [|vm_compute in E; discriminate E].
  exists t, n. assert (Hw : wf 2 t).
  { apply (insert_with_wf 2 ltac:(vm_compute; congruence) (new 2) (fun _ => 5%nat) n);
      [apply table_wf_new|exact E]. }
  assert (Hg : get t n = Some 5%nat) by (vm_compute in E; injection E as <- <-; vm_compute; reflexivity).
  split; [reflexivity|]. split; [exact Hg|].
  apply (removed_name_never_resolves 2 0 t _ n 5%nat);
    [vm_compute; congruence|exact Hw|exact Hg|apply exec_refl|vm_compute; reflexivity].
Defined.

Lemma table_refines_finite_map_witness :
  Z.of_nat (size (abs (new (T:=nat) 3))) = len (new (T:=nat) 3).
Proof.
  apply (table_refines_finite_map 3 0 (new 3)); [vm_compute; congruence|apply exec_refl].
Defined.

Definition sample_table : Table nat :=
  match sample with Some (_, t) => t | None => new 2 end.

Lemma iter_from_is_complete_witness : (0%nat, 0, 5%nat) ∈ iter_from sample_table 0.
Proof.
  assert (Hw : wf 2 sample_table).
  { unfold sample_table. destruct sample as [[n t]|] eqn:E; [|apply table_wf_new].
    apply (insert_with_wf 2 ltac:(vm_compute; congruence) (new 2) (fun _ => 5%nat) n);
      [apply table_wf_new|exact E]. }
  assert (HN : Z.of_nat 2 <= u32_max) by (vm_compute; congruence).
  apply (proj2 (iter_from_is_complete 2 sample_table 0 HN Hw) 0%nat 0 5%nat).
  split; [lia|]. split; vm_compute; reflexivity.
Defined.

End GenTable.
