(* ===== verification/IntrusiveFifo.v ===== *)
(** * The intrusive FIFO (crates/intrusive_fifo/src/lib.rs)

    The queue's links live in the queued nodes, so the model has a store: a
    [heap] maps the address of every live node to the value of its [next] field
    (the [Node] trait's [next] and [set_next]). Dereferencing an address that is
    no live node is undefined behaviour, [None] in the [Mem] monad; the theorems
    show it does not happen under the callers' contract. *)

From S2P Require Import Prelude.
Local Open Scope Z_scope.

(** A [NonNull<T>]. *)
Abbreviation ptr := Z (only parsing).
Abbreviation heap := (gmap Z (option Z)) (only parsing).

(** Computations over the node store; [None] is undefined behaviour. *)
Definition Mem (A : Type) : Type := heap -> option (A * heap).

#[export] Instance Mem_ret : MRet Mem := fun A a h => Some (a, h).
#[export] Instance Mem_bind : MBind Mem :=
  fun A B f m h => match m h with Some (a, h') => f a h' | None => None end.

Module IntrusiveFifo.

(** [next()] of the node at an address. *)
Definition next (node : ptr) : Mem (option ptr) :=
  fun h => match h !! node with Some n => Some (n, h) | None => None end.

(** [set_next(n)] on the node at an address. *)
Definition set_next (node : ptr) (n : option ptr) : Mem unit :=
  fun h => match h !! node with Some _ => Some (tt, <[node := n]> h) | None => None end.

Record Fifo := MkFifo { head : option ptr; tail : option ptr; len : Z }.

Definition new : Fifo := MkFifo None None 0.

Definition is_empty (q : Fifo) : bool := is_none (head q).

Definition push_back (q : Fifo) (node : ptr) : Mem Fifo :=
  _ ← set_next node None;
  match tail q with
  | Some t =>
      _ ← set_next t (Some node);
      mret (MkFifo (head q) (Some node) (len q + 1))
  | None => mret (MkFifo (Some node) (Some node) (len q + 1))
  end.

Definition pop_front (q : Fifo) : Mem (option ptr * Fifo) :=
  match head q with
  | None => mret (None, q)
  | Some node =>
      head' ← next node;
      let tail' := if is_none head' then None else tail q in
      _ ← set_next node None;
      mret (Some node, MkFifo head' tail' (len q - 1))
  end.

(** ** Representation of a list of nodes *)

(** [q] holds exactly the nodes [l], in order: the head and tail are the ends of
    [l], each node links to its successor, and no node is queued twice. *)
Record rep (h : heap) (q : Fifo) (l : list ptr) : Prop := {
  rep_head : head q = l !! 0%nat;
  rep_tail : tail q = last l;
  rep_len : len q = Z.of_nat (length l);
  rep_nodup : NoDup l;
  rep_link i a : l !! i = Some a -> h !! a = Some (l !! S i) }.

Lemma rep_new h : rep h new [].
Proof. constructor; simpl; try done; constructor. Qed.

Lemma rep_empty h q l : rep h q l -> is_empty q = bool_decide (l = []).
Proof. intros Hr. unfold is_empty. rewrite (rep_head h q l Hr). by destruct l. Qed.

(** A queue does not notice writes to nodes it does not hold. *)
Lemma rep_frame h h' q l :
  rep h q l -> (forall a, a ∈ l -> h' !! a = h !! a) -> rep h' q l.
Proof.
  intros Hr Hf. constructor; try apply Hr. intros i a Ha.
  rewrite Hf by (by eapply list_elem_of_lookup_2). by apply (rep_link h q l Hr).
Qed.

Lemma push_back_rep h q l node :
  rep h q l -> node ∉ l -> is_Some (h !! node) ->
  exists h' q', push_back q node h = Some (q', h') /\ rep h' q' (l ++ [node]) /\
    (forall a, a <> node -> a ∉ l -> h' !! a = h !! a) /\
    (forall a, is_Some (h' !! a) <-> is_Some (h !! a)).
Proof.
  intros Hr Hn [n0 Hn0]. unfold push_back, mbind, Mem_bind, set_next. rewrite Hn0. simpl.
  rewrite (rep_tail h q l Hr). destruct (last l) as [t|] eqn:Ht.
  - pose proof (last_Some_elem_of l t Ht) as Htl.
    assert (Htn : t <> node) by congruence.
    rewrite last_lookup in Ht.
    pose proof (rep_link h q l Hr _ _ Ht) as Hlt. rewrite lookup_insert_ne, Hlt by done. simpl.
    eexists _, _. split; [reflexivity|]. split; [|split].
    + constructor; simpl.
      * rewrite (rep_head h q l Hr). destruct l; [done|by rewrite lookup_app_l by (simpl; lia)].
      * by rewrite last_snoc.
      * rewrite (rep_len h q l Hr), length_app. simpl. lia.
      * apply NoDup_app. split_and!; [apply Hr| |apply NoDup_singleton]. set_solver.
      * intros i a Ha. apply lookup_app_Some in Ha as [Ha|[Hi Ha]].
        -- destruct (decide (a = t)) as [->|Hat].
           ++ rewrite lookup_insert_eq. f_equal.
              assert (i = Nat.pred (length l)) as -> by (eapply NoDup_lookup; [apply Hr|done|done]).
              apply lookup_lt_Some in Ha. rewrite lookup_app_r by lia.
              by replace (S (Nat.pred (length l)) - length l)%nat with 0%nat by lia.
           ++ assert (a <> node) by (intros ->; apply Hn; by eapply list_elem_of_lookup_2).
              rewrite !lookup_insert_ne by done. rewrite (rep_link h q l Hr i a Ha). f_equal.
              destruct (decide (S i < length l)%nat); [by rewrite lookup_app_l|].
              exfalso. apply Hat. apply lookup_lt_Some in Ha as Hlt'.
              assert (i = Nat.pred (length l)) as -> by lia. congruence.
        -- apply list_lookup_singleton_Some in Ha as [? <-].
           rewrite lookup_insert_ne, lookup_insert_eq by done. f_equal.
           symmetry. apply lookup_ge_None. rewrite length_app. simpl. lia.
    + intros a Han Hal. assert (a <> t) by congruence. by rewrite !lookup_insert_ne.
    + intros a. destruct (decide (a = t)) as [->|]; [rewrite lookup_insert_eq; naive_solver|].
      rewrite lookup_insert_ne by done.
      destruct (decide (a = node)) as [->|]; [rewrite lookup_insert_eq; naive_solver|].
      by rewrite lookup_insert_ne.
  - apply last_None in Ht as ->. eexists _, _. split; [reflexivity|]. split; [|split].
    + constructor; simpl; try done.
      * rewrite (rep_len h q _ Hr). simpl. lia.
      * apply NoDup_singleton.
      * intros i a Ha. apply list_lookup_singleton_Some in Ha as [-> <-]. by rewrite lookup_insert_eq.
    + intros a Han _. by rewrite lookup_insert_ne.
    + intros a. destruct (decide (a = node)) as [->|]; [rewrite lookup_insert_eq; naive_solver|].
      by rewrite lookup_insert_ne.
Qed.

Lemma pop_front_nil h q : rep h q [] -> pop_front q h = Some (None, q, h).
Proof. intros Hr. unfold pop_front. by rewrite (rep_head h q [] Hr). Qed.

Lemma pop_front_cons h q a l :
  rep h q (a :: l) ->
  exists h' q', pop_front q h = Some (Some a, q', h') /\ rep h' q' l /\
    h' !! a = Some None /\ (forall b, b <> a -> h' !! b = h !! b).
Proof.
  intros Hr. unfold pop_front. rewrite (rep_head h q _ Hr). simpl.
  pose proof (rep_link h q _ Hr 0%nat a eq_refl) as Hlink. simpl in Hlink.
  unfold mbind, Mem_bind, next, set_next. rewrite Hlink. simpl. rewrite Hlink. simpl.
  pose proof (rep_nodup h q _ Hr) as Hnd. apply NoDup_cons in Hnd as [Hal Hnd].
  eexists _, _. split; [reflexivity|]. split; [|split].
  - constructor; simpl; try done.
    + pose proof (rep_tail h q _ Hr) as Ht. destruct l as [|b l]; [done|]. by rewrite Ht.
    + rewrite (rep_len h q _ Hr). simpl length. lia.
    + intros i b Hb. rewrite lookup_insert_ne.
      * by apply (rep_link h q _ Hr (S i)).
      * intros ->. apply Hal. by eapply list_elem_of_lookup_2.
  - apply lookup_insert_eq.
  - intros b Hb. by rewrite lookup_insert_ne.
Qed.

(** ** Sequences of operations *)

Inductive qop := Push (node : ptr) | Pop.

(** What a caller sees from a sequence of operations. *)
Fixpoint run_ops (ops : list qop) (q : Fifo) : Mem (list (option ptr) * Fifo) :=
  match ops with
  | [] => mret ([], q)
  | Push node :: ops' => q' ← push_back q node; run_ops ops' q'
  | Pop :: ops' =>
      '(r, q') ← pop_front q;
      '(rs, q'') ← run_ops ops' q';
      mret (r :: rs, q'')
  end.

(** The specification: a first-in first-out list. *)
Fixpoint spec_ops (ops : list qop) (l : list ptr) : list (option ptr) * list ptr :=
  match ops with
  | [] => ([], l)
  | Push node :: ops' => spec_ops ops' (l ++ [node])
  | Pop :: ops' =>
      let '(rs, l'') := spec_ops ops' (List.tl l) in (l !! 0%nat :: rs, l'')
  end.

(** The contract of the unsafe [push_back]: the node is live and on no queue. *)
Fixpoint contract (live : ptr -> Prop) (ops : list qop) (l : list ptr) : Prop :=
  match ops with
  | [] => True
  | Push node :: ops' => live node /\ node ∉ l /\ contract live ops' (l ++ [node])
  | Pop :: ops' => contract live ops' (List.tl l)
  end.

Lemma contract_mono (P Q : ptr -> Prop) ops l :
  (forall a, P a -> Q a) -> contract P ops l -> contract Q ops l.
Proof.
  intros HPQ. revert l. induction ops as [|[b|] ops IH]; intros l Hc; simpl in *; [done| |by auto].
  naive_solver.
Qed.

(** The pointer-linked queue is a first-in first-out list. Every sequence of
    pushes and pops that meets the unsafe contract runs without undefined
    behaviour, returns exactly what the list returns, and leaves a queue that
    represents the list's final contents. *)
Theorem fifo_refines_list (ops : list qop) (h : heap) (q : Fifo) (l : list ptr)
  (Hr : rep h q l) (Hc : contract (fun a => is_Some (h !! a)) ops l) :
  exists h' q', run_ops ops q h = Some ((spec_ops ops l).1, q', h') /\
    rep h' q' (spec_ops ops l).2.
Proof.
  revert h q l Hr Hc. induction ops as [|[node|] ops IH]; intros h q l Hr Hc; simpl in *.
  - by exists h, q.
  - destruct Hc as (Hlive & Hn & Hc).
    destruct (push_back_rep h q l node Hr Hn Hlive) as (h1 & q1 & Hrun & Hr1 & _ & Hdom).
    destruct (IH h1 q1 (l ++ [node]) Hr1) as (h2 & q2 & Hrun2 & Hr2).
    + eapply contract_mono; [|exact Hc]. intros b. apply Hdom.
    + exists h2, q2. split; [|done]. unfold mbind, Mem_bind. by rewrite Hrun.
  - destruct l as [|a l].
    + destruct (IH h q [] Hr Hc) as (h2 & q2 & Hrun2 & Hr2). exists h2, q2.
      unfold mbind, Mem_bind. rewrite (pop_front_nil h q Hr). simpl. rewrite Hrun2.
      by destruct (spec_ops ops []).
    + destruct (pop_front_cons h q a l Hr) as (h1 & q1 & Hrun & Hr1 & Ha & Hf).
      destruct (IH h1 q1 l Hr1) as (h2 & q2 & Hrun2 & Hr2).
      * eapply contract_mono; [|exact Hc]. intros b Hb.
        destruct (decide (b = a)) as [->|]; [by rewrite Ha|by rewrite Hf].
      * exists h2, q2. unfold mbind, Mem_bind. rewrite Hrun. simpl. rewrite Hrun2.
        by destruct (spec_ops ops l).
Qed.

Lemma fifo_refines_list_witness :
  exists h' q', run_ops [Push 8; Push 16; Pop] new (<[8 := None]> (<[16 := None]> ∅)) =
    Some ([Some 8], q', h') /\ rep h' q' [16].
Proof.
  apply (fifo_refines_list [Push 8; Push 16; Pop] _ new []).
  - apply rep_new.
  - simpl. split_and!; try done; try set_solver; try (eexists; reflexivity).
Defined.

End IntrusiveFifo.
