(* ===== verification/Rendezvous.v ===== *)
(** * Rendezvous endpoints (crates/inter_process_communication/src/lib.rs)

    A rendezvous is two intrusive wait queues, a count of pending signals, and
    the flag that marks an interrupt's endpoint. The operations run in the
    [Mem] monad of the node store; [Endpoint] below is the contract they
    implement: two lists and a counter. *)

From S2P Require Import Prelude IntrusiveFifo.
Local Open Scope Z_scope.

Module Rendezvous.
Import IntrusiveFifo.

Record Rendezvous := MkRendezvous {
  senders : Fifo;
  receivers : Fifo;
  pending : Z;
  bound_to_interrupt : bool }.

Inductive Send := SendRendezvous (receiver : ptr) | SendBlocked | SendRefused.

Inductive Receive := ReceiveSignal | FromSender (sender : ptr) | ReceiveBlocked.

Definition new : Rendezvous := MkRendezvous IntrusiveFifo.new IntrusiveFifo.new 0 false.

Definition bind_to_interrupt (r : Rendezvous) : Rendezvous :=
  MkRendezvous (senders r) (receivers r) (pending r) true.

Definition is_bound_to_interrupt (r : Rendezvous) : bool := bound_to_interrupt r.

Definition one_queue_invariant (r : Rendezvous) : bool :=
  is_empty (senders r) || is_empty (receivers r).

Definition is_idle (r : Rendezvous) : bool :=
  is_empty (senders r) && is_empty (receivers r).

Definition debug_counts (r : Rendezvous) : Z * Z * Z :=
  (len (senders r), len (receivers r), pending r).

(** [while let Some(w) = queue.pop_front() { f(w) }]: the nodes [f] is called
    on, in order. Running out of fuel is [None]; [drain_rep] shows the fuel the
    callers give is enough. *)
Fixpoint drain (fuel : nat) (q : Fifo) : Mem (list ptr * Fifo) :=
  match fuel with
  | O => fun _ => None
  | S fuel' =>
      '(w, q') ← pop_front q;
      match w with
      | None => mret ([], q')
      | Some w => '(ws, q'') ← drain fuel' q'; mret (w :: ws, q'')
      end
  end.

Definition drain_waiters (r : Rendezvous) : Mem (list ptr * Rendezvous) :=
  '(ss, senders') ← drain (S (Z.to_nat (len (senders r)))) (senders r);
  '(rs, receivers') ← drain (S (Z.to_nat (len (receivers r)))) (receivers r);
  mret (ss ++ rs, MkRendezvous senders' receivers' (pending r) (bound_to_interrupt r)).

(** The filtering loop of [remove_sender] and [remove_receiver]: every node but
    the victim is moved to [kept]. *)
Fixpoint remove_loop (fuel : nat) (q kept : Fifo) (victim : ptr) (found : bool)
  : Mem (bool * Fifo) :=
  match fuel with
  | O => fun _ => None
  | S fuel' =>
      '(node, q') ← pop_front q;
      match node with
      | None => mret (found, kept)
      | Some node =>
          if node =? victim then remove_loop fuel' q' kept victim true
          else kept' ← push_back kept node;
               remove_loop fuel' q' kept' victim found
      end
  end.

Definition remove_sender (r : Rendezvous) (victim : ptr) : Mem (bool * Rendezvous) :=
  '(found, kept) ← remove_loop (S (Z.to_nat (len (senders r)))) (senders r)
                     IntrusiveFifo.new victim false;
  mret (found, MkRendezvous kept (receivers r) (pending r) (bound_to_interrupt r)).

Definition remove_receiver (r : Rendezvous) (victim : ptr) : Mem (bool * Rendezvous) :=
  '(found, kept) ← remove_loop (S (Z.to_nat (len (receivers r)))) (receivers r)
                     IntrusiveFifo.new victim false;
  mret (found, MkRendezvous (senders r) kept (pending r) (bound_to_interrupt r)).

Definition send (r : Rendezvous) (me : ptr) : Mem (Send * Rendezvous) :=
  if bound_to_interrupt r then mret (SendRefused, r)
  else
    '(p, receivers') ← pop_front (receivers r);
    match p with
    | Some receiver =>
        mret (SendRendezvous receiver,
              MkRendezvous (senders r) receivers' (pending r) (bound_to_interrupt r))
    | None =>
        senders' ← push_back (senders r) me;
        mret (SendBlocked,
              MkRendezvous senders' receivers' (pending r) (bound_to_interrupt r))
    end.

Definition receive (r : Rendezvous) (me : ptr) : Mem (Receive * Rendezvous) :=
  if 0 <? pending r then
    mret (ReceiveSignal,
          MkRendezvous (senders r) (receivers r) (pending r - 1) (bound_to_interrupt r))
  else
    '(p, senders') ← pop_front (senders r);
    match p with
    | Some sender =>
        mret (FromSender sender,
              MkRendezvous senders' (receivers r) (pending r) (bound_to_interrupt r))
    | None =>
        receivers' ← push_back (receivers r) me;
        mret (ReceiveBlocked,
              MkRendezvous senders' receivers' (pending r) (bound_to_interrupt r))
    end.

Definition signal (r : Rendezvous) : Mem (option ptr * Rendezvous) :=
  '(p, receivers') ← pop_front (receivers r);
  match p with
  | Some receiver =>
      mret (Some receiver,
            MkRendezvous (senders r) receivers' (pending r) (bound_to_interrupt r))
  | None =>
      mret (None,
            MkRendezvous (senders r) receivers' (saturating_add 32 (pending r) 1)
              (bound_to_interrupt r))
  end.

(** ** Calls and replies *)

Inductive call :=
  | CSend (me : ptr) | CReceive (me : ptr) | CSignal
  | CRemoveSender (victim : ptr) | CRemoveReceiver (victim : ptr)
  | CDrain | CBind.

Inductive reply :=
  | RSend (s : Send) | RReceive (x : Receive) | RSignal (woken : option ptr)
  | RRemoved (victim : ptr) (found : bool) | RDrained (ws : list ptr) | RBound.

Definition run_call (c : call) (r : Rendezvous) : Mem (reply * Rendezvous) :=
  match c with
  | CSend me => '(s, r') ← send r me; mret (RSend s, r')
  | CReceive me => '(x, r') ← receive r me; mret (RReceive x, r')
  | CSignal => '(p, r') ← signal r; mret (RSignal p, r')
  | CRemoveSender v => '(b, r') ← remove_sender r v; mret (RRemoved v b, r')
  | CRemoveReceiver v => '(b, r') ← remove_receiver r v; mret (RRemoved v b, r')
  | CDrain => '(ws, r') ← drain_waiters r; mret (RDrained ws, r')
  | CBind => mret (RBound, bind_to_interrupt r)
  end.

Fixpoint run_calls (cs : list call) (r : Rendezvous) : Mem (list reply * Rendezvous) :=
  match cs with
  | [] => mret ([], r)
  | c :: cs' =>
      '(x, r') ← run_call c r;
      '(xs, r'') ← run_calls cs' r';
      mret (x :: xs, r'')
  end.

(** ** The contract: two lists and a counter *)

Record Endpoint := MkEndpoint {
  snd_q : list ptr;
  rcv_q : list ptr;
  pend : Z;
  bound : bool }.

Definition spec_new : Endpoint := MkEndpoint [] [] 0 false.

Definition without (v : ptr) (l : list ptr) : list ptr := filter (fun a => a <> v) l.

Definition spec_call (c : call) (e : Endpoint) : reply * Endpoint :=
  match c with
  | CSend me =>
      if bound e then (RSend SendRefused, e)
      else match rcv_q e with
           | p :: l => (RSend (SendRendezvous p), MkEndpoint (snd_q e) l (pend e) (bound e))
           | [] => (RSend SendBlocked, MkEndpoint (snd_q e ++ [me]) [] (pend e) (bound e))
           end
  | CReceive me =>
      if 0 <? pend e then
        (RReceive ReceiveSignal, MkEndpoint (snd_q e) (rcv_q e) (pend e - 1) (bound e))
      else match snd_q e with
           | p :: l => (RReceive (FromSender p), MkEndpoint l (rcv_q e) (pend e) (bound e))
           | [] => (RReceive ReceiveBlocked, MkEndpoint [] (rcv_q e ++ [me]) (pend e) (bound e))
           end
  | CSignal =>
      match rcv_q e with
      | p :: l => (RSignal (Some p), MkEndpoint (snd_q e) l (pend e) (bound e))
      | [] => (RSignal None,
               MkEndpoint (snd_q e) [] (saturating_add 32 (pend e) 1) (bound e))
      end
  | CRemoveSender v =>
      (RRemoved v (bool_decide (v ∈ snd_q e)),
       MkEndpoint (without v (snd_q e)) (rcv_q e) (pend e) (bound e))
  | CRemoveReceiver v =>
      (RRemoved v (bool_decide (v ∈ rcv_q e)),
       MkEndpoint (snd_q e) (without v (rcv_q e)) (pend e) (bound e))
  | CDrain => (RDrained (snd_q e ++ rcv_q e), MkEndpoint [] [] (pend e) (bound e))
  | CBind => (RBound, MkEndpoint (snd_q e) (rcv_q e) (pend e) true)
  end.

Fixpoint spec_calls (cs : list call) (e : Endpoint) : list reply * Endpoint :=
  match cs with
  | [] => ([], e)
  | c :: cs' =>
      let '(x, e') := spec_call c e in
      let '(xs, e'') := spec_calls cs' e' in (x :: xs, e'')
  end.

(** The contract of the unsafe [send] and [receive]: the caller's node is live
    and on no queue. *)
Definition call_ok (live : ptr -> Prop) (c : call) (e : Endpoint) : Prop :=
  match c with
  | CSend me | CReceive me => live me /\ me ∉ snd_q e /\ me ∉ rcv_q e
  | _ => True
  end.

Fixpoint calls_ok (live : ptr -> Prop) (cs : list call) (e : Endpoint) : Prop :=
  match cs with
  | [] => True
  | c :: cs' => call_ok live c e /\ calls_ok live cs' (spec_call c e).2
  end.

(** The abstraction relation. *)
Record repr (h : heap) (r : Rendezvous) (e : Endpoint) : Prop := {
  repr_senders : rep h (senders r) (snd_q e);
  repr_receivers : rep h (receivers r) (rcv_q e);
  repr_disjoint : snd_q e ## rcv_q e;
  repr_pending : pending r = pend e;
  repr_bound : bound_to_interrupt r = bound e }.

(** ** The loops *)

Lemma drain_rep fuel h q l :
  rep h q l -> (length l < fuel)%nat ->
  exists h' q', drain fuel q h = Some (l, q', h') /\ rep h' q' [] /\
    (forall a, a ∉ l -> h' !! a = h !! a) /\
    (forall a, is_Some (h !! a) -> is_Some (h' !! a)).
Proof.
  revert h q l. induction fuel as [|fuel IH]; intros h q l Hr Hf; [lia|].
  simpl. unfold mbind, Mem_bind. destruct l as [|a l].
  - rewrite (pop_front_nil h q Hr). exists h, q. split_and!; auto.
  - destruct (pop_front_cons h q a l Hr) as (h1 & q1 & -> & Hr1 & Ha & Hfr).
    destruct (IH h1 q1 l Hr1) as (h2 & q2 & -> & Hr2 & Hfr2 & Hd2); [simpl in Hf; lia|].
    exists h2, q2. split_and!; [done|done| |].
    + intros b Hb. apply not_elem_of_cons in Hb as [? ?]. by rewrite Hfr2, Hfr.
    + intros b Hb. apply Hd2. destruct (decide (b = a)) as [->|]; [by rewrite Ha|by rewrite Hfr].
Qed.

Lemma without_not_in v l : v ∉ l -> without v l = l.
Proof.
  intros Hv. unfold without. induction l as [|a l IH]; [done|].
  apply not_elem_of_cons in Hv as [? ?]. rewrite filter_cons_True by congruence.
  by rewrite IH.
Qed.

Lemma elem_of_without a v l : a ∈ without v l <-> a <> v /\ a ∈ l.
Proof. unfold without. by rewrite list_elem_of_filter. Qed.

Lemma remove_loop_rep fuel h q l kept k victim found :
  rep h q l -> rep h kept k -> l ## k -> (length l < fuel)%nat ->
  exists h' kept',
    remove_loop fuel q kept victim found h =
      Some (found || bool_decide (victim ∈ l), kept', h') /\
    rep h' kept' (k ++ without victim l) /\
    (forall a, a ∉ l -> a ∉ k -> h' !! a = h !! a) /\
    (forall a, is_Some (h !! a) -> is_Some (h' !! a)).
Proof.
  revert h q l kept k found. induction fuel as [|fuel IH];
    intros h q l kept k found Hr Hk Hdis Hf; [lia|].
  simpl. unfold mbind at 1, Mem_bind at 1. destruct l as [|a l].
  - rewrite (pop_front_nil h q Hr). exists h, kept.
    rewrite app_nil_r, orb_false_r. split_and!; auto.
  - destruct (pop_front_cons h q a l Hr) as (h1 & q1 & -> & Hr1 & Ha & Hfr).
    pose proof (rep_nodup h q _ Hr) as Hnd. apply NoDup_cons in Hnd as [Hal Hnd].
    assert (Hak : a ∉ k) by (clear -Hdis; set_solver).
    assert (Hlk : l ## k) by (clear -Hdis; set_solver).
    assert (Hk1 : rep h1 kept k).
    { apply (rep_frame h); [done|]. intros b Hb. apply Hfr. intros ->. by apply Hak. }
    assert (Hd1 : forall b, is_Some (h !! b) -> is_Some (h1 !! b)).
    { intros b Hb. destruct (decide (b = a)) as [->|]; [by rewrite Ha|by rewrite Hfr]. }
    destruct (Z.eqb_spec a victim) as [->|Hne].
    + destruct (IH h1 q1 l kept k true Hr1 Hk1) as (h2 & k2 & -> & Hr2 & Hfr2 & Hd2);
        [done|simpl in Hf; lia|].
      exists h2, k2. rewrite (bool_decide_eq_true_2 (victim ∈ victim :: l)) by (by left). rewrite orb_true_r.
      split_and!; [done| | |].
      * unfold without. rewrite filter_cons_False by naive_solver. done.
      * intros b Hb Hb'. apply not_elem_of_cons in Hb as [? ?]. by rewrite Hfr2, Hfr.
      * auto.
    + unfold mbind, Mem_bind.
      destruct (push_back_rep h1 kept k a Hk1 Hak) as (h2 & k2 & -> & Hr2 & Hfr2 & Hdm2);
        [by rewrite Ha|].
      assert (Hq2 : rep h2 q1 l).
      { apply (rep_frame h1); [done|]. intros b Hb. apply Hfr2; [congruence|]. clear -Hlk Hb; set_solver. }
      destruct (IH h2 q1 l k2 (k ++ [a]) found Hq2 Hr2) as (h3 & k3 & -> & Hr3 & Hfr3 & Hd3);
        [clear -Hlk Hal; set_solver|simpl in Hf; lia|].
      exists h3, k3. split_and!.
      * do 3 f_equal. f_equal. apply bool_decide_ext. rewrite elem_of_cons. naive_solver.
      * unfold without. rewrite filter_cons_True by done. by rewrite <- app_assoc in Hr3.
      * intros b Hb Hb'. apply not_elem_of_cons in Hb as [? ?].
        rewrite Hfr3; [|done|clear -H Hb'; set_solver]. rewrite Hfr2 by done. by rewrite Hfr.
      * intros b Hb. apply Hd3. apply Hdm2. auto.
Qed.

(** ** Each call implements its specification *)

Definition keeps_live (h h' : heap) : Prop :=
  forall a, is_Some (h !! a) -> is_Some (h' !! a).

Lemma keeps_live_refl h : keeps_live h h.
Proof. by intros a. Qed.
#[local] Hint Resolve keeps_live_refl : core.

Lemma list_disjoint_sym (l k : list ptr) : l ## k -> k ## l.
Proof. set_solver. Qed.

Lemma disjoint_tail (l k : list ptr) a : a :: l ## k -> l ## k.
Proof. set_solver. Qed.

Lemma disjoint_tail_r (l k : list ptr) a : k ## a :: l -> k ## l.
Proof. set_solver. Qed.

Lemma pop_other h a l q2 l2 h' :
  rep h q2 l2 -> (a :: l) ## l2 -> (forall b, b <> a -> h' !! b = h !! b) -> rep h' q2 l2.
Proof.
  intros Hr Hd Hf. apply (rep_frame h); [done|]. intros b Hb. apply Hf. intros ->.
  apply (Hd a); [by left|done].
Qed.

Lemma push_other h q2 l l2 h' node :
  rep h q2 l2 -> l ## l2 -> node ∉ l2 ->
  (forall b, b <> node -> b ∉ l -> h' !! b = h !! b) -> rep h' q2 l2.
Proof.
  intros Hr Hd Hn Hf. apply (rep_frame h); [done|]. intros b Hb. apply Hf.
  - intros ->. done.
  - intros Hbl. by apply (Hd b).
Qed.

Lemma send_refines h r e me :
  repr h r e -> is_Some (h !! me) -> me ∉ snd_q e -> me ∉ rcv_q e ->
  exists h' r', run_call (CSend me) r h = Some ((spec_call (CSend me) e).1, r', h') /\
    repr h' r' (spec_call (CSend me) e).2 /\ keeps_live h h'.
Proof.
  intros [Hs Hq Hd Hp Hb] Hlive Hms Hmr. simpl. unfold send. rewrite Hb.
  destruct (bound e) eqn:Hbe; simpl.
  { exists h, r. split_and!; [done|by split; rewrite ?Hbe|done]. }
  unfold mbind, Mem_bind. destruct (rcv_q e) as [|a l] eqn:Hrq.
  - rewrite (pop_front_nil h _ Hq). simpl.
    destruct (push_back_rep h (senders r) _ me Hs Hms Hlive) as (h1 & q1 & -> & Hr1 & Hf & Hdm).
    simpl. eexists h1, _. split_and!; [done| |].
    + constructor; simpl; try done; [|set_solver].
      eapply (push_other h _ (snd_q e)); [done|done|done|exact Hf].
    + intros b Hb'. by apply Hdm.
  - destruct (pop_front_cons h _ a l Hq) as (h1 & q1 & -> & Hr1 & Ha & Hf). simpl.
    eexists h1, _. split_and!; [done| |].
    + constructor; simpl; try done; [|by eapply disjoint_tail_r].
      eapply (pop_other h a l); [done|by apply list_disjoint_sym|exact Hf].
    + intros b Hb'. destruct (decide (b = a)) as [->|]; [by rewrite Ha|by rewrite Hf].
Qed.

Lemma receive_refines h r e me :
  repr h r e -> is_Some (h !! me) -> me ∉ snd_q e -> me ∉ rcv_q e ->
  exists h' r', run_call (CReceive me) r h = Some ((spec_call (CReceive me) e).1, r', h') /\
    repr h' r' (spec_call (CReceive me) e).2 /\ keeps_live h h'.
Proof.
  intros [Hs Hq Hd Hp Hb] Hlive Hms Hmr. simpl. unfold receive. rewrite Hp.
  destruct (0 <? pend e) eqn:Hpe; simpl.
  { eexists h, _. split_and!; [done|by split; simpl; rewrite ?Hp|done]. }
  unfold mbind, Mem_bind. destruct (snd_q e) as [|a l] eqn:Hsq.
  - rewrite (pop_front_nil h _ Hs). simpl.
    destruct (push_back_rep h (receivers r) _ me Hq Hmr Hlive) as (h1 & q1 & -> & Hr1 & Hf & Hdm).
    simpl. eexists h1, _. split_and!; [done| |].
    + constructor; simpl; try done; [|set_solver].
      eapply (push_other h _ (rcv_q e)); [done|by apply list_disjoint_sym|done|exact Hf].
    + intros b Hb'. by apply Hdm.
  - destruct (pop_front_cons h _ a l Hs) as (h1 & q1 & -> & Hr1 & Ha & Hf). simpl.
    eexists h1, _. split_and!; [done| |].
    + constructor; simpl; try done; [|by eapply disjoint_tail].
      eapply (pop_other h a l); [done|exact Hd|exact Hf].
    + intros b Hb'. destruct (decide (b = a)) as [->|]; [by rewrite Ha|by rewrite Hf].
Qed.

Lemma signal_refines h r e :
  repr h r e ->
  exists h' r', run_call CSignal r h = Some ((spec_call CSignal e).1, r', h') /\
    repr h' r' (spec_call CSignal e).2 /\ keeps_live h h'.
Proof.
  intros [Hs Hq Hd Hp Hb]. simpl. unfold signal, mbind, Mem_bind.
  destruct (rcv_q e) as [|a l] eqn:Hrq.
  - rewrite (pop_front_nil h _ Hq). simpl. eexists h, _. split_and!; [done| |done].
    constructor; simpl; try done. by rewrite Hp.
  - destruct (pop_front_cons h _ a l Hq) as (h1 & q1 & -> & Hr1 & Ha & Hf). simpl.
    eexists h1, _. split_and!; [done| |].
    + constructor; simpl; try done; [|by eapply disjoint_tail_r].
      eapply (pop_other h a l); [done|by apply list_disjoint_sym|exact Hf].
    + intros b Hb'. destruct (decide (b = a)) as [->|]; [by rewrite Ha|by rewrite Hf].
Qed.

(** The three teardown calls share one shape: run the loops with the fuel
    [len] gives, which the representation makes exact. *)
Lemma queue_fuel h q l : rep h q l -> (length l < S (Z.to_nat (len q)))%nat.
Proof. intros Hr. rewrite (rep_len h q l Hr). lia. Qed.

Lemma remove_sender_refines h r e v :
  repr h r e ->
  exists h' r', run_call (CRemoveSender v) r h = Some ((spec_call (CRemoveSender v) e).1, r', h') /\
    repr h' r' (spec_call (CRemoveSender v) e).2 /\ keeps_live h h'.
Proof.
  intros [Hs Hq Hd Hp Hb]. simpl. unfold remove_sender, mbind, Mem_bind.
  destruct (remove_loop_rep (S (Z.to_nat (len (senders r)))) h (senders r) (snd_q e)
    IntrusiveFifo.new [] v false Hs (rep_new h)) as (h1 & k1 & Hrun & Hr1 & Hf & Hdm);
    [set_solver|by apply queue_fuel with h|].
  rewrite Hrun. simpl. eexists h1, _. split_and!; [done| |done].
  constructor; simpl; try done.
  - apply (rep_frame h); [done|]. intros a Ha. apply Hf; [|set_solver].
    intros Has. by apply (Hd a).
  - intros a [_ Ha]%elem_of_without Hr'. by apply (Hd a).
Qed.

Lemma remove_receiver_refines h r e v :
  repr h r e ->
  exists h' r', run_call (CRemoveReceiver v) r h =
      Some ((spec_call (CRemoveReceiver v) e).1, r', h') /\
    repr h' r' (spec_call (CRemoveReceiver v) e).2 /\ keeps_live h h'.
Proof.
  intros [Hs Hq Hd Hp Hb]. simpl. unfold remove_receiver, mbind, Mem_bind.
  destruct (remove_loop_rep (S (Z.to_nat (len (receivers r)))) h (receivers r) (rcv_q e)
    IntrusiveFifo.new [] v false Hq (rep_new h)) as (h1 & k1 & Hrun & Hr1 & Hf & Hdm);
    [set_solver|by apply queue_fuel with h|].
  rewrite Hrun. simpl. eexists h1, _. split_and!; [done| |done].
  constructor; simpl; try done.
  - apply (rep_frame h); [done|]. intros a Ha. apply Hf; [|set_solver].
    intros Has. by apply (Hd a).
  - intros a Ha [_ Hr']%elem_of_without. by apply (Hd a).
Qed.

Lemma drain_refines h r e :
  repr h r e ->
  exists h' r', run_call CDrain r h = Some ((spec_call CDrain e).1, r', h') /\
    repr h' r' (spec_call CDrain e).2 /\ keeps_live h h'.
Proof.
  intros [Hs Hq Hd Hp Hb]. simpl. unfold drain_waiters, mbind, Mem_bind.
  destruct (drain_rep (S (Z.to_nat (len (senders r)))) h (senders r) (snd_q e) Hs)
    as (h1 & q1 & -> & Hr1 & Hf1 & Hd1); [by apply queue_fuel with h|].
  assert (Hq1 : rep h1 (receivers r) (rcv_q e)).
  { apply (rep_frame h); [done|]. intros a Ha. apply Hf1. intros Has. by apply (Hd a). }
  destruct (drain_rep (S (Z.to_nat (len (receivers r)))) h1 (receivers r) (rcv_q e) Hq1)
    as (h2 & q2 & -> & Hr2 & Hf2 & Hd2); [by apply queue_fuel with h1|].
  simpl. eexists h2, _. split_and!; [done| |].
  - constructor; simpl; try done; [|set_solver].
    apply (rep_frame h1); [done|]. intros a Ha. set_solver.
  - intros a Ha. auto.
Qed.

Lemma call_refines h r e c :
  repr h r e -> call_ok (fun a => is_Some (h !! a)) c e ->
  exists h' r', run_call c r h = Some ((spec_call c e).1, r', h') /\
    repr h' r' (spec_call c e).2 /\ keeps_live h h'.
Proof.
  intros Hr Hc. destruct c as [me|me| |v|v| |].
  - destruct Hc as (? & ? & ?). by apply send_refines.
  - destruct Hc as (? & ? & ?). by apply receive_refines.
  - by apply signal_refines.
  - by apply remove_sender_refines.
  - by apply remove_receiver_refines.
  - by apply drain_refines.
  - exists h, (bind_to_interrupt r). split_and!; [done| |by intros ?]. by destruct Hr.
Qed.

Lemma calls_ok_mono (P Q : ptr -> Prop) cs e :
  (forall a, P a -> Q a) -> calls_ok P cs e -> calls_ok Q cs e.
Proof.
  intros HPQ. revert e. induction cs as [|c cs IH]; intros e Hc; simpl in *; [done|].
  destruct Hc as [Hc Hcs]. split; [|by auto]. destruct c; simpl in *; naive_solver.
Qed.

Lemma calls_refine h r e cs :
  repr h r e -> calls_ok (fun a => is_Some (h !! a)) cs e ->
  exists h' r', run_calls cs r h = Some ((spec_calls cs e).1, r', h') /\
    repr h' r' (spec_calls cs e).2.
Proof.
  revert h r e. induction cs as [|c cs IH]; intros h r e Hr Hc; simpl in *; [by exists h, r|].
  destruct Hc as [Hc Hcs].
  destruct (call_refines h r e c Hr Hc) as (h1 & r1 & Hrun & Hr1 & Hlive).
  destruct (IH h1 r1 _ Hr1 (calls_ok_mono _ _ cs _ Hlive Hcs)) as (h2 & r2 & Hrun2 & Hr2).
  unfold mbind, Mem_bind. rewrite Hrun, Hrun2. exists h2, r2.
  destruct (spec_call c e) as [x e'], (spec_calls cs e') as [xs e''] eqn:Hxs; simpl in *.
  by rewrite Hxs in *.
Qed.

(** ** What the contract guarantees along a trace *)

(** At most one queue is non-empty, and a signal is pending only while nobody
    waits to receive it. *)
Record inv (e : Endpoint) : Prop := {
  inv_one_queue : snd_q e = [] \/ rcv_q e = [];
  inv_pending : 0 <= pend e <= u32_max;
  inv_no_wait_on_signal : 0 < pend e -> rcv_q e = [] }.

Lemma without_nil v : without v [] = [].
Proof. done. Qed.

Lemma spec_call_inv c e : inv e -> inv (spec_call c e).2.
Proof.
  intros [H1 H2 H3]. destruct c; simpl.
  - destruct (bound e); [by constructor|]. destruct (rcv_q e) as [|a l] eqn:Hr; constructor; simpl;
      naive_solver.
  - destruct (Z.ltb_spec 0 (pend e)) as [Hp|Hp].
    { constructor; simpl; [done|lia|intros _; by apply H3]. }
    destruct (snd_q e) as [|a l] eqn:Hs; constructor; simpl; auto; try lia.
    destruct H1 as [|Hr]; [done|by right].
  - destruct (rcv_q e) as [|a l] eqn:Hr; constructor; simpl; try naive_solver.
    unfold saturating_add, u32_max in *. lia.
  - constructor; simpl; [|done|done]. destruct H1 as [->|]; auto using without_nil.
  - constructor; simpl; [|done|]. { destruct H1 as [ | -> ]; auto using without_nil. }
    intros Hp. by rewrite (H3 Hp).
  - constructor; simpl; naive_solver.
  - by constructor.
Qed.

Lemma spec_calls_inv cs e : inv e -> inv (spec_calls cs e).2.
Proof.
  revert e. induction cs as [|c cs IH]; intros e He; simpl; [done|].
  pose proof (IH _ (spec_call_inv c e He)) as Hi.
  destruct (spec_call c e) as [x e']. simpl in *. by destruct (spec_calls cs e').
Qed.

Lemma inv_new : inv spec_new.
Proof. constructor; simpl; auto. unfold u32_max. lia. Qed.

(** The nodes a call queued, and the nodes a reply handed back. *)
Definition blocked (c : call) (x : reply) : list ptr :=
  match c, x with
  | CSend me, RSend SendBlocked => [me]
  | CReceive me, RReceive ReceiveBlocked => [me]
  | _, _ => []
  end.

Definition released (x : reply) : list ptr :=
  match x with
  | RSend (SendRendezvous p) => [p]
  | RReceive (FromSender p) => [p]
  | RSignal (Some p) => [p]
  | RRemoved v true => [v]
  | RDrained ws => ws
  | _ => []
  end.

Fixpoint all_blocked (cs : list call) (xs : list reply) : list ptr :=
  match cs, xs with
  | c :: cs', x :: xs' => blocked c x ++ all_blocked cs' xs'
  | _, _ => []
  end.

Definition all_released (xs : list reply) : list ptr := concat (released <$> xs).

Lemma without_perm v l : NoDup l -> v ∈ l -> l ≡ₚ v :: without v l.
Proof.
  intros Hnd Hv. apply NoDup_Permutation; [done| |].
  - constructor; [by intros [? _]%elem_of_without|]. by apply NoDup_filter.
  - intros a. rewrite elem_of_cons, elem_of_without. destruct (decide (a = v)); naive_solver.
Qed.

Definition waiting (e : Endpoint) : list ptr := snd_q e ++ rcv_q e.

Lemma spec_call_balance (live : ptr -> Prop) c e :
  NoDup (waiting e) -> call_ok live c e ->
  blocked c (spec_call c e).1 ++ waiting e ≡ₚ
    released (spec_call c e).1 ++ waiting (spec_call c e).2.
Proof.
  intros Hnd Hc. unfold waiting in *. apply NoDup_app in Hnd as (Hn1 & _ & Hn2).
  destruct c as [me|me| |v|v| |]; simpl.
  - destruct (bound e); [done|]. destruct (rcv_q e) as [|a l]; simpl.
    + rewrite !app_nil_r. by rewrite Permutation_app_comm.
    + by rewrite Permutation_middle.
  - destruct (0 <? pend e); [done|]. destruct (snd_q e) as [|a l]; simpl; [|done].
    by rewrite Permutation_app_comm.
  - destruct (rcv_q e) as [|a l]; simpl; [done|]. by rewrite Permutation_middle.
  - case_bool_decide as Hv; simpl.
    + rewrite (without_perm v (snd_q e)) at 1 by done. done.
    + by rewrite without_not_in.
  - case_bool_decide as Hv; simpl.
    + rewrite (without_perm v (rcv_q e)) at 1 by done. by rewrite Permutation_middle.
    + by rewrite without_not_in.
  - by rewrite app_nil_r.
  - done.
Qed.

Lemma spec_call_nodup (live : ptr -> Prop) c e :
  NoDup (waiting e) -> call_ok live c e -> NoDup (waiting (spec_call c e).2).
Proof.
  intros Hnd Hc. pose proof (spec_call_balance live c e Hnd Hc) as Hbal.
  assert (Hn : NoDup (blocked c (spec_call c e).1 ++ waiting e)).
  { clear Hbal. generalize (spec_call c e).1. intros x.
    destruct c as [me|me| |v|v| |]; simpl in *; try done;
      destruct x as [[]|[]| | | |]; simpl; try done;
      destruct Hc as (_ & ? & ?); constructor; try done;
      unfold waiting; rewrite elem_of_app; naive_solver. }
  rewrite Hbal in Hn. by apply NoDup_app in Hn as (_ & _ & ?).
Qed.

Lemma spec_calls_balance (live : ptr -> Prop) cs e :
  NoDup (waiting e) -> calls_ok live cs e ->
  all_blocked cs (spec_calls cs e).1 ++ waiting e ≡ₚ
    all_released (spec_calls cs e).1 ++ waiting (spec_calls cs e).2.
Proof.
  revert e. induction cs as [|c cs IH]; intros e Hnd Hc; simpl in *; [done|].
  destruct Hc as [Hc Hcs]. pose proof (spec_call_balance live c e Hnd Hc) as Hb.
  pose proof (IH _ (spec_call_nodup live c e Hnd Hc) Hcs) as Hbs.
  destruct (spec_call c e) as [x e']. simpl in *.
  destruct (spec_calls cs e') as [xs e'']. simpl in *. unfold all_released in *. simpl.
  rewrite <- !app_assoc, <- Hbs.
  rewrite (Permutation_app_comm (blocked c x)), <- !app_assoc.
  rewrite (Permutation_app_comm (waiting e)), Hb.
  rewrite (app_assoc (released x)), (Permutation_app_comm (all_blocked cs xs)), <- !app_assoc.
  f_equiv. by rewrite Permutation_app_comm.
Qed.

(** Signals: how many were raised, and how many a receiver got. *)
Definition raised (c : call) : Z := match c with CSignal => 1 | _ => 0 end.

Definition got_signal (x : reply) : Z :=
  match x with RReceive ReceiveSignal => 1 | RSignal (Some _) => 1 | _ => 0 end.

Fixpoint sum_of {A} (f : A -> Z) (l : list A) : Z :=
  match l with [] => 0 | x :: l' => f x + sum_of f l' end.

Lemma raised_nonneg cs : 0 <= sum_of raised cs.
Proof. induction cs as [|c cs IH]; simpl; [lia|]. destruct c; simpl; lia. Qed.

Lemma spec_call_signals c e :
  inv e -> pend e + raised c <= u32_max ->
  pend e + raised c = got_signal (spec_call c e).1 + pend (spec_call c e).2.
Proof.
  intros Hi Hle. destruct c as [me|me| |v|v| |]; simpl in *; try lia.
  - destruct (bound e); simpl; [lia|]. destruct (rcv_q e); simpl; lia.
  - destruct (Z.ltb_spec 0 (pend e)); simpl; [lia|]. destruct (snd_q e); simpl; lia.
  - destruct (rcv_q e); simpl; [|lia]. unfold saturating_add, u32_max in *. lia.
Qed.

Lemma spec_calls_signals cs e :
  inv e -> pend e + sum_of raised cs <= u32_max ->
  pend e + sum_of raised cs =
    sum_of got_signal (spec_calls cs e).1 + pend (spec_calls cs e).2.
Proof.
  revert e. induction cs as [|c cs IH]; intros e Hi Hle; simpl in *; [lia|].
  pose proof (raised_nonneg cs). pose proof (inv_pending e Hi).
  pose proof (spec_call_signals c e Hi ltac:(lia)) as Hs.
  pose proof (spec_call_inv c e Hi) as Hi'.
  assert (0 <= got_signal (spec_call c e).1).
  { destruct (spec_call c e) as [[[]|[]|[]| | |] ?]; simpl; lia. }
  pose proof (IH _ Hi' ltac:(lia)) as Hss.
  destruct (spec_call c e) as [x e']. simpl in *.
  destruct (spec_calls cs e') as [xs e'']. simpl in *. lia.
Qed.

Lemma repr_new h : repr h new spec_new.
Proof. constructor; simpl; try apply rep_new; try done; set_solver. Qed.

(** ** The component's properties *)

(** C26: the endpoint implements its contract. Every sequence of calls that meets
    the unsafe contract runs from a fresh endpoint without undefined behaviour,
    answers exactly as two first-in first-out lists and a saturating counter do,
    and ends in queues that represent those lists. *)
Theorem rendezvous_refines_endpoint (h : heap) (cs : list call)
  (Hok : calls_ok (fun a => is_Some (h !! a)) cs spec_new) :
  exists h' r', run_calls cs new h = Some ((spec_calls cs spec_new).1, r', h') /\
    repr h' r' (spec_calls cs spec_new).2.
Proof. apply calls_refine; [apply repr_new|done]. Qed.

(** No waiter is lost or handed out twice. Along every such sequence, the
    nodes that were queued are, as a multiset, the nodes handed back (to a
    sender, a receiver, a signal, a removal or a drain) plus the nodes still
    waiting. *)
Theorem no_waiter_is_lost (h : heap) (cs : list call)
  (Hok : calls_ok (fun a => is_Some (h !! a)) cs spec_new) :
  exists xs h' r' e, run_calls cs new h = Some (xs, r', h') /\ repr h' r' e /\
    all_blocked cs xs ≡ₚ all_released xs ++ waiting e.
Proof.
  destruct (calls_refine h new spec_new cs (repr_new h) Hok) as (h' & r' & Hrun & Hr).
  eexists _, h', r', _. split_and!; [exact Hrun|exact Hr|].
  pose proof (spec_calls_balance _ cs spec_new ltac:(constructor) Hok) as Hb.
  unfold waiting in Hb at 1. simpl in Hb. by rewrite app_nil_r in Hb.
Qed.

(** No signal is lost. If fewer than [2^32] signals are raised along the
    sequence, each is delivered to exactly one receive or still pending. *)
Theorem no_signal_is_lost (h : heap) (cs : list call)
  (Hok : calls_ok (fun a => is_Some (h !! a)) cs spec_new)
  (Hfew : sum_of raised cs <= u32_max) :
  exists xs h' r', run_calls cs new h = Some (xs, r', h') /\
    sum_of raised cs = sum_of got_signal xs + pending r'.
Proof.
  destruct (calls_refine h new spec_new cs (repr_new h) Hok) as (h' & r' & Hrun & Hr).
  eexists _, h', r'. split; [exact Hrun|]. rewrite (repr_pending _ _ _ Hr).
  apply (spec_calls_signals cs spec_new inv_new). simpl. lia.
Qed.

(** At most one wait queue is ever non-empty, and a receiver never waits
    behind a pending signal, after every sequence of calls. *)
Theorem one_queue_always (h : heap) (cs : list call)
  (Hok : calls_ok (fun a => is_Some (h !! a)) cs spec_new) :
  exists xs h' r', run_calls cs new h = Some (xs, r', h') /\
    one_queue_invariant r' = true /\
    (0 < pending r' -> is_empty (receivers r') = true).
Proof.
  destruct (calls_refine h new spec_new cs (repr_new h) Hok) as (h' & r' & Hrun & Hr).
  pose proof (spec_calls_inv cs spec_new inv_new) as [H1 _ H3]. destruct Hr as [Hs Hq _ Hp _].
  eexists _, h', r'. split_and!; [exact Hrun| |].
  - unfold one_queue_invariant. rewrite (rep_empty _ _ _ Hs), (rep_empty _ _ _ Hq).
    apply orb_true_iff. rewrite !bool_decide_eq_true. done.
  - rewrite Hp, (rep_empty _ _ _ Hq). intros Hpos. apply bool_decide_eq_true. auto.
Qed.

(** Once bound with no sender queued, an endpoint stays that way, refuses every
    send and hands its receivers nothing but signals. *)
Definition only_signals (x : reply) : Prop :=
  match x with
  | RSend s => s = SendRefused
  | RReceive (FromSender _) => False
  | _ => True
  end.

Lemma bound_call c e :
  bound e = true -> snd_q e = [] ->
  only_signals (spec_call c e).1 /\ bound (spec_call c e).2 = true /\
  snd_q (spec_call c e).2 = [].
Proof.
  intros Hb Hs. destruct c; simpl; rewrite ?Hb, ?Hs; simpl; try done.
  - destruct (0 <? pend e); simpl; done.
  - destruct (rcv_q e); simpl; done.
Qed.

Lemma bound_calls cs e :
  bound e = true -> snd_q e = [] -> Forall only_signals (spec_calls cs e).1.
Proof.
  revert e. induction cs as [|c cs IH]; intros e Hb Hs; simpl; [done|].
  destruct (bound_call c e Hb Hs) as (Hx & Hb' & Hs').
  destruct (spec_call c e) as [x e']. simpl in *.
  pose proof (IH e' Hb' Hs') as Hxs. destruct (spec_calls cs e'). by constructor.
Qed.

(** An interrupt cannot be forged. When an endpoint with no queued sender is
    bound to an interrupt, every later send on it is refused and no later
    receive is ever handed a sender: receivers see signals only. *)
Theorem bound_endpoint_delivers_only_signals (h : heap) (r : Rendezvous) (e : Endpoint)
  (cs : list call) (Hr : repr h r e) (Hidle : is_empty (senders r) = true)
  (Hok : calls_ok (fun a => is_Some (h !! a)) (CBind :: cs) e) :
  exists xs h' r', run_calls cs (bind_to_interrupt r) h = Some (xs, r', h') /\
    Forall only_signals xs.
Proof.
  assert (Hs : snd_q e = []).
  { rewrite (rep_empty _ _ _ (repr_senders _ _ _ Hr)) in Hidle. by apply bool_decide_eq_true in Hidle. }
  simpl in Hok. destruct Hok as [_ Hok].
  destruct (calls_refine h (bind_to_interrupt r) (spec_call CBind e).2 cs) as (h' & r' & Hrun & _);
    [by destruct Hr|done|].
  eexists _, h', r'. split; [exact Hrun|]. by apply bound_calls.
Qed.

(** The hypothesis of C5 is needed: a sender queued before the bind is still
    handed to a later receive. *)
Lemma sender_queued_before_bind_is_delivered :
  exists h' r', run_calls [CSend 8; CBind; CReceive 16] new (<[8 := None]> (<[16 := None]> ∅)) =
    Some ([RSend SendBlocked; RBound; RReceive (FromSender 8)], r', h').
Proof. eexists _, _. vm_compute. reflexivity. Qed.

(** ** Witnesses *)

Definition sample_heap : heap := <[8 := None]> (<[16 := None]> ∅).
Definition sample_calls : list call := [CSend 8; CReceive 16; CSignal; CReceive 16].

Lemma sample_ok : calls_ok (fun a => is_Some (sample_heap !! a)) sample_calls spec_new.
Proof.
  simpl. split_and!; try done; try (eexists; vm_compute; reflexivity); set_solver.
Qed.

Lemma rendezvous_refines_endpoint_witness :
  exists h' r', run_calls sample_calls new sample_heap =
    Some ((spec_calls sample_calls spec_new).1, r', h') /\
    repr h' r' (spec_calls sample_calls spec_new).2.
Proof. apply (rendezvous_refines_endpoint sample_heap sample_calls). exact sample_ok. Defined.

Lemma no_waiter_is_lost_witness :
  exists xs h' r' e, run_calls sample_calls new sample_heap = Some (xs, r', h') /\
    repr h' r' e /\ all_blocked sample_calls xs ≡ₚ all_released xs ++ waiting e.
Proof. apply (no_waiter_is_lost sample_heap sample_calls). exact sample_ok. Defined.

Lemma no_signal_is_lost_witness :
  exists xs h' r', run_calls sample_calls new sample_heap = Some (xs, r', h') /\
    sum_of raised sample_calls = sum_of got_signal xs + pending r'.
Proof.
  apply (no_signal_is_lost sample_heap sample_calls); [exact sample_ok|].
  vm_compute; congruence.
Defined.

Lemma one_queue_always_witness :
  exists xs h' r', run_calls sample_calls new sample_heap = Some (xs, r', h') /\
    one_queue_invariant r' = true /\ (0 < pending r' -> is_empty (receivers r') = true).
Proof. apply (one_queue_always sample_heap sample_calls). exact sample_ok. Defined.

Lemma bound_endpoint_delivers_only_signals_witness :
  exists xs h' r', run_calls [CSend 8; CReceive 16; CSignal] (bind_to_interrupt new) sample_heap =
    Some (xs, r', h') /\ Forall only_signals xs.
Proof.
  apply (bound_endpoint_delivers_only_signals sample_heap new spec_new).
  - apply repr_new.
  - reflexivity.
  - simpl. split_and!; try done; try (eexists; vm_compute; reflexivity); set_solver.
Defined.

End Rendezvous.
