(* ===== verification/Notification.v ===== *)
(** * Notifications (crates/inter_process_communication/src/notification.rs)

    A 64-bit word of accumulated bits and one queue of waiters. [Cell] is the
    contract: a list of waiters and a word. *)

From S2P Require Import Prelude IntrusiveFifo Rendezvous.
Local Open Scope Z_scope.

Module Notification.
Import IntrusiveFifo.

Record Notification := MkNotification { word : Z; waiters : Fifo }.

Inductive Signal := Woke (waiter : ptr) (bits : Z) | ToBound (bits : Z) | Counted | Empty.

Inductive Wait := Word (bits : Z) | Blocked.

Definition new : Notification := MkNotification 0 IntrusiveFifo.new.

Definition invariant_holds (n : Notification) : bool := (word n =? 0) || is_empty (waiters n).

Definition is_idle (n : Notification) : bool := is_empty (waiters n).

Definition debug_counts (n : Notification) : Z * Z := (len (waiters n), word n).

Definition signal (n : Notification) (bits : Z) (bound_receiving : bool)
  : Mem (Signal * Notification) :=
  if bits =? 0 then mret (Empty, n)
  else
    '(p, waiters') ← pop_front (waiters n);
    match p with
    | Some waiter => mret (Woke waiter bits, MkNotification (word n) waiters')
    | None =>
        if bound_receiving then
          mret (ToBound (Z.lor (word n) bits), MkNotification 0 waiters')
        else mret (Counted, MkNotification (Z.lor (word n) bits) waiters')
    end.

Definition wait (n : Notification) (me : ptr) : Mem (Wait * Notification) :=
  if negb (word n =? 0) then mret (Word (word n), MkNotification 0 (waiters n))
  else waiters' ← push_back (waiters n) me;
       mret (Blocked, MkNotification (word n) waiters').

Definition poll (n : Notification) : Z * Notification :=
  (word n, MkNotification 0 (waiters n)).

Definition remove_waiter (n : Notification) (victim : ptr) : Mem (bool * Notification) :=
  '(found, kept) ← Rendezvous.remove_loop (S (Z.to_nat (len (waiters n)))) (waiters n)
                     IntrusiveFifo.new victim false;
  mret (found, MkNotification (word n) kept).

Definition drain_waiters (n : Notification) : Mem (list ptr * Notification) :=
  '(ws, waiters') ← Rendezvous.drain (S (Z.to_nat (len (waiters n)))) (waiters n);
  mret (ws, MkNotification (word n) waiters').

(** ** Calls, replies and the contract *)

Inductive call :=
  | CSignal (bits : Z) (bound_receiving : bool) | CWait (me : ptr) | CPoll
  | CRemove (victim : ptr) | CDrain.

Inductive reply :=
  | RSignal (s : Signal) | RWait (w : Wait) | RPoll (bits : Z)
  | RRemoved (victim : ptr) (found : bool) | RDrained (ws : list ptr).

Definition run_call (c : call) (n : Notification) : Mem (reply * Notification) :=
  match c with
  | CSignal b br => '(s, n') ← signal n b br; mret (RSignal s, n')
  | CWait me => '(w, n') ← wait n me; mret (RWait w, n')
  | CPoll => let '(b, n') := poll n in mret (RPoll b, n')
  | CRemove v => '(f, n') ← remove_waiter n v; mret (RRemoved v f, n')
  | CDrain => '(ws, n') ← drain_waiters n; mret (RDrained ws, n')
  end.

Fixpoint run_calls (cs : list call) (n : Notification) : Mem (list reply * Notification) :=
  match cs with
  | [] => mret ([], n)
  | c :: cs' =>
      '(x, n') ← run_call c n;
      '(xs, n'') ← run_calls cs' n';
      mret (x :: xs, n'')
  end.

Record Cell := MkCell { bits_of : Z; queue : list ptr }.

Definition spec_call (c : call) (e : Cell) : reply * Cell :=
  match c with
  | CSignal b br =>
      if b =? 0 then (RSignal Empty, e)
      else match queue e with
           | w :: l => (RSignal (Woke w b), MkCell (bits_of e) l)
           | [] => if br then (RSignal (ToBound (Z.lor (bits_of e) b)), MkCell 0 [])
                   else (RSignal Counted, MkCell (Z.lor (bits_of e) b) [])
           end
  | CWait me =>
      if negb (bits_of e =? 0) then (RWait (Word (bits_of e)), MkCell 0 (queue e))
      else (RWait Blocked, MkCell (bits_of e) (queue e ++ [me]))
  | CPoll => (RPoll (bits_of e), MkCell 0 (queue e))
  | CRemove v =>
      (RRemoved v (bool_decide (v ∈ queue e)),
       MkCell (bits_of e) (Rendezvous.without v (queue e)))
  | CDrain => (RDrained (queue e), MkCell (bits_of e) [])
  end.

Fixpoint spec_calls (cs : list call) (e : Cell) : list reply * Cell :=
  match cs with
  | [] => ([], e)
  | c :: cs' =>
      let '(x, e') := spec_call c e in
      let '(xs, e'') := spec_calls cs' e' in (x :: xs, e'')
  end.

Definition spec_new : Cell := MkCell 0 [].

Definition call_ok (live : ptr -> Prop) (c : call) (e : Cell) : Prop :=
  match c with CWait me => live me /\ me ∉ queue e | _ => True end.

Fixpoint calls_ok (live : ptr -> Prop) (cs : list call) (e : Cell) : Prop :=
  match cs with
  | [] => True
  | c :: cs' => call_ok live c e /\ calls_ok live cs' (spec_call c e).2
  end.

Definition repr (h : heap) (n : Notification) (e : Cell) : Prop :=
  rep h (waiters n) (queue e) /\ word n = bits_of e.

Lemma ncall_refines h n e c :
  repr h n e -> call_ok (fun a => is_Some (h !! a)) c e ->
  exists h' n', run_call c n h = Some ((spec_call c e).1, n', h') /\
    repr h' n' (spec_call c e).2 /\ Rendezvous.keeps_live h h'.
Proof.
  intros [Hq Hw] Hc. destruct c as [b br|me| |v|]; simpl.
  - unfold signal, mbind, Mem_bind. destruct (b =? 0).
    { exists h, n. by split_and!; try apply Rendezvous.keeps_live_refl. }
    destruct (queue e) as [|a l] eqn:He.
    + rewrite (pop_front_nil h _ Hq), Hw. destruct br; simpl; eexists h, _;
        (split_and!; [done|by split|apply Rendezvous.keeps_live_refl]).
    + destruct (pop_front_cons h _ a l Hq) as (h1 & q1 & -> & Hr1 & Ha & Hf). simpl.
      eexists h1, _. split_and!; [done|by split|].
      intros b' Hb'. destruct (decide (b' = a)) as [->|]; [by rewrite Ha|by rewrite Hf].
  - unfold wait, mbind, Mem_bind. rewrite Hw. destruct Hc as [Hlive Hme].
    destruct (bits_of e =? 0); simpl.
    + destruct (push_back_rep h (waiters n) _ me Hq Hme Hlive) as (h1 & q1 & -> & Hr1 & Hf & Hdm).
      eexists h1, _. split_and!; [done|by split|]. intros a Ha. by apply Hdm.
    + eexists h, _. split_and!; [done|by split|apply Rendezvous.keeps_live_refl].
  - eexists h, _. rewrite Hw. split_and!; [done|by split|apply Rendezvous.keeps_live_refl].
  - unfold remove_waiter, mbind, Mem_bind.
    destruct (Rendezvous.remove_loop_rep (S (Z.to_nat (len (waiters n)))) h (waiters n) (queue e)
      IntrusiveFifo.new [] v false Hq (rep_new h)) as (h1 & k1 & Hrun & Hr1 & Hf & Hdm);
      [set_solver|by apply Rendezvous.queue_fuel with h|].
    rewrite Hrun. simpl. eexists h1, _. split_and!; [done|by split|done].
  - unfold drain_waiters, mbind, Mem_bind.
    destruct (Rendezvous.drain_rep (S (Z.to_nat (len (waiters n)))) h (waiters n) (queue e) Hq)
      as (h1 & q1 & -> & Hr1 & Hf1 & Hd1); [by apply Rendezvous.queue_fuel with h|].
    simpl. eexists h1, _. split_and!; [done|by split|done].
Qed.

Lemma ncalls_ok_mono (P Q : ptr -> Prop) cs e :
  (forall a, P a -> Q a) -> calls_ok P cs e -> calls_ok Q cs e.
Proof.
  intros HPQ. revert e. induction cs as [|c cs IH]; intros e Hc; simpl in *; [done|].
  destruct Hc as [Hc Hcs]. split; [|by auto]. destruct c; simpl in *; naive_solver.
Qed.

Lemma ncalls_refine h n e cs :
  repr h n e -> calls_ok (fun a => is_Some (h !! a)) cs e ->
  exists h' n', run_calls cs n h = Some ((spec_calls cs e).1, n', h') /\
    repr h' n' (spec_calls cs e).2.
Proof.
  revert h n e. induction cs as [|c cs IH]; intros h n e Hr Hc; simpl in *; [by exists h, n|].
  destruct Hc as [Hc Hcs].
  destruct (ncall_refines h n e c Hr Hc) as (h1 & n1 & Hrun & Hr1 & Hlive).
  destruct (IH h1 n1 _ Hr1 (ncalls_ok_mono _ _ cs _ Hlive Hcs)) as (h2 & n2 & Hrun2 & Hr2).
  unfold mbind, Mem_bind. rewrite Hrun, Hrun2. exists h2, n2.
  destruct (spec_call c e) as [x e'], (spec_calls cs e') as [xs e''] eqn:Hxs; simpl in *.
  by rewrite Hxs in *.
Qed.

(** ** Bits *)

(** The bits a call raises and the bits a reply delivers. *)
Definition raised (c : call) : Z := match c with CSignal b _ => b | _ => 0 end.

Definition delivered (x : reply) : Z :=
  match x with
  | RSignal (Woke _ b) | RSignal (ToBound b) | RWait (Word b) | RPoll b => b
  | _ => 0
  end.

Fixpoint lor_of {A} (f : A -> Z) (l : list A) : Z :=
  match l with [] => 0 | x :: l' => Z.lor (f x) (lor_of f l') end.

Definition cell_ok (e : Cell) : Prop := bits_of e = 0 \/ queue e = [].

Lemma spec_call_ok c e : cell_ok e -> cell_ok (spec_call c e).2.
Proof.
  intros He. unfold cell_ok in *. destruct c as [b br|me| |v|]; simpl.
  - destruct (b =? 0); [done|]. destruct (queue e); [destruct br; simpl; auto|].
    simpl. naive_solver.
  - destruct (Z.eqb_spec (bits_of e) 0); simpl; auto.
  - auto.
  - destruct He as [He|He]; rewrite He; auto.
  - auto.
Qed.

Lemma spec_call_bits c e :
  Z.lor (bits_of e) (raised c) = Z.lor (delivered (spec_call c e).1) (bits_of (spec_call c e).2).
Proof.
  destruct c as [b br|me| |v|]; simpl; rewrite ?Z.lor_0_r; try done.
  - destruct (Z.eqb_spec b 0) as [->|]; simpl; [by rewrite Z.lor_0_r|].
    destruct (queue e); [destruct br|]; simpl; rewrite ?Z.lor_0_r; try done.
    apply Z.lor_comm.
  - destruct (Z.eqb_spec (bits_of e) 0); simpl; [done|by rewrite Z.lor_0_r].
Qed.

Lemma spec_calls_bits cs e :
  cell_ok e ->
  cell_ok (spec_calls cs e).2 /\
  Z.lor (bits_of e) (lor_of raised cs) =
    Z.lor (lor_of delivered (spec_calls cs e).1) (bits_of (spec_calls cs e).2).
Proof.
  revert e. induction cs as [|c cs IH]; intros e He; simpl; [by rewrite Z.lor_0_r|].
  pose proof (spec_call_ok c e He) as He'. pose proof (spec_call_bits c e) as Hb.
  destruct (IH _ He') as [Hok Hbs]. destruct (spec_call c e) as [x e']. simpl in *.
  destruct (spec_calls cs e') as [xs e'']. simpl in *. split; [done|].
  by rewrite Z.lor_assoc, Hb, <- !Z.lor_assoc, Hbs.
Qed.

(** ** The component's properties *)

(** The notification implements its contract: every sequence of calls that
    meets the unsafe contract runs without undefined behaviour, answers as a
    waiter list and a word do, and ends in the queue that represents the list. *)
Theorem notification_refines_cell (h : heap) (cs : list call)
  (Hok : calls_ok (fun a => is_Some (h !! a)) cs spec_new) :
  exists h' n', run_calls cs new h = Some ((spec_calls cs spec_new).1, n', h') /\
    repr h' n' (spec_calls cs spec_new).2.
Proof. apply ncalls_refine; [split; [apply rep_new|done]|done]. Qed.

(** No signalled bit is lost and none is invented: along every sequence of
    calls, the union of the bits signalled is the union of the bits delivered
    and of the word left; and the word is non-zero only while nobody waits. *)
Theorem no_bit_is_lost (h : heap) (cs : list call)
  (Hok : calls_ok (fun a => is_Some (h !! a)) cs spec_new) :
  exists xs h' n', run_calls cs new h = Some (xs, n', h') /\
    lor_of raised cs = Z.lor (lor_of delivered xs) (word n') /\
    invariant_holds n' = true.
Proof.
  destruct (ncalls_refine h new spec_new cs) as (h' & n' & Hrun & Hq & Hw);
    [split; [apply rep_new|done]|done|].
  destruct (spec_calls_bits cs spec_new) as [Hcell Hb]; [by left|].
  eexists _, h', n'. split_and!; [exact Hrun|by rewrite Hw|].
  unfold invariant_holds. rewrite Hw, (rep_empty _ _ _ Hq).
  apply orb_true_iff. rewrite Z.eqb_eq, bool_decide_eq_true. exact Hcell.
Qed.

(** ** Witnesses *)

Definition sample_heap : heap := <[8 := None]> ∅.
Definition sample_calls : list call := [CSignal 5 false; CWait 8; CWait 8; CSignal 2 false].

Lemma nsample_ok : calls_ok (fun a => is_Some (sample_heap !! a)) sample_calls spec_new.
Proof.
  simpl. split_and!; try done; try (eexists; vm_compute; reflexivity); set_solver.
Qed.

Lemma notification_refines_cell_witness :
  exists h' n', run_calls sample_calls new sample_heap =
    Some ((spec_calls sample_calls spec_new).1, n', h') /\
    repr h' n' (spec_calls sample_calls spec_new).2.
Proof. apply (notification_refines_cell sample_heap sample_calls). exact nsample_ok. Defined.

Lemma no_bit_is_lost_witness :
  exists xs h' n', run_calls sample_calls new sample_heap = Some (xs, n', h') /\
    lor_of raised sample_calls = Z.lor (lor_of delivered xs) (word n') /\
    invariant_holds n' = true.
Proof. apply (no_bit_is_lost sample_heap sample_calls). exact nsample_ok. Defined.

End Notification.
