(* ===== verification/Timer.v ===== *)
(** * Timers (crates/inter_process_communication/src/timer.rs) and the kernel's
    use of them (kernel/src/sched.rs)

    [Timer] is one armed deadline and its target. [Sched] is the scheduler's
    timer state: the table of timers in slot order and the cached
    [EARLIEST_DEADLINE] that a tick compares before it takes any lock. *)

From S2P Require Import Prelude.
Local Open Scope Z_scope.

Module Timer.

Definition NEVER : Z := u64_max.

Inductive Arm (T : Type) := Pending | DueNow (target : T).
Arguments Pending {T}.
Arguments DueNow {T} target.

Record Timer (T : Type) := MkTimer { armed : option (Z * T) }.
Arguments MkTimer {T} armed.
Arguments armed {T} t : rename.

Section timer.
Context {T : Type}.
Implicit Types t : Timer T.

Definition new : Timer T := MkTimer None.

Definition arm (t : Timer T) (deadline : Z) (target : T) (now : Z) : Arm T * Timer T :=
  if deadline <=? now then (DueNow target, MkTimer None)
  else (Pending, MkTimer (Some (deadline, target))).

Definition cancel (t : Timer T) : bool * Timer T := (is_some (armed t), MkTimer None).

Definition expire (t : Timer T) (now : Z) : option T * Timer T :=
  match armed t with
  | Some (deadline, target) =>
      if deadline <=? now then (Some target, MkTimer None) else (None, t)
  | None => (None, t)
  end.

Definition deadline (t : Timer T) : Z := match armed t with Some (d, _) => d | None => NEVER end.

Definition is_armed (t : Timer T) : bool := is_some (armed t).

Definition lowered (cached d : Z) : Z := Z.min cached d.

Definition is_due (cached now : Z) : bool := cached <=? now.

(** The first expired timer of the sequence is disarmed and its target
    returned. *)
Fixpoint next_due (timers : list (Timer T)) (now : Z) : option T * list (Timer T) :=
  match timers with
  | [] => (None, [])
  | t :: rest =>
      match expire t now with
      | (Some target, t') => (Some target, t' :: rest)
      | (None, t') => let '(r, rest') := next_due rest now in (r, t' :: rest')
      end
  end.

Definition earliest (timers : list (Timer T)) : Z :=
  fold_left (fun e t => Z.min e (deadline t)) timers NEVER.
End timer.

(** ** The scheduler's timer service *)

(** [(notification, bits)]. *)
Abbreviation Target := (Z * Z)%type (only parsing).

Inductive AbiError := Gone.

(** The live timers by name, in slot order; the cached deadline; and which
    notification names resolve. *)
Record Sched := MkSched {
  timer_table : list (Z * Timer Target);
  EARLIEST_DEADLINE : Z;
  notification_live : Z -> bool }.

Definition timer_of (s : Sched) (id : Z) : option (Timer Target) :=
  snd <$> head (filter (fun p => p.1 = id) (timer_table s)).

(** A write through [timer_of]'s reference. *)
Definition set_timer (id : Z) (t : Timer Target) (l : list (Z * Timer Target)) :=
  (fun p => if p.1 =? id then (id, t) else p) <$> l.

(** The reply, the signals raised into notifications, and the new state. *)
Definition timer_arm (s : Sched) (id dl notification bits now : Z)
  : result AbiError unit * list Target * Sched :=
  if negb (notification_live s notification) then (Err Gone, [], s)
  else match timer_of s id with
  | None => (Err Gone, [], s)
  | Some t =>
      let '(a, t') := arm t dl (notification, bits) now in
      let table' := set_timer id t' (timer_table s) in
      match a with
      | Pending =>
          (Ok tt, [], MkSched table' (lowered (EARLIEST_DEADLINE s) dl) (notification_live s))
      | DueNow target => (Ok tt, [target], MkSched table' (EARLIEST_DEADLINE s) (notification_live s))
      end
  end.

Definition timer_cancel (s : Sched) (id : Z) : result AbiError bool * Sched :=
  match timer_of s id with
  | None => (Err Gone, s)
  | Some t =>
      let '(b, t') := cancel t in
      (Ok b, MkSched (set_timer id t' (timer_table s)) (EARLIEST_DEADLINE s) (notification_live s))
  end.

(** The [loop] of [expire_timers]: the targets fired, in order, and the timers
    left; [None] when the fuel is spent before the loop ends. *)
Fixpoint expire_loop (fuel : nat) (timers : list (Timer Target)) (now : Z)
  : option (list Target * list (Timer Target)) :=
  match fuel with
  | O => None
  | S fuel' =>
      match next_due timers now with
      | (None, timers') => Some ([], timers')
      | (Some target, timers') =>
          '(fired, timers'') ← expire_loop fuel' timers' now;
          Some (target :: fired, timers'')
      end
  end.

Definition expire_timers (s : Sched) (now : Z) : option (list Target * Sched) :=
  '(fired, timers') ← expire_loop (S (length (timer_table s))) (timer_table s).*2 now;
  Some (fired, MkSched (zip (timer_table s).*1 timers') (earliest timers') (notification_live s)).

(** The timer part of [on_tick]. *)
Definition on_tick (s : Sched) (now : Z) : option (list Target * Sched) :=
  if is_due (EARLIEST_DEADLINE s) now then expire_timers s now else Some ([], s).

(** ** Executions of the timer service *)

(** Retyping adds a disarmed timer under a fresh name, in whatever slot is
    free; a region's teardown drops timers; a notification may come or go. *)
Inductive timer_step : Sched -> Sched -> Prop :=
  | step_create s l1 l2 id :
      timer_table s = l1 ++ l2 -> id ∉ (timer_table s).*1 ->
      timer_step s (MkSched (l1 ++ (id, new) :: l2) (EARLIEST_DEADLINE s) (notification_live s))
  | step_arm s id dl n bits now : timer_step s (timer_arm s id dl n bits now).2
  | step_cancel s id : timer_step s (timer_cancel s id).2
  | step_tick s now fired s' : on_tick s now = Some (fired, s') -> timer_step s s'
  | step_reap s l' :
      l' `sublist_of` timer_table s ->
      timer_step s (MkSched l' (EARLIEST_DEADLINE s) (notification_live s))
  | step_notifications s live :
      timer_step s (MkSched (timer_table s) (EARLIEST_DEADLINE s) live).

Definition boot (live : Z -> bool) : Sched := MkSched [] NEVER live.

Definition reachable (s : Sched) : Prop := exists live, steps timer_step (boot live) s.

(** The cache is at most every armed deadline. *)
Definition cache_sound (s : Sched) : Prop :=
  Forall (fun p => forall d tgt, armed p.2 = Some (d, tgt) -> EARLIEST_DEADLINE s <= d) (timer_table s).

(** What a tick at [now] owes: the targets due, and the timers left. *)
Definition due {T} (now : Z) (t : Timer T) : option T :=
  '(d, target) ← armed t; if d <=? now then Some target else None.

Definition disarm_due {T} (now : Z) (t : Timer T) : Timer T :=
  if is_some (due now t) then new else t.

Section lemmas.
Context {T : Type}.
Implicit Types t : Timer T.

Lemma expire_due t now : expire t now = (due now t, disarm_due now t).
Proof.
  unfold expire, disarm_due, due. destruct (armed t) as [[d tgt]|]; [|done]. simpl.
  by destruct (d <=? now).
Qed.

Lemma due_new now : due now (@new T) = None.
Proof. done. Qed.

Lemma next_due_skip l1 l2 now :
  Forall (fun t => due now t = None) l1 ->
  next_due (l1 ++ l2) now = let '(r, l2') := next_due l2 now in (r, l1 ++ l2').
Proof.
  induction 1 as [|t l1 Ht _ IH]; simpl; [by destruct (next_due l2 now)|].
  rewrite expire_due, Ht. unfold disarm_due. rewrite Ht. simpl. rewrite IH.
  by destruct (next_due l2 now).
Qed.

Lemma earliest_from (l : list (Timer T)) e0 :
  let e := fold_left (fun e t => Z.min e (deadline t)) l e0 in
  e <= e0 /\ Forall (fun t => e <= deadline t) l.
Proof.
  revert e0. induction l as [|t l IH]; intros e0; simpl; [by split|].
  destruct (IH (Z.min e0 (deadline t))) as [H1 H2]. split; [lia|].
  constructor; [lia|done].
Qed.

Lemma earliest_le (l : list (Timer T)) t d tgt :
  t ∈ l -> armed t = Some (d, tgt) -> earliest l <= d.
Proof.
  intros Hin Ht. destruct (earliest_from l NEVER) as [_ Hall].
  rewrite Forall_forall in Hall. specialize (Hall t Hin). unfold deadline in Hall.
  by rewrite Ht in Hall.
Qed.
End lemmas.

Lemma expire_loop_spec l1 l2 now fuel :
  Forall (fun t => due now t = None) l1 -> (length l2 < fuel)%nat ->
  expire_loop fuel (l1 ++ l2) now = Some (omap (due now) l2, l1 ++ (disarm_due now <$> l2)).
Proof.
  revert l1 fuel. induction l2 as [|t l2 IH]; intros l1 [|fuel] Hl1 Hf; simpl in Hf; try lia.
  - simpl. by rewrite next_due_skip.
  - destruct (due now t) as [tgt|] eqn:Ht; cbn -[expire_loop]; rewrite ?Ht.
    + simpl. rewrite next_due_skip by done. simpl. rewrite expire_due, Ht. unfold disarm_due.
      rewrite Ht. simpl. rewrite cons_middle, app_assoc, IH; [|apply Forall_app; eauto|lia].
      simpl. by rewrite <- app_assoc.
    + replace (disarm_due now t) with t by (unfold disarm_due; by rewrite Ht).
      rewrite cons_middle, app_assoc, IH; [|apply Forall_app; eauto|lia].
      by rewrite <- app_assoc.
Qed.

(** The whole walk: every due target in slot order, every due timer disarmed. *)
Lemma expire_timers_spec s now :
  expire_timers s now =
  Some (omap (due now) (timer_table s).*2,
        MkSched (prod_map id (disarm_due now) <$> timer_table s)
                (earliest (disarm_due now <$> (timer_table s).*2)) (notification_live s)).
Proof.
  unfold expire_timers.
  pose proof (expire_loop_spec [] (timer_table s).*2 now (S (length (timer_table s)))) as Hloop.
  simpl app in Hloop. rewrite Hloop by (rewrite ?length_fmap; auto; lia).
  simpl. do 3 f_equal. clear. induction (timer_table s) as [|[i t] l IH]; [done|]. simpl. f_equal. exact IH.
Qed.

Lemma disarm_due_armed {T} now (t : Timer T) d tgt :
  armed (disarm_due now t) = Some (d, tgt) -> armed t = Some (d, tgt) /\ now < d.
Proof.
  unfold disarm_due, due. destruct (armed t) as [[d' tgt']|] eqn:Ht; simpl; [|congruence].
  destruct (Z.leb_spec d' now); simpl; [done|]. rewrite Ht. intros; simplify_eq. by split.
Qed.

(** When the cache says nothing is due, nothing is. *)
Lemma cache_sound_not_due s now :
  cache_sound s -> is_due (EARLIEST_DEADLINE s) now = false ->
  Forall (fun p => due now p.2 = None) (timer_table s).
Proof.
  unfold is_due. intros Hs Hnd. apply Z.leb_gt in Hnd. eapply Forall_impl; [exact Hs|].
  intros [i t] Ht. simpl in *. unfold due. destruct (armed t) as [[d tgt]|]; [|done].
  simpl. specialize (Ht d tgt eq_refl). by destruct (Z.leb_spec d now); [lia|].
Qed.

Lemma not_due_noop now (l : list (Z * Timer Target)) :
  Forall (fun p => due now p.2 = None) l ->
  omap (due now) l.*2 = [] /\ prod_map id (disarm_due now) <$> l = l.
Proof.
  induction 1 as [|[i t] l Ht _ [IH1 IH2]]; [done|]. simpl in *. rewrite Ht. split; [done|].
  unfold prod_map, disarm_due at 1. simpl. rewrite Ht. by f_equal.
Qed.

Lemma set_timer_elem id t p l : p ∈ set_timer id t l -> p ∈ l \/ p = (id, t).
Proof.
  unfold set_timer. rewrite list_elem_of_fmap. intros (q & -> & Hq).
  destruct (q.1 =? id); auto.
Qed.

Lemma timer_arm_sound s id dl n bits now :
  cache_sound s -> cache_sound (timer_arm s id dl n bits now).2.
Proof.
  intros Hs. unfold timer_arm. destruct (negb _); [done|].
  destruct (timer_of s id) as [t|]; [|done]. unfold arm.
  destruct (Z.leb_spec dl now); unfold cache_sound in *; rewrite Forall_forall in *; simpl;
    intros p Hp d tgt Hd; apply set_timer_elem in Hp as [Hp | ->]; simpl in *; simplify_eq.
  - by eapply Hs.
  - specialize (Hs p Hp d tgt Hd). unfold lowered. lia.
  - unfold lowered. lia.
Qed.

Lemma timer_step_sound s s' : cache_sound s -> timer_step s s' -> cache_sound s'.
Proof.
  intros Hs Hst.
  destruct Hst as [s l1 l2 id Heq Hid|s id dl n bits now|s id|s now fired s' Htick|s l' Hsub|s live].
  - unfold cache_sound in *. rewrite Heq in Hs. simpl. apply Forall_app in Hs as [H1 H2].
    apply Forall_app. split; [done|]. by constructor.
  - by apply timer_arm_sound.
  - unfold timer_cancel. destruct (timer_of s id); [|done]. simpl.
    unfold cache_sound in *. rewrite Forall_forall in *. intros p Hp d tgt Hd. simpl in *.
    apply set_timer_elem in Hp as [Hp | ->]; [by eapply Hs|done].
  - unfold on_tick in Htick. destruct (is_due _ _); [|by simplify_eq].
    rewrite expire_timers_spec in Htick. simplify_eq. unfold cache_sound. simpl.
    rewrite Forall_forall. intros p Hp d tgt Hd. eapply earliest_le; [|exact Hd].
    rewrite <- list_fmap_compose. apply list_elem_of_fmap in Hp as (q & -> & Hq).
    simpl. apply list_elem_of_fmap. by exists q.
  - unfold cache_sound in *. rewrite Forall_forall in *. simpl. intros p Hp. apply Hs.
    by eapply elem_of_sublist.
  - done.
Qed.

Lemma reachable_cache_sound s : reachable s -> cache_sound s.
Proof.
  intros [live Hst]. eapply steps_invariant; [exact timer_step_sound | exact Hst |]. constructor.
Qed.

(** C37: in every reachable state of the timer service, a tick returns and fires
    exactly the timers whose deadline has come, in slot order: the cached
    [EARLIEST_DEADLINE] never hides one. Each fired timer is disarmed, no other
    timer changes, and afterwards every armed deadline is in the future. *)
Theorem tick_fires_exactly_the_due s now :
  reachable s ->
  exists s',
    on_tick s now = Some (omap (due now) (timer_table s).*2, s') /\
    timer_table s' = (prod_map id (disarm_due now) <$> timer_table s) /\
    forall name t d tgt, (name, t) ∈ timer_table s' -> armed t = Some (d, tgt) -> now < d.
Proof.
  intros Hs%reachable_cache_sound. unfold on_tick.
  destruct (is_due _ now) eqn:Hdue.
  - rewrite expire_timers_spec. eexists. split_and!; [done|done|].
    simpl. intros name t d tgt Hin Ht. apply list_elem_of_fmap in Hin as ([n0 t0] & Heq & _).
    simplify_eq/=. apply (disarm_due_armed _ _ _ _ Ht).
  - pose proof (cache_sound_not_due s now Hs Hdue) as Hnone.
    destruct (not_due_noop now _ Hnone) as [-> ->]. exists s. split_and!; [done|done|].
    intros name t d tgt Hin Ht. rewrite Forall_forall in Hnone. specialize (Hnone _ Hin).
    unfold due in Hnone. simpl in Hnone. rewrite Ht in Hnone. simpl in Hnone.
    by destruct (Z.leb_spec d now).
Qed.

(** Two timers, one armed for 5 and one for 9; the tick at 7 fires the first. *)
Definition demo_sched : Sched :=
  (timer_arm (timer_arm (MkSched [(1, new); (2, new)] NEVER (fun _ => true)) 1 5 10 1 0).2 2 9 10 2 0).2.

Lemma demo_reachable : reachable demo_sched.
Proof.
  exists (fun _ => true). unfold demo_sched.
  eapply steps_step; [apply (step_create _ [] [] 1); [done | set_solver]|].
  eapply steps_step; [apply (step_create _ [(1, new)] [] 2); [done | set_solver]|].
  eapply steps_step; [apply step_arm|]. eapply steps_step; [apply step_arm|].
  apply steps_refl.
Qed.

Lemma tick_fires_exactly_the_due_witness :
  exists s', on_tick demo_sched 7 = Some ([(10, 1)], s').
Proof.
  destruct (tick_fires_exactly_the_due demo_sched 7 demo_reachable) as (s' & Hs' & _).
  exists s'. exact Hs'.
Defined.

End Timer.
