(* ===== verification/Handshake.v ===== *)
(** * The block/wake handshake (crates/thread_wake_handshake/src/lib.rs) and the
    work-steal slot (crates/work_steal_slot/src/lib.rs)

    Both are the per-object halves of scheduler protocols; [Scheduler] composes
    them with the run queues of every core. A [debug_assert!] that fails is
    [Panicked]: the models are of a build with debug assertions. *)

From S2P Require Import Prelude.
Local Open Scope Z_scope.

Module Handshake.

Inductive RunState := Embryo | Ready | Running | Blocked | Finished | Dead.

#[export] Instance RunState_eq_dec : EqDecision RunState.
Proof. solve_decision. Defined.

Inductive WakeVerdict := NotBlocked | Refused | Deferred | Queue.

Inductive SwitchOutVerdict := Reap | WakeCompleted | Cleared.

Record Handshake (W : Type) := MkHandshake {
  state : RunState;
  on_cpu : bool;
  wake_pending : bool;
  wait_on : option W;
  ipc_served : bool;
  ipc_aborted : bool }.
Arguments MkHandshake {W} state on_cpu wake_pending wait_on ipc_served ipc_aborted.
Arguments state {W} h : rename.
Arguments on_cpu {W} h : rename.
Arguments wake_pending {W} h : rename.
Arguments wait_on {W} h : rename.
Arguments ipc_served {W} h : rename.
Arguments ipc_aborted {W} h : rename.

Section ops.
Context {W : Type}.
Implicit Types h : Handshake W.

Definition on_cpu_now : Handshake W := MkHandshake Running true false None false false.
Definition ready : Handshake W := MkHandshake Ready false false None false false.
Definition embryo : Handshake W := MkHandshake Embryo false false None false false.

(** A direct write of the state field, as spawn, exit, kill and [START] do. *)
Definition set_state (h : Handshake W) (s : RunState) : Handshake W :=
  MkHandshake s (on_cpu h) (wake_pending h) (wait_on h) (ipc_served h) (ipc_aborted h).

Definition park (h : Handshake W) (wait : W) : run (Handshake W) :=
  if decide (state h = Running)
  then Done (MkHandshake Blocked (on_cpu h) (wake_pending h) (Some wait) false (ipc_aborted h))
  else Panicked.

Definition serve (h : Handshake W) : Handshake W :=
  MkHandshake (state h) (on_cpu h) (wake_pending h) (wait_on h) true (ipc_aborted h).

Definition abort (h : Handshake W) : Handshake W :=
  MkHandshake (state h) (on_cpu h) (wake_pending h) (wait_on h) (ipc_served h) true.

Definition is_delivered (h : Handshake W) : bool := ipc_served h || ipc_aborted h.

Definition take_aborted (h : Handshake W) : bool * Handshake W :=
  (ipc_aborted h, MkHandshake (state h) (on_cpu h) (wake_pending h) (wait_on h) (ipc_served h) false).

Definition try_wake (h : Handshake W) : WakeVerdict * Handshake W :=
  if decide (state h <> Blocked) then (NotBlocked, h)
  else if is_some (wait_on h) && negb (is_delivered h) then (Refused, h)
  else if on_cpu h
  then (Deferred, MkHandshake (state h) (on_cpu h) true (wait_on h) (ipc_served h) (ipc_aborted h))
  else (Queue, MkHandshake Ready (on_cpu h) (wake_pending h) None (ipc_served h) (ipc_aborted h)).

Definition switch_in (h : Handshake W) : run (Handshake W) :=
  if on_cpu h then Panicked
  else match state h with
  | Ready | Running =>
      Done (MkHandshake Running true (wake_pending h) (wait_on h) (ipc_served h) (ipc_aborted h))
  | _ => Panicked
  end.

Definition preempt (h : Handshake W) : run (Handshake W) :=
  if decide (state h = Running) then Done (set_state h Ready) else Panicked.

Definition finish_switch (h : Handshake W) : SwitchOutVerdict * Handshake W :=
  if decide (state h = Finished) then (Reap, h)
  else if wake_pending h
  then (WakeCompleted, MkHandshake Ready false false None (ipc_served h) (ipc_aborted h))
  else (Cleared, MkHandshake (state h) false (wake_pending h) (wait_on h) (ipc_served h) (ipc_aborted h)).
End ops.

End Handshake.

(** ** The steal-request slot: one atomic word, each operation one atomic access. *)
Module StealSlot.

Definition EMPTY : Z := 0.

Definition MAX_REQUESTER : Z := u32_max - 1.

Record Slot := MkSlot { inner : Z }.

Definition new : Slot := MkSlot EMPTY.

Definition claim (s : Slot) (requester : Z) : bool * Slot :=
  match checked_add 32 requester 1 with
  | None => (false, s)
  | Some encoded => if inner s =? EMPTY then (true, MkSlot encoded) else (false, s)
  end.

Definition peek (s : Slot) : option Z := if inner s =? EMPTY then None else Some (inner s - 1).

Definition take (s : Slot) : option Z * Slot :=
  (if inner s =? EMPTY then None else Some (inner s - 1), MkSlot EMPTY).

(** *** Any interleaving of claims and takes *)

Inductive slot_op := Claim (requester : Z) | Take.
Inductive slot_event := Claimed (requester : Z) | Lost (requester : Z) | Took (r : option Z).

Definition slot_step (s : Slot) (o : slot_op) : slot_event * Slot :=
  match o with
  | Claim r => let '(b, s') := claim s r in ((if b then Claimed r else Lost r), s')
  | Take => let '(r, s') := take s in (Took r, s')
  end.

Fixpoint slot_run (s : Slot) (ops : list slot_op) : list slot_event * Slot :=
  match ops with
  | [] => ([], s)
  | o :: ops' =>
      let '(e, s') := slot_step s o in
      let '(es, s'') := slot_run s' ops' in (e :: es, s'')
  end.

(** The claims that won, and the requests that were served, in order. *)
Definition won (es : list slot_event) : list Z :=
  omap (fun e => match e with Claimed r => Some r | _ => None end) es.
Definition served (es : list slot_event) : list Z :=
  omap (fun e => match e with Took r => r | _ => None end) es.

Definition pending (s : Slot) : list Z := match peek s with Some r => [r] | None => [] end.

Lemma claim_won s r s' : 0 <= r -> claim s r = (true, s') -> pending s = [] /\ pending s' = [r].
Proof.
  unfold claim, checked_add, pending, peek. intros Hr. destruct (decide _); [|congruence].
  destruct (Z.eqb_spec (inner s) EMPTY) as [He|]; [|congruence].
  intros [= <-]. simpl. unfold EMPTY. destruct (Z.eqb_spec (r + 1) 0); [lia|].
  split; [done|]. f_equal. lia.
Qed.

Lemma claim_lost s r s' : claim s r = (false, s') -> s' = s.
Proof. unfold claim. destruct (checked_add _ _ _), (inner s =? EMPTY); congruence. Qed.

Lemma slot_run_balance ops s :
  Forall (fun o => match o with Claim r => 0 <= r | Take => True end) ops ->
  pending s ++ won (slot_run s ops).1 = served (slot_run s ops).1 ++ pending (slot_run s ops).2.
Proof.
  intros Hops. revert s. induction Hops as [|o ops Ho _ IH]; intros s; simpl; [by rewrite app_nil_r|].
  destruct o as [r|]; simpl.
  - destruct (claim s r) as [b s'] eqn:Hc. specialize (IH s').
    destruct (slot_run s' ops) as [es s'']. simpl in *. destruct b.
    + apply claim_won in Hc as [H1 H2]; [|done]. rewrite H1. simpl. rewrite <- IH, H2. done.
    + apply claim_lost in Hc as ->. exact IH.
  - specialize (IH (MkSlot EMPTY)). unfold take.
    destruct (slot_run (MkSlot EMPTY) ops) as [es s'']. simpl in *.
    unfold pending at 1, peek. destruct (inner s =? EMPTY); simpl; by rewrite <- IH.
Qed.

(** Along every interleaving of claims and takes on one steal slot, each won
    claim is served exactly once and in the order won, except the last one,
    which may still be pending: no request is lost, duplicated or invented. *)
Theorem steal_requests_served_once (ops : list slot_op)
  (Hids : Forall (fun o => match o with Claim r => 0 <= r | Take => True end) ops) :
  won (slot_run new ops).1 = served (slot_run new ops).1 ++ pending (slot_run new ops).2 /\
  (length (pending (slot_run new ops).2) <= 1)%nat.
Proof.
  split; [by apply (slot_run_balance ops new)|].
  unfold pending. destruct (peek _); simpl; lia.
Qed.

Lemma steal_requests_served_once_witness :
  won (slot_run new [Claim 3; Claim 5; Take; Claim 7]).1 = [3; 7].
Proof.
  rewrite (proj1 (steal_requests_served_once [Claim 3; Claim 5; Take; Claim 7]
    ltac:(repeat constructor; lia))). reflexivity.
Defined.

End StealSlot.
