(* ===== verification/Scheduler.v ===== *)
(** * The multi-core scheduler (kernel/src/sched.rs, kernel/src/cpu.rs)

    Every core's current thread, run queue, migration inbox and half-finished
    switch, and the handshake of every thread. One operation is one critical
    section of [IPC_TABLES] (or one masked-interrupt stretch on one core); the
    step relation interleaves them freely across cores. The intrusive queues
    appear as the lists they are proved to be, and the payload of a wait is a
    parameter. Debug assertions are on: one that fails is [Panicked]. *)

From S2P Require Import Prelude Handshake.
Local Open Scope Z_scope.

Module Scheduler.
Import Handshake.

Abbreviation ThreadId := Z (only parsing).

Record PerCpu := MkCpu {
  current : ThreadId;
  idle : option ThreadId;
  switched_from : option ThreadId;
  runq : list ThreadId;
  inbox : list ThreadId;
  steal_request : StealSlot.Slot }.

Record Machine (W : Type) := MkMachine {
  threads : gmap Z (Handshake W);
  cpus : list PerCpu }.
Arguments MkMachine {W} threads cpus.
Arguments threads {W} m : rename.
Arguments cpus {W} m : rename.

Definition runnable_len (k : PerCpu) : nat := (length (runq k) + length (inbox k))%nat.

Definition runq_push (t : ThreadId) (k : PerCpu) : PerCpu :=
  MkCpu (current k) (idle k) (switched_from k) (runq k ++ [t]) (inbox k) (steal_request k).
Definition inbox_push (t : ThreadId) (k : PerCpu) : PerCpu :=
  MkCpu (current k) (idle k) (switched_from k) (runq k) (inbox k ++ [t]) (steal_request k).
Definition set_runq (q : list ThreadId) (k : PerCpu) : PerCpu :=
  MkCpu (current k) (idle k) (switched_from k) q (inbox k) (steal_request k).

Section ops.
Context {W : Type}.
Implicit Types m : Machine W.

Definition set_thread (m : Machine W) (t : ThreadId) (h : Handshake W) : Machine W :=
  MkMachine (<[t := h]> (threads m)) (cpus m).
Definition set_cpu (m : Machine W) (c : nat) (k : PerCpu) : Machine W :=
  MkMachine (threads m) (<[c := k]> (cpus m)).

(** [place_on], called on core [here]. *)
Definition place_on (m : Machine W) (here target : nat) (t : ThreadId) : run (Machine W) :=
  match cpus m !! target with
  | None => Panicked
  | Some k =>
      if decide (target = here) then Done (set_cpu m target (runq_push t k))
      else Done (set_cpu m target (inbox_push t k))
  end.

(** The switch half of [schedule] once [next] is chosen; [k] is the core's state
    with [next] already popped. *)
Definition switch_to_next (m : Machine W) (c : nat) (k : PerCpu) (runnable : bool)
    (next : ThreadId) : run (Machine W) :=
  if decide (next = current k) then Panicked (* heal_self_pop *)
  else
    '(ths, q) ←
      (if runnable && bool_decide (Some (current k) <> idle k) then
         match threads m !! current k with
         | None => Panicked
         | Some h => h' ← preempt h; Done (<[current k := h']> (threads m), runq k ++ [current k])
         end
       else Done (threads m, runq k));
    match ths !! next with
    | None => Panicked
    | Some h =>
        h' ← switch_in h;
        Done (MkMachine (<[next := h']> ths)
               (<[c := MkCpu next (idle k) (Some (current k)) q (inbox k) (steal_request k)]> (cpus m)))
    end.

Definition schedule (m : Machine W) (c : nat) : run (Machine W) :=
  match cpus m !! c with
  | None => Panicked
  | Some k =>
      let runnable := bool_decide (state <$> threads m !! current k = Some Running) in
      match runq k with
      | next :: rest => switch_to_next m c (set_runq rest k) runnable next
      | [] =>
          if runnable then Done m
          else match idle k with
               | None => Panicked
               | Some i => if decide (current k = i) then Panicked
                           else switch_to_next m c k runnable i
               end
      end
  end.

Definition finish_switch (m : Machine W) (c : nat) : run (Machine W) :=
  match cpus m !! c with
  | None => Panicked
  | Some k =>
      match switched_from k with
      | None => Done m
      | Some prev =>
          let k' := MkCpu (current k) (idle k) None (runq k) (inbox k) (steal_request k) in
          match threads m !! prev with
          | None => Done (set_cpu m c k')
          | Some h =>
              let '(verdict, h') := Handshake.finish_switch h in
              match verdict with
              | Reap => Done (MkMachine (delete prev (threads m)) (<[c := k']> (cpus m)))
              | WakeCompleted => Done (set_thread (set_cpu m c (runq_push prev k')) prev h')
              | Cleared => Done (set_thread (set_cpu m c k') prev h')
              end
          end
      end
  end.

(** [wake], called on core [c]: a queued thread goes to the waker's core. *)
Definition wake (m : Machine W) (c : nat) (t : ThreadId) : run (Machine W) :=
  match threads m !! t with
  | None => Done m
  | Some h =>
      let '(verdict, h') := try_wake h in
      match verdict with
      | Queue =>
          match cpus m !! c with
          | None => Panicked
          | Some k => Done (set_thread (set_cpu m c (runq_push t k)) t h')
          end
      | _ => Done (set_thread m t h')
      end
  end.

(** [pick_wake_target]: the least-loaded core, the current one winning ties. *)
Definition pick_wake_target (m : Machine W) (here : nat) : nat :=
  match cpus m !! here with
  | None => here
  | Some k =>
      fst (fold_left
        (fun '(best, best_load) '(c, k') =>
           if decide (c = here) then (best, best_load)
           else if (runnable_len k' <? best_load)%nat then (c, runnable_len k')
           else (best, best_load))
        (imap pair (cpus m)) (here, runnable_len k))
  end.

Definition wake_load_aware (m : Machine W) (c : nat) (t : ThreadId) : run (Machine W) :=
  match threads m !! t with
  | None => Done m
  | Some h =>
      let '(verdict, h') := try_wake h in
      match verdict with
      | Queue => place_on (set_thread m t h') c (pick_wake_target m c) t
      | _ => Done (set_thread m t h')
      end
  end.

(** A delivery or an abort, in the critical section of the wake that follows. *)
Definition deliver (m : Machine W) (t : ThreadId) (f : Handshake W -> Handshake W) : Machine W :=
  match threads m !! t with
  | None => m
  | Some h => set_thread m t (f h)
  end.

Definition set_ipc_aborted (m : Machine W) (t : ThreadId) : Machine W := deliver m t abort.

(** [take_ipc_aborted], on core [c]'s current thread. *)
Definition take_ipc_aborted (m : Machine W) (c : nat) : option (bool * Machine W) :=
  k ← cpus m !! c;
  match threads m !! current k with
  | None => Some (false, m)
  | Some h => let '(b, h') := take_aborted h in Some (b, set_thread m (current k) h')
  end.

Definition park_current (m : Machine W) (c : nat) (w : W) : run (Machine W) :=
  match cpus m !! c with
  | None => Panicked
  | Some k =>
      match threads m !! current k with
      | None => Panicked
      | Some h => h' ← park h w; Done (set_thread m (current k) h')
      end
  end.

Fixpoint drain_loop (fuel : nat) (k : PerCpu) : PerCpu :=
  match fuel, inbox k with
  | S fuel', t :: rest =>
      drain_loop fuel' (MkCpu (current k) (idle k) (switched_from k) (runq k ++ [t]) rest (steal_request k))
  | _, _ => k
  end.

Definition drain_inbox (m : Machine W) (c : nat) : run (Machine W) :=
  match cpus m !! c with
  | None => Panicked
  | Some k => Done (set_cpu m c (drain_loop (length (inbox k)) k))
  end.

Definition serve_steal_request (m : Machine W) (c : nat) : run (Machine W) :=
  match cpus m !! c with
  | None => Panicked
  | Some k =>
      let '(r, slot) := StealSlot.take (steal_request k) in
      let k' q := MkCpu (current k) (idle k) (switched_from k) q (inbox k) slot in
      match r with
      | None => Done (set_cpu m c (k' (runq k)))
      | Some requester =>
          match runq k with
          | [] => Done (set_cpu m c (k' []))
          | t :: rest =>
              let m' := set_cpu m c (k' rest) in
              match cpus m' !! Z.to_nat requester with
              | None => Panicked
              | Some kr => Done (set_cpu m' (Z.to_nat requester) (inbox_push t kr))
              end
          end
      end
  end.

(** The most loaded other core: [best] starts at zero, so an empty queue is
    never picked. *)
Definition pick_victim (m : Machine W) (me : nat) : option nat :=
  fst (fold_left
    (fun '(victim, best) '(c, k) =>
       if decide (c = me) then (victim, best)
       else if (best <? length (runq k))%nat then (Some c, length (runq k)) else (victim, best))
    (imap pair (cpus m)) (None, 0%nat)).

Definition try_initiate_steal (m : Machine W) (me : nat) : run (Machine W) :=
  match cpus m !! me with
  | None => Panicked
  | Some k =>
      if (0 <? runnable_len k)%nat then Done m
      else match pick_victim m me with
      | None => Done m
      | Some v =>
          match cpus m !! v with
          | None => Panicked
          | Some kv =>
              Done (set_cpu m v (MkCpu (current kv) (idle kv) (switched_from kv) (runq kv) (inbox kv)
                (StealSlot.claim (steal_request kv) (Z.of_nat me)).2))
          end
      end
  end.

(** [spawn_on]; [tid] is the fresh name the thread table hands out. *)
Definition spawn_on (m : Machine W) (here target : nat) (tid : ThreadId) : run (Machine W) :=
  place_on (set_thread m tid ready) here target tid.

(** The state write of [depart]: [Finished], or [Dead] when supervised, in which
    case the corpse may be linked as a sender. *)
Definition depart (m : Machine W) (c : nat) (supervised : option (option W)) : run (Machine W) :=
  match cpus m !! c with
  | None => Panicked
  | Some k =>
      match threads m !! current k with
      | None => Done m
      | Some h =>
          Done (set_thread m (current k)
            (match supervised with
             | None => set_state h Finished
             | Some None => set_state h Dead
             | Some (Some w) =>
                 MkHandshake Dead (on_cpu h) (wake_pending h) (Some w) (ipc_served h) (ipc_aborted h)
             end))
      end
  end.

(** The conversion at the top of [schedule]: a killed thread found running. *)
Definition finish_killed_current (m : Machine W) (t : ThreadId) : Machine W :=
  deliver m t (fun h => set_state h Finished).

Inductive AbiError := NoSuchSlot | WrongObject.

(** The scheduling half of [start_thread_control_block], once the thread's
    address space, entry point and stack are in place. *)
Definition start_thread_control_block (m : Machine W) (here target : nat) (t : ThreadId)
  : result AbiError (run (Machine W)) :=
  match threads m !! t with
  | None => Err NoSuchSlot
  | Some h =>
      if decide (state h <> Embryo) then Err WrongObject
      else Ok (place_on (set_thread m t (set_state h Ready)) here target t)
  end.

Inductive RegionReap := ReapNow | RefuseAndArm | RefuseStanding | FinishInPlace.

Definition region_reap_verdict (s : RunState) (on_cpu : bool) : RegionReap :=
  match s with
  | Ready | Running => RefuseAndArm
  | _ => if bool_decide (s = Blocked) && negb on_cpu then FinishInPlace
         else if on_cpu then RefuseStanding else ReapNow
  end.

(** The state write of [finish_blocked_resident]. *)
Definition finish_blocked_resident (h : Handshake W) : Handshake W :=
  MkHandshake Finished (on_cpu h) (wake_pending h) None (ipc_served h) (ipc_aborted h).

(** One resident of a region being torn down. *)
Definition reap_resident (m : Machine W) (t : ThreadId) : Machine W :=
  match threads m !! t with
  | None => m
  | Some h =>
      match region_reap_verdict (state h) (on_cpu h) with
      | ReapNow => MkMachine (delete t (threads m)) (cpus m)
      | FinishInPlace => set_thread m t (finish_blocked_resident h)
      | _ => m
      end
  end.

Definition init (boot_tid idle_id : ThreadId) : Machine W :=
  MkMachine (<[boot_tid := on_cpu_now]> (<[idle_id := ready]> ∅))
            [MkCpu boot_tid (Some idle_id) None [] [] StealSlot.new].

Definition adopt_secondary_idle (m : Machine W) (id : ThreadId) : Machine W :=
  MkMachine (<[id := on_cpu_now]> (threads m))
            (cpus m ++ [MkCpu id (Some id) None [] [] StealSlot.new]).
End ops.

(** ** Executions: any interleaving of the critical sections

    A core between the choice in [schedule] and its [finish_switch] has
    interrupts masked, so it takes no other step of its own meanwhile. Idle
    threads never park or exit. A thread collects a pending abort before it
    parks again. *)

Section executions.
Context {W : Type}.
Implicit Types m : Machine W.

Definition settled m (c : nat) : Prop :=
  exists k, cpus m !! c = Some k /\ switched_from k = None.

(** The thread core [c] is running user or kernel work on. *)
Definition runs m (c : nat) (t : ThreadId) : Prop :=
  exists k, cpus m !! c = Some k /\ switched_from k = None /\ current k = t /\ idle k <> Some t.

Inductive step m : Machine W -> Prop :=
  | step_schedule c m' : settled m c -> schedule m c = Done m' -> step m m'
  | step_finish_switch c m' : finish_switch m c = Done m' -> step m m'
  | step_park c t h w m' :
      runs m c t -> threads m !! t = Some h -> ipc_aborted h = false ->
      park_current m c w = Done m' -> step m m'
  | step_wake c t m' : wake m c t = Done m' -> step m m'
  | step_serve_wake c t m' : wake (deliver m t serve) c t = Done m' -> step m m'
  | step_abort_wake c t m' : wake (set_ipc_aborted m t) c t = Done m' -> step m m'
  | step_serve_wake_load_aware c t m' :
      wake_load_aware (deliver m t serve) c t = Done m' -> step m m'
  | step_abort_current c t h :
      runs m c t -> threads m !! t = Some h -> state h = Running -> step m (set_ipc_aborted m t)
  | step_take_aborted c t b m' : runs m c t -> take_ipc_aborted m c = Some (b, m') -> step m m'
  | step_depart c t h s m' :
      runs m c t -> threads m !! t = Some h -> state h = Running ->
      depart m c s = Done m' -> step m m'
  | step_killed c t h :
      runs m c t -> threads m !! t = Some h -> state h = Running -> step m (finish_killed_current m t)
  | step_spawn here target t m' :
      threads m !! t = None -> spawn_on m here target t = Done m' -> step m m'
  | step_retype t : threads m !! t = None -> step m (set_thread m t embryo)
  | step_start here target t m' :
      start_thread_control_block m here target t = Ok (Done m') -> step m m'
  | step_drain c m' : drain_inbox m c = Done m' -> step m m'
  | step_serve_steal c m' : settled m c -> serve_steal_request m c = Done m' -> step m m'
  | step_initiate_steal c m' : try_initiate_steal m c = Done m' -> step m m'
  | step_reap t : step m (reap_resident m t)
  | step_online id : threads m !! id = None -> step m (adopt_secondary_idle m id).

Definition reachable m : Prop :=
  exists boot_tid idle_id, boot_tid <> idle_id /\ steps step (init boot_tid idle_id) m.
End executions.

(** ** The invariant

    Six numbers say where a thread is: how often it is queued, how many cores
    have it current, how many are switching away from it, how many of those
    also hold it in their own run queue, how many have it as idle thread, and
    on how many cores it stands that have another idle thread. *)

Definition b2n (b : bool) : nat := if b then 1 else 0.

Definition occ (t : ThreadId) (l : list ThreadId) : nat := length (filter (fun u => u = t) l).

Definition q_of t k : nat := (occ t (runq k) + occ t (inbox k))%nat.
Definition r_of t k : nat := b2n (bool_decide (current k = t)).
Definition d_of t k : nat := b2n (bool_decide (switched_from k = Some t)).
Definition o_of t k : nat := (d_of t k * occ t (runq k))%nat.
Definition i_of t k : nat := b2n (bool_decide (idle k = Some t)).
Definition a_of t k : nat := ((1 - i_of t k) * (r_of t k + d_of t k))%nat.

Abbreviation total f l := (sum_list_with f l) (only parsing).

Record View := MkView { vq : nat; vr : nat; vd : nat; vo : nat; vi : nat; va : nat }.

Definition core_view (t : ThreadId) (k : PerCpu) : View :=
  MkView (q_of t k) (r_of t k) (d_of t k) (o_of t k) (i_of t k) (a_of t k).

Definition view (l : list PerCpu) (t : ThreadId) : View :=
  MkView (total (q_of t) l) (total (r_of t) l) (total (d_of t) l)
         (total (o_of t) l) (total (i_of t) l) (total (a_of t) l).

Definition queued_in {W} (h : Handshake W) (v : View) : nat :=
  match vi v, state h with O, Ready => 1%nat | _, _ => 0%nat end.

(** What holds of a live thread with handshake [h] seen at [v]. *)
Record live_ok {W} (h : Handshake W) (v : View) : Prop := {
  lo_queued : vq v = queued_in h v;
  lo_standing : (vr v + vd v)%nat = b2n (on_cpu h);
  lo_pending : wake_pending h = true -> state h = Blocked /\ on_cpu h = true;
  lo_waits : state h = Blocked -> is_some (wait_on h) = true;
  lo_delivered : state h = Blocked -> is_delivered h = true -> wake_pending h = true;
  lo_running : state h = Running -> vi v = 0%nat -> vr v = 1%nat;
  lo_ready : state h = Ready -> on_cpu h = true -> vi v = 0%nat /\ (1 <= vo v)%nat;
  lo_idle : vi v <> 0%nat -> vi v = 1%nat /\ va v = 0%nat /\ (state h = Ready \/ state h = Running);
  lo_embryo : state h = Embryo -> on_cpu h = false }.

Definition thread_ok {W} (ho : option (Handshake W)) (v : View) : Prop :=
  match ho with
  | Some h => live_ok h v
  | None => vq v = 0%nat /\ vr v = 0%nat /\ vd v = 0%nat /\ vi v = 0%nat
  end.

(** Every core has its idle thread, and asks only existing cores for work. *)
Definition cpu_ok (n : nat) (k : PerCpu) : Prop :=
  is_Some (idle k) /\
  (StealSlot.inner (steal_request k) = 0 \/ 1 <= StealSlot.inner (steal_request k) <= Z.of_nat n).

Record inv {W} (m : Machine W) : Prop := {
  inv_threads t : thread_ok (threads m !! t) (view (cpus m) t);
  inv_cpus : Forall (cpu_ok (length (cpus m))) (cpus m) }.

(** ** Views under updates *)

Definition vadd (v w : View) : View :=
  MkView (vq v + vq w) (vr v + vr w) (vd v + vd w) (vo v + vo w) (vi v + vi w) (va v + va w).

Lemma sum_split {A} (f : A -> nat) (l : list A) c x :
  l !! c = Some x -> sum_list_with f l = (f x + sum_list_with f (delete c l))%nat.
Proof.
  revert c. induction l as [|y l IH]; intros [|c] Hc; simplify_eq/=; [done|].
  rewrite (IH c Hc). lia.
Qed.

Lemma delete_insert_same {A} (l : list A) c x : delete c (<[c := x]> l) = delete c l.
Proof. revert c. induction l as [|y l IH]; intros [|c]; simpl; [done|done|done|]. by rewrite IH. Qed.

Lemma view_split l c k t :
  l !! c = Some k -> view l t = vadd (core_view t k) (view (delete c l) t).
Proof. intros Hc. unfold view, vadd. simpl. by rewrite !(sum_split _ l c k Hc). Qed.

Lemma view_insert l c k k' t :
  l !! c = Some k -> view (<[c := k']> l) t = vadd (core_view t k') (view (delete c l) t).
Proof.
  intros Hc. rewrite (view_split _ c k'), delete_insert_same; [done|].
  apply list_lookup_insert_eq. by eapply lookup_lt_Some.
Qed.

Lemma view_same l c k k' t :
  l !! c = Some k -> core_view t k' = core_view t k -> view (<[c := k']> l) t = view l t.
Proof. intros Hc Hv. by rewrite (view_insert _ _ k), (view_split l c k), Hv. Qed.

Lemma view_no_queue l t : vq (view l t) = 0%nat -> vo (view l t) = 0%nat.
Proof.
  unfold view. simpl. induction l as [|k l IH]; simpl; [done|]. unfold q_of, o_of in *. lia.
Qed.

Lemma view_not_idle l t :
  vi (view l t) = 0%nat -> va (view l t) = (vr (view l t) + vd (view l t))%nat.
Proof.
  unfold view. simpl. induction l as [|k l IH]; simpl; [done|]. unfold a_of at 1. lia.
Qed.

Lemma occ_app t l1 l2 : occ t (l1 ++ l2) = (occ t l1 + occ t l2)%nat.
Proof. unfold occ. by rewrite filter_app, length_app. Qed.

Lemma occ_cons t u l : occ t (u :: l) = (b2n (bool_decide (u = t)) + occ t l)%nat.
Proof. unfold occ. rewrite filter_cons. case_bool_decide; by case_decide. Qed.

Lemma occ_nil t : occ t [] = 0%nat.
Proof. done. Qed.

Lemma occ_pos t l : (0 < occ t l)%nat <-> t ∈ l.
Proof.
  induction l as [|u l IH]; [rewrite occ_nil; split; [lia | by intros ?%not_elem_of_nil]|].
  rewrite occ_cons, elem_of_cons. case_bool_decide; simpl; [intuition lia|].
  rewrite <- IH. intuition (subst; congruence || lia).
Qed.

(** Unfolds one core's view and decides the comparisons in it. *)
Ltac core_view_tac :=
  unfold core_view, a_of, o_of, q_of, r_of, d_of, i_of; simpl;
  rewrite ?occ_app, ?occ_cons, ?occ_nil;
  repeat case_bool_decide; simplify_eq/=; try congruence; repeat f_equal; try lia.

Lemma inv_update {W} (m : Machine W) ths l' (ts : list ThreadId) :
  inv m -> Forall (cpu_ok (length l')) l' ->
  (forall u, u ∉ ts -> ths !! u = threads m !! u /\ view l' u = view (cpus m) u) ->
  (forall t, t ∈ ts -> thread_ok (ths !! t) (view l' t)) ->
  inv (MkMachine ths l').
Proof.
  intros Hi Hc Hother Hts. split; [|done]. simpl. intros u.
  destruct (decide (u ∈ ts)); [by apply Hts|].
  destruct (Hother u) as [-> ->]; [done|]. apply (inv_threads m Hi).
Qed.

(** The common shape: one thread [t] and one core [c] change. *)
Lemma inv_update1 {W} (m : Machine W) ths c k k' t :
  inv m -> cpus m !! c = Some k -> cpu_ok (length (cpus m)) k' ->
  (forall u, u <> t -> ths !! u = threads m !! u /\ core_view u k' = core_view u k) ->
  thread_ok (ths !! t) (vadd (core_view t k') (view (delete c (cpus m)) t)) ->
  inv (MkMachine ths (<[c := k']> (cpus m))).
Proof.
  intros Hi Hc Hk' Hother Ht. apply (inv_update m ths _ [t] Hi).
  - rewrite length_insert. apply Forall_insert; [apply (inv_cpus m Hi)|done].
  - intros u Hu. rewrite list_elem_of_singleton in Hu. destruct (Hother u Hu) as [-> Hv].
    by rewrite (view_same _ _ k k' u Hc Hv).
  - intros u ->%list_elem_of_singleton. by rewrite (view_insert _ _ k).
Qed.

(** The shape of the steps that only rewrite a handshake. *)
Lemma inv_set_thread {W} (m : Machine W) t h' :
  inv m -> live_ok h' (view (cpus m) t) -> inv (set_thread m t h').
Proof.
  intros Hi Ht. apply (inv_update m _ _ [t] Hi).
  - apply (inv_cpus m Hi).
  - intros u Hu. rewrite list_elem_of_singleton in Hu. by rewrite lookup_insert_ne.
  - intros u ->%list_elem_of_singleton. by rewrite lookup_insert_eq.
Qed.

Lemma inv_live {W} (m : Machine W) t h :
  inv m -> threads m !! t = Some h -> live_ok h (view (cpus m) t).
Proof. intros Hi Ht. pose proof (inv_threads m Hi t) as H. by rewrite Ht in H. Qed.

Lemma inv_cpu {W} (m : Machine W) c k :
  inv m -> cpus m !! c = Some k -> cpu_ok (length (cpus m)) k.
Proof. intros Hi Hc. eapply Forall_lookup_1; [apply (inv_cpus m Hi)|done]. Qed.

(** A core switching away from [t] is one that counts in [vd]. *)
Lemma view_own_departs l t : vd (view l t) = 0%nat -> vo (view l t) = 0%nat.
Proof.
  unfold view. simpl. induction l as [|k l IH]; simpl; [done|].
  unfold o_of at 1. destruct (d_of t k) eqn:E; lia.
Qed.

#[local] Opaque view.

(** ** Each operation keeps the invariant *)

(** On no queue, on no core, nobody's idle thread. *)
Definition nowhere (v : View) : Prop :=
  vq v = 0%nat /\ vr v = 0%nat /\ vd v = 0%nat /\ vi v = 0%nat.

Lemma live_nowhere {W} (h : Handshake W) v :
  live_ok h v -> state h <> Ready -> state h <> Running -> on_cpu h = false -> nowhere v.
Proof.
  intros [Hq Hs _ _ _ _ _ Hi _] Hr Hrun Hc. rewrite Hc in Hs. simpl in Hs.
  destruct (decide (vi v = 0%nat)) as [Hz|Hz]; [|destruct (Hi Hz) as (_ & _ & [?|?]); congruence].
  unfold nowhere, queued_in in *. rewrite Hz in Hq. destruct (state h); repeat split; try lia; congruence.
Qed.

(** Handshakes that differ only in the delivery flags. *)
Definition same_but_flags {W} (h h1 : Handshake W) : Prop :=
  state h1 = state h /\ on_cpu h1 = on_cpu h /\ wake_pending h1 = wake_pending h /\
  wait_on h1 = wait_on h.

Lemma live_ok_flags {W} (h h1 : Handshake W) v :
  same_but_flags h h1 ->
  (state h = Blocked -> is_delivered h1 = true -> wake_pending h1 = true) ->
  live_ok h v -> live_ok h1 v.
Proof.
  intros (Hst & Hc & Hp & Hw) Hd [Q S P Wt _ R Rd I E].
  unfold queued_in in Q. split; unfold queued_in; rewrite ?Hst, ?Hc, ?Hp, ?Hw in *; auto.
Qed.

Lemma live_ok_ready {W} (h : Handshake W) v :
  state h = Ready -> on_cpu h = false -> wake_pending h = false ->
  vq v = 1%nat -> vr v = 0%nat -> vd v = 0%nat -> vi v = 0%nat -> live_ok h v.
Proof.
  intros Hst Hc Hp Hq Hr Hd Hi.
  split; unfold queued_in; rewrite ?Hst, ?Hc, ?Hp, ?Hi, ?Hq, ?Hr, ?Hd; simpl; try congruence; done.
Qed.

Lemma enqueue_inv {W} (m : Machine W) ths c k k' t h' :
  inv m -> cpus m !! c = Some k -> k' = runq_push t k \/ k' = inbox_push t k ->
  nowhere (view (cpus m) t) -> ths !! t = Some h' ->
  state h' = Ready -> on_cpu h' = false -> wake_pending h' = false ->
  (forall u, u <> t -> ths !! u = threads m !! u) ->
  inv (MkMachine ths (<[c := k']> (cpus m))).
Proof.
  intros Hi Hc Hk' Hn Ht Hst Hcpu Hp Hother.
  apply (inv_update1 m ths c k k' t Hi Hc).
  - destruct Hk' as [-> | ->]; apply (inv_cpu m c k Hi Hc).
  - intros u Hu. split; [by apply Hother|]. destruct Hk' as [-> | ->]; core_view_tac.
  - rewrite Ht. simpl. rewrite (view_split _ c k t Hc) in Hn.
    destruct (view (delete c (cpus m)) t) as [q r d o i a].
    destruct Hn as (Hq & Hr & Hd & Hid). unfold vadd in *. simpl in *.
    apply live_ok_ready; simpl; try done; destruct Hk' as [-> | ->];
      unfold q_of, r_of, d_of, i_of in *; simpl in *;
      rewrite ?occ_app, ?occ_cons, ?occ_nil, ?bool_decide_true by done; simpl; lia.
Qed.

Lemma place_on_inv {W} (m : Machine W) ths here target t h' m' :
  inv m -> nowhere (view (cpus m) t) -> ths !! t = Some h' ->
  state h' = Ready -> on_cpu h' = false -> wake_pending h' = false ->
  (forall u, u <> t -> ths !! u = threads m !! u) ->
  place_on (MkMachine ths (cpus m)) here target t = Done m' -> inv m'.
Proof.
  intros Hi Hn Ht Hst Hc Hp Hother. unfold place_on. simpl.
  destruct (cpus m !! target) as [k|] eqn:Hk; [|done].
  case_decide; intros [= <-]; unfold set_cpu; simpl; eapply enqueue_inv; eauto.
Qed.

(** What [try_wake] makes of a handshake whose flags were just raised. *)
Lemma try_wake_ok {W} (h h1 : Handshake W) v :
  live_ok h v -> same_but_flags h h1 ->
  let '(verdict, h2) := try_wake h1 in
  match verdict with
  | Queue => nowhere v /\ state h2 = Ready /\ on_cpu h2 = false /\ wake_pending h2 = false
  | _ => live_ok h2 v
  end.
Proof.
  intros Hl Hf. pose proof Hf as (Hst & Hc & Hp & Hw). unfold try_wake.
  case_decide as Hb; [apply (live_ok_flags h); [done|congruence|done]|].
  destruct (is_some (wait_on h1)) eqn:Hwo.
  2: { rewrite Hw, (lo_waits _ _ Hl) in Hwo; congruence. }
  destruct (is_delivered h1) eqn:Hd; simpl.
  2: { apply (live_ok_flags h); [done|intros; congruence|done]. }
  destruct (on_cpu h1) eqn:Hoc.
  - destruct Hl as [Q S P Wt D R Rd I E]. rewrite Hst in Hb.
    unfold queued_in in Q. rewrite Hb in *.
    split; unfold queued_in; simpl; rewrite ?Hst, ?Hb, ?Hw, <- ?Hc; try congruence; auto; by rewrite S, <- Hc.
  - assert (state h = Blocked /\ on_cpu h = false) as [Hb' Hc'] by (split; congruence).
    split; [apply (live_nowhere h); congruence|]. simpl. split_and!; try done.
    destruct (wake_pending h1) eqn:Hpp; [|done].
    destruct (lo_pending h v Hl); congruence.
Qed.

(** Raising the delivery flags of [t] and waking it in one critical section. *)
Lemma wake_inv {W} (m : Machine W) c t f m' :
  inv m -> (forall h, same_but_flags h (f h)) ->
  wake (deliver m t f) c t = Done m' -> inv m'.
Proof.
  intros Hi Hf. unfold wake, deliver. destruct (threads m !! t) as [h|] eqn:Ht.
  2: { rewrite Ht. by intros [= <-]. }
  simpl. rewrite lookup_insert_eq.
  pose proof (try_wake_ok h (f h) _ (inv_live m t h Hi Ht) (Hf h)) as Hw.
  destruct (try_wake (f h)) as [verdict h2].
  destruct verdict; try (intros [= <-]; unfold set_thread; simpl; rewrite insert_insert_eq;
    by apply inv_set_thread).
  destruct (cpus m !! c) as [k|] eqn:Hc; [|done]. intros [= <-].
  destruct Hw as (Hn & Hs & Hoc & Hp). unfold set_thread, set_cpu. simpl.
  eapply enqueue_inv; eauto; [apply lookup_insert_eq|].
  intros u Hu. by rewrite !lookup_insert_ne by congruence.
Qed.

Lemma wake_load_aware_inv {W} (m : Machine W) c t f m' :
  inv m -> (forall h, same_but_flags h (f h)) ->
  wake_load_aware (deliver m t f) c t = Done m' -> inv m'.
Proof.
  intros Hi Hf. unfold wake_load_aware, deliver. destruct (threads m !! t) as [h|] eqn:Ht.
  2: { rewrite Ht. by intros [= <-]. }
  simpl. rewrite lookup_insert_eq.
  pose proof (try_wake_ok h (f h) _ (inv_live m t h Hi Ht) (Hf h)) as Hw.
  destruct (try_wake (f h)) as [verdict h2].
  destruct verdict; try (intros [= <-]; unfold set_thread; simpl; rewrite insert_insert_eq;
    by apply inv_set_thread).
  destruct Hw as (Hn & Hs & Hoc & Hp). unfold set_thread. simpl. rewrite insert_insert_eq.
  intros Hpl. apply (place_on_inv m _ _ _ t h2) in Hpl; auto; [apply lookup_insert_eq|].
  intros u Hu. by rewrite lookup_insert_ne by congruence.
Qed.

Ltac split_view Hc t :=
  let Hv := fresh "Hview" in
  pose proof (view_split _ _ _ t Hc) as Hv;
  match type of Hv with _ = vadd _ (view ?l _) =>
    pose proof (view_no_queue l t); pose proof (view_not_idle l t);
    destruct (view l t) as [?q ?r ?d ?o ?i ?a] eqn:?
  end.

Lemma runs_live {W} (m : Machine W) c t :
  inv m -> runs m c t ->
  exists h k, threads m !! t = Some h /\ cpus m !! c = Some k /\ current k = t /\
    live_ok h (view (cpus m) t) /\ vi (view (cpus m) t) = 0%nat /\ vr (view (cpus m) t) = 1%nat /\
    vd (view (cpus m) t) = 0%nat /\ on_cpu h = true.
Proof.
  intros Hi (k & Hc & Hsf & Hcur & Hidle). pose proof (inv_threads m Hi t) as Ht.
  pose proof (view_split _ _ _ t Hc) as Hv.
  destruct (threads m !! t) as [h|] eqn:Hh; simpl in Ht.
  2: { rewrite Hv in Ht. destruct Ht as (_ & Hr & _). simpl in Hr. unfold r_of in Hr.
       rewrite bool_decide_true in Hr by done. simpl in Hr. lia. }
  exists h, k. pose proof (lo_standing _ _ Ht) as Hst. pose proof (lo_idle _ _ Ht) as Hid.
  pose proof (view_not_idle (delete c (cpus m)) t) as Hni.
  rewrite Hv in Hst, Hid |- *.
  destruct (view (delete c (cpus m)) t) as [q r d o i a]. simpl in *.
  unfold a_of, r_of, d_of, i_of in Hst, Hid |- *.
  rewrite (bool_decide_true (current k = t)), (bool_decide_false (idle k = Some t)),
    (bool_decide_false (switched_from k = Some t)) in * by congruence. simpl in *.
  destruct (on_cpu h); simpl in Hst; [|lia].
  split_and!; try done; try lia; by rewrite <- Hv.
Qed.

(** Changing only the state of a thread that some core is running. *)
Lemma set_running_state_inv {W} (m : Machine W) c t h h' :
  inv m -> runs m c t -> threads m !! t = Some h -> on_cpu h' = true -> wake_pending h' = false ->
  state h' = Finished \/ state h' = Dead \/
    (state h' = Blocked /\ is_some (wait_on h') = true /\ is_delivered h' = false) ->
  inv (set_thread m t h').
Proof.
  intros Hi Hr Ht Hc Hp Hst. destruct (runs_live m c t Hi Hr) as (h0 & k & H0 & Hk & Hcur & Hl & Hvi & Hvr & Hvd & Hcpu).
  apply inv_set_thread; [done|]. pose proof (lo_queued _ _ Hl) as Hq.
  assert (state h0 <> Ready) as Hnr.
  { intros Hrd. destruct (lo_ready _ _ Hl Hrd Hcpu) as [_ Ho].
    rewrite (view_own_departs _ _ Hvd) in Ho. lia. }
  unfold queued_in in Hq. rewrite Hvi in Hq.
  split; unfold queued_in; rewrite ?Hvi, ?Hc, ?Hp, ?Hvr, ?Hvd; simpl; try congruence; try done; destruct Hst as [Hst|[Hst|(Hst & ? & ?)]]; rewrite ?Hst in *; try done; try congruence;
    rewrite Hq; by destruct (state h0).
Qed.

(** The choice in [schedule] is safe to switch to. *)
Lemma queued_head_ok {W} (m : Machine W) c k next rest :
  inv m -> cpus m !! c = Some k -> switched_from k = None -> runq k = next :: rest ->
  exists h, threads m !! next = Some h /\ state h = Ready /\ on_cpu h = false /\
    wake_pending h = false /\ next <> current k /\ vi (view (cpus m) next) = 0%nat.
Proof.
  intros Hi Hc Hsf Hrq. pose proof (inv_threads m Hi next) as Ht.
  split_view Hc next.
  assert (1 <= vq (view (cpus m) next))%nat as Hq1.
  { rewrite Hview. simpl. unfold q_of. rewrite Hrq, occ_cons, bool_decide_true by done. simpl. lia. }
  destruct (threads m !! next) as [h|] eqn:Hh; simpl in Ht; [|lia].
  exists h. pose proof (lo_queued _ _ Ht) as Hq. unfold queued_in in Hq.
  destruct (vi (view (cpus m) next)) eqn:Hvi; [|lia]. destruct (state h) eqn:Hst; try lia.
  assert (on_cpu h = false) as Hoff.
  { destruct (on_cpu h) eqn:Hoc; [|done].
    destruct (lo_ready _ _ Ht Hst Hoc) as [_ Ho]. rewrite Hview in Ho, Hq. simpl in Ho, Hq.
    unfold q_of in Hq. rewrite Hrq, occ_cons, bool_decide_true in Hq by done. simpl in Hq.
    unfold o_of, d_of in Ho. rewrite Hsf, bool_decide_false in Ho by done. simpl in *. lia. }
  split_and!; try done.
  - destruct (wake_pending h) eqn:Hp; [|done]. destruct (lo_pending _ _ Ht Hp). congruence.
  - intros ->. pose proof (lo_standing _ _ Ht) as Hs. rewrite Hoff, Hview in Hs. simpl in Hs.
    unfold r_of in Hs. rewrite bool_decide_true in Hs by done. simpl in Hs. lia.
Qed.

(** A core that is not running its idle thread may switch to it. *)
Lemma idle_ok {W} (m : Machine W) c k i :
  inv m -> cpus m !! c = Some k -> switched_from k = None -> idle k = Some i -> current k <> i ->
  exists h, threads m !! i = Some h /\ (state h = Ready \/ state h = Running) /\ on_cpu h = false /\
    wake_pending h = false /\ vi (view (cpus m) i) = 1%nat.
Proof.
  intros Hi Hc Hsf Hid Hne. pose proof (inv_threads m Hi i) as Ht.
  split_view Hc i.
  assert (1 <= vi (view (cpus m) i))%nat as Hi1.
  { rewrite Hview. simpl. unfold i_of. rewrite bool_decide_true by done. simpl. lia. }
  destruct (threads m !! i) as [h|] eqn:Hh; simpl in Ht; [|lia].
  exists h. destruct (lo_idle _ _ Ht) as (Hv1 & Hva & Hst); [lia|].
  assert (on_cpu h = false) as Hoff.
  { pose proof (lo_standing _ _ Ht) as Hs. rewrite Hview in Hs, Hv1, Hva. simpl in *.
    unfold r_of, d_of, i_of, a_of in *. rewrite Hsf in *.
    rewrite (bool_decide_true (idle k = _)) in * by done.
    rewrite (bool_decide_false (current k = _)), (bool_decide_false (None = _)) in * by done.
    simpl in *. destruct (on_cpu h); simpl in *; lia. }
  split_and!; try done.
  destruct (wake_pending h) eqn:Hp; [|done]. destruct (lo_pending _ _ Ht Hp). congruence.
Qed.

(** The three ways a thread passes through a switch on the core [k]: it leaves
    without being runnable, it leaves preempted, or it arrives. *)
Section switching.
Context {W : Type} (k : PerCpu) (next : ThreadId) (q' : list ThreadId) (w : View).
Context (Hsf : switched_from k = None) (Hne : next <> current k).
Context (Ho : vd w = 0%nat -> vo w = 0%nat).
Context (Ha : vi w = 0%nat -> va w = (vr w + vd w)%nat).

Let k' := MkCpu next (idle k) (Some (current k)) q' (inbox k) (steal_request k).

Ltac numbers :=
  unfold queued_in, vadd, core_view, q_of, o_of, a_of, r_of, d_of, i_of in *; simpl in *;
  rewrite ?Hsf in *.

Lemma departing_ok (h : Handshake W) :
  live_ok h (vadd (core_view (current k) k) w) ->
  occ (current k) q' = occ (current k) (runq k) ->
  state h <> Running \/ idle k = Some (current k) ->
  live_ok h (vadd (core_view (current k) k') w).
Proof.
  intros [Q S P Wt D R Rd I E] Hocc Hst. unfold k'. numbers. rewrite Hocc.
  rewrite (bool_decide_true (current k = current k)), (bool_decide_true (Some (current k) = _)),
    (bool_decide_false (next = _)), (bool_decide_false (None = _)) in * by done.
  destruct (bool_decide_reflect (idle k = Some (current k))); simpl in *;
  destruct (on_cpu h) eqn:Hoc; simpl in *; try lia;
  split; unfold queued_in; simpl; try assumption; try (intros; lia); try tauto;
    try (rewrite ?Hoc; simpl; lia).
  all: intros Hr; first [destruct (Rd Hr eq_refl); lia | specialize (E Hr); congruence].
Qed.

Lemma preempted_ok (h : Handshake W) :
  live_ok h (vadd (core_view (current k) k) w) ->
  occ (current k) q' = S (occ (current k) (runq k)) ->
  state h = Running -> idle k <> Some (current k) ->
  live_ok (set_state h Ready) (vadd (core_view (current k) k') w).
Proof.
  intros [Q S P Wt D R Rd I E] Hocc Hst Hid. unfold k'. numbers. rewrite Hocc, Hst in *.
  rewrite (bool_decide_true (current k = current k)), (bool_decide_true (Some (current k) = _)),
    (bool_decide_false (next = _)), (bool_decide_false (None = _)),
    (bool_decide_false (idle k = _)) in * by done. simpl in *.
  assert (vi w = 0%nat) as Hvi by (destruct (decide (vi w = 0%nat)); [done|lia]).
  destruct (on_cpu h) eqn:Hoc; simpl in *; [|lia].
  split; unfold queued_in; simpl; rewrite ?Hvi; rewrite ?Hoc; simpl; try done; try lia.
  - rewrite Hvi in Q. lia.
  - intros Hp. by destruct (P Hp).
Qed.

Lemma arriving_ok (h : Handshake W) :
  live_ok h (vadd (core_view next k) w) ->
  on_cpu h = false -> wake_pending h = false ->
  (state h = Ready /\ vi (vadd (core_view next k) w) = 0%nat /\ occ next (runq k) = S (occ next q')) \/
  (idle k = Some next /\ occ next (runq k) = occ next q') ->
  live_ok (MkHandshake Running true (wake_pending h) (wait_on h) (ipc_served h) (ipc_aborted h))
          (vadd (core_view next k') w).
Proof.
  intros [Q S P Wt D R Rd I E] Hoc Hp Hcase. unfold k'. numbers. rewrite Hoc, Hp in *.
  rewrite (bool_decide_true (next = next)), (bool_decide_false (None = _)),
    (bool_decide_false (Some (current k) = _)), (bool_decide_false (current k = next)) in * by congruence.
  simpl in *. destruct Hcase as [(Hst & Hvi & Hocc) | [Hid Hocc]].
  - rewrite Hst in *. destruct (bool_decide_reflect (idle k = Some next)); simpl in *; [lia|].
    rewrite Hvi in Q. split; unfold queued_in; simpl; rewrite ?Hvi; try done; lia.
  - rewrite (bool_decide_true (idle k = _)) in * by done. simpl in *.
    destruct I as (Hi1 & Hva & Hst); [lia|]. split; unfold queued_in; simpl; try done; try lia.
    intros _. split_and!; try lia. by right.
Qed.
End switching.

Lemma current_live {W} (m : Machine W) c k :
  inv m -> cpus m !! c = Some k -> exists h, threads m !! current k = Some h.
Proof.
  intros Hi Hc. pose proof (inv_threads m Hi (current k)) as Ht.
  destruct (threads m !! current k) as [h|]; [by exists h|].
  exfalso. destruct Ht as (_ & Hr & _). rewrite (view_split _ _ _ _ Hc) in Hr. simpl in Hr.
  unfold r_of in Hr. rewrite bool_decide_true in Hr by done. simpl in Hr. lia.
Qed.

(** The two sources of [next]: the head of the run queue, or the idle thread. *)
Definition chosen {W} (m : Machine W) (k0 : PerCpu) (rest : list ThreadId) (next : ThreadId) : Prop :=
  exists h, threads m !! next = Some h /\ (state h = Ready \/ state h = Running) /\
    on_cpu h = false /\ wake_pending h = false /\ next <> current k0 /\
    ((state h = Ready /\ vi (view (cpus m) next) = 0%nat /\ runq k0 = next :: rest) \/
     (idle k0 = Some next /\ runq k0 = rest)).

(** The machine after a switch: [hc'] and [q'] are the old thread's handshake
    and the run queue, with or without preemption. *)
Lemma switched_inv {W} (m : Machine W) c k0 rest next hn hc' q' :
  inv m -> cpus m !! c = Some k0 -> switched_from k0 = None ->
  threads m !! next = Some hn -> on_cpu hn = false -> wake_pending hn = false -> next <> current k0 ->
  (state hn = Ready /\ vi (view (cpus m) next) = 0%nat /\ runq k0 = next :: rest \/
   idle k0 = Some next /\ runq k0 = rest) ->
  (forall u, u <> current k0 -> occ u q' = occ u rest) ->
  (let k' := MkCpu next (idle k0) (Some (current k0)) q' (inbox k0) (steal_request k0) in
   live_ok hc' (vadd (core_view (current k0) k') (view (delete c (cpus m)) (current k0)))) ->
  inv (MkMachine
    (<[next := MkHandshake Running true (wake_pending hn) (wait_on hn) (ipc_served hn) (ipc_aborted hn)]>
       (<[current k0 := hc']> (threads m)))
    (<[c := MkCpu next (idle k0) (Some (current k0)) q' (inbox k0) (steal_request k0)]> (cpus m))).
Proof.
  intros Hi Hc Hsf Hn Hoff Hp Hne Hcase Hocc Hcur.
  assert (Hq : forall u, u <> current k0 -> u <> next -> occ u q' = occ u (runq k0)).
  { intros u Hu1 Hu2. rewrite Hocc by done. destruct Hcase as [(_ & _ & ->) | [_ ->]]; [|done].
    rewrite occ_cons, bool_decide_false; [done|congruence]. }
  apply (inv_update m _ _ [current k0; next] Hi).
  - rewrite length_insert. apply Forall_insert; [apply (inv_cpus m Hi)|].
    apply (inv_cpu m c k0 Hi Hc).
  - intros u Hu. rewrite !not_elem_of_cons in Hu. destruct Hu as (Hu1 & Hu2 & _).
    rewrite !lookup_insert_ne by congruence. split; [done|].
    apply (view_same _ _ k0 _ u Hc). specialize (Hq u Hu1 Hu2).
    unfold core_view, a_of, o_of, q_of, r_of, d_of, i_of. simpl.
    rewrite Hsf, Hq, (bool_decide_false (next = u)), (bool_decide_false (current k0 = u)),
      (bool_decide_false (Some (current k0) = _)), (bool_decide_false (None = _)) by congruence. done.
  - intros u. rewrite !elem_of_cons. intros [-> | [-> | []%not_elem_of_nil]];
      rewrite (view_insert _ _ k0) by done.
    + rewrite lookup_insert_ne, lookup_insert_eq by done. exact Hcur.
    + rewrite lookup_insert_eq. simpl. pose proof (inv_live m next hn Hi Hn) as Hl.
      rewrite (view_split _ _ _ next Hc) in Hl, Hcase.
      apply arriving_ok; auto using view_own_departs, view_not_idle.
      rewrite Hocc by done. destruct Hcase as [(? & ? & ->) | [? ->]]; [left|by right].
      rewrite occ_cons, bool_decide_true by done. done.
Qed.

Lemma switch_to_next_inv {W} (m : Machine W) c k0 rest next :
  inv m -> cpus m !! c = Some k0 -> switched_from k0 = None -> chosen m k0 rest next ->
  exists m', switch_to_next m c (set_runq rest k0)
      (bool_decide (state <$> threads m !! current k0 = Some Running)) next = Done m' /\ inv m'.
Proof.
  intros Hi Hc Hsf (hn & Hn & Hst & Hoff & Hp & Hne & Hcase).
  destruct (current_live m c k0 Hi Hc) as [hc Hhc]. pose proof (inv_live _ _ _ Hi Hhc) as Hlc.
  rewrite (view_split _ _ _ _ Hc) in Hlc. rewrite Hhc. simpl.
  assert (Hocc : forall u, u <> next -> occ u rest = occ u (runq k0)).
  { intros u Hu. destruct Hcase as [(_ & _ & ->) | [_ ->]]; [|done].
    rewrite occ_cons, bool_decide_false; [done|congruence]. }
  unfold switch_to_next. simpl. rewrite decide_False by done.
  assert (Hsw : switch_in hn =
    Done (MkHandshake Running true (wake_pending hn) (wait_on hn) (ipc_served hn) (ipc_aborted hn))).
  { unfold switch_in. rewrite Hoff. by destruct Hst as [-> | ->]. }
  destruct (bool_decide (Some (state hc) = Some Running) && bool_decide (Some (current k0) <> idle k0)) eqn:Hpre.
  - apply andb_prop in Hpre as [Hrun Hid]. apply bool_decide_eq_true in Hrun, Hid.
    injection Hrun as Hrun. rewrite Hhc. unfold preempt. rewrite decide_True by done. simpl.
    rewrite lookup_insert_ne, Hn, Hsw by done. simpl. eexists. split; [done|].
    apply (switched_inv m c k0 rest); auto.
    + intros u Hu. rewrite occ_app, occ_cons, bool_decide_false, occ_nil by congruence. simpl. lia.
    + apply preempted_ok; auto using view_own_departs, view_not_idle.
      rewrite occ_app, occ_cons, bool_decide_true, occ_nil, Hocc by done. simpl. lia.
  - simpl. rewrite Hn, Hsw. simpl. eexists. split; [done|].
    rewrite <- (insert_id (threads m) (current k0) hc Hhc) at 1.
    apply (switched_inv m c k0 rest); auto.
    apply departing_ok; auto using view_own_departs, view_not_idle.
    apply andb_false_iff in Hpre as [Hr | Hid].
    + apply bool_decide_eq_false in Hr. left. congruence.
    + apply bool_decide_eq_false, dec_stable in Hid. by right.
Qed.

Lemma schedule_inv {W} (m : Machine W) c :
  inv m -> settled m c -> exists m', schedule m c = Done m' /\ inv m'.
Proof.
  intros Hi (k & Hc & Hsf). unfold schedule. rewrite Hc.
  destruct (runq k) as [|next rest] eqn:Hrq.
  - destruct (inv_cpu _ _ _ Hi Hc) as [[i Hid] _].
    case_bool_decide as Hrun; [by exists m|]. rewrite Hid.
    destruct (current_live m c k Hi Hc) as [hc Hhc].
    case_decide as Hcur.
    + exfalso. pose proof (inv_live _ _ _ Hi Hhc) as Hl.
      destruct (lo_idle _ _ Hl) as (_ & _ & Hst).
      { rewrite (view_split _ _ _ _ Hc). simpl. unfold i_of.
        rewrite bool_decide_true by congruence. simpl. lia. }
      rewrite Hhc in Hrun. simpl in Hrun. destruct Hst as [Hst|Hst]; [|congruence].
      destruct (on_cpu hc) eqn:Hoc.
      * destruct (lo_ready _ _ Hl Hst Hoc) as [Hz _]. revert Hz.
        rewrite (view_split _ _ _ _ Hc). simpl. unfold i_of.
        rewrite bool_decide_true by congruence. simpl. lia.
      * pose proof (lo_standing _ _ Hl) as Hs. rewrite Hoc, (view_split _ _ _ _ Hc) in Hs.
        simpl in Hs. unfold r_of in Hs. rewrite bool_decide_true in Hs by done. simpl in Hs. lia.
    + destruct (idle_ok m c k i Hi Hc Hsf Hid Hcur) as (h & Hh & Hst & Hoff & Hp & _).
      destruct (switch_to_next_inv m c k [] i Hi Hc Hsf) as (m' & Hm' & Hi'); [by exists h; eauto 10|].
      exists m'. split; [|done]. rewrite <- Hm'. f_equal; [|by rewrite bool_decide_false].
      unfold set_runq. rewrite <- Hrq. by destruct k.
  - destruct (queued_head_ok m c k next rest Hi Hc Hsf Hrq) as (h & Hh & Hst & Hoff & Hp & Hne & Hvi).
    apply switch_to_next_inv; auto. exists h. eauto 10.
Qed.

(** The thread a core is switching away from: live, off every other core. *)
Lemma departed_live {W} (m : Machine W) c k prev :
  inv m -> cpus m !! c = Some k -> switched_from k = Some prev ->
  exists h, threads m !! prev = Some h /\ live_ok h (view (cpus m) prev) /\ on_cpu h = true /\
    vr (view (cpus m) prev) = 0%nat /\ vd (view (cpus m) prev) = 1%nat /\ d_of prev k = 1%nat /\
    current k <> prev.
Proof.
  intros Hi Hc Hsf. pose proof (inv_threads m Hi prev) as Ht.
  assert (Hd : d_of prev k = 1%nat) by (unfold d_of; by rewrite bool_decide_true).
  pose proof (view_split _ _ _ prev Hc) as Hv.
  assert (1 <= vd (view (cpus m) prev))%nat as H1 by (rewrite Hv; simpl; lia).
  destruct (threads m !! prev) as [h|] eqn:Hh; [|destruct Ht as (_ & _ & ? & _); lia].
  exists h. simpl in Ht. pose proof (lo_standing _ _ Ht) as Hs.
  destruct (on_cpu h); simpl in Hs; [|lia]. split_and!; try done; try lia.
  intros Hcur. rewrite Hv in Hs. simpl in Hs. unfold r_of in Hs.
  rewrite bool_decide_true in Hs by done. simpl in Hs. lia.
Qed.

(** Clearing [switched_from] in a core's view. *)
Definition settle (k : PerCpu) : PerCpu :=
  MkCpu (current k) (idle k) None (runq k) (inbox k) (steal_request k).

Lemma core_view_settle k prev u :
  switched_from k = Some prev -> u <> prev -> core_view u (settle k) = core_view u k.
Proof.
  intros Hsf Hu. unfold core_view, a_of, o_of, q_of, r_of, d_of, i_of. simpl. rewrite Hsf.
  rewrite (bool_decide_false (Some prev = _)) by congruence. done.
Qed.

Lemma cleared_ok {W} (h : Handshake W) k prev w :
  live_ok h (vadd (core_view prev k) w) -> on_cpu h = true -> wake_pending h = false ->
  (r_of prev k + vr w = 0)%nat -> (d_of prev k + vd w = 1)%nat -> d_of prev k = 1%nat ->
  live_ok (MkHandshake (state h) false (wake_pending h) (wait_on h) (ipc_served h) (ipc_aborted h))
          (vadd (core_view prev (settle k)) w).
Proof.
  intros [Q S P Wt D R Rd I E] Hoc Hp Hr Hd Hd1.
  unfold vadd, core_view, a_of, o_of, q_of, r_of, d_of, i_of, queued_in in *. simpl in *.
  rewrite Hoc, Hp in *. split; unfold queued_in; simpl; try done.
  - lia.
  - intros Hvi. destruct (I Hvi) as (? & ? & ?). split_and!; [done| |done].
    nia.
Qed.

Lemma finish_switch_inv {W} (m : Machine W) c k :
  inv m -> cpus m !! c = Some k -> exists m', finish_switch m c = Done m' /\ inv m'.
Proof.
  intros Hi Hc. unfold finish_switch. rewrite Hc.
  destruct (switched_from k) as [prev|] eqn:Hsf; [|by exists m].
  destruct (departed_live m c k prev Hi Hc Hsf) as (h & Hh & Hl & Hoc & Hvr & Hvd & Hd & Hne).
  pose proof (inv_cpu _ _ _ Hi Hc) as Hk. pose proof (view_split _ _ _ prev Hc) as Hv.
  assert (Hzero : d_of prev (settle k) = 0%nat) by (unfold d_of; by rewrite bool_decide_false).
  rewrite Hh. unfold Handshake.finish_switch. rewrite Hv in Hvr, Hvd. simpl in Hvr, Hvd.
  assert (Hmute : state h <> Ready -> state h <> Running ->
    vq (view (cpus m) prev) = 0%nat /\ vi (view (cpus m) prev) = 0%nat).
  { intros Hr Hrun. pose proof (lo_queued _ _ Hl) as Hq.
    destruct (decide (vi (view (cpus m) prev) = 0%nat)) as [Hz|Hz];
      [|destruct (lo_idle _ _ Hl Hz) as (_ & _ & [?|?]); congruence].
    unfold queued_in in Hq. rewrite Hz in Hq. split; [|done]. by destruct (state h). }
  case_decide as Hfin; [|destruct (wake_pending h) eqn:Hp]; simpl; eexists; (split; [done|]).
  - destruct Hmute as [Hq Hi0]; try congruence. rewrite Hv in Hq, Hi0. simpl in Hq, Hi0.
    apply (inv_update1 m _ c k (settle k) prev Hi Hc Hk).
    + intros u Hu. rewrite lookup_delete_ne by done. split; [done|by apply (core_view_settle _ prev)].
    + rewrite lookup_delete_eq. simpl. change (r_of prev (settle k)) with (r_of prev k).
      change (q_of prev (settle k)) with (q_of prev k). change (i_of prev (settle k)) with (i_of prev k). lia.
  - destruct (lo_pending _ _ Hl Hp) as [Hb _].
    destruct Hmute as [Hq Hi0]; try congruence. rewrite Hv in Hq, Hi0. simpl in Hq, Hi0.
    apply (inv_update1 m _ c k (runq_push prev (settle k)) prev Hi Hc Hk).
    + intros u Hu. rewrite lookup_insert_ne by done. split; [done|].
      rewrite <- (core_view_settle k prev u Hsf Hu). clear -Hu. core_view_tac.
    + rewrite lookup_insert_eq. apply live_ok_ready; try done; simpl; unfold q_of; simpl;
        rewrite ?occ_app, ?occ_cons, ?bool_decide_true, ?occ_nil by done; simpl;
        unfold q_of, r_of, i_of, d_of in *; simpl in *; try lia.
  - apply (inv_update1 m _ c k (settle k) prev Hi Hc Hk).
    + intros u Hu. rewrite lookup_insert_ne by done. split; [done|by apply (core_view_settle _ prev)].
    + rewrite lookup_insert_eq. simpl. rewrite Hv in Hl.
      pose proof (cleared_ok h k prev _ Hl Hoc Hp) as Hcl. rewrite Hp in Hcl. apply Hcl; auto; lia.
Qed.

(** Moving queue entries about without losing any. *)
Lemma requeue_inv {W} (m : Machine W) c k k' :
  inv m -> cpus m !! c = Some k -> cpu_ok (length (cpus m)) k' ->
  (forall u, q_of u k' = q_of u k) -> (forall u, (occ u (runq k) <= occ u (runq k'))%nat) ->
  current k' = current k -> idle k' = idle k -> switched_from k' = switched_from k ->
  inv (set_cpu m c k').
Proof.
  intros Hi Hc Hk' Hq Hrq Hcur Hid Hsf. split.
  2: { simpl. rewrite length_insert. by apply Forall_insert; [apply (inv_cpus m Hi)|]. }
  simpl. intros u. pose proof (inv_threads m Hi u) as Hu.
  rewrite (view_insert _ _ k) by done. rewrite (view_split _ _ _ _ Hc) in Hu.
  specialize (Hq u). specialize (Hrq u).
  assert (Hv : forall w, exists x, (o_of u k + vo w <= x)%nat /\
    vadd (core_view u k') w = MkView (q_of u k + vq w) (r_of u k + vr w) (d_of u k + vd w) x
                                     (i_of u k + vi w) (a_of u k + va w)).
  { intros w. eexists. split; [|unfold vadd, core_view; simpl; unfold a_of, i_of, r_of, d_of;
      rewrite Hq, Hcur, Hid, Hsf; reflexivity]. simpl. unfold o_of, d_of. rewrite Hsf. nia. }
  destruct (Hv (view (delete c (cpus m)) u)) as (x & Hx & ->).
  destruct (threads m !! u) as [h|]; simpl in Hu |- *; [|done].
  destruct Hu as [Q S P Wt D R Rd I E]. split; try done.
  simpl in *. intros Hst Hoc. destruct (Rd Hst Hoc). split; [done|lia].
Qed.

Lemma drain_loop_spec fuel k :
  fuel = length (inbox k) ->
  drain_loop fuel k =
  MkCpu (current k) (idle k) (switched_from k) (runq k ++ inbox k) [] (steal_request k).
Proof.
  revert k. induction fuel as [|fuel IH]; intros k Hf.
  - destruct k as [cur id sf rq [|x ib] st]; [|done]. simpl. by rewrite app_nil_r.
  - destruct k as [cur id sf rq [|x ib] st]; [done|]. simpl in *. rewrite IH by (simpl; lia).
    simpl. by rewrite <- app_assoc.
Qed.

Lemma drain_inbox_inv {W} (m : Machine W) c m' : inv m -> drain_inbox m c = Done m' -> inv m'.
Proof.
  intros Hi. unfold drain_inbox. destruct (cpus m !! c) as [k|] eqn:Hc; [|done].
  rewrite drain_loop_spec by done. intros [= <-].
  apply (requeue_inv m c k); try done; [apply (inv_cpu _ _ _ Hi Hc)| |];
    intros u; unfold q_of; simpl; rewrite occ_app, ?occ_nil; lia.
Qed.

(** A new value of the steal slot changes nothing a thread can see. *)
Lemma slot_inv {W} (m : Machine W) c k s :
  inv m -> cpus m !! c = Some k ->
  (StealSlot.inner s = 0 \/ 1 <= StealSlot.inner s <= Z.of_nat (length (cpus m))) ->
  inv (set_cpu m c (MkCpu (current k) (idle k) (switched_from k) (runq k) (inbox k) s)).
Proof.
  intros Hi Hc Hs. apply (requeue_inv m c k); try done.
  split; [|exact Hs]. apply (inv_cpu _ _ _ Hi Hc).
Qed.

(** Handing the head of a settled core's run queue to another core's inbox. *)
Lemma hand_over_inv {W} (m : Machine W) c k s t rest r kr :
  inv m -> cpus m !! c = Some k -> switched_from k = None -> runq k = t :: rest ->
  (StealSlot.inner s = 0 \/ 1 <= StealSlot.inner s <= Z.of_nat (length (cpus m))) ->
  let m1 := set_cpu m c (MkCpu (current k) (idle k) (switched_from k) rest (inbox k) s) in
  cpus m1 !! r = Some kr -> inv (set_cpu m1 r (inbox_push t kr)).
Proof.
  intros Hi Hc Hsf Hrq Hs m1 Hr.
  set (k1 := MkCpu (current k) (idle k) (switched_from k) rest (inbox k) s) in *.
  destruct (queued_head_ok m c k t rest Hi Hc Hsf Hrq) as (h & Hh & Hst & Hoff & Hp & Hne & Hvi).
  pose proof (inv_live _ _ _ Hi Hh) as Hl.
  assert (Hk1 : cpu_ok (length (cpus m)) k1) by (split; [apply (inv_cpu _ _ _ Hi Hc)|exact Hs]).
  assert (Hcpus : Forall (cpu_ok (length (cpus m))) (cpus m1)).
  { apply Forall_insert; [apply (inv_cpus m Hi)|done]. }
  apply (inv_update m (threads m) _ [t] Hi).
  - simpl. rewrite !length_insert. apply Forall_insert; [done|].
    eapply Forall_lookup_1 in Hcpus; [|exact Hr]. exact Hcpus.
  - intros u Hu. rewrite list_elem_of_singleton in Hu. split; [done|]. simpl.
    rewrite (view_same _ r kr); [|done|unfold inbox_push; clear -Hu; core_view_tac].
    apply (view_same _ c k); [done|]. unfold k1. clear -Hrq Hu.
    unfold core_view, a_of, o_of, q_of, r_of, d_of, i_of. simpl.
    rewrite Hrq, occ_cons, (bool_decide_false (t = u)) by congruence. done.
  - intros u ->%list_elem_of_singleton. rewrite Hh. simpl.
    pose proof (lo_queued _ _ Hl) as Hq. pose proof (lo_standing _ _ Hl) as Hsd.
    rewrite Hoff in Hsd. unfold queued_in in Hq. rewrite Hvi, Hst in Hq.
    rewrite (view_insert _ _ kr) by done. pose proof (view_split (cpus m1) r kr t Hr) as Hv1.
    unfold m1 in Hv1. simpl in Hv1. rewrite (view_insert _ _ k) in Hv1 by done.
    rewrite (view_split _ _ _ _ Hc) in Hq, Hsd, Hvi.
    assert (Hqk : q_of t k = S (q_of t k1)).
    { unfold q_of, k1. simpl. rewrite Hrq, occ_cons, bool_decide_true by done. simpl. lia. }
    unfold vadd in Hv1. injection Hv1 as Hq1 Hr1 Hd1 _ Hi1 _. simpl in *.
    change (r_of t k1) with (r_of t k) in *. change (d_of t k1) with (d_of t k) in *.
    change (i_of t k1) with (i_of t k) in *.
    apply live_ok_ready; try done; simpl; unfold q_of; simpl;
      rewrite ?occ_app, ?occ_cons, ?bool_decide_true, ?occ_nil by done; simpl;
      unfold q_of, r_of, i_of, d_of in *; simpl in *; lia.
Qed.

Lemma serve_steal_inv {W} (m : Machine W) c :
  inv m -> settled m c -> exists m', serve_steal_request m c = Done m' /\ inv m'.
Proof.
  intros Hi (k & Hc & Hsf). unfold serve_steal_request. rewrite Hc.
  destruct (inv_cpu _ _ _ Hi Hc) as [_ Hslot].
  unfold StealSlot.take. simpl. unfold StealSlot.EMPTY.
  destruct (Z.eqb_spec (StealSlot.inner (steal_request k)) 0) as [Hz|Hz].
  { eexists. split; [done|]. apply slot_inv; [done|done|by left]. }
  destruct (runq k) as [|t rest] eqn:Hrq.
  { eexists. split; [done|]. rewrite <- Hrq. apply slot_inv; [done|done|by left]. }
  destruct Hslot as [Hs|Hs]; [done|].
  destruct (lookup_lt_is_Some_2 (<[c := MkCpu (current k) (idle k) (switched_from k) rest (inbox k)
      (StealSlot.MkSlot 0)]> (cpus m)) (Z.to_nat (StealSlot.inner (steal_request k) - 1)))
    as [kr Hkr]; [rewrite length_insert; lia|].
  rewrite Hkr. eexists. split; [done|]. eapply hand_over_inv; eauto.
Qed.

Lemma initiate_steal_inv {W} (m : Machine W) c m' :
  inv m -> try_initiate_steal m c = Done m' -> inv m'.
Proof.
  intros Hi. unfold try_initiate_steal. destruct (cpus m !! c) as [k|] eqn:Hc; [|done].
  destruct (0 <? runnable_len k)%nat; [by intros [= <-]|].
  destruct (pick_victim m c) as [v|]; [|by intros [= <-]].
  destruct (cpus m !! v) as [kv|] eqn:Hv; [|done]. intros [= <-]. apply slot_inv; try done.
  apply lookup_lt_Some in Hc. unfold StealSlot.claim, checked_add.
  case_decide; [|apply (inv_cpu _ _ _ Hi Hv)].
  destruct (StealSlot.inner (steal_request kv) =? StealSlot.EMPTY); [simpl; lia|].
  apply (inv_cpu _ _ _ Hi Hv).
Qed.

Lemma fresh_nowhere {W} (m : Machine W) t :
  inv m -> threads m !! t = None -> nowhere (view (cpus m) t).
Proof. intros Hi Ht. pose proof (inv_threads m Hi t) as H. by rewrite Ht in H. Qed.

Lemma spawn_inv {W} (m : Machine W) here target t m' :
  inv m -> threads m !! t = None -> spawn_on m here target t = Done m' -> inv m'.
Proof.
  intros Hi Ht Hs. apply (place_on_inv m _ _ _ t ready) in Hs; auto using fresh_nowhere.
  - apply lookup_insert_eq.
  - intros u Hu. by rewrite lookup_insert_ne.
Qed.

Lemma retype_inv {W} (m : Machine W) t :
  inv m -> threads m !! t = None -> inv (set_thread m t embryo).
Proof.
  intros Hi Ht. apply inv_set_thread; [done|].
  destruct (fresh_nowhere m t Hi Ht) as (Hq & Hr & Hd & Hid).
  split; unfold queued_in; rewrite ?Hq, ?Hr, ?Hd, ?Hid; simpl; congruence || done.
Qed.

Lemma start_inv {W} (m : Machine W) here target t m' :
  inv m -> start_thread_control_block m here target t = Ok (Done m') -> inv m'.
Proof.
  intros Hi. unfold start_thread_control_block. destruct (threads m !! t) as [h|] eqn:Ht; [|done].
  case_decide as He; [done|]. intros [= Hs]. pose proof (inv_live _ _ _ Hi Ht) as Hl.
  assert (state h = Embryo) as Hst by (destruct (decide (state h = Embryo)); [done|contradiction]).
  pose proof (lo_embryo _ _ Hl Hst) as Hoff.
  apply (place_on_inv m _ _ _ t (set_state h Ready)) in Hs; auto.
  - apply (live_nowhere h); congruence.
  - apply lookup_insert_eq.
  - simpl. destruct (wake_pending h) eqn:Hp; [|done]. destruct (lo_pending _ _ Hl Hp). congruence.
  - intros u Hu. by rewrite lookup_insert_ne.
Qed.

(** A thread leaves the table or is ended in place only when nothing holds it. *)
Lemma reap_inv {W} (m : Machine W) t : inv m -> inv (reap_resident m t).
Proof.
  intros Hi. unfold reap_resident. destruct (threads m !! t) as [h|] eqn:Ht; [|done].
  pose proof (inv_live _ _ _ Hi Ht) as Hl.
  assert (Hn : state h <> Ready -> state h <> Running -> on_cpu h = false -> nowhere (view (cpus m) t))
    by (intros; by apply (live_nowhere h)).
  destruct (region_reap_verdict (state h) (on_cpu h)) eqn:Hv; try done.
  - assert (state h <> Ready /\ state h <> Running /\ on_cpu h = false) as (H1 & H2 & H3).
    { unfold region_reap_verdict in Hv. destruct (state h), (on_cpu h); try done. }
    apply (inv_update m _ _ [t] Hi); [apply (inv_cpus m Hi)| |].
    + intros u Hu. rewrite list_elem_of_singleton in Hu. by rewrite lookup_delete_ne.
    + intros u ->%list_elem_of_singleton. rewrite lookup_delete_eq. by apply Hn.
  - assert (state h = Blocked /\ on_cpu h = false) as (H1 & H2).
    { unfold region_reap_verdict in Hv. destruct (state h), (on_cpu h); try done. }
    destruct Hn as (Hq & Hr & Hd & Hid); try congruence. apply inv_set_thread; [done|].
    assert (wake_pending h = false) as Hp.
    { destruct (wake_pending h) eqn:Hp; [|done]. destruct (lo_pending _ _ Hl Hp). congruence. }
    split; unfold queued_in; simpl; rewrite ?Hq, ?Hr, ?Hd, ?Hid, ?H2, ?Hp; done.
Qed.

Lemma online_inv {W} (m : Machine W) id :
  inv m -> threads m !! id = None -> inv (adopt_secondary_idle m id).
Proof.
  intros Hi Ht. set (k := MkCpu id (Some id) None [] [] StealSlot.new).
  assert (Hv : forall u, view (cpus m ++ [k]) u = vadd (view (cpus m) u) (core_view u k)).
  { intros u. Transparent view. unfold view, vadd, core_view. simpl.
    by rewrite !sum_list_with_app; simpl; rewrite !Nat.add_0_r. Opaque view. }
  apply (inv_update m _ _ [id] Hi).
  - rewrite length_app. apply Forall_app. split.
    + eapply Forall_impl; [apply (inv_cpus m Hi)|]. intros x [Hx Hs]. split; [done|].
      destruct Hs; [by left|right; simpl; lia].
    + apply Forall_singleton. split; [by exists id|by left].
  - intros u Hu. rewrite list_elem_of_singleton in Hu. rewrite lookup_insert_ne by done.
    split; [done|]. rewrite Hv. unfold vadd, core_view, a_of, o_of, q_of, r_of, d_of, i_of. simpl.
    rewrite !occ_nil, (bool_decide_false (id = u)), (bool_decide_false (Some id = _)) by congruence.
    simpl. destruct (view (cpus m) u). simpl. by rewrite !Nat.add_0_r.
  - intros u ->%list_elem_of_singleton. rewrite lookup_insert_eq, Hv. simpl.
    destruct (fresh_nowhere m id Hi Ht) as (Hq & Hr & Hd & Hid).
    pose proof (view_not_idle (cpus m) id Hid) as Ha.
    split; unfold queued_in, vadd, core_view, a_of, o_of, q_of, r_of, d_of, i_of; simpl;
      rewrite ?Hq, ?Hr, ?Hd, ?Hid, ?Ha, ?occ_nil;
      rewrite ?(bool_decide_true (id = id)), ?(bool_decide_true (Some id = Some id)) by done; simpl; try done.
    intros _. split_and!; [done|lia|by right].
Qed.

Lemma init_inv {W} (b i : ThreadId) : b <> i -> inv (init (W:=W) b i).
Proof.
  intros Hne. set (k := MkCpu b (Some i) None [] [] StealSlot.new).
  assert (Hv : forall u, view [k] u = core_view u k).
  { intros u. Transparent view. unfold view, core_view. simpl. by rewrite !Nat.add_0_r. Opaque view. }
  split; [|apply Forall_singleton; split; [by exists i|by left]].
  intros u. simpl. fold k. rewrite Hv. unfold core_view, a_of, o_of, q_of, r_of, d_of, i_of. simpl.
  rewrite !occ_nil. destruct (decide (u = b)) as [->|Hb].
  - rewrite lookup_insert_eq, (bool_decide_true (b = b)), (bool_decide_false (Some i = _)) by congruence.
    split; unfold queued_in; simpl; done.
  - rewrite lookup_insert_ne, (bool_decide_false (b = u)) by done. destruct (decide (u = i)) as [->|Hu].
    + rewrite lookup_insert_eq, (bool_decide_true (Some i = _)) by done.
      split; unfold queued_in; simpl; try done. intros _. split_and!; [done|lia|by left].
    + by rewrite lookup_insert_ne, lookup_empty, (bool_decide_false (Some i = _)) by congruence.
Qed.

Lemma flags_serve {W} (h : Handshake W) : same_but_flags h (serve h).
Proof. done. Qed.
Lemma flags_abort {W} (h : Handshake W) : same_but_flags h (abort h).
Proof. done. Qed.
Lemma flags_id {W} (h : Handshake W) : same_but_flags h h.
Proof. done. Qed.

Lemma deliver_id {W} (m : Machine W) t : deliver m t (fun h => h) = m.
Proof.
  unfold deliver. destruct (threads m !! t) eqn:Ht; [|done].
  unfold set_thread. rewrite insert_id by done. by destruct m.
Qed.

Lemma depart_inv {W} (m : Machine W) c t h s m' :
  inv m -> runs m c t -> threads m !! t = Some h -> state h = Running ->
  depart m c s = Done m' -> inv m'.
Proof.
  intros Hi Hr Hh Hst. destruct (runs_live m c t Hi Hr) as (h0 & k & H0 & Hk & Hcur & Hl & _ & _ & _ & Hcpu).
  assert (h0 = h) as -> by congruence. unfold depart. rewrite Hk, Hcur, Hh. intros [= <-].
  assert (wake_pending h = false) as Hp.
  { destruct (wake_pending h) eqn:Hp; [|done]. destruct (lo_pending _ _ Hl Hp). congruence. }
  apply (set_running_state_inv m c t h); auto; destruct s as [[w|]|]; simpl; auto.
Qed.

Lemma step_inv {W} (m m' : Machine W) : inv m -> step m m' -> inv m'.
Proof.
  intros Hi Hst. destruct Hst as
    [c m' Hs Hd|c m' Hd|c t h w m' Hr Hh Ha Hd|c t m' Hd|c t m' Hd|c t m' Hd|c t m' Hd
    |c t h Hr Hh Hs|c t b m' Hr Hd|c t h s m' Hr Hh Hs Hd|c t h Hr Hh Hs|here target t m' Ht Hd|t Ht
    |here target t m' Hd|c m' Hd|c m' Hs Hd|c m' Hd|t|id Ht].
  - destruct (schedule_inv m c Hi Hs) as (m1 & H1 & ?). congruence.
  - destruct (cpus m !! c) as [k|] eqn:Hc; [|by unfold finish_switch in Hd; rewrite Hc in Hd].
    destruct (finish_switch_inv m c k Hi Hc) as (m1 & H1 & ?). congruence.
  - destruct (runs_live m c t Hi Hr) as (h0 & k & H0 & Hk & Hcur & Hl & _ & _ & _ & Hcpu).
    assert (h0 = h) as -> by congruence. unfold park_current in Hd. rewrite Hk, Hcur, Hh in Hd.
    unfold park in Hd. case_decide as Hrun; [|done]. injection Hd as <-.
    assert (wake_pending h = false) as Hp.
    { destruct (wake_pending h) eqn:Hp; [|done]. destruct (lo_pending _ _ Hl Hp). congruence. }
    apply (set_running_state_inv m c t h); auto 10.
  - apply (wake_inv m c t (fun h => h)); [done|apply flags_id|by rewrite deliver_id].
  - apply (wake_inv m c t serve); [done|apply flags_serve|done].
  - apply (wake_inv m c t abort); [done|apply flags_abort|done].
  - apply (wake_load_aware_inv m c t serve); [done|apply flags_serve|done].
  - unfold set_ipc_aborted, deliver. rewrite Hh. apply inv_set_thread; [done|].
    apply (live_ok_flags h); [done|congruence|]. by apply inv_live.
  - destruct (runs_live m c t Hi Hr) as (h & k & Hh & Hk & Hcur & Hl & _ & _ & _ & Hcpu).
    unfold take_ipc_aborted in Hd. rewrite Hk in Hd. simpl in Hd. rewrite Hcur, Hh in Hd.
    injection Hd as <- <-. apply inv_set_thread; [done|]. apply (live_ok_flags h); [done| |done].
    unfold is_delivered. simpl. rewrite orb_false_r. intros Hb Hsv.
    apply (lo_delivered _ _ Hl Hb). unfold is_delivered. by rewrite Hsv.
  - eauto using depart_inv.
  - unfold finish_killed_current, deliver. rewrite Hh.
    apply (depart_inv m c t h None _ Hi Hr Hh Hs).
    destruct Hr as (k & Hk & _ & Hcur & _). unfold depart. by rewrite Hk, Hcur, Hh.
  - eauto using spawn_inv.
  - by apply retype_inv.
  - eauto using start_inv.
  - eauto using drain_inbox_inv.
  - destruct (serve_steal_inv m c Hi Hs) as (m1 & H1 & ?). congruence.
  - eauto using initiate_steal_inv.
  - by apply reap_inv.
  - by apply online_inv.
Qed.

Lemma reachable_inv {W} (m : Machine W) : reachable m -> inv m.
Proof.
  intros (b & i & Hne & Hst). eapply steps_invariant; [exact step_inv|exact Hst|by apply init_inv].
Qed.

(** ** What the invariant gives *)

Definition stands (k : PerCpu) (t : ThreadId) : Prop := current k = t \/ switched_from k = Some t.

Lemma stands_counts k t : stands k t -> (1 <= r_of t k + d_of t k)%nat.
Proof.
  unfold r_of, d_of. intros [H|H]; rewrite (bool_decide_true _ H); simpl; lia.
Qed.

Lemma lookup_delete_other {A} (l : list A) c1 c2 x :
  c1 <> c2 -> l !! c2 = Some x -> exists c, delete c1 l !! c = Some x.
Proof.
  intros Hne Hx. destruct (decide (c2 < c1)%nat).
  - exists c2. by rewrite list_lookup_delete_lt.
  - exists (c2 - 1)%nat. rewrite list_lookup_delete_ge by lia. by replace (S (c2 - 1)) with c2 by lia.
Qed.

Lemma two_cores_count l c1 c2 k1 k2 t :
  l !! c1 = Some k1 -> l !! c2 = Some k2 -> c1 <> c2 -> stands k1 t -> stands k2 t ->
  (2 <= vr (view l t) + vd (view l t))%nat.
Proof.
  intros H1 H2 Hne Hs1%stands_counts Hs2%stands_counts.
  destruct (lookup_delete_other l c1 c2 k2 Hne H2) as [c Hc].
  rewrite (view_split l c1 k1 t H1), (view_split _ c k2 t Hc). simpl. lia.
Qed.

(** C2: two cores are never in one thread. In every reachable state of the
    scheduler, however the cores' critical sections interleave, a thread is
    current on, or still being switched away from by, at most one core, and
    never both on the same core. *)
Theorem one_core_per_thread {W} (m : Machine W) c1 c2 k1 k2 t :
  reachable m -> cpus m !! c1 = Some k1 -> cpus m !! c2 = Some k2 ->
  stands k1 t -> stands k2 t -> c1 = c2 /\ ~ (current k1 = t /\ switched_from k1 = Some t).
Proof.
  intros Hi%reachable_inv H1 H2 Hs1 Hs2.
  assert (Hle : (vr (view (cpus m) t) + vd (view (cpus m) t) <= 1)%nat).
  { pose proof (inv_threads m Hi t) as Ht. destruct (threads m !! t) as [h|]; simpl in Ht; [|lia].
    pose proof (lo_standing _ _ Ht). destruct (on_cpu h); simpl in *; lia. }
  split.
  - destruct (decide (c1 = c2)) as [|Hne]; [done|].
    pose proof (two_cores_count _ _ _ _ _ t H1 H2 Hne Hs1 Hs2). lia.
  - intros [Hc Hd]. rewrite (view_split _ _ _ t H1) in Hle. simpl in Hle.
    unfold r_of, d_of in Hle. rewrite (bool_decide_true _ Hc), (bool_decide_true _ Hd) in Hle.
    simpl in Hle. lia.
Qed.

(** Every queue of the machine, end to end. *)
Definition all_queues (l : list PerCpu) : list ThreadId :=
  flat_map (fun k => runq k ++ inbox k) l.

Lemma occ_all_queues l t : occ t (all_queues l) = vq (view l t).
Proof.
  Transparent view. unfold view. simpl. Opaque view.
  induction l as [|k l IH]; simpl; [done|]. rewrite !occ_app, IH. unfold q_of. lia.
Qed.

Lemma not_idle_vi l t : Forall (fun k => idle k <> Some t) l -> vi (view l t) = 0%nat.
Proof.
  Transparent view. unfold view. simpl. Opaque view.
  induction 1 as [|k l Hk _ IH]; simpl; [done|]. unfold i_of at 1. by rewrite bool_decide_false.
Qed.

(** A thread is in a run queue or a migration inbox exactly while it is
    [Ready], and then in exactly one place, exactly once. (Idle threads are
    outside the queues.) *)
Theorem ready_thread_queued_once {W} (m : Machine W) t h :
  reachable m -> threads m !! t = Some h -> Forall (fun k => idle k <> Some t) (cpus m) ->
  occ t (all_queues (cpus m)) = if decide (state h = Ready) then 1%nat else 0%nat.
Proof.
  intros Hi%reachable_inv Ht Hid. pose proof (inv_live _ _ _ Hi Ht) as Hl.
  rewrite occ_all_queues, (lo_queued _ _ Hl). unfold queued_in. rewrite (not_idle_vi _ _ Hid).
  by destruct (state h).
Qed.

(** A scheduler entry never fails. On a core that is not mid-switch,
    [schedule] returns: it never pops its own current thread, never switches
    into a thread that still stands on a core or is neither ready nor idle,
    never runs out of threads; and the [finish_switch] that follows returns. *)
Theorem schedule_never_panics {W} (m : Machine W) c :
  reachable m -> settled m c ->
  exists m1 m2, schedule m c = Done m1 /\ finish_switch m1 c = Done m2.
Proof.
  intros Hi%reachable_inv Hs. destruct (schedule_inv m c Hi Hs) as (m1 & H1 & Hi1).
  assert (exists k, cpus m1 !! c = Some k) as [k Hk].
  { destruct Hs as (k0 & Hk0 & _). apply lookup_lt_Some in Hk0. apply lookup_lt_is_Some_2.
    unfold schedule in H1. destruct (cpus m !! c) as [k|]; [|done].
    enough (length (cpus m1) = length (cpus m)) by lia.
    assert (Hsw : forall k r n m2, switch_to_next m c k r n = Done m2 ->
      length (cpus m2) = length (cpus m)).
    { clear. intros k r n m2. unfold switch_to_next. case_decide; [done|].
      destruct (if r && _ then _ else _) as [[ths q]|]; [|done]. simpl.
      destruct (ths !! n) as [h|]; [|done]. destruct (switch_in h); [|done].
      intros [= <-]. simpl. by rewrite length_insert. }
    destruct (runq k); [|by eapply Hsw]. case_bool_decide; [by simplify_eq|].
    destruct (idle k); [|done]. case_decide; [done|by eapply Hsw]. }
  destruct (finish_switch_inv m1 c k Hi1 Hk) as (m2 & H2 & _). eauto.
Qed.

Lemma view_standing_core l t :
  (1 <= vr (view l t) + vd (view l t))%nat -> exists c k, l !! c = Some k /\ stands k t.
Proof.
  Transparent view. unfold view. simpl. Opaque view.
  induction l as [|k l IH]; simpl; [lia|]. intros Hl.
  destruct (decide (r_of t k + d_of t k = 0)%nat) as [Hz|Hz].
  - destruct IH as (c & k' & ? & ?); [lia|]. by exists (S c), k'.
  - exists 0%nat, k. split; [done|]. unfold r_of, d_of, stands in *.
    repeat case_bool_decide; simpl in *; auto; lia.
Qed.

(** [t] is runnable, in core [c]'s run queue. *)
Definition requeued {W} (m : Machine W) c t : Prop :=
  exists h k, threads m !! t = Some h /\ state h = Ready /\ cpus m !! c = Some k /\ t ∈ runq k.

Lemma finish_completes_wake {W} (m : Machine W) c k t h :
  cpus m !! c = Some k -> switched_from k = Some t -> threads m !! t = Some h ->
  wake_pending h = true -> state h <> Finished ->
  exists m', finish_switch m c = Done m' /\ requeued m' c t.
Proof.
  intros Hc Hsf Hh Hp Hst. unfold finish_switch. rewrite Hc, Hsf, Hh.
  unfold Handshake.finish_switch. rewrite decide_False, Hp by done. eexists. split; [done|].
  eexists _, _. split; [apply lookup_insert_eq|]. split; [done|]. simpl.
  rewrite list_lookup_insert_eq by (by eapply lookup_lt_Some). split; [done|]. simpl. set_solver.
Qed.

(** A scheduler entry on a thread that is not running leaves it mid-switch. *)
Lemma schedule_leaves {W} (m : Machine W) c k h m1 :
  cpus m !! c = Some k -> threads m !! current k = Some h -> state h <> Running ->
  schedule m c = Done m1 ->
  threads m1 !! current k = Some h /\
  exists k1, cpus m1 !! c = Some k1 /\ switched_from k1 = Some (current k).
Proof.
  intros Hc Hh Hst. pose proof (lookup_lt_Some _ _ _ Hc) as Hlt.
  assert (Hsw : forall q n, switch_to_next m c (set_runq q k) false n = Done m1 ->
    threads m1 !! current k = Some h /\
    exists k1, cpus m1 !! c = Some k1 /\ switched_from k1 = Some (current k)).
  { intros q n. unfold switch_to_next. simpl. case_decide as Hn; [done|].
    destruct (threads m !! n) as [hn|]; [|done]. destruct (switch_in hn); [|done].
    intros [= <-]. simpl. rewrite lookup_insert_ne by done. split; [done|].
    eexists. split; [by apply list_lookup_insert_eq|done]. }
  unfold schedule. rewrite Hc, Hh. simpl. rewrite bool_decide_false by congruence.
  destruct (runq k) as [|n rest] eqn:Hrq; [|by apply Hsw].
  destruct (idle k); [|done]. case_decide; [done|]. intros H1. apply (Hsw (runq k) z).
  rewrite <- H1. unfold set_runq. by destruct k.
Qed.

(** C6: no wake-up is lost. Whenever a blocked thread has been served or
    aborted, some core still stands on its stack, and that core's own next
    steps, completing the switch under way and, if it has not yet left the
    thread, one scheduler entry, put the thread on its run queue as [Ready]. *)
Theorem no_wake_is_lost {W} (m : Machine W) t h :
  reachable m -> threads m !! t = Some h -> state h = Blocked -> is_delivered h = true ->
  exists c,
    (exists m2, finish_switch m c = Done m2 /\ requeued m2 c t) \/
    (exists m0 m1 m2, finish_switch m c = Done m0 /\ schedule m0 c = Done m1 /\
       finish_switch m1 c = Done m2 /\ requeued m2 c t).
Proof.
  intros Hi%reachable_inv Hh Hb Hd. pose proof (inv_live _ _ _ Hi Hh) as Hl.
  pose proof (lo_delivered _ _ Hl Hb Hd) as Hp. destruct (lo_pending _ _ Hl Hp) as [_ Hoc].
  destruct (view_standing_core (cpus m) t) as (c & k & Hc & Hs).
  { rewrite (lo_standing _ _ Hl), Hoc. simpl. lia. }
  exists c. destruct (decide (switched_from k = Some t)) as [Hsf|Hsf].
  { left. apply (finish_completes_wake m c k t h); congruence. }
  right. destruct Hs as [Hcur|]; [|done].
  destruct (finish_switch_inv m c k Hi Hc) as (m0 & H0 & Hi0).
  assert (threads m0 !! t = Some h /\ cpus m0 !! c = Some (settle k) \/
          threads m0 !! t = Some h /\ exists q, cpus m0 !! c = Some (set_runq q (settle k))) as Hm0.
  { pose proof (lookup_lt_Some _ _ _ Hc) as Hlt. unfold finish_switch in H0. rewrite Hc in H0.
    destruct (switched_from k) as [prev|] eqn:Hpk.
    - assert (prev <> t) by congruence.
      destruct (threads m !! prev) as [hp|].
      + destruct (Handshake.finish_switch hp) as [v h']. destruct v; injection H0 as <-; simpl;
          rewrite ?lookup_delete_ne, ?lookup_insert_ne, ?list_lookup_insert_eq by done; eauto.
      + injection H0 as <-. simpl. rewrite list_lookup_insert_eq by done. auto.
    - injection H0 as <-. left. split; [done|]. rewrite Hc. destruct k; simpl in *. by subst. }
  assert (exists k0, threads m0 !! t = Some h /\ cpus m0 !! c = Some k0 /\ current k0 = t /\
    switched_from k0 = None) as (k0 & Hh0 & Hk0 & Hcur0 & Hsf0).
  { destruct Hm0 as [[? ?] | [? [q ?]]]; eexists; split_and!; eauto. }
  destruct (schedule_inv m0 c Hi0) as (m1 & H1 & Hi1); [by exists k0|].
  destruct (schedule_leaves m0 c k0 h m1 Hk0) as (Hh1 & k1 & Hk1 & Hsf1); [congruence..|].
  destruct (finish_completes_wake m1 c k1 t h Hk1) as (m2 & H2 & Hr2); [congruence..|].
  by exists m0, m1, m2.
Qed.

(** ** Witnesses

    Core 0 boots thread 7 (idle thread 1), spawns thread 3 onto itself, parks
    thread 7 and serves it before the core has switched away. *)
Definition done_or {A} (d : A) (r : run A) : A := match r with Done a => a | Panicked => d end.

Definition demo0 : Machine Z := init 7 1.
Definition demo1 : Machine Z := done_or demo0 (spawn_on demo0 0 0 3).
Definition demo2 : Machine Z := done_or demo0 (park_current demo1 0 99).
Definition demo3 : Machine Z := done_or demo0 (wake (deliver demo2 7 serve) 0 7).

Lemma demo1_reachable : reachable demo1.
Proof.
  exists 7, 1. split; [done|]. eapply steps_step; [|apply steps_refl].
  apply (step_spawn _ 0 0 3); reflexivity.
Qed.

Lemma demo3_reachable : reachable demo3.
Proof.
  destruct demo1_reachable as (b & i & Hne & Hst). exists b, i. split; [done|].
  eapply steps_trans; [exact Hst|].
  eapply steps_step; [apply (step_park demo1 0 7 on_cpu_now 99 demo2)|].
  - eexists. split; [reflexivity|]. split_and!; [reflexivity..|discriminate].
  - reflexivity.
  - reflexivity.
  - reflexivity.
  - eapply steps_step; [apply (step_serve_wake demo2 0 7 demo3); reflexivity|]. apply steps_refl.
Qed.

Lemma one_core_per_thread_witness :
  exists k, cpus demo3 !! 0%nat = Some k /\ current k = 7 /\
    ~ (current k = 7 /\ switched_from k = Some 7).
Proof.
  eexists. split; [reflexivity|]. split; [reflexivity|].
  eapply (one_core_per_thread demo3 0 0 _ _ 7 demo3_reachable);
    [reflexivity|reflexivity|left; reflexivity|left; reflexivity].
Defined.

Lemma ready_thread_queued_once_witness : occ 3 (all_queues (cpus demo3)) = 1%nat.
Proof.
  apply (ready_thread_queued_once demo3 3 ready demo3_reachable); [reflexivity|].
  repeat constructor. discriminate.
Defined.

Lemma schedule_never_panics_witness :
  exists m1 m2, schedule demo3 0 = Done m1 /\ finish_switch m1 0 = Done m2.
Proof.
  apply (schedule_never_panics demo3 0 demo3_reachable). eexists. split; reflexivity.
Defined.

Lemma no_wake_is_lost_witness :
  exists c,
    (exists m2, finish_switch demo3 c = Done m2 /\ requeued m2 c 7) \/
    (exists m0 m1 m2, finish_switch demo3 c = Done m0 /\ schedule m0 c = Done m1 /\
       finish_switch m1 c = Done m2 /\ requeued m2 c 7).
Proof.
  apply (no_wake_is_lost demo3 7 (MkHandshake Blocked true true (Some 99) true false) demo3_reachable);
    reflexivity.
Defined.

End Scheduler.
