(* ===== verification/PageFrames.v ===== *)
(** * The physical frame allocator (crates/page_frames/src/lib.rs)

    A bitmap with one bit per frame, set when the frame is used. Indexing the
    bitmap out of range, a failed [assert!] and a failed [expect] are
    [Panicked]. *)

From S2P Require Import Prelude.
Local Open Scope Z_scope.

Module PageFrames.

Definition FRAME_SIZE : Z := 4096.

Record PageFrame := MkFrame { addr : Z }.

#[export] Instance PageFrame_eq_dec : EqDecision PageFrame.
Proof. solve_decision. Defined.

Definition from_addr (a : Z) : run PageFrame :=
  if is_multiple_of a FRAME_SIZE then Done (MkFrame a) else Panicked.

Definition containing (a : Z) : PageFrame := MkFrame (a - a mod FRAME_SIZE).

Record Stats := MkStats { stats_total : nat; stats_used : Z }.

Definition stats_free (s : Stats) : Z := Z.of_nat (stats_total s) - stats_used s.

Record PageFrameAllocator := MkAlloc {
  bitmap : list Z;
  base : Z;
  total : nat;
  used : Z;
  hint : nat }.

Definition bitmap_bytes (frames : nat) : nat := Z.to_nat (div_ceil (Z.of_nat frames) 8).

Definition page_frames_in (span : Z) : nat := Z.to_nat (span / FRAME_SIZE).

Definition new (base : Z) (total : nat) (bitmap : list Z) : run PageFrameAllocator :=
  if negb (is_multiple_of base FRAME_SIZE) then Panicked
  else if (length bitmap <? bitmap_bytes total)%nat then Panicked
  else Done (MkAlloc (replicate (length bitmap) 255) base total (Z.of_nat total) 0).

Definition stats (a : PageFrameAllocator) : Stats := MkStats (total a) (used a).

Definition get (bm : list Z) (i : nat) : run bool :=
  match bm !! (i / 8)%nat with
  | None => Panicked
  | Some byte => Done (negb (Z.land byte (Z.shiftl 1 (Z.of_nat (i mod 8))) =? 0))
  end.

Definition set (bm : list Z) (i : nat) (v : bool) : run (list Z) :=
  match bm !! (i / 8)%nat with
  | None => Panicked
  | Some byte =>
      let mask := Z.shiftl 1 (Z.of_nat (i mod 8)) in
      Done (<[(i / 8)%nat := if v then Z.lor byte mask else Z.land byte (not_w 8 mask)]> bm)
  end.

Definition index_of (a : PageFrameAllocator) (frame : PageFrame) : option nat :=
  if addr frame <? base a then None
  else let i := Z.to_nat ((addr frame - base a) / FRAME_SIZE) in
       if (i <? total a)%nat then Some i else None.

(** The range [lo..hi] as [(lo, hi)]. *)
Definition page_frame_range (a : PageFrameAllocator) (start size : Z) : nat * nat :=
  if (size =? 0) || (saturating_add 64 start size <=? base a) then (0%nat, 0%nat)
  else
    let first := Z.max start (base a) - base a in
    let last := saturating_sub (saturating_add 64 start size) (base a) in
    let lo := Z.to_nat (first / FRAME_SIZE) in
    let hi := Nat.min (Z.to_nat (div_ceil last FRAME_SIZE)) (total a) in
    if (hi <=? lo)%nat then (0%nat, 0%nat) else (lo, hi).

(** The loop of [mark_free] and [mark_used]: [v] is the value written. *)
Fixpoint mark_loop (v : bool) (l : list nat) (bm : list Z) (u : Z) : run (list Z * Z) :=
  match l with
  | [] => Done (bm, u)
  | i :: l' =>
      b ← get bm i;
      if bool_decide (b = v) then mark_loop v l' bm u
      else bm' ← set bm i v; mark_loop v l' bm' (if v then u + 1 else u - 1)
  end.

Definition mark_free (a : PageFrameAllocator) (start size : Z) : run PageFrameAllocator :=
  let '(lo, hi) := page_frame_range a start size in
  '(bm, u) ← mark_loop false (seq lo (hi - lo)) (bitmap a) (used a);
  Done (MkAlloc bm (base a) (total a) u 0).

Definition mark_used (a : PageFrameAllocator) (start size : Z) : run PageFrameAllocator :=
  let '(lo, hi) := page_frame_range a start size in
  '(bm, u) ← mark_loop true (seq lo (hi - lo)) (bitmap a) (used a);
  Done (MkAlloc bm (base a) (total a) u (hint a)).

Fixpoint find_free (bm : list Z) (l : list nat) : run (option nat) :=
  match l with
  | [] => Done None
  | i :: l' => b ← get bm i; if (b : bool) then find_free bm l' else Done (Some i)
  end.

Definition frame_at (a : PageFrameAllocator) (i : nat) : PageFrame :=
  MkFrame (base a + Z.of_nat i * FRAME_SIZE).

Definition alloc (a : PageFrameAllocator) : run (option PageFrame * PageFrameAllocator) :=
  r ← find_free (bitmap a) (seq (hint a) (total a - hint a) ++ seq 0 (hint a));
  match r with
  | None => Done (None, a)
  | Some i =>
      bm ← set (bitmap a) i true;
      Done (Some (frame_at a i), MkAlloc bm (base a) (total a) (used a + 1) (i + 1))
  end.

Fixpoint set_all (bm : list Z) (l : list nat) : run (list Z) :=
  match l with
  | [] => Done bm
  | j :: l' => bm' ← set bm j true; set_all bm' l'
  end.

(** The scan of [alloc_contiguous] from index [i] for [n] more frames. *)
Fixpoint scan_run (bm : list Z) (count : nat) (n i run_start run : nat) : Prelude.run (option nat) :=
  match n with
  | O => Done None
  | S n' =>
      b ← get bm i;
      if (b : bool) then scan_run bm count n' (S i) (i + 1) 0
      else if (run + 1 =? count)%nat then Done (Some run_start)
      else scan_run bm count n' (S i) run_start (run + 1)
  end.

Definition alloc_contiguous (a : PageFrameAllocator) (count : nat)
  : run (option PageFrame * PageFrameAllocator) :=
  if (count =? 0)%nat || (total a <? count)%nat then Done (None, a)
  else
    r ← scan_run (bitmap a) count (total a) 0 0 0;
    match r with
    | None => Done (None, a)
    | Some run_start =>
        bm ← set_all (bitmap a) (seq run_start count);
        Done (Some (frame_at a run_start),
              MkAlloc bm (base a) (total a) (used a + Z.of_nat count) (hint a))
    end.

Fixpoint largest_loop (bm : list Z) (n i best run : nat) : Prelude.run nat :=
  match n with
  | O => Done best
  | S n' =>
      b ← get bm i;
      if (b : bool) then largest_loop bm n' (S i) best 0
      else largest_loop bm n' (S i) (if (best <? run + 1)%nat then run + 1 else best)%nat (run + 1)
  end.

Definition largest_free_run (a : PageFrameAllocator) : run nat :=
  largest_loop (bitmap a) (total a) 0 0 0.

Definition free (a : PageFrameAllocator) (frame : PageFrame) : run PageFrameAllocator :=
  match index_of a frame with
  | None => Panicked
  | Some i =>
      b ← get (bitmap a) i;
      if negb b then Panicked
      else bm ← set (bitmap a) i false;
           Done (MkAlloc bm (base a) (total a) (used a - 1) (Nat.min (hint a) i))
  end.

Definition is_used (a : PageFrameAllocator) (frame : PageFrame) : run (option bool) :=
  match index_of a frame with
  | None => Done None
  | Some i => b ← get (bitmap a) i; Done (Some b)
  end.

(** ** The bitmap as a set of indices *)

Definition bit (bm : list Z) (i : nat) : bool :=
  Z.testbit (nth (i / 8) bm 0) (Z.of_nat (i mod 8)).

(** How many of the first [n] indices satisfy [p]. *)
Fixpoint card (p : nat -> bool) (n : nat) : nat :=
  match n with O => 0 | S n' => (if p n' then 1 else 0) + card p n' end.

Record wf (a : PageFrameAllocator) : Prop := {
  wf_base : base a mod FRAME_SIZE = 0;
  wf_base_pos : 0 <= base a;
  wf_room : (total a <= 8 * length (bitmap a))%nat;
  wf_bytes : Forall (in_width 8) (bitmap a);
  wf_used : used a = Z.of_nat (card (bit (bitmap a)) (total a));
  wf_hint : (hint a <= total a)%nat;
  wf_span : base a + Z.of_nat (total a) * FRAME_SIZE <= 2 ^ 64 }.

Lemma card_ext p q n : (forall i, (i < n)%nat -> p i = q i) -> card p n = card q n.
Proof.
  intros Hpq. induction n as [|n IH]; [done|]. simpl. rewrite Hpq, IH by lia || (intros; apply Hpq; lia). done.
Qed.

Lemma card_update p q n i :
  (i < n)%nat -> (forall j, (j < n)%nat -> j <> i -> q j = p j) ->
  (card q n + (if p i then 1 else 0) = card p n + (if q i then 1 else 0))%nat.
Proof.
  intros Hi Hpq. induction n as [|n IH]; [lia|]. simpl.
  destruct (decide (i = n)) as [->|Hne].
  - rewrite (card_ext q p n) by (intros; apply Hpq; lia). lia.
  - rewrite (Hpq n) by lia. assert (i < n)%nat as Hlt by lia.
    specialize (IH Hlt ltac:(intros; apply Hpq; lia)). lia.
Qed.

Lemma card_le p n : (card p n <= n)%nat.
Proof. induction n as [|n IH]; simpl; [lia|]. destruct (p n); lia. Qed.

Lemma div8_lt i n len : (i < n)%nat -> (n <= 8 * len)%nat -> (i / 8 < len)%nat.
Proof. intros. apply Nat.Div0.div_lt_upper_bound. lia. Qed.

Lemma get_bit bm i : (i / 8 < length bm)%nat -> get bm i = Done (bit bm i).
Proof.
  intros Hi. unfold get, bit. destruct (lookup_lt_is_Some_2 bm (i / 8) Hi) as [byte Hb].
  rewrite Hb, (nth_lookup_Some bm (i / 8) 0 byte Hb). f_equal.
  set (n := Z.of_nat (i mod 8)). assert (0 <= n) by lia.
  destruct (Z.testbit byte n) eqn:Ht.
  - apply negb_true_iff, Z.eqb_neq. intros Hz.
    assert (Z.testbit (Z.land byte (Z.shiftl 1 n)) n = true) as Hx.
    { rewrite Z.land_spec, testbit_bit, Ht, bool_decide_true by done. done. }
    by rewrite Hz, Z.testbit_0_l in Hx.
  - apply negb_false_iff, Z.eqb_eq. apply Z.bits_inj'. intros j Hj.
    rewrite Z.land_spec, testbit_bit, Z.testbit_0_l by done. case_bool_decide; [subst; by rewrite Ht|].
    by rewrite andb_false_r.
Qed.

Definition same_elsewhere (bm bm' : list Z) (i : nat) (v : bool) : Prop :=
  forall j, bit bm' j = if decide (j = i) then v else bit bm j.

Lemma set_bit bm i v :
  (i / 8 < length bm)%nat -> Forall (in_width 8) bm ->
  exists bm', set bm i v = Done bm' /\ length bm' = length bm /\ Forall (in_width 8) bm' /\
    same_elsewhere bm bm' i v.
Proof.
  intros Hi Hw. unfold set. destruct (lookup_lt_is_Some_2 bm (i / 8) Hi) as [byte Hb]. rewrite Hb.
  eexists. split; [done|]. rewrite length_insert. split; [done|].
  pose proof (Nat.mod_upper_bound i 8 ltac:(lia)) as Hmod. set (n := Z.of_nat (i mod 8)).
  assert (0 <= n < 8) as Hn by lia. assert (in_width 8 byte) as Hbw by (by eapply Forall_lookup_1).
  split.
  { apply Forall_insert; [done|]. destruct v.
    - apply in_width_lor; [lia|done|by apply in_width_bit].
    - apply in_width_land; [done|]. by apply in_width_not_w. }
  intros j. unfold bit. destruct (decide (j / 8 = i / 8)%nat) as [Heq|Hne].
  - rewrite Heq. rewrite (nth_lookup_Some _ _ 0 _ (list_lookup_insert_eq _ _ _ Hi)),
      (nth_lookup_Some _ _ 0 _ Hb).
    pose proof (Nat.mod_upper_bound j 8 ltac:(lia)).
    assert (j = i <-> Z.of_nat (j mod 8) = n) as Hiff.
    { unfold n. rewrite Nat2Z.inj_iff. split; [by intros ->|]. intros Hm.
      rewrite (Nat.div_mod_eq j 8), (Nat.div_mod_eq i 8). lia. }
    destruct v; rewrite ?Z.lor_spec, ?Z.land_spec, ?testbit_not_w, ?testbit_bit by lia;
      destruct (decide (j = i)) as [Hji|Hji].
    + rewrite bool_decide_true by (by apply Hiff). by rewrite orb_true_r.
    + rewrite bool_decide_false by (rewrite <- Hiff; done). by rewrite orb_false_r.
    + rewrite bool_decide_true by (by apply Hiff). by rewrite andb_false_r, andb_false_r.
    + rewrite bool_decide_false by (rewrite <- Hiff; done).
      replace (Z.of_nat (j mod 8) <? 8) with true by lia. by rewrite andb_true_r.
  - rewrite decide_False by congruence. f_equal.
    rewrite !nth_lookup, list_lookup_insert_ne by done. done.
Qed.

(** One index rewritten: the allocator stays well formed, the count moves by
    exactly the change. *)
Lemma set_wf a i v :
  wf a -> (i < total a)%nat ->
  exists bm', set (bitmap a) i v = Done bm' /\ same_elsewhere (bitmap a) bm' i v /\
    forall h, (h <= total a)%nat ->
      wf (MkAlloc bm' (base a) (total a)
            (used a + (if v then 1 else 0) - (if bit (bitmap a) i then 1 else 0)) h).
Proof.
  intros Hw Hi. pose proof Hw as [Hb Hb0 Hroom Hbytes Hu Hh Hs].
  destruct (set_bit (bitmap a) i v (div8_lt _ _ _ Hi Hroom) Hbytes) as (bm' & Hset & Hlen & Hbw & Hsame).
  exists bm'. split_and!; [done|done|]. intros h Hle. constructor; simpl; try done; [by rewrite Hlen|].
  pose proof (card_update (bit (bitmap a)) (bit bm') (total a) i Hi) as Hc.
  rewrite (Hsame i), decide_True in Hc by done.
  specialize (Hc ltac:(intros j _ Hj; by rewrite (Hsame j), decide_False)).
  rewrite Hu. destruct v, (bit (bitmap a) i); lia.
Qed.

Lemma get_wf a i : wf a -> (i < total a)%nat -> get (bitmap a) i = Done (bit (bitmap a) i).
Proof. intros Hw Hi. apply get_bit. eapply div8_lt; [exact Hi|apply (wf_room a Hw)]. Qed.

Lemma find_free_spec a l :
  wf a -> Forall (fun i => (i < total a)%nat) l ->
  exists r, find_free (bitmap a) l = Done r /\
    match r with
    | Some i => i ∈ l /\ bit (bitmap a) i = false
    | None => Forall (fun i => bit (bitmap a) i = true) l
    end.
Proof.
  intros Hw. induction 1 as [|i l Hi _ IH]; simpl; [by exists None|].
  rewrite (get_wf a i Hw Hi). simpl. destruct (bit (bitmap a) i) eqn:Hb.
  - destruct IH as (r & -> & Hr). exists r. split; [done|]. destruct r; [set_solver|by constructor].
  - exists (Some i). split; [done|]. set_solver.
Qed.

Lemma alloc_spec a :
  wf a ->
  exists r a', alloc a = Done (r, a') /\ wf a' /\
    match r with
    | None => a' = a /\ forall i, (i < total a)%nat -> bit (bitmap a) i = true
    | Some f => exists i, (i < total a)%nat /\ f = frame_at a i /\ bit (bitmap a) i = false /\
        same_elsewhere (bitmap a) (bitmap a') i true /\ base a' = base a /\ total a' = total a
    end.
Proof.
  intros Hw. unfold alloc. pose proof (wf_hint a Hw) as Hh.
  destruct (find_free_spec a (seq (hint a) (total a - hint a) ++ seq 0 (hint a)) Hw) as (r & -> & Hr).
  { apply Forall_forall. intros i Hi%elem_of_app. rewrite !elem_of_seq in Hi. lia. }
  simpl. destruct r as [i|].
  - destruct Hr as [Hin Hbit]. rewrite elem_of_app, !elem_of_seq in Hin.
    assert (i < total a)%nat as Hi by lia.
    destruct (set_wf a i true Hw Hi) as (bm' & -> & Hsame & Hwf). simpl. eexists _, _. split; [done|].
    specialize (Hwf (i + 1)%nat ltac:(lia)). rewrite Hbit in Hwf.
    replace (used a + 1 - 0) with (used a + 1) in Hwf by lia. split; [done|]. by exists i.
  - exists None, a. split_and!; [done|done|done|]. intros i Hi. rewrite Forall_forall in Hr.
    apply Hr. rewrite elem_of_app, !elem_of_seq. lia.
Qed.

Lemma index_of_frame_at a i : wf a -> (i < total a)%nat -> index_of a (frame_at a i) = Some i.
Proof.
  intros Hw Hi. unfold index_of, frame_at. simpl.
  replace (base a + Z.of_nat i * FRAME_SIZE - base a) with (Z.of_nat i * FRAME_SIZE) by lia.
  rewrite Z.div_mul, Nat2Z.id by done.
  destruct (Z.ltb_spec (base a + Z.of_nat i * FRAME_SIZE) (base a)); [unfold FRAME_SIZE in *; lia|].
  destruct (Nat.ltb_spec i (total a)); [done|lia].
Qed.

Lemma free_spec a f :
  wf a ->
  match index_of a f with
  | Some i =>
      if bit (bitmap a) i
      then exists a', free a f = Done a' /\ wf a' /\ same_elsewhere (bitmap a) (bitmap a') i false /\
             base a' = base a /\ total a' = total a
      else free a f = Panicked
  | None => free a f = Panicked
  end.
Proof.
  intros Hw. unfold free. destruct (index_of a f) as [i|] eqn:Hi; [|done].
  assert (i < total a)%nat as Hlt.
  { unfold index_of in Hi. destruct (addr f <? base a); [done|].
    destruct (Nat.ltb_spec (Z.to_nat ((addr f - base a) / FRAME_SIZE)) (total a)); by simplify_eq. }
  rewrite (get_wf a i Hw Hlt). simpl. destruct (bit (bitmap a) i) eqn:Hb; simpl; [|done].
  destruct (set_wf a i false Hw Hlt) as (bm' & -> & Hsame & Hwf). simpl. eexists. split; [done|].
  pose proof (wf_hint a Hw) as Hh.
  specialize (Hwf (Nat.min (hint a) i) ltac:(lia)). rewrite Hb in Hwf.
  replace (used a + 0 - 1) with (used a - 1) in Hwf by lia. by split_and!.
Qed.

(** ** Runs of free frames *)

Definition free_run (bm : list Z) (s n : nat) : Prop :=
  forall j, (s <= j < s + n)%nat -> bit bm j = false.

Lemma scan_run_spec a count n i rs r :
  wf a -> (0 < count)%nat -> (i + n = total a)%nat -> (rs + r = i)%nat -> (r < count)%nat ->
  free_run (bitmap a) rs r -> (forall s, (s < rs)%nat -> ~ free_run (bitmap a) s count) ->
  exists res, scan_run (bitmap a) count n i rs r = Done res /\
    match res with
    | Some s => (s + count <= total a)%nat /\ free_run (bitmap a) s count /\
                (forall s', (s' < s)%nat -> ~ free_run (bitmap a) s' count)
    | None => forall s, (s + count <= total a)%nat -> ~ free_run (bitmap a) s count
    end.
Proof.
  intros Hw Hc. revert i rs r. induction n as [|n IH]; intros i rs r Hi Hr Hrc Hfree Hlow; simpl.
  { exists None. split; [done|]. intros s Hs. apply Hlow. lia. }
  rewrite (get_wf a i Hw) by lia. simpl. destruct (bit (bitmap a) i) eqn:Hb.
  - apply IH; try lia; [intros j ?; lia|]. intros s Hs Hf.
    destruct (decide (s < rs)%nat) as [Hlt|Hge]; [by apply (Hlow s Hlt)|].
    specialize (Hf i ltac:(lia)). congruence.
  - assert (free_run (bitmap a) rs (r + 1)) as Hfree'.
    { intros j Hj. destruct (decide (j = i)) as [->|]; [done|]. apply Hfree. lia. }
    destruct (Nat.eqb_spec (r + 1) count) as [Heq|Hne].
    + exists (Some rs). split; [done|]. rewrite <- Heq in *. split_and!; [lia|done|done].
    + apply IH; try lia; done.
Qed.

Lemma largest_loop_spec a n i best r :
  wf a -> (i + n = total a)%nat -> (r <= i)%nat -> (r <= best)%nat ->
  free_run (bitmap a) (i - r) r -> (r = i \/ bit (bitmap a) (i - r - 1) = true) ->
  (exists s, (s + best <= i)%nat /\ free_run (bitmap a) s best) ->
  (forall s m, (s + m <= i)%nat -> free_run (bitmap a) s m -> (m <= best)%nat) ->
  exists L, largest_loop (bitmap a) n i best r = Done L /\
    (exists s, (s + L <= total a)%nat /\ free_run (bitmap a) s L) /\
    (forall s m, (s + m <= total a)%nat -> free_run (bitmap a) s m -> (m <= L)%nat).
Proof.
  intros Hw. revert i best r. induction n as [|n IH]; intros i best r Hi Hri Hrb Hrun Hstop Hex Hmax; simpl.
  { exists best. split; [done|]. replace (total a) with i by lia. done. }
  rewrite (get_wf a i Hw) by lia. simpl. destruct (bit (bitmap a) i) eqn:Hb.
  - apply IH; try lia.
    + intros j ?; lia.
    + right. by replace (S i - 0 - 1)%nat with i by lia.
    + destruct Hex as (s & ? & ?). exists s. split; [lia|done].
    + intros s m Hsm Hf. destruct (decide (s + m <= i)%nat) as [|Hgt]; [by apply (Hmax s)|].
      destruct m as [|m]; [lia|]. specialize (Hf i ltac:(lia)). congruence.
  - assert (free_run (bitmap a) (i - r) (r + 1)) as Hrun'.
    { intros j Hj. destruct (decide (j = i)) as [->|]; [done|]. apply Hrun. lia. }
    set (best' := if (best <? r + 1)%nat then (r + 1)%nat else best).
    assert (best' = Nat.max best (r + 1)) as Hb'.
    { unfold best'. destruct (Nat.ltb_spec best (r + 1)); lia. }
    clearbody best'. subst best'. apply IH; try lia.
    + by replace (S i - (r + 1))%nat with (i - r)%nat by lia.
    + destruct Hstop as [->|Hs]; [left; lia|right]. by replace (S i - (r + 1) - 1)%nat with (i - r - 1)%nat by lia.
    + destruct (decide (best <= r + 1)%nat).
      * exists (i - r)%nat. rewrite Nat.max_r by done. split; [lia|done].
      * destruct Hex as (s & ? & ?). exists s. rewrite Nat.max_l by lia. split; [lia|done].
    + intros s m Hsm Hf. destruct (decide (s + m <= i)%nat) as [|Hgt].
      { specialize (Hmax s m ltac:(lia) Hf). lia. }
      destruct (decide (m <= r + 1)%nat); [lia|]. exfalso.
      destruct Hstop as [->|Hs]; [lia|]. rewrite (Hf (i - r - 1)%nat) in Hs by lia. done.
Qed.

Lemma largest_free_run_spec a :
  wf a ->
  exists L, largest_free_run a = Done L /\
    (exists s, (s + L <= total a)%nat /\ free_run (bitmap a) s L) /\
    (forall s m, (s + m <= total a)%nat -> free_run (bitmap a) s m -> (m <= L)%nat).
Proof.
  intros Hw. unfold largest_free_run. apply largest_loop_spec; try lia; try done.
  - intros j ?; lia.
  - exists 0%nat. split; [lia|]. intros j ?; lia.
Qed.

(** Setting a block of free frames. *)
Lemma set_all_spec s n a h :
  wf a -> (s + n <= total a)%nat -> free_run (bitmap a) s n -> (h <= total a)%nat ->
  exists bm', set_all (bitmap a) (seq s n) = Done bm' /\
    wf (MkAlloc bm' (base a) (total a) (used a + Z.of_nat n) h) /\
    forall j, bit bm' j = if decide (s <= j < s + n)%nat then true else bit (bitmap a) j.
Proof.
  revert s a. induction n as [|n IH]; intros s a Hw Hn Hf Hh; simpl.
  - exists (bitmap a). split; [done|]. split.
    + destruct a. destruct Hw. simpl in *. constructor; simpl; try done. lia.
    + intros j. by rewrite decide_False by lia.
  - destruct (set_wf a s true Hw ltac:(lia)) as (bm1 & -> & Hsame & Hwf). simpl.
    specialize (Hwf h Hh). rewrite (Hf s ltac:(lia)) in Hwf.
    destruct (IH (S s) _ Hwf) as (bm' & Hset & Hw' & Hbits); simpl; try lia.
    { intros j Hj. rewrite (Hsame j), decide_False by lia. apply Hf. lia. }
    simpl in *. exists bm'. split; [done|]. split.
    + by replace (used a + Z.of_nat (S n)) with (used a + 1 - 0 + Z.of_nat n) by lia.
    + intros j. rewrite Hbits. destruct (decide (S s <= j < S (s + n))%nat), (decide (s <= j < s + S n)%nat);
        try lia; try done; rewrite (Hsame j); by case_decide; try lia.
Qed.

(** What [alloc_contiguous] does on every branch. *)
Lemma alloc_contiguous_spec a count :
  wf a ->
  exists r a', alloc_contiguous a count = Done (r, a') /\ wf a' /\
    match r with
    | None => a' = a /\ (count = 0%nat \/ forall s, (s + count <= total a)%nat -> ~ free_run (bitmap a) s count)
    | Some f => exists s, f = frame_at a s /\ (0 < count)%nat /\ (s + count <= total a)%nat /\
        free_run (bitmap a) s count /\
        (forall s', (s' < s)%nat -> ~ free_run (bitmap a) s' count) /\
        (forall j, bit (bitmap a') j = if decide (s <= j < s + count)%nat then true else bit (bitmap a) j) /\
        base a' = base a /\ total a' = total a /\ hint a' = hint a
    end.
Proof.
  intros Hw. unfold alloc_contiguous.
  destruct (Nat.eqb_spec count 0) as [->|Hz]; simpl; [exists None, a; by auto|].
  destruct (Nat.ltb_spec (total a) count) as [Hgt|Hle].
  { exists None, a. split_and!; try done. right. intros s Hs. lia. }
  destruct (scan_run_spec a count (total a) 0 0 0 Hw) as (res & -> & Hres); try lia; [intros j ?; lia|].
  simpl. destruct res as [s|]; [|exists None, a; by auto].
  destruct Hres as (Hs & Hf & Hlow).
  destruct (set_all_spec s count a (hint a) Hw Hs Hf (wf_hint a Hw)) as (bm' & -> & Hw' & Hbits). simpl.
  eexists _, _. split; [done|]. split; [done|]. exists s. split_and!; try done. lia.
Qed.

(** ** Marking ranges *)

Lemma mark_loop_spec v l a h :
  wf a -> Forall (fun i => (i < total a)%nat) l -> (h <= total a)%nat ->
  exists bm u, mark_loop v l (bitmap a) (used a) = Done (bm, u) /\
    wf (MkAlloc bm (base a) (total a) u h) /\
    forall j, bit bm j = if decide (j ∈ l) then v else bit (bitmap a) j.
Proof.
  intros Hw Hl Hh. revert a Hw Hl Hh. induction l as [|i l IH]; intros a Hw Hl Hh; simpl.
  - exists (bitmap a), (used a). split; [done|]. split; [destruct a, Hw; by constructor|].
    done.
  - apply Forall_cons in Hl as [Hi Hl]. rewrite (get_wf a i Hw Hi). simpl.
    case_bool_decide as Hb.
    + destruct (IH a Hw Hl Hh) as (bm & u & -> & Hw' & Hbits). exists bm, u.
      split; [done|]. split; [done|]. intros j. rewrite Hbits.
      destruct (decide (j ∈ l)) as [Hin|Hin]; [by rewrite decide_True by set_solver|].
      destruct (decide (j ∈ i :: l)) as [Hc|]; [|done].
      apply elem_of_cons in Hc as [->|]; [done|contradiction].
    + destruct (set_wf a i v Hw Hi) as (bm1 & -> & Hsame & Hwf). simpl. specialize (Hwf h Hh).
      replace (used a + (if v then 1 else 0) - (if bit (bitmap a) i then 1 else 0))
        with (if v then used a + 1 else used a - 1) in Hwf
        by (destruct v, (bit (bitmap a) i); congruence || lia).
      destruct (IH _ Hwf) as (bm & u & Hm & Hw' & Hbits); try done. simpl in *.
      exists bm, u. split; [done|]. split; [done|]. intros j. rewrite Hbits, (Hsame j).
      destruct (decide (j ∈ l)) as [Hin|Hin]; [by rewrite decide_True by set_solver|].
      destruct (decide (j = i)) as [->|Hj]; [by rewrite decide_True by set_solver|].
      rewrite decide_False; [done|]. by rewrite elem_of_cons; intros [?|?].
Qed.

(** The frames [page_frame_range] names, as a predicate. *)
Definition touched (a : PageFrameAllocator) (start size : Z) (i : nat) : Prop :=
  let '(lo, hi) := page_frame_range a start size in (lo <= i < hi)%nat.

(** Frame [i] overlaps the bytes [start, start + size). *)
Definition overlaps (a : PageFrameAllocator) (start size : Z) (i : nat) : Prop :=
  0 < size /\ base a + Z.of_nat i * FRAME_SIZE < start + size /\
  start < base a + Z.of_nat i * FRAME_SIZE + FRAME_SIZE.

Lemma page_frame_range_spec a start size i :
  wf a -> 0 <= start -> 0 <= size -> start + size < 2 ^ 64 ->
  touched a start size i <-> (i < total a)%nat /\ overlaps a start size i.
Proof.
  intros Hw Hs Hz Hov. pose proof (wf_base_pos a Hw) as Hb. unfold touched, page_frame_range, overlaps.
  replace (saturating_add 64 start size) with (start + size) by (unfold saturating_add; lia).
  unfold saturating_sub, div_ceil, FRAME_SIZE in *.
  destruct (Z.eqb_spec size 0) as [->|Hne]; simpl; [lia|].
  destruct (Z.leb_spec (start + size) (base a)); simpl; [lia|].
  set (first := Z.max start (base a) - base a).
  set (last := Z.max 0 (start + size - base a)).
  assert (0 <= first /\ 0 < last) as [Hf Hl] by (subst first last; lia).
  pose proof (Z.div_mod first 4096 ltac:(lia)). pose proof (Z.mod_pos_bound first 4096 ltac:(lia)).
  pose proof (Z.div_mod (last + 4096 - 1) 4096 ltac:(lia)).
  pose proof (Z.mod_pos_bound (last + 4096 - 1) 4096 ltac:(lia)).
  destruct (Nat.leb_spec (Nat.min (Z.to_nat ((last + 4096 - 1) / 4096)) (total a)) (Z.to_nat (first / 4096)));
    subst first last; lia.
Qed.

Lemma range_total a start size lo hi :
  page_frame_range a start size = (lo, hi) -> Forall (fun i => (i < total a)%nat) (seq lo (hi - lo)).
Proof.
  intros Hr. apply Forall_forall. intros i Hi%elem_of_seq. unfold page_frame_range in Hr.
  destruct (_ || _); [simplify_eq; lia|].
  destruct (Nat.leb_spec (Nat.min (Z.to_nat (div_ceil (saturating_sub (saturating_add 64 start size) (base a)) FRAME_SIZE)) (total a))
    (Z.to_nat ((Z.max start (base a) - base a) / FRAME_SIZE))); simplify_eq; lia.
Qed.

Lemma mark_used_spec a start size :
  wf a ->
  exists a', mark_used a start size = Done a' /\ wf a' /\ base a' = base a /\ total a' = total a /\
    forall j, bit (bitmap a') j = true <-> touched a start size j \/ bit (bitmap a) j = true.
Proof.
  intros Hw. unfold mark_used, touched. destruct (page_frame_range a start size) as [lo hi] eqn:Hr.
  destruct (mark_loop_spec true _ a (hint a) Hw (range_total _ _ _ _ _ Hr) (wf_hint a Hw))
    as (bm & u & -> & Hw' & Hb). simpl. eexists. split_and!; [done|done|done|done|].
  intros j. simpl. rewrite Hb. destruct (decide (j ∈ seq lo (hi - lo))) as [Hin|Hin];
    rewrite elem_of_seq in Hin; intuition (lia || congruence).
Qed.

Lemma mark_free_spec a start size :
  wf a ->
  exists a', mark_free a start size = Done a' /\ wf a' /\ base a' = base a /\ total a' = total a /\
    forall j, bit (bitmap a') j = true <-> ~ touched a start size j /\ bit (bitmap a) j = true.
Proof.
  intros Hw. unfold mark_free, touched. destruct (page_frame_range a start size) as [lo hi] eqn:Hr.
  destruct (mark_loop_spec false _ a 0%nat Hw (range_total _ _ _ _ _ Hr) ltac:(lia))
    as (bm & u & -> & Hw' & Hb). simpl. eexists. split_and!; [done|done|done|done|].
  intros j. simpl. rewrite Hb. destruct (decide (j ∈ seq lo (hi - lo))) as [Hin|Hin];
    rewrite elem_of_seq in Hin; intuition (lia || congruence).
Qed.

(** ** Executions with a ledger

    Beside the allocator, the frames handed out and not yet returned ([held])
    and the byte ranges reserved with [mark_used]. A holder frees only what it
    holds; ranges are reserved before their frames are handed out, and
    [mark_free] is not called on memory that is held or reserved. *)

Record Ledger := MkLedger {
  allocator : PageFrameAllocator;
  held : list nat;
  reserved : list (Z * Z) }.

Definition range_ok (start size : Z) : Prop := 0 <= start /\ 0 <= size /\ start + size < 2 ^ 64.

Definition untouched (a : PageFrameAllocator) (start size : Z) (l : list nat) : Prop :=
  Forall (fun i => ~ overlaps a start size i) l.

Inductive step : Ledger -> Ledger -> Prop :=
  | step_alloc a f a' i l r :
      alloc a = Done (Some f, a') -> index_of a f = Some i ->
      step (MkLedger a l r) (MkLedger a' (i :: l) r)
  | step_alloc_contiguous a count f a' s l r :
      alloc_contiguous a count = Done (Some f, a') -> index_of a f = Some s ->
      step (MkLedger a l r) (MkLedger a' (seq s count ++ l) r)
  | step_free a f a' i l r :
      index_of a f = Some i -> i ∈ l -> free a f = Done a' ->
      step (MkLedger a l r) (MkLedger a' (filter (fun j => j <> i) l) r)
  | step_mark_used a start size a' l r :
      range_ok start size -> untouched a start size l -> mark_used a start size = Done a' ->
      step (MkLedger a l r) (MkLedger a' l ((start, size) :: r))
  | step_mark_free a start size a' l r :
      range_ok start size -> untouched a start size l ->
      (forall i s z, (s, z) ∈ r -> overlaps a start size i -> ~ overlaps a s z i) ->
      mark_free a start size = Done a' ->
      step (MkLedger a l r) (MkLedger a' l r).

Record ledger_ok (g : Ledger) : Prop := {
  ok_wf : wf (allocator g);
  ok_nodup : NoDup (held g);
  ok_held i : i ∈ held g -> (i < total (allocator g))%nat /\ bit (bitmap (allocator g)) i = true;
  ok_reserved s z i :
    (s, z) ∈ reserved g -> (i < total (allocator g))%nat -> overlaps (allocator g) s z i ->
    bit (bitmap (allocator g)) i = true /\ i ∉ held g }.

Lemma overlaps_base a a' s z i : base a' = base a -> overlaps a' s z i <-> overlaps a s z i.
Proof. intros Hb. unfold overlaps. by rewrite Hb. Qed.

(** Handing out a block of frames that were all free. *)
Lemma hand_out_ok a a' (block l : list nat) r :
  ledger_ok (MkLedger a l r) -> wf a' -> base a' = base a -> total a' = total a -> NoDup block ->
  (forall i, i ∈ block -> (i < total a)%nat /\ bit (bitmap a) i = false) ->
  (forall j, bit (bitmap a') j = true <-> j ∈ block \/ bit (bitmap a) j = true) ->
  ledger_ok (MkLedger a' (block ++ l) r).
Proof.
  intros [Hw Hnd Hh Hr] Hw' Hb Ht Hblock Hfree Hbits. simpl in *.
  constructor; simpl; [done| | |].
  - apply NoDup_app. split_and!; [done| |done]. intros i Hi Hl.
    destruct (Hfree i Hi), (Hh i Hl). congruence.
  - intros i [Hi|Hi]%elem_of_app; rewrite Ht, Hbits; [destruct (Hfree i Hi)|destruct (Hh i Hi)]; auto.
  - intros s z i Hin Hlt Hov. rewrite Ht in Hlt. rewrite (overlaps_base a a') in Hov by done.
    destruct (Hr s z i Hin Hlt Hov) as [Hbit Hnot]. rewrite Hbits. split; [by right|].
    intros [Hi|Hi]%elem_of_app; [|done]. destruct (Hfree i Hi). congruence.
Qed.

Lemma step_ledger_ok g g' : ledger_ok g -> step g g' -> ledger_ok g'.
Proof.
  intros Hok Hst. pose proof (ok_wf _ Hok) as Hw. destruct Hst as
    [a f a' i l r Ha Hi|a count f a' s l r Ha Hi|a f a' i l r Hi Hin Hf
    |a start size a' l r (H0 & H1 & H2) Hun Hm|a start size a' l r (H0 & H1 & H2) Hun Hres Hm]; simpl in Hw.
  - destruct (alloc_spec a Hw) as (r0 & a0 & Ha0 & Hw' & Hspec). rewrite Ha in Ha0. injection Ha0 as <- <-.
    destruct Hspec as (i' & Hlt & -> & Hbit & Hsame & Hb & Ht).
    rewrite index_of_frame_at in Hi by done. simplify_eq. apply (hand_out_ok a a' [i]); try done.
    + apply NoDup_singleton.
    + by intros j ->%list_elem_of_singleton.
    + intros j. rewrite (Hsame j), list_elem_of_singleton. case_decide; intuition congruence.
  - destruct (alloc_contiguous_spec a count Hw) as (r0 & a0 & Ha0 & Hw' & Hspec). rewrite Ha in Ha0. injection Ha0 as <- <-.
    destruct Hspec as (s' & -> & Hc & Hlt & Hfree & _ & Hbits & Hb & Ht & _).
    rewrite index_of_frame_at in Hi by (done || lia). simplify_eq. apply (hand_out_ok a a'); try done.
    + apply NoDup_seq.
    + intros j Hj%elem_of_seq. split; [lia|]. apply Hfree. lia.
    + intros j. rewrite Hbits, elem_of_seq. case_decide; intuition (congruence || lia).
  - pose proof (free_spec a f Hw) as Hspec. rewrite Hi in Hspec.
    destruct (bit (bitmap a) i); [|congruence].
    destruct Hspec as (a0 & Hf0 & Hw' & Hsame & Hb & Ht). rewrite Hf in Hf0. injection Hf0 as <-.
    destruct Hok as [_ Hnd Hh Hr]. simpl in *. constructor; simpl; [done|by apply NoDup_filter| |].
    + intros j [Hj Hjl]%list_elem_of_filter. rewrite Ht, (Hsame j), decide_False by done. by apply Hh.
    + intros s z j Hin' Hlt Hov. rewrite Ht in Hlt. rewrite (overlaps_base a a') in Hov by done.
      destruct (Hr s z j Hin' Hlt Hov) as [Hbit Hnot].
      assert (j <> i) by congruence. rewrite (Hsame j), decide_False by done. split; [done|].
      rewrite list_elem_of_filter. by intros [_ ?].
  - destruct (mark_used_spec a start size Hw) as (a0 & Hm0 & Hw' & Hb & Ht & Hbits).
    rewrite Hm in Hm0. injection Hm0 as <-. destruct Hok as [_ Hnd Hh Hr]. simpl in *.
    constructor; simpl; [done|done| |].
    + intros i Hi. rewrite Ht, Hbits. destruct (Hh i Hi). auto.
    + intros s z i Hin Hlt Hov. rewrite Ht in Hlt. rewrite (overlaps_base a a') in Hov by done.
      rewrite Hbits. apply elem_of_cons in Hin as [[= -> ->]|Hin].
      * split; [left; by apply page_frame_range_spec|]. intros Hi.
        unfold untouched in Hun; rewrite Forall_forall in Hun. by apply (Hun i Hi).
      * destruct (Hr s z i Hin Hlt Hov). auto.
  - destruct (mark_free_spec a start size Hw) as (a0 & Hm0 & Hw' & Hb & Ht & Hbits).
    rewrite Hm in Hm0. injection Hm0 as <-. destruct Hok as [_ Hnd Hh Hr]. simpl in *.
    constructor; simpl; [done|done| |].
    + intros i Hi. rewrite Ht, Hbits. destruct (Hh i Hi). split_and!; try done.
      rewrite page_frame_range_spec by done. unfold untouched in Hun; rewrite Forall_forall in Hun. intros [_ Hov]. by apply (Hun i Hi).
    + intros s z i Hin Hlt Hov. rewrite Ht in Hlt. rewrite (overlaps_base a a') in Hov by done.
      destruct (Hr s z i Hin Hlt Hov). rewrite Hbits, page_frame_range_spec by done. split; [|done].
      split; [|done]. intros [_ Hx]. by apply (Hres i s z Hin Hx).
Qed.

Lemma bit_all_ones n i : (i < 8 * n)%nat -> bit (replicate n 255) i = true.
Proof.
  intros Hi. unfold bit. rewrite (nth_lookup_Some _ _ 0 255).
  - pose proof (Nat.mod_upper_bound i 8 ltac:(lia)).
    change 255 with (Z.ones 8). rewrite Z.testbit_ones_nonneg by lia. lia.
  - apply lookup_replicate. split; [done|]. apply Nat.Div0.div_lt_upper_bound. lia.
Qed.

Lemma card_all p n : (forall i, (i < n)%nat -> p i = true) -> card p n = n.
Proof. intros Hp. induction n as [|n IH]; [done|]. simpl. rewrite Hp, IH by (intros; try apply Hp; lia). done. Qed.

Lemma new_wf b n bm a :
  0 <= b -> b + Z.of_nat n * FRAME_SIZE <= 2 ^ 64 -> new b n bm = Done a -> wf a.
Proof.
  intros Hb Hs. unfold new, is_multiple_of. destruct (Z.eqb_spec (b mod FRAME_SIZE) 0) as [Hm|]; [|done].
  destruct (Nat.ltb_spec (length bm) (bitmap_bytes n)) as [|Hlen]; [done|]. intros [= <-].
  assert (n <= 8 * length bm)%nat as Hroom.
  { unfold bitmap_bytes, div_ceil in Hlen.
    pose proof (Z.div_mod (Z.of_nat n + 8 - 1) 8 ltac:(lia)).
    pose proof (Z.mod_pos_bound (Z.of_nat n + 8 - 1) 8 ltac:(lia)). lia. }
  constructor; simpl; try done; try lia.
  - by rewrite length_replicate.
  - apply Forall_replicate. split; lia.
  - rewrite card_all; [done|]. intros i Hi. apply bit_all_ones. lia.
Qed.

(** ** Properties *)

(** C16: memory is handed out once. Along every execution of the allocator from
    [new], however [alloc], [alloc_contiguous], [free], [mark_used] and
    [mark_free] are mixed under the ledger's discipline: no frame is held
    twice, every held frame is marked used and lies in the managed span, no
    held frame overlaps a reserved range, and the reported [used] count is
    exactly the number of set bits. *)
Theorem memory_is_handed_out_once (b : Z) (n : nat) (bm : list Z) (a0 : PageFrameAllocator) (g : Ledger)
  (Hb : 0 <= b) (Hspan : b + Z.of_nat n * FRAME_SIZE <= 2 ^ 64) (Hnew : new b n bm = Done a0)
  (Hst : steps step (MkLedger a0 [] []) g) :
  NoDup (held g) /\
  (forall i, i ∈ held g -> is_used (allocator g) (frame_at (allocator g) i) = Done (Some true)) /\
  (forall i s z, i ∈ held g -> (s, z) ∈ reserved g -> ~ overlaps (allocator g) s z i) /\
  stats_used (stats (allocator g)) = Z.of_nat (card (bit (bitmap (allocator g))) (total (allocator g))).
Proof.
  assert (ledger_ok g) as [Hw Hnd Hh Hr].
  { eapply steps_invariant; [exact step_ledger_ok|exact Hst|].
    constructor; simpl; [by eapply new_wf|constructor|by intros i ?%not_elem_of_nil|by intros s z i ?%not_elem_of_nil]. }
  split_and!; [done| | |apply (wf_used _ Hw)].
  - intros i Hi. destruct (Hh i Hi) as [Hlt Hbit]. unfold is_used.
    rewrite index_of_frame_at, get_wf, Hbit by done. done.
  - intros i s z Hi Hin Hov. destruct (Hh i Hi) as [Hlt _]. by destruct (Hr s z i Hin Hlt Hov).
Qed.

(** Contiguous allocation is complete. On a well-formed allocator
    [alloc_contiguous count] succeeds exactly when [0 < count] and
    [largest_free_run] is at least [count]; when it succeeds, it takes the
    lowest run of [count] free frames. *)
Theorem contiguous_iff_largest_run (a : PageFrameAllocator) (count : nat) (Hw : wf a) :
  exists L r a', largest_free_run a = Done L /\ alloc_contiguous a count = Done (r, a') /\
    (is_some r = true <-> (0 < count <= L)%nat) /\
    (forall f, r = Some f -> exists s, f = frame_at a s /\ free_run (bitmap a) s count /\
       forall s', (s' < s)%nat -> ~ free_run (bitmap a) s' count).
Proof.
  destruct (largest_free_run_spec a Hw) as (L & HL & (s0 & Hs0 & Hf0) & Hmax).
  destruct (alloc_contiguous_spec a count Hw) as (r & a' & Ha & _ & Hspec).
  exists L, r, a'. split_and!; [done|done| |].
  - destruct r as [f|]; simpl.
    + destruct Hspec as (s & _ & Hc & Hs & Hf & _). split; [|done]. intros _.
      specialize (Hmax s count Hs Hf). lia.
    + destruct Hspec as [_ Hnone]. split; [done|]. intros [Hc HcL].
      destruct Hnone as [->|Hnone]; [lia|]. exfalso. apply (Hnone s0); [lia|].
      intros j Hj. apply Hf0. lia.
  - intros f ->. destruct Hspec as (s & Hfr & _ & _ & Hf & Hlow & _). by exists s.
Qed.

(** [alloc] fails only when every frame is used and otherwise takes a free
    one; [free] panics exactly on a frame outside the span or not in use, and
    otherwise makes exactly that frame allocatable again. *)
Theorem alloc_free_outcome (a : PageFrameAllocator) (f : PageFrame) (Hw : wf a) :
  (exists r a', alloc a = Done (r, a') /\
     match r with
     | None => forall i, (i < total a)%nat -> bit (bitmap a) i = true
     | Some g => exists i, index_of a g = Some i /\ bit (bitmap a) i = false /\
         same_elsewhere (bitmap a) (bitmap a') i true
     end) /\
  (free a f = Panicked <-> forall i, index_of a f = Some i -> bit (bitmap a) i = false) /\
  (forall a', free a f = Done a' -> exists i, index_of a f = Some i /\ bit (bitmap a) i = true /\
     same_elsewhere (bitmap a) (bitmap a') i false).
Proof.
  split.
  - destruct (alloc_spec a Hw) as (r & a' & Ha & _ & Hs). exists r, a'. split; [done|].
    destruct r as [g|]; [|by destruct Hs]. destruct Hs as (i & Hi & -> & Hbit & Hsame & _).
    exists i. by rewrite index_of_frame_at.
  - pose proof (free_spec a f Hw) as Hs. destruct (index_of a f) as [i|] eqn:Hi.
    2: { rewrite Hs. split; [|done]. split; [done|]. by intros. }
    destruct (bit (bitmap a) i) eqn:Hb.
    + destruct Hs as (a1 & -> & _ & Hsame & _). split.
      * split; [done|]. intros H. specialize (H i eq_refl). congruence.
      * intros a' [= <-]. by exists i.
    + rewrite Hs. split; [|done]. split; [|done]. intros _ j [= <-]. done.
Qed.

(** ** Witnesses: 16 frames at 1 MiB, frames 2 and up freed, two allocated. *)

Definition demo0 : PageFrameAllocator := MkAlloc [255; 255] 1048576 16 16 0.
Definition demo1 : PageFrameAllocator := MkAlloc [3; 0] 1048576 16 2 0.
Definition demo2 : PageFrameAllocator := MkAlloc [15; 0] 1048576 16 4 0.

Lemma demo0_wf : wf demo0.
Proof. apply (new_wf 1048576 16 [0; 0]); [lia|unfold FRAME_SIZE; lia|reflexivity]. Qed.

Lemma demo1_wf : wf demo1.
Proof.
  destruct (mark_free_spec demo0 1056768 57344 demo0_wf) as (a' & Ha & Hw & _).
  assert (mark_free demo0 1056768 57344 = Done demo1) as Hd by reflexivity. congruence.
Qed.

Lemma memory_is_handed_out_once_witness : NoDup [2%nat; 3%nat].
Proof.
  apply (memory_is_handed_out_once 1048576 16 [0; 0] demo0 (MkLedger demo2 [2; 3]%nat []));
    [lia|unfold FRAME_SIZE; lia|reflexivity|].
  eapply steps_step; [apply (step_mark_free _ 1056768 57344 demo1)|].
  - split_and!; lia.
  - constructor.
  - intros i s z H. by apply not_elem_of_nil in H.
  - reflexivity.
  - eapply steps_step; [apply (step_alloc_contiguous demo1 2 (MkFrame 1056768) demo2 2); reflexivity|].
    apply steps_refl.
Defined.

Lemma contiguous_iff_largest_run_witness :
  exists L r a', largest_free_run demo1 = Done L /\ alloc_contiguous demo1 3 = Done (r, a') /\
    (is_some r = true <-> (0 < 3 <= L)%nat).
Proof.
  destruct (contiguous_iff_largest_run demo1 3 demo1_wf) as (L & r & a' & H1 & H2 & H3 & _).
  exists L, r, a'. split; [exact H1|]. split; [exact H2|exact H3].
Defined.

Lemma alloc_free_outcome_witness : free demo0 (MkFrame 0) = Panicked.
Proof.
  apply (alloc_free_outcome demo0 (MkFrame 0) demo0_wf). intros i H. discriminate H.
Defined.

End PageFrames.
