(* ===== verification/Regions.v ===== *)
(** * Untyped memory regions (crates/memory_regions/src/lib.rs and table.rs)

    The budget arithmetic and the region table with its destroy protocol. The
    table of names is any implementation of the [NameTable] interface; GenTable
    provides the one the crate uses. Page numbers and counts are exact
    integers, kept in range by the invariant; the child counter's width (32
    bits) is not modelled. *)

From S2P Require Import Prelude NameTable GenTable.
Local Open Scope Z_scope.

Module Regions.

Definition split_new_watermark (parent_pages parent_watermark want : Z) : option Z :=
  if want =? 0 then None
  else
    n ← checked_add 64 parent_watermark want;
    if parent_pages <? n then None else Some n.

Definition retype_pages (requested : Z) : Z := if requested =? 0 then 1 else requested.

Definition retype_new_watermark (pages watermark requested : Z) : option Z :=
  split_new_watermark pages watermark (retype_pages requested).

Inductive DestroyOutcome := Refused | FreeToGlobal | ReturnToParent (unbump : Z).

#[export] Instance DestroyOutcome_eq_dec : EqDecision DestroyOutcome.
Proof. solve_decision. Defined.

Definition destroy_outcome (pinned : bool) (children : Z) (is_root is_lifo_top : bool)
    (child_pages : Z) : DestroyOutcome :=
  if pinned || (0 <? children) then Refused
  else if is_root then FreeToGlobal
  else ReturnToParent (if is_lifo_top then child_pages else 0).

Definition coalesced_watermark (watermark retyped_to live_to : Z) (quiescent : bool) : Z :=
  if negb quiescent then watermark else Z.min (Z.max retyped_to live_to) watermark.

(** ** The table *)

Definition NO_PARENT : Z := u64_max.

Inductive ObjectKind := KRendezvous | KAddressSpace | KThread | KKernelPool | KNotification | KTimer.

(** [kind as usize]. *)
Definition kind_index (k : ObjectKind) : nat :=
  match k with
  | KRendezvous => 0 | KAddressSpace => 1 | KThread => 2 | KKernelPool => 3 | KNotification => 4 | KTimer => 5
  end%nat.

Inductive PageUse := UFrames | UObject (k : ObjectKind) | UChildren.

Record Spent := MkSpent { spent_frames : Z; spent_objects : list Z; spent_children : Z }.

Definition Spent_default : Spent := MkSpent 0 (replicate 6 0) 0.

Record Region := MkRegion {
  base_page : Z;
  pages : Z;
  watermark : Z;
  retyped_to : Z;
  pinned : bool;
  parent : Z;
  children : Z;
  spent_on : Spent }.

Record DestroyClaim := MkClaim {
  claim_base_page : Z;
  claim_pages : Z;
  claim_parent : Z;
  claim_is_root : bool }.

Section table.
Context {tbl : Type} `{NT : NameTable Region tbl}.
Implicit Types t : tbl.

Definition insert_root (t : tbl) (base pgs : Z) : option (Z * tbl) :=
  nt_insert t (fun _ => MkRegion base pgs 0 0 false NO_PARENT 0 Spent_default).

(** The table after the call, and the child's name. The parent is written
    before the insert is tried. *)
Definition split (t : tbl) (par pgs : Z) : option Z * tbl :=
  match nt_get t par with
  | None => (None, t)
  | Some r =>
      match split_new_watermark (pages r) (watermark r) pgs with
      | None => (None, t)
      | Some new_watermark =>
          let base := base_page r + watermark r in
          let s := spent_on r in
          let t1 := nt_set t par (MkRegion (base_page r) (pages r) new_watermark (retyped_to r)
                     (pinned r) (parent r) (children r + 1)
                     (MkSpent (spent_frames s) (spent_objects s) (spent_children s + pgs))) in
          match nt_insert t1 (fun _ => MkRegion base pgs 0 0 false par 0 Spent_default) with
          | Some (n, t2) => (Some n, t2)
          | None => (None, t1)
          end
      end
  end.

Definition has_children (t : tbl) (n : Z) : bool :=
  match nt_get t n with Some r => 0 <? children r | None => false end.

Definition retype_run (t : tbl) (n requested : Z) : option (Z * tbl) :=
  r ← nt_get t n;
  new ← retype_new_watermark (pages r) (watermark r) requested;
  let s := spent_on r in
  Some (base_page r + watermark r,
        nt_set t n (MkRegion (base_page r) (pages r) new new (pinned r) (parent r) (children r)
          (MkSpent (spent_frames s + (new - watermark r)) (spent_objects s) (spent_children s)))).

Definition retype_page (t : tbl) (n : Z) : option (Z * tbl) := retype_run t n 1.

Definition retype_object_page (t : tbl) (n : Z) (kind : ObjectKind) : option (Z * tbl) :=
  r ← nt_get t n;
  if pages r <=? watermark r then None
  else
    let s := spent_on r in
    let i := kind_index kind in
    Some (base_page r + watermark r,
          nt_set t n (MkRegion (base_page r) (pages r) (watermark r + 1) (watermark r + 1) true
            (parent r) (children r)
            (MkSpent (spent_frames s) (<[i := nth i (spent_objects s) 0 + 1]> (spent_objects s))
                     (spent_children s)))).

Definition unpin (t : tbl) (n : Z) : tbl :=
  match nt_get t n with
  | None => t
  | Some r => nt_set t n (MkRegion (base_page r) (pages r) (watermark r) (retyped_to r) false
                (parent r) (children r) (spent_on r))
  end.

Definition usage (t : tbl) (n : Z) : option (Z * Z) :=
  (fun r => (watermark r, pages r)) <$> nt_get t n.

(** The bounded walk of [descends_from]. *)
Fixpoint descends_loop (t : tbl) (fuel : nat) (at_ ancestor : Z) : bool :=
  match fuel with
  | O => false
  | S fuel' =>
      if at_ =? NO_PARENT then false
      else if at_ =? ancestor then true
      else descends_loop t fuel' (from_option parent NO_PARENT (nt_get t at_)) ancestor
  end.

Definition descends_from (t : tbl) (N : nat) (n ancestor : Z) : bool :=
  descends_loop t N (from_option parent NO_PARENT (nt_get t n)) ancestor.

Definition count_use (on : PageUse) (r : Region) : Z :=
  match on with
  | UFrames => spent_frames (spent_on r)
  | UObject k => nth (kind_index k) (spent_objects (spent_on r)) 0
  | UChildren => spent_children (spent_on r)
  end.

Definition spent (t : tbl) (N : nat) (n : Z) (on : PageUse) : option Z :=
  own ← nt_get t n;
  match on with
  | UChildren => Some (count_use on own)
  | _ => Some (foldr Z.add 0 ((fun p => count_use on p.2) <$>
           filter (fun p => (p.1 =? n) || descends_from t N p.1 n = true) (nt_iter t)))
  end.

Definition bounds (t : tbl) (n : Z) : option (Z * Z) :=
  (fun r => (base_page r, pages r)) <$> nt_get t n.

Definition claim_for_destroy (t : tbl) (n : Z) : option (DestroyClaim * tbl) :=
  r ← nt_get t n;
  let is_root := parent r =? NO_PARENT in
  if decide (destroy_outcome (pinned r) (children r) is_root false (pages r) = Refused) then None
  else Some (MkClaim (base_page r) (pages r) (parent r) is_root, (nt_remove t n).2).

(** The live children of [par] and how far they reach. *)
Definition live_extent (t : tbl) (par parent_base : Z) : Z * Z :=
  fold_left (fun '(n, to) '(_, r) => (n + 1, Z.max to (base_page r + pages r - parent_base)))
    (filter (fun p => parent p.2 = par) (nt_iter t)) (0, 0).

Definition return_to_parent (t : tbl) (c : DestroyClaim) : tbl :=
  if claim_is_root c then t
  else match nt_get t (claim_parent c) with
  | None => t
  | Some p =>
      let '(live, live_to) := live_extent t (claim_parent c) (base_page p) in
      let is_lifo_top := claim_base_page c + claim_pages c =? base_page p + watermark p in
      let w1 := match destroy_outcome false 0 false is_lifo_top (claim_pages c) with
                | ReturnToParent unbump => watermark p - unbump
                | _ => watermark p
                end in
      let kids := saturating_sub (children p) 1 in
      let s := spent_on p in
      nt_set t (claim_parent c)
        (MkRegion (base_page p) (pages p)
           (coalesced_watermark w1 (retyped_to p) live_to (kids =? live))
           (retyped_to p) (pinned p) (parent p) kids
           (MkSpent (spent_frames s) (spent_objects s) (saturating_sub (spent_children s) (claim_pages c))))
  end.
End table.

(** ** Executions with a ledger of pages

    Beside the table: the claims minted and not yet spent ([flying]), the runs
    a refused split left spent on its parent ([phantoms]), and the pages each
    live region has handed out ([held]). *)

Section executions.
Context {tbl : Type} `{Laws : NameTableLaws Region tbl}.
Implicit Types (t : tbl) (c : DestroyClaim).

Record World := MkWorld {
  rt : tbl;
  flying : list DestroyClaim;
  phantoms : list DestroyClaim;
  held : list (Z * Z) }.

(** Page [x] of the run [(base, pgs)]. *)
Definition in_run (x base pgs : Z) : Prop := base <= x < base + pgs.

Definition disjoint_runs (b1 p1 b2 p2 : Z) : Prop := forall x, in_run x b1 p1 -> ~ in_run x b2 p2.

(** The run of [pgs] pages from [base], handed out by region [n]. *)
Definition hand_out (n base pgs : Z) : list (Z * Z) :=
  (fun k => (n, base + Z.of_nat k)) <$> seq 0 (Z.to_nat pgs).

(** A run the frame allocator may give a new root: no live root and no root
    claim in flight overlaps it. *)
Definition run_is_free (w : World) (base pgs : Z) : Prop :=
  0 <= base /\ 0 <= pgs /\
  (forall n r, nt_get (rt w) n = Some r -> parent r = NO_PARENT ->
     disjoint_runs base pgs (base_page r) (pages r)) /\
  (forall c, c ∈ flying w -> claim_is_root c = true ->
     disjoint_runs base pgs (claim_base_page c) (claim_pages c)).

Inductive step : World -> World -> Prop :=
  | step_root w base pgs n t' :
      run_is_free w base pgs -> insert_root (rt w) base pgs = Some (n, t') ->
      step w (MkWorld t' (flying w) (phantoms w) (held w))
  | step_split w par pgs n t' :
      0 <= pgs -> split (rt w) par pgs = (Some n, t') ->
      step w (MkWorld t' (flying w) (phantoms w) (held w))
  | step_split_refused w par pgs t' :
      0 <= pgs -> split (rt w) par pgs = (None, t') ->
      step w (MkWorld t' (flying w)
        (match nt_get (rt w) par with
         | Some r => match split_new_watermark (pages r) (watermark r) pgs with
                     | Some _ => [MkClaim (base_page r + watermark r) pgs par false]
                     | None => []
                     end
         | None => []
         end ++ phantoms w) (held w))
  | step_retype w n requested page t' :
      0 <= requested -> retype_run (rt w) n requested = Some (page, t') ->
      step w (MkWorld t' (flying w) (phantoms w) (hand_out n page (retype_pages requested) ++ held w))
  | step_retype_object w n kind page t' :
      retype_object_page (rt w) n kind = Some (page, t') ->
      step w (MkWorld t' (flying w) (phantoms w) ((n, page) :: held w))
  | step_unpin w n : step w (MkWorld (unpin (rt w) n) (flying w) (phantoms w) (held w))
  | step_claim w n c t' :
      claim_for_destroy (rt w) n = Some (c, t') ->
      step w (MkWorld t' (c :: flying w) (phantoms w) (filter (fun p => p.1 <> n) (held w)))
  | step_return w l1 c l2 :
      flying w = l1 ++ c :: l2 -> claim_is_root c = false ->
      step w (MkWorld (return_to_parent (rt w) c) (l1 ++ l2) (phantoms w) (held w))
  | step_free_root w l1 c l2 :
      flying w = l1 ++ c :: l2 -> claim_is_root c = true ->
      step w (MkWorld (rt w) (l1 ++ l2) (phantoms w) (held w)).

(** *** The invariant, as counts per page and parent *)

Definition b2n (P : Prop) `{Decision P} : nat := if decide P then 1 else 0.

#[local] Instance in_run_dec x b p : Decision (in_run x b p).
Proof. unfold in_run. apply _. Defined.

Definition node_at (p x par base pgs : Z) : nat := b2n (par = p /\ in_run x base pgs).
Definition live_at (p x : Z) (e : Z * Region) : nat := node_at p x (parent e.2) (base_page e.2) (pages e.2).
Definition away_at (p x : Z) (c : DestroyClaim) : nat :=
  node_at p x (claim_parent c) (claim_base_page c) (claim_pages c).

Definition away (w : World) : list DestroyClaim := flying w ++ phantoms w.

(** How many children of [p], live or away, hold page [x]; how often [p] itself
    handed it out; how many children [p] has. *)
Definition cover (w : World) (p x : Z) : nat :=
  (sum_list_with (live_at p x) (nt_iter (rt w)) + sum_list_with (away_at p x) (away w))%nat.
Definition own (w : World) (p x : Z) : nat := sum_list_with (fun e => b2n (e = (p, x))) (held w).
Definition live_kids (w : World) (p : Z) : nat :=
  sum_list_with (fun e => b2n (parent e.2 = p)) (nt_iter (rt w)).
Definition away_kids (w : World) (p : Z) : nat :=
  sum_list_with (fun c => b2n (claim_parent c = p)) (away w).

Definition live (w : World) (n : Z) : Prop := is_Some (nt_get (rt w) n).

Record region_ok (w : World) (n : Z) (r : Region) : Prop := {
  ro_retyped : 0 <= retyped_to r <= watermark r;
  ro_budget : watermark r <= pages r;
  ro_children : children r = Z.of_nat (live_kids w n + away_kids w n);
  ro_once x : (own w n x + cover w n x <= 1)%nat;
  ro_below x : (1 <= own w n x + cover w n x)%nat -> in_run x (base_page r) (watermark r);
  ro_own x : (1 <= own w n x)%nat -> x < base_page r + retyped_to r;
  ro_top : retyped_to r = 0 \/ (1 <= own w n (base_page r + retyped_to r - 1))%nat }.

Inductive rooted t : Z -> Prop :=
  | rooted_root n r : nt_get t n = Some r -> parent r = NO_PARENT -> rooted t n
  | rooted_child n r : nt_get t n = Some r -> rooted t (parent r) -> rooted t n.

Record inv (w : World) : Prop := {
  inv_ok : nt_ok (rt w);
  inv_names n : live w n -> n <> NO_PARENT;
  inv_region n r : nt_get (rt w) n = Some r -> region_ok w n r;
  inv_roots x : (cover w NO_PARENT x <= 1)%nat;
  inv_held n x : (1 <= own w n x)%nat -> live w n;
  inv_away c : c ∈ away w -> claim_is_root c = true <-> claim_parent c = NO_PARENT;
  inv_away_parent c : c ∈ away w -> claim_parent c = NO_PARENT \/ live w (claim_parent c);
  inv_away_pages c : c ∈ away w -> 0 <= claim_pages c;
  inv_phantom c : c ∈ phantoms w -> claim_is_root c = false;
  inv_rooted n : live w n -> rooted (rt w) n }.

(** *** Counting over the table *)

Lemma iter_insert_perm t t' n v :
  nt_ok t -> nt_ok t' -> nt_get t n = None ->
  (forall m, nt_get t' m = if decide (m = n) then Some v else nt_get t m) ->
  nt_iter t' ≡ₚ (n, v) :: nt_iter t.
Proof.
  intros Hok Hok' Hn Hget. apply NoDup_Permutation.
  - apply NoDup_fmap_1 with (f := fst). by apply nt_iter_nodup.
  - constructor; [rewrite nt_iter_spec by done; congruence|].
    apply NoDup_fmap_1 with (f := fst). by apply nt_iter_nodup.
  - intros [m u]. rewrite elem_of_cons, !nt_iter_spec, Hget by done.
    case_decide as Hm; [subst|]; naive_solver.
Qed.

Lemma iter_set_perm t n v v' :
  nt_ok t -> nt_get t n = Some v ->
  exists l, nt_iter t ≡ₚ (n, v) :: l /\ nt_iter (nt_set t n v') ≡ₚ (n, v') :: l.
Proof.
  intros Hok Hn. destruct (nt_remove_ok t n Hok) as (_ & Hok0 & Hg0).
  destruct (nt_set_ok t n v' Hok) as [Hok' Hg']; [by eexists|].
  exists (nt_iter (nt_remove t n).2). split; apply iter_insert_perm; auto.
  - by rewrite Hg0, decide_True.
  - intros m. rewrite Hg0. case_decide; congruence.
  - by rewrite Hg0, decide_True.
  - intros m. rewrite Hg', Hg0. by case_decide.
Qed.

Lemma b2n_le P `{Decision P} : (b2n P <= 1)%nat.
Proof. unfold b2n. case_decide; lia. Qed.

Lemma b2n_pos P `{Decision P} : (1 <= b2n P)%nat <-> P.
Proof. unfold b2n. case_decide; split; (done || lia). Qed.

Lemma b2n_iff P Q `{Decision P, Decision Q} : (P <-> Q) -> b2n P = b2n Q.
Proof. intros. unfold b2n. repeat case_decide; tauto. Qed.

Lemma b2n_false P `{Decision P} : ~ P -> b2n P = 0%nat.
Proof. intros. unfold b2n. by rewrite decide_False. Qed.

Lemma sum_pos {A} (g : A -> nat) l : (1 <= sum_list_with g l)%nat -> exists a, a ∈ l /\ (1 <= g a)%nat.
Proof.
  induction l as [|a l IH]; simpl; [lia|]. intros Hs.
  destruct (decide (1 <= g a)%nat); [exists a; set_solver|].
  destruct IH as (b & ? & ?); [lia|]. exists b. set_solver.
Qed.

Lemma sum_zero {A} (g : A -> nat) l : (forall a, a ∈ l -> g a = 0%nat) -> sum_list_with g l = 0%nat.
Proof.
  intros Hz. induction l as [|a l IH]; [done|]. simpl. rewrite Hz, IH; [done| |set_solver].
  intros b Hb. apply Hz. set_solver.
Qed.

Lemma sum_le {A} (g g' : A -> nat) l :
  (forall a, a ∈ l -> (g a <= g' a)%nat) -> (sum_list_with g l <= sum_list_with g' l)%nat.
Proof.
  intros Hz. induction l as [|a l IH]; [done|]. simpl.
  assert (g a <= g' a)%nat by (apply Hz; set_solver).
  assert (sum_list_with g l <= sum_list_with g' l)%nat by (apply IH; intros b Hb; apply Hz; set_solver). lia.
Qed.

(** A page a child holds makes its parent have a child. *)
Lemma cover_kids w p x : (cover w p x <= live_kids w p + away_kids w p)%nat.
Proof.
  unfold cover, live_kids, away_kids. apply Nat.add_le_mono; apply sum_le; intros a _;
    unfold live_at, away_at, node_at, b2n; repeat case_decide; naive_solver lia.
Qed.

Lemma region_ok_ext w w' n r :
  (forall x, own w' n x = own w n x) -> (forall x, cover w' n x = cover w n x) ->
  (live_kids w' n + away_kids w' n = live_kids w n + away_kids w n)%nat ->
  region_ok w n r -> region_ok w' n r.
Proof.
  intros Ho Hc Hk [H1 H2 H3 H4 H5 H6 H7].
  split; rewrite ?Ho, ?Hk; auto; intros x; rewrite ?Ho, ?Hc; auto.
Qed.

(** A dead name that is not [NO_PARENT] has no children and no pages. *)
Lemma dead_no_kids w n :
  inv w -> nt_get (rt w) n = None -> n <> NO_PARENT -> (live_kids w n + away_kids w n = 0)%nat.
Proof.
  intros Hi Hn Hne. unfold live_kids, away_kids. rewrite !sum_zero; [done| |].
  - intros c Hc. apply b2n_false. intros Hp.
    destruct (inv_away_parent w Hi c Hc) as [?|[? ?]]; congruence.
  - intros [m r] Hm. apply b2n_false. simpl. intros Hp. apply nt_iter_spec in Hm; [|apply (inv_ok w Hi)].
    destruct (inv_rooted w Hi m) as [m r' Hr ?|m r' Hr Hroot]; [by exists r|congruence|].
    assert (r' = r) as -> by congruence. rewrite Hp in Hroot. inversion Hroot; congruence.
Qed.

Lemma dead_own w n x : inv w -> nt_get (rt w) n = None -> own w n x = 0%nat.
Proof.
  intros Hi Hn. destruct (own w n x) eqn:Ho; [done|].
  destruct (inv_held w Hi n x) as [r Hr]; [lia|congruence].
Qed.

(** A fresh region starts well formed. *)
Lemma fresh_region_ok w w' n base pgs par :
  inv w -> nt_get (rt w) n = None -> n <> NO_PARENT -> par <> n -> 0 <= pgs ->
  (forall x, own w' n x = own w n x) -> (forall x, cover w' n x = cover w n x) ->
  (live_kids w' n + away_kids w' n = live_kids w n + away_kids w n)%nat ->
  region_ok w' n (MkRegion base pgs 0 0 false par 0 Spent_default).
Proof.
  intros Hi Hn Hne Hpar Hp Ho Hc Hk. pose proof (dead_no_kids w n Hi Hn Hne) as Hz.
  assert (forall x, own w' n x = 0%nat) as Ho0 by (intros; rewrite Ho; by apply dead_own).
  assert (forall x, cover w' n x = 0%nat) as Hc0.
  { intros x. rewrite Hc. pose proof (cover_kids w n x). lia. }
  split; simpl; try lia; intros x; rewrite ?Ho0, ?Hc0; lia.
Qed.

Lemma rooted_mono t t' :
  (forall n r, nt_get t n = Some r -> exists r', nt_get t' n = Some r' /\ parent r' = parent r) ->
  forall n, rooted t n -> rooted t' n.
Proof.
  intros Hm n Hr. induction Hr as [n r Hn Hp|n r Hn Hr IH]; destruct (Hm n r Hn) as (r' & Hn' & Hp').
  - apply (rooted_root _ n r'); congruence.
  - apply (rooted_child _ n r'); [done|]. by rewrite Hp'.
Qed.

(** *** Rewriting one region's record, its run and parent unchanged *)

Lemma set_counts w n r r' fl ph hd :
  nt_ok (rt w) -> nt_get (rt w) n = Some r ->
  base_page r' = base_page r -> pages r' = pages r -> parent r' = parent r ->
  fl ++ ph ≡ₚ away w ->
  let w' := MkWorld (nt_set (rt w) n r') fl ph hd in
  (forall p x, cover w' p x = cover w p x) /\ (forall p, live_kids w' p = live_kids w p) /\
  (forall p, away_kids w' p = away_kids w p).
Proof.
  intros Hok Hn Hb Hpg Hpar Hperm w'. destruct (iter_set_perm (rt w) n r r' Hok Hn) as (l & H1 & H2).
  unfold cover, live_kids, away_kids, w', away in *. simpl. split_and!; intros.
  - rewrite H1, H2, Hperm. simpl. unfold live_at at 1 3. simpl. by rewrite Hb, Hpg, Hpar.
  - rewrite H1, H2. simpl. by rewrite Hpar.
  - by rewrite Hperm.
Qed.

Lemma set_live w n r r' fl ph hd m :
  nt_ok (rt w) -> nt_get (rt w) n = Some r -> live (MkWorld (nt_set (rt w) n r') fl ph hd) m <-> live w m.
Proof.
  intros Hok Hn. unfold live. simpl. destruct (nt_set_ok (rt w) n r' Hok) as [_ Hg]; [by eexists|].
  rewrite Hg. case_decide as Hm; [subst; rewrite Hn; split; eauto|done].
Qed.

Lemma set_rooted w n r r' m :
  nt_ok (rt w) -> nt_get (rt w) n = Some r -> parent r' = parent r ->
  rooted (rt w) m -> rooted (nt_set (rt w) n r') m.
Proof.
  intros Hok Hn Hp. apply rooted_mono. intros k rk Hk.
  destruct (nt_set_ok (rt w) n r' Hok) as [_ Hg]; [by eexists|]. rewrite Hg.
  case_decide as Hkn; [subst; exists r'; split; [done|congruence]|by exists rk].
Qed.

Lemma set_inv w n r r' new :
  inv w -> nt_get (rt w) n = Some r ->
  base_page r' = base_page r -> pages r' = pages r -> parent r' = parent r ->
  Forall (fun e => e.1 = n) new ->
  let w' := MkWorld (nt_set (rt w) n r') (flying w) (phantoms w) (new ++ held w) in
  region_ok w' n r' -> inv w'.
Proof.
  intros Hi Hn Hb Hpg Hpar Hnew w' Hr'. pose proof (inv_ok w Hi) as Hok.
  destruct (set_counts w n r r' (flying w) (phantoms w) (new ++ held w) Hok Hn Hb Hpg Hpar) as (Hc & Hlk & Hak);
    [done|].
  destruct (nt_set_ok (rt w) n r' Hok) as [Hok' Hg]; [by eexists|].
  assert (Hown : forall m x, m <> n -> own w' m x = own w m x).
  { intros m x Hm. unfold own, w'. simpl. rewrite sum_list_with_app, sum_zero; [done|].
    intros e He. apply b2n_false. intros ->. rewrite Forall_forall in Hnew. by apply (Hnew (m, x)) in He. }
  assert (Hl : forall m, live w' m <-> live w m) by (intros; by apply (set_live w n r)).
  split.
  - done.
  - intros m Hm. apply (inv_names w Hi). by apply Hl.
  - intros m rm. simpl. rewrite Hg. case_decide as Hm; [intros [= <-]; by subst|]. intros Hrm.
    apply (region_ok_ext w); [auto|auto|by rewrite Hlk, Hak|by apply (inv_region w Hi)].
  - intros x. rewrite Hc. apply (inv_roots w Hi).
  - intros m x Ho. apply Hl. destruct (decide (m = n)) as [->|Hm]; [by exists r|].
    rewrite Hown in Ho by done. by apply (inv_held w Hi m x).
  - apply (inv_away w Hi).
  - intros c Hcw. destruct (inv_away_parent w Hi c Hcw); [by left|right]. by apply Hl.
  - apply (inv_away_pages w Hi).
  - apply (inv_phantom w Hi).
  - intros m Hm. apply (set_rooted w n r); auto. apply (inv_rooted w Hi). by apply Hl.
Qed.

Lemma sum_hand_out n base pgs m x :
  0 <= pgs -> sum_list_with (fun e => b2n (e = (m, x))) (hand_out n base pgs) = b2n (m = n /\ in_run x base pgs).
Proof.
  intros Hp. unfold hand_out.
  assert (forall k a, sum_list_with (fun e => b2n (e = (m, x))) ((fun j => (n, base + Z.of_nat j)) <$> seq a k)
    = b2n (m = n /\ base + Z.of_nat a <= x < base + Z.of_nat (a + k))) as Hgen.
  { induction k as [|k IH]; intros a; simpl.
    - symmetry. apply b2n_false. lia.
    - rewrite IH. destruct (decide (m = n)) as [->|Hne].
      + rewrite (b2n_iff ((n, base + Z.of_nat a) = (n, x)) (base + Z.of_nat a = x)) by naive_solver.
        unfold b2n. repeat case_decide; lia.
      + rewrite !b2n_false; [done|naive_solver..]. }
  rewrite Hgen. unfold in_run, b2n. repeat case_decide; lia.
Qed.

(** Advancing a region's own retypes from its watermark to [new]. *)
Lemma retyped_ok w n r r' new :
  inv w -> nt_get (rt w) n = Some r -> watermark r < new <= pages r ->
  base_page r' = base_page r -> pages r' = pages r -> parent r' = parent r -> children r' = children r ->
  watermark r' = new -> retyped_to r' = new ->
  inv (MkWorld (nt_set (rt w) n r') (flying w) (phantoms w)
         (hand_out n (base_page r + watermark r) (new - watermark r) ++ held w)).
Proof.
  intros Hi Hn Hnew Hb Hpg Hpar Hch Hw' Hrt'. pose proof (inv_region w Hi n r Hn) as Hr.
  apply (set_inv w n r); auto.
  { unfold hand_out. rewrite Forall_fmap. by apply Forall_true. }
  destruct (set_counts w n r r' (flying w) (phantoms w)
    (hand_out n (base_page r + watermark r) (new - watermark r) ++ held w) (inv_ok w Hi) Hn Hb Hpg Hpar)
    as (Hc & Hlk & Hak); [done|].
  assert (Hown : forall x, own (MkWorld (nt_set (rt w) n r') (flying w) (phantoms w)
      (hand_out n (base_page r + watermark r) (new - watermark r) ++ held w)) n x =
    (b2n (in_run x (base_page r + watermark r) (new - watermark r)) + own w n x)%nat).
  { intros x. unfold own. simpl. rewrite sum_list_with_app, sum_hand_out by lia. f_equal.
    unfold b2n. repeat case_decide; naive_solver. }
  destruct Hr as [Hrt Hbud Hkids Honce Hbelow Hro Htop].
  split; rewrite ?Hw', ?Hrt', ?Hb, ?Hpg, ?Hch, ?Hlk, ?Hak; try lia.
  - intros x. rewrite Hown, Hc. specialize (Honce x). specialize (Hbelow x).
    unfold b2n, in_run in *. case_decide; lia.
  - intros x. rewrite Hown, Hc. specialize (Hbelow x). unfold b2n, in_run in *. case_decide; lia.
  - intros x. rewrite Hown. specialize (Hro x). unfold b2n, in_run in *. case_decide; lia.
  - right. rewrite Hown. unfold b2n, in_run. case_decide; lia.
Qed.

(** *** Carving a run off a region *)

Lemma split_watermark_Some p w k n :
  split_new_watermark p w k = Some n -> k <> 0 /\ n = w + k /\ n <= p.
Proof.
  unfold split_new_watermark, checked_add. destruct (Z.eqb_spec k 0); [done|].
  case_decide; simpl; [|done]. destruct (Z.ltb_spec p (w + k)); [done|]. intros; simplify_eq. done.
Qed.

Lemma carve_inv w w' par r r1 nw pgs :
  inv w -> nt_get (rt w) par = Some r -> 0 <= pgs ->
  split_new_watermark (pages r) (watermark r) pgs = Some nw ->
  base_page r1 = base_page r -> pages r1 = pages r -> parent r1 = parent r -> watermark r1 = nw ->
  retyped_to r1 = retyped_to r -> children r1 = children r + 1 ->
  nt_ok (rt w') -> nt_get (rt w') par = Some r1 ->
  (forall m rm, nt_get (rt w') m = Some rm -> m <> par ->
     nt_get (rt w) m = Some rm \/
     (nt_get (rt w) m = None /\ m <> NO_PARENT /\
      rm = MkRegion (base_page r + watermark r) pgs 0 0 false par 0 Spent_default)) ->
  (forall m rm, nt_get (rt w) m = Some rm -> m <> par -> nt_get (rt w') m = Some rm) ->
  (forall m x, own w' m x = own w m x) ->
  (forall p x, cover w' p x = (cover w p x + node_at p x par (base_page r + watermark r) pgs)%nat) ->
  (forall p, (live_kids w' p + away_kids w' p = live_kids w p + away_kids w p + b2n (par = p))%nat) ->
  (forall c, c ∈ away w' -> c ∈ away w \/ (claim_is_root c = false /\ claim_parent c = par /\ claim_pages c = pgs)) ->
  (forall c, c ∈ phantoms w' -> claim_is_root c = false) ->
  inv w'.
Proof.
  intros Hi Hn Hp0 Hnw Hb Hpg Hpar Hw1 Hrt1 Hch1 Hok' Hn' Hback Hfwd Hown Hcov Hkids Haway Hph.
  apply split_watermark_Some in Hnw as (Hne & -> & Hle).
  assert (Hparl : live w par) by (by exists r). pose proof (inv_names w Hi par Hparl) as Hparn.
  assert (Hkeep : forall m rm, nt_get (rt w) m = Some rm ->
    exists rm', nt_get (rt w') m = Some rm' /\ parent rm' = parent rm).
  { intros m rm Hm. destruct (decide (m = par)) as [->|Hmp]; [exists r1; split; [done|congruence]|].
    exists rm. eauto. }
  assert (Hlw : forall m, live w m -> live w' m).
  { intros m [rm Hm]. destruct (Hkeep m rm Hm) as (rm' & ? & _). by exists rm'. }
  assert (Hcov0 : forall m x, m <> par -> cover w' m x = cover w m x).
  { intros m x Hm. rewrite Hcov. unfold node_at. rewrite b2n_false by naive_solver. lia. }
  assert (Hkids0 : forall m, m <> par -> (live_kids w' m + away_kids w' m = live_kids w m + away_kids w m)%nat).
  { intros m Hm. rewrite Hkids, b2n_false by congruence. lia. }
  split.
  - done.
  - intros m [rm Hm]. destruct (decide (m = par)) as [->|Hmp]; [done|].
    destruct (Hback m rm Hm Hmp) as [Hold|(_ & ? & _)]; [|done]. apply (inv_names w Hi). by exists rm.
  - intros m rm Hm. destruct (decide (m = par)) as [->|Hmp].
    + assert (rm = r1) as -> by congruence.
      destruct (inv_region w Hi par r Hn) as [Hrt Hbud Hk Honce Hbelow Hro Htop].
      specialize (Hkids par). assert (b2n (par = par) = 1%nat) as Hself by (unfold b2n; by rewrite decide_True).
      split; rewrite ?Hw1, ?Hrt1, ?Hb, ?Hpg, ?Hch1; try lia.
      * intros x. rewrite Hown, Hcov. specialize (Honce x). specialize (Hbelow x). clear -Honce Hbelow.
        unfold node_at, b2n, in_run in *. case_decide; lia.
      * intros x. rewrite Hown, Hcov. specialize (Hbelow x). clear -Hbelow Hp0 Hrt Hle.
        unfold node_at, b2n, in_run in *. case_decide; lia.
      * intros x. rewrite Hown. auto.
      * by rewrite Hown.
    + destruct (Hback m rm Hm Hmp) as [Hold|(Hnone & Hmn & ->)].
      * apply (region_ok_ext w); auto. by apply (inv_region w Hi).
      * apply (fresh_region_ok w); auto.
  - intros x. rewrite Hcov0 by done. apply (inv_roots w Hi).
  - intros m x Ho. rewrite Hown in Ho. apply Hlw. by apply (inv_held w Hi m x).
  - intros c Hc. destruct (Haway c Hc) as [Hold|(-> & Hcp & _)]; [by apply (inv_away w Hi)|].
    rewrite Hcp. naive_solver.
  - intros c Hc. destruct (Haway c Hc) as [Hold|(_ & -> & _)]; [|right; by exists r1].
    destruct (inv_away_parent w Hi c Hold); auto.
  - intros c Hc. destruct (Haway c Hc) as [Hold|(_ & _ & ->)]; [by apply (inv_away_pages w Hi)|done].
  - done.
  - intros m [rm Hm]. destruct (decide (m = par)) as [->|Hmp].
    { apply (rooted_mono (rt w)); [done|]. by apply (inv_rooted w Hi). }
    destruct (Hback m rm Hm Hmp) as [Hold|(_ & _ & ->)].
    + apply (rooted_mono (rt w)); [done|]. apply (inv_rooted w Hi). by exists rm.
    + eapply rooted_child; [exact Hm|]. simpl.
      apply (rooted_mono (rt w)); [done|]. by apply (inv_rooted w Hi).
Qed.

(** The parent's record after a carve. *)
Definition carved (r : Region) (nw pgs : Z) : Region :=
  MkRegion (base_page r) (pages r) nw (retyped_to r) (pinned r) (parent r) (children r + 1)
    (MkSpent (spent_frames (spent_on r)) (spent_objects (spent_on r)) (spent_children (spent_on r) + pgs)).

Lemma split_inv w par pgs n t' :
  inv w -> 0 <= pgs -> split (rt w) par pgs = (Some n, t') ->
  inv (MkWorld t' (flying w) (phantoms w) (held w)).
Proof.
  intros Hi Hp. unfold split. destruct (nt_get (rt w) par) as [r|] eqn:Hn; [|done].
  destruct (split_new_watermark (pages r) (watermark r) pgs) as [nw|] eqn:Hnw; [|done].
  fold (carved r nw pgs). set (t1 := nt_set (rt w) par (carved r nw pgs)).
  destruct (nt_insert t1 _) as [[n' t2]|] eqn:Hins; [|done]. intros [= <- <-].
  pose proof (inv_ok w Hi) as Hok.
  destruct (nt_set_ok (rt w) par (carved r nw pgs) Hok) as [Hok1 Hg1]; [by eexists|]. fold t1 in Hok1, Hg1.
  destruct (nt_insert_ok t1 _ n' t2 Hok1 Hins) as (Hok2 & Hfresh & Hrange & Hg2).
  pose proof (iter_insert_perm t1 t2 n' _ Hok1 Hok2 Hfresh Hg2) as Hperm.
  destruct (set_counts w par r (carved r nw pgs) (flying w) (phantoms w) (held w) Hok Hn) as (Hc & Hlk & Hak);
    [done..|]. fold t1 in Hc, Hlk, Hak.
  assert (n' <> par) as Hnp.
  { intros ->. rewrite Hg1, decide_True in Hfresh by done. done. }
  eapply (carve_inv w _ par r (carved r nw pgs) nw pgs); eauto; simpl.
  - rewrite Hg2, decide_False, Hg1, decide_True by done. done.
  - intros m rm. rewrite Hg2. case_decide as Hm.
    + intros [= <-] Hmp. right. subst m. rewrite Hg1, decide_False in Hfresh by done.
      split_and!; [done|unfold NO_PARENT; lia|done].
    + intros Hm1 Hmp. rewrite Hg1, decide_False in Hm1 by done. auto.
  - intros m rm Hm Hmp. rewrite Hg2, decide_False, Hg1, decide_False; try done.
    intros ->. rewrite Hg1, decide_False in Hfresh by done. congruence.
  - intros p x. rewrite <- (Hc p x). unfold cover. simpl. rewrite Hperm. simpl. unfold live_at at 1. simpl. unfold away. simpl. lia.
  - intros p. rewrite <- (Hlk p), <- (Hak p). unfold live_kids, away_kids, away. simpl. rewrite Hperm. simpl. lia.
  - apply (inv_phantom w Hi).
Qed.

Lemma split_refused_inv w par pgs t' :
  inv w -> 0 <= pgs -> split (rt w) par pgs = (None, t') ->
  inv (MkWorld t' (flying w)
    (match nt_get (rt w) par with
     | Some r => match split_new_watermark (pages r) (watermark r) pgs with
                 | Some _ => [MkClaim (base_page r + watermark r) pgs par false]
                 | None => []
                 end
     | None => []
     end ++ phantoms w) (held w)).
Proof.
  intros Hi Hp. unfold split. destruct (nt_get (rt w) par) as [r|] eqn:Hn.
  2: { intros [= <-]. by destruct w. }
  destruct (split_new_watermark (pages r) (watermark r) pgs) as [nw|] eqn:Hnw.
  2: { intros [= <-]. by destruct w. }
  fold (carved r nw pgs). set (t1 := nt_set (rt w) par (carved r nw pgs)).
  destruct (nt_insert t1 _) as [[n' t2]|] eqn:Hins; [done|]. intros [= <-].
  pose proof (inv_ok w Hi) as Hok.
  destruct (nt_set_ok (rt w) par (carved r nw pgs) Hok) as [Hok1 Hg1]; [by eexists|]. fold t1 in Hok1, Hg1.
  destruct (set_counts w par r (carved r nw pgs) (flying w) (phantoms w) (held w) Hok Hn) as (Hc & Hlk & Hak);
    [done..|]. fold t1 in Hc, Hlk, Hak.
  eapply (carve_inv w _ par r (carved r nw pgs) nw pgs); eauto; simpl.
  - by rewrite Hg1, decide_True.
  - intros m rm Hm Hmp. rewrite Hg1, decide_False in Hm by done. auto.
  - intros m rm Hm Hmp. by rewrite Hg1, decide_False.
  - intros p x. rewrite <- (Hc p x). unfold cover, away. simpl. rewrite !sum_list_with_app. simpl.
    unfold away_at at 2. simpl. lia.
  - intros p. rewrite <- (Hlk p), <- (Hak p). unfold live_kids, away_kids, away. simpl.
    rewrite !sum_list_with_app. simpl. lia.
  - intros c. unfold away. simpl. rewrite !elem_of_app, elem_of_cons.
    intros [?|[->|?]]; [left; auto|right; done|left; auto].
  - intros c [->|Hcp]%elem_of_cons; [done|by apply (inv_phantom w Hi)].
Qed.

(** *** Creating and reclaiming regions *)

Lemma free_run_uncovered w base pgs x :
  inv w -> run_is_free w base pgs -> in_run x base pgs -> cover w NO_PARENT x = 0%nat.
Proof.
  intros Hi (_ & _ & Hlive & Hfly) Hx. unfold cover. rewrite !sum_zero; [done| |].
  - intros c Hc. unfold away_at, node_at. apply b2n_false. intros [Hpar Hin].
    pose proof (proj2 (inv_away w Hi c Hc) Hpar) as Hroot.
    apply elem_of_app in Hc as [Hc|Hc]; [by apply (Hfly c Hc Hroot x)|].
    pose proof (inv_phantom w Hi c Hc). congruence.
  - intros [n r] Hn. unfold live_at, node_at. simpl. apply b2n_false. intros [Hpar Hin].
    apply nt_iter_spec in Hn; [|apply (inv_ok w Hi)]. by apply (Hlive n r Hn Hpar x).
Qed.

Lemma root_inv w base pgs n t' :
  inv w -> run_is_free w base pgs -> insert_root (rt w) base pgs = Some (n, t') ->
  inv (MkWorld t' (flying w) (phantoms w) (held w)).
Proof.
  intros Hi Hfree Hins. pose proof (inv_ok w Hi) as Hok. unfold insert_root in Hins.
  destruct (nt_insert_ok _ _ _ _ Hok Hins) as (Hok' & Hfresh & Hrange & Hg).
  pose proof (iter_insert_perm _ _ _ _ Hok Hok' Hfresh Hg) as Hperm.
  set (w' := MkWorld t' (flying w) (phantoms w) (held w)).
  assert (Hn : n <> NO_PARENT) by (unfold NO_PARENT; lia).
  assert (Hcov : forall p x, cover w' p x = (cover w p x + node_at p x NO_PARENT base pgs)%nat).
  { intros p x. unfold cover, w', away. simpl. rewrite Hperm. simpl. unfold live_at at 1. simpl. lia. }
  assert (Hkids : forall p, (live_kids w' p + away_kids w' p = live_kids w p + away_kids w p + b2n (NO_PARENT = p))%nat).
  { intros p. unfold live_kids, away_kids, w', away. simpl. rewrite Hperm. simpl. lia. }
  assert (Hcov0 : forall m x, m <> NO_PARENT -> cover w' m x = cover w m x).
  { intros m x Hm. rewrite Hcov. unfold node_at. rewrite b2n_false by naive_solver. lia. }
  assert (Hkids0 : forall m, m <> NO_PARENT -> (live_kids w' m + away_kids w' m = live_kids w m + away_kids w m)%nat).
  { intros m Hm. rewrite Hkids, b2n_false by congruence. lia. }
  assert (Hl : forall m, live w m -> live w' m).
  { intros m [r Hr]. unfold live. simpl. rewrite Hg. case_decide; eauto. }
  split.
  - done.
  - intros m [r Hr]. simpl in Hr. rewrite Hg in Hr. case_decide as Hm; [by subst|].
    apply (inv_names w Hi). by exists r.
  - intros m r. simpl. rewrite Hg. case_decide as Hm.
    + intros [= <-]. subst m. apply (fresh_region_ok w); auto. apply Hfree.
    + intros Hr. assert (m <> NO_PARENT) by (apply (inv_names w Hi); by exists r).
      apply (region_ok_ext w); auto. by apply (inv_region w Hi).
  - intros x. rewrite Hcov. unfold node_at, b2n. case_decide as Hx.
    + rewrite (free_run_uncovered w base pgs x Hi Hfree (proj2 Hx)). lia.
    + pose proof (inv_roots w Hi x). lia.
  - intros m x Ho. apply Hl. by apply (inv_held w Hi m x).
  - apply (inv_away w Hi).
  - intros c Hc. destruct (inv_away_parent w Hi c Hc); auto.
  - apply (inv_away_pages w Hi).
  - apply (inv_phantom w Hi).
  - assert (Hkeep : forall k rk, nt_get (rt w) k = Some rk -> exists rk', nt_get t' k = Some rk' /\ parent rk' = parent rk).
    { intros k rk Hk. exists rk. rewrite Hg, decide_False; [done|]. intros ->. congruence. }
    intros m [r Hr]. simpl in *. rewrite Hg in Hr. case_decide as Hm.
    + subst m. eapply rooted_root; [by rewrite Hg, decide_True|]. by simplify_eq.
    + apply (rooted_mono (rt w)); [done|]. apply (inv_rooted w Hi). by exists r.
Qed.

(** A claim can be minted only for a region without children. *)
Lemma claim_Some t n c t' :
  claim_for_destroy t n = Some (c, t') ->
  exists r, nt_get t n = Some r /\ pinned r = false /\ children r <= 0 /\ t' = (nt_remove t n).2 /\
    c = MkClaim (base_page r) (pages r) (parent r) (parent r =? NO_PARENT).
Proof.
  unfold claim_for_destroy. destruct (nt_get t n) as [r|]; simpl; [|done].
  case_decide as Hd; [done|]. intros [= <- <-]. exists r. unfold destroy_outcome in Hd.
  destruct (pinned r); simpl in Hd; [done|]. destruct (Z.ltb_spec 0 (children r)); [done|].
  split_and!; try done.
Qed.

(** A region whose counter is zero is nobody's parent. *)
Lemma childless w n r :
  inv w -> nt_get (rt w) n = Some r -> children r <= 0 ->
  (forall m rm, nt_get (rt w) m = Some rm -> parent rm <> n) /\
  (forall d, d ∈ away w -> claim_parent d <> n).
Proof.
  intros Hi Hn Hch. pose proof (ro_children _ _ _ (inv_region w Hi n r Hn)) as Hkn. split.
  - intros m rm Hm Hp. assert (1 <= live_kids w n)%nat; [|lia]. unfold live_kids.
    etransitivity; [|apply (sum_list_with_in (m, rm)); apply nt_iter_spec; [apply (inv_ok w Hi)|done]].
    simpl. by apply b2n_pos.
  - intros d Hd Hp. assert (1 <= away_kids w n)%nat; [|lia]. unfold away_kids.
    etransitivity; [|apply (sum_list_with_in d); done]. simpl. by apply b2n_pos.
Qed.

Lemma claim_inv w n c t' :
  inv w -> claim_for_destroy (rt w) n = Some (c, t') ->
  inv (MkWorld t' (c :: flying w) (phantoms w) (filter (fun p => p.1 <> n) (held w))).
Proof.
  intros Hi Hc. destruct (claim_Some _ _ _ _ Hc) as (r & Hn & Hpin & Hch & -> & ->). clear Hc.
  pose proof (inv_ok w Hi) as Hok. destruct (nt_remove_ok (rt w) n Hok) as (_ & Hok' & Hg).
  set (t' := (nt_remove (rt w) n).2) in *.
  pose proof (inv_region w Hi n r Hn) as Hr. pose proof (ro_children _ _ _ Hr) as Hkn.
  assert (Hperm : nt_iter (rt w) ≡ₚ (n, r) :: nt_iter t').
  { apply iter_insert_perm; auto; [by rewrite Hg, decide_True|]. intros m. rewrite Hg. case_decide; congruence. }
  set (c := MkClaim (base_page r) (pages r) (parent r) (parent r =? NO_PARENT)).
  set (w' := MkWorld t' (c :: flying w) (phantoms w) (filter (fun p => p.1 <> n) (held w))).
  assert (Hcov : forall p x, cover w' p x = cover w p x).
  { intros p x. unfold cover, w', away. simpl. rewrite Hperm. simpl. unfold live_at at 2, away_at at 1. simpl. lia. }
  assert (Hkids : forall p, (live_kids w' p + away_kids w' p = live_kids w p + away_kids w p)%nat).
  { intros p. unfold live_kids, away_kids, w', away. simpl. rewrite Hperm. simpl. lia. }
  assert (Hown : forall m x, m <> n -> own w' m x = own w m x).
  { intros m x Hm. unfold own, w'. simpl. clear -Hm. induction (held w) as [|[a b] l IH]; [done|].
    rewrite filter_cons. simpl. case_decide as Ha; simpl; rewrite IH; [done|].
    rewrite (b2n_false ((a, b) = (m, x))) by naive_solver. done. }
  assert (Hown0 : forall x, own w' n x = 0%nat).
  { intros x. unfold own, w'. simpl. apply sum_zero. intros e [He _]%list_elem_of_filter.
    apply b2n_false. intros ->. by apply He. }
  destruct (childless w n r Hi Hn Hch) as [Hnokid Hnoaway].
  assert (Hl : forall m, live w' m <-> live w m /\ m <> n).
  { intros m. unfold live. simpl. rewrite Hg. case_decide as Hm.
    - split; [by intros [??]|naive_solver].
    - naive_solver. }
  split.
  - done.
  - intros m Hm. apply Hl in Hm as [Hm _]. by apply (inv_names w Hi).
  - intros m rm. simpl. rewrite Hg. case_decide as Hm; [done|]. intros Hrm.
    apply (region_ok_ext w); auto. by apply (inv_region w Hi).
  - intros x. rewrite Hcov. apply (inv_roots w Hi).
  - intros m x Ho. destruct (decide (m = n)) as [->|Hm]; [rewrite Hown0 in Ho; lia|].
    rewrite Hown in Ho by done. apply Hl. split; [by apply (inv_held w Hi m x)|done].
  - intros d [->|Hd]%elem_of_cons; [simpl; apply Z.eqb_eq|by apply (inv_away w Hi)].
  - intros d [->|Hd]%elem_of_cons; simpl.
    + destruct (inv_rooted w Hi n) as [m rm Hm Hp|m rm Hm Hroot]; [by exists r| |];
        assert (rm = r) as -> by congruence; [by left|right]. apply Hl.
      split; [|by apply (Hnokid m)]. inversion Hroot; subst; unfold live; eauto.
    + destruct (inv_away_parent w Hi d Hd); [by left|right]. apply Hl. auto.
  - intros d [->|Hd]%elem_of_cons; [simpl; destruct Hr; lia|by apply (inv_away_pages w Hi)].
  - apply (inv_phantom w Hi).
  - intros m Hm. apply Hl in Hm as [Hm Hmn]. apply (inv_rooted w Hi) in Hm. simpl.
    induction Hm as [m rm Hm Hp|m rm Hm Hroot IH].
    + apply (rooted_root _ m rm); [|done]. by rewrite Hg, decide_False.
    + apply (rooted_child _ m rm); [by rewrite Hg, decide_False|]. apply IH. by apply (Hnokid m).
Qed.

(** *** Returning a claimed run *)

Lemma live_extent_spec t par pb L to :
  live_extent t par pb = (L, to) ->
  L = Z.of_nat (sum_list_with (fun e => b2n (parent e.2 = par)) (nt_iter t)) /\
  forall n r, (n, r) ∈ nt_iter t -> parent r = par -> base_page r + pages r - pb <= to.
Proof.
  unfold live_extent.
  assert (Hgen : forall (l : list (Z * Region)) k0 to0,
    fold_left (fun '(n, to) '(_, r) => (n + 1, Z.max to (base_page r + pages r - pb)))
      (filter (fun p => parent p.2 = par) l) (k0, to0) = (L, to) ->
    L = k0 + Z.of_nat (sum_list_with (fun e => b2n (parent e.2 = par)) l) /\ to0 <= to /\
    forall n r, (n, r) ∈ l -> parent r = par -> base_page r + pages r - pb <= to).
  { induction l as [|[n r] l IH]; intros k0 to0; simpl.
    - intros [= -> ->]. split_and!; [lia|done|]. by intros ? ? ?%not_elem_of_nil.
    - rewrite filter_cons. simpl. unfold b2n at 1. case_decide as Hp; simpl.
      + intros H1%IH. destruct H1 as (-> & Hto & Hall). split_and!; [lia|lia|].
        intros n' r' [[= -> ->]|Hin]%elem_of_cons Hp'; [lia|by apply (Hall n')].
      + intros H1%IH. destruct H1 as (-> & Hto & Hall). split_and!; [lia|lia|].
        intros n' r' [[= -> ->]|Hin]%elem_of_cons Hp'; [done|by apply (Hall n')]. }
  intros He%Hgen. destruct He as (-> & _ & Hall). split; [lia|done].
Qed.

Lemma destroy_child_unbump top pgs :
  destroy_outcome false 0 false top pgs = ReturnToParent (if top then pgs else 0).
Proof. done. Qed.

(** What the un-bump and the coalescing leave covers everything still out. *)
Lemma returned_ok w w' par p c l to w1 kids' wm' r' :
  inv w -> nt_get (rt w) par = Some p -> nt_get (rt w') par = Some r' ->
  (forall x, own w' par x = own w par x) ->
  (forall x, cover w par x = (cover w' par x + away_at par x c)%nat) ->
  (live_kids w par + away_kids w par = S (live_kids w' par + away_kids w' par))%nat ->
  claim_parent c = par ->
  live_extent (rt w) par (base_page p) = (l, to) -> live_kids w' par = live_kids w par ->
  (forall x, sum_list_with (live_at par x) (nt_iter (rt w')) = sum_list_with (live_at par x) (nt_iter (rt w))) ->
  w1 = (if claim_base_page c + claim_pages c =? base_page p + watermark p
        then watermark p - claim_pages c else watermark p) ->
  kids' = saturating_sub (children p) 1 ->
  wm' = coalesced_watermark w1 (retyped_to p) to (kids' =? l) ->
  base_page r' = base_page p -> pages r' = pages p -> watermark r' = wm' ->
  retyped_to r' = retyped_to p -> children r' = kids' -> 0 <= claim_pages c ->
  region_ok w' par r'.
Proof.
  intros Hi Hp Hp' Hown Hcov Hkids Hcp He Hlk Hlive -> -> -> Hb Hpg Hw' Hrt' Hch' Hc0.
  destruct (inv_region w Hi par p Hp) as [Hrt Hbud Hch Honce Hbelow Hro Htop].
  destruct (live_extent_spec _ _ _ _ _ He) as [Hl Hto]. fold (live_kids w par) in Hl.
  set (top := claim_base_page c + claim_pages c =? base_page p + watermark p) in *.
  set (w1 := if top then watermark p - claim_pages c else watermark p) in *.
  assert (Hin : forall x, away_at par x c = b2n (in_run x (claim_base_page c) (claim_pages c))).
  { intros x. unfold away_at, node_at. apply b2n_iff. naive_solver. }
  assert (Hx1 : forall x, (1 <= own w' par x + cover w' par x)%nat ->
    base_page p <= x < base_page p + w1 /\ ~ in_run x (claim_base_page c) (claim_pages c)).
  { intros x Hx. rewrite Hown in Hx. specialize (Honce x). specialize (Hbelow x). rewrite Hcov, Hin in Honce, Hbelow.
    unfold b2n in Honce, Hbelow. case_decide as Hr; [lia|]. split; [|done]. unfold w1, top, in_run in *.
    destruct (Z.eqb_spec (claim_base_page c + claim_pages c) (base_page p + watermark p)); lia. }
  assert (Hrt1 : retyped_to p <= w1).
  { destruct Htop as [Hz|Htop].
    - unfold w1, top. destruct (Z.eqb_spec (claim_base_page c + claim_pages c) (base_page p + watermark p)) as [Ht|]; [|lia].
      destruct (decide (claim_pages c = 0)); [lia|].
      assert (1 <= own w par (claim_base_page c) + cover w par (claim_base_page c))%nat as Hc1.
      { rewrite Hcov, Hin. unfold b2n. rewrite decide_True by (unfold in_run; lia). lia. }
      apply Hbelow in Hc1. unfold in_run in Hc1. lia.
    - rewrite <- Hown in Htop. destruct (Hx1 (base_page p + retyped_to p - 1)); [lia|]. lia. }
  assert (Hw1 : w1 <= watermark p).
  { unfold w1. destruct top; lia. }
  assert (Hk : saturating_sub (children p) 1 = Z.of_nat (live_kids w' par + away_kids w' par)).
  { unfold saturating_sub. lia. }
  assert (Hwm : retyped_to p <= coalesced_watermark w1 (retyped_to p) to (saturating_sub (children p) 1 =? l) <= w1).
  { unfold coalesced_watermark. destruct (saturating_sub (children p) 1 =? l); simpl; lia. }
  split; rewrite ?Hw', ?Hrt', ?Hb, ?Hpg, ?Hch'; try lia.
  - intros x. specialize (Honce x). rewrite Hcov in Honce. rewrite Hown. lia.
  - intros x Hx. destruct (Hx1 x Hx) as [Hx2 _]. unfold in_run.
    unfold coalesced_watermark. destruct (Z.eqb_spec (saturating_sub (children p) 1) l) as [Hq|]; simpl; [|lia].
    assert (away_kids w' par = 0%nat) as Ha by lia.
    assert (sum_list_with (away_at par x) (away w') = 0%nat) as Haz.
    { apply sum_zero. intros d Hd. unfold away_at, node_at. apply b2n_false. intros [Hdp _].
      assert (1 <= away_kids w' par)%nat; [|lia]. unfold away_kids.
      etransitivity; [|apply (sum_list_with_in d); done]. simpl. by apply b2n_pos. }
    destruct (decide (1 <= own w' par x)%nat) as [Ho|Ho].
    + rewrite Hown in Ho. specialize (Hro x Ho). lia.
    + assert (1 <= sum_list_with (live_at par x) (nt_iter (rt w)))%nat as Hs.
      { unfold cover in Hx. rewrite Haz, Hlive in Hx. lia. }
      apply sum_pos in Hs as ([n r] & Hn & Hr). unfold live_at, node_at in Hr. simpl in Hr.
      apply b2n_pos in Hr as [Hpar Hrun]. specialize (Hto n r Hn Hpar). unfold in_run in Hrun. lia.
  - intros x. rewrite Hown. apply Hro.
  - rewrite Hown. done.
Qed.

Lemma return_inv w l1 c l2 :
  inv w -> flying w = l1 ++ c :: l2 -> claim_is_root c = false ->
  inv (MkWorld (return_to_parent (rt w) c) (l1 ++ l2) (phantoms w) (held w)).
Proof.
  intros Hi Hfl Hroot. pose proof (inv_ok w Hi) as Hok.
  assert (Hperm : away w ≡ₚ c :: ((l1 ++ l2) ++ phantoms w)).
  { unfold away. rewrite Hfl, <- !app_assoc. simpl. symmetry. apply Permutation_middle. }
  assert (Hcin : c ∈ away w) by (rewrite Hperm; by left).
  assert (Hsub : forall d, d ∈ (l1 ++ l2) ++ phantoms w -> d ∈ away w) by (intros; rewrite Hperm; by right).
  assert (claim_parent c <> NO_PARENT) as Hnp.
  { intros Hp. apply (inv_away w Hi c Hcin) in Hp. congruence. }
  destruct (inv_away_parent w Hi c Hcin) as [|[p Hp]]; [done|].
  unfold return_to_parent. rewrite Hroot, Hp.
  destruct (live_extent (rt w) (claim_parent c) (base_page p)) as [l to] eqn:He.
  rewrite destroy_child_unbump.
  set (par := claim_parent c) in *. set (r' := MkRegion _ _ _ _ _ _ _ _).
  destruct (nt_set_ok (rt w) par r' Hok) as [Hok' Hg]; [by eexists|].
  destruct (set_counts w par p r' (flying w) (phantoms w) (held w) Hok Hp eq_refl eq_refl eq_refl)
    as (Hc & Hlk & Hak); [done|].
  set (w' := MkWorld (nt_set (rt w) par r') (l1 ++ l2) (phantoms w) (held w)).
  assert (Hcov : forall q x, cover w q x = (cover w' q x + away_at q x c)%nat).
  { intros q x. rewrite <- Hc. unfold cover, w'. simpl. unfold away at 2. simpl.
    change (away (MkWorld (nt_set (rt w) par r') (flying w) (phantoms w) (held w))) with (away w).
    rewrite Hperm. simpl. lia. }
  assert (Hkids : forall q, (live_kids w q + away_kids w q = live_kids w' q + away_kids w' q + b2n (par = q))%nat).
  { intros q. rewrite <- Hlk, <- Hak. unfold live_kids, away_kids, w'. simpl.
    change (away (MkWorld (nt_set (rt w) par r') (flying w) (phantoms w) (held w))) with (away w).
    unfold away at 2. simpl. rewrite Hperm. simpl. fold par. lia. }
  assert (Hl : forall m, live w' m <-> live w m) by (intros; by apply (set_live w par p)).
  split.
  - done.
  - intros m Hm. apply (inv_names w Hi). by apply Hl.
  - intros m rm. simpl. rewrite Hg. case_decide as Hm.
    + intros [= <-]. subst m.
      apply (returned_ok w w' par p c l to
        (watermark p - (if claim_base_page c + claim_pages c =? base_page p + watermark p then claim_pages c else 0))
        (saturating_sub (children p) 1) (watermark r') r'); try done.
      * simpl. by rewrite Hg, decide_True.
      * specialize (Hkids par). assert (b2n (par = par) = 1%nat) by (unfold b2n; by rewrite decide_True). lia.
      * apply (Hlk par).
      * intros x. destruct (iter_set_perm (rt w) par p r' Hok Hp) as (l0 & H1 & H2). simpl. rewrite H1, H2. done.
      * destruct (_ =? _); lia.
      * by apply (inv_away_pages w Hi).
    + intros Hrm. apply (region_ok_ext w); [done| | |by apply (inv_region w Hi)].
      * intros x. rewrite Hcov. unfold away_at, node_at. rewrite b2n_false by naive_solver. lia.
      * rewrite Hkids, b2n_false by congruence. lia.
  - intros x. pose proof (inv_roots w Hi x) as Hx. rewrite Hcov in Hx. lia.
  - intros m x Ho. apply Hl. by apply (inv_held w Hi m x).
  - intros d Hd. apply (inv_away w Hi). by apply Hsub.
  - intros d Hd. destruct (inv_away_parent w Hi d (Hsub d Hd)); [by left|right; by apply Hl].
  - intros d Hd. apply (inv_away_pages w Hi). by apply Hsub.
  - apply (inv_phantom w Hi).
  - intros m Hm. apply (set_rooted w par p); auto. apply (inv_rooted w Hi). by apply Hl.
Qed.

Lemma free_root_inv w l1 c l2 :
  inv w -> flying w = l1 ++ c :: l2 -> claim_is_root c = true ->
  inv (MkWorld (rt w) (l1 ++ l2) (phantoms w) (held w)).
Proof.
  intros Hi Hfl Hroot.
  assert (Hperm : away w ≡ₚ c :: ((l1 ++ l2) ++ phantoms w)).
  { unfold away. rewrite Hfl, <- !app_assoc. simpl. symmetry. apply Permutation_middle. }
  assert (Hcin : c ∈ away w) by (rewrite Hperm; by left).
  assert (Hsub : forall d, d ∈ (l1 ++ l2) ++ phantoms w -> d ∈ away w) by (intros; rewrite Hperm; by right).
  pose proof (proj1 (inv_away w Hi c Hcin) Hroot) as Hnp.
  set (w' := MkWorld (rt w) (l1 ++ l2) (phantoms w) (held w)).
  assert (Hcov : forall q x, cover w q x = (cover w' q x + away_at q x c)%nat).
  { intros q x. unfold cover, w'. unfold away at 2. simpl. rewrite Hperm. simpl. lia. }
  assert (Hkids : forall q, away_kids w q = (away_kids w' q + b2n (claim_parent c = q))%nat).
  { intros q. unfold away_kids, w'. unfold away at 2. simpl. rewrite Hperm. simpl. lia. }
  split; try apply Hi.
  - intros m rm Hm. assert (m <> NO_PARENT) by (apply (inv_names w Hi); by exists rm).
    apply (region_ok_ext w); [done| | |by apply (inv_region w Hi)].
    + intros x. rewrite Hcov. unfold away_at, node_at. rewrite b2n_false by naive_solver. lia.
    + rewrite (Hkids m), b2n_false by congruence. change (live_kids w' m) with (live_kids w m). lia.
  - intros x. pose proof (inv_roots w Hi x) as Hx. rewrite Hcov in Hx. lia.
  - intros d Hd. apply (inv_away w Hi). by apply Hsub.
  - intros d Hd. apply (inv_away_parent w Hi). by apply Hsub.
  - intros d Hd. apply (inv_away_pages w Hi). by apply Hsub.
Qed.

Lemma retype_run_inv w n requested page t' :
  inv w -> 0 <= requested -> retype_run (rt w) n requested = Some (page, t') ->
  inv (MkWorld t' (flying w) (phantoms w) (hand_out n page (retype_pages requested) ++ held w)).
Proof.
  intros Hi Hq. unfold retype_run. destruct (nt_get (rt w) n) as [r|] eqn:Hn; simpl; [|done].
  destruct (retype_new_watermark _ _ _) as [new|] eqn:Hnew; simpl; [|done]. intros [= <- <-].
  unfold retype_new_watermark in Hnew. apply split_watermark_Some in Hnew as (Hne & Heq & Hle).
  assert (0 < retype_pages requested) by (unfold retype_pages in *; destruct (Z.eqb_spec requested 0); lia).
  replace (retype_pages requested) with (new - watermark r) by lia.
  apply (retyped_ok w n r); try done. lia.
Qed.

Lemma retype_object_inv w n kind page t' :
  inv w -> retype_object_page (rt w) n kind = Some (page, t') ->
  inv (MkWorld t' (flying w) (phantoms w) ((n, page) :: held w)).
Proof.
  intros Hi. unfold retype_object_page. destruct (nt_get (rt w) n) as [r|] eqn:Hn; simpl; [|done].
  destruct (Z.leb_spec (pages r) (watermark r)); [done|]. intros [= <- <-].
  change ((n, base_page r + watermark r) :: held w) with ([(n, base_page r + watermark r)] ++ held w).
  replace [(n, base_page r + watermark r)]
    with (hand_out n (base_page r + watermark r) (watermark r + 1 - watermark r)).
  - apply (retyped_ok w n r); try done. lia.
  - unfold hand_out. replace (Z.to_nat (watermark r + 1 - watermark r)) with 1%nat by lia.
    simpl. by rewrite Z.add_0_r.
Qed.

Lemma unpin_inv w n : inv w -> inv (MkWorld (unpin (rt w) n) (flying w) (phantoms w) (held w)).
Proof.
  intros Hi. unfold unpin. destruct (nt_get (rt w) n) as [r|] eqn:Hn; [|by destruct w].
  apply (set_inv w n r _ [] Hi Hn); try done.
  set (r' := MkRegion _ _ _ _ _ _ _ _).
  destruct (set_counts w n r r' (flying w) (phantoms w) (held w) (inv_ok w Hi) Hn eq_refl eq_refl eq_refl)
    as (Hc & Hlk & Hak); [done|].
  destruct (inv_region w Hi n r Hn) as [Hrt Hbud Hk Honce Hbelow Hro Htop].
  split; simpl; try done.
  - rewrite Hlk, Hak. done.
  - intros x. rewrite Hc. apply Honce.
  - intros x. rewrite Hc. apply Hbelow.
Qed.

Lemma region_step_inv w w' : inv w -> step w w' -> inv w'.
Proof.
  intros Hi Hst. destruct Hst; eauto using root_inv, split_inv, split_refused_inv, retype_run_inv,
    retype_object_inv, unpin_inv, claim_inv, return_inv, free_root_inv.
Qed.

(** *** From the invariant to disjointness across the whole tree *)

(** [a] is [n] or an ancestor of it. *)
Inductive anc t : Z -> Z -> Prop :=
  | anc_refl n : anc t n n
  | anc_up a n r : nt_get t n = Some r -> anc t a (parent r) -> anc t a n.

(** A strict ancestor reaches [n] through one of its live children. *)
Lemma anc_child t a n :
  anc t a n -> a <> n -> exists m r, nt_get t m = Some r /\ parent r = a /\ anc t m n.
Proof.
  induction 1 as [n|a n r Hn Ha IH]; intros Hne; [done|].
  destruct (decide (a = parent r)) as [->|Hd].
  - exists n, r. split_and!; [done|done|constructor].
  - destruct (IH Hd) as (m & rm & Hm & Hp & Hmn). exists m, rm. split_and!; eauto using anc.
Qed.

Definition at_page (w : World) (n x : Z) : Prop :=
  exists r, nt_get (rt w) n = Some r /\ in_run x (base_page r) (pages r).

Lemma kid_covers w m r x :
  inv w -> nt_get (rt w) m = Some r -> in_run x (base_page r) (pages r) ->
  (1 <= sum_list_with (live_at (parent r) x) (nt_iter (rt w)))%nat.
Proof.
  intros Hi Hm Hx. etransitivity;
    [|apply (sum_list_with_in (m, r)); apply nt_iter_spec; [apply (inv_ok w Hi)|exact Hm]].
  unfold live_at, node_at. simpl. by apply b2n_pos.
Qed.

(** Two live children of one parent that hold the same page are one. *)
Lemma kids_disjoint w m1 m2 r1 r2 x :
  inv w -> nt_get (rt w) m1 = Some r1 -> nt_get (rt w) m2 = Some r2 -> parent r1 = parent r2 ->
  in_run x (base_page r1) (pages r1) -> in_run x (base_page r2) (pages r2) -> m1 = m2.
Proof.
  intros Hi H1 H2 Hp Hx1 Hx2. destruct (decide (m1 = m2)) as [|Hne]; [done|].
  pose proof (inv_ok w Hi) as Hok. destruct (nt_remove_ok (rt w) m1 Hok) as (_ & Hok' & Hg).
  assert (Hperm : nt_iter (rt w) ≡ₚ (m1, r1) :: nt_iter (nt_remove (rt w) m1).2).
  { apply iter_insert_perm; auto; [by rewrite Hg, decide_True|]. intros m. rewrite Hg. case_decide; congruence. }
  assert (2 <= sum_list_with (live_at (parent r1) x) (nt_iter (rt w)))%nat as H2x.
  { rewrite Hperm. simpl. assert (live_at (parent r1) x (m1, r1) = 1%nat) as ->.
    { unfold live_at, node_at, b2n. simpl. by rewrite decide_True. }
    assert (1 <= sum_list_with (live_at (parent r1) x) (nt_iter (nt_remove (rt w) m1).2))%nat; [|lia].
    etransitivity; [|apply (sum_list_with_in (m2, r2)); apply nt_iter_spec; [done|]].
    - unfold live_at, node_at. simpl. by apply b2n_pos.
    - rewrite Hg, decide_False by congruence. done. }
  assert (cover w (parent r1) x <= 1)%nat as Hle.
  { destruct (inv_rooted w Hi m1) as [n r Hn Hr|n r Hn Hr]; [by exists r1| |];
      assert (r = r1) as -> by congruence.
    - rewrite Hr. apply (inv_roots w Hi).
    - assert (exists rp, nt_get (rt w) (parent r1) = Some rp) as [rp Hrp] by (inversion Hr; eauto).
      pose proof (ro_once _ _ _ (inv_region w Hi _ _ Hrp) x). lia. }
  unfold cover in Hle. lia.
Qed.

(** A child's pages lie in its parent's run. *)
Lemma at_page_up w n r x :
  inv w -> nt_get (rt w) n = Some r -> in_run x (base_page r) (pages r) -> live w (parent r) ->
  at_page w (parent r) x.
Proof.
  intros Hi Hn Hx [rp Hrp]. exists rp. split; [done|].
  pose proof (inv_region w Hi _ _ Hrp) as Hok. pose proof (kid_covers w n r x Hi Hn Hx).
  assert (in_run x (base_page rp) (watermark rp)) as Hr.
  { apply (ro_below _ _ _ Hok). unfold cover. lia. }
  destruct Hok. unfold in_run in *. lia.
Qed.

Lemma anc_at_page w a n x : inv w -> live w a -> anc (rt w) a n -> at_page w n x -> at_page w a x.
Proof.
  intros Hi Ha Hanc. induction Hanc as [n|a n r Hn Hanc IH]; [done|]. intros (r' & Hn' & Hx).
  assert (r' = r) as -> by congruence. apply IH; [done|]. apply (at_page_up w n r); auto.
  destruct (inv_rooted w Hi n) as [k rk Hk Hp|k rk Hk Hr]; [by exists r| |]; assert (rk = r) as -> by congruence.
  - exfalso. rewrite Hp in Hanc. apply (inv_names w Hi NO_PARENT); [|done].
    inversion Hanc; subst; [done|by eexists].
  - inversion Hr; by eexists.
Qed.

(** Live regions that share a page are nested. *)
Lemma nested w x n1 n2 :
  inv w -> at_page w n1 x -> at_page w n2 x -> anc (rt w) n1 n2 \/ anc (rt w) n2 n1.
Proof.
  intros Hi H1 H2. assert (Hr1 : rooted (rt w) n1) by (apply (inv_rooted w Hi); destruct H1 as (r & ? & _); by exists r).
  revert n2 H2. induction Hr1 as [n1 r1 Hn1 Hp1|n1 r1 Hn1 Hr1 IH]; intros n2 H2;
    destruct H1 as (r1' & Hn1' & Hx1); assert (r1' = r1) as -> by congruence.
  - left. assert (Hr2 : rooted (rt w) n2) by (apply (inv_rooted w Hi); destruct H2 as (r & ? & _); by exists r).
    induction Hr2 as [n2 r2 Hn2 Hp2|n2 r2 Hn2 Hr2 IH2]; destruct H2 as (r2' & Hn2' & Hx2);
      assert (r2' = r2) as -> by congruence.
    + assert (n1 = n2) as ->; [|constructor].
      apply (kids_disjoint w n1 n2 r1 r2 x); auto. congruence.
    + eapply anc_up; [done|]. apply IH2. apply (at_page_up w n2 r2); auto. inversion Hr2; by eexists.
  - assert (Hl1 : live w (parent r1)) by (inversion Hr1; by eexists).
    destruct (IH (at_page_up w n1 r1 x Hi Hn1 Hx1 Hl1) n2 H2) as [Hd|Hu].
    + destruct (decide (parent r1 = n2)) as [<-|Hne]; [right; by eauto using anc|].
      destruct (anc_child _ _ _ Hd Hne) as (m & rm & Hm & Hpm & Hmn).
      assert (at_page w m x) as (rm' & Hm' & Hxm) by (apply (anc_at_page w m n2); auto; by exists rm).
      assert (rm' = rm) as -> by congruence. left.
      by rewrite (kids_disjoint w n1 m r1 rm x).
    + right. by eapply anc_up.
Qed.

Lemma own_at_page w n x : inv w -> (1 <= own w n x)%nat -> at_page w n x.
Proof.
  intros Hi Ho. destruct (inv_held w Hi n x Ho) as [r Hr]. exists r. split; [done|].
  pose proof (inv_region w Hi n r Hr) as Hok.
  assert (in_run x (base_page r) (watermark r)) as Hx by (apply (ro_below _ _ _ Hok); lia).
  destruct Hok. unfold in_run in *. lia.
Qed.

(** A page [n] handed out is in no child of [n], so in no strict descendant. *)
Lemma own_not_below w n m x :
  inv w -> (1 <= own w n x)%nat -> at_page w m x -> anc (rt w) n m -> n = m.
Proof.
  intros Hi Ho Hm Hanc. destruct (decide (n = m)) as [|Hne]; [done|]. exfalso.
  destruct (inv_held w Hi n x Ho) as [r Hr].
  destruct (anc_child _ _ _ Hanc Hne) as (k & rk & Hk & Hpk & Hkm).
  assert (at_page w k x) as (rk' & Hk' & Hxk) by (apply (anc_at_page w k m); auto; by exists rk).
  assert (rk' = rk) as -> by congruence. pose proof (kid_covers w k rk x Hi Hk Hxk) as Hc.
  pose proof (ro_once _ _ _ (inv_region w Hi n r Hr) x) as Hone. unfold cover in Hone. rewrite Hpk in Hc. lia.
Qed.

Lemma own_unique w n1 n2 x :
  inv w -> (1 <= own w n1 x)%nat -> (1 <= own w n2 x)%nat -> n1 = n2.
Proof.
  intros Hi H1 H2. pose proof (own_at_page w n1 x Hi H1). pose proof (own_at_page w n2 x Hi H2).
  destruct (nested w x n1 n2) as [Ha|Ha]; auto; [|symmetry]; by eapply own_not_below.
Qed.

Lemma own_not_away w n x c :
  inv w -> (1 <= own w n x)%nat -> c ∈ away w -> ~ in_run x (claim_base_page c) (claim_pages c).
Proof.
  intros Hi Ho Hc Hx. pose proof (own_at_page w n x Hi Ho) as Hn.
  assert (1 <= sum_list_with (away_at (claim_parent c) x) (away w))%nat as Haway.
  { etransitivity; [|apply (sum_list_with_in c); done]. unfold away_at, node_at. by apply b2n_pos. }
  assert (Hclash : forall m r, nt_get (rt w) m = Some r -> in_run x (base_page r) (pages r) ->
    parent r = claim_parent c -> (2 <= cover w (claim_parent c) x)%nat).
  { intros m r Hm Hxm Hp. pose proof (kid_covers w m r x Hi Hm Hxm) as Hk. rewrite Hp in Hk.
    unfold cover. lia. }
  destruct (inv_away_parent w Hi c Hc) as [Hnp|[rp Hrp]].
  - assert (exists m r, nt_get (rt w) m = Some r /\ parent r = NO_PARENT /\ anc (rt w) m n) as (m & r & Hm & Hpm & Hmn).
    { assert (Hr : rooted (rt w) n) by (apply (inv_rooted w Hi); destruct Hn as (r & ? & _); by exists r).
      clear -Hr. induction Hr as [n r Hn Hp|n r Hn Hr IH]; [exists n, r; eauto using anc|].
      destruct IH as (m & rm & ? & ? & ?). exists m, rm. eauto using anc. }
    assert (at_page w m x) as (r' & Hm' & Hxm) by (apply (anc_at_page w m n); auto; by exists r).
    assert (r' = r) as -> by congruence. pose proof (Hclash m r Hm Hxm ltac:(congruence)).
    pose proof (inv_roots w Hi x). rewrite Hnp in *. lia.
  - pose proof (ro_once _ _ _ (inv_region w Hi _ _ Hrp) x) as Hone.
    assert (in_run x (base_page rp) (pages rp)) as Hxp.
    { pose proof (inv_region w Hi _ _ Hrp) as Hok.
      assert (in_run x (base_page rp) (watermark rp)) as Hr by (apply (ro_below _ _ _ Hok); unfold cover; lia).
      destruct Hok. unfold in_run in *. lia. }
    destruct (nested w x n (claim_parent c)) as [Ha|Ha]; auto; [by exists rp| |].
    + assert (n = claim_parent c) as -> by (eapply own_not_below; eauto; by exists rp).
      unfold cover in Hone. lia.
    + destruct (decide (claim_parent c = n)) as [Heq|Hne]; [rewrite Heq in *; unfold cover in Hone; lia|].
      destruct (anc_child _ _ _ Ha Hne) as (m & rm & Hm & Hpm & Hmn).
      assert (at_page w m x) as (rm' & Hm' & Hxm) by (apply (anc_at_page w m n); auto; by exists rm).
      assert (rm' = rm) as -> by congruence. pose proof (Hclash m rm Hm Hxm Hpm). lia.
Qed.

Lemma own_in w n x : (n, x) ∈ held w -> (1 <= own w n x)%nat.
Proof.
  intros Hin. unfold own. etransitivity; [|apply (sum_list_with_in (n, x)); done]. simpl. by apply b2n_pos.
Qed.

Lemma held_nodup w : inv w -> NoDup (held w).*2.
Proof.
  intros Hi. assert (Hone : forall n x, (own w n x <= 1)%nat).
  { intros n x. destruct (own w n x) eqn:Ho; [lia|]. rewrite <- Ho.
    destruct (inv_held w Hi n x) as [r Hr]; [lia|].
    pose proof (ro_once _ _ _ (inv_region w Hi n r Hr) x). lia. }
  assert (Huniq : forall n1 n2 x, (n1, x) ∈ held w -> (n2, x) ∈ held w -> n1 = n2).
  { intros n1 n2 x H1%own_in H2%own_in. by eapply own_unique. }
  clear Hi. unfold own in Hone. induction (held w) as [|[n x] l IH]; simpl; [constructor|]. constructor.
  - intros ([n' x'] & Heq & Hin)%list_elem_of_fmap. simpl in Heq. subst x'.
    assert (n' = n) as -> by (eapply (Huniq n' n x); set_solver).
    specialize (Hone n x). simpl in Hone.
    assert (1 <= sum_list_with (fun e => b2n (e = (n, x))) l)%nat.
    { etransitivity; [|apply (sum_list_with_in (n, x)); done]. simpl. by apply b2n_pos. }
    assert (b2n ((n, x) = (n, x)) = 1%nat) by (unfold b2n; by rewrite decide_True). lia.
  - apply IH.
    + intros n' x'. specialize (Hone n' x'). simpl in Hone. lia.
    + intros n1 n2 y H1 H2. apply (Huniq n1 n2 y); by right.
Qed.

(** A parent left without children keeps only its own retypes spent. *)
Lemma return_quiet w l1 c l2 :
  inv w -> flying w = l1 ++ c :: l2 -> claim_is_root c = false ->
  exists p, nt_get (return_to_parent (rt w) c) (claim_parent c) = Some p /\
    (children p = 0 -> watermark p = retyped_to p).
Proof.
  intros Hi Hfl Hroot. pose proof (inv_ok w Hi) as Hok.
  pose proof (return_inv w l1 c l2 Hi Hfl Hroot) as Hi'.
  assert (Hcin : c ∈ away w) by (unfold away; rewrite Hfl; set_solver).
  destruct (inv_away_parent w Hi c Hcin) as [Hp|[p Hp]].
  { apply (inv_away w Hi c Hcin) in Hp. congruence. }
  unfold return_to_parent in *. rewrite Hroot, Hp in *.
  destruct (live_extent (rt w) (claim_parent c) (base_page p)) as [l to] eqn:He.
  rewrite destroy_child_unbump in *. set (r' := MkRegion _ _ _ _ _ _ _ _) in *.
  destruct (nt_set_ok (rt w) (claim_parent c) r' Hok) as [_ Hg]; [by eexists|].
  assert (Hg' : nt_get (nt_set (rt w) (claim_parent c) r') (claim_parent c) = Some r')
    by (by rewrite Hg, decide_True).
  exists r'. split; [done|]. intros Hz.
  pose proof (inv_region _ Hi' _ _ Hg') as [Hrt _ Hk _ _ _ _].
  destruct (set_counts w (claim_parent c) p r' (flying w) (phantoms w) (held w) Hok Hp eq_refl eq_refl eq_refl)
    as (_ & Hlk & _); [done|]. specialize (Hlk (claim_parent c)).
  unfold live_kids in Hk, Hlk. rewrite Hz in Hk. simpl in Hk, Hlk.
  assert (Hnone : filter (fun e => parent e.2 = claim_parent c) (nt_iter (rt w)) = []).
  { apply elem_of_nil_inv. intros e [Hpe He']%list_elem_of_filter.
    assert (1 <= sum_list_with (fun e => b2n (parent e.2 = claim_parent c)) (nt_iter (rt w)))%nat; [|lia].
    etransitivity; [|apply (sum_list_with_in e); done]. simpl. by apply b2n_pos. }
  unfold live_extent in He. rewrite Hnone in He. simpl in He. injection He as <- <-.
  unfold r' in Hz, Hrt |- *. simpl in *. rewrite Hz in *. unfold coalesced_watermark in *. simpl in *. lia.
Qed.
End executions.

(** ** The crate's table *)

Abbreviation TableOf := (GenTable.Table Region).

Definition empty_world (N : nat) : @World TableOf := MkWorld (GenTable.new N) [] [] [].

Definition reachable (N : nat) (w : @World TableOf) : Prop :=
  steps (@step TableOf (GenTable.gen_table_ops N)) (empty_world N) w.

#[local] Existing Instance GenTable.gen_table_ops.

Lemma empty_dead N n : Z.of_nat N <= u32_max -> GenTable.get (GenTable.new (T:=Region) N) n = None.
Proof.
  intros HN. assert (Hok : GenTable.wf N (GenTable.new (T:=Region) N)) by apply GenTable.table_wf_new.
  destruct (GenTable.get _ n) as [r|] eqn:Hg; [|done].
  pose proof (proj2 (nt_iter_spec (NameTableLaws := GenTable.gen_table_laws N) _ n r (conj HN Hok)) Hg) as Hin.
  unfold nt_iter, GenTable.gen_table_ops, GenTable.iter, GenTable.iter_from, GenTable.entries in Hin.
  simpl in Hin. by apply not_elem_of_nil in Hin.
Qed.

Lemma empty_inv N :
  Z.of_nat N <= u32_max -> @inv TableOf (GenTable.gen_table_ops N) (empty_world N).
Proof.
  intros HN. assert (Hok : GenTable.wf N (GenTable.new (T:=Region) N)) by apply GenTable.table_wf_new.
  pose proof (fun n => empty_dead N n HN) as Hget.
  assert (Hcov : forall p x, @cover TableOf (GenTable.gen_table_ops N) (empty_world N) p x = 0%nat) by done.
  split; simpl; try done.
  - intros n [r Hr]. simpl in Hr. by rewrite Hget in Hr.
  - intros n r. by rewrite Hget.
  - intros x. rewrite Hcov. lia.
  - unfold own. simpl. lia.
  - by intros c ?%not_elem_of_nil.
  - by intros c ?%not_elem_of_nil.
  - by intros c ?%not_elem_of_nil.
  - by intros c ?%not_elem_of_nil.
  - intros n [r Hr]. simpl in Hr. by rewrite Hget in Hr.
Qed.

Lemma region_reachable_inv N w :
  Z.of_nat N <= u32_max -> reachable N w -> @inv TableOf (GenTable.gen_table_ops N) w.
Proof.
  intros HN Hst. eapply steps_invariant; [|exact Hst|by apply empty_inv].
  intros s s' Hs Hstep. by eapply (region_step_inv (Laws := GenTable.gen_table_laws N)).
Qed.

(** C7: no page is handed out twice. Along every execution of the region table,
    with splits, retypes, destroys and returns interleaved in any order and
    claims in flight meanwhile, the pages handed out by live regions are
    pairwise distinct, each lies in its region's run, and none lies in a run
    whose destruction is still in flight. *)
Theorem no_page_handed_out_twice (N : nat) (w : @World TableOf)
  (HN : Z.of_nat N <= u32_max) (Hr : reachable N w) :
  NoDup (held w).*2 /\
  (forall n x, (n, x) ∈ held w -> exists b p, bounds (NT := GenTable.gen_table_ops N) (rt w) n = Some (b, p) /\ in_run x b p) /\
  (forall n x c, (n, x) ∈ held w -> c ∈ flying w -> ~ in_run x (claim_base_page c) (claim_pages c)).
Proof.
  pose proof (region_reachable_inv N w HN Hr) as Hi. split_and!.
  - by eapply (held_nodup (Laws := GenTable.gen_table_laws N)).
  - intros n x Hin%own_in.
    destruct (own_at_page w n x Hi Hin) as (r & Hg & Hx).
    exists (base_page r), (pages r). unfold bounds. by rewrite Hg.
  - intros n x c Hin%own_in Hc. eapply (own_not_away (Laws := GenTable.gen_table_laws N)); eauto.
    unfold away. set_solver.
Qed.

(** A destroy has one winner. [claim_for_destroy] succeeds exactly on a live,
    unpinned region without children; the claim carries the region's run, the
    name is dead afterwards so a second claim fails, and no live region and no
    claim in flight has the destroyed region as its parent. *)
Theorem claim_has_one_winner (N : nat) (w : @World TableOf) (n : Z)
  (HN : Z.of_nat N <= u32_max) (Hr : reachable N w) :
  let claim t := claim_for_destroy (NT := GenTable.gen_table_ops N) t n in
  match GenTable.get (rt w) n with
  | None => claim (rt w) = None
  | Some r =>
      if pinned r || (0 <? children r) then claim (rt w) = None
      else exists t', claim (rt w) = Some (MkClaim (base_page r) (pages r) (parent r) (parent r =? NO_PARENT), t') /\
             claim t' = None /\
             (forall m rm, GenTable.get (rt w) m = Some rm -> parent rm <> n) /\
             (forall c, c ∈ flying w -> claim_parent c <> n)
  end.
Proof.
  pose proof (region_reachable_inv N w HN Hr) as Hi. pose proof (inv_ok w Hi) as Hok.
  simpl. unfold claim_for_destroy. simpl. destruct (GenTable.get (rt w) n) as [r|] eqn:Hn; simpl; [|done].
  unfold destroy_outcome. destruct (pinned r || (0 <? children r)) eqn:Hpc; simpl; [done|].
  rewrite decide_False by (by destruct (parent r =? NO_PARENT)).
  eexists. split; [done|].
  destruct (nt_remove_ok (NameTableLaws := GenTable.gen_table_laws N) (rt w) n Hok) as (_ & _ & Hg).
  simpl in Hg. rewrite Hg, decide_True by done. split; [done|].
  apply orb_false_iff in Hpc as [_ Hch]. apply Z.ltb_ge in Hch.
  destruct (childless (Laws := GenTable.gen_table_laws N) w n r Hi Hn Hch) as [Hk Ha].
  split; [exact Hk|]. intros c Hc. apply Ha. unfold away. set_solver.
Qed.

(** Nothing leaks when the last child comes back. After any in-flight child
    claim is returned, the parent is live; if it has no children left, its
    whole budget above its own retypes is available again. *)
Theorem last_return_restores_budget (N : nat) (w : @World TableOf) l1 c l2
  (HN : Z.of_nat N <= u32_max) (Hr : reachable N w)
  (Hfl : flying w = l1 ++ c :: l2) (Hroot : claim_is_root c = false) :
  let t' := return_to_parent (NT := GenTable.gen_table_ops N) (rt w) c in
  exists p, GenTable.get t' (claim_parent c) = Some p /\
    (children p = 0 -> usage (NT := GenTable.gen_table_ops N) t' (claim_parent c) = Some (retyped_to p, pages p)).
Proof.
  pose proof (region_reachable_inv N w HN Hr) as Hi.
  destruct (return_quiet (Laws := GenTable.gen_table_laws N) w l1 c l2 Hi Hfl Hroot) as (p & Hp & Hq).
  exists p. split; [exact Hp|]. intros Hz. unfold usage. rewrite Hp. simpl. by rewrite (Hq Hz).
Qed.

(** ** Witnesses: a root of 16 pages, a child of 4, two pages retyped from the
    child, and the child's destruction. *)

Definition table_after {A} (d : TableOf) (o : option (A * TableOf)) : TableOf :=
  match o with Some (_, t) => t | None => d end.

Definition demo0 : TableOf := GenTable.new 4.
Definition demo1 : TableOf :=
  Eval vm_compute in table_after demo0 (insert_root (NT := GenTable.gen_table_ops 4) demo0 100 16).
Definition demo2 : TableOf := Eval vm_compute in (split (NT := GenTable.gen_table_ops 4) demo1 0 4).2.
Definition demo3 : TableOf :=
  Eval vm_compute in table_after demo0 (retype_run (NT := GenTable.gen_table_ops 4) demo2 1 2).
Definition demo4 : TableOf :=
  Eval vm_compute in table_after demo0 (claim_for_destroy (NT := GenTable.gen_table_ops 4) demo3 1).

Definition demo_claim : DestroyClaim := MkClaim 100 4 0 false.

Definition demo_child : Region := MkRegion 100 4 2 2 false 0 0 (MkSpent 2 [0; 0; 0; 0; 0; 0] 0).

Lemma demo_child_get : GenTable.get demo3 1 = Some demo_child.
Proof. vm_compute. reflexivity. Qed.

Lemma region_demo3_reachable : reachable 4 (MkWorld demo3 [] [] [(1, 100); (1, 101)]).
Proof.
  eapply steps_step; [apply (step_root _ 100 16 0 demo1)|].
  - split_and!; [lia|lia| |].
    + intros n r Hn. simpl in Hn. rewrite (empty_dead 4) in Hn; [done|vm_compute; congruence].
    + by intros c ?%not_elem_of_nil.
  - vm_compute. reflexivity.
  - eapply steps_step; [apply (step_split _ 0 4 1 demo2); [lia|vm_compute; reflexivity]|].
    eapply steps_step; [apply (step_retype _ 1 2 100 demo3); [lia|vm_compute; reflexivity]|].
    apply steps_refl.
Qed.

Lemma region_demo4_reachable : reachable 4 (MkWorld demo4 [demo_claim] [] []).
Proof.
  eapply steps_trans; [exact region_demo3_reachable|].
  eapply steps_step; [apply (step_claim _ 1 demo_claim demo4); vm_compute; reflexivity|]. apply steps_refl.
Qed.

Lemma no_page_handed_out_twice_witness : NoDup [100; 101].
Proof.
  apply (no_page_handed_out_twice 4 (MkWorld demo3 [] [] [(1, 100); (1, 101)]));
    [vm_compute; congruence|exact region_demo3_reachable].
Defined.

Lemma claim_has_one_winner_witness :
  exists t', claim_for_destroy (NT := GenTable.gen_table_ops 4) demo3 1 = Some (demo_claim, t') /\
    claim_for_destroy (NT := GenTable.gen_table_ops 4) t' 1 = None.
Proof.
  assert (HN : Z.of_nat 4 <= u32_max) by (vm_compute; congruence).
  pose proof (claim_has_one_winner 4 _ 1 HN region_demo3_reachable) as H.
  simpl rt in H. rewrite demo_child_get in H. destruct H as (t' & H1 & H2 & _). exists t'.
  split; [exact H1|exact H2].
Defined.

Lemma last_return_restores_budget_witness :
  usage (NT := GenTable.gen_table_ops 4)
    (return_to_parent (NT := GenTable.gen_table_ops 4) demo4 demo_claim) 0 = Some (0, 16).
Proof.
  assert (HN : Z.of_nat 4 <= u32_max) by (vm_compute; congruence).
  destruct (last_return_restores_budget 4 _ [] demo_claim [] HN region_demo4_reachable eq_refl eq_refl)
    as (p & Hp & Hu).
  vm_compute in Hp. injection Hp as <-. exact (Hu eq_refl).
Defined.

End Regions.
