(* ===== verification/PageFormat.v ===== *)
(** * Page-table formats (crates/paging/src/lib.rs)

    Page sizes, permission flags, the [PageFormat] interface and the laws the
    mapper relies on. Entries and addresses are 64-bit words. The formats
    themselves are in Aarch64.v, Sv39.v and X86.v. *)

From S2P Require Import Prelude.
Local Open Scope Z_scope.

Module PageFormat.

Definition PAGE_SIZE : Z := 4096.
Definition ENTRIES : nat := 512.

Inductive PageSize := Size4KiB | Size2MiB | Size1GiB.

#[export] Instance PageSize_eq_dec : EqDecision PageSize.
Proof. solve_decision. Defined.

Definition levels_above_bottom (s : PageSize) : nat :=
  match s with Size4KiB => 0 | Size2MiB => 1 | Size1GiB => 2 end.

Definition bytes (s : PageSize) : Z := Z.shiftl PAGE_SIZE (9 * Z.of_nat (levels_above_bottom s)).

Definition fits (va pa remaining : Z) (size : PageSize) : bool :=
  (Z.land (Z.lor va pa) (bytes size - 1) =? 0) && (bytes size <=? remaining).

Definition largest_fitting (va pa remaining : Z) (largest : PageSize) : PageSize :=
  let allowed := levels_above_bottom largest in
  if (2 <=? allowed)%nat && fits va pa remaining Size1GiB then Size1GiB
  else if (1 <=? allowed)%nat && fits va pa remaining Size2MiB then Size2MiB
  else Size4KiB.

(** ** Flags *)

Definition CAP_WRITE : Z := Z.shiftl 1 0.
Definition CAP_USER : Z := Z.shiftl 1 1.
Definition CAP_USER_EXEC : Z := Z.shiftl 1 2.
Definition CAP_KERNEL_EXEC : Z := Z.shiftl 1 3.
Definition CAP_GLOBAL : Z := Z.shiftl 1 4.
Definition CAP_DEVICE : Z := Z.shiftl 1 5.

Record Flags := MkFlags { caps : Z }.

#[export] Instance Flags_eq_dec : EqDecision Flags.
Proof. solve_decision. Defined.

Definition kernel_code : Flags := MkFlags (Z.lor CAP_KERNEL_EXEC CAP_GLOBAL).
Definition kernel_rodata : Flags := MkFlags CAP_GLOBAL.
Definition kernel_data : Flags := MkFlags (Z.lor CAP_WRITE CAP_GLOBAL).
Definition device : Flags := MkFlags (Z.lor (Z.lor CAP_WRITE CAP_GLOBAL) CAP_DEVICE).
Definition user_code : Flags := MkFlags (Z.lor CAP_USER CAP_USER_EXEC).
Definition user_rodata : Flags := MkFlags CAP_USER.
Definition user_data : Flags := MkFlags (Z.lor CAP_USER CAP_WRITE).
Definition user_device : Flags := MkFlags (Z.lor (Z.lor CAP_USER CAP_WRITE) CAP_DEVICE).

Definition has (f : Flags) (c : Z) : bool := negb (Z.land (caps f) c =? 0).
Definition is_writable (f : Flags) : bool := has f CAP_WRITE.
Definition is_kernel_executable (f : Flags) : bool := has f CAP_KERNEL_EXEC.
Definition is_user_executable (f : Flags) : bool := has f CAP_USER_EXEC.
Definition is_user_accessible (f : Flags) : bool := has f CAP_USER.
Definition is_device (f : Flags) : bool := has f CAP_DEVICE.
Definition is_global (f : Flags) : bool := has f CAP_GLOBAL.

(** [if b { acc |= c }]. *)
Definition or_if (b : bool) (c acc : Z) : Z := if b then Z.lor acc c else acc.

(** The [entry & mask != 0] test. *)
Definition any_set (entry mask : Z) : bool := negb (Z.land entry mask =? 0).

Inductive Half := Low | High.

#[export] Instance Half_eq_dec : EqDecision Half.
Proof. solve_decision. Defined.

(** ** The interface *)

Class PageFormat := {
  LEVELS : nat;
  SPLIT_SHIFT : Z;
  is_present : Z -> bool;
  entry_pa : Z -> Z;
  table_entry : Z -> Z;
  leaf_entry : Z -> Flags -> Z;
  leaf_flags : Z -> Flags;
  block_entry : Z -> Flags -> PageSize -> option Z;
  is_block : Z -> bool }.

(** The trait's provided methods. *)
Section provided.
Context `{F : PageFormat}.

Definition index (va : Z) (level : nat) : nat :=
  let shift := 9 * Z.of_nat (LEVELS - 1 - level) + 12 in
  Z.to_nat (Z.land (Z.shiftr va shift) 511).

Definition is_in_half (half : Half) (va : Z) : bool :=
  let top := Z.shiftr va SPLIT_SHIFT in
  match half with
  | Low => top =? 0
  | High => top =? Z.shiftr u64_max SPLIT_SHIFT
  end.

Definition half_base (half : Half) : Z :=
  match half with
  | Low => 0
  | High => wrap 64 (Z.shiftl (Z.shiftr u64_max SPLIT_SHIFT) SPLIT_SHIFT)
  end.

Definition is_user_page_va (va : Z) : bool := is_in_half Low va && is_multiple_of va PAGE_SIZE.

(** What the format reports back for a page mapped with [f]. *)
Definition visible (f : Flags) : Flags := leaf_flags (leaf_entry 0 f).
End provided.

(** ** The laws the mapper relies on

    [pa_bits] is how many bits of a physical address an entry can carry. *)
Class PageFormatLaws `{F : PageFormat} := {
  pa_bits : Z;
  pf_levels : (3 <= LEVELS <= 4)%nat;
  pf_split : 30 <= SPLIT_SHIFT <= 9 * Z.of_nat LEVELS + 12;
  pf_split_64 : SPLIT_SHIFT < 64;
  pf_pa_bits : SPLIT_SHIFT <= pa_bits <= 64;
  pf_zero : is_present 0 = false;
  pf_table pa : 0 <= pa < 2 ^ pa_bits -> pa mod PAGE_SIZE = 0 ->
    is_present (table_entry pa) = true /\ is_block (table_entry pa) = false /\
    entry_pa (table_entry pa) = pa;
  pf_leaf pa f : 0 <= pa < 2 ^ pa_bits -> pa mod PAGE_SIZE = 0 ->
    is_present (leaf_entry pa f) = true /\ entry_pa (leaf_entry pa f) = pa /\
    leaf_flags (leaf_entry pa f) = visible f;
  pf_block pa f s e : 0 <= pa < 2 ^ pa_bits -> pa mod bytes s = 0 -> s <> Size4KiB ->
    block_entry pa f s = Some e ->
    is_present e = true /\ is_block e = true /\ entry_pa e = pa /\ leaf_flags e = visible f }.

(** ** Masked addresses beside attribute bits *)

Lemma land_mask_lor p c M : Z.land c M = 0 -> Z.land (Z.lor (Z.land p M) c) M = Z.land p M.
Proof.
  intros Hc. rewrite Z.land_lor_distr_l, Hc, Z.lor_0_r, <- Z.land_assoc, Z.land_diag. done.
Qed.

Lemma land_other_lor p c M m : Z.land M m = 0 -> Z.land (Z.lor (Z.land p M) c) m = Z.land c m.
Proof.
  intros Hm. rewrite Z.land_lor_distr_l, <- Z.land_assoc, Hm, Z.land_0_r. done.
Qed.

Lemma any_set_lor p c M m : Z.land M m = 0 -> any_set (Z.lor (Z.land p M) c) m = any_set c m.
Proof. intros. unfold any_set. by rewrite land_other_lor. Qed.

(** The bits from 12 up to [b]. *)
Definition addr_mask (b : Z) : Z := Z.ldiff (Z.ones b) (Z.ones 12).

Lemma low_bits_zero pa k i : 0 <= i < k -> pa mod 2 ^ k = 0 -> Z.testbit pa i = false.
Proof.
  intros Hi Hm. rewrite <- (Z.mod_pow2_bits_low pa k i) by lia. by rewrite Hm, Z.testbit_0_l.
Qed.

Lemma land_addr_mask b pa :
  12 <= b -> 0 <= pa < 2 ^ b -> pa mod PAGE_SIZE = 0 -> Z.land pa (addr_mask b) = pa.
Proof.
  intros Hb Hpa Hm. apply Z.bits_inj'. intros i Hi. unfold addr_mask.
  rewrite Z.land_spec, Z.ldiff_spec, !Z.testbit_ones_nonneg by lia.
  destruct (Z.ltb_spec i 12).
  - rewrite (low_bits_zero pa 12) by done. done.
  - destruct (Z.ltb_spec i b); [by rewrite andb_true_r|].
    rewrite (testbit_above b pa) by done. done.
Qed.

(** Clearing the offset bits of an address that has none. *)
Lemma land_not_offset pa k :
  0 <= k <= 64 -> 0 <= pa < 2 ^ 64 -> pa mod 2 ^ k = 0 -> Z.land pa (not_w 64 (2 ^ k - 1)) = pa.
Proof.
  intros Hk Hpa Hm. apply Z.bits_inj'. intros i Hi.
  rewrite Z.land_spec, testbit_not_w, Z.sub_1_r, <- Z.ones_equiv, Z.testbit_ones_nonneg by lia.
  destruct (Z.ltb_spec i k); simpl.
  - rewrite (low_bits_zero pa k) by done. done.
  - destruct (Z.ltb_spec i 64); [by rewrite andb_true_r|]. rewrite (testbit_above 64 pa) by done. done.
Qed.

Lemma bytes_pow s : bytes s = 2 ^ (12 + 9 * Z.of_nat (levels_above_bottom s)).
Proof. by destruct s. Qed.

Lemma bytes_page pa s : pa mod bytes s = 0 -> pa mod PAGE_SIZE = 0.
Proof.
  intros Hm. apply Z.mod_divide in Hm as [k ->]; [|by destruct s].
  destruct s; [exact (Z_mod_mult k 4096)|..]; unfold PAGE_SIZE; simpl bytes.
  - replace (k * bytes Size2MiB) with ((k * 512) * 4096) by (change (bytes Size2MiB) with 2097152; lia).
    apply Z_mod_mult.
  - replace (k * bytes Size1GiB) with ((k * 262144) * 4096) by (change (bytes Size1GiB) with 1073741824; lia).
    apply Z_mod_mult.
Qed.

Lemma land_not_bytes pa s :
  0 <= pa < 2 ^ 64 -> pa mod bytes s = 0 -> Z.land pa (not_w 64 (bytes s - 1)) = pa.
Proof.
  intros Hpa Hm. rewrite bytes_pow in *. apply land_not_offset; [destruct s; simpl; lia|done|done].
Qed.

(** The eight kinds of mapping the kernel makes. *)
Definition kinds : list Flags :=
  [kernel_code; kernel_rodata; kernel_data; device; user_code; user_rodata; user_data; user_device].

(** No mapping is both writable and executable, at either privilege. *)
Definition write_xor_execute (f : Flags) : bool :=
  negb (is_writable f && (is_kernel_executable f || is_user_executable f)).

End PageFormat.
