(* ===== verification/Aarch64.v ===== *)
(** * AArch64 stage-1 tables (crates/paging/src/aarch64.rs) *)

From S2P Require Import Prelude PageFormat.
Local Open Scope Z_scope.

Module Aarch64.
Import PageFormat.

Definition VALID : Z := Z.shiftl 1 0.
Definition TABLE_OR_PAGE : Z := Z.shiftl 1 1.
Definition AF : Z := Z.shiftl 1 10.
Definition SH_INNER : Z := Z.shiftl 3 8.
Definition attr_index (slot : Z) : Z := Z.shiftl (Z.land slot 7) 2.
Definition AP_RW_EL1 : Z := Z.shiftl 0 6.
Definition AP_RW_EL0 : Z := Z.shiftl 1 6.
Definition AP_RO_EL1 : Z := Z.shiftl 2 6.
Definition AP_RO_EL0 : Z := Z.shiftl 3 6.
Definition AP_RO : Z := Z.shiftl 1 7.
Definition AP_USER : Z := Z.shiftl 1 6.
Definition NG : Z := Z.shiftl 1 11.
Definition PXN : Z := Z.shiftl 1 53.
Definition UXN : Z := Z.shiftl 1 54.
Definition ADDR_MASK : Z := 0x0000fffffffff000.
Definition mair_DEVICE : Z := 0.
Definition mair_NORMAL : Z := 1.

Definition attrs (f : Flags) : Z :=
  let bits := or_if (negb (is_device f)) SH_INNER AF in
  let bits := Z.lor bits (attr_index (if is_device f then mair_DEVICE else mair_NORMAL)) in
  let bits := Z.lor bits
    (match is_user_accessible f, is_writable f with
     | true, true => AP_RW_EL0
     | true, false => AP_RO_EL0
     | false, true => AP_RW_EL1
     | false, false => AP_RO_EL1
     end) in
  let bits := or_if (negb (is_kernel_executable f)) PXN bits in
  let bits := or_if (negb (is_user_executable f)) UXN bits in
  or_if (negb (is_global f)) NG bits.

Definition leaf (pa : Z) (f : Flags) : Z :=
  Z.lor (Z.lor (Z.lor (Z.land pa ADDR_MASK) (attrs f)) TABLE_OR_PAGE) VALID.

Definition flags_of (entry : Z) : Flags :=
  let c := or_if (negb (any_set entry AP_RO)) CAP_WRITE 0 in
  let c := or_if (any_set entry AP_USER) CAP_USER c in
  let c := or_if (negb (any_set entry UXN)) CAP_USER_EXEC c in
  let c := or_if (negb (any_set entry PXN)) CAP_KERNEL_EXEC c in
  let c := or_if (negb (any_set entry NG)) CAP_GLOBAL c in
  MkFlags (or_if (Z.land (Z.shiftr entry 2) 7 =? mair_DEVICE) CAP_DEVICE c).

Definition block (pa : Z) (f : Flags) (s : PageSize) : option Z :=
  match s with
  | Size4KiB => Some (leaf pa f)
  | _ => Some (Z.lor (Z.lor (Z.land (Z.land pa ADDR_MASK) (not_w 64 (bytes s - 1))) (attrs f)) VALID)
  end.

#[export] Instance Aarch64_format : PageFormat := {
  LEVELS := 4;
  SPLIT_SHIFT := 48;
  is_present entry := any_set entry VALID;
  entry_pa entry := Z.land entry ADDR_MASK;
  table_entry pa := Z.lor (Z.lor (Z.land pa ADDR_MASK) TABLE_OR_PAGE) VALID;
  leaf_entry := leaf;
  leaf_flags := flags_of;
  block_entry := block;
  is_block entry := Z.land entry TABLE_OR_PAGE =? 0 }.

(** ** The laws *)

(** Every bit of a leaf beside the address. *)
Definition leaf_bits (f : Flags) : Z := Z.lor (Z.lor (attrs f) TABLE_OR_PAGE) VALID.
Definition block_bits (f : Flags) : Z := Z.lor (attrs f) VALID.

Lemma leaf_split pa f : leaf pa f = Z.lor (Z.land pa ADDR_MASK) (leaf_bits f).
Proof. unfold leaf, leaf_bits. by rewrite !Z.lor_assoc. Qed.

Ltac by_flags f :=
  unfold leaf_bits, block_bits, attrs;
  destruct (is_device f), (is_user_accessible f), (is_writable f), (is_kernel_executable f),
    (is_user_executable f), (is_global f); reflexivity.

Lemma bits_disjoint f : Z.land (leaf_bits f) ADDR_MASK = 0 /\ Z.land (block_bits f) ADDR_MASK = 0.
Proof. split; by_flags f. Qed.

Lemma flags_of_lor p c : flags_of (Z.lor (Z.land p ADDR_MASK) c) = flags_of c.
Proof.
  unfold flags_of. rewrite !any_set_lor by reflexivity.
  assert (Hdev : forall e, Z.land (Z.shiftr e 2) 7 = Z.shiftr (Z.land e 28) 2).
  { intros e. by rewrite Z.shiftr_land. }
  rewrite !Hdev, land_other_lor by reflexivity. done.
Qed.

Lemma flags_of_block f : flags_of (block_bits f) = flags_of (leaf_bits f).
Proof. by_flags f. Qed.

#[export] Instance Aarch64_laws : PageFormatLaws (F := Aarch64_format).
Proof.
  unshelve econstructor; [exact 48|..]; simpl; try lia; try done.
  - intros pa Hpa Hm. assert (Hp : Z.land pa ADDR_MASK = pa) by (by apply (land_addr_mask 48)).
    rewrite <- Z.lor_assoc. unfold is_block. split_and!.
    + by rewrite any_set_lor.
    + by rewrite land_other_lor.
    + by rewrite land_mask_lor.
  - intros pa f Hpa Hm. assert (Hp : Z.land pa ADDR_MASK = pa) by (by apply (land_addr_mask 48)).
    rewrite leaf_split. split_and!.
    + rewrite any_set_lor by done. by_flags f.
    + rewrite land_mask_lor; [done|apply bits_disjoint].
    + unfold visible. simpl. by rewrite leaf_split, !flags_of_lor.
  - intros pa f s e Hpa Hm Hs. assert (Hp : Z.land pa ADDR_MASK = pa).
    { apply (land_addr_mask 48); [lia|done|by apply (bytes_page _ s)]. }
    destruct s; [done|..]; simpl; intros [= <-];
      rewrite Hp, land_not_bytes, <- Hp, <- Z.lor_assoc by (done || lia); fold (block_bits f);
      (split_and!; [rewrite any_set_lor by done; by_flags f|rewrite land_other_lor by done; by_flags f| |]).
    all: try (rewrite land_mask_lor; [done|apply bits_disjoint]).
    all: unfold visible; simpl; by rewrite leaf_split, !flags_of_lor, flags_of_block.
Defined.

End Aarch64.
