(* ===== verification/Sv39.v ===== *)
(** * RISC-V Sv39 tables (crates/paging/src/sv39.rs) *)

From S2P Require Import Prelude PageFormat.
Local Open Scope Z_scope.

Module Sv39.
Import PageFormat.

Definition V : Z := Z.shiftl 1 0.
Definition R : Z := Z.shiftl 1 1.
Definition W : Z := Z.shiftl 1 2.
Definition X : Z := Z.shiftl 1 3.
Definition U : Z := Z.shiftl 1 4.
Definition G : Z := Z.shiftl 1 5.
Definition A : Z := Z.shiftl 1 6.
Definition D : Z := Z.shiftl 1 7.
Definition SW_DEVICE : Z := Z.shiftl 1 8.
Definition PPN_SHIFT : Z := 10.
Definition PPN_MASK : Z := Z.shiftl 1 44 - 1.

Definition attrs (f : Flags) : Z :=
  let bits := Z.lor R A in
  let bits := or_if (is_writable f) (Z.lor W D) bits in
  let bits := or_if (is_user_executable f || is_kernel_executable f) X bits in
  let bits := or_if (is_user_accessible f) U bits in
  let bits := or_if (is_global f) G bits in
  or_if (is_device f) SW_DEVICE bits.

Definition ppn (pa : Z) : Z := Z.shiftl (Z.land (Z.shiftr pa 12) PPN_MASK) PPN_SHIFT.

Definition leaf (pa : Z) (f : Flags) : Z := Z.lor (Z.lor (ppn pa) V) (attrs f).

Definition flags_of (entry : Z) : Flags :=
  let c := or_if (any_set entry W) CAP_WRITE 0 in
  let c := or_if (any_set entry U) CAP_USER c in
  let c := if any_set entry X
           then (if any_set entry U then Z.lor c CAP_USER_EXEC else Z.lor c CAP_KERNEL_EXEC)
           else c in
  let c := or_if (any_set entry G) CAP_GLOBAL c in
  MkFlags (or_if (any_set entry SW_DEVICE) CAP_DEVICE c).

#[export] Instance Sv39_format : PageFormat := {
  LEVELS := 3;
  SPLIT_SHIFT := 38;
  is_present entry := any_set entry V;
  entry_pa entry := Z.shiftl (Z.land (Z.shiftr entry PPN_SHIFT) PPN_MASK) 12;
  table_entry pa := Z.lor (ppn pa) V;
  leaf_entry := leaf;
  leaf_flags := flags_of;
  block_entry pa f s := Some (leaf (Z.land pa (not_w 64 (bytes s - 1))) f);
  is_block entry := any_set entry (Z.lor (Z.lor R W) X) }.

(** ** The laws *)

Lemma low_land x c m :
  0 <= m < 1024 -> Z.land (Z.lor (Z.shiftl x PPN_SHIFT) c) m = Z.land c m.
Proof.
  intros Hm. apply Z.bits_inj'. intros i Hi.
  rewrite !Z.land_spec, Z.lor_spec, Z.shiftl_spec by done. unfold PPN_SHIFT.
  destruct (Z.lt_ge_cases i 10).
  - rewrite (Z.testbit_neg_r x) by lia. done.
  - rewrite (testbit_above 10 m) by (done || lia). by rewrite !andb_false_r.
Qed.

Lemma any_set_low x c m : 0 <= m < 1024 -> any_set (Z.lor (Z.shiftl x PPN_SHIFT) c) m = any_set c m.
Proof. intros. unfold any_set. by rewrite low_land. Qed.

Lemma entry_pa_low x c :
  0 <= c < 1024 -> Z.shiftr (Z.lor (Z.shiftl x PPN_SHIFT) c) PPN_SHIFT = x.
Proof.
  intros Hc. rewrite Z.shiftr_lor, Z.shiftr_shiftl_l by (unfold PPN_SHIFT; lia).
  unfold PPN_SHIFT. rewrite Z.sub_diag, Z.shiftl_0_r, (Z.shiftr_div_pow2 c) by lia.
  rewrite Z.div_small by done. apply Z.lor_0_r.
Qed.

Lemma ppn_roundtrip pa :
  0 <= pa < 2 ^ 56 -> pa mod PAGE_SIZE = 0 ->
  Z.shiftl (Z.land (Z.land (Z.shiftr pa 12) PPN_MASK) PPN_MASK) 12 = pa.
Proof.
  intros Hpa Hm. rewrite <- Z.land_assoc, Z.land_diag.
  change PPN_MASK with (Z.ones 44). rewrite Z.land_ones by lia.
  rewrite Z.shiftr_div_pow2, Z.shiftl_mul_pow2 by lia. unfold PAGE_SIZE in Hm.
  rewrite Z.mod_small.
  - change (2 ^ 12) with 4096. pose proof (Z.div_mod pa 4096 ltac:(lia)). lia.
  - split; [apply Z.div_pos; lia|]. apply Z.div_lt_upper_bound; [lia|]. lia.
Qed.

Definition low_bits (f : Flags) : Z := Z.lor V (attrs f).

Lemma leaf_low pa f : leaf pa f = Z.lor (ppn pa) (low_bits f).
Proof. unfold leaf, low_bits. by rewrite Z.lor_assoc. Qed.

Lemma attrs_cases f (P : Z -> Prop) :
  (forall w x u g d, P (or_if d SW_DEVICE (or_if g G (or_if u U (or_if x X (or_if w (Z.lor W D) (Z.lor R A))))))) ->
  P (attrs f).
Proof. intros H. apply H. Qed.

Lemma low_bits_small f :
  0 <= low_bits f < 1024 /\ any_set (low_bits f) V = true /\ any_set (low_bits f) (Z.lor (Z.lor R W) X) = true.
Proof.
  unfold low_bits. apply (attrs_cases f (fun a => 0 <= Z.lor V a < 1024 /\ any_set (Z.lor V a) V = true /\
    any_set (Z.lor V a) (Z.lor (Z.lor R W) X) = true)).
  intros [] [] [] [] []; vm_compute; repeat split; congruence.
Qed.

Lemma flags_of_low x c : flags_of (Z.lor (Z.shiftl x PPN_SHIFT) c) = flags_of c.
Proof. unfold flags_of. by rewrite !any_set_low by (vm_compute; split; congruence). Qed.

#[export] Instance Sv39_laws : PageFormatLaws (F := Sv39_format).
Proof.
  unshelve econstructor; [exact 56|..]; simpl; try lia; try done.
  - intros pa Hpa Hm. unfold ppn. rewrite !any_set_low, entry_pa_low by (vm_compute; split; congruence).
    split_and!; [done|done|by apply ppn_roundtrip].
  - intros pa f Hpa Hm. rewrite leaf_low. destruct (low_bits_small f) as (Hs & Hv & _). unfold ppn.
    rewrite any_set_low, entry_pa_low by (done || (vm_compute; split; congruence)).
    split_and!; [done|by apply ppn_roundtrip|].
    unfold visible. simpl. rewrite leaf_low. unfold ppn. by rewrite !flags_of_low.
  - intros pa f s e Hpa Hm Hs [= <-]. assert (pa mod PAGE_SIZE = 0) by (by apply (bytes_page _ s)).
    rewrite land_not_bytes by (done || lia). rewrite leaf_low.
    destruct (low_bits_small f) as (Hs' & Hv & Hb). unfold ppn.
    rewrite !any_set_low, entry_pa_low by (done || (vm_compute; split; congruence)).
    split_and!; [done|done|by apply ppn_roundtrip|].
    unfold visible. simpl. rewrite leaf_low. unfold ppn. by rewrite !flags_of_low.
Defined.

End Sv39.
