(* ===== verification/X86.v ===== *)
(** * x86-64 CPU tables and VT-d second-level tables (crates/paging/src/x86_64.rs) *)

From S2P Require Import Prelude PageFormat.
Local Open Scope Z_scope.

Module X86.
Import PageFormat.

Definition P : Z := Z.shiftl 1 0.
Definition RW : Z := Z.shiftl 1 1.
Definition US : Z := Z.shiftl 1 2.
Definition PWT : Z := Z.shiftl 1 3.
Definition PCD : Z := Z.shiftl 1 4.
Definition A : Z := Z.shiftl 1 5.
Definition D : Z := Z.shiftl 1 6.
Definition G : Z := Z.shiftl 1 8.
Definition PS : Z := Z.shiftl 1 7.
Definition XD : Z := Z.shiftl 1 63.
Definition SW_KERNEL_EXEC : Z := Z.shiftl 1 9.
Definition SW_DEVICE : Z := Z.shiftl 1 10.
Definition ADDR_MASK : Z := 0x000ffffffffff000.

Definition attrs (f : Flags) : Z :=
  let bits := A in
  let bits := or_if (is_writable f) (Z.lor RW D) bits in
  let bits := or_if (is_user_accessible f) US bits in
  let bits := or_if (is_global f) G bits in
  let bits := or_if (is_device f) (Z.lor (Z.lor PCD PWT) SW_DEVICE) bits in
  if is_kernel_executable f then Z.lor bits SW_KERNEL_EXEC
  else or_if (negb (is_user_executable f)) XD bits.

Definition ia32e_leaf (pa : Z) (f : Flags) : Z := Z.lor (Z.lor (Z.land pa ADDR_MASK) P) (attrs f).

Definition ia32e_flags_of (entry : Z) : Flags :=
  let c := or_if (any_set entry RW) CAP_WRITE 0 in
  let c := or_if (any_set entry US) CAP_USER c in
  let c := if negb (any_set entry XD)
           then (if any_set entry US then Z.lor c CAP_USER_EXEC
                 else or_if (any_set entry SW_KERNEL_EXEC) CAP_KERNEL_EXEC c)
           else c in
  let c := or_if (any_set entry G) CAP_GLOBAL c in
  MkFlags (or_if (any_set entry SW_DEVICE) CAP_DEVICE c).

Definition block (pa : Z) (f : Flags) (s : PageSize) : option Z :=
  match s with
  | Size4KiB => Some (ia32e_leaf pa f)
  | _ => Some (Z.lor (Z.lor (Z.lor (Z.land (Z.land pa ADDR_MASK) (not_w 64 (bytes s - 1))) P) PS) (attrs f))
  end.

#[export] Instance Ia32e : PageFormat := {
  LEVELS := 4;
  SPLIT_SHIFT := 47;
  is_present entry := any_set entry P;
  entry_pa entry := Z.land entry ADDR_MASK;
  table_entry pa := Z.lor (Z.lor (Z.lor (Z.land pa ADDR_MASK) P) RW) US;
  leaf_entry := ia32e_leaf;
  leaf_flags := ia32e_flags_of;
  block_entry := block;
  is_block entry := any_set entry PS }.

(** ** VT-d second-level tables *)

Definition VTD_R : Z := Z.shiftl 1 0.
Definition VTD_W : Z := Z.shiftl 1 1.
Definition VTD_ADDR_MASK : Z := 0x000ffffffffff000.

Definition vtd_leaf (pa : Z) (f : Flags) : Z :=
  let bits := or_if (is_writable f) VTD_W VTD_R in
  Z.lor (Z.land pa VTD_ADDR_MASK) bits.

Definition vtd_flags_of (entry : Z) : Flags := MkFlags (or_if (any_set entry VTD_W) CAP_WRITE 0).

#[export] Instance Vtd : PageFormat := {
  LEVELS := 4;
  SPLIT_SHIFT := 47;
  is_present entry := any_set entry (Z.lor VTD_R VTD_W);
  entry_pa entry := Z.land entry VTD_ADDR_MASK;
  table_entry pa := Z.lor (Z.lor (Z.land pa VTD_ADDR_MASK) VTD_R) VTD_W;
  leaf_entry := vtd_leaf;
  leaf_flags := vtd_flags_of;
  block_entry pa f s := match s with Size4KiB => Some (vtd_leaf pa f) | _ => None end;
  is_block entry := any_set entry (Z.shiftl 1 7) }.

(** ** The laws *)

Definition leaf_bits (f : Flags) : Z := Z.lor P (attrs f).
Definition block_bits (f : Flags) : Z := Z.lor P (Z.lor PS (attrs f)).

Lemma ia32e_leaf_split pa f : ia32e_leaf pa f = Z.lor (Z.land pa ADDR_MASK) (leaf_bits f).
Proof. unfold ia32e_leaf, leaf_bits. by rewrite Z.lor_assoc. Qed.

Ltac by_flags f :=
  unfold leaf_bits, block_bits, attrs;
  destruct (is_device f), (is_user_accessible f), (is_writable f), (is_kernel_executable f),
    (is_user_executable f), (is_global f); reflexivity.

Lemma ia32e_bits_disjoint f : Z.land (leaf_bits f) ADDR_MASK = 0 /\ Z.land (block_bits f) ADDR_MASK = 0.
Proof. split; by_flags f. Qed.

Lemma ia32e_flags_of_lor p c : ia32e_flags_of (Z.lor (Z.land p ADDR_MASK) c) = ia32e_flags_of c.
Proof. unfold ia32e_flags_of. by rewrite !any_set_lor. Qed.

Lemma ia32e_flags_of_block f : ia32e_flags_of (block_bits f) = ia32e_flags_of (leaf_bits f).
Proof. by_flags f. Qed.

#[export] Instance Ia32e_laws : PageFormatLaws (F := Ia32e).
Proof.
  unshelve econstructor; [exact 52|..]; simpl; try lia; try done.
  - intros pa Hpa Hm. assert (Hp : Z.land pa ADDR_MASK = pa) by (by apply (land_addr_mask 52)).
    rewrite <- !Z.lor_assoc. rewrite !any_set_lor, land_mask_lor by done. done.
  - intros pa f Hpa Hm. assert (Hp : Z.land pa ADDR_MASK = pa) by (by apply (land_addr_mask 52)).
    rewrite ia32e_leaf_split. split_and!.
    + rewrite any_set_lor by done. by_flags f.
    + rewrite land_mask_lor; [done|apply ia32e_bits_disjoint].
    + unfold visible. simpl. by rewrite ia32e_leaf_split, !ia32e_flags_of_lor.
  - intros pa f s e Hpa Hm Hs. assert (Hp : Z.land pa ADDR_MASK = pa).
    { apply (land_addr_mask 52); [lia|done|by apply (bytes_page _ s)]. }
    destruct s; [done|..]; simpl; intros [= <-];
      rewrite Hp, land_not_bytes, <- Hp, <- !Z.lor_assoc by (done || lia); fold (block_bits f);
      (split_and!; [rewrite any_set_lor by done; by_flags f|rewrite any_set_lor by done; by_flags f| |]).
    all: try (rewrite land_mask_lor; [done|apply ia32e_bits_disjoint]).
    all: unfold visible; simpl; by rewrite ia32e_leaf_split, !ia32e_flags_of_lor, ia32e_flags_of_block.
Defined.

#[export] Instance Vtd_laws : PageFormatLaws (F := Vtd).
Proof.
  unshelve econstructor; [exact 52|..]; simpl; try lia; try done.
  - intros pa Hpa Hm. assert (Hp : Z.land pa VTD_ADDR_MASK = pa) by (by apply (land_addr_mask 52)).
    rewrite <- !Z.lor_assoc. rewrite !any_set_lor, land_mask_lor by done. done.
  - intros pa f Hpa Hm. assert (Hp : Z.land pa VTD_ADDR_MASK = pa) by (by apply (land_addr_mask 52)).
    unfold visible. simpl. unfold vtd_leaf, vtd_flags_of.
    rewrite !any_set_lor, land_mask_lor by (done || by destruct (is_writable f)).
    split_and!; [by destruct (is_writable f)|done|done].
  - intros pa f s e Hpa Hm Hs. destruct s; done.
Defined.

End X86.
