(* ===== verification/Mapper.v ===== *)
(** * The page-table mapper (crates/paging/src/lib.rs) and device domains
    (crates/paging/src/domain.rs)

    A [Mapper] walks tables in physical memory through any [PageFormat].
    Memory is the 64-bit word at each index of each table frame; [frames] are
    the answers the caller's frame allocator gives, in order. The address
    arithmetic of a span is exact: the callers' spans lie in one half. *)

From S2P Require Import Prelude PageFormat Aarch64 Sv39 X86.
Local Open Scope Z_scope.

Module Mapper.
Import PageFormat.

Inductive MapError :=
  | OutOfPageFrames | Misaligned | AlreadyMapped | WrongHalf | NotMapped | InsideBlock
  | UnsupportedSize | BadRegion.

#[export] Instance MapError_eq_dec : EqDecision MapError.
Proof. solve_decision. Defined.

Record TlbFlush := MkFlush { flush_va : Z }.

Definition Memory : Type := Z -> nat -> Z.

Definition write (mem : Memory) (table : Z) (i : nat) (e : Z) : Memory :=
  fun t j => if decide (t = table /\ j = i) then e else mem t j.

(** Zeroing every entry of a fresh table. *)
Definition clear_table (mem : Memory) (table : Z) : Memory :=
  fun t j => if decide (t = table) then 0 else mem t j.

Record Mapper := MkMapper { root : Z; half : Half; frames : list Z; memory : Memory }.

Section mapper.
Context `{F : PageFormat}.

(** The loop that walks down from [level] for [n] levels, making missing
    tables: the table reached, the frames left and the memory. *)
Fixpoint descend (n level : nat) (table va : Z) (fr : list Z) (mem : Memory)
  : result MapError Z * list Z * Memory :=
  match n with
  | O => (Ok table, fr, mem)
  | S n' =>
      let i := index va level in
      let entry := mem table i in
      if negb (is_present entry) then
        match fr with
        | [] => (Err OutOfPageFrames, fr, mem)
        | new :: fr' =>
            let mem := clear_table mem new in
            let entry := table_entry new in
            descend n' (S level) (entry_pa entry) va fr' (write mem table i entry)
        end
      else if is_block entry then (Err AlreadyMapped, fr, mem)
      else descend n' (S level) (entry_pa entry) va fr mem
  end.

(** The walk to [leaf_level] and the write of [leaf] into an empty slot. *)
Definition place (m : Mapper) (leaf_level : nat) (va leaf : Z) : result MapError unit * Mapper :=
  let '(r, fr, mem) := descend leaf_level 0 (root m) va (frames m) (memory m) in
  let m' := MkMapper (root m) (half m) fr in
  match r with
  | Err e => (Err e, m' mem)
  | Ok table =>
      let i := index va leaf_level in
      if is_present (mem table i) then (Err AlreadyMapped, m' mem)
      else (Ok tt, m' (write mem table i leaf))
  end.

Definition map (m : Mapper) (va pa : Z) (f : Flags) : result MapError unit * Mapper :=
  if negb (is_in_half (half m) va) then (Err WrongHalf, m)
  else if negb (is_multiple_of va PAGE_SIZE) || negb (is_multiple_of pa PAGE_SIZE) then (Err Misaligned, m)
  else place m (LEVELS - 1) va (leaf_entry pa f).

Definition map_block (m : Mapper) (va pa : Z) (size : PageSize) (f : Flags)
  : result MapError unit * Mapper :=
  if decide (size = Size4KiB) then map m va pa f
  else if negb (is_in_half (half m) va) then (Err WrongHalf, m)
  else if negb (is_multiple_of va (bytes size)) || negb (is_multiple_of pa (bytes size))
  then (Err Misaligned, m)
  else match block_entry pa f size with
  | None => (Err UnsupportedSize, m)
  | Some leaf => place m (LEVELS - 1 - levels_above_bottom size) va leaf
  end.

(** The [while] of [map_span]; [None] when the fuel is spent. *)
Fixpoint span_loop (fuel : nat) (m : Mapper) (va pa len done : Z) (f : Flags) (largest : PageSize)
  : option (result MapError unit * Mapper) :=
  if len <=? done then Some (Ok tt, m)
  else match fuel with
  | O => None
  | S fuel' =>
      let size := largest_fitting (va + done) (pa + done) (len - done) largest in
      match map_block m (va + done) (pa + done) size f with
      | (Err e, m') => Some (Err e, m')
      | (Ok _, m') => span_loop fuel' m' va pa len (done + bytes size) f largest
      end
  end.

Definition map_span (m : Mapper) (va pa len : Z) (f : Flags) (largest : PageSize)
  : option (result MapError unit * Mapper) :=
  if negb (is_multiple_of len PAGE_SIZE) then Some (Err Misaligned, m)
  else span_loop (Z.to_nat (len / PAGE_SIZE)) m va pa len 0 f largest.

Fixpoint range_loop (ns : list nat) (m : Mapper) (va pa : Z) (f : Flags) : result MapError unit * Mapper :=
  match ns with
  | [] => (Ok tt, m)
  | i :: ns' =>
      match map m (va + Z.of_nat i * PAGE_SIZE) (pa + Z.of_nat i * PAGE_SIZE) f with
      | (Err e, m') => (Err e, m')
      | (Ok _, m') => range_loop ns' m' va pa f
      end
  end.

Definition map_range (m : Mapper) (va pa : Z) (count : nat) (f : Flags) : result MapError unit * Mapper :=
  range_loop (seq 0 count) m va pa f.

(** The read-only walk of [unmap]: the bottom table. *)
Fixpoint unmap_walk (n level : nat) (table va : Z) (mem : Memory) : result MapError Z :=
  match n with
  | O => Ok table
  | S n' =>
      let entry := mem table (index va level) in
      if negb (is_present entry) then Err NotMapped
      else if is_block entry then Err InsideBlock
      else unmap_walk n' (S level) (entry_pa entry) va mem
  end.

Definition unmap (m : Mapper) (va : Z) : result MapError (Z * TlbFlush) * Mapper :=
  if negb (is_in_half (half m) va) then (Err WrongHalf, m)
  else if negb (is_multiple_of va PAGE_SIZE) then (Err Misaligned, m)
  else match unmap_walk (LEVELS - 1) 0 (root m) va (memory m) with
  | Err e => (Err e, m)
  | Ok table =>
      let i := index va (LEVELS - 1) in
      let entry := memory m table i in
      if negb (is_present entry) then (Err NotMapped, m)
      else (Ok (entry_pa entry, MkFlush va),
            MkMapper (root m) (half m) (frames m) (write (memory m) table i 0))
  end.

Fixpoint translate_loop (n level : nat) (table va : Z) (mem : Memory) : option (Z * Flags) :=
  let entry := mem table (index va level) in
  match n with
  | O =>
      if negb (is_present entry) then None
      else Some (entry_pa entry + va mod PAGE_SIZE, leaf_flags entry)
  | S n' =>
      if negb (is_present entry) then None
      else if is_block entry then
        let span := Z.shiftl PAGE_SIZE (9 * Z.of_nat (LEVELS - 1 - level)) in
        let base := Z.land (entry_pa entry) (not_w 64 (span - 1)) in
        Some (base + Z.land va (span - 1), leaf_flags entry)
      else translate_loop n' (S level) (entry_pa entry) va mem
  end.

Definition translate (m : Mapper) (va : Z) : option (Z * Flags) :=
  if negb (is_in_half (half m) va) then None
  else translate_loop (LEVELS - 1) 0 (root m) va (memory m).

(** ** Device domains *)

Record DmaRegion := MkRegion { region_base : Z; region_size : Z }.

Definition grant_pages (r : DmaRegion) : result MapError Z :=
  if negb (is_multiple_of (region_base r) PAGE_SIZE) then Err Misaligned
  else match checked_add 64 (region_base r) (region_size r) with
  | None => Err BadRegion
  | Some _ => Ok (region_size r / PAGE_SIZE)
  end.

Definition grant_page (r : DmaRegion) (i : Z) : option Z :=
  off ← checked_mul 64 i PAGE_SIZE;
  endp ← checked_add 64 off PAGE_SIZE;
  if region_size r <? endp then None else checked_add 64 (region_base r) off.

Fixpoint grant_loop (ns : list nat) (r : DmaRegion) (m : Mapper) : result MapError unit * Mapper :=
  match ns with
  | [] => (Ok tt, m)
  | i :: ns' =>
      match grant_page r (Z.of_nat i) with
      | None => (Err BadRegion, m)
      | Some page =>
          match map m page page user_data with
          | (Err e, m') => (Err e, m')
          | (Ok _, m') => grant_loop ns' r m'
          end
      end
  end.

Fixpoint domain_loop (regions : list DmaRegion) (m : Mapper) : result MapError unit * Mapper :=
  match regions with
  | [] => (Ok tt, m)
  | r :: rest =>
      match grant_pages r with
      | Err e => (Err e, m)
      | Ok pages =>
          match grant_loop (seq 0 (Z.to_nat pages)) r m with
          | (Err e, m') => (Err e, m')
          | (Ok _, m') => domain_loop rest m'
          end
      end
  end.

Definition build_identity_domain (root : Z) (frames : list Z) (mem : Memory) (regions : list DmaRegion)
  : result MapError unit * Mapper :=
  domain_loop regions (MkMapper root Low frames mem).
End mapper.

(** ** Indices and pages *)

Section walks.
Context `{F : PageFormat} {L : PageFormatLaws}.

(** The indices a walk of [va] uses above level [n]. *)
Definition pfx (n : nat) (va : Z) : list nat := index va <$> seq 0 n.

Lemma pfx_length n va : length (pfx n va) = n.
Proof. unfold pfx. by rewrite length_fmap, length_seq. Qed.

Lemma pfx_S n va : pfx (S n) va = pfx n va ++ [index va n].
Proof. unfold pfx. by rewrite seq_S, fmap_app. Qed.

Lemma pfx_le n n' va v : (n <= n')%nat -> pfx n' v = pfx n' va -> pfx n v = pfx n va.
Proof.
  intros Hn H. replace n' with (n + (n' - n))%nat in H by lia. unfold pfx in *.
  rewrite seq_app, !fmap_app in H. apply app_inj_1 in H; [by destruct H|].
  by rewrite !length_fmap.
Qed.

Lemma pfx_index n l va v : (l < n)%nat -> pfx n v = pfx n va -> index v l = index va l.
Proof.
  intros Hl H. apply (pfx_le (S l)) in H; [|lia]. rewrite !pfx_S in H.
  apply app_inj_tail in H. by destruct H.
Qed.

Lemma index_bits va l j :
  0 <= j < 9 -> Z.testbit (Z.of_nat (index va l)) j = Z.testbit va (j + 9 * Z.of_nat (LEVELS - 1 - l) + 12).
Proof.
  intros Hj. unfold index. rewrite Z2Nat.id by (apply Z.land_nonneg; right; lia).
  rewrite Z.land_spec, Z.shiftr_spec by lia. change 511 with (Z.ones 9).
  rewrite Z.testbit_ones_nonneg by lia. rewrite (proj2 (Z.ltb_lt j 9)), andb_true_r by lia.
  f_equal. lia.
Qed.

Lemma half_bits h va v b :
  is_in_half h va = true -> is_in_half h v = true -> SPLIT_SHIFT <= b -> Z.testbit v b = Z.testbit va b.
Proof.
  intros Hva Hv Hb. pose proof pf_split as Hs.
  assert (H : Z.shiftr v SPLIT_SHIFT = Z.shiftr va SPLIT_SHIFT).
  { destruct h; cbn in Hva, Hv; apply Z.eqb_eq in Hva, Hv; congruence. }
  replace b with ((b - SPLIT_SHIFT) + SPLIT_SHIFT) by lia.
  rewrite <- !Z.shiftr_spec by lia. by rewrite H.
Qed.

(** Addresses of one half that share their first indices share the span
    those indices select, and conversely. *)
Lemma pfx_span h va v k :
  (k < LEVELS)%nat -> is_in_half h va = true -> is_in_half h v = true ->
  pfx (LEVELS - k) v = pfx (LEVELS - k) va <->
  Z.shiftr v (12 + 9 * Z.of_nat k) = Z.shiftr va (12 + 9 * Z.of_nat k).
Proof.
  intros Hk Hva Hv. split; intros H.
  - apply Z.bits_inj'. intros j Hj. rewrite !Z.shiftr_spec by lia.
    set (b := j + (12 + 9 * Z.of_nat k)). destruct (Z.le_gt_cases SPLIT_SHIFT b) as [Hb|Hb].
    { by apply (half_bits h). }
    pose proof pf_split as Hs.
    pose proof (Z.div_mod (b - 12) 9 ltac:(lia)) as Hd.
    pose proof (Z.mod_pos_bound (b - 12) 9 ltac:(lia)) as Hm.
    set (q := (b - 12) / 9) in *. set (r := (b - 12) mod 9) in *.
    assert (Hq : Z.of_nat k <= q) by (apply Z.div_le_lower_bound; lia).
    assert (Hq' : q < Z.of_nat LEVELS) by (apply Z.div_lt_upper_bound; lia).
    assert (Hi := pfx_index (LEVELS - k) (LEVELS - 1 - Z.to_nat q) va v ltac:(lia) H).
    apply (f_equal (fun i => Z.testbit (Z.of_nat i) r)) in Hi. rewrite !index_bits in Hi by lia.
    by replace (r + 9 * Z.of_nat (LEVELS - 1 - (LEVELS - 1 - Z.to_nat q)) + 12) with b in Hi by lia.
  - unfold pfx. apply list_fmap_ext. intros l x [-> Hl]%lookup_seq. unfold index. do 2 f_equal.
    replace (9 * Z.of_nat (LEVELS - 1 - (0 + l)) + 12)
      with ((12 + 9 * Z.of_nat k) + (9 * Z.of_nat (LEVELS - 1 - l) - 9 * Z.of_nat k)) by lia.
    rewrite <- (Z.shiftr_shiftr v), <- (Z.shiftr_shiftr va) by lia. by rewrite H.
Qed.

Definition in_span (va n v : Z) : Prop := va <= v < va + n.

#[export] Instance in_span_dec va n v : Decision (in_span va n v).
Proof. unfold in_span. apply _. Defined.

Lemma pfx_in_span h va v s :
  is_in_half h va = true -> is_in_half h v = true -> va mod bytes s = 0 ->
  pfx (LEVELS - levels_above_bottom s) v = pfx (LEVELS - levels_above_bottom s) va <->
  in_span va (bytes s) v.
Proof.
  intros Hva Hv Hm. pose proof pf_levels. rewrite (pfx_span h) by (done || destruct s; simpl; lia).
  rewrite !Z.shiftr_div_pow2 by lia. rewrite <- bytes_pow. unfold in_span.
  assert (0 < bytes s) by (by destruct s).
  pose proof (Z.div_mod v (bytes s) ltac:(lia)). pose proof (Z.mod_pos_bound v (bytes s) ltac:(lia)).
  pose proof (Z.div_mod va (bytes s) ltac:(lia)). nia.
Qed.

(** An aligned span that starts in a half stays in it. *)
Lemma half_span h va v s :
  is_in_half h va = true -> va mod bytes s = 0 -> in_span va (bytes s) v -> is_in_half h v = true.
Proof.
  intros Hva Hm Hv. pose proof pf_split as Hs.
  assert (Hb : 12 + 9 * Z.of_nat (levels_above_bottom s) <= SPLIT_SHIFT) by (destruct s; simpl; lia).
  assert (H : Z.shiftr v SPLIT_SHIFT = Z.shiftr va SPLIT_SHIFT).
  { replace SPLIT_SHIFT with ((12 + 9 * Z.of_nat (levels_above_bottom s))
      + (SPLIT_SHIFT - (12 + 9 * Z.of_nat (levels_above_bottom s)))) by lia.
    rewrite <- (Z.shiftr_shiftr v), <- (Z.shiftr_shiftr va) by lia. f_equal. rewrite !Z.shiftr_div_pow2 by lia.
    rewrite <- bytes_pow. unfold in_span in Hv. assert (0 < bytes s) by (by destruct s).
    pose proof (Z.div_mod v (bytes s) ltac:(lia)). pose proof (Z.mod_pos_bound v (bytes s) ltac:(lia)).
    pose proof (Z.div_mod va (bytes s) ltac:(lia)). nia. }
  destruct h; cbn in *; by rewrite H.
Qed.

(** ** Labelled tables

    Every table in use carries the indices that lead to it from the root, so
    no table is reached along two paths. *)

Record labelled (rt : Z) (mem : Memory) (lab : gmap Z (list nat)) : Prop := {
  lab_root : lab !! rt = Some [];
  lab_depth T pre : lab !! T = Some pre -> (length pre <= LEVELS - 1)%nat;
  lab_child T pre i : lab !! T = Some pre -> (length pre < LEVELS - 1)%nat ->
    is_present (mem T i) = true -> is_block (mem T i) = false ->
    lab !! entry_pa (mem T i) = Some (pre ++ [i]) }.

(** The frames the allocator has left are usable and not in use. *)
Definition fresh (lab : gmap Z (list nat)) (fr : list Z) : Prop :=
  NoDup fr /\ forall x, x ∈ fr -> lab !! x = None /\ 0 <= x < 2 ^ pa_bits /\ x mod PAGE_SIZE = 0.

Lemma write_same mem T i e : write mem T i e T i = e.
Proof. unfold write. by rewrite decide_True. Qed.

Lemma write_other mem T i e T' j : ~ (T' = T /\ j = i) -> write mem T i e T' j = mem T' j.
Proof. intros. unfold write. by rewrite decide_False. Qed.

(** *** Walks *)

Lemma walk_app n k level T va mem :
  unmap_walk (n + k) level T va mem =
  match unmap_walk n level T va mem with Ok T' => unmap_walk k (level + n) T' va mem | Err e => Err e end.
Proof.
  revert level T. induction n as [|n IH]; intros level T; simpl; [by rewrite Nat.add_0_r|].
  destruct (negb _); [done|]. destruct (is_block _); [done|].
  rewrite IH. by replace (S level + n)%nat with (level + S n)%nat by lia.
Qed.

Lemma walk_translate n k level T T' va mem :
  unmap_walk n level T va mem = Ok T' ->
  translate_loop (n + k) level T va mem = translate_loop k (level + n) T' va mem.
Proof.
  revert level T. induction n as [|n IH]; intros level T; simpl.
  { intros [= ->]. by rewrite Nat.add_0_r. }
  destruct (negb _); [done|]. destruct (is_block _); [done|]. intros H.
  rewrite (IH _ _ H). by replace (S level + n)%nat with (level + S n)%nat by lia.
Qed.

Lemma walk_ext n level T va v mem :
  pfx (level + n) v = pfx (level + n) va -> unmap_walk n level T v mem = unmap_walk n level T va mem.
Proof.
  revert level T. induction n as [|n IH]; intros level T H; simpl; [done|].
  rewrite (pfx_index (level + S n) level va v ltac:(lia) H).
  destruct (negb _); [done|]. destruct (is_block _); [done|].
  apply IH. by replace (S level + n)%nat with (level + S n)%nat by lia.
Qed.

Section labelled.
Context (rt : Z) (mem : Memory) (lab : gmap Z (list nat)) (HL : labelled rt mem lab).

Lemma child_label level T va :
  lab !! T = Some (pfx level va) -> (level < LEVELS - 1)%nat ->
  is_present (mem T (index va level)) = true -> is_block (mem T (index va level)) = false ->
  lab !! entry_pa (mem T (index va level)) = Some (pfx (S level) va).
Proof. intros. rewrite pfx_S. apply (lab_child _ _ _ HL); [done|by rewrite pfx_length|done|done]. Qed.

Lemma walk_label n level T T' va :
  lab !! T = Some (pfx level va) -> (level + n <= LEVELS - 1)%nat ->
  unmap_walk n level T va mem = Ok T' -> lab !! T' = Some (pfx (level + n) va).
Proof.
  revert level T. induction n as [|n IH]; intros level T HT Hn; simpl.
  { intros [= ->]. by rewrite Nat.add_0_r. }
  destruct (is_present _) eqn:Hp; [|done]. destruct (is_block _) eqn:Hb; [done|]. simpl. intros H.
  replace (level + S n)%nat with (S level + n)%nat by lia.
  apply (IH (S level) (entry_pa (mem T (index va level)))); [|lia|done].
  apply child_label; [done|lia|done|done].
Qed.

Lemma walk_root_label n T va :
  (n <= LEVELS - 1)%nat -> unmap_walk n 0 rt va mem = Ok T -> lab !! T = Some (pfx n va).
Proof. intros Hn. apply (walk_label n 0 rt T va); [apply HL|lia]. Qed.

(** A write below the levels walked is not seen. *)
Lemma walk_write n level T va T0 pre i e :
  lab !! T = Some (pfx level va) -> lab !! T0 = Some pre -> (level + n <= length pre)%nat ->
  unmap_walk n level T va (write mem T0 i e) = unmap_walk n level T va mem.
Proof.
  revert level T. induction n as [|n IH]; intros level T HT HT0 Hn; simpl; [done|].
  rewrite write_other.
  2:{ intros [-> _]. rewrite HT in HT0. injection HT0 as <-. rewrite pfx_length in Hn. lia. }
  destruct (is_present _) eqn:Hp; [|done]. destruct (is_block _) eqn:Hb; [done|]. simpl.
  pose proof (lab_depth _ _ _ HL _ _ HT0).
  apply IH; [|done|lia]. apply child_label; [done|lia|done|done].
Qed.

(** A write of one slot is seen only through that slot. *)
Lemma translate_write n level T va T0 pre i e :
  lab !! T = Some (pfx level va) -> (level + n = LEVELS - 1)%nat -> lab !! T0 = Some pre ->
  pfx (S (length pre)) va <> pre ++ [i] ->
  translate_loop n level T va (write mem T0 i e) = translate_loop n level T va mem.
Proof.
  intros HT Hn HT0 Hne.
  assert (Hslot : forall level T, lab !! T = Some (pfx level va) ->
    write mem T0 i e T (index va level) = mem T (index va level)).
  { intros l T' HT'. apply write_other. intros [-> Hi]. rewrite HT' in HT0. injection HT0 as <-.
    apply Hne. rewrite pfx_length, pfx_S. by rewrite Hi. }
  revert level T HT Hn. induction n as [|n IH]; intros level T HT Hn; simpl; rewrite Hslot by done; [done|].
  destruct (is_present _) eqn:Hp; [|done]. destruct (is_block _) eqn:Hb; [done|]. simpl.
  apply IH; [|lia]. apply child_label; [done|lia|done|done].
Qed.

(** Linking a fresh, zeroed table into an empty slot. *)
Definition link (T0 : Z) (i : nat) (new : Z) : Memory :=
  write (clear_table mem new) T0 i (table_entry new).

Context (T0 new : Z) (pre : list nat) (i : nat).
Context (HT0 : lab !! T0 = Some pre) (Hpre : (length pre < LEVELS - 1)%nat).
Context (Hnew : lab !! new = None) (Hr : 0 <= new < 2 ^ pa_bits) (Hal : new mod PAGE_SIZE = 0).
Context (Habs : is_present (mem T0 i) = false).

Lemma link_slot T pre' j :
  lab !! T = Some pre' -> ~ (T = T0 /\ j = i) -> link T0 i new T j = mem T j.
Proof using All.
  intros HT Hne. unfold link. rewrite write_other by done. unfold clear_table.
  rewrite decide_False; [done|]. intros ->. congruence.
Qed.

Lemma link_new j : link T0 i new new j = 0.
Proof using All.
  unfold link. rewrite write_other by (intros [-> _]; congruence).
  unfold clear_table. by rewrite decide_True.
Qed.

Lemma link_labelled : labelled rt (link T0 i new) (<[new := pre ++ [i]]> lab).
Proof using All.
  destruct (pf_table new Hr Hal) as (_ & _ & Hpa). split.
  - rewrite lookup_insert_ne; [apply HL|]. intros ->. pose proof (lab_root _ _ _ HL). congruence.
  - intros T p. rewrite lookup_insert_Some. intros [[<- <-]|[_ HT]]; [|by eapply lab_depth].
    rewrite length_app. simpl. lia.
  - intros T p j. rewrite lookup_insert_Some. intros [[<- <-]|[Hne HT]] Hlen Hp Hb.
    { rewrite link_new, pf_zero in Hp. done. }
    destruct (decide (T = T0 /\ j = i)) as [[-> ->]|Hs].
    + unfold link. rewrite write_same, Hpa, lookup_insert_eq. congruence.
    + rewrite (link_slot _ _ _ HT Hs) in *. pose proof (lab_child _ _ _ HL _ _ _ HT Hlen Hp Hb) as Hc.
      rewrite lookup_insert_ne; [done|]. intros ->. congruence.
Qed.

Lemma link_translate n level T va :
  lab !! T = Some (pfx level va) -> (level + n = LEVELS - 1)%nat ->
  translate_loop n level T va (link T0 i new) = translate_loop n level T va mem.
Proof using All.
  destruct (pf_table new Hr Hal) as (Hp1 & Hb1 & Hpa).
  revert level T. induction n as [|n IH]; intros level T HT Hn; simpl.
  - rewrite (link_slot _ _ _ HT); [done|]. intros [-> _]. rewrite HT in HT0. injection HT0 as <-.
    rewrite pfx_length in Hpre. lia.
  - destruct (decide (T = T0 /\ index va level = i)) as [[-> Hi]|Hs].
    + rewrite Hi, Habs. unfold link at 1 2 3 4 5. rewrite write_same, Hp1, Hb1, Hpa. simpl.
      destruct n; simpl; by rewrite link_new, pf_zero.
    + rewrite (link_slot _ _ _ HT Hs). destruct (is_present (mem T _)) eqn:Hp; [|done].
      destruct (is_block (mem T _)) eqn:Hb; [done|]. simpl.
      apply IH; [|lia]. apply child_label; [done|lia|done|done].
Qed.

Lemma link_walk n level T T' va :
  lab !! T = Some (pfx level va) -> (level + n <= LEVELS - 1)%nat ->
  unmap_walk n level T va mem = Ok T' -> unmap_walk n level T va (link T0 i new) = Ok T'.
Proof using All.
  revert level T. induction n as [|n IH]; intros level T HT Hn; simpl; [done|].
  destruct (is_present (mem T _)) eqn:Hp; [|done]. destruct (is_block (mem T _)) eqn:Hb; [done|].
  rewrite (link_slot _ _ _ HT), Hp, Hb by (intros [-> <-]; congruence). simpl.
  intros H. apply IH; [|lia|done]. apply child_label; [done|lia|done|done].
Qed.
End labelled.

(** A walk down to an entry decides the translation there. *)
Lemma walk_split level rt T va mem :
  (level <= LEVELS - 1)%nat -> unmap_walk level 0 rt va mem = Ok T ->
  translate_loop (LEVELS - 1) 0 rt va mem = translate_loop (LEVELS - 1 - level) level T va mem.
Proof.
  intros Hl HT. replace (LEVELS - 1)%nat with (level + (LEVELS - 1 - level))%nat at 1 by lia.
  by rewrite (walk_translate _ _ _ _ _ _ _ HT).
Qed.

Lemma translate_absent n level T va mem :
  is_present (mem T (index va level)) = false -> translate_loop n level T va mem = None.
Proof. intros H. destruct n; simpl; by rewrite H. Qed.

Lemma fresh_insert lab new p fr : fresh lab (new :: fr) -> fresh (<[new := p]> lab) fr.
Proof.
  intros [Hnd Hf]. apply NoDup_cons in Hnd as [Hni Hnd]. split; [done|]. intros x Hx.
  rewrite lookup_insert_ne by (by intros ->). apply Hf. by right.
Qed.

(** What a failed descent leaves behind: the frames are gone, or a block is
    in the way. *)
Definition descend_error (rt va : Z) (mem : Memory) (fr fr' : list Z) (n : nat) (e : MapError) : Prop :=
  (e = OutOfPageFrames /\ fr' = [] /\ (length fr < n)%nat /\ translate_loop (LEVELS - 1) 0 rt va mem = None) \/
  (e = AlreadyMapped /\ translate_loop (LEVELS - 1) 0 rt va mem <> None).

Lemma descend_spec n level T va fr mem r fr' mem' rt lab :
  descend n level T va fr mem = (r, fr', mem') ->
  labelled rt mem lab -> fresh lab fr -> (level + n <= LEVELS - 1)%nat ->
  unmap_walk level 0 rt va mem = Ok T ->
  exists lab', labelled rt mem' lab' /\ fresh lab' fr' /\ suffix fr' fr /\
    (forall v, translate_loop (LEVELS - 1) 0 rt v mem' = translate_loop (LEVELS - 1) 0 rt v mem) /\
    match r with
    | Ok T' => unmap_walk (level + n) 0 rt va mem' = Ok T'
    | Err e => descend_error rt va mem' fr fr' n e
    end.
Proof.
  revert level T fr mem lab. induction n as [|n IH]; intros level T fr mem lab Hd HL Hf Hn HT; simpl in Hd.
  { injection Hd as <- <- <-. exists lab. rewrite Nat.add_0_r. by split_and!. }
  pose proof (walk_root_label _ _ _ HL level T va ltac:(lia) HT) as HlT.
  pose proof (walk_split level rt T va mem ltac:(lia) HT) as Hs.
  replace (level + S n)%nat with (S level + n)%nat in * by lia.
  assert (Hwalk : forall mem T', unmap_walk level 0 rt va mem = Ok T ->
    is_present (mem T (index va level)) = true -> is_block (mem T (index va level)) = false ->
    entry_pa (mem T (index va level)) = T' -> unmap_walk (S level) 0 rt va mem = Ok T').
  { intros m T' Hw Hp Hb <-. replace (S level) with (level + 1)%nat by lia. rewrite walk_app, Hw.
    simpl. by rewrite Hp, Hb. }
  destruct (is_present (mem T _)) eqn:Hp; simpl in Hd.
  - destruct (is_block (mem T _)) eqn:Hb.
    + injection Hd as <- <- <-. exists lab. split_and!; try done. right. split; [done|].
      rewrite Hs. replace (LEVELS - 1 - level)%nat with (S (LEVELS - 2 - level)) by lia.
      simpl. by rewrite Hp, Hb.
    + eapply IH in Hd; [|exact HL|done|lia|by apply (Hwalk mem)].
      destruct Hd as (lab' & H1 & H2 & H3 & H4 & H5). exists lab'. split_and!; try done.
      destruct r; [done|]. destruct H5 as [(? & ? & ? & ?)|?]; [left|by right]. split_and!; try done. lia.
  - destruct fr as [|new fr0].
    + injection Hd as <- <- <-. exists lab. split_and!; try done. left.
      split_and!; [done|done|simpl; lia|]. rewrite Hs. by apply translate_absent.
    + destruct (proj2 Hf new ltac:(by left)) as (Hnew & Hr & Hal).
      destruct (pf_table new Hr Hal) as (Hp1 & Hb1 & Hpa).
      assert (Hdl : (length (pfx level va) < LEVELS - 1)%nat) by (rewrite pfx_length; lia).
      eapply IH in Hd; [|by eapply link_labelled|by apply fresh_insert|lia|].
      2:{ apply Hwalk; [eapply link_walk; eauto; [apply HL|simpl; lia]|by rewrite write_same..]. }
      destruct Hd as (lab' & H1 & H2 & H3 & H4 & H5). exists lab'. split_and!; try done.
      * by apply suffix_cons_r.
      * intros v. rewrite H4. eapply link_translate; eauto; apply HL.
      * destruct r; [done|]. destruct H5 as [(? & ? & ? & ?)|?]; [left|by right]. split_and!; try done. simpl. lia.
Qed.

(** *** The mapper's invariant *)

Definition valid (m : Mapper) : Prop :=
  exists lab, labelled (root m) (memory m) lab /\ fresh lab (frames m).

(** The page or block [va, va+s) now shows [o]; nothing else changed. *)
Definition shows (m m' : Mapper) (va n : Z) (o : Z -> option (Z * Flags)) : Prop :=
  forall v, translate m' v = if decide (in_span va n v) then o v else translate m v.

Definition unchanged (m m' : Mapper) : Prop := forall v, translate m' v = translate m v.

Lemma span_offset va v s : va mod bytes s = 0 -> in_span va (bytes s) v -> v mod bytes s = v - va.
Proof.
  intros Hm Hv. unfold in_span in Hv. assert (0 < bytes s) by (by destruct s).
  symmetry. apply (Z.mod_unique_pos _ _ (va / bytes s)); [lia|].
  pose proof (Z.div_mod va (bytes s) ltac:(lia)). lia.
Qed.

(** A leaf that stands for [s] bytes at [pa]. *)
Definition leaf_for (leaf pa : Z) (s : PageSize) (fl : Flags) : Prop :=
  is_present leaf = true /\ entry_pa leaf = pa /\ leaf_flags leaf = fl /\
  (s <> Size4KiB -> is_block leaf = true).

Lemma leaf_translate mem T v va pa s fl :
  0 <= pa < 2 ^ pa_bits -> pa mod bytes s = 0 -> va mod bytes s = 0 -> in_span va (bytes s) v ->
  leaf_for (mem T (index v (LEVELS - 1 - levels_above_bottom s))) pa s fl ->
  translate_loop (levels_above_bottom s) (LEVELS - 1 - levels_above_bottom s) T v mem
  = Some (pa + (v - va), fl).
Proof.
  intros Hpa Hmp Hmv Hv (Hp & He & Hf & Hb). pose proof pf_levels as Hlv. pose proof pf_pa_bits as Hpb.
  rewrite <- (span_offset va v s) by done.
  assert (Hpa' : 0 <= pa < 2 ^ 64).
  { split; [lia|]. apply (Z.lt_le_trans _ (2 ^ pa_bits)); [lia|]. apply Z.pow_le_mono_r; lia. }
  assert (Hspan : s <> Size4KiB ->
    Z.land pa (not_w 64 (bytes s - 1)) + Z.land v (bytes s - 1) = pa + v mod bytes s).
  { intros _. rewrite land_not_bytes by done. rewrite bytes_pow, Z.sub_1_r, <- Z.ones_equiv.
    rewrite Z.land_ones by lia. done. }
  destruct (decide (s = Size4KiB)) as [->|Hs].
  - cbn [translate_loop levels_above_bottom] in *. rewrite Hp, He, Hf. done.
  - assert (Hn : exists n, levels_above_bottom s = S n) by (destruct s; [done|by eexists..]).
    destruct Hn as [n Hn]. rewrite Hn at 1. cbn [translate_loop]. rewrite Hp, (Hb Hs), Hf. cbn [negb].
    do 2 f_equal. rewrite <- (Hspan Hs), He. unfold bytes.
    replace (LEVELS - 1 - (LEVELS - 1 - levels_above_bottom s))%nat with (levels_above_bottom s); [done|].
    destruct s; simpl; lia.
Qed.

Lemma valid_write m T i leaf lab pre :
  labelled (root m) (memory m) lab -> fresh lab (frames m) -> lab !! T = Some pre ->
  is_present leaf = false \/ length pre = (LEVELS - 1)%nat \/ is_block leaf = true ->
  valid (MkMapper (root m) (half m) (frames m) (write (memory m) T i leaf)).
Proof.
  intros HL Hf HT Hw. exists lab. split; [|done]. simpl. split; [apply HL..|].
  intros T' pre' j HT' Hlen Hp Hb. destruct (decide (T' = T /\ j = i)) as [[-> ->]|Hne].
  - rewrite write_same in *. rewrite HT in HT'. injection HT' as <-. destruct Hw as [?|[?|?]]; [congruence|lia|congruence].
  - rewrite write_other in * by done. by apply (lab_child _ _ _ HL).
Qed.

(** The result of rewriting the slot that a walk of [va] ends in. *)
Lemma write_shows m lab lvl s T va leaf o :
  labelled (root m) (memory m) lab -> lvl = (LEVELS - 1 - levels_above_bottom s)%nat ->
  is_in_half (half m) va = true -> va mod bytes s = 0 ->
  unmap_walk lvl 0 (root m) va (memory m) = Ok T ->
  (forall v, in_span va (bytes s) v ->
     translate_loop (levels_above_bottom s) lvl T v (write (memory m) T (index va lvl) leaf) = o v) ->
  shows m (MkMapper (root m) (half m) (frames m) (write (memory m) T (index va lvl) leaf)) va (bytes s) o.
Proof.
  intros HL -> Hh Hm HT Ho v. pose proof pf_levels as Hlv. unfold translate. simpl.
  set (lvl := (LEVELS - 1 - levels_above_bottom s)%nat) in *.
  assert (Hs : (levels_above_bottom s <= 2)%nat) by (destruct s; simpl; lia).
  assert (HlT := walk_root_label _ _ _ HL lvl T va ltac:(lia) HT).
  case_decide as Hv.
  - rewrite (half_span _ va v s) by done. simpl. rewrite <- (Ho v Hv).
    assert (Hx : pfx (LEVELS - levels_above_bottom s) v = pfx (LEVELS - levels_above_bottom s) va).
    { apply (pfx_in_span (half m)); [done|by apply (half_span _ va v s)|done|done]. }
    rewrite (walk_split lvl _ T); [|lia|].
    2:{ rewrite (walk_ext _ _ _ va) by (apply (pfx_le _ (LEVELS - levels_above_bottom s)); [lia|done]).
        rewrite (walk_write _ _ lab HL lvl 0 (root m) va T (pfx lvl va));
          [done|apply HL|done|rewrite pfx_length; lia]. }
    by replace (LEVELS - 1 - lvl)%nat with (levels_above_bottom s) by lia.
  - destruct (is_in_half (half m) v) eqn:Hhv; [simpl|done].
    apply (translate_write _ _ _ HL (LEVELS - 1) 0 (root m) v T (pfx lvl va)); [apply HL|lia|done|].
    rewrite pfx_length, <- pfx_S. intros Hp. apply Hv, (pfx_in_span (half m)); [done..|].
    by replace (LEVELS - levels_above_bottom s)%nat with (S lvl) by lia.
Qed.

(** Why nothing was mapped. A block is also refused where a table stands. *)
Definition map_refused (m m' : Mapper) (va : Z) (s : PageSize) (e : MapError) : Prop :=
  unchanged m m' /\
  ((e = OutOfPageFrames /\ frames m' = [] /\ (length (frames m) < LEVELS - 1)%nat /\ translate m va = None) \/
   (e = AlreadyMapped /\
    (translate m va <> None \/
     s <> Size4KiB /\ exists T, unmap_walk (LEVELS - levels_above_bottom s) 0 (root m') va (memory m') = Ok T))).

Definition mapped (m m' : Mapper) (va pa : Z) (s : PageSize) (fl : Flags) : Prop :=
  (forall v, in_span va (bytes s) v -> translate m v = None) /\
  shows m m' va (bytes s) (fun v => Some (pa + (v - va), fl)).

Lemma place_spec m m' r va pa leaf s fl :
  place m (LEVELS - 1 - levels_above_bottom s) va leaf = (r, m') -> valid m ->
  leaf_for leaf pa s fl -> 0 <= pa < 2 ^ pa_bits -> is_in_half (half m) va = true ->
  va mod bytes s = 0 -> pa mod bytes s = 0 ->
  valid m' /\ root m' = root m /\ half m' = half m /\ suffix (frames m') (frames m) /\
  match r with Ok _ => mapped m m' va pa s fl | Err e => map_refused m m' va s e end.
Proof.
  set (lvl := (LEVELS - 1 - levels_above_bottom s)%nat). pose proof pf_levels as Hlv.
  assert (Hs : (levels_above_bottom s <= 2)%nat) by (destruct s; simpl; lia).
  unfold place. destruct (descend _ _ _ _ _ _) as [[r0 fr] mem] eqn:Hd.
  intros Hp (lab & HL & Hf) Hleaf Hpa Hh Hmv Hmp.
  destruct (descend_spec _ _ _ _ _ _ _ _ _ _ _ Hd HL Hf ltac:(lia) eq_refl) as (lab' & HL' & Hf' & Hsf & Htr & Hr).
  simpl in Hr.
  assert (Htm : unchanged m (MkMapper (root m) (half m) fr mem)).
  { intros v. unfold translate. simpl. by rewrite Htr. }
  assert (Hva : forall m, is_in_half (half m) va = true ->
    translate m va = translate_loop (LEVELS - 1) 0 (root m) va (memory m)).
  { intros m0 H. unfold translate. by rewrite H. }
  destruct r0 as [T|e].
  2:{ injection Hp as <- <-. split_and!; [by exists lab'|done..|]. split; [done|]. rewrite (Hva m Hh), <- Htr.
      simpl. destruct Hr as [(-> & -> & ? & H)|[-> H]]; [left|right].
      { split_and!; [done|done|lia|done]. }
      split; [done|by left]. }
  pose proof (walk_split lvl (root m) T va mem ltac:(lia) Hr) as Hsp.
  destruct (is_present (mem T _)) eqn:Hpr; injection Hp as <- <-.
  - split_and!; [by exists lab'|done..|]. split; [done|]. right. split; [done|].
    rewrite (Hva m Hh), <- Htr, Hsp. simpl.
    destruct (decide (s = Size4KiB)) as [->|Hne].
    { left. cbn [levels_above_bottom] in lvl. replace (LEVELS - 1 - lvl)%nat with 0%nat by lia.
      simpl. by rewrite Hpr. }
    assert (levels_above_bottom s <> 0)%nat by (by destruct s).
    replace (LEVELS - 1 - lvl)%nat with (S (levels_above_bottom s - 1)) by lia.
    destruct (is_block (mem T (index va lvl))) eqn:Hb; [left; simpl; by rewrite Hpr, Hb|].
    right. split; [done|]. replace (LEVELS - levels_above_bottom s)%nat with (lvl + 1)%nat by lia.
    rewrite walk_app, Hr. simpl. rewrite Hpr, Hb. by eexists.
  - destruct Hleaf as (Hlp & Hle & Hlf & Hlb).
    pose proof (walk_root_label _ _ _ HL' lvl T va ltac:(lia) Hr) as HlT.
    split_and!; try done.
    + apply (valid_write (MkMapper (root m) (half m) fr mem) _ _ _ lab' (pfx lvl va)); [done..|].
      right. destruct (decide (s = Size4KiB)) as [->|Hne]; [|right; by apply Hlb].
      left. rewrite pfx_length. simpl in lvl. lia.
    + assert (Hsame : forall v, in_span va (bytes s) v -> index v lvl = index va lvl).
      { intros v Hv. apply (pfx_index (LEVELS - levels_above_bottom s)); [lia|].
        apply (pfx_in_span (half m)); [done|by apply (half_span _ va v s)|done|done]. }
      split.
      * intros v Hv. rewrite <- (Htm v). unfold translate. simpl.
        rewrite (half_span _ va v s) by done. simpl.
        rewrite (walk_split lvl _ T), translate_absent; [done|by rewrite Hsame|lia|].
        rewrite <- Hr. apply walk_ext, (pfx_le _ (LEVELS - levels_above_bottom s)); [lia|].
        apply (pfx_in_span (half m)); [done|by apply (half_span _ va v s)|done|done].
      * intros v. rewrite (write_shows (MkMapper (root m) (half m) fr mem) lab' lvl s T va leaf
          (fun v => Some (pa + (v - va), fl))); [|done..|].
        { case_decide; [done|apply Htm]. }
        intros v' Hv'. apply leaf_translate; [done..|]. fold lvl. rewrite (Hsame v' Hv'), write_same.
        by split_and!.
Qed.

(** ** [map_block] and [map] *)

Definition map_outcome (m m' : Mapper) (va pa : Z) (s : PageSize) (f : Flags) (r : result MapError unit) : Prop :=
  match r with
  | Ok _ => is_in_half (half m) va = true /\ va mod bytes s = 0 /\ pa mod bytes s = 0 /\
      mapped m m' va pa s (visible f)
  | Err WrongHalf => is_in_half (half m) va = false /\ m' = m
  | Err Misaligned => ~ (va mod bytes s = 0 /\ pa mod bytes s = 0) /\ m' = m
  | Err UnsupportedSize => s <> Size4KiB /\ block_entry pa f s = None /\ m' = m
  | Err e => map_refused m m' va s e
  end.

(** What every operation keeps. *)
Definition keeps (m m' : Mapper) : Prop :=
  valid m' /\ root m' = root m /\ half m' = half m /\ suffix (frames m') (frames m).

Lemma map_is_block m va pa f : map_block m va pa Size4KiB f = map m va pa f.
Proof. unfold map_block. by rewrite decide_True. Qed.

Lemma multiple_false x s : is_multiple_of x (bytes s) = false -> x mod bytes s <> 0.
Proof. unfold is_multiple_of. by intros ?%Z.eqb_neq. Qed.

Lemma multiple_true x n : is_multiple_of x n = true -> x mod n = 0.
Proof. unfold is_multiple_of. by intros ?%Z.eqb_eq. Qed.

Lemma place_outcome m m' r va pa leaf s f :
  place m (LEVELS - 1 - levels_above_bottom s) va leaf = (r, m') -> valid m ->
  leaf_for leaf pa s (visible f) -> 0 <= pa < 2 ^ pa_bits -> is_in_half (half m) va = true ->
  va mod bytes s = 0 -> pa mod bytes s = 0 ->
  keeps m m' /\ map_outcome m m' va pa s f r.
Proof.
  intros. edestruct place_spec as (? & ? & ? & ? & Hr); [done..|]. split; [by split_and!|].
  destruct r as [[]|e]; simpl; [by split_and!|].
  destruct Hr as [Hu He]. assert (e = OutOfPageFrames \/ e = AlreadyMapped) by naive_solver.
  destruct e; try naive_solver; by split.
Qed.

Lemma map_block_spec m m' r va pa s f :
  map_block m va pa s f = (r, m') -> valid m -> 0 <= pa < 2 ^ pa_bits ->
  keeps m m' /\ map_outcome m m' va pa s f r.
Proof.
  intros H Hv Hpa. assert (Hself : keeps m m) by (by split_and!).
  unfold map_block, map in H. change PAGE_SIZE with (bytes Size4KiB) in H.
  assert (Hpage : s = Size4KiB \/ s <> Size4KiB) by (destruct (decide (s = Size4KiB)); auto).
  destruct (is_in_half (half m) va) eqn:Hh; simpl in H.
  2:{ case_decide; injection H as <- <-; by split. }
  case_decide as Hs; [subst s|]; (destruct (is_multiple_of va _) eqn:Hmv; simpl in H;
    [|injection H as <- <-; split; [done|split; [|done]]; apply multiple_false in Hmv; tauto];
    destruct (is_multiple_of pa _) eqn:Hmp; simpl in H;
    [|injection H as <- <-; split; [done|split; [|done]]; apply multiple_false in Hmp; tauto]);
    apply multiple_true in Hmv, Hmp.
  - eapply place_outcome; eauto.
    + cbn [levels_above_bottom]. rewrite Nat.sub_0_r. exact H.
    + destruct (pf_leaf pa f Hpa Hmp) as (? & ? & ?). by split_and!.
  - destruct (block_entry pa f s) as [leaf|] eqn:Hb; [|injection H as <- <-; by split].
    eapply place_outcome; eauto. destruct (pf_block pa f s leaf Hpa Hmp Hs Hb) as (? & ? & ? & ?). by split_and!.
Qed.

Lemma map_succeeds m m' r va pa f :
  map m va pa f = (r, m') -> valid m -> 0 <= pa < 2 ^ pa_bits -> (LEVELS - 1 <= length (frames m))%nat ->
  r = Ok tt <->
  is_in_half (half m) va = true /\ va mod PAGE_SIZE = 0 /\ pa mod PAGE_SIZE = 0 /\ translate m va = None.
Proof.
  intros H Hv Hpa Hfr. rewrite <- map_is_block in H.
  destruct (map_block_spec _ _ _ _ _ _ _ H Hv Hpa) as [_ Ho]. change PAGE_SIZE with (bytes Size4KiB).
  split.
  - intros ->. destruct Ho as (? & ? & ? & Hm & _). split_and!; try done. apply Hm.
    unfold in_span. change (bytes Size4KiB) with 4096. lia.
  - intros (Hh & Hmv & Hmp & Ht). destruct r as [[]|e]; [done|]. exfalso.
    destruct e; simpl in Ho; try (by destruct Ho); try tauto; try congruence;
      try (destruct Ho as [? ?]; congruence).
    all: destruct Ho as [_ [(He & _ & Hlen & _)|(He & [Hn|[Hn _]])]]; try discriminate He; try done; lia.
Qed.

(** ** [unmap] *)

Definition unmap_outcome (m m' : Mapper) (va : Z) (r : result MapError (Z * TlbFlush)) : Prop :=
  match r with
  | Ok (pa, flush) => is_in_half (half m) va = true /\ va mod PAGE_SIZE = 0 /\ flush = MkFlush va /\
      (exists fl, translate m va = Some (pa, fl)) /\ shows m m' va PAGE_SIZE (fun _ => None)
  | Err WrongHalf => is_in_half (half m) va = false /\ m' = m
  | Err Misaligned => va mod PAGE_SIZE <> 0 /\ m' = m
  | Err NotMapped => translate m va = None /\ m' = m
  | Err InsideBlock => translate m va <> None /\ m' = m
  | Err _ => False
  end.

Lemma unmap_walk_error n level T va mem e :
  unmap_walk n level T va mem = Err e ->
  e = NotMapped /\ translate_loop n level T va mem = None \/
  e = InsideBlock /\ translate_loop n level T va mem <> None.
Proof.
  revert level T. induction n as [|n IH]; intros level T; simpl; [done|].
  destruct (is_present _); simpl; [|by intros [= <-]; left].
  destruct (is_block _); [by intros [= <-]; right|]. apply IH.
Qed.

Lemma unmap_spec m m' r va :
  unmap m va = (r, m') -> valid m -> keeps m m' /\ unmap_outcome m m' va r.
Proof.
  intros H Hv. assert (Hself : keeps m m) by (by split_and!). unfold unmap in H.
  change PAGE_SIZE with (bytes Size4KiB) in *.
  destruct (is_in_half (half m) va) eqn:Hh; simpl in H; [|by injection H as <- <-].
  destruct (is_multiple_of va _) eqn:Hm; simpl in H;
    [|injection H as <- <-; split; [done|split; [by apply multiple_false in Hm|done]]].
  apply multiple_true in Hm.
  assert (Ht : translate m va = translate_loop (LEVELS - 1) 0 (root m) va (memory m)).
  { unfold translate. by rewrite Hh. }
  destruct (unmap_walk _ _ _ _ _) as [T|e] eqn:Hw.
  2:{ injection H as <- <-. split; [done|].
      destruct (unmap_walk_error _ _ _ _ _ _ Hw) as [[-> He]|[-> He]]; by rewrite <- Ht in He. }
  pose proof (walk_split (LEVELS - 1) _ _ _ _ ltac:(lia) Hw) as Hsp. rewrite Nat.sub_diag in Hsp. simpl in Hsp.
  destruct (is_present (memory m T _)) eqn:Hp; simpl in *; [|injection H as <- <-; split; [done|split; [congruence|done]]].
  injection H as <- <-. destruct Hv as (lab & HL & Hf).
  pose proof (walk_root_label _ _ _ HL (LEVELS - 1) T va ltac:(lia) Hw) as HlT.
  split; [split_and!; try done; eapply valid_write; eauto; left; apply pf_zero|].
  split_and!; [done|done|done| |].
  - exists (leaf_flags (memory m T (index va (LEVELS - 1)))). rewrite Ht, Hsp.
    change PAGE_SIZE with (bytes Size4KiB). by rewrite Hm, Z.add_0_r.
  - change PAGE_SIZE with (bytes Size4KiB). eapply (write_shows m lab (LEVELS - 1) Size4KiB); eauto; [simpl; lia|].
    intros v Hv. apply translate_absent.
    assert (Hx : index v (LEVELS - 1) = index va (LEVELS - 1)).
    { pose proof pf_levels. apply (pfx_index LEVELS); [lia|].
      pose proof (pfx_in_span (half m) va v Size4KiB) as Hi. simpl in Hi. rewrite Nat.sub_0_r in Hi.
      apply Hi; [done|by apply (half_span _ va v Size4KiB)|done|done]. }
    by rewrite Hx, write_same, pf_zero.
Qed.

(** ** Reachable mappers *)

(** Mappers made from a zeroed root and an allocator of distinct usable
    frames by any sequence of mapping and unmapping. *)
Inductive reachable : Mapper -> Prop :=
  | reach_new rt h fr mem :
      NoDup (rt :: fr) -> (forall i, mem rt i = 0) ->
      (forall x, x ∈ fr -> 0 <= x < 2 ^ pa_bits /\ x mod PAGE_SIZE = 0) ->
      reachable (MkMapper rt h fr mem)
  | reach_map m va pa s f r m' :
      reachable m -> 0 <= pa < 2 ^ pa_bits -> map_block m va pa s f = (r, m') -> reachable m'
  | reach_unmap m va r m' : reachable m -> unmap m va = (r, m') -> reachable m'.

Lemma reachable_valid m : reachable m -> valid m.
Proof.
  induction 1 as [rt h fr mem Hnd Hz Hf|m va pa s f r m' _ IH Hpa H|m va r m' _ IH H].
  - apply NoDup_cons in Hnd as [Hni Hnd]. exists {[rt := []]}. split.
    + split; simpl; [apply lookup_insert_eq| |].
      * intros T pre [_ <-]%lookup_singleton_Some. simpl. lia.
      * intros T pre i [<- <-]%lookup_singleton_Some _ Hp. rewrite Hz, pf_zero in Hp. done.
    + split; [done|]. intros x Hx. split; [|by apply Hf]. apply lookup_singleton_ne. by intros ->.
  - by destruct (map_block_spec _ _ _ _ _ _ _ H IH Hpa) as [[? _] _].
  - by destruct (unmap_spec _ _ _ _ H IH) as [[? _] _].
Qed.

Lemma fresh_unmapped rt h fr mem v : (forall i, mem rt i = 0) -> translate (MkMapper rt h fr mem) v = None.
Proof.
  intros Hz. unfold translate. destruct (is_in_half _ v); [|done]. simpl.
  apply translate_absent. by rewrite Hz, pf_zero.
Qed.

(** ** Spans *)

Lemma shows_app m m1 m2 va n1 n2 o :
  0 <= n1 -> 0 <= n2 -> shows m m1 va n1 o -> shows m1 m2 (va + n1) n2 o -> shows m m2 va (n1 + n2) o.
Proof.
  intros H1 H2 Ha Hb v. rewrite Hb, Ha. unfold in_span. repeat case_decide; (done || lia).
Qed.

Lemma shows_nil m va o : shows m m va 0 o.
Proof. intros v. rewrite decide_False; [done|]. unfold in_span. lia. Qed.

Lemma shows_ext m m' va n o o' :
  (forall v, in_span va n v -> o v = o' v) -> shows m m' va n o -> shows m m' va n o'.
Proof. intros He H v. rewrite H. case_decide; [by apply He|done]. Qed.

Lemma bytes_pos s : 0 < bytes s.
Proof. by destruct s. Qed.

Lemma lor_aligned x y s :
  Z.land (Z.lor x y) (bytes s - 1) = 0 -> x mod bytes s = 0 /\ y mod bytes s = 0.
Proof.
  rewrite bytes_pow, Z.sub_1_r, <- Z.ones_equiv, Z.land_lor_distr_l.
  intros [H1 H2]%Z.lor_eq_0_iff. rewrite !Z.land_ones in * by lia. done.
Qed.

(** The chosen leaf fits the span that is left and both addresses. *)
Lemma largest_fitting_fits va pa remaining largest :
  va mod PAGE_SIZE = 0 -> pa mod PAGE_SIZE = 0 -> PAGE_SIZE <= remaining ->
  let s := largest_fitting va pa remaining largest in
  va mod bytes s = 0 /\ pa mod bytes s = 0 /\ bytes s <= remaining /\
  (levels_above_bottom s <= levels_above_bottom largest)%nat.
Proof.
  intros Hv Hp Hr s. subst s. unfold largest_fitting, fits.
  destruct (Nat.leb_spec 2 (levels_above_bottom largest));
    [destruct (Z.eqb_spec (Z.land (Z.lor va pa) (bytes Size1GiB - 1)) 0) as [E|E];
      [destruct (Z.leb_spec (bytes Size1GiB) remaining);
        [apply lor_aligned in E as [? ?]; split_and!; (done || simpl; lia)|]|]|];
    (destruct (Nat.leb_spec 1 (levels_above_bottom largest));
    [destruct (Z.eqb_spec (Z.land (Z.lor va pa) (bytes Size2MiB - 1)) 0) as [E2|E2];
      [destruct (Z.leb_spec (bytes Size2MiB) remaining);
        [apply lor_aligned in E2 as [? ?]; split_and!; (done || simpl; lia)|]|]|]);
    simpl; split_and!; (done || lia).
Qed.

Lemma largest_fitting_bound va pa remaining largest :
  PAGE_SIZE <= remaining -> bytes (largest_fitting va pa remaining largest) <= remaining.
Proof.
  intros Hr. unfold largest_fitting, fits.
  destruct (Z.leb_spec (bytes Size1GiB) remaining), (Z.leb_spec (bytes Size2MiB) remaining);
    repeat case_match; rewrite ?andb_false_r, ?andb_true_r in *; (done || lia).
Qed.

Lemma bytes_multiple s : bytes s mod PAGE_SIZE = 0.
Proof. by destruct s. Qed.

Lemma add_multiple x y : x mod PAGE_SIZE = 0 -> y mod PAGE_SIZE = 0 -> (x + y) mod PAGE_SIZE = 0.
Proof. intros Hx Hy. by rewrite Z.add_mod, Hx, Hy by (unfold PAGE_SIZE; lia). Qed.

(** The mapping a span asks for. *)
Definition offset_by (va pa : Z) (fl : Flags) (v : Z) : option (Z * Flags) := Some (pa + (v - va), fl).

Definition span_outcome (m m' : Mapper) (va pa len done : Z) (f : Flags) (r : result MapError unit) : Prop :=
  match r with
  | Ok _ => shows m m' (va + done) (len - done) (offset_by va pa (visible f)) /\
      forall v, in_span (va + done) (len - done) v -> translate m v = None
  | Err e => exists d, done <= d < len /\ d mod PAGE_SIZE = 0 /\
      shows m m' (va + done) (d - done) (offset_by va pa (visible f)) /\
      (va mod PAGE_SIZE = 0 -> pa mod PAGE_SIZE = 0 -> e <> Misaligned)
  end.

Lemma mapped_shows m m' va pa d s f :
  mapped m m' (va + d) (pa + d) s (visible f) ->
  shows m m' (va + d) (bytes s) (offset_by va pa (visible f)).
Proof. intros [_ Hs]. eapply shows_ext, Hs. intros v _. unfold offset_by. do 2 f_equal. lia. Qed.

Lemma map_outcome_err m m' va pa s f e : map_outcome m m' va pa s f (Err e) -> unchanged m m'.
Proof.
  intros H. destruct e; simpl in H; try (destruct H as [H _]; exact H).
  all: by decompose_Forall_hyps; destruct_and?; subst.
Qed.

Lemma shows_unchanged m m' va o : unchanged m m' -> shows m m' va 0 o.
Proof. intros H v. rewrite H, decide_False; [done|]. unfold in_span. lia. Qed.

Lemma span_done m va pa len d f : len = d -> span_outcome m m va pa len d f (Ok tt).
Proof.
  intros ->. unfold span_outcome. rewrite Z.sub_diag.
  split; [apply shows_nil|]. intros v. unfold in_span. lia.
Qed.

(** One leaf more. *)
Lemma span_step m m1 m' va pa len d s f r :
  mapped m m1 (va + d) (pa + d) s (visible f) -> d + bytes s <= len ->
  span_outcome m1 m' va pa len (d + bytes s) f r -> span_outcome m m' va pa len d f r.
Proof.
  intros Hmp Hlen Hspan. pose proof (mapped_shows _ _ _ _ _ _ _ Hmp) as Hsh. pose proof (bytes_pos s) as Hs0.
  unfold span_outcome in *. destruct r as [[]|e].
  - destruct Hspan as [Hs2 Hn]. split.
    + replace (len - d) with (bytes s + (len - (d + bytes s))) by lia.
      apply (shows_app _ m1); [lia|lia|done|]. by rewrite <- Z.add_assoc.
    + intros v Hv. destruct (decide (in_span (va + d) (bytes s) v)) as [Hi|Hi]; [by apply Hmp|].
      rewrite <- (Hn v); [by rewrite Hsh, decide_False|]. unfold in_span in *. lia.
  - destruct Hspan as (d' & Hdr & Hdmod & Hs2 & He). exists d'. split_and!; [lia|lia|done| |done].
    replace (d' - d) with (bytes s + (d' - (d + bytes s))) by lia.
    apply (shows_app _ m1); [lia|lia|done|]. by rewrite <- Z.add_assoc.
Qed.

(** A leaf refused. *)
Lemma span_stop m m1 va pa len d s f e :
  d < len -> d mod PAGE_SIZE = 0 -> map_outcome m m1 (va + d) (pa + d) s f (Err e) ->
  (va mod PAGE_SIZE = 0 -> pa mod PAGE_SIZE = 0 -> (va + d) mod bytes s = 0 /\ (pa + d) mod bytes s = 0) ->
  span_outcome m m1 va pa len d f (Err e).
Proof.
  intros Hd Hm Ho Ha. exists d. split_and!; [lia|lia|done| |].
  - rewrite Z.sub_diag. by apply shows_unchanged, (map_outcome_err _ _ _ _ _ _ _ Ho).
  - intros Hva Hpa ->. destruct Ho as [Hn _]. auto.
Qed.

Lemma span_loop_spec fuel m va pa len d f largest :
  reachable m -> 0 <= d <= len -> d mod PAGE_SIZE = 0 -> len mod PAGE_SIZE = 0 ->
  0 <= pa -> pa + len <= 2 ^ pa_bits -> len - d <= Z.of_nat fuel * PAGE_SIZE ->
  exists r m', span_loop fuel m va pa len d f largest = Some (r, m') /\ reachable m' /\
    span_outcome m m' va pa len d f r.
Proof.
  revert m d. induction fuel as [|fuel IH]; intros m d Hre Hd Hdm Hlm Hpa Hpl Hfu; simpl;
    (destruct (Z.leb_spec len d) as [Hle|Hlt];
      [exists (Ok tt), m; split_and!; [done|done|apply span_done; lia]|]); [lia|].
  assert (Hrem : PAGE_SIZE <= len - d).
  { pose proof (Z.div_mod len 4096 ltac:(lia)). pose proof (Z.div_mod d 4096 ltac:(lia)).
    unfold PAGE_SIZE in *. lia. }
  set (s := largest_fitting (va + d) (pa + d) (len - d) largest).
  pose proof (largest_fitting_bound (va + d) (pa + d) (len - d) largest Hrem) as Hsb. fold s in Hsb.
  pose proof (bytes_pos s) as Hs0.
  destruct (map_block m (va + d) (pa + d) s f) as [r m1] eqn:Hmb.
  assert (Hpr : 0 <= pa + d < 2 ^ pa_bits) by lia.
  destruct (map_block_spec _ _ _ _ _ _ _ Hmb (reachable_valid _ Hre) Hpr) as [_ Ho].
  pose proof (reach_map _ _ _ _ _ _ _ Hre Hpr Hmb) as Hre1.
  destruct r as [[]|e].
  - destruct (IH m1 (d + bytes s)) as (r & m' & Hl & Hre' & Hspan); [done|lia| |done|done|done| |].
    { apply add_multiple; [done|apply bytes_multiple]. }
    { pose proof (bytes_multiple s) as Hbm. pose proof (Z.div_mod (bytes s) 4096 ltac:(lia)).
      unfold PAGE_SIZE in *. lia. }
    exists r, m'. split_and!; [done|done|]. eapply span_step; [apply Ho|lia|done].
  - exists (Err e), m1. split_and!; [done|done|]. apply (span_stop _ _ _ _ _ _ s); [lia|done|done|].
    intros. destruct (largest_fitting_fits (va + d) (pa + d) (len - d) largest) as (? & ? & _);
      [by apply add_multiple..|done|done].
Qed.

Lemma range_loop_spec n a m va pa f r m' :
  reachable m -> 0 <= pa -> pa + Z.of_nat (a + n) * PAGE_SIZE <= 2 ^ pa_bits ->
  range_loop (seq a n) m va pa f = (r, m') ->
  reachable m' /\
  span_outcome m m' va pa (Z.of_nat (a + n) * PAGE_SIZE) (Z.of_nat a * PAGE_SIZE) f r.
Proof.
  revert a m. induction n as [|n IH]; intros a m Hre Hpa Hpl Hl; simpl in Hl.
  { injection Hl as <- <-. split; [done|]. rewrite Nat.add_0_r. by apply span_done. }
  destruct (map _ _ _ _) as [r1 m1] eqn:Hm. rewrite <- map_is_block in Hm.
  assert (Hd : Z.of_nat (S a) * PAGE_SIZE = Z.of_nat a * PAGE_SIZE + bytes Size4KiB)
    by (change (bytes Size4KiB) with PAGE_SIZE; lia).
  replace (a + S n)%nat with (S a + n)%nat in * by lia.
  assert (Hle : Z.of_nat (S a) * PAGE_SIZE <= Z.of_nat (S a + n) * PAGE_SIZE) by (unfold PAGE_SIZE; lia).
  set (d := Z.of_nat a * PAGE_SIZE) in *. assert (0 <= d) by (unfold d, PAGE_SIZE; lia).
  pose proof (bytes_pos Size4KiB) as Hs0.
  assert (Hpr : 0 <= pa + d < 2 ^ pa_bits) by lia.
  destruct (map_block_spec _ _ _ _ _ _ _ Hm (reachable_valid _ Hre) Hpr) as [_ Ho].
  pose proof (reach_map _ _ _ _ _ _ _ Hre Hpr Hm) as Hre1.
  destruct r1 as [[]|e].
  - destruct (IH (S a) m1 Hre1 Hpa Hpl Hl) as [Hre' Hspan]. split; [done|].
    rewrite Hd in Hspan. eapply span_step; [apply Ho|lia|done].
  - injection Hl as <- <-. split; [done|]. assert (d mod PAGE_SIZE = 0) by (by apply Z_mod_mult).
    apply (span_stop _ _ _ _ _ _ Size4KiB); [lia|done|done|].
    intros. split; by apply add_multiple.
Qed.

(** ** Device domains *)

Lemma low_half_range va : is_in_half Low va = true -> 0 <= va < 2 ^ pa_bits.
Proof.
  intros H. cbn in H. apply Z.eqb_eq in H. pose proof pf_split. pose proof pf_pa_bits.
  rewrite Z.shiftr_div_pow2 in H by lia. assert (0 < 2 ^ SPLIT_SHIFT) by (apply Z.pow_pos_nonneg; lia).
  assert (0 <= va < 2 ^ SPLIT_SHIFT) by (apply Z.div_small_iff in H; lia).
  assert (2 ^ SPLIT_SHIFT <= 2 ^ pa_bits) by (apply Z.pow_le_mono_r; lia). lia.
Qed.

(** What a device domain maps an address to: itself, readable and writable. *)
Definition identity (v : Z) : option (Z * Flags) := Some (v, visible user_data).

(** The whole pages of a region. *)
Definition granted (r : DmaRegion) (v : Z) : Prop :=
  in_span (region_base r) (region_size r / PAGE_SIZE * PAGE_SIZE) v.

#[export] Instance granted_dec r v : Decision (granted r v).
Proof. unfold granted. apply _. Defined.

Lemma grant_page_spec r i page :
  grant_page r (Z.of_nat i) = Some page ->
  page = region_base r + Z.of_nat i * PAGE_SIZE /\ (Z.of_nat i + 1) * PAGE_SIZE <= region_size r.
Proof.
  unfold grant_page. intros (off & Hoff & (en & Hen & H)%bind_Some)%bind_Some.
  destruct (Z.ltb_spec (region_size r) en); [done|].
  unfold checked_mul, checked_add in *. repeat case_match; simplify_eq. split; [done|lia].
Qed.

Lemma grant_loop_spec n a reg m r m' :
  reachable m -> half m = Low -> grant_loop (seq a n) reg m = (r, m') ->
  reachable m' /\ half m' = Low /\
  exists d, (d <= n)%nat /\ (r = Ok tt -> d = n) /\
    ((0 < d)%nat -> Z.of_nat (a + d) * PAGE_SIZE <= region_size reg) /\
    shows m m' (region_base reg + Z.of_nat a * PAGE_SIZE) (Z.of_nat d * PAGE_SIZE) identity.
Proof.
  revert a m. induction n as [|n IH]; intros a m Hre Hlow Hl; simpl in Hl.
  { injection Hl as <- <-. split_and!; [done..|]. exists 0%nat. split_and!; [lia|done|lia|apply shows_nil]. }
  assert (Hstop : forall m1, reachable m1 -> half m1 = Low -> unchanged m m1 -> r <> Ok tt ->
    reachable m1 /\ half m1 = Low /\ exists d, (d <= S n)%nat /\ (r = Ok tt -> d = S n) /\
      ((0 < d)%nat -> Z.of_nat (a + d) * PAGE_SIZE <= region_size reg) /\
      shows m m1 (region_base reg + Z.of_nat a * PAGE_SIZE) (Z.of_nat d * PAGE_SIZE) identity).
  { intros m1 H1 H2 H3 H4. split_and!; [done..|]. exists 0%nat. split_and!; [lia|done|lia|by apply shows_unchanged]. }
  destruct (grant_page reg (Z.of_nat a)) as [page|] eqn:Hg; [|injection Hl as <- <-; by apply Hstop].
  apply grant_page_spec in Hg as [Hpage Hsz].
  destruct (map m page page user_data) as [r1 m1] eqn:Hm.
  destruct (is_in_half Low page) eqn:Hh.
  2:{ unfold map in Hm. rewrite Hlow, Hh in Hm. simpl in Hm. injection Hm as <- <-.
      injection Hl as <- <-. by apply Hstop. }
  pose proof (low_half_range page Hh) as Hpr. rewrite <- map_is_block in Hm.
  destruct (map_block_spec _ _ _ _ _ _ _ Hm (reachable_valid _ Hre) Hpr) as [(_ & _ & Hhalf & _) Ho].
  pose proof (reach_map _ _ _ _ _ _ _ Hre Hpr Hm) as Hre1. rewrite Hlow in Hhalf.
  destruct r1 as [[]|e]; [|injection Hl as <- <-; apply Hstop; [done..| |done]; by eapply map_outcome_err].
  destruct Ho as (_ & _ & _ & _ & Hsh).
  destruct (IH (S a) m1 Hre1 Hhalf Hl) as (Hre' & Hh' & d & Hd & Hok & Hds & Hshd).
  split_and!; [done..|]. exists (S d). split_and!.
  - lia.
  - intros Hr. by rewrite (Hok Hr).
  - intros _. destruct d; [unfold PAGE_SIZE in *; lia|].
    rewrite Nat.add_succ_r, <- Nat.add_succ_l. apply Hds. lia.
  - replace (Z.of_nat (S d) * PAGE_SIZE) with (PAGE_SIZE + Z.of_nat d * PAGE_SIZE) by lia.
    apply (shows_app _ m1); [unfold PAGE_SIZE; lia..| |].
    + rewrite <- Hpage. eapply shows_ext, Hsh. intros v _. unfold identity. do 2 f_equal. lia.
    + by replace (region_base reg + Z.of_nat a * PAGE_SIZE + PAGE_SIZE)
        with (region_base reg + Z.of_nat (S a) * PAGE_SIZE) by lia.
Qed.

Lemma domain_loop_spec regions m r m' :
  reachable m -> half m = Low -> domain_loop regions m = (r, m') ->
  reachable m' /\ half m' = Low /\
  (forall v, translate m' v = translate m v \/
     translate m' v = identity v /\ exists reg, reg ∈ regions /\ granted reg v) /\
  (r = Ok tt -> forall reg v, reg ∈ regions -> granted reg v -> translate m' v = identity v).
Proof.
  revert m. induction regions as [|reg rest IH]; intros m Hre Hlow Hl; simpl in Hl.
  { injection Hl as <- <-. split_and!; [done..| |]; [by left|]. intros _ reg v Hin. by apply elem_of_nil in Hin. }
  destruct (grant_pages reg) as [pages|e] eqn:Hg.
  2:{ injection Hl as <- <-. split_and!; [done..|by left|done]. }
  assert (Hpages : pages = region_size reg / PAGE_SIZE).
  { unfold grant_pages in Hg. destruct (is_multiple_of _ _); [|done]. simpl in Hg. destruct (checked_add _ _ _); by inversion Hg. }
  destruct (grant_loop _ _ _) as [r1 m1] eqn:Hgl.
  destruct (grant_loop_spec _ _ _ _ _ _ Hre Hlow Hgl) as (Hre1 & Hlow1 & d & Hd & Hok & Hds & Hsh).
  rewrite Z.mul_0_l, Z.add_0_r in Hsh.
  assert (Hin : forall v, in_span (region_base reg) (Z.of_nat d * PAGE_SIZE) v -> granted reg v).
  { intros v Hv. unfold granted, in_span in *. destruct d as [|d]; [unfold PAGE_SIZE in *; lia|].
    unfold PAGE_SIZE in *.
    assert (Z.of_nat (S d) <= region_size reg / 4096) by (apply Z.div_le_lower_bound; lia). lia. }
  assert (Hone : forall v, translate m1 v = translate m v \/ translate m1 v = identity v /\
    exists reg', reg' ∈ reg :: rest /\ granted reg' v).
  { intros v. rewrite (Hsh v). case_decide as Hv; [|by left].
    right. split; [done|]. exists reg. split; [by left|by apply Hin]. }
  destruct r1 as [[]|e]; [|injection Hl as <- <-; by split_and!].
  destruct (IH m1 Hre1 Hlow1 Hl) as (Hre' & Hlow' & Hsound & Hcomp). split_and!; [done..| |].
  - intros v. destruct (Hsound v) as [Hv|(Hv & reg' & Hr & Hgr)]; [rewrite Hv; apply Hone|].
    right. split; [done|]. exists reg'. split; [by right|done].
  - intros Hr reg' v Hreg Hgr. destruct (Hsound v) as [Hv|[Hv _]]; [|done].
    apply elem_of_cons in Hreg as [->|Hreg]; [|by apply (Hcomp Hr reg')].
    rewrite Hv, (Hsh v), decide_True; [done|]. rewrite (Hok eq_refl), Hpages.
    unfold granted, in_span in *. destruct (Z.le_gt_cases 0 (region_size reg / PAGE_SIZE)); [by rewrite Z2Nat.id|].
    unfold PAGE_SIZE in *. lia.
Qed.

(** ** The mapper's contract *)

(** C18: On every mapper reachable by mapping and unmapping, over any lawful
    format, [map_block] either maps exactly the aligned span asked for, none
    of which was mapped before, and changes no other translation, or returns
    the error that applies and changes no translation; mapping a page with
    enough frames left succeeds exactly on an unmapped aligned address of the
    half. *)
Theorem map_block_refines m m' r va pa s f :
  reachable m -> 0 <= pa < 2 ^ pa_bits -> map_block m va pa s f = (r, m') ->
  suffix (frames m') (frames m) /\ map_outcome m m' va pa s f r /\
  (s = Size4KiB -> (LEVELS - 1 <= length (frames m))%nat ->
   r = Ok tt <-> is_in_half (half m) va = true /\ va mod PAGE_SIZE = 0 /\ pa mod PAGE_SIZE = 0 /\
     translate m va = None).
Proof.
  intros Hre Hpa H. pose proof (reachable_valid _ Hre) as Hv.
  destruct (map_block_spec _ _ _ _ _ _ _ H Hv Hpa) as [(_ & _ & _ & Hsf) Ho].
  split_and!; [done|done|]. intros -> Hfr. rewrite map_is_block in H. by eapply map_succeeds.
Qed.

(** [unmap] of a mapped page returns the frame it translated to and
    clears exactly that page; every other outcome changes nothing and says
    why: not mapped, or covered by a block. *)
Theorem unmap_refines m m' r va :
  reachable m -> unmap m va = (r, m') ->
  frames m' = frames m /\ unmap_outcome m m' va r.
Proof.
  intros Hre H. destruct (unmap_spec _ _ _ _ H (reachable_valid _ Hre)) as [_ Ho]. split; [|done].
  unfold unmap in H. by repeat case_match; simplify_eq.
Qed.

(** [map_span] always returns. On success the span translates to
    consecutive addresses, was unmapped, nothing else changed, and a page by
    page [map_range] that succeeds gives the same translations; on an error
    exactly a prefix of whole pages is mapped. *)
Theorem map_span_maps_exactly m va pa len f largest :
  reachable m -> 0 <= len -> 0 <= pa -> pa + len <= 2 ^ pa_bits ->
  exists r m', map_span m va pa len f largest = Some (r, m') /\ reachable m' /\
    match r with
    | Ok _ => shows m m' va len (offset_by va pa (visible f)) /\
        (forall v, in_span va len v -> translate m v = None) /\
        forall mr, map_range m va pa (Z.to_nat (len / PAGE_SIZE)) f = (Ok tt, mr) ->
          forall v, translate mr v = translate m' v
    | Err e => exists d, 0 <= d <= len /\ d mod PAGE_SIZE = 0 /\
        shows m m' va d (offset_by va pa (visible f)) /\
        (e = Misaligned -> ~ (va mod PAGE_SIZE = 0 /\ pa mod PAGE_SIZE = 0 /\ len mod PAGE_SIZE = 0))
    end.
Proof.
  intros Hre Hlen Hpa Hpl. unfold map_span. destruct (is_multiple_of len PAGE_SIZE) eqn:Hm; simpl.
  2:{ exists (Err Misaligned), m. split_and!; [done|done|]. exists 0. apply (multiple_false _ Size4KiB) in Hm.
      split_and!; [lia|lia|done|apply shows_nil|]. intros _ (_ & _ & H). by apply Hm. }
  apply multiple_true in Hm.
  assert (Hl : len = Z.of_nat (Z.to_nat (len / PAGE_SIZE)) * PAGE_SIZE).
  { rewrite Z2Nat.id by (apply Z.div_pos; unfold PAGE_SIZE; lia). apply Z.mod_divide in Hm as [k ->]; [|done].
    by rewrite Z.div_mul. }
  destruct (span_loop_spec (Z.to_nat (len / PAGE_SIZE)) m va pa len 0 f largest) as (r & m' & Hs & Hre' & Ho);
    [done|lia|done|done|done|done|lia|].
  exists r, m'. split_and!; [done|done|]. unfold span_outcome in Ho. rewrite Z.add_0_r, Z.sub_0_r in Ho.
  destruct r as [[]|e].
  - destruct Ho as [Hsh Hn]. split_and!; [done|done|]. intros mr Hmr v.
    apply range_loop_spec in Hmr as [_ Hr]; [|done|done|simpl; lia].
    unfold span_outcome in Hr. rewrite Z.mul_0_l, Z.add_0_r, Z.sub_0_r, Nat.add_0_l, <- Hl in Hr.
    destruct Hr as [Hr _]. by rewrite (Hr v), (Hsh v).
  - destruct Ho as (d & Hd & Hdm & Hsh & He). rewrite Z.sub_0_r in Hsh. exists d.
    split_and!; [lia|lia|done|done|]. intros -> (? & ? & _). by apply He.
Qed.

(** C21: A device domain built over a zeroed root lets a device reach only
    addresses inside the granted regions' whole pages, each at its own
    physical address, whether or not building it succeeded; when it succeeded
    it reaches all of them. *)
Theorem identity_domain_reaches_exactly rt frames mem regions r m' :
  NoDup (rt :: frames) -> (forall i, mem rt i = 0) ->
  (forall x, x ∈ frames -> 0 <= x < 2 ^ pa_bits /\ x mod PAGE_SIZE = 0) ->
  build_identity_domain rt frames mem regions = (r, m') ->
  (forall v p, translate m' v = Some p ->
     p = (v, visible user_data) /\ exists reg, reg ∈ regions /\ granted reg v) /\
  (r = Ok tt -> forall reg v, reg ∈ regions -> granted reg v -> translate m' v = Some (v, visible user_data)).
Proof.
  intros Hnd Hz Hf Hb.
  destruct (domain_loop_spec regions _ r m' (reach_new rt Low frames mem Hnd Hz Hf) eq_refl Hb) as (_ & _ & Hs & Hc).
  split; [|exact Hc]. intros v p Hp. destruct (Hs v) as [Hv|[Hv Hreg]].
  - rewrite Hp, fresh_unmapped in Hv by done. done.
  - rewrite Hv in Hp. injection Hp as <-. done.
Qed.
End walks.

(** ** Witnesses *)

Definition demo_frames : list Z := (fun n => 0x2000 + Z.of_nat n * 4096) <$> seq 0 16.
Definition demo : Mapper := MkMapper 0x1000 Low demo_frames (fun _ _ => 0).

Lemma mapper_demo_reachable `{L : PageFormatLaws} : 40 <= pa_bits -> reachable demo.
Proof.
  intros Hpb. apply reach_new; [(apply (bool_decide_unpack _); vm_compute; exact I)|done|].
  intros x Hx. assert (2 ^ 40 <= 2 ^ pa_bits) by (apply Z.pow_le_mono_r; lia).
  assert (Hx' : 0 <= x < 2 ^ 40 /\ x mod PAGE_SIZE = 0); [|lia].
  revert x Hx. apply Forall_forall. (apply (bool_decide_unpack _); vm_compute; exact I).
Qed.

Lemma map_block_refines_witness :
  let m' := (map_block (F := Aarch64.Aarch64_format) demo 0x40200000 0x200000 Size2MiB user_data).2 in
  translate (F := Aarch64.Aarch64_format) m' 0x40212345
  = Some (0x212345, visible (F := Aarch64.Aarch64_format) user_data).
Proof.
  intros m'. destruct (map_block_refines (L := Aarch64.Aarch64_laws) demo m'
    (map_block (F := Aarch64.Aarch64_format) demo 0x40200000 0x200000 Size2MiB user_data).1
    0x40200000 0x200000 Size2MiB user_data) as (_ & Ho & _).
  - apply mapper_demo_reachable. vm_compute. congruence.
  - vm_compute. split; congruence.
  - by destruct (map_block _ _ _ _ _).
  - destruct Ho as (_ & _ & _ & _ & Ho). rewrite (Ho 0x40212345). reflexivity.
Defined.

(** A page mapped and unmapped again. *)
Definition demo_mapped : Mapper := (map_block (F := Sv39.Sv39_format) demo 0x5000 0x9000 Size4KiB user_code).2.

Lemma unmap_refines_witness :
  let m' := (unmap (F := Sv39.Sv39_format) demo_mapped 0x5000).2 in
  translate (F := Sv39.Sv39_format) demo_mapped 0x5008 <> None /\
  translate (F := Sv39.Sv39_format) m' 0x5008 = None.
Proof.
  intros m'. destruct (unmap_refines (L := Sv39.Sv39_laws) demo_mapped m'
    (unmap (F := Sv39.Sv39_format) demo_mapped 0x5000).1 0x5000) as (_ & Ho).
  - eapply (reach_map demo 0x5000 0x9000 Size4KiB user_code);
      [apply mapper_demo_reachable; vm_compute; congruence|vm_compute; split; congruence|].
    apply surjective_pairing.
  - by destruct (unmap _ _).
  - split; [vm_compute; congruence|].
    destruct Ho as (_ & _ & _ & _ & Ho). rewrite (Ho 0x5008). reflexivity.
Defined.

Lemma map_span_maps_exactly_witness :
  exists m', map_span (F := X86.Ia32e) demo 0x3ff000 0x1ff000 0x202000 kernel_data Size1GiB = Some (Ok tt, m') /\
    translate (F := X86.Ia32e) m' 0x412345 = Some (0x212345, kernel_data).
Proof.
  destruct (map_span_maps_exactly (L := X86.Ia32e_laws) demo 0x3ff000 0x1ff000 0x202000 kernel_data Size1GiB)
    as (r & m' & Hs & _ & Ho); [apply mapper_demo_reachable; vm_compute; congruence|vm_compute; congruence..|].
  destruct r as [[]|e].
  - exists m'. split; [exact Hs|]. destruct Ho as (Ho & _ & _). rewrite (Ho 0x412345). reflexivity.
  - exfalso. apply (f_equal (option_map fst)) in Hs. vm_compute in Hs. discriminate Hs.
Defined.

Lemma identity_domain_reaches_exactly_witness :
  let m' := (build_identity_domain (F := X86.Vtd) 0x1000 demo_frames (fun _ _ => 0)
               [MkRegion 0x800000 0x2000; MkRegion 0x900000 0x1800]).2 in
  translate (F := X86.Vtd) m' 0x801234 = Some (0x801234, MkFlags CAP_WRITE) /\
  translate (F := X86.Vtd) m' 0x901000 = None.
Proof.
  intros m'. destruct (identity_domain_reaches_exactly (L := X86.Vtd_laws) 0x1000 demo_frames (fun _ _ => 0)
    [MkRegion 0x800000 0x2000; MkRegion 0x900000 0x1800] (Ok tt) m') as [_ Hc].
  - apply (bool_decide_unpack _). vm_compute. exact I.
  - done.
  - intros x Hx. assert (Hx' : 0 <= x < 2 ^ 52 /\ x mod PAGE_SIZE = 0); [|done].
    revert x Hx. apply Forall_forall. apply (bool_decide_unpack _). vm_compute. exact I.
  - apply injective_projections; [vm_compute; reflexivity|done].
  - split; [|vm_compute; reflexivity].
    apply (Hc eq_refl (MkRegion 0x800000 0x2000) 0x801234); [by left|].
    apply (bool_decide_unpack _). vm_compute. exact I.
Defined.

(** ** The kinds of mapping, in every CPU format *)

Definition keeps_kinds (F : PageFormat) (L : @PageFormatLaws F) : Prop :=
  forall f pa s, f ∈ kinds -> 0 <= pa < 2 ^ pa_bits -> pa mod bytes s = 0 ->
    write_xor_execute f = true /\
    (entry_pa (leaf_entry pa f), leaf_flags (leaf_entry pa f)) = (pa, f) /\
    (s <> Size4KiB -> exists e, block_entry pa f s = Some e /\ is_present e = true /\
       is_block e = true /\ (entry_pa e, leaf_flags e) = (pa, f)).

Lemma keeps_kinds_intro F L :
  Forall (fun f => visible f = f /\ forall pa, is_Some (block_entry pa f Size2MiB) /\ is_Some (block_entry pa f Size1GiB)) kinds ->
  keeps_kinds F L.
Proof.
  intros HF f pa s Hf Hpa Hm. pose proof (proj1 (Forall_forall _ _) HF f Hf) as [Hvis Hblk].
  destruct (pf_leaf pa f Hpa (bytes_page pa s Hm)) as (_ & Hp & Hl). split_and!.
  - clear -Hf. revert f Hf. apply Forall_forall. repeat constructor.
  - rewrite Hp, Hl. congruence.
  - intros Hs. destruct (Hblk pa) as [[e2 H2] [e1 H1]].
    assert (exists e, block_entry pa f s = Some e) as [e He] by (destruct s; [done|by exists e2|by exists e1]).
    exists e. destruct (pf_block pa f s e Hpa Hm Hs He) as (? & ? & Hpe & Hfe).
    split_and!; [done..|]. rewrite Hpe, Hfe. congruence.
Qed.

(** In all three CPU formats a page or block entry made for any of the
    kernel's kinds of mapping decodes to the same address and the same
    permissions, no block is mistaken for a table, and no kind is both
    writable and executable. *)
Theorem cpu_formats_keep_kinds :
  keeps_kinds Aarch64.Aarch64_format Aarch64.Aarch64_laws /\
  keeps_kinds Sv39.Sv39_format Sv39.Sv39_laws /\
  keeps_kinds X86.Ia32e X86.Ia32e_laws.
Proof.
  split_and!; apply keeps_kinds_intro;
    (repeat apply List.Forall_cons; [..|apply List.Forall_nil]; (split; [vm_compute; reflexivity|by eauto])).
Qed.
End Mapper.
