(* ===== verification/DmaValidator.v ===== *)
(** * The DMA validator (crates/direct_memory_access_validator and the
      notification path of kernel/src/virtio.rs)

    A driver publishes descriptor chains in memory it can rewrite at any
    moment; the kernel checks each descriptor and copies it into a shadow ring
    that the device reads. The driver is the pair of functions [answer16] and
    [answer64]: what the n-th read of an address returns, so it may answer
    differently every time. The shadow is byte memory under a log of writes,
    in program order, because the device can read between any two of them. *)

From S2P Require Import Prelude.
Local Open Scope Z_scope.

Module DmaValidator.

Definition F_NEXT : Z := 1.
Definition F_INDIRECT : Z := 4.

Definition is_in_region (base size addr len : Z) : bool :=
  match checked_add 64 addr len, checked_add 64 base size with
  | Some endp, Some limit => (base <=? addr) && (endp <=? limit)
  | _, _ => false
  end.

Record Desc := MkDesc { addr : Z; word : Z }.

Definition buf_len (d : Desc) : Z := Z.land (word d) 0xffffffff.
Definition flags (d : Desc) : Z := Z.land (Z.shiftr (word d) 32) 0xffff.
Definition next (d : Desc) : Z := Z.land (Z.shiftr (word d) 48) 0xffff.
Definition is_indirect (d : Desc) : bool := negb (Z.land (flags d) F_INDIRECT =? 0).
Definition has_next (d : Desc) : bool := negb (Z.land (flags d) F_NEXT =? 0).

Definition check_descriptor (base size qsize : Z) (d : Desc) : bool :=
  if is_indirect d then false
  else if negb (is_in_region base size (addr d) (buf_len d)) then false
  else if has_next d && (qsize <=? next d) then false
  else true.

(** ** Memory *)

Definition Bytes : Type := Z -> Z.

Fixpoint read_le (n : nat) (m : Bytes) (a : Z) : Z :=
  match n with O => 0 | S n' => m a + 256 * read_le n' m (a + 1) end.

Definition write_le (n : nat) (m : Bytes) (a v : Z) : Bytes :=
  fun x => if decide (a <= x < a + Z.of_nat n) then (v / 256 ^ (x - a)) mod 256 else m x.

Inductive Write := W16 (a v : Z) | W64 (a v : Z).

Definition apply_write (m : Bytes) (w : Write) : Bytes :=
  match w with W16 a v => write_le 2 m a v | W64 a v => write_le 8 m a v end.

Record World := MkWorld { start : Bytes; log : list Write; reads : nat }.

Definition mem (w : World) : Bytes := foldl apply_write (start w) (log w).

Definition emit (w : World) (x : Write) : World := MkWorld (start w) (log w ++ [x]) (reads w).

Definition write16 (w : World) (a v : Z) : World := emit w (W16 a v).
Definition write64 (w : World) (a v : Z) : World := emit w (W64 a v).

(** ** The validator *)

Section validator.
Context (answer16 answer64 : nat -> Z -> Z).

Definition read16 (w : World) (a : Z) : Z * World :=
  (answer16 (reads w) a, MkWorld (start w) (log w) (S (reads w))).
Definition read64 (w : World) (a : Z) : Z * World :=
  (answer64 (reads w) a, MkWorld (start w) (log w) (S (reads w))).

Context (base size driver_desc driver_avail shadow_desc shadow_avail qsize : Z).

(** The [for _ in 0..qsize] loop over one chain. *)
Fixpoint shadow_loop (n : nat) (d : Z) (w : World) : bool * World :=
  match n with
  | O => (true, w)
  | S n' =>
      let src := driver_desc + d * 16 in
      let '(a, w) := read64 w src in
      let '(wd, w) := read64 w (src + 8) in
      let desc := MkDesc a wd in
      if negb (check_descriptor base size qsize desc) then (false, w)
      else
        let dst := shadow_desc + d * 16 in
        let w := write64 w dst (addr desc) in
        let w := write64 w (dst + 8) (word desc) in
        if negb (has_next desc) then (true, w) else shadow_loop n' (next desc) w
  end.

Definition shadow_one_head (head : Z) (w : World) : bool * World :=
  shadow_loop (Z.to_nat qsize) head w.

(** The [while idx != to_idx] loop; [None] when the fuel is spent. *)
Fixpoint batch_loop (fuel : nat) (idx to_idx : Z) (w : World) : option (bool * World) :=
  if idx =? to_idx then Some (true, write16 w (shadow_avail + 2) to_idx)
  else match fuel with
  | O => None
  | S fuel' =>
      let slot := idx mod qsize in
      let '(head, w) := read16 w (driver_avail + 4 + slot * 2) in
      if qsize <=? head then Some (false, w)
      else match shadow_one_head head w with
      | (false, w) => Some (false, w)
      | (true, w) =>
          let w := write16 w (shadow_avail + 4 + slot * 2) head in
          batch_loop fuel' (wrap 16 (idx + 1)) to_idx w
      end
  end.

Definition validate_and_shadow (from_idx to_idx : Z) (w : World) : option (bool * World) :=
  if qsize <? wrap 16 (to_idx - from_idx) then Some (false, w)
  else batch_loop (Z.to_nat qsize) from_idx to_idx w.
End validator.

(** ** The ring layout and the kernel's doorbell *)

Definition LAYOUT_QSIZE : Z := 8.
Definition DESC_OFF : Z := 0x000.
Definition AVAIL_OFF : Z := 0x080.
Definition USED_OFF : Z := 0x100.
Definition RING_END : Z := USED_OFF + 6 + 8 * LAYOUT_QSIZE.
Definition RING_BLOCK : Z := 0x200.
Definition MAX_QUEUES : Z := 2.
Definition queue_block (q : Z) : Z := q * RING_BLOCK.

Inductive TransportError := NoDevice | BadQueue | DmaEscape.

(** A device: its grant, its shadow page, the last index validated on each
    queue, which doorbells are set up, and the doorbells rung so far. *)
Record Device := MkDevice {
  dma_base : Z; dma_size : Z; shadow_base : Z; last_avail : list Z; doorbell_ready : list bool;
  world : World; rung : list Z }.

Definition shadow_desc_of (dev : Device) (q : Z) : Z := shadow_base dev + queue_block q + DESC_OFF.
Definition shadow_avail_of (dev : Device) (q : Z) : Z := shadow_base dev + queue_block q + AVAIL_OFF.

Definition set_world (dev : Device) (w : World) : Device :=
  MkDevice (dma_base dev) (dma_size dev) (shadow_base dev) (last_avail dev) (doorbell_ready dev) w (rung dev).

(** [notify] on a device; [None] would be a batch that never ends. *)
Definition notify_device (answer16 answer64 : nat -> Z -> Z) (dev : Device) (queue : Z)
  : option (result TransportError unit * Device) :=
  if negb (default false (doorbell_ready dev !! Z.to_nat queue)) then Some (Err BadQueue, dev)
  else
    let block := queue_block queue in
    let driver_desc := dma_base dev + block + DESC_OFF in
    let driver_avail := dma_base dev + block + AVAIL_OFF in
    let shadow_desc := shadow_base dev + block + DESC_OFF in
    let shadow_avail := shadow_base dev + block + AVAIL_OFF in
    let '(to_idx, w) := read16 answer16 (world dev) (driver_avail + 2) in
    match validate_and_shadow answer16 answer64 (dma_base dev) (dma_size dev) driver_desc driver_avail
            shadow_desc shadow_avail LAYOUT_QSIZE (default 0 (last_avail dev !! Z.to_nat queue)) to_idx w with
    | None => None
    | Some (false, w) => Some (Err DmaEscape, set_world dev w)
    | Some (true, w) =>
        Some (Ok tt, MkDevice (dma_base dev) (dma_size dev) (shadow_base dev)
          (<[Z.to_nat queue := to_idx]> (last_avail dev)) (doorbell_ready dev) w (rung dev ++ [queue]))
    end.

Definition notify (answer16 answer64 : nat -> Z -> Z) (devs : list Device) (id : nat) (queue : Z)
  : option (result TransportError unit * list Device) :=
  if MAX_QUEUES <=? queue then Some (Err BadQueue, devs)
  else match devs !! id with
  | None => Some (Err NoDevice, devs)
  | Some dev =>
      match notify_device answer16 answer64 dev queue with
      | None => None
      | Some (r, dev') => Some (r, <[id := dev']> devs)
      end
  end.

(** [setup_queue]; [queue_num_max] and [ready] are the transport's answers:
    the largest queue the device takes, and whether the queue's doorbell is
    set up after the registers are programmed. *)
Definition setup_queue (queue_num_max : Z) (ready : bool) (devs : list Device) (id : nat) (num queue : Z)
  : result TransportError unit * list Device :=
  if MAX_QUEUES <=? queue then (Err BadQueue, devs)
  else match devs !! id with
  | None => (Err NoDevice, devs)
  | Some dev =>
      let block := queue_block queue in
      if (num =? 0) || (LAYOUT_QSIZE <? num) || (dma_size dev <? block + RING_END) then (Err BadQueue, devs)
      else if queue_num_max <? num then (Err BadQueue, devs)
      else (Ok tt, <[id := MkDevice (dma_base dev) (dma_size dev) (shadow_base dev) (last_avail dev)
              (<[Z.to_nat queue := ready]> (doorbell_ready dev)) (world dev) (rung dev)]> devs)
  end.

(** ** What the device reads *)

Definition device_desc (m : Bytes) (table i : Z) : Desc :=
  MkDesc (read_le 8 m (table + i * 16)) (read_le 8 m (table + i * 16 + 8)).

(** The first [n] descriptors the device follows from [d]. *)
Fixpoint device_chain (n : nat) (m : Bytes) (table d : Z) : list Desc :=
  match n with
  | O => []
  | S n' =>
      let x := device_desc m table d in
      x :: (if has_next x then device_chain n' m table (next x) else [])
  end.

Definition device_head (m : Bytes) (avail slot : Z) : Z := read_le 2 m (avail + 4 + slot * 2).

(** Every byte the descriptor's buffer names is in the grant. *)
Definition confined (base size : Z) (d : Desc) : Prop :=
  is_indirect d = false /\ forall a, addr d <= a < addr d + buf_len d -> base <= a < base + size.

Definition safe_desc (base size qsize : Z) (d : Desc) : Prop :=
  confined base size d /\ (has_next d = true -> 0 <= next d < qsize).

(** ** Little-endian words *)

Lemma read_le_ext n m m' a :
  (forall x, a <= x < a + Z.of_nat n -> m' x = m x) -> read_le n m' a = read_le n m a.
Proof.
  revert a. induction n as [|n IH]; intros a H; simpl; [done|].
  rewrite H by lia. rewrite IH; [done|]. intros x Hx. apply H. lia.
Qed.

Lemma read_write_part n k j m a v :
  (j + k = n)%nat -> 0 <= v < 256 ^ Z.of_nat n ->
  read_le k (write_le n m a v) (a + Z.of_nat j) = v / 256 ^ Z.of_nat j.
Proof.
  revert j. induction k as [|k IH]; intros j Hj Hv; simpl.
  - rewrite Z.div_small; [done|]. by replace j with n by lia.
  - unfold write_le at 1. rewrite decide_True by lia.
    replace (a + Z.of_nat j + 1) with (a + Z.of_nat (S j)) by lia.
    rewrite IH by (done || lia). replace (a + Z.of_nat j - a) with (Z.of_nat j) by lia.
    rewrite Nat2Z.inj_succ, Z.pow_succ_r, (Z.mul_comm 256 (256 ^ _)) by lia.
    rewrite <- Z.div_div by lia. pose proof (Z.div_mod (v / 256 ^ Z.of_nat j) 256 ltac:(lia)). lia.
Qed.

Lemma read_write_same n m a v : 0 <= v < 256 ^ Z.of_nat n -> read_le n (write_le n m a v) a = v.
Proof.
  intros Hv. pose proof (read_write_part n n 0 m a v ltac:(lia) Hv) as H.
  simpl in H. by rewrite Z.add_0_r, Z.div_1_r in H.
Qed.

Lemma read_write_disjoint n k m a b v :
  b + Z.of_nat k <= a \/ a + Z.of_nat n <= b -> read_le k (write_le n m a v) b = read_le k m b.
Proof. intros H. apply read_le_ext. intros x Hx. unfold write_le. rewrite decide_False; [done|]. lia. Qed.

Lemma read_le_zero n m a : (forall x, a <= x < a + Z.of_nat n -> m x = 0) -> read_le n m a = 0.
Proof.
  revert a. induction n as [|n IH]; intros a H; simpl; [done|].
  rewrite H, IH by (lia || (intros; apply H; lia)). done.
Qed.

(** ** One descriptor *)

Lemma next_width d : 0 <= next d < 2 ^ 16.
Proof. unfold next. change 0xffff with (Z.ones 16). rewrite Z.land_ones by lia. apply Z.mod_pos_bound. lia. Qed.

Lemma check_descriptor_safe base size qsize d :
  0 <= base -> check_descriptor base size qsize d = true -> safe_desc base size qsize d.
Proof.
  unfold check_descriptor, is_in_region, safe_desc, confined, checked_add. intros Hb H.
  destruct (is_indirect d); [done|]. repeat case_decide; try done.
  destruct (Z.leb_spec base (addr d)), (Z.leb_spec (addr d + buf_len d) (base + size)); try done.
  cbn [andb negb] in H. split_and!; [done|lia|]. intros Hn. rewrite Hn in H. pose proof (next_width d).
  destruct (Z.leb_spec qsize (next d)); [done|lia].
Qed.

Lemma zero_desc_safe base size qsize : safe_desc base size qsize (MkDesc 0 0).
Proof. split; [split; [done|]|done]. change (buf_len (MkDesc 0 0)) with 0. cbn [addr]. lia. Qed.

(** ** The validator keeps the shadow safe *)

Lemma mem_emit w x : mem (emit w x) = apply_write (mem w) x.
Proof. unfold mem, emit. simpl. by rewrite foldl_snoc. Qed.

(** The bytes a write covers. *)
Definition covers (lo hi : Z) (x : Write) : Prop :=
  match x with W16 a _ => lo <= a /\ a + 2 <= hi | W64 a _ => lo <= a /\ a + 8 <= hi end.

(** A run of the kernel that writes only inside [lo, hi). *)
Definition extends (lo hi : Z) (w w' : World) : Prop :=
  start w' = start w /\ exists l, log w' = log w ++ l /\ Forall (covers lo hi) l.

Lemma extends_refl lo hi w n : extends lo hi w (MkWorld (start w) (log w) n).
Proof. split; [done|]. exists []. by rewrite app_nil_r. Qed.

Lemma extends_trans lo hi w w1 w2 : extends lo hi w w1 -> extends lo hi w1 w2 -> extends lo hi w w2.
Proof.
  intros [Hs1 (l1 & Hl1 & H1)] [Hs2 (l2 & Hl2 & H2)]. split; [congruence|]. exists (l1 ++ l2).
  rewrite Hl2, Hl1, app_assoc. split; [done|]. by apply Forall_app.
Qed.

Lemma extends_emit lo hi w x : covers lo hi x -> extends lo hi w (emit w x).
Proof. intros Hx. split; [done|]. exists [x]. split; [done|]. by apply List.Forall_cons. Qed.

Lemma apply_outside lo hi m x k b :
  covers lo hi x -> b + Z.of_nat k <= lo \/ hi <= b -> read_le k (apply_write m x) b = read_le k m b.
Proof. intros Hx Hb. destruct x; simpl in *; apply read_write_disjoint; lia. Qed.

Lemma extends_outside lo hi w w' k b :
  extends lo hi w w' -> b + Z.of_nat k <= lo \/ hi <= b -> read_le k (mem w') b = read_le k (mem w) b.
Proof.
  intros [Hs (l & Hl & Hc)] Hb. unfold mem. rewrite Hs, Hl, foldl_app. clear Hl.
  generalize (foldl apply_write (start w) (log w)). induction Hc as [|x l Hx _ IH]; intros m; simpl; [done|].
  rewrite IH. by apply (apply_outside lo hi).
Qed.

Section safety.
Context (answer16 answer64 : nat -> Z -> Z).
Context (H16 : forall n a, 0 <= answer16 n a < 2 ^ 16) (H64 : forall n a, 0 <= answer64 n a < 2 ^ 64).
Context (base size driver_desc driver_avail table avail qsize : Z).
Context (Hbase : 0 <= base) (Hq : 0 < qsize) (Hlay : table + qsize * 16 <= avail).

(** Every slot of the shadow table is safe and every head names a slot. *)
Definition table_safe (m : Bytes) : Prop :=
  forall i, 0 <= i < qsize -> safe_desc base size qsize (device_desc m table i).
Definition heads_safe (m : Bytes) : Prop :=
  forall i, 0 <= i < qsize -> 0 <= device_head m avail i < qsize.

Lemma copy_desc m a wd d i :
  0 <= a < 2 ^ 64 -> 0 <= wd < 2 ^ 64 ->
  device_desc (write_le 8 (write_le 8 m (table + d * 16) a) (table + d * 16 + 8) wd) table i =
  if decide (i = d) then MkDesc a wd else device_desc m table i.
Proof.
  intros Ha Hw. unfold device_desc. case_decide as E.
  - subst i. rewrite read_write_same by done. rewrite read_write_disjoint by lia.
    by rewrite read_write_same.
  - rewrite !read_write_disjoint by lia. done.
Qed.

Lemma shadow_loop_safe n d w ok w' :
  0 <= d < qsize -> table_safe (mem w) ->
  shadow_loop answer64 base size driver_desc table qsize n d w = (ok, w') ->
  table_safe (mem w') /\ extends table (table + qsize * 16) w w'.
Proof using H64 Hbase.
  revert d w. induction n as [|n IH]; intros d w Hd Hs Hl; cbn [shadow_loop] in Hl.
  { injection Hl as <- <-. split; [done|]. destruct w. apply extends_refl. }
  cbn [read64 reads start log addr word] in Hl.
  set (a := answer64 (reads w) _) in Hl. set (wd := answer64 (S (reads w)) _) in Hl.
  set (w0 := MkWorld (start w) (log w) _) in Hl.
  assert (He0 : extends table (table + qsize * 16) w w0) by apply extends_refl.
  destruct (check_descriptor base size qsize (MkDesc a wd)) eqn:Hc; cbn [negb] in Hl.
  2:{ by injection Hl as <- <-. }
  unfold write64 in Hl. set (w2 := emit (emit w0 _) _) in Hl.
  assert (He2 : extends table (table + qsize * 16) w w2).
  { eapply extends_trans; [exact He0|]. eapply extends_trans; apply extends_emit; simpl; lia. }
  assert (Hs2 : table_safe (mem w2)).
  { intros i Hi. unfold w2. rewrite !mem_emit. simpl apply_write. rewrite copy_desc by apply H64.
    case_decide; [by apply check_descriptor_safe|by apply Hs]. }
  destruct (has_next (MkDesc a wd)) eqn:Hn; cbn [negb] in Hl; [|by injection Hl as <- <-].
  destruct (check_descriptor_safe _ _ _ _ Hbase Hc) as [_ Hnx].
  destruct (IH _ _ (Hnx Hn) Hs2 Hl) as [? ?]. split; [done|]. by eapply extends_trans.
Qed.

Lemma table_safe_frame m m' :
  (forall b, table <= b -> b + 8 <= avail -> read_le 8 m' b = read_le 8 m b) -> table_safe m -> table_safe m'.
Proof using Hlay.
  intros H Hs i Hi. unfold device_desc. rewrite !H by lia. by apply Hs.
Qed.

Lemma head_write m slot head i :
  0 <= head < 2 ^ 16 ->
  device_head (write_le 2 m (avail + 4 + slot * 2) head) avail i =
  if decide (i = slot) then head else device_head m avail i.
Proof.
  intros Hh. unfold device_head. case_decide as E.
  - subst i. by apply read_write_same.
  - apply read_write_disjoint. lia.
Qed.

Definition ring_end : Z := avail + 4 + qsize * 2.

Lemma extends_widen w w' : extends table (table + qsize * 16) w w' -> extends table ring_end w w'.
Proof using Hq Hlay.
  intros [Hs (l & Hl & Hc)]. split; [done|]. exists l. split; [done|].
  eapply Forall_impl; [exact Hc|]. intros [] ?; unfold ring_end; simpl in *; lia.
Qed.

Lemma batch_loop_safe fuel idx to_idx w ok w' :
  0 <= to_idx < 2 ^ 16 -> table_safe (mem w) -> heads_safe (mem w) ->
  batch_loop answer16 answer64 base size driver_desc driver_avail table avail qsize fuel idx to_idx w
    = Some (ok, w') ->
  table_safe (mem w') /\ heads_safe (mem w') /\ extends table ring_end w w'.
Proof using All.
  intros Hto. revert idx w. induction fuel as [|fuel IH]; intros idx w Hs Hh Hl; cbn [batch_loop] in Hl;
    (destruct (Z.eqb_spec idx to_idx) as [_|_];
     [injection Hl as <- <-; unfold write16; rewrite mem_emit; simpl apply_write;
      split_and!; [apply (table_safe_frame (mem w)); [|done]; intros; apply read_write_disjoint; lia
       |intros i Hi; unfold device_head; rewrite read_write_disjoint by lia; by apply Hh
       |apply extends_emit; unfold ring_end; simpl; lia]|]); [done|].
  cbn [read16] in Hl. set (head := answer16 _ _) in Hl. set (w0 := MkWorld _ _ _) in Hl.
  assert (He0 : extends table ring_end w w0) by apply extends_refl.
  destruct (Z.leb_spec qsize head) as [|Hhd]; [by injection Hl as <- <-|].
  assert (Hh0 : 0 <= head) by apply H16.
  destruct (shadow_one_head _ _ _ _ _ _ _ _) as [okh w1] eqn:Hone.
  destruct (shadow_loop_safe (Z.to_nat qsize) head w0 okh w1 ltac:(lia) Hs Hone) as [Hs1 He1].
  assert (Hh1 : heads_safe (mem w1)).
  { intros i Hi. unfold device_head. rewrite (extends_outside _ _ _ _ 2 _ He1) by (simpl; lia). by apply Hh. }
  apply extends_widen in He1.
  destruct okh; [|injection Hl as <- <-; split_and!; [done|done|by apply (extends_trans _ _ _ w0)]].
  pose proof (Z.mod_pos_bound idx qsize Hq) as Hslot. set (slot := idx mod qsize) in *.
  unfold write16 in Hl. set (w2 := emit w1 _) in Hl.
  edestruct (IH (wrap 16 (idx + 1)) w2) as (? & ? & ?); [| |exact Hl|].
  - unfold w2. rewrite mem_emit. simpl apply_write. apply (table_safe_frame (mem w1)); [|done].
    intros. apply read_write_disjoint. lia.
  - intros i Hi. unfold w2. rewrite mem_emit. simpl apply_write. rewrite head_write by apply H16.
    case_decide; [lia|by apply Hh1].
  - split_and!; [done|done|]. eapply extends_trans; [exact He0|]. eapply extends_trans; [exact He1|].
    eapply extends_trans; [|done]. apply extends_emit. unfold ring_end. simpl. lia.
Qed.
End safety.

(** Each index taken leaves one fewer to take, across the wrap. *)
Lemma wrap_step idx to_idx :
  0 <= idx < 2 ^ 16 -> 0 <= to_idx < 2 ^ 16 -> idx <> to_idx ->
  1 <= wrap 16 (to_idx - idx) /\ wrap 16 (to_idx - wrap 16 (idx + 1)) = wrap 16 (to_idx - idx) - 1.
Proof.
  intros Hi Ht Hne. unfold wrap. rewrite Zminus_mod_idemp_r.
  pose proof (Z.mod_pos_bound (to_idx - idx) (2 ^ 16) ltac:(lia)) as Hb.
  assert ((to_idx - idx) mod 2 ^ 16 <> 0).
  { intros Hz. apply Z.mod_divide in Hz as [k Hk]; [|lia]. lia. }
  split; [lia|]. replace (to_idx - (idx + 1)) with ((to_idx - idx) - 1) by lia.
  rewrite <- Zminus_mod_idemp_l, Z.mod_small by lia. done.
Qed.

(** ** A driver that stands still *)

Section still.
Context (ring : Z -> Z) (words : Z -> Z).
Context (Hring : forall a, 0 <= ring a < 2 ^ 16) (Hwords : forall a, 0 <= words a < 2 ^ 64).
Context (base size driver_desc driver_avail table avail qsize : Z).
Context (Hq : 0 < qsize) (Hdiv : (qsize | 2 ^ 16)) (Hlay : table + qsize * 16 <= avail).

Definition driver_at (i : Z) : Desc :=
  MkDesc (words (driver_desc + i * 16)) (words (driver_desc + i * 16 + 8)).

(** The first [n] descriptors of the driver's own chain. *)
Fixpoint driver_chain (n : nat) (d : Z) : list Desc :=
  match n with
  | O => []
  | S n' => driver_at d :: (if has_next (driver_at d) then driver_chain n' (next (driver_at d)) else [])
  end.

Definition chain_accepted (d : Z) : bool :=
  forallb (check_descriptor base size qsize) (driver_chain (Z.to_nat qsize) d).

(** Slots already equal to the driver's stay so. *)
Definition persists (m m' : Bytes) : Prop :=
  forall i, 0 <= i < qsize ->
    device_desc m table i = driver_at i -> device_desc m' table i = driver_at i.

Notation one := (shadow_loop (fun _ => words) base size driver_desc table qsize).

Lemma shadow_loop_still n d w :
  0 <= d < qsize ->
  let '(ok, w') := one n d w in
  ok = forallb (check_descriptor base size qsize) (driver_chain n d) /\ persists (mem w) (mem w') /\
  extends table (table + qsize * 16) w w' /\
  (ok = true -> forall m, persists (mem w') m -> device_chain n m table d = driver_chain n d).
Proof using Hwords.
  revert d w. induction n as [|n IH]; intros d w Hd; cbn [shadow_loop].
  { split_and!; [done|by intros i| |done]. destruct w. apply extends_refl. }
  cbn [read64 reads start log addr word]. fold (driver_at d). set (w0 := MkWorld (start w) (log w) _).
  assert (He0 : extends table (table + qsize * 16) w w0) by apply extends_refl.
  cbn [driver_chain forallb]. destruct (check_descriptor base size qsize (driver_at d)) eqn:Hc; cbn [negb andb].
  2:{ split_and!; [done|by intros i|done|done]. }
  unfold write64. set (w2 := emit (emit w0 _) _).
  assert (Hat : forall i, device_desc (mem w2) table i = if decide (i = d) then driver_at d else device_desc (mem w) table i).
  { intros i. unfold w2. rewrite !mem_emit. simpl apply_write. by rewrite copy_desc by apply Hwords. }
  assert (Hp2 : persists (mem w) (mem w2)).
  { intros i Hr Hi. rewrite Hat. case_decide; [by subst|done]. }
  assert (He2 : extends table (table + qsize * 16) w w2).
  { eapply extends_trans; [exact He0|]. eapply extends_trans; apply extends_emit; simpl; lia. }
  assert (Hdd : device_desc (mem w2) table d = driver_at d) by (rewrite Hat; by rewrite decide_True).
  destruct (has_next (driver_at d)) eqn:Hn; cbn [negb].
  - assert (Hnext : 0 <= next (driver_at d) < qsize).
    { unfold check_descriptor in Hc. rewrite Hn in Hc. pose proof (next_width (driver_at d)).
      destruct (Z.leb_spec qsize (next (driver_at d))); [|lia].
      destruct (is_indirect _); [done|]. by destruct (is_in_region _ _ _ _). }
    specialize (IH (next (driver_at d)) w2 Hnext). destruct (one n _ w2) as [ok w'] eqn:Hl.
    destruct IH as (Hok & Hp & He & Hch). split_and!.
    + done.
    + intros i Hr Hi. by apply Hp, Hp2.
    + by eapply extends_trans.
    + intros Ht m Hm. cbn [device_chain]. rewrite (Hm d) by (done || by apply Hp). rewrite Hn. by rewrite (Hch Ht m Hm).
  - split_and!; [done|done|done|]. intros _ m Hm. cbn [device_chain]. by rewrite (Hm d Hd Hdd), Hn.
Qed.

(** The [k]-th newly published slot from [idx], and its head. *)
Definition slot_at (idx : Z) (k : nat) : Z := wrap 16 (idx + Z.of_nat k) mod qsize.
Definition head_at (idx : Z) (k : nat) : Z := ring (driver_avail + 4 + slot_at idx k * 2).

Definition head_accepted (idx : Z) (k : nat) : bool :=
  negb (qsize <=? head_at idx k) && chain_accepted (head_at idx k).

Lemma slot_at_mod idx k : slot_at idx k = (idx + Z.of_nat k) mod qsize.
Proof using Hdiv Hq.
  unfold slot_at, wrap. by apply Z.mod_mod_divide.
Qed.

Lemma slot_at_distinct idx k j :
  (k < j)%nat -> Z.of_nat j - Z.of_nat k < qsize -> slot_at idx k <> slot_at idx j.
Proof using Hdiv Hq.
  intros Hkj Hlt E. rewrite !slot_at_mod in E.
  assert (Hz : (Z.of_nat j - Z.of_nat k) mod qsize = 0).
  { replace (Z.of_nat j - Z.of_nat k) with ((idx + Z.of_nat j) - (idx + Z.of_nat k)) by lia.
    rewrite Zminus_mod, E, Z.sub_diag. apply Z.mod_0_l. lia. }
  rewrite Z.mod_small in Hz by lia. lia.
Qed.

Lemma slot_at_range idx k : 0 <= slot_at idx k < qsize.
Proof using Hq. apply Z.mod_pos_bound, Hq. Qed.

Lemma slot_at_S idx k : slot_at idx (S k) = slot_at (wrap 16 (idx + 1)) k.
Proof. unfold slot_at, wrap. rewrite Zplus_mod_idemp_l. do 2 f_equal. lia. Qed.

(** What one head leaves in the shadow. *)
Definition head_shown (m : Bytes) (idx : Z) (k : nat) : Prop :=
  device_head m avail (slot_at idx k) = head_at idx k /\
  device_chain (Z.to_nat qsize) m table (head_at idx k) = driver_chain (Z.to_nat qsize) (head_at idx k).

Definition batch_outcome (idx to_idx : Z) (c : nat) (m m' : Bytes) (ok : bool) : Prop :=
  ok = forallb (head_accepted idx) (seq 0 c) /\ persists m m' /\
  (forall s, 0 <= s -> (forall k, (k < c)%nat -> slot_at idx k <> s) ->
     device_head m' avail s = device_head m avail s) /\
  read_le 2 m' (avail + 2) = (if ok then to_idx else read_le 2 m (avail + 2)) /\
  (ok = true -> forall k, (k < c)%nat -> head_shown m' idx k).

Lemma forallb_seq_S (f g : nat -> bool) c :
  (forall k, f (S k) = g k) -> forallb f (seq 0 (S c)) = f 0%nat && forallb g (seq 0 c).
Proof.
  intros H. simpl. f_equal. rewrite <- seq_shift. induction (seq 0 c) as [|x l IH]; simpl; [done|]. by rewrite H, IH.
Qed.

Lemma head_accepted_S idx k : head_accepted idx (S k) = head_accepted (wrap 16 (idx + 1)) k.
Proof. unfold head_accepted, head_at. by rewrite slot_at_S. Qed.

(** The first head of a batch was copied and mirrored. *)
Lemma batch_step idx to_idx c w w1 m2 m' ok :
  (Z.of_nat (S c) <= qsize) -> head_accepted idx 0 = true ->
  persists (mem w) (mem w1) -> extends table (table + qsize * 16) w w1 ->
  (forall m, persists (mem w1) m ->
     device_chain (Z.to_nat qsize) m table (head_at idx 0) = driver_chain (Z.to_nat qsize) (head_at idx 0)) ->
  m2 = write_le 2 (mem w1) (avail + 4 + slot_at idx 0 * 2) (head_at idx 0) ->
  batch_outcome (wrap 16 (idx + 1)) to_idx c m2 m' ok -> batch_outcome idx to_idx (S c) (mem w) m' ok.
Proof using All.
  intros Hc Hacc Hp He Hch -> (Hok & Hp2 & Hheads & Hidx & Hshown).
  pose proof (slot_at_range idx 0) as Hs0.
  assert (Hp1 : persists (mem w1) (write_le 2 (mem w1) (avail + 4 + slot_at idx 0 * 2) (head_at idx 0))).
  { intros i Hr Hi. rewrite <- Hi. unfold device_desc. by rewrite !read_write_disjoint by lia. }
  unfold batch_outcome. split_and!.
  - rewrite (forallb_seq_S _ (head_accepted (wrap 16 (idx + 1)))) by apply head_accepted_S. by rewrite Hacc.
  - intros i Hr Hi. by apply Hp2, Hp1, Hp.
  - intros s Hs Hk. rewrite Hheads; [|done|].
    + rewrite head_write by apply Hring. rewrite decide_False by (intros ->; by apply (Hk 0%nat); [lia|]).
      unfold device_head. apply (extends_outside _ _ _ _ 2 _ He). lia.
    + intros k Hlt. rewrite <- slot_at_S. apply Hk. lia.
  - rewrite Hidx. destruct ok; [done|]. rewrite read_write_disjoint by lia.
    apply (extends_outside _ _ _ _ 2 _ He). lia.
  - intros Ht [|k] Hlt; unfold head_shown.
    + split; [|apply Hch; intros i Hr Hi; by apply Hp2, Hp1].
      rewrite Hheads; [|lia|].
      * rewrite head_write by apply Hring. by rewrite decide_True.
      * intros k Hk. rewrite <- slot_at_S. apply not_eq_sym, slot_at_distinct; lia.
    + destruct (Hshown Ht k ltac:(lia)) as [? ?]. unfold head_at in *. by rewrite slot_at_S.
Qed.

Notation batch := (batch_loop (fun _ => ring) (fun _ => words) base size driver_desc driver_avail table avail qsize).

Lemma batch_loop_still fuel c idx to_idx w :
  0 <= idx < 2 ^ 16 -> 0 <= to_idx < 2 ^ 16 -> wrap 16 (to_idx - idx) = Z.of_nat c ->
  (c <= fuel)%nat -> Z.of_nat c <= qsize ->
  exists ok w', batch fuel idx to_idx w = Some (ok, w') /\ batch_outcome idx to_idx c (mem w) (mem w') ok.
Proof using All.
  revert c idx w. induction fuel as [|fuel IH]; intros c idx w Hi Ht Hc Hf Hcq; cbn [batch_loop];
    (destruct (Z.eqb_spec idx to_idx) as [->|Hne];
     [assert (c = 0%nat) as -> by (rewrite Z.sub_diag in Hc; unfold wrap in Hc; rewrite Z.mod_0_l in Hc; lia);
      eexists true, _; split; [done|]; unfold write16; rewrite mem_emit; cbn [apply_write];
      split_and!; [done|intros i Hr Hd; rewrite <- Hd; unfold device_desc; by rewrite !read_write_disjoint by lia
        |intros s Hs _; apply read_write_disjoint; lia|by apply read_write_same|lia]|]).
  { destruct (wrap_step idx to_idx Hi Ht Hne). lia. }
  cbn [read16]. replace (idx mod qsize) with (slot_at idx 0)
    by (unfold slot_at, wrap; rewrite Z.add_0_r, (Z.mod_small idx) by lia; done).
  fold (head_at idx 0). set (w0 := MkWorld (start w) (log w) _).
  assert (exists c', c = S c' /\ wrap 16 (to_idx - wrap 16 (idx + 1)) = Z.of_nat c') as (c' & -> & Hc').
  { destruct (wrap_step idx to_idx Hi Ht Hne). exists (c - 1)%nat. lia. }
  destruct (Z.leb_spec qsize (head_at idx 0)) as [Hbig|Hsmall].
  { exists false, w0. split; [done|]. split_and!; [|by intros i|done|done|done].
    cbn [seq forallb]. unfold head_accepted at 1. by destruct (Z.leb_spec qsize (head_at idx 0)); [|lia]. }
  assert (Hhr : 0 <= head_at idx 0 < qsize) by (split; [apply Hring|done]).
  pose proof (shadow_loop_still (Z.to_nat qsize) (head_at idx 0) w0 Hhr) as Hone. unfold shadow_one_head.
  destruct (one _ _ w0) as [ok1 w1]. destruct Hone as (Hok1 & Hp1 & He1 & Hch1).
  assert (Hacc : head_accepted idx 0 = ok1).
  { unfold head_accepted, chain_accepted. rewrite <- Hok1. by destruct (Z.leb_spec qsize (head_at idx 0)); [lia|]. }
  destruct ok1.
  - edestruct (IH c' (wrap 16 (idx + 1))) as (ok & w' & Hb & Ho); [apply wrap_range; lia|done|done|lia|lia|].
    exists ok, w'. split; [exact Hb|]. unfold write16 in Ho. rewrite mem_emit in Ho.
    eapply (batch_step _ _ _ w w1); [done|done|exact Hp1|exact He1|by apply Hch1|reflexivity|exact Ho].
  - exists false, w1. split; [done|]. split_and!.
    + cbn [seq forallb]. by rewrite Hacc.
    + exact Hp1.
    + intros s Hs _. apply (extends_outside _ _ _ _ 2 _ He1). lia.
    + apply (extends_outside _ _ _ _ 2 _ He1). lia.
    + done.
Qed.
End still.

(** ** Batches end *)

Lemma batch_loop_total answer16 answer64 base size dd da table avail qsize fuel idx to_idx w :
  0 <= idx < 2 ^ 16 -> 0 <= to_idx < 2 ^ 16 -> wrap 16 (to_idx - idx) <= Z.of_nat fuel ->
  is_Some (batch_loop answer16 answer64 base size dd da table avail qsize fuel idx to_idx w).
Proof.
  intros Hi Ht. revert idx w Hi. induction fuel as [|fuel IH]; intros idx w Hi Hf; cbn [batch_loop];
    (destruct (Z.eqb_spec idx to_idx) as [|Hne]; [by eexists|]).
  - destruct (wrap_step idx to_idx Hi Ht Hne). lia.
  - cbn [read16]. case_match; [by eexists|]. destruct (shadow_one_head _ _ _ _ _ _ _ _) as [[] w1]; [|by eexists].
    destruct (wrap_step idx to_idx Hi Ht Hne). apply IH; [apply wrap_range; lia|lia].
Qed.

(** ** Devices *)

Definition table_ok (dev : Device) (q : Z) : Prop :=
  table_safe (dma_base dev) (dma_size dev) (shadow_desc_of dev q) LAYOUT_QSIZE (mem (world dev)) /\
  heads_safe (shadow_avail_of dev q) LAYOUT_QSIZE (mem (world dev)).

Definition device_ok (dev : Device) : Prop :=
  0 <= dma_base dev /\ length (last_avail dev) = 2%nat /\
  Forall (fun i => 0 <= i < 2 ^ 16) (last_avail dev) /\
  forall q, 0 <= q < MAX_QUEUES -> table_ok dev q.

(** What a driver can answer: any word of the right width, at any time. *)
Definition driver_answers (answer16 answer64 : nat -> Z -> Z) : Prop :=
  (forall n a, 0 <= answer16 n a < 2 ^ 16) /\ (forall n a, 0 <= answer64 n a < 2 ^ 64).

Inductive fresh_device : Device -> Prop :=
  | fresh_dev b sz sh ready m :
      0 <= b -> (forall x, m x = 0) ->
      fresh_device (MkDevice b sz sh [0; 0] ready (MkWorld m [] 0) []).

(** Any sequence of queue set-ups and notifications, against any driver. *)
Inductive reachable : list Device -> Prop :=
  | reach_boot devs : Forall fresh_device devs -> reachable devs
  | reach_setup devs num_max ready id num queue r devs' :
      reachable devs -> setup_queue num_max ready devs id num queue = (r, devs') -> reachable devs'
  | reach_notify devs answer16 answer64 id queue r devs' :
      reachable devs -> driver_answers answer16 answer64 -> 0 <= queue ->
      notify answer16 answer64 devs id queue = Some (r, devs') -> reachable devs'.

Lemma fresh_device_ok dev : fresh_device dev -> device_ok dev.
Proof.
  intros [b sz sh ready m Hb Hz]. unfold device_ok. cbn [dma_base last_avail]. split_and!; [done|done| |].
  { repeat apply List.Forall_cons; [lia..|apply List.Forall_nil]. }
  intros q Hq. split; intros i Hi; cbn [world mem log start foldl dma_base dma_size].
  - unfold device_desc. rewrite !read_le_zero by (intros; apply Hz). apply zero_desc_safe.
  - unfold device_head. rewrite read_le_zero by (intros; apply Hz). unfold LAYOUT_QSIZE. lia.
Qed.

(** One queue's notification, with what it writes. *)
Lemma notify_device_ok answer16 answer64 dev queue r dev' :
  driver_answers answer16 answer64 -> 0 <= queue < MAX_QUEUES -> device_ok dev ->
  notify_device answer16 answer64 dev queue = Some (r, dev') ->
  device_ok dev' /\ dma_base dev' = dma_base dev /\ dma_size dev' = dma_size dev.
Proof.
  intros [H16 H64] Hq (Hb & Hlen & Hla & Htab). unfold notify_device.
  destruct (default false _); cbn [negb]; [|by intros [= <- <-]].
  cbn [read16]. set (to := answer16 _ _). set (w0 := MkWorld _ _ _).
  destruct (validate_and_shadow _ _ _ _ _ _ _ _ _ _ _ _) as [[ok w]|] eqn:Hv; [|done].
  assert (Hto : 0 <= to < 2 ^ 16) by apply H16.
  destruct (Htab queue Hq) as [Ht Hh].
  assert (Hsafe : table_safe (dma_base dev) (dma_size dev) (shadow_desc_of dev queue) LAYOUT_QSIZE (mem w) /\
    heads_safe (shadow_avail_of dev queue) LAYOUT_QSIZE (mem w) /\
    extends (shadow_desc_of dev queue) (ring_end (shadow_avail_of dev queue) LAYOUT_QSIZE) (world dev) w).
  { unfold validate_and_shadow in Hv. destruct (LAYOUT_QSIZE <? _).
    - injection Hv as <- <-. split_and!; [done|done|apply extends_refl].
    - edestruct (batch_loop_safe answer16 answer64 H16 H64) as (? & ? & He); [done| | |done| | |exact Hv|].
      + done.
      + unfold DESC_OFF, AVAIL_OFF, LAYOUT_QSIZE. lia.
      + exact Ht.
      + exact Hh.
      + split_and!; [done|done|]. eapply extends_trans; [apply extends_refl|exact He]. }
  destruct Hsafe as (Ht' & Hh' & He).
  assert (Hall : forall q, 0 <= q < MAX_QUEUES ->
    table_safe (dma_base dev) (dma_size dev) (shadow_desc_of dev q) LAYOUT_QSIZE (mem w) /\
    heads_safe (shadow_avail_of dev q) LAYOUT_QSIZE (mem w)).
  { intros q Hqq. destruct (decide (q = queue)) as [->|Hne]; [done|]. destruct (Htab q Hqq) as [Htq Hhq].
    unfold shadow_desc_of, shadow_avail_of, ring_end, queue_block, RING_BLOCK, DESC_OFF, AVAIL_OFF,
      LAYOUT_QSIZE, MAX_QUEUES, table_safe, heads_safe, device_desc, device_head in *.
    split; intros i Hi; rewrite !(extends_outside _ _ _ _ _ _ He) by (simpl; lia); [by apply Htq|by apply Hhq]. }
  destruct ok; intros [= <- <-]; (split; [|done]).
  - split_and!; [done|cbn [last_avail]; by rewrite length_insert|by apply Forall_insert|exact Hall].
  - split_and!; [done|done|done|exact Hall].
Qed.

Lemma notify_device_total answer16 answer64 dev queue :
  driver_answers answer16 answer64 -> 0 <= queue < MAX_QUEUES -> device_ok dev ->
  is_Some (notify_device answer16 answer64 dev queue).
Proof.
  intros [H16 H64] Hq (Hb & Hlen & Hla & Htab). unfold notify_device.
  destruct (default false _); cbn [negb]; [|by eexists]. cbn [read16]. unfold validate_and_shadow.
  destruct (Z.ltb_spec LAYOUT_QSIZE (wrap 16 (answer16 (reads (world dev)) (dma_base dev + queue_block queue + AVAIL_OFF + 2)
    - default 0 (last_avail dev !! Z.to_nat queue)))); [by eexists|].
  edestruct (batch_loop_total answer16 answer64) as [[[] w] Hw]; [..|rewrite Hw; by eexists|rewrite Hw; by eexists].
  - unfold MAX_QUEUES in Hq. destruct (lookup_lt_is_Some_2 (last_avail dev) (Z.to_nat queue)) as [i Hi]; [lia|].
    rewrite Hi. simpl. exact (proj1 (Forall_lookup _ _) Hla _ _ Hi).
  - apply H16.
  - unfold LAYOUT_QSIZE in *. lia.
Qed.

Lemma reachable_ok devs : reachable devs -> Forall device_ok devs.
Proof.
  induction 1 as [devs Hf|devs nm rd id num queue r devs' _ IH Hs|devs a16 a64 id queue r devs' _ IH Ha Hq Hn].
  - eapply Forall_impl; [exact Hf|]. apply fresh_device_ok.
  - unfold setup_queue in Hs. destruct (_ <=? queue); [by injection Hs as <- <-|].
    destruct (devs !! id) as [dev|] eqn:Hd; [|by injection Hs as <- <-].
    pose proof (proj1 (Forall_lookup _ _) IH _ _ Hd) as Hok.
    destruct (_ || _); [by injection Hs as <- <-|]. destruct (nm <? num); injection Hs as <- <-; [done|].
    by apply Forall_insert.
  - unfold notify in Hn. destruct (Z.leb_spec MAX_QUEUES queue); [by injection Hn as <- <-|].
    destruct (devs !! id) as [dev|] eqn:Hd; [|by injection Hn as <- <-].
    pose proof (proj1 (Forall_lookup _ _) IH _ _ Hd) as Hok.
    destruct (notify_device a16 a64 dev queue) as [[r' dev']|] eqn:Hnd; [|done]. injection Hn as <- <-.
    apply Forall_insert; [done|]. by eapply notify_device_ok.
Qed.

Lemma chain_confined base size table qsize m n d :
  table_safe base size table qsize m -> 0 <= d < qsize -> Forall (confined base size) (device_chain n m table d).
Proof.
  intros Hs. revert d. induction n as [|n IH]; intros d Hd; cbn [device_chain]; [apply List.Forall_nil|].
  destruct (Hs d Hd) as [Hc Hn]. apply List.Forall_cons; [done|].
  destruct (has_next _); [|apply List.Forall_nil]. by apply IH, Hn.
Qed.

(** C22: Whatever a driver answers to each read, after any sequence of
    queue set-ups and notifications every head the device finds in a shadow
    ring names a slot of that ring, and every descriptor on its chain, however
    far the device follows it, is direct and names only bytes of the driver's
    own grant; a further notification always returns. *)
Theorem device_confined_to_grant devs id dev q slot n :
  reachable devs -> devs !! id = Some dev -> 0 <= q < MAX_QUEUES -> 0 <= slot < LAYOUT_QSIZE ->
  let m := mem (world dev) in
  let head := device_head m (shadow_avail_of dev q) slot in
  0 <= head < LAYOUT_QSIZE /\
  Forall (confined (dma_base dev) (dma_size dev)) (device_chain n m (shadow_desc_of dev q) head) /\
  forall answer16 answer64, driver_answers answer16 answer64 -> is_Some (notify answer16 answer64 devs id q).
Proof.
  intros Hr Hd Hq Hs m head. pose proof (proj1 (Forall_lookup _ _) (reachable_ok _ Hr) _ _ Hd) as Hok.
  destruct Hok as (Hb & Hlen & Hla & Htab) eqn:Hokeq. destruct (Htab q Hq) as [Ht Hh]. clear Hokeq.
  split_and!; [by apply Hh..| |].
  - eapply chain_confined; [exact Ht|]. by apply Hh.
  - intros a16 a64 Ha. unfold notify. destruct (Z.leb_spec MAX_QUEUES q); [lia|]. rewrite Hd.
    destruct (notify_device_total a16 a64 dev q Ha Hq) as [[r dev'] Hn]; [by split_and!|].
    rewrite Hn. by eexists.
Qed.

(** Against a driver whose memory stands still, [validate_and_shadow]
    accepts a batch exactly when it is no longer than the ring, every head is
    in range and every descriptor on every chain passes the check. An accepted
    batch publishes the driver's index, and the device then finds the driver's
    heads and the driver's chains, unchanged; a refused batch publishes
    nothing. *)
Theorem device_sees_what_was_published ring words base size dd da table avail qsize from_idx to_idx w :
  (forall a, 0 <= ring a < 2 ^ 16) -> (forall a, 0 <= words a < 2 ^ 64) ->
  0 < qsize -> (qsize | 2 ^ 16) -> table + qsize * 16 <= avail ->
  0 <= from_idx < 2 ^ 16 -> 0 <= to_idx < 2 ^ 16 ->
  let c := wrap 16 (to_idx - from_idx) in
  exists ok w', validate_and_shadow (fun _ => ring) (fun _ => words) base size dd da table avail qsize
      from_idx to_idx w = Some (ok, w') /\
    ok = (c <=? qsize) && forallb (head_accepted ring words base size dd da qsize from_idx) (seq 0 (Z.to_nat c)) /\
    read_le 2 (mem w') (avail + 2) = (if ok then to_idx else read_le 2 (mem w) (avail + 2)) /\
    (ok = true -> forall k, Z.of_nat k < c ->
       head_shown ring words dd da table avail qsize (mem w') from_idx k).
Proof.
  intros Hr Hw Hq Hd Hl Hf Ht c. assert (Hc : 0 <= c) by (apply wrap_range; lia).
  unfold validate_and_shadow. fold c. destruct (Z.ltb_spec qsize c) as [Hbig|Hle].
  { exists false, w. split_and!; [done| |done|done]. by destruct (Z.leb_spec c qsize); [lia|]. }
  edestruct (batch_loop_still ring words Hr Hw base size dd da table avail qsize Hq Hd Hl
    (Z.to_nat qsize) (Z.to_nat c) from_idx to_idx w) as (ok & w' & Hb & Hok & _ & _ & Hidx & Hsh);
    [done|done|unfold c in *; lia|lia|lia|].
  exists ok, w'. split_and!; [done| |done|].
  - destruct (Z.leb_spec c qsize); [done|lia].
  - intros Hk k Hlt. apply Hsh; [done|lia].
Qed.

(** ** A published head copied a second time

    The driver first publishes one buffer that fills its grant, then, with the
    same head and before the device has taken it, a short buffer at the end of
    the grant. *)

Definition grant_base : Z := 0x10000.
Definition grant_size : Z := 0x1000.

Definition script16 (idx : Z) (n : nat) (a : Z) : Z :=
  if a =? grant_base + AVAIL_OFF + 2 then idx else 0.
Definition script64 (buffer len : Z) (n : nat) (a : Z) : Z :=
  if a =? grant_base + DESC_OFF then buffer else if a =? grant_base + DESC_OFF + 8 then len else 0.

Definition boot : list Device :=
  [MkDevice grant_base grant_size 0x20000 [0; 0] [true; true] (MkWorld (fun _ => 0) [] 0) []].

Definition after {E A B} (o : option (result E A * B)) (b : B) : B :=
  match o with Some (_, b') => b' | None => b end.

Definition published_once : list Device :=
  after (notify (script16 1) (script64 grant_base grant_size) boot 0 0) boot.
Definition published_twice : list Device :=
  after (notify (script16 2) (script64 (grant_base + grant_size - 16) 16) published_once 0 0) published_once.

Lemma script_answers idx buffer len :
  0 <= idx < 2 ^ 16 -> 0 <= buffer < 2 ^ 64 -> 0 <= len < 2 ^ 64 ->
  driver_answers (script16 idx) (script64 buffer len).
Proof. intros. split; intros n a; unfold script16, script64; repeat case_match; lia. Qed.

Lemma after_reachable answer16 answer64 devs id queue :
  reachable devs -> driver_answers answer16 answer64 -> 0 <= queue ->
  reachable (after (notify answer16 answer64 devs id queue) devs).
Proof.
  intros Hr Ha Hq. unfold after. destruct (notify _ _ _ _ _) as [[r devs']|] eqn:Hn; [|done].
  by eapply reach_notify.
Qed.

Lemma published_reachable : reachable published_once /\ reachable published_twice.
Proof.
  assert (H1 : reachable published_once).
  { apply after_reachable; [|by apply script_answers|done].
    apply reach_boot. apply List.Forall_cons; [|apply List.Forall_nil]. by apply fresh_dev. }
  split; [done|]. apply after_reachable; [done|by apply script_answers|done].
Qed.

Lemma device_confined_to_grant_witness :
  exists dev, published_once !! 0%nat = Some dev /\
    Forall (confined grant_base grant_size) (device_chain 8 (mem (world dev)) 0x20000 0) /\
    device_chain 8 (mem (world dev)) 0x20000 0 = [MkDesc grant_base grant_size].
Proof.
  eexists. split; [vm_compute; reflexivity|].
  match goal with |- Forall _ (device_chain _ (mem (world ?d)) _ _) /\ _ => set (dev := d) end.
  assert (Hd : published_once !! 0%nat = Some dev) by (vm_compute; reflexivity).
  destruct (device_confined_to_grant published_once 0 dev 0 0 8 (proj1 published_reachable) Hd) as (_ & Hc & _);
    [vm_compute; split; congruence..|].
  split; [|vm_compute; reflexivity]. exact Hc.
Defined.

Lemma device_sees_what_was_published_witness :
  let w0 := MkWorld (fun _ => 0) [] 0 in
  let w := mem (from_option snd w0 (validate_and_shadow (fun _ => script16 1 0)
             (fun _ => script64 grant_base grant_size 0) grant_base grant_size grant_base
             (grant_base + AVAIL_OFF) 0x20000 0x20080 8 0 1 w0)) in
  device_chain 8 w 0x20000 0 = [MkDesc grant_base grant_size].
Proof.
  intros w0 w. destruct (device_sees_what_was_published (script16 1 0) (script64 grant_base grant_size 0)
    grant_base grant_size grant_base (grant_base + AVAIL_OFF) 0x20000 0x20080 8 0 1 (MkWorld (fun _ => 0) [] 0))
    as (ok & w' & Hv & Hok & _ & Hsh).
  - apply (script_answers 1 0 0); lia.
  - apply (script_answers 0 grant_base grant_size); unfold grant_base, grant_size; lia.
  - lia.
  - by exists 8192.
  - lia.
  - lia.
  - lia.
  - assert (Hw : w = mem w') by (unfold w, w0; rewrite Hv; reflexivity). rewrite Hw.
    destruct (Hsh Hok 0%nat) as [_ Hc]; [vm_compute; reflexivity|].
    etransitivity; [exact Hc|]. vm_compute. reflexivity.
Defined.

(** Between the two stores of a descriptor copied a second time the
    device can read the new address with the old length: there is an
    execution, and a point between two of the kernel's stores, at which a slot
    the device has already been told of names bytes outside the driver's
    grant, although every descriptor the driver published passes the check. *)
Theorem recopied_descriptor_can_tear :
  exists devs dev k, reachable devs /\ devs !! 0%nat = Some dev /\
    let m := foldl apply_write (start (world dev)) (take k (log (world dev))) in
    read_le 2 m (shadow_avail_of dev 0 + 2) = 1 /\ device_head m (shadow_avail_of dev 0) 0 = 0 /\
    ~ confined (dma_base dev) (dma_size dev) (device_desc m (shadow_desc_of dev 0) 0) /\
    Forall (fun d => check_descriptor (dma_base dev) (dma_size dev) LAYOUT_QSIZE d = true)
      [MkDesc grant_base grant_size; MkDesc (grant_base + grant_size - 16) 16].
Proof.
  exists published_twice. eexists. exists 5%nat.
  split; [apply published_reachable|]. split; [vm_compute; reflexivity|].
  split; [vm_compute; reflexivity|]. split; [vm_compute; reflexivity|]. split.
  - intros [_ Hc]. specialize (Hc (grant_base + grant_size)).
    assert (H : grant_base <= grant_base + grant_size < grant_base + grant_size); [|lia].
    apply Hc. vm_compute. split; congruence.
  - apply List.Forall_cons; [vm_compute; reflexivity|].
    apply List.Forall_cons; [vm_compute; reflexivity|apply List.Forall_nil].
Qed.
End DmaValidator.
