(* ===== verification/UserHeap.v ===== *)
(** * The user-mode heap (crates/user_mode_heap/src/lib.rs)

    A first-fit, address-sorted free list whose nodes live inside the free
    memory. Memory is a [FreeBlock] at each address (blocks and nodes lie on
    the 16-byte grid, so no two nodes overlap in part); a link is the place
    that names a block: the head, or the [next] field of a node. Addresses are
    exact integers; the caller's regions lie below [usize::MAX]. *)

From S2P Require Import Prelude.
Local Open Scope Z_scope.

Module UserHeap.

Definition MIN_ALIGN : Z := 16.

Record FreeBlock := MkBlock { size : Z; next : option Z }.

Record Layout := MkLayout { l_size : Z; l_align : Z }.

Definition effective_size (layout : Layout) : Z := next_multiple_of (Z.max (l_size layout) 1) MIN_ALIGN.

Record Heap := MkHeap { head : option Z; free : Z; nodes : Z -> FreeBlock }.

Inductive Link := HeadLink | NextOf (node : Z).

#[export] Instance Link_eq_dec : EqDecision Link.
Proof. solve_decision. Defined.

Definition new (memory : Z -> FreeBlock) : Heap := MkHeap None 0 memory.

Definition free_bytes (h : Heap) : Z := free h.

Definition read_link (h : Heap) (k : Link) : option Z :=
  match k with HeadLink => head h | NextOf b => next (nodes h b) end.

Definition write_node (h : Heap) (b : Z) (n : FreeBlock) : Heap :=
  MkHeap (head h) (free h) (fun x => if decide (x = b) then n else nodes h x).

Definition write_link (h : Heap) (k : Link) (o : option Z) : Heap :=
  match k with
  | HeadLink => MkHeap o (free h) (nodes h)
  | NextOf b => write_node h b (MkBlock (size (nodes h b)) o)
  end.

Definition set_free (h : Heap) (n : Z) : Heap := MkHeap (head h) n (nodes h).

(** [NonNull::new]. *)
Definition non_null (a : Z) : option Z := if a =? 0 then None else Some a.

(** The walks take fuel: a list on the grid has at most one node for every
    [MIN_ALIGN] free bytes. [None] is a walk that did not end. *)
Definition walk_fuel (h : Heap) : nat := S (Z.to_nat (free h / MIN_ALIGN)).

Fixpoint count_loop (fuel : nat) (h : Heap) (cur : option Z) : option Z :=
  match cur with
  | None => Some 0
  | Some b =>
      match fuel with
      | O => None
      | S fuel' =>
          match count_loop fuel' h (next (nodes h b)) with Some n => Some (1 + n) | None => None end
      end
  end.

Definition block_count (h : Heap) : option Z := count_loop (walk_fuel h) h (head h).

(** The body of [alloc]'s loop for a block that fits. *)
Definition carve (h : Heap) (link : Link) (block aligned sz : Z) : Heap :=
  let bsize := size (nodes h block) in
  let nxt := next (nodes h block) in
  let front := aligned - block in
  let tail := bsize - front - sz in
  let '(after_front, h) :=
    if 0 <? tail then
      let t := aligned + sz in (non_null t, write_node h t (MkBlock tail nxt))
    else (nxt, h) in
  let h := if 0 <? front then write_node h block (MkBlock front after_front)
           else write_link h link after_front in
  set_free h (free h - sz).

Fixpoint alloc_loop (fuel : nat) (h : Heap) (link : Link) (sz align : Z) : option (option Z * Heap) :=
  match read_link h link with
  | None => Some (None, h)
  | Some block =>
      match fuel with
      | O => None
      | S fuel' =>
          let aligned := next_multiple_of block align in
          let front := aligned - block in
          if front + sz <=? size (nodes h block)
          then Some (non_null aligned, carve h link block aligned sz)
          else alloc_loop fuel' h (NextOf block) sz align
      end
  end.

Definition alloc (h : Heap) (layout : Layout) : option (option Z * Heap) :=
  alloc_loop (walk_fuel h) h HeadLink (effective_size layout) (Z.max (l_align layout) MIN_ALIGN).

(** The first block above [addr]: the link that names it. *)
Fixpoint find_loop (fuel : nat) (h : Heap) (link : Link) (addr : Z) : option Link :=
  match read_link h link with
  | None => Some link
  | Some block =>
      if addr <? block then Some link
      else match fuel with O => None | S fuel' => find_loop fuel' h (NextOf block) addr end
  end.

(** The rest of [insert_free], once the insertion point is known. *)
Definition splice (h : Heap) (link : Link) (addr sz : Z) : Heap :=
  let nxt := read_link h link in
  let '(new_size, new_next) :=
    match nxt with
    | Some n => if n =? addr + sz then (sz + size (nodes h n), next (nodes h n)) else (sz, nxt)
    | None => (sz, nxt)
    end in
  let here := write_link (write_node h addr (MkBlock new_size new_next)) link (Some addr) in
  match link with
  | HeadLink => here
  | NextOf prev =>
      if prev + size (nodes h prev) =? addr
      then write_node h prev (MkBlock (size (nodes h prev) + new_size) new_next)
      else here
  end.

Definition insert_free (h : Heap) (addr sz : Z) : option Heap :=
  let h := set_free h (free h + sz) in
  match find_loop (walk_fuel h) h HeadLink addr with
  | None => None
  | Some link => Some (splice h link addr sz)
  end.

Definition add_region (h : Heap) (start sz : Z) : option Heap :=
  if sz =? 0 then Some h else insert_free h start sz.

Definition dealloc (h : Heap) (ptr : Z) (layout : Layout) : option Heap :=
  insert_free h ptr (effective_size layout).

(** ** The free list as a list of ranges *)

Notation range := (Z * Z)%type.

(** A freed range takes over the block that starts where it ends. *)
Definition absorb (a s : Z) (l : list range) : Z * list range :=
  match l with
  | (c, u) :: r => if c =? a + s then (s + u, r) else (s, l)
  | [] => (s, l)
  end.

Fixpoint ins (a s : Z) (l : list range) : list range :=
  match l with
  | [] => [(a, s)]
  | (b, t) :: r =>
      if a <? b then let '(ns, nn) := absorb a s l in (a, ns) :: nn
      else if b + t =? a then let '(ns, nn) := absorb a s r in (b, t + ns) :: nn
      else (b, t) :: ins a s r
  end.

(** What carving leaves of one block. *)
Definition pieces (b t p s : Z) : list range :=
  (if 0 <? p - b then [(b, p - b)] else []) ++
  (if 0 <? t - (p - b) - s then [(p + s, t - (p - b) - s)] else []).

Fixpoint take_first (s align : Z) (l : list range) : option (Z * list range) :=
  match l with
  | [] => None
  | (b, t) :: r =>
      let p := next_multiple_of b align in
      if p - b + s <=? t then Some (p, pieces b t p s ++ r)
      else match take_first s align r with Some (q, r') => Some (q, (b, t) :: r') | None => None end
  end.

(** The free list [l] read out of memory from [o]. *)
Fixpoint rep (m : Z -> FreeBlock) (o : option Z) (l : list range) : Prop :=
  match l with
  | [] => o = None
  | (b, t) :: r => o = Some b /\ size (m b) = t /\ rep m (next (m b)) r
  end.

Definition on_grid (r : range) : Prop := 0 < r.1 /\ r.1 mod 16 = 0 /\ 0 < r.2 /\ r.2 mod 16 = 0.

(** Sorted by address, with a gap after every block: fully coalesced. *)
Fixpoint gapped (l : list range) : Prop :=
  match l with
  | [] => True
  | (b, t) :: r => Forall (fun x => b + t < x.1) r /\ gapped r
  end.

Definition wf (l : list range) : Prop := Forall on_grid l /\ gapped l.

Definition total (l : list range) : Z := foldr (fun r n => r.2 + n) 0 l.

Definition within (x : Z) (r : range) : Prop := r.1 <= x < r.1 + r.2.

#[export] Instance within_dec x r : Decision (within x r).
Proof. unfold within. apply _. Defined.

(** How many of the ranges hold the byte [x]. *)
Definition cover (x : Z) (l : list range) : nat := length (filter (within x) l).

(** ** Ranges *)

Definition addrs (l : list range) : list Z := l.*1.

Lemma cover_nil x : cover x [] = 0%nat.
Proof. done. Qed.

Definition b2n (P : Prop) `{Decision P} : nat := if decide P then 1 else 0.

Lemma cover_cons x r l : cover x (r :: l) = (b2n (within x r) + cover x l)%nat.
Proof. unfold cover, b2n. rewrite filter_cons. by case_decide. Qed.

Lemma cover_app x l l' : cover x (l ++ l') = (cover x l + cover x l')%nat.
Proof. unfold cover. by rewrite filter_app, length_app. Qed.

Lemma cover_zero x l : cover x l = 0%nat <-> Forall (fun r => ~ within x r) l.
Proof.
  induction l as [|r l IH]; [split; [intros _; apply List.Forall_nil|done]|].
  rewrite cover_cons, Forall_cons. unfold b2n. case_decide; [|tauto]. split; [done|tauto].
Qed.

Lemma cover_pos x l r : r ∈ l -> within x r -> (1 <= cover x l)%nat.
Proof.
  intros Hr Hx. destruct (cover x l) eqn:E; [|lia]. apply cover_zero in E.
  exfalso. exact (proj1 (Forall_forall _ _) E r Hr Hx).
Qed.

(** A range split into two. *)
Lemma b2n_split x a s t :
  0 <= s -> 0 <= t -> b2n (within x (a, s + t)) = (b2n (within x (a, s)) + b2n (within x (a + s, t)%Z))%nat.
Proof. intros Hs Ht. unfold b2n, within. simpl. repeat case_decide; lia. Qed.

Lemma b2n_empty x a s : s <= 0 -> b2n (within x (a, s)) = 0%nat.
Proof. intros Hs. unfold b2n, within. simpl. case_decide; lia. Qed.

Lemma gapped_app l1 l2 :
  gapped (l1 ++ l2) <-> gapped l1 /\ gapped l2 /\ Forall (fun r => Forall (fun x => r.1 + r.2 < x.1) l2) l1.
Proof.
  induction l1 as [|[b t] l1 IH]; simpl.
  - split; [intros H; split_and!; [done|done|apply List.Forall_nil]|tauto].
  - rewrite Forall_app, Forall_cons, IH. simpl. tauto.
Qed.

Lemma wf_app l1 l2 :
  wf (l1 ++ l2) <-> wf l1 /\ wf l2 /\ Forall (fun r => Forall (fun x => r.1 + r.2 < x.1) l2) l1.
Proof. unfold wf. rewrite Forall_app, gapped_app. tauto. Qed.

Lemma wf_cons b t r : wf ((b, t) :: r) <-> on_grid (b, t) /\ wf r /\ Forall (fun x => b + t < x.1) r.
Proof. unfold wf. rewrite Forall_cons. simpl. tauto. Qed.

Lemma total_cons r l : total (r :: l) = r.2 + total l.
Proof. done. Qed.

Lemma total_app l1 l2 : total (l1 ++ l2) = total l1 + total l2.
Proof. induction l1 as [|r l1 IH]; simpl; [done|]. rewrite IH. lia. Qed.

(** One node for every sixteen bytes at most. *)
Lemma wf_length l : Forall on_grid l -> 16 * Z.of_nat (length l) <= total l.
Proof.
  induction 1 as [|r l (_ & _ & Hs & Hm) _ IH]; simpl; [lia|].
  assert (16 <= r.2). { pose proof (Z.div_mod r.2 16 ltac:(lia)). lia. } lia.
Qed.

Lemma next_multiple_spec x n :
  0 < n -> x <= next_multiple_of x n < x + n /\ next_multiple_of x n mod n = 0.
Proof.
  intros Hn. unfold next_multiple_of, div_ceil.
  pose proof (Z.div_mod (x + n - 1) n ltac:(lia)). pose proof (Z.mod_pos_bound (x + n - 1) n Hn).
  split; [nia|]. apply Z_mod_mult.
Qed.

(** ** Carving *)

Lemma pieces_spec b t p s :
  on_grid (b, t) -> b <= p -> p - b + s <= t -> p mod 16 = 0 -> on_grid (p, s) ->
  wf (pieces b t p s) /\ total (pieces b t p s) = t - s /\
  (forall x, b2n (within x (b, t)) = (cover x (pieces b t p s) + b2n (within x (p, s)))%nat) /\
  Forall (fun r => b <= r.1 /\ r.1 + r.2 <= b + t) (pieces b t p s).
Proof.
  intros (Hb & Hbm & Ht & Htm) Hp Hf Hpm (_ & _ & Hs & Hsm). simpl in *.
  assert (Hfm : (p - b) mod 16 = 0) by (rewrite Zminus_mod, Hpm, Hbm; done).
  assert (Htl : (t - (p - b) - s) mod 16 = 0).
  { rewrite Zminus_mod, Hsm, (Zminus_mod t), Htm, Hfm. done. }
  assert (Hts : (p + s) mod 16 = 0) by (rewrite Zplus_mod, Hpm, Hsm; done).
  split_and!; [split| | |]; unfold pieces;
    destruct (Z.ltb_spec 0 (p - b)), (Z.ltb_spec 0 (t - (p - b) - s)); simpl app.
  all: try (repeat first [apply List.Forall_cons | apply List.Forall_nil]; (unfold on_grid; simpl; split_and!; (done || lia))).
  all: try (simpl; split_and!; (done || lia || (repeat first [apply List.Forall_cons | apply List.Forall_nil]; simpl; lia))).
  all: try (simpl; lia).
  all: intros x; rewrite ?cover_cons, ?cover_nil; unfold b2n, within; simpl; repeat case_decide; lia.
Qed.

Lemma grid_align p align : (16 | align) -> 0 < align -> p mod align = 0 -> p mod 16 = 0.
Proof.
  intros [k ->] Ha Hp. apply Z.mod_divide in Hp as [j ->]; [|lia].
  rewrite Z.mul_assoc. apply Z_mod_mult.
Qed.

Lemma Forall_above l r c d :
  Forall (fun x : range => c < x.1) l -> Forall (fun x : range => d <= x.1 /\ x.1 + x.2 <= c) r ->
  Forall (fun y => Forall (fun x => y.1 + y.2 < x.1) l) r.
Proof.
  intros Hl Hr. eapply Forall_impl; [exact Hr|]. intros y [_ Hy].
  eapply Forall_impl; [exact Hl|]. intros x Hx. simpl in *. lia.
Qed.

Lemma take_first_Some s align l p l' :
  wf l -> 0 < s -> s mod 16 = 0 -> 0 < align -> (16 | align) -> take_first s align l = Some (p, l') ->
  wf l' /\ total l = total l' + s /\ on_grid (p, s) /\ p mod align = 0 /\
  (forall x, cover x l = (cover x l' + b2n (within x (p, s)))%nat) /\
  forall c, Forall (fun x => c < x.1) l -> Forall (fun x => c < x.1) l'.
Proof.
  intros Hwf Hs Hsm Ha Hda. revert p l' Hwf. induction l as [|[b t] r IH]; intros p l' Hwf Htf; simpl in Htf; [done|].
  pose proof (next_multiple_spec b align Ha) as [Hnm Hnmod].
  destruct (proj1 (wf_cons b t r) Hwf) as (Hgb & Hwr & Habove). pose proof Hgb as (Hb0 & Hbm & Ht0 & Htm). simpl in *.
  destruct (Z.leb_spec (next_multiple_of b align - b + s) t) as [Hfit|Hfit].
  - injection Htf as <- <-. set (q := next_multiple_of b align) in *.
    assert (Hgq : on_grid (q, s)) by (unfold on_grid; simpl; split_and!; [lia|by apply (grid_align _ align)|done|done]).
    destruct (pieces_spec b t q s Hgb ltac:(lia) Hfit ltac:(by apply (grid_align _ align)) Hgq) as (Hw & Htot & Hcov & Hin).
    split_and!.
    + apply wf_app. split_and!; [done|done|]. by apply (Forall_above _ _ (b + t) b).
    + rewrite total_app, Htot. lia.
    + done.
    + done.
    + intros x. rewrite cover_cons, cover_app, Hcov. lia.
    + intros c Hc. apply Forall_cons in Hc as [Hcb Hcr]. simpl in Hcb. apply Forall_app. split; [|done].
      eapply Forall_impl; [exact Hin|]. intros y [Hy _]. simpl in *. lia.
  - destruct (take_first s align r) as [[q r']|]; [|done]. injection Htf as <- <-.
    destruct (IH q r' Hwr eq_refl) as (Hw & Htot & Hgq & Hqm & Hcov & Hab).
    split_and!; try done.
    + apply wf_cons. split_and!; [done|done|by apply Hab].
    + simpl. lia.
    + intros x. rewrite !cover_cons, Hcov. lia.
    + intros c Hc. apply Forall_cons in Hc as [Hcb Hcr]. apply Forall_cons. split; [done|by apply Hab].
Qed.

Lemma take_first_None s align l b t :
  take_first s align l = None -> (b, t) ∈ l -> t < next_multiple_of b align - b + s.
Proof.
  induction l as [|[c u] r IH]; intros Htf Hin; [by apply elem_of_nil in Hin|]. simpl in Htf.
  destruct (Z.leb_spec (next_multiple_of c align - c + s) u); [done|].
  destruct (take_first s align r) as [[]|] eqn:E; [done|].
  apply elem_of_cons in Hin as [[= -> ->]|Hin]; [done|by apply IH].
Qed.

(** ** Freeing *)

(** The range overlaps no block. *)
Definition apart (a s : Z) (l : list range) : Prop := Forall (fun r => r.1 + r.2 <= a \/ a + s <= r.1) l.

Lemma cover_apart a s l :
  Forall on_grid l -> 0 < s -> (forall x, within x (a, s) -> cover x l = 0%nat) -> apart a s l.
Proof.
  intros Hg Hs Hc. apply Forall_forall. intros [b t] Hr.
  pose proof (proj1 (Forall_forall _ _) Hg _ Hr) as (_ & _ & Ht & _). simpl in *.
  destruct (Z.le_gt_cases (b + t) a); [by left|]. destruct (Z.le_gt_cases (a + s) b); [by right|]. exfalso.
  pose proof (cover_pos (Z.max a b) l (b, t) Hr) as Hp. unfold within in *. simpl in *.
  specialize (Hc (Z.max a b)). lia.
Qed.

Lemma absorb_spec a s l ns nn :
  absorb a s l = (ns, nn) -> wf l -> on_grid (a, s) -> Forall (fun r => a + s <= r.1) l ->
  wf nn /\ on_grid (a, ns) /\ Forall (fun r => a + ns < r.1) nn /\
  ns + total nn = s + total l /\
  forall x, (b2n (within x (a, ns)) + cover x nn = b2n (within x (a, s)) + cover x l)%nat.
Proof.
  unfold absorb. intros E Hw Hg Ha. pose proof Hg as (Ha0 & Ham & Hs & Hsm). simpl in *.
  destruct l as [|[c u] r].
  { injection E as <- <-. by split_and!. }
  destruct (proj1 (wf_cons c u r) Hw) as ((Hc0 & Hcm & Hu & Hum) & Hwr & Habove). simpl in *.
  apply Forall_cons in Ha as [Hac Har]. simpl in Hac.
  destruct (Z.eqb_spec c (a + s)) as [->|Hne]; injection E as <- <-.
  - split_and!; [done| | |lia|].
    + unfold on_grid. simpl. split_and!; [done|done|lia|]. by rewrite Zplus_mod, Hsm, Hum.
    + eapply Forall_impl; [exact Habove|]. intros x Hx. simpl in *. lia.
    + intros x. rewrite cover_cons, (b2n_split x a s u) by lia. lia.
  - split_and!; [done|done| |simpl; lia|done].
    apply Forall_cons. split; [simpl; lia|]. eapply Forall_impl; [exact Habove|]. intros x Hx. simpl in *. lia.
Qed.

Lemma ins_spec a s l :
  wf l -> on_grid (a, s) -> apart a s l ->
  wf (ins a s l) /\ total (ins a s l) = total l + s /\
  (forall x, cover x (ins a s l) = (cover x l + b2n (within x (a, s)))%nat) /\
  forall c, c < a -> Forall (fun x => c < x.1) l -> Forall (fun x => c < x.1) (ins a s l).
Proof.
  intros Hw Hg. induction l as [|[b t] r IH]; intros Hap.
  { simpl. split_and!; [apply wf_cons; split_and!; [done|done|apply List.Forall_nil]|lia| |].
    - intros x. rewrite cover_cons, cover_nil. lia.
    - intros c Hc _. by apply Forall_singleton. }
  destruct (proj1 (wf_cons b t r) Hw) as (Hgb & Hwr & Habove).
  apply Forall_cons in Hap as [Hab Har]. simpl in Hab.
  pose proof Hg as (Ha0 & Ham & Hs & Hsm). simpl in Ha0, Ham, Hs, Hsm.
  pose proof Hgb as (Hb0 & Hbm & Ht & Htm). simpl in Hb0, Hbm, Ht, Htm.
  cbn [ins]. destruct (Z.ltb_spec a b) as [Hlt|Hge].
  - match goal with |- context [absorb a s ?l] => destruct (absorb a s l) as [ns nn] eqn:E end.
    destruct (absorb_spec _ _ _ _ _ E Hw Hg) as (Hwn & Hgn & Hgap & Htot & Hcov).
    { apply Forall_cons. split; [simpl; lia|]. eapply Forall_impl; [exact Habove|]. intros x Hx. simpl in *. lia. }
    split_and!.
    + by apply wf_cons.
    + simpl in *. lia.
    + intros x. rewrite cover_cons. specialize (Hcov x). lia.
    + intros c Hc Hl. apply Forall_cons. split; [done|]. destruct Hgn as (_ & _ & Hns & _). simpl in Hns.
      eapply Forall_impl; [exact Hgap|]. intros x Hx. simpl in *. lia.
  - destruct (Z.eqb_spec (b + t) a) as [<-|Hne].
    + destruct (absorb (b + t) s r) as [ns nn] eqn:E.
      destruct (absorb_spec _ _ _ _ _ E Hwr Hg) as (Hwn & Hgn & Hgap & Htot & Hcov).
      { apply Forall_forall. intros x Hx. pose proof (proj1 (Forall_forall _ _) Har x Hx) as H1.
        pose proof (proj1 (Forall_forall _ _) Habove x Hx). simpl in *.
        destruct (proj1 (Forall_forall _ _) (proj1 Hwr) x Hx) as (_ & _ & ? & _). lia. }
      destruct Hgn as (_ & _ & Hns & Hnsm). simpl in Hns, Hnsm.
      split_and!.
      * apply wf_cons. split_and!; [|done|].
        -- unfold on_grid. simpl. split_and!; [done|done|lia|]. by rewrite Zplus_mod, Htm, Hnsm.
        -- eapply Forall_impl; [exact Hgap|]. intros x Hx. simpl in *. lia.
      * simpl in *. lia.
      * intros x. rewrite !cover_cons, (b2n_split x b t ns) by lia. specialize (Hcov x). lia.
      * intros c Hc Hl. apply Forall_cons in Hl as [Hcb _]. simpl in Hcb. apply Forall_cons. split; [done|].
        eapply Forall_impl; [exact Hgap|]. intros x Hx. simpl in *. lia.
    + destruct (IH Hwr Har) as (Hwi & Htot & Hcov & Hfa). split_and!.
      * apply wf_cons. split_and!; [done|done|]. apply Hfa; [lia|done].
      * simpl in *. lia.
      * intros x. rewrite !cover_cons, Hcov. lia.
      * intros c Hc Hl. apply Forall_cons in Hl as [Hcb Hcr]. apply Forall_cons. split; [done|]. by apply Hfa.
Qed.

(** ** The list in memory *)

(** The link that names what follows [pre]. *)
Definition link_of (pre : list range) : Link :=
  match last pre with Some (b, _) => NextOf b | None => HeadLink end.

Lemma link_of_snoc pre b t : link_of (pre ++ [(b, t)]) = NextOf b.
Proof. unfold link_of. by rewrite last_snoc. Qed.

Lemma link_of_next pre : pre <> [] -> exists b, link_of pre = NextOf b /\ b ∈ addrs pre.
Proof.
  destruct pre as [|[b t] pre _] using rev_ind; [done|]. intros _. exists b. rewrite link_of_snoc.
  split; [done|]. unfold addrs. rewrite fmap_app. apply elem_of_app. right. by left.
Qed.

Lemma free_rep_frame m m' o l : (forall b, b ∈ addrs l -> m' b = m b) -> rep m o l -> rep m' o l.
Proof.
  revert o. induction l as [|[b t] r IH]; intros o Hf; simpl; [done|]. intros (-> & Hs & Hr).
  rewrite (Hf b) by (by left). split_and!; [done|done|]. apply IH; [|done]. intros c Hc. apply Hf. by right.
Qed.

Lemma rep_link h pre l : rep (nodes h) (head h) (pre ++ l) -> rep (nodes h) (read_link h (link_of pre)) l.
Proof.
  destruct pre as [|[b t] pre _] using rev_ind; [done|]. rewrite link_of_snoc, <- app_assoc. simpl.
  generalize (head h). induction pre as [|[c u] pre IH]; intros o; simpl; [by intros (_ & _ & H)|].
  intros (_ & _ & H). by apply (IH _ H).
Qed.

(** Replacing the tail of the list in place. *)
Lemma rep_replace m m' o pre l l' :
  rep m o (pre ++ l) -> (forall b, b ∈ addrs pre -> m' b = m b) ->
  (forall ol, rep m ol l -> rep m' ol l') -> rep m' o (pre ++ l').
Proof.
  revert o. induction pre as [|[b t] pre IH]; intros o Hr Hf Hl; simpl in *; [by apply Hl|].
  destruct Hr as (-> & Hs & Hr). rewrite (Hf b) by (by left). split_and!; [done|done|].
  apply IH; [done| |done]. intros c Hc. apply Hf. by right.
Qed.

(** Replacing the tail of the list by writing the link. *)
Lemma rep_relink h h' pre l l' o' :
  NoDup (addrs pre) -> rep (nodes h) (head h) (pre ++ l) ->
  (forall b, b ∈ addrs pre -> nodes h' b = if decide (link_of pre = NextOf b) then MkBlock (size (nodes h b)) o' else nodes h b) ->
  head h' = (if pre is [] then o' else head h) ->
  rep (nodes h') o' l' -> rep (nodes h') (head h') (pre ++ l').
Proof.
  intros Hnd Hr Hf -> Hl. destruct pre as [|[b t] pre _] using rev_ind; [done|].
  rewrite link_of_snoc in Hf. unfold addrs in *. rewrite fmap_app in *.
  apply NoDup_app in Hnd as (Hnd & Hni & _). rewrite <- app_assoc in *.
  match goal with |- rep _ ?o _ => replace o with (head h) by (by destruct pre) end.
  eapply rep_replace; [exact Hr| |].
  - intros c Hc. rewrite (Hf c) by (apply elem_of_app; by left). rewrite decide_False; [done|].
    intros [= ->]. apply (Hni c Hc). simpl. by left.
  - intros ol. simpl. intros (-> & Hs & _). rewrite Hf by (apply elem_of_app; right; by left).
    by rewrite decide_True.
Qed.

Lemma wf_nodup l : wf l -> NoDup (addrs l).
Proof.
  induction l as [|[c u] l IH]; simpl; intros Hw; [apply NoDup_nil_2|].
  apply wf_cons in Hw as ((_ & _ & Hu & _) & Hw & Hab). simpl in Hu. apply NoDup_cons. split; [|by apply IH].
  intros Hc. apply list_elem_of_fmap in Hc as ([c' u'] & Hcc & Hc). simpl in Hcc. subst c'.
  pose proof (proj1 (Forall_forall _ _) Hab _ Hc). simpl in *. lia.
Qed.

Lemma gapped_addrs pre b t r :
  wf (pre ++ (b, t) :: r) ->
  (forall c, c ∈ addrs pre -> c < b) /\ (forall c, c ∈ addrs r -> b + t < c) /\ NoDup (addrs pre).
Proof.
  intros Hw. apply wf_app in Hw as (Hwp & Hwl & Hall). apply wf_cons in Hwl as (_ & _ & Hr). split_and!.
  - intros c Hc. apply list_elem_of_fmap in Hc as ([c' u] & -> & Hc). simpl.
    pose proof (proj1 (Forall_forall _ _) Hall _ Hc) as H. apply Forall_cons in H as [H _]. simpl in H.
    destruct (proj1 (Forall_forall _ _) (proj1 Hwp) _ Hc) as (_ & _ & ? & _). simpl in *. lia.
  - intros c Hc. apply list_elem_of_fmap in Hc as ([c' u] & -> & Hc). exact (proj1 (Forall_forall _ _) Hr _ Hc).
  - by apply wf_nodup.
Qed.

Lemma rep_carve h pre b t r p sz :
  rep (nodes h) (head h) (pre ++ (b, t) :: r) -> wf (pre ++ (b, t) :: r) ->
  b <= p -> p - b + sz <= t -> 0 < sz -> 0 < b ->
  let h' := carve h (link_of pre) b p sz in
  rep (nodes h') (head h') (pre ++ pieces b t p sz ++ r) /\ free h' = free h - sz.
Proof.
  intros Hr Hw Hbp Hfit Hsz Hb0. destruct (gapped_addrs _ _ _ _ Hw) as (Hpre & Hpost & Hnd).
  pose proof (rep_link _ _ _ Hr) as Hl. simpl in Hl. destruct Hl as (Hlink & Hsize & Hnext).
  unfold carve. rewrite Hsize. unfold pieces.
  set (tl := t - (p - b) - sz). set (nx := next (nodes h b)) in *.
  set (h1 := if 0 <? tl then write_node h (p + sz) (MkBlock tl nx) else h).
  set (after := if 0 <? tl then non_null (p + sz) else nx).
  assert (Ht : rep (nodes h1) after ((if 0 <? tl then [(p + sz, tl)] else []) ++ r)).
  { unfold h1, after. destruct (Z.ltb_spec 0 tl); [|done]. unfold non_null.
    destruct (Z.eqb_spec (p + sz) 0); [lia|]. simpl. rewrite decide_True by done.
    split_and!; [done|done|]. simpl. apply (free_rep_frame (nodes h)); [|done].
    intros c Hc. apply Hpost in Hc. rewrite decide_False; [done|lia]. }
  assert (Hsame : forall c, c <= b -> nodes h1 c = nodes h c).
  { intros c Hc. unfold h1. destruct (Z.ltb_spec 0 tl); [|done]. simpl. rewrite decide_False; [done|lia]. }
  assert (Hh1 : head h1 = head h /\ free h1 = free h) by (unfold h1; by destruct (0 <? tl)). destruct Hh1 as [Hhd Hfr].
  assert (Hpair : (if 0 <? tl then (non_null (p + sz), write_node h (p + sz) (MkBlock tl nx)) else (nx, h)) = (after, h1)).
  { unfold after, h1. by destruct (0 <? tl). }
  cbn zeta. rewrite Hpair.
  destruct (Z.ltb_spec 0 (p - b)) as [Hf|Hf].
  - cbn [set_free free nodes head write_node]. split; [|by rewrite Hfr]. rewrite Hhd.
    rewrite <- app_assoc. eapply rep_replace; [exact Hr| |].
    + intros c Hc. apply Hpre in Hc. rewrite decide_False by lia. apply Hsame. lia.
    + intros ol. simpl. intros (-> & _ & _). rewrite decide_True by done. split_and!; [done|done|]. simpl.
      apply (free_rep_frame (nodes h1)); [|exact Ht]. intros c Hc. rewrite decide_False; [done|].
      unfold addrs in Hc. rewrite fmap_app in Hc. apply elem_of_app in Hc as [Hc|Hc].
      * destruct (0 <? tl); simpl in Hc; [apply list_elem_of_singleton in Hc; lia|by apply elem_of_nil in Hc].
      * apply Hpost in Hc. lia.
  - assert (p = b) as -> by lia. rewrite app_nil_l. split; [|destruct (link_of pre); simpl; lia].
    eapply (rep_relink h _ pre ((b, t) :: r) _ after); [done|done| | |].
    + intros c Hc. pose proof (Hpre c Hc). destruct (link_of pre) as [|b0] eqn:E; cbn [set_free write_link write_node nodes].
      * rewrite decide_False by done. apply Hsame. lia.
      * destruct (decide (c = b0)) as [->|Hne]; [rewrite decide_True by done; by rewrite Hsame by lia|].
        rewrite decide_False by congruence. apply Hsame. lia.
    + destruct pre as [|x pre]; [done|]. destruct (link_of_next (x :: pre)) as (b1 & Hb1 & _); [done|].
      rewrite Hb1. exact Hhd.
    + destruct (link_of pre) as [|b0] eqn:E; cbn [set_free write_link write_node nodes]; [done|].
      apply (free_rep_frame (nodes h1)); [|exact Ht]. intros c Hc. rewrite decide_False; [done|].
      assert (Hb0' : b0 < b).
      { apply Hpre. destruct (link_of_next pre) as (b1 & Hb1 & Hin); [by intros ->|]. congruence. }
      unfold addrs in Hc. rewrite fmap_app in Hc. apply elem_of_app in Hc as [Hc|Hc].
      * destruct (0 <? tl); simpl in Hc; [apply list_elem_of_singleton in Hc; lia|by apply elem_of_nil in Hc].
      * apply Hpost in Hc. lia.
Qed.

Lemma alloc_loop_rep fuel h pre l sz align :
  rep (nodes h) (head h) (pre ++ l) -> wf (pre ++ l) -> 0 < sz -> 0 < align -> (length l <= fuel)%nat ->
  exists r, alloc_loop fuel h (link_of pre) sz align = Some r /\
    match take_first sz align l with
    | None => r = (None, h)
    | Some (p, l') => exists h', r = (Some p, h') /\ rep (nodes h') (head h') (pre ++ l') /\ free h' = free h - sz
    end.
Proof.
  revert fuel pre. induction l as [|[b t] r IH]; intros fuel pre Hr Hw Hsz Hal Hf;
    pose proof (rep_link _ _ _ Hr) as Hl; simpl in Hl.
  { exists (None, h). split; [|done]. destruct fuel; simpl; by rewrite Hl. }
  destruct Hl as (Hlink & Hsize & Hnext). simpl in Hf. destruct fuel as [|fuel]; [lia|].
  cbn [alloc_loop]. rewrite Hlink, Hsize. cbn [take_first].
  pose proof (next_multiple_spec b align Hal) as [Hnm _].
  assert (Hb0 : 0 < b).
  { apply wf_app in Hw as (_ & Hwl & _). apply wf_cons in Hwl as ((H & _) & _ & _). exact H. }
  destruct (Z.leb_spec (next_multiple_of b align - b + sz) t) as [Hfit|Hfit].
  - eexists. split; [done|].
    destruct (rep_carve h pre b t r (next_multiple_of b align) sz Hr Hw ltac:(lia) Hfit Hsz Hb0) as [Hrep Hfree].
    eexists. split; [|by split]. unfold non_null. by destruct (Z.eqb_spec (next_multiple_of b align) 0); [lia|].
  - rewrite <- (link_of_snoc pre b t). replace (pre ++ (b, t) :: r) with ((pre ++ [(b, t)]) ++ r) in * by (by rewrite <- app_assoc).
    destruct (IH fuel (pre ++ [(b, t)]) Hr Hw Hsz Hal ltac:(lia)) as (res & Hres & Hm). exists res. split; [done|].
    destruct (take_first sz align r) as [[q r']|]; [|done].
    destruct Hm as (h' & -> & Hrep & Hfree). exists h'. rewrite <- app_assoc in Hrep. done.
Qed.

Lemma find_loop_rep fuel h pre l a :
  rep (nodes h) (head h) (pre ++ l) -> Forall (fun r => r.1 <= a) pre -> (length l <= fuel)%nat ->
  exists pre' l', find_loop fuel h (link_of pre) a = Some (link_of pre') /\ pre ++ l = pre' ++ l' /\
    Forall (fun r => r.1 <= a) pre' /\ (forall r l0, l' = r :: l0 -> a < r.1).
Proof.
  revert fuel pre. induction l as [|[b t] r IH]; intros fuel pre Hr Hp Hf;
    pose proof (rep_link _ _ _ Hr) as Hl; simpl in Hl.
  { exists pre, []. split_and!; [|done|done|done]. destruct fuel; simpl; by rewrite Hl. }
  destruct Hl as (Hlink & Hsize & Hnext). simpl in Hf. destruct fuel as [|fuel]; [lia|].
  cbn [find_loop]. rewrite Hlink. destruct (Z.ltb_spec a b) as [Hlt|Hge].
  - exists pre, ((b, t) :: r). split_and!; [done|done|done|]. by intros ? ? [= <- <-].
  - rewrite <- (link_of_snoc pre b t). replace (pre ++ (b, t) :: r) with ((pre ++ [(b, t)]) ++ r) in * by (by rewrite <- app_assoc).
    apply IH; [done| |lia]. apply Forall_app. split; [done|]. by apply Forall_singleton.
Qed.

Lemma ins_app a s l0 l :
  Forall (fun r => r.1 <= a /\ r.1 + r.2 <> a) l0 -> ins a s (l0 ++ l) = l0 ++ ins a s l.
Proof.
  induction 1 as [|[b t] l0 [Hb Ht] _ IH]; simpl; [done|]. simpl in *.
  destruct (Z.ltb_spec a b); [lia|]. destruct (Z.eqb_spec (b + t) a); [lia|]. by rewrite IH.
Qed.

Lemma ins_above a s l :
  (forall r l0, l = r :: l0 -> a < r.1) -> ins a s l = (a, (absorb a s l).1) :: (absorb a s l).2.
Proof.
  destruct l as [|[b t] r]; intros H; [done|]. specialize (H _ _ eq_refl). simpl in H.
  cbn [ins]. destruct (Z.ltb_spec a b); [|lia]. by destruct (absorb _ _ _).
Qed.

(** What [insert_free] reads of the following block. *)
Definition absorbed (h : Heap) (nxt : option Z) (a s : Z) : Z * option Z :=
  match nxt with
  | Some n => if n =? a + s then (s + size (nodes h n), next (nodes h n)) else (s, nxt)
  | None => (s, nxt)
  end.

Lemma absorb_rep h o l a s :
  rep (nodes h) o l -> (absorbed h o a s).1 = (absorb a s l).1 /\ rep (nodes h) (absorbed h o a s).2 (absorb a s l).2.
Proof.
  destruct l as [|[c u] r]; simpl.
  - intros ->. done.
  - intros (-> & Hs & Hr). simpl. destruct (c =? a + s); simpl; [by rewrite Hs|done].
Qed.

Lemma absorb_subset a s l x : x ∈ (absorb a s l).2 -> x ∈ l.
Proof. destruct l as [|[c u] r]; [done|]. simpl. destruct (c =? a + s); [by right|done]. Qed.

(** A new node for the range, named by the link that follows [pre]. *)
Lemma link_here_rep h pre l a ns nx nn :
  rep (nodes h) (head h) (pre ++ l) -> NoDup (addrs pre) -> rep (nodes h) nx nn ->
  (forall c, c ∈ addrs pre -> c < a) -> (forall c, c ∈ addrs nn -> a < c) ->
  let here := write_link (write_node h a (MkBlock ns nx)) (link_of pre) (Some a) in
  rep (nodes here) (head here) (pre ++ (a, ns) :: nn) /\ free here = free h.
Proof.
  intros Hr Hnd Hnn Hpre Habove here. split; [|unfold here; by destruct (link_of pre)].
  eapply (rep_relink h here pre l _ (Some a)); [done|done| | |].
  - intros c Hc. apply Hpre in Hc. unfold here. destruct (link_of pre) as [|b0]; cbn [write_link write_node nodes size].
    + rewrite decide_False by lia. by rewrite decide_False.
    + destruct (decide (c = b0)) as [->|Hne].
      * rewrite (decide_True (P := NextOf b0 = NextOf b0)) by done. by rewrite decide_False by lia.
      * rewrite (decide_False (P := NextOf b0 = NextOf c)) by congruence. by rewrite decide_False by lia.
  - unfold here. destruct pre as [|x pre]; [done|]. destruct (link_of_next (x :: pre)) as (b1 & Hb1 & _); [done|]. by rewrite Hb1.
  - simpl. split; [done|]. unfold here. destruct (link_of pre) as [|b0] eqn:El; cbn [write_link write_node nodes].
    + rewrite decide_True by done. split; [done|]. simpl. apply (free_rep_frame (nodes h)); [|done].
      intros c Hc. apply Habove in Hc. rewrite decide_False; [done|lia].
    + assert (b0 < a). { apply Hpre. destruct (link_of_next pre) as (b1 & Hb1 & Hin); [by intros ->|]. congruence. }
      rewrite (decide_False (P := a = b0)), decide_True by (done || lia). split; [done|]. simpl.
      apply (free_rep_frame (nodes h)); [|done]. intros c Hc. apply Habove in Hc. rewrite !decide_False; [done|lia|lia].
Qed.

(** Blocks on either side of a freed range. *)
Lemma addrs_below pre a s :
  wf pre -> 0 < s -> apart a s pre -> Forall (fun r => r.1 <= a) pre -> forall c, c ∈ addrs pre -> c < a.
Proof.
  intros Hw Hs Hap Hle c Hc. apply list_elem_of_fmap in Hc as ([c' u] & -> & Hc). simpl.
  pose proof (proj1 (Forall_forall _ _) Hle _ Hc). pose proof (proj1 (Forall_forall _ _) Hap _ Hc).
  destruct (proj1 (Forall_forall _ _) (proj1 Hw) _ Hc) as (_ & _ & ? & _). simpl in *. lia.
Qed.

Lemma addrs_above l a s :
  wf l -> (forall r l0, l = r :: l0 -> a < r.1) -> forall c, c ∈ addrs (absorb a s l).2 -> a < c.
Proof.
  intros Hw Hab c Hc. apply list_elem_of_fmap in Hc as (x & -> & Hx). apply absorb_subset in Hx.
  destruct l as [|[b t] r]; [by apply elem_of_nil in Hx|]. specialize (Hab _ _ eq_refl). simpl in Hab.
  apply elem_of_cons in Hx as [->|Hx]; [done|]. apply wf_cons in Hw as (Hg & _ & Hgt).
  pose proof (proj1 (Forall_forall _ _) Hgt _ Hx). destruct Hg as (_ & _ & ? & _). simpl in *. lia.
Qed.

Lemma splice_rep h pre l a s :
  rep (nodes h) (head h) (pre ++ l) -> wf (pre ++ l) -> on_grid (a, s) -> apart a s (pre ++ l) ->
  Forall (fun r => r.1 <= a) pre -> (forall r l0, l = r :: l0 -> a < r.1) ->
  let h' := splice h (link_of pre) a s in
  rep (nodes h') (head h') (ins a s (pre ++ l)) /\ free h' = free h.
Proof.
  intros Hr Hw (Ha0 & _ & Hs & _) Hap Hpre Hab. simpl in Ha0, Hs.
  pose proof (rep_link _ _ _ Hr) as Hl. apply wf_app in Hw as (Hwp & Hwl & _).
  apply Forall_app in Hap as [Hapre _].
  destruct (absorb_rep h _ _ a s Hl) as [Hns Hnn]. pose proof (addrs_above l a s Hwl Hab) as Habove.
  unfold splice. fold (absorbed h (read_link h (link_of pre)) a s).
  destruct (absorbed h _ a s) as [ns nx] eqn:E. simpl in Hns, Hnn. subst ns.
  pose proof (link_here_rep h pre l a (absorb a s l).1 nx _ Hr (wf_nodup _ Hwp) Hnn
    (addrs_below pre a s Hwp Hs Hapre Hpre) Habove) as Hhere.
  set (ns := (absorb a s l).1) in *. set (nn := (absorb a s l).2) in *. cbv zeta in Hhere.
  destruct pre as [|[b t] pre0 _] using rev_ind.
  { change (link_of []) with HeadLink in *. simpl app. rewrite ins_above by done. exact Hhere. }
  rewrite link_of_snoc in *. rewrite <- app_assoc in Hr. pose proof (rep_link _ _ _ Hr) as Hlb. simpl in Hlb. destruct Hlb as (_ & Hsize & _).
  apply Forall_app in Hpre as [Hpre0 Hb]. rewrite Forall_singleton in Hb. simpl in Hb.
  apply wf_app in Hwp as (Hwp0 & _ & Hall0).
  assert (Hbelow : forall x, x ∈ pre0 -> x.1 + x.2 < b /\ 0 < x.2).
  { intros x Hx. pose proof (proj1 (Forall_forall _ _) Hall0 _ Hx) as H1. rewrite Forall_singleton in H1.
    split; [exact H1|]. apply (proj1 (Forall_forall _ _) (proj1 Hwp0) _ Hx). }
  rewrite <- app_assoc, ins_app.
  2:{ apply Forall_forall. intros x Hx. destruct (Hbelow x Hx). lia. }
  cbn [app ins]. destruct (Z.ltb_spec a b); [lia|]. rewrite Hsize. destruct (Z.eqb_spec (b + t) a) as [Hadj|Hadj].
  - cbn [write_node head free nodes]. split; [|done]. destruct (absorb a s l) as [ns' nn'].
    eapply rep_replace; [exact Hr| |].
    + intros c Hc. rewrite decide_False; [done|]. intros ->. apply list_elem_of_fmap in Hc as (x & -> & Hc).
      destruct (Hbelow x Hc). lia.
    + intros ol. simpl. intros (-> & _ & _). rewrite decide_True by done. split_and!; [done|done|]. simpl.
      apply (free_rep_frame (nodes h)); [|done]. intros c Hc. apply Habove in Hc. rewrite decide_False; [done|lia].
  - rewrite ins_above by done. rewrite <- app_assoc in Hhere. exact Hhere.
Qed.

Lemma count_loop_rep fuel h o l :
  rep (nodes h) o l -> (length l <= fuel)%nat -> count_loop fuel h o = Some (Z.of_nat (length l)).
Proof.
  revert o l. induction fuel as [|fuel IH]; intros o [|[b t] r] Hr Hf; simpl in *; subst; try done; [lia|].
  destruct Hr as (-> & _ & Hr). rewrite (IH _ r Hr) by lia. f_equal. lia.
Qed.

(** ** The heap's contract, over a free list *)

Definition holds (h : Heap) (l : list range) : Prop :=
  rep (nodes h) (head h) l /\ wf l /\ free h = total l.

Lemma holds_fuel h l : holds h l -> (length l <= walk_fuel h)%nat.
Proof.
  intros (_ & [Hg _] & Hf). apply wf_length in Hg. unfold walk_fuel, MIN_ALIGN. rewrite Hf.
  assert (Z.of_nat (length l) <= total l / 16) by (apply Z.div_le_lower_bound; lia). lia.
Qed.

Lemma block_count_holds h l : holds h l -> block_count h = Some (Z.of_nat (length l)).
Proof. intros Hh. apply count_loop_rep; [apply Hh|by apply holds_fuel]. Qed.

Definition layout_ok (lay : Layout) : Prop := 0 <= l_size lay /\ exists k, 0 <= k /\ l_align lay = 2 ^ k.

(** The alignment [alloc] gives a request. *)
Definition alignment (lay : Layout) : Z := Z.max (l_align lay) MIN_ALIGN.

Lemma alignment_spec lay : layout_ok lay -> 0 < alignment lay /\ (16 | alignment lay).
Proof.
  intros [_ (k & Hk & Ha)]. unfold alignment, MIN_ALIGN. rewrite Ha. split; [lia|].
  destruct (Z.le_gt_cases k 4) as [H|H].
  - assert (2 ^ k <= 2 ^ 4) by (apply Z.pow_le_mono_r; lia). rewrite Z.max_r by lia. by exists 1.
  - assert (2 ^ 4 <= 2 ^ k) by (apply Z.pow_le_mono_r; lia). rewrite Z.max_l by lia.
    exists (2 ^ (k - 4)). change 16 with (2 ^ 4). rewrite <- (Z.pow_add_r 2 (k - 4) 4) by lia. f_equal. lia.
Qed.

Lemma effective_size_spec lay : 0 < effective_size lay /\ effective_size lay mod 16 = 0 /\ l_size lay <= effective_size lay.
Proof.
  unfold effective_size, MIN_ALIGN. destruct (next_multiple_spec (Z.max (l_size lay) 1) 16) as [H Hm]; [lia|].
  split_and!; [lia|done|lia].
Qed.

Lemma alloc_holds h l lay :
  holds h l -> layout_ok lay ->
  exists r, alloc h lay = Some r /\
    match take_first (effective_size lay) (alignment lay) l with
    | None => r = (None, h)
    | Some (p, l') => exists h', r = (Some p, h') /\ holds h' l'
    end.
Proof.
  intros Hh Hlay. pose proof (holds_fuel _ _ Hh) as Hf. destruct Hh as (Hr & Hw & Hfree).
  destruct (effective_size_spec lay) as (Hs & Hsm & _). destruct (alignment_spec lay Hlay) as [Ha Hd].
  destruct (alloc_loop_rep (walk_fuel h) h [] l _ (alignment lay) Hr Hw Hs Ha Hf) as (r & He & Hm).
  exists r. split; [exact He|]. destruct (take_first _ _ l) as [[p l']|] eqn:Ht; [|done].
  destruct Hm as (h' & -> & Hr' & Hf'). exists h'. split; [done|].
  destruct (take_first_Some _ _ _ _ _ Hw Hs Hsm Ha Hd Ht) as (Hw' & Htot & _). split_and!; [done|done|lia].
Qed.

Lemma insert_holds h l a s :
  holds h l -> on_grid (a, s) -> apart a s l ->
  exists h', insert_free h a s = Some h' /\ holds h' (ins a s l).
Proof.
  intros Hh Hg Hap. pose proof Hh as (Hr & Hw & Hfree). unfold insert_free.
  set (h1 := set_free h (free h + s)). pose proof Hg as (_ & _ & Hs & _). simpl in Hs.
  assert (Hlen : (length l <= walk_fuel h1)%nat).
  { pose proof (holds_fuel _ _ Hh). unfold walk_fuel in *. simpl.
    assert (free h / MIN_ALIGN <= (free h + s) / MIN_ALIGN) by (apply Z.div_le_mono; unfold MIN_ALIGN; lia). lia. }
  destruct (find_loop_rep (walk_fuel h1) h1 [] l a Hr (List.Forall_nil _) Hlen) as (pre & l' & Hfind & Hl & Hpre & Hab).
  simpl in Hl. rewrite Hl in *. change HeadLink with (link_of []). rewrite Hfind. eexists. split; [done|].
  destruct (splice_rep h1 pre l' a s Hr Hw Hg Hap Hpre Hab) as [Hrep Hf].
  destruct (ins_spec a s (pre ++ l') Hw Hg Hap) as (Hw' & Htot & _).
  split_and!; [done|done|]. rewrite Hf, Htot. simpl. lia.
Qed.

(** ** The heap in use *)

Record System := MkSystem { heap : Heap; donated : list range; live : list (Z * Layout) }.

(** The bytes an allocation owns. *)
Definition span (a : Z * Layout) : range := (a.1, effective_size a.2).

(** A caller donates fresh regions, allocates, frees what it holds, and
    writes anything into the memory it holds. *)
Inductive step : System -> System -> Prop :=
  | step_donate st a s h' :
      0 < a -> a mod 16 = 0 -> 0 <= s -> s mod 16 = 0 ->
      (forall x, within x (a, s) -> cover x (donated st) = 0%nat) ->
      add_region (heap st) a s = Some h' -> step st (MkSystem h' ((a, s) :: donated st) (live st))
  | step_alloc st lay p h' :
      layout_ok lay -> alloc (heap st) lay = Some (Some p, h') ->
      step st (MkSystem h' (donated st) ((p, lay) :: live st))
  | step_refused st lay h' :
      layout_ok lay -> alloc (heap st) lay = Some (None, h') -> step st (MkSystem h' (donated st) (live st))
  | step_free st i p lay h' :
      live st !! i = Some (p, lay) -> dealloc (heap st) p lay = Some h' ->
      step st (MkSystem h' (donated st) (delete i (live st)))
  | step_write st m' :
      (forall b, Forall (fun a => ~ within b (span a)) (live st) -> m' b = nodes (heap st) b) ->
      step st (MkSystem (MkHeap (head (heap st)) (free (heap st)) m') (donated st) (live st)).

Definition reachable (st : System) : Prop := exists m, rtc step (MkSystem (new m) [] []) st.

Definition owned (st : System) : list range := span <$> live st.

Definition inv_with (st : System) (l : list range) : Prop :=
  holds (heap st) l /\
  (forall x, (cover x l + cover x (owned st) = cover x (donated st))%nat /\ (cover x (donated st) <= 1)%nat) /\
  total (donated st) = total l + total (owned st) /\
  Forall (fun a => on_grid (span a) /\ a.1 mod alignment a.2 = 0) (live st).

Lemma cover_owned_delete x l i a :
  l !! i = Some a -> cover x (span <$> l) = (b2n (within x (span a)) + cover x (span <$> delete i l))%nat.
Proof.
  revert i. induction l as [|b l IH]; intros [|i] Hi; try done.
  - injection Hi as ->. by rewrite fmap_cons, cover_cons.
  - change (delete (S i) (b :: l)) with (b :: delete i l). rewrite !fmap_cons, !cover_cons, (IH i Hi). lia.
Qed.

Lemma total_owned_delete l i a :
  l !! i = Some a -> total (span <$> l) = (span a).2 + total (span <$> delete i l).
Proof.
  revert i. induction l as [|b l IH]; intros [|i] Hi; try done.
  - by injection Hi as ->.
  - change (delete (S i) (b :: l)) with (b :: delete i l). rewrite !fmap_cons. cbn [total foldr].
    fold (total (span <$> l)) (total (span <$> delete i l)). rewrite (IH i Hi). lia.
Qed.

Lemma within_b2n x r : within x r -> b2n (within x r) = 1%nat.
Proof. intros H. unfold b2n. by rewrite decide_True. Qed.

(** An allocation's range overlaps no free block. *)
Lemma owned_apart st l i a :
  inv_with st l -> live st !! i = Some a -> on_grid (span a) /\ apart (span a).1 (span a).2 l.
Proof.
  intros (Hh & Hcov & _ & Hlive) Hi. destruct (proj1 (Forall_lookup _ _) Hlive _ _ Hi) as [Hg _].
  split; [done|]. destruct Hh as (_ & [Hgl _] & _). apply cover_apart; [done|apply Hg|].
  intros x Hx. destruct (Hcov x) as [Hc Hd]. unfold owned in Hc.
  rewrite (cover_owned_delete _ _ _ _ Hi), (within_b2n x (span a)) in Hc by done. lia.
Qed.

Lemma dealloc_holds st l i p lay :
  inv_with st l -> live st !! i = Some (p, lay) ->
  exists h', dealloc (heap st) p lay = Some h' /\ holds h' (ins p (effective_size lay) l).
Proof.
  intros Hinv Hi. destruct (owned_apart _ _ _ _ Hinv Hi) as [Hg Hap].
  apply insert_holds; [apply Hinv|exact Hg|exact Hap].
Qed.

Lemma heap_step_inv st st' : step st st' -> (exists l, inv_with st l) -> exists l, inv_with st' l.
Proof.
  intros Hs [l Hinv]. pose proof Hinv as (Hh & Hcov & Htot & Hlive).
  destruct Hs as [st a s h' Ha Ham Hs Hsm Hfresh Hadd|st lay p h' Hlay Hal|st lay h' Hlay Hal|st i p lay h' Hi Hde|st m' Hm].
  - unfold add_region in Hadd. destruct (Z.eqb_spec s 0) as [->|Hs0].
    + injection Hadd as <-. exists l. split_and!; [done| |cbn [donated]; rewrite total_cons; exact Htot|done].
      intros x. cbn [donated]. rewrite cover_cons, b2n_empty by lia. apply Hcov.
    + assert (Hg : on_grid (a, s)) by (unfold on_grid; simpl; split_and!; (done || lia)).
      assert (Hap : apart a s l).
      { apply cover_apart; [apply Hh|lia|]. intros x Hx. specialize (Hfresh x Hx). destruct (Hcov x). lia. }
      destruct (insert_holds _ _ _ _ Hh Hg Hap) as (h2 & Hins & Hh2). rewrite Hins in Hadd. injection Hadd as <-.
      destruct (ins_spec a s l (proj1 (proj2 Hh)) Hg Hap) as (_ & Ht & Hc & _). exists (ins a s l).
      split_and!; [done| |cbn [donated]; rewrite total_cons, Ht, Htot; unfold owned; cbn [live snd]; lia|done].
      intros x. cbn [donated]. rewrite cover_cons, Hc. unfold owned. cbn [live]. destruct (Hcov x) as [Hx Hx1].
      unfold owned in Hx. split; [lia|]. unfold b2n. case_decide as Hw; [rewrite (Hfresh x Hw); lia|lia].
  - destruct (alloc_holds _ _ _ Hh Hlay) as (r & Hr & Hm). rewrite Hal in Hr. injection Hr as <-.
    destruct (take_first _ _ l) as [[q l']|] eqn:Ht; [|done]. destruct Hm as (h2 & [= <- <-] & Hh2).
    destruct (effective_size_spec lay) as (Hs & Hsm & _). destruct (alignment_spec lay Hlay) as [Ha Hd].
    destruct (take_first_Some _ _ _ _ _ (proj1 (proj2 Hh)) Hs Hsm Ha Hd Ht) as (_ & Htl & Hg & Hpm & Hc & _).
    exists l'. split_and!; [done| | |by apply List.Forall_cons].
    + intros x. unfold owned. cbn [live donated]. rewrite fmap_cons, cover_cons. destruct (Hcov x) as [Hx Hx1].
      rewrite Hc in Hx. unfold owned in Hx.
      change (span (p, lay)) with (p, effective_size lay). lia.
    + unfold owned. cbn [live donated]. rewrite fmap_cons, total_cons. unfold owned in Htot.
      unfold span at 1. cbn [fst snd]. lia.
  - destruct (alloc_holds _ _ _ Hh Hlay) as (r & Hr & Hm). rewrite Hal in Hr. injection Hr as <-.
    destruct (take_first _ _ l) as [[q l']|]; [by destruct Hm as (? & ? & _)|]. injection Hm as ->. by exists l.
  - destruct (dealloc_holds _ _ _ _ _ Hinv Hi) as (h2 & Hins & Hh2). rewrite Hins in Hde. injection Hde as <-.
    destruct (owned_apart _ _ _ _ Hinv Hi) as [Hg Hap].
    destruct (ins_spec _ _ l (proj1 (proj2 Hh)) Hg Hap) as (_ & Ht & Hc & _). exists (ins p (effective_size lay) l).
    split_and!; [done| | |by apply Forall_delete].
    + intros x. unfold owned. cbn [live donated]. destruct (Hcov x) as [Hx Hx1]. unfold owned in Hx.
      rewrite (cover_owned_delete _ _ _ _ Hi) in Hx. rewrite Hc.
      change (span (p, lay)) with (p, effective_size lay) in *. cbn [fst snd] in *. lia.
    + unfold owned. cbn [live donated]. unfold owned in Htot. rewrite (total_owned_delete _ _ _ Hi) in Htot.
      change (span (p, lay)) with (p, effective_size lay) in *. cbn [fst snd] in *. lia.
  - exists l. split_and!; [|done|done|done]. destruct Hh as (Hr & Hw & Hf). split_and!; [|done|done].
    cbn [heap nodes head]. apply (free_rep_frame (nodes (heap st))); [|done]. intros b Hb.
    apply list_elem_of_fmap in Hb as ([b' t] & -> & Hb). apply Hm.
    pose proof (proj1 (Forall_forall _ _) (proj1 Hw) _ Hb) as (_ & _ & Ht & _).
    assert (Hw1 : (1 <= cover b' l)%nat) by (apply (cover_pos _ _ _ Hb); unfold within; simpl in *; lia).
    destruct (Hcov b') as [Hx Hx1]. assert (Hz : cover b' (owned st) = 0%nat) by lia.
    apply cover_zero in Hz. unfold owned in Hz. by rewrite Forall_fmap in Hz.
Qed.

Lemma heap_reachable_inv st : reachable st -> exists l, inv_with st l.
Proof.
  intros [m Hr]. refine (rtc_ind_r (fun st => exists l, inv_with st l) _ _ _ st Hr).
  - exists []. split_and!; [split; [done|split; [|done]]; split; [apply List.Forall_nil|done]| |done|apply List.Forall_nil].
    intros x. cbn. lia.
  - intros y z _ Hs IH. by eapply heap_step_inv.
Qed.

(** C29: Along every sequence of donations, allocations, frees and writes into
    held memory, no byte belongs to two allocations, every byte of an
    allocation was donated, every allocation is aligned as asked and at least
    as long, the free count is exact, and allocating and freeing always
    return. *)
Theorem heap_hands_out_disjoint_memory st :
  reachable st ->
  (forall x, (cover x (owned st) <= cover x (donated st) <= 1)%nat) /\
  Forall (fun a => a.1 mod alignment a.2 = 0 /\ l_size a.2 <= (span a).2) (live st) /\
  free_bytes (heap st) + total (owned st) = total (donated st) /\
  (forall lay, layout_ok lay -> is_Some (alloc (heap st) lay)) /\
  (forall i p lay, live st !! i = Some (p, lay) -> is_Some (dealloc (heap st) p lay)).
Proof.
  intros Hr. destruct (heap_reachable_inv st Hr) as [l Hinv]. pose proof Hinv as (Hh & Hcov & Htot & Hlive).
  split_and!.
  - intros x. destruct (Hcov x). lia.
  - eapply Forall_impl; [exact Hlive|]. intros [p lay] [_ Hp]. split; [done|]. apply effective_size_spec.
  - unfold free_bytes. destruct Hh as (_ & _ & ->). lia.
  - intros lay Hlay. destruct (alloc_holds _ _ _ Hh Hlay) as (r & -> & _). by eexists.
  - intros i p lay Hi. destruct (dealloc_holds _ _ _ _ _ Hinv Hi) as (h' & -> & _). by eexists.
Qed.

(** Two blocks of a coalesced list are the same or stand apart. *)
Lemma wf_pair l b t c u : wf l -> (b, t) ∈ l -> (c, u) ∈ l -> b = c /\ t = u \/ b + t < c \/ c + u < b.
Proof.
  induction l as [|[d v] l IH]; intros Hw Hb Hc; [by apply elem_of_nil in Hb|].
  apply wf_cons in Hw as (_ & Hw & Hab).
  apply elem_of_cons in Hb as [[= -> ->]|Hb]; apply elem_of_cons in Hc as [[= -> ->]|Hc].
  - by left.
  - right. left. exact (proj1 (Forall_forall _ _) Hab _ Hc).
  - right. right. exact (proj1 (Forall_forall _ _) Hab _ Hb).
  - by apply IH.
Qed.

Lemma cover_elem x l : (1 <= cover x l)%nat -> exists r, r ∈ l /\ within x r.
Proof.
  unfold cover. destruct (filter (within x) l) as [|r r'] eqn:E; simpl; [lia|]. intros _.
  assert (Hr : r ∈ filter (within x) l) by (rewrite E; by left). apply list_elem_of_filter in Hr as [? ?]. by exists r.
Qed.

Lemma next_multiple_least b n p : 0 < n -> b <= p -> p mod n = 0 -> next_multiple_of b n <= p.
Proof.
  intros Hn Hb Hp. apply Z.mod_divide in Hp as [k ->]; [|lia]. destruct (next_multiple_spec b n Hn) as [H Hm].
  apply Z.mod_divide in Hm as [j Hj]; [|lia]. assert (j <= k); [|nia]. assert (j * n < (k + 1) * n) by lia. nia.
Qed.

(** [alloc] refuses a request only when no suitably aligned run of free
    bytes is long enough, because the free list is always fully coalesced:
    [block_count] is the number of its blocks, which are sorted, separated by
    gaps and cover exactly the donated bytes no allocation holds. *)
Theorem alloc_refuses_only_when_nothing_fits st :
  reachable st ->
  (exists l, block_count (heap st) = Some (Z.of_nat (length l)) /\ gapped l /\
     forall x, cover x l = (cover x (donated st) - cover x (owned st))%nat) /\
  forall lay h', layout_ok lay -> alloc (heap st) lay = Some (None, h') ->
    h' = heap st /\
    forall p, p mod alignment lay = 0 ->
      ~ forall x, within x (p, effective_size lay) -> cover x (donated st) = 1%nat /\ cover x (owned st) = 0%nat.
Proof.
  intros Hr. destruct (heap_reachable_inv st Hr) as [l Hinv]. pose proof Hinv as (Hh & Hcov & Htot & Hlive).
  pose proof Hh as (_ & Hw & _). split.
  { exists l. split_and!; [by apply block_count_holds|apply Hw|]. intros x. destruct (Hcov x). lia. }
  intros lay h' Hlay Hal. destruct (alloc_holds _ _ _ Hh Hlay) as (r & He & Hm). rewrite Hal in He. injection He as <-.
  destruct (take_first _ _ l) as [[q l']|] eqn:Ht; [by destruct Hm as (? & ? & _)|]. injection Hm as ->.
  split; [done|]. intros p Hp Hall. destruct (effective_size_spec lay) as (Hs & _). set (s := effective_size lay) in *.
  destruct (alignment_spec lay Hlay) as [Ha _].
  assert (Hin : forall x, p <= x < p + s -> exists b t, (b, t) ∈ l /\ b <= x < b + t).
  { intros x Hx. destruct (Hall x Hx) as [Hd Ho]. destruct (Hcov x) as [Hc _].
    destruct (cover_elem x l) as ([b t] & Hbl & Hbw); [lia|]. by exists b, t. }
  destruct (Hin p ltac:(lia)) as (b & t & Hb & Hpb).
  pose proof (take_first_None _ _ _ _ _ Ht Hb) as Hno. fold s in Hno.
  pose proof (next_multiple_least b _ p Ha ltac:(lia) Hp) as Hle.
  destruct (Hin (b + t) ltac:(lia)) as (c & u & Hc & Hcx).
  destruct (proj1 (Forall_forall _ _) (proj1 Hw) _ Hc) as (_ & _ & Hu & _). simpl in Hu.
  destruct (wf_pair _ _ _ _ _ Hw Hb Hc) as [[-> ->]|[?|?]]; lia.
Qed.

(** ** Witnesses *)

Definition demo_heap0 : Heap := new (fun _ => MkBlock 0 None).
Definition demo_heap1 : Heap := default demo_heap0 (add_region demo_heap0 0x1000 4096).
Definition demo_layout : Layout := MkLayout 100 64.
Definition demo_heap2 : Heap := (default (None, demo_heap1) (alloc demo_heap1 demo_layout)).2.

Definition demo_system : System := MkSystem demo_heap2 [(0x1000, 4096)] [(0x1000, demo_layout)].

Lemma demo_system_reachable : reachable demo_system.
Proof.
  exists (fun _ => MkBlock 0 None). eapply rtc_l; [|eapply rtc_once].
  - apply (step_donate (MkSystem demo_heap0 [] []) 0x1000 4096 demo_heap1); (done || lia || vm_compute; reflexivity).
  - apply (step_alloc (MkSystem demo_heap1 [(0x1000, 4096)] []) demo_layout 0x1000 demo_heap2).
    + split; [done|]. exists 6. split; [lia|reflexivity].
    + vm_compute. reflexivity.
Qed.

Lemma heap_hands_out_disjoint_memory_witness : free_bytes demo_heap2 + 112 = 4096.
Proof.
  destruct (heap_hands_out_disjoint_memory demo_system demo_system_reachable) as (_ & _ & H & _). exact H.
Defined.

Lemma alloc_refuses_only_when_nothing_fits_witness :
  exists l, block_count demo_heap2 = Some (Z.of_nat (length l)) /\ gapped l /\
    forall x, cover x l = (cover x [(0x1000, 4096)%Z] - cover x [(0x1000, 112)%Z])%nat.
Proof. exact (proj1 (alloc_refuses_only_when_nothing_fits demo_system demo_system_reachable)). Defined.
End UserHeap.
