(* ===== verification/Elf.v ===== *)
(** * The ELF loader's front half (crates/elf/src/lib.rs)

    An image is a list of bytes nobody has checked. Every index and slice of
    it can panic, and so can the unchecked additions, so the parser runs in
    [run]; [usize] is 64 bits wide. *)

From S2P Require Import Prelude.
Local Open Scope Z_scope.

Module Elf.

(** A fallible computation that may also panic, and Rust's [?] in it. *)
Definition try {E A B} (r : run (result E A)) (f : A -> run (result E B)) : run (result E B) :=
  match r with Done (Ok a) => f a | Done (Err e) => Done (Err e) | Panicked => Panicked end.

Notation "x ←? m ; f" := (try m (fun x => f)) (at level 20, m at level 100, f at level 200, only parsing).

Definition MAGIC : list Z := [0x7f; 0x45; 0x4c; 0x46].
Definition ELFCLASS64 : Z := 2.
Definition ELFDATA2LSB : Z := 1.
Definition EV_CURRENT : Z := 1.
Definition ET_EXEC : Z := 2.
Definition ET_DYN : Z := 3.
Definition EM_AARCH64 : Z := 183.
Definition EM_RISCV : Z := 243.
Definition EM_X86_64 : Z := 62.
Definition PT_LOAD : Z := 1.
Definition PF_X : Z := 1.
Definition PF_W : Z := 2.
Definition PF_R : Z := 4.
Definition EHDR_SIZE : Z := 64.
Definition PHDR_SIZE : Z := 56.
Definition MAX_PHNUM : Z := 64.

(** The build's target, which fixes the machine it accepts. *)
Inductive Target := Aarch64 | Riscv64 | X86_64.

Definition EXPECTED_MACHINE (t : Target) : Z :=
  match t with Riscv64 => EM_RISCV | X86_64 => EM_X86_64 | Aarch64 => EM_AARCH64 end.

Inductive Error :=
  | TooSmall | BadMagic | Not64Bit | NotLittleEndian | BadVersion | WrongMachine | NeedsRelocation
  | NotExecutable | BadProgramHeaders | SegmentOutOfBounds | SegmentTruncated | WritableAndExecutable
  | SegmentUnreachable | SegmentsOverlap | EntryNotExecutable | AddressOverflow | TooManyProgramHeaders.

Record Segment := MkSegment { vaddr : Z; paddr : Z; memsz : Z; flags : Z; data : list Z }.

Definition is_readable (s : Segment) : bool := negb (Z.land (flags s) PF_R =? 0).
Definition is_writable (s : Segment) : bool := negb (Z.land (flags s) PF_W =? 0).
Definition is_executable (s : Segment) : bool := negb (Z.land (flags s) PF_X =? 0).

Definition page_range (s : Segment) (page_size : Z) : Z * Z :=
  let start := Z.land (vaddr s) (not_w 64 (page_size - 1)) in
  let endp := saturating_mul 64 (div_ceil (saturating_add 64 (vaddr s) (memsz s)) page_size) page_size in
  (start, endp).

(** ** Bytes *)

Definition len (b : list Z) : Z := Z.of_nat (length b).

(** [b[i]] and [b[a..e]]. *)
Definition byte_at (b : list Z) (i : Z) : run Z :=
  match b !! Z.to_nat i with Some x => Done x | None => Panicked end.
Definition slice (b : list Z) (a e : Z) : run (list Z) :=
  if (a <=? e) && (e <=? len b) then Done (take (Z.to_nat (e - a)) (drop (Z.to_nat a) b)) else Panicked.

Definition u16le (b : list Z) (at_ : Z) : run Z :=
  x0 ← byte_at b at_; x1 ← byte_at b (at_ + 1); Done (from_le_bytes [x0; x1]).
Definition u32le (b : list Z) (at_ : Z) : run Z :=
  x0 ← byte_at b at_; x1 ← byte_at b (at_ + 1); x2 ← byte_at b (at_ + 2); x3 ← byte_at b (at_ + 3);
  Done (from_le_bytes [x0; x1; x2; x3]).
Definition u64le (b : list Z) (at_ : Z) : run Z :=
  v ← slice b at_ (at_ + 8); Done (from_le_bytes v).

(** An unchecked addition or multiplication panics on overflow. *)
Definition plain_add (x y : Z) : run Z :=
  match checked_add 64 x y with Some z => Done z | None => Panicked end.
Definition plain_mul (x y : Z) : run Z :=
  match checked_mul 64 x y with Some z => Done z | None => Panicked end.

(** ** The parser *)

Definition check_segment_bounds (file_len p_offset filesz vaddr memsz : Z) : result Error Z :=
  if memsz <? filesz then Err SegmentTruncated
  else match checked_add 64 p_offset filesz with
  | None => Err SegmentOutOfBounds
  | Some endp =>
      if file_len <? endp then Err SegmentOutOfBounds
      else match checked_add 64 vaddr memsz with
      | None => Err AddressOverflow
      | Some _ => Ok endp
      end
  end.

Record Elf := MkElf { bytes : list Z; entry : Z; phoff : Z; phnum : Z; phentsize : Z }.

Definition segment_at (elf : Elf) (i : Z) : run (result Error (option Segment)) :=
  step ← plain_mul i (phentsize elf);
  off ← plain_add (phoff elf) step;
  endh ← plain_add off PHDR_SIZE;
  ph ← slice (bytes elf) off endh;
  p_type ← u32le ph 0;
  if negb (p_type =? PT_LOAD) then Done (Ok None)
  else
    flags ← u32le ph 4;
    p_offset ← u64le ph 8;
    vaddr ← u64le ph 16;
    paddr ← u64le ph 24;
    filesz ← u64le ph 32;
    memsz ← u64le ph 40;
    match check_segment_bounds (len (bytes elf)) p_offset filesz vaddr memsz with
    | Err e => Done (Err e)
    | Ok endp => data ← slice (bytes elf) p_offset endp; Done (Ok (Some (MkSegment vaddr paddr memsz flags data)))
    end.

(** The inner loop: does [seg] share a page with an earlier segment? *)
Fixpoint overlap_loop (elf : Elf) (seg : Segment) (js : list nat) : run (result Error unit) :=
  match js with
  | [] => Done (Ok tt)
  | j :: js' =>
      o ←? segment_at elf (Z.of_nat j);
      match o with
      | None => overlap_loop elf seg js'
      | Some other =>
          let '(a0, a1) := page_range seg 4096 in
          let '(b0, b1) := page_range other 4096 in
          if (a0 <? b1) && (b0 <? a1) then Done (Err SegmentsOverlap) else overlap_loop elf seg js'
      end
  end.

(** Whether the entry point is in the segment; the sum is only formed where
    the code forms it. *)
Definition entry_in (elf : Elf) (seg : Segment) : run bool :=
  if is_executable seg && (vaddr seg <=? entry elf)
  then limit ← plain_add (vaddr seg) (memsz seg); Done (entry elf <? limit)
  else Done false.

Fixpoint validate_loop (elf : Elf) (ns : list nat) (entry_ok : bool) : run (result Error bool) :=
  match ns with
  | [] => Done (Ok entry_ok)
  | i :: ns' =>
      o ←? segment_at elf (Z.of_nat i);
      match o with
      | None => validate_loop elf ns' entry_ok
      | Some seg =>
          if is_writable seg && is_executable seg then Done (Err WritableAndExecutable)
          else if negb (is_readable seg) && negb (is_executable seg) then Done (Err SegmentUnreachable)
          else
            here ← entry_in elf seg;
            _ ←? overlap_loop elf seg (seq 0 i);
            validate_loop elf ns' (entry_ok || here)
      end
  end.

Definition validate (elf : Elf) : run (result Error unit) :=
  entry_ok ←? validate_loop elf (seq 0 (Z.to_nat (phnum elf))) false;
  if negb entry_ok then Done (Err EntryNotExecutable) else Done (Ok tt).

Definition parse (t : Target) (b : list Z) : run (result Error Elf) :=
  if len b <? EHDR_SIZE then Done (Err TooSmall)
  else
    magic ← slice b 0 4;
    if negb (bool_decide (magic = MAGIC)) then Done (Err BadMagic) else
    b4 ← byte_at b 4;
    if negb (b4 =? ELFCLASS64) then Done (Err Not64Bit) else
    b5 ← byte_at b 5;
    if negb (b5 =? ELFDATA2LSB) then Done (Err NotLittleEndian) else
    b6 ← byte_at b 6;
    if negb (b6 =? EV_CURRENT) then Done (Err BadVersion) else
    e_type ← u16le b 16;
    e_machine ← u16le b 18;
    if negb (e_machine =? EXPECTED_MACHINE t) then Done (Err WrongMachine)
    else if e_type =? ET_DYN then Done (Err NeedsRelocation)
    else if negb (e_type =? ET_EXEC) then Done (Err NotExecutable)
    else
      entry ← u64le b 24;
      phoff ← u64le b 32;
      phentsize ← u16le b 54;
      phnum ← u16le b 56;
      if phentsize <? PHDR_SIZE then Done (Err BadProgramHeaders)
      else if MAX_PHNUM <? phnum then Done (Err TooManyProgramHeaders)
      else match checked_mul 64 phnum phentsize with
      | None => Done (Err BadProgramHeaders)
      | Some table_len =>
          match checked_add 64 phoff table_len with
          | None => Done (Err BadProgramHeaders)
          | Some table_end =>
              if len b <? table_end then Done (Err BadProgramHeaders)
              else
                let elf := MkElf b entry phoff phnum phentsize in
                _ ←? validate elf;
                Done (Ok elf)
          end
      end.

(** [segments]: the loadable segments, errors skipped. *)
Fixpoint segments_of (elf : Elf) (ns : list nat) : run (list Segment) :=
  match ns with
  | [] => Done []
  | i :: ns' =>
      r ← segment_at elf (Z.of_nat i);
      rest ← segments_of elf ns';
      match r with Ok (Some seg) => Done (seg :: rest) | _ => Done rest end
  end.

Definition segments (elf : Elf) : run (list Segment) := segments_of elf (seq 0 (Z.to_nat (phnum elf))).

(** ** Reading bytes *)

Lemma slice_done b a e :
  0 <= a <= e -> e <= len b -> slice b a e = Done (take (Z.to_nat (e - a)) (drop (Z.to_nat a) b)).
Proof.
  intros Ha He. unfold slice. destruct (Z.leb_spec a e), (Z.leb_spec e (len b)); (done || lia).
Qed.

Lemma slice_bytes b a e : bytes_ok b -> bytes_ok (take (Z.to_nat (e - a)) (drop (Z.to_nat a) b)).
Proof. intros Hb. by apply Forall_take, Forall_drop. Qed.

Lemma slice_len b a e :
  0 <= a <= e -> e <= len b -> len (take (Z.to_nat (e - a)) (drop (Z.to_nat a) b)) = e - a.
Proof. unfold len. rewrite length_take, length_drop. lia. Qed.

Section reads.
Context (b : list Z) (Hb : bytes_ok b).

Lemma byte_at_done i : 0 <= i < len b -> exists x, byte_at b i = Done x /\ 0 <= x < 256.
Proof using Hb.
  intros Hi. unfold byte_at, len in *. destruct (lookup_lt_is_Some_2 b (Z.to_nat i)) as [x Hx]; [lia|].
  rewrite Hx. exists x. split; [done|]. exact (proj1 (Forall_lookup _ _) Hb _ _ Hx).
Qed.

Lemma u16le_done i : 0 <= i -> i + 2 <= len b -> exists x, u16le b i = Done x /\ 0 <= x < 2 ^ 16.
Proof using Hb.
  intros H0 H1. unfold u16le. destruct (byte_at_done i) as (x0 & -> & ?); [lia|]. cbn [mbind run_bind].
  destruct (byte_at_done (i + 1)) as (x1 & -> & ?); [lia|]. cbn [mbind run_bind]. eexists. split; [done|]. cbn [from_le_bytes foldr]. lia.
Qed.

Lemma u32le_done i : 0 <= i -> i + 4 <= len b -> exists x, u32le b i = Done x /\ 0 <= x < 2 ^ 32.
Proof using Hb.
  intros H0 H1. unfold u32le. destruct (byte_at_done i) as (x0 & -> & ?); [lia|]. cbn [mbind run_bind].
  destruct (byte_at_done (i + 1)) as (x1 & -> & ?); [lia|]. cbn [mbind run_bind]. destruct (byte_at_done (i + 2)) as (x2 & -> & ?); [lia|]. cbn [mbind run_bind].
  destruct (byte_at_done (i + 3)) as (x3 & -> & ?); [lia|]. cbn [mbind run_bind]. eexists. split; [done|]. cbn [from_le_bytes foldr]. lia.
Qed.

Lemma u64le_done i : 0 <= i -> i + 8 <= len b -> exists x, u64le b i = Done x /\ 0 <= x < 2 ^ 64.
Proof using Hb.
  intros H0 H1. unfold u64le. rewrite slice_done by lia. eexists. split; [done|].
  pose proof (slice_len b i (i + 8) ltac:(lia) H1) as Hl.
  pose proof (from_le_range _ (slice_bytes b i (i + 8) Hb)) as Hr. unfold len in Hl. rewrite Hl in Hr.
  replace (256 ^ (i + 8 - i)) with (2 ^ 64) in Hr by (replace (i + 8 - i) with 8 by lia; reflexivity). exact Hr.
Qed.
End reads.

(** ** Segments *)

(** A header table that lies inside the image. *)
Definition headers_ok (elf : Elf) : Prop :=
  bytes_ok (bytes elf) /\ len (bytes elf) < 2 ^ 63 /\ PHDR_SIZE <= phentsize elf < 2 ^ 16 /\
  0 <= phnum elf <= MAX_PHNUM /\ 0 <= phoff elf /\ phoff elf + phnum elf * phentsize elf <= len (bytes elf).

(** A segment whose file bytes are a run of the image and fit its memory,
    which does not wrap. *)
Definition seg_ok (elf : Elf) (s : Segment) : Prop :=
  0 <= vaddr s /\ 0 <= memsz s /\ vaddr s + memsz s < 2 ^ 64 /\ len (data s) <= memsz s /\
  exists pre post, bytes elf = pre ++ data s ++ post.

Lemma slice_infix (b : list Z) a e :
  exists pre post, b = pre ++ take (Z.to_nat (e - a)) (drop (Z.to_nat a) b) ++ post.
Proof.
  exists (take (Z.to_nat a) b), (drop (Z.to_nat (e - a)) (drop (Z.to_nat a) b)). by rewrite !take_drop.
Qed.

Lemma segment_at_done elf i :
  headers_ok elf -> 0 <= i < phnum elf ->
  exists r, segment_at elf i = Done r /\ forall s, r = Ok (Some s) -> seg_ok elf s.
Proof.
  intros (Hb & Hl & Hpe & Hpn & Hpo & Htab) Hi. unfold PHDR_SIZE, MAX_PHNUM in *.
  assert (Hoff : i * phentsize elf + phentsize elf <= phnum elf * phentsize elf) by nia.
  assert (Hmul : 0 <= i * phentsize elf) by nia.
  unfold segment_at, plain_mul, plain_add, checked_mul, checked_add, PHDR_SIZE.
  rewrite decide_True by lia. cbn [mbind run_bind]. rewrite decide_True by lia. cbn [mbind run_bind].
  rewrite decide_True by lia. cbn [mbind run_bind].
  set (off := phoff elf + i * phentsize elf) in *. rewrite slice_done by lia. cbn [mbind run_bind].
  set (ph := take _ _). assert (Hph : bytes_ok ph) by (by apply slice_bytes).
  assert (Hphl : len ph = 56) by (unfold ph; rewrite slice_len by lia; lia).
  destruct (u32le_done ph Hph 0) as (ty & -> & _); [lia..|]. cbn [mbind run_bind].
  destruct (negb _); [by eexists|].
  destruct (u32le_done ph Hph 4) as (fl & -> & _); [lia..|]. cbn [mbind run_bind].
  destruct (u64le_done ph Hph 8) as (po & -> & Hpor); [lia..|]. cbn [mbind run_bind].
  destruct (u64le_done ph Hph 16) as (va & -> & Hva); [lia..|]. cbn [mbind run_bind].
  destruct (u64le_done ph Hph 24) as (pa & -> & _); [lia..|]. cbn [mbind run_bind].
  destruct (u64le_done ph Hph 32) as (fs & -> & Hfs); [lia..|]. cbn [mbind run_bind].
  destruct (u64le_done ph Hph 40) as (ms & -> & Hms); [lia..|]. cbn [mbind run_bind].
  unfold check_segment_bounds, checked_add.
  destruct (Z.ltb_spec ms fs); [by eexists|]. case_decide; [|by eexists].
  destruct (Z.ltb_spec (len (bytes elf)) (po + fs)); [by eexists|]. case_decide; [|by eexists].
  rewrite slice_done by lia. cbn [mbind run_bind]. eexists. split; [done|]. intros s [= <-].
  unfold seg_ok. cbn [vaddr memsz data]. split_and!; [lia|lia|done| |apply slice_infix].
  rewrite slice_len by lia. lia.
Qed.

(** ** Pages *)

(** No address of one segment lies in a page of the other. *)
Definition page_apart (s o : Segment) : Prop :=
  forall x y, vaddr s <= x < vaddr s + memsz s -> vaddr o <= y < vaddr o + memsz o -> x / 4096 <> y / 4096.

Lemma page_start x : 0 <= x < 2 ^ 64 -> Z.land x (not_w 64 4095) = x / 4096 * 4096.
Proof.
  intros Hx. assert (H : Z.land x (not_w 64 4095) = Z.ldiff x (Z.ones 12)).
  { apply Z.bits_inj'. intros i Hi. rewrite Z.land_spec, testbit_not_w, Z.ldiff_spec by lia.
    change 4095 with (Z.ones 12). destruct (Z.ltb_spec i 64); simpl; [done|].
    rewrite (testbit_above 64 x) by (done || lia). done. }
  rewrite H, Z.ldiff_ones_r, Z.shiftl_mul_pow2, Z.shiftr_div_pow2 by lia. done.
Qed.

Lemma page_range_holds elf s x :
  seg_ok elf s -> vaddr s <= x < vaddr s + memsz s ->
  (page_range s 4096).1 <= x / 4096 * 4096 < (page_range s 4096).2.
Proof.
  intros (Hv & Hm & Hlt & _) Hx. unfold page_range. cbn [fst snd].
  change (4096 - 1) with 4095. rewrite page_start by lia. unfold saturating_add, saturating_mul, div_ceil.
  rewrite (Z.min_l (vaddr s + memsz s)) by lia. split.
  - apply Z.mul_le_mono_nonneg_r; [lia|]. apply Z.div_le_mono; lia.
  - assert (x / 4096 + 1 <= (vaddr s + memsz s + 4096 - 1) / 4096).
    { replace (x / 4096 + 1) with ((x + 1 * 4096) / 4096) by (rewrite Z.div_add by lia; lia).
      apply Z.div_le_mono; lia. }
    pose proof (Z.div_mod x 4096 ltac:(lia)). pose proof (Z.mod_pos_bound x 4096 ltac:(lia)). lia.
Qed.

Lemma ranges_apart elf s o :
  seg_ok elf s -> seg_ok elf o ->
  ((page_range s 4096).1 <? (page_range o 4096).2) && ((page_range o 4096).1 <? (page_range s 4096).2) = false ->
  page_apart s o.
Proof.
  intros Hs Ho H x y Hx Hy E. pose proof (page_range_holds _ _ _ Hs Hx) as H1.
  pose proof (page_range_holds _ _ _ Ho Hy) as H2. rewrite <- E in H2.
  apply andb_false_iff in H as [H|H]; apply Z.ltb_ge in H; lia.
Qed.

(** ** The loops *)

Section validated.
Context (elf : Elf) (Hh : headers_ok elf).

Lemma overlap_loop_done seg js :
  seg_ok elf seg -> Forall (fun j => Z.of_nat j < phnum elf) js ->
  exists r, overlap_loop elf seg js = Done r /\
    (r = Ok tt -> forall j, j ∈ js -> exists o, segment_at elf (Z.of_nat j) = Done (Ok o) /\
       forall other, o = Some other -> page_apart seg other).
Proof using Hh.
  intros Hs. induction 1 as [|j js Hj _ IH]; cbn [overlap_loop].
  { exists (Ok tt). split; [done|]. intros _ j Hj. by apply elem_of_nil in Hj. }
  destruct (segment_at_done elf (Z.of_nat j) Hh ltac:(lia)) as ([o|e] & Hr & Hok);
    rewrite Hr; cbn [try]; [|by exists (Err e)].
  destruct IH as (r & Hl & Hall).
  assert (Hcons : (forall other, o = Some other -> page_apart seg other) -> r = Ok tt ->
    forall i, i ∈ j :: js -> exists o, segment_at elf (Z.of_nat i) = Done (Ok o) /\
      forall other, o = Some other -> page_apart seg other).
  { intros Hap Hrt i Hi. apply elem_of_cons in Hi as [->|Hi]; [|by apply Hall]. by exists o. }
  destruct o as [other|]; [|exists r; split; [done|]; by apply Hcons].
  pose proof (ranges_apart elf seg other Hs (Hok _ eq_refl)) as Hap.
  destruct (page_range seg 4096) as [a0 a1], (page_range other 4096) as [b0 b1]. cbn [fst snd] in Hap.
  destruct ((a0 <? b1) && (b0 <? a1)); [by exists (Err SegmentsOverlap)|].
  exists r. split; [done|]. apply Hcons. intros x [= <-]. by apply Hap.
Qed.

Lemma entry_in_done seg :
  seg_ok elf seg ->
  exists here, entry_in elf seg = Done here /\
    (here = true -> is_executable seg = true /\ vaddr seg <= entry elf < vaddr seg + memsz seg).
Proof.
  intros (Hv & Hm & Hlt & _). unfold entry_in, plain_add, checked_add. destruct (is_executable seg); simpl andb; [|by exists false].
  destruct (Z.leb_spec (vaddr seg) (entry elf)); [|by exists false]. rewrite decide_True by done. cbn [mbind run_bind].
  eexists. split; [done|]. intros ?%Z.ltb_lt. split; [done|lia].
Qed.

(** What the parser promises of the header [i]. *)
Definition header_valid (i : nat) : Prop :=
  exists o, segment_at elf (Z.of_nat i) = Done (Ok o) /\
    forall seg, o = Some seg ->
      (is_writable seg && is_executable seg = false) /\ (is_readable seg || is_executable seg = true) /\
      forall j other, (j < i)%nat -> segment_at elf (Z.of_nat j) = Done (Ok (Some other)) -> page_apart seg other.

Lemma validate_loop_done ns entry_ok :
  Forall (fun i => Z.of_nat i < phnum elf) ns ->
  exists r, validate_loop elf ns entry_ok = Done r /\
    forall ok, r = Ok ok ->
      Forall header_valid ns /\
      (ok = true -> entry_ok = true \/ exists i seg, i ∈ ns /\ segment_at elf (Z.of_nat i) = Done (Ok (Some seg)) /\
         is_executable seg = true /\ vaddr seg <= entry elf < vaddr seg + memsz seg).
Proof using Hh.
  intros Hns. revert entry_ok. induction Hns as [|i ns Hi _ IH]; intros entry_ok; cbn [validate_loop].
  { exists (Ok entry_ok). split; [done|]. intros ok [= <-]. split; [apply List.Forall_nil|by left]. }
  destruct (segment_at_done elf (Z.of_nat i) Hh ltac:(lia)) as ([[seg|]|e] & Hr & Hok);
    rewrite Hr; cbn [try]; [| |by exists (Err e)].
  2:{ destruct (IH entry_ok) as (r & Hl & Hall). exists r. split; [done|]. intros ok Hrt.
      destruct (Hall ok Hrt) as [Hf He]. split; [apply List.Forall_cons; [by exists None|done]|]. intros Ht.
      destruct (He Ht) as [?|(k & sg & Hk & ?)]; [by left|right]. exists k, sg. split; [by right|done]. }
  destruct (is_writable seg && is_executable seg) eqn:Hwx; [by exists (Err WritableAndExecutable)|].
  destruct (negb (is_readable seg) && negb (is_executable seg)) eqn:Hrx; [by exists (Err SegmentUnreachable)|].
  pose proof (Hok _ eq_refl) as Hseg.
  destruct (entry_in_done seg Hseg) as (here & -> & Hhere). cbn [mbind run_bind].
  destruct (overlap_loop_done seg (seq 0 i) Hseg) as (ro & -> & Hov).
  { apply Forall_forall. intros j Hj. apply elem_of_seq in Hj. lia. }
  destruct ro as [[]|e]; cbn [try]; [|by exists (Err e)].
  destruct (IH (entry_ok || here)) as (r & Hl & Hall). exists r. split; [done|]. intros ok Hrt.
  destruct (Hall ok Hrt) as [Hf He]. split.
  - apply List.Forall_cons; [|done]. exists (Some seg). split; [done|]. intros s [= <-]. split_and!.
    + done.
    + by destruct (is_readable seg), (is_executable seg).
    + intros j other Hj Hsj. destruct (Hov eq_refl j) as (o & Ho & Hap); [apply elem_of_seq; lia|].
      rewrite Hsj in Ho. injection Ho as <-. by apply Hap.
  - intros Ht. destruct (He Ht) as [Hor|(k & sg & Hk & ?)]; [|right; exists k, sg; split; [by right|done]].
    apply orb_true_iff in Hor as [?|Hh1]; [by left|]. right. exists i, seg. split; [by left|]. split; [done|by apply Hhere].
Qed.

(** The segments the iterator yields, and the headers they come from. *)
Lemma segments_of_done ns :
  Forall header_valid ns -> Forall (fun i => Z.of_nat i < phnum elf) ns ->
  exists segs, segments_of elf ns = Done segs /\ Forall (seg_ok elf) segs /\
    (forall s, s ∈ segs <-> exists i, i ∈ ns /\ segment_at elf (Z.of_nat i) = Done (Ok (Some s))) /\
    (StronglySorted lt ns -> StronglySorted (fun s' s => page_apart s s') segs).
Proof using Hh.
  intros Hv Hn. induction ns as [|i ns IH]; cbn [segments_of].
  { exists []. split_and!; [done|apply List.Forall_nil| |intros _; constructor]. intros s. split.
    - intros Hx. by apply elem_of_nil in Hx.
    - intros (i & Hi & _). by apply elem_of_nil in Hi. }
  apply Forall_cons in Hv as [(o & Ho & _) Hv]. pose proof Hv as Hv'. apply Forall_cons in Hn as [Hi Hn].
  destruct (IH Hv Hn) as (segs & -> & Hok & Hmem & Hsort). rewrite Ho. cbn [mbind run_bind].
  destruct o as [seg|].
  - exists (seg :: segs). split_and!; [done| | |].
    + apply List.Forall_cons; [|done]. destruct (segment_at_done elf (Z.of_nat i) Hh ltac:(lia)) as (r & Hr & Hs).
      rewrite Ho in Hr. injection Hr as <-. by apply Hs.
    + intros s. rewrite elem_of_cons, Hmem. split.
      * intros [->|(k & Hk & ?)]; [exists i; split; [by left|done]|exists k; split; [by right|done]].
      * intros (k & Hk & Hsk). apply elem_of_cons in Hk as [->|Hk]; [left; congruence|right; by exists k].
    + intros Hss. apply StronglySorted_inv in Hss as [Hss Hlt]. constructor; [by apply Hsort|].
      apply List.Forall_forall. intros s Hs. apply list_elem_of_In, Hmem in Hs as (k & Hk & Hsk).
      pose proof (proj1 (Forall_forall _ _) Hv' _ Hk) as (o' & Ho' & Hval). rewrite Hsk in Ho'. injection Ho' as <-.
      destruct (Hval s eq_refl) as (_ & _ & Hap). apply (Hap i); [|done].
      rewrite List.Forall_forall in Hlt. apply Hlt. by apply list_elem_of_In.
  - exists segs. split_and!; [done|done| |intros Hss; apply Hsort; by apply StronglySorted_inv in Hss as [? _]].
    intros s. rewrite Hmem. split.
    + intros (k & Hk & ?). exists k. split; [by right|done].
    + intros (k & Hk & Hsk). apply elem_of_cons in Hk as [->|Hk]; [congruence|by exists k].
Qed.
End validated.

(** What a program that was accepted promises its loader. *)
Definition safe_image (b : list Z) (elf : Elf) : Prop :=
  bytes elf = b /\
  exists segs, segments elf = Done segs /\ Forall (seg_ok elf) segs /\
    Forall (fun s => is_writable s && is_executable s = false /\ is_readable s || is_executable s = true) segs /\
    StronglySorted (fun s' s => page_apart s s') segs /\
    Exists (fun s => is_executable s = true /\ vaddr s <= entry elf < vaddr s + memsz s) segs /\
    forall i, 0 <= i < phnum elf -> exists o, segment_at elf i = Done (Ok o) /\ forall s, o = Some s -> s ∈ segs.

Lemma seq_sorted n k : StronglySorted lt (seq k n).
Proof.
  revert k. induction n as [|n IH]; intros k; simpl; constructor; [apply IH|].
  apply List.Forall_forall. intros x Hx. apply list_elem_of_In, elem_of_seq in Hx. lia.
Qed.

Lemma validate_done elf :
  headers_ok elf -> exists r, validate elf = Done r /\ (r = Ok tt -> safe_image (bytes elf) elf).
Proof.
  intros Hh. set (ns := seq 0 (Z.to_nat (phnum elf))).
  assert (Hns : Forall (fun i => Z.of_nat i < phnum elf) ns).
  { apply Forall_forall. intros i Hi. apply elem_of_seq in Hi. lia. }
  unfold validate. destruct (validate_loop_done elf Hh ns false Hns) as (r & Hr & Hall). fold ns. rewrite Hr.
  destruct r as [ok|e]; cbn [try]; [|by exists (Err e)]. destruct (Hall ok eq_refl) as [Hv He].
  destruct ok; cbn [negb]; [|by exists (Err EntryNotExecutable)]. exists (Ok tt). split; [done|]. intros _.
  destruct (segments_of_done elf Hh ns Hv Hns) as (segs & Hs & Hok & Hmem & Hsort).
  split; [done|]. exists segs. split_and!; [done|done| |by apply Hsort, seq_sorted| |].
  - apply Forall_forall. intros s Hsin. apply Hmem in Hsin as (i & Hi & Hsi).
    pose proof (proj1 (Forall_forall _ _) Hv _ Hi) as (o & Ho & Hval). rewrite Hsi in Ho. injection Ho as <-.
    destruct (Hval s eq_refl) as (? & ? & _). done.
  - destruct (He eq_refl) as [?|(i & s & Hi & Hsi & Hx)]; [done|]. apply Exists_exists. exists s.
    split; [|done]. apply Hmem. by exists i.
  - intros i Hi. assert (Hin : Z.to_nat i ∈ ns) by (apply elem_of_seq; lia).
    pose proof (proj1 (Forall_forall _ _) Hv _ Hin) as (o & Ho & _). rewrite Z2Nat.id in Ho by lia.
    exists o. split; [done|]. intros s ->. apply Hmem. exists (Z.to_nat i). by rewrite Z2Nat.id by lia.
Qed.

(** ** [parse] *)

(** C24: On every image of bytes [parse] returns without panicking, and an
    image it accepts is safe to load: reading its segments does not panic
    either and drops no header; every segment's data is a run of the image no
    longer than its memory, its addresses do not wrap, it is not writable and
    executable, it is readable or executable, no two segments share a page,
    and the entry point lies in an executable segment. *)
Theorem parse_accepts_only_safe_images t b :
  bytes_ok b -> len b < 2 ^ 63 ->
  exists r, parse t b = Done r /\ forall elf, r = Ok elf -> safe_image b elf.
Proof.
  intros Hb Hl. unfold parse, EHDR_SIZE. destruct (Z.ltb_spec (len b) 64) as [|H64]; [by exists (Err TooSmall)|].
  rewrite slice_done by lia. cbn [mbind run_bind]. destruct (negb _); [by eexists|].
  destruct (byte_at_done b Hb 4) as (b4 & -> & _); [lia|]. cbn [mbind run_bind]. destruct (negb _); [by eexists|].
  destruct (byte_at_done b Hb 5) as (b5 & -> & _); [lia|]. cbn [mbind run_bind]. destruct (negb _); [by eexists|].
  destruct (byte_at_done b Hb 6) as (b6 & -> & _); [lia|]. cbn [mbind run_bind]. destruct (negb _); [by eexists|].
  destruct (u16le_done b Hb 16) as (ty & -> & _); [lia..|]. cbn [mbind run_bind].
  destruct (u16le_done b Hb 18) as (mc & -> & _); [lia..|]. cbn [mbind run_bind].
  destruct (negb (mc =? _)); [by eexists|]. destruct (ty =? ET_DYN); [by eexists|]. destruct (negb (ty =? ET_EXEC)); [by eexists|].
  destruct (u64le_done b Hb 24) as (en & -> & _); [lia..|]. cbn [mbind run_bind].
  destruct (u64le_done b Hb 32) as (po & -> & Hpo); [lia..|]. cbn [mbind run_bind].
  destruct (u16le_done b Hb 54) as (pe & -> & Hpe); [lia..|]. cbn [mbind run_bind].
  destruct (u16le_done b Hb 56) as (pn & -> & Hpn); [lia..|]. cbn [mbind run_bind].
  destruct (Z.ltb_spec pe PHDR_SIZE); [by eexists|]. destruct (Z.ltb_spec MAX_PHNUM pn); [by eexists|].
  unfold checked_mul, checked_add. case_decide; [|by eexists]. case_decide; [|by eexists].
  destruct (Z.ltb_spec (len b) (po + pn * pe)); [by eexists|].
  destruct (validate_done (MkElf b en po pn pe)) as (r & -> & Hr).
  { split_and!; cbn [bytes phentsize phnum phoff]; (done || lia). }
  destruct r as [[]|e]; cbn [try]; [|by exists (Err e)].
  eexists. split; [done|]. intros elf [= <-]. by apply Hr.
Qed.

(** A 64-byte header, one loadable read-execute header for 16 bytes at
    0x10000, and the image's own first bytes as its data. *)
Definition le (n : nat) (x : Z) : list Z := (fun i => Z.land (Z.shiftr x (8 * Z.of_nat i)) 255) <$> seq 0 n.

Definition demo_image : list Z :=
  MAGIC ++ [2; 1; 1] ++ replicate 9 0 ++ le 2 2 ++ le 2 243 ++ le 4 1 ++ le 8 0x10004 ++ le 8 64 ++ le 8 0 ++
  le 4 0 ++ le 2 64 ++ le 2 56 ++ le 2 1 ++ replicate 6 0 ++
  le 4 1 ++ le 4 5 ++ le 8 0 ++ le 8 0x10000 ++ le 8 0x10000 ++ le 8 16 ++ le 8 4096 ++ le 8 4096.

Lemma parse_accepts_only_safe_images_witness :
  exists elf, parse Riscv64 demo_image = Done (Ok elf) /\ safe_image demo_image elf.
Proof.
  destruct (parse_accepts_only_safe_images Riscv64 demo_image) as (r & Hr & Hs).
  - apply (bool_decide_unpack _). vm_compute. exact I.
  - vm_compute. reflexivity.
  - destruct r as [elf|e]; [exists elf; split; [exact Hr|by apply Hs]|].
    exfalso. apply (f_equal (fun x => match x with Done (Ok _) => true | _ => false end)) in Hr.
    vm_compute in Hr. discriminate Hr.
Defined.
End Elf.
