(* ===== verification/BootSlot.v ===== *)
(** * Boot slots (crates/boot_slot/src/lib.rs) and the loader's choice
      among them (uefi_loader/src/chooser.rs)

    A slot's state lives in seven bits of its partition's attributes. Each
    boot reads the states off the disk, picks a slot, spends a try before
    starting it and writes that back. What a slot's image does when started is
    an argument: it starts up (control does not come back), cannot be read, or
    returns. Whether the disk takes a write is an argument too. *)

From S2P Require Import Prelude.
Local Open Scope Z_scope.

Module BootSlot.

Definition PRIORITY_SHIFT : Z := 48.
Definition TRIES_SHIFT : Z := 52.
Definition SUCCESSFUL_BIT : Z := 56.
Definition MAX_NIBBLE : Z := 15.
Definition INSTALLED_PRIORITY : Z := 2.
Definition OWNED : Z :=
  Z.lor (Z.lor (Z.shiftl 0xF PRIORITY_SHIFT) (Z.shiftl 0xF TRIES_SHIFT)) (Z.shiftl 1 SUCCESSFUL_BIT).

Record State := MkState { priority : Z; tries : Z; successful : bool }.

#[export] Instance State_eq_dec : EqDecision State.
Proof. solve_decision. Defined.

Definition EMPTY : State := MkState 0 0 false.
Definition installed : State := MkState INSTALLED_PRIORITY 0 true.
Definition on_trial (p t : Z) : State :=
  MkState (if MAX_NIBBLE <? p then MAX_NIBBLE else p) (if MAX_NIBBLE <? t then MAX_NIBBLE else t) false.

Definition is_bootable (s : State) : bool := (0 <? priority s) && (successful s || (0 <? tries s)).

Definition attempted (s : State) : State :=
  if successful s || (tries s =? 0) then s else MkState (priority s) (tries s - 1) (successful s).

Definition confirmed (s : State) : State := MkState (priority s) 0 true.
Definition unreadable (s : State) : State := MkState 0 0 false.

Definition from_attributes (a : Z) : State :=
  MkState (Z.land (Z.shiftr a PRIORITY_SHIFT) 0xF) (Z.land (Z.shiftr a TRIES_SHIFT) 0xF)
    (Z.land (Z.shiftr a SUCCESSFUL_BIT) 1 =? 1).

Definition into_attributes (s : State) (previous : Z) : Z :=
  let p := Z.land (priority s) 0xF in
  let t := Z.land (tries s) 0xF in
  let ok := Z.b2z (successful s) in
  Z.lor (Z.lor (Z.lor (Z.land previous (not_w 64 OWNED)) (Z.shiftl p PRIORITY_SHIFT))
    (Z.shiftl t TRIES_SHIFT)) (Z.shiftl ok SUCCESSFUL_BIT).

(** The [filter] of [select_excluding]. *)
Definition eligible (tried : Z) (i : nat) (s : State) : bool :=
  is_bootable s && ((64 <=? i)%nat || (Z.land tried (Z.shiftl 1 (Z.of_nat i)) =? 0)).

(** [max_by_key] on the key (priority, Reverse(index)): a later element wins
    when its key is not smaller. *)
Definition key_le (i : nat) (s : State) (j : nat) (t : State) : bool :=
  (priority s <? priority t) || ((priority s =? priority t) && (j <=? i)%nat).

Fixpoint max_by_key (best : option (nat * State)) (l : list (nat * State)) : option (nat * State) :=
  match l with
  | [] => best
  | (i, s) :: l' =>
      match best with
      | None => max_by_key (Some (i, s)) l'
      | Some (j, t) => max_by_key (if key_le j t i s then Some (i, s) else best) l'
      end
  end.

Definition select_excluding (slots : list State) (tried : Z) : option nat :=
  fst <$> max_by_key None (filter (fun x => eligible tried x.1 x.2 = true) (imap pair slots)).

Definition select (slots : list State) : option nat := select_excluding slots 0.

(** ** The chooser *)

Definition MAX_SLOTS : nat := 4.

(** What starting a slot's image comes to. *)
Inductive Started := StartsUp | Unreadable | Refused.

(** [write_back] of one slot's state into the attributes on disk. *)
Definition write_back (takes : bool) (states : list State) (attrs : list Z) (slot : nat) : bool * list Z :=
  match states !! slot, attrs !! slot with
  | Some s, Some a => if takes then (true, <[slot := into_attributes s a]> attrs) else (false, attrs)
  | _, _ => (false, attrs)
  end.

(** The [while let Some(slot)] loop: the slot that started, if one did, and
    the attributes left on disk. [None] when the fuel is spent. *)
Fixpoint choose_loop (fuel : nat) (takes : bool) (start : nat -> Started) (states : list State) (attrs : list Z)
    (tried : Z) : option (option nat * list Z) :=
  match select_excluding states tried with
  | None => Some (None, attrs)
  | Some slot =>
      match fuel, states !! slot with
      | S fuel', Some st =>
          let spent := attempted st in
          let '(ok, states, attrs) :=
            if bool_decide (spent <> st) then
              let states := <[slot := spent]> states in
              let '(ok, attrs) := write_back takes states attrs slot in (ok, states, attrs)
            else (true, states, attrs) in
          if negb ok then Some (None, attrs)
          else
            let tried := Z.lor tried (Z.shiftl 1 (Z.of_nat slot)) in
            match start slot with
            | StartsUp => Some (Some slot, attrs)
            | Unreadable =>
                let states := <[slot := unreadable spent]> states in
                choose_loop fuel' takes start states (write_back takes states attrs slot).2 tried
            | Refused => choose_loop fuel' takes start states attrs tried
            end
      | _, _ => None
      end
  end.

(** One boot, from the attributes on disk. *)
Definition choose (takes : bool) (start : nat -> Started) (attrs : list Z) : option (option nat * list Z) :=
  choose_loop (length attrs) takes start (from_attributes <$> attrs) attrs 0.

(** The running system says that its slot works; a slot already confirmed is
    not written. *)
Definition confirm (attrs : list Z) (slot : nat) : list Z :=
  match attrs !! slot with
  | Some a =>
      let state := from_attributes a in
      if successful state then attrs else <[slot := into_attributes (confirmed state) a]> attrs
  | None => attrs
  end.

(** ** Attributes *)

Definition state_ok (s : State) : Prop := 0 <= priority s <= 15 /\ 0 <= tries s <= 15.

Lemma nibble_ok x : 0 <= Z.land x 0xF <= 15.
Proof. change (Z.land x 0xF) with (Z.land x (Z.ones 4)). rewrite Z.land_ones by lia. pose proof (Z.mod_pos_bound x (2 ^ 4) ltac:(lia)). lia. Qed.

Lemma from_attributes_ok a : state_ok (from_attributes a).
Proof. split; apply nibble_ok. Qed.

Lemma nibble_small x : 0 <= x <= 15 -> Z.land x 0xF = x.
Proof. intros Hx. change (Z.land x 0xF) with (Z.land x (Z.ones 4)). rewrite Z.land_ones by lia. apply Z.mod_small. lia. Qed.

Lemma testbit_nibble x i : 0 <= x <= 15 -> 4 <= i -> Z.testbit x i = false.
Proof. intros Hx Hi. apply (testbit_above 4); [unfold in_width; lia|done]. Qed.

(** The bits of what is written, field by field. *)
Lemma into_attributes_bit s previous i :
  state_ok s -> 0 <= i < 64 ->
  Z.testbit (into_attributes s previous) i =
  if i <? 48 then Z.testbit previous i
  else if i <? 52 then Z.testbit (priority s) (i - 48)
  else if i <? 56 then Z.testbit (tries s) (i - 52)
  else if i =? 56 then successful s
  else Z.testbit previous i.
Proof.
  intros [Hp Ht] Hi. unfold into_attributes, PRIORITY_SHIFT, TRIES_SHIFT, SUCCESSFUL_BIT.
  rewrite !nibble_small by done.
  rewrite !Z.lor_spec, Z.land_spec, testbit_not_w, !Z.shiftl_spec by lia.
  assert (HO : Z.testbit OWNED i = (48 <=? i) && (i <=? 56)).
  { change OWNED with (Z.shiftl (Z.ones 9) 48). rewrite Z.shiftl_spec by lia.
    destruct (Z.leb_spec 48 i); simpl.
    - rewrite Z.testbit_ones_nonneg by lia. destruct (Z.ltb_spec (i - 48) 9), (Z.leb_spec i 56); (done || lia).
    - by rewrite Z.testbit_neg_r by lia. }
  rewrite HO. rewrite (proj2 (Z.ltb_lt i 64)) by lia. simpl.
  assert (Hb : Z.testbit (Z.b2z (successful s)) (i - 56) = (i =? 56) && successful s).
  { destruct (Z.eqb_spec i 56) as [->|Hne]; simpl; [by destruct (successful s)|].
    destruct (Z.lt_ge_cases i 56); [by rewrite Z.testbit_neg_r by lia|].
    destruct (successful s); [|by rewrite Z.testbit_0_l]. apply (testbit_above 1); [unfold in_width; simpl; lia|lia]. }
  rewrite Hb. destruct (Z.leb_spec 48 i), (Z.leb_spec i 56), (Z.ltb_spec i 48), (Z.ltb_spec i 52), (Z.ltb_spec i 56),
    (Z.eqb_spec i 56); try lia; simpl; rewrite ?andb_true_r, ?andb_false_r, ?orb_false_r; simpl.
  all: rewrite ?(Z.testbit_neg_r (priority s)), ?(Z.testbit_neg_r (tries s)) by lia.
  all: rewrite ?(testbit_nibble (priority s)), ?(testbit_nibble (tries s)) by (done || lia).
  all: rewrite ?orb_false_r; done.
Qed.

Lemma into_attributes_width s previous : state_ok s -> in_width 64 previous -> in_width 64 (into_attributes s previous).
Proof.
  intros [Hp Ht] Hw. unfold into_attributes. rewrite !nibble_small by done.
  repeat apply in_width_lor; try lia.
  - apply in_width_land; [done|]. apply in_width_not_w. lia.
  - unfold PRIORITY_SHIFT. rewrite Z.shiftl_mul_pow2 by lia. unfold in_width. lia.
  - unfold TRIES_SHIFT. rewrite Z.shiftl_mul_pow2 by lia. unfold in_width. lia.
  - unfold SUCCESSFUL_BIT. rewrite Z.shiftl_mul_pow2 by lia. unfold in_width. destruct (successful s); simpl; lia.
Qed.

Lemma field_bits a k n x :
  0 <= k -> 0 <= n -> 0 <= x < 2 ^ n -> (forall j, 0 <= j < n -> Z.testbit a (j + k) = Z.testbit x j) ->
  Z.land (Z.shiftr a k) (Z.ones n) = x.
Proof.
  intros Hk Hn Hx H. apply Z.bits_inj'. intros j Hj. rewrite Z.land_spec, Z.shiftr_spec, Z.testbit_ones_nonneg by lia.
  destruct (Z.ltb_spec j n); [rewrite andb_true_r; by apply H|]. rewrite andb_false_r.
  symmetry. apply (testbit_above n); [done|lia].
Qed.

(** Writing a state and reading it back. *)
Lemma attributes_roundtrip s previous : state_ok s -> from_attributes (into_attributes s previous) = s.
Proof.
  intros Hs. pose proof Hs as [Hp Ht]. unfold from_attributes, PRIORITY_SHIFT, TRIES_SHIFT, SUCCESSFUL_BIT.
  change 0xF with (Z.ones 4). change (Z.land (Z.shiftr (into_attributes s previous) 56) 1)
    with (Z.land (Z.shiftr (into_attributes s previous) 56) (Z.ones 1)).
  rewrite (field_bits _ 48 4 (priority s)), (field_bits _ 52 4 (tries s)), (field_bits _ 56 1 (Z.b2z (successful s))).
  - destruct s as [p t []]; done.
  - lia.
  - lia.
  - destruct (successful s); simpl; lia.
  - intros j Hj. assert (j = 0) as -> by lia. rewrite into_attributes_bit by (done || lia). simpl. by destruct (successful s).
  - lia.
  - lia.
  - lia.
  - intros j Hj. rewrite into_attributes_bit by (done || lia).
    destruct (Z.ltb_spec (j + 52) 48), (Z.ltb_spec (j + 52) 52), (Z.ltb_spec (j + 52) 56); try lia. f_equal. lia.
  - lia.
  - lia.
  - lia.
  - intros j Hj. rewrite into_attributes_bit by (done || lia).
    destruct (Z.ltb_spec (j + 48) 48), (Z.ltb_spec (j + 48) 52); try lia. f_equal. lia.
Qed.

(** ** Selection *)

Lemma max_by_key_spec best l r :
  max_by_key best l = r ->
  match r with
  | None => best = None /\ l = []
  | Some (i, s) => (Some (i, s) = best \/ (i, s) ∈ l) /\
      (forall j t, Some (j, t) = best \/ (j, t) ∈ l -> priority t <= priority s)
  end.
Proof.
  revert best r. induction l as [|[k u] l IH]; intros best r <-; simpl.
  { destruct best as [[i s]|]; [|done]. split; [by left|]. intros j t [[= -> ->]|Hx]; [lia|by apply elem_of_nil in Hx]. }
  destruct best as [[j t]|].
  - specialize (IH (if key_le j t k u then Some (k, u) else Some (j, t)) _ eq_refl).
    assert (Hkey : priority t <= priority u \/ key_le j t k u = false /\ priority u <= priority t).
    { unfold key_le. destruct (Z.ltb_spec (priority t) (priority u)); [left; lia|].
      destruct (Z.eqb_spec (priority t) (priority u)); [left; lia|right; split; [done|lia]]. }
    assert (Hkey2 : key_le j t k u = true -> priority t <= priority u).
    { unfold key_le. destruct (Z.ltb_spec (priority t) (priority u)); [lia|].
      destruct (Z.eqb_spec (priority t) (priority u)); [lia|done]. }
    revert IH. destruct (max_by_key _ l) as [[i s]|]; intros IH; [|destruct (key_le j t k u); by destruct IH].
    destruct IH as [Hin Hmax]. split.
    + destruct Hin as [Hin|Hin]; [|right; by right]. destruct (key_le j t k u); [right; injection Hin as -> ->; by left|by left].
    + intros j' t' Hx. rewrite elem_of_cons in Hx. destruct (key_le j t k u) eqn:E.
      * assert (Hu : priority u <= priority s) by (apply (Hmax k); by left).
        destruct Hx as [[= -> ->]|[[= -> ->]|Hx]]; [specialize (Hkey2 eq_refl); lia|done|apply (Hmax j'); by right].
      * assert (Ht : priority t <= priority s) by (apply (Hmax j); by left).
        destruct Hx as [[= -> ->]|[[= -> ->]|Hx]]; [done| |apply (Hmax j'); by right].
        destruct Hkey as [Hk|[_ Hk]]; [|lia]. unfold key_le in E.
        destruct (Z.ltb_spec (priority t) (priority u)); [done|lia].
  - specialize (IH (Some (k, u)) _ eq_refl). revert IH. destruct (max_by_key _ l) as [[i s]|]; intros IH; [|by destruct IH].
    destruct IH as [Hin Hmax]. split.
    + destruct Hin as [[= -> ->]|Hin]; [right; by left|right; by right].
    + intros j t [Hx|Hx]; [done|]. apply elem_of_cons in Hx as [[= -> ->]|Hx]; [apply (Hmax k); by left|apply (Hmax j); by right].
Qed.

Lemma elem_of_slots tried slots i s :
  (i, s) ∈ filter (fun x => eligible tried x.1 x.2 = true) (imap pair slots) <->
  eligible tried i s = true /\ slots !! i = Some s.
Proof.
  rewrite list_elem_of_filter. cbn [fst snd]. split; intros [He Hx]; (split; [done|]).
  - apply list_elem_of_lookup in Hx as [k Hk]. rewrite list_lookup_imap in Hk.
    destruct (slots !! k) eqn:E; simpl in Hk; [|done]. by injection Hk as <- <-.
  - apply list_elem_of_lookup. exists i. rewrite list_lookup_imap, Hx. done.
Qed.

Lemma select_Some slots tried i :
  select_excluding slots tried = Some i ->
  exists s, slots !! i = Some s /\ eligible tried i s = true /\
    forall j t, slots !! j = Some t -> eligible tried j t = true -> priority t <= priority s.
Proof.
  unfold select_excluding. destruct (max_by_key _ _) as [[k s]|] eqn:E; simpl; [|done]. intros [= ->].
  apply max_by_key_spec in E as [Hin Hmax]. destruct Hin as [?|Hin]; [done|]. apply elem_of_slots in Hin as [He Hs].
  exists s. split_and!; [done|done|]. intros j t Hj Ht. apply (Hmax j). right. by apply elem_of_slots.
Qed.

Lemma select_None slots tried j t :
  select_excluding slots tried = None -> slots !! j = Some t -> eligible tried j t = false.
Proof.
  unfold select_excluding. destruct (max_by_key _ _) as [[k s]|] eqn:E; simpl; [done|]. intros _ Hj.
  apply max_by_key_spec in E as [_ Hnil]. destruct (eligible tried j t) eqn:Ht; [|done]. exfalso.
  assert (Hin : (j, t) ∈ filter (fun x => eligible tried x.1 x.2 = true) (imap pair slots)) by (by apply elem_of_slots).
  rewrite Hnil in Hin. by apply elem_of_nil in Hin.
Qed.

Lemma eligible_bit tried i s :
  (i < 64)%nat -> eligible tried i s = is_bootable s && negb (Z.testbit tried (Z.of_nat i)).
Proof.
  intros Hi. unfold eligible. f_equal. destruct (Nat.leb_spec 64 i); [lia|]. simpl.
  destruct (Z.eqb_spec (Z.land tried (Z.shiftl 1 (Z.of_nat i))) 0) as [E|E].
  - apply (f_equal (fun x => Z.testbit x (Z.of_nat i))) in E.
    rewrite Z.land_spec, Z.shiftl_spec, Z.sub_diag, Z.testbit_0_l in E by lia. simpl in E. rewrite andb_true_r in E.
    by rewrite E.
  - destruct (Z.testbit tried (Z.of_nat i)) eqn:Et; [done|]. exfalso. apply E. apply Z.bits_inj'. intros j Hj.
    rewrite Z.land_spec, Z.shiftl_spec, Z.testbit_0_l by lia.
    destruct (decide (j = Z.of_nat i)) as [->|Hne]; [by rewrite Et|].
    destruct (Z.lt_ge_cases j (Z.of_nat i)); [by rewrite (Z.testbit_neg_r 1), andb_false_r by lia|].
    rewrite (testbit_above 1 1), andb_false_r by (unfold in_width; lia). done.
Qed.

(** ** Tries left *)

Definition spare (a : Z) : Z :=
  let s := from_attributes a in if successful s then 0 else tries s.

(** How many boots the unconfirmed slots can still take. *)
Definition patience (attrs : list Z) : Z := foldr (fun a n => spare a + n) 0 attrs.

Definition confirmed_at (attrs : list Z) (i : nat) : bool :=
  match attrs !! i with Some a => successful (from_attributes a) | None => false end.

Lemma spare_range a : 0 <= spare a <= 15.
Proof. unfold spare. destruct (from_attributes_ok a) as [_ ?]. destruct (successful _); lia. Qed.

Lemma patience_insert attrs i a b :
  attrs !! i = Some a -> patience (<[i := b]> attrs) = patience attrs - spare a + spare b.
Proof.
  revert i. induction attrs as [|c attrs IH]; intros [|i] Hi; simpl in *; try done.
  - injection Hi as ->. lia.
  - rewrite (IH i Hi). lia.
Qed.

Lemma patience_bound attrs : 0 <= patience attrs <= 15 * Z.of_nat (length attrs).
Proof. induction attrs as [|a attrs IH]; simpl; [lia|]. pose proof (spare_range a). lia. Qed.

Lemma confirmed_at_insert attrs i a b j :
  attrs !! i = Some a -> successful (from_attributes b) = successful (from_attributes a) ->
  confirmed_at (<[i := b]> attrs) j = confirmed_at attrs j.
Proof.
  intros Hi Hs. unfold confirmed_at. destruct (decide (i = j)) as [<-|Hne].
  - rewrite list_lookup_insert_eq, Hi by (by eapply lookup_lt_Some). done.
  - by rewrite list_lookup_insert_ne.
Qed.

(** ** One boot *)

Section boot.
Context (trusted : nat -> bool) (start : nat -> Started).
Context (Hstart : forall i, trusted i = true -> start i = StartsUp).

(** The slots that say they work do, and one of them can be booted. *)
Definition disk_ok (attrs : list Z) (g : nat) : Prop :=
  (length attrs <= MAX_SLOTS)%nat /\
  (forall i, confirmed_at attrs i = true -> trusted i = true) /\
  exists a, attrs !! g = Some a /\ successful (from_attributes a) = true /\ 0 < priority (from_attributes a).

(** What a boot may do to the disk. *)
Definition gentle (attrs attrs' : list Z) (spent : Z) : Prop :=
  length attrs' = length attrs /\ (forall i, confirmed_at attrs' i = confirmed_at attrs i) /\
  (forall i, confirmed_at attrs i = true -> attrs' !! i = attrs !! i) /\
  patience attrs' + spent <= patience attrs.

Lemma gentle_trans a b c n k : gentle a b n -> gentle b c k -> gentle a c (n + k).
Proof.
  intros (Hl1 & Hc1 & Hs1 & Hp1) (Hl2 & Hc2 & Hs2 & Hp2). split_and!; [congruence| |  |lia].
  - intros i. by rewrite Hc2.
  - intros i Hi. rewrite Hs2 by (by rewrite Hc1). by apply Hs1.
Qed.

Lemma disk_ok_gentle attrs attrs' n g : disk_ok attrs g -> gentle attrs attrs' n -> disk_ok attrs' g.
Proof.
  intros (Hl & Ht & a & Ha & Hs & Hp) (Hl' & Hc & Hsame & _). split_and!.
  - by rewrite Hl'.
  - intros i Hi. apply Ht. by rewrite <- Hc.
  - exists a. rewrite Hsame by (unfold confirmed_at; by rewrite Ha). done.
Qed.

(** Writing a state that is not confirmed over one that is not. *)
Lemma gentle_write attrs i a s :
  attrs !! i = Some a -> successful (from_attributes a) = false -> successful s = false -> state_ok s ->
  gentle attrs (<[i := into_attributes s a]> attrs) (tries (from_attributes a) - tries s).
Proof.
  intros Hi Ha Hs Hok. assert (Hrt := attributes_roundtrip s a Hok).
  split_and!.
  - apply length_insert.
  - intros j. apply (confirmed_at_insert _ _ a); [done|]. rewrite Hrt. congruence.
  - intros j Hj. apply list_lookup_insert_ne. intros ->. unfold confirmed_at in Hj. rewrite Hi in Hj. congruence.
  - rewrite (patience_insert _ _ a) by done. unfold spare. rewrite Hrt, Ha, Hs. lia.
Qed.

Lemma set_bit_other tried i j :
  (0 <= i)%nat -> i <> j -> Z.testbit (Z.lor tried (Z.shiftl 1 (Z.of_nat i))) (Z.of_nat j) = Z.testbit tried (Z.of_nat j).
Proof.
  intros _ Hne. rewrite Z.lor_spec, Z.shiftl_spec by lia.
  destruct (Z.lt_ge_cases (Z.of_nat j) (Z.of_nat i)); [by rewrite (Z.testbit_neg_r 1), orb_false_r by lia|].
  rewrite (testbit_above 1 1), orb_false_r by (unfold in_width; lia). done.
Qed.

Lemma set_bit_same tried i : Z.testbit (Z.lor tried (Z.shiftl 1 (Z.of_nat i))) (Z.of_nat i) = true.
Proof. rewrite Z.lor_spec, Z.shiftl_spec, Z.sub_diag by lia. apply orb_true_r. Qed.

(** The slots not tried yet. *)
Definition untried (attrs : list Z) (tried : Z) : list nat :=
  filter (fun i => Z.testbit tried (Z.of_nat i) = false) (seq 0 (length attrs)).

Lemma untried_less attrs tried i :
  i ∈ untried attrs tried ->
  (length (untried attrs (Z.lor tried (Z.shiftl 1 (Z.of_nat i)))) < length (untried attrs tried))%nat.
Proof.
  unfold untried. intros Hi. apply list_elem_of_filter in Hi as [Hb Hin].
  induction (seq 0 (length attrs)) as [|j l IH]; [by apply elem_of_nil in Hin|].
  assert (Hle : (length (filter (fun k => Z.testbit (Z.lor tried (Z.shiftl 1 (Z.of_nat i))) (Z.of_nat k) = false) l) <=
    length (filter (fun k => Z.testbit tried (Z.of_nat k) = false) l))%nat).
  { clear. induction l as [|k l IH]; [done|]. rewrite !filter_cons. destruct (decide (i = k)) as [<-|Hne].
    - rewrite set_bit_same. rewrite decide_False by done. case_decide; simpl; lia.
    - rewrite set_bit_other by (lia || done). case_decide; simpl; lia. }
  rewrite !filter_cons. destruct (decide (i = j)) as [<-|Hne].
  - rewrite set_bit_same, Hb, decide_False, decide_True by done. simpl. lia.
  - apply elem_of_cons in Hin as [?|Hin]; [done|]. specialize (IH Hin). rewrite set_bit_other by (lia || done).
    case_decide; simpl; lia.
Qed.

(** With this much fuel the loop starts a slot, from any disk on which [g]
    is confirmed and not tried. *)
Definition loop_starts (fuel : nat) (g : nat) : Prop :=
  forall attrs tried, disk_ok attrs g -> Z.testbit tried (Z.of_nat g) = false ->
    (length (untried attrs tried) <= fuel)%nat ->
    exists slot attrs', choose_loop fuel true start (from_attributes <$> attrs) attrs tried = Some (Some slot, attrs') /\
      (slot < length attrs)%nat /\ gentle attrs attrs' (if confirmed_at attrs slot then 0 else 1).

(** A slot that did not start leaves the choice to a later one. *)
Lemma later_slot_starts fuel g attrs attrs2 tried slot :
  loop_starts fuel g -> disk_ok attrs g -> Z.testbit tried (Z.of_nat g) = false -> slot <> g ->
  slot ∈ untried attrs tried -> (length (untried attrs tried) <= S fuel)%nat -> gentle attrs attrs2 1 ->
  exists slot' attrs', choose_loop fuel true start (from_attributes <$> attrs2) attrs2
      (Z.lor tried (Z.shiftl 1 (Z.of_nat slot))) = Some (Some slot', attrs') /\ (slot' < length attrs)%nat /\
    gentle attrs attrs' (if confirmed_at attrs slot' then 0 else 1).
Proof.
  intros IH Hok Hg Hne Hin Hfuel Hg2. pose proof (untried_less attrs tried slot Hin) as Hless.
  pose proof Hg2 as (Hl2 & Hc2 & _).
  destruct (IH attrs2 (Z.lor tried (Z.shiftl 1 (Z.of_nat slot)))) as (s' & at' & He & Hs' & Hgt).
  - by eapply disk_ok_gentle.
  - rewrite set_bit_other by (lia || done). done.
  - unfold untried in *. rewrite Hl2. lia.
  - exists s', at'. rewrite Hc2 in Hgt. rewrite Hl2 in Hs'. split_and!; [done|done|].
    pose proof (gentle_trans _ _ _ _ _ Hg2 Hgt) as (? & ? & ? & Hp). split_and!; [done|done|done|].
    destruct (confirmed_at attrs s'); lia.
Qed.

Lemma choose_loop_starts fuel g : loop_starts fuel g.
Proof using Hstart.
  unfold loop_starts. induction fuel as [|fuel IH]; intros attrs tried Hok Hg Hfuel;
    pose proof Hok as (Hlen & Htrust & ag & Hag & Hsg & Hpg); unfold MAX_SLOTS in Hlen;
    pose proof (lookup_lt_Some _ _ _ Hag) as Hgl.
  { exfalso. assert (Hin : g ∈ untried attrs tried).
    { apply list_elem_of_filter. split; [done|]. apply elem_of_seq. lia. }
    destruct (untried attrs tried); [by apply elem_of_nil in Hin|simpl in Hfuel; lia]. }
  cbn [choose_loop]. destruct (select_excluding _ tried) as [slot|] eqn:Hsel.
  2:{ exfalso. apply (select_None _ _ g (from_attributes ag)) in Hsel; [|by rewrite list_lookup_fmap, Hag].
      rewrite eligible_bit, Hg in Hsel by lia. unfold is_bootable in Hsel. rewrite Hsg in Hsel.
      destruct (Z.ltb_spec 0 (priority (from_attributes ag))); [done|lia]. }
  destruct (select_Some _ _ _ Hsel) as (st & Hst & Hel & _). rewrite Hst. rewrite list_lookup_fmap in Hst.
  destruct (attrs !! slot) as [a|] eqn:Ha; [|done]. injection Hst as <-.
  pose proof (lookup_lt_Some _ _ _ Ha) as Hslt. rewrite eligible_bit in Hel by lia.
  apply andb_true_iff in Hel as [Hboot Hnt]. apply negb_true_iff in Hnt.
  unfold attempted. destruct (successful (from_attributes a)) eqn:Hsu; cbn [orb].
  - rewrite bool_decide_false by (intros H; by apply H). cbn [negb].
    assert (Hcs : confirmed_at attrs slot = true) by (unfold confirmed_at; by rewrite Ha).
    rewrite Hstart by (by apply Htrust). exists slot, attrs. rewrite Hcs.
    split; [done|]. split; [done|]. unfold gentle. split_and!; [done|done|done|lia].
  - unfold is_bootable in Hboot. rewrite Hsu in Hboot. cbn [orb] in Hboot. apply andb_true_iff in Hboot as [_ Htr].
    apply Z.ltb_lt in Htr. destruct (Z.eqb_spec (tries (from_attributes a)) 0); [lia|].
    set (sp := MkState (priority (from_attributes a)) (tries (from_attributes a) - 1) false).
    destruct (from_attributes_ok a) as [Hpr Htri].
    assert (Hspok : state_ok sp) by (split; cbn [sp priority tries]; lia).
    rewrite bool_decide_true by (intros E; apply (f_equal tries) in E; cbn [sp tries] in E; lia).
    unfold write_back at 1. rewrite list_lookup_insert_eq by (by rewrite length_fmap). rewrite Ha. cbn [negb].
    pose proof (gentle_write attrs slot a sp Ha Hsu eq_refl Hspok) as Hgw. cbn [sp tries] in Hgw.
    replace (tries (from_attributes a) - (tries (from_attributes a) - 1)) with 1 in Hgw by lia. fold sp in Hgw.
    set (attrs1 := <[slot := into_attributes sp a]> attrs) in *.
    assert (Hst1 : <[slot := sp]> (from_attributes <$> attrs) = from_attributes <$> attrs1).
    { unfold attrs1. by rewrite list_fmap_insert, attributes_roundtrip. }
    assert (Hca : confirmed_at attrs slot = false) by (unfold confirmed_at; by rewrite Ha).
    assert (Hne : slot <> g) by (intros ->; congruence).
    assert (Hin : slot ∈ untried attrs tried) by (apply list_elem_of_filter; split; [done|]; apply elem_of_seq; lia).
    pose proof (fun attrs2 => later_slot_starts fuel g attrs attrs2 tried slot IH Hok Hg Hne Hin Hfuel) as Hlater.
    destruct (start slot) eqn:Hso.
    + exists slot, attrs1. rewrite Hca. by split_and!.
    + rewrite Hst1. unfold write_back. rewrite list_lookup_insert_eq by (unfold attrs1; by rewrite length_fmap, length_insert).
      unfold attrs1 at 2 3. rewrite list_lookup_insert_eq by done. fold attrs1. cbn [snd].
      set (un := unreadable sp). assert (Hunok : state_ok un) by (split; cbn; lia).
      set (attrs2 := <[slot := into_attributes un (into_attributes sp a)]> attrs1).
      assert (Hst2 : <[slot := un]> (from_attributes <$> attrs1) = from_attributes <$> attrs2).
      { unfold attrs2. by rewrite list_fmap_insert, attributes_roundtrip. }
      rewrite Hst2. apply Hlater.
      assert (Ha1 : attrs1 !! slot = Some (into_attributes sp a)) by (unfold attrs1; by rewrite list_lookup_insert_eq).
      pose proof (gentle_write attrs1 slot _ un Ha1) as Hg2. rewrite attributes_roundtrip in Hg2 by done.
      specialize (Hg2 eq_refl eq_refl Hunok). destruct Hspok as [_ Hts]. change (tries un) with 0 in Hg2.
      pose proof (gentle_trans _ _ _ _ _ Hgw Hg2) as (? & ? & ? & Hp). split_and!; [done|done|done|].
      unfold attrs2. lia.
    + rewrite Hst1. by apply Hlater.
Qed.
End boot.

Lemma confirm_ok trusted attrs g slot :
  disk_ok trusted attrs g -> trusted slot = true ->
  disk_ok trusted (confirm attrs slot) g /\ patience (confirm attrs slot) <= patience attrs /\
  length (confirm attrs slot) = length attrs.
Proof.
  intros Hok Hts. pose proof Hok as (Hl & Ht & a & Ha & Hs & Hp). unfold confirm.
  destruct (attrs !! slot) as [c|] eqn:Hc; [|done]. destruct (successful (from_attributes c)); [done|].
  assert (Hcok : state_ok (confirmed (from_attributes c))).
  { destruct (from_attributes_ok c) as [? ?]. split; cbn [confirmed priority tries]; lia. }
  assert (Hrt := attributes_roundtrip _ c Hcok). split_and!; [split_and!| |apply length_insert].
  - by rewrite length_insert.
  - intros i Hi. destruct (decide (slot = i)) as [<-|Hne]; [done|]. apply Ht. unfold confirmed_at in *.
    by rewrite list_lookup_insert_ne in Hi.
  - destruct (decide (slot = g)) as [->|Hne].
    + eexists. rewrite list_lookup_insert_eq by (by eapply lookup_lt_Some). split; [done|]. rewrite Hrt.
      rewrite Hc in Ha. injection Ha as ->. split; [done|]. exact Hp.
    + exists a. by rewrite list_lookup_insert_ne.
  - rewrite (patience_insert _ _ c) by done. unfold spare at 2. rewrite Hrt. pose proof (spare_range c). simpl. lia.
Qed.

Lemma untried_length attrs tried : (length (untried attrs tried) <= length attrs)%nat.
Proof. unfold untried. etransitivity; [apply length_filter|]. by rewrite length_seq. Qed.

(** A sequence of boots: each has what its images do when started, and
    whether the system that came up says that its slot works; only a slot that
    does work says so. The log is the slot each boot started and whether that
    slot was confirmed. *)
Fixpoint boots (trusted : nat -> bool) (bs : list ((nat -> Started) * bool)) (attrs : list Z)
  : option (list (option nat * bool) * list Z) :=
  match bs with
  | [] => Some ([], attrs)
  | (start, says) :: bs' =>
      match choose true start attrs with
      | None => None
      | Some (r, attrs1) =>
          let attrs2 := match r with
                        | Some slot => if says && trusted slot then confirm attrs1 slot else attrs1
                        | None => attrs1
                        end in
          match boots trusted bs' attrs2 with
          | None => None
          | Some (l, attrs3) =>
              Some ((r, match r with Some slot => confirmed_at attrs slot | None => false end) :: l, attrs3)
          end
      end
  end.

(** Without a disk that takes writes only confirmed slots start. *)
Lemma choose_loop_read_only fuel start states attrs tried slot attrs' :
  (forall i s, states !! i = Some s -> successful s = true -> confirmed_at attrs i = true) ->
  choose_loop fuel false start states attrs tried = Some (Some slot, attrs') ->
  confirmed_at attrs slot = true /\ attrs' = attrs.
Proof.
  revert states tried. induction fuel as [|fuel IH]; intros states tried Hst H; cbn [choose_loop] in H;
    destruct (select_excluding states tried) as [i|] eqn:Hsel; try done.
  destruct (select_Some _ _ _ Hsel) as (s & Hi & Hel & _). rewrite Hi in H.
  unfold eligible, is_bootable in Hel.
  assert (Hrefuse : forall sts, write_back false sts attrs i = (false, attrs)).
  { intros sts. unfold write_back. by destruct (sts !! i), (attrs !! i). }
  unfold attempted in H. destruct (successful s) eqn:Hs; cbn [orb] in H.
  - rewrite bool_decide_false in H by (intros E; by apply E). cbn [negb] in H.
    destruct (start i); [by injection H as <- <-; split; [apply (Hst i s)|]| |by apply (IH states _ Hst H)].
    rewrite Hrefuse in H. cbn [snd] in H. apply IH in H; [done|]. intros j t Hj Ht.
    destruct (decide (i = j)) as [<-|Hne]; [|rewrite list_lookup_insert_ne in Hj by done; by apply (Hst j t)].
    by apply (Hst i s).
  - cbn [orb] in Hel. destruct (Z.ltb_spec 0 (tries s)) as [Hpos|];
      [|by rewrite andb_false_r in Hel].
    destruct (Z.eqb_spec (tries s) 0); [lia|].
    rewrite bool_decide_true, Hrefuse in H; [done|]. intros E. apply (f_equal tries) in E. cbn [tries] in E. lia.
Qed.


(** C39: As long as one confirmed slot is bootable, the slots marked as
    working do work and the disk takes writes, every boot starts a slot,
    whatever the other slots' images do, and the boots that start an
    unconfirmed slot are at most the tries those slots hold, fifteen for each
    slot: a bad upgrade costs its tries and the machine comes back. Where the
    disk refuses writes, only confirmed slots are started and nothing
    changes. *)
Theorem bad_upgrade_cannot_brick trusted bs attrs g :
  disk_ok trusted attrs g -> Forall (fun b => forall i, trusted i = true -> b.1 i = StartsUp) bs ->
  (exists l attrs', boots trusted bs attrs = Some (l, attrs') /\ length l = length bs /\
     Forall (fun e => exists slot, e.1 = Some slot /\ (slot < length attrs)%nat) l /\
     Z.of_nat (length (filter (fun e => e.2 = false) l)) <= patience attrs <= 15 * Z.of_nat (length attrs)) /\
  forall start slot attrs', choose false start attrs = Some (Some slot, attrs') ->
    confirmed_at attrs slot = true /\ attrs' = attrs.
Proof.
  intros Hok Hbs. split.
  2:{ intros start slot attrs'. apply choose_loop_read_only. intros i s Hi Hs. rewrite list_lookup_fmap in Hi.
      unfold confirmed_at. destruct (attrs !! i); [|done]. by injection Hi as ->. }
  revert attrs Hok. induction Hbs as [|[start says] bs Hb _ IH]; intros attrs Hok; cbn [boots].
  { exists [], attrs. split_and!; [done|done|apply List.Forall_nil|simpl; apply patience_bound|apply patience_bound]. }
  destruct (choose_loop_starts trusted start Hb (length attrs) g attrs 0 Hok (Z.bits_0 _) (untried_length _ _))
    as (slot & attrs1 & Hch & Hlt & Hg1).
  unfold choose. rewrite Hch. pose proof (disk_ok_gentle _ _ _ _ _ Hok Hg1) as Hok1.
  pose proof Hg1 as (Hl1 & _ & _ & Hp1).
  set (attrs2 := if says && trusted slot then confirm attrs1 slot else attrs1).
  assert (H2 : disk_ok trusted attrs2 g /\ patience attrs2 <= patience attrs1 /\ length attrs2 = length attrs1).
  { unfold attrs2. destruct says, (trusted slot) eqn:Hts; simpl; try (by split_and!; [done|lia|done]). by apply confirm_ok. }
  destruct H2 as (Hok2 & Hp2 & Hl2). destruct (IH attrs2 Hok2) as (l & attrs3 & -> & Hlen & Hall & Hcount).
  eexists _, attrs3. split_and!; [done|simpl; by rewrite Hlen| | |apply patience_bound].
  - apply List.Forall_cons; [by exists slot|]. by rewrite Hl2, Hl1 in Hall.
  - rewrite filter_cons. cbn [snd]. destruct (confirmed_at attrs slot); [rewrite decide_False by done; lia|].
    rewrite decide_True by done. cbn [length]. lia.
Qed.

(** An installed slot and an upgrade on trial that never comes up. *)
Definition demo_attrs : list Z := [into_attributes installed 0; into_attributes (on_trial 3 2) 0].

Lemma bad_upgrade_cannot_brick_witness :
  exists l attrs', boots (fun i => (i =? 0)%nat) (replicate 4 (fun _ => StartsUp, true)) demo_attrs = Some (l, attrs') /\
    Forall (fun e => exists slot, e.1 = Some slot /\ (slot < 2)%nat) l /\ l.*1 = [Some 1%nat; Some 1%nat; Some 0%nat; Some 0%nat].
Proof.
  destruct (bad_upgrade_cannot_brick (fun i => (i =? 0)%nat) (replicate 4 (fun _ => StartsUp, true)) demo_attrs 0)
    as [(l & attrs' & Hb & _ & Hall & _) _].
  - split; [vm_compute; lia|]. split.
    + intros [|[|i]]; vm_compute; congruence.
    + eexists. split; [reflexivity|]. split; reflexivity.
  - apply (Forall_replicate _ 4). done.
  - exists l, attrs'. split; [exact Hb|]. split; [exact Hall|].
    assert (Hx : option_map (fun x => x.1.*1) (boots (fun i => (i =? 0)%nat) (replicate 4 (fun _ => StartsUp, true)) demo_attrs)
      = Some [Some 1%nat; Some 1%nat; Some 0%nat; Some 0%nat]) by (vm_compute; reflexivity).
    rewrite Hb in Hx. injection Hx as Hx. exact Hx.
Defined.
End BootSlot.
