(* ===== verification/AddressSpaces.v ===== *)
(** * Address-space identifiers, cpu sets and the user address-space map
    (crates/address_space_identifier, crates/cpu_set, crates/address_space_map)

    The number that tags an address space's translations, the online set a hart
    mask names, and the bands a process's addresses fall into. *)

From S2P Require Import Prelude.
Local Open Scope Z_scope.

Module AddressSpaces.

(** ** Address-space identifiers *)

Definition ASIDS : nat := 256.

Record Allocator := MkAllocator { bitmap : list Z }.

(** ASID 0 is taken for good. *)
Definition new : Allocator := MkAllocator (<[0%nat := 1]> (replicate (ASIDS / 64) 0)).

Fixpoint alloc_loop (i : nat) (words : list Z) : option (Z * list Z) :=
  match words with
  | [] => None
  | word :: rest =>
      if word =? u64_max then
        match alloc_loop (S i) rest with Some (id, rest') => Some (id, word :: rest') | None => None end
      else
        let bit := trailing_ones 64 word in
        Some (wrap 16 (Z.of_nat (i * 64 + bit)), Z.lor word (Z.shiftl 1 (Z.of_nat bit)) :: rest)
  end.

Definition alloc (a : Allocator) : option Z * Allocator :=
  match alloc_loop 0 (bitmap a) with
  | Some (id, words) => (Some id, MkAllocator words)
  | None => (None, a)
  end.

(** [debug] says whether the build keeps debug assertions. *)
Definition free (debug : bool) (a : Allocator) (asid : Z) : run Allocator :=
  if debug && ((asid =? 0) || (Z.of_nat ASIDS <=? asid)) then Panicked
  else if negb (asid =? 0) && (asid <? Z.of_nat ASIDS) then
    match bitmap a !! Z.to_nat (asid / 64) with
    | Some word =>
        Done (MkAllocator (<[Z.to_nat (asid / 64) := Z.land word (not_w 64 (Z.shiftl 1 (asid mod 64)))]> (bitmap a)))
    | None => Panicked
    end
  else Done a.

(** ** Cpu sets *)

(** The iterator's [next]: the lowest set bit, and the mask without it. *)
Definition next (mask : Z) : option (nat * Z) :=
  if mask =? 0 then None else Some (trailing_zeros 64 mask, Z.land mask (mask - 1)).

(** [cpus_in(mask)] run to its end; 64 steps empty any mask. *)
Fixpoint cpus_loop (fuel : nat) (mask : Z) : list nat :=
  match fuel with
  | O => []
  | S fuel' => match next mask with None => [] | Some (i, mask') => i :: cpus_loop fuel' mask' end
  end.
Definition cpus_in (mask : Z) : list nat := cpus_loop 64 mask.

(** [Iterator::nth]. *)
Fixpoint nth (mask : Z) (k : nat) : option nat :=
  match next mask, k with
  | None, _ => None
  | Some (i, _), O => Some i
  | Some (_, mask'), S k' => nth mask' k'
  end.

Definition nth_in (mask : Z) (k : nat) : option nat :=
  let n := count_ones 64 mask in
  if decide (n = 0%nat) then None else nth mask (k mod n).

(** ** The address-space map *)

Definition PAGE : Z := 4096.

Record Band := MkBand { start : Z; end_ : Z }.

Definition bytes (b : Band) : Z := end_ b - start b.
Definition contains (b : Band) (va : Z) : bool := (start b <=? va) && (va <? end_ b).
Definition holds (b : Band) (s e : Z) : bool := (s <? e) && (start b <=? s) && (e <=? end_ b).

Definition CODE_MODEL_CEILING : Z := 0x80000000.
Definition NULL_GUARD : Band := MkBand 0 0x200000.
Definition PAIR_PAGES : Band := MkBand (end_ NULL_GUARD) 0x10000000.
Definition RUNTIME_WINDOWS : Band := MkBand (end_ PAIR_PAGES) 0x40000000.
Definition HEAP : Band := MkBand (end_ RUNTIME_WINDOWS) 0x50000000.
Definition SERVICE_WINDOWS : Band := MkBand (end_ HEAP) 0x60000000.
Definition IMAGE : Band := MkBand (end_ SERVICE_WINDOWS) 0x7F000000.
Definition STACK : Band := MkBand (end_ IMAGE) 0x7FFF0000.
Definition PROCESS_PAGES : Band := MkBand (end_ STACK) CODE_MODEL_CEILING.

Definition BANDS : list Band :=
  [NULL_GUARD; PAIR_PAGES; RUNTIME_WINDOWS; HEAP; SERVICE_WINDOWS; IMAGE; STACK; PROCESS_PAGES].

Definition IMAGE_BASE : Z := start IMAGE.
Definition STACK_TOP : Z := end_ STACK.
Definition STACK_TOP_PAGE : Z := STACK_TOP - PAGE.
Definition MAX_STACK_PAGES : Z := bytes STACK / PAGE - 1.
Definition CURRENT_CPU_PAGE : Z := end_ PROCESS_PAGES - PAGE.

(** An address asserted to be page aligned and in its band. *)
Definition placed (b : Band) (va : Z) : run Z :=
  if is_multiple_of va PAGE && contains b va then Done va else Panicked.
Definition pair_page (va : Z) : run Z := placed PAIR_PAGES va.
Definition runtime_window (va : Z) : run Z := placed RUNTIME_WINDOWS va.
Definition service_window (va : Z) : run Z := placed SERVICE_WINDOWS va.

Inductive ImagePlacement :=
  | TooLarge (image_end stack_base : Z)
  | OutsideBand (image_start image_end : Z).

Definition check_image (s e : Z) : result ImagePlacement unit :=
  if holds IMAGE s e then Ok tt
  else if contains IMAGE s && (end_ IMAGE <? e) then Err (TooLarge e (start STACK))
  else Err (OutsideBand s e).

(** ** The allocator's bits *)

Definition live (a : Allocator) (j : Z) : bool :=
  match bitmap a !! Z.to_nat (j / 64) with Some w => Z.testbit w (j mod 64) | None => false end.

Record wf (a : Allocator) : Prop := MkWf {
  wf_len : length (bitmap a) = 4%nat;
  wf_words : Forall (in_width 64) (bitmap a);
  wf_zero : live a 0 = true }.

Lemma alloc_loop_spec i words :
  Forall (in_width 64) words ->
  match alloc_loop i words with
  | Some (id, words') => exists q w b,
      words !! q = Some w /\ (b < 64)%nat /\ id = wrap 16 (Z.of_nat ((i + q) * 64 + b)) /\
      Z.testbit w (Z.of_nat b) = false /\ words' = <[q := Z.lor w (Z.shiftl 1 (Z.of_nat b))]> words /\
      (forall q', (q' < q)%nat -> words !! q' = Some u64_max) /\
      (forall j, 0 <= j < Z.of_nat b -> Z.testbit w j = true)
  | None => Forall (eq u64_max) words
  end.
Proof.
  revert i. induction words as [|w words IH]; intros i Hw; [constructor|]. apply Forall_cons in Hw as [Hw Hws].
  cbn [alloc_loop]. destruct (Z.eqb_spec w u64_max) as [->|Hne].
  - specialize (IH (S i) Hws). destruct (alloc_loop (S i) words) as [[id words']|]; [|by constructor].
    destruct IH as (q & w & b & Hq & Hb & -> & Hbit & -> & Hlow & Hbits). exists (S q), w, b.
    split_and!; [done|done|f_equal; lia|done|done| |done]. intros [|q'] Hq'; [done|]. apply Hlow. lia.
  - assert (Hb : (trailing_ones 64 w < 64)%nat) by (apply trailing_ones_lt; done).
    exists 0%nat, w, (trailing_ones 64 w). split_and!; [done|done|f_equal; lia|by apply trailing_ones_stop|done|lia|].
    intros j Hj. by apply (trailing_ones_low 64).
Qed.

Lemma live_word a q w b :
  bitmap a !! q = Some w -> (b < 64)%nat -> live a (Z.of_nat (q * 64 + b)) = Z.testbit w (Z.of_nat b).
Proof.
  intros Hq Hb. unfold live.
  replace (Z.of_nat (q * 64 + b) / 64) with (Z.of_nat q) by (apply (Z.div_unique _ 64 _ (Z.of_nat b)); lia).
  replace (Z.of_nat (q * 64 + b) mod 64) with (Z.of_nat b) by (apply (Z.mod_unique _ 64 (Z.of_nat q)); lia).
  by rewrite Nat2Z.id, Hq.
Qed.

(** Changing one word changes only the identifiers of that word. *)
Lemma live_update a q w w' j :
  bitmap a !! q = Some w -> 0 <= j ->
  live (MkAllocator (<[q := w']> (bitmap a))) j =
  if decide (Z.to_nat (j / 64) = q) then Z.testbit w' (j mod 64) else live a j.
Proof.
  intros Hq Hj. unfold live. simpl. case_decide as Hd.
  - rewrite Hd, list_lookup_insert_eq; [done|]. by eapply lookup_lt_Some.
  - by rewrite list_lookup_insert_ne by done.
Qed.

Lemma split_id j : 0 <= j -> j = Z.of_nat (Z.to_nat (j / 64) * 64 + Z.to_nat (j mod 64)) /\ 0 <= j mod 64 < 64.
Proof. intros. pose proof (Z.mod_pos_bound j 64). pose proof (Z.div_mod j 64). pose proof (Z.div_pos j 64). lia. Qed.

Lemma testbit_full j : 0 <= j < 64 -> Z.testbit u64_max j = true.
Proof. intros. change u64_max with (Z.ones 64). by apply Z.ones_spec_low. Qed.

(** [alloc] takes the lowest identifier that is not live. *)
Lemma asid_alloc_spec a :
  wf a ->
  match alloc a with
  | (Some id, a') =>
      0 < id < 256 /\ live a id = false /\ wf a' /\ (forall j, 0 <= j < id -> live a j = true) /\
      forall j, 0 <= j -> live a' j = live a j || bool_decide (j = id)
  | (None, a') => a' = a /\ forall j, 0 <= j < 256 -> live a j = true
  end.
Proof.
  intros [Hlen Hws Hz]. unfold alloc. pose proof (alloc_loop_spec 0 (bitmap a) Hws) as Hl.
  destruct (alloc_loop 0 (bitmap a)) as [[id words']|].
  2: { split; [done|]. intros j Hj. unfold live. rewrite Forall_lookup in Hl.
       destruct (lookup_lt_is_Some_2 (bitmap a) (Z.to_nat (j / 64))) as [w Hw].
       { rewrite Hlen. assert (j / 64 < 4) by (apply Z.div_lt_upper_bound; lia). pose proof (Z.div_pos j 64). lia. }
       rewrite Hw, <- (Hl _ _ Hw). apply testbit_full. apply split_id. lia. }
  destruct Hl as (q & w & b & Hq & Hb & -> & Hbit & -> & Hlow & Hbits). simpl.
  assert (Hq4 : (q < 4)%nat) by (rewrite <- Hlen; by eapply lookup_lt_Some).
  rewrite wrap_small by (unfold in_width; lia). set (id := Z.of_nat (q * 64 + b)).
  assert (Hfree : live a id = false) by (unfold id; by rewrite (live_word a q w b)).
  assert (Hnew : forall j, 0 <= j -> live (MkAllocator (<[q := Z.lor w (Z.shiftl 1 (Z.of_nat b))]> (bitmap a))) j =
            live a j || bool_decide (j = id)).
  { intros j Hj. destruct (split_id j Hj) as [Hje Hjm]. rewrite (live_update _ _ w) by done. case_decide as Hd.
    - rewrite Z.lor_spec, testbit_bit by lia. unfold live. rewrite Hd, Hq. f_equal.
      apply bool_decide_ext. unfold id. lia.
    - rewrite bool_decide_false, orb_false_r; [done|]. unfold id. lia. }
  split_and!; [|unfold id; lia|done| | |done].
  - assert (id <> 0) by (intros E; rewrite E in Hfree; congruence). unfold id in *. lia.
  - constructor; simpl; [by rewrite length_insert| |].
    + apply Forall_insert; [done|]. apply in_width_lor; [lia| |apply in_width_bit; lia].
      rewrite Forall_lookup in Hws. by eapply Hws.
    + by rewrite Hnew, Hz by lia.
  - intros j Hj. destruct (split_id j) as [Hje Hjm]; [lia|]. unfold live.
    destruct (decide (Z.to_nat (j / 64) = q)) as [Hd|Hd].
    + rewrite Hd, Hq. apply Hbits. unfold id in Hj. lia.
    + rewrite Hlow by (unfold id in Hj; lia). by apply testbit_full.
Qed.

Lemma asid_free_spec debug a id :
  wf a -> 0 < id < 256 ->
  exists a', free debug a id = Done a' /\ wf a' /\
    forall j, 0 <= j -> live a' j = live a j && negb (bool_decide (j = id)).
Proof.
  intros [Hlen Hws Hz] Hid. unfold free. change (Z.of_nat ASIDS) with 256.
  destruct (Z.eqb_spec id 0); [lia|]. destruct (Z.leb_spec 256 id); [lia|]. destruct (Z.ltb_spec id 256); [|lia].
  rewrite andb_false_r. cbn [negb andb]. destruct (split_id id) as [Hide Hidm]; [lia|].
  destruct (lookup_lt_is_Some_2 (bitmap a) (Z.to_nat (id / 64))) as [w Hw]; [lia|]. rewrite Hw.
  eexists. split; [done|].
  assert (Hnew : forall j, 0 <= j -> live (MkAllocator (<[Z.to_nat (id / 64) :=
      Z.land w (not_w 64 (Z.shiftl 1 (id mod 64)))]> (bitmap a))) j = live a j && negb (bool_decide (j = id))).
  { intros j Hj. destruct (split_id j Hj) as [Hje Hjm]. rewrite (live_update _ _ w) by done. case_decide as Hd.
    - rewrite Z.land_spec, testbit_not_w, testbit_bit by lia. destruct (Z.ltb_spec (j mod 64) 64); [|lia].
      unfold live. rewrite Hd, Hw. cbn [andb]. do 2 f_equal. apply bool_decide_ext. split; [|congruence]. lia.
    - rewrite (bool_decide_false (j = id)), andb_true_r; [done|]. congruence. }
  split; [|done]. constructor; simpl; [by rewrite length_insert| |].
  - apply Forall_insert; [done|]. rewrite Forall_lookup in Hws. specialize (Hws _ _ Hw).
    apply in_width_bits; [lia|apply Z.land_nonneg; left; apply Hws|]. intros i Hi.
    by rewrite Z.land_spec, (testbit_above 64 w).
  - rewrite Hnew, Hz by lia. by rewrite bool_decide_false by lia.
Qed.

(** ** Identifiers in use

    The allocator and the identifiers handed out and not yet given back. *)
Inductive asid_step (debug : bool) : Allocator * list Z -> Allocator * list Z -> Prop :=
  | asid_alloc a a' held id : alloc a = (Some id, a') -> asid_step debug (a, held) (a', id :: held)
  | asid_full a a' held : alloc a = (None, a') -> asid_step debug (a, held) (a', held)
  | asid_free a a' held1 held2 id :
      free debug a id = Done a' -> asid_step debug (a, held1 ++ id :: held2) (a', held1 ++ held2).

Definition asid_inv (s : Allocator * list Z) : Prop :=
  wf s.1 /\ NoDup s.2 /\ Forall (fun id => 0 < id < 256) s.2 /\
  forall j, 0 <= j < 256 -> (live s.1 j = true <-> j = 0 \/ j ∈ s.2).

Lemma asid_step_inv debug s s' : asid_inv s -> asid_step debug s s' -> asid_inv s'.
Proof.
  intros (Hwf & Hnd & Hr & Hl) Hs. destruct Hs as [a a' held id Ha|a a' held Ha|a a' h1 h2 id Hf]; simpl in *.
  - pose proof (asid_alloc_spec a Hwf) as H. rewrite Ha in H. destruct H as (Hid & Hfree & Hwf' & _ & Hnew).
    assert (Hnin : id ∉ held) by (intros Hin; assert (live a id = true) by (apply Hl; [lia|auto]); congruence).
    split_and!; simpl; [done|by constructor|by constructor|]. intros j Hj. rewrite Hnew by lia.
    rewrite orb_true_iff, Hl, bool_decide_eq_true, elem_of_cons by done. naive_solver.
  - pose proof (asid_alloc_spec a Hwf) as H. rewrite Ha in H. destruct H as [-> _]. by split_and!.
  - apply Forall_app in Hr as [Hr1 Hr2]. apply Forall_cons in Hr2 as [Hid Hr2].
    destruct (asid_free_spec debug a id Hwf Hid) as (a2 & Hf2 & Hwf' & Hnew). rewrite Hf in Hf2. injection Hf2 as <-.
    rewrite Permutation_app_comm in Hnd. simpl in Hnd. apply NoDup_cons in Hnd as [Hnin Hnd].
    split_and!; simpl; [done|by rewrite Permutation_app_comm|by apply Forall_app|].
    intros j Hj. rewrite Hnew by lia. rewrite andb_true_iff, negb_true_iff, bool_decide_eq_false, Hl by done.
    set_unfold. naive_solver lia.
Qed.

Lemma asid_inv_new : asid_inv (new, []).
Proof.
  split_and!; simpl; [|constructor|constructor|].
  - constructor; [done| |done]. unfold new, in_width. repeat constructor; simpl; lia.
  - assert (Hall : forallb (fun j => Bool.eqb (live new (Z.of_nat j)) (Z.of_nat j =? 0)) (seq 0 256) = true) by by vm_compute.
    rewrite forallb_forall in Hall. intros j Hj.
    specialize (Hall (Z.to_nat j)). rewrite Z2Nat.id in Hall by lia.
    rewrite (eqb_prop _ _ (Hall ltac:(apply in_seq; lia))), Z.eqb_eq.
    clear. split; [by left|]. intros [|Hin]; [done|]. by apply elem_of_nil in Hin.
Qed.

(** No two address spaces ever share an identifier. Whatever sequence of
    allocations and frees a kernel makes, the identifiers held are all
    different, none is 0, all fit in eight bits, giving one back never panics,
    and an allocation fails only when all 255 are held. *)
Theorem asids_are_never_shared debug a held :
  steps (asid_step debug) (new, []) (a, held) ->
  NoDup held /\ Forall (fun id => 0 < id < 256) held /\
  (forall id, id ∈ held -> exists a', free debug a id = Done a') /\
  ((alloc a).1 = None <-> length held = 255%nat).
Proof.
  intros Hs. destruct (steps_invariant _ asid_inv (asid_step_inv debug) _ _ Hs asid_inv_new) as (Hwf & Hnd & Hr & Hl).
  simpl in *. rewrite Forall_forall in Hr. assert (Hsub : held ⊆+ (Z.of_nat <$> seq 1 255)).
  { apply NoDup_submseteq; [done|]. intros id Hid. apply list_elem_of_fmap. exists (Z.to_nat id).
    specialize (Hr id Hid). rewrite elem_of_seq. lia. }
  split_and!; [done|by apply Forall_forall| |].
  - intros id Hid. destruct (asid_free_spec debug a id Hwf (Hr id Hid)) as (a' & ? & _). by exists a'.
  - pose proof (asid_alloc_spec a Hwf) as Ha. destruct (alloc a) as [[id|] a']; simpl; split; [done| | |done].
    + intros Hlen. destruct Ha as (Hid & Hfree & _).
      assert (Hex : id :: held ⊆+ (Z.of_nat <$> seq 1 255)).
      { apply NoDup_submseteq; [constructor; [|done]; intros Hin; assert (live a id = true) by (apply Hl; [lia|auto]); congruence|].
        intros x [->|Hx]%elem_of_cons; apply list_elem_of_fmap;
          [exists (Z.to_nat id)|exists (Z.to_nat x); specialize (Hr x Hx)]; rewrite elem_of_seq; lia. }
      apply submseteq_length in Hex. rewrite length_fmap, length_seq in Hex. simpl in Hex. lia.
    + intros _. destruct Ha as [_ Hall]. apply submseteq_length in Hsub. rewrite length_fmap, length_seq in Hsub.
      assert (Hsup : (Z.of_nat <$> seq 1 255) ⊆+ held).
      { apply NoDup_submseteq; [apply (NoDup_fmap_2 _), NoDup_seq|]. intros x Hx. apply list_elem_of_fmap in Hx as (k & -> & Hk).
        apply elem_of_seq in Hk. destruct (proj1 (Hl (Z.of_nat k) ltac:(lia)) (Hall (Z.of_nat k) ltac:(lia))) as [Hz|]; [lia|done]. }
      apply submseteq_length in Hsup. rewrite length_fmap, length_seq in Hsup. lia.
Qed.

Definition demo_asids : Allocator := MkAllocator [7; 0; 0; 0].

Lemma asids_are_never_shared_witness :
  steps (asid_step true) (new, []) (demo_asids, [1; 2]) /\ NoDup [1; 2] /\ (alloc demo_asids).1 = Some 3.
Proof.
  assert (Hs : steps (asid_step true) (new, []) (demo_asids, [1; 2])).
  { apply (steps_step _ _ (MkAllocator [3; 0; 0; 0], [1])); [apply asid_alloc; vm_compute; reflexivity|].
    apply (steps_step _ _ (demo_asids, [2; 1])); [apply asid_alloc; vm_compute; reflexivity|].
    apply (steps_step _ _ (MkAllocator [5; 0; 0; 0], [2])); [apply (asid_free _ _ _ [2] [] 1); vm_compute; reflexivity|].
    apply (steps_step _ _ (demo_asids, [1; 2])); [apply asid_alloc; vm_compute; reflexivity|constructor]. }
  split; [exact Hs|]. split; [apply (asids_are_never_shared true _ _ Hs)|vm_compute; reflexivity].
Defined.

(** ** The set a mask names *)

Definition members (mask : Z) (lo n : nat) : list nat :=
  filter (fun i => Z.testbit mask (Z.of_nat i) = true) (seq lo n).

Lemma members_none mask lo n :
  (forall i, (lo <= i < lo + n)%nat -> Z.testbit mask (Z.of_nat i) = false) -> members mask lo n = [].
Proof.
  intros Hno. destruct (members mask lo n) as [|i l] eqn:Hm; [done|]. exfalso.
  assert (Hi : i ∈ members mask lo n) by (rewrite Hm; left).
  apply list_elem_of_filter in Hi as [Hb Hi]. apply elem_of_seq in Hi. rewrite Hno in Hb by lia. done.
Qed.

Lemma members_ext mask mask' lo n :
  (forall i, (lo <= i < lo + n)%nat -> Z.testbit mask (Z.of_nat i) = Z.testbit mask' (Z.of_nat i)) ->
  members mask lo n = members mask' lo n.
Proof.
  revert lo. induction n as [|n IH]; intros lo Heq; [done|]. unfold members. cbn [seq]. rewrite !filter_cons.
  fold (members mask (S lo) n) (members mask' (S lo) n). rewrite (IH (S lo)) by (intros; apply Heq; lia).
  by rewrite Heq by lia.
Qed.

Lemma members_split mask lo n t :
  (lo <= t < lo + n)%nat -> (forall i, (lo <= i < t)%nat -> Z.testbit mask (Z.of_nat i) = false) ->
  Z.testbit mask (Z.of_nat t) = true -> members mask lo n = t :: members mask (S t) (lo + n - S t).
Proof.
  intros Ht Hlow Hhit. unfold members at 1.
  replace (seq lo n) with (seq lo (t - lo) ++ t :: seq (S t) (lo + n - S t)).
  - rewrite filter_app, filter_cons_True by done.
    change (filter _ (seq lo (t - lo))) with (members mask lo (t - lo)). rewrite members_none; [done|].
    intros; apply Hlow; lia.
  - replace n with ((t - lo) + S (lo + n - S t))%nat at 2 by lia. rewrite seq_app.
    replace (lo + (t - lo))%nat with t by lia. done.
Qed.

Lemma cpus_loop_members fuel lo mask :
  in_width 64 mask -> (forall i, 0 <= i < Z.of_nat lo -> Z.testbit mask i = false) ->
  (64 <= lo + fuel)%nat -> cpus_loop fuel mask = members mask lo (64 - lo).
Proof.
  revert lo mask. induction fuel as [|fuel IH]; intros lo mask Hw Hlow Hf.
  - simpl. replace (64 - lo)%nat with 0%nat by lia. done.
  - cbn [cpus_loop]. unfold next. destruct (Z.eqb_spec mask 0) as [->|Hnz].
    { symmetry. apply members_none. intros. apply Z.testbit_0_l. }
    assert (Ht : (trailing_zeros 64 mask < 64)%nat) by (by apply trailing_zeros_lt).
    set (t := trailing_zeros 64 mask) in *.
    assert (Hhit : Z.testbit mask (Z.of_nat t) = true) by (by apply trailing_zeros_hit).
    assert (Hlo : (lo <= t)%nat).
    { destruct (decide (lo <= t)%nat); [done|]. rewrite Hlow in Hhit by lia. done. }
    assert (Hcl : forall i, 0 <= i -> Z.testbit (Z.land mask (mask - 1)) i = Z.testbit mask i && negb (bool_decide (i = Z.of_nat t))).
    { intros i Hi. apply clear_lowest; [destruct Hw; lia|lia| |done|done]. intros j Hj. by apply (trailing_zeros_low 64). }
    rewrite (members_split mask lo (64 - lo) t); [|lia| |done].
    2: { intros i Hi. apply (trailing_zeros_low 64). fold t. lia. }
    f_equal. replace (lo + (64 - lo) - S t)%nat with (64 - S t)%nat by lia.
    rewrite (IH (S t)); [|apply in_width_bits; [lia|apply Z.land_nonneg; left; apply Hw|]| |lia].
    + apply members_ext. intros i Hi. rewrite Hcl, bool_decide_false by lia. by rewrite andb_true_r.
    + intros i Hi. by rewrite Hcl, (testbit_above 64 mask) by (done || lia).
    + intros i Hi. rewrite Hcl by lia. destruct (decide (i = Z.of_nat t)) as [->|]; [by rewrite bool_decide_true, andb_false_r|].
      by rewrite (trailing_zeros_low 64 mask) by (fold t; lia).
Qed.

Lemma count_ones_members w x : count_ones w x = length (members x 0 w).
Proof.
  revert x. induction w as [|w IH]; intros x; [done|].
  change (count_ones (S w) x) with ((if Z.odd x then 1 else 0) + count_ones w (x / 2))%nat. rewrite IH.
  assert (Hs : forall n k, length (members x (S k) n) = length (members (x / 2) k n)).
  { unfold members. induction n as [|n IHn]; intros k; [done|]. cbn [seq]. rewrite !filter_cons.
    assert (Hbit : Z.testbit x (Z.of_nat (S k)) = Z.testbit (x / 2) (Z.of_nat k))
      by (by rewrite Nat2Z.inj_succ, <- Z.div2_bits by lia).
    rewrite Hbit. case_decide; cbn [length]; by rewrite IHn. }
  unfold members at 2. change (seq 0 (S w)) with (0%nat :: seq 1 w).
  rewrite filter_cons. fold (members x 1 w). rewrite <- Z.bit0_odd. change (Z.of_nat 0) with 0.
  rewrite <- Hs.
  case_decide as Hd; [by rewrite Hd|]. by destruct (Z.testbit x 0).
Qed.

Lemma nth_loop fuel mask k : (k < fuel)%nat -> nth mask k = cpus_loop fuel mask !! k.
Proof.
  revert mask k. induction fuel as [|fuel IH]; intros mask k Hk; [lia|]. cbn [cpus_loop].
  destruct k as [|k]; cbn [nth]; destruct (next mask) as [[i mask']|]; try done. simpl. apply IH. lia.
Qed.

(** A mask is read as the set it is, never as a count. Iterating over it
    gives exactly its set bits, in order, each once; the k-th cpu of the set is
    the k-th of that list, wrapping around, so it is always one of the set's
    cpus, every cpu of the set is reached, and there is none only when the mask
    is empty. *)
Theorem cpu_set_is_its_bits mask k :
  in_width 64 mask ->
  cpus_in mask = members mask 0 64 /\
  match nth_in mask k with
  | Some c => cpus_in mask !! (k mod length (cpus_in mask))%nat = Some c /\ Z.testbit mask (Z.of_nat c) = true
  | None => mask = 0
  end /\
  (forall c, 0 <= c -> Z.testbit mask c = true -> exists k', (k' < 64)%nat /\ nth_in mask k' = Some (Z.to_nat c)).
Proof.
  intros Hw. assert (Hin : cpus_in mask = members mask 0 64).
  { unfold cpus_in. rewrite (cpus_loop_members 64 0); [done|done|lia|lia]. }
  assert (Hnth : forall j, nth_in mask j = if decide (cpus_in mask = []) then None
            else cpus_in mask !! (j mod length (cpus_in mask))%nat).
  { intros j. unfold nth_in. rewrite count_ones_members, <- Hin.
    destruct (decide (cpus_in mask = [])) as [He|He]; [by rewrite He|].
    assert (Hn : length (cpus_in mask) <> 0%nat) by (by destruct (cpus_in mask)). rewrite decide_False by done.
    rewrite (nth_loop 64); [done|]. eapply Nat.lt_le_trans; [by apply Nat.mod_upper_bound|].
    rewrite Hin. unfold members. rewrite length_filter, length_seq. done. }
  assert (Hmem : forall i c, cpus_in mask !! i = Some c -> Z.testbit mask (Z.of_nat c) = true).
  { intros i c Hi. apply list_elem_of_lookup_2 in Hi. rewrite Hin in Hi. by apply list_elem_of_filter in Hi as [? _]. }
  split; [done|]. split.
  - rewrite Hnth. case_decide as Hd.
    + apply Z.bits_inj_0. intros i. destruct (Z.lt_ge_cases i 0); [by apply Z.testbit_neg_r|].
      destruct (Z.lt_ge_cases i 64); [|by apply (testbit_above 64)]. destruct (Z.testbit mask i) eqn:Hb; [|done]. exfalso.
      assert (Hx : Z.to_nat i ∈ cpus_in mask); [|rewrite Hd in Hx; by apply elem_of_nil in Hx].
      rewrite Hin. apply list_elem_of_filter. rewrite elem_of_seq, Z2Nat.id by lia. split; [done|lia].
    + destruct (lookup_lt_is_Some_2 (cpus_in mask) (k mod length (cpus_in mask))) as [c Hc].
      { apply Nat.mod_upper_bound. by destruct (cpus_in mask). }
      rewrite Hc. split; [done|]. by eapply Hmem.
  - intros c Hc0 Hc. assert (c < 64) by (destruct (Z.lt_ge_cases c 64); [done|by rewrite (testbit_above 64) in Hc]).
    assert (Hx : Z.to_nat c ∈ cpus_in mask).
    { rewrite Hin. apply list_elem_of_filter. rewrite elem_of_seq, Z2Nat.id by lia. split; [done|lia]. }
    apply list_elem_of_lookup_1 in Hx as [i Hi]. pose proof (lookup_lt_Some _ _ _ Hi) as Hlt. exists i. split.
    + eapply Nat.lt_le_trans; [exact Hlt|]. rewrite Hin. unfold members. rewrite length_filter, length_seq. done.
    + rewrite Hnth, decide_False by (by intros Hnil; rewrite Hnil in Hi). by rewrite Nat.mod_small.
Qed.

Lemma cpu_set_is_its_bits_witness : cpus_in 14 = [1; 2; 3]%nat /\ nth_in 14 3 = Some 1%nat /\ cpus_in 14 = members 14 0 64.
Proof.
  split; [vm_compute; reflexivity|]. split; [vm_compute; reflexivity|].
  assert (Hw : in_width 64 14) by (unfold in_width; lia). exact (proj1 (cpu_set_is_its_bits 14 3 Hw)).
Defined.

(** ** The bands *)

Lemma contains_iff b va : contains b va = true <-> start b <= va < end_ b.
Proof. unfold contains. by rewrite andb_true_iff, Z.leb_le, Z.ltb_lt. Qed.

Lemma band_of va :
  0 <= va < CODE_MODEL_CEILING ->
  exists b, filter (fun b => contains b va = true) BANDS = [b] /\ contains b va = true.
Proof.
  intros Hva. unfold CODE_MODEL_CEILING in Hva. unfold BANDS.
  repeat (rewrite filter_cons; let Hd := fresh "Hd" in case_decide as Hd;
    rewrite contains_iff in Hd; cbn [start end_ NULL_GUARD PAIR_PAGES RUNTIME_WINDOWS HEAP SERVICE_WINDOWS IMAGE STACK PROCESS_PAGES] in Hd;
    unfold CODE_MODEL_CEILING in Hd; try lia).
  all: try (eexists; split; [reflexivity|]; apply contains_iff; simpl; unfold CODE_MODEL_CEILING; lia).
Qed.

(** The bands cut the low two gigabytes exactly: every address there is in
    one band and in no other, so an image that [check_image] accepts and a
    window asserted to be in its band never meet the heap, the stack or each
    other, and the accepted image can grow no further than the stack's base. *)
Theorem bands_partition va :
  0 <= va < CODE_MODEL_CEILING ->
  exists b, filter (fun b => contains b va = true) BANDS = [b] /\
    (forall s e, check_image s e = Ok tt -> s <= va < e -> b = IMAGE) /\
    (forall w, pair_page w = Done va \/ runtime_window w = Done va \/ service_window w = Done va ->
       va mod PAGE = 0 /\ (b = PAIR_PAGES \/ b = RUNTIME_WINDOWS \/ b = SERVICE_WINDOWS)).
Proof.
  intros Hva. destruct (band_of va Hva) as (b & Hf & Hc). exists b. split; [done|].
  assert (Hone : forall b', b' ∈ BANDS -> contains b' va = true -> b = b').
  { intros b' Hin Hb'. assert (Hx : b' ∈ [b]) by (rewrite <- Hf; by apply list_elem_of_filter).
    by apply list_elem_of_singleton in Hx as ->. }
  split.
  - intros s e Hck Hse. unfold check_image in Hck. destruct (holds IMAGE s e) eqn:Hh; [|by case_match].
    unfold holds in Hh. rewrite !andb_true_iff, Z.ltb_lt, !Z.leb_le in Hh.
    apply Hone; [by do 5 right; left|]. apply contains_iff. lia.
  - intros w Hw. assert (Hp : exists b', placed b' w = Done va /\ (b' = PAIR_PAGES \/ b' = RUNTIME_WINDOWS \/ b' = SERVICE_WINDOWS)).
    { destruct Hw as [Hw|[Hw|Hw]]; eexists; (split; [exact Hw|]); auto. }
    destruct Hp as (b' & Hp & Hb'). unfold placed in Hp. destruct (is_multiple_of w PAGE && contains b' w) eqn:Hm; [|done].
    injection Hp as ->. apply andb_true_iff in Hm as [Hm Hcb]. unfold is_multiple_of in Hm. apply Z.eqb_eq in Hm.
    split; [done|]. rewrite (Hone b'); [done| |done]. destruct Hb' as [->|[->| ->]]; [by do 1 right; left|by do 2 right; left|by do 4 right; left].
Qed.

Lemma bands_partition_witness :
  exists b, filter (fun b => contains b 0x60001000 = true) BANDS = [b] /\ (check_image 0x60000000 0x60002000 = Ok tt -> b = IMAGE).
Proof.
  destruct (bands_partition 0x60001000) as (b & Hf & Hi & _); [unfold CODE_MODEL_CEILING; lia|].
  exists b. split; [exact Hf|]. intros Hck. apply (Hi _ _ Hck). lia.
Defined.

End AddressSpaces.
