(* ===== verification/NifeFs.v ===== *)
(** * nifefs (crates/nifefs): the packed read-only file system

    The boot image's file system: a flat directory and block-aligned file data,
    written by the host's disk tool and parsed by the file server. Indexing out
    of range panics, as the source's does. *)

From S2P Require Import Prelude.
Local Open Scope Z_scope.

Module NifeFs.

Definition BLOCK : Z := 512.
Definition MAGIC : list Z := [67; 82; 75; 82; 48; 48; 48; 50].
Definition DIR_BLOCKS : Z := 10.
Definition HEADER_LEN : Z := 12.
Definition NAME_LEN : Z := 32.
Definition ENTRY_LEN : Z := NAME_LEN + 8.
Definition ENTRIES_IN_FIRST_BLOCK : Z := (BLOCK - HEADER_LEN) / ENTRY_LEN.
Definition MAX_FILES : Z := (DIR_BLOCKS * BLOCK - HEADER_LEN) / ENTRY_LEN.

Inductive Error := BadMagic | TooManyFiles | NameTooLong | NameHasNul | OutOfBounds | Truncated.

Record Entry := MkEntry { name : list Z; start_block : Z; elen : Z }.

Definition len {A} (l : list A) : Z := Z.of_nat (length l).

(** [&b[a..e]] and [b[a..].copy_from_slice(d)] at [a]. *)
Definition sub (b : list Z) (a n : Z) : list Z := take (Z.to_nat n) (drop (Z.to_nat a) b).
Definition slice (b : list Z) (a e : Z) : run (list Z) :=
  if (a <=? e) && (e <=? len b) then Done (sub b a (e - a)) else Panicked.
Definition blit (b : list Z) (a : Z) (d : list Z) : list Z :=
  take (Z.to_nat a) b ++ d ++ drop (Z.to_nat a + length d) b.
Definition copy_into (b : list Z) (a : Z) (d : list Z) : run (list Z) :=
  if a + len d <=? len b then Done (blit b a d) else Panicked.

Definition u32le (b : list Z) (at_ : Z) : run Z :=
  v ← slice b at_ (at_ + 4); Done (from_le_bytes v).

(** [Entry::name_str]: up to the first NUL, when it is text. *)
Definition name_str (e : Entry) : option (list Z) :=
  let end_ := default (Z.to_nat NAME_LEN) (position (Z.eqb 0) (name e)) in
  let s := take end_ (name e) in
  if utf8_valid s then Some s else None.
Definition name_eq (e : Entry) (nm : list Z) : bool := bool_decide (name_str e = Some nm).

(** ** Reading *)

Record Fs := MkFs { image : list Z; count : Z }.

Definition entry_at (img : list Z) (i : Z) : run Entry :=
  let off := HEADER_LEN + i * ENTRY_LEN in
  nm ← slice img off (off + NAME_LEN);
  b ← u32le img (off + NAME_LEN);
  n ← u32le img (off + NAME_LEN + 4);
  Done (MkEntry nm b n).

Definition entry_bounds (image_len start_blk n : Z) : result Error (Z * Z) :=
  let start := start_blk * BLOCK in
  match checked_add 64 start n with
  | None => Err OutOfBounds
  | Some e => if image_len <? e then Err OutOfBounds else Ok (start, e)
  end.

Fixpoint parse_loop (img : list Z) (n : nat) (i : Z) : run (result Error unit) :=
  match n with
  | O => Done (Ok tt)
  | S n' =>
      e ← entry_at img i;
      match entry_bounds (len img) (start_block e) (elen e) with
      | Err x => Done (Err x)
      | Ok _ => parse_loop img n' (i + 1)
      end
  end.

Definition parse (img : list Z) : run (result Error Fs) :=
  if len img <? DIR_BLOCKS * BLOCK then Done (Err Truncated) else
  magic ← slice img 0 8;
  if negb (bool_decide (magic = MAGIC)) then Done (Err BadMagic) else
  n ← u32le img 8;
  if MAX_FILES <? n then Done (Err TooManyFiles) else
  r ← parse_loop img (Z.to_nat n) 0;
  Done (match r with Err x => Err x | Ok _ => Ok (MkFs img n) end).

Definition fs_len (f : Fs) : Z := count f.
Definition is_empty (f : Fs) : bool := count f =? 0.

(** [self.entries().find(|e| e.name_eq(name))]. *)
Fixpoint find_loop (img : list Z) (nm : list Z) (n : nat) (i : Z) : run (option Entry) :=
  match n with
  | O => Done None
  | S n' => e ← entry_at img i; if name_eq e nm then Done (Some e) else find_loop img nm n' (i + 1)
  end.

Definition read (f : Fs) (nm : list Z) : run (option (list Z)) :=
  o ← find_loop (image f) nm (Z.to_nat (count f)) 0;
  match o with
  | None => Done None
  | Some e =>
      match entry_bounds (len (image f)) (start_block e) (elen e) with
      | Err _ => Panicked
      | Ok (a, b) => d ← slice (image f) a b; Done (Some d)
      end
  end.

(** ** Writing *)

Notation file := (list Z * list Z)%type.

Fixpoint check_names (files : list file) : result Error unit :=
  match files with
  | [] => Ok tt
  | (nm, _) :: rest =>
      if NAME_LEN <? len nm then Err NameTooLong
      else if existsb (Z.eqb 0) nm then Err NameHasNul
      else check_names rest
  end.

(** Blocks a file takes: its length rounded up, one at least. *)
Definition blocks_of (data : list Z) : Z := Z.max (div_ceil (len data) BLOCK) 1.

Fixpoint write_loop (files : list file) (i block : Z) (out : list Z) : run (result Error Z * list Z) :=
  match files with
  | [] => Done (Ok block, out)
  | (nm, data) :: rest =>
      let off := HEADER_LEN + i * ENTRY_LEN in
      out ← copy_into out off nm;
      out ← copy_into out (off + NAME_LEN) (to_le_bytes 4 block);
      out ← copy_into out (off + NAME_LEN + 4) (to_le_bytes 4 (wrap 32 (len data)));
      let start := block * BLOCK in
      if len out <? start + len data then Done (Err OutOfBounds, out) else
      out ← copy_into out start data;
      match checked_add 32 block (wrap 32 (blocks_of data)) with
      | None => Panicked
      | Some block' => write_loop rest (i + 1) block' out
      end
  end.

(** The result, and the buffer as it is left. *)
Definition write_image (files : list file) (out : list Z) : run (result Error Z * list Z) :=
  if MAX_FILES <? len files then Done (Err TooManyFiles, out) else
  match check_names files with
  | Err e => Done (Err e, out)
  | Ok _ =>
      let out := replicate (length out) 0 in
      out ← copy_into out 0 MAGIC;
      out ← copy_into out 8 (to_le_bytes 4 (wrap 32 (len files)));
      r ← write_loop files 0 DIR_BLOCKS out;
      Done (match r.1 with Ok block => Ok (block * BLOCK) | Err e => Err e end, r.2)
  end.

Fixpoint blocks_total (files : list file) : Z :=
  match files with [] => 0 | (_, data) :: rest => blocks_of data + blocks_total rest end.
Definition image_size (files : list file) : Z := (DIR_BLOCKS + blocks_total files) * BLOCK.

(** ** Regions of a buffer *)

Lemma lookup_blit b a d i :
  0 <= a -> a + len d <= len b ->
  blit b a d !! i = if decide (Z.to_nat a <= i < Z.to_nat a + length d)%nat then d !! (i - Z.to_nat a)%nat else b !! i.
Proof.
  intros Ha Hl. unfold blit, len in *. assert (Ht : length (take (Z.to_nat a) b) = Z.to_nat a) by (rewrite length_take; lia).
  destruct (decide (i < Z.to_nat a)%nat) as [H1|H1].
  - rewrite decide_False by lia. rewrite lookup_app_l by lia. by apply lookup_take_lt.
  - rewrite lookup_app_r, Ht by lia. destruct (decide (i < Z.to_nat a + length d)%nat) as [H2|H2].
    + rewrite decide_True by lia. rewrite lookup_app_l by lia. done.
    + rewrite decide_False by lia. rewrite lookup_app_r, lookup_drop by lia. f_equal. lia.
Qed.

Lemma length_blit b a d : 0 <= a -> a + len d <= len b -> length (blit b a d) = length b.
Proof. unfold blit, len. intros. rewrite !length_app, length_take, length_drop. lia. Qed.

Lemma lookup_sub b a n i :
  0 <= a -> sub b a n !! i = if decide (i < Z.to_nat n)%nat then b !! (Z.to_nat a + i)%nat else None.
Proof.
  intros Ha. unfold sub. case_decide; [rewrite lookup_take_lt by lia; by rewrite lookup_drop|].
  by rewrite lookup_take_ge by lia.
Qed.

Lemma sub_blit_same b a d : 0 <= a -> a + len d <= len b -> sub (blit b a d) a (len d) = d.
Proof.
  intros Ha Hl. apply list_eq. intros i. rewrite lookup_sub, lookup_blit by done. unfold len in *.
  destruct (decide (i < Z.to_nat (Z.of_nat (length d)))%nat).
  - rewrite decide_True by lia. f_equal. lia.
  - symmetry. apply lookup_ge_None_2. lia.
Qed.

Lemma sub_blit_other b a d a' n :
  0 <= a -> a + len d <= len b -> 0 <= a' -> a' + n <= a \/ a + len d <= a' ->
  sub (blit b a d) a' n = sub b a' n.
Proof.
  intros Ha Hl Ha' Hd. apply list_eq. intros i. rewrite !lookup_sub by done. case_decide; [|done].
  rewrite lookup_blit by done. rewrite decide_False; [done|]. unfold len in *. lia.
Qed.

Lemma sub_blit_part b a d n :
  0 <= a -> a + len d <= len b -> 0 <= n ->
  sub b a (len d + n) = replicate (Z.to_nat (len d + n)) 0 ->
  sub (blit b a d) a (len d + n) = d ++ replicate (Z.to_nat n) 0.
Proof.
  intros Ha Hl Hn Hz. apply list_eq. intros i. apply (f_equal (fun l => l !! i)) in Hz.
  rewrite lookup_sub in Hz |- * by done. unfold len in *. rewrite lookup_blit by (unfold len; lia).
  destruct (decide (i < Z.to_nat (Z.of_nat (length d) + n))%nat) as [Hi|Hi].
  - destruct (decide (Z.to_nat a <= Z.to_nat a + i < Z.to_nat a + length d)%nat) as [Hd|Hd].
    + rewrite lookup_app_l by lia. f_equal. lia.
    + rewrite Hz, lookup_app_r by lia. rewrite !lookup_replicate_2 by lia. done.
  - symmetry. apply lookup_ge_None_2. rewrite length_app, length_replicate. lia.
Qed.

Lemma copy_into_ok b a d : a + len d <= len b -> copy_into b a d = Done (blit b a d).
Proof. intros. unfold copy_into. by destruct (Z.leb_spec (a + len d) (len b)); [|lia]. Qed.

Lemma slice_ok b a n : 0 <= n -> a + n <= len b -> slice b a (a + n) = Done (sub b a n).
Proof.
  intros. unfold slice. destruct (Z.leb_spec a (a + n)); [|lia]. destruct (Z.leb_spec (a + n) (len b)); [|lia].
  cbn [andb]. do 2 f_equal. lia.
Qed.

Lemma u32le_ok b a : a + 4 <= len b -> u32le b a = Done (from_le_bytes (sub b a 4)).
Proof. intros. unfold u32le. by rewrite slice_ok by lia. Qed.

Lemma entry_at_ok img i :
  0 <= i -> HEADER_LEN + (i + 1) * ENTRY_LEN <= len img ->
  entry_at img i = Done (MkEntry (sub img (HEADER_LEN + i * ENTRY_LEN) NAME_LEN)
    (from_le_bytes (sub img (HEADER_LEN + i * ENTRY_LEN + NAME_LEN) 4))
    (from_le_bytes (sub img (HEADER_LEN + i * ENTRY_LEN + NAME_LEN + 4) 4))).
Proof.
  intros Hi Hl. unfold entry_at, ENTRY_LEN, NAME_LEN, HEADER_LEN in *.
  rewrite slice_ok by lia. cbn [mbind run_bind]. by rewrite !u32le_ok by lia.
Qed.

Lemma div_ceil_bounds n : 0 <= n -> n <= div_ceil n BLOCK * BLOCK < n + BLOCK.
Proof.
  intros. unfold div_ceil, BLOCK. pose proof (Z.div_mod (n + 512 - 1) 512). pose proof (Z.mod_pos_bound (n + 512 - 1) 512). lia.
Qed.

Lemma blocks_of_bounds d : 1 <= blocks_of d /\ len d <= blocks_of d * BLOCK.
Proof. unfold blocks_of. pose proof (div_ceil_bounds (len d)). unfold len, BLOCK in *. lia. Qed.

Lemma blocks_total_nonneg files : 0 <= blocks_total files.
Proof. induction files as [|[nm d] files IH]; simpl; [lia|]. pose proof (blocks_of_bounds d). lia. Qed.

(** ** What the writer leaves *)

Definition off (i : Z) : Z := HEADER_LEN + i * ENTRY_LEN.
Definition DIR_END : Z := DIR_BLOCKS * BLOCK.

Definition file_ok (f : file) : Prop :=
  len f.1 <= NAME_LEN /\ existsb (Z.eqb 0) f.1 = false /\ utf8_valid f.1 = true /\ len f.2 < 2 ^ 32.
#[global] Instance file_ok_dec f : Decision (file_ok f).
Proof. unfold file_ok. apply _. Defined.

(** Directory entry [i] describes the file and its data is in place from
    block [b] on. *)
Definition packed (img : list Z) (i b : Z) (f : file) : Prop :=
  DIR_BLOCKS <= b < 2 ^ 32 /\ b * BLOCK + len f.2 <= len img /\
  sub img (off i) NAME_LEN = f.1 ++ replicate (Z.to_nat (NAME_LEN - len f.1)) 0 /\
  sub img (off i + NAME_LEN) 4 = to_le_bytes 4 b /\
  sub img (off i + NAME_LEN + 4) 4 = to_le_bytes 4 (len f.2) /\
  sub img (b * BLOCK) (len f.2) = f.2.

(** A region the loop has not reached, or will not touch. *)
Definition untouched (i block a n : Z) : Prop :=
  0 <= a /\ 0 <= n /\ (a + n <= off i \/ DIR_END <= a /\ a + n <= block * BLOCK).

Definition blank (out : list Z) (i : Z) : Prop := forall a n,
  off i <= a -> 0 <= n -> a + n <= DIR_END -> sub out a n = replicate (Z.to_nat n) 0.

Ltac unfold_layout :=
  unfold untouched, off, DIR_END, HEADER_LEN, ENTRY_LEN, NAME_LEN, DIR_BLOCKS, BLOCK in *.

Lemma len_le4 x : len (to_le_bytes 4 x) = 4.
Proof. unfold len. by rewrite length_to_le. Qed.

(** A write elsewhere. *)
Ltac peel o := unfold o; rewrite sub_blit_other by (rewrite ?len_le4; lia).

(** One turn of the loop: four writes into regions of their own. *)
Lemma write_one out i block nm data :
  0 <= i -> off (i + 1) <= DIR_END -> DIR_BLOCKS <= block < 2 ^ 32 -> block * BLOCK + len data <= len out ->
  len nm <= NAME_LEN -> len data < 2 ^ 32 -> blank out i ->
  exists out', (out ← copy_into out (off i) nm;
                out ← copy_into out (off i + NAME_LEN) (to_le_bytes 4 block);
                out ← copy_into out (off i + NAME_LEN + 4) (to_le_bytes 4 (wrap 32 (len data)));
                if len out <? block * BLOCK + len data then Panicked else copy_into out (block * BLOCK) data) = Done out' /\
    length out' = length out /\ packed out' i block (nm, data) /\ blank out' (i + 1) /\
    forall a n, untouched i block a n -> sub out' a n = sub out a n.
Proof.
  intros Hi Hoff Hb Hl Hnm Hd Hz. rewrite (wrap_small 32 (len data)) by (unfold in_width, len in *; lia).
  assert (Hge : 0 <= len nm /\ 0 <= len data) by (unfold len; lia). unfold_layout.
  rewrite copy_into_ok by lia. cbn [mbind run_bind]. set (o1 := blit out _ nm).
  assert (L1 : len o1 = len out) by (unfold len, o1 in *; rewrite length_blit; unfold len; lia).
  rewrite copy_into_ok by (rewrite len_le4; lia). cbn [mbind run_bind]. set (o2 := blit o1 _ _).
  assert (L2 : len o2 = len out) by (unfold o2; unfold len at 1; rewrite length_blit; rewrite ?len_le4; unfold len in *; lia).
  rewrite copy_into_ok by (rewrite len_le4; lia). cbn [mbind run_bind]. set (o3 := blit o2 _ _).
  assert (L3 : len o3 = len out) by (unfold o3; unfold len at 1; rewrite length_blit; rewrite ?len_le4; unfold len in *; lia).
  destruct (Z.ltb_spec (len o3) (block * 512 + len data)); [lia|]. rewrite copy_into_ok by lia.
  eexists. split; [done|]. set (o4 := blit o3 _ _).
  assert (L4 : len o4 = len out) by (unfold o4; unfold len at 1; rewrite length_blit; unfold len in *; lia).
  assert (Hfar : forall a n, 0 <= a -> 0 <= n -> a + n <= 12 + i * (32 + 8) \/ 12 + (i + 1) * (32 + 8) <= a ->
            a + n <= block * 512 -> sub o4 a n = sub out a n).
  { intros a n Ha Hn Hc1 Hc2. peel o4. peel o3. peel o2. peel o1. done. }
  split_and!; [unfold len in L4; lia| | |].
  - unfold packed. unfold_layout. cbn [fst snd]. split_and!; [lia|lia|lia| | | |].
    + peel o4. peel o3. peel o2. unfold o1.
      rewrite <- (sub_blit_part out (12 + i * (32 + 8)) nm (32 - len nm)); [f_equal; lia|lia|lia|lia|].
      replace (len nm + (32 - len nm)) with 32 by lia. apply Hz; unfold_layout; lia.
    + peel o4. peel o3. unfold o2.
      rewrite <- (len_le4 block). apply sub_blit_same; rewrite ?len_le4; lia.
    + peel o4. unfold o3. rewrite <- (len_le4 (len data)) at 2.
      apply sub_blit_same; rewrite ?len_le4; lia.
    + unfold o4. apply sub_blit_same; lia.
  - intros a n Ha Hn Hend. rewrite Hfar by (unfold_layout; lia). apply Hz; unfold_layout; lia.
  - intros a n (Ha & Hn & Hc). apply Hfar; lia.
Qed.

Lemma write_loop_spec files i block out :
  0 <= i -> i + len files <= MAX_FILES -> DIR_BLOCKS <= block -> block + blocks_total files < 2 ^ 32 ->
  (block + blocks_total files) * BLOCK <= len out -> Forall file_ok files -> blank out i ->
  exists img, write_loop files i block out = Done (Ok (block + blocks_total files), img) /\
    length img = length out /\ (forall a n, untouched i block a n -> sub img a n = sub out a n) /\
    forall k f, files !! k = Some f -> exists b, packed img (i + Z.of_nat k) b f.
Proof.
  revert i block out. induction files as [|[nm data] files IH]; intros i block out Hi Hn Hb Hmax Hl Hok Hz.
  { exists out. simpl. rewrite Z.add_0_r. split_and!; try done. }
  apply Forall_cons in Hok as [(Hnm & _ & _ & Hd) Hok]. cbn [fst snd] in *.
  cbn [blocks_total] in *. pose proof (blocks_of_bounds data) as [Hb1 Hb2]. pose proof (blocks_total_nonneg files).
  assert (Hn' : len ((nm, data) :: files) = 1 + len files) by (unfold len; simpl; lia). rewrite Hn' in Hn.
  assert (HM : MAX_FILES = 127) by reflexivity. assert (0 <= len files) by (unfold len; lia).
  destruct (write_one out i block nm data) as (out' & Hw & Hlen & Hp & Hz' & Hu);
    [done|unfold_layout; lia|lia|unfold BLOCK in *; lia|done|done|done|].
  destruct (IH (i + 1) (block + blocks_of data) out') as (img & Hw2 & Hlen2 & Hu2 & Hp2);
    [lia|lia|lia|lia|unfold len in *; rewrite Hlen; lia|done|done|].
  exists img. cbn [write_loop]. fold (off i).
  destruct (copy_into out (off i) nm) as [x1|] eqn:E1; [|done]. cbn [mbind run_bind] in Hw |- *.
  destruct (copy_into x1 _ _) as [x2|] eqn:E2; [|done]. cbn [mbind run_bind] in Hw |- *.
  destruct (copy_into x2 _ _) as [x3|] eqn:E3; [|done]. cbn [mbind run_bind] in Hw |- *.
  destruct (len x3 <? _); [done|]. rewrite Hw. cbn [mbind run_bind].
  rewrite wrap_small by (unfold in_width, DIR_BLOCKS in *; lia). unfold checked_add. rewrite decide_True by lia.
  rewrite Hw2, Z.add_assoc. split_and!; [done|congruence| |].
  - intros a n Hun. rewrite Hu2; [by apply Hu|]. unfold_layout. lia.
  - intros [|k] f Hf; [|replace (i + Z.of_nat (S k)) with (i + 1 + Z.of_nat k) by lia; by apply Hp2].
    injection Hf as <-. rewrite Z.add_0_r. exists block. destruct Hp as (Hbr & Hbl & Q1 & Q2 & Q3 & Q4).
    unfold packed. cbn [fst snd] in *. assert (0 <= len data) by (unfold len; lia).
    assert (Hli : len img = len out') by (unfold len; by rewrite Hlen2). rewrite Hli.
    split; [done|]. split; [done|]. rewrite !Hu2 by (unfold_layout; lia). done.
Qed.

(** ** What the reader makes of it *)

Lemma sub_bytes_ok b a n : bytes_ok b -> bytes_ok (sub b a n).
Proof. intros. unfold bytes_ok, sub. by apply Forall_take, Forall_drop. Qed.

Lemma position_app_none (p : Z -> bool) l1 l2 :
  existsb p l1 = false -> position p (l1 ++ l2) = (fun i => (length l1 + i)%nat) <$> position p l2.
Proof.
  induction l1 as [|x l1 IH]; simpl; [by destruct (position p l2)|]. intros [Hx Hl]%orb_false_iff.
  rewrite Hx, IH by done. by destruct (position p l2).
Qed.

Lemma name_str_packed nm b n :
  len nm <= NAME_LEN -> existsb (Z.eqb 0) nm = false -> utf8_valid nm = true ->
  name_str (MkEntry (nm ++ replicate (Z.to_nat (NAME_LEN - len nm)) 0) b n) = Some nm.
Proof.
  intros Hl Hn Hu. unfold name_str. cbn [name]. rewrite position_app_none by done.
  set (k := Z.to_nat (NAME_LEN - len nm)).
  assert (Htake : take (default (Z.to_nat NAME_LEN) ((fun i => (length nm + i)%nat) <$> position (Z.eqb 0) (replicate k 0)))
            (nm ++ replicate k 0) = nm).
  { destruct k as [|k'] eqn:Hk; simpl.
    - rewrite app_nil_r. apply take_ge. unfold len, NAME_LEN in *. lia.
    - rewrite Nat.add_0_r. apply take_app_length. }
  rewrite Htake. by rewrite Hu.
Qed.

Lemma entry_bounds_ok img_len b n :
  0 <= n -> b * BLOCK + n < 2 ^ 64 -> b * BLOCK + n <= img_len -> entry_bounds img_len b n = Ok (b * BLOCK, b * BLOCK + n).
Proof.
  intros. unfold entry_bounds, checked_add. rewrite decide_True by done.
  by destruct (Z.ltb_spec img_len (b * BLOCK + n)); [lia|].
Qed.

(** The entry the reader sees for a packed file, and the bytes it leads to. *)
Lemma packed_entry img i b f :
  0 <= i -> off (i + 1) <= len img -> packed img i b f -> file_ok f ->
  exists e, entry_at img i = Done e /\ name_str e = Some f.1 /\
    entry_bounds (len img) (start_block e) (elen e) = Ok (b * BLOCK, b * BLOCK + len f.2) /\
    slice img (b * BLOCK) (b * BLOCK + len f.2) = Done f.2.
Proof.
  intros Hi Hl (Hb & Hbl & Q1 & Q2 & Q3 & Q4) (Hn & Hz & Hu & Hd). assert (0 <= len f.2) by (unfold len; lia).
  rewrite entry_at_ok by (unfold off in Hl; lia). fold (off i). rewrite Q1, Q2, Q3.
  eexists. split; [done|]. cbn [start_block elen]. rewrite !from_to_le by (unfold DIR_BLOCKS in *; change (256 ^ Z.of_nat 4) with (2 ^ 32); lia).
  split; [by apply name_str_packed|]. split; [|rewrite slice_ok by lia; by rewrite Q4].
  apply entry_bounds_ok; unfold BLOCK in *; lia.
Qed.

Section packed_image.
Context (img : list Z) (files : list (list Z * list Z)).
Hypothesis Hall : forall k f, files !! k = Some f -> exists b, packed img (Z.of_nat k) b f.
Hypothesis Hok : Forall file_ok files.
Hypothesis Hroom : off (len files) <= len img.

Lemma entry_of k f :
  files !! k = Some f ->
  exists e b, entry_at img (Z.of_nat k) = Done e /\ name_str e = Some f.1 /\
    entry_bounds (len img) (start_block e) (elen e) = Ok (b * BLOCK, b * BLOCK + len f.2) /\
    slice img (b * BLOCK) (b * BLOCK + len f.2) = Done f.2.
Proof.
  intros Hk. destruct (Hall k f Hk) as [b Hb]. pose proof (lookup_lt_Some _ _ _ Hk).
  destruct (packed_entry img (Z.of_nat k) b f) as (e & ?); [lia| |done|by eapply Forall_lookup_1|eauto].
  unfold off, len, ENTRY_LEN, NAME_LEN, HEADER_LEN in *. lia.
Qed.

Lemma parse_loop_packed n k : (k + n = length files)%nat -> parse_loop img n (Z.of_nat k) = Done (Ok tt).
Proof.
  revert k. induction n as [|n IH]; intros k Hk; [done|].
  destruct (lookup_lt_is_Some_2 files k) as [f Hf]; [lia|].
  destruct (entry_of k f Hf) as (e & b & He & _ & Hb & _). cbn [parse_loop]. rewrite He. cbn [mbind run_bind].
  rewrite Hb. replace (Z.of_nat k + 1) with (Z.of_nat (S k)) by lia. apply IH. lia.
Qed.

Lemma find_loop_packed nm n k :
  (k + n = length files)%nat ->
  match List.find (fun f => bool_decide (f.1 = nm)) (drop k files) with
  | None => find_loop img nm n (Z.of_nat k) = Done None
  | Some f => exists e b, find_loop img nm n (Z.of_nat k) = Done (Some e) /\
      entry_bounds (len img) (start_block e) (elen e) = Ok (b * BLOCK, b * BLOCK + len f.2) /\
      slice img (b * BLOCK) (b * BLOCK + len f.2) = Done f.2
  end.
Proof.
  revert k. induction n as [|n IH]; intros k Hk; [by rewrite drop_ge by lia|].
  destruct (lookup_lt_is_Some_2 files k) as [f Hf]; [lia|]. rewrite (drop_S _ _ _ Hf). cbn [List.find].
  destruct (entry_of k f Hf) as (e & b & He & Hn & Hb & Hs). cbn [find_loop]. rewrite He. cbn [mbind run_bind].
  unfold name_eq. rewrite Hn. destruct (decide (f.1 = nm)) as [Heq|Heq].
  - rewrite bool_decide_true by done. rewrite bool_decide_true by congruence. eauto.
  - rewrite bool_decide_false by done. rewrite bool_decide_false by congruence.
    replace (Z.of_nat k + 1) with (Z.of_nat (S k)) by lia. apply IH. lia.
Qed.
End packed_image.

Lemma check_names_ok files : Forall file_ok files -> check_names files = Ok tt.
Proof.
  induction 1 as [|[nm d] files (Hn & Hz & _) _ IH]; [done|]. simpl in *.
  destruct (Z.ltb_spec NAME_LEN (len nm)); [lia|]. by rewrite Hz.
Qed.

Lemma sub_replicate m a n : 0 <= a -> 0 <= n -> a + n <= Z.of_nat m -> sub (replicate m 0) a n = replicate (Z.to_nat n) 0.
Proof. intros. unfold sub. rewrite drop_replicate, take_replicate. f_equal. lia. Qed.

(** The header and the blank directory the loop starts from. *)
Lemma header_written n files :
  DIR_END <= Z.of_nat n ->
  exists out, (out ← copy_into (replicate n 0) 0 MAGIC; copy_into out 8 (to_le_bytes 4 files)) = Done out /\
    length out = n /\ blank out 0 /\ sub out 0 8 = MAGIC /\ sub out 8 4 = to_le_bytes 4 files.
Proof.
  intros Hn. assert (Hr : len (replicate n 0) = Z.of_nat n) by (unfold len; by rewrite length_replicate).
  assert (Hm : len MAGIC = 8) by done. unfold DIR_END, DIR_BLOCKS, BLOCK in Hn.
  rewrite copy_into_ok by lia. cbn [mbind run_bind]. set (o1 := blit _ 0 MAGIC).
  assert (L1 : len o1 = Z.of_nat n) by (unfold o1; unfold len at 1; rewrite length_blit; rewrite ?length_replicate; lia).
  rewrite copy_into_ok by (rewrite len_le4; lia). eexists. split; [done|]. set (o2 := blit _ 8 _).
  split_and!.
  - unfold o2. rewrite length_blit by (rewrite ?len_le4; lia). unfold len in L1. lia.
  - intros a k Ha Hk He. unfold_layout. peel o2. peel o1. apply sub_replicate; lia.
  - peel o2. unfold o1. change 8 with (len MAGIC). apply sub_blit_same; lia.
  - unfold o2. rewrite <- (len_le4 files) at 1. apply sub_blit_same; rewrite ?len_le4; lia.
Qed.

(** ** Main theorems *)

(** C25: what the disk tool packs is what the file server reads. For files with
    usable names that fit the buffer, [write_image] succeeds and reports
    [image_size]; [parse] accepts the image; and reading a name gives exactly
    the bytes of the first file packed under it, or nothing. *)
Theorem image_round_trips files out nm :
  Forall file_ok files -> len files <= MAX_FILES -> image_size files <= len out ->
  DIR_BLOCKS + blocks_total files < 2 ^ 32 ->
  exists img fs, write_image files out = Done (Ok (image_size files), img) /\ length img = length out /\
    parse img = Done (Ok fs) /\ fs_len fs = len files /\
    read fs nm = Done (snd <$> List.find (fun f => bool_decide (f.1 = nm)) files).
Proof.
  intros Hok Hn Hs Hb. assert (HM : MAX_FILES = 127) by reflexivity. pose proof (blocks_total_nonneg files).
  assert (0 <= len files) by (unfold len; lia). unfold image_size in Hs.
  assert (Hdir : DIR_END <= len out) by (unfold DIR_END, BLOCK in *; lia).
  destruct (header_written (length out) (len files) Hdir) as (o & Ho & Hol & Hblank & Hmagic & Hcount).
  destruct (write_loop_spec files 0 DIR_BLOCKS o) as (img & Hw & Hil & Hu & Hp);
    [lia|lia|lia|done|unfold len in *; rewrite Hol; lia|done|done|].
  exists img, (MkFs img (len files)).
  assert (Hli : len img = len out) by (unfold len; congruence).
  assert (Hroom : off (len files) <= len img) by (rewrite Hli; unfold_layout; lia).
  split_and!; [|congruence| |done|].
  - unfold write_image. destruct (Z.ltb_spec MAX_FILES (len files)); [lia|]. rewrite check_names_ok by done.
    rewrite (wrap_small 32) by (unfold in_width; lia).
    destruct (copy_into (replicate (length out) 0) 0 MAGIC) as [o1|]; [|done]. cbn [mbind run_bind] in Ho |- *.
    rewrite Ho. cbn [mbind run_bind]. rewrite Hw. done.
  - unfold parse. fold DIR_END. destruct (Z.ltb_spec (len img) DIR_END); [lia|].
    unfold DIR_END, DIR_BLOCKS, BLOCK in Hdir.
    change (slice img 0 8) with (slice img 0 (0 + 8)). rewrite slice_ok by lia. cbn [mbind run_bind].
    rewrite Hu, Hmagic, bool_decide_true by (unfold_layout; lia || done). cbn [negb].
    rewrite u32le_ok, Hu, Hcount, from_to_le by (unfold_layout; try change (256 ^ Z.of_nat 4) with (2 ^ 32); lia).
    cbn [mbind run_bind]. destruct (Z.ltb_spec MAX_FILES (len files)); [lia|].
    change (parse_loop img (Z.to_nat (len files)) 0) with (parse_loop img (Z.to_nat (len files)) (Z.of_nat 0)).
    rewrite (parse_loop_packed img files Hp Hok Hroom) by (unfold len; lia). done.
  - unfold read. cbn [image count].
    pose proof (find_loop_packed img files Hp Hok Hroom nm (Z.to_nat (len files)) 0 ltac:(unfold len; lia)) as Hf.
    rewrite drop_0 in Hf. change (Z.of_nat 0) with 0 in Hf. destruct (List.find _ files) as [f|].
    + destruct Hf as (e & b & -> & Hbd & Hsl). cbn [mbind run_bind]. rewrite Hbd, Hsl. done.
    + by rewrite Hf.
Qed.

Lemma image_round_trips_witness :
  exists img fs, write_image [([109], [104; 105]); ([97; 98], [])] (replicate (Z.to_nat 6144) 7) = Done (Ok 6144, img) /\
    parse img = Done (Ok fs) /\ read fs [109] = Done (Some [104; 105]).
Proof.
  destruct (image_round_trips [([109], [104; 105]); ([97; 98], [])] (replicate (Z.to_nat 6144) 7) [109])
    as (img & fs & H1 & _ & H2 & _ & H3).
  - vm_decide.
  - vm_compute. discriminate.
  - unfold len. rewrite length_replicate. vm_compute. discriminate.
  - vm_compute. reflexivity.
  - exists img, fs. split; [exact H1|]. split; [exact H2|exact H3].
Defined.

(** Every entry of an accepted image is in bounds. *)
Lemma parse_loop_safe img n k :
  off (Z.of_nat k + Z.of_nat n) <= len img ->
  exists r, parse_loop img n (Z.of_nat k) = Done r /\
    (r = Ok tt -> forall j, (k <= j < k + n)%nat ->
       exists e ab, entry_at img (Z.of_nat j) = Done e /\ entry_bounds (len img) (start_block e) (elen e) = Ok ab).
Proof.
  revert k. induction n as [|n IH]; intros k Hl; [exists (Ok tt); split; [done|lia]|]. cbn [parse_loop].
  assert (Ho : off (Z.of_nat k + 1) <= len img) by (unfold_layout; lia).
  rewrite entry_at_ok by (unfold off in Ho; lia). cbn [mbind run_bind].
  set (e := MkEntry _ _ _). destruct (entry_bounds (len img) (start_block e) (elen e)) as [ab|x] eqn:Hb;
    [|exists (Err x); done].
  destruct (IH (S k)) as (r & Hr & Hall); [unfold_layout; lia|].
  replace (Z.of_nat k + 1) with (Z.of_nat (S k)) by lia. exists r. split; [done|]. intros -> j Hj.
  destruct (decide (j = k)) as [->|]; [|apply Hall; [done|lia]].
  exists e, ab. split; [|done]. by rewrite entry_at_ok by (unfold off in Ho; lia).
Qed.

Lemma find_loop_safe img nm n k :
  (forall j, (k <= j < k + n)%nat ->
     exists e ab, entry_at img (Z.of_nat j) = Done e /\ entry_bounds (len img) (start_block e) (elen e) = Ok ab) ->
  find_loop img nm n (Z.of_nat k) = Done None \/
  exists j e ab, find_loop img nm n (Z.of_nat k) = Done (Some e) /\ entry_at img (Z.of_nat j) = Done e /\
    entry_bounds (len img) (start_block e) (elen e) = Ok ab.
Proof.
  revert k. induction n as [|n IH]; intros k Hall; [by left|]. cbn [find_loop].
  destruct (Hall k) as (e & ab & He & Hb); [lia|]. rewrite He. cbn [mbind run_bind].
  destruct (name_eq e nm); [right; eauto 10|].
  replace (Z.of_nat k + 1) with (Z.of_nat (S k)) by lia. apply IH. intros; apply Hall; lia.
Qed.

Lemma slice_bytes_ok b a e v : bytes_ok b -> slice b a e = Done v -> bytes_ok v.
Proof. intros Hb. unfold slice. destruct (_ && _); [|done]. intros Hv. injection Hv as <-. by apply sub_bytes_ok. Qed.

Lemma entry_at_sizes img i e : bytes_ok img -> entry_at img i = Done e -> 0 <= start_block e /\ 0 <= elen e.
Proof.
  intros Hb He. unfold entry_at, u32le in He. set (o := HEADER_LEN + i * ENTRY_LEN) in He.
  destruct (slice img o (o + NAME_LEN)) as [nm|]; [|done]. cbn [mbind run_bind] in He.
  destruct (slice img (o + NAME_LEN) (o + NAME_LEN + 4)) as [v1|] eqn:H1; [|done]. cbn [mbind run_bind] in He.
  destruct (slice img (o + NAME_LEN + 4) _) as [v2|] eqn:H2; [|done]. cbn [mbind run_bind] in He. injection He as <-.
  cbn [start_block elen].
  split; apply from_le_range; [exact (slice_bytes_ok _ _ _ _ Hb H1)|exact (slice_bytes_ok _ _ _ _ Hb H2)].
Qed.

(** No image can make the file server read out of bounds. On any bytes
    [parse] answers, with an error or with a file system; and in a file system
    it accepted, reading any name answers, and what it answers are bytes of the
    image at the place it lies. *)
Theorem parsed_image_is_safe img nm :
  bytes_ok img ->
  (exists e, parse img = Done (Err e)) \/
  exists fs, parse img = Done (Ok fs) /\ fs_len fs <= MAX_FILES /\
    (read fs nm = Done None \/
     exists a d, read fs nm = Done (Some d) /\ 0 <= a /\ a + len d <= len img /\ d = sub img a (len d)).
Proof.
  intros Hbytes. unfold parse. fold DIR_END. destruct (Z.ltb_spec (len img) DIR_END) as [|Hl]; [left; by eexists|].
  assert (Hl' : 5120 <= len img) by exact Hl.
  change (slice img 0 8) with (slice img 0 (0 + 8)). rewrite slice_ok by lia. cbn [mbind run_bind].
  destruct (negb _); [left; by eexists|]. rewrite u32le_ok by lia. cbn [mbind run_bind].
  set (n := from_le_bytes (sub img 8 4)). assert (Hn0 : 0 <= n) by (apply from_le_range; by apply sub_bytes_ok).
  destruct (Z.ltb_spec MAX_FILES n) as [|Hn]; [left; by eexists|]. assert (HM : MAX_FILES = 127) by reflexivity.
  destruct (parse_loop_safe img (Z.to_nat n) 0) as (r & Hr & Hall); [unfold_layout; lia|].
  change (Z.of_nat 0) with 0 in Hr. rewrite Hr. cbn [mbind run_bind].
  destruct r as [[]|x]; [|left; by eexists]. right. eexists. split; [done|]. split; [done|].
  unfold read. cbn [image count].
  destruct (find_loop_safe img nm (Z.to_nat n) 0 (Hall eq_refl)) as [Hf|(j & e & ab & Hf & He & Hb)];
    change (Z.of_nat 0) with 0 in Hf; rewrite Hf; cbn [mbind run_bind]; [by left|right].
  rewrite Hb. destruct (entry_at_sizes _ _ _ Hbytes He) as [Hs He2]. unfold entry_bounds, checked_add in Hb.
  case_decide; [|done]. destruct (Z.ltb_spec (len img) (start_block e * BLOCK + elen e)); [done|]. injection Hb as <-.
  rewrite slice_ok by done. cbn [mbind run_bind]. eexists (start_block e * BLOCK), _. split; [done|].
  assert (Hsl : len (sub img (start_block e * BLOCK) (elen e)) = elen e).
  { unfold sub, len in *. rewrite length_take, length_drop. unfold BLOCK in *. lia. }
  rewrite Hsl. split_and!; [unfold BLOCK; lia|done|done].
Qed.

Definition demo_image : list Z :=
  match write_image [([109], [104; 105])] (replicate (Z.to_nat 5632) 7) with Done (_, img) => img | Panicked => [] end.

Lemma parsed_image_is_safe_witness :
  bytes_ok demo_image /\
  exists fs a d, parse demo_image = Done (Ok fs) /\ read fs [109] = Done (Some d) /\ d = [104; 105] /\
    0 <= a /\ a + len d <= len demo_image /\ d = sub demo_image a (len d).
Proof.
  assert (Hb : bytes_ok demo_image) by vm_decide. split; [exact Hb|].
  destruct (parsed_image_is_safe demo_image [109] Hb) as [[e He]|(fs & Hp & _ & [Hr|(a & d & Hr & Ha)])].
  - vm_compute in He. discriminate.
  - exfalso. vm_compute in Hp. injection Hp as <-. vm_compute in Hr. discriminate.
  - assert (Hd : d = [104; 105]) by (vm_compute in Hp; injection Hp as <-; vm_compute in Hr; congruence).
    exists fs, a, d. split; [exact Hp|]. split; [exact Hr|]. split; [exact Hd|exact Ha].
Defined.

End NifeFs.
