(* ===== verification/Glob.v ===== *)
(** * Glob patterns (crates/glob)

    The matcher walks the pattern and the name once, backtracking only to the
    last star, and counts what it scans. A byte is a [Z]; positions are [nat].
    The reference is the declarative reading of a pattern as a list of tokens. *)

From S2P Require Import Prelude.
Local Open Scope Z_scope.

Module Glob.

Definition STAR : Z := 42.
Definition QUESTION : Z := 63.
Definition BACKSLASH : Z := 92.
Definition OPEN : Z := 91.
Definition CLOSE : Z := 93.
Definition BANG : Z := 33.
Definition CARET : Z := 94.
Definition DASH : Z := 45.
Definition DOT : Z := 46.

Inductive Dot := Special | Ordinary.
#[export] Instance Dot_eq_dec : EqDecision Dot.
Proof. solve_decision. Defined.

Inductive Elem :=
  | Star
  | Any (next : nat)
  | Byte (byte : Z) (next : nat)
  | Class (hit : bool) (next : nat).

Definition is_byte (o : option Z) (b : Z) : bool := bool_decide (o = Some b).

(** [class_at]'s loop from [k]: whether the class closes, with the verdict on
    [c] and the position after it, and what was scanned. *)
Fixpoint class_loop (fuel : nat) (pattern : list Z) (c : Z) (negated : bool)
    (k scanned : nat) (hit at_start : bool) : option (bool * nat) * nat :=
  match fuel with
  | O => (None, scanned)
  | S fuel' =>
      match pattern !! k with
      | None => (None, scanned)
      | Some byte =>
          let scanned := S scanned in
          if (byte =? CLOSE) && negb at_start then (Some (xorb hit negated, S k), scanned) else
          let '(lo, after_lo, scanned) :=
            match pattern !! S k with
            | Some escaped => if byte =? BACKSLASH then (escaped, S (S k), S scanned) else (byte, S k, scanned)
            | None => (byte, S k, scanned)
            end in
          let ranged := is_byte (pattern !! after_lo) DASH &&
            match pattern !! S after_lo with Some b => negb (b =? CLOSE) | None => false end in
          if ranged then
            match pattern !! S after_lo with
            | None => (None, scanned)
            | Some b =>
                let start := S after_lo in
                let '(hi, after_hi) :=
                  match pattern !! S start with
                  | Some escaped => if b =? BACKSLASH then (escaped, S (S start)) else (b, S start)
                  | None => (b, S start)
                  end in
                class_loop fuel' pattern c negated after_hi (scanned + (after_hi - after_lo))
                  (hit || ((lo <=? c) && (c <=? hi))) false
            end
          else class_loop fuel' pattern c negated after_lo scanned (hit || (lo =? c)) false
      end
  end.

Definition class_at (pattern : list Z) (open : nat) (c : Z) : option (bool * nat) * nat :=
  let negated := is_byte (pattern !! S open) BANG || is_byte (pattern !! S open) CARET in
  let k := if negated then S (S open) else S open in
  class_loop (S (length pattern)) pattern c negated k (if negated then 2 else 1) false true.

Definition decode (pattern : list Z) (j : nat) (c : Z) : option (Elem * nat) :=
  match pattern !! j with
  | None => None
  | Some byte => Some (
      if byte =? STAR then (Star, 1%nat)
      else if byte =? QUESTION then (Any (S j), 1%nat)
      else if byte =? BACKSLASH then
        match pattern !! S j with
        | Some escaped => (Byte escaped (S (S j)), 2%nat)
        | None => (Byte BACKSLASH (S j), 1%nat)
        end
      else if byte =? OPEN then
        match class_at pattern j c with
        | (Some (hit, next), scanned) => (Class hit next, scanned)
        | (None, scanned) => (Byte OPEN (S j), scanned)
        end
      else (Byte byte (S j), 1%nat))
  end.

Definition opens_with_a_literal_dot (pattern : list Z) : bool :=
  match decode pattern 0 0 with Some (Byte b _, _) => b =? DOT | _ => false end.

(** Stars left at the end of the pattern match nothing more. *)
Fixpoint skip_stars (fuel : nat) (pattern : list Z) (j steps : nat) : nat * nat :=
  match fuel with
  | O => (j, steps)
  | S fuel' => if is_byte (pattern !! j) STAR then skip_stars fuel' pattern (S j) (S steps) else (j, steps)
  end.

(** The loop; [star] is the position after the last star and how much of the
    name it has absorbed. [None] is fuel run out. *)
Fixpoint match_loop (fuel : nat) (pattern name : list Z) (i j : nat) (star : option (nat * nat)) (steps : nat)
    : option (bool * nat) :=
  match fuel with
  | O => None
  | S fuel' =>
      match name !! i with
      | None =>
          let '(j', steps') := skip_stars (length pattern) pattern j steps in
          Some (bool_decide (j' = length pattern), steps')
      | Some c =>
          let backtrack steps :=
            match star with
            | Some (resume, absorbed) =>
                match_loop fuel' pattern name (S absorbed) resume (Some (resume, S absorbed)) (S steps)
            | None => Some (false, steps)
            end in
          match decode pattern j c with
          | None => backtrack steps
          | Some (elem, scanned) =>
              let steps := (steps + scanned)%nat in
              match elem with
              | Star => match_loop fuel' pattern name i (S j) (Some (S j, i)) steps
              | Any next => match_loop fuel' pattern name (S i) next star steps
              | Byte byte next =>
                  if byte =? c then match_loop fuel' pattern name (S i) next star steps else backtrack steps
              | Class hit next =>
                  if hit then match_loop fuel' pattern name (S i) next star steps else backtrack steps
              end
          end
      end
  end.

(** The turns the loop can take. *)
Definition turns (pattern name : list Z) : nat := (S (length name) * S (length pattern))%nat.

Definition match_steps (pattern name : list Z) (dot : Dot) : option (bool * nat) :=
  if bool_decide (dot = Special) && is_byte (name !! 0%nat) DOT && negb (opens_with_a_literal_dot pattern)
  then Some (false, 0%nat)
  else match_loop (turns pattern name) pattern name 0 0 None 0.

Definition matches_with (pattern name : list Z) (dot : Dot) : option bool := fst <$> match_steps pattern name dot.
Definition matches (pattern name : list Z) : option bool := matches_with pattern name Special.

Fixpoint has_magic_loop (fuel : nat) (pattern : list Z) (j : nat) : bool :=
  match fuel with
  | O => false
  | S fuel' =>
      match decode pattern j 0 with
      | None => false
      | Some (Byte _ next, _) => has_magic_loop fuel' pattern next
      | Some _ => true
      end
  end.
Definition has_magic (pattern : list Z) : bool := has_magic_loop (S (length pattern)) pattern 0.

(** [room] is the length of the caller's buffer. *)
Fixpoint literal_loop (fuel : nat) (pattern : list Z) (j : nat) (room : nat) : option (list Z) :=
  match fuel with
  | O => Some []
  | S fuel' =>
      match decode pattern j 0 with
      | None => Some []
      | Some (Byte b next, _) =>
          match room with O => None | S room' => cons b <$> literal_loop fuel' pattern next room' end
      | Some _ => None
      end
  end.
Definition literal (pattern : list Z) (room : nat) : option (list Z) :=
  literal_loop (S (length pattern)) pattern 0 room.

Definition cost_bound (pattern_len name_len : Z) : Z :=
  let iterations := saturating_mul 64 (saturating_add 64 name_len 2)
    (saturating_add 64 (saturating_add 64 name_len pattern_len) 1) in
  saturating_add 64 (saturating_add 64
    (saturating_mul 64 iterations (saturating_add 64 (saturating_mul 64 pattern_len 2) 2)) pattern_len) 2.

(** ** Patterns as tokens: the reference *)

Inductive Tok :=
  | TStar
  | TAny
  | TLit (byte : Z)
  | TClass (negated : bool) (ranges : list (Z * Z)).
#[export] Instance Tok_eq_dec : EqDecision Tok.
Proof. solve_decision. Defined.

(** The members of a bracket expression from [k] on, and where it ends. *)
Fixpoint class_items (fuel : nat) (pattern : list Z) (k : nat) (at_start : bool) : option (list (Z * Z) * nat) :=
  match fuel with
  | O => None
  | S fuel' =>
      match pattern !! k with
      | None => None
      | Some byte =>
          if (byte =? CLOSE) && negb at_start then Some ([], S k) else
          let '(lo, after_lo) :=
            match pattern !! S k with
            | Some escaped => if byte =? BACKSLASH then (escaped, S (S k)) else (byte, S k)
            | None => (byte, S k)
            end in
          let '(hi, next) :=
            match pattern !! after_lo, pattern !! S after_lo with
            | Some d, Some b =>
                if (d =? DASH) && negb (b =? CLOSE) then
                  match pattern !! S (S after_lo) with
                  | Some escaped => if b =? BACKSLASH then (escaped, S (S (S after_lo))) else (b, S (S after_lo))
                  | None => (b, S (S after_lo))
                  end
                else (lo, after_lo)
            | _, _ => (lo, after_lo)
            end in
          match class_items fuel' pattern next false with
          | Some (items, e) => Some ((lo, hi) :: items, e)
          | None => None
          end
      end
  end.

Definition parse_tok (pattern : list Z) (j : nat) : option (Tok * nat) :=
  match pattern !! j with
  | None => None
  | Some byte => Some (
      if byte =? STAR then (TStar, S j)
      else if byte =? QUESTION then (TAny, S j)
      else if byte =? BACKSLASH then
        match pattern !! S j with Some escaped => (TLit escaped, S (S j)) | None => (TLit BACKSLASH, S j) end
      else if byte =? OPEN then
        let negated := is_byte (pattern !! S j) BANG || is_byte (pattern !! S j) CARET in
        match class_items (S (length pattern)) pattern (if negated then S (S j) else S j) true with
        | Some (items, next) => (TClass negated items, next)
        | None => (TLit OPEN, S j)
        end
      else (TLit byte, S j))
  end.

Fixpoint tokens_loop (fuel : nat) (pattern : list Z) (j : nat) : list Tok :=
  match fuel with
  | O => []
  | S fuel' => match parse_tok pattern j with None => [] | Some (t, next) => t :: tokens_loop fuel' pattern next end
  end.
Definition tokens_from (pattern : list Z) (j : nat) : list Tok := tokens_loop (S (length pattern - j)) pattern j.
Definition tokens (pattern : list Z) : list Tok := tokens_from pattern 0.

Definition in_range (c : Z) (r : Z * Z) : bool := (r.1 <=? c) && (c <=? r.2).
Definition accepts (t : Tok) (c : Z) : bool :=
  match t with
  | TStar => false
  | TAny => true
  | TLit b => b =? c
  | TClass negated ranges => xorb (existsb (in_range c) ranges) negated
  end.

(** What a list of tokens means: a star stands for any bytes, another token
    for one byte it accepts. *)
Inductive means : list Tok -> list Z -> Prop :=
  | means_nil : means [] []
  | means_one t ts c s : accepts t c = true -> means ts s -> means (t :: ts) (c :: s)
  | means_star ts s1 s2 : means ts s2 -> means (TStar :: ts) (s1 ++ s2).

(** ** Decoding *)

Lemma in_range_single lo c : in_range c (lo, lo) = (lo =? c).
Proof. unfold in_range. simpl. destruct (Z.leb_spec lo c), (Z.leb_spec c lo), (Z.eqb_spec lo c); (done || lia). Qed.

Lemma verdict_cons c neg hit h (r : Z * Z) (o : option (list (Z * Z) * nat)) :
  in_range c r = h ->
  (fun x => (xorb (hit || h || existsb (in_range c) x.1) neg, x.2)) <$> o =
  (fun x => (xorb (hit || existsb (in_range c) x.1) neg, x.2)) <$>
    (match o with Some (items, e) => Some (r :: items, e) | None => None end).
Proof. intros <-. destruct o as [[items e]|]; [|done]. simpl. by rewrite orb_assoc. Qed.

Lemma class_loop_items fuel pattern c neg k s hit st :
  fst (class_loop fuel pattern c neg k s hit st) =
  (fun r => (xorb (hit || existsb (in_range c) r.1) neg, r.2)) <$> class_items fuel pattern k st.
Proof.
  revert k s hit st. induction fuel as [|fuel IH]; intros k s hit st; [done|]. cbn [class_loop class_items].
  destruct (pattern !! k) as [byte|]; [|done]. destruct ((byte =? CLOSE) && negb st).
  { simpl. by rewrite orb_false_r. }
  set (lo := match pattern !! S k with Some e => if byte =? BACKSLASH then (e, S (S k)) else (byte, S k) | None => (byte, S k) end).
  assert (Hlo : exists s', match pattern !! S k with
      | Some e => if byte =? BACKSLASH then (e, S (S k), S (S s)) else (byte, S k, S s)
      | None => (byte, S k, S s) end = (lo.1, lo.2, s')).
  { unfold lo. destruct (pattern !! S k); [destruct (byte =? BACKSLASH)|]; eauto. }
  destruct Hlo as [s' ->]. destruct lo as [lo after_lo]. cbn [fst snd].
  assert (Hlast : forall s'', fst (class_loop fuel pattern c neg after_lo s'' (hit || (lo =? c)) false) =
      (fun r => (xorb (hit || existsb (in_range c) r.1) neg, r.2)) <$>
        (match class_items fuel pattern after_lo false with Some (items, e) => Some ((lo, lo) :: items, e) | None => None end)).
  { intros s''. rewrite IH. apply verdict_cons. by rewrite in_range_single. }
  unfold is_byte. destruct (pattern !! after_lo) as [d|]; [|rewrite bool_decide_false by done; apply Hlast].
  destruct (pattern !! S after_lo) as [b|]; [|rewrite andb_false_r; apply Hlast].
  replace (bool_decide (Some d = Some DASH)) with (d =? DASH)
    by (destruct (Z.eqb_spec d DASH) as [->|]; [by rewrite bool_decide_true|by rewrite bool_decide_false by congruence]).
  destruct ((d =? DASH) && negb (b =? CLOSE)); [|apply Hlast].
  cbv zeta. destruct (pattern !! S (S after_lo)) as [e|]; [destruct (b =? BACKSLASH)|];
    rewrite IH; by apply verdict_cons.
Qed.

Lemma class_loop_bounds fuel pattern c neg k s hit st :
  (k <= length pattern)%nat ->
  (snd (class_loop fuel pattern c neg k s hit st) <= s + (length pattern - k))%nat /\
  forall h nx, fst (class_loop fuel pattern c neg k s hit st) = Some (h, nx) -> (k < nx <= length pattern)%nat.
Proof.
  revert k s hit st. induction fuel as [|fuel IH]; intros k s hit st Hk; [simpl; split; [lia|done]|]. cbn [class_loop].
  destruct (pattern !! k) as [byte|] eqn:Hb; [|simpl; split; [lia|done]]. apply lookup_lt_Some in Hb.
  destruct ((byte =? CLOSE) && negb st); [simpl; split; [lia|intros; simplify_eq; lia]|].
  set (r := match pattern !! S k with Some e => if byte =? BACKSLASH then (e, S (S k), S (S s)) else (byte, S k, S s)
            | None => (byte, S k, S s) end).
  assert (Hr : exists lo d, r = (lo, (k + d)%nat, (s + d)%nat) /\ (1 <= d)%nat /\ (k + d <= length pattern)%nat).
  { unfold r. destruct (pattern !! S k) eqn:Hs; [apply lookup_lt_Some in Hs; destruct (byte =? BACKSLASH)|].
    - exists z, 2%nat. split; [repeat f_equal; lia|lia].
    - exists byte, 1%nat. split; [repeat f_equal; lia|lia].
    - exists byte, 1%nat. split; [repeat f_equal; lia|lia]. }
  destruct Hr as (lo & d & -> & Hd & Hdl).
  assert (Hgo : forall e s' h, (e <= length pattern - (k + d))%nat -> (s' <= s + d + e)%nat ->
      (snd (class_loop fuel pattern c neg (k + d + e) s' h false) <= s + (length pattern - k))%nat /\
      forall h' nx, fst (class_loop fuel pattern c neg (k + d + e) s' h false) = Some (h', nx) -> (k < nx <= length pattern)%nat).
  { intros e s' h He Hs'. destruct (IH (k + d + e)%nat s' h false) as [H1 H2]; [lia|]. split; [lia|].
    intros h' nx Hnx. apply H2 in Hnx. lia. }
  assert (Hplain : forall h, (snd (class_loop fuel pattern c neg (k + d) (s + d) h false) <= s + (length pattern - k))%nat /\
      forall h' nx, fst (class_loop fuel pattern c neg (k + d) (s + d) h false) = Some (h', nx) -> (k < nx <= length pattern)%nat).
  { intros h. replace (k + d)%nat with (k + d + 0)%nat by lia. apply Hgo; lia. }
  destruct (is_byte (pattern !! (k + d)%nat) DASH && _); [|apply Hplain].
  destruct (pattern !! S (k + d)) as [b|] eqn:Hb2; [|simpl; split; [lia|done]]. apply lookup_lt_Some in Hb2.
  destruct (pattern !! S (S (k + d))) as [x|] eqn:Hx; [apply lookup_lt_Some in Hx; destruct (b =? BACKSLASH)|].
  - replace (S (S (S (k + d)))) with (k + d + 3)%nat by lia. apply Hgo; lia.
  - replace (S (S (k + d))) with (k + d + 2)%nat by lia. apply Hgo; lia.
  - replace (S (S (k + d))) with (k + d + 2)%nat by lia. apply Hgo; lia.
Qed.

Definition elem_of_tok (t : Tok) (next : nat) (c : Z) : Elem :=
  match t with
  | TStar => Star
  | TAny => Any next
  | TLit b => Byte b next
  | TClass _ _ => Class (accepts t c) next
  end.

(** The code's decoder reads the token the reference parses, and never scans
    more than the pattern. *)
Lemma decode_tok pattern j c :
  match parse_tok pattern j with
  | None => decode pattern j c = None /\ (length pattern <= j)%nat
  | Some (t, next) => exists scanned,
      decode pattern j c = Some (elem_of_tok t next c, scanned) /\ (j < next <= length pattern)%nat /\
      (scanned <= length pattern)%nat /\ (t = TStar -> next = S j)
  end.
Proof.
  unfold parse_tok, decode. destruct (pattern !! j) as [byte|] eqn:Hb; [|split; [done|by apply lookup_ge_None_1]].
  pose proof (lookup_lt_Some _ _ _ Hb) as Hlt.
  destruct (byte =? STAR); [eexists; split; [done|lia]|]. destruct (byte =? QUESTION); [eexists; split; [done|lia]|].
  destruct (byte =? BACKSLASH).
  { destruct (pattern !! S j) eqn:Hs; [apply lookup_lt_Some in Hs|]; (eexists; split; [done|split; [lia|split; [lia|done]]]). }
  destruct (byte =? OPEN); [|eexists; split; [done|split; [lia|split; [lia|done]]]].
  unfold class_at. set (neg := is_byte _ BANG || _). set (k := if neg then S (S j) else S j).
  assert (Hk : (k <= length pattern)%nat).
  { unfold k, neg, is_byte. destruct (pattern !! S j) eqn:Hs; [apply lookup_lt_Some in Hs; case_match; lia|].
    rewrite !bool_decide_false by done. simpl. lia. }
  pose proof (class_loop_items (S (length pattern)) pattern c neg k (if neg then 2 else 1) false true) as Hi.
  destruct (class_loop_bounds (S (length pattern)) pattern c neg k (if neg then 2 else 1) false true Hk) as [Hsc Hnx].
  destruct (class_loop _ _ _ _ _ _ _ _) as [r scanned]. cbn [fst snd] in *.
  assert (Hsc' : (scanned <= length pattern)%nat) by (unfold k in *; destruct neg; lia).
  destruct (class_items _ _ _ _) as [[items next]|]; simpl in Hi; subst r.
  - eexists. split; [done|]. specialize (Hnx _ _ eq_refl). unfold k in Hnx. split; [destruct neg; lia|]. split; [done|done].
  - eexists. split; [done|]. split; [lia|]. split; [done|done].
Qed.

(** The fuel of the class scan is never what ends it. *)
Lemma class_loop_fuel f1 f2 pattern c neg k s hit st :
  (length pattern - k < f1)%nat -> (length pattern - k < f2)%nat ->
  class_loop f1 pattern c neg k s hit st = class_loop f2 pattern c neg k s hit st.
Proof.
  revert f2 k s hit st. induction f1 as [|f1 IH]; intros [|f2] k s hit st H1 H2; try lia. cbn [class_loop].
  destruct (pattern !! k) as [byte|] eqn:Hb; [|done]. apply lookup_lt_Some in Hb.
  destruct ((byte =? CLOSE) && negb st); [done|].
  destruct (pattern !! S k); [destruct (byte =? BACKSLASH)|];
    (match goal with |- (if ?x then _ else _) = _ => destruct x end; [|apply IH; lia];
     match goal with |- match ?x with Some _ => _ | None => _ end = _ => destruct x end; [|done];
     cbv zeta; match goal with |- context [pattern !! ?x] => destruct (pattern !! x) end;
     [match goal with |- context [if ?x =? BACKSLASH then _ else _] => destruct (x =? BACKSLASH) end|]; apply IH; lia).
Qed.

Lemma parse_tok_next pattern j t next :
  parse_tok pattern j = Some (t, next) -> (j < next <= length pattern)%nat /\ (t = TStar -> next = S j).
Proof. intros Hp. pose proof (decode_tok pattern j 0) as H. rewrite Hp in H. destruct H as (? & _ & ? & _ & ?). done. Qed.

Lemma tokens_fuel f1 f2 pattern j :
  (length pattern - j < f1)%nat -> (length pattern - j < f2)%nat -> tokens_loop f1 pattern j = tokens_loop f2 pattern j.
Proof.
  revert f2 j. induction f1 as [|f1 IH]; intros [|f2] j H1 H2; try lia. cbn [tokens_loop].
  destruct (parse_tok pattern j) as [[t next]|] eqn:Hp; [|done]. apply parse_tok_next in Hp as [Hn _].
  f_equal. apply IH; lia.
Qed.

Lemma tokens_from_eq pattern j :
  tokens_from pattern j =
  match parse_tok pattern j with None => [] | Some (t, next) => t :: tokens_from pattern next end.
Proof.
  unfold tokens_from at 1. cbn [tokens_loop]. destruct (parse_tok pattern j) as [[t next]|] eqn:Hp; [|done].
  apply parse_tok_next in Hp as [Hn _]. f_equal. apply tokens_fuel; lia.
Qed.

(** ** The reference *)

Lemma means_star_inv ts s : means (TStar :: ts) s <-> exists k, (k <= length s)%nat /\ means ts (drop k s).
Proof.
  split.
  - intros Hm. remember (TStar :: ts) as l eqn:Hl. destruct Hm as [|t ts' c s Ha _|ts' s1 s2 Hm]; [done|by simplify_eq|]. simplify_eq.
    exists (length s1). rewrite drop_app_length, length_app. split; [lia|done].
  - intros (k & Hk & Hm). rewrite <- (take_drop k s). by constructor.
Qed.

Lemma means_one_inv t ts s :
  t <> TStar -> means (t :: ts) s <-> exists c s', s = c :: s' /\ accepts t c = true /\ means ts s'.
Proof.
  intros Ht. split.
  - intros Hm. remember (t :: ts) as l eqn:Hl. destruct Hm as [|t' ts' c s Ha Hm|ts' s1 s2 Hm]; [done| |by simplify_eq]. simplify_eq. eauto.
  - intros (c & s' & -> & Ha & Hm). by constructor.
Qed.

Lemma means_nil_inv s : means [] s <-> s = [].
Proof. split; [by inversion 1|intros ->; constructor]. Qed.

(** A run of one-byte tokens uses up as many bytes. *)
Lemma means_app_ones us ts s :
  Forall (fun t => t <> TStar) us -> means (us ++ ts) s -> (length us <= length s)%nat /\ means ts (drop (length us) s).
Proof.
  revert s. induction us as [|u us IH]; intros s Hu Hm; [by split; [simpl; lia|]|].
  apply Forall_cons in Hu as [Hu Hus]. simpl in Hm. apply means_one_inv in Hm as (c & s' & -> & _ & Hm); [|done].
  destruct (IH s' Hus Hm). simpl. split; [lia|done].
Qed.

(** What the rest of a walk decides: the tokens from [j] against the name from
    [i], or a longer share for the last star. *)
Definition rest_matches (pattern name : list Z) (i j : nat) (star : option (nat * nat)) : Prop :=
  means (tokens_from pattern j) (drop i name) \/
  exists r a a', star = Some (r, a) /\ (a < a' <= length name)%nat /\ means (tokens_from pattern r) (drop a' name).

Definition star_inv (pattern : list Z) (i j : nat) (star : option (nat * nat)) : Prop :=
  match star with
  | None => True
  | Some (r, a) => (a <= i)%nat /\ (r <= length pattern)%nat /\ exists us,
      tokens_from pattern r = us ++ tokens_from pattern j /\ Forall (fun t => t <> TStar) us /\ length us = (i - a)%nat
  end.

Definition absorbed (star : option (nat * nat)) : nat := match star with Some (_, a) => a | None => 0%nat end.

(** The turns left. *)
Definition turns_left (pattern name : list Z) (j : nat) (star : option (nat * nat)) : nat :=
  ((length name - absorbed star) * S (length pattern) + (length pattern - j))%nat.

(** A star takes over from the one before it: whatever a longer share of that
    one could still match, this one can. *)
Lemma new_star pattern name i j star :
  star_inv pattern i j star -> (i <= length name)%nat -> parse_tok pattern j = Some (TStar, S j) ->
  rest_matches pattern name i (S j) (Some (S j, i)) <-> rest_matches pattern name i j star.
Proof.
  intros Hinv Hi Hp. assert (Hj : tokens_from pattern j = TStar :: tokens_from pattern (S j)) by (by rewrite tokens_from_eq, Hp).
  assert (Hstar : forall s, means (tokens_from pattern j) s <-> exists k, (k <= length s)%nat /\ means (tokens_from pattern (S j)) (drop k s))
    by (intros; rewrite Hj; apply means_star_inv).
  assert (Hhere : means (tokens_from pattern j) (drop i name) <-> rest_matches pattern name i (S j) (Some (S j, i))).
  { rewrite Hstar. unfold rest_matches. split.
    - intros (k & Hk & Hm). rewrite drop_drop in Hm. rewrite length_drop in Hk. destruct (decide (k = 0%nat)) as [->|].
      + left. by rewrite Nat.add_0_r in Hm.
      + right. exists (S j), i, (i + k)%nat. split; [done|]. split; [lia|done].
    - intros [Hm|(r & a & a' & Heq & Ha & Hm)]; [exists 0%nat; split; [lia|by rewrite drop_0]|]. simplify_eq.
      exists (a' - a)%nat. rewrite length_drop, drop_drop. split; [lia|]. by replace (a + (a' - a))%nat with a' by lia. }
  rewrite <- Hhere. unfold rest_matches. split; [by left|]. intros [|(r & a & a' & -> & Ha & Hm)]; [done|].
  destruct Hinv as (Hai & _ & us & Hus & Hall & Hlen). rewrite Hus in Hm.
  apply means_app_ones in Hm as [Hl Hm]; [|done]. rewrite drop_drop in Hm. rewrite length_drop in Hl.
  apply Hstar in Hm as (k & Hk & Hm). apply Hstar. exists ((a' + length us - i) + k)%nat.
  rewrite !length_drop in *. rewrite drop_drop in *. split; [lia|].
  by replace (i + (a' + length us - i + k))%nat with (a' + length us + k)%nat by lia.
Qed.

(** A one-byte token that takes the byte. *)
Lemma one_step pattern name i j star c t next :
  star_inv pattern i j star -> name !! i = Some c -> parse_tok pattern j = Some (t, next) -> t <> TStar ->
  accepts t c = true ->
  star_inv pattern (S i) next star /\
  (rest_matches pattern name (S i) next star <-> rest_matches pattern name i j star).
Proof.
  intros Hinv Hc Hp Ht Ha. assert (Hj : tokens_from pattern j = t :: tokens_from pattern next) by (by rewrite tokens_from_eq, Hp).
  split.
  - destruct star as [[r a]|]; [|done]. destruct Hinv as (Hai & Hr & us & Hus & Hall & Hlen). split; [lia|]. split; [done|].
    exists (us ++ [t]). rewrite Hus, Hj, <- app_assoc. split; [done|]. split; [apply Forall_app; split; [done|by constructor]|].
    rewrite length_app. simpl. lia.
  - assert (Hh : means (tokens_from pattern next) (drop (S i) name) <-> means (tokens_from pattern j) (drop i name)).
    { rewrite Hj, (drop_S _ _ _ Hc), means_one_inv by done. split; [eauto|].
      intros (c' & s' & Heq & _ & Hm). by simplify_eq. }
    unfold rest_matches. by rewrite Hh.
Qed.

(** Nothing matches here, so the last star takes one byte more. *)
Lemma star_retries pattern name i j star :
  star_inv pattern i j star -> (i < length name)%nat -> ~ means (tokens_from pattern j) (drop i name) ->
  match star with
  | None => ~ rest_matches pattern name i j star
  | Some (r, a) => star_inv pattern (S a) r (Some (r, S a)) /\
      (rest_matches pattern name (S a) r (Some (r, S a)) <-> rest_matches pattern name i j star)
  end.
Proof.
  intros Hinv Hi Hno. destruct star as [[r a]|]; [|by intros [|(? & ? & ? & ? & _)]].
  destruct Hinv as (Hai & Hr & _). split.
  - split; [lia|]. split; [done|]. exists []. split; [done|]. split; [done|]. simpl. lia.
  - unfold rest_matches. split.
    + intros [Hm|(r' & a0 & a' & Heq & Ha & Hm)]; right; simplify_eq.
      * eexists _, _, (S a). split; [done|]. split; [lia|done].
      * eexists _, _, a'. split; [done|]. split; [lia|done].
    + intros [|(r' & a0 & a' & Heq & Ha & Hm)]; [done|]. simplify_eq.
      destruct (decide (a' = S a0)) as [->|]; [by left|]. right. eexists _, _, a'. split; [done|]. split; [lia|done].
Qed.

(** The end of the name: only stars may be left. *)
Lemma skip_stars_spec fuel pattern j steps :
  (j <= length pattern)%nat -> (length pattern - j <= fuel)%nat ->
  exists j', skip_stars fuel pattern j steps = (j', (steps + (j' - j))%nat) /\ (j <= j' <= length pattern)%nat /\
    (j' = length pattern <-> means (tokens_from pattern j) []).
Proof.
  revert j steps. induction fuel as [|fuel IH]; intros j steps Hj Hf; cbn [skip_stars].
  - exists j. split; [f_equal; lia|]. split; [lia|]. replace j with (length pattern) by lia.
    rewrite tokens_from_eq. unfold parse_tok. rewrite lookup_ge_None_2 by lia. by rewrite means_nil_inv.
  - unfold is_byte. case_bool_decide as Hb.
    + pose proof (lookup_lt_Some _ _ _ Hb). destruct (IH (S j) (S steps)) as (j' & -> & Hj' & Hiff); [lia|lia|].
      exists j'. split; [f_equal; lia|]. split; [lia|]. rewrite Hiff, (tokens_from_eq pattern j). unfold parse_tok. rewrite Hb.
      cbn [Z.eqb]. change (STAR =? STAR) with true. cbv iota. rewrite means_star_inv. split.
      * intros Hm. exists 0%nat. by split; [simpl; lia|].
      * intros (k & Hk & Hm). destruct k; simpl in *; [done|lia].
    + exists j. split; [f_equal; lia|]. split; [lia|]. rewrite (tokens_from_eq pattern j).
      destruct (parse_tok pattern j) as [[t nx]|] eqn:Hp.
      * apply parse_tok_next in Hp as Hn. split; [lia|]. intros Hm.
        assert (t <> TStar).
        { intros ->. unfold parse_tok in Hp. destruct (pattern !! j) as [byte|]; [|done].
          destruct (Z.eqb_spec byte STAR) as [->|]; [done|]. repeat case_match; simplify_eq. }
        apply means_one_inv in Hm as (? & ? & ? & _); done.
      * rewrite means_nil_inv. split; [done|]. intros _. pose proof (decode_tok pattern j 0) as Hd. rewrite Hp in Hd. lia.
Qed.

Lemma at_end pattern name i j star :
  star_inv pattern i j star -> i = length name ->
  rest_matches pattern name i j star <-> means (tokens_from pattern j) [].
Proof.
  intros Hinv ->. unfold rest_matches. rewrite drop_ge by lia. split; [|by left].
  intros [|(r & a & a' & -> & Ha & Hm)]; [done|]. destruct Hinv as (Hai & _ & us & Hus & Hall & Hlen).
  rewrite Hus in Hm. apply means_app_ones in Hm as [Hl _]; [|done]. rewrite length_drop in Hl. lia.
Qed.

(** One turn on a token that takes one byte. *)
Lemma turn_one fuel pattern name i j star steps c t next scanned :
  name !! i = Some c -> decode pattern j c = Some (elem_of_tok t next c, scanned) -> t <> TStar ->
  match_loop (S fuel) pattern name i j star steps =
  if accepts t c then match_loop fuel pattern name (S i) next star (steps + scanned)
  else match star with
       | Some (r, a) => match_loop fuel pattern name (S a) r (Some (r, S a)) (S (steps + scanned))
       | None => Some (false, (steps + scanned)%nat)
       end.
Proof.
  intros Hc Hd Ht. cbn [match_loop]. rewrite Hc, Hd.
  destruct t; [done| | |]; cbn [elem_of_tok accepts]; done.
Qed.

(** What a turn that fails leaves to do. *)
Definition loop_ok (fuel : nat) (pattern name : list Z) (i j : nat) (star : option (nat * nat)) (steps : nat)
    (r : option (bool * nat)) : Prop :=
  exists b s, r = Some (b, s) /\ (b = true <-> rest_matches pattern name i j star) /\
    (s <= steps + S (turns_left pattern name j star) * S (length pattern))%nat.

Section loop.
Context (fuel : nat) (pattern name : list Z).
Hypothesis IH : forall i j star steps,
  (i <= length name)%nat -> (j <= length pattern)%nat -> star_inv pattern i j star ->
  (turns_left pattern name j star < fuel)%nat ->
  loop_ok fuel pattern name i j star steps (match_loop fuel pattern name i j star steps).

Lemma loop_backtracks i j star steps scanned :
  (i < length name)%nat -> (j <= length pattern)%nat -> star_inv pattern i j star ->
  (turns_left pattern name j star <= fuel)%nat -> (scanned <= length pattern)%nat ->
  ~ means (tokens_from pattern j) (drop i name) ->
  loop_ok (S fuel) pattern name i j star steps
    (match star with
     | Some (r, a) => match_loop fuel pattern name (S a) r (Some (r, S a)) (S (steps + scanned))
     | None => Some (false, (steps + scanned)%nat)
     end).
Proof.
  intros Hi Hj Hinv Hf Hsc Hno. pose proof (star_retries pattern name i j star Hinv Hi Hno) as Hr.
  destruct star as [[r a]|].
  - destruct Hr as [Hinv' Hiff]. destruct Hinv as (Hai & Hr & _).
    assert (Hlt : (S (turns_left pattern name r (Some (r, S a))) <= turns_left pattern name j (Some (r, a)))%nat).
    { unfold turns_left. cbn [absorbed].
      replace (length name - a)%nat with (S (length name - S a)) by lia. rewrite Nat.mul_succ_l. lia. }
    destruct (IH (S a) r (Some (r, S a)) (S (steps + scanned))) as (b & s & Hl & Hb & Hs); [lia|done|done|lia|].
    exists b, s. split; [done|]. split; [by rewrite Hb|]. nia.
  - exists false, (steps + scanned)%nat. split; [done|]. split; [done|]. nia.
Qed.

Lemma loop_turn i j star steps :
  (i <= length name)%nat -> (j <= length pattern)%nat -> star_inv pattern i j star ->
  (turns_left pattern name j star <= fuel)%nat ->
  loop_ok (S fuel) pattern name i j star steps (match_loop (S fuel) pattern name i j star steps).
Proof.
  intros Hi Hj Hinv Hf. destruct (name !! i) as [c|] eqn:Hc.
  2: { apply lookup_ge_None_1 in Hc as Hge. cbn [match_loop]. rewrite Hc.
       destruct (skip_stars_spec (length pattern) pattern j steps Hj) as (j' & -> & Hj' & Hiff); [lia|].
       eexists _, _. split; [done|]. rewrite bool_decide_eq_true, (at_end pattern name i j star Hinv) by lia.
       split; [done|]. nia. }
  apply lookup_lt_Some in Hc as Hlt. pose proof (decode_tok pattern j c) as Hd.
  destruct (parse_tok pattern j) as [[t next]|] eqn:Hp.
  2: { destruct Hd as [Hd _]. cbn [match_loop]. rewrite Hc, Hd.
       assert (Hno : ~ means (tokens_from pattern j) (drop i name))
         by (by rewrite tokens_from_eq, Hp, (drop_S _ _ _ Hc), means_nil_inv).
       pose proof (loop_backtracks i j star steps 0 Hlt Hj Hinv Hf ltac:(lia) Hno) as Hb.
       by rewrite Nat.add_0_r in Hb. }
  destruct Hd as (scanned & Hd & Hnx & Hsc & Hst). destruct (decide (t = TStar)) as [->|Ht].
  - rewrite (Hst eq_refl) in *. cbn [match_loop]. rewrite Hc, Hd. cbn [elem_of_tok].
    assert (Hai : (absorbed star <= i)%nat) by (destruct star as [[r a]|]; [apply Hinv|simpl; lia]).
    assert (Hdec : (S (turns_left pattern name (S j) (Some (S j, i))) <= turns_left pattern name j star)%nat).
    { unfold turns_left. cbn [absorbed].
      assert ((length name - i) * S (length pattern) <= (length name - absorbed star) * S (length pattern))%nat
        by (apply Nat.mul_le_mono_r; lia). lia. }
    destruct (IH i (S j) (Some (S j, i)) (steps + scanned)%nat) as (b & s & Hl & Hb & Hs); [lia|lia| |lia|].
    { split; [lia|]. split; [lia|]. exists []. split; [done|]. split; [done|simpl; lia]. }
    exists b, s. split; [done|]. rewrite Hb, (new_star pattern name i j star) by done. split; [done|]. nia.
  - rewrite (turn_one fuel pattern name i j star steps c t next scanned) by done. destruct (accepts t c) eqn:Ha.
    + destruct (one_step pattern name i j star c t next) as [Hinv' Hiff]; [done..|].
      assert (Hdec : (S (turns_left pattern name next star) <= turns_left pattern name j star)%nat) by (unfold turns_left; lia).
      destruct (IH (S i) next star (steps + scanned)%nat) as (b & s & Hl & Hb & Hs); [lia|lia|done|lia|].
      exists b, s. split; [done|]. split; [by rewrite Hb|]. nia.
    + apply loop_backtracks; try done. rewrite tokens_from_eq, Hp, (drop_S _ _ _ Hc), means_one_inv by done.
      intros (c' & s' & Heq & Ha' & _). simplify_eq. congruence.
Qed.
End loop.

Lemma match_loop_spec fuel pattern name i j star steps :
  (i <= length name)%nat -> (j <= length pattern)%nat -> star_inv pattern i j star ->
  (turns_left pattern name j star < fuel)%nat ->
  loop_ok fuel pattern name i j star steps (match_loop fuel pattern name i j star steps).
Proof.
  revert i j star steps. induction fuel as [|fuel IH]; intros i j star steps Hi Hj Hinv Hf; [lia|].
  apply loop_turn; try done. lia.
Qed.

Lemma match_steps_spec pattern name dot :
  exists b steps, match_steps pattern name dot = Some (b, steps) /\
    (steps <= S (length name) * S (length pattern) * S (length pattern))%nat /\
    (b = true <-> means (tokens pattern) name /\
       (dot = Special -> name !! 0%nat = Some DOT -> opens_with_a_literal_dot pattern = true)).
Proof.
  unfold match_steps. destruct (bool_decide (dot = Special) && is_byte (name !! 0%nat) DOT && negb _) eqn:Hdot.
  - unfold is_byte in Hdot. rewrite !andb_true_iff, !bool_decide_eq_true, negb_true_iff in Hdot. destruct Hdot as [[Hd Hn] Ho].
    exists false, 0%nat. split; [done|]. split; [lia|]. split; [done|]. intros [_ Hall]. by rewrite Hall in Ho.
  - destruct (match_loop_spec (turns pattern name) pattern name 0 0 None 0) as (b & s & Hl & Hb & Hs); [lia|lia|done| |].
    { unfold turns_left, turns. simpl absorbed. lia. }
    exists b, s. split; [done|]. split.
    + eapply Nat.le_trans; [exact Hs|]. unfold turns_left. simpl absorbed. rewrite Nat.add_0_l.
      apply Nat.mul_le_mono_r. lia.
    + rewrite Hb. unfold rest_matches. fold (tokens pattern). rewrite drop_0. split; [|by intros [? _]; left].
      intros [Hm|(? & ? & ? & ? & _)]; [|done]. split; [done|]. intros -> Hn.
      rewrite bool_decide_true in Hdot by done. unfold is_byte in Hdot. rewrite bool_decide_true in Hdot by done.
      by destruct (opens_with_a_literal_dot pattern).
Qed.

(** C36: the one-pass matcher decides exactly what a pattern means. On every
    pattern and name it gives an answer, and the answer is yes if and only if
    the name can be cut so that each token gets its byte and each star the rest,
    a leading dot being matched only by a pattern that opens with one. *)
Theorem glob_matches_what_it_means pattern name dot :
  exists b, matches_with pattern name dot = Some b /\
    (b = true <-> means (tokens pattern) name /\
       (dot = Special -> name !! 0%nat = Some DOT -> opens_with_a_literal_dot pattern = true)).
Proof.
  destruct (match_steps_spec pattern name dot) as (b & s & Hm & _ & Hb). exists b. split; [|done].
  unfold matches_with. by rewrite Hm.
Qed.

Lemma turns_within_cost n m :
  0 <= n -> 0 <= m -> (n + 1) * (m + 1) * (m + 1) <= (n + 2) * (n + m + 1) * (m * 2 + 2).
Proof.
  intros Hn Hm. assert (H : 0 <= (n + 1) * (m + 1) <= (n + 2) * (n + m + 1)) by nia.
  apply Z.mul_le_mono_nonneg; lia.
Qed.

(** Matching is never exponential. However many stars the pattern has, the
    work the matcher counts is within the bound the crate computes from the two
    lengths alone. *)
Theorem glob_cost_is_bounded pattern name dot :
  Z.of_nat (length pattern) < 2 ^ 20 -> Z.of_nat (length name) < 2 ^ 20 ->
  exists b steps, match_steps pattern name dot = Some (b, steps) /\
    Z.of_nat steps <= cost_bound (Z.of_nat (length pattern)) (Z.of_nat (length name)) < 2 ^ 64.
Proof.
  intros Hm Hn. destruct (match_steps_spec pattern name dot) as (b & s & Hs & Hle & _). exists b, s. split; [done|].
  set (m := Z.of_nat (length pattern)) in *. set (n := Z.of_nat (length name)) in *.
  assert (Hs' : Z.of_nat s <= (n + 1) * (m + 1) * (m + 1)) by (unfold m, n; nia).
  assert (0 <= m /\ 0 <= n) as [Hm0 Hn0] by lia.
  assert (H1 : 0 <= (n + 2) * (n + m + 1) <= (2 ^ 20 + 2) * (2 ^ 21 + 1)) by (split; [nia|apply Z.mul_le_mono_nonneg; lia]).
  assert (H2 : 0 <= (n + 2) * (n + m + 1) * (m * 2 + 2) <= (2 ^ 20 + 2) * (2 ^ 21 + 1) * (2 ^ 21 + 2))
    by (split; [nia|apply Z.mul_le_mono_nonneg; lia]).
  unfold cost_bound, saturating_add, saturating_mul.
  rewrite (Z.min_l (n + 2)), (Z.min_l (n + m)), (Z.min_l (n + m + 1)), (Z.min_l ((n + 2) * _)), (Z.min_l (m * 2)),
    (Z.min_l (m * 2 + 2)), (Z.min_l (_ * (m * 2 + 2))), (Z.min_l (_ + m)), (Z.min_l (_ + 2)) by lia.
  pose proof (turns_within_cost n m Hn0 Hm0). lia.
Qed.

Lemma glob_cost_is_bounded_witness :
  exists b steps, match_steps [42; 97; 42; 97; 42; 98] (replicate 12 97) Special = Some (b, steps) /\
    Z.of_nat steps <= cost_bound 6 12 < 2 ^ 64.
Proof. apply (glob_cost_is_bounded [42; 97; 42; 97; 42; 98] (replicate 12 97) Special); reflexivity. Defined.

(** ** Patterns with no magic *)

Lemma means_literals l s : means (TLit <$> l) s <-> s = l.
Proof.
  revert s. induction l as [|b l IH]; intros s; simpl; [apply means_nil_inv|].
  rewrite means_one_inv by done. split.
  - intros (c & s' & -> & Ha & Hm). apply IH in Hm as ->. apply Z.eqb_eq in Ha as ->. done.
  - intros ->. exists b, l. split; [done|]. split; [apply Z.eqb_refl|by apply IH].
Qed.

Lemma literal_loop_spec fuel pattern j :
  (length pattern - j < fuel)%nat -> has_magic_loop fuel pattern j = false ->
  exists l, tokens_from pattern j = TLit <$> l /\ forall room, literal_loop fuel pattern j room =
    if decide (length l <= room)%nat then Some l else None.
Proof.
  revert j. induction fuel as [|fuel IH]; intros j Hf; [lia|]. cbn [has_magic_loop literal_loop].
  pose proof (decode_tok pattern j 0) as Hd. rewrite tokens_from_eq.
  destruct (parse_tok pattern j) as [[t next]|]; [|destruct Hd as [-> _]; intros _; exists []; split; [done|]; intros; by rewrite decide_True by (simpl; lia)].
  destruct Hd as (sc & -> & Hn & _). destruct t as [| |b|]; cbn [elem_of_tok]; try done. intros Hm.
  destruct (IH next ltac:(lia) Hm) as (l & -> & Hl). exists (b :: l). split; [done|]. intros [|room].
  - by rewrite decide_False by (simpl; lia).
  - rewrite Hl. cbn [length]. destruct (decide (length l <= room)%nat).
    + by rewrite decide_True by lia.
    + by rewrite decide_False by lia.
Qed.

(** A pattern without magic is one name: [literal] gives it whenever the buffer
    holds it, and the pattern matches that name and no other. *)
Lemma literal_is_the_only_match pattern :
  has_magic pattern = false ->
  exists l, (forall room, literal pattern room = if decide (length l <= room)%nat then Some l else None) /\
    forall name, matches_with pattern name Ordinary = Some (bool_decide (name = l)).
Proof.
  intros Hm. destruct (literal_loop_spec (S (length pattern)) pattern 0 ltac:(lia) Hm) as (l & Ht & Hl).
  exists l. split; [done|]. intros name. destruct (match_steps_spec pattern name Ordinary) as (b & s & Hs & _ & Hb).
  unfold matches_with. rewrite Hs. simpl. f_equal. unfold tokens in Hb. rewrite Ht, means_literals in Hb.
  destruct b; [rewrite bool_decide_true; [done|tauto]|]. rewrite bool_decide_false; [done|]. intros Heq.
  assert (false = true) by (apply Hb; split; [done|done]). done.
Qed.

End Glob.
