(* ===== verification/ActivationSet.v ===== *)
(** * The activation set (crates/activation_set, and the part of crates/system_initializer that keeps it)

    What is installed: a table of text, never rewritten, only succeeded by the next one.
    [Module ActivationSet] holds the reading and the writing of a table as the crate has
    them, the hexadecimal digests of crates/measured_boot, the table a text stands for
    ([rows] and [pointers], [render]ed), and the store of generations with the steps in
    which the progenitor makes one live. *)

From S2P Require Import Prelude.
Local Open Scope Z_scope.

Module ActivationSet.

Inductive Error := Malformed | BadName | NotInstalled | TooSmall | Taken | ImageName | Ambiguous.

(** A digest is 32 bytes. *)
Definition Digest : Type := list Z.

Record Entry := MkEntry { program : list Z; version : list Z; package : list Z; digest : Digest }.
Record Pointer := MkPointer { p_program : list Z; p_digest : Digest }.

#[export] Instance error_eq_dec : EqDecision Error.
Proof. solve_decision. Defined.
#[export] Instance entry_eq_dec : EqDecision Entry.
Proof. solve_decision. Defined.
#[export] Instance pointer_eq_dec : EqDecision Pointer.
Proof. solve_decision. Defined.

Definition OWNER : list Z := lit "owner".
Definition NO_VERSION : list Z := lit "-".

Definition eqs (a b : list Z) : bool := bool_decide (a = b).

(** ** Digests as text *)

Definition DIGEST_LEN : nat := 32.

Definition hex_digit (n : Z) : Z := if n <? 10 then 48 + n else 87 + n.
Definition hex (d : Digest) : list Z := flat_map (fun b => [hex_digit (Z.shiftr b 4); hex_digit (Z.land b 15)]) d.

Definition nibble (c : Z) : option Z :=
  if between 48 57 c then Some (c - 48) else if between 97 102 c then Some (c - 97 + 10) else if between 65 70 c then Some (c - 65 + 10) else None.

Fixpoint parse_pairs (l : list Z) : option Digest :=
  match l with
  | a :: b :: l' => x ← nibble a; y ← nibble b; d ← parse_pairs l'; Some (Z.lor (Z.shiftl x 4) y :: d)
  | _ => Some []
  end.

Definition parse_hex (text : list Z) : option Digest := if (length text =? 2 * DIGEST_LEN)%nat then parse_pairs text else None.

(** ** Lines and words *)

(** [str::lines]: a line ends at a line feed, with the carriage return before it. *)
Definition strip_cr (l : list Z) : list Z := match rev l with 13 :: r => rev r | _ => l end.

Fixpoint lines_from (acc text : list Z) : list (list Z) :=
  match text with
  | [] => if eqs acc [] then [] else [acc]
  | b :: text' => if b =? 10 then strip_cr acc :: lines_from [] text' else lines_from (acc ++ [b]) text'
  end.

Definition lines (text : list Z) : list (list Z) := lines_from [] text.

(** The characters [str::trim] removes, as UTF-8. *)
Definition white : list (list Z) :=
  [[9]; [10]; [11]; [12]; [13]; [32]; [0xc2; 0x85]; [0xc2; 0xa0]; [0xe1; 0x9a; 0x80]; [0xe2; 0x80; 0x80]; [0xe2; 0x80; 0x81]; [0xe2; 0x80; 0x82]; [0xe2; 0x80; 0x83]; [0xe2; 0x80; 0x84]; [0xe2; 0x80; 0x85]; [0xe2; 0x80; 0x86];
   [0xe2; 0x80; 0x87]; [0xe2; 0x80; 0x88]; [0xe2; 0x80; 0x89]; [0xe2; 0x80; 0x8a]; [0xe2; 0x80; 0xa8]; [0xe2; 0x80; 0xa9]; [0xe2; 0x80; 0xaf]; [0xe2; 0x81; 0x9f]; [0xe3; 0x80; 0x80]].

Definition starts_with (p l : list Z) : bool := eqs (take (length p) l) p.

Fixpoint strip (fuel : nat) (pats : list (list Z)) (l : list Z) : list Z :=
  match fuel with
  | O => l
  | S fuel' => match filter (fun p => starts_with p l = true) pats with p :: _ => strip fuel' pats (drop (length p) l) | [] => l end
  end.

Definition trim (l : list Z) : list Z :=
  let l1 := strip (length l) white l in rev (strip (length l1) (map (@rev Z) white) (rev l1)).

(** [str::split(' ')]. *)
Fixpoint words_from (acc l : list Z) : list (list Z) :=
  match l with
  | [] => [acc]
  | b :: l' => if b =? 32 then acc :: words_from [] l' else words_from (acc ++ [b]) l'
  end.

Definition words (l : list Z) : list (list Z) := words_from [] l.

Definition good_name (name : list Z) : bool :=
  negb (eqs name []) && negb (starts_with [35] name) && forallb (fun b => (32 <? b) && negb (b =? 0x7f)) name.

Inductive Line := LRow (e : Entry) | LPointer (p : Pointer) | LMalformed.

Definition classify (line : list Z) : Line :=
  match words line with
  | [] => LMalformed
  | first :: rest =>
      if eqs first (lit "default") then
        match rest with
        | [prog; h] => match parse_hex h with Some d => if good_name prog then LPointer (MkPointer prog d) else LMalformed | None => LMalformed end
        | _ => LMalformed
        end
      else
        match rest with
        | [prog; ver; pkg] =>
            match parse_hex first with
            | Some d => if negb (good_name prog) || negb (good_name ver) || negb (good_name pkg) then LMalformed else LRow (MkEntry prog ver pkg d)
            | None => LMalformed
            end
        | _ => LMalformed
        end
  end.

Definition content (table : list Z) : list (list Z) := filter (fun l => negb (eqs l []) && negb (starts_with [35] l) = true) (trim <$> lines table).

Definition entries (table : list Z) : list (result Error Entry) :=
  omap (fun l => match classify l with LRow e => Some (Ok e) | LPointer _ => None | LMalformed => Some (Err Malformed) end) (content table).

Definition defaults (table : list Z) : list (result Error Pointer) :=
  omap (fun l => match classify l with LPointer p => Some (Ok p) | LRow _ => None | LMalformed => Some (Err Malformed) end) (content table).

(** ** Looking up *)

(** [for x in iterator { let x = x?; .. }]. *)
Fixpoint for_each {S A} (f : S -> A -> result Error S) (s : S) (l : list (result Error A)) : result Error S :=
  match l with
  | [] => Ok s
  | Err e :: _ => Err e
  | Ok a :: l' => match f s a with Ok s' => for_each f s' l' | Err e => Err e end
  end.

Definition default_step (prog : list Z) (s : option Digest * nat) (p : Pointer) : option Digest * nat := if eqs (p_program p) prog then (Some (p_digest p), S s.2) else s.

Definition default_of (table prog : list Z) : result Error (option Digest) :=
  match for_each (fun s p => Ok (default_step prog s p)) (None, 0%nat) (defaults table) with
  | Ok (found, count) => if (1 <? count)%nat then Err Malformed else Ok found
  | Err e => Err e
  end.

Definition packaged (e : Entry) : bool := negb (eqs (package e) OWNER).

(** The loop ends at the first row that matches. *)
Fixpoint first_row (f : Entry -> bool) (l : list (result Error Entry)) : result Error Entry :=
  match l with
  | [] => Err Malformed
  | Err e :: _ => Err e
  | Ok a :: l' => if f a then Ok a else first_row f l'
  end.

Definition lookup (table prog : list Z) : result Error (option Entry) :=
  match default_of table prog with
  | Err e => Err e
  | Ok None => Ok None
  | Ok (Some d) => match first_row (fun e => eqs (program e) prog && packaged e && eqs (digest e) d) (entries table) with Ok e => Ok (Some e) | Err e => Err e end
  end.

(** The whole table is read before the first match is given. *)
Definition first_step (f : Entry -> bool) (found : option Entry) (e : Entry) : option Entry := match found with None => if f e then Some e else None | Some _ => found end.

Definition first_of (f : Entry -> bool) (table : list Z) : result Error (option Entry) :=
  for_each (fun found e => Ok (first_step f found e)) None (entries table).

Definition lookup_digest (table : list Z) (d : Digest) : result Error (option Entry) := first_of (fun e => eqs (digest e) d) table.

Definition lookup_version (table prog ver : list Z) : result Error (option Entry) := first_of (fun e => eqs (program e) prog && eqs (version e) ver && packaged e) table.

Definition versions_of (table prog : list Z) : list (result Error (list Z)) :=
  omap (fun r => match r with Ok e => if eqs (program e) prog && packaged e then Some (Ok (version e)) else None | Err e => Some (Err e) end) (entries table).

(** ** Writing *)

(** [w_text] is [out[..at]]. *)
Record Writer := MkWriter { w_cap : nat; w_text : list Z }.

Definition put (b : list Z) (w : Writer) : result Error Writer :=
  if (length (w_text w) + length b <=? w_cap w)%nat then Ok (MkWriter (w_cap w) (w_text w ++ b)) else Err TooSmall.

Fixpoint puts (bs : list (list Z)) (w : Writer) : result Error Writer := match bs with [] => Ok w | b :: bs' => w1 ← put b w; puts bs' w1 end.

Definition put_entry (e : Entry) (w : Writer) : result Error Writer :=
  puts [hex (digest e); lit " "; program e; lit " "; version e; lit " "; package e; [10]] w.

Definition put_pointer (prog : list Z) (d : Digest) (w : Writer) : result Error Writer :=
  puts [lit "default "; prog; lit " "; hex d; [10]] w.

(** ** Succeeding a table *)

Definition with_entry (table : list Z) (entry : Entry) (image_carries : bool) (cap : nat) : result Error (list Z) :=
  if negb (good_name (program entry)) || negb (good_name (version entry)) || negb (good_name (package entry)) then Err BadName
  else
    let vouch := eqs (package entry) OWNER in
    if negb vouch && image_carries then Err ImageName
    else
      _ ← for_each (fun _ x => if negb vouch && eqs (program x) (program entry) && packaged x && negb (eqs (package x) (package entry)) then Err Taken else Ok tt) tt (entries table);
      '(w, replaced) ← for_each (fun '(w, replaced) x =>
          let same_kind := Bool.eqb (eqs (package x) OWNER) vouch in
          let replaced_here := same_kind && eqs (program x) (program entry) && (if vouch then true else eqs (digest x) (digest entry)) in
          if (replaced_here : bool) then w1 ← put_entry entry w; Ok (w1, true) else w1 ← put_entry x w; Ok (w1, replaced)) (MkWriter cap [], false) (entries table);
      w ← (if (replaced : bool) then Ok w else put_entry entry w);
      '(w, pointed) ← for_each (fun '(w, pointed) p =>
          if negb vouch && eqs (p_program p) (program entry) then w1 ← put_pointer (program entry) (digest entry) w; Ok (w1, true)
          else w1 ← put_pointer (p_program p) (p_digest p) w; Ok (w1, pointed)) (w, false) (defaults table);
      w ← (if negb vouch && negb pointed then put_pointer (program entry) (digest entry) w else Ok w);
      Ok (w_text w).

Definition without_entry (table prog : list Z) (cap : nat) : result Error (list Z) :=
  '(w, removed) ← for_each (fun '(w, removed) x => if eqs (program x) prog && packaged x then Ok (w, true) else w1 ← put_entry x w; Ok (w1, removed)) (MkWriter cap [], false) (entries table);
  w ← for_each (fun w p => if negb (eqs (p_program p) prog) then put_pointer (p_program p) (p_digest p) w else Ok w) w (defaults table);
  if (removed : bool) then Ok (w_text w) else Err NotInstalled.

(** The row asked for, the first other row of the program, and whether the other rows
    are all of one version. *)
Definition survey_step (prog ver : list Z) (s : option Entry * option Entry * bool) (x : Entry) : option Entry * option Entry * bool :=
  let '(target, survivor, uniform) := s in
  if negb (eqs (program x) prog) || negb (packaged x) then (target, survivor, uniform)
  else if eqs (version x) ver && match target with None => true | Some _ => false end then (Some x, survivor, uniform)
  else match survivor with
       | Some first => (target, survivor, uniform && eqs (version first) (version x))
       | None => (target, Some x, uniform)
       end.

Definition survey (prog ver table : list Z) : result Error (option Entry * option Entry * bool) := for_each (fun s x => Ok (survey_step prog ver s x)) (None, None, true) (entries table).

(** [d.is_some_and(|d| d == x)]. *)
Definition is_digest (d : option Digest) (x : Digest) : bool := match d with Some d => eqs d x | None => false end.

Definition without_version (table prog ver : list Z) (cap : nat) : result Error (list Z) :=
  '(target, survivor, uniform) ← survey prog ver table;
  match target with
  | None => Err NotInstalled
  | Some target =>
      d ← default_of table prog;
      let move_pointer := is_digest d (digest target) in
      if move_pointer && negb uniform then Err Ambiguous
      else
        '(w, _) ← for_each (fun '(w, skipped) x =>
            if negb skipped && eqs (program x) (program target) && eqs (version x) (version target) && eqs (digest x) (digest target) then Ok (w, true)
            else w1 ← put_entry x w; Ok (w1, skipped)) (MkWriter cap [], false) (entries table);
        w ← for_each (fun w p =>
            if eqs (p_program p) prog && move_pointer then match survivor with None => Ok w | Some s => put_pointer prog (digest s) w end
            else put_pointer (p_program p) (p_digest p) w) w (defaults table);
        Ok (w_text w)
  end.

(** ** The live generation's number *)

Definition parse_u32 (digits : list Z) : option Z := foldl (fun v b => n ← v; if n * 10 + (b - 48) <? 2 ^ 32 then Some (n * 10 + (b - 48)) else None) (Some 0) digits.

Definition parse_current (text : list Z) : option Z :=
  let digits := match rev text with b :: r => if b =? 10 then rev r else text | [] => text end in
  if eqs digits [] || negb (forallb is_ascii_digit digits) then None else parse_u32 digits.

(** The digits of a number, the lowest first; ten of them hold any 32-bit number. *)
Fixpoint low_digits (room : nat) (n : Z) : run (list Z) :=
  match room with
  | O => Panicked
  | S room' => if n / 10 =? 0 then Done [48 + n mod 10] else rest ← low_digits room' (n / 10); Done (48 + n mod 10 :: rest)
  end.

Definition generation_name (number : Z) : run (list Z) := ds ← low_digits 10 number; Done (rev ds).

Definition format_current (number : Z) (cap : nat) : run (result Error (list Z)) :=
  ds ← low_digits 10 number;
  Done (w ← puts ((fun d => [d]) <$> rev ds) (MkWriter cap []); w ← put [10] w; Ok (w_text w)).

(** ** The store of generations

    The files of the activation directory. [stop] tells how far a commit gets before the
    file service refuses or the machine goes down, and [torn] what the file being
    written then holds. *)

Definition CURRENT : list Z := lit "current".
Definition CURRENT_STAGED : list Z := lit "current.next".
Definition PAGE_BYTES : nat := Z.to_nat 4096.

Abbreviation Dir := (gmap (list Z) (list Z)).

(** What the file service does with a name it is asked for: it opens and reads the file
    if there is one, it refuses to open it though it may be there (no handle left, say),
    or it opens it and the read fails. *)
Inductive Access := Served | OpenRefused | ReadRefused.

#[export] Instance access_eq_dec : EqDecision Access.
Proof. solve_decision. Defined.

Inductive Got := NoHandle | NoBytes | Bytes (b : list Z).

Definition fetch (access : list Z -> Access) (d : Dir) (name : list Z) : Got :=
  match d !! name, access name with
  | None, _ | _, OpenRefused => NoHandle
  | Some _, ReadRefused => NoBytes
  | Some b, Served => Bytes b
  end.

(** A file service that refuses nothing. *)
Definition served (name : list Z) : Access := Served.

Definition generation_exists (access : list Z -> Access) (d : Dir) (number : Z) : run bool :=
  name ← generation_name number;
  Done match fetch access d name with NoHandle => false | _ => true end.

(** A [current] that cannot be opened is one that is not there. *)
Definition live_generation (access : list Z -> Access) (d : Dir) : run (result unit (Z * list Z)) :=
  match fetch access d CURRENT with
  | NoHandle => Done (Ok (0, []))
  | NoBytes => Done (Err tt)
  | Bytes file =>
      let line := take 16 file in
      match (if utf8_valid line then parse_current line else None) with
      | None => Done (Err tt)
      | Some number =>
          name ← generation_name number;
          Done match fetch access d name with
               | NoHandle | NoBytes => Err tt
               | Bytes t => if (length (take PAGE_BYTES t) <? PAGE_BYTES)%nat then Ok (number, t) else Err tt
               end
      end
  end.

(** The generation is written, then [current] staged, then renamed over. A name that is
    there already is not created. *)
Definition flip (stop : nat) (torn : list Z) (number : Z) (d : Dir) : run (bool * Dir) :=
  line ← format_current number 16;
  match line with
  | Err _ => Done (false, d)
  | Ok line =>
      if (stop =? 2)%nat then Done (false, d)
      else if (stop =? 3)%nat then Done (false, <[CURRENT_STAGED := torn]> d)
      else if (stop =? 4)%nat then Done (false, <[CURRENT_STAGED := line]> d)
      else Done (true, <[CURRENT := line]> (delete CURRENT_STAGED (<[CURRENT_STAGED := line]> d)))
  end.

Definition commit (stop : nat) (torn : list Z) (d : Dir) (number : Z) (table : option (list Z)) : run (bool * Dir) :=
  match table with
  | None => flip stop torn number d
  | Some t =>
      name ← generation_name number;
      if (stop =? 0)%nat || bool_decide (is_Some (d !! name)) then Done (false, d)
      else if (stop =? 1)%nat then Done (false, <[name := torn]> d)
      else flip stop torn number (<[name := t]> d)
  end.

(** *** The verbs *)

Inductive ActivationStatus := SDone | SNotCatalogued | SNoProgram | SNotInstalled | SNoEarlier | SStoreFailed | SUnknown | SNoSuchPackage | SNoNetwork | SFetchFailed | SNotExecutable | SNameTaken | SImageName | SAmbiguous.

Inductive Op := Install (e : Entry) (image : bool) | Remove (prog : list Z) | RemoveVersion (prog ver : list Z).

Inductive Verb := Rollback | Change (op : Op).

Definition act (cap : nat) (op : Op) (t : list Z) : result Error (list Z) :=
  match op with
  | Install e image => with_entry t e image cap
  | Remove prog => without_entry t prog cap
  | RemoveVersion prog ver => without_version t prog ver cap
  end.

(** [program@version], or a program. *)
Fixpoint split_once (acc l : list Z) : option (list Z * list Z) := match l with [] => None | b :: l' => if b =? 64 then Some (acc, l') else split_once (acc ++ [b]) l' end.

Definition removal (operand : list Z) : Op :=
  match split_once [] operand with
  | Some (prog, ver) => if negb (eqs prog []) && negb (eqs ver []) then RemoveVersion prog ver else Remove operand
  | None => Remove operand
  end.

Definition status_of (op : Op) (e : Error) : ActivationStatus :=
  match op, e with
  | Remove _, NotInstalled | RemoveVersion _ _, NotInstalled => SNotInstalled
  | Remove _, Ambiguous | RemoveVersion _ _, Ambiguous => SAmbiguous
  | Install x _, BadName => if eqs (package x) OWNER then SNotExecutable else SStoreFailed
  | Install x _, ImageName => if eqs (package x) OWNER then SStoreFailed else SImageName
  | Install x _, Taken => if eqs (package x) OWNER then SStoreFailed else SNameTaken
  | _, _ => SStoreFailed
  end.

(** The first number above the live one that has no file. *)
Fixpoint next (access : list Z -> Access) (fuel : nat) (d : Dir) (m : Z) : run Z :=
  match fuel with
  | O => Done m
  | S fuel' => taken ← generation_exists access d m; if (taken : bool) && (m <? u32_max) then next access fuel' d (m + 1) else Done m
  end.

(** [live + 1] is checked for overflow. *)
Definition edit (access : list Z -> Access) (verb : Verb) (stop : nat) (torn : list Z) (live : Z) (table : list Z) (d : Dir) : run (ActivationStatus * Z * Dir) :=
  match verb with
  | Rollback =>
      if live <=? 1 then Done (SNoEarlier, live, d)
      else
        exists_ ← generation_exists access d (live - 1);
        if negb exists_ then Done (SStoreFailed, live, d)
        else '(ok, d1) ← commit stop torn d (live - 1) None; Done (if (ok : bool) then (SDone, live - 1, d1) else (SStoreFailed, live, d1))
  | Change op =>
      match act PAGE_BYTES op table with
      | Err e => Done (status_of op e, live, d)
      | Ok t =>
          if live =? u32_max then Panicked
          else
            m ← next access (S (size d)) d (live + 1);
            '(ok, d1) ← commit stop torn d m (Some t); Done (if (ok : bool) then (SDone, m, d1) else (SStoreFailed, live, d1))
      end
  end.

(** A live table that cannot be read, or is not text, is left alone. *)
Definition activate (access : list Z -> Access) (verb : Verb) (stop : nat) (torn : list Z) (d : Dir) : run (ActivationStatus * Z * Dir) :=
  live ← live_generation access d;
  match live with
  | Err _ => Done (SStoreFailed, 0, d)
  | Ok (number, table) => if utf8_valid table then edit access verb stop torn number table d else Done (SStoreFailed, number, d)
  end.

(** ** Tables

    What a text stands for: rows, then pointers, each on a line of its own. *)

Definition row_line (e : Entry) : list Z := hex (digest e) ++ [32] ++ program e ++ [32] ++ version e ++ [32] ++ package e.
Definition pointer_line (p : Pointer) : list Z := lit "default" ++ [32] ++ p_program p ++ [32] ++ hex (p_digest p).

Definition render_lines (ls : list (list Z)) : list Z := flat_map (fun l => l ++ [10]) ls.
Definition render (rows : list Entry) (ptrs : list Pointer) : list Z := render_lines (map row_line rows ++ map pointer_line ptrs).

Definition digest_ok (d : Digest) : Prop := length d = DIGEST_LEN /\ bytes_ok d.

(** A package's name is the last of its line, where white space is trimmed. *)
Definition plain (b : Z) : Prop := 33 <= b <= 126.
Definition ends_plain (l : list Z) : Prop := exists l' b, l = l' ++ [b] /\ plain b.

Definition entry_ok (e : Entry) : Prop := good_name (program e) = true /\ good_name (version e) = true /\ good_name (package e) = true /\ ends_plain (package e) /\ digest_ok (digest e).
Definition pointer_ok (p : Pointer) : Prop := good_name (p_program p) = true /\ digest_ok (p_digest p).

Lemma eqs_spec a b : eqs a b = true <-> a = b.
Proof. apply bool_decide_eq_true. Qed.

Lemma eqs_refl a : eqs a a = true.
Proof. by apply eqs_spec. Qed.

Lemma eqs_ne a b : eqs a b = false <-> a <> b.
Proof. apply bool_decide_eq_false. Qed.

(** *** Digests *)

Lemma hex_digit_spec n : 0 <= n < 16 -> nibble (hex_digit n) = Some n /\ plain (hex_digit n).
Proof.
  intros Hn. unfold hex_digit, nibble, between, plain. destruct (Z.ltb_spec n 10).
  - destruct (Z.leb_spec 48 (48 + n)), (Z.leb_spec (48 + n) 57); try lia. cbn [andb]. split; [f_equal; lia|lia].
  - destruct (Z.leb_spec 48 (87 + n)), (Z.leb_spec (87 + n) 57), (Z.leb_spec 97 (87 + n)), (Z.leb_spec (87 + n) 102); try lia. cbn [andb]. split; [f_equal; lia|lia].
Qed.

Lemma nibbles b : 0 <= b < 256 -> 0 <= Z.shiftr b 4 < 16 /\ 0 <= Z.land b 15 < 16 /\ Z.lor (Z.shiftl (Z.shiftr b 4) 4) (Z.land b 15) = b.
Proof.
  intros Hb. change 15 with (Z.ones 4). split; [rewrite Z.shiftr_div_pow2 by lia; split; [apply Z.div_pos; lia|apply Z.div_lt_upper_bound; lia]|]. split; [rewrite Z.land_ones by lia; apply Z.mod_pos_bound; lia|].
  rewrite <- Z.ldiff_ones_r by lia. apply Z.bits_inj'. intros n Hn. rewrite Z.lor_spec, Z.land_spec, Z.ldiff_spec. by destruct (Z.testbit b n), (Z.testbit (Z.ones 4) n).
Qed.

Lemma hex_plain d : bytes_ok d -> Forall plain (hex d) /\ length (hex d) = (2 * length d)%nat.
Proof.
  induction 1 as [|b d Hb _ [IH1 IH2]]; [done|]. destruct (nibbles b Hb) as (H1 & H2 & _). cbn [hex flat_map]. split; [|cbn; unfold hex in IH2; rewrite IH2; lia]. constructor; [apply (hex_digit_spec _ H1)|]. constructor; [apply (hex_digit_spec _ H2)|done].
Qed.

Lemma parse_pairs_hex d : bytes_ok d -> parse_pairs (hex d) = Some d.
Proof.
  induction 1 as [|b d Hb _ IH]; [done|]. destruct (nibbles b Hb) as (H1 & H2 & H3). change (hex (b :: d)) with (hex_digit (Z.shiftr b 4) :: hex_digit (Z.land b 15) :: hex d). cbn [parse_pairs]. rewrite (proj1 (hex_digit_spec _ H1)), (proj1 (hex_digit_spec _ H2)). cbn [mbind option_bind]. rewrite IH. cbn. by rewrite H3.
Qed.

Lemma parse_hex_hex d : digest_ok d -> parse_hex (hex d) = Some d.
Proof. intros [Hl Hb]. unfold parse_hex. rewrite (proj2 (hex_plain d Hb)), Hl, Nat.eqb_refl. by apply parse_pairs_hex. Qed.

(** *** Lines and words *)

Lemma lines_line acc l rest : Forall (fun b => b <> 10) l -> lines_from acc (l ++ 10 :: rest) = strip_cr (acc ++ l) :: lines_from [] rest.
Proof.
  intros Hl. revert acc. induction Hl as [|b l Hb _ IH]; intros acc; [cbn; by rewrite app_nil_r|]. cbn [app lines_from]. destruct (Z.eqb_spec b 10); [done|]. by rewrite IH, <- app_assoc.
Qed.

Lemma words_word acc w rest : Forall (fun b => b <> 32) w -> words_from acc (w ++ 32 :: rest) = (acc ++ w) :: words_from [] rest.
Proof.
  intros Hl. revert acc. induction Hl as [|b l Hb _ IH]; intros acc; [cbn; by rewrite app_nil_r|]. cbn [app words_from]. destruct (Z.eqb_spec b 32); [done|]. by rewrite IH, <- app_assoc.
Qed.

Lemma words_last acc w : Forall (fun b => b <> 32) w -> words_from acc w = [acc ++ w].
Proof.
  intros Hl. revert acc. induction Hl as [|b l Hb _ IH]; intros acc; [cbn; by rewrite app_nil_r|]. cbn [words_from]. destruct (Z.eqb_spec b 32); [done|]. by rewrite IH, <- app_assoc.
Qed.

Lemma strip_plain fuel pats b l : forallb (fun p => match p with x :: _ => (x <=? 32) || (127 <=? x) | [] => false end) pats = true -> plain b -> strip fuel pats (b :: l) = b :: l.
Proof.
  intros Hp Hb. destruct fuel as [|fuel]; [done|]. cbn [strip]. assert (filter (fun p => starts_with p (b :: l) = true) pats = []) as ->; [|done]. induction pats as [|p pats IH]; [done|]. cbn [forallb] in Hp. apply andb_true_iff in Hp as [Hx Hp]. specialize (IH Hp). rewrite filter_cons. rewrite decide_False; [done|].
  destruct p as [|x p]; [done|]. unfold starts_with. cbn [length take]. intros He. apply eqs_spec in He. injection He as -> _. unfold plain in Hb. apply orb_true_iff in Hx as [Hx%Z.leb_le|Hx%Z.leb_le]; lia.
Qed.

(** A line that begins and ends with plain bytes. *)
Lemma trim_plain b l c : plain b -> plain c -> trim (b :: l ++ [c]) = b :: l ++ [c].
Proof.
  intros Hb Hc. unfold trim. rewrite strip_plain; [|done|done]. cbv zeta. set (k := length _). change (rev (b :: l ++ [c])) with (rev (l ++ [c]) ++ [b]). rewrite rev_unit. cbn [app]. rewrite strip_plain; [|done|done].
  change (c :: rev l ++ [b]) with ((c :: rev l) ++ [b]). rewrite rev_unit. cbn [rev]. by rewrite rev_involutive.
Qed.

Lemma strip_cr_plain l c : plain c -> strip_cr (l ++ [c]) = l ++ [c].
Proof. intros Hc. unfold strip_cr. rewrite rev_unit. destruct c as [|p|p]; try done. unfold plain in Hc. do 4 (destruct p as [p|p|]; try done; try lia). Qed.

(** A line of a table: plain at both ends, no line feed in it. *)
Definition line_shape (l : list Z) : Prop := exists b l' c, l = b :: l' ++ [c] /\ plain b /\ plain c /\ b <> 35 /\ Forall (fun x => x <> 10) l.

Lemma content_render ls : Forall line_shape ls -> content (render_lines ls) = ls.
Proof.
  induction 1 as [|l ls (b & l' & c & -> & Hb & Hc & Hn & H10) _ IH]; [done|]. unfold content, lines in *. change (render_lines ((b :: l' ++ [c]) :: ls)) with (((b :: l' ++ [c]) ++ [10]) ++ render_lines ls). rewrite <- app_assoc. change ([10] ++ render_lines ls) with (10 :: render_lines ls). rewrite (lines_line [] (b :: l' ++ [c])) by done.
  cbn [app]. change (b :: l' ++ [c]) with ((b :: l') ++ [c]). rewrite strip_cr_plain by done. cbn [app fmap list_fmap]. rewrite trim_plain by done. rewrite filter_cons_True; [by rewrite IH|]. apply andb_true_iff. split; [done|]. apply negb_true_iff, eqs_ne. cbn. intros [= ->]. done.
Qed.

Lemma good_bytes n : good_name n = true -> Forall (fun b => 32 < b) n /\ n <> [].
Proof.
  intros Hn. unfold good_name in Hn. apply andb_true_iff in Hn as [Hn Hb]. apply andb_true_iff in Hn as [Hn _]. split; [|intros ->; done]. clear Hn. induction n as [|b n IH]; [constructor|]. cbn [forallb] in Hb. apply andb_true_iff in Hb as [Hx Hb]. apply andb_true_iff in Hx as [Hx _]. constructor; [lia|by apply IH].
Qed.

Lemma good_free n x : good_name n = true -> x <= 32 -> Forall (fun b => b <> x) n.
Proof. intros Hn Hx. apply good_bytes in Hn as [Hn _]. eapply Forall_impl; [exact Hn|]. cbn. lia. Qed.

Lemma plain_free l x : Forall plain l -> x <= 32 -> Forall (fun b => b <> x) l.
Proof. intros Hl Hx. eapply Forall_impl; [exact Hl|]. unfold plain. lia. Qed.

Lemma hex_ends d : digest_ok d -> exists b l c, hex d = b :: l ++ [c] /\ plain b /\ plain c /\ b <> 35 /\ length (hex d) = 64%nat.
Proof.
  intros [Hl Hb]. destruct (hex_plain d Hb) as [Hp Hlen]. rewrite Hl in Hlen. change (2 * DIGEST_LEN)%nat with 64%nat in Hlen. destruct d as [|x d]; [done|]. inversion Hb as [|? ? Hx Hb']; subst. destruct (nibbles x Hx) as (H1 & _ & _). set (h := hex (x :: d)) in *.
  assert (Hh : exists r, h = hex_digit (Z.shiftr x 4) :: r) by (eexists; done). destruct Hh as [r Hr]. rewrite Hr in *. destruct r as [|c l _] using rev_ind; [done|]. exists (hex_digit (Z.shiftr x 4)), l, c. split; [done|]. inversion Hp as [|? ? Hp1 Hp2]; subst. apply Forall_app in Hp2 as [_ Hp2]. inversion Hp2; subst. split; [done|]. split; [done|]. split; [|done].
  unfold hex_digit. destruct (_ <? 10); lia.
Qed.

Lemma row_shape e : entry_ok e -> line_shape (row_line e).
Proof.
  intros (H1 & H2 & H3 & (l' & c & Hc & Hpc) & H5). destruct (hex_ends _ H5) as (b & l & c' & Hh & Hb & Hc' & Hn & _). exists b, (l ++ [c'] ++ [32] ++ program e ++ [32] ++ version e ++ [32] ++ l'), c. split; [|split; [done|]; split; [done|]; split; [done|]].
  - unfold row_line. rewrite Hh, Hc. cbn [app]. f_equal. by do 8 (rewrite <- ?app_assoc; cbn [app]).
  - unfold row_line. rewrite !Forall_app. split_and!; try (by constructor); try (by apply good_free; [|lia]). apply plain_free; [apply hex_plain, H5|lia].
Qed.

Lemma pointer_shape p : pointer_ok p -> line_shape (pointer_line p).
Proof.
  intros (H1 & H5). destruct (hex_ends _ H5) as (b & l & c' & Hh & Hb & Hc' & Hn & _). exists 100, (lit "efault" ++ [32] ++ p_program p ++ [32] ++ b :: l), c'. split; [|split; [done|]; split; [done|]; split; [done|]].
  - unfold pointer_line. rewrite Hh. change (lit "default") with (100 :: lit "efault"). cbn [app]. f_equal. by do 8 (rewrite <- ?app_assoc; cbn [app]).
  - unfold pointer_line. rewrite !Forall_app. split_and!; try (by repeat constructor); try (by apply good_free; [|lia]). apply plain_free; [apply hex_plain, H5|lia].
Qed.

Lemma classify_row e : entry_ok e -> classify (row_line e) = LRow e.
Proof.
  intros (H1 & H2 & H3 & _ & H5). unfold classify, words, row_line. cbn [app]. rewrite (words_word [] (hex (digest e))) by (apply plain_free; [apply hex_plain, H5|lia]). rewrite (words_word [] (program e)) by (by apply good_free). rewrite (words_word [] (version e)) by (by apply good_free). rewrite words_last by (by apply good_free). cbn [app].
  destruct (hex_ends _ H5) as (b & l & c' & _ & _ & _ & _ & Hl). assert (eqs (hex (digest e)) (lit "default") = false) as ->. { apply eqs_ne. intros He. rewrite He in Hl. done. }
  rewrite (parse_hex_hex _ H5), H1, H2, H3. cbn. by destruct e.
Qed.

Lemma classify_pointer p : pointer_ok p -> classify (pointer_line p) = LPointer p.
Proof.
  intros (H1 & H5). unfold classify, words, pointer_line. cbn [app]. rewrite (words_word [] (lit "default")) by (by repeat constructor). cbn [app]. rewrite (words_word [] (p_program p)) by (by apply good_free). rewrite words_last by (apply plain_free; [apply hex_plain, H5|lia]). cbn [app].
  rewrite eqs_refl, (parse_hex_hex _ H5), H1. by destruct p.
Qed.

Lemma omap_all {A B C} (f : B -> option C) (g : A -> B) (h : A -> option C) (l : list A) : Forall (fun x => f (g x) = h x) l -> omap f (map g l) = omap h l.
Proof. induction 1 as [|x l Hx _ IH]; [done|]. cbn. rewrite Hx. destruct (h x); [|exact IH]. by rewrite <- IH. Qed.

Lemma omap_some {A B} (h : A -> B) (l : list A) : omap (fun x => Some (h x)) l = h <$> l.
Proof. induction l as [|x l IH]; [done|]. cbn. by rewrite <- IH. Qed.

Lemma omap_none {A B} (l : list A) : omap (fun _ => @None B) l = [].
Proof. induction l as [|x l IH]; [done|]. cbn. exact IH. Qed.

(** A rendered table reads as the rows and the pointers it was rendered from. *)
Lemma read_render rows ptrs : Forall entry_ok rows -> Forall pointer_ok ptrs -> entries (render rows ptrs) = Ok <$> rows /\ defaults (render rows ptrs) = Ok <$> ptrs.
Proof.
  intros Hr Hp. unfold entries, defaults, render. rewrite content_render. 2:{ apply Forall_app. split; [apply Forall_map; by eapply Forall_impl; [exact Hr|]; intros; apply row_shape|apply Forall_map; by eapply Forall_impl; [exact Hp|]; intros; apply pointer_shape]. }
  rewrite !omap_app. split.
  - rewrite (omap_all _ row_line (fun e => Some (Ok e))), (omap_all _ pointer_line (fun _ => None)).
    + by rewrite omap_some, omap_none, app_nil_r.
    + eapply Forall_impl; [exact Hp|]. intros p Hok. by rewrite classify_pointer.
    + eapply Forall_impl; [exact Hr|]. intros p Hok. by rewrite classify_row.
  - rewrite (omap_all _ row_line (fun _ => None)), (omap_all _ pointer_line (fun p => Some (Ok p))).
    + by rewrite omap_some, omap_none.
    + eapply Forall_impl; [exact Hp|]. intros p Hok. by rewrite classify_pointer.
    + eapply Forall_impl; [exact Hr|]. intros p Hok. by rewrite classify_row.
Qed.

(** ** Loops over a table that reads *)

Lemma for_each_pure {S A} (f : S -> A -> S) (s : S) (l : list A) : for_each (fun s a => Ok (f s a)) s (Ok <$> l) = Ok (foldl f s l).
Proof. revert s. induction l as [|a l IH]; intros s; [done|]. cbn. apply IH. Qed.

Lemma for_each_guard {A} (f : A -> bool) (e : Error) (l : list A) : for_each (fun _ a => if f a then Err e else Ok tt) tt (Ok <$> l) = if existsb f l then Err e else Ok tt.
Proof. induction l as [|a l IH]; [done|]. cbn. destruct (f a); [done|exact IH]. Qed.

(** What was written, if it fits. *)
Definition wrote (cap : nat) (t : list Z) : result Error Writer := if (length t <=? cap)%nat then Ok (MkWriter cap t) else Err TooSmall.

Lemma wrote_ok cap t : (length t <= cap)%nat -> wrote cap t = Ok (MkWriter cap t).
Proof. intros Ht. unfold wrote. by rewrite (proj2 (Nat.leb_le _ _) Ht). Qed.

(** Writing on after a writing that may not have fitted. *)
Lemma wrote_bind {A} cap t u (f : Writer -> result Error A) (g : Writer -> result Error A) :
  (forall w, wrote cap t = Ok w -> f w = match wrote cap (t ++ u) with Ok w' => g w' | Err e => Err e end) ->
  match wrote cap t with Ok w => f w | Err e => Err e end = match wrote cap (t ++ u) with Ok w' => g w' | Err e => Err e end.
Proof.
  intros H. destruct (wrote cap t) as [w|e] eqn:Hw; [by apply H|]. unfold wrote in *. destruct (Nat.leb_spec (length t) cap); [done|]. injection Hw as <-. destruct (Nat.leb_spec (length (t ++ u)) cap) as [Hl|]; [|done]. rewrite length_app in Hl. lia.
Qed.

Lemma puts_wrote cap bs : forall t, (length t <= cap)%nat -> puts bs (MkWriter cap t) = wrote cap (t ++ concat bs).
Proof.
  induction bs as [|b bs IH]; intros t Ht; [cbn; rewrite app_nil_r; by rewrite wrote_ok|]. cbn [puts concat]. unfold put. cbn [w_text w_cap]. destruct (Nat.leb_spec (length t + length b) cap) as [Hl|Hl]; cbn [mbind result_bind].
  - rewrite IH by (rewrite length_app; lia). by rewrite <- app_assoc.
  - unfold wrote. destruct (Nat.leb_spec (length (t ++ b ++ concat bs)) cap) as [H|]; [|done]. rewrite !length_app in H. lia.
Qed.

Lemma put_entry_wrote cap t e : (length t <= cap)%nat -> put_entry e (MkWriter cap t) = wrote cap (t ++ row_line e ++ [10]).
Proof. intros Ht. unfold put_entry. rewrite puts_wrote by done. f_equal. f_equal. unfold row_line. change (lit " ") with [32]. cbn [concat]. by do 8 (rewrite <- ?app_assoc; cbn [app]). Qed.

Lemma put_pointer_wrote cap t prog d : (length t <= cap)%nat -> put_pointer prog d (MkWriter cap t) = wrote cap (t ++ pointer_line (MkPointer prog d) ++ [10]).
Proof. intros Ht. unfold put_pointer. rewrite puts_wrote by done. f_equal. f_equal. unfold pointer_line. cbn [p_program p_digest concat]. change (lit "default ") with (lit "default" ++ [32]). change (lit " ") with [32]. by do 6 (rewrite <- ?app_assoc; cbn [app]). Qed.

(** A loop that writes for each row and keeps a state. *)
Fixpoint walk {S A} (step : S -> A -> list Z * S) (r : S) (l : list A) : list Z * S :=
  match l with
  | [] => ([], r)
  | a :: l' => let '(o, r1) := step r a in let '(os, r2) := walk step r1 l' in (o ++ os, r2)
  end.

Lemma write_walk {S A} cap (F : Writer * S -> A -> result Error (Writer * S)) (step : S -> A -> list Z * S) l :
  (forall t r x, (length t <= cap)%nat -> F (MkWriter cap t, r) x = match wrote cap (t ++ (step r x).1) with Ok w => Ok (w, (step r x).2) | Err e => Err e end) ->
  forall t r, (length t <= cap)%nat -> for_each F (MkWriter cap t, r) (Ok <$> l) = match wrote cap (t ++ (walk step r l).1) with Ok w => Ok (w, (walk step r l).2) | Err e => Err e end.
Proof.
  intros HF. induction l as [|x l IH]; intros t r Ht; [cbn; rewrite app_nil_r; by rewrite wrote_ok|]. cbn [fmap list_fmap for_each walk]. rewrite (HF t r x Ht). destruct (step r x) as [o r1]. cbn [fst snd]. destruct (walk step r1 l) as [os r2] eqn:Hw. cbn [fst snd]. rewrite app_assoc.
  destruct (wrote cap (t ++ o)) as [w|e] eqn:Ho.
  - unfold wrote in Ho. destruct (Nat.leb_spec (length (t ++ o)) cap) as [Hl|]; [|done]. injection Ho as <-. by rewrite (IH (t ++ o) r1 Hl), Hw.
  - unfold wrote in *. destruct (Nat.leb_spec (length (t ++ o)) cap) as [|Hl]; [done|]. injection Ho as <-. destruct (Nat.leb_spec (length ((t ++ o) ++ os)) cap) as [H|]; [|done]. rewrite length_app in H. lia.
Qed.

Lemma write_each {A} cap (F : Writer -> A -> result Error Writer) (out : A -> list Z) l :
  (forall t x, (length t <= cap)%nat -> F (MkWriter cap t) x = wrote cap (t ++ out x)) ->
  forall t, (length t <= cap)%nat -> for_each F (MkWriter cap t) (Ok <$> l) = wrote cap (t ++ flat_map out l).
Proof.
  intros HF. induction l as [|x l IH]; intros t Ht; [cbn; rewrite app_nil_r; by rewrite wrote_ok|]. cbn [fmap list_fmap for_each flat_map]. rewrite (HF t x Ht), app_assoc. unfold wrote at 1. destruct (Nat.leb_spec (length (t ++ out x)) cap) as [Hl|Hl]; [by apply IH|].
  unfold wrote. destruct (Nat.leb_spec (length ((t ++ out x) ++ flat_map out l)) cap) as [H|]; [|done]. rewrite length_app in H. lia.
Qed.

(** A loop that writes one line for each row and remembers whether one was special. *)
Lemma walk_map {A} (line : A -> list Z) (g : A -> A) (h : A -> bool) l : forall r,
  walk (fun r x => (line (g x) ++ [10], r || h x)) r l = (render_lines (map line (map g l)), r || existsb h l).
Proof. induction l as [|x l IH]; intros r; [cbn; by rewrite orb_false_r|]. cbn [walk map existsb]. rewrite IH. cbn [render_lines flat_map]. by rewrite orb_assoc. Qed.

Lemma render_lines_app a b : render_lines (a ++ b) = render_lines a ++ render_lines b.
Proof. unfold render_lines. apply flat_map_app. Qed.

(** ** What succeeding a table does *)

Definition vouches (e : Entry) : bool := eqs (package e) OWNER.

(** The row that the new one takes the place of: the owner's vouch for the program, or
    the installed row of the same bytes. *)
Definition here (e x : Entry) : bool := Bool.eqb (eqs (package x) OWNER) (vouches e) && eqs (program x) (program e) && (if vouches e then true else eqs (digest x) (digest e)).

Definition install_rows (e : Entry) (rows : list Entry) : list Entry := map (fun x => if here e x then e else x) rows ++ (if existsb (here e) rows then [] else [e]).

Definition pointer_to (e : Entry) : Pointer := MkPointer (program e) (digest e).
Definition names (prog : list Z) (p : Pointer) : bool := eqs (p_program p) prog.

Definition install_pointers (e : Entry) (ptrs : list Pointer) : list Pointer :=
  if vouches e then ptrs
  else map (fun p => if names (program e) p then pointer_to e else p) ptrs ++ (if existsb (names (program e)) ptrs then [] else [pointer_to e]).

Definition taken (e : Entry) (rows : list Entry) : bool := existsb (fun x => negb (vouches e) && eqs (program x) (program e) && packaged x && negb (eqs (package x) (package e))) rows.

Definition fitted (cap : nat) (t : list Z) : result Error (list Z) := if (length t <=? cap)%nat then Ok t else Err TooSmall.

Lemma wrote_over cap t : (cap < length t)%nat -> wrote cap t = Err TooSmall.
Proof. intros Ht. unfold wrote. by destruct (Nat.leb_spec (length t) cap); [lia|]. Qed.

Lemma fitted_over cap t u : (cap < length t)%nat -> fitted cap (t ++ u) = Err TooSmall.
Proof. intros Ht. unfold fitted. destruct (Nat.leb_spec (length (t ++ u)) cap) as [H|]; [|done]. rewrite length_app in H. lia. Qed.

(** The next stage of a writing: it fits so far, or the whole does not fit. *)
Ltac stage cap t :=
  let H := fresh "Hfit" in
  destruct (decide (length t <= cap)%nat) as [H|H];
  [rewrite (wrote_ok cap t H) | rewrite (wrote_over cap t) by lia; cbn [mbind result_bind]];
  cbn [mbind result_bind].

Lemma with_entry_spec rows ptrs e image cap : Forall entry_ok rows -> Forall pointer_ok ptrs -> entry_ok e ->
  with_entry (render rows ptrs) e image cap =
    if negb (vouches e) && image then Err ImageName else if taken e rows then Err Taken
    else fitted cap (render (install_rows e rows) (install_pointers e ptrs)).
Proof.
  intros Hr Hp (G1 & G2 & G3 & _). destruct (read_render rows ptrs Hr Hp) as [He Hd]. unfold with_entry. rewrite G1, G2, G3. cbn [negb orb]. cbv zeta. fold (vouches e). destruct (_ && image); [done|]. rewrite He, Hd. clear He Hd.
  rewrite for_each_guard. fold (taken e rows). destruct (taken e rows); [done|]. cbn [mbind result_bind].
  set (g := fun x => if here e x then e else x). set (R1 := render_lines (map row_line (map g rows))). set (R2 := render_lines (map row_line (if existsb (here e) rows then [] else [e]))).
  set (P1 := render_lines (map pointer_line (if vouches e then ptrs else map (fun p => if names (program e) p then pointer_to e else p) ptrs))). set (P2 := render_lines (map pointer_line (if vouches e then [] else if existsb (names (program e)) ptrs then [] else [pointer_to e]))).
  assert (HR : render (install_rows e rows) (install_pointers e ptrs) = ((R1 ++ R2) ++ P1) ++ P2).
  { unfold render, install_rows, install_pointers, R1, R2, P1, P2. rewrite <- !render_lines_app. f_equal. rewrite !map_app, <- !app_assoc. f_equal. f_equal. destruct (vouches e); [by rewrite app_nil_r|by rewrite map_app]. }
  rewrite HR. erewrite (write_walk cap _ (fun r x => (row_line (g x) ++ [10], r || here e x))); [|intros t r x Ht|cbn; lia].
  2:{ fold (here e x). unfold g. cbn [fst snd]. destruct (here e x); rewrite put_entry_wrote by done; [rewrite orb_true_r|rewrite orb_false_r]; done. }
  rewrite walk_map. cbn [fst snd app orb]. fold R1. stage cap R1; [|by rewrite <- !app_assoc, fitted_over by lia].
  assert (H2 : (if existsb (here e) rows then Ok (MkWriter cap R1) else put_entry e (MkWriter cap R1)) = wrote cap (R1 ++ R2)).
  { unfold R2. destruct (existsb (here e) rows); [cbn; by rewrite app_nil_r, wrote_ok|]. rewrite put_entry_wrote by done. cbn. by rewrite app_nil_r. }
  rewrite H2. stage cap (R1 ++ R2); [|by rewrite <- (app_assoc (R1 ++ R2)), fitted_over by lia].
  erewrite (write_walk cap _ (fun r p => (pointer_line (if negb (vouches e) && names (program e) p then pointer_to e else p) ++ [10], r || (negb (vouches e) && names (program e) p)))); [|intros t r x Ht|done].
  2:{ unfold names. cbn [fst snd]. destruct (negb (vouches e) && eqs (p_program x) (program e)); rewrite put_pointer_wrote by done; [rewrite orb_true_r|rewrite orb_false_r; destruct x]; done. }
  rewrite (walk_map pointer_line (fun p => if negb (vouches e) && names (program e) p then pointer_to e else p)). cbn [fst snd orb].
  assert (HP1 : render_lines (map pointer_line (map (fun p => if negb (vouches e) && names (program e) p then pointer_to e else p) ptrs)) = P1) by (unfold P1; destruct (vouches e); [by rewrite map_id|done]). rewrite HP1.
  stage cap ((R1 ++ R2) ++ P1); [|by rewrite fitted_over by lia].
  assert (H4 : (if negb (vouches e) && negb (existsb (fun p => negb (vouches e) && names (program e) p) ptrs) then put_pointer (program e) (digest e) (MkWriter cap ((R1 ++ R2) ++ P1)) else Ok (MkWriter cap ((R1 ++ R2) ++ P1))) = wrote cap (((R1 ++ R2) ++ P1) ++ P2)).
  { unfold P2. destruct (vouches e); cbn [negb andb]; [cbn; by rewrite app_nil_r, wrote_ok|]. fold (existsb (names (program e)) ptrs). change (existsb (fun p => names (program e) p) ptrs) with (existsb (names (program e)) ptrs).
    destruct (existsb (names (program e)) ptrs); cbn [negb]; [cbn; by rewrite app_nil_r, wrote_ok|]. rewrite put_pointer_wrote by done. cbn. by rewrite app_nil_r. }
  rewrite H4. unfold fitted, wrote. by destruct (_ <=? cap)%nat.
Qed.

Definition row_of (prog : list Z) (x : Entry) : bool := eqs (program x) prog && packaged x.

Definition keep {A} (h : A -> bool) (l : list A) : list A := List.filter (fun x => negb (h x)) l.

Lemma walk_keep {A} (line : A -> list Z) (h : A -> bool) l : forall r, walk (fun r x => (if h x then [] else line x ++ [10], r || h x)) r l = (render_lines (map line (keep h l)), r || existsb h l).
Proof. induction l as [|x l IH]; intros r; [cbn; by rewrite orb_false_r|]. cbn [walk keep List.filter existsb]. rewrite IH, orb_assoc. unfold keep. by destruct (h x). Qed.

Lemma flat_keep {A} (line : A -> list Z) (h : A -> bool) l : flat_map (fun x => if negb (h x) then line x ++ [10] else []) l = render_lines (map line (keep h l)).
Proof. induction l as [|x l IH]; [done|]. cbn [flat_map keep List.filter]. rewrite IH. unfold keep. by destruct (h x). Qed.

Lemma without_entry_spec rows ptrs prog cap : Forall entry_ok rows -> Forall pointer_ok ptrs ->
  without_entry (render rows ptrs) prog cap =
    match fitted cap (render (keep (row_of prog) rows) (keep (names prog) ptrs)) with Ok t => if existsb (row_of prog) rows then Ok t else Err NotInstalled | Err e => Err e end.
Proof.
  intros Hr Hp. destruct (read_render rows ptrs Hr Hp) as [He Hd]. unfold without_entry. rewrite He, Hd. clear He Hd. set (R := render_lines (map row_line (keep (row_of prog) rows))). set (P := render_lines (map pointer_line (keep (names prog) ptrs))).
  assert (HR : render (keep (row_of prog) rows) (keep (names prog) ptrs) = R ++ P) by (apply render_lines_app). rewrite HR.
  erewrite (write_walk cap _ (fun r x => (if row_of prog x then [] else row_line x ++ [10], r || row_of prog x))); [|intros t r x Ht|cbn; lia].
  2:{ fold (row_of prog x). cbn [fst snd]. destruct (row_of prog x); [by rewrite app_nil_r, wrote_ok, orb_true_r|]. rewrite put_entry_wrote by done. by rewrite orb_false_r. }
  rewrite walk_keep. cbn [fst snd app orb]. fold R. stage cap R; [|by rewrite fitted_over by lia].
  erewrite (write_each cap _ (fun p => if negb (names prog p) then pointer_line p ++ [10] else [])); [|intros t x Ht|done].
  2:{ fold (names prog x). destruct (negb (names prog x)); [|by rewrite app_nil_r, wrote_ok]. rewrite put_pointer_wrote by done. by destruct x. }
  rewrite flat_keep. fold P. unfold fitted, wrote. by destruct (_ <=? cap)%nat.
Qed.

(** The first row that is one is left out. *)
Fixpoint remove_first {A} (h : A -> bool) (l : list A) : list A := match l with [] => [] | x :: l' => if h x then l' else x :: remove_first h l' end.

Lemma walk_remove {A} (line : A -> list Z) (h : A -> bool) l : forall skipped, walk (fun (skipped : bool) x => if negb skipped && h x then ([], true) else (line x ++ [10], skipped)) skipped l =
  (render_lines (map line (if skipped then l else remove_first h l)), skipped || existsb h l).
Proof.
  induction l as [|x l IH]; intros skipped; [cbn; by destruct skipped|]. cbn [walk remove_first existsb]. destruct skipped; cbn [negb andb orb].
  - by rewrite IH.
  - destruct (h x); [by rewrite IH|]. by rewrite IH.
Qed.

Definition surveyed (prog ver : list Z) (rows : list Entry) : option Entry * option Entry * bool := foldl (survey_step prog ver) (None, None, true) rows.

Definition same_row (target x : Entry) : bool := eqs (program x) (program target) && eqs (version x) (version target) && eqs (digest x) (digest target).

(** The pointer moves to the row that is left, or goes. *)
Definition repoint (prog : list Z) (survivor : option Entry) (p : Pointer) : list Pointer :=
  if names prog p then match survivor with None => [] | Some s => [MkPointer prog (digest s)] end else [p].

Definition remove_version (prog ver : list Z) (d : option Digest) (rows : list Entry) (ptrs : list Pointer) : result Error (list Entry * list Pointer) :=
  match surveyed prog ver rows with
  | (None, _, _) => Err NotInstalled
  | (Some target, survivor, uniform) =>
      let move := is_digest d (digest target) in
      if move && negb uniform then Err Ambiguous
      else Ok (remove_first (same_row target) rows, if move then flat_map (repoint prog survivor) ptrs else ptrs)
  end.

Lemma render_flat {A B} (line : A -> list Z) (f : B -> list A) l : flat_map (fun x => render_lines (map line (f x))) l = render_lines (map line (flat_map f l)).
Proof. induction l as [|x l IH]; [done|]. cbn [flat_map]. by rewrite map_app, render_lines_app, IH. Qed.

Lemma without_version_spec rows ptrs prog ver d cap : Forall entry_ok rows -> Forall pointer_ok ptrs -> default_of (render rows ptrs) prog = Ok d ->
  without_version (render rows ptrs) prog ver cap = match remove_version prog ver d rows ptrs with Ok (rows', ptrs') => fitted cap (render rows' ptrs') | Err e => Err e end.
Proof.
  intros Hr Hp Hdef. destruct (read_render rows ptrs Hr Hp) as [He Hd]. unfold without_version, survey, remove_version. rewrite He.
  rewrite for_each_pure. fold (surveyed prog ver rows). destruct (surveyed prog ver rows) as [[target survivor] uniform]. cbn [mbind result_bind]. destruct target as [target|]; [|done]. rewrite Hdef. cbn [mbind result_bind]. cbv zeta. set (move := is_digest d (digest target)).
  destruct (move && negb uniform); [done|]. rewrite Hd. clear He Hd Hdef.
  set (R := render_lines (map row_line (remove_first (same_row target) rows))). set (P := render_lines (map pointer_line (if move then flat_map (repoint prog survivor) ptrs else ptrs))).
  assert (HR : render (remove_first (same_row target) rows) (if move then flat_map (repoint prog survivor) ptrs else ptrs) = R ++ P) by (apply render_lines_app). rewrite HR.
  erewrite (write_walk cap _ (fun (skipped : bool) x => if negb skipped && same_row target x then ([], true) else (row_line x ++ [10], skipped))); [|intros t r x Ht|cbn; lia].
  2:{ unfold same_row. rewrite !andb_assoc. destruct (negb r && _ && _ && _); cbn [fst snd]; [by rewrite app_nil_r, wrote_ok|]. by rewrite put_entry_wrote by done. }
  rewrite walk_remove. cbn [fst snd app]. fold R. stage cap R; [|by rewrite fitted_over by lia].
  erewrite (write_each cap _ (fun p => render_lines (map pointer_line (if move then repoint prog survivor p else [p])))); [|intros t x Ht|done].
  2:{ fold (names prog x). unfold repoint. destruct move; [rewrite andb_true_r|rewrite andb_false_r]; [destruct (names prog x); [destruct survivor|]|]; cbn [map render_lines flat_map]; rewrite ?app_nil_r; try (by rewrite wrote_ok); rewrite put_pointer_wrote by done; by destruct x. }
  rewrite (render_flat pointer_line). assert (flat_map (fun x => if move then repoint prog survivor x else [x]) ptrs = if move then flat_map (repoint prog survivor) ptrs else ptrs) as ->.
  { destruct move; [done|]. clear. induction ptrs as [|p ptrs IH]; [done|]. cbn. by rewrite IH. }
  fold P. unfold fitted, wrote. by destruct (_ <=? cap)%nat.
Qed.

(** ** The invariant of a table *)

Definition key (x : Entry) : list Z * Digest := (program x, digest x).

Record table_ok (rows : list Entry) (ptrs : list Pointer) : Prop := {
  t_rows : Forall entry_ok rows;
  t_pointers : Forall pointer_ok ptrs;
  t_keys : List.NoDup (map key (List.filter packaged rows));
  t_names : List.NoDup (map p_program ptrs);
  t_target : forall p, In p ptrs -> exists x, In x rows /\ packaged x = true /\ key x = (p_program p, p_digest p);
  t_covered : forall x, In x rows -> packaged x = true -> exists p, In p ptrs /\ p_program p = program x;
  t_one : forall x y, In x rows -> In y rows -> packaged x = true -> packaged y = true -> program x = program y -> package x = package y;
  t_version : forall x, In x rows -> packaged x = false <-> version x = NO_VERSION }.

(** What a bare word runs: the row its pointer names. *)
Definition pointed (ptrs : list Pointer) (prog : list Z) : option Digest := p_digest <$> List.find (names prog) ptrs.

Definition bare (rows : list Entry) (ptrs : list Pointer) (prog : list Z) : option Entry :=
  d ← pointed ptrs prog; List.find (fun x => row_of prog x && eqs (digest x) d) rows.

Lemma row_of_spec prog x : row_of prog x = true <-> program x = prog /\ packaged x = true.
Proof. unfold row_of. rewrite andb_true_iff, eqs_spec. done. Qed.

Lemma packaged_vouches x : packaged x = negb (vouches x).
Proof. done. Qed.

Lemma find_absent {A} (h : A -> bool) l : existsb h l = false -> List.find h l = None.
Proof. induction l as [|x l IH]; [done|]. cbn. destruct (h x); [done|apply IH]. Qed.

Lemma default_fold prog ptrs : List.NoDup (map p_program ptrs) -> forall s, foldl (default_step prog) s ptrs = match List.find (names prog) ptrs with Some p => (Some (p_digest p), S s.2) | None => s end.
Proof.
  induction ptrs as [|p ptrs IH]; intros Hn s; [done|]. apply NoDup_cons_iff in Hn as [Hp Hn]. cbn [foldl List.find]. rewrite (IH Hn). assert (default_step prog s p = if names prog p then (Some (p_digest p), S s.2) else s) as -> by done. destruct (names prog p) eqn:Hm; [|done].
  apply eqs_spec in Hm as <-. rewrite find_absent; [done|]. apply not_true_iff_false. intros (x & Hx & He)%existsb_exists. apply eqs_spec in He. apply Hp. apply in_map_iff. by exists x.
Qed.

Lemma default_of_spec rows ptrs prog : table_ok rows ptrs -> default_of (render rows ptrs) prog = Ok (pointed ptrs prog).
Proof.
  intros []. unfold default_of. rewrite (proj2 (read_render rows ptrs t_rows0 t_pointers0)), for_each_pure, default_fold by done. unfold pointed. by destruct (List.find (names prog) ptrs).
Qed.

Lemma first_row_find f rows : first_row f (Ok <$> rows) = match List.find f rows with Some e => Ok e | None => Err Malformed end.
Proof. induction rows as [|x rows IH]; [done|]. cbn. destruct (f x); [done|exact IH]. Qed.

Lemma first_fold f rows : forall s, foldl (first_step f) s rows = match s with Some _ => s | None => List.find f rows end.
Proof. induction rows as [|x rows IH]; intros s; [by destruct s|]. cbn [foldl List.find]. rewrite IH. unfold first_step. destruct s; [done|]. by destruct (f x). Qed.

Lemma first_of_spec f rows ptrs : table_ok rows ptrs -> first_of f (render rows ptrs) = Ok (List.find f rows).
Proof. intros []. unfold first_of. by rewrite (proj1 (read_render rows ptrs t_rows0 t_pointers0)), for_each_pure, first_fold. Qed.

(** The row a program's pointer names. *)
Definition runs (rows : list Entry) (ptrs : list Pointer) (prog : list Z) (x : Entry) : Prop := In x rows /\ row_of prog x = true /\ In (MkPointer prog (digest x)) ptrs.

Lemma NoDup_map_inj {A B} (f : A -> B) l x y : List.NoDup (map f l) -> In x l -> In y l -> f x = f y -> x = y.
Proof.
  induction l as [|a l IH]; [done|]. intros [Ha Hn]%NoDup_cons_iff [->|Hx] [->|Hy] He; [done| | |by apply IH]; exfalso; apply Ha, in_map_iff; [by exists y|by exists x].
Qed.

Lemma keys_inj rows ptrs x y : table_ok rows ptrs -> In x rows -> In y rows -> packaged x = true -> packaged y = true -> key x = key y -> x = y.
Proof. intros [] Hx Hy Px Py. apply (NoDup_map_inj key (List.filter packaged rows)); [done|by apply filter_In|by apply filter_In]. Qed.

Lemma pointed_spec rows ptrs prog d : table_ok rows ptrs -> pointed ptrs prog = Some d <-> In (MkPointer prog d) ptrs.
Proof.
  intros []. unfold pointed. split.
  - intros ([prog' d'] & Hf & Hd)%fmap_Some. cbn in Hd. subst d'. apply find_some in Hf as [Hin Hn]. apply eqs_spec in Hn. cbn in Hn. by subst.
  - intros Hin. destruct (List.find (names prog) ptrs) as [p|] eqn:Hf; [|apply find_none with (x := MkPointer prog d) in Hf; [|done]; unfold names in Hf; cbn in Hf; by rewrite eqs_refl in Hf]. apply find_some in Hf as [Hp Hn]. apply eqs_spec in Hn.
    by rewrite (NoDup_map_inj p_program ptrs p (MkPointer prog d) t_names0 Hp Hin Hn).
Qed.

Lemma bare_spec rows ptrs prog x : table_ok rows ptrs -> bare rows ptrs prog = Some x <-> runs rows ptrs prog x.
Proof.
  intros Ht. unfold bare, runs. split.
  - intros (d & Hd & Hf)%bind_Some. apply (pointed_spec rows) in Hd; [|done]. apply find_some in Hf as [Hin Hx]. apply andb_true_iff in Hx as [Hx He]. apply eqs_spec in He. by rewrite He.
  - intros (Hin & Hr & Hp). apply (pointed_spec rows) in Hp as ->; [|done]. cbn [mbind option_bind]. destruct (List.find _ rows) as [y|] eqn:Hf.
    + apply find_some in Hf as [Hy Hf]. apply andb_true_iff in Hf as [Hy1 Hy2]. apply eqs_spec in Hy2. apply row_of_spec in Hr as [Hr1 Hr2], Hy1 as [Hy3 Hy4]. f_equal. apply (keys_inj rows ptrs); try done. unfold key. congruence.
    + apply find_none with (x := x) in Hf; [|done]. rewrite Hr, eqs_refl in Hf. done.
Qed.

Lemma table_lookup rows ptrs prog : table_ok rows ptrs -> lookup (render rows ptrs) prog = Ok (bare rows ptrs prog).
Proof.
  intros Ht. unfold lookup. rewrite (default_of_spec _ _ _ Ht). unfold bare. destruct (pointed ptrs prog) as [d|] eqn:Hd; [|done]. cbn [mbind option_bind]. rewrite (proj1 (read_render rows ptrs (t_rows _ _ Ht) (t_pointers _ _ Ht))), first_row_find. fold (row_of prog).
  change (fun e => eqs (program e) prog && packaged e && eqs (digest e) d) with (fun e => row_of prog e && eqs (digest e) d). destruct (List.find _ rows) as [x|] eqn:Hf; [done|]. exfalso. apply (pointed_spec rows) in Hd; [|done]. destruct (t_target _ _ Ht _ Hd) as (x & Hx & Px & Hk). injection Hk as H1 H2.
  apply find_none with (x := x) in Hf; [|done]. unfold row_of in Hf. rewrite H1, H2, Px, !eqs_refl in Hf. done.
Qed.

(** A program no pointer names is not installed. *)
Lemma bare_none rows ptrs prog x : table_ok rows ptrs -> bare rows ptrs prog = None -> In x rows -> row_of prog x = false.
Proof.
  intros Ht Hb Hx. apply not_true_iff_false. intros [Hp Hk]%row_of_spec. destruct (t_covered _ _ Ht x Hx Hk) as ([prog' d] & Hin & He). cbn in He. subst prog' prog. destruct (t_target _ _ Ht _ Hin) as (y & Hy & Py & [= H1 H2]).
  assert (Hr : runs rows ptrs (program x) y) by (split; [done|]; split; [by apply row_of_spec|by subst]). apply (bare_spec _ _ _ _ Ht) in Hr. congruence.
Qed.

(** *** Installing *)

Lemma here_spec e x : here e x = true -> packaged x = packaged e /\ program x = program e /\ (packaged e = true -> digest x = digest e).
Proof.
  unfold here. rewrite !andb_true_iff. intros [[H1 H2] H3]. apply eqb_prop in H1. apply eqs_spec in H2. unfold packaged. fold (vouches e). rewrite H1. split; [done|]. split; [done|]. intros Hv. destruct (vouches e); [done|]. by apply eqs_spec.
Qed.

Lemma here_key e x : packaged e = true -> packaged x = true -> key x = key e -> here e x = true.
Proof.
  intros He Hx [= H1 H2]. unfold here. unfold packaged in He, Hx. fold (vouches e) in He. destruct (vouches e); [done|]. destruct (eqs (package x) OWNER); [done|]. by rewrite H1, H2, !eqs_refl.
Qed.

Lemma in_install_rows e rows x : In x (install_rows e rows) <-> x = e \/ (In x rows /\ here e x = false).
Proof.
  unfold install_rows. rewrite in_app_iff, in_map_iff. split.
  - intros [(y & <- & Hy)|Hx]; [destruct (here e y) eqn:Hh; [by left|by right]|]. destruct (existsb _ _); [done|]. destruct Hx as [->|[]]. by left.
  - intros [->|[Hx Hh]]; [|left; exists x; by rewrite Hh]. destruct (existsb (here e) rows) eqn:Hex; [|right; by left]. apply existsb_exists in Hex as (y & Hy & Hh). left. exists y. by rewrite Hh.
Qed.

Lemma in_install_pointers e ptrs p : vouches e = false -> In p (install_pointers e ptrs) <-> p = pointer_to e \/ (In p ptrs /\ p_program p <> program e).
Proof.
  intros Hv. unfold install_pointers. rewrite Hv, in_app_iff, in_map_iff. split.
  - intros [(q & <- & Hq)|Hx]; [destruct (names (program e) q) eqn:Hh; [by left|right; split; [done|by apply eqs_ne in Hh]]|]. destruct (existsb _ _); [done|]. destruct Hx as [->|[]]. by left.
  - intros [->|[Hx Hh]]; [|left; exists p; unfold names; by rewrite (proj2 (eqs_ne _ _) Hh)]. destruct (existsb (names (program e)) ptrs) eqn:Hex; [|right; by left]. apply existsb_exists in Hex as (q & Hq & Hh). left. exists q. by rewrite Hh.
Qed.

Lemma keys_map e rows : map key (List.filter packaged (map (fun x => if here e x then e else x) rows)) = map key (List.filter packaged rows).
Proof.
  induction rows as [|x rows IH]; [done|]. cbn [map List.filter]. destruct (here e x) eqn:Hh; [|destruct (packaged x); cbn [map]; by rewrite IH]. destruct (here_spec _ _ Hh) as (H1 & H2 & H3). rewrite H1. destruct (packaged e); [|done]. cbn [map]. rewrite IH. f_equal. unfold key. by rewrite H2, H3.
Qed.

Lemma install_keys e rows : List.NoDup (map key (List.filter packaged rows)) -> List.NoDup (map key (List.filter packaged (install_rows e rows))).
Proof.
  intros Hn. unfold install_rows. rewrite List.filter_app, map_app, keys_map. destruct (existsb (here e) rows) eqn:Hex; [by rewrite app_nil_r|]. cbn [List.filter]. destruct (packaged e) eqn:He; [|by rewrite app_nil_r]. cbn [map]. apply List.NoDup_app; [done|repeat constructor; by intros []|].
  intros k Hk [<-|[]]. apply in_map_iff in Hk as (x & Hx & [Hin Hp]%filter_In). apply not_true_iff_false in Hex. apply Hex, existsb_exists. exists x. split; [done|by apply here_key].
Qed.

Lemma install_names e ptrs : List.NoDup (map p_program ptrs) -> List.NoDup (map p_program (install_pointers e ptrs)).
Proof.
  intros Hn. unfold install_pointers. destruct (vouches e); [done|]. rewrite map_app. assert (map p_program (map (fun p => if names (program e) p then pointer_to e else p) ptrs) = map p_program ptrs) as ->.
  { rewrite map_map. apply map_ext. intros p. destruct (names (program e) p) eqn:Hm; [|done]. apply eqs_spec in Hm. by rewrite Hm. }
  destruct (existsb (names (program e)) ptrs) eqn:Hex; [by rewrite app_nil_r|]. apply List.NoDup_app; [done|repeat constructor; by intros []|]. intros k Hk [<-|[]]. apply in_map_iff in Hk as (p & Hp & Hin). apply not_true_iff_false in Hex. apply Hex, existsb_exists. exists p. split; [done|by apply eqs_spec].
Qed.

Lemma taken_spec e rows x : taken e rows = false -> packaged e = true -> In x rows -> row_of (program e) x = true -> package x = package e.
Proof.
  intros Ht He Hx [H1 H2]%row_of_spec. apply not_true_iff_false in Ht. destruct (eqs (package x) (package e)) eqn:Hq; [by apply eqs_spec|]. exfalso. apply Ht, existsb_exists. exists x. split; [done|]. rewrite packaged_vouches in He. by rewrite He, H1, H2, Hq, eqs_refl.
Qed.

(** A vouch has no version, and nothing else has none. *)
Definition version_fits (e : Entry) : Prop := packaged e = false <-> version e = NO_VERSION.

Lemma install_ok e rows ptrs : table_ok rows ptrs -> entry_ok e -> version_fits e -> taken e rows = false -> table_ok (install_rows e rows) (install_pointers e ptrs).
Proof.
  intros Ht He Hv Hk. pose proof Ht as [R1 R2 R3 R4 R5 R6 R7 R8]. assert (Hin : forall x, In x (install_rows e rows) -> x = e \/ In x rows) by (intros x [->|[Hx _]]%in_install_rows; auto). constructor.
  - apply List.Forall_forall. intros x [->|Hx]%Hin; [done|]. by eapply List.Forall_forall.
  - unfold install_pointers. destruct (vouches e) eqn:Hve; [done|]. apply List.Forall_forall. intros p Hp. assert (Hp' : In p (install_pointers e ptrs)) by (unfold install_pointers; by rewrite Hve). apply in_install_pointers in Hp' as [->|[Hp' _]]; [|by eapply List.Forall_forall|done]. destruct He as (E1 & E2 & E3 & E4 & E5). by split.
  - by apply install_keys.
  - by apply install_names.
  - intros p Hp. destruct (vouches e) eqn:Hve.
    + unfold install_pointers in Hp. rewrite Hve in Hp. destruct (R5 p Hp) as (x & Hx & Px & Hkx). exists x. split; [|done]. apply in_install_rows. right. split; [done|]. apply not_true_iff_false. intros (H1 & _)%here_spec. rewrite Px in H1. unfold packaged in H1. fold (vouches e) in H1. by rewrite Hve in H1.
    + apply in_install_pointers in Hp as [->|[Hp Hne]]; [exists e; split; [apply in_install_rows; by left|]; split; [by rewrite packaged_vouches, Hve|done]| |done]. destruct (R5 p Hp) as (x & Hx & Px & Hkx). exists x. split; [|done]. apply in_install_rows. right. split; [done|].
      apply not_true_iff_false. intros (_ & H1 & _)%here_spec. injection Hkx as H2 _. congruence.
  - intros x Hx Px. destruct (vouches e) eqn:Hve.
    + unfold install_pointers. rewrite Hve. apply in_install_rows in Hx as [->|[Hx _]]; [by rewrite packaged_vouches, Hve in Px|]. by apply R6.
    + destruct (decide (program x = program e)) as [Hq|Hq]; [exists (pointer_to e); split; [apply in_install_pointers; [done|by left]|done]|]. apply Hin in Hx as [->|Hx]; [done|]. destruct (R6 x Hx Px) as (p & Hp & Hpp). exists p. split; [|done]. apply in_install_pointers; [done|]. right. split; [done|congruence].
  - intros x y Hx Hy Px Py Hq. apply Hin in Hx as [->|Hx], Hy as [->|Hy]; [done| | |by apply R7].
    + symmetry. apply (taken_spec e rows); try done. by apply row_of_spec.
    + apply (taken_spec e rows); try done. by apply row_of_spec.
  - intros x [->|Hx]%Hin; [done|by apply R8].
Qed.

Lemma option_eq_iff {A} (a b : option A) : (forall x, a = Some x <-> b = Some x) -> a = b.
Proof. intros H. destruct a as [x|]; [symmetry; by apply H|]. destruct b as [y|]; [|done]. by apply H. Qed.

Lemma install_bare e rows ptrs q : table_ok rows ptrs -> entry_ok e -> version_fits e -> taken e rows = false ->
  bare (install_rows e rows) (install_pointers e ptrs) q = if packaged e && eqs q (program e) then Some e else bare rows ptrs q.
Proof.
  intros Ht He Hv Hk. pose proof (install_ok e rows ptrs Ht He Hv Hk) as Ht'. destruct (packaged e) eqn:Hp; cbn [andb].
  - assert (Hve : vouches e = false) by (rewrite packaged_vouches in Hp; by destruct (vouches e)). destruct (eqs q (program e)) eqn:Hq.
    + apply eqs_spec in Hq as ->. apply (bare_spec _ _ _ _ Ht'). split; [apply in_install_rows; by left|]. split; [by apply row_of_spec|]. apply in_install_pointers; [done|by left].
    + apply eqs_ne in Hq. apply option_eq_iff. intros x. rewrite (bare_spec _ _ _ _ Ht'), (bare_spec _ _ _ _ Ht). unfold runs. rewrite in_install_rows, (in_install_pointers e ptrs _ Hve), row_of_spec. split.
      * intros ([->|[Hx _]] & [Hr1 Hr2] & [H1|[Hi _]]); try (apply (f_equal p_program) in H1; cbn in H1); try congruence; done.
      * intros (Hx & [Hr1 Hr2] & Hi). split; [right; split; [done|]; apply not_true_iff_false; intros (_ & H1 & _)%here_spec; congruence|]. split; [done|]. right. split; [done|]. cbn. congruence.
  - apply option_eq_iff. intros x. rewrite (bare_spec _ _ _ _ Ht'), (bare_spec _ _ _ _ Ht). unfold runs, install_pointers. rewrite packaged_vouches in Hp. apply negb_false_iff in Hp. rewrite Hp, in_install_rows, row_of_spec. split.
    + intros ([->|[Hx _]] & [Hr1 Hr2] & Hi); [rewrite packaged_vouches, Hp in Hr2; done|done].
    + intros (Hx & [Hr1 Hr2] & Hi). split; [|done]. right. split; [done|]. apply not_true_iff_false. intros (H1 & _)%here_spec. rewrite Hr2, packaged_vouches, Hp in H1. done.
Qed.

(** *** Removing *)

Lemma in_keep {A} (h : A -> bool) l x : In x (keep h l) <-> In x l /\ h x = false.
Proof. unfold keep. rewrite filter_In, negb_true_iff. done. Qed.

Lemma NoDup_map_keep {A B} (f : A -> B) (h g : A -> bool) l : List.NoDup (map f (List.filter g l)) -> List.NoDup (map f (List.filter g (keep h l))).
Proof.
  induction l as [|x l IH]; [done|]. cbn [keep List.filter]. fold (keep h l). intros Hn. assert (Hl : List.NoDup (map f (List.filter g l))) by (destruct (g x); [by apply NoDup_cons_iff in Hn as [_ Hn]|done]). destruct (negb (h x)); [|by apply IH]. cbn [List.filter]. destruct (g x); [|by apply IH].
  cbn [map] in *. apply NoDup_cons_iff in Hn as [Hx _]. apply NoDup_cons_iff. split; [|by apply IH]. intros (y & Hy & [Hin Hg]%filter_In)%in_map_iff. apply in_keep in Hin as [Hin _]. apply Hx, in_map_iff. exists y. split; [done|by apply filter_In].
Qed.

Lemma filter_all {A} (l : list A) : List.filter (fun _ => true) l = l.
Proof. induction l as [|x l IH]; [done|]. cbn. by rewrite IH. Qed.

Lemma remove_ok prog rows ptrs : table_ok rows ptrs -> table_ok (keep (row_of prog) rows) (keep (names prog) ptrs).
Proof.
  intros [R1 R2 R3 R4 R5 R6 R7 R8]. constructor.
  - apply List.Forall_forall. intros x [Hx _]%in_keep. by eapply List.Forall_forall.
  - apply List.Forall_forall. intros x [Hx _]%in_keep. by eapply List.Forall_forall.
  - by apply NoDup_map_keep.
  - pose proof (NoDup_map_keep p_program (names prog) (fun _ => true) ptrs) as Hk. rewrite !filter_all in Hk. by apply Hk.
  - intros p [Hp Hn]%in_keep. destruct (R5 p Hp) as (x & Hx & Px & Hk). exists x. split; [|done]. apply in_keep. split; [done|]. apply not_true_iff_false. intros [Hr _]%row_of_spec. apply eqs_ne in Hn. injection Hk as H1 _. congruence.
  - intros x [Hx Hr]%in_keep Px. destruct (R6 x Hx Px) as (p & Hp & Hpp). exists p. split; [|done]. apply in_keep. split; [done|]. apply not_true_iff_false. intros Hn%eqs_spec. apply not_true_iff_false in Hr. apply Hr, row_of_spec. split; [congruence|done].
  - intros x y [Hx _]%in_keep [Hy _]%in_keep. by apply R7.
  - intros x [Hx _]%in_keep. by apply R8.
Qed.

Lemma remove_bare prog rows ptrs q : table_ok rows ptrs -> bare (keep (row_of prog) rows) (keep (names prog) ptrs) q = if eqs q prog then None else bare rows ptrs q.
Proof.
  intros Ht. pose proof (remove_ok prog rows ptrs Ht) as Ht'. apply option_eq_iff. intros x. rewrite (bare_spec _ _ _ _ Ht'). unfold runs. rewrite !in_keep, row_of_spec. unfold names. cbn [p_program]. destruct (eqs q prog) eqn:Hq.
  - split; [intros (_ & _ & _ & ?); done|done].
  - rewrite (bare_spec _ _ _ _ Ht). unfold runs. rewrite row_of_spec. split; [intros ((Hx & _) & Hr & Hi & _); done|]. intros (Hx & [Hr1 Hr2] & Hi). split; [|done]. split; [done|]. apply not_true_iff_false. intros [H1 _]%row_of_spec. apply eqs_ne in Hq. congruence.
Qed.

(** What the survey of a program's rows finds. *)
Lemma surveyed_spec prog ver rows : List.NoDup (map key (List.filter packaged rows)) -> let '(target, survivor, uniform) := surveyed prog ver rows in
  target = List.find (fun x => eqs (program x) prog && eqs (version x) ver && packaged x) rows /\
  (forall x, In x rows -> row_of prog x = true -> target = Some x \/ is_Some survivor) /\
  (forall s, survivor = Some s -> In s rows /\ row_of prog s = true /\ forall x, target = Some x -> key x <> key s).
Proof.
  induction rows as [|x rows IH] using rev_ind; intros Hn; [cbn; split; [done|]; split; [done|done]|]. rewrite List.filter_app, map_app in Hn. assert (Hl : List.NoDup (map key (List.filter packaged rows))) by (by eapply NoDup_app_remove_r).
  assert (Hx : packaged x = true -> forall y, In y rows -> packaged y = true -> key y <> key x). { intros Px y Hy Py He. cbn in Hn. rewrite Px in Hn. cbn [map] in Hn. apply NoDup_remove_2 in Hn. rewrite app_nil_r in Hn. apply Hn, in_map_iff. exists y. split; [done|by apply filter_In]. }
  specialize (IH Hl). unfold surveyed in *. rewrite foldl_app. cbn [foldl]. set (f := fun x => eqs (program x) prog && eqs (version x) ver && packaged x) in *. assert (Hf : List.find f (rows ++ [x]) = match List.find f rows with Some y => Some y | None => if f x then Some x else None end).
  { clear. induction rows as [|y rows IH]; [done|]. cbn. destruct (f y); [done|exact IH]. }
  rewrite Hf. clear Hf. destruct (foldl (survey_step prog ver) (None, None, true) rows) as [[target survivor] uniform]. destruct IH as (Ht & Hc & Hs). cbn [survey_step]. assert (Ht' : forall y, target = Some y -> In y rows /\ packaged y = true). { intros y ->. symmetry in Ht. apply find_some in Ht as [Hy Hy2]. split; [done|]. unfold f in Hy2. by apply andb_true_iff in Hy2 as [_ Hy2]. }
  destruct (negb (eqs (program x) prog) || negb (packaged x)) eqn:Hno.
  { assert (Hr : row_of prog x = false) by (unfold row_of; by destruct (eqs (program x) prog), (packaged x)). assert (Hfx : f x = false) by (unfold f; unfold row_of in Hr; destruct (eqs (program x) prog), (packaged x); try done; by rewrite andb_false_r).
    split; [rewrite Hfx, <- Ht; by destruct target|]. split.
    - intros y [Hy|[->|[]]]%in_app_iff Hr'; [by apply Hc|congruence].
    - intros s Hss. destruct (Hs s Hss) as (A1 & A2 & A3). split; [apply in_app_iff; by left|done]. }
  apply orb_false_iff in Hno as [Hp1 Hp2]. apply negb_false_iff in Hp1, Hp2. assert (Hrx : row_of prog x = true) by (unfold row_of; by rewrite Hp1, Hp2). destruct (eqs (version x) ver && match target with Some _ => false | None => true end) eqn:Hv.
  { apply andb_true_iff in Hv as [Hv Hnt]. destruct target as [?|]; [done|]. rewrite <- Ht. unfold f. rewrite Hp1, Hp2, Hv. split; [done|]. split.
    - intros y [Hy|[->|[]]]%in_app_iff Hr'; [|by left]. destruct (Hc y Hy Hr') as [?|?]; [done|by right].
    - intros s Hss. destruct (Hs s Hss) as (A1 & A2 & A3). split; [apply in_app_iff; by left|]. split; [done|]. intros y [= <-]. apply not_eq_sym, Hx; [done|done|]. by apply row_of_spec in A2 as [_ A2]. }
  assert (Hfx : target = match List.find f rows with Some y => Some y | None => if f x then Some x else None end). { rewrite <- Ht. destruct target; [done|]. unfold f. rewrite Hp1, Hp2. rewrite andb_true_r in Hv. by rewrite Hv. }
  destruct survivor as [s|].
  - split; [done|]. split; [intros y _ _; right; eauto|]. intros s' [= <-]. destruct (Hs s eq_refl) as (A1 & A2 & A3). split; [apply in_app_iff; by left|done].
  - split; [done|]. split; [intros y _ _; right; eauto|]. intros s' [= <-]. split; [apply in_app_iff; right; by left|]. split; [done|]. intros y Hy. destruct (Ht' y Hy) as [B1 B2]. by apply Hx.
Qed.

Lemma remove_first_keep (h : Entry -> bool) t rows : (forall x, In x rows -> h x = true <-> x = t) -> packaged t = true -> List.NoDup (map key (List.filter packaged rows)) -> remove_first h rows = keep h rows.
Proof.
  intros Hh Pt. induction rows as [|x rows IH]; intros Hn; [done|]. cbn [remove_first keep List.filter]. fold (keep h rows). destruct (h x) eqn:Hx; cbn [negb].
  - apply Hh in Hx as ->; [|by left]. cbn [List.filter] in Hn. rewrite Pt in Hn. apply NoDup_cons_iff in Hn as [Ht _]. unfold keep. symmetry. apply forallb_filter_id. apply forallb_forall. intros x Hx. apply negb_true_iff, not_true_iff_false. intros ->%Hh; [|by right]. apply Ht, in_map, filter_In. done.
  - rewrite IH; [done|intros y Hy; apply Hh; by right|]. cbn [List.filter] in Hn. destruct (packaged x); [by apply NoDup_cons_iff in Hn as [_ Hn]|done].
Qed.

Lemma same_row_eq rows ptrs target x : table_ok rows ptrs -> In target rows -> packaged target = true -> In x rows -> same_row target x = true <-> x = target.
Proof.
  intros Ht Hin Pt Hx. unfold same_row. rewrite !andb_true_iff, !eqs_spec. split; [|intros ->; done]. intros [[H1 H2] H3]. apply (keys_inj rows ptrs); try done; [|unfold key; congruence]. destruct (packaged x) eqn:Px; [done|]. apply (t_version _ _ Ht x Hx) in Px. rewrite H2 in Px. apply (t_version _ _ Ht target Hin) in Px. congruence.
Qed.

Lemma in_repoint prog survivor ptrs p : In p (flat_map (repoint prog survivor) ptrs) <-> (In p ptrs /\ p_program p <> prog) \/ (existsb (names prog) ptrs = true /\ exists s, survivor = Some s /\ p = MkPointer prog (digest s)).
Proof.
  rewrite in_flat_map. unfold repoint. split.
  - intros (q & Hq & Hp). destruct (names prog q) eqn:Hn; [|destruct Hp as [->|[]]; left; split; [done|by apply eqs_ne in Hn]]. right. split; [apply existsb_exists; by exists q|]. destruct survivor as [s|]; [|done]. destruct Hp as [<-|[]]. by exists s.
  - intros [[Hp Hn]|[Hex (s & -> & ->)]]; [exists p; split; [done|]; unfold names; rewrite (proj2 (eqs_ne _ _) Hn); by left|]. apply existsb_exists in Hex as (q & Hq & Hn). exists q. rewrite Hn. split; [done|by left].
Qed.

Lemma NoDup_repoint prog survivor ptrs : List.NoDup (map p_program ptrs) -> List.NoDup (map p_program (flat_map (repoint prog survivor) ptrs)).
Proof.
  induction ptrs as [|p ptrs IH]; [done|]. cbn [flat_map map]. intros [Hp Hn]%NoDup_cons_iff. specialize (IH Hn). assert (Hout : ~ In (p_program p) (map p_program (flat_map (repoint prog survivor) ptrs))).
  { intros (q & Hq & Hin)%in_map_iff. apply in_repoint in Hin as [[Hin _]|[Hex (s & -> & ->)]]; [apply Hp, in_map_iff; by exists q|]. apply existsb_exists in Hex as (r & Hr & He). apply eqs_spec in He. apply Hp, in_map_iff. exists r. cbn in Hq. by rewrite He. }
  unfold repoint at 1. destruct (names prog p) eqn:He; [destruct survivor|]; [|done|]; cbn [app map p_program]; apply NoDup_cons_iff; (split; [|done]); [apply eqs_spec in He; by rewrite <- He at 1|done].
Qed.

Lemma remove_version_ok prog ver rows ptrs rows' ptrs' : table_ok rows ptrs -> remove_version prog ver (pointed ptrs prog) rows ptrs = Ok (rows', ptrs') ->
  exists target, List.find (fun x => eqs (program x) prog && eqs (version x) ver && packaged x) rows = Some target /\ table_ok rows' ptrs' /\ (forall x, In x rows' <-> In x rows /\ x <> target) /\
    (forall p, p_program p <> prog -> In p ptrs' <-> In p ptrs) /\ (bare rows ptrs prog <> Some target -> ptrs' = ptrs).
Proof.
  intros Ht. pose proof (surveyed_spec prog ver rows (t_keys _ _ Ht)) as Hs. unfold remove_version. destruct (surveyed prog ver rows) as [[target survivor] uniform]. destruct Hs as (Hf & Hc & Hs). destruct target as [target|]; [|done]. cbv zeta. set (move := is_digest (pointed ptrs prog) (digest target)). destruct (move && negb uniform); [done|]. intros [= <- <-]. exists target.
  symmetry in Hf. split; [done|]. apply find_some in Hf as [Hin Hf]. rewrite !andb_true_iff, !eqs_spec in Hf. destruct Hf as [[Hprog _] Pt]. rewrite (remove_first_keep _ target rows); [|intros x Hx; by apply (same_row_eq rows ptrs)|done|apply Ht].
  assert (Hrows : forall x, In x (keep (same_row target) rows) <-> In x rows /\ x <> target). { intros x. rewrite in_keep. split; intros [Hx Hne]; (split; [done|]); [intros ->; unfold same_row in Hne; by rewrite !eqs_refl in Hne|]. apply not_true_iff_false. by intros ->%(same_row_eq rows ptrs). }
  assert (Hmove : move = true <-> runs rows ptrs prog target). { unfold move, is_digest, runs. rewrite <- (pointed_spec rows ptrs prog) by done. rewrite row_of_spec. destruct (pointed ptrs prog) as [d|]; [rewrite eqs_spec|]; split; try done; [by intros ->|by intros (_ & _ & [= ->])|by intros (_ & _ & ?)]. }
  assert (Hsur : forall s, survivor = Some s -> In s rows /\ row_of prog s = true /\ s <> target) by (intros s Hse; destruct (Hs s Hse) as (A1 & A2 & A3); split; [done|]; split; [done|]; intros ->; by apply (A3 target)).
  split; [|split; [done|]; split; [intros p Hp; destruct move; [|done]; rewrite in_repoint; split; [by intros [[? _]|[_ (s & _ & ->)]]|by left]|]; intros Hb; destruct move; [|done]; exfalso; apply Hb, (bare_spec _ _ _ _ Ht), Hmove; done].
  pose proof Ht as [R1 R2 R3 R4 R5 R6 R7 R8]. constructor.
  - apply List.Forall_forall. intros x [Hx _]%Hrows. by eapply List.Forall_forall.
  - destruct move; [|done]. apply List.Forall_forall. intros p [[Hp _]|[_ (s & Hse & ->)]]%in_repoint; [by eapply List.Forall_forall|]. destruct (Hsur s Hse) as (A1 & A2 & _). apply row_of_spec in A2 as [<- _]. assert (Hok : entry_ok s) by (by eapply List.Forall_forall). destruct Hok as (? & _ & _ & _ & ?). by split.
  - by apply NoDup_map_keep.
  - destruct move; [by apply NoDup_repoint|done].
  - intros p Hp. assert (Hcase : (In p ptrs /\ (p_program p <> prog \/ ~ runs rows ptrs prog target)) \/ exists s, survivor = Some s /\ p = MkPointer prog (digest s)).
    { destruct move; [|left; split; [done|right; by intros ?%Hmove]]. apply in_repoint in Hp as [[Hp Hne]|[_ Hx]]; [left; auto|by right]. }
    destruct Hcase as [[Hp' Hne]|(s & Hse & ->)]; [|destruct (Hsur s Hse) as (A1 & [A2 A2']%row_of_spec & A3); exists s; split; [by apply Hrows|]; split; [done|]; unfold key; by rewrite A2]. destruct (R5 p Hp') as (x & Hx & Px & Hk). exists x. split; [|done]. apply Hrows. split; [done|]. intros ->. injection Hk as H1 H2.
    destruct Hne as [Hne|Hne]; [congruence|]. apply Hne. split; [done|]. split; [by apply row_of_spec|]. destruct p as [pp pd]. cbn in *. congruence.
  - intros x [Hx Hne]%Hrows Px. destruct (R6 x Hx Px) as (p & Hp & Hpp). destruct move; [|by exists p]. destruct (decide (program x = prog)) as [Hq|Hq]; [|exists p; split; [apply in_repoint; left; split; [done|congruence]|done]]. destruct (Hc x Hx) as [[= ->]|[s Hse]]; [by apply row_of_spec|done|]. exists (MkPointer prog (digest s)).
    split; [|done]. apply in_repoint. right. split; [apply existsb_exists; exists p; split; [done|apply eqs_spec; congruence]|by exists s].
  - intros x y [Hx _]%Hrows [Hy _]%Hrows. by apply R7.
  - intros x [Hx _]%Hrows. by apply R8.
Qed.

Lemma remove_version_bare prog rows ptrs rows' ptrs' target q : table_ok rows ptrs -> table_ok rows' ptrs' -> (forall x, In x rows' <-> In x rows /\ x <> target) -> program target = prog ->
  (forall p, p_program p <> prog -> In p ptrs' <-> In p ptrs) -> (bare rows ptrs prog <> Some target -> ptrs' = ptrs) -> q <> prog \/ bare rows ptrs prog <> Some target -> bare rows' ptrs' q = bare rows ptrs q.
Proof.
  intros Ht Ht' Hrows Htp Hps Heq Hq. apply option_eq_iff. intros x. rewrite (bare_spec _ _ _ _ Ht'), (bare_spec _ _ _ _ Ht). unfold runs. rewrite Hrows, row_of_spec. destruct (decide (q = prog)) as [->|Hne].
  - destruct Hq as [?|Hb]; [done|]. rewrite (Heq Hb). split; [by intros ([? _] & ? & ?)|]. intros (Hx & Hr & Hi). split; [|done]. split; [done|]. intros ->. apply Hb, (bare_spec _ _ _ _ Ht). split; [done|]. split; [by apply row_of_spec|done].
  - rewrite Hps by done. split; [by intros ([? _] & ? & ?)|]. intros (Hx & [Hr1 Hr2] & Hi). split; [|done]. split; [done|]. intros ->. congruence.
Qed.

(** ** Tables that come about *)

(** A digest is 32 bytes, a package's name ends in a plain byte, and a vouch and nothing
    else has no version. *)
Definition op_ok (op : Op) : Prop := match op with Install e _ => digest_ok (digest e) /\ ends_plain (package e) /\ version_fits e | _ => True end.

(** The operations that succeeded, the last first, and the table they left. *)
Inductive reached (cap : nat) : list Op -> list Z -> Prop :=
  | reached_empty : reached cap [] []
  | reached_step ops t op t' : reached cap ops t -> op_ok op -> act cap op t = Ok t' -> reached cap (op :: ops) t'.

Definition effect (op : Op) (rows : list Entry) (ptrs : list Pointer) (rows' : list Entry) (ptrs' : list Pointer) : Prop :=
  match op with
  | Install e _ => In e rows' /\ forall q, bare rows' ptrs' q = if packaged e && eqs q (program e) then Some e else bare rows ptrs q
  | Remove prog => forall q, bare rows' ptrs' q = if eqs q prog then None else bare rows ptrs q
  | RemoveVersion prog ver => exists x, List.find (fun x => eqs (program x) prog && eqs (version x) ver && packaged x) rows = Some x /\ ~ In x rows' /\
      forall q, q <> prog \/ bare rows ptrs prog <> Some x -> bare rows' ptrs' q = bare rows ptrs q
  end.

Lemma fitted_ok cap t t' : fitted cap t = Ok t' -> t' = t /\ (length t <= cap)%nat.
Proof. unfold fitted. destruct (Nat.leb_spec (length t) cap); [|done]. by intros [= <-]. Qed.

Lemma act_ok cap op rows ptrs t' : table_ok rows ptrs -> op_ok op -> act cap op (render rows ptrs) = Ok t' ->
  exists rows' ptrs', t' = render rows' ptrs' /\ table_ok rows' ptrs' /\ effect op rows ptrs rows' ptrs' /\ (forall x, In x rows' -> In x rows \/ exists image, op = Install x image) /\ (length t' <= cap)%nat.
Proof.
  intros Ht Ho Ha. pose proof (t_rows _ _ Ht) as Hr. pose proof (t_pointers _ _ Ht) as Hp. destruct op as [e image|prog|prog ver]; cbn [act op_ok effect] in *.
  - destruct Ho as (H1 & H2 & H3). assert (Hg : entry_ok e). { unfold with_entry in Ha. destruct (good_name (program e)) eqn:G1, (good_name (version e)) eqn:G2, (good_name (package e)) eqn:G3; try done. }
    rewrite with_entry_spec in Ha by done. destruct (_ && image); [done|]. destruct (taken e rows) eqn:Hk; [done|]. apply fitted_ok in Ha as [-> Hl]. eexists _, _. split; [done|]. split; [by apply install_ok|]. split; [split; [apply in_install_rows; by left|intros q; by apply install_bare]|].
    split; [|done]. intros x [->|[Hx _]]%in_install_rows; [right; eauto|by left].
  - rewrite without_entry_spec in Ha by done. destruct (fitted _ _) as [t|] eqn:Hf; [|done]. destruct (existsb _ _); [|done]. injection Ha as <-. apply fitted_ok in Hf as [-> Hl]. eexists _, _. split; [done|]. split; [by apply remove_ok|]. split; [intros q; by apply remove_bare|]. split; [|done]. intros x [Hx _]%in_keep. by left.
  - rewrite (without_version_spec rows ptrs prog ver (pointed ptrs prog)) in Ha by (done || by apply default_of_spec). destruct (remove_version _ _ _ _ _) as [[rows' ptrs']|] eqn:Hv; [|done]. apply fitted_ok in Ha as [-> Hl]. destruct (remove_version_ok _ _ _ _ _ _ Ht Hv) as (target & Hf & Ht' & Hrows & Hps & Heq). exists rows', ptrs'. split; [done|]. split; [done|].
    split; [|split; [|done]; intros x [Hx _]%Hrows; by left]. exists target. split; [done|]. split; [by intros [_ ?]%Hrows|]. intros q Hq. apply find_some in Hf as [_ Hf]. rewrite !andb_true_iff, !eqs_spec in Hf. apply (remove_version_bare prog rows ptrs rows' ptrs' target); try done. apply Hf.
Qed.

Lemma empty_ok : table_ok [] [].
Proof. by constructor; try constructor. Qed.

Lemma reached_table cap ops t : reached cap ops t -> exists rows ptrs, t = render rows ptrs /\ table_ok rows ptrs /\ forall x, In x rows -> exists image, In (Install x image) ops.
Proof.
  induction 1 as [|ops t op t' _ (rows & ptrs & -> & Ht & Hin) Ho Ha]; [exists [], []; split; [done|]; split; [apply empty_ok|done]|]. destruct (act_ok _ _ _ _ _ Ht Ho Ha) as (rows' & ptrs' & -> & Ht' & _ & Hin' & _). exists rows', ptrs'. split; [done|]. split; [done|].
  intros x [Hx|[image ->]]%Hin'; [|exists image; by left]. destruct (Hin x Hx) as [image Hi]. exists image. by right.
Qed.

Lemma find_first {A} (h : A -> bool) l x : In x l -> h x = true -> exists y, List.find h l = Some y.
Proof. intros Hx Hh. destruct (List.find h l) eqn:Hf; [eauto|]. apply find_none with (x := x) in Hf; [|done]. congruence. Qed.

(** ** Generations *)

Lemma parse_u32_snoc l b : parse_u32 (l ++ [b]) = n ← parse_u32 l; if n * 10 + (b - 48) <? 2 ^ 32 then Some (n * 10 + (b - 48)) else None.
Proof. unfold parse_u32. by rewrite foldl_app. Qed.

Lemma low_digits_spec room : forall n, 0 <= n < 2 ^ 32 -> n < 10 ^ Z.of_nat room -> (0 < room)%nat ->
  exists ds, low_digits room n = Done ds /\ parse_u32 (rev ds) = Some n /\ Forall (fun b => is_ascii_digit b = true) ds /\ ds <> [] /\ (length ds <= room)%nat.
Proof.
  induction room as [|room IH]; intros n Hn Hp Hr; [lia|]. cbn [low_digits]. assert (Hd : is_ascii_digit (48 + n mod 10) = true). { unfold is_ascii_digit. pose proof (Z.mod_pos_bound n 10 ltac:(lia)). apply andb_true_iff. rewrite !Z.leb_le. lia. } pose proof (Z.div_mod n 10) as Hdm. destruct (Z.eqb_spec (n / 10) 0) as [Hz|Hz].
  - eexists. split; [done|]. split; [|split; [by constructor|split; [done|cbn; lia]]]. cbn. replace (0 * 10 + (48 + n mod 10 - 48)) with n by lia. by rewrite (proj2 (Z.ltb_lt _ _) (proj2 Hn)).
  - assert (Hq : 0 <= n / 10 < n) by (Z.to_euclidean_division_equations; lia). rewrite Nat2Z.inj_succ, Z.pow_succ_r in Hp by lia. destruct (IH (n / 10)) as (ds & -> & H1 & H2 & H3 & H4); [lia|apply Z.div_lt_upper_bound; lia|destruct room; [cbn in Hp; Z.to_euclidean_division_equations; lia|lia]|].
    eexists. split; [done|]. split; [|split; [by constructor|split; [done|cbn; lia]]]. cbn [rev]. rewrite parse_u32_snoc, H1. cbn [mbind option_bind]. replace (n / 10 * 10 + (48 + n mod 10 - 48)) with n by lia. by rewrite (proj2 (Z.ltb_lt _ _) (proj2 Hn)).
Qed.

Lemma digits_shape ds : Forall (fun b => is_ascii_digit b = true) ds -> ds <> [] -> forallb is_ascii_digit (rev ds) = true /\ rev ds <> [] /\ (forall r, rev (rev ds) <> 10 :: r).
Proof.
  intros Hd Hne. rewrite rev_involutive. split; [apply forallb_forall; intros x Hx; apply in_rev in Hx; by eapply List.Forall_forall in Hd|]. split; [intros He; apply (f_equal (@rev Z)) in He; by rewrite rev_involutive in He|]. intros r ->. by inversion Hd.
Qed.

Lemma name_total n : 0 <= n < 2 ^ 32 -> exists nm, generation_name n = Done nm /\ parse_current nm = Some n /\ parse_current (nm ++ [10]) = Some n /\ format_current n 16 = Done (Ok (nm ++ [10])) /\ utf8_valid (nm ++ [10]) = true /\ (length nm <= 10)%nat.
Proof.
  intros Hn. destruct (low_digits_spec 10 n Hn) as (ds & Hd & Hp & Hf & Hne & Hl); [change (10 ^ Z.of_nat 10) with 10000000000; change (2 ^ 32) with 4294967296 in Hn; lia|lia|]. destruct (digits_shape ds Hf Hne) as (S1 & S2 & S3). unfold generation_name, format_current. rewrite Hd. cbn [mbind run_bind]. exists (rev ds). split; [done|].
  assert (Hpc : forall l, l = rev ds -> (if eqs l [] || negb (forallb is_ascii_digit l) then None else parse_u32 l) = Some n) by (intros l ->; rewrite S1, (proj2 (eqs_ne _ _) S2); done).
  split; [|split; [|split; [|split; [|by rewrite length_rev]]]].
  - unfold parse_current. rewrite rev_involutive. destruct ds as [|b ds]; [done|]. destruct (Z.eqb_spec b 10) as [->|_]; [exfalso; by inversion Hf|]. by apply Hpc.
  - unfold parse_current. rewrite rev_unit. cbn [Z.eqb Pos.eqb]. rewrite rev_involutive. by apply Hpc.
  - rewrite puts_wrote by (cbn; lia). cbn [app]. assert (Hc : concat ((fun d => [d]) <$> rev ds) = rev ds) by (generalize (rev ds) as l; intros l; induction l as [|x l IH]; [done|]; cbn; f_equal; exact IH). rewrite Hc, wrote_ok by (rewrite length_rev; lia). cbn [mbind result_bind]. unfold put. cbn [w_text w_cap length]. rewrite length_rev. destruct (Nat.leb_spec (length ds + 1) 16); [done|lia].
  - assert (Hu : forall l, forallb is_ascii_digit l = true -> utf8_valid (l ++ [10]) = true); [|by apply Hu]. induction l as [|b l IH]; [done|]. cbn [forallb app utf8_valid]. intros [Hb Hrest]%andb_true_iff. unfold is_ascii_digit in Hb. apply andb_true_iff in Hb as [H1 H2]. unfold between at 1.
    destruct (Z.leb_spec 0 b), (Z.leb_spec b 127); try lia. cbn [andb]. by apply IH.
Qed.

Lemma name_inj a b nm : 0 <= a < 2 ^ 32 -> 0 <= b < 2 ^ 32 -> generation_name a = Done nm -> generation_name b = Done nm -> a = b.
Proof. intros Ha Hb H1 H2. destruct (name_total a Ha) as (x & Hx & Px & _), (name_total b Hb) as (y & Hy & Py & _). congruence. Qed.

Lemma name_other n nm : 0 <= n < 2 ^ 32 -> generation_name n = Done nm -> nm <> CURRENT /\ nm <> CURRENT_STAGED.
Proof. intros Hn Hm. destruct (name_total n Hn) as (x & Hx & Px & _). assert (x = nm) as -> by congruence. split; intros ->; done. Qed.

(** The search for a number ends at one that is free, or at the last. *)
Lemma next_free (access : list Z -> Access) (d : Dir) fuel : forall m (d' : Dir), 0 <= m <= u32_max -> (size d' < fuel)%nat -> (forall k nm, m <= k <= u32_max -> generation_name k = Done nm -> d' !! nm = d !! nm) ->
  exists r, next access fuel d m = Done r /\ m <= r <= u32_max /\ (generation_exists access d r = Done false \/ r = u32_max).
Proof.
  unfold u32_max. induction fuel as [|fuel IH]; intros m d' Hm Hs Ha; [lia|]. cbn [next]. destruct (name_total m ltac:(lia)) as (nm & Hn & _). destruct (generation_exists access d m) as [b|] eqn:Hb; unfold generation_exists in Hb; rewrite Hn in Hb; cbn [mbind run_bind] in Hb; [|done]. injection Hb as Hb. cbn [mbind run_bind]. destruct b; cbn [andb].
  - destruct (Z.ltb_spec m u32_max) as [Hlt|Hge]; unfold u32_max in *; [|exists m; split; [done|]; split; [lia|right; lia]]. assert (exists x, d !! nm = Some x) as [x Hx] by (unfold fetch in Hb; destruct (d !! nm) as [x|]; [by exists x|done]). assert (Hx' : d' !! nm = Some x) by (rewrite (Ha m nm ltac:(lia) Hn); done).
    destruct (IH (m + 1) (delete nm d')) as (r & Hr & Hrm & Hre); [lia| | |exists r; split; [done|]; split; [lia|done]].
    + rewrite map_size_delete_Some by (by exists x). assert (size d' <> 0%nat) by (intros Hz; apply map_size_empty_iff in Hz; subst; done). lia.
    + intros k nm' Hk Hn'. rewrite lookup_delete_ne; [apply (Ha k); [lia|done]|]. intros <-. assert (m = k) by (apply (name_inj m k nm); try done; lia). lia.
  - exists m. split; [done|]. split; [lia|]. left. unfold generation_exists. rewrite Hn. cbn [mbind run_bind]. by rewrite Hb.
Qed.

(** A commit makes the generation live, or leaves everything live as it was. *)
Lemma flip_spec stop torn n d nm : 0 <= n < 2 ^ 32 -> generation_name n = Done nm -> exists ok d', flip stop torn n d = Done (ok, d') /\ (forall k, k <> CURRENT -> k <> CURRENT_STAGED -> d' !! k = d !! k) /\ d' !! CURRENT = if (ok : bool) then Some (nm ++ [10]) else d !! CURRENT.
Proof.
  intros Hn Hm. destruct (name_total n Hn) as (x & Hx & _ & _ & Hf & _). assert (x = nm) as -> by congruence. unfold flip. rewrite Hf. cbn [mbind run_bind]. assert (Hcs : CURRENT <> CURRENT_STAGED) by done.
  destruct (stop =? 2)%nat; [by eexists _, _|]. destruct (stop =? 3)%nat; [eexists _, _; split; [done|]; split; [intros k _ Hk; by rewrite lookup_insert_ne|by rewrite lookup_insert_ne]|]. destruct (stop =? 4)%nat; [eexists _, _; split; [done|]; split; [intros k _ Hk; by rewrite lookup_insert_ne|by rewrite lookup_insert_ne]|].
  eexists _, _. split; [done|]. split; [|by rewrite lookup_insert_eq]. intros k H1 H2. by rewrite lookup_insert_ne, lookup_delete_ne, lookup_insert_ne.
Qed.

Lemma commit_spec stop torn n d nm table : 0 <= n < 2 ^ 32 -> generation_name n = Done nm -> exists ok d', commit stop torn d n table = Done (ok, d') /\
  (forall k x, k <> CURRENT -> k <> CURRENT_STAGED -> d !! k = Some x -> d' !! k = Some x) /\ d' !! CURRENT = (if (ok : bool) then Some (nm ++ [10]) else d !! CURRENT) /\
  (ok = true -> d' !! nm = match table with Some t => Some t | None => d !! nm end).
Proof.
  intros Hn Hm. destruct (name_other n nm Hn Hm) as [N1 N2]. unfold commit. destruct table as [t|].
  - rewrite Hm. cbn [mbind run_bind]. destruct ((stop =? 0)%nat || _) eqn:H0; [by exists false, d|]. apply orb_false_iff in H0 as [_ H0]. apply bool_decide_eq_false in H0. assert (Hfree : forall (v : list Z) k x, d !! k = Some x -> <[nm := v]> d !! k = Some x) by (intros v k x Hx; rewrite lookup_insert_ne; [done|intros <-; apply H0; by exists x]).
    destruct (stop =? 1)%nat; [eexists false, _; split; [done|]; split; [intros k x _ _; apply Hfree|split; [by rewrite lookup_insert_ne|done]]|]. destruct (flip_spec stop torn n (<[nm := t]> d) nm Hn Hm) as (ok & d' & -> & F1 & F2). exists ok, d'. split; [done|].
    split; [intros k x K1 K2 Hx; rewrite F1 by done; by apply Hfree|]. split; [rewrite F2; destruct ok; [done|by rewrite lookup_insert_ne]|]. intros _. rewrite F1 by done. by rewrite lookup_insert_eq.
  - destruct (flip_spec stop torn n d nm Hn Hm) as (ok & d' & -> & F1 & F2). exists ok, d'. split; [done|]. split; [intros k x K1 K2 Hx; by rewrite F1|]. split; [done|]. intros _. by rewrite F1.
Qed.

(** Which generation is live. *)
Lemma parse_u32_range l : forall a, (forall n, a = Some n -> n < 2 ^ 32) -> forall n, foldl (fun v b => n ← v; if n * 10 + (b - 48) <? 2 ^ 32 then Some (n * 10 + (b - 48)) else None) a l = Some n -> n < 2 ^ 32.
Proof.
  induction l as [|b l IH]; intros a Ha n; [cbn; apply Ha|]. cbn [foldl]. apply IH. intros k. destruct a as [a|]; [|done]. cbn [mbind option_bind]. destruct (Z.ltb_spec (a * 10 + (b - 48)) (2 ^ 32)); [|done]. by intros [= <-].
Qed.

Lemma parse_u32_nonneg l : Forall (fun b => is_ascii_digit b = true) l -> forall a, (forall n, a = Some n -> 0 <= n) -> forall n, foldl (fun v b => n ← v; if n * 10 + (b - 48) <? 2 ^ 32 then Some (n * 10 + (b - 48)) else None) a l = Some n -> 0 <= n.
Proof.
  induction 1 as [|b l Hb _ IH]; intros a Ha n; [cbn; apply Ha|]. cbn [foldl]. apply IH. intros k. destruct a as [a|]; [|done]. cbn [mbind option_bind]. specialize (Ha a eq_refl). unfold is_ascii_digit in Hb. apply andb_true_iff in Hb as [H1 H2]. destruct (_ <? _); [|done]. intros [= <-]. lia.
Qed.

Lemma parse_current_range text n : parse_current text = Some n -> 0 <= n < 2 ^ 32.
Proof.
  unfold parse_current. set (l := match rev text with b :: r => if b =? 10 then rev r else text | [] => text end). destruct (_ || _) eqn:Ho; [done|]. apply orb_false_iff in Ho as [_ Ho]. apply negb_false_iff in Ho. unfold parse_u32. intros Hp. split; [|eapply parse_u32_range; [|exact Hp]; by intros k [= <-]].
  eapply parse_u32_nonneg; [|..|exact Hp]; [|by intros k [= <-]]. apply List.Forall_forall. by apply forallb_forall.
Qed.

Lemma fetch_served (d : Dir) name : fetch served d name = match d !! name with Some b => Bytes b | None => NoHandle end.
Proof. unfold fetch, served. by destruct (d !! name). Qed.

Lemma live_now d n nm t : 0 <= n < 2 ^ 32 -> generation_name n = Done nm -> d !! CURRENT = Some (nm ++ [10]) -> d !! nm = Some t -> live_generation served d = Done (if (length t <? PAGE_BYTES)%nat then Ok (n, t) else Err tt).
Proof.
  intros Hn Hm Hc Hg. destruct (name_total n Hn) as (x & Hx & _ & Hp & _ & Hu & Hlen). assert (x = nm) as -> by congruence. unfold live_generation. rewrite fetch_served, Hc. cbv zeta. rewrite take_ge by (rewrite length_app; cbn; lia). rewrite Hu, Hp, Hm. cbn [mbind run_bind]. rewrite fetch_served, Hg, length_take.
  by destruct (Nat.ltb_spec (PAGE_BYTES `min` length t) PAGE_BYTES), (Nat.ltb_spec (length t) PAGE_BYTES); try lia.
Qed.

Lemma live_kept (d d' : Dir) n t : live_generation served d = Done (Ok (n, t)) -> d' !! CURRENT = d !! CURRENT -> (forall k x, k <> CURRENT -> k <> CURRENT_STAGED -> d !! k = Some x -> d' !! k = Some x) -> live_generation served d' = Done (Ok (n, t)).
Proof.
  unfold live_generation. rewrite !fetch_served. intros Hl Hc Hk. rewrite Hc. destruct (d !! CURRENT) as [file|]; [|done]. cbv zeta in *. destruct (if utf8_valid (take 16 file) then parse_current (take 16 file) else None) as [k|] eqn:Hp; [|done]. assert (Hr : 0 <= k < 2 ^ 32) by (destruct (utf8_valid _); [by eapply parse_current_range|done]).
  destruct (generation_name k) as [nm|] eqn:Hn; [|done]. cbn [mbind run_bind] in *. rewrite !fetch_served in *. destruct (d !! nm) as [x|] eqn:Hx; [|done]. destruct (name_other k nm Hr Hn) as [N1 N2]. by rewrite (Hk nm x N1 N2 Hx).
Qed.

Lemma live_range (access : list Z -> Access) d n t : live_generation access d = Done (Ok (n, t)) -> 0 <= n < 2 ^ 32.
Proof.
  unfold live_generation. destruct (fetch access d CURRENT) as [| |file]; [by intros [= <- _]|done|]. cbv zeta. destruct (if utf8_valid (take 16 file) then parse_current (take 16 file) else None) as [k|] eqn:Hp; [|done]. assert (Hr : 0 <= k < 2 ^ 32) by (destruct (utf8_valid _); [by eapply parse_current_range|done]).
  destruct (generation_name k) as [nm|]; [|done]. cbn [mbind run_bind]. destruct (fetch access d nm) as [| |x]; [done..|]. destruct (_ <? _)%nat; [|done]. by intros [= <- _].
Qed.

(** What is read is what is live, nothing, or, where [current] could not be opened, a
    store with nothing installed. *)
Lemma live_seen (access : list Z -> Access) d n t : live_generation served d = Done (Ok (n, t)) ->
  live_generation access d = Done (Err tt) \/ live_generation access d = Done (if bool_decide (access CURRENT = OpenRefused) then Ok (0, []) else Ok (n, t)).
Proof.
  unfold live_generation. rewrite fetch_served. destruct (d !! CURRENT) as [file|] eqn:Hc.
  - assert (Hf : fetch access d CURRENT = match access CURRENT with OpenRefused => NoHandle | ReadRefused => NoBytes | Served => Bytes file end) by (unfold fetch; rewrite Hc; by destruct (access CURRENT)). rewrite Hf. destruct (access CURRENT); [rewrite bool_decide_false by done|intros _; right; by rewrite bool_decide_true|intros _; by left].
    cbv zeta. destruct (if utf8_valid (take 16 file) then parse_current (take 16 file) else None) as [k|]; [|done]. destruct (generation_name k) as [nm|]; [|done]. cbn [mbind run_bind]. rewrite fetch_served. unfold fetch. destruct (d !! nm) as [x|]; [|done]. destruct (access nm); [by right|by left|by left].
  - assert (Hf : fetch access d CURRENT = NoHandle) by (unfold fetch; by rewrite Hc). rewrite Hf. intros [= <- <-]. right. by destruct (bool_decide _).
Qed.

(** What a verb that is done has made live. *)
Definition made (verb : Verb) (d : Dir) (n : Z) (t : list Z) (m : Z) (t' : list Z) : Prop :=
  match verb with
  | Rollback => m = n - 1 /\ exists nm, generation_name m = Done nm /\ d !! nm = Some t'
  | Change op => n < m /\ act PAGE_BYTES op t = Ok t'
  end.

(** [(n, t)] is what is live in [d], and [(sn, st)] what the call took to be live. A table
    of a page or more is made live and cannot be read back. *)
Definition atomic (verb : Verb) (d : Dir) (n : Z) (t : list Z) (sn : Z) (st : list Z) (r : run (ActivationStatus * Z * Dir)) : Prop :=
  exists answer m d', r = Done (answer, m, d') /\
    (answer <> SDone -> (m = sn \/ answer = SStoreFailed) /\ live_generation served d' = Done (Ok (n, t))) /\
    (answer = SDone -> exists t', made verb d sn st m t' /\ live_generation served d' = Done (if (length t' <? PAGE_BYTES)%nat then Ok (m, t') else Err tt)) /\
    (forall g nm x, 0 <= g < 2 ^ 32 -> generation_name g = Done nm -> d !! nm = Some x -> d' !! nm = Some x).

Lemma atomic_same verb d n t sn st answer m : live_generation served d = Done (Ok (n, t)) -> answer <> SDone -> m = sn \/ answer = SStoreFailed -> atomic verb d n t sn st (Done (answer, m, d)).
Proof. intros Hl Hst Hm. by exists answer, m, d. Qed.

Lemma status_not_done op e : status_of op e <> SDone.
Proof. destruct op, e; cbn; try done; by destruct (eqs _ _). Qed.

(** A commit of generation [m], whose table will be [t']. *)
Lemma commit_atomic verb stop torn d n t sn st m nm table t' : live_generation served d = Done (Ok (n, t)) -> 0 <= m < 2 ^ 32 -> generation_name m = Done nm -> made verb d sn st m t' -> match table with Some x => Some x | None => d !! nm end = Some t' ->
  atomic verb d n t sn st ('(ok, d1) ← commit stop torn d m table; Done (if (ok : bool) then (SDone, m, d1) else (SStoreFailed, sn, d1))).
Proof.
  intros Hl Hm Hn Hmade Ht. destruct (commit_spec stop torn m d nm table Hm Hn) as (ok & d' & -> & C1 & C2 & C3). cbn [mbind run_bind]. assert (Hkeep : forall g nm' x, 0 <= g < 2 ^ 32 -> generation_name g = Done nm' -> d !! nm' = Some x -> d' !! nm' = Some x) by (intros g nm' x Hg Hg2; destruct (name_other g nm' Hg Hg2); by apply C1).
  destruct ok; [exists SDone, m, d'|exists SStoreFailed, sn, d']; (split; [done|]); (split; [|split; [|done]]); try done.
  - intros _. exists t'. split; [done|]. apply (live_now d' m nm t'); try done. by rewrite C3.
  - intros _. split; [by left|]. by apply (live_kept d d').
Qed.

Lemma edit_atomic (access : list Z -> Access) verb stop torn d n t sn st : live_generation served d = Done (Ok (n, t)) -> 0 <= sn < u32_max -> atomic verb d n t sn st (edit access verb stop torn sn st d).
Proof.
  intros Hl Hsn. unfold edit, u32_max in *. destruct verb as [|op].
  - destruct (Z.leb_spec sn 1); [apply atomic_same; auto|]. destruct (name_total (sn - 1) ltac:(lia)) as (nm & Hm & _). unfold generation_exists. rewrite Hm. cbn [mbind run_bind]. unfold fetch. destruct (d !! nm) as [x|] eqn:Hx; [|apply atomic_same; auto]. assert (Hc : atomic Rollback d n t sn st ('(ok, d1) ← commit stop torn d (sn - 1) None; Done (if (ok : bool) then (SDone, sn - 1, d1) else (SStoreFailed, sn, d1)))).
    { apply (commit_atomic _ _ _ _ _ _ _ _ _ nm None x); try done; [lia|]. split; [done|by exists nm]. }
    destruct (access nm); [done|apply atomic_same; auto|done].
  - destruct (act PAGE_BYTES op st) as [t'|e] eqn:Ha; [|apply atomic_same; [done|apply status_not_done|by left]]. destruct (Z.eqb_spec sn (2 ^ 32 - 1)); [lia|]. destruct (next_free access d (S (size d)) (sn + 1) d) as (m & Hnext & Hm & _); [unfold u32_max; lia|lia|done|]. unfold u32_max in Hm. rewrite Hnext. cbn [mbind run_bind]. destruct (name_total m ltac:(lia)) as (nm & Hnm & _).
    apply (commit_atomic _ _ _ _ _ _ _ _ _ nm (Some t') t'); try done; [lia|]. split; [lia|done].
Qed.

(** ** Theorems *)

(** C31: a bare word runs what was last installed under it. Of every table that comes about
    by installing, vouching and removing entries whose digest is 32 bytes, whose package
    name ends in a printable ASCII character, and of which the owner's vouches and no others have
    the version [-]: every word can be looked up; a digest is
    vouched for only if an entry with it was installed. Whatever is done next, if it
    succeeds, installing a package makes its program's word run it, an owner's vouch
    changes what no word runs, removing a program takes its word away, and no other
    word is touched. Removing a version removes the row that was asked for; the word
    changes only if it ran that row, and is gone only when no version is left. *)
Theorem bare_word_runs_the_last_install (cap : nat) (ops : list Op) (t : list Z) :
  reached cap ops t ->
  (forall prog, exists r, lookup t prog = Ok r) /\
  (forall d x, lookup_digest t d = Ok (Some x) -> digest x = d /\ exists image, In (Install x image) ops) /\
  (forall op t', op_ok op -> act cap op t = Ok t' ->
    match op with
    | Install e _ => (forall q, lookup t' q = if packaged e && eqs q (program e) then Ok (Some e) else lookup t q) /\ exists x, lookup_digest t' (digest e) = Ok (Some x)
    | Remove prog => forall q, lookup t' q = if eqs q prog then Ok None else lookup t q
    | RemoveVersion prog ver => exists x, lookup_version t prog ver = Ok (Some x) /\ (forall q, q <> prog \/ lookup t prog <> Ok (Some x) -> lookup t' q = lookup t q) /\
        lookup t' prog <> Ok (Some x) /\ (lookup t' prog = Ok None -> forall v, lookup_version t' prog v = Ok None)
    end).
Proof.
  intros (rows & ptrs & -> & Ht & Hin)%reached_table. split; [intros prog; eexists; by apply table_lookup|]. split.
  - intros d x. unfold lookup_digest. rewrite (first_of_spec _ _ _ Ht). intros [= Hf]. apply find_some in Hf as [Hx He]. apply eqs_spec in He. split; [done|by apply Hin].
  - intros op t' Ho Ha. destruct (act_ok _ _ _ _ _ Ht Ho Ha) as (rows' & ptrs' & -> & Ht' & He & _ & _). destruct op as [e image|prog|prog ver]; cbn [effect] in He.
    + destruct He as [Hi He]. split; [intros q; rewrite (table_lookup _ _ _ Ht), (table_lookup _ _ _ Ht'), He; by destruct (_ && _)|]. unfold lookup_digest. rewrite (first_of_spec _ _ _ Ht'). destruct (find_first (fun x => eqs (digest x) (digest e)) rows' e Hi (eqs_refl _)) as [y ->]. by exists y.
    + intros q. rewrite (table_lookup _ _ _ Ht), (table_lookup _ _ _ Ht'), He. by destruct (eqs q prog).
    + destruct He as (x & Hf & Hout & He). exists x. unfold lookup_version. rewrite (first_of_spec _ _ _ Ht), Hf, !(table_lookup _ _ _ Ht), !(table_lookup _ _ _ Ht'). split; [done|]. split; [intros q Hq; rewrite (table_lookup _ _ _ Ht), (table_lookup _ _ _ Ht'); f_equal; apply He; destruct Hq as [Hq|Hq]; [by left|right; congruence]|].
      split; [intros [= Hb]; apply (bare_spec _ _ _ _ Ht') in Hb as [Hb _]; done|]. intros [= Hb] v. rewrite (first_of_spec _ _ _ Ht'). f_equal. destruct (List.find _ rows') as [y|] eqn:Hy; [|done]. apply find_some in Hy as [Hy Hy2]. rewrite !andb_true_iff, eqs_spec in Hy2. pose proof (bare_none _ _ _ y Ht' Hb Hy) as Hr. unfold row_of in Hr. destruct Hy2 as [[Hyp _] Hp].
      by rewrite Hyp, eqs_refl, Hp in Hr.
Qed.

Definition sample_digest (b : Z) : Digest := replicate DIGEST_LEN b.
Definition uptime1 : Entry := MkEntry (lit "uptime") (lit "0.1.0") (lit "uptime") (sample_digest 7).
Definition uptime2 : Entry := MkEntry (lit "uptime") (lit "0.2.0") (lit "uptime") (sample_digest 8).

Definition after (ops : list Op) : list Z := foldr (fun op t => match act 512 op t with Ok t' => t' | Err _ => t end) [] ops.

Lemma uptime_ends : ends_plain (lit "uptime").
Proof. exists (lit "uptim"), 101. done. Qed.

Lemma bare_word_runs_the_last_install_witness : exists x, lookup (after [Install uptime2 false; Install uptime1 false]) (lit "uptime") = Ok (Some x) /\ x = uptime2 /\ exists r, lookup (after [Install uptime2 false; Install uptime1 false]) (lit "free") = Ok r.
Proof.
  assert (H1 : op_ok (Install uptime1 false)) by (split; [split; [done|by vm_decide]|]; split; [exact uptime_ends|done]). assert (H2 : op_ok (Install uptime2 false)) by (split; [split; [done|by vm_decide]|]; split; [exact uptime_ends|done]).
  assert (R1 : reached 512 [Install uptime1 false] (after [Install uptime1 false])) by (eapply reached_step; [constructor|exact H1|vm_compute; reflexivity]). assert (A2 : act 512 (Install uptime2 false) (after [Install uptime1 false]) = Ok (after [Install uptime2 false; Install uptime1 false])) by (vm_compute; reflexivity).
  exists uptime2. split; [|split; [done|]].
  - destruct (proj2 (proj2 (bare_word_runs_the_last_install _ _ _ R1)) _ _ H2 A2) as [Hq _]. exact (Hq (lit "uptime")).
  - apply (bare_word_runs_the_last_install 512 [Install uptime2 false; Install uptime1 false]). eapply reached_step; [exact R1|exact H2|exact A2].
Defined.


Definition one_generation : Dir := <[CURRENT := lit "1" ++ [10]]> (<[lit "1" := after [Install uptime1 false]]> ∅).


(** ** What goes wrong *)

(** A table of exactly a page is written and made live, and is then refused: nothing can
    be read, changed or rolled back any more. *)
Definition filler (i : Z) : Entry := MkEntry [65 + i; 97] (if i =? 26 then replicate 22 49 else [49; 46; 48]) [65 + i; 97] (sample_digest i).
Definition fillers : list Entry := (fun i => filler (Z.of_nat i)) <$> seq 0 26.
Definition nearly_full : Dir := <[CURRENT := lit "1" ++ [10]]> (<[lit "1" := render fillers (pointer_to <$> fillers)]> ∅).

Definition locked (d : Dir) : bool :=
  match live_generation served d, activate served Rollback 9 [] d with Done (Err _), Done (SStoreFailed, _, _) => true | _, _ => false end.

Lemma full_page_locks_the_store : locked nearly_full = false /\ match activate served (Change (Install (filler 26) false)) 9 [] nearly_full with Done (SDone, m, d) => m = 2 /\ locked d = true | _ => False end.
Proof. vm_compute. done. Qed.

(** An installation made while [current] cannot be opened answers done, and what was
    installed before no longer runs. *)
Definition no_current (name : list Z) : Access := if eqs name CURRENT then OpenRefused else Served.

Definition live_word (d : Dir) (word : list Z) : option (Z * option Entry) :=
  match live_generation served d with
  | Done (Ok (n, t)) => match lookup t word with Ok r => Some (n, r) | Err _ => None end
  | _ => None
  end.

Lemma unopened_current_forgets_the_rest : live_word one_generation (lit "uptime") = Some (1, Some uptime1) /\
  match activate no_current (Change (Install (filler 1) false)) 9 [] one_generation with Done (SDone, m, d) => live_word d (lit "uptime") = Some (m, None) | _ => False end.
Proof. split; vm_compute; reflexivity. Qed.

(** A package whose name is a no-break space is installed, and the table cannot be read. *)
Lemma trimmed_name_spoils_the_table : exists t, with_entry [] (MkEntry (lit "a") (lit "1") [0xc2; 0xa0] (sample_digest 1)) false 512 = Ok t /\ lookup t (lit "a") = Err Malformed.
Proof. eexists. split; vm_compute; reflexivity. Qed.

(** A package of version [-] whose bytes the owner vouched for first: removing its version
    removes the vouch and the pointer, and leaves the row. *)
Lemma removal_takes_the_vouch : let t := after [Install (MkEntry (lit "a") NO_VERSION (lit "p") (sample_digest 1)) false; Install (MkEntry (lit "a") NO_VERSION OWNER (sample_digest 1)) false] in
  exists t', without_version t (lit "a") NO_VERSION 512 = Ok t' /\ lookup t' (lit "a") = Ok None /\ versions_of t' (lit "a") = [Ok NO_VERSION].
Proof. eexists. split_and!; vm_compute; reflexivity. Qed.
End ActivationSet.
