(* ===== verification/Calendar.v ===== *)
(** * Civil dates and timestamps (crates/calendar)

    Unix seconds to a proleptic Gregorian date and back, fixed offsets from UTC,
    the textual forms the system prints and the one it reads. *)

From S2P Require Import Prelude.
Local Open Scope Z_scope.

Module Calendar.

(** [as i8], [as i16], [as i32]. *)
Definition sint (w x : Z) : Z := (x + 2 ^ (w - 1)) mod 2 ^ w - 2 ^ (w - 1).
Definition in_signed (w x : Z) : bool := (- 2 ^ (w - 1) <=? x) && (x <? 2 ^ (w - 1)).

(** ** Dates *)

Definition MIN_YEAR : Z := 0.
Definition MAX_YEAR : Z := 9999.
Definition SECS_PER_DAY : Z := 86400.

Inductive Error := OutOfRange | BadMonth | BadDay | BadHour | BadMinute | BadSecond | BadOffset | LeapSecond | Syntax.

Definition is_leap_year (year : Z) : bool :=
  (Z.rem year 4 =? 0) && (negb (Z.rem year 100 =? 0) || (Z.rem year 400 =? 0)).

Definition days_in_month (year month : Z) : option Z :=
  if (month =? 1) || (month =? 3) || (month =? 5) || (month =? 7) || (month =? 8) || (month =? 10) || (month =? 12) then Some 31
  else if (month =? 4) || (month =? 6) || (month =? 9) || (month =? 11) then Some 30
  else if month =? 2 then Some (if is_leap_year year then 29 else 28)
  else None.

(** Rust's [/] on signed integers is [Z.quot]. *)
Definition days_from_civil (year month day : Z) : Z :=
  let y := if month <=? 2 then year - 1 else year in
  let era := Z.quot (if 0 <=? y then y else y - 399) 400 in
  let yoe := y - era * 400 in
  let mp := if 2 <? month then month - 3 else month + 9 in
  let doy := Z.quot (153 * mp + 2) 5 + day - 1 in
  let doe := yoe * 365 + Z.quot yoe 4 - Z.quot yoe 100 + doy in
  era * 146097 + doe - 719468.

Definition MIN_TIMESTAMP : Z := days_from_civil MIN_YEAR 1 1 * SECS_PER_DAY.
Definition MAX_TIMESTAMP : Z := days_from_civil MAX_YEAR 12 31 * SECS_PER_DAY + SECS_PER_DAY - 1.

Definition civil_from_days (days : Z) : Z * Z * Z :=
  let z := days + 719468 in
  let era := Z.quot (if 0 <=? z then z else z - 146096) 146097 in
  let doe := z - era * 146097 in
  let yoe := Z.quot (doe - Z.quot doe 1460 + Z.quot doe 36524 - Z.quot doe 146096) 365 in
  let y := yoe + era * 400 in
  let doy := doe - (365 * yoe + Z.quot yoe 4 - Z.quot yoe 100) in
  let mp := Z.quot (5 * doy + 2) 153 in
  let d := doy - Z.quot (153 * mp + 2) 5 + 1 in
  let m := if mp <? 10 then mp + 3 else mp - 9 in
  let y := if m <=? 2 then y + 1 else y in
  (sint 32 y, wrap 8 m, wrap 8 d).

Inductive Weekday := Sunday | Monday | Tuesday | Wednesday | Thursday | Friday | Saturday.

Definition abbrev (w : Weekday) : list Z :=
  lit (match w with Sunday => "Sun" | Monday => "Mon" | Tuesday => "Tue" | Wednesday => "Wed" | Thursday => "Thu" | Friday => "Fri" | Saturday => "Sat" end).

Definition iso_number (w : Weekday) : Z :=
  match w with Monday => 1 | Tuesday => 2 | Wednesday => 3 | Thursday => 4 | Friday => 5 | Saturday => 6 | Sunday => 7 end.

(** [rem_euclid] by a positive number is [Z.modulo]. *)
Definition from_days (days : Z) : Weekday :=
  match (days + 4) mod 7 with
  | 0 => Sunday | 1 => Monday | 2 => Tuesday | 3 => Wednesday | 4 => Thursday | 5 => Friday | _ => Saturday
  end.

Record Civil := MkCivil { year : Z; month : Z; day : Z; hour : Z; minute : Z; second : Z }.

Definition civil_new (y mo d h mi s : Z) : result Error Civil :=
  if (y <? MIN_YEAR) || (MAX_YEAR <? y) then Err OutOfRange
  else match days_in_month y mo with
       | None => Err BadMonth
       | Some len =>
           if (d =? 0) || (len <? d) then Err BadDay
           else if 23 <? h then Err BadHour
           else if 59 <? mi then Err BadMinute
           else if 59 <? s then Err BadSecond
           else Ok (MkCivil y mo d h mi s)
       end.

Definition civil_from_unix (secs : Z) : result Error Civil :=
  if (secs <? MIN_TIMESTAMP) || (MAX_TIMESTAMP <? secs) then Err OutOfRange
  else
    let days := secs / SECS_PER_DAY in
    let sod := secs mod SECS_PER_DAY in
    let '(y, m, d) := civil_from_days days in
    Ok (MkCivil y m d (wrap 8 (Z.quot sod 3600)) (wrap 8 (Z.rem (Z.quot sod 60) 60)) (wrap 8 (Z.rem sod 60))).

Definition days_since_epoch (c : Civil) : Z := days_from_civil (year c) (month c) (day c).

Definition civil_to_unix (c : Civil) : Z := days_since_epoch c * SECS_PER_DAY + hour c * 3600 + minute c * 60 + second c.

Definition weekday (c : Civil) : Weekday := from_days (days_since_epoch c).

Definition day_of_year (c : Civil) : Z := wrap 16 (days_since_epoch c - days_from_civil (year c) 1 1 + 1).

(** ** Offsets and instants *)

Record UtcOffset := MkOffset { minutes : Z }.

Definition UTC : UtcOffset := MkOffset 0.

Definition from_minutes (m : Z) : result Error UtcOffset :=
  if (m <=? -1440) || (1440 <=? m) then Err BadOffset else Ok (MkOffset (sint 16 m)).

(** [hours * 60 + minutes] is computed at 32 bits; [checks] tells a build with
    overflow checks from one that wraps. *)
Definition from_hm (checks : bool) (h m : Z) : run (result Error UtcOffset) :=
  if negb (Bool.eqb (h <? 0) (m <? 0)) && negb (h =? 0) && negb (m =? 0) then Done (Err BadOffset)
  else if (m <=? -60) || (60 <=? m) then Done (Err BadOffset)
  else if checks && negb (in_signed 32 (h * 60) && in_signed 32 (h * 60 + m)) then Panicked
  else Done (from_minutes (sint 32 (h * 60 + m))).

Definition seconds (o : UtcOffset) : Z := minutes o * 60.

Record DateTime := MkDateTime { civil : Civil; offset : UtcOffset }.

Definition from_unix (secs : Z) (o : UtcOffset) : result Error DateTime :=
  let local := secs + seconds o in
  if negb (in_signed 64 local) then Err OutOfRange
  else match civil_from_unix local with Ok c => Ok (MkDateTime c o) | Err e => Err e end.

Definition to_unix (d : DateTime) : Z := civil_to_unix (civil d) - seconds (offset d).

(** ** Printing *)

Inductive Format := Rfc3339 | Date | Time | Human | Unix.

Definition FMT_CAP : nat := 32.

Record Writer := MkWriter { buf : list Z; len : nat }.

Definition writer_new : Writer := MkWriter (replicate FMT_CAP 0) 0.

(** A byte past the capacity is dropped. *)
Definition byte (b : Z) (w : Writer) : Writer :=
  if (len w <? FMT_CAP)%nat then MkWriter (<[len w := b]> (buf w)) (S (len w)) else w.

Definition str (l : list Z) (w : Writer) : Writer := foldl (fun w b => byte b w) w l.

(** The digits of a number, the lowest first, in an array of [cap] of them. *)
Fixpoint digits (cap : nat) (v : Z) : run (list Z) :=
  match cap with
  | O => Panicked
  | S cap' => if v / 10 =? 0 then Done [48 + v mod 10] else rest ← digits cap' (v / 10); Done (48 + v mod 10 :: rest)
  end.

Definition pad (value : Z) (width : nat) (w : Writer) : run Writer :=
  ds ← digits 10 value; Done (str (rev ds) (str (replicate (width - length ds) 48) w)).

Definition signed (value : Z) (w : Writer) : run Writer :=
  ds ← digits 20 (Z.abs value); Done (str (rev ds) (if value <? 0 then byte 45 w else w)).

Definition write_offset (o : UtcOffset) (w : Writer) : run Writer :=
  let m := minutes o in
  let w1 := byte (if m <? 0 then 45 else 43) w in
  let m := Z.abs m in
  w2 ← pad (m / 60) 2 w1; pad (m mod 60) 2 (byte 58 w2).

Definition write_date (c : Civil) (w : Writer) : run Writer :=
  w1 ← pad (wrap 32 (year c)) 4 w; w2 ← pad (month c) 2 (byte 45 w1); pad (day c) 2 (byte 45 w2).

Definition write_time (c : Civil) (w : Writer) : run Writer :=
  w1 ← pad (hour c) 2 w; w2 ← pad (minute c) 2 (byte 58 w1); pad (second c) 2 (byte 58 w2).

(** [as_bytes] of the finished buffer. *)
Definition finish (w : Writer) : list Z := take (len w) (buf w).

Definition format (d : DateTime) (f : Format) : run (list Z) :=
  let c := civil d in
  w ← match f with
      | Rfc3339 =>
          w1 ← write_date c writer_new; w2 ← write_time c (byte 84 w1);
          if minutes (offset d) =? 0 then Done (byte 90 w2) else write_offset (offset d) w2
      | Date => write_date c writer_new
      | Time => write_time c writer_new
      | Human =>
          w1 ← write_date c (byte 32 (str (abbrev (weekday c)) writer_new));
          w2 ← write_time c (byte 32 w1);
          if minutes (offset d) =? 0 then Done (str (lit "UTC") (byte 32 w2)) else write_offset (offset d) (byte 32 w2)
      | Unix => signed (to_unix d) writer_new
      end;
  Done (finish w).

(** ** Reading *)

Definition number (b : list Z) (at_ width : nat) : result Error Z :=
  if (length b <? at_ + width)%nat then Err Syntax
  else foldl (fun r c => v ← r; if is_ascii_digit c then Ok (v * 10 + (c - 48)) else Err Syntax) (Ok 0) (take width (drop at_ b)).

Definition expect (b : list Z) (at_ : nat) (c : Z) : result Error unit :=
  if bool_decide (b !! at_ = Some c) then Ok tt else Err Syntax.

(** [b[i]]. *)
Definition index (b : list Z) (i : nat) : run Z := match b !! i with Some c => Done c | None => Panicked end.

(** [?]. *)
Definition question {A B} (r : result Error A) (f : A -> run (result Error B)) : run (result Error B) :=
  match r with Ok a => f a | Err e => Done (Err e) end.
#[local] Notation "x ←? r ; f" := (question r (fun x => f)) (at level 20, r at level 100, f at level 200, only parsing).

(** The digits from [i] on. *)
Definition skip_digits (b : list Z) (i : nat) : nat :=
  i + match position (fun c => negb (is_ascii_digit c)) (drop i b) with Some n => n | None => length (drop i b) end.

(** Where the fraction ends. *)
Definition skip_fraction (b : list Z) : run (result Error nat) :=
  c ← index b 19;
  if c =? 46 then let i := skip_digits b 20 in Done (if (i =? 20)%nat then Err Syntax else Ok i) else Done (Ok 19%nat).

Definition parse_offset (b : list Z) (i : nat) : run (result Error (UtcOffset * nat)) :=
  c ← index b i;
  if (c =? 90) || (c =? 122) then Done (Ok (UTC, S i))
  else if (c =? 43) || (c =? 45) then
    if (length b <? i + 6)%nat then Done (Err Syntax)
    else
      oh ←? number b (i + 1) 2;
      _ ←? expect b (i + 3) 58;
      om ←? number b (i + 4) 2;
      if 59 <? om then Done (Err BadOffset)
      else
        let total := oh * 60 + om in
        o ←? from_minutes (if c =? 45 then - total else total);
        Done (Ok (o, i + 6)%nat)
  else Done (Err Syntax).

Definition parse_rfc3339_bytes (b : list Z) : run (result Error DateTime) :=
  if (length b <? 20)%nat then Done (Err Syntax)
  else
    y ←? number b 0 4;
    _ ←? expect b 4 45;
    mo ←? number b 5 2;
    _ ←? expect b 7 45;
    d ←? number b 8 2;
    sep ← index b 10;
    if negb ((sep =? 84) || (sep =? 116) || (sep =? 32)) then Done (Err Syntax)
    else
      h ←? number b 11 2;
      _ ←? expect b 13 58;
      mi ←? number b 14 2;
      _ ←? expect b 16 58;
      s ←? number b 17 2;
      if wrap 8 s =? 60 then Done (Err LeapSecond)
      else
        r ← skip_fraction b;
        i ←? r;
        if (length b <=? i)%nat then Done (Err Syntax)
        else
          r ← parse_offset b i;
          oi ←? r;
          let '(o, i) := (oi : UtcOffset * nat) in
          if negb (i =? length b)%nat then Done (Err Syntax)
          else
            c ←? civil_new (sint 32 y) (wrap 8 mo) (wrap 8 d) (wrap 8 h) (wrap 8 mi) (wrap 8 s);
            Done (Ok (MkDateTime c o)).

(** ** The arithmetic of the calendar *)

Ltac div_lia := Z.to_euclidean_division_equations; lia.

Lemma floor_quot z n : 0 < n -> Z.quot (if 0 <=? z then z else z - (n - 1)) n = z / n.
Proof. intros Hn. destruct (Z.leb_spec 0 z); [by apply Z.quot_div_nonneg|]. Z.to_euclidean_division_equations; nia. Qed.

(** A year of an era starts on this day of it; years run from March. *)
Definition year_start (yoe : Z) : Z := 365 * yoe + yoe / 4 - yoe / 100.

(** Where a month of such a year starts. *)
Definition month_start (mp : Z) : Z := (153 * mp + 2) / 5.

(** The year a March-based month falls in. *)
Definition shifted (y m : Z) : Z := if m <=? 2 then y - 1 else y.
Definition march_month (m : Z) : Z := if 2 <? m then m - 3 else m + 9.

Lemma days_floor y m d : 1 <= m <= 12 ->
  days_from_civil y m d = shifted y m / 400 * 146097 + year_start (shifted y m mod 400) + month_start (march_month m) + d - 719469.
Proof.
  intros Hm. unfold days_from_civil. cbv zeta. fold (shifted y m) (march_month m). assert (0 <= march_month m <= 11) by (unfold march_month; destruct (Z.ltb_spec 2 m); lia).
  change 399 with (400 - 1). rewrite floor_quot by lia. rewrite (Z.mod_eq (shifted y m) 400) by lia. set (q := shifted y m / 400). set (yoe := shifted y m - q * 400).
  replace (shifted y m - 400 * q) with yoe by lia. assert (0 <= yoe < 400) by (unfold yoe, q; div_lia). unfold year_start, month_start. rewrite !Z.quot_div_nonneg by lia. lia.
Qed.

(** A date, its month counted from March in its March-based year of era. *)
Definition leap_end (yoe : Z) : bool := is_leap_year (yoe + 1).

Definition month_len (yoe mp : Z) : Z :=
  if mp =? 11 then (if leap_end yoe then 29 else 28)
  else if (mp =? 1) || (mp =? 3) || (mp =? 6) || (mp =? 8) then 30 else 31.

Lemma leap_mod y : is_leap_year y = true <-> y mod 4 = 0 /\ (y mod 100 <> 0 \/ y mod 400 = 0).
Proof.
  unfold is_leap_year. rewrite andb_true_iff, orb_true_iff, negb_true_iff, !Z.eqb_eq, Z.eqb_neq. div_lia.
Qed.

Lemma year_of_day yoe doy : 0 <= yoe <= 399 -> 0 <= doy <= 365 -> (doy = 365 -> is_leap_year (yoe + 1) = true) ->
  let doe := year_start yoe + doy in
  0 <= doe <= 146096 /\ (doe - doe / 1460 + doe / 36524 - doe / 146096) / 365 = yoe.
Proof.
  intros Hy Hd Hl. cbv zeta. rewrite leap_mod in Hl. unfold year_start. split; [div_lia|].
  assert (doy < 365 \/ doy = 365) as [Hlt| ->] by lia; [clear Hl|specialize (Hl eq_refl)]; div_lia.
Qed.

Lemma month_of_day yoe mp d : 0 <= mp <= 11 -> 1 <= d <= month_len yoe mp ->
  let doy := month_start mp + d - 1 in 0 <= doy <= 365 /\ (doy = 365 -> is_leap_year (yoe + 1) = true) /\ (5 * doy + 2) / 153 = mp.
Proof.
  intros Hm Hd. cbv zeta. unfold month_len, leap_end in Hd. unfold month_start.
  assert (mp = 0 \/ mp = 1 \/ mp = 2 \/ mp = 3 \/ mp = 4 \/ mp = 5 \/ mp = 6 \/ mp = 7 \/ mp = 8 \/ mp = 9 \/ mp = 10 \/ mp = 11) as Hc by lia.
  destruct (is_leap_year (yoe + 1)); repeat destruct Hc as [->|Hc]; subst; cbn [Z.eqb Pos.eqb orb] in Hd; (split_and!; [div_lia|div_lia|try done; div_lia|div_lia]).
Qed.

(** The day of an era gives back its year, month and day of month. *)
Lemma split_day doe : 0 <= doe <= 146096 -> exists yoe mp d, 0 <= yoe <= 399 /\ 0 <= mp <= 11 /\ 1 <= d <= month_len yoe mp /\ doe = year_start yoe + month_start mp + d - 1.
Proof.
  intros Hd. set (yoe := (doe - doe / 1460 + doe / 36524 - doe / 146096) / 365). set (doy := doe - year_start yoe). set (mp := (5 * doy + 2) / 153). exists yoe, mp, (doy - month_start mp + 1).
  assert (Hy : 0 <= yoe <= 399) by (unfold yoe; div_lia). assert (H0 : 0 <= doy) by (unfold doy, year_start, yoe; div_lia). assert (H1 : doy <= 365) by (unfold doy, year_start, yoe; div_lia).
  assert (Hl : doy = 365 -> is_leap_year (yoe + 1) = true) by (rewrite leap_mod; unfold doy, year_start, yoe; clear Hy H0 H1; intros; div_lia).
  clearbody yoe. unfold doy in *. clear doy. set (doy := doe - year_start yoe) in *. assert (Hm : 0 <= mp <= 11) by (unfold mp; div_lia). split_and!; try lia.
  - unfold mp, month_start. div_lia.
  - assert (Hu : doy <= (153 * mp + 150) / 5) by (unfold mp; div_lia). clearbody mp doy. unfold month_len, leap_end, month_start.
    assert (mp = 0 \/ mp = 1 \/ mp = 2 \/ mp = 3 \/ mp = 4 \/ mp = 5 \/ mp = 6 \/ mp = 7 \/ mp = 8 \/ mp = 9 \/ mp = 10 \/ mp = 11) as Hc by lia.
    destruct (is_leap_year (yoe + 1)); [clear Hl|assert (doy <> 365) by (intros ->; by specialize (Hl eq_refl))]; repeat destruct Hc as [->|Hc]; subst; cbn [Z.eqb Pos.eqb orb]; div_lia.
Qed.

Lemma sint_small w x : 0 < w -> - 2 ^ (w - 1) <= x < 2 ^ (w - 1) -> sint w x = x.
Proof. intros Hw Hx. unfold sint. assert (2 ^ w = 2 * 2 ^ (w - 1)) by (rewrite <- Z.pow_succ_r by lia; f_equal; lia). rewrite Z.mod_small by lia. lia. Qed.

Definition month_of (mp : Z) : Z := if mp <? 10 then mp + 3 else mp - 9.
Definition year_of (era yoe mp : Z) : Z := yoe + era * 400 + (if month_of mp <=? 2 then 1 else 0).

Lemma civil_of_era era yoe mp d : -1000 <= era <= 1000 -> 0 <= yoe <= 399 -> 0 <= mp <= 11 -> 1 <= d <= month_len yoe mp ->
  civil_from_days (era * 146097 + year_start yoe + month_start mp + d - 719469) = (year_of era yoe mp, month_of mp, d).
Proof.
  intros He Hy Hm Hd. destruct (month_of_day yoe mp d Hm Hd) as (H1 & H2 & H3). destruct (year_of_day yoe _ Hy H1 H2) as [H4 H5]. cbv zeta in *.
  set (doe := year_start yoe + (month_start mp + d - 1)) in *. set (doy := month_start mp + d - 1) in *. unfold civil_from_days. cbv zeta.
  replace (era * 146097 + year_start yoe + month_start mp + d - 719469 + 719468) with (doe + era * 146097) by (unfold doe, doy; lia).
  assert (Hera : Z.quot (if 0 <=? doe + era * 146097 then doe + era * 146097 else doe + era * 146097 - 146096) 146097 = era).
  { change 146096 with (146097 - 1). rewrite floor_quot by lia. rewrite Z.div_add, Z.div_small by lia. lia. }
  rewrite !Hera. clear Hera. replace (doe + era * 146097 - era * 146097) with doe by lia.
  rewrite !(Z.quot_div_nonneg doe) by lia. rewrite (Z.quot_div_nonneg (doe - doe / 1460 + doe / 36524 - doe / 146096) 365), H5 by div_lia.
  rewrite !(Z.quot_div_nonneg yoe) by lia. fold (year_start yoe). replace (doe - year_start yoe) with doy by (unfold doe; lia). rewrite (Z.quot_div_nonneg (5 * doy + 2)) by lia. rewrite H3.
  rewrite (Z.quot_div_nonneg (153 * mp + 2)) by lia. fold (month_start mp) (month_of mp). replace (doy - month_start mp + 1) with d by (unfold doy; lia).
  assert (Hd31 : month_len yoe mp <= 31) by (unfold month_len, leap_end; destruct (mp =? 11); [destruct (is_leap_year _)|destruct (_ || _)]; lia).
  rewrite (wrap_small 8 d) by (unfold in_width; lia). rewrite (wrap_small 8 (month_of mp)) by (unfold in_width, month_of; destruct (Z.ltb_spec mp 10); lia).
  f_equal. f_equal. unfold year_of. destruct (month_of mp <=? 2); rewrite sint_small; lia.
Qed.

Lemma leap_period y k : is_leap_year (y + k * 400) = is_leap_year y.
Proof. apply Bool.eq_true_iff_eq. rewrite !leap_mod. div_lia. Qed.

(** A day exists in its month. *)
Definition date_ok (y m d : Z) : Prop := exists l, days_in_month y m = Some l /\ 1 <= d <= l.

Lemma days_in_month_len y m : days_in_month y m = if (1 <=? m) && (m <=? 12) then Some (month_len (shifted y m mod 400) (march_month m)) else None.
Proof.
  assert (Hl : m = 2 -> leap_end (shifted y m mod 400) = is_leap_year y).
  { intros ->. unfold leap_end, shifted. cbn [Z.leb Z.compare Pos.compare Pos.compare_cont]. rewrite (Z.mod_eq (y - 1) 400) by lia. rewrite <- (leap_period _ ((y - 1) / 400)). f_equal. lia. }
  destruct (Z.leb_spec 1 m) as [H1|H1]; destruct (Z.leb_spec m 12) as [H2|H2]; cbn [andb];
    [|unfold days_in_month; repeat match goal with |- context [m =? ?k] => destruct (Z.eqb_spec m k); [lia|] end; done..].
  assert (m = 1 \/ m = 2 \/ m = 3 \/ m = 4 \/ m = 5 \/ m = 6 \/ m = 7 \/ m = 8 \/ m = 9 \/ m = 10 \/ m = 11 \/ m = 12) as Hc by lia.
  repeat destruct Hc as [->|Hc]; subst; try reflexivity. unfold days_in_month, month_len. cbn [Z.eqb Pos.eqb orb march_month Z.ltb Z.compare Pos.compare Pos.compare_cont Z.add Pos.add Pos.succ]. by rewrite Hl.
Qed.

Lemma march_round m : 1 <= m <= 12 -> month_of (march_month m) = m.
Proof. intros Hm. unfold month_of, march_month. destruct (Z.ltb_spec 2 m); [destruct (Z.ltb_spec (m - 3) 10)|destruct (Z.ltb_spec (m + 9) 10)]; lia. Qed.

Lemma civil_of_days y m d : -1000 <= shifted y m / 400 <= 1000 -> date_ok y m d -> civil_from_days (days_from_civil y m d) = (y, m, d).
Proof.
  intros Hy (l & Hl & Hd). rewrite days_in_month_len in Hl. destruct (Z.leb_spec 1 m) as [H1|H1]; destruct (Z.leb_spec m 12) as [H2|H2]; cbn [andb] in Hl; [|done..]. injection Hl as <-.
  rewrite days_floor by lia. rewrite civil_of_era; [|done|div_lia|unfold march_month; destruct (Z.ltb_spec 2 m); lia|done]. rewrite march_round by lia. f_equal. f_equal.
  unfold year_of. rewrite march_round by lia. unfold shifted. destruct (m <=? 2); div_lia.
Qed.

Lemma days_of_civil days : -146097000 <= days + 719468 < 146097000 -> exists y m d, civil_from_days days = (y, m, d) /\ date_ok y m d /\ days_from_civil y m d = days.
Proof.
  intros Hd. set (era := (days + 719468) / 146097). set (doe := (days + 719468) mod 146097). destruct (split_day doe) as (yoe & mp & d & Hy & Hm & Hdd & He); [unfold doe; div_lia|].
  assert (Hdays : days = era * 146097 + year_start yoe + month_start mp + d - 719469) by (unfold era, doe in *; div_lia). exists (year_of era yoe mp), (month_of mp), d.
  assert (Hera : -1000 <= era <= 1000) by (unfold era; div_lia). assert (Hmo : 1 <= month_of mp <= 12) by (unfold month_of; destruct (Z.ltb_spec mp 10); lia).
  assert (Hback : march_month (month_of mp) = mp) by (unfold march_month, month_of; destruct (Z.ltb_spec mp 10); [destruct (Z.ltb_spec 2 (mp + 3))|destruct (Z.ltb_spec 2 (mp - 9))]; lia).
  assert (Hsh : shifted (year_of era yoe mp) (month_of mp) = yoe + era * 400) by (unfold shifted, year_of; destruct (month_of mp <=? 2); lia). split_and!.
  - rewrite Hdays. by apply civil_of_era.
  - exists (month_len yoe mp). split; [|done]. rewrite days_in_month_len, Hsh, Hback. destruct (Z.leb_spec 1 (month_of mp)); [|lia]. destruct (Z.leb_spec (month_of mp) 12); [|lia]. cbn [andb].
    by rewrite Z.mod_add, Z.mod_small by lia.
  - rewrite days_floor, Hsh, Hback by done. rewrite Z.div_add, Z.mod_add, Z.div_small, Z.mod_small by lia. lia.
Qed.

Lemma days_linear y m d : 1 <= m <= 12 ->
  let Y := shifted y m in days_from_civil y m d = 365 * Y + Y / 4 - Y / 100 + Y / 400 + month_start (march_month m) + d - 719469.
Proof. intros Hm. cbv zeta. rewrite days_floor by done. unfold year_start. generalize (shifted y m) as Y. intros Y. generalize (month_start (march_month m)) as ms. intros ms. div_lia. Qed.

Lemma date_months y m d : date_ok y m d -> 1 <= m <= 12 /\ 1 <= d <= 31 /\ (m <= 2 -> 306 <= month_start (march_month m) <= 337) /\
  (2 < m -> 0 <= month_start (march_month m) /\ month_start (march_month m) + d <= 306).
Proof.
  intros (l & Hl & Hd). rewrite days_in_month_len in Hl. destruct (Z.leb_spec 1 m) as [H1|H1]; destruct (Z.leb_spec m 12) as [H2|H2]; cbn [andb] in Hl; [|done..]. injection Hl as <-.
  unfold month_len, leap_end, march_month in Hd. unfold march_month, month_start. destruct (is_leap_year _) in Hd; clear y.
  all: assert (m = 1 \/ m = 2 \/ m = 3 \/ m = 4 \/ m = 5 \/ m = 6 \/ m = 7 \/ m = 8 \/ m = 9 \/ m = 10 \/ m = 11 \/ m = 12) as Hc by lia.
  all: repeat destruct Hc as [->|Hc]; subst; match type of Hd with _ /\ _ <= ?e => let v := eval vm_compute in e in change e with v in Hd end.
  all: repeat match goal with |- context [(153 * ?e + 2) / 5] => let v := eval vm_compute in ((153 * e + 2) / 5) in change ((153 * e + 2) / 5) with v end; lia.
Qed.

(** The supported years are exactly a range of days. *)
Lemma year_range y m d : date_ok y m d -> MIN_YEAR <= y <= MAX_YEAR <-> -719528 <= days_from_civil y m d <= 2932896.
Proof.
  intros Hd. destruct (date_months y m d Hd) as (Hm & Hd31 & Ha & Hb). rewrite days_linear by done. cbv zeta. unfold MIN_YEAR, MAX_YEAR, shifted.
  destruct (Z.leb_spec m 2) as [H2|H2]; [specialize (Ha H2); clear Hb|specialize (Hb H2); clear Ha]; revert Hm Hd31; generalize dependent (month_start (march_month m)); intros ms; intros; split; intros; div_lia.
Qed.

Record civil_ok (c : Civil) : Prop := {
  ok_year : MIN_YEAR <= year c <= MAX_YEAR;
  ok_date : date_ok (year c) (month c) (day c);
  ok_hour : 0 <= hour c <= 23;
  ok_minute : 0 <= minute c <= 59;
  ok_second : 0 <= second c <= 59 }.

Lemma timestamp_range : MIN_TIMESTAMP = -719528 * 86400 /\ MAX_TIMESTAMP = 2932896 * 86400 + 86399.
Proof. by vm_compute. Qed.

Lemma era_range y m : MIN_YEAR <= y <= MAX_YEAR -> -1000 <= shifted y m / 400 <= 1000.
Proof. unfold MIN_YEAR, MAX_YEAR, shifted. intros Hy. destruct (m <=? 2); div_lia. Qed.

Lemma unix_of_civil c : civil_ok c -> civil_from_unix (civil_to_unix c) = Ok c.
Proof.
  intros [H1 H2 H3 H4 H5]. pose proof (proj1 (year_range _ _ _ H2) H1) as Hr. destruct timestamp_range as [Hmin Hmax]. unfold civil_from_unix, civil_to_unix. set (days := days_since_epoch c) in *.
  set (sod := hour c * 3600 + minute c * 60 + second c). replace (days * SECS_PER_DAY + hour c * 3600 + minute c * 60 + second c) with (sod + days * 86400) by (unfold sod, SECS_PER_DAY; lia).
  assert (Hs : 0 <= sod < 86400) by (unfold sod; lia). rewrite Hmin, Hmax. fold (days_since_epoch c) in Hr. fold days in Hr.
  destruct (Z.ltb_spec (sod + days * 86400) (-719528 * 86400)); [lia|]. destruct (Z.ltb_spec (2932896 * 86400 + 86399) (sod + days * 86400)); [lia|]. cbn [orb]. cbv zeta. unfold SECS_PER_DAY.
  rewrite Z.div_add, Z.mod_add, Z.div_small, Z.mod_small, Z.add_0_l by lia. unfold days, days_since_epoch. rewrite civil_of_days by (done || by apply era_range).
  rewrite !Z.quot_div_nonneg, !Z.rem_mod_nonneg by first [lia | apply Z.div_pos; lia].
  assert (sod / 3600 = hour c /\ (sod / 60) mod 60 = minute c /\ sod mod 60 = second c) as (-> & -> & ->) by (unfold sod; div_lia).
  rewrite !wrap_small by (unfold in_width; lia). by destruct c.
Qed.

Lemma civil_of_unix secs : MIN_TIMESTAMP <= secs <= MAX_TIMESTAMP -> exists c, civil_from_unix secs = Ok c /\ civil_ok c /\ civil_to_unix c = secs.
Proof.
  intros Hs. pose proof Hs as Hs'. destruct timestamp_range as [Hmin Hmax]. rewrite Hmin, Hmax in Hs'. unfold civil_from_unix. destruct (Z.ltb_spec secs MIN_TIMESTAMP); [lia|]. destruct (Z.ltb_spec MAX_TIMESTAMP secs); [lia|]. cbn [orb]. cbv zeta.
  unfold SECS_PER_DAY. set (days := secs / 86400). set (sod := secs mod 86400). assert (Hsod : 0 <= sod < 86400) by (unfold sod; div_lia). assert (Hd : -719528 <= days <= 2932896) by (unfold days; div_lia).
  destruct (days_of_civil days ltac:(lia)) as (y & m & d & -> & Hok & Hdays). rewrite !Z.quot_div_nonneg, !Z.rem_mod_nonneg by first [lia | apply Z.div_pos; lia].
  assert (H1 : 0 <= sod / 3600 <= 23 /\ 0 <= (sod / 60) mod 60 <= 59 /\ 0 <= sod mod 60 <= 59) by div_lia. rewrite !wrap_small by (unfold in_width; lia). eexists. split; [done|]. split.
  - constructor; cbn; try lia; [|done]. apply (year_range y m d Hok). lia.
  - unfold civil_to_unix, days_since_epoch. cbn. rewrite Hdays. assert (secs = days * 86400 + sod) by (unfold days, sod; div_lia). unfold SECS_PER_DAY. div_lia.
Qed.

(** ** Counting days one by one *)

Definition next_day (y m d : Z) : Z * Z * Z :=
  match days_in_month y m with
  | Some l => if d <? l then (y, m, d + 1) else if m <? 12 then (y, m + 1, 1) else (y + 1, 1, 1)
  | None => (y, m, d)
  end.

Lemma month_end y m l : days_in_month y m = Some l -> let '(y', m', _) := next_day y m l in date_ok y' m' 1 /\ days_from_civil y' m' 1 = days_from_civil y m l + 1.
Proof.
  intros Hl. unfold next_day. rewrite Hl, Z.ltb_irrefl. pose proof Hl as Hl'. rewrite days_in_month_len in Hl'. destruct (Z.leb_spec 1 m) as [H1|H1]; destruct (Z.leb_spec m 12) as [H2|H2]; cbn [andb] in Hl'; [|done..]. clear Hl'.
  assert (Hmf : forall y' m', 1 <= m' <= 12 -> date_ok y' m' 1).
  { intros y' m' Hm'. exists (month_len (shifted y' m' mod 400) (march_month m')). rewrite days_in_month_len. destruct (Z.leb_spec 1 m'); [|lia]. destruct (Z.leb_spec m' 12); [|lia]. split; [done|].
    unfold month_len, leap_end. destruct (_ =? 11); [destruct (is_leap_year _)|destruct (_ || _)]; lia. }
  destruct (Z.ltb_spec m 12) as [H3|H3]; (split; [apply Hmf; lia|]); rewrite !days_linear by lia; cbv zeta; unfold shifted, march_month, month_start.
  - unfold days_in_month in Hl. pose proof (leap_mod y) as Hleap.
    assert (m = 1 \/ m = 2 \/ m = 3 \/ m = 4 \/ m = 5 \/ m = 6 \/ m = 7 \/ m = 8 \/ m = 9 \/ m = 10 \/ m = 11) as Hc by lia.
    destruct (is_leap_year y); [pose proof (proj1 Hleap eq_refl) as Hy|assert (Hy : ~ (y mod 4 = 0 /\ (y mod 100 <> 0 \/ y mod 400 = 0))) by (by intros ?%Hleap)]; clear Hleap;
      repeat destruct Hc as [->|Hc]; subst; vm_compute in Hl; injection Hl as <-;
      repeat match goal with |- context [if ?c then _ else _] => let v := eval vm_compute in c in change c with v; cbv iota end; div_lia.
  - assert (m = 12) as -> by lia. vm_compute in Hl. injection Hl as <-. repeat match goal with |- context [if ?c then _ else _] => let v := eval vm_compute in c in change c with v; cbv iota end. div_lia.
Qed.

Lemma next_day_ok y m d : date_ok y m d -> let '(y', m', d') := next_day y m d in date_ok y' m' d' /\ days_from_civil y' m' d' = days_from_civil y m d + 1.
Proof.
  intros (l & Hl & Hd). destruct (Z.eq_dec d l) as [->|Hne].
  - pose proof (month_end y m l Hl) as He. unfold next_day in *. rewrite Hl in *. rewrite Z.ltb_irrefl in *. by destruct (m <? 12).
  - unfold next_day. rewrite Hl. destruct (Z.ltb_spec d l); [|lia]. split; [exists l; split; [done|lia]|]. destruct (date_months y m d) as (Hm & _); [by exists l|]. rewrite !days_linear by done. lia.
Qed.

(** ** Printing *)

Definition writer_ok (w : Writer) : Prop := length (buf w) = FMT_CAP /\ (len w <= FMT_CAP)%nat.

Lemma new_ok : writer_ok writer_new.
Proof. split; [done|]. cbn. lia. Qed.

Lemma byte_ok b w : writer_ok w -> (len w < FMT_CAP)%nat -> writer_ok (byte b w) /\ finish (byte b w) = finish w ++ [b] /\ len (byte b w) = S (len w).
Proof.
  intros [Hb Hl] Hlt. unfold byte. destruct (Nat.ltb_spec (len w) FMT_CAP); [|lia]. split; [split; cbn [buf len]; [by rewrite length_insert|lia]|]. split; [|done].
  unfold finish. cbn [buf len]. rewrite (take_S_r _ _ b) by (rewrite list_lookup_insert_eq by lia; done). by rewrite take_insert_ge by lia.
Qed.

Lemma str_ok l : forall w, writer_ok w -> (len w + length l <= FMT_CAP)%nat -> writer_ok (str l w) /\ finish (str l w) = finish w ++ l /\ len (str l w) = (len w + length l)%nat.
Proof.
  induction l as [|b l IH]; intros w Hw Hl; cbn [length] in Hl; [unfold str; cbn [foldl]; split; [done|]; rewrite app_nil_r; cbn; split; [done|lia]|].
  destruct (byte_ok b w Hw) as (H1 & H2 & H3); [lia|]. destruct (IH (byte b w) H1) as (H4 & H5 & H6); [lia|]. change (str (b :: l) w) with (str l (byte b w)). split; [done|]. rewrite H5, H2, H6, H3, <- app_assoc. cbn [length app]. split; [done|lia].
Qed.

Definition two (v : Z) : list Z := [48 + v / 10; 48 + v mod 10].
Definition four (v : Z) : list Z := [48 + v / 1000; 48 + v / 100 mod 10; 48 + v / 10 mod 10; 48 + v mod 10].

Lemma pad_two v w : 0 <= v <= 99 -> pad v 2 w = Done (str (two v) w).
Proof.
  intros Hv. unfold pad, two. cbn [digits]. destruct (Z.eqb_spec (v / 10) 0) as [Hz|Hz].
  - rewrite Hz. done.
  - assert (v / 10 / 10 = 0) as -> by div_lia. cbn [mbind run_bind rev app length]. by rewrite (Z.mod_small (v / 10) 10) by div_lia.
Qed.

Lemma pad_four v w : 0 <= v <= 9999 -> pad v 4 w = Done (str (four v) w).
Proof.
  intros Hv. unfold pad, four. cbn [digits]. rewrite !Z.div_div by lia. change (10 * 10) with 100. change (100 * 10) with 1000. change (1000 * 10) with 10000.
  destruct (Z.eqb_spec (v / 10) 0) as [H1|H1]; [assert (v / 100 = 0 /\ v / 1000 = 0) as [-> ->] by div_lia; by rewrite H1|].
  destruct (Z.eqb_spec (v / 100) 0) as [H2|H2]; [assert (v / 1000 = 0) as -> by div_lia; by rewrite H2|].
  destruct (Z.eqb_spec (v / 1000) 0) as [H3|H3]; [by rewrite H3|].
  assert (v / 10000 = 0) as -> by div_lia. cbn [mbind run_bind rev app length Z.eqb]. by rewrite (Z.mod_small (v / 1000) 10) by div_lia.
Qed.

Definition date_text (c : Civil) : list Z := four (year c) ++ 45 :: two (month c) ++ 45 :: two (day c).
Definition time_text (c : Civil) : list Z := two (hour c) ++ 58 :: two (minute c) ++ 58 :: two (second c).
Definition offset_text (o : UtcOffset) : list Z := (if minutes o <? 0 then 45 else 43) :: two (Z.abs (minutes o) / 60) ++ 58 :: two (Z.abs (minutes o) mod 60).

Lemma str_app l l' w : str (l ++ l') w = str l' (str l w).
Proof. apply foldl_app. Qed.

Lemma str_cons b l w : str (b :: l) w = str l (byte b w).
Proof. done. Qed.

Lemma str_one b w : str [b] w = byte b w.
Proof. done. Qed.

Lemma small_fields c : civil_ok c -> 0 <= year c <= 9999 /\ 0 <= month c <= 99 /\ 0 <= day c <= 99 /\ 0 <= hour c <= 99 /\ 0 <= minute c <= 99 /\ 0 <= second c <= 99.
Proof. intros [H1 H2 H3 H4 H5]. destruct (date_months _ _ _ H2) as (Hm & Hd & _). unfold MIN_YEAR, MAX_YEAR in H1. lia. Qed.

Lemma write_date_text c w : civil_ok c -> write_date c w = Done (str (date_text c) w).
Proof.
  intros (H1 & H2 & H3 & _)%small_fields. unfold write_date, date_text. rewrite wrap_small by (unfold in_width; lia). rewrite pad_four by done. cbn [mbind run_bind].
  rewrite pad_two by done. cbn [mbind run_bind]. rewrite pad_two by done. by rewrite str_app, str_cons, str_app, str_cons.
Qed.

Lemma write_time_text c w : civil_ok c -> write_time c w = Done (str (time_text c) w).
Proof. intros (_ & _ & _ & H1 & H2 & H3)%small_fields. unfold write_time, time_text. rewrite pad_two by done. cbn [mbind run_bind]. rewrite pad_two by done. cbn [mbind run_bind]. rewrite pad_two by done. by rewrite str_app, str_cons, str_app, str_cons. Qed.

Definition offset_ok (o : UtcOffset) : Prop := -1440 < minutes o < 1440.

Lemma write_offset_text o w : offset_ok o -> write_offset o w = Done (str (offset_text o) w).
Proof. unfold offset_ok. intros Ho. unfold write_offset, offset_text. cbv zeta. rewrite pad_two by div_lia. cbn [mbind run_bind]. rewrite pad_two by div_lia. by rewrite str_cons, str_app, str_cons. Qed.

Definition datetime_ok (d : DateTime) : Prop := civil_ok (civil d) /\ offset_ok (offset d).

Definition rfc3339_text (d : DateTime) : list Z := date_text (civil d) ++ 84 :: time_text (civil d) ++ (if minutes (offset d) =? 0 then [90] else offset_text (offset d)).

Lemma format_rfc3339 d : datetime_ok d -> format d Rfc3339 = Done (rfc3339_text d).
Proof.
  intros [Hc Ho]. unfold format. rewrite write_date_text by done. cbn [mbind run_bind]. rewrite write_time_text by done. cbn [mbind run_bind]. unfold rfc3339_text.
  assert (Hlen : forall l, (length l <= FMT_CAP)%nat -> finish (str l writer_new) = l) by (intros l Hl; by destruct (str_ok l writer_new new_ok) as (_ & -> & _); [cbn; lia|]).
  assert (Hgo : forall l, length l = 1%nat \/ length l = 6%nat -> Done (finish (str l (str (time_text (civil d)) (byte 84 (str (date_text (civil d)) writer_new))))) = Done (date_text (civil d) ++ 84 :: time_text (civil d) ++ l)).
  { intros l Hl. rewrite <- (Hlen (date_text (civil d) ++ 84 :: time_text (civil d) ++ l)) by (rewrite length_app, length_cons, length_app; destruct Hl as [-> | ->]; apply Nat.leb_le; reflexivity). by rewrite str_app, str_cons, str_app. }
  destruct (minutes (offset d) =? 0); [cbn [mbind run_bind]; rewrite <- (str_one 90); apply Hgo; by left|]. rewrite write_offset_text by done. cbn [mbind run_bind]. apply Hgo. by right.
Qed.

(** ** Reading *)

Lemma digit_ok x : 0 <= x <= 9 -> is_ascii_digit (48 + x) = true.
Proof. intros Hx. unfold is_ascii_digit. destruct (Z.leb_spec 48 (48 + x)); [|lia]. destruct (Z.leb_spec (48 + x) 57); [done|lia]. Qed.

Lemma field_at (pre l post : list Z) : take (length l) (drop (length pre) (pre ++ l ++ post)) = l.
Proof. rewrite drop_app_length. by rewrite take_app_length. Qed.

Lemma number_two pre v post : 0 <= v <= 99 -> number (pre ++ two v ++ post) (length pre) 2 = Ok v.
Proof.
  intros Hv. unfold number. destruct (Nat.ltb_spec (length (pre ++ two v ++ post)) (length pre + 2)) as [Hlt|_]; [rewrite !length_app in Hlt; cbn in Hlt; lia|].
  change 2%nat with (length (two v)). rewrite (field_at pre (two v) post). unfold two. cbn [foldl mbind result_bind]. rewrite !digit_ok by div_lia. cbn [mbind result_bind]. f_equal. div_lia.
Qed.

Lemma number_four pre v post : 0 <= v <= 9999 -> number (pre ++ four v ++ post) (length pre) 4 = Ok v.
Proof.
  intros Hv. unfold number. destruct (Nat.ltb_spec (length (pre ++ four v ++ post)) (length pre + 4)) as [Hlt|_]; [rewrite !length_app in Hlt; cbn in Hlt; lia|].
  change 4%nat with (length (four v)). rewrite (field_at pre (four v) post). unfold four. cbn [foldl mbind result_bind]. rewrite !digit_ok by div_lia. cbn [mbind result_bind]. f_equal. div_lia.
Qed.

Lemma expect_at pre c post : expect (pre ++ c :: post) (length pre) c = Ok tt.
Proof. unfold expect. rewrite bool_decide_true; [done|]. by rewrite list_lookup_middle. Qed.

Lemma index_at pre c post : index (pre ++ c :: post) (length pre) = Done c.
Proof. unfold index. by rewrite list_lookup_middle. Qed.

Lemma parse_text_offset pre o : offset_ok o -> minutes o <> 0 -> parse_offset (pre ++ offset_text o) (length pre) = Done (Ok (o, length (pre ++ offset_text o))).
Proof.
  unfold offset_ok. intros Ho Hz. set (sg := if minutes o <? 0 then 45 else 43). set (h := Z.abs (minutes o) / 60). set (m := Z.abs (minutes o) mod 60).
  assert (Hb : pre ++ offset_text o = pre ++ sg :: two h ++ 58 :: two m) by done. rewrite Hb. clear Hb. unfold parse_offset. rewrite index_at. cbn [mbind run_bind].
  assert (Hsg : (sg =? 90) || (sg =? 122) = false /\ (sg =? 43) || (sg =? 45) = true) by (unfold sg; by destruct (minutes o <? 0)). destruct Hsg as [-> ->].
  destruct (Nat.ltb_spec (length (pre ++ sg :: two h ++ 58 :: two m)) (length pre + 6)) as [Hlt|_]; [rewrite length_app in Hlt; cbn in Hlt; lia|].
  assert (Hh : 0 <= h <= 23) by (unfold h; div_lia). assert (Hm : 0 <= m <= 59) by (unfold m; div_lia).
  set (b := pre ++ sg :: two h ++ 58 :: two m).
  assert (number b (length pre + 1) 2 = Ok h) as ->.
  { pose proof (number_two (pre ++ [sg]) h (58 :: two m) ltac:(lia)) as N1. rewrite <- app_assoc, length_app in N1. exact N1. }
  assert (expect b (length pre + 3) 58 = Ok tt) as ->.
  { pose proof (expect_at (pre ++ sg :: two h) 58 (two m)) as E1. rewrite <- app_assoc, length_app in E1. exact E1. }
  assert (number b (length pre + 4) 2 = Ok m) as ->.
  { pose proof (number_two (pre ++ sg :: two h ++ [58]) m [] ltac:(lia)) as N2. rewrite app_nil_r, <- app_assoc, length_app in N2. exact N2. }
  cbn [question]. unfold b.
  destruct (Z.ltb_spec 59 m); [lia|]. cbv zeta. assert (Htot : (if sg =? 45 then - (h * 60 + m) else h * 60 + m) = minutes o) by (unfold sg, h, m; destruct (Z.ltb_spec (minutes o) 0); cbn [Z.eqb Pos.eqb]; div_lia).
  rewrite Htot. unfold from_minutes. destruct (Z.leb_spec (minutes o) (-1440)); [lia|]. destruct (Z.leb_spec 1440 (minutes o)); [lia|]. cbn [orb question]. rewrite sint_small by lia. f_equal. f_equal. f_equal; [by destruct o|].
  rewrite length_app. cbn. lia.
Qed.

Lemma civil_new_ok c : civil_ok c -> civil_new (year c) (month c) (day c) (hour c) (minute c) (second c) = Ok c.
Proof.
  intros [H1 (l & Hl & Hd) H3 H4 H5]. unfold civil_new. rewrite Hl. destruct (Z.ltb_spec (year c) MIN_YEAR); [lia|]. destruct (Z.ltb_spec MAX_YEAR (year c)); [lia|]. destruct (Z.eqb_spec (day c) 0); [lia|].
  destruct (Z.ltb_spec l (day c)); [lia|]. destruct (Z.ltb_spec 23 (hour c)); [lia|]. destruct (Z.ltb_spec 59 (minute c)); [lia|]. destruct (Z.ltb_spec 59 (second c)); [lia|]. by destruct c.
Qed.

Lemma civil_new_valid y mo d h mi s c : 0 <= d -> 0 <= h -> 0 <= mi -> 0 <= s -> civil_new y mo d h mi s = Ok c -> civil_ok c /\ c = MkCivil y mo d h mi s.
Proof.
  intros Hd Hh Hmi Hs. unfold civil_new. destruct (Z.ltb_spec y MIN_YEAR); [done|]. destruct (Z.ltb_spec MAX_YEAR y); [done|]. cbn [orb]. destruct (days_in_month y mo) as [l|] eqn:Hl; [|done].
  destruct (Z.eqb_spec d 0); [done|]. destruct (Z.ltb_spec l d); [done|]. cbn [orb]. destruct (Z.ltb_spec 23 h); [done|]. destruct (Z.ltb_spec 59 mi); [done|]. destruct (Z.ltb_spec 59 s); [done|].
  intros [= <-]. split; [|done]. constructor; cbn; try lia. exists l. split; [done|lia].
Qed.

(** What is printed is read back. *)
Lemma parse_printed d : datetime_ok d -> parse_rfc3339_bytes (rfc3339_text d) = Done (Ok d).
Proof.
  intros [Hc Ho]. pose proof (small_fields _ Hc) as (Hy & Hmo & Hd & Hh & Hmi & Hs). set (tl := if minutes (offset d) =? 0 then [90] else offset_text (offset d)).
  set (c := civil d) in *. set (b := rfc3339_text d). set (pre := date_text c ++ 84 :: time_text c).
  assert (Hb : b = pre ++ tl) by (unfold b, rfc3339_text, pre; fold c tl; by rewrite <- app_assoc). assert (Hlen : length pre = 19%nat) by done.
  assert (Htl : exists x l, tl = x :: l /\ x <> 46) by (unfold tl, offset_text; destruct (minutes (offset d) =? 0); [by exists 90, []|eexists _, _; split; [done|by destruct (minutes (offset d) <? 0)]]).
  unfold parse_rfc3339_bytes. destruct (Nat.ltb_spec (length b) 20) as [Hlt|_]; [destruct Htl as (x & l & -> & _); rewrite Hb, length_app, Hlen in Hlt; cbn in Hlt; lia|].
  assert (number b 0 4 = Ok (year c)) as -> by exact (number_four [] (year c) _ Hy).
  assert (expect b 4 45 = Ok tt) as -> by exact (expect_at (four (year c)) 45 _).
  assert (number b 5 2 = Ok (month c)) as -> by exact (number_two (four (year c) ++ [45]) (month c) _ Hmo).
  assert (expect b 7 45 = Ok tt) as -> by exact (expect_at (four (year c) ++ 45 :: two (month c)) 45 _).
  assert (number b 8 2 = Ok (day c)) as -> by exact (number_two (four (year c) ++ 45 :: two (month c) ++ [45]) (day c) _ Hd).
  assert (index b 10 = Done 84) as -> by exact (index_at (date_text c) 84 _).
  assert (number b 11 2 = Ok (hour c)) as -> by exact (number_two (date_text c ++ [84]) (hour c) _ Hh).
  assert (expect b 13 58 = Ok tt) as -> by exact (expect_at (date_text c ++ 84 :: two (hour c)) 58 _).
  assert (number b 14 2 = Ok (minute c)) as -> by exact (number_two (date_text c ++ 84 :: two (hour c) ++ [58]) (minute c) _ Hmi).
  assert (expect b 16 58 = Ok tt) as -> by exact (expect_at (date_text c ++ 84 :: two (hour c) ++ 58 :: two (minute c)) 58 _).
  assert (number b 17 2 = Ok (second c)) as -> by exact (number_two (date_text c ++ 84 :: two (hour c) ++ 58 :: two (minute c) ++ [58]) (second c) _ Hs).
  cbn [question mbind run_bind Z.eqb Pos.eqb orb negb]. rewrite !wrap_small, sint_small by (unfold in_width; lia). destruct (Z.eqb_spec (second c) 60) as [H60|_]; [pose proof (ok_second _ Hc); lia|].
  assert (skip_fraction b = Done (Ok 19%nat)) as ->.
  { destruct Htl as (x & l & Htl & Hx). unfold skip_fraction. rewrite Hb, Htl. rewrite <- Hlen at 1. rewrite index_at. cbn [mbind run_bind]. destruct (Z.eqb_spec x 46); [done|]. done. }
  cbn [question mbind run_bind]. destruct (Nat.leb_spec (length b) 19) as [Hle|_]; [destruct Htl as (x & l & Htl & _); rewrite Hb, length_app, Hlen, Htl in Hle; cbn in Hle; lia|].
  assert (parse_offset b 19 = Done (Ok (offset d, length b))) as ->.
  { rewrite Hb, <- Hlen at 1. rewrite Hb. unfold tl. destruct (Z.eqb_spec (minutes (offset d)) 0) as [Hz|Hz]; [|by apply parse_text_offset]. unfold parse_offset. rewrite index_at. cbn [mbind run_bind Z.eqb Pos.eqb orb].
    rewrite length_app. cbn [length]. rewrite Nat.add_1_r. destruct (offset d) as [m]. cbn in Hz. by subst. }
  cbn [question mbind run_bind]. rewrite Nat.eqb_refl. cbn [negb]. rewrite civil_new_ok by done. cbn [question]. unfold c. by destruct d.
Qed.

Lemma index_total b i : (i < length b)%nat -> exists c, index b i = Done c.
Proof. intros Hi. destruct (lookup_lt_is_Some_2 b i Hi) as [c Hc]. exists c. unfold index. by rewrite Hc. Qed.

Lemma from_minutes_ok m o : from_minutes m = Ok o -> offset_ok o.
Proof.
  unfold from_minutes. destruct (Z.leb_spec m (-1440)); [done|]. destruct (Z.leb_spec 1440 m); [done|]. cbn [orb]. intros [= <-]. unfold offset_ok. cbn. rewrite sint_small; lia.
Qed.

Lemma parse_offset_total b i : (i < length b)%nat -> exists r, parse_offset b i = Done r /\ forall o n, r = Ok (o, n) -> offset_ok o.
Proof.
  intros Hi. unfold parse_offset. destruct (index_total b i Hi) as [c ->]. cbn [mbind run_bind]. destruct (_ || _); [eexists; split; [done|]; intros o n [= <- _]; done|].
  destruct ((c =? 43) || (c =? 45)); [|by eexists]. destruct (_ <? _)%nat; [by eexists|]. destruct (number b (i + 1) 2) as [oh|]; cbn [question]; [|by eexists]. destruct (expect _ _ _); cbn [question]; [|by eexists].
  destruct (number b (i + 4) 2) as [om|]; cbn [question]; [|by eexists]. destruct (59 <? om); [by eexists|]. cbv zeta. destruct (from_minutes _) as [o|] eqn:Ho; cbn [question]; [|by eexists].
  eexists. split; [done|]. intros o' n [= <- _]. by eapply from_minutes_ok.
Qed.

(** Whatever the bytes, reading answers, and what it accepts is a date and an offset. *)
Lemma parse_total b : exists r, parse_rfc3339_bytes b = Done r /\ forall d, r = Ok d -> datetime_ok d.
Proof.
  unfold parse_rfc3339_bytes. destruct (Nat.ltb_spec (length b) 20) as [|Hlen]; [by eexists|].
  repeat match goal with
    | |- context [question (number b ?i ?n) _] => destruct (number b i n); cbn [question]; [|by eexists]
    | |- context [question (expect b ?i ?c) _] => destruct (expect b i c); cbn [question]; [|by eexists]
    | |- context [index b 10] => destruct (index_total b 10 ltac:(lia)) as [sep ->]; cbn [mbind run_bind]; destruct (negb _); [by eexists|]
    end.
  destruct (_ =? 60); [by eexists|]. assert (Hf : exists r, skip_fraction b = Done r) by (unfold skip_fraction; destruct (index_total b 19 ltac:(lia)) as [x ->]; cbn [mbind run_bind]; destruct (x =? 46); eauto).
  destruct Hf as [[i|e] ->]; cbn [question mbind run_bind]; [|by eexists]. destruct (Nat.leb_spec (length b) i) as [|Hi]; [by eexists|]. destruct (parse_offset_total b i Hi) as (r & -> & Ho). cbn [mbind run_bind].
  destruct r as [[o n]|]; cbn [question]; [|by eexists]. destruct (negb _); [by eexists|]. destruct (civil_new _ _ _ _ _ _) as [c|] eqn:Hc; cbn [question]; [|by eexists]. eexists. split; [done|].
  intros d [= <-]. split; [|by eapply Ho]. eapply civil_new_valid in Hc as [Hc _]; [done|apply wrap_range; lia..].
Qed.

(** ** What is promised *)

(** Unix seconds and civil dates convert both ways without loss. Every valid date and
    time of the years 0000 to 9999 comes back from its timestamp; every timestamp of the
    supported range, also before 1970, gives a valid date and time whose timestamp it is;
    every other timestamp is refused as out of range. *)
Theorem dates_round_trip :
  (forall y mo d h mi s c, 0 <= d -> 0 <= h -> 0 <= mi -> 0 <= s -> civil_new y mo d h mi s = Ok c -> civil_from_unix (civil_to_unix c) = Ok c) /\
  (forall secs, MIN_TIMESTAMP <= secs <= MAX_TIMESTAMP -> exists c, civil_from_unix secs = Ok c /\ civil_to_unix c = secs /\
     civil_new (year c) (month c) (day c) (hour c) (minute c) (second c) = Ok c) /\
  (forall secs, secs < MIN_TIMESTAMP \/ MAX_TIMESTAMP < secs -> civil_from_unix secs = Err OutOfRange).
Proof.
  split_and!.
  - intros y mo d h mi s c Hd Hh Hmi Hs Hc. eapply civil_new_valid in Hc as [Hc _]; [|done..]. by apply unix_of_civil.
  - intros secs Hs. destruct (civil_of_unix secs Hs) as (c & H1 & H2 & H3). exists c. split_and!; [done|done|by apply civil_new_ok].
  - intros secs Hs. unfold civil_from_unix. destruct (Z.ltb_spec secs MIN_TIMESTAMP); [done|]. by destruct (Z.ltb_spec MAX_TIMESTAMP secs); [|lia].
Qed.

Lemma dates_round_trip_witness : civil_from_unix (civil_to_unix (MkCivil 1969 2 28 23 59 59)) = Ok (MkCivil 1969 2 28 23 59 59).
Proof. destruct dates_round_trip as [H _]. apply (H 1969 2 28 23 59 59); [lia..|reflexivity]. Defined.

(** The closed-form day number counts the days of the calendar one by one: 1 January
    1970 is day 0, and the day after a date, by the lengths of the months and the leap-year
    rule, has the next number. The weekday goes round with it from a Thursday. *)
Theorem day_numbers_count_days : days_from_civil 1970 1 1 = 0 /\ from_days 0 = Thursday /\
  (forall y m d l, days_in_month y m = Some l -> 1 <= d <= l ->
     let '(y', m', d') := next_day y m d in
     days_from_civil y' m' d' = days_from_civil y m d + 1 /\ (exists l', days_in_month y' m' = Some l' /\ 1 <= d' <= l') /\
     iso_number (from_days (days_from_civil y' m' d')) = iso_number (from_days (days_from_civil y m d)) mod 7 + 1).
Proof.
  split; [done|]. split; [done|]. intros y m d l Hl Hd. pose proof (next_day_ok y m d (ex_intro _ l (conj Hl Hd))) as Hn. destruct (next_day y m d) as [[y' m'] d']. destruct Hn as [Hok Hn]. split; [done|]. split; [done|].
  rewrite Hn. generalize (days_from_civil y m d) as n. intros n. unfold from_days. replace (n + 1 + 4) with (n + 4 + 1) by lia. rewrite <- (Zplus_mod_idemp_l (n + 4) 1 7).
  assert (Hr : 0 <= (n + 4) mod 7 < 7) by (apply Z.mod_pos_bound; lia). assert ((n + 4) mod 7 = 0 \/ (n + 4) mod 7 = 1 \/ (n + 4) mod 7 = 2 \/ (n + 4) mod 7 = 3 \/ (n + 4) mod 7 = 4 \/ (n + 4) mod 7 = 5 \/ (n + 4) mod 7 = 6) as Hc by lia.
  repeat destruct Hc as [->|Hc]; try reflexivity. by rewrite Hc.
Qed.

Lemma day_numbers_count_days_witness : days_from_civil 2000 3 1 = days_from_civil 2000 2 29 + 1.
Proof. destruct day_numbers_count_days as (_ & _ & H). apply (H 2000 2 29 29); [reflexivity|lia]. Defined.

(** C35: A printed timestamp is read back as the same date, time and offset: for every
    valid civil time and every offset under a day, the RFC 3339 text fits the buffer and
    parses to the value it was printed from. Reading is total: on any bytes whatever it
    answers without a panic, and what it accepts is a valid date, time and offset. *)
Theorem timestamps_are_read_back :
  (forall secs o m d, from_minutes m = Ok o -> from_unix secs o = Ok d -> exists text, format d Rfc3339 = Done text /\ parse_rfc3339_bytes text = Done (Ok d) /\ to_unix d = secs) /\
  (forall b, exists r, parse_rfc3339_bytes b = Done r /\
     forall d, r = Ok d -> civil_new (year (civil d)) (month (civil d)) (day (civil d)) (hour (civil d)) (minute (civil d)) (second (civil d)) = Ok (civil d) /\ -1440 < minutes (offset d) < 1440).
Proof.
  split.
  - intros secs o m d Ho%from_minutes_ok Hd. unfold from_unix in Hd. destruct (negb _); [done|]. destruct (civil_from_unix (secs + seconds o)) as [c|] eqn:Hc; [|done]. injection Hd as <-.
    assert (Hr : MIN_TIMESTAMP <= secs + seconds o <= MAX_TIMESTAMP).
    { unfold civil_from_unix in Hc. destruct (Z.ltb_spec (secs + seconds o) MIN_TIMESTAMP); [done|]. destruct (Z.ltb_spec MAX_TIMESTAMP (secs + seconds o)); [done|lia]. }
    destruct (civil_of_unix _ Hr) as (c' & Hc' & Hok & Hu). assert (c' = c) as -> by congruence. exists (rfc3339_text (MkDateTime c o)). split_and!; [by apply format_rfc3339|by apply parse_printed|].
    unfold to_unix. cbn [civil offset]. lia.
  - intros b. destruct (parse_total b) as (r & Hr & Hok). exists r. split; [done|]. intros d Hd. destruct (Hok d Hd) as [Hc Ho]. split; [by apply civil_new_ok|done].
Qed.

Lemma timestamps_are_read_back_witness : exists text, format (MkDateTime (MkCivil 1969 12 31 16 0 0) (MkOffset (-480))) Rfc3339 = Done text /\ parse_rfc3339_bytes text = Done (Ok (MkDateTime (MkCivil 1969 12 31 16 0 0) (MkOffset (-480)))).
Proof. destruct timestamps_are_read_back as [H _]. destruct (H 0 (MkOffset (-480)) (-480) (MkDateTime (MkCivil 1969 12 31 16 0 0) (MkOffset (-480)))) as (text & H1 & H2 & _); [vm_compute; reflexivity|vm_compute; reflexivity|]. exists text. split; [exact H1|exact H2]. Defined.

(** Without overflow checks an offset of 71,582,789 hours is taken for 44 minutes. *)
Lemma from_hm_wraps : from_hm false 71582789 0 = Done (Ok (MkOffset 44)) /\ from_hm true 71582789 0 = Panicked.
Proof. by vm_compute. Qed.
End Calendar.
