(* ===== verification/LineEditor.v ===== *)
(** * The line editor (crates/line_editor)

    The terminal's line discipline: a line edited in place with a cursor, a kill
    buffer and a history, and the bytes sent to the terminal so that it shows what
    the line holds. [Module LineEditor] holds the editor as the code has it ([LineDisc]
    and its operations, the bytes sent passed along), a terminal that follows those
    bytes ([Screen]), and a reference editor ([View]: what stands before the cursor, after
    it, and what was cut last), then the queue of raw bytes, the expansion of a client's
    output and the request word. *)

From S2P Require Import Prelude.
Local Open Scope Z_scope.

Module LineEditor.

Definition LINE_MAX : nat := Z.to_nat 256.
Definition HIST : nat := 8.
Definition PROMPT_MAX : nat := 64.

Definition BS : Z := 0x08.
Definition BEL : Z := 0x07.
Definition ESC : Z := 0x1b.

Inductive Event := NoEvent | Line | Eof | Interrupt | Tab.

Inductive EscState := Idle | Esc | Csi (p0 p1 : Z) (n : nat) | Ss3.

Record LineDisc := MkLineDisc {
  buf : list Z; len : nat; cur : nat;
  done_buf : list Z; done_len : nat;
  kill : list Z; kill_len : nat;
  hist : list (list Z * nat); hist_count : nat; hist_next : nat;
  browse : option nat;
  stash : list Z; stash_len : nat; stash_cur : nat;
  prompt : list Z; prompt_len : nat;
  esc : EscState; last_was_cr : bool }.

Definition set_text (b : list Z) (l c : nat) (s : LineDisc) : LineDisc :=
  MkLineDisc b l c (done_buf s) (done_len s) (kill s) (kill_len s) (hist s) (hist_count s) (hist_next s) (browse s) (stash s) (stash_len s) (stash_cur s) (prompt s) (prompt_len s) (esc s) (last_was_cr s).
Definition set_cur (c : nat) (s : LineDisc) : LineDisc := set_text (buf s) (len s) c s.
Definition set_done (b : list Z) (l : nat) (s : LineDisc) : LineDisc :=
  MkLineDisc (buf s) (len s) (cur s) b l (kill s) (kill_len s) (hist s) (hist_count s) (hist_next s) (browse s) (stash s) (stash_len s) (stash_cur s) (prompt s) (prompt_len s) (esc s) (last_was_cr s).
Definition set_kill (b : list Z) (l : nat) (s : LineDisc) : LineDisc :=
  MkLineDisc (buf s) (len s) (cur s) (done_buf s) (done_len s) b l (hist s) (hist_count s) (hist_next s) (browse s) (stash s) (stash_len s) (stash_cur s) (prompt s) (prompt_len s) (esc s) (last_was_cr s).
Definition set_hist (h : list (list Z * nat)) (c n : nat) (s : LineDisc) : LineDisc :=
  MkLineDisc (buf s) (len s) (cur s) (done_buf s) (done_len s) (kill s) (kill_len s) h c n (browse s) (stash s) (stash_len s) (stash_cur s) (prompt s) (prompt_len s) (esc s) (last_was_cr s).
Definition set_browse (k : option nat) (s : LineDisc) : LineDisc :=
  MkLineDisc (buf s) (len s) (cur s) (done_buf s) (done_len s) (kill s) (kill_len s) (hist s) (hist_count s) (hist_next s) k (stash s) (stash_len s) (stash_cur s) (prompt s) (prompt_len s) (esc s) (last_was_cr s).
Definition set_stash (b : list Z) (l c : nat) (s : LineDisc) : LineDisc :=
  MkLineDisc (buf s) (len s) (cur s) (done_buf s) (done_len s) (kill s) (kill_len s) (hist s) (hist_count s) (hist_next s) (browse s) b l c (prompt s) (prompt_len s) (esc s) (last_was_cr s).
Definition set_prompt (b : list Z) (l : nat) (s : LineDisc) : LineDisc :=
  MkLineDisc (buf s) (len s) (cur s) (done_buf s) (done_len s) (kill s) (kill_len s) (hist s) (hist_count s) (hist_next s) (browse s) (stash s) (stash_len s) (stash_cur s) b l (esc s) (last_was_cr s).
Definition set_esc (e : EscState) (s : LineDisc) : LineDisc :=
  MkLineDisc (buf s) (len s) (cur s) (done_buf s) (done_len s) (kill s) (kill_len s) (hist s) (hist_count s) (hist_next s) (browse s) (stash s) (stash_len s) (stash_cur s) (prompt s) (prompt_len s) e (last_was_cr s).
Definition set_cr (b : bool) (s : LineDisc) : LineDisc :=
  MkLineDisc (buf s) (len s) (cur s) (done_buf s) (done_len s) (kill s) (kill_len s) (hist s) (hist_count s) (hist_next s) (browse s) (stash s) (stash_len s) (stash_cur s) (prompt s) (prompt_len s) (esc s) b.

Definition new : LineDisc :=
  let z := replicate LINE_MAX 0 in
  MkLineDisc z 0 0 z 0 z 0 (replicate HIST (z, 0%nat)) 0 0 None z 0 0 (replicate PROMPT_MAX 0) 0 Idle false.

(** ** Slices *)

(** [a - b] on [usize]. *)
Definition minus (a b : nat) : run nat := if (b <=? a)%nat then Done (a - b)%nat else Panicked.

(** [&l[a..b]]. *)
Definition slice (l : list Z) (a b : nat) : run (list Z) := if ((a <=? b) && (b <=? length l))%nat then Done (take (b - a) (drop a l)) else Panicked.

(** [dst[at..at + src.len()].copy_from_slice(src)]. *)
Definition copy_in (dst : list Z) (at_ : nat) (src : list Z) : run (list Z) := if (at_ + length src <=? length dst)%nat then Done (take at_ dst ++ src ++ drop (at_ + length src) dst) else Panicked.

(** [l.copy_within(a..b, to)]. *)
Definition copy_within (l : list Z) (a b to : nat) : run (list Z) := src ← slice l a b; copy_in l to src.

Definition index (h : list (list Z * nat)) (i : nat) : run (list Z * nat) := match h !! i with Some e => Done e | None => Panicked end.

(** ** What is sent to the terminal

    The bytes put so far are passed along and added to. *)

Fixpoint digits (cap : nat) (v : nat) : run (list Z) :=
  match cap with
  | O => Panicked
  | S cap' => if (v =? 0)%nat then Done [] else rest ← digits cap' (v / 10)%nat; Done (rest ++ [48 + Z.of_nat (v mod 10)%nat])
  end.

(** The buffer of the sequence has room for eight digits. *)
Definition csi_move (n : nat) (dir : Z) (o : list Z) : run (list Z) :=
  if (n =? 0)%nat then Done o
  else if (n =? 1)%nat then Done (o ++ [ESC; 91; dir])
  else ds ← digits 9 n; Done (o ++ ESC :: 91 :: ds ++ [dir]).

Definition csi_left (n : nat) (o : list Z) : run (list Z) := csi_move n 68 o.
Definition csi_right (n : nat) (o : list Z) : run (list Z) := csi_move n 67 o.

Definition ERASE : list Z := [ESC; 91; 75].

(** ** Editing *)

(** The line so far and where the cursor is. *)
Definition pending (s : LineDisc) : run (list Z * nat) := t ← slice (buf s) 0 (len s); Done (t, cur s).

Definition abandon (s : LineDisc) : LineDisc := set_browse None (set_text (buf s) 0 0 s).

Definition insert (b : Z) (s : LineDisc) (o : list Z) : run (LineDisc * list Z) :=
  if (LINE_MAX <=? len s)%nat then Done (s, o ++ [BEL])
  else
    b1 ← copy_within (buf s) (cur s) (len s) (S (cur s));
    b2 ← copy_in b1 (cur s) [b];
    let s1 := set_text b2 (S (len s)) (S (cur s)) s in
    if (cur s1 =? len s1)%nat then Done (s1, o ++ [b])
    else
      tail ← slice b2 (cur s1 - 1) (len s1);
      n ← minus (len s1) (cur s1);
      o1 ← csi_left n (o ++ tail); Done (s1, o1).

Fixpoint insert_text (text : list Z) (s : LineDisc) (o : list Z) : run (LineDisc * list Z) :=
  match text with
  | [] => Done (s, o)
  | b :: rest => '(s1, o1) ← (if between 0x20 0x7e b then insert b s o else Done (s, o)); insert_text rest s1 o1
  end.

Definition delete_range (a b : nat) (s : LineDisc) (o : list Z) : run (LineDisc * list Z) :=
  if negb ((a <=? b) && (b <=? len s) && (a <=? cur s))%nat then Panicked
  else
    removed ← minus b a;
    if (removed =? 0)%nat then Done (s, o)
    else
      let old_cur := cur s in
      b1 ← copy_within (buf s) b (len s) a;
      l1 ← minus (len s) removed;
      c1 ← (if (b <=? old_cur)%nat then minus old_cur removed else Done (Nat.min old_cur a));
      let s1 := set_text b1 l1 c1 s in
      n ← minus old_cur a;
      o1 ← csi_left n o;
      tail ← slice b1 a l1;
      n2 ← minus l1 c1;
      o2 ← csi_left n2 (o1 ++ tail ++ ERASE); Done (s1, o2).

Definition backspace (s : LineDisc) (o : list Z) : run (LineDisc * list Z) :=
  if (cur s =? 0)%nat then Done (s, o) else delete_range (cur s - 1) (cur s) s o.

Definition delete_at (s : LineDisc) (o : list Z) : run (LineDisc * list Z) :=
  if (cur s =? len s)%nat then Done (s, o) else delete_range (cur s) (S (cur s)) s o.

Definition yank (s : LineDisc) (o : list Z) : run (LineDisc * list Z) :=
  room ← minus LINE_MAX (len s);
  let n := Nat.min (kill_len s) room in
  if (n =? 0)%nat then Done (s, if (0 <? kill_len s)%nat then o ++ [BEL] else o)
  else
    b1 ← copy_within (buf s) (cur s) (len s) (cur s + n);
    k ← slice (kill s) 0 n;
    b2 ← copy_in b1 (cur s) k;
    let s1 := set_text b2 (len s + n) (cur s + n) s in
    tail ← slice b2 (cur s1 - n) (len s1);
    m ← minus (len s1) (cur s1);
    o1 ← csi_left m (o ++ tail); Done (s1, o1).

Definition left (s : LineDisc) (o : list Z) : LineDisc * list Z :=
  if (0 <? cur s)%nat then (set_cur (cur s - 1) s, o ++ [BS]) else (s, o).

Definition right (s : LineDisc) (o : list Z) : LineDisc * list Z :=
  if (cur s <? len s)%nat then (set_cur (S (cur s)) s, o ++ [ESC; 91; 67]) else (s, o).

Definition home (s : LineDisc) (o : list Z) : run (LineDisc * list Z) := o1 ← csi_left (cur s) o; Done (set_cur 0 s, o1).

Definition end_ (s : LineDisc) (o : list Z) : run (LineDisc * list Z) := n ← minus (len s) (cur s); o1 ← csi_right n o; Done (set_cur (len s) s, o1).

Definition replace_line (text : list Z) (s : LineDisc) (o : list Z) : run (LineDisc * list Z) :=
  o1 ← csi_left (cur s) o;
  let n := Nat.min (length text) LINE_MAX in
  b1 ← copy_in (buf s) 0 (take n text);
  shown ← slice b1 0 n;
  Done (set_text b1 n n s, o1 ++ shown ++ ERASE).

(** ** History *)

Definition hist_prev (s : LineDisc) (o : list Z) : run (LineDisc * list Z) :=
  let go k s :=
    i ← minus (hist_next s + HIST) k;
    '(entry, elen) ← index (hist s) (i mod HIST)%nat;
    text ← slice entry 0 elen;
    replace_line text (set_browse (Some k) s) o in
  match browse s with
  | None =>
      if (hist_count s =? 0)%nat then Done (s, o ++ [BEL])
      else
        line ← slice (buf s) 0 (len s);
        st ← copy_in (stash s) 0 line;
        go 1%nat (set_stash st (len s) (cur s) s)
  | Some k => if (k <? hist_count s)%nat then go (S k) s else Done (s, o ++ [BEL])
  end.

Definition hist_next_entry (s : LineDisc) (o : list Z) : run (LineDisc * list Z) :=
  match browse s with
  | None => Done (s, o ++ [BEL])
  | Some 1%nat =>
      text ← slice (stash s) 0 (stash_len s);
      '(s1, o1) ← replace_line text (set_browse None s) o;
      n ← minus (stash_len s) (stash_cur s);
      o2 ← csi_left n o1; Done (set_cur (stash_cur s) s1, o2)
  | Some k =>
      k1 ← minus k 1;
      i ← minus (hist_next s + HIST) k1;
      '(entry, elen) ← index (hist s) (i mod HIST)%nat;
      text ← slice entry 0 elen;
      replace_line text (set_browse (Some k1) s) o
  end.

Definition repeats_newest (s : LineDisc) : run bool :=
  if (hist_count s =? 0)%nat then Done false
  else
    '(entry, elen) ← index (hist s) ((hist_next s + HIST - 1) mod HIST)%nat;
    if negb (elen =? len s)%nat then Done false
    else x ← slice entry 0 elen; y ← slice (buf s) 0 (len s); Done (bool_decide (x = y)).

Definition finish_line (s : LineDisc) (o : list Z) : run (Event * LineDisc * list Z) :=
  let o1 := o ++ [13; 10] in
  line ← slice (buf s) 0 (len s);
  d ← copy_in (done_buf s) 0 line;
  let s1 := set_done d (len s) s in
  same ← repeats_newest s1;
  s2 ← (if ((0 <? len s1)%nat && negb same)%bool then
          '(entry, _) ← index (hist s1) (hist_next s1);
          e ← copy_in entry 0 line;
          Done (set_hist (<[hist_next s1 := (e, len s1)]> (hist s1)) (Nat.min (S (hist_count s1)) HIST) (S (hist_next s1) mod HIST)%nat s1)
        else Done s1);
  Done (Line, set_prompt (prompt s2) 0 (set_browse None (set_text (buf s2) 0 0 s2)), o1).

(** ** Keys *)

Definition csi_final (b p : Z) (s : LineDisc) (o : list Z) : run (Event * LineDisc * list Z) :=
  let quiet (r : run (LineDisc * list Z)) := '(s1, o1) ← r; Done (NoEvent, s1, o1) in
  if b =? 68 then quiet (Done (left s o))
  else if b =? 67 then quiet (Done (right s o))
  else if b =? 65 then quiet (hist_prev s o)
  else if b =? 66 then quiet (hist_next_entry s o)
  else if (b =? 72) || ((b =? 126) && ((p =? 1) || (p =? 7))) then quiet (home s o)
  else if (b =? 70) || ((b =? 126) && ((p =? 4) || (p =? 8))) then quiet (end_ s o)
  else if (b =? 126) && (p =? 3) then quiet (delete_at s o)
  else Done (NoEvent, s, o).

(** A digit of a parameter: the multiplication saturates at 16 bits, the addition
    does not; [checks] tells a build with overflow checks from one that wraps. *)
Definition add_digit (checks : bool) (p b : Z) : run Z :=
  let v := saturating_mul 16 p 10 + (b - 48) in
  if v <? 2 ^ 16 then Done v else if checks then Panicked else Done (wrap 16 v).

Definition feed_csi (checks : bool) (p0 p1 : Z) (n : nat) (b : Z) (s : LineDisc) (o : list Z) : run (Event * LineDisc * list Z) :=
  if between 48 57 b then
    if (n =? 0)%nat then p ← add_digit checks p0 b; Done (NoEvent, set_esc (Csi p p1 n) s, o)
    else p ← add_digit checks p1 b; Done (NoEvent, set_esc (Csi p0 p n) s, o)
  else if b =? 59 then Done (NoEvent, set_esc (Csi p0 p1 (S n)) s, o)
  else if between 0x40 0x7e b then csi_final b p0 s o
  else Done (NoEvent, s, o).

(** Back over the spaces before the cursor, then over the word. *)
Fixpoint back_while (p : Z -> bool) (l : list Z) (a : nat) : nat :=
  match a with
  | O => O
  | S a' => match l !! a' with Some b => if p b then back_while p l a' else a | None => a end
  end.

Definition word_start (s : LineDisc) : nat := back_while (fun b => negb (b =? 32)) (buf s) (back_while (fun b => b =? 32) (buf s) (cur s)).

Definition feed_key (b : Z) (s : LineDisc) (o : list Z) : run (Event * LineDisc * list Z) :=
  let quiet (r : run (LineDisc * list Z)) := '(s1, o1) ← r; Done (NoEvent, s1, o1) in
  if b =? ESC then Done (NoEvent, set_esc Esc s, o)
  else if (b =? 13) || (b =? 10) then finish_line (set_cr (b =? 13) s) o
  else if b =? 0x03 then Done (Interrupt, abandon s, o ++ [94; 67; 13; 10])
  else if b =? 9 then Done (Tab, s, o)
  else if b =? 0x04 then if (len s =? 0)%nat then Done (Eof, s, o) else quiet (delete_at s o)
  else if b =? 0x01 then quiet (home s o)
  else if b =? 0x05 then quiet (end_ s o)
  else if b =? 0x02 then quiet (Done (left s o))
  else if b =? 0x06 then quiet (Done (right s o))
  else if b =? 0x0b then
    t ← slice (buf s) (cur s) (len s);
    k ← copy_in (kill s) 0 t;
    n ← minus (len s) (cur s);
    quiet (Done (set_text (buf s) (cur s) (cur s) (set_kill k n s), o ++ ERASE))
  else if b =? 0x15 then
    t ← slice (buf s) 0 (cur s);
    k ← copy_in (kill s) 0 t;
    quiet (delete_range 0 (cur s) (set_kill k (cur s) s) o)
  else if b =? 0x17 then
    let a := word_start s in
    t ← slice (buf s) a (cur s);
    k ← copy_in (kill s) 0 t;
    n ← minus (cur s) a;
    quiet (delete_range a (cur s) (set_kill k n s) o)
  else if b =? 0x19 then quiet (yank s o)
  else if b =? 0x0c then
    p ← slice (prompt s) 0 (prompt_len s);
    t ← slice (buf s) 0 (len s);
    n ← minus (len s) (cur s);
    o1 ← csi_left n (o ++ [ESC; 91; 50; 74; ESC; 91; 72] ++ p ++ t);
    Done (NoEvent, s, o1)
  else if (b =? BS) || (b =? 0x7f) then quiet (backspace s o)
  else if between 0x20 0x7e b then quiet (insert b s o)
  else Done (NoEvent, s, o).

Definition feed (checks : bool) (b : Z) (s : LineDisc) (o : list Z) : run (Event * LineDisc * list Z) :=
  let was_cr := last_was_cr s in
  let s0 := set_cr false s in
  if (b =? 10) && was_cr then Done (NoEvent, s0, o)
  else
    let s1 := set_esc Idle s0 in
    match esc s0 with
    | Idle => feed_key b s1 o
    | Esc => Done (NoEvent, if b =? 91 then set_esc (Csi 0 0 0) s1 else if b =? 79 then set_esc Ss3 s1 else s1, o)
    | Csi p0 p1 n => feed_csi checks p0 p1 n b s1 o
    | Ss3 => csi_final b 0 s1 o
    end.

(** ** Starting a line *)

Definition line (s : LineDisc) : list Z := take (done_len s) (done_buf s).

Definition resume_line (p : list Z) (s : LineDisc) : run LineDisc :=
  let n := Nat.min (length p) PROMPT_MAX in
  b ← copy_in (prompt s) 0 (take n p); Done (set_prompt b n s).

Definition repaint (s : LineDisc) (o : list Z) : run (LineDisc * list Z) :=
  p ← slice (prompt s) 0 (prompt_len s);
  t ← slice (buf s) 0 (len s);
  n ← minus (len s) (cur s);
  o1 ← csi_left n (o ++ p ++ t); Done (s, o1).

Definition start_line (p : list Z) (s : LineDisc) (o : list Z) : run (LineDisc * list Z) := s1 ← resume_line p s; repaint s1 o.

(** ** What a terminal shows

    The row the cursor is in, on a terminal [width] columns wide. A row is left by a line
    feed, by printing in its last column, and cleared with the screen. *)

Inductive TermState := Plain | Escape | Param (n : nat).

Record Screen := MkScreen { row : list Z; col : nat; term : TermState }.

Definition printable (b : Z) : bool := between 0x20 0x7e b.

Abbreviation all_printable := (Forall (fun b => printable b = true)).

Section Terminal.
Variable width : nat.

Definition show (scr : Screen) (b : Z) : Screen :=
  match term scr with
  | Plain =>
      if b =? ESC then MkScreen (row scr) (col scr) Escape
      else if printable b then
        if (S (col scr) <? width)%nat then MkScreen (take (col scr) (row scr) ++ replicate (col scr - length (row scr)) 32 ++ b :: drop (S (col scr)) (row scr)) (S (col scr)) Plain
        else MkScreen [] 0 Plain
      else if b =? BS then MkScreen (row scr) (col scr - 1) Plain
      else if b =? 13 then MkScreen (row scr) 0 Plain
      else if b =? 10 then MkScreen [] (col scr) Plain
      else scr
  | Escape => MkScreen (row scr) (col scr) (if b =? 91 then Param 0 else Plain)
  | Param n =>
      if between 48 57 b then MkScreen (row scr) (col scr) (Param (10 * n + Z.to_nat (b - 48)))
      else if b =? 68 then MkScreen (row scr) (col scr - Nat.max 1 n) Plain
      else if b =? 67 then MkScreen (row scr) (Nat.min (col scr + Nat.max 1 n) (width - 1)) Plain
      else if b =? 75 then MkScreen (take (col scr) (row scr)) (col scr) Plain
      else if b =? 74 then MkScreen [] (col scr) Plain
      else if b =? 72 then MkScreen (row scr) 0 Plain
      else MkScreen (row scr) (col scr) Plain
  end.

Definition show_all (e : list Z) (scr : Screen) : Screen := foldl show scr e.

Lemma show_app e e' scr : show_all (e ++ e') scr = show_all e' (show_all e scr).
Proof. apply foldl_app. Qed.

Lemma printable_spec b : printable b = true <-> 32 <= b <= 126.
Proof. unfold printable, between. rewrite andb_true_iff, !Z.leb_le. done. Qed.

Lemma show_text l : forall r c, Forall (fun b => printable b = true) l -> (c <= length r)%nat -> (c + length l < width)%nat ->
  show_all l (MkScreen r c Plain) = MkScreen (take c r ++ l ++ drop (c + length l) r) (c + length l) Plain.
Proof.
  induction l as [|b l IH]; intros r c Hl Hc Hw; [cbn; by rewrite Nat.add_0_r, take_drop|]. apply Forall_cons in Hl as [Hb Hl]. cbn [show_all foldl]. fold (show_all l (show (MkScreen r c Plain) b)).
  unfold show. cbn [term row col]. pose proof (proj1 (printable_spec b) Hb) as Hr. destruct (Z.eqb_spec b ESC) as [He|_]; [unfold ESC in He; lia|]. rewrite Hb. cbn [length] in Hw. destruct (Nat.ltb_spec (S c) width); [|lia]. replace (c - length r)%nat with 0%nat by lia. cbn [replicate app].
  rewrite IH; [|done|rewrite length_app, length_take; cbn; lia|lia]. assert (Hlt : length (take c r) = c) by (rewrite length_take; lia). f_equal; [|cbn; lia].
  replace (take c r ++ b :: drop (S c) r) with ((take c r ++ [b]) ++ drop (S c) r) by (by rewrite <- app_assoc). rewrite take_app_length' by (rewrite length_app, Hlt; cbn; lia). rewrite <- app_assoc. cbn [app]. f_equal. f_equal. f_equal.
  rewrite drop_app_ge by (rewrite length_app, Hlt; cbn; lia). rewrite drop_drop, length_app, Hlt. f_equal. cbn. lia.
Qed.

Lemma show_digits cap : forall n ds r c, digits cap n = Done ds -> show_all ds (MkScreen r c (Param 0)) = MkScreen r c (Param n).
Proof.
  induction cap as [|cap IH]; intros n ds r c Hd; [done|]. cbn [digits] in Hd. destruct (Nat.eqb_spec n 0) as [->|Hn]; [by injection Hd as <-|].
  destruct (digits cap (n / 10)) as [rest|] eqn:Hr; [|done]. assert (ds = rest ++ [48 + Z.of_nat (n mod 10)%nat]) as -> by (cbn [mbind run_bind] in Hd; congruence). rewrite show_app, (IH _ _ _ _ Hr). cbn [show_all foldl]. unfold show. cbn [term row col].
  assert (Hm : (n mod 10 < 10)%nat) by (apply Nat.mod_upper_bound; lia). unfold between. destruct (Z.leb_spec 48 (48 + Z.of_nat (n mod 10))); [|lia]. destruct (Z.leb_spec (48 + Z.of_nat (n mod 10)) 57); [|lia]. cbn [andb].
  assert ((10 * (n / 10) + Z.to_nat (48 + Z.of_nat (n mod 10) - 48))%nat = n) as ->; [|done].
  replace (48 + Z.of_nat (n mod 10) - 48) with (Z.of_nat (n mod 10)) by lia. rewrite Nat2Z.id. pose proof (Nat.div_mod_eq n 10). lia.
Qed.

Lemma digits_total cap : forall n, (n < 10 ^ cap)%nat -> exists ds, digits (S cap) n = Done ds.
Proof.
  induction cap as [|cap IH]; intros n Hn; [cbn in Hn; assert (n = 0%nat) as -> by lia; by eexists|]. change (digits (S (S cap)) n) with (if (n =? 0)%nat then Done [] else rest ← digits (S cap) (n / 10)%nat; Done (rest ++ [48 + Z.of_nat (n mod 10)%nat])).
  destruct (Nat.eqb_spec n 0); [by eexists|]. destruct (IH (n / 10)%nat) as [ds ->]; [apply Nat.Div0.div_lt_upper_bound; cbn in Hn; lia|]. by eexists.
Qed.

(** A move is an escape sequence the terminal follows. *)
Lemma move_shown n dir o : (n <= 1000)%nat -> dir = 68 \/ dir = 67 -> exists e, csi_move n dir o = Done (o ++ e) /\
  forall r c, (dir = 67 -> (c + n < width)%nat) -> show_all e (MkScreen r c Plain) = MkScreen r (if (dir =? 68)%Z then (c - n)%nat else (c + n)%nat) Plain.
Proof.
  intros Hn Hdir. unfold csi_move. destruct (Nat.eqb_spec n 0) as [->|H0]; [exists []; split; [by rewrite app_nil_r|]; intros r c _; cbn; destruct (dir =? 68); f_equal; lia|].
  destruct (Nat.eqb_spec n 1) as [->|H1]; [eexists; split; [done|]; intros r c Hw; destruct Hdir as [-> | ->]; [done|]; specialize (Hw eq_refl); cbn; f_equal; lia|]. destruct (digits_total 8 n) as [ds Hds]; [apply (Nat.le_lt_trans _ 1000); [done|by apply Nat.ltb_lt]|]. rewrite Hds. cbn [mbind run_bind].
  eexists. split; [done|]. intros r c Hw. change (show_all (ESC :: 91 :: ds ++ [dir]) (MkScreen r c Plain)) with (show_all (ds ++ [dir]) (MkScreen r c (Param 0))). rewrite show_app, (show_digits _ _ _ _ _ Hds).
  destruct Hdir as [-> | ->]; [|specialize (Hw eq_refl)]; cbn [show_all foldl show term row col between Z.leb Z.eqb Z.compare Pos.compare Pos.compare_cont Pos.eqb andb]; f_equal; lia.
Qed.

(** ** The invariant *)

Definition text (s : LineDisc) : list Z := take (len s) (buf s).

(** An array and how much of it is used. *)
Definition array_ok (b : list Z) (l : nat) : Prop := length b = LINE_MAX /\ (l <= LINE_MAX)%nat /\ all_printable (take l b).

Record rest_ok (s : LineDisc) : Prop := {
  ro_done : length (done_buf s) = LINE_MAX;
  ro_kill : array_ok (kill s) (kill_len s);
  ro_hist : length (hist s) = HIST /\ forall i e l, hist s !! i = Some (e, l) -> array_ok e l;
  ro_count : (hist_count s <= HIST)%nat /\ (hist_next s < HIST)%nat;
  ro_browse : forall k, browse s = Some k -> (1 <= k <= hist_count s)%nat;
  ro_stash : array_ok (stash s) (stash_len s) /\ (stash_cur s <= stash_len s)%nat;
  ro_prompt : length (prompt s) = PROMPT_MAX /\ (prompt_len s <= PROMPT_MAX)%nat }.

Definition line_ok (s : LineDisc) : Prop := array_ok (buf s) (len s) /\ (cur s <= len s)%nat /\ rest_ok s.

Lemma rest_text b l c s : rest_ok s -> rest_ok (set_text b l c s).
Proof. by intros []. Qed.

Lemma length_text s : line_ok s -> length (text s) = len s.
Proof. intros [(Hb & Hl & _) _]. unfold text. rewrite length_take. lia. Qed.

(** ** Slices of the buffer *)

Lemma minus_le a b : (b <= a)%nat -> minus a b = Done (a - b)%nat.
Proof. intros Hb. unfold minus. by destruct (Nat.leb_spec b a); [|lia]. Qed.

Lemma slice_in l a b : (a <= b)%nat -> (b <= length l)%nat -> slice l a b = Done (take (b - a) (drop a l)).
Proof. intros Ha Hb. unfold slice. destruct (Nat.leb_spec a b); [|lia]. by destruct (Nat.leb_spec b (length l)); [|lia]. Qed.

Lemma slice_start l n : (n <= length l)%nat -> slice l 0 n = Done (take n l).
Proof. intros Hn. rewrite slice_in by lia. by rewrite Nat.sub_0_r. Qed.

(** A slice inside the used part is one of it. *)
Lemma slice_used l n a b : (a <= b)%nat -> (b <= n)%nat -> (n <= length l)%nat -> slice l a b = Done (take (b - a) (drop a (take n l))).
Proof. intros Ha Hb Hn. rewrite slice_in by lia. rewrite skipn_firstn_comm, take_take. by rewrite Nat.min_l by lia. Qed.

Lemma copy_in_ok dst at_ src : (at_ + length src <= length dst)%nat -> copy_in dst at_ src = Done (take at_ dst ++ src ++ drop (at_ + length src) dst).
Proof. intros H. unfold copy_in. by destruct (Nat.leb_spec (at_ + length src) (length dst)); [|lia]. Qed.

Lemma copy_in_used dst at_ src n : (at_ + length src = n)%nat -> (n <= length dst)%nat -> exists b, copy_in dst at_ src = Done b /\ length b = length dst /\ take n b = take at_ dst ++ src.
Proof.
  intros Hn Hl. rewrite copy_in_ok by lia. eexists. split; [done|]. rewrite !length_app, !length_take, !length_drop. split; [lia|].
  rewrite app_assoc, take_app_le by (rewrite length_app, length_take; lia). by rewrite take_ge by (rewrite length_app, length_take; lia).
Qed.

(** Bytes are made room for and put at the cursor. *)
Lemma open_gap b l c u : (c <= l)%nat -> (l + length u <= length b)%nat ->
  exists b1 b2, copy_within b c l (c + length u) = Done b1 /\ copy_in b1 c u = Done b2 /\ length b2 = length b /\ take (l + length u) b2 = take c (take l b) ++ u ++ drop c (take l b).
Proof.
  intros Hc Hl. unfold copy_within. rewrite (slice_used b l c l) by lia. cbn [mbind run_bind]. set (t := take l b). assert (Ht : length t = l) by (unfold t; rewrite length_take; lia).
  rewrite (take_ge (drop c t)) by (rewrite length_drop; lia). assert (Hd : length (drop c t) = (l - c)%nat) by (rewrite length_drop; lia). rewrite copy_in_ok by lia. set (b1 := _ ++ _ ++ _).
  assert (H1 : length b1 = length b) by (unfold b1; rewrite !length_app, !length_take, !length_drop; lia). eexists b1, _. split; [done|]. rewrite copy_in_ok by lia. split; [done|].
  split; [rewrite !length_app, !length_take, !length_drop; lia|]. assert (Hb1 : drop (c + length u) b1 = drop c t ++ drop (c + length u + length (drop c t)) b).
  { unfold b1. by rewrite drop_app_length' by (rewrite length_take; lia). }
  rewrite Hb1. assert (take c b1 = take c t) as ->.
  { unfold b1. rewrite take_app_le by (rewrite length_take; lia). rewrite take_take. unfold t. rewrite take_take. f_equal. lia. }
  assert (Hlen : length (take c t ++ u ++ drop c t) = (l + length u)%nat) by (rewrite !length_app, !length_take; lia).
  replace (take c t ++ u ++ drop c t ++ drop (c + length u + length (drop c t)) b) with ((take c t ++ u ++ drop c t) ++ drop (c + length u + length (drop c t)) b) by (by rewrite <- !app_assoc).
  by rewrite take_app_length'.
Qed.

(** The bytes from [a] to [e] are closed over. *)
Lemma close_gap b l a e : (a <= e)%nat -> (e <= l)%nat -> (l <= length b)%nat ->
  exists b1, copy_within b e l a = Done b1 /\ length b1 = length b /\ take (l - (e - a)) b1 = take a (take l b) ++ drop e (take l b).
Proof.
  intros Ha He Hl. unfold copy_within. rewrite (slice_used b l e l) by lia. cbn [mbind run_bind]. set (t := take l b). assert (Ht : length t = l) by (unfold t; rewrite length_take; lia).
  rewrite (take_ge (drop e t)) by (rewrite length_drop; lia). destruct (copy_in_used b a (drop e t) (l - (e - a))) as (b1 & H1 & H2 & H3); [rewrite length_drop; lia|lia|]. exists b1. split; [done|]. split; [done|].
  rewrite H3. f_equal. unfold t. rewrite take_take. f_equal. lia.
Qed.

(** ** Edits and what they show *)

(** The row holds [q] and then the line, the cursor where the line's is. *)
Definition showing (q t : list Z) (c : nat) : Screen := MkScreen (q ++ t) (length q + c) Plain.

Definition killed (s : LineDisc) : list Z := take (kill_len s) (kill s).
Definition prompt_text (s : LineDisc) : list Z := take (prompt_len s) (prompt s).

(** What editing the line leaves alone. *)
Definition same_side (s s' : LineDisc) : Prop := prompt_text s' = prompt_text s /\ killed s' = killed s /\ esc s' = esc s /\ last_was_cr s' = last_was_cr s.

Lemma same_side_trans s1 s2 s3 : same_side s1 s2 -> same_side s2 s3 -> same_side s1 s3.
Proof. intros (A1 & A2 & A3 & A4) (B1 & B2 & B3 & B4). split_and!; congruence. Qed.

(** A line of [n] bytes after [q] keeps clear of the margin, the [^C] of an interrupt
    included. *)
Definition fits (q : list Z) (n : nat) : Prop := (length q + n + 2 < width)%nat.

(** The call completes with the line [t] and the cursor at [c], and a terminal that
    shows the line before and has room for both shows this one after. *)
Definition edits (s : LineDisc) (o : list Z) (r : run (LineDisc * list Z)) (t : list Z) (c : nat) : Prop :=
  exists s' e, r = Done (s', o ++ e) /\ line_ok s' /\ text s' = t /\ cur s' = c /\ same_side s s' /\
    forall q, fits q (Nat.max (length (text s)) (length t)) -> show_all e (showing q (text s) (cur s)) = showing q t c.

(** Printing over the line from the cursor on. *)
Lemma paint q t c u : (c <= length t)%nat -> all_printable u -> (length q + (c + length u) < width)%nat ->
  show_all u (showing q t c) = MkScreen (q ++ take c t ++ u ++ drop (c + length u) t) (length q + (c + length u)) Plain.
Proof.
  intros Hc Hu Hw. unfold showing. rewrite show_text; [|done|rewrite length_app; lia|lia]. f_equal; [|lia]. rewrite take_app_add, <- app_assoc. f_equal. f_equal. f_equal.
  rewrite <- Nat.add_assoc. by rewrite drop_app_add.
Qed.

Lemma left_shown n o : (n <= 1000)%nat -> exists e, csi_left n o = Done (o ++ e) /\ forall r c, show_all e (MkScreen r c Plain) = MkScreen r (c - n) Plain.
Proof. intros Hn. destruct (move_shown n 68 o Hn ltac:(by left)) as (e & H1 & H2). exists e. split; [done|]. intros r c. by apply H2. Qed.

Lemma right_shown n o : (n <= 1000)%nat -> exists e, csi_right n o = Done (o ++ e) /\ forall r c, (c + n < width)%nat -> show_all e (MkScreen r c Plain) = MkScreen r (c + n) Plain.
Proof. intros Hn. destruct (move_shown n 67 o Hn ltac:(by right)) as (e & H1 & H2). exists e. split; [done|]. intros r c Hw. by apply H2. Qed.

Lemma max_1000 n : (n <= LINE_MAX)%nat -> (n <= 1000)%nat.
Proof. intros Hn. etrans; [exact Hn|]. by apply Nat.leb_le. Qed.

Lemma edits_same s o : line_ok s -> edits s o (Done (s, o)) (text s) (cur s).
Proof. intros Hs. exists s, []. rewrite app_nil_r. split; [done|]. done. Qed.

Lemma edits_bell s o : line_ok s -> edits s o (Done (s, o ++ [BEL])) (text s) (cur s).
Proof. intros Hs. exists s, [BEL]. split; [done|]. done. Qed.

(** The line becomes [b], shown by what [u] prints from [a] on, with the rest erased. *)
Lemma line_set s b l c : line_ok s -> length b = LINE_MAX -> (l <= LINE_MAX)%nat -> (c <= l)%nat -> all_printable (take l b) -> line_ok (set_text b l c s).
Proof. intros (_ & _ & Hr) Hb Hl Hc Hp. split; [done|]. split; [done|]. by apply rest_text. Qed.

Lemma insert_ok b s o : line_ok s -> printable b = true -> (len s < LINE_MAX)%nat ->
  edits s o (insert b s o) (take (cur s) (text s) ++ b :: drop (cur s) (text s)) (S (cur s)).
Proof.
  intros Hs Hb Hl. pose proof Hs as ((Hbuf & _ & Hp) & Hc & Hr). unfold insert. destruct (Nat.leb_spec LINE_MAX (len s)); [lia|].
  destruct (open_gap (buf s) (len s) (cur s) [b] Hc ltac:(cbn; lia)) as (b1 & b2 & H1 & H2 & H3 & H4). cbn [length] in *. rewrite !Nat.add_1_r in *. rewrite H1. cbn [mbind run_bind]. rewrite H2. cbn [mbind run_bind]. cbv zeta. cbn [cur len set_text].
  fold (text s) in H4. cbn [app] in H4. set (t' := take (cur s) (text s) ++ b :: drop (cur s) (text s)) in *. assert (Hpt : all_printable t').
  { unfold t'. apply Forall_app. split; [by apply Forall_take|]. apply Forall_cons. split; [done|by apply Forall_drop]. }
  assert (Hok : line_ok (set_text b2 (S (len s)) (S (cur s)) s)) by (apply line_set; [done|lia|lia|lia|by rewrite H4]). pose proof (length_text s Hs) as Ht.
  destruct (Nat.eqb_spec (S (cur s)) (S (len s))) as [He|He].
  - eexists _, [b]. split; [done|]. split; [done|]. split; [done|]. split; [done|]. split; [done|]. intros q Hq. rewrite paint; [|lia|by constructor|cbn [length]; unfold fits in Hq; lia]. cbn [length]. unfold showing. f_equal; [|lia].
    unfold t'. rewrite !drop_ge by lia. done.
  - replace (S (cur s) - 1)%nat with (cur s) by lia. rewrite (slice_used b2 (S (len s))) by lia. cbn [mbind run_bind]. rewrite minus_le by lia. cbn [mbind run_bind]. rewrite H4, Nat.sub_succ.
    assert (Hlt : length t' = S (len s)) by (unfold t'; rewrite length_app; cbn [length]; rewrite length_take, length_drop; lia).
    assert (Hd : drop (cur s) t' = b :: drop (cur s) (text s)) by (unfold t'; rewrite drop_app_length'; [done|rewrite length_take; lia]). rewrite Hd.
    rewrite take_ge by (cbn [length]; rewrite length_drop; lia). destruct (left_shown (len s - cur s) (o ++ b :: drop (cur s) (text s))) as (e & -> & He2); [apply max_1000; lia|]. cbn [mbind run_bind].
    eexists _, ((b :: drop (cur s) (text s)) ++ e). rewrite app_assoc. split; [done|]. split; [done|]. split; [done|]. split; [done|]. split; [done|]. intros q Hq. rewrite show_app, paint; [|lia|constructor; [done|by apply Forall_drop]|unfold fits in Hq; cbn [length]; rewrite length_drop; rewrite Hlt in Hq; lia].
    cbn [length]. rewrite He2. unfold showing. rewrite length_drop. f_equal; [|lia]. rewrite (drop_ge (text s) (cur s + S (length (text s) - cur s))) by lia. by rewrite app_nil_r.
Qed.

Lemma show_erase r c : show_all ERASE (MkScreen r c Plain) = MkScreen (take c r) c Plain.
Proof. done. Qed.

(** From [a] on the row is printed anew and what is left of it erased. *)
Lemma repaint_tail q t a u : (a <= length t)%nat -> all_printable u -> (length q + (a + length u) < width)%nat -> show_all (u ++ ERASE) (showing q t a) = MkScreen (q ++ take a t ++ u) (length q + (a + length u)) Plain.
Proof.
  intros Ha Hu Hw. rewrite show_app, paint by done. rewrite show_erase. f_equal. rewrite take_app_add. f_equal. rewrite app_assoc, take_app_length'; [done|]. rewrite length_app, length_take. lia.
Qed.

Lemma delete_ok a b s o : line_ok s -> (a <= b)%nat -> (b <= len s)%nat -> (a <= cur s)%nat ->
  edits s o (delete_range a b s o) (take a (text s) ++ drop b (text s)) (if (b <=? cur s)%nat then cur s - (b - a) else Nat.min (cur s) a).
Proof.
  intros Hs Ha Hb Hac. pose proof Hs as ((Hbuf & Hlen & Hp) & Hc & Hr). pose proof (length_text s Hs) as Ht. unfold delete_range. rewrite (proj2 (Nat.leb_le _ _) Ha), (proj2 (Nat.leb_le _ _) Hb), (proj2 (Nat.leb_le _ _) Hac). cbn [andb negb].
  rewrite (minus_le b a) by done. cbn [mbind run_bind]. destruct (Nat.eqb_spec (b - a) 0) as [Hz|Hz].
  { assert (b = a) as -> by lia. rewrite take_drop. replace (if (a <=? cur s)%nat then _ else _) with (cur s) by (destruct (Nat.leb_spec a (cur s)); lia). by apply edits_same. }
  cbv zeta. destruct (close_gap (buf s) (len s) a b Ha Hb ltac:(lia)) as (b1 & -> & H2 & H3). cbn [mbind run_bind]. rewrite (minus_le (len s) (b - a)) by lia. cbn [mbind run_bind]. fold (text s) in H3. set (t' := take a (text s) ++ drop b (text s)) in *.
  set (c' := if (b <=? cur s)%nat then (cur s - (b - a))%nat else Nat.min (cur s) a). assert ((if (b <=? cur s)%nat then minus (cur s) (b - a) else Done (Nat.min (cur s) a)) = Done c') as ->.
  { unfold c'. destruct (Nat.leb_spec b (cur s)); [|done]. rewrite minus_le by lia. done. }
  cbn [mbind run_bind]. assert (Hc' : (c' <= len s - (b - a))%nat) by (unfold c'; destruct (Nat.leb_spec b (cur s)); lia). assert (Hpt : all_printable t') by (unfold t'; apply Forall_app; split; [by apply Forall_take|by apply Forall_drop]).
  rewrite (minus_le (cur s) a) by lia. cbn [mbind run_bind]. destruct (left_shown (cur s - a) o) as (e1 & -> & He1); [apply max_1000; lia|]. cbn [mbind run_bind]. rewrite (slice_used b1 (len s - (b - a))) by lia. cbn [mbind run_bind]. rewrite minus_le by done. cbn [mbind run_bind].
  rewrite H3. assert (Hd : drop a t' = drop b (text s)) by (unfold t'; rewrite drop_app_length'; [done|rewrite length_take; lia]). rewrite Hd, take_ge by (rewrite length_drop; lia).
  destruct (left_shown (len s - (b - a) - c') ((o ++ e1) ++ drop b (text s) ++ ERASE)) as (e2 & -> & He2); [apply max_1000; lia|]. cbn [mbind run_bind].
  eexists _, (e1 ++ (drop b (text s) ++ ERASE) ++ e2). split; [by rewrite <- !app_assoc|]. split; [apply line_set; [done|lia|lia|done|by rewrite H3]|]. split; [done|]. split; [done|]. split; [done|].
  intros q Hq. rewrite show_app, show_app. unfold showing at 1. rewrite He1. replace (length q + cur s - (cur s - a))%nat with (length q + a)%nat by lia. change (MkScreen (q ++ text s) (length q + a) Plain) with (showing q (text s) a).
  rewrite repaint_tail by (try (by apply Forall_drop); unfold fits in Hq; rewrite ?length_drop; lia). rewrite He2. unfold showing. f_equal. rewrite length_drop. lia.
Qed.

Lemma backspace_ok s o : line_ok s -> edits s o (backspace s o) (take (cur s - 1) (text s) ++ drop (cur s) (text s)) (cur s - 1).
Proof.
  intros Hs. pose proof Hs as (_ & Hc & _). unfold backspace. destruct (Nat.eqb_spec (cur s) 0) as [Hz|Hz].
  - rewrite Hz. cbn [Nat.sub]. pose proof (edits_same s o Hs) as He. by rewrite Hz in He.
  - pose proof (delete_ok (cur s - 1) (cur s) s o Hs ltac:(lia) Hc ltac:(lia)) as He. rewrite Nat.leb_refl in He. by replace (cur s - (cur s - (cur s - 1)))%nat with (cur s - 1)%nat in He by lia.
Qed.

Lemma delete_at_ok s o : line_ok s -> edits s o (delete_at s o) (take (cur s) (text s) ++ drop (S (cur s)) (text s)) (cur s).
Proof.
  intros Hs. pose proof Hs as (_ & Hc & _). pose proof (length_text s Hs) as Ht. unfold delete_at. destruct (Nat.eqb_spec (cur s) (len s)) as [He|He].
  - pose proof (edits_same s o Hs) as Hsame. by rewrite take_ge, drop_ge, app_nil_r by lia.
  - pose proof (delete_ok (cur s) (S (cur s)) s o Hs ltac:(lia) ltac:(lia) ltac:(lia)) as Hd. destruct (Nat.leb_spec (S (cur s)) (cur s)); [lia|]. by rewrite Nat.min_id in Hd.
Qed.

Lemma yank_ok s o : line_ok s -> let u := take (Nat.min (kill_len s) (LINE_MAX - len s)) (kill s) in
  edits s o (yank s o) (take (cur s) (text s) ++ u ++ drop (cur s) (text s)) (cur s + length u).
Proof.
  intros Hs. cbv zeta. pose proof Hs as ((Hbuf & Hlen & Hp) & Hc & Hr). pose proof (length_text s Hs) as Ht. destruct (ro_kill s Hr) as (Hk1 & Hk2 & Hk3). unfold yank. rewrite minus_le by done. cbn [mbind run_bind]. cbv zeta.
  set (n := Nat.min (kill_len s) (LINE_MAX - len s)). destruct (Nat.eqb_spec n 0) as [Hz|Hz].
  { rewrite Hz. change (take 0 (kill s)) with (@nil Z). cbn [app length]. rewrite take_drop, Nat.add_0_r. destruct (0 <? kill_len s)%nat; [by apply edits_bell|by apply edits_same]. }
  set (u := take n (kill s)). assert (Hu : length u = n) by (unfold u, n; rewrite length_take; lia). assert (Hup : all_printable u).
  { unfold u. replace (take n (kill s)) with (take n (take (kill_len s) (kill s))) by (rewrite take_take; f_equal; unfold n; lia). by apply Forall_take. }
  destruct (open_gap (buf s) (len s) (cur s) u Hc ltac:(lia)) as (b1 & b2 & H1 & H2 & H3 & H4). rewrite Hu in *. rewrite H1. cbn [mbind run_bind]. rewrite slice_start by lia. cbn [mbind run_bind]. fold u. rewrite H2. cbn [mbind run_bind]. cbn [cur len set_text].
  replace (cur s + n - n)%nat with (cur s) by lia. fold (text s) in H4. rewrite (slice_used b2 (len s + n)) by lia. cbn [mbind run_bind]. rewrite minus_le by lia. cbn [mbind run_bind]. rewrite H4. set (t' := take (cur s) (text s) ++ u ++ drop (cur s) (text s)) in *.
  assert (Hd : drop (cur s) t' = u ++ drop (cur s) (text s)) by (unfold t'; rewrite drop_app_length'; [done|rewrite length_take; lia]). rewrite Hd, take_ge by (rewrite length_app, length_drop; lia).
  assert (Hpt : all_printable t') by (unfold t'; rewrite !Forall_app; split_and!; [by apply Forall_take|done|by apply Forall_drop]).
  destruct (left_shown (len s + n - (cur s + n)) (o ++ u ++ drop (cur s) (text s))) as (e & -> & He2); [apply max_1000; lia|]. cbn [mbind run_bind]. eexists _, ((u ++ drop (cur s) (text s)) ++ e). split; [by rewrite <- !app_assoc|].
  split; [apply line_set; [done|lia|lia|lia|by rewrite H4]|]. split; [done|]. split; [done|]. split; [done|]. intros q Hq. assert (Hlt : length t' = (len s + n)%nat) by (unfold t'; rewrite !length_app, length_take, length_drop; lia). rewrite show_app, paint; [|lia|apply Forall_app; split; [done|by apply Forall_drop]|unfold fits in Hq; rewrite length_app, length_drop; lia]. rewrite He2. unfold showing.
  f_equal; [|rewrite length_app, length_drop; lia]. rewrite (drop_ge (text s) (cur s + length (u ++ drop (cur s) (text s)))) by (rewrite length_app, length_drop; lia). by rewrite app_nil_r.
Qed.

Lemma cursor_set s c : line_ok s -> (c <= len s)%nat -> line_ok (set_cur c s).
Proof. intros (H1 & _ & Hr) Hc. split; [done|]. split; [done|]. by apply rest_text. Qed.

Lemma left_ok s o : line_ok s -> edits s o (Done (left s o)) (text s) (cur s - 1).
Proof.
  intros Hs. pose proof Hs as (_ & Hc & _). unfold left. destruct (Nat.ltb_spec 0 (cur s)) as [Hlt|Hge].
  - eexists _, [BS]. split; [done|]. split; [apply cursor_set; [done|lia]|]. split; [done|]. split; [done|]. split; [done|]. intros q _. unfold showing. cbn. f_equal. lia.
  - assert (Hz : cur s = 0%nat) by lia. pose proof (edits_same s o Hs) as He. rewrite Hz in *. exact He.
Qed.

Lemma right_ok s o : line_ok s -> edits s o (Done (right s o)) (text s) (Nat.min (S (cur s)) (len s)).
Proof.
  intros Hs. pose proof Hs as (_ & Hc & _). unfold right. destruct (Nat.ltb_spec (cur s) (len s)) as [Hlt|Hge].
  - rewrite Nat.min_l by lia. eexists _, [ESC; 91; 67]. split; [done|]. split; [apply cursor_set; [done|lia]|]. split; [done|]. split; [done|]. split; [done|]. intros q Hq. unfold showing, fits in *. pose proof (length_text s Hs). cbn. f_equal. lia.
  - assert (cur s = len s) as He by lia. rewrite Nat.min_r by lia. pose proof (edits_same s o Hs) as Hsame. rewrite He in Hsame. exact Hsame.
Qed.

Lemma home_ok s o : line_ok s -> edits s o (home s o) (text s) 0.
Proof.
  intros Hs. pose proof Hs as ((_ & Hl & _) & Hc & _). unfold home. destruct (left_shown (cur s) o) as (e & -> & He); [apply max_1000; lia|]. cbn [mbind run_bind].
  eexists _, e. split; [done|]. split; [apply cursor_set; [done|lia]|]. split; [done|]. split; [done|]. split; [done|]. intros q _. unfold showing. rewrite He. f_equal. lia.
Qed.

Lemma end_ok s o : line_ok s -> edits s o (end_ s o) (text s) (len s).
Proof.
  intros Hs. pose proof Hs as ((_ & Hl & _) & Hc & _). unfold end_. rewrite minus_le by done. cbn [mbind run_bind]. destruct (right_shown (len s - cur s) o) as (e & -> & He); [apply max_1000; lia|]. cbn [mbind run_bind].
  eexists _, e. split; [done|]. split; [by apply cursor_set|]. split; [done|]. split; [done|]. split; [done|]. intros q Hq. unfold showing, fits in *. pose proof (length_text s Hs). rewrite He by lia. f_equal. lia.
Qed.

Lemma replace_ok u s o : line_ok s -> all_printable u -> (length u <= LINE_MAX)%nat -> edits s o (replace_line u s o) u (length u).
Proof.
  intros Hs Hu Hlu. pose proof Hs as ((Hb & Hl & _) & Hc & Hr). pose proof (length_text s Hs) as Ht. unfold replace_line. destruct (left_shown (cur s) o) as (e & -> & He); [apply max_1000; lia|]. cbn [mbind run_bind]. cbv zeta.
  rewrite Nat.min_l by done. rewrite take_ge by done. destruct (copy_in_used (buf s) 0 u (length u) eq_refl ltac:(lia)) as (b1 & -> & H2 & H3). cbn [mbind run_bind]. rewrite slice_start by lia. cbn [mbind run_bind]. change (take 0 (buf s)) with (@nil Z) in H3. cbn [app] in H3. rewrite H3.
  eexists _, (e ++ u ++ ERASE). split; [by rewrite <- !app_assoc|]. split; [apply line_set; [done|lia|done|done|by rewrite H3]|]. split; [done|]. split; [done|]. split; [done|].
  intros q Hq. rewrite show_app. unfold showing at 1. rewrite He. replace (length q + cur s - cur s)%nat with (length q + 0)%nat by lia. change (MkScreen (q ++ text s) (length q + 0) Plain) with (showing q (text s) 0). rewrite repaint_tail by (done || (unfold fits in Hq; lia)). done.
Qed.

(** A history entry or the stash comes back. *)
Lemma array_text b l : array_ok b l -> slice b 0 l = Done (take l b) /\ length (take l b) = l /\ all_printable (take l b).
Proof. intros (H1 & H2 & H3). split; [apply slice_start; lia|]. split; [rewrite length_take; lia|done]. Qed.

Lemma entry_at s i : rest_ok s -> exists e l, index (hist s) (i mod HIST)%nat = Done (e, l) /\ array_ok e l.
Proof.
  intros Hr. destruct (ro_hist s Hr) as [Hlen Hh]. assert (Hi : (i mod HIST < length (hist s))%nat) by (rewrite Hlen; apply Nat.mod_upper_bound; done). destruct (lookup_lt_is_Some_2 _ _ Hi) as [[e l] He].
  exists e, l. split; [unfold index; by rewrite He|by eapply Hh].
Qed.

Lemma rest_browse k s : rest_ok s -> (forall j, k = Some j -> (1 <= j <= hist_count s)%nat) -> rest_ok (set_browse k s).
Proof. intros [] Hk. by constructor. Qed.

Lemma rest_stash s : line_ok s -> exists st, copy_in (stash s) 0 (text s) = Done st /\ rest_ok (set_stash st (len s) (cur s) s).
Proof.
  intros Hs. pose proof (length_text s Hs) as Ht. pose proof Hs as ((Hb & Hl & Hp) & Hc & Hr). destruct (ro_stash s Hr) as [(Hst & _) _]. destruct (copy_in_used (stash s) 0 (text s) (len s)) as (st & H1 & H2 & H3); [lia|lia|]. exists st. split; [done|].
  destruct Hr. constructor; try done. cbn. split; [|done]. split; [lia|]. split; [done|]. rewrite H3. done.
Qed.

(** [edits] from a state that differs in what is not shown. *)
Lemma edits_from s s0 o r t c : text s0 = text s -> cur s0 = cur s -> same_side s s0 -> edits s0 o r t c -> edits s o r t c.
Proof.
  intros Ht Hc Hp (s' & e & H1 & H2 & H3 & H4 & Hq & H5). exists s', e. split; [done|]. split; [done|]. split; [done|]. split; [done|]. split; [by eapply same_side_trans|]. intros q. rewrite <- Ht, <- Hc. apply H5.
Qed.

(** Going back and forth through the history keeps the screen in step. *)
Definition some_edit (s : LineDisc) (o : list Z) (r : run (LineDisc * list Z)) : Prop := exists t c, edits s o r t c.

Lemma recall_ok k s o : line_ok s -> (1 <= k <= hist_count s)%nat -> some_edit s o (i ← minus (hist_next s + HIST) k; '(entry, elen) ← index (hist s) (i mod HIST)%nat; u ← slice entry 0 elen; replace_line u (set_browse (Some k) s) o).
Proof.
  intros (H1 & H2 & Hr) Hk. destruct (ro_count s Hr) as [Hc Hn]. rewrite minus_le by lia. cbn [mbind run_bind]. destruct (entry_at s (hist_next s + HIST - k) Hr) as (e & l & -> & He). cbn [mbind run_bind].
  destruct (array_text e l He) as (-> & Hlen & Hp). cbn [mbind run_bind]. exists (take l e), (length (take l e)). apply (edits_from s (set_browse (Some k) s)); try done. apply replace_ok; [|done|rewrite Hlen; apply He].
  split; [done|]. split; [done|]. apply rest_browse; [done|]. by intros j [= <-].
Qed.

Lemma hist_prev_ok s o : line_ok s -> some_edit s o (hist_prev s o).
Proof.
  intros Hs. pose proof Hs as ((Hb & Hl & Hp) & Hc & Hr). unfold hist_prev. destruct (browse s) as [k|] eqn:Hbr.
  - destruct (Nat.ltb_spec k (hist_count s)) as [Hk|Hk]; [|eexists _, _; by apply edits_bell]. pose proof (ro_browse s Hr k Hbr) as Hk1. apply recall_ok; [done|lia].
  - destruct (Nat.eqb_spec (hist_count s) 0) as [Hz|Hz]; [eexists _, _; by apply edits_bell|]. rewrite slice_start by lia. cbn [mbind run_bind]. fold (text s). destruct (rest_stash s Hs) as (st & -> & Hr'). cbn [mbind run_bind].
    set (s0 := set_stash st (len s) (cur s) s). destruct (recall_ok 1 s0 o) as (t & c & He); [split; [done|by split]|cbn; lia|]. exists t, c. by apply (edits_from s s0).
Qed.

Lemma hist_next_ok s o : line_ok s -> some_edit s o (hist_next_entry s o).
Proof.
  intros Hs. pose proof Hs as ((Hb & Hl & Hp) & Hc & Hr). unfold hist_next_entry. destruct (browse s) as [k|] eqn:Hbr; [|eexists _, _; by apply edits_bell]. pose proof (ro_browse s Hr k Hbr) as Hk.
  destruct k as [|[|k]]; [lia| |].
  - destruct (ro_stash s Hr) as [Hst Hsc]. destruct (array_text _ _ Hst) as (-> & Hlen & Hsp). cbn [mbind run_bind]. set (u := take (stash_len s) (stash s)) in *.
    destruct (replace_ok u (set_browse None s) o) as (s1 & e & -> & H1 & H2 & H3 & H4 & H5); [split; [done|]; split; [done|]; by apply rest_browse|done|rewrite Hlen; apply Hst|]. cbn [mbind run_bind]. rewrite minus_le by done. cbn [mbind run_bind].
    destruct Hst as (Hst1 & Hst2 & _). destruct (left_shown (stash_len s - stash_cur s) (o ++ e)) as (e2 & -> & He2); [apply max_1000; lia|]. cbn [mbind run_bind].
    exists u, (stash_cur s). eexists _, (e ++ e2). split; [by rewrite app_assoc|]. assert (Hl1 : len s1 = stash_len s) by (rewrite <- (length_text s1 H1), H2; done). split; [apply cursor_set; [done|lia]|]. split; [done|]. split; [done|]. split; [done|].
    intros q Hq. rewrite show_app. change (text s) with (text (set_browse None s)) in *. change (cur s) with (cur (set_browse None s)). rewrite H5 by done. unfold showing. rewrite He2. f_equal. lia.
  - cbn [minus]. rewrite minus_le by lia. cbn [mbind run_bind]. replace (S (S k) - 1)%nat with (S k) by lia. apply recall_ok; [done|lia].
Qed.

(** ** Keys *)

(** The parameters of an escape sequence are 16-bit numbers. *)
Definition esc_ok (e : EscState) : Prop := match e with Csi p0 p1 _ => in_width 16 p0 /\ in_width 16 p1 | _ => True end.

Definition editor_ok (s : LineDisc) : Prop := line_ok s /\ all_printable (prompt_text s) /\ esc_ok (esc s).

(** A key completes; what the terminal shows is the new line, behind what stood before
    the old one, in a fresh row, or behind the prompt on a cleared screen. *)
Definition key_ok (s : LineDisc) (o : list Z) (r : run (Event * LineDisc * list Z)) : Prop :=
  exists ev s' e, r = Done (ev, s', o ++ e) /\ editor_ok s' /\ (ev = Line -> line s' = text s /\ text s' = []) /\ (prompt_text s' = prompt_text s \/ prompt_text s' = []) /\
    forall q, let n := Nat.max (length (text s)) (length (text s')) in fits q n -> fits (prompt_text s) n ->
      exists q', show_all e (showing q (text s) (cur s)) = showing q' (text s') (cur s') /\ (q' = q \/ q' = [] \/ q' = prompt_text s).

Lemma edit_key s o r : editor_ok s -> some_edit s o r -> key_ok s o ('(s1, o1) ← r; Done (NoEvent, s1, o1)).
Proof.
  intros (_ & Hp & He) (t & c & s' & e & -> & H1 & <- & <- & (P1 & P2 & P3 & P4) & H5). cbn [mbind run_bind]. exists NoEvent, s', e. split; [done|]. split; [split; [done|]; rewrite P1, P3; done|]. split; [done|]. split; [by left|].
  intros q n Hq _. exists q. split; [by apply H5|by left].
Qed.

Lemma same_key s o ev s' : editor_ok s' -> ev <> Line -> text s' = text s -> cur s' = cur s -> prompt_text s' = prompt_text s -> key_ok s o (Done (ev, s', o)).
Proof. intros Hs Hev Ht Hc Hp. exists ev, s', []. rewrite app_nil_r. split; [done|]. split; [done|]. split; [done|]. split; [by left|]. intros q n _ _. exists q. rewrite Ht, Hc. split; [done|by left]. Qed.

Lemma line_esc e s : line_ok s -> line_ok (set_esc e s).
Proof. intros (H1 & H2 & []). split; [done|]. split; [done|]. by constructor. Qed.

Lemma editor_esc e s : editor_ok s -> esc_ok e -> editor_ok (set_esc e s).
Proof. intros (H1 & H2 & _) He. split; [by apply line_esc|by split]. Qed.

Lemma editor_cr b s : editor_ok s -> editor_ok (set_cr b s).
Proof. intros ((H1 & H2 & []) & H4 & H5). split; [|by split]. split; [done|]. split; [done|]. by constructor. Qed.

(** The newest line of the history. *)
Lemma repeats_total s : line_ok s -> exists b, repeats_newest s = Done b.
Proof.
  intros (H1 & H2 & Hr). unfold repeats_newest. destruct (hist_count s =? 0)%nat; [eauto|]. destruct (entry_at s (hist_next s + HIST - 1) Hr) as (e & l & -> & He). cbn [mbind run_bind]. destruct (negb _); [eauto|].
  destruct (array_text e l He) as (-> & _ & _). cbn [mbind run_bind]. destruct (array_text _ _ H1) as (-> & _ & _). cbn [mbind run_bind]. eauto.
Qed.

Lemma finish_ok s o : editor_ok s -> key_ok s o (finish_line s o).
Proof.
  intros (Hs & Hpr & Hesc). pose proof Hs as (Hbuf & Hc & Hr). pose proof (length_text s Hs) as Ht. unfold finish_line. cbv zeta. destruct (array_text _ _ Hbuf) as (-> & _ & Hp). cbn [mbind run_bind]. fold (text s) in *. destruct Hbuf as (Hb & Hl & _).
  destruct (copy_in_used (done_buf s) 0 (text s) (len s)) as (d & -> & Hd1 & Hd2); [lia|rewrite (ro_done s Hr); lia|]. cbn [mbind run_bind]. set (s1 := set_done d (len s) s).
  assert (Hr1 : rest_ok s1) by (destruct Hr; constructor; cbn; try done; lia). assert (Hs1 : line_ok s1) by (split; [done|by split]). destruct (repeats_total s1 Hs1) as [same ->]. cbn [mbind run_bind].
  assert (Hx : exists s2, (if ((0 <? len s1)%nat && negb same)%bool then '(entry, _) ← index (hist s1) (hist_next s1); e ← copy_in entry 0 (text s); Done (set_hist (<[hist_next s1 := (e, len s1)]> (hist s1)) (Nat.min (S (hist_count s1)) HIST) (S (hist_next s1) mod HIST)%nat s1) else Done s1) = Done s2 /\
    rest_ok (set_browse None s2) /\ buf s2 = buf s /\ prompt s2 = prompt s /\ esc s2 = esc s /\ done_buf s2 = d /\ done_len s2 = len s).
  { destruct (_ && _); [|exists s1; split; [done|]; split; [by apply rest_browse|done]]. destruct (ro_count s1 Hr1) as [Hcnt Hnext]. destruct (ro_hist s1 Hr1) as [Hhl Hh]. destruct (lookup_lt_is_Some_2 (hist s1) (hist_next s1)) as [[e l] He]; [lia|].
    unfold index. rewrite He. cbn [mbind run_bind]. destruct (Hh _ _ _ He) as (He1 & _ & _). destruct (copy_in_used e 0 (text s) (len s)) as (e' & -> & He2 & He3); [lia|lia|]. cbn [mbind run_bind]. eexists. split; [done|]. split; [|done].
    destruct Hr1 as [G1 G2 G3 G4 G5 G6 G7]. constructor; cbn; try done.
    - split; [by rewrite length_insert|]. intros i x y [(_ & [= <- <-] & _)|[_ Hx]]%list_lookup_insert_Some; [|by eapply Hh]. split; [lia|]. split; [done|]. rewrite He3. done.
    - split; [exact (Nat.le_min_r (S (hist_count s)) HIST)|]. exact (Nat.mod_upper_bound (S (hist_next s)) HIST ltac:(done)). }
  destruct Hx as (s2 & -> & Hr2 & Q1 & Q2 & Q3 & Q4 & Q5). cbn [mbind run_bind]. eexists Line, _, [13; 10]. split; [done|]. split.
  - split; [|split; [|cbn; by rewrite Q3]]; [|constructor]. split; [split; [cbn; by rewrite Q1|]; split; [cbn; lia|constructor]|]. split; [done|]. destruct Hr2 as [G1 G2 G3 G4 G5 G6 G7]. constructor; try done. cbn in *. split; [apply G7|lia].
  - split; [intros _; split; [|done]; unfold line; cbn; rewrite Q4, Q5, Hd2; done|]. split; [by right|]. intros q n _ _. exists []. split; [|by right; left]. done.
Qed.

Lemma rest_kill s a b : line_ok s -> (a <= b)%nat -> (b <= len s)%nat -> exists k, copy_in (kill s) 0 (take (b - a) (drop a (text s))) = Done k /\ rest_ok (set_kill k (b - a) s) /\ killed (set_kill k (b - a) s) = take (b - a) (drop a (text s)).
Proof.
  intros Hs Ha Hb. pose proof (length_text s Hs) as Ht. pose proof Hs as ((Hbuf & Hl & Hp) & Hc & Hr). destruct (ro_kill s Hr) as (Hk & _ & _).
  destruct (copy_in_used (kill s) 0 (take (b - a) (drop a (text s))) (b - a)) as (k & H1 & H2 & H3); [rewrite length_take, length_drop; lia|lia|]. exists k. split; [done|]. split; [|done].
  destruct Hr. constructor; try done. cbn. split; [lia|]. split; [lia|]. rewrite H3. change (take 0 (kill s)) with (@nil Z). cbn [app]. by apply Forall_take, Forall_drop.
Qed.

(** The line is cut and kept. *)
Lemma cut_kept s a b : line_ok s -> (a <= b)%nat -> (b <= len s)%nat ->
  exists k, (forall A (f : list Z -> run A), (t ← slice (buf s) a b; k ← copy_in (kill s) 0 t; f k) = f k) /\
    line_ok (set_kill k (b - a) s) /\ killed (set_kill k (b - a) s) = take (b - a) (drop a (text s)).
Proof.
  intros Hs Ha Hb. pose proof Hs as ((Hbuf & Hl & Hp) & Hc & Hr). destruct (rest_kill s a b Hs Ha Hb) as (k & Hk & Hr' & Hkt). exists k. split; [|split; [by split; [|split]|done]].
  intros A f. rewrite (slice_used (buf s) (len s)) by lia. cbn [mbind run_bind]. fold (text s). by rewrite Hk.
Qed.

Lemma back_while_le p l a : (back_while p l a <= a)%nat.
Proof. induction a as [|a IH]; [done|]. cbn [back_while]. destruct (l !! a) as [b|]; [|done]. destruct (p b); lia. Qed.

Lemma csi_final_ok b p s o : editor_ok s -> key_ok s o (csi_final b p s o).
Proof.
  intros Hs. pose proof Hs as (Hl & _). unfold csi_final. cbv zeta.
  destruct (b =? 68); [apply edit_key; [done|]; eexists _, _; by apply left_ok|]. destruct (b =? 67); [apply edit_key; [done|]; eexists _, _; by apply right_ok|].
  destruct (b =? 65); [apply edit_key; [done|by apply hist_prev_ok]|]. destruct (b =? 66); [apply edit_key; [done|by apply hist_next_ok]|].
  destruct (_ || _); [apply edit_key; [done|]; eexists _, _; by apply home_ok|]. destruct (_ || _); [apply edit_key; [done|]; eexists _, _; by apply end_ok|].
  destruct (_ && _); [apply edit_key; [done|]; eexists _, _; by apply delete_at_ok|]. by apply same_key.
Qed.

Lemma insert_any b s o : line_ok s -> printable b = true -> some_edit s o (insert b s o).
Proof.
  intros Hs Hb. destruct (decide (len s < LINE_MAX)%nat) as [Hlt|Hge]; [eexists _, _; by apply insert_ok|]. unfold insert. destruct (Nat.leb_spec LINE_MAX (len s)); [|lia]. eexists _, _. by apply edits_bell.
Qed.

(** The screen is cleared and the prompt and the line printed anew. *)
Lemma clear_ok s o : editor_ok s -> key_ok s o (p ← slice (prompt s) 0 (prompt_len s); t ← slice (buf s) 0 (len s); n ← minus (len s) (cur s); o1 ← csi_left n (o ++ [ESC; 91; 50; 74; ESC; 91; 72] ++ p ++ t); Done (NoEvent, s, o1)).
Proof.
  intros Hs. pose proof Hs as (Hl & Hp & He). pose proof Hl as (Hbuf & Hc & Hr). pose proof (length_text s Hl) as Ht. destruct (ro_prompt s Hr) as [Hp1 Hp2]. rewrite (slice_start (prompt s)) by lia. cbn [mbind run_bind]. destruct (array_text _ _ Hbuf) as (-> & _ & Htp). cbn [mbind run_bind].
  fold (text s) (prompt_text s) in *. destruct Hbuf as (_ & Hlm & _). rewrite minus_le by done. cbn [mbind run_bind]. destruct (left_shown (len s - cur s) (o ++ [ESC; 91; 50; 74; ESC; 91; 72] ++ prompt_text s ++ text s)) as (e & -> & He2); [apply max_1000; lia|]. cbn [mbind run_bind].
  eexists NoEvent, s, ([ESC; 91; 50; 74; ESC; 91; 72] ++ (prompt_text s ++ text s) ++ e). split; [by rewrite <- !app_assoc|]. split; [done|]. split; [done|]. split; [by left|]. intros q n _ Hq. exists (prompt_text s). split; [|by right; right].
  rewrite show_app, show_app. change (show_all [ESC; 91; 50; 74; ESC; 91; 72] (showing q (text s) (cur s))) with (MkScreen [] 0 Plain). rewrite show_text; [|by apply Forall_app|done|unfold fits, n in Hq; rewrite length_app; lia]. rewrite He2. rewrite drop_nil, app_nil_r. unfold showing. cbn [take app]. f_equal. rewrite length_app. lia.
Qed.

Lemma abandon_ok s : editor_ok s -> editor_ok (abandon s).
Proof. intros (((Hb & _) & Hc & Hr) & Hp & He). split; [|done]. split; [split; [done|]; split; [cbn; lia|constructor]|]. split; [done|]. apply rest_browse; [by apply rest_text|done]. Qed.

(** A state that differs in what neither the line nor the prompt is part of. *)
Lemma key_from s s0 o r : text s0 = text s -> cur s0 = cur s -> prompt_text s0 = prompt_text s -> key_ok s0 o r -> key_ok s o r.
Proof.
  intros Ht Hc Hp (ev & s' & e & H1 & H2 & H3 & H4 & H5). exists ev, s', e. split_and!; [done|done|by rewrite <- Ht|by rewrite <- Hp|]. intros q n F1 F2. destruct (H5 q) as (q1 & E & Q); [by rewrite Ht|by rewrite Ht, Hp|]. exists q1. by rewrite <- Ht, <- Hc, <- Hp.
Qed.

Lemma editor_kill s k n : editor_ok s -> line_ok (set_kill k n s) -> editor_ok (set_kill k n s).
Proof. by intros (_ & H2 & H3) H1. Qed.

(** The rest of the line is cut off. *)
Lemma cut_ok s o : line_ok s -> edits s o (Done (set_text (buf s) (cur s) (cur s) s, o ++ ERASE)) (take (cur s) (text s)) (cur s).
Proof.
  intros Hs. pose proof Hs as ((Hbuf & Hlm & Htp) & Hc & Hr). assert (Ht : take (cur s) (buf s) = take (cur s) (text s)) by (unfold text; rewrite take_take; f_equal; lia).
  eexists _, ERASE. split; [done|]. split; [apply line_set; [done|done|lia|lia|]; rewrite Ht; by apply Forall_take|]. split; [done|]. split; [done|]. split; [done|]. intros q _. unfold showing. by rewrite show_erase, take_app_add.
Qed.

(** ** The reference editor

    What stands before the cursor, what stands after it, and what was cut last. *)

Record View := MkView { before : list Z; after : list Z; cut : list Z }.

Fixpoint skip_while (p : Z -> bool) (l : list Z) : list Z :=
  match l with b :: l' => if p b then skip_while p l' else l | [] => [] end.

Definition drop_word (l : list Z) : list Z := rev (skip_while (fun b => negb (b =? 32)) (skip_while (fun b => b =? 32) (rev l))).

Definition edit (b : Z) (v : View) : View :=
  let '(MkView l r k) := v in
  if (b =? 13) || (b =? 10) || (b =? 0x03) then MkView [] [] k
  else if b =? 0x04 then MkView l (drop 1 r) k
  else if b =? 0x01 then MkView [] (l ++ r) k
  else if b =? 0x05 then MkView (l ++ r) [] k
  else if b =? 0x02 then MkView (take (length l - 1) l) (drop (length l - 1) l ++ r) k
  else if b =? 0x06 then MkView (l ++ take 1 r) (drop 1 r) k
  else if b =? 0x0b then MkView l [] r
  else if b =? 0x15 then MkView [] r l
  else if b =? 0x17 then MkView (drop_word l) r (drop (length (drop_word l)) l)
  else if b =? 0x19 then MkView (l ++ take (LINE_MAX - length (l ++ r)) k) r k
  else if (b =? BS) || (b =? 0x7f) then MkView (take (length l - 1) l) r k
  else if printable b && (length (l ++ r) <? LINE_MAX)%nat then MkView (l ++ [b]) r k
  else v.

Definition edit_event (b : Z) (v : View) : Event :=
  if (b =? 13) || (b =? 10) then Line
  else if b =? 0x03 then Interrupt
  else if b =? 9 then Tab
  else if (b =? 0x04) && (length (before v ++ after v) =? 0)%nat then Eof
  else NoEvent.

Definition view (s : LineDisc) : View := MkView (take (cur s) (text s)) (drop (cur s) (text s)) (killed s).

(** A key that does what the reference editor does. *)
Definition acts (s : LineDisc) (o : list Z) (r : run (Event * LineDisc * list Z)) (ev : Event) (v : View) (cr : bool) : Prop :=
  key_ok s o r /\ exists s' e, r = Done (ev, s', e) /\ view s' = v /\ esc s' = esc s /\ last_was_cr s' = cr.

Lemma acts_from s s0 o r ev v cr : text s0 = text s -> cur s0 = cur s -> prompt_text s0 = prompt_text s -> esc s0 = esc s -> acts s0 o r ev v cr -> acts s o r ev v cr.
Proof. intros Ht Hc Hp He (H1 & s' & e & H2 & H3 & H4 & H5). split; [by eapply key_from|]. exists s', e. rewrite H4, He. done. Qed.

Lemma acts_edit s o r t c v : editor_ok s -> edits s o r t c -> MkView (take c t) (drop c t) (killed s) = v -> acts s o ('(s1, o1) ← r; Done (NoEvent, s1, o1)) NoEvent v (last_was_cr s).
Proof.
  intros Hs He Hv. split; [apply edit_key; [done|by eexists _, _]|]. destruct He as (s' & e & -> & H1 & H2 & H3 & (P1 & P2 & P3 & P4) & _). eexists s', _. split; [done|]. split; [|done]. rewrite <- Hv. unfold view. by rewrite H2, H3, P2.
Qed.

Lemma acts_same s o ev : editor_ok s -> ev <> Line -> acts s o (Done (ev, s, o)) ev (view s) (last_was_cr s).
Proof. intros Hs Hev. split; [by apply same_key|]. by exists s, o. Qed.

Lemma view_lengths s : line_ok s -> length (before (view s)) = cur s /\ length (before (view s) ++ after (view s)) = len s /\ before (view s) ++ after (view s) = text s.
Proof. intros Hs. pose proof (length_text s Hs). pose proof Hs as (_ & Hc & _). cbn. rewrite take_drop, length_take. split_and!; [lia|done|done]. Qed.

Lemma back_while_take p l a : (a <= length l)%nat -> take (back_while p l a) l = rev (skip_while p (rev (take a l))).
Proof.
  induction a as [|a IH]; intros Ha; [done|]. cbn [back_while]. destruct (lookup_lt_is_Some_2 l a) as [x Hx]; [lia|]. rewrite Hx, (take_S_r _ _ _ Hx), rev_unit. cbn [skip_while]. destruct (p x); [apply IH; lia|].
  rewrite (take_S_r _ _ _ Hx). cbn [rev]. by rewrite rev_involutive.
Qed.

Lemma word_start_take s : line_ok s -> (word_start s <= cur s)%nat /\ take (word_start s) (text s) = drop_word (take (cur s) (text s)).
Proof.
  intros ((Hb & Hl & _) & Hc & _). unfold word_start. set (a := back_while (fun b => b =? 32) (buf s) (cur s)). pose proof (back_while_le (fun b => b =? 32) (buf s) (cur s)) as Ha. fold a in Ha.
  pose proof (back_while_le (fun b => negb (b =? 32)) (buf s) a) as Ha2. split; [lia|]. unfold text. rewrite !take_take, !Nat.min_l by lia. rewrite back_while_take by lia. unfold a. rewrite back_while_take by lia. unfold drop_word. by rewrite rev_involutive.
Qed.

Lemma finish_kept s o ev s' o' : finish_line s o = Done (ev, s', o') -> ev = Line /\ view s' = MkView [] [] (killed s) /\ esc s' = esc s /\ last_was_cr s' = last_was_cr s.
Proof.
  unfold finish_line. cbv zeta. destruct (slice _ _ _); [|done]. cbn [mbind run_bind]. destruct (copy_in _ _ _); [|done]. cbn [mbind run_bind]. destruct (repeats_newest _); [|done]. cbn [mbind run_bind].
  destruct (_ && _); [|by intros [= <- <- _]]. destruct (index _ _) as [[e l]|]; [|done]. cbn [mbind run_bind]. destruct (copy_in _ _ _); [|done]. cbn [mbind run_bind]. by intros [= <- <- _].
Qed.

Lemma finish_acts cr s o : editor_ok s -> acts s o (finish_line (set_cr cr s) o) Line (MkView [] [] (killed s)) cr.
Proof.
  intros Hs. apply (acts_from s (set_cr cr s)); try done. pose proof (finish_ok _ o (editor_cr cr s Hs)) as Hk. split; [done|]. destruct Hk as (ev & s' & e & H1 & _). destruct (finish_kept _ _ _ _ _ H1) as (-> & H2 & H3 & H4). by exists s', (o ++ e).
Qed.

Lemma interrupt_acts s o : editor_ok s -> acts s o (Done (Interrupt, abandon s, o ++ [94; 67; 13; 10])) Interrupt (MkView [] [] (killed s)) (last_was_cr s).
Proof.
  intros Hs. split; [|by eexists _, _]. eexists Interrupt, (abandon s), [94; 67; 13; 10]. split; [done|]. split; [by apply abandon_ok|]. split; [done|]. split; [by left|]. intros q n Hq _. exists []. split; [|by right; left].
  destruct Hs as (Hl & _). pose proof (length_text s Hl) as Ht. pose proof Hl as (_ & Hc & _). change [94; 67; 13; 10] with ([94; 67] ++ [13; 10]). rewrite show_app. unfold showing at 1. rewrite show_text; [done|repeat constructor|rewrite length_app; lia|unfold fits, n in Hq; cbn [length]; lia].
Qed.

(** The keys that cut. *)
Lemma kill_acts s k n o r t c v : editor_ok s -> line_ok (set_kill k n s) -> edits (set_kill k n s) o r t c -> MkView (take c t) (drop c t) (killed (set_kill k n s)) = v ->
  acts s o ('(s1, o1) ← r; Done (NoEvent, s1, o1)) NoEvent v (last_was_cr s).
Proof. intros Hs Hk He Hv. apply (acts_from s (set_kill k n s)); try done. change (last_was_cr s) with (last_was_cr (set_kill k n s)). eapply acts_edit; [by apply editor_kill|done|done]. Qed.

Lemma kill_after_acts s o : editor_ok s ->
  acts s o (t ← slice (buf s) (cur s) (len s); k ← copy_in (kill s) 0 t; n ← minus (len s) (cur s); '(s1, o1) ← Done (set_text (buf s) (cur s) (cur s) (set_kill k n s), o ++ ERASE); Done (NoEvent, s1, o1))
    NoEvent (MkView (before (view s)) [] (after (view s))) (last_was_cr s).
Proof.
  intros Hs. pose proof Hs as (Hl & _). pose proof Hl as (_ & Hc & _). pose proof (length_text s Hl) as Ht. destruct (cut_kept s (cur s) (len s) Hl Hc ltac:(lia)) as (k & Hk1 & Hk2 & Hk3). rewrite Hk1. rewrite minus_le by done. cbn [mbind run_bind].
  refine (kill_acts s k _ o _ _ _ _ Hs Hk2 (cut_ok _ o Hk2) _). change (text (set_kill k (len s - cur s) s)) with (text s). change (cur (set_kill k (len s - cur s) s)) with (cur s). rewrite Hk3, take_take, Nat.min_id, (take_ge (drop _ _)) by (rewrite length_drop; lia).
  rewrite drop_ge by (rewrite length_take; lia). done.
Qed.

Lemma kill_range_acts a s o (Hs : editor_ok s) (Ha : (a <= cur s)%nat) :
  acts s o (t ← slice (buf s) a (cur s); k ← copy_in (kill s) 0 t; n ← minus (cur s) a; '(s1, o1) ← delete_range a (cur s) (set_kill k n s) o; Done (NoEvent, s1, o1))
    NoEvent (MkView (take a (before (view s))) (after (view s)) (drop a (before (view s)))) (last_was_cr s).
Proof.
  pose proof Hs as (Hl & _). pose proof Hl as (_ & Hc & _). pose proof (length_text s Hl) as Ht. destruct (cut_kept s a (cur s) Hl Ha Hc) as (k & Hk1 & Hk2 & Hk3). rewrite Hk1. rewrite minus_le by done. cbn [mbind run_bind].
  refine (kill_acts s k _ o _ _ _ _ Hs Hk2 (delete_ok a (cur s) _ o Hk2 Ha Hc Ha) _). change (text (set_kill k (cur s - a) s)) with (text s). change (cur (set_kill k (cur s - a) s)) with (cur s). rewrite Nat.leb_refl. replace (cur s - (cur s - a))%nat with a by lia.
  rewrite Hk3. cbn [view before after]. rewrite take_app_length' by (rewrite length_take; lia). rewrite drop_app_length' by (rewrite length_take; lia). rewrite take_take, Nat.min_l by lia. by rewrite skipn_firstn_comm.
Qed.

Lemma move_views s : line_ok s -> let v := view s in
  MkView (take (cur s - 1) (text s)) (drop (cur s - 1) (text s)) (cut v) = MkView (take (length (before v) - 1) (before v)) (drop (length (before v) - 1) (before v) ++ after v) (cut v) /\
  MkView (take (Nat.min (S (cur s)) (len s)) (text s)) (drop (Nat.min (S (cur s)) (len s)) (text s)) (cut v) = MkView (before v ++ take 1 (after v)) (drop 1 (after v)) (cut v).
Proof.
  intros Hs. pose proof (length_text s Hs) as Ht. pose proof Hs as (_ & Hc & _). cbv zeta. destruct (view_lengths s Hs) as (-> & _ & _). cbn [view before after cut]. split; f_equal.
  - rewrite take_take. f_equal. lia.
  - rewrite <- (take_drop (cur s) (text s)) at 1. rewrite drop_app_le by (rewrite length_take; lia). done.
  - rewrite <- (take_drop (cur s) (text s)) at 1. rewrite take_app_ge by (rewrite length_take; lia). f_equal. rewrite length_take, !firstn_skipn_comm. f_equal. destruct (decide (cur s = len s)) as [He|He]; [|f_equal; lia].
    rewrite !take_ge by lia. done.
  - rewrite drop_drop. destruct (decide (cur s = len s)) as [He|He]; [|f_equal; lia]. rewrite !drop_ge by lia. done.
Qed.

Lemma insert_acts b s o : editor_ok s -> printable b = true ->
  acts s o ('(s1, o1) ← insert b s o; Done (NoEvent, s1, o1)) NoEvent (if (len s <? LINE_MAX)%nat then MkView (before (view s) ++ [b]) (after (view s)) (cut (view s)) else view s) (last_was_cr s).
Proof.
  intros Hs Hb. pose proof Hs as (Hl & _). pose proof (length_text s Hl) as Ht. pose proof Hl as (_ & Hc & _). destruct (Nat.ltb_spec (len s) LINE_MAX) as [Hlt|Hge].
  - eapply acts_edit; [done|by apply insert_ok|]. cbn [view before after cut]. replace (take (cur s) (text s) ++ b :: drop (cur s) (text s)) with ((take (cur s) (text s) ++ [b]) ++ drop (cur s) (text s)) by (by rewrite <- app_assoc).
    by rewrite take_app_length', drop_app_length' by (rewrite length_app, length_take; cbn; lia).
  - unfold insert. destruct (Nat.leb_spec LINE_MAX (len s)); [|lia]. refine (acts_edit s o (Done (s, o ++ [BEL])) _ _ _ Hs (edits_bell s o Hl) _). done.
Qed.

Lemma yank_acts s o : editor_ok s -> acts s o ('(s1, o1) ← yank s o; Done (NoEvent, s1, o1)) NoEvent (MkView (before (view s) ++ take (LINE_MAX - len s) (cut (view s))) (after (view s)) (cut (view s))) (last_was_cr s).
Proof.
  intros Hs. pose proof Hs as (Hl & _). pose proof (length_text s Hl) as Ht. pose proof Hl as (_ & Hc & _). eapply acts_edit; [done|exact (yank_ok s o Hl)|]. cbn [view before after cut]. unfold killed. rewrite (take_take (kill s)), (Nat.min_comm (LINE_MAX - len s)).
  set (u := take _ (kill s)). rewrite app_assoc. by rewrite take_app_length', drop_app_length' by (rewrite length_app, length_take; lia).
Qed.

Lemma delete_acts s o : editor_ok s ->
  acts s o ('(s1, o1) ← delete_at s o; Done (NoEvent, s1, o1)) NoEvent (MkView (before (view s)) (drop 1 (after (view s))) (cut (view s))) (last_was_cr s) /\
  acts s o ('(s1, o1) ← backspace s o; Done (NoEvent, s1, o1)) NoEvent (MkView (take (cur s - 1) (before (view s))) (after (view s)) (cut (view s))) (last_was_cr s).
Proof.
  intros Hs. pose proof Hs as (Hl & _). pose proof (length_text s Hl) as Ht. pose proof Hl as (_ & Hc & _). split; (eapply acts_edit; [done|by first [apply delete_at_ok | apply backspace_ok]|]); cbn [view before after cut].
  - rewrite take_app_length', drop_app_length' by (rewrite length_take; lia). rewrite drop_drop. do 2 f_equal. lia.
  - rewrite take_app_length', drop_app_length' by (rewrite length_take; lia). rewrite take_take. do 2 f_equal. lia.
Qed.

Lemma clear_acts s o : editor_ok s -> acts s o (p ← slice (prompt s) 0 (prompt_len s); t ← slice (buf s) 0 (len s); n ← minus (len s) (cur s); o1 ← csi_left n (o ++ [ESC; 91; 50; 74; ESC; 91; 72] ++ p ++ t); Done (NoEvent, s, o1)) NoEvent (view s) (last_was_cr s).
Proof.
  intros Hs. pose proof (clear_ok s o Hs) as Hk. split; [done|]. destruct Hk as (ev & s' & e & Hr & _). destruct (slice (prompt s) _ _); [|done]. destruct (slice (buf s) _ _); [|done]. destruct (minus _ _); [|done]. cbn [mbind run_bind] in *. destruct (csi_left _ _); [|done]. cbn [mbind run_bind] in *.
  by eexists _, _.
Qed.

Lemma feed_key_acts b s o : editor_ok s -> last_was_cr s = false -> b <> ESC -> acts s o (feed_key b s o) (edit_event b (view s)) (edit b (view s)) (b =? 13).
Proof.
  intros Hs Hcr Hesc. pose proof Hs as (Hl & _). destruct (view_lengths s Hl) as (V1 & V2 & V3). destruct (move_views s Hl) as [M1 M2]. unfold edit, edit_event, feed_key. cbv zeta in *. rewrite V2. fold (view s). destruct (view s) as [l r k] eqn:Hv. cbn [before after cut] in *. rewrite V2, V1 in *.
  assert (Hk : killed s = k) by (by injection Hv). destruct (Z.eqb_spec b ESC); [done|].
  destruct (Z.eqb_spec b 13) as [->|H13]; [rewrite <- Hk; by apply finish_acts|]. cbn [orb]. destruct (Z.eqb_spec b 10) as [->|H10]; [rewrite <- Hk; by apply finish_acts|]. cbn [orb]. rewrite <- Hcr.
  destruct (b =? 3); [rewrite <- Hk; by apply interrupt_acts|]. destruct (Z.eqb_spec b 9) as [->|H9]; [rewrite <- Hv; by apply acts_same|].
  destruct (b =? 4).
  { cbn [andb]. destruct (Nat.eqb_spec (len s) 0) as [Hz|Hz]; [|pose proof (proj1 (delete_acts s o Hs)) as Hd; by rewrite Hv in Hd]. destruct l, r; try (cbn in V2; lia). change (drop 1 (@nil Z)) with (@nil Z). rewrite <- Hv. by apply acts_same. }
  cbn [andb]. destruct (b =? 1); [eapply acts_edit; [done|by apply home_ok|]; rewrite V3, Hk; done|]. destruct (b =? 5); [eapply acts_edit; [done|by apply end_ok|]; rewrite V3, Hk, take_ge, drop_ge by (rewrite <- V3; lia); done|].
  destruct (b =? 2); [eapply (acts_edit s o (Done (left s o))); [done|by apply left_ok|]; by rewrite Hk|]. destruct (b =? 6); [eapply (acts_edit s o (Done (right s o))); [done|by apply right_ok|]; by rewrite Hk|].
  destruct (b =? 11); [pose proof (kill_after_acts s o Hs) as Ha; by rewrite Hv in Ha|].
  destruct (b =? 21).
  { pose proof (kill_range_acts 0 s o Hs ltac:(lia)) as Ha. rewrite minus_le, Nat.sub_0_r in Ha by lia. by rewrite Hv in Ha. }
  destruct (b =? 23).
  { destruct (word_start_take s Hl) as [W1 W2]. pose proof (kill_range_acts (word_start s) s o Hs W1) as Ha. rewrite Hv in Ha. cbn [before after] in Ha. assert (take (word_start s) l = drop_word l) as E.
    { injection Hv as <- _ _. rewrite <- W2, take_take. f_equal. lia. }
    rewrite E in Ha. assert (length (drop_word l) = word_start s) as -> by (rewrite <- E, length_take; lia). exact Ha. }
  destruct (b =? 25); [pose proof (yank_acts s o Hs) as Ha; by rewrite Hv in Ha|]. destruct (Z.eqb_spec b 12) as [->|H12]; [rewrite <- Hv; by apply clear_acts|].
  destruct (_ || _); [pose proof (proj2 (delete_acts s o Hs)) as Hd; by rewrite Hv in Hd|]. unfold printable. destruct (between 32 126 b) eqn:Hb; [pose proof (insert_acts b s o Hs Hb) as Ha; rewrite Hv in Ha; exact Ha|]. rewrite <- Hv. by apply acts_same.
Qed.

Lemma feed_key_ok b s o : editor_ok s -> last_was_cr s = false -> key_ok s o (feed_key b s o).
Proof.
  intros Hs Hcr. destruct (Z.eqb_spec b ESC) as [->|Hb]; [|by apply (feed_key_acts b s o)]. apply same_key; try done. by apply editor_esc.
Qed.

Lemma add_digit_ok p b : in_width 16 p -> between 48 57 b = true -> exists v, add_digit false p b = Done v /\ in_width 16 v.
Proof.
  intros Hp Hb. unfold add_digit. cbv zeta. set (v := _ + _). assert (Hv : 0 <= v).
  { unfold v, saturating_mul, between, in_width in *. apply andb_true_iff in Hb as [Hb _]. apply Z.leb_le in Hb. change (2 ^ 16) with 65536 in *. lia. }
  destruct (Z.ltb_spec v (2 ^ 16)); [exists v; split; [done|by split]|]. exists (wrap 16 v). split; [done|]. unfold wrap. apply Z.mod_pos_bound. done.
Qed.

Lemma feed_csi_ok p0 p1 n b s o : editor_ok s -> in_width 16 p0 -> in_width 16 p1 -> key_ok s o (feed_csi false p0 p1 n b s o).
Proof.
  intros Hs H0 H1. unfold feed_csi. destruct (between 48 57 b) eqn:Hb.
  - destruct (n =? 0)%nat; [destruct (add_digit_ok p0 b H0 Hb) as (v & -> & Hv)|destruct (add_digit_ok p1 b H1 Hb) as (v & -> & Hv)]; cbn [mbind run_bind]; apply same_key; try done; by apply editor_esc.
  - destruct (b =? 59); [apply same_key; try done; by apply editor_esc|]. destruct (between 64 126 b); [by apply csi_final_ok|by apply same_key].
Qed.

Lemma feed_ok b s o : editor_ok s -> key_ok s o (feed false b s o).
Proof.
  intros Hs. unfold feed. cbv zeta. pose proof (editor_cr false s Hs) as H0. destruct (_ && _); [by apply same_key|].
  pose proof (editor_esc Idle _ H0 I) as H1. set (s1 := set_esc Idle (set_cr false s)) in *. apply (key_from s s1); try done. destruct Hs as (_ & _ & He). change (esc (set_cr false s)) with (esc s). destruct (esc s) as [| |p0 p1 n|].
  - by apply feed_key_ok.
  - destruct (b =? 91); [apply same_key; try done; by apply editor_esc|]. destruct (b =? 79); [apply same_key; try done; by apply editor_esc|by apply same_key].
  - destruct He. by apply feed_csi_ok.
  - by apply csi_final_ok.
Qed.

(** A completion the client asked for is typed like the rest. *)
Lemma insert_grows b s o s' o' : line_ok s -> printable b = true -> insert b s o = Done (s', o') -> (len s <= len s')%nat.
Proof.
  intros Hs Hb. destruct (decide (len s < LINE_MAX)%nat) as [Hlt|Hge].
  - destruct (insert_ok b s o Hs Hb Hlt) as (s1 & e & -> & H1 & H2 & _). intros [= <- _]. rewrite <- (length_text s Hs), <- (length_text s1 H1), H2, length_app. cbn [length]. rewrite length_take, length_drop. lia.
  - unfold insert. destruct (Nat.leb_spec LINE_MAX (len s)); [|lia]. by intros [= <- _].
Qed.

Lemma insert_text_ok u : forall s o, line_ok s -> exists t c, edits s o (insert_text u s o) t c /\ (len s <= length t)%nat.
Proof.
  induction u as [|b u IH]; intros s o Hs; [eexists _, _; split; [by apply edits_same|]; by rewrite length_text|]. cbn [insert_text]. destruct (between 32 126 b) eqn:Hb; cbn [mbind run_bind]; [|by apply IH].
  destruct (insert_any b s o Hs Hb) as (t & c & s1 & e & Hr & H1 & <- & <- & P & H5). pose proof (insert_grows b s o s1 _ Hs Hb Hr) as Hg. rewrite Hr. cbn [mbind run_bind]. destruct (IH s1 (o ++ e) H1) as (t & c & (s2 & e2 & -> & G1 & G2 & G3 & R & G5) & Hl).
  exists t, c. split; [|lia]. exists s2, (e ++ e2). split; [by rewrite app_assoc|]. split; [done|]. split; [done|]. split; [done|]. split; [by eapply same_side_trans|]. pose proof (length_text s Hs). pose proof (length_text s1 H1). unfold fits in *. intros q Hq. rewrite show_app, H5 by lia. apply G5. lia.
Qed.

(** ** Lines and sessions *)

(** A client gives keys and completions; each key is answered by an event, and a line
    by the line. *)
Inductive Input := Key (b : Z) | Complete (u : list Z).

Definition answer (checks : bool) (i : Input) (s : LineDisc) (o : list Z) : run (Event * LineDisc * list Z) :=
  match i with
  | Key b => feed checks b s o
  | Complete u => '(s1, o1) ← insert_text u s o; Done (NoEvent, s1, o1)
  end.

Definition told (ev : Event) (s : LineDisc) : Event * list Z := (ev, match ev with Line => line s | _ => [] end).

Fixpoint session (checks : bool) (ins : list Input) (s : LineDisc) (o : list Z) : run (list (Event * list Z) * LineDisc * list Z) :=
  match ins with
  | [] => Done ([], s, o)
  | i :: ins' =>
      '(ev, s1, o1) ← answer checks i s o;
      '(evs, s2, o2) ← session checks ins' s1 o1; Done (told ev s1 :: evs, s2, o2)
  end.

Lemma answer_ok i s o : editor_ok s -> key_ok s o (answer false i s o).
Proof. intros Hs. destruct i as [b|u]; [by apply feed_ok|]. cbn [answer]. apply edit_key; [done|]. destruct (insert_text_ok u s o (proj1 Hs)) as (t & c & He & _). by exists t, c. Qed.

(** What may stand before the line: what stood there, nothing, or the prompt. *)
Definition behind (q p q' : list Z) : Prop := q' = q \/ q' = [] \/ q' = p.

(** The longest line there is in a session. *)
Fixpoint widest (ins : list Input) (s : LineDisc) (o : list Z) : nat :=
  Nat.max (len s)
    match ins with
    | [] => 0
    | i :: ins' => match answer false i s o with Done (_, s1, o1) => widest ins' s1 o1 | Panicked => 0 end
    end.

Lemma widest_len ins s o : (len s <= widest ins s o)%nat.
Proof. destruct ins; cbn [widest]; lia. Qed.

Lemma session_ok ins : forall s o, editor_ok s -> exists evs s' e, session false ins s o = Done (evs, s', o ++ e) /\ editor_ok s' /\
  forall q, fits q (widest ins s o) -> fits (prompt_text s) (widest ins s o) -> exists q', show_all e (showing q (text s) (cur s)) = showing q' (text s') (cur s') /\ behind q (prompt_text s) q'.
Proof.
  induction ins as [|i ins IH]; intros s o Hs.
  { exists [], s, []. rewrite app_nil_r. split; [done|]. split; [done|]. intros q _ _. exists q. split; [done|by left]. }
  cbn [session widest]. destruct (answer_ok i s o Hs) as (ev & s1 & e1 & -> & H1 & _ & Hp & H2). cbn [mbind run_bind]. destruct (IH s1 (o ++ e1) H1) as (evs & s2 & e2 & -> & H3 & H4). cbn [mbind run_bind].
  exists (told ev s1 :: evs), s2, (e1 ++ e2). split; [by rewrite app_assoc|]. split; [done|]. pose proof (widest_len ins s1 (o ++ e1)) as Hw. pose proof (length_text s (proj1 Hs)) as L0. pose proof (length_text s1 (proj1 H1)) as L1. unfold fits in *. intros q F1 F2.
  destruct (H2 q) as (q1 & E1 & Q1); [lia..|]. destruct (H4 q1) as (q2 & E2 & Q2); [destruct Q1 as [-> | [-> | ->]]; cbn [length] in *; lia|destruct Hp as [-> | ->]; cbn [length] in *; lia|]. exists q2. split; [by rewrite show_app, E1|].
  unfold behind in *. destruct Q2 as [-> | [-> | ->]]; [done|by right; left|]. destruct Hp as [-> | ->]; [by right; right|by right; left].
Qed.

(** A key that an escape sequence's parameter has no room for. *)
Definition overflowing (i : Input) (s : LineDisc) : bool :=
  match i, esc s with
  | Key b, Csi p0 p1 n => between 48 57 b && (2 ^ 16 <=? saturating_mul 16 (if (n =? 0)%nat then p0 else p1) 10 + (b - 48))
  | _, _ => false
  end.

Fixpoint overflows (ins : list Input) (s : LineDisc) (o : list Z) : bool :=
  match ins with
  | [] => false
  | i :: ins' => overflowing i s || match answer false i s o with Done (_, s1, o1) => overflows ins' s1 o1 | Panicked => false end
  end.

Lemma answer_checks i s o : answer true i s o = if overflowing i s then Panicked else answer false i s o.
Proof.
  destruct i as [b|u]; [|done]. unfold overflowing. cbn [answer]. unfold feed. cbv zeta. change (esc (set_cr false s)) with (esc s). destruct (esc s) as [| |p0 p1 n|]; try done. destruct (Z.eqb_spec b 10) as [->|_]; [done|]. cbn [andb].
  unfold feed_csi, add_digit. destruct (between 48 57 b); [|done]. cbn [andb]. destruct (n =? 0)%nat; destruct (Z.ltb_spec (saturating_mul 16 (p0) 10 + (b - 48)) (2 ^ 16)), (Z.ltb_spec (saturating_mul 16 (p1) 10 + (b - 48)) (2 ^ 16)); destruct (Z.leb_spec (2 ^ 16) (saturating_mul 16 p0 10 + (b - 48))), (Z.leb_spec (2 ^ 16) (saturating_mul 16 p1 10 + (b - 48))); (lia || done).
Qed.

Lemma session_checks ins : forall s o, session true ins s o = if overflows ins s o then Panicked else session false ins s o.
Proof.
  induction ins as [|i ins IH]; intros s o; [done|]. cbn [session overflows]. rewrite answer_checks. destruct (overflowing i s); [done|]. cbn [orb]. destruct (answer false i s o) as [[[ev s1] o1]|]; [|done]. cbn [mbind run_bind]. rewrite IH. by destruct (overflows ins s1 o1).
Qed.

Lemma new_editor_ok : editor_ok new.
Proof.
  split; [|split; [constructor|done]]. assert (Ha : array_ok (replicate LINE_MAX 0) 0) by (split; [apply length_replicate|]; split; [lia|constructor]). split; [done|]. split; [done|]. constructor; cbn [done_buf kill kill_len hist hist_count hist_next browse stash stash_len stash_cur prompt prompt_len new]; try done.
  - split; [done|]. intros i e l [[= -> ->] _]%lookup_replicate. done.
  - split; [lia|by apply Nat.ltb_lt].
  - split; [apply length_replicate|]. apply Nat.le_0_l.
Qed.

Lemma start_line_ok p s o : editor_ok s -> all_printable p -> exists s' e, start_line p s o = Done (s', o ++ e) /\ editor_ok s' /\ view s' = view s /\ esc s' = esc s /\ last_was_cr s' = last_was_cr s /\ prompt_text s' = take PROMPT_MAX p /\
  forall q, fits (q ++ prompt_text s') (len s') -> show_all e (MkScreen q (length q) Plain) = showing (q ++ prompt_text s') (text s') (cur s').
Proof.
  intros (Hl & _ & He) Hp. pose proof Hl as (Hbuf & Hc & Hr). unfold start_line, resume_line. destruct (ro_prompt s Hr) as [Hp1 _]. set (n := Nat.min (length p) PROMPT_MAX). assert (Hn : length (take n p) = n) by (unfold n; rewrite length_take; lia).
  destruct (copy_in_used (prompt s) 0 (take n p) n Hn ltac:(lia)) as (b & -> & Hb1 & Hb2). cbn [mbind run_bind]. change (take 0 (prompt s)) with (@nil Z) in Hb2. cbn [app] in Hb2. unfold repaint. cbn [prompt prompt_len set_prompt buf len cur].
  rewrite (slice_start b) by lia. cbn [mbind run_bind]. destruct (array_text _ _ Hbuf) as (-> & _ & Htp). cbn [mbind run_bind]. rewrite minus_le by done. cbn [mbind run_bind]. fold (text s) in *. rewrite Hb2. destruct Hbuf as (Hbuf & Hlm & _).
  destruct (left_shown (len s - cur s) (o ++ take n p ++ text s)) as (e & -> & He2); [apply max_1000; lia|]. cbn [mbind run_bind]. assert (Hpt : take n p = take PROMPT_MAX p).
  { unfold n. destruct (decide (length p <= PROMPT_MAX)%nat); [rewrite Nat.min_l, !take_ge by lia|rewrite Nat.min_r by lia]; done. }
  eexists (set_prompt b n s), ((take n p ++ text s) ++ e). split; [by rewrite <- !app_assoc|]. split; [split; [split; [done|]; split; [done|]|split; [|done]]|].
  - destruct Hr. constructor; try done. cbn. lia.
  - unfold prompt_text. cbn. rewrite Hb2. by apply Forall_take.
  - split; [done|]. split; [done|]. split; [done|]. unfold prompt_text. cbn [prompt prompt_len set_prompt]. rewrite Hb2. split; [done|]. intros q Hq. unfold fits in Hq. rewrite length_app in Hq. cbn [len set_prompt] in Hq. pose proof (length_text s Hl) as Htl. rewrite show_app, show_text; [|apply Forall_app; split; [by apply Forall_take|done]|done|rewrite length_app; lia]. rewrite He2. unfold showing. change (text (set_prompt b n s)) with (text s). change (cur (set_prompt b n s)) with (cur s).
    rewrite take_ge, drop_ge, app_nil_r, app_assoc by lia. f_equal. rewrite !length_app. lia.
Qed.

(** ** The editor and the reference editor *)

(** A line feed right after a carriage return is the end of the same line. *)
Definition ref_answer (i : Input) (v : View) (cr : bool) : (Event * list Z) * View * bool :=
  match i with
  | Key b =>
      if (b =? 10) && cr then (NoEvent, [], v, false)
      else let ev := edit_event b v in (ev, match ev with Line => before v ++ after v | _ => [] end, edit b v, b =? 13)
  | Complete u => (NoEvent, [], foldl (fun v b => if printable b then edit b v else v) v u, cr)
  end.

Fixpoint ref_session (ins : list Input) (v : View) (cr : bool) : list (Event * list Z) * View :=
  match ins with
  | [] => ([], v)
  | i :: ins' =>
      let '(ev, v1, cr1) := ref_answer i v cr in
      let '(evs, v2) := ref_session ins' v1 cr1 in (ev :: evs, v2)
  end.

Definition plain_input (i : Input) : bool := match i with Key b => negb (b =? ESC) | Complete _ => true end.

Lemma edit_printable b v : printable b = true -> edit b v = if (length (before v ++ after v) <? LINE_MAX)%nat then MkView (before v ++ [b]) (after v) (cut v) else v.
Proof.
  intros Hb. pose proof (proj1 (printable_spec b) Hb). destruct v as [l r k]. unfold edit. rewrite Hb. unfold BS. cbn [before after cut andb].
  repeat match goal with |- context [b =? ?n] => destruct (Z.eqb_spec b n); [lia|] end. done.
Qed.

Lemma insert_text_view u : forall s o, editor_ok s -> exists s' e, insert_text u s o = Done (s', e) /\ view s' = foldl (fun v b => if printable b then edit b v else v) (view s) u /\ editor_ok s' /\ esc s' = esc s /\ last_was_cr s' = last_was_cr s.
Proof.
  induction u as [|b u IH]; intros s o Hs; [by exists s, o|]. cbn [insert_text foldl]. unfold printable at 2. destruct (between 32 126 b) eqn:Hb; [|by apply IH]. destruct (insert_acts b s o Hs Hb) as [(ev & s0 & e0 & Hk0 & Hk1 & _) (s1 & e1 & Hr & Hv & H1 & H2)].
  destruct (insert b s o) as [[s1' o1]|]; [|done]. cbn [mbind run_bind] in *. assert (s1' = s1) as -> by congruence. assert (s0 = s1) as -> by congruence. destruct (IH s1 o1 Hk1) as (s2 & e2 & -> & G1 & G2 & G3 & G4). exists s2, e2. split; [done|]. split; [|split_and!; congruence].
  rewrite G1, Hv, (edit_printable b (view s) Hb). by rewrite (proj1 (proj2 (view_lengths s (proj1 Hs)))).
Qed.

Lemma feed_view checks b s o : editor_ok s -> esc s = Idle -> b <> ESC -> let '(ev, v, cr) := ref_answer (Key b) (view s) (last_was_cr s) in
  exists ev0 s' e, feed checks b s o = Done (ev0, s', e) /\ told ev0 s' = ev /\ view s' = v /\ last_was_cr s' = cr /\ editor_ok s' /\ esc s' = Idle.
Proof.
  intros Hs He Hb. unfold ref_answer, feed. cbv zeta. destruct ((b =? 10) && last_was_cr s).
  { eexists NoEvent, _, _. split; [done|]. split_and!; try done. by apply editor_cr. }
  change (esc (set_cr false s)) with (esc s). rewrite He. set (s1 := set_esc Idle (set_cr false s)). assert (H1 : editor_ok s1) by (apply editor_esc; [by apply editor_cr|done]).
  destruct (feed_key_acts b s1 o H1 eq_refl Hb) as [(ev & s' & e & Hr & H2 & H3 & _) (s2 & e2 & Hr2 & G1 & G2 & G3)]. change (view s1) with (view s) in *. rewrite Hr in Hr2. injection Hr2 as -> -> <-. eexists _, s2, _. split; [exact Hr|]. split; [|done].
  unfold told. destruct (edit_event b (view s)); try done. f_equal. rewrite (proj1 (H3 eq_refl)). cbn [view before after]. by rewrite take_drop.
Qed.

Lemma session_view checks ins : forall s o, editor_ok s -> esc s = Idle -> forallb plain_input ins = true ->
  exists evs s' e, session checks ins s o = Done (evs, s', e) /\ ref_session ins (view s) (last_was_cr s) = (evs, view s') /\ editor_ok s'.
Proof.
  induction ins as [|i ins IH]; intros s o Hs He Hi; [by exists [], s, o|]. cbn [forallb] in Hi. apply andb_true_iff in Hi as [Hi Hrest]. cbn [session ref_session].
  assert (Hx : let '(ev, v, cr) := ref_answer i (view s) (last_was_cr s) in exists ev0 s' e, answer checks i s o = Done (ev0, s', e) /\ told ev0 s' = ev /\ view s' = v /\ last_was_cr s' = cr /\ editor_ok s' /\ esc s' = Idle).
  { destruct i as [b|u]; [apply feed_view; try done; intros ->; done|]. cbn [ref_answer answer]. destruct (insert_text_view u s o Hs) as (s' & e & -> & H1 & H2 & H3 & H4). cbn [mbind run_bind]. eexists NoEvent, s', e. split_and!; try done. congruence. }
  destruct (ref_answer i (view s) (last_was_cr s)) as [[ev v] cr]. destruct Hx as (ev0 & s1 & e1 & -> & <- & <- & <- & H1 & H2). cbn [mbind run_bind]. destruct (IH s1 e1 H1 H2 Hrest) as (evs & s2 & e2 & -> & Hr & H3). rewrite Hr. cbn [mbind run_bind]. by eexists _, s2, e2.
Qed.

End Terminal.

(** ** The queue of raw bytes *)

Definition RAW_QUEUE_MAX : nat := 64.

Record RawQueue := MkRawQueue { rbuf : list Z; rhead : nat; rlen : nat }.

Definition raw_new : RawQueue := MkRawQueue (replicate RAW_QUEUE_MAX 0) 0 0.
Definition is_empty (q : RawQueue) : bool := (rlen q =? 0)%nat.

Definition push_one (q : RawQueue) (b : Z) : RawQueue := MkRawQueue (<[((rhead q + rlen q) mod RAW_QUEUE_MAX)%nat := b]> (rbuf q)) (rhead q) (S (rlen q)).

Definition push (bytes : list Z) (q : RawQueue) : run (nat * RawQueue) :=
  room ← minus RAW_QUEUE_MAX (rlen q);
  let n := Nat.min (length bytes) room in
  Done (n, foldl push_one q (take n bytes)).

Fixpoint pack (q : RawQueue) (i n : nat) (packed : Z) : run Z :=
  match n with
  | O => Done packed
  | S n' =>
      match rbuf q !! ((rhead q + i) mod RAW_QUEUE_MAX)%nat with
      | Some b => pack q (S i) n' (Z.lor packed (Z.shiftl b (8 * Z.of_nat i)))
      | None => Panicked
      end
  end.

Definition pop8 (q : RawQueue) : run (option (nat * Z) * RawQueue) :=
  if (rlen q =? 0)%nat then Done (None, q)
  else
    let n := Nat.min (rlen q) 8 in
    packed ← pack q 0 n 0;
    Done (Some (n, packed), MkRawQueue (rbuf q) ((rhead q + n) mod RAW_QUEUE_MAX) (rlen q - n)).

(** The bytes waiting, oldest first. *)
Definition at_ (q : RawQueue) (i : nat) : Z := nth ((rhead q + i) mod RAW_QUEUE_MAX) (rbuf q) 0.
Definition waiting (q : RawQueue) : list Z := at_ q <$> seq 0 (rlen q).

Definition raw_ok (q : RawQueue) : Prop := length (rbuf q) = RAW_QUEUE_MAX /\ (rhead q < RAW_QUEUE_MAX)%nat /\ (rlen q <= RAW_QUEUE_MAX)%nat.

Lemma mod_inj h i j m : (i < m)%nat -> (j < m)%nat -> ((h + i) mod m = (h + j) mod m)%nat -> i = j.
Proof. intros Hi Hj He. pose proof (Nat.div_mod_eq (h + i) m). pose proof (Nat.div_mod_eq (h + j) m). destruct (Nat.lt_trichotomy ((h + i) / m) ((h + j) / m)) as [Hq|[Hq|Hq]]; nia. Qed.

Lemma push_one_ok q b : raw_ok q -> (rlen q < RAW_QUEUE_MAX)%nat -> raw_ok (push_one q b) /\ waiting (push_one q b) = waiting q ++ [b].
Proof.
  intros (Hb & Hh & Hl) Hlt. split; [split_and!; cbn; [by rewrite length_insert|done|lia]|]. unfold waiting. cbn [rlen push_one]. rewrite seq_S, fmap_app. cbn [Nat.add]. f_equal.
  - apply list_fmap_ext. intros k i Hi. apply lookup_seq in Hi as [-> Hk]. unfold at_. cbn [rhead rbuf push_one]. rewrite !nth_lookup, list_lookup_insert_ne; [done|]. intros He. apply mod_inj in He; unfold RAW_QUEUE_MAX in *; lia.
  - cbn [fmap list_fmap]. f_equal. unfold at_. cbn [rhead rbuf push_one]. rewrite nth_lookup, list_lookup_insert_eq; [done|]. rewrite Hb. by apply Nat.mod_upper_bound.
Qed.

(** What fits of the bytes waits behind the rest, in order. *)
Lemma push_ok bytes q : raw_ok q -> exists q', push bytes q = Done (Nat.min (length bytes) (RAW_QUEUE_MAX - rlen q), q') /\ raw_ok q' /\ waiting q' = waiting q ++ take (RAW_QUEUE_MAX - rlen q) bytes.
Proof.
  intros Hq. pose proof Hq as (_ & _ & Hl). unfold push. rewrite minus_le by done. cbn [mbind run_bind]. eexists. split; [done|]. set (room := (RAW_QUEUE_MAX - rlen q)%nat).
  assert (take (Nat.min (length bytes) room) bytes = take room bytes) as ->. { destruct (decide (length bytes <= room)%nat); [rewrite Nat.min_l, !take_ge by lia|rewrite Nat.min_r by lia]; done. }
  assert (Hr : (rlen q + length (take room bytes) <= RAW_QUEUE_MAX)%nat) by (rewrite length_take; lia). revert Hr. generalize (take room bytes) as bs. clear bytes room. intros bs. revert q Hq Hl. induction bs as [|b bs IH]; intros q Hq Hl Hr; [by rewrite app_nil_r|].
  cbn [length foldl] in *. destruct (push_one_ok q b Hq ltac:(lia)) as [H1 H2]. destruct (IH (push_one q b) H1) as [G1 G2]; [cbn; lia|cbn; lia|]. split; [done|]. by rewrite G2, H2, <- app_assoc.
Qed.

(** The bytes of a word, least significant first. *)
Fixpoint word_of (l : list Z) : Z := match l with [] => 0 | b :: l' => b + 256 * word_of l' end.

Lemma lor_add w x k : 0 <= k -> in_width k x -> Z.lor x (Z.shiftl w k) = x + 2 ^ k * w.
Proof.
  intros Hk Hx. rewrite Z.shiftl_mul_pow2 by done. pose proof (Z.add_lor_land x (w * 2 ^ k)). enough (Z.land x (w * 2 ^ k) = 0) by lia. apply Z.bits_inj'. intros n Hn. rewrite Z.land_spec, Z.bits_0. destruct (Z.lt_ge_cases n k) as [Hlt|Hge].
  - rewrite <- Z.shiftl_mul_pow2, Z.shiftl_spec_low by done. apply andb_false_r.
  - assert (Z.testbit x n = false) as ->; [|done]. apply Z.testbit_false; [done|]. rewrite Z.div_small; [done|]. unfold in_width in Hx. split; [lia|]. pose proof (Z.pow_le_mono_r 2 k n ltac:(lia) Hge). lia.
Qed.

Lemma pack_ok q : raw_ok q -> Forall (in_width 8) (rbuf q) -> forall n i packed, in_width (8 * Z.of_nat i) packed -> pack q i n packed = Done (packed + 2 ^ (8 * Z.of_nat i) * word_of (at_ q <$> seq i n)).
Proof.
  intros (Hb & Hh & Hl) Hw. induction n as [|n IH]; intros i packed Hp; [cbn; f_equal; lia|]. cbn [pack seq fmap list_fmap word_of]. destruct (lookup_lt_is_Some_2 (rbuf q) ((rhead q + i) mod RAW_QUEUE_MAX)) as [b Hi]; [rewrite Hb; by apply Nat.mod_upper_bound|].
  rewrite Hi. assert (at_ q i = b) as -> by (unfold at_; rewrite nth_lookup, Hi; done). pose proof (Forall_lookup_1 _ _ _ _ Hw Hi) as Hbw. rewrite lor_add by (done || lia). replace (8 * Z.of_nat (S i)) with (8 * Z.of_nat i + 8) in * by lia.
  assert (E : 2 ^ (8 * Z.of_nat (S i)) = 2 ^ (8 * Z.of_nat i) * 256) by (replace (8 * Z.of_nat (S i)) with (8 * Z.of_nat i + 8) by lia; by rewrite Z.pow_add_r by lia). rewrite IH; [rewrite E; f_equal; lia|]. unfold in_width in *. rewrite E. change (2 ^ 8) with 256 in Hbw. nia.
Qed.

(** Up to eight of the oldest bytes leave, packed in a word. *)
Lemma pop8_ok q : raw_ok q -> Forall (in_width 8) (rbuf q) -> (0 < rlen q)%nat -> let n := Nat.min (rlen q) 8 in
  exists q', pop8 q = Done (Some (n, word_of (take n (waiting q))), q') /\ raw_ok q' /\ waiting q' = drop n (waiting q).
Proof.
  intros Hq Hw Hn n. pose proof Hq as (Hb & Hh & Hl). unfold pop8. destruct (Nat.eqb_spec (rlen q) 0); [lia|]. cbv zeta. fold n. rewrite pack_ok by (done || (split; cbn; lia)). cbn [mbind run_bind]. eexists. split.
  - do 4 f_equal. cbn [Z.of_nat Z.mul Z.pow]. unfold waiting. rewrite <- fmap_take, take_seq, Nat.min_l by (unfold n; lia). cbn. lia.
  - split; [split_and!; cbn [rbuf rhead rlen]; [done|by apply Nat.mod_upper_bound|lia]|]. unfold waiting. cbn [rlen]. rewrite <- fmap_drop, drop_seq. apply list_eq. intros i. rewrite !list_lookup_fmap. destruct (decide (i < rlen q - n)%nat) as [Hi|Hi].
    + rewrite !lookup_seq_lt by done. cbn [fmap option_fmap option_map Nat.add]. f_equal. unfold at_. cbn [rhead rbuf]. f_equal. rewrite Nat.Div0.add_mod_idemp_l. f_equal. lia.
    + by rewrite !lookup_seq_ge by lia.
Qed.

(** ** A client's output *)

(** [from] is where the bytes not yet put begin. *)
Fixpoint expand_from (src rest : list Z) (from i : nat) (o : list Z) : run (list Z) :=
  match rest with
  | [] => t ← slice src from (length src); Done (o ++ t)
  | b :: rest' => if b =? 10 then t ← slice src from i; expand_from src rest' (S i) (S i) (o ++ t ++ [13; 10]) else expand_from src rest' from (S i) o
  end.

Definition expand_output (src o : list Z) : run (list Z) := expand_from src src 0 0 o.

Definition expanded (b : Z) : list Z := if b =? 10 then [13; 10] else [b].

Lemma expand_from_ok src rest : forall from i o, (from <= i)%nat -> (i + length rest = length src)%nat -> drop i src = rest ->
  expand_from src rest from i o = Done (o ++ take (i - from) (drop from src) ++ flat_map expanded rest).
Proof.
  induction rest as [|b rest IH]; intros from i o Hf Hi Hd; cbn [expand_from flat_map length] in *.
  { rewrite slice_in by lia. cbn [mbind run_bind]. rewrite app_nil_r. do 3 f_equal. lia. }
  assert (Hb : src !! i = Some b) by (rewrite <- (Nat.add_0_r i), <- lookup_drop, Hd; done). assert (Hd' : drop (S i) src = rest) by (replace (S i) with (i + 1)%nat by lia; rewrite <- drop_drop, Hd; done). unfold expanded at 1. destruct (b =? 10).
  - rewrite slice_in by lia. cbn [mbind run_bind]. rewrite IH by (done || lia). rewrite Nat.sub_diag. cbn [take app]. by rewrite <- !app_assoc.
  - rewrite IH by (done || lia). f_equal. f_equal. replace (S i - from)%nat with (S (i - from)) by lia. rewrite (take_S_r _ _ b); [by rewrite <- app_assoc|]. rewrite lookup_drop. by replace (from + (i - from))%nat with i by lia.
Qed.

(** Every line feed is put as a carriage return and a line feed, the rest as it is. *)
Lemma expand_output_ok src o : expand_output src o = Done (o ++ flat_map expanded src).
Proof. unfold expand_output. by rewrite (expand_from_ok src src) by (done || lia). Qed.

(** ** Requests *)

Definition OPERATION_SHIFT : Z := 56.
Definition FLAG_RETRY : Z := Z.shiftl 1 2.

Definition req (operation len : Z) : Z := Z.lor (wrap 64 (Z.shiftl operation OPERATION_SHIFT)) (Z.land len 0xffffffff).
Definition operation (w0 : Z) : Z := Z.shiftr w0 OPERATION_SHIFT.
Definition req_len (w0 : Z) : Z := Z.land w0 0xffffffff.
Definition is_retry (r0 r1 : Z) : bool := (r0 =? 0) && (r1 =? FLAG_RETRY).

(** A request word gives back its operation and its length. *)
Lemma req_read_back op n : in_width 8 op -> in_width 32 n -> operation (req op n) = op /\ req_len (req op n) = n.
Proof.
  intros Ho Hn. unfold req, operation, req_len, OPERATION_SHIFT, in_width, wrap in *. change 0xffffffff with (Z.ones 32). rewrite !Z.land_ones by lia. rewrite (Z.mod_small n) by done.
  rewrite (Z.mod_small (Z.shiftl op 56)) by (rewrite Z.shiftl_mul_pow2 by lia; lia). rewrite Z.lor_comm, lor_add by (unfold in_width; lia). rewrite Z.shiftr_div_pow2 by lia. split.
  - rewrite Z.mul_comm, Z.div_add, Z.div_small by lia. lia.
  - replace (n + 2 ^ 56 * op) with (n + (2 ^ 24 * op) * 2 ^ 32) by lia. rewrite Z.mod_add by lia. by apply Z.mod_small.
Qed.

(** ** Theorems *)

(** C32: what the terminal shows is the line being edited, as long as it fits the row. An
    editor starts a line with a printable prompt on a terminal whose cursor stands at
    the end of a row, and is then given any bytes as keys, escape sequences and control
    bytes included, and any completions. Without overflow checks no call panics; with
    them one does exactly when a digit of an escape sequence takes a parameter past 16
    bits. Where what stood in the row, the prompt, the longest line of the session and
    two columns more are narrower than the terminal, the row holds after them the line
    the editor holds, with the cursor where the editor's is and nothing stale behind it.
    Before the line stands what was there and the prompt, nothing (a line was ended or
    interrupted), or the prompt alone (the screen was cleared). *)
Theorem terminal_shows_the_line (width : nat) (checks : bool) (p row0 : list Z) (ins : list Input) :
  all_printable p ->
  exists s0 e0 evs s e, start_line p new [] = Done (s0, e0) /\
    session checks ins s0 e0 = (if checks && overflows ins s0 e0 then Panicked else Done (evs, s, e)) /\
    ((length (row0 ++ take PROMPT_MAX p) + widest ins s0 e0 + 2 < width)%nat ->
      exists q, show_all width e (MkScreen row0 (length row0) Plain) = MkScreen (q ++ text s) (length q + cur s) Plain /\
        behind (row0 ++ take PROMPT_MAX p) (take PROMPT_MAX p) q).
Proof.
  intros Hp. destruct (start_line_ok width p new [] new_editor_ok Hp) as (s0 & e0 & H0 & Hs0 & _ & _ & _ & Hpt & Hq). destruct (session_ok width ins s0 e0 Hs0) as (evs & s & e & H1 & _ & H2). exists s0, e0, evs, s, (e0 ++ e). split; [done|].
  split; [destruct checks; [by rewrite session_checks, H1|done]|]. intros Hw. unfold fits in *. pose proof (widest_len ins s0 e0). rewrite Hpt in *. destruct (H2 (row0 ++ take PROMPT_MAX p)) as (q & E & Hb); [done|rewrite length_app in Hw; lia|].
  exists q. split; [|done]. rewrite show_app, Hq by lia. exact E.
Qed.

(** A prompt, a word typed with a correction, a recall and a cleared screen, on twelve
    columns. *)
Definition sample_keys : list Input := [Key 97; Key 98; Key 0x02; Key 99; Key 13; Key 10; Complete [100; 101; 32]; Key 0x7f; Key ESC; Key 91; Key 65; Key 0x0c; Key 0x17].

Definition started : LineDisc * list Z := match start_line [36; 32] new [] with Done r => r | Panicked => (new, []) end.

Lemma terminal_shows_the_line_witness : exists evs s e q, session true sample_keys started.1 started.2 = Done (evs, s, e) /\
  show_all 12 e (MkScreen [62] 1 Plain) = MkScreen (q ++ text s) (length q + cur s) Plain /\ behind ([62] ++ take PROMPT_MAX [36; 32]) (take PROMPT_MAX [36; 32]) q.
Proof.
  assert (Hw : widest sample_keys started.1 started.2 = 3%nat) by (vm_compute; reflexivity). assert (Ho : overflows sample_keys started.1 started.2 = false) by (vm_compute; reflexivity). assert (H0' : start_line [36; 32] new [] = Done started) by (vm_compute; reflexivity).
  destruct (terminal_shows_the_line 12 true [36; 32] [62] sample_keys) as (s0 & e0 & evs & s & e & H0 & H1 & H2); [repeat constructor|]. assert (Hst : started = (s0, e0)) by congruence. rewrite Hst in Hw, Ho |- *. cbn [fst snd] in *. rewrite Ho in H1. cbn [andb] in H1.
  destruct H2 as (q & E & B); [rewrite Hw; apply Nat.ltb_lt; reflexivity|]. by exists evs, s, e, q.
Defined.

(** C33: the line editor does what the reference editor does. On any keys but escape and
    any completions, from a line just started, every call completes, with overflow
    checks or without, and gives the events the reference editor gives, the lines with
    their text; what stands before the cursor, after it and in the kill buffer is what
    the reference editor has there. *)
Theorem editor_refines_the_reference (checks : bool) (p : list Z) (ins : list Input) :
  all_printable p -> forallb plain_input ins = true ->
  exists s0 e0 evs s e, start_line p new [] = Done (s0, e0) /\ session checks ins s0 e0 = Done (evs, s, e) /\
    ref_session ins (MkView [] [] []) false = (evs, view s).
Proof.
  intros Hp Hi. destruct (start_line_ok 0 p new [] new_editor_ok Hp) as (s0 & e0 & H0 & Hs0 & Hv & He & Hcr & _). destruct (session_view 0 checks ins s0 e0 Hs0 He Hi) as (evs & s & e & H1 & H2 & _). rewrite Hv, Hcr in H2. by exists s0, e0, evs, s, e.
Qed.

Lemma editor_refines_the_reference_witness : exists s0 e0 evs s e, start_line [36; 32] new [] = Done (s0, e0) /\ session true (Key <$> [97; 98; 0x02; 99; 13; 10; 0x19; 100; 13]) s0 e0 = Done (evs, s, e) /\
  ref_session (Key <$> [97; 98; 0x02; 99; 13; 10; 0x19; 100; 13]) (MkView [] [] []) false = (evs, view s).
Proof. apply (editor_refines_the_reference true [36; 32]); [repeat constructor|reflexivity]. Defined.

(** What the reference editor makes of them: the lines [acb] and [d ], with [e] cut. *)
Example reference_sample : ref_session (Key <$> [97; 98; 0x02; 99; 13; 10; 100; 32; 101; 0x17; 13]) (MkView [] [] []) false =
  ([(NoEvent, []); (NoEvent, []); (NoEvent, []); (NoEvent, []); (Line, [97; 99; 98]); (NoEvent, []); (NoEvent, []); (NoEvent, []); (NoEvent, []); (NoEvent, []); (Line, [100; 32])], MkView [] [] [101]).
Proof. vm_compute. reflexivity. Qed.

(** A five-digit parameter of an escape sequence: the multiplication saturates but the
    addition overflows, which a build with overflow checks turns into a panic. *)
Lemma parameter_overflows : session true (Key <$> [27; 91; 55; 48; 48; 48; 57]) new [] = Panicked /\ (exists evs s e, session false (Key <$> [27; 91; 55; 48; 48; 48; 57]) new [] = Done (evs, s, e)).
Proof. split; [vm_compute; reflexivity|]. destruct (session_ok 0 (Key <$> [27; 91; 55; 48; 48; 48; 57]) new [] new_editor_ok) as (evs & s & e & H & _). by eexists _, _, _. Qed.

End LineEditor.
