(* ===== verification/Manifest.v ===== *)
(** * What a program declares (crates/grant_plan/src/lib.rs)

    The manifest: which argument, memory, file, directory, options, streams and
    services a program asks for; the table of the programs the system carries;
    and the rules under which an image from a file may run. *)

From S2P Require Import Prelude.
Local Open Scope Z_scope.

Module Manifest.

Definition DIAGNOSTICS_SLOT : Z := 8.
Definition MAX_DECLARED_FLAGS : nat := 16.

(** ** The specs *)

Inductive OutputSpec :=
  | OutputSpecSilent
  | OutputSpecWords
  | OutputSpecBytes
  | OutputSpecBytesAndDiagnostics (slot : Z).

Definition is_byte_stream (o : OutputSpec) : bool :=
  match o with OutputSpecBytes | OutputSpecBytesAndDiagnostics _ => true | _ => false end.

Definition diagnostics_slot (o : OutputSpec) : option Z :=
  match o with OutputSpecBytesAndDiagnostics slot => Some slot | _ => None end.

Inductive InputSpec :=
  | InputSpecForbidden
  | InputSpecRequired (writes_while_reading : bool).

Inductive WordGrant := ReadOnly | ReadWrite | Create.

(** The directory rights behind each word grant. *)
Definition rights (g : WordGrant) : Z :=
  let ENUMERATE := Z.shiftl 1 0 in
  let READ := Z.shiftl 1 1 in
  let WRITE := Z.shiftl 1 2 in
  let CREATE := Z.shiftl 1 3 in
  let DESCEND := Z.shiftl 1 5 in
  let read := Z.lor (Z.lor ENUMERATE READ) DESCEND in
  match g with
  | ReadOnly => read
  | ReadWrite => Z.lor read WRITE
  | Create => Z.lor (Z.lor read WRITE) CREATE
  end.

Inductive ArgSpec :=
  | ArgSpecRequired
  | ArgSpecForbidden
  | ArgSpecWords (g : WordGrant).

Definition hears_words (a : ArgSpec) : bool := match a with ArgSpecWords _ => true | _ => false end.

Inductive MemSpec :=
  | MemSpecForbidden
  | MemSpecRequired (min max : Z).

Inductive FileSpec :=
  | FileSpecForbidden
  | FileSpecRequired (writable : bool).

Inductive DirSpec :=
  | DirSpecForbidden
  | DirSpecRequired (subtree_flag : option Z).

Inductive Runtime := Native | Std.

(** ** Option letters *)

(** The fields are private: every value comes from [try_new]. *)
Record Flags := MkFlags { array : list Z; count : Z }.

(** [before] is [letters[..i]], the rest is still to be read. *)
Fixpoint try_new_loop (before rest out : list Z) : option (list Z) :=
  match rest with
  | [] => Some out
  | l :: rest' =>
      if negb (is_ascii_alphanumeric l) then None
      else if bool_decide (l ∈ before) then None
      else try_new_loop (before ++ [l]) rest' (<[length before := l]> out)
  end.

Definition try_new (letters : list Z) : option Flags :=
  if (MAX_DECLARED_FLAGS <? length letters)%nat then None else
  out ← try_new_loop [] letters (replicate MAX_DECLARED_FLAGS 0);
  Some (MkFlags out (wrap 8 (Z.of_nat (length letters)))).

Definition Flags_new (letters : list Z) : run Flags :=
  match try_new letters with Some f => Done f | None => Panicked end.

Definition letters (f : Flags) : list Z := take (Z.to_nat (count f)) (array f).

(** What [Flags::new(b"")] and [Flags::new(b"rfv")] are at compile time. *)
Definition NO_FLAGS : Flags := MkFlags (replicate 16 0) 0.
Definition RM_FLAGS : Flags := MkFlags (lit "rfv" ++ replicate 13 0) 3.

(** ** The manifest *)

Record Manifest := MkManifest {
  arg : ArgSpec;
  mem : MemSpec;
  file : FileSpec;
  dir : DirSpec;
  flags : Flags;
  output : OutputSpec;
  input : InputSpec;
  reports : bool;
  interruptible : bool;
  clock : bool;
  domain : bool;
  config : bool;
  entropy : bool;
  network : bool;
  machine : bool;
  share : bool;
  runtime : Runtime
}.

#[export] Instance OutputSpec_eq_dec : EqDecision OutputSpec.
Proof. solve_decision. Defined.
#[export] Instance InputSpec_eq_dec : EqDecision InputSpec.
Proof. solve_decision. Defined.
#[export] Instance WordGrant_eq_dec : EqDecision WordGrant.
Proof. solve_decision. Defined.
#[export] Instance ArgSpec_eq_dec : EqDecision ArgSpec.
Proof. solve_decision. Defined.
#[export] Instance MemSpec_eq_dec : EqDecision MemSpec.
Proof. solve_decision. Defined.
#[export] Instance FileSpec_eq_dec : EqDecision FileSpec.
Proof. solve_decision. Defined.
#[export] Instance DirSpec_eq_dec : EqDecision DirSpec.
Proof. solve_decision. Defined.
#[export] Instance Runtime_eq_dec : EqDecision Runtime.
Proof. solve_decision. Defined.
#[export] Instance Flags_eq_dec : EqDecision Flags.
Proof. solve_decision. Defined.
#[export] Instance Manifest_eq_dec : EqDecision Manifest.
Proof. solve_decision. Defined.

(** ** The programs *)

Inductive Prog :=
  | LeastAuthorityDemo | MemoryGrantDepleter | InterruptHeeder | InterruptIgnorer | Date | Rm
  | Wc | Mdr | Ps | Pgrep | Uptime | Printenv
  | Uuid | Top | NetworkEchoClient | UnreachableNetworkWitness | StdExerciser | Free
  | Vmstat | Slabtop | GraphicalTerminal.

Definition ALL : list Prog :=
  [LeastAuthorityDemo; MemoryGrantDepleter; InterruptHeeder; InterruptIgnorer; Date; Rm;
   Wc; Mdr; Ps; Pgrep; Uptime; Printenv;
   Uuid; Top; NetworkEchoClient; UnreachableNetworkWitness; StdExerciser; Free;
   Vmstat; Slabtop; GraphicalTerminal].

Definition name (p : Prog) : string :=
  match p with
  | LeastAuthorityDemo => "least_authority_demo"
  | MemoryGrantDepleter => "memory_grant_depleter"
  | InterruptHeeder => "interrupt_heeder"
  | InterruptIgnorer => "interrupt_ignorer"
  | Date => "date"
  | Rm => "rm"
  | Wc => "wc"
  | Mdr => "mdr"
  | Ps => "ps"
  | Pgrep => "pgrep"
  | Uptime => "uptime"
  | Printenv => "printenv"
  | Uuid => "uuid"
  | Top => "top"
  | NetworkEchoClient => "network_echo_client"
  | UnreachableNetworkWitness => "unreachable_network_witness"
  | StdExerciser => "std_exerciser"
  | Free => "free"
  | Vmstat => "vmstat"
  | Slabtop => "slabtop"
  | GraphicalTerminal => "graphical_terminal"
  end.

Definition id (p : Prog) : Z :=
  match p with
  | LeastAuthorityDemo => 0
  | MemoryGrantDepleter => 1
  | InterruptHeeder => 2
  | InterruptIgnorer => 3
  | Date => 4
  | Rm => 5
  | Wc => 6
  | Mdr => 7
  | Ps => 8
  | Pgrep => 9
  | Uptime => 10
  | Printenv => 11
  | Uuid => 12
  | Top => 13
  | NetworkEchoClient => 14
  | UnreachableNetworkWitness => 15
  | StdExerciser => 16
  | Free => 17
  | Vmstat => 18
  | Slabtop => 19
  | GraphicalTerminal => 20
  end.

(** The fields in the order of the struct. *)
Definition manifest (p : Prog) : Manifest :=
  match p with
  | LeastAuthorityDemo =>
      MkManifest ArgSpecRequired MemSpecForbidden FileSpecForbidden DirSpecForbidden NO_FLAGS
        OutputSpecWords InputSpecForbidden
        true false false false false false false false false Native
  | MemoryGrantDepleter =>
      MkManifest ArgSpecForbidden (MemSpecRequired 1 64) FileSpecForbidden DirSpecForbidden NO_FLAGS
        OutputSpecWords InputSpecForbidden
        true false false false false false false false false Native
  | InterruptHeeder =>
      MkManifest ArgSpecForbidden MemSpecForbidden FileSpecForbidden DirSpecForbidden NO_FLAGS
        OutputSpecSilent InputSpecForbidden
        false true false false false false false false false Native
  | InterruptIgnorer =>
      MkManifest ArgSpecForbidden MemSpecForbidden FileSpecForbidden DirSpecForbidden NO_FLAGS
        OutputSpecSilent InputSpecForbidden
        false true false false false false false false false Native
  | Date =>
      MkManifest ArgSpecForbidden MemSpecForbidden FileSpecForbidden DirSpecForbidden NO_FLAGS
        (OutputSpecBytesAndDiagnostics DIAGNOSTICS_SLOT) InputSpecForbidden
        true false true false false false false false false Native
  | Rm =>
      MkManifest ArgSpecForbidden MemSpecForbidden FileSpecForbidden (DirSpecRequired (Some 114)) RM_FLAGS
        OutputSpecBytes InputSpecForbidden
        true false false false false false false false false Native
  | Wc =>
      MkManifest ArgSpecForbidden MemSpecForbidden FileSpecForbidden DirSpecForbidden NO_FLAGS
        OutputSpecBytes (InputSpecRequired false)
        true false false false false false false false false Native
  | Mdr =>
      MkManifest ArgSpecForbidden MemSpecForbidden FileSpecForbidden DirSpecForbidden NO_FLAGS
        OutputSpecBytes (InputSpecRequired true)
        true false false false false false false false false Native
  | Ps =>
      MkManifest ArgSpecForbidden MemSpecForbidden FileSpecForbidden DirSpecForbidden NO_FLAGS
        (OutputSpecBytesAndDiagnostics DIAGNOSTICS_SLOT) InputSpecForbidden
        true false false true false false false false false Native
  | Pgrep =>
      MkManifest ArgSpecForbidden MemSpecForbidden FileSpecForbidden DirSpecForbidden NO_FLAGS
        (OutputSpecBytesAndDiagnostics DIAGNOSTICS_SLOT) InputSpecForbidden
        true false false true false false false false false Native
  | Top =>
      MkManifest ArgSpecForbidden MemSpecForbidden FileSpecForbidden DirSpecForbidden NO_FLAGS
        (OutputSpecBytesAndDiagnostics DIAGNOSTICS_SLOT) InputSpecForbidden
        true false false true false false false true false Native
  | Printenv =>
      MkManifest ArgSpecForbidden MemSpecForbidden FileSpecForbidden DirSpecForbidden NO_FLAGS
        OutputSpecBytes InputSpecForbidden
        true false false false true false false false false Native
  | Uptime =>
      MkManifest ArgSpecForbidden MemSpecForbidden FileSpecForbidden DirSpecForbidden NO_FLAGS
        OutputSpecBytes InputSpecForbidden
        true false false false false false false false false Native
  | NetworkEchoClient =>
      MkManifest ArgSpecForbidden (MemSpecRequired 4 16) FileSpecForbidden DirSpecForbidden NO_FLAGS
        OutputSpecBytes InputSpecForbidden
        true false false false false false true false false Native
  | UnreachableNetworkWitness =>
      MkManifest ArgSpecForbidden MemSpecForbidden FileSpecForbidden DirSpecForbidden NO_FLAGS
        OutputSpecBytes InputSpecForbidden
        true false false false false false false false false Native
  | Uuid =>
      MkManifest ArgSpecForbidden MemSpecForbidden FileSpecForbidden DirSpecForbidden NO_FLAGS
        (OutputSpecBytesAndDiagnostics DIAGNOSTICS_SLOT) InputSpecForbidden
        true false false false false true false false false Native
  | Free =>
      MkManifest ArgSpecForbidden MemSpecForbidden FileSpecForbidden DirSpecForbidden NO_FLAGS
        (OutputSpecBytesAndDiagnostics DIAGNOSTICS_SLOT) InputSpecForbidden
        true false false false false false false true true Native
  | Vmstat =>
      MkManifest ArgSpecForbidden MemSpecForbidden FileSpecForbidden DirSpecForbidden NO_FLAGS
        (OutputSpecBytesAndDiagnostics DIAGNOSTICS_SLOT) InputSpecForbidden
        true false false false false false false true false Native
  | Slabtop =>
      MkManifest ArgSpecForbidden MemSpecForbidden FileSpecForbidden DirSpecForbidden NO_FLAGS
        (OutputSpecBytesAndDiagnostics DIAGNOSTICS_SLOT) InputSpecForbidden
        true false false false false false false false true Native
  | GraphicalTerminal =>
      MkManifest ArgSpecForbidden MemSpecForbidden FileSpecForbidden DirSpecForbidden NO_FLAGS
        OutputSpecWords InputSpecForbidden
        true false false false false false false false false Native
  | StdExerciser =>
      MkManifest (ArgSpecWords ReadOnly) MemSpecForbidden FileSpecForbidden DirSpecForbidden NO_FLAGS
        OutputSpecBytes InputSpecForbidden
        true false true false true true false false false Std
  end.

#[export] Instance Prog_eq_dec : EqDecision Prog.
Proof. solve_decision. Defined.

(** The names are tried in the order of the table. *)
Fixpoint from_name_in (ps : list Prog) (n : list Z) : option Prog :=
  match ps with
  | [] => None
  | p :: ps' => if bool_decide (n = lit (name p)) then Some p else from_name_in ps' n
  end.
Definition from_name (n : list Z) : option Prog := from_name_in ALL n.

Fixpoint from_id_in (ps : list Prog) (i : Z) : option Prog :=
  match ps with
  | [] => None
  | p :: ps' => if i =? id p then Some p else from_id_in ps' i
  end.
Definition from_id (i : Z) : option Prog := from_id_in ALL i.

Fixpoint one_past_highest_loop (next : Z) (ids : list Z) : Z :=
  match ids with
  | [] => next
  | i :: ids' => one_past_highest_loop (if next <=? i then i + 1 else next) ids'
  end.
Definition one_past_highest (ids : list Z) : Z := one_past_highest_loop 0 ids.
Definition PROG_COUNT : Z := one_past_highest (id <$> ALL).

(** ** Images from a file *)

Inductive ImageRefusal := Unreadable | NotCarried | ExceedsVouch.

Definition NO_NOTE_MANIFEST : Manifest := manifest Uptime.
Definition IMAGE_ROW : Prog := Uptime.

Definition UNVOUCHED_MANIFEST : Manifest :=
  MkManifest ArgSpecForbidden MemSpecForbidden FileSpecForbidden DirSpecForbidden NO_FLAGS
    OutputSpecBytes InputSpecForbidden
    true false true false true false false false false Native.

Definition UNVOUCHED_STD_MANIFEST : Manifest :=
  MkManifest (ArgSpecWords ReadOnly) MemSpecForbidden FileSpecForbidden DirSpecForbidden NO_FLAGS
    OutputSpecBytes InputSpecForbidden
    true false true false true false false false false Std.

Definition image_can_carry (m : Manifest) : bool :=
  let std := bool_decide (runtime m = Std) in
  match output m with OutputSpecBytes | OutputSpecWords => true | _ => false end
  && bool_decide (file m = FileSpecForbidden)
  && bool_decide (dir m = DirSpecForbidden)
  && bool_decide (input m = InputSpecForbidden)
  && bool_decide (letters (flags m) = [])
  && negb (interruptible m)
  && Bool.eqb std (hears_words (arg m))
  && (negb std
      || (bool_decide (output m = OutputSpecBytes)
          && bool_decide (mem m = MemSpecForbidden)
          && negb (domain m)
          && negb (network m))).

Definition image_hears_words (m : Manifest) : bool := hears_words (arg m).

Definition image_manifest (declared : option Manifest) (vouched : bool) : result ImageRefusal Manifest :=
  let declared := default NO_NOTE_MANIFEST declared in
  if negb (image_can_carry declared) then Err NotCarried
  else if vouched then Ok declared
  else if bool_decide (runtime declared = Std) then Ok UNVOUCHED_STD_MANIFEST
  else
    let u := UNVOUCHED_MANIFEST in
    if negb (bool_decide (arg declared = arg u)) || negb (bool_decide (mem declared = mem u)) then Err ExceedsVouch
    else Ok u.

Definition image_request_fits (m : Manifest) (a mem_pages : Z) (words : bool) : bool :=
  if negb (Bool.eqb words (image_hears_words m)) then false
  else
    let arg_ok := bool_decide (arg m = ArgSpecRequired) || (a =? 0) in
    let mem_ok :=
      match mem m with
      | MemSpecForbidden => mem_pages =? 0
      | MemSpecRequired min max => (min <=? mem_pages) && (mem_pages <=? max)
      end in
    arg_ok && mem_ok.

Definition STD_REGION_PAGES : Z := 256 + 128.

Definition image_region_pages (image_pages : Z) (r : Runtime) (native : Z) : run Z :=
  match checked_add 64 image_pages (match r with Std => STD_REGION_PAGES | Native => native end) with
  | Some n => Done n
  | None => Panicked
  end.

(** ** Option letters are a set of at most sixteen *)

Definition letters_ok (l : list Z) : Prop :=
  (length l <= MAX_DECLARED_FLAGS)%nat /\ Forall (fun b => is_ascii_alphanumeric b = true) l /\ NoDup l.

(** The value [try_new] builds from its letters. *)
Definition packed_flags (l : list Z) : Flags :=
  MkFlags (l ++ replicate (MAX_DECLARED_FLAGS - length l) 0) (Z.of_nat (length l)).

Definition flags_ok (f : Flags) : Prop := exists l, letters_ok l /\ f = packed_flags l.

Lemma letters_packed l : letters (packed_flags l) = l.
Proof. unfold letters, packed_flags. simpl. by rewrite Nat2Z.id, take_app_length. Qed.

Lemma try_new_loop_spec before rest tail :
  try_new_loop before rest (before ++ replicate (length rest) 0 ++ tail) =
    if decide (Forall (fun b => is_ascii_alphanumeric b = true) rest /\ NoDup rest /\ Forall (.∉ before) rest)
    then Some (before ++ rest ++ tail) else None.
Proof.
  revert before. induction rest as [|l rest IH]; intros before; cbn [try_new_loop length replicate app].
  { rewrite decide_True; [done|]. by split_and!; constructor. }
  destruct (is_ascii_alphanumeric l) eqn:Ha; simpl.
  2: { rewrite decide_False; [done|]. intros (H & _). apply Forall_cons in H as [H _]. congruence. }
  case_bool_decide as Hin.
  { rewrite decide_False; [done|]. intros (_ & _ & H). apply Forall_cons in H as [H _]. done. }
  rewrite insert_app_r_alt, Nat.sub_diag by done. cbn [list_insert insert].
  replace (before ++ l :: replicate (length rest) 0 ++ tail) with ((before ++ [l]) ++ replicate (length rest) 0 ++ tail)
    by by rewrite <- (assoc_L app).
  rewrite IH. rewrite <- (assoc_L app before).
  match goal with |- (if decide ?P then _ else _) = (if decide ?Q then _ else _) => assert (Hiff : P <-> Q) end.
  { rewrite !Forall_cons, NoDup_cons, !Forall_forall. setoid_rewrite elem_of_app. setoid_rewrite list_elem_of_singleton. naive_solver. }
  destruct (decide _) as [H|H]; [rewrite decide_True|rewrite decide_False]; tauto || done.
Qed.

Lemma try_new_spec l f : try_new l = Some f <-> letters_ok l /\ f = packed_flags l.
Proof.
  unfold try_new, letters_ok, packed_flags. destruct (Nat.ltb_spec MAX_DECLARED_FLAGS (length l)) as [Hlt|Hle]; [split; [done|lia]|].
  replace (replicate MAX_DECLARED_FLAGS 0) with ([] ++ replicate (length l) 0 ++ replicate (MAX_DECLARED_FLAGS - length l) 0)
    by (rewrite app_nil_l, <- replicate_add; f_equal; lia).
  rewrite try_new_loop_spec. case_decide as H; simpl.
  - rewrite wrap_small by (unfold MAX_DECLARED_FLAGS in *; split; lia). split; [intros [= <-]|intros (_ & ->)]; [|done]. tauto.
  - split; [done|]. intros [(_ & Ha & Hn) _]. exfalso. apply H. split_and!; [done|done|].
    apply Forall_forall. intros x _. apply not_elem_of_nil.
Qed.

Lemma flags_ok_try_new f : flags_ok f <-> try_new (letters f) = Some f.
Proof.
  split.
  - intros (l & Hl & ->). rewrite letters_packed. by apply try_new_spec.
  - intros H. exists (letters f). by apply try_new_spec.
Qed.

Example no_flags_new : Flags_new [] = Done NO_FLAGS /\ Flags_new (lit "rfv") = Done RM_FLAGS.
Proof. by vm_compute. Qed.

(** ** The program table *)

(** The program table is a dictionary: each program is found under its own
    name and number and under no other, and every number is below [PROG_COUNT]. *)
Theorem program_table_is_injective p n i :
  (from_name n = Some p <-> n = lit (name p)) /\ (from_id i = Some p <-> i = id p) /\
  0 <= id p < PROG_COUNT.
Proof.
  split_and!.
  - split; [|intros ->; by destruct p].
    unfold from_name. generalize ALL. induction l as [|q l IH]; simpl; [done|].
    case_bool_decide; [intros [= ->]; done|exact IH].
  - split; [|intros ->; by destruct p].
    unfold from_id. generalize ALL. induction l as [|q l IH]; simpl; [done|].
    destruct (Z.eqb_spec i (id q)); [intros [= ->]; done|exact IH].
  - by destruct p.
  - by destruct p.
Qed.

(** ** What an image may run with *)

(** An image runs with no more than it declared, and with next to nothing
    when nobody vouched for it. A vouched image runs with its own declaration,
    one the loader can carry; an unvouched one gets no memory, no service but
    the clock and the configuration, and only a request with no argument and no
    pages fits it. Words are heard only by an image that asked for them. *)
Theorem image_runs_with_what_it_may declared vouched m :
  image_manifest declared vouched = Ok m ->
  let d := default NO_NOTE_MANIFEST declared in
  image_can_carry m = true /\ image_can_carry d = true /\
  image_hears_words m = image_hears_words d /\ runtime m = runtime d /\
  (vouched = true -> m = d) /\
  (vouched = false ->
     (mem m, file m, dir m, input m) = (MemSpecForbidden, FileSpecForbidden, DirSpecForbidden, InputSpecForbidden) /\
     domain m || entropy m || network m || machine m || share m || interruptible m = false /\
     forall a pages words, image_request_fits m a pages words = true <->
       a = 0 /\ pages = 0 /\ words = image_hears_words d).
Proof.
  unfold image_manifest. set (d := default NO_NOTE_MANIFEST declared). cbv zeta.
  destruct (image_can_carry d) eqn:Hc; [|done]. cbn [negb].
  assert (Hw : bool_decide (runtime d = Std) = image_hears_words d).
  { unfold image_can_carry in Hc. rewrite !andb_true_iff in Hc. destruct Hc as [[_ Hw] _]. by apply Bool.eqb_prop. }
  destruct vouched; [intros [= <-]; naive_solver|].
  case_bool_decide as Hr.
  - intros [= <-]. rewrite <- Hw. split_and!; try done. intros _. split_and!; try done.
    intros a pages words. unfold image_request_fits. simpl. destruct words; simpl; [|naive_solver].
    rewrite andb_true_iff, !Z.eqb_eq. naive_solver.
  - destruct (negb _ || negb _); [done|]. intros [= <-]. rewrite <- Hw. split_and!; try done; [by destruct (runtime d)|].
    intros _. split_and!; try done.
    intros a pages words. unfold image_request_fits. simpl. destruct words; simpl; [naive_solver|].
    rewrite andb_true_iff, !Z.eqb_eq. naive_solver.
Qed.

Lemma image_runs_with_what_it_may_witness :
  image_manifest (Some (manifest StdExerciser)) false = Ok UNVOUCHED_STD_MANIFEST /\
  image_request_fits UNVOUCHED_STD_MANIFEST 0 0 true = true.
Proof.
  assert (H : image_manifest (Some (manifest StdExerciser)) false = Ok UNVOUCHED_STD_MANIFEST) by reflexivity.
  split; [exact H|].
  pose proof (image_runs_with_what_it_may (Some (manifest StdExerciser)) false UNVOUCHED_STD_MANIFEST H) as Hi.
  cbv zeta in Hi. destruct Hi as (_ & _ & _ & _ & _ & Hu). apply (Hu eq_refl). repeat split.
Defined.

End Manifest.
