(* ===== verification/ElfNote.v ===== *)
(** * Notes in an image (crates/elf/src/note.rs)

    An image carries its declaration in a note segment. The finder reads the
    program headers of bytes nobody has checked, walks the notes of each note
    segment, and answers only when one note carries the owner and kind asked
    for. A loop that runs out of its fuel counts as a panic here, so that the
    totality theorem covers both. *)

From S2P Require Import Prelude Elf.
Local Open Scope Z_scope.

Module ElfNote.
Import (notations) Elf.

Notation len := Elf.len.
Notation u16le := Elf.u16le.
Notation u32le := Elf.u32le.
Notation u64le := Elf.u64le.
Notation slice := Elf.slice.
Notation byte_at := Elf.byte_at.

Definition PT_NOTE : Z := 4.
Definition NHDR_SIZE : Z := 12.

Inductive NoteError := NotReadable | SegmentOutOfBounds | BadAlignment | Truncated | Duplicate.

Record NoteSegment := MkNoteSegment { offset : Z; size : Z; p_align : Z }.

(** [usize] is 64 bits wide, so the conversions cannot fail. *)
Definition range (s : NoteSegment) (file_len : Z) : result NoteError (Z * Z) :=
  match checked_add 64 (offset s) (size s) with
  | None => Err SegmentOutOfBounds
  | Some end_ => if file_len <? end_ then Err SegmentOutOfBounds else Ok (offset s, end_)
  end.

(** ** The note segments of an image *)

Record NoteSegments := MkNoteSegments { table : list Z; phentsize : Z; phnum : Z; next_ : Z }.

Definition from_head (head : list Z) : run (result NoteError NoteSegments) :=
  if len head <? Elf.EHDR_SIZE then Done (Err NotReadable) else
  magic ← slice head 0 4;
  if negb (bool_decide (magic = Elf.MAGIC)) then Done (Err NotReadable) else
  class ← byte_at head 4;
  if negb (class =? Elf.ELFCLASS64) then Done (Err NotReadable) else
  order ← byte_at head 5;
  if negb (order =? Elf.ELFDATA2LSB) then Done (Err NotReadable) else
  phoff ← u64le head 32;
  entsize ← u16le head 54;
  num ← u16le head 56;
  if (entsize <? Elf.PHDR_SIZE) || (Elf.MAX_PHNUM <? num) then Done (Err NotReadable) else
  bytes ← Elf.plain_mul num entsize;
  match checked_add 64 phoff bytes with
  | None => Done (Err NotReadable)
  | Some end_ =>
      if len head <? end_ then Done (Err NotReadable) else
      t ← slice head phoff end_;
      Done (Ok (MkNoteSegments t entsize num 0))
  end.

Definition header_at (s : NoteSegments) (i : Z) : run (list Z) :=
  at_ ← Elf.plain_mul i (phentsize s);
  rest ← slice (table s) at_ (len (table s));
  slice rest 0 Elf.PHDR_SIZE.

Definition advanced (s : NoteSegments) : NoteSegments :=
  MkNoteSegments (table s) (phentsize s) (phnum s) (next_ s + 1).

Fixpoint next_loop (fuel : nat) (s : NoteSegments) : run (option NoteSegment * NoteSegments) :=
  match fuel with
  | O => Panicked
  | S fuel' =>
      if next_ s <? phnum s then
        ph ← header_at s (next_ s);
        let s' := advanced s in
        t ← u32le ph 0;
        if t =? PT_NOTE then
          o ← u64le ph 8;
          sz ← u64le ph 32;
          al ← u64le ph 48;
          Done (Some (MkNoteSegment o sz al), s')
        else next_loop fuel' s'
      else Done (None, s)
  end.

Definition next (s : NoteSegments) : run (option NoteSegment * NoteSegments) :=
  next_loop (S (Z.to_nat (phnum s - next_ s))) s.

(** ** The notes of a segment *)

Record Extent := MkExtent { name_start : Z; name_end : Z; desc_start : Z; desc_end : Z; next_note : Z }.

Definition align_up (x align : Z) : option Z :=
  let mask := align - 1 in
  y ← checked_add 64 x mask;
  Some (Z.land y (not_w 64 mask)).

Definition note_extent (length_ at_ namesz descsz align : Z) : result NoteError Extent :=
  name_start ← ok_or (checked_add 64 at_ NHDR_SIZE) Truncated;
  if length_ <? name_start then Err Truncated else
  name_end ← ok_or (checked_add 64 name_start namesz) Truncated;
  desc_start ← ok_or (align_up name_end align) Truncated;
  desc_end ← ok_or (checked_add 64 desc_start descsz) Truncated;
  next ← ok_or (align_up desc_end align) Truncated;
  if length_ <? next then Err Truncated
  else Ok (MkExtent name_start name_end desc_start desc_end next).

Definition padding (p_align : Z) : result NoteError Z :=
  if (p_align =? 0) || (p_align =? 1) || (p_align =? 4) then Ok 4
  else if p_align =? 8 then Ok 8
  else Err BadAlignment.

(** [ntype == kind && name.len() == owner.len() + 1 && name[name.len() - 1] == 0
    && &name[..owner.len()] == owner]. *)
Definition carries (name owner : list Z) (ntype kind : Z) : run bool :=
  if negb (ntype =? kind) then Done false
  else if negb (len name =? len owner + 1) then Done false
  else
    last ← byte_at name (len name - 1);
    if negb (last =? 0) then Done false
    else
      front ← slice name 0 (len owner);
      Done (bool_decide (front = owner)).

Fixpoint find_loop (fuel : nat) (seg : list Z) (align : Z) (owner : list Z) (kind : Z)
    (seen : bool) (found : option (list Z)) (at_ : Z) : run (result NoteError (option (list Z))) :=
  match fuel with
  | O => Panicked
  | S fuel' =>
      if at_ <? len seg then
        if len seg - at_ <? NHDR_SIZE then Done (Err Truncated) else
        namesz ← u32le seg at_;
        descsz ← u32le seg (at_ + 4);
        ntype ← u32le seg (at_ + 8);
        match note_extent (len seg) at_ namesz descsz align with
        | Err e => Done (Err e)
        | Ok e =>
            name ← slice seg (name_start e) (name_end e);
            hit ← carries name owner ntype kind;
            if (hit : bool) then
              if seen then Done (Err Duplicate)
              else
                desc ← slice seg (desc_start e) (desc_end e);
                find_loop fuel' seg align owner kind true (Some desc) (next_note e)
            else find_loop fuel' seg align owner kind seen found (next_note e)
        end
      else Done (Ok found)
  end.

Definition find_in_segment (seg : list Z) (align : Z) (owner : list Z) (kind : Z) (seen : bool) :
    run (result NoteError (option (list Z))) :=
  find_loop (S (length seg)) seg align owner kind seen None 0.

(** ** Searching an image *)

Record NoteSearch := MkNoteSearch { owner : list Z; kind : Z; seen : bool }.

Definition new_search (o : list Z) (k : Z) : NoteSearch := MkNoteSearch o k false.

Definition segment (s : NoteSearch) (seg : list Z) (al : Z) :
    run (result NoteError (option (list Z) * NoteSearch)) :=
  match padding al with
  | Err e => Done (Err e)
  | Ok align =>
      found ←? find_in_segment seg align (owner s) (kind s) (seen s);
      Done (Ok (found, MkNoteSearch (owner s) (kind s) (seen s || is_some found)))
  end.

Fixpoint note_loop (fuel : nat) (bytes : list Z) (s : NoteSegments) (search : NoteSearch)
    (found : option (list Z)) : run (result NoteError (option (list Z))) :=
  match fuel with
  | O => Panicked
  | S fuel' =>
      '(o, s') ← next s;
      match o with
      | None => Done (Ok found)
      | Some seg =>
          match range seg (len bytes) with
          | Err e => Done (Err e)
          | Ok (a, b) =>
              data ← slice bytes a b;
              r ←? segment search data (p_align seg);
              note_loop fuel' bytes s' r.2 (match r.1 with Some d => Some d | None => found end)
          end
      end
  end.

Definition note (elf : Elf.Elf) (o : list Z) (k : Z) : run (result NoteError (option (list Z))) :=
  let bytes := Elf.bytes elf in
  s ←? from_head bytes;
  note_loop (S (Z.to_nat (phnum s))) bytes s (new_search o k) None.

(** ** The layout of a note

    What the finder reads, written the other way: a header of three words, the
    name with its terminator, and the descriptor, each padded to the alignment. *)

Record Note := MkNote { nname : list Z; ntype : Z; ndesc : list Z; pad1 : list Z; pad2 : list Z }.

Definition note_bytes (n : Note) : list Z :=
  to_le_bytes 4 (len (nname n)) ++ to_le_bytes 4 (len (ndesc n)) ++ to_le_bytes 4 (ntype n) ++
  nname n ++ pad1 n ++ ndesc n ++ pad2 n.

Record note_ok (align : Z) (n : Note) : Prop := MkNoteOk {
  ok_name : len (nname n) < 2 ^ 32;
  ok_type : 0 <= ntype n < 2 ^ 32;
  ok_desc : len (ndesc n) < 2 ^ 32;
  ok_pad1 : len (pad1 n) = - (NHDR_SIZE + len (nname n)) mod align;
  ok_pad2 : len (pad2 n) = - len (ndesc n) mod align
}.

Definition is_carried (o : list Z) (k : Z) (n : Note) : bool :=
  bool_decide (ntype n = k /\ nname n = o ++ [0]).

(** The descriptors of the notes with this owner and kind. *)
Definition descs (o : list Z) (k : Z) (ns : list Note) : list (list Z) :=
  omap (fun n => if is_carried o k n then Some (ndesc n) else None) ns.

Definition layout (ns : list Note) : list Z := concat (note_bytes <$> ns).

(** What the finder answers, from the descriptors. *)
Fixpoint answer (already : bool) (found : option (list Z)) (ds : list (list Z)) : result NoteError (option (list Z)) :=
  match ds with
  | [] => Ok found
  | d :: ds' => if already then Err Duplicate else answer true (Some d) ds'
  end.

(** ** Reading what was laid out *)

Lemma len_ge0 b : 0 <= len b.
Proof. unfold Elf.len. lia. Qed.

Lemma len_app a b : len (a ++ b) = len a + len b.
Proof. unfold Elf.len. rewrite length_app. lia. Qed.

Lemma len_to_le n x : len (to_le_bytes n x) = Z.of_nat n.
Proof. unfold Elf.len. by rewrite length_to_le. Qed.

Lemma slice_mid a b c : slice (a ++ b ++ c) (len a) (len a + len b) = Done b.
Proof.
  pose proof (len_ge0 a). pose proof (len_ge0 b). pose proof (len_ge0 c).
  rewrite Elf.slice_done by (rewrite ?len_app; lia). f_equal. unfold Elf.len.
  replace (Z.to_nat (Z.of_nat (length a) + Z.of_nat (length b) - Z.of_nat (length a))) with (length b) by lia.
  by rewrite Nat2Z.id, drop_app_length, take_app_length.
Qed.

Lemma slice_at a b c i e : i = len a -> e = len a + len b -> slice (a ++ b ++ c) i e = Done b.
Proof. intros -> ->. apply slice_mid. Qed.

Lemma byte_at_app a b i : 0 <= i -> byte_at (a ++ b) (len a + i) = byte_at b i.
Proof.
  intros Hi. unfold Elf.byte_at, Elf.len. rewrite lookup_app_r by lia.
  by replace (Z.to_nat (Z.of_nat (length a) + i) - length a)%nat with (Z.to_nat i) by lia.
Qed.

Lemma u32le_app a b i : 0 <= i -> u32le (a ++ b) (len a + i) = u32le b i.
Proof. intros Hi. unfold Elf.u32le. rewrite <- !(Z.add_assoc (len a)). by rewrite !byte_at_app by lia. Qed.

Lemma u32le_at a x c i : i = len a -> 0 <= x < 2 ^ 32 -> u32le (a ++ to_le_bytes 4 x ++ c) i = Done x.
Proof.
  intros -> Hx. replace (len a) with (len a + 0) by lia. rewrite u32le_app by lia.
  exact (f_equal Done (from_to_le 4 x Hx)).
Qed.

(** Any four bytes are the bytes of the word they hold. *)
Lemma split_word b : bytes_ok b -> (4 <= length b)%nat ->
  exists x c, b = to_le_bytes 4 x ++ c /\ 0 <= x < 2 ^ 32.
Proof.
  intros Hb Hl. exists (from_le_bytes (take 4 b)), (drop 4 b).
  assert (Ht : bytes_ok (take 4 b)) by by apply Forall_take.
  assert (Hn : length (take 4 b) = 4%nat) by (rewrite length_take; lia).
  split.
  - pose proof (to_from_le _ Ht) as H. rewrite Hn in H. rewrite H. by rewrite take_drop.
  - pose proof (from_le_range _ Ht) as H. rewrite Hn in H. exact H.
Qed.

(** ** Alignment *)

Definition aligned_to (align : Z) : Prop := align = 4 \/ align = 8.

Lemma padding_aligned al align : padding al = Ok align -> aligned_to align.
Proof. unfold padding, aligned_to. repeat case_match; intros [= <-]; lia. Qed.

Lemma land_not_align y align : aligned_to align -> 0 <= y < 2 ^ 64 -> Z.land y (not_w 64 (align - 1)) = y - y mod align.
Proof.
  intros Ha Hy. assert (exists k, 0 <= k < 64 /\ align = 2 ^ k) as (k & Hk & ->).
  { destruct Ha as [-> | ->]; [exists 2|exists 3]; by split. }
  replace (2 ^ k - 1) with (Z.ones k) by (rewrite Z.ones_equiv; lia).
  assert (H : Z.land y (not_w 64 (Z.ones k)) = Z.ldiff y (Z.ones k)).
  { apply Z.bits_inj'. intros i Hi. rewrite Z.land_spec, testbit_not_w, Z.ldiff_spec by lia.
    destruct (Z.ltb_spec i 64); simpl; [done|]. rewrite (testbit_above 64 y) by (done || lia). done. }
  rewrite H, Z.ldiff_ones_r, Z.shiftl_mul_pow2, Z.shiftr_div_pow2 by lia.
  rewrite Z.mod_eq by (apply Z.pow_nonzero; lia). lia.
Qed.

(** Rounding up adds what is missing. *)
Lemma align_up_spec x align : aligned_to align -> 0 <= x -> x + 8 < 2 ^ 64 -> align_up x align = Some (x + - x mod align).
Proof.
  intros Ha Hx Hlt. unfold align_up, checked_add.
  assert (Hal : 4 <= align <= 8) by (destruct Ha; lia).
  rewrite decide_True by lia. cbn [mbind option_bind]. f_equal. rewrite land_not_align by (done || lia).
  destruct Ha as [-> | ->]; Z.div_mod_to_equations; lia.
Qed.

Lemma note_extent_spec n at_ namesz descsz align :
  aligned_to align -> 0 <= at_ <= n -> n < 2 ^ 63 -> at_ mod align = 0 -> 0 <= namesz < 2 ^ 32 -> 0 <= descsz < 2 ^ 32 ->
  let ds := at_ + NHDR_SIZE + namesz + - (NHDR_SIZE + namesz) mod align in
  let nx := ds + descsz + - descsz mod align in
  note_extent n at_ namesz descsz align =
    if n <? nx then Err Truncated
    else Ok (MkExtent (at_ + NHDR_SIZE) (at_ + NHDR_SIZE + namesz) ds (ds + descsz) nx).
Proof.
  intros Ha Hat Hn Hm Hns Hds ds nx. unfold NHDR_SIZE in *.
  assert (Hb : 0 <= - (12 + namesz) mod align < align /\ 0 <= - descsz mod align < align).
  { split; apply Z.mod_pos_bound; destruct Ha; lia. }
  assert (Hal : align <= 8) by (destruct Ha; lia).
  assert (H1 : - (at_ + 12 + namesz) mod align = - (12 + namesz) mod align) by (destruct Ha as [-> | ->]; Z.div_mod_to_equations; lia).
  assert (H2 : - (ds + descsz) mod align = - descsz mod align).
  { subst ds. destruct Ha as [-> | ->]; clear H1; Z.div_mod_to_equations; lia. }
  unfold note_extent, checked_add. rewrite decide_True by (unfold NHDR_SIZE; lia). cbn [ok_or mbind result_bind].
  unfold NHDR_SIZE. destruct (Z.ltb_spec n (at_ + 12)).
  { destruct (Z.ltb_spec n nx); [done|subst nx ds; lia]. }
  rewrite decide_True by lia. cbn [ok_or mbind result_bind].
  rewrite align_up_spec, H1 by (done || lia). cbn [ok_or mbind result_bind]. fold ds.
  rewrite decide_True by (subst ds; lia). cbn [ok_or mbind result_bind].
  rewrite align_up_spec, H2 by (done || (subst ds; lia)). done.
Qed.

(** ** One note *)

Lemma len_note n align : note_ok align n ->
  len (note_bytes n) = NHDR_SIZE + len (nname n) + - (NHDR_SIZE + len (nname n)) mod align + len (ndesc n) + - len (ndesc n) mod align.
Proof. intros []. unfold note_bytes, NHDR_SIZE in *. rewrite !len_app, !len_to_le. lia. Qed.

Lemma len_note_aligned n align : aligned_to align -> note_ok align n -> len (note_bytes n) mod align = 0 /\ 12 <= len (note_bytes n).
Proof.
  intros Ha Hn. rewrite (len_note _ _ Hn). unfold NHDR_SIZE. pose proof (len_ge0 (nname n)). pose proof (len_ge0 (ndesc n)).
  destruct Ha as [-> | ->]; split; Z.div_mod_to_equations; lia.
Qed.

Lemma carries_spec n o k : carries (nname n) o (ntype n) k = Done (is_carried o k n).
Proof.
  unfold carries, is_carried. destruct (Z.eqb_spec (ntype n) k) as [->|]; simpl; [|by rewrite bool_decide_false by naive_solver].
  destruct (Z.eqb_spec (len (nname n)) (len o + 1)) as [Hl|Hl]; simpl.
  2: { rewrite bool_decide_false; [done|]. intros [_ E]. apply Hl. by rewrite E, len_app. }
  revert Hl. generalize (nname n) as nm. intros nm Hl.
  destruct nm as [|x l _] using rev_ind; [unfold Elf.len in Hl; simpl in Hl; lia|].
  rewrite len_app in Hl |- *. change (len [x]) with 1 in *.
  replace (len l + 1 - 1) with (len l + 0) by lia. rewrite byte_at_app by lia. cbn.
  replace (len o) with (len [] + len l) by (change (len []) with 0; lia).
  pose proof (slice_mid [] l [x]) as Hs. cbn [app] in Hs. change (len []) with 0 in *. rewrite Hs. cbn.
  destruct (Z.eqb_spec x 0) as [->|Hx]; simpl.
  - f_equal. apply bool_decide_ext. split; [intros ->; by split|]. intros [_ H]. by apply app_inj_tail in H as [-> _].
  - rewrite (proj2 (Z.eqb_neq x 0) Hx). simpl. rewrite bool_decide_false; [done|]. intros [_ H]. by apply app_inj_tail in H as [_ ->].
Qed.

(** What the reader finds at a note that is laid out there. *)
Lemma note_reads pre n rest align :
  note_ok align n ->
  let seg := pre ++ note_bytes n ++ rest in
  let nm := len pre + NHDR_SIZE in
  let ds := nm + len (nname n) + - (NHDR_SIZE + len (nname n)) mod align in
  u32le seg (len pre) = Done (len (nname n)) /\
  u32le seg (len pre + 4) = Done (len (ndesc n)) /\
  u32le seg (len pre + 8) = Done (ntype n) /\
  slice seg nm (nm + len (nname n)) = Done (nname n) /\
  slice seg ds (ds + len (ndesc n)) = Done (ndesc n).
Proof.
  intros [Hnm Ht Hd Hp1 Hp2] seg nm ds. pose proof (len_ge0 (nname n)). pose proof (len_ge0 (ndesc n)).
  subst seg nm ds. unfold note_bytes, NHDR_SIZE in *. rewrite <- !(assoc_L app).
  set (w1 := to_le_bytes 4 (len (nname n))). set (w2 := to_le_bytes 4 (len (ndesc n))). set (w3 := to_le_bytes 4 (ntype n)).
  assert (L1 : len w1 = 4) by apply len_to_le. assert (L2 : len w2 = 4) by apply len_to_le. assert (L3 : len w3 = 4) by apply len_to_le.
  split; [apply u32le_at; [done|lia]|].
  split; [rewrite (assoc_L app pre); apply u32le_at; rewrite ?len_app; lia|].
  split; [rewrite !(assoc_L app pre), (assoc_L app (pre ++ _)); apply u32le_at; rewrite ?len_app; lia|].
  split.
  - rewrite !(assoc_L app pre), !(assoc_L app (pre ++ _)), (assoc_L app ((pre ++ _) ++ _)). apply slice_at; rewrite !len_app; lia.
  - rewrite !(assoc_L app pre), !(assoc_L app (pre ++ _)), !(assoc_L app ((pre ++ _) ++ _)), !(assoc_L app (((pre ++ _) ++ _) ++ _)),
      (assoc_L app ((((pre ++ _) ++ _) ++ _) ++ _)). apply slice_at; rewrite !len_app; lia.
Qed.

(** A turn of the loop at a note that is laid out there. *)
Lemma find_loop_note fuel pre n rest align o k already found :
  aligned_to align -> note_ok align n -> len pre mod align = 0 -> len (pre ++ note_bytes n ++ rest) < 2 ^ 63 ->
  find_loop (S fuel) (pre ++ note_bytes n ++ rest) align o k already found (len pre) =
    if is_carried o k n then
      if already then Done (Err Duplicate)
      else find_loop fuel (pre ++ note_bytes n ++ rest) align o k true (Some (ndesc n)) (len (pre ++ note_bytes n))
    else find_loop fuel (pre ++ note_bytes n ++ rest) align o k already found (len (pre ++ note_bytes n)).
Proof.
  intros Ha Hn Hm Hlen. destruct (len_note_aligned n align Ha Hn) as [_ H12]. pose proof (len_note _ _ Hn) as Hl.
  destruct (note_reads pre n rest align Hn) as (E1 & E2 & E3 & E4 & E5).
  pose proof (len_ge0 pre). pose proof (len_ge0 rest). pose proof (len_ge0 (nname n)). pose proof (len_ge0 (ndesc n)).
  destruct Hn as [Hnm Ht Hd Hp1 Hp2]. set (seg := pre ++ note_bytes n ++ rest) in *.
  assert (Hseg : len seg = len pre + len (note_bytes n) + len rest) by (unfold seg; rewrite !len_app; lia).
  cbn [find_loop]. destruct (Z.ltb_spec (len pre) (len seg)); [|lia].
  destruct (Z.ltb_spec (len seg - len pre) NHDR_SIZE); [unfold NHDR_SIZE in *; lia|].
  rewrite E1. cbn [mbind run_bind]. rewrite E2. cbn [mbind run_bind]. rewrite E3. cbn [mbind run_bind].
  rewrite note_extent_spec by (done || lia). rewrite len_app.
  match goal with |- context [len seg <? ?x] => replace x with (len pre + len (note_bytes n)) by lia end.
  destruct (Z.ltb_spec (len seg) (len pre + len (note_bytes n))); [lia|].
  cbn [name_start name_end desc_start desc_end next_note].
  rewrite E4. cbn [mbind run_bind]. rewrite carries_spec. cbn [mbind run_bind].
  destruct (is_carried o k n); [|done]. destruct already; [done|]. rewrite E5. done.
Qed.

(** ** The notes of a segment *)

Lemma find_loop_layout ns fuel pre align o k already found :
  aligned_to align -> Forall (note_ok align) ns -> len pre mod align = 0 -> len (pre ++ layout ns) < 2 ^ 63 ->
  (length ns < fuel)%nat ->
  find_loop fuel (pre ++ layout ns) align o k already found (len pre) = Done (answer already found (descs o k ns)).
Proof.
  intros Ha Hns. revert fuel pre already found. induction Hns as [|n ns Hn Hns IH]; intros fuel pre already found Hm Hlen Hf.
  - destruct fuel as [|fuel]; [simpl in Hf; lia|]. unfold layout. cbn [fmap list_fmap concat find_loop].
    rewrite app_nil_r, Z.ltb_irrefl. done.
  - destruct fuel as [|fuel]; [lia|]. cbn [length] in Hf.
    change (layout (n :: ns)) with (note_bytes n ++ layout ns) in *.
    rewrite find_loop_note by done. destruct (len_note_aligned n align Ha Hn) as [Hm' _].
    assert (Hpre : len (pre ++ note_bytes n) mod align = 0).
    { rewrite len_app, Z.add_mod, Hm, Hm' by (destruct Ha; lia). apply Z.mod_0_l. destruct Ha; lia. }
    rewrite (assoc_L app) in *. unfold descs. cbn [omap list_omap]. fold (descs o k ns).
    destruct (is_carried o k n); [destruct already; [done|]|]; apply IH; (done || lia).
Qed.

(** Bytes that hold a whole note are laid out as one. *)
Lemma split_note b align :
  aligned_to align -> bytes_ok b -> len b < 2 ^ 63 -> NHDR_SIZE <= len b ->
  exists namesz descsz ntype, u32le b 0 = Done namesz /\ u32le b 4 = Done descsz /\ u32le b 8 = Done ntype /\
    0 <= namesz < 2 ^ 32 /\ 0 <= descsz < 2 ^ 32 /\
    (NHDR_SIZE + namesz + - (NHDR_SIZE + namesz) mod align + descsz + - descsz mod align <= len b ->
     exists n rest, b = note_bytes n ++ rest /\ note_ok align n /\ len (nname n) = namesz /\ len (ndesc n) = descsz).
Proof.
  intros Ha Hb Hlt Hl. unfold NHDR_SIZE, Elf.len in Hl.
  destruct (split_word b Hb) as (x1 & c1 & E & Hx1); [lia|]. rewrite E in Hb, Hl. apply Forall_app in Hb as [_ Hb1].
  rewrite length_app, length_to_le in Hl.
  destruct (split_word c1 Hb1) as (x2 & c2 & E2 & Hx2); [lia|]. rewrite E2 in Hb1, Hl. apply Forall_app in Hb1 as [_ Hb2].
  rewrite length_app, length_to_le in Hl.
  destruct (split_word c2 Hb2) as (x3 & c & E3 & Hx3); [lia|]. rewrite E3 in Hb2. subst c1 c2.
  exists x1, x2, x3. rewrite E.
  split; [by apply (u32le_at [])|]. split; [by apply (u32le_at (to_le_bytes 4 x1))|].
  split; [rewrite (assoc_L app); by apply (u32le_at (to_le_bytes 4 x1 ++ to_le_bytes 4 x2))|].
  split_and!; [lia..|]. intros Hfit. rewrite !len_app, !len_to_le in Hfit. unfold NHDR_SIZE in Hfit.
  assert (Hp : 0 <= - (12 + x1) mod align < align /\ 0 <= - x2 mod align < align) by (split; apply Z.mod_pos_bound; destruct Ha; lia).
  set (p1 := - (12 + x1) mod align) in *. set (p2 := - x2 mod align) in *.
  set (tk := fun z (l : list Z) => take (Z.to_nat z) l). set (dr := fun z (l : list Z) => drop (Z.to_nat z) l).
  exists (MkNote (tk x1 c) x3 (tk x2 (dr p1 (dr x1 c))) (tk p1 (dr x1 c)) (tk p2 (dr x2 (dr p1 (dr x1 c))))), (dr p2 (dr x2 (dr p1 (dr x1 c)))).
  unfold Elf.len in *.
  assert (L : length (tk x1 c) = Z.to_nat x1 /\ length (tk x2 (dr p1 (dr x1 c))) = Z.to_nat x2 /\
              length (tk p1 (dr x1 c)) = Z.to_nat p1 /\ length (tk p2 (dr x2 (dr p1 (dr x1 c)))) = Z.to_nat p2).
  { subst tk dr. cbn beta. rewrite !length_take, !length_drop. lia. }
  destruct L as (L1 & L2 & L3 & L4).
  split.
  - unfold note_bytes, Elf.len. cbn [nname ntype ndesc pad1 pad2]. rewrite L1, L2, !Z2Nat.id by lia.
    rewrite <- !(assoc_L app). do 3 f_equal. subst tk dr. cbn beta. by rewrite !take_drop.
  - unfold Elf.len. cbn [nname ntype ndesc pad1 pad2]. rewrite L1, L2, !Z2Nat.id by lia. split_and!; [|done|done].
    constructor; unfold Elf.len; cbn [nname ntype ndesc pad1 pad2]; rewrite ?L1, ?L2, ?L3, ?L4, ?Z2Nat.id by lia; done || lia.
Qed.

Lemma find_loop_end fuel seg align o k already found :
  find_loop (S fuel) seg align o k already found (len seg) = Done (Ok found).
Proof. cbn [find_loop]. by rewrite Z.ltb_irrefl. Qed.

(** A note that is cut short is refused. *)
Lemma find_loop_cut fuel pre rest align o k already found :
  aligned_to align -> bytes_ok rest -> len pre mod align = 0 -> len (pre ++ rest) < 2 ^ 63 -> rest <> [] ->
  find_loop (S fuel) (pre ++ rest) align o k already found (len pre) = Done (Err Truncated) \/
  exists n rest', rest = note_bytes n ++ rest' /\ note_ok align n.
Proof.
  intros Ha Hb Hm Hlen Hne. rewrite len_app in Hlen. pose proof (len_ge0 pre).
  assert (0 < len rest) by (destruct rest; [done|unfold Elf.len; simpl; lia]).
  cbn [find_loop]. rewrite len_app. destruct (Z.ltb_spec (len pre) (len pre + len rest)); [|lia].
  destruct (Z.ltb_spec (len pre + len rest - len pre) NHDR_SIZE); [by left|].
  destruct (split_note rest align Ha Hb) as (nz & dz & nt & E1 & E2 & E3 & Hn & Hd & Hsp); [lia|lia|].
  destruct (Z.le_gt_cases (NHDR_SIZE + nz + - (NHDR_SIZE + nz) mod align + dz + - dz mod align) (len rest)) as [Hfit|Hfit].
  { right. destruct (Hsp Hfit) as (n & rest' & -> & Hok & _). by exists n, rest'. }
  left. pose proof (u32le_app pre rest 0 ltac:(lia)) as E0. rewrite Z.add_0_r, E1 in E0. rewrite E0. cbn [mbind run_bind].
  rewrite (u32le_app pre rest 4), E2 by lia. cbn [mbind run_bind]. rewrite (u32le_app pre rest 8), E3 by lia. cbn [mbind run_bind].
  rewrite note_extent_spec by (done || lia).
  match goal with |- context [_ <? ?x] => replace x with (len pre + (NHDR_SIZE + nz + - (NHDR_SIZE + nz) mod align + dz + - dz mod align)) by lia end.
  destruct (Z.ltb_spec (len pre + len rest) (len pre + (NHDR_SIZE + nz + - (NHDR_SIZE + nz) mod align + dz + - dz mod align))); [done|lia].
Qed.

(** Whatever the bytes are, the loop ends with an answer or an error, and it
    answers only when they are notes from end to end. *)
Lemma find_loop_total fuel pre rest align o k already found :
  aligned_to align -> bytes_ok rest -> len pre mod align = 0 -> len (pre ++ rest) < 2 ^ 63 -> (length rest < fuel)%nat ->
  exists r, find_loop fuel (pre ++ rest) align o k already found (len pre) = Done r /\
    (forall f, r = Ok f -> exists ns, rest = layout ns /\ Forall (note_ok align) ns).
Proof.
  intros Ha. revert pre rest already found. induction fuel as [|fuel IH]; intros pre rest already found Hb Hm Hlen Hf; [lia|].
  destruct (decide (rest = [])) as [->|Hne].
  { exists (Ok found). rewrite app_nil_r, find_loop_end. split; [done|]. intros _ _. by exists []. }
  destruct (find_loop_cut fuel pre rest align o k already found Ha Hb Hm Hlen Hne) as [Hc|(n & rest' & -> & Hok)].
  { by exists (Err Truncated). }
  rewrite find_loop_note by done. destruct (len_note_aligned n align Ha Hok) as [Hm' H12].
  assert (Hpre : len (pre ++ note_bytes n) mod align = 0).
  { rewrite len_app, Z.add_mod, Hm, Hm' by (destruct Ha; lia). apply Z.mod_0_l. destruct Ha; lia. }
  apply Forall_app in Hb as [_ Hb]. rewrite length_app in Hf. unfold Elf.len in H12. rewrite (assoc_L app) in *.
  assert (IHu : forall al fo, exists r, find_loop fuel ((pre ++ note_bytes n) ++ rest') align o k al fo (len (pre ++ note_bytes n)) = Done r /\
    (forall f, r = Ok f -> exists ns, note_bytes n ++ rest' = layout ns /\ Forall (note_ok align) ns)).
  { intros al fo. destruct (IH (pre ++ note_bytes n) rest' al fo) as (r & Hr & Hns); [done|done|done|lia|].
    exists r. split; [done|]. intros f Hf'. destruct (Hns f Hf') as (ns & -> & Hall). exists (n :: ns). split; [done|]. by constructor. }
  destruct (is_carried o k n); [destruct already; [by exists (Err Duplicate)|]|]; apply IHu.
Qed.

Lemma length_layout ns align : aligned_to align -> Forall (note_ok align) ns -> (length ns <= length (layout ns))%nat.
Proof.
  intros Ha. induction 1 as [|n ns Hn _ IH]; [done|]. change (layout (n :: ns)) with (note_bytes n ++ layout ns).
  rewrite length_app. destruct (len_note_aligned n align Ha Hn) as [_ H]. unfold Elf.len in H. cbn [length]. lia.
Qed.

Lemma find_in_segment_spec seg align o k already :
  aligned_to align -> bytes_ok seg -> len seg < 2 ^ 63 ->
  exists r, find_in_segment seg align o k already = Done r /\
    forall f, r = Ok f <->
      exists ns, seg = layout ns /\ Forall (note_ok align) ns /\ answer already None (descs o k ns) = Ok f.
Proof.
  intros Ha Hb Hlen. unfold find_in_segment.
  destruct (find_loop_total (S (length seg)) [] seg align o k already None) as (r & Hr & Hok); [done|done|by destruct Ha as [-> | ->]|done|lia|].
  cbn [app] in Hr. change (len []) with 0 in Hr. exists r. split; [done|].
  assert (Hl : forall ns, seg = layout ns -> Forall (note_ok align) ns -> r = answer already None (descs o k ns)).
  { intros ns -> Hns. pose proof (find_loop_layout ns (S (length (layout ns))) [] align o k already None Ha Hns) as H.
    cbn [app] in H. change (len []) with 0 in H. pose proof (length_layout ns align Ha Hns).
    rewrite Hr in H. by injection (H ltac:(by destruct Ha as [-> | ->]) Hlen ltac:(lia)). }
  intros f. split.
  - intros ->. destruct (Hok f eq_refl) as (ns & Hs & Hns). exists ns. split_and!; [done|done|]. symmetry. by apply Hl.
  - intros (ns & Hs & Hns & Hans). by rewrite (Hl ns Hs Hns).
Qed.

Lemma answer_app already found d1 d2 :
  answer already found (d1 ++ d2) =
    match answer already None d1 with
    | Ok f1 => answer (already || is_some f1) (match f1 with Some d => Some d | None => found end) d2
    | Err e => Err e
    end.
Proof. destruct d1 as [|a [|b d1]], already; done. Qed.

Lemma answer_first ds f : answer false None ds = Ok f <-> ds = option_list f.
Proof. destruct ds as [|a [|b ds]], f; simpl; naive_solver. Qed.

(** ** The segments of an image *)

Definition header_seg (ph : list Z) : option NoteSegment :=
  let word at_ n := from_le_bytes (take n (drop at_ ph)) in
  if word 0%nat 4%nat =? PT_NOTE then Some (MkNoteSegment (word 8%nat 8%nat) (word 32%nat 8%nat) (word 48%nat 8%nat)) else None.

Definition header_bytes (s : NoteSegments) (i : nat) : list Z :=
  take (Z.to_nat Elf.PHDR_SIZE) (drop (Z.to_nat (Z.of_nat i * phentsize s)) (table s)).

(** The note segments from the next header on. *)
Definition note_headers (s : NoteSegments) : list NoteSegment :=
  omap (fun i => header_seg (header_bytes s i)) (seq (Z.to_nat (next_ s)) (Z.to_nat (phnum s - next_ s))).

Record headers_ok (s : NoteSegments) : Prop := MkHeadersOk {
  hok_bytes : bytes_ok (table s);
  hok_ent : Elf.PHDR_SIZE <= phentsize s < 2 ^ 16;
  hok_num : 0 <= next_ s <= phnum s /\ phnum s <= Elf.MAX_PHNUM;
  hok_len : len (table s) = phnum s * phentsize s
}.

(** The segment's bytes are these notes. *)
Definition holds_notes (bytes : list Z) (seg : NoteSegment) (ns : list Note) : Prop :=
  exists align a e, padding (p_align seg) = Ok align /\ range seg (len bytes) = Ok (a, e) /\
    slice bytes a e = Done (layout ns) /\ Forall (note_ok align) ns.

Lemma u64le_word b (at_ : nat) i : i = Z.of_nat at_ -> i + 8 <= len b -> u64le b i = Done (from_le_bytes (take 8 (drop at_ b))).
Proof.
  intros -> H. unfold Elf.u64le. rewrite Elf.slice_done by lia. cbn [mbind run_bind].
  replace (Z.to_nat (Z.of_nat at_ + 8 - Z.of_nat at_)) with 8%nat by lia. by rewrite Nat2Z.id.
Qed.

Lemma u32le_word b : 4 <= len b -> u32le b 0 = Done (from_le_bytes (take 4 b)).
Proof.
  intros H. destruct b as [|x0 [|x1 [|x2 [|x3 b]]]]; unfold Elf.len in H; simpl in H; try lia. reflexivity.
Qed.

Lemma header_at_spec s : headers_ok s -> next_ s < phnum s ->
  header_at s (next_ s) = Done (header_bytes s (Z.to_nat (next_ s))) /\ len (header_bytes s (Z.to_nat (next_ s))) = 56.
Proof.
  intros [_ He Hn Hl] Hlt. unfold Elf.PHDR_SIZE, Elf.MAX_PHNUM in *. unfold header_at, header_bytes, Elf.PHDR_SIZE.
  rewrite !Z2Nat.id by lia.
  assert (Hp : 0 <= next_ s * phentsize s /\ next_ s * phentsize s + 56 <= len (table s)) by nia.
  assert (next_ s * phentsize s < 2 ^ 64) by nia.
  unfold Elf.plain_mul, checked_mul. rewrite decide_True by done. cbn [mbind run_bind].
  rewrite Elf.slice_done by lia. cbn [mbind run_bind].
  set (rest := take _ (drop _ (table s))). assert (Hr : rest = drop (Z.to_nat (next_ s * phentsize s)) (table s)).
  { unfold rest. apply take_ge. rewrite length_drop. unfold Elf.len. lia. }
  rewrite Hr. assert (Hlr : len (drop (Z.to_nat (next_ s * phentsize s)) (table s)) >= 56) by (unfold Elf.len in *; rewrite length_drop; lia).
  rewrite Elf.slice_done by lia. split; [done|]. unfold Elf.len in *. rewrite length_take. lia.
Qed.

Lemma advanced_ok s : headers_ok s -> next_ s < phnum s -> headers_ok (advanced s).
Proof. intros [? ? ? ?] ?. unfold advanced. constructor; cbn [table phentsize phnum next_]; (done || lia). Qed.

Lemma note_headers_step s : headers_ok s -> next_ s < phnum s ->
  note_headers s = option_list (header_seg (header_bytes s (Z.to_nat (next_ s)))) ++ note_headers (advanced s).
Proof.
  intros [_ _ Hn _] Hlt. unfold note_headers, advanced. cbn [table phentsize phnum next_].
  replace (Z.to_nat (phnum s - next_ s)) with (S (Z.to_nat (phnum s - (next_ s + 1)))) by lia.
  replace (Z.to_nat (next_ s + 1)) with (S (Z.to_nat (next_ s))) by lia. cbn [seq omap list_omap].
  change (header_bytes (MkNoteSegments (table s) (phentsize s) (phnum s) (next_ s + 1))) with (header_bytes s).
  by destruct (header_seg (header_bytes s (Z.to_nat (next_ s)))).
Qed.

Lemma next_loop_spec fuel s : headers_ok s -> (Z.to_nat (phnum s - next_ s) < fuel)%nat ->
  exists s', next_loop fuel s = Done (head (note_headers s), s') /\ headers_ok s' /\ note_headers s' = tail (note_headers s).
Proof.
  revert s. induction fuel as [|fuel IH]; intros s Hs Hf; [lia|]. cbn [next_loop].
  destruct (Z.ltb_spec (next_ s) (phnum s)) as [Hlt|Hge].
  2: { exists s. unfold note_headers. replace (Z.to_nat (phnum s - next_ s)) with 0%nat by lia. done. }
  destruct (header_at_spec s Hs Hlt) as [Hh Hl]. rewrite Hh. cbn [mbind run_bind].
  rewrite (note_headers_step s Hs Hlt). pose proof (advanced_ok s Hs Hlt) as Ha.
  set (ph := header_bytes s (Z.to_nat (next_ s))) in *.
  rewrite u32le_word by lia. cbn [mbind run_bind].
  unfold header_seg. rewrite drop_0. destruct (from_le_bytes (take 4 ph) =? PT_NOTE).
  - rewrite (u64le_word ph 8%nat 8) by lia. cbn [mbind run_bind]. rewrite (u64le_word ph 32%nat 32) by lia. cbn [mbind run_bind].
    rewrite (u64le_word ph 48%nat 48) by lia. cbn [mbind run_bind]. by exists (advanced s).
  - cbn [option_list app]. apply IH; [done|]. unfold advanced. cbn [phnum next_]. lia.
Qed.

Lemma next_spec s : headers_ok s ->
  exists s', next s = Done (head (note_headers s), s') /\ headers_ok s' /\ note_headers s' = tail (note_headers s).
Proof. intros Hs. apply next_loop_spec; [done|lia]. Qed.

Lemma header_seg_range s i seg : bytes_ok (table s) -> header_seg (header_bytes s i) = Some seg ->
  0 <= offset seg /\ 0 <= size seg.
Proof.
  intros Hb. assert (Hh : bytes_ok (header_bytes s i)) by by apply Forall_take, Forall_drop.
  unfold header_seg. case_match; [|done]. intros [= <-]. cbn [offset size].
  split; eapply proj1, from_le_range; by apply Forall_take, Forall_drop.
Qed.

Lemma note_headers_range s : bytes_ok (table s) -> Forall (fun seg => 0 <= offset seg /\ 0 <= size seg) (note_headers s).
Proof.
  intros Hb. apply Forall_forall. intros seg. unfold note_headers. rewrite list_elem_of_omap.
  intros (i & _ & Hi). by apply (header_seg_range s i).
Qed.

Lemma slice_ok_bytes b a e v : bytes_ok b -> slice b a e = Done v -> bytes_ok v.
Proof. intros Hb. unfold Elf.slice. case_match; [|done]. intros [= <-]. by apply Elf.slice_bytes. Qed.

Lemma slice_shorter b a e v : slice b a e = Done v -> len v <= len b.
Proof. unfold Elf.slice. case_match; [|done]. intros [= <-]. unfold Elf.len. rewrite length_take, length_drop. lia. Qed.

(** ** Searching *)

(** One segment, given what the search has seen. *)
Lemma segment_spec bytes seg already o k :
  bytes_ok bytes -> len bytes < 2 ^ 63 -> 0 <= offset seg -> 0 <= size seg ->
  exists r, (match range seg (len bytes) with
             | Err e => Done (Err e)
             | Ok (a, b) => data ← slice bytes a b; segment (MkNoteSearch o k already) data (p_align seg)
             end) = Done r /\
    forall p, r = Ok p <-> exists ns f, holds_notes bytes seg ns /\ answer already None (descs o k ns) = Ok f /\
      p = (f, MkNoteSearch o k (already || is_some f)).
Proof.
  intros Hb Hlen Ho Hsz. destruct (range seg (len bytes)) as [[a e]|err] eqn:Hr.
  2: { exists (Err err). split; [done|]. intros p. split; [done|]. intros (ns & f & (align & a & e & _ & Hr' & _) & _). congruence. }
  assert (Hae : a = offset seg /\ e = offset seg + size seg /\ e <= len bytes).
  { unfold range, checked_add in Hr. case_decide; [|done]. destruct (Z.ltb_spec (len bytes) (offset seg + size seg)); [done|]. injection Hr as <- <-. done. }
  rewrite Elf.slice_done by lia. cbn [mbind run_bind]. set (data := take _ _). unfold segment.
  assert (Hd : slice bytes a e = Done data) by (apply Elf.slice_done; lia).
  destruct (padding (p_align seg)) as [align|err] eqn:Hp.
  2: { exists (Err err). split; [done|]. intros p. split; [done|]. intros (ns & f & (align & ? & ? & Hp' & _) & _). congruence. }
  cbn [owner kind seen]. pose proof (slice_shorter _ _ _ _ Hd).
  destruct (find_in_segment_spec data align o k already (padding_aligned _ _ Hp)) as (r & Hf & Hspec);
    [by apply (slice_ok_bytes bytes a e)|lia|]. rewrite Hf.
  exists (match r with Ok f => Ok (f, MkNoteSearch o k (already || is_some f)) | Err e => Err e end).
  split; [by destruct r|]. intros p. split.
  - destruct r as [f|]; [|done]. intros [= <-]. destruct (proj1 (Hspec f) eq_refl) as (ns & Hl & Hns & Ha).
    exists ns, f. split_and!; [|done|done]. exists align, a, e. rewrite Hd, Hl. done.
  - intros (ns & f & (align' & a' & e' & Hp' & Hr' & Hs & Hns) & Ha & ->).
    assert (align' = align) as -> by congruence. assert (a' = a /\ e' = e) as [-> ->] by (split; congruence).
    assert (data = layout ns) by congruence. assert (r = Ok f) as -> by (apply Hspec; by exists ns). done.
Qed.

Lemma from_head_spec head : bytes_ok head -> len head < 2 ^ 63 ->
  exists r, from_head head = Done r /\ forall s, r = Ok s -> headers_ok s /\ next_ s = 0.
Proof.
  intros Hb Hlen. unfold from_head. unfold Elf.EHDR_SIZE.
  destruct (Z.ltb_spec (len head) 64); [by eexists|].
  rewrite Elf.slice_done by lia. cbn [mbind run_bind]. destruct (negb _); [by eexists|].
  destruct (Elf.byte_at_done head Hb 4) as (x4 & -> & _); [lia|]. cbn [mbind run_bind]. destruct (negb _); [by eexists|].
  destruct (Elf.byte_at_done head Hb 5) as (x5 & -> & _); [lia|]. cbn [mbind run_bind]. destruct (negb _); [by eexists|].
  destruct (Elf.u64le_done head Hb 32) as (phoff & -> & Hp); [lia|lia|]. cbn [mbind run_bind].
  destruct (Elf.u16le_done head Hb 54) as (ent & -> & He); [lia|lia|]. cbn [mbind run_bind].
  destruct (Elf.u16le_done head Hb 56) as (num & -> & Hn); [lia|lia|]. cbn [mbind run_bind].
  unfold Elf.PHDR_SIZE, Elf.MAX_PHNUM.
  destruct (Z.ltb_spec ent 56); [by eexists|]. destruct (Z.ltb_spec 64 num); [by eexists|]. cbn [orb].
  assert (Hm : 0 <= num * ent < 2 ^ 64) by nia. unfold Elf.plain_mul, checked_mul. rewrite decide_True by lia. cbn [mbind run_bind].
  unfold checked_add. case_decide; [|by eexists].
  destruct (Z.ltb_spec (len head) (phoff + num * ent)); [by eexists|].
  rewrite Elf.slice_done by lia. cbn [mbind run_bind]. eexists. split; [done|]. intros s [= <-]. split; [|done].
  constructor; cbn [table phentsize phnum next_]; unfold Elf.PHDR_SIZE, Elf.MAX_PHNUM; [by apply Elf.slice_bytes|lia|lia|].
  rewrite Elf.slice_len by lia. lia.
Qed.

Lemma answer_cons already found o k ns nss :
  answer already found (descs o k (concat (ns :: nss))) =
    match answer already None (descs o k ns) with
    | Ok f1 => answer (already || is_some f1) (match f1 with Some d => Some d | None => found end) (descs o k (concat nss))
    | Err e => Err e
    end.
Proof. cbn [concat]. unfold descs. by rewrite omap_app, answer_app. Qed.

Lemma note_loop_spec bytes o k : bytes_ok bytes -> len bytes < 2 ^ 63 ->
  forall fuel s already found, headers_ok s -> (length (note_headers s) < fuel)%nat ->
  exists r, note_loop fuel bytes s (MkNoteSearch o k already) found = Done r /\
    forall f, r = Ok f <-> exists nss, Forall2 (holds_notes bytes) (note_headers s) nss /\
      answer already found (descs o k (concat nss)) = Ok f.
Proof.
  intros Hb Hlen fuel. induction fuel as [|fuel IH]; intros s already found Hs Hf; [lia|].
  destruct (next_spec s Hs) as (s' & Hn & Hs' & Htl). pose proof (note_headers_range s (hok_bytes s Hs)) as Hr.
  cbn [note_loop]. rewrite Hn. cbn [mbind run_bind]. destruct (note_headers s) as [|seg hs].
  { exists (Ok found). split; [done|]. intros f. split.
    - intros [= <-]. exists []. by split; [constructor|].
    - intros (nss & H & Ha). apply Forall2_nil_inv_l in H as ->. exact Ha. }
  apply Forall_cons in Hr as [[Ho Hsz] _]. cbn [head tail length] in *.
  destruct (segment_spec bytes seg already o k Hb Hlen Ho Hsz) as (r & Hseg & Hspec).
  set (K := fun p : option (list Z) * NoteSearch => note_loop fuel bytes s' p.2 (match p.1 with Some d => Some d | None => found end)).
  assert (Heq : (match range seg (len bytes) with
                 | Err e => Done (Err e)
                 | Ok (a, b) => data ← slice bytes a b; Elf.try (segment (MkNoteSearch o k already) data (p_align seg)) K
                 end) = Elf.try (Done r) K).
  { rewrite <- Hseg. destruct (range seg (len bytes)) as [[a e]|]; [|done]. by destruct (slice bytes a e). }
  rewrite Heq. clear Heq Hseg. destruct r as [p|err]; cbn [Elf.try].
  - destruct (proj1 (Hspec p) eq_refl) as (ns1 & f1 & Hns1 & Ha1 & ->). unfold K. cbn [fst snd].
    destruct (IH s' (already || is_some f1) (match f1 with Some d => Some d | None => found end) Hs') as (r & Hr & Hiff).
    { rewrite Htl. lia. }
    exists r. split; [done|]. intros f. rewrite Hiff, Htl. split.
    + intros (nss & H & Ha). exists (ns1 :: nss). split; [by constructor|]. by rewrite answer_cons, Ha1.
    + intros (nss & H & Ha). apply Forall2_cons_inv_l in H as (ns & nss' & Hh & H & ->). rewrite answer_cons in Ha.
      destruct (answer already None (descs o k ns)) as [f1'|] eqn:Ha'; [|done].
      pose proof (proj2 (Hspec _) (ex_intro _ ns (ex_intro _ f1' (conj Hh (conj Ha' eq_refl))))) as [= <-]. by exists nss'.
  - exists (Err err). split; [done|]. intros f. split; [done|]. intros (nss & H & Ha).
    apply Forall2_cons_inv_l in H as (ns & nss' & Hh & _ & ->). rewrite answer_cons in Ha.
    destruct (answer already None (descs o k ns)) as [f1'|] eqn:Ha'; [|done].
    discriminate (proj2 (Hspec _) (ex_intro _ ns (ex_intro _ f1' (conj Hh (conj Ha' eq_refl))))).
Qed.

Lemma length_omap_le {A B} (g : A -> option B) l : (length (omap g l) <= length l)%nat.
Proof. induction l as [|x l IH]; [done|]. csimpl. destruct (g x); csimpl; lia. Qed.

Lemma length_note_headers s : headers_ok s -> (length (note_headers s) <= Z.to_nat (phnum s))%nat.
Proof.
  intros [_ _ Hn _]. unfold note_headers. etransitivity; [apply length_omap_le|]. rewrite length_seq. lia.
Qed.

Lemma note_spec elf o k :
  bytes_ok (Elf.bytes elf) -> len (Elf.bytes elf) < 2 ^ 63 ->
  exists r, note elf o k = Done r /\
    forall f, r = Ok f <->
      exists s nss, from_head (Elf.bytes elf) = Done (Ok s) /\
        Forall2 (holds_notes (Elf.bytes elf)) (note_headers s) nss /\
        descs o k (concat nss) = option_list f.
Proof.
  intros Hb Hlen. unfold note. destruct (from_head_spec _ Hb Hlen) as (h & Hh & Hok). rewrite Hh.
  destruct h as [s|err]; cbn [Elf.try].
  - destruct (Hok s eq_refl) as [Hs _]. pose proof (length_note_headers s Hs).
    destruct (note_loop_spec _ o k Hb Hlen (S (Z.to_nat (phnum s))) s false None Hs) as (r & Hr & Hiff); [lia|].
    exists r. split; [done|]. intros f. rewrite Hiff. split.
    + intros (nss & H1 & H2). exists s, nss. by rewrite <- answer_first.
    + intros (s2 & nss & [= <-] & H1 & H2). exists nss. by rewrite answer_first.
  - exists (Err err). split; [done|]. intros f. split; [done|]. by intros (s & nss & [=] & _).
Qed.

(** What a note segment holds is bytes of the image. *)
Lemma descs_bytes o k bytes segs nss d :
  bytes_ok bytes -> Forall2 (holds_notes bytes) segs nss -> d ∈ descs o k (concat nss) -> bytes_ok d.
Proof.
  intros Hb. induction 1 as [|seg ns segs nss (align & a & e & _ & _ & Hs & _) _ IH]; [by intros ?%not_elem_of_nil|].
  cbn [concat]. unfold descs. rewrite omap_app, elem_of_app. intros [Hd|Hd]; [|by apply IH].
  apply (slice_ok_bytes bytes a e) in Hs; [|done]. clear -Hd Hs. induction ns as [|n ns IH]; [by apply not_elem_of_nil in Hd|].
  change (layout (n :: ns)) with (note_bytes n ++ layout ns) in Hs. apply Forall_app in Hs as [Hn Hs].
  apply list_elem_of_omap in Hd as (n' & Hin & Hd). apply elem_of_cons in Hin as [->|Hin].
  - destruct (is_carried o k n); [|done]. injection Hd as <-. unfold note_bytes, bytes_ok in *. rewrite !Forall_app in Hn. tauto.
  - apply IH; try done. apply list_elem_of_omap. by exists n'.
Qed.

(** A note is taken only when it is the only one. Whatever bytes the image
    is made of, the search ends without a panic; it answers exactly when every
    note segment lies in the file and is notes from end to end, with the
    descriptor of the one note that has this owner and kind, or with nothing
    when there is none. *)
Theorem note_is_the_only_one elf o k :
  bytes_ok (Elf.bytes elf) -> len (Elf.bytes elf) < 2 ^ 63 ->
  exists r, note elf o k = Done r /\
    forall f, r = Ok f <->
      exists s nss, from_head (Elf.bytes elf) = Done (Ok s) /\
        Forall2 (holds_notes (Elf.bytes elf)) (note_headers s) nss /\
        descs o k (concat nss) = option_list f.
Proof. apply note_spec. Qed.

(** An image with one note segment of one note. *)
Definition demo_note : Note := MkNote (lit "nife" ++ [0]) 1 [7; 8; 9; 10] [0; 0; 0] [].
Definition demo_elf : Elf.Elf :=
  Elf.MkElf (Elf.MAGIC ++ [2; 1; 1] ++ replicate 25 0 ++ to_le_bytes 8 64 ++ replicate 14 0 ++ to_le_bytes 2 56 ++ to_le_bytes 2 1 ++
    replicate 6 0 ++
    to_le_bytes 4 4 ++ replicate 4 0 ++ to_le_bytes 8 120 ++ replicate 16 0 ++ to_le_bytes 8 24 ++ replicate 8 0 ++ to_le_bytes 8 4 ++
    note_bytes demo_note) 0 64 1 56.

Lemma note_is_the_only_one_witness :
  note demo_elf (lit "nife") 1 = Done (Ok (Some [7; 8; 9; 10])) /\
  exists s nss, from_head (Elf.bytes demo_elf) = Done (Ok s) /\
    Forall2 (holds_notes (Elf.bytes demo_elf)) (note_headers s) nss /\
    descs (lit "nife") 1 (concat nss) = [[7; 8; 9; 10]].
Proof.
  assert (H : note demo_elf (lit "nife") 1 = Done (Ok (Some [7; 8; 9; 10]))) by (vm_compute; reflexivity).
  split; [exact H|].
  destruct (note_is_the_only_one demo_elf (lit "nife") 1) as (r & Hr & Hiff); [vm_decide|vm_compute; reflexivity|].
  apply (proj1 (Hiff (Some [7; 8; 9; 10]))). rewrite H in Hr. by injection Hr as <-.
Defined.

End ElfNote.
