(* ===== verification/ManifestNote.v ===== *)
(** * The manifest note (crates/manifest_note)

    A program carries its manifest as the descriptor of an ELF note: 56 bytes
    with a version, one byte per choice, the memory bounds and the option
    letters. The encoder runs at compile time, where a failed [assert!] stops
    the build; the decoder reads bytes nobody has checked. *)

From S2P Require Import Prelude Elf Manifest ElfNote.
Local Open Scope Z_scope.

Module ManifestNote.
Import (notations) Elf.
Import Manifest.

Notation len := Elf.len.
Notation byte_at := Elf.byte_at.
Notation slice := Elf.slice.
Notation u32le := Elf.u32le.
Notation u64le := Elf.u64le.

Definition OWNER : list Z := lit "nife".
Definition MANIFEST : Z := 1.
Definition VERSION : Z := 1.
Definition DESCRIPTOR_LEN : nat := 56.
Definition NAME_FIELD : nat := 8.
Definition HEADER_LEN : nat := 12.
Definition NOTE_LEN : nat := HEADER_LEN + NAME_FIELD + DESCRIPTOR_LEN.

Inductive Error := NoVersion | UnknownVersion | WrongLength | BadField (at_ : nat).

Definition ARG : nat := 4.
Definition MEM : nat := 5.
Definition FILE : nat := 6.
Definition DIR : nat := 7.
Definition MEM_MIN : nat := 8.
Definition MEM_MAX : nat := 16.
Definition OUTPUT : nat := 24.
Definition INPUT : nat := 25.
Definition WRITES_WHILE_READING : nat := 26.
Definition SUBTREE : nat := 27.
Definition REPORTS : nat := 28.
Definition INTERRUPTIBLE : nat := 29.
Definition CLOCK : nat := 30.
Definition DOMAIN : nat := 31.
Definition CONFIG : nat := 32.
Definition ENTROPY : nat := 33.
Definition NETWORK : nat := 34.
Definition RUNTIME : nat := 35.
Definition FLAG_COUNT : nat := 36.
Definition FLAG_LETTERS : nat := 37.
Definition MACHINE : nat := FLAG_LETTERS + MAX_DECLARED_FLAGS.
Definition SHARE : nat := MACHINE + 1.
Definition TAIL : nat := SHARE + 1.

(** ** Encoding *)

(** The copying loops write in range: a word or a run of bytes at a place. *)
Definition put8 (out : list Z) (at_ : nat) (v : Z) : list Z := list_inserts at_ (to_le_bytes 8 v) out.

Definition encode (m : Manifest) : run (list Z) :=
  let out := list_inserts 0 (to_le_bytes 4 VERSION) (replicate DESCRIPTOR_LEN 0) in
  let out := <[ARG := match arg m with
                      | ArgSpecForbidden => 0
                      | ArgSpecRequired => 1
                      | ArgSpecWords ReadOnly => 2
                      | ArgSpecWords ReadWrite => 3
                      | ArgSpecWords Create => 4
                      end]> out in
  let out := match mem m with
             | MemSpecRequired min max => put8 (put8 (<[MEM := 1]> out) MEM_MIN min) MEM_MAX max
             | MemSpecForbidden => out
             end in
  let out := <[FILE := match file m with
                       | FileSpecForbidden => 0
                       | FileSpecRequired false => 1
                       | FileSpecRequired true => 2
                       end]> out in
  let letters := letters (flags m) in
  out ← match dir m with
        | DirSpecForbidden => Done out
        | DirSpecRequired None => Done (<[DIR := 1]> out)
        | DirSpecRequired (Some letter) =>
            if bool_decide (letter ∈ letters) then Done (<[SUBTREE := letter]> (<[DIR := 1]> out)) else Panicked
        end;
  code ← match output m with
         | OutputSpecSilent => Done 0
         | OutputSpecWords => Done 1
         | OutputSpecBytes => Done 2
         | OutputSpecBytesAndDiagnostics slot => if slot =? DIAGNOSTICS_SLOT then Done 3 else Panicked
         end;
  let out := <[OUTPUT := code]> out in
  let out := match input m with
             | InputSpecRequired w => <[WRITES_WHILE_READING := Z.b2z w]> (<[INPUT := 1]> out)
             | InputSpecForbidden => out
             end in
  let out := <[REPORTS := Z.b2z (reports m)]> out in
  let out := <[INTERRUPTIBLE := Z.b2z (interruptible m)]> out in
  let out := <[CLOCK := Z.b2z (clock m)]> out in
  let out := <[DOMAIN := Z.b2z (domain m)]> out in
  let out := <[CONFIG := Z.b2z (config m)]> out in
  let out := <[ENTROPY := Z.b2z (entropy m)]> out in
  let out := <[NETWORK := Z.b2z (network m)]> out in
  let out := <[MACHINE := Z.b2z (machine m)]> out in
  let out := <[SHARE := Z.b2z (share m)]> out in
  let out := <[RUNTIME := match runtime m with Native => 0 | Std => 1 end]> out in
  let out := <[FLAG_COUNT := wrap 8 (Z.of_nat (length letters))]> out in
  Done (list_inserts FLAG_LETTERS letters out).

(** ** Decoding *)

Definition get8 (d : list Z) (at_ : nat) : run Z := u64le d (Z.of_nat at_).

Definition flag (d : list Z) (at_ : nat) : run (result Error bool) :=
  b ← byte_at d (Z.of_nat at_);
  if b =? 0 then Done (Ok false) else if b =? 1 then Done (Ok true) else Done (Err (BadField at_)).

Definition zero (d : list Z) (at_ n : nat) : run (result Error unit) :=
  s ← slice d (Z.of_nat at_) (Z.of_nat (at_ + n));
  match position (fun b => negb (b =? 0)) s with
  | Some i => Done (Err (BadField (at_ + i)))
  | None => Done (Ok tt)
  end.

Definition decode_arg (d : list Z) : run (result Error ArgSpec) :=
  b ← byte_at d (Z.of_nat ARG);
  if b =? 0 then Done (Ok ArgSpecForbidden)
  else if b =? 1 then Done (Ok ArgSpecRequired)
  else if b =? 2 then Done (Ok (ArgSpecWords ReadOnly))
  else if b =? 3 then Done (Ok (ArgSpecWords ReadWrite))
  else if b =? 4 then Done (Ok (ArgSpecWords Create))
  else Done (Err (BadField ARG)).

Definition decode_mem (d : list Z) : run (result Error MemSpec) :=
  b ← byte_at d (Z.of_nat MEM);
  if b =? 0 then
    _ ←? zero d MEM_MIN 16;
    Done (Ok MemSpecForbidden)
  else if b =? 1 then
    min ← get8 d MEM_MIN;
    max ← get8 d MEM_MAX;
    if max <? min then Done (Err (BadField MEM_MIN)) else Done (Ok (MemSpecRequired min max))
  else Done (Err (BadField MEM)).

Definition decode_file (d : list Z) : run (result Error FileSpec) :=
  b ← byte_at d (Z.of_nat FILE);
  if b =? 0 then Done (Ok FileSpecForbidden)
  else if b =? 1 then Done (Ok (FileSpecRequired false))
  else if b =? 2 then Done (Ok (FileSpecRequired true))
  else Done (Err (BadField FILE)).

(** The flags, with the letters they were read from. *)
Definition decode_flags (d : list Z) : run (result Error (list Z * Flags)) :=
  count ← byte_at d (Z.of_nat FLAG_COUNT);
  if Z.of_nat MAX_DECLARED_FLAGS <? count then Done (Err (BadField FLAG_COUNT)) else
  letters ← slice d (Z.of_nat FLAG_LETTERS) (Z.of_nat FLAG_LETTERS + count);
  match try_new letters with
  | None => Done (Err (BadField FLAG_LETTERS))
  | Some f =>
      _ ←? zero d (FLAG_LETTERS + Z.to_nat count) (MAX_DECLARED_FLAGS - Z.to_nat count);
      Done (Ok (letters, f))
  end.

Definition decode_dir (d letters : list Z) : run (result Error DirSpec) :=
  b ← byte_at d (Z.of_nat DIR);
  if b =? 0 then
    _ ←? zero d SUBTREE 1;
    Done (Ok DirSpecForbidden)
  else if b =? 1 then
    l ← byte_at d (Z.of_nat SUBTREE);
    if l =? 0 then Done (Ok (DirSpecRequired None))
    else if bool_decide (l ∈ letters) then Done (Ok (DirSpecRequired (Some l)))
    else Done (Err (BadField SUBTREE))
  else Done (Err (BadField DIR)).

Definition decode_output (d : list Z) : run (result Error OutputSpec) :=
  b ← byte_at d (Z.of_nat OUTPUT);
  if b =? 0 then Done (Ok OutputSpecSilent)
  else if b =? 1 then Done (Ok OutputSpecWords)
  else if b =? 2 then Done (Ok OutputSpecBytes)
  else if b =? 3 then Done (Ok (OutputSpecBytesAndDiagnostics DIAGNOSTICS_SLOT))
  else Done (Err (BadField OUTPUT)).

Definition decode_input (d : list Z) : run (result Error InputSpec) :=
  b ← byte_at d (Z.of_nat INPUT);
  if b =? 0 then
    _ ←? zero d WRITES_WHILE_READING 1;
    Done (Ok InputSpecForbidden)
  else if b =? 1 then
    w ←? flag d WRITES_WHILE_READING;
    Done (Ok (InputSpecRequired w))
  else Done (Err (BadField INPUT)).

Definition decode_runtime (d : list Z) : run (result Error Runtime) :=
  b ← byte_at d (Z.of_nat RUNTIME);
  if b =? 0 then Done (Ok Native)
  else if b =? 1 then Done (Ok Std)
  else Done (Err (BadField RUNTIME)).

(** The fields, once the version and the length are right. *)
Definition decode_fields (d : list Z) : run (result Error Manifest) :=
  arg ←? decode_arg d;
  mem ←? decode_mem d;
  file ←? decode_file d;
  lf ←? decode_flags d;
  dir ←? decode_dir d lf.1;
  output ←? decode_output d;
  input ←? decode_input d;
  runtime ←? decode_runtime d;
  _ ←? zero d TAIL (DESCRIPTOR_LEN - TAIL);
  reports ←? flag d REPORTS;
  interruptible ←? flag d INTERRUPTIBLE;
  clock ←? flag d CLOCK;
  domain ←? flag d DOMAIN;
  config ←? flag d CONFIG;
  entropy ←? flag d ENTROPY;
  network ←? flag d NETWORK;
  machine ←? flag d MACHINE;
  share ←? flag d SHARE;
  Done (Ok (MkManifest arg mem file dir lf.2 output input reports interruptible clock domain config entropy network
              machine share runtime)).

Definition decode (d : list Z) : run (result Error Manifest) :=
  if len d <? 4 then Done (Err NoVersion) else
  v ← u32le d 0;
  if negb (v =? VERSION) then Done (Err UnknownVersion) else
  if negb (len d =? Z.of_nat DESCRIPTOR_LEN) then Done (Err WrongLength) else
  decode_fields d.

(** ** The note *)

Definition Note_of (m : Manifest) : run (list Z) :=
  let out := replicate NOTE_LEN 0 in
  let out := list_inserts 0 (to_le_bytes 4 (wrap 32 (len OWNER + 1))) out in
  let out := list_inserts 4 (to_le_bytes 4 (Z.of_nat DESCRIPTOR_LEN)) out in
  let out := list_inserts 8 (to_le_bytes 4 MANIFEST) out in
  let out := list_inserts HEADER_LEN (take 4 OWNER) out in
  d ← encode m;
  Done (list_inserts (HEADER_LEN + NAME_FIELD) d out).

(** ** The subtree-grants note *)

Definition SUBTREE_GRANTS : Z := 2.
Definition SUBTREE_GRANTS_VERSION : Z := 1.
Definition SUBTREE_GRANTS_LEN : nat := 8.
Definition SUBTREE_GRANTS_NOTE_LEN : nat := HEADER_LEN + NAME_FIELD + SUBTREE_GRANTS_LEN.

Inductive Scope := SubtreeScope.

Definition scope_word (s : Scope) : Z := match s with SubtreeScope => 1 end.

Definition decode_subtree_grants (d : list Z) : run (result Error Scope) :=
  if len d <? 4 then Done (Err NoVersion) else
  v ← u32le d 0;
  if negb (v =? SUBTREE_GRANTS_VERSION) then Done (Err UnknownVersion) else
  if negb (len d =? Z.of_nat SUBTREE_GRANTS_LEN) then Done (Err WrongLength) else
  w ← u32le d 4;
  if w =? 1 then Done (Ok SubtreeScope) else Done (Err (BadField 4)).

Definition SubtreeGrantsNote_of (s : Scope) : list Z :=
  let out := replicate SUBTREE_GRANTS_NOTE_LEN 0 in
  let out := list_inserts 0 (to_le_bytes 4 (wrap 32 (len OWNER + 1))) out in
  let out := list_inserts 4 (to_le_bytes 4 (Z.of_nat SUBTREE_GRANTS_LEN)) out in
  let out := list_inserts 8 (to_le_bytes 4 SUBTREE_GRANTS) out in
  let out := list_inserts HEADER_LEN (take 4 OWNER) out in
  let out := list_inserts (HEADER_LEN + NAME_FIELD) (to_le_bytes 4 SUBTREE_GRANTS_VERSION) out in
  list_inserts (HEADER_LEN + NAME_FIELD + 4) (to_le_bytes 4 (scope_word s)) out.

(** ** Reading an image's declaration *)

(** What a timetable can endow (crates/timetable). *)
Definition schedulable (m : Manifest) : bool :=
  image_can_carry m && negb (image_hears_words m) && negb (entropy m) && negb (network m) && negb (config m).

(** What an image's bytes declare, [None] when a note is there and cannot be
    read; then the manifest the scheduler of timetables runs it with. *)
Definition declared (elf : Elf.Elf) : run (option (option Manifest)) :=
  n ← ElfNote.note elf OWNER MANIFEST;
  match n with
  | Err _ => Done None
  | Ok None => Done (Some None)
  | Ok (Some d) =>
      r ← decode d;
      match r with Ok m => Done (Some (Some m)) | Err _ => Done None end
  end.

Definition load_current (elf : Elf.Elf) : run (option Manifest) :=
  o ← declared elf;
  match o with
  | None => Done None
  | Some dm =>
      match image_manifest dm true with
      | Ok m => Done (if schedulable m then Some m else None)
      | Err _ => Done None
      end
  end.

(** ** The layout of a descriptor *)

Definition arg_code (a : ArgSpec) : Z :=
  match a with
  | ArgSpecForbidden => 0 | ArgSpecRequired => 1
  | ArgSpecWords ReadOnly => 2 | ArgSpecWords ReadWrite => 3 | ArgSpecWords Create => 4
  end.
Definition mem_code (s : MemSpec) : Z := match s with MemSpecForbidden => 0 | MemSpecRequired _ _ => 1 end.
Definition mem_bytes (s : MemSpec) : list Z :=
  match s with MemSpecForbidden => replicate 16 0 | MemSpecRequired min max => to_le_bytes 8 min ++ to_le_bytes 8 max end.
Definition file_code (f : FileSpec) : Z :=
  match f with FileSpecForbidden => 0 | FileSpecRequired false => 1 | FileSpecRequired true => 2 end.
Definition dir_code (s : DirSpec) : Z := match s with DirSpecForbidden => 0 | DirSpecRequired _ => 1 end.
Definition subtree_code (s : DirSpec) : Z := match s with DirSpecRequired (Some l) => l | _ => 0 end.
Definition output_code (o : OutputSpec) : Z :=
  match o with
  | OutputSpecSilent => 0 | OutputSpecWords => 1 | OutputSpecBytes => 2 | OutputSpecBytesAndDiagnostics _ => 3
  end.
Definition input_code (i : InputSpec) : Z := match i with InputSpecForbidden => 0 | InputSpecRequired _ => 1 end.
Definition wwr_code (i : InputSpec) : Z := match i with InputSpecRequired w => Z.b2z w | InputSpecForbidden => 0 end.
Definition runtime_code (r : Runtime) : Z := match r with Native => 0 | Std => 1 end.

Definition front (m : Manifest) : list Z :=
  to_le_bytes 4 VERSION ++
  [arg_code (arg m); mem_code (mem m); file_code (file m); dir_code (dir m)] ++
  mem_bytes (mem m) ++
  [output_code (output m); input_code (input m); wwr_code (input m); subtree_code (dir m);
   Z.b2z (reports m); Z.b2z (interruptible m); Z.b2z (clock m); Z.b2z (domain m); Z.b2z (config m);
   Z.b2z (entropy m); Z.b2z (network m); runtime_code (runtime m); count (flags m)].

Definition descriptor (m : Manifest) : list Z :=
  front m ++ array (flags m) ++ [Z.b2z (machine m); Z.b2z (share m); 0].

(** What the encoder asserts, what the types bound, and the order of the memory
    bounds, which only the decoder checks. *)
Record manifest_ok (m : Manifest) : Prop := MkManifestOk {
  ok_flags : flags_ok (flags m);
  ok_mem : match mem m with MemSpecForbidden => True | MemSpecRequired min max => 0 <= min <= max /\ max < 2 ^ 64 end;
  ok_subtree : match dir m with DirSpecRequired (Some l) => l ∈ letters (flags m) | _ => True end;
  ok_output : match output m with OutputSpecBytesAndDiagnostics slot => slot = DIAGNOSTICS_SLOT | _ => True end
}.

(** ** Encoding writes the layout *)

Lemma encode_layout m : manifest_ok m -> encode m = Done (descriptor m).
Proof.
  intros [(l & (Hl & _) & Hf) _ Hsub Hout]. destruct m as [ar me fi di fl ou inp re it cl dom co en ne ma sh ru].
  cbn [flags mem dir output] in *. subst fl.
  set (front_ := front (MkManifest ar me fi di (packed_flags l) ou inp re it cl dom co en ne ma sh ru)).
  set (back := [Z.b2z ma; Z.b2z sh; 0]).
  assert (Hlen : length front_ = FLAG_LETTERS) by (unfold front_, front; cbn [mem]; by destruct me).
  transitivity (Done (list_inserts (length front_) l (front_ ++ replicate MAX_DECLARED_FLAGS 0 ++ back))).
  2: { rewrite list_inserts_blank by done. reflexivity. }
  rewrite Hlen. unfold encode. cbn [arg mem file dir flags output input reports interruptible clock domain config entropy network machine share runtime].
  rewrite letters_packed. rewrite (wrap_small 8) by (unfold MAX_DECLARED_FLAGS in Hl; split; lia).
  assert (Ho : (match ou with OutputSpecSilent => Done 0 | OutputSpecWords => Done 1 | OutputSpecBytes => Done 2
     | OutputSpecBytesAndDiagnostics slot => if slot =? DIAGNOSTICS_SLOT then Done 3 else Panicked end) = Done (output_code ou)).
  { destruct ou; try done. by rewrite Hout. }
  rewrite Ho. rewrite letters_packed in Hsub.
  destruct di as [|[lt|]]; [|rewrite bool_decide_true by done|]; destruct me, inp; reflexivity.
Qed.

(** ** Decoding accepts the layout and nothing else

    [yields X P]: the computation ends without a panic, and succeeds with
    exactly the values that satisfy [P]. *)

Definition yields {E A} (X : run (result E A)) (P : A -> Prop) : Prop :=
  exists r, X = Done r /\ forall a, r = Ok a <-> P a.

Lemma yields_try {E A B} (X : run (result E A)) (f : A -> run (result E B)) P Q :
  yields X P -> (forall a, P a -> yields (f a) (Q a)) -> yields (Elf.try X f) (fun b => exists a, P a /\ Q a b).
Proof.
  intros (r & -> & Hr) Hf. destruct r as [a|e]; cbn [Elf.try].
  - assert (HP : P a) by by apply Hr. destruct (Hf a HP) as (r & -> & Hq). exists r. split; [done|]. intros b. rewrite Hq. split.
    + intros H. by exists a.
    + intros (a' & HP' & H). apply Hr in HP' as [= <-]. done.
  - exists (Err e). split; [done|]. intros b. split; [done|]. intros (a & HP & _). by apply Hr in HP.
Qed.

Lemma yields_iff {E A} (X : run (result E A)) P Q : yields X P -> (forall a, P a <-> Q a) -> yields X Q.
Proof. intros (r & HX & Hr) HPQ. exists r. split; [done|]. intros a. by rewrite Hr. Qed.

Lemma yields_ok {E A} (v : A) : yields (Done (Ok v) : run (result E A)) (fun a => a = v).
Proof. exists (Ok v). split; [done|]. intros a. split; [by intros [= <-]|by intros ->]. Qed.

Lemma yields_err {E A} (e : E) : yields (Done (Err e) : run (result E A)) (fun _ => False).
Proof. exists (Err e). split; [done|]. intros a. by split. Qed.

Lemma byte_at_lookup d n x : d !! n = Some x -> byte_at d (Z.of_nat n) = Done x.
Proof. intros H. unfold Elf.byte_at. by rewrite Nat2Z.id, H. Qed.

(** A byte is compared with each code in turn. *)
Ltac codes H split_value :=
  unfold yields; rewrite (byte_at_lookup _ _ _ H); cbn [mbind run_bind];
  repeat match goal with |- context [?x =? ?c] => destruct (Z.eqb_spec x c) end;
  eexists; (split; [reflexivity|]); split_value; simpl; naive_solver lia.

Definition mem_ok (s : MemSpec) : Prop :=
  match s with MemSpecForbidden => True | MemSpecRequired min max => 0 <= min <= max /\ max < 2 ^ 64 end.

Section fields.
Context (d : list Z) (Hd : bytes_ok d) (Hlen : length d = DESCRIPTOR_LEN).

Lemma flag_yields at_ x : d !! at_ = Some x -> yields (flag d at_) (fun b => x = Z.b2z b).
Proof. intros H. unfold flag. codes H ltac:(intros []). Qed.

Lemma arg_yields x : d !! ARG = Some x -> yields (decode_arg d) (fun a => x = arg_code a).
Proof. intros H. unfold decode_arg. codes H ltac:(intros [| |[]]). Qed.

Lemma file_yields x : d !! FILE = Some x -> yields (decode_file d) (fun a => x = file_code a).
Proof. intros H. unfold decode_file. codes H ltac:(intros [|[]]). Qed.

Lemma output_yields x : d !! OUTPUT = Some x ->
  yields (decode_output d) (fun a => x = output_code a /\
    match a with OutputSpecBytesAndDiagnostics slot => slot = DIAGNOSTICS_SLOT | _ => True end).
Proof. intros H. unfold decode_output. codes H ltac:(intros []). Qed.

Lemma runtime_yields x : d !! RUNTIME = Some x -> yields (decode_runtime d) (fun a => x = runtime_code a).
Proof. intros H. unfold decode_runtime. codes H ltac:(intros []). Qed.

Lemma position_nonzero s : position (fun b => negb (b =? 0)) s = None <-> s = replicate (length s) 0.
Proof.
  induction s as [|x s IH]; [done|]. cbn [position length replicate]. destruct (Z.eqb_spec x 0) as [->|Hx]; simpl.
  - rewrite fmap_None, IH. split; [by intros <-|by intros [= <-]].
  - split; [done|]. by intros [= ].
Qed.

Lemma zero_yields at_ n : (at_ + n <= DESCRIPTOR_LEN)%nat -> yields (zero d at_ n) (fun _ => take n (drop at_ d) = replicate n 0).
Proof.
  intros Hn. unfold zero, yields. rewrite Elf.slice_done by (unfold Elf.len; lia). cbn [mbind run_bind].
  replace (Z.to_nat (Z.of_nat (at_ + n) - Z.of_nat at_)) with n by lia. rewrite Nat2Z.id.
  assert (Hl : length (take n (drop at_ d)) = n) by (rewrite length_take, length_drop; lia).
  pose proof (position_nonzero (take n (drop at_ d))) as Hp. rewrite Hl in Hp.
  destruct (position _ _); eexists; (split; [reflexivity|]); intros []; split; try done; intros H.
  - by apply Hp in H.
  - by apply Hp.
Qed.

Lemma word_split at_ v : (at_ + 8 <= DESCRIPTOR_LEN)%nat -> 0 <= v < 2 ^ 64 ->
  from_le_bytes (take 8 (drop at_ d)) = v <-> take 8 (drop at_ d) = to_le_bytes 8 v.
Proof.
  intros Hat Hv. assert (Hl : length (take 8 (drop at_ d)) = 8%nat) by (rewrite length_take, length_drop; lia).
  split.
  - intros <-. pose proof (to_from_le (take 8 (drop at_ d))) as H. rewrite Hl in H. rewrite H; [done|].
    by apply Forall_take, Forall_drop.
  - intros ->. by apply from_to_le.
Qed.

Lemma get8_done at_ : (at_ + 8 <= DESCRIPTOR_LEN)%nat ->
  get8 d at_ = Done (from_le_bytes (take 8 (drop at_ d))) /\ 0 <= from_le_bytes (take 8 (drop at_ d)) < 2 ^ 64.
Proof.
  intros Hat. assert (Hl : length (take 8 (drop at_ d)) = 8%nat) by (rewrite length_take, length_drop; lia). split.
  - unfold get8. apply ElfNote.u64le_word; [done|]. unfold Elf.len. lia.
  - pose proof (from_le_range (take 8 (drop at_ d))) as H. rewrite Hl in H. apply H. by apply Forall_take, Forall_drop.
Qed.

Lemma mem_yields x : d !! MEM = Some x ->
  yields (decode_mem d) (fun s => x = mem_code s /\ take 16 (drop MEM_MIN d) = mem_bytes s /\ mem_ok s).
Proof.
  intros H. unfold decode_mem. rewrite (byte_at_lookup _ _ _ H). cbn [mbind run_bind].
  destruct (Z.eqb_spec x 0) as [->|H0]; [|destruct (Z.eqb_spec x 1) as [->|H1]].
  - eapply yields_iff; [apply yields_try; [apply zero_yields; unfold DESCRIPTOR_LEN, MEM_MIN; lia|intros; apply yields_ok]|].
    intros [|min max]; simpl; naive_solver.
  - destruct (get8_done MEM_MIN) as [-> Hmin]; [unfold DESCRIPTOR_LEN, MEM_MIN; lia|]. cbn [mbind run_bind].
    destruct (get8_done MEM_MAX) as [-> Hmax]; [unfold DESCRIPTOR_LEN, MEM_MAX; lia|]. cbn [mbind run_bind].
    assert (Hs : take 16 (drop MEM_MIN d) = take 8 (drop MEM_MIN d) ++ take 8 (drop MEM_MAX d)).
    { rewrite <- (take_drop 8 (take 16 (drop MEM_MIN d))), take_take. f_equal. rewrite skipn_firstn_comm, drop_drop. done. }
    rewrite Hs. set (lo := take 8 (drop MEM_MIN d)) in *. set (hi := take 8 (drop MEM_MAX d)) in *.
    assert (Hlo : length lo = 8%nat) by (unfold lo; rewrite length_take, length_drop; unfold DESCRIPTOR_LEN, MEM_MIN in *; lia).
    assert (Hw : forall min max, 0 <= min < 2 ^ 64 -> 0 <= max < 2 ^ 64 ->
      lo ++ hi = mem_bytes (MemSpecRequired min max) <-> from_le_bytes lo = min /\ from_le_bytes hi = max).
    { intros min max Hm1 Hm2. unfold lo, hi. rewrite !word_split by (done || (unfold DESCRIPTOR_LEN, MEM_MIN, MEM_MAX; lia)).
      fold lo hi. cbn [mem_bytes]. split; [|by intros [-> ->]]. intros Ha. apply app_inj_1 in Ha; [done|]. by rewrite length_to_le. }
    destruct (Z.ltb_spec (from_le_bytes hi) (from_le_bytes lo)) as [Hlt|Hge].
    + eapply yields_iff; [apply yields_err|]. intros [|min max]; split; try done; simpl; try lia.
      intros (_ & Hb & Hok). apply Hw in Hb as [<- <-]; [|lia..]. lia.
    + eapply yields_iff; [apply yields_ok|]. intros [|min max]; split; try done; simpl; try lia.
      * intros [= -> ->]. split; [done|]. split; [|lia]. by apply Hw.
      * intros (_ & Hb & Hok). apply Hw in Hb as [<- <-]; [done|lia..].
  - eapply yields_iff; [apply yields_err|]. intros [|min max]; simpl; naive_solver lia.
Qed.

Lemma input_yields x y : d !! INPUT = Some x -> d !! WRITES_WHILE_READING = Some y ->
  yields (decode_input d) (fun s => x = input_code s /\ y = wwr_code s).
Proof.
  intros Hx Hy. unfold decode_input. rewrite (byte_at_lookup _ _ _ Hx). cbn [mbind run_bind].
  destruct (Z.eqb_spec x 0) as [->|H0]; [|destruct (Z.eqb_spec x 1) as [->|H1]].
  - eapply yields_iff; [apply yields_try; [apply zero_yields; unfold DESCRIPTOR_LEN, WRITES_WHILE_READING; lia|intros; apply yields_ok]|].
    rewrite (drop_S _ _ _ Hy). intros []; simpl; naive_solver lia.
  - eapply yields_iff; [apply yields_try; [apply (flag_yields _ _ Hy)|intros; apply yields_ok]|].
    intros []; simpl; naive_solver lia.
  - eapply yields_iff; [apply yields_err|]. intros []; simpl; naive_solver lia.
Qed.

Lemma dir_yields ls x y : 0 ∉ ls -> d !! DIR = Some x -> d !! SUBTREE = Some y ->
  yields (decode_dir d ls) (fun s => x = dir_code s /\ y = subtree_code s /\
    match s with DirSpecRequired (Some l) => l ∈ ls | _ => True end).
Proof.
  intros Hls Hx Hy. unfold decode_dir. rewrite (byte_at_lookup _ _ _ Hx). cbn [mbind run_bind].
  destruct (Z.eqb_spec x 0) as [->|H0]; [|destruct (Z.eqb_spec x 1) as [->|H1]].
  - eapply yields_iff; [apply yields_try; [apply zero_yields; unfold DESCRIPTOR_LEN, SUBTREE; lia|intros; apply yields_ok]|].
    rewrite (drop_S _ _ _ Hy). intros [|[]]; simpl; naive_solver lia.
  - rewrite (byte_at_lookup _ _ _ Hy). cbn [mbind run_bind].
    destruct (Z.eqb_spec y 0) as [->|Hy0]; [|case_bool_decide as Hin].
    + eapply yields_iff; [apply yields_ok|]. intros [|[]]; simpl; naive_solver lia.
    + eapply yields_iff; [apply yields_ok|]. intros [|[]]; simpl; naive_solver lia.
    + eapply yields_iff; [apply yields_err|]. intros [|[]]; simpl; naive_solver lia.
  - eapply yields_iff; [apply yields_err|]. intros [|[]]; simpl; naive_solver lia.
Qed.

Lemma flags_yields x : d !! FLAG_COUNT = Some x ->
  yields (decode_flags d) (fun p => flags_ok p.2 /\ p.1 = letters p.2 /\ x = count p.2 /\
    take MAX_DECLARED_FLAGS (drop FLAG_LETTERS d) = array p.2).
Proof.
  intros Hx. unfold decode_flags. rewrite (byte_at_lookup _ _ _ Hx). cbn [mbind run_bind].
  assert (Hx0 : 0 <= x < 256) by exact (proj1 (Forall_lookup _ _) Hd _ _ Hx).
  assert (Hfo : forall f, flags_ok f -> exists l, letters_ok l /\ f = packed_flags l /\ letters f = l /\ count f = Z.of_nat (length l)).
  { intros f (l & Hl & ->). exists l. by rewrite letters_packed. }
  destruct (Z.ltb_spec (Z.of_nat MAX_DECLARED_FLAGS) x) as [Hgt|Hle].
  { eapply yields_iff; [apply yields_err|]. intros [ls f]; simpl. split; [done|]. intros (Hf & _ & Hc & _).
    destruct (Hfo f Hf) as (l & [Hl _] & _ & _ & Hcl). lia. }
  unfold DESCRIPTOR_LEN, MAX_DECLARED_FLAGS in *.
  rewrite Elf.slice_done by (unfold Elf.len, FLAG_LETTERS; lia). cbn [mbind run_bind].
  replace (Z.to_nat (Z.of_nat FLAG_LETTERS + x - Z.of_nat FLAG_LETTERS)) with (Z.to_nat x) by lia. rewrite Nat2Z.id.
  set (ls := take (Z.to_nat x) (drop FLAG_LETTERS d)).
  assert (Hls : length ls = Z.to_nat x) by (unfold ls, FLAG_LETTERS; rewrite length_take, length_drop; lia).
  assert (Harr : take 16 (drop FLAG_LETTERS d) = ls ++ take (16 - Z.to_nat x) (drop (FLAG_LETTERS + Z.to_nat x) d)).
  { rewrite <- (take_drop (Z.to_nat x) (take 16 (drop FLAG_LETTERS d))), take_take, skipn_firstn_comm, drop_drop.
    unfold ls. by rewrite Nat.min_l by lia. }
  rewrite Harr. destruct (try_new ls) as [f|] eqn:Hf.
  - apply try_new_spec in Hf as [Hok ->].
    eapply yields_iff; [apply yields_try; [apply zero_yields; unfold DESCRIPTOR_LEN, FLAG_LETTERS; lia|intros; apply yields_ok]|].
    intros [ls' f]; simpl. split.
    + intros (_ & Hz & [= -> ->]). split; [by exists ls|]. rewrite letters_packed, Hz. split; [done|].
      unfold packed_flags. cbn [count array]. rewrite Hls. split; [lia|done].
    + intros (Hf & -> & Hc & Ha). destruct (Hfo f Hf) as (l & Hl & -> & -> & Hcl). cbn [array packed_flags] in Ha.
      rewrite Hcl in Hc. apply app_inj_1 in Ha as [<- Ha]; [|lia]. exists tt. rewrite Ha, Hls. done.
  - eapply yields_iff; [apply yields_err|]. intros [ls' f]; simpl. split; [done|]. intros (Hf' & -> & Hc & Ha).
    destruct (Hfo f Hf') as (l & Hl & -> & _ & Hcl). cbn [array packed_flags] in Ha. rewrite Hcl in Hc.
    apply app_inj_1 in Ha as [-> _]; [|lia]. assert (try_new l = Some (packed_flags l)) by by apply try_new_spec. congruence.
Qed.
End fields.

Lemma length_mem_bytes s : length (mem_bytes s) = 16%nat.
Proof. by destruct s. Qed.

Lemma length_array f : flags_ok f -> length (array f) = 16%nat.
Proof.
  intros (l & [Hl _] & ->). unfold packed_flags, MAX_DECLARED_FLAGS in *. cbn [array]. rewrite length_app, length_replicate. lia.
Qed.

Lemma length_descriptor m : flags_ok (flags m) -> length (descriptor m) = DESCRIPTOR_LEN.
Proof.
  intros Hf. unfold descriptor, front. rewrite !length_app, length_mem_bytes, (length_array _ Hf). done.
Qed.

Lemma letters_nonzero f : flags_ok f -> 0 ∉ letters f.
Proof.
  intros (l & (_ & Ha & _) & ->). rewrite letters_packed. intros Hin. by apply (proj1 (Forall_forall _ _) Ha) in Hin.
Qed.

(** The pieces of a descriptor, from its bytes. *)
Record describes (d : list Z) (m : Manifest) : Prop := MkDescribes {
  at_version : take 4 d = to_le_bytes 4 VERSION;
  at_codes : take 4 (drop 4 d) = [arg_code (arg m); mem_code (mem m); file_code (file m); dir_code (dir m)];
  at_mem : take 16 (drop MEM_MIN d) = mem_bytes (mem m);
  at_more : take 13 (drop OUTPUT d) =
    [output_code (output m); input_code (input m); wwr_code (input m); subtree_code (dir m);
     Z.b2z (reports m); Z.b2z (interruptible m); Z.b2z (clock m); Z.b2z (domain m); Z.b2z (config m);
     Z.b2z (entropy m); Z.b2z (network m); runtime_code (runtime m); count (flags m)];
  at_letters : take MAX_DECLARED_FLAGS (drop FLAG_LETTERS d) = array (flags m);
  at_back : drop MACHINE d = [Z.b2z (machine m); Z.b2z (share m); 0]
}.

Lemma describes_iff d m : flags_ok (flags m) -> length d = DESCRIPTOR_LEN -> describes d m <-> d = descriptor m.
Proof.
  intros Hf Hl. split.
  - intros [H1 H2 H3 H4 H5 H6]. rewrite <- (take_drop 4 d), <- (take_drop 4 (drop 4 d)), H1, H2, drop_drop.
    rewrite <- (take_drop 16 (drop _ d)), drop_drop. change (take 16 (drop (4 + 4) d)) with (take 16 (drop MEM_MIN d)). rewrite H3.
    rewrite <- (take_drop 13 (drop _ d)), drop_drop. change (take 13 (drop (4 + 4 + 16) d)) with (take 13 (drop OUTPUT d)). rewrite H4.
    rewrite <- (take_drop 16 (drop _ d)), drop_drop. change (take 16 (drop _ d)) with (take MAX_DECLARED_FLAGS (drop FLAG_LETTERS d)).
    rewrite H5. change (drop (4 + 4 + 16 + 13 + 16) d) with (drop MACHINE d). rewrite H6.
    unfold descriptor, front. by rewrite <- !(assoc_L app).
  - intros ->. unfold descriptor, front. constructor; try done.
    + by destruct (mem m).
    + by destruct (mem m).
    + transitivity (take 16 (array (flags m) ++ [Z.b2z (machine m); Z.b2z (share m); 0])); [by destruct (mem m)|].
      apply take_app_length'. by rewrite length_array.
    + transitivity (drop 16 (array (flags m) ++ [Z.b2z (machine m); Z.b2z (share m); 0])); [by destruct (mem m)|].
      apply drop_app_length'. by rewrite length_array.
Qed.

Lemma version_iff d : bytes_ok d -> (4 <= length d)%nat -> from_le_bytes (take 4 d) = VERSION <-> take 4 d = to_le_bytes 4 VERSION.
Proof.
  intros Hb Hl. assert (Hn : length (take 4 d) = 4%nat) by (rewrite length_take; lia). split.
  - intros H. pose proof (to_from_le (take 4 d)) as Ht. rewrite Hn, H in Ht. symmetry. apply Ht. by apply Forall_take.
  - intros ->. done.
Qed.

Lemma fields_yield d : bytes_ok d -> length d = DESCRIPTOR_LEN -> take 4 d = to_le_bytes 4 VERSION ->
  yields (decode_fields d) (fun m => manifest_ok m /\ d = descriptor m).
Proof.
  intros Hb Hlen Hv1. pose proof Hlen as Hlen'. pose proof Hb as Hb'. unfold decode_fields.
  do 56 (destruct d as [|? d]; [done|]). destruct d; [|done]. set (d := _ :: _) in Hb', Hlen', Hv1 |- *.
  eapply yields_iff.
  { eapply yields_try; [exact (arg_yields d _ eq_refl)|intros ar Har].
    eapply yields_try; [exact (mem_yields d Hb' Hlen' _ eq_refl)|intros me Hme].
    eapply yields_try; [exact (file_yields d _ eq_refl)|intros fi Hfi].
    eapply yields_try; [exact (flags_yields d Hb' Hlen' _ eq_refl)|intros lf Hlf].
    eapply yields_try; [refine (dir_yields d Hlen' lf.1 _ _ _ eq_refl eq_refl)|intros di Hdi].
    { destruct Hlf as (Hf & -> & _). by apply letters_nonzero. }
    eapply yields_try; [exact (output_yields d _ eq_refl)|intros ou Hou].
    eapply yields_try; [exact (input_yields d Hlen' _ _ eq_refl eq_refl)|intros inp Hin].
    eapply yields_try; [exact (runtime_yields d _ eq_refl)|intros ru Hru].
    eapply yields_try; [apply (zero_yields d Hlen'); by apply Nat.leb_le|intros ? Hta].
    do 9 (eapply yields_try; [eapply (flag_yields d); reflexivity|intros ? ?]).
    apply yields_ok. }
  intros m. cbv beta. clear Hb Hlen. split.
  - intros (ar & Har & me & (Hme & Hmb & Hmok) & fi & Hfi & (ls & f) & Hlf & di & (Hdi & Hsu & Hin) & ou & (Hou & Hslot) &
      inp & (Hinp & Hw) & ru & Hru & _ & Hta & re & Hre & it & Hit & cl & Hcl & dom & Hdo & co & Hco & en & Hen & ne & Hne &
      ma & Hma & sh & Hsh & ->). cbn [fst snd] in *. destruct Hlf as (Hf & -> & Hcn & Harr).
    split; [by constructor|]. apply describes_iff; [done|done|].
    constructor; [done| |done| |done|]; cbn; rewrite ?Har, ?Hme, ?Hfi, ?Hdi, ?Hou, ?Hinp, ?Hw, ?Hsu, ?Hre, ?Hit, ?Hcl, ?Hdo, ?Hco, ?Hen, ?Hne, ?Hru, ?Hcn, ?Hma, ?Hsh; try done.
    cbn in Hta. by injection Hta as ->.
  - intros [[Hf Hmok Hsu Hou] Hde]. apply describes_iff in Hde as [_ H2 H3 H4 H5 H6]; [|done|done].
    cbn in H2, H4, H6. injection H2 as ? ? ? ?. injection H4 as ? ? ? ? ? ? ? ? ? ? ? ? ?. injection H6 as ? ? ?.
    exists (arg m); split; [done|]. exists (mem m); split; [done|]. exists (file m); split; [done|].
    exists (letters (flags m), flags m); split; [done|]. exists (dir m); split; [done|]. exists (output m); split; [done|].
    exists (input m); split; [done|]. exists (runtime m); split; [done|]. exists tt; split; [by cbn; f_equal|].
    exists (reports m); split; [done|]. exists (interruptible m); split; [done|]. exists (clock m); split; [done|].
    exists (domain m); split; [done|]. exists (config m); split; [done|]. exists (entropy m); split; [done|].
    exists (network m); split; [done|]. exists (machine m); split; [done|]. exists (share m); split; [done|].
    by destruct m.
Qed.

Lemma decode_yields d : bytes_ok d -> yields (decode d) (fun m => manifest_ok m /\ d = descriptor m).
Proof.
  intros Hb. unfold decode.
  assert (Hno : forall m, manifest_ok m /\ d = descriptor m -> take 4 d = to_le_bytes 4 VERSION /\ length d = DESCRIPTOR_LEN).
  { intros m [[Hf _ _ _] ->]. split; [done|]. by apply length_descriptor. }
  destruct (Z.ltb_spec (len d) 4) as [Hs|Hl].
  { eapply yields_iff; [apply yields_err|]. intros m. split; [done|]. intros H. apply Hno in H as [_ H]. unfold Elf.len in Hs. rewrite H in Hs. done. }
  rewrite ElfNote.u32le_word by done. cbn [mbind run_bind]. unfold Elf.len in Hl.
  pose proof (version_iff d Hb ltac:(lia)) as Hv.
  destruct (Z.eqb_spec (from_le_bytes (take 4 d)) VERSION) as [Hv1|Hv1]; cbn [negb].
  2: { eapply yields_iff; [apply yields_err|]. intros m. split; [done|]. intros H. apply Hno in H as [H _]. tauto. }
  destruct (Z.eqb_spec (len d) (Z.of_nat DESCRIPTOR_LEN)) as [Hlen|Hlen]; cbn [negb].
  2: { eapply yields_iff; [apply yields_err|]. intros m. split; [done|]. intros H. apply Hno in H as [_ H]. unfold Elf.len in Hlen. congruence. }
  apply Nat2Z.inj in Hlen. apply Hv in Hv1. by apply fields_yield.
Qed.

Lemma alnum_byte b : is_ascii_alphanumeric b = true -> 0 <= b < 256.
Proof. unfold is_ascii_alphanumeric, is_ascii_alphabetic, is_ascii_digit. lia. Qed.

Lemma descriptor_bytes m : manifest_ok m -> bytes_ok (descriptor m).
Proof.
  intros [(l & (Hl & Ha & _) & Hf) _ Hsub _]. unfold descriptor, front, bytes_ok. rewrite Hf in *. rewrite letters_packed in Hsub.
  assert (Hb2 : forall b, 0 <= Z.b2z b < 256) by (intros []; simpl; lia).
  assert (Hal : bytes_ok l) by (eapply Forall_impl; [exact Ha|apply alnum_byte]).
  assert (Hsu : 0 <= subtree_code (dir m) < 256).
  { destruct (dir m) as [|[x|]]; simpl; try lia. exact (proj1 (Forall_forall _ _) Hal x Hsub). }
  assert (0 <= arg_code (arg m) < 256) by (destruct (arg m) as [| |[]]; simpl; lia).
  assert (0 <= mem_code (mem m) < 256) by (destruct (mem m); simpl; lia).
  assert (0 <= file_code (file m) < 256) by (destruct (file m) as [|[]]; simpl; lia).
  assert (0 <= dir_code (dir m) < 256) by (destruct (dir m); simpl; lia).
  assert (0 <= output_code (output m) < 256) by (destruct (output m); simpl; lia).
  assert (0 <= input_code (input m) < 256) by (destruct (input m); simpl; lia).
  assert (0 <= wwr_code (input m) < 256) by (destruct (input m); simpl; [lia|apply Hb2]).
  assert (0 <= runtime_code (runtime m) < 256) by (destruct (runtime m); simpl; lia).
  assert (0 <= count (packed_flags l) < 256) by (unfold MAX_DECLARED_FLAGS in Hl; cbn [count packed_flags]; lia).
  assert (Hmb : bytes_ok (mem_bytes (mem m))).
  { destruct (mem m); unfold mem_bytes; [by apply Forall_replicate|]. apply Forall_app. split; apply to_le_ok. }
  cbn [array packed_flags]. rewrite !Forall_app, !Forall_cons. split_and!; try apply Hb2; try apply Forall_nil_2; try done; try lia.
  - apply to_le_ok.
  - by apply Forall_replicate.
Qed.

(** C27: a manifest and its note are two forms of one thing. The encoder writes
    56 bytes the decoder reads back to the same manifest, no other bytes decode
    to it, and whatever bytes the decoder is given it ends without a panic; what
    it accepts is well formed and encodes to the very bytes it came from. *)
Theorem manifest_note_is_canonical m d :
  bytes_ok d -> manifest_ok m ->
  (exists e, encode m = Done e /\ length e = DESCRIPTOR_LEN /\ decode e = Done (Ok m) /\
     (decode d = Done (Ok m) <-> d = e)) /\
  (exists r, decode d = Done r /\ forall m', r = Ok m' -> manifest_ok m' /\ encode m' = Done d).
Proof.
  intros Hd Hm. split.
  - exists (descriptor m). split; [by apply encode_layout|]. split; [apply length_descriptor, Hm|].
    destruct (decode_yields _ (descriptor_bytes m Hm)) as (r & -> & Hr). destruct (decode_yields d Hd) as (r' & -> & Hr').
    assert (r = Ok m) as -> by by apply Hr. split; [done|]. split.
    + intros [= ->]. by apply Hr'.
    + intros ->. f_equal. by apply Hr'.
  - destruct (decode_yields d Hd) as (r & -> & Hr). exists r. split; [done|]. intros m' Hm'.
    apply Hr in Hm' as [Hok ->]. split; [done|]. by apply encode_layout.
Qed.

(** Every program of the table has a manifest the encoder accepts. *)
Lemma table_manifest_ok p : manifest_ok (manifest p).
Proof.
  assert (Hn : flags_ok NO_FLAGS) by (exists []; split; [split_and!; [simpl; lia|done|constructor]|done]).
  assert (Hr : flags_ok RM_FLAGS) by (apply flags_ok_try_new; vm_compute; reflexivity).
  destruct p; constructor; cbn; try done; try lia. vm_decide.
Qed.

Lemma manifest_note_is_canonical_witness :
  exists e, encode (manifest Rm) = Done e /\ decode e = Done (Ok (manifest Rm)).
Proof.
  destruct (proj1 (manifest_note_is_canonical (manifest Rm) [] ltac:(constructor) (table_manifest_ok Rm))) as (e & He & _ & Hd & _).
  by exists e.
Defined.

(** ** The note in an image *)

(** The note [Note_of] lays out. *)
Definition manifest_note (m : Manifest) : ElfNote.Note :=
  ElfNote.MkNote (OWNER ++ [0]) MANIFEST (descriptor m) [0; 0; 0] [].

Lemma list_inserts_whole (a l c : list Z) n : length l = n -> list_inserts (length a) l (a ++ replicate n 0 ++ c) = a ++ l ++ c.
Proof. intros <-. rewrite list_inserts_blank by done. by rewrite Nat.sub_diag, app_nil_r. Qed.

Lemma Note_of_layout m : manifest_ok m -> Note_of m = Done (ElfNote.note_bytes (manifest_note m)) /\ ElfNote.note_ok 4 (manifest_note m).
Proof.
  intros Hm. pose proof (length_descriptor m (ok_flags m Hm)) as Hl. split.
  - unfold Note_of. rewrite (encode_layout m Hm). cbn [mbind run_bind]. f_equal.
    transitivity (list_inserts 20 (descriptor m) ((to_le_bytes 4 5 ++ to_le_bytes 4 56 ++ to_le_bytes 4 1 ++ OWNER ++ [0; 0; 0; 0]) ++ replicate 56 0 ++ [])).
    { reflexivity. }
    change 20%nat with (length (to_le_bytes 4 5 ++ to_le_bytes 4 56 ++ to_le_bytes 4 1 ++ OWNER ++ [0; 0; 0; 0])).
    rewrite list_inserts_whole by done. unfold ElfNote.note_bytes, manifest_note. cbn [ElfNote.nname ElfNote.ndesc ElfNote.ntype ElfNote.pad1 ElfNote.pad2].
    unfold Elf.len. rewrite Hl. by rewrite <- !(assoc_L app).
  - constructor; unfold manifest_note; cbn [ElfNote.nname ElfNote.ndesc ElfNote.ntype ElfNote.pad1 ElfNote.pad2]; try done;
      unfold Elf.len; rewrite Hl; done.
Qed.

(** An image runs with the manifest its author wrote. If the image's note
    segments are well formed and hold the note the build lays out for a
    manifest, and no second note claims to be one, the scheduler reads back
    that very manifest and runs the image with it when it can endow it; whatever
    the bytes are, reading the declaration ends without a panic. *)
Theorem carried_manifest_is_read elf :
  bytes_ok (Elf.bytes elf) -> len (Elf.bytes elf) < 2 ^ 63 ->
  (exists o, declared elf = Done o) /\
  forall s nss m pre post,
    ElfNote.from_head (Elf.bytes elf) = Done (Ok s) ->
    Forall2 (ElfNote.holds_notes (Elf.bytes elf)) (ElfNote.note_headers s) nss ->
    manifest_ok m ->
    concat nss = pre ++ manifest_note m :: post -> ElfNote.descs OWNER MANIFEST (pre ++ post) = [] ->
    Note_of m = Done (ElfNote.note_bytes (manifest_note m)) /\
    declared elf = Done (Some (Some m)) /\
    load_current elf = Done (if schedulable m then Some m else None).
Proof.
  intros Hb Hlen. destruct (ElfNote.note_spec elf OWNER MANIFEST Hb Hlen) as (r & Hr & Hiff). split.
  - unfold declared. rewrite Hr. cbn [mbind run_bind]. destruct r as [[d|]|]; [|by eexists..].
    destruct (proj1 (Hiff (Some d)) eq_refl) as (s & nss & _ & Hn & Hd).
    assert (Hok : bytes_ok d).
    { apply (ElfNote.descs_bytes OWNER MANIFEST _ _ _ d Hb Hn). rewrite Hd. by left. }
    destruct (decode_yields d Hok) as (q & -> & _). cbn [mbind run_bind]. destruct q; by eexists.
  - intros s nss m pre post Hs Hn Hm Hc Hone. split; [by apply Note_of_layout|].
    assert (Hd : declared elf = Done (Some (Some m))).
    { unfold declared. rewrite Hr. cbn [mbind run_bind].
      assert (r = Ok (Some (descriptor m))) as ->.
      { apply Hiff. exists s, nss. split; [done|]. split; [done|]. rewrite Hc. unfold ElfNote.descs in *.
        rewrite omap_app in Hone |- *. apply app_eq_nil in Hone as [-> H2].
        change (manifest_note m :: post) with ([manifest_note m] ++ post). rewrite omap_app, H2. reflexivity. }
      destruct (decode_yields _ (descriptor_bytes m Hm)) as (q & -> & Hq). cbn [mbind run_bind]. by rewrite (proj2 (Hq m)). }
    split; [done|]. unfold load_current. rewrite Hd. cbn [mbind run_bind]. unfold image_manifest.
    change (default NO_NOTE_MANIFEST (Some m)) with m. cbv zeta. destruct (image_can_carry m) eqn:Hcc; [done|].
    unfold schedulable. by rewrite Hcc.
Qed.

Definition demo_elf : Elf.Elf :=
  Elf.MkElf (Elf.MAGIC ++ [2; 1; 1] ++ replicate 25 0 ++ to_le_bytes 8 64 ++ replicate 14 0 ++ to_le_bytes 2 56 ++ to_le_bytes 2 1 ++
    replicate 6 0 ++
    to_le_bytes 4 4 ++ replicate 4 0 ++ to_le_bytes 8 120 ++ replicate 16 0 ++ to_le_bytes 8 76 ++ replicate 8 0 ++ to_le_bytes 8 4 ++
    ElfNote.note_bytes (manifest_note (manifest MemoryGrantDepleter))) 0 64 1 56.

Lemma carried_manifest_is_read_witness :
  load_current demo_elf = Done (Some (manifest MemoryGrantDepleter)).
Proof.
  destruct (carried_manifest_is_read demo_elf) as [_ H]; [vm_decide|vm_compute; reflexivity|].
  pose proof (table_manifest_ok MemoryGrantDepleter) as Hm.
  destruct (H (ElfNote.MkNoteSegments (take 56 (drop 64 (Elf.bytes demo_elf))) 56 1 0) [[manifest_note (manifest MemoryGrantDepleter)]]
    (manifest MemoryGrantDepleter) [] []) as (_ & _ & ->); [vm_compute; reflexivity| |done|reflexivity|reflexivity|reflexivity].
  constructor; [|constructor]. exists 4, 120, 196. split; [reflexivity|]. split; [vm_compute; reflexivity|].
  split; [vm_compute; reflexivity|]. constructor; [|constructor]. by apply Note_of_layout.
Defined.

(** The other note lays out the same way and reads back. *)
Example subtree_grants_note_reads_back :
  SubtreeGrantsNote_of SubtreeScope =
    ElfNote.note_bytes (ElfNote.MkNote (OWNER ++ [0]) SUBTREE_GRANTS (to_le_bytes 4 SUBTREE_GRANTS_VERSION ++ to_le_bytes 4 1) [0; 0; 0] []) /\
  decode_subtree_grants (to_le_bytes 4 SUBTREE_GRANTS_VERSION ++ to_le_bytes 4 1) = Done (Ok SubtreeScope).
Proof. by vm_compute. Qed.

End ManifestNote.
