(* ===== verification/Nav.v ===== *)
(** * Naming places (crates/grant_plan/src/nav.rs)

    A shell holds one directory, its root, and tracks where it stands below it
    as a fixed array of component names. A path is a sequence of steps down and
    up; nothing above the root can be named. The names a user binds are a small
    table, and two roots may be told apart by label. *)

From S2P Require Import Prelude Elf.
Local Open Scope Z_scope.

Module Nav.
Import (notations) Elf.

Definition MAX_FILE_NAME : nat := 16.
Definition MAX_DEPTH : nat := 8.
Definition MAX_NAME : nat := MAX_FILE_NAME.
Definition RENDER_MAX : nat := 1 + MAX_DEPTH * (1 + MAX_NAME).

Definition SLASH : Z := 47.
Definition BACKSLASH : Z := 92.
Definition COLON : Z := 58.

Inductive Refused := NotAName | TooDeep | AtYourRoot.

Inductive Step := Down (name : list Z) | Up.

#[export] Instance Step_eq_dec : EqDecision Step.
Proof. solve_decision. Defined.

(** ** Paths *)

(** The steps that were filled in of the array of [MAX_DEPTH]. *)
Record Path := MkPath { steps : list Step; from_root : bool }.

Definition is_from_root (p : Path) : bool := from_root p.

Definition split_last_component (p : Path) : option (list Step * list Z) :=
  match last (steps p) with
  | Some (Down name) => Some (take (length (steps p) - 1) (steps p), name)
  | _ => None
  end.

(** [token.split(|&b| b == b'/')]. *)
Fixpoint split_slash (token : list Z) : list (list Z) :=
  match token with
  | [] => [[]]
  | b :: rest =>
      if b =? SLASH then [] :: split_slash rest
      else match split_slash rest with [] => [[b]] | p :: ps => (b :: p) :: ps end
  end.

Definition component_fits (part : list Z) : bool :=
  negb (bool_decide (part = []))
  && (length part <=? MAX_NAME)%nat
  && negb (bool_decide (part = lit "."))
  && negb (bool_decide (part = lit ".."))
  && negb (bool_decide (SLASH ∈ part))
  && negb (bool_decide (BACKSLASH ∈ part))
  && negb (bool_decide (COLON ∈ part))
  && negb (bool_decide (0 ∈ part)).

Fixpoint path_loop (parts : list (list Z)) (acc : list Step) : result Refused (list Step) :=
  match parts with
  | [] => Ok acc
  | part :: rest =>
      if bool_decide (part = []) || bool_decide (part = lit ".") then path_loop rest acc
      else if (length acc =? MAX_DEPTH)%nat then Err TooDeep
      else if bool_decide (part = lit "..") then path_loop rest (acc ++ [Up])
      else if negb (component_fits part) then Err NotAName
      else path_loop rest (acc ++ [Down part])
  end.

Definition path (token : list Z) : result Refused Path :=
  let from_root := bool_decide (head token = Some SLASH) in
  if bool_decide (token = []) then Err NotAName else
  match path_loop (split_slash token) [] with
  | Err e => Err e
  | Ok acc => if (length acc =? 0)%nat && negb from_root then Err NotAName else Ok (MkPath acc from_root)
  end.

(** ** Where the shell stands *)

Record Cwd := MkCwd { names : list (list Z); lens : list Z; depth : nat }.

#[export] Instance Cwd_eq_dec : EqDecision Cwd.
Proof. solve_decision. Defined.

Definition root : Cwd := MkCwd (replicate MAX_DEPTH (replicate MAX_NAME 0)) (replicate MAX_DEPTH 0) 0.

Definition is_root (c : Cwd) : bool := (depth c =? 0)%nat.

Definition descend (c : Cwd) (name : list Z) : run (bool * Cwd) :=
  if (depth c =? MAX_DEPTH)%nat || negb (component_fits name) then Done (false, c)
  else
    match names c !! depth c with
    | None => Panicked
    | Some row =>
        Done (true, MkCwd (<[depth c := list_inserts 0 name row]> (names c))
                          (<[depth c := wrap 8 (Z.of_nat (length name))]> (lens c)) (depth c + 1))
    end.

Definition ascend (c : Cwd) : run (bool * Cwd) :=
  if (depth c =? 0)%nat then Done (false, c)
  else
    let d := (depth c - 1)%nat in
    if (length (names c) <=? d)%nat then Panicked
    else Done (true, MkCwd (<[d := replicate MAX_NAME 0]> (names c)) (<[d := 0]> (lens c)) d).

Definition component (c : Cwd) (level : nat) : run (list Z) :=
  match names c !! level, lens c !! level with
  | Some row, Some n => Elf.slice row 0 n
  | _, _ => Panicked
  end.

Definition last_ (c : Cwd) : run (option (list Z)) :=
  match depth c with
  | O => Done None
  | S l => nm ← component c l; Done (Some nm)
  end.

(** [put] drops what the buffer has no room for. *)
Definition put (cap : nat) (out : list Z) (b : Z) : list Z :=
  if (length out <? cap)%nat then out ++ [b] else out.

Fixpoint render_levels (c : Cwd) (cap : nat) (levels : list nat) (out : list Z) : run (list Z) :=
  match levels with
  | [] => Done out
  | l :: rest =>
      nm ← component c l;
      render_levels c cap rest (fold_left (put cap) nm (put cap out SLASH))
  end.

(** The bytes written to a buffer of [cap] bytes. *)
Definition render (c : Cwd) (cap : nat) : run (list Z) :=
  if (depth c =? 0)%nat then Done (put cap [] SLASH) else render_levels c cap (seq 0 (depth c)) [].

Fixpoint apply_loop (next : Cwd) (ss : list Step) : run (result Refused Cwd) :=
  match ss with
  | [] => Done (Ok next)
  | Up :: rest =>
      '(ok, next') ← ascend next;
      if (ok : bool) then apply_loop next' rest else Done (Err AtYourRoot)
  | Down name :: rest =>
      if negb (component_fits name) then Done (Err NotAName)
      else
        '(ok, next') ← descend next name;
        if (ok : bool) then apply_loop next' rest else Done (Err TooDeep)
  end.

(** The result, and the position as it is left. *)
Definition apply (c : Cwd) (ss : list Step) : run (result Refused unit * Cwd) :=
  r ← apply_loop c ss;
  match r with Ok next => Done (Ok tt, next) | Err e => Done (Err e, c) end.

Definition resolve (c : Cwd) (p : Path) : run (result Refused Cwd) :=
  let next := if is_from_root p then root else c in
  '(r, next') ← apply next (steps p);
  match r with Ok _ => Done (Ok next') | Err e => Done (Err e) end.

(** ** Two roots *)

Inductive Which := A | B.

Record TwoRoots := MkTwoRoots { label_a : list Z; label_b : list Z }.

Definition try_resolve_absolute (t : TwoRoots) (p : Path) : run (option (result Refused (Which * Cwd))) :=
  match steps p with
  | Down label :: rest =>
      let which := if bool_decide (label = label_a t) then Some A
                   else if bool_decide (label = label_b t) then Some B else None in
      match which with
      | None => Done None
      | Some w =>
          '(r, cwd) ← apply root rest;
          Done (Some (match r with Ok _ => Ok (w, cwd) | Err e => Err e end))
      end
  | _ => Done None
  end.

Definition resolve_absolute (t : TwoRoots) (p : Path) : run (result Refused (Which * Cwd)) :=
  o ← try_resolve_absolute t p;
  Done (default (Err NotAName) o).

Definition two_resolve (t : TwoRoots) (token : list Z) : run (result Refused (Which * Cwd)) :=
  match path token with
  | Err e => Done (Err e)
  | Ok p => if negb (is_from_root p) then Done (Err NotAName) else resolve_absolute t p
  end.

Definition resolve_from (t : TwoRoots) (which : Which) (pos : Cwd) (token : list Z) : run (result Refused (Which * Cwd)) :=
  match path token with
  | Err e => Done (Err e)
  | Ok p =>
      if is_from_root p then resolve_absolute t p
      else
        r ← resolve pos p;
        Done (match r with Ok c => Ok (which, c) | Err e => Err e end)
  end.

Definition apply_from (t : TwoRoots) (which : Which) (pos : Cwd) (token : list Z) :
    run (result Refused unit * (Which * Cwd)) :=
  r ← resolve_from t which pos token;
  match r with Ok wp => Done (Ok tt, wp) | Err e => Done (Err e, (which, pos)) end.

(** ** Bound names *)

Definition MAX_BINDS : nat := 4.

Record BindEntry := MkBindEntry { bname : list Z; bname_len : Z; bpos : Cwd }.

Inductive BindRefused := BindNotAName | AlreadyBound | TooMany | ReservedLabel.

#[export] Instance BindRefused_eq_dec : EqDecision BindRefused.
Proof. solve_decision. Defined.

Record Bindings := MkBindings { entries : list (option BindEntry) }.

Definition none : Bindings := MkBindings (replicate MAX_BINDS None).

Definition entry_name (e : BindEntry) : run (list Z) := Elf.slice (bname e) 0 (bname_len e).

Fixpoint lookup_loop (es : list (option BindEntry)) (name : list Z) : run (option BindEntry) :=
  match es with
  | [] => Done None
  | None :: rest => lookup_loop rest name
  | Some e :: rest =>
      nm ← entry_name e;
      if bool_decide (nm = name) then Done (Some e) else lookup_loop rest name
  end.

Definition lookup (b : Bindings) (name : list Z) : run (option BindEntry) := lookup_loop (entries b) name.

Definition add (b : Bindings) (name : list Z) (pos : Cwd) : run (result BindRefused unit * Bindings) :=
  if negb (component_fits name) then Done (Err BindNotAName, b) else
  bound ← lookup b name;
  if is_some (bound : option BindEntry) then Done (Err AlreadyBound, b) else
  match position (fun e : option BindEntry => is_none e) (entries b) with
  | None => Done (Err TooMany, b)
  | Some i =>
      let packed := list_inserts 0 name (replicate MAX_NAME 0) in
      Done (Ok tt, MkBindings (<[i := Some (MkBindEntry packed (wrap 8 (Z.of_nat (length name))) pos)]> (entries b)))
  end.

Definition split_absolute (b : Bindings) (p : Path) : run (option (Cwd * list Step)) :=
  match steps p with
  | Down label :: rest =>
      o ← lookup b label;
      Done ((fun e => (bpos e, rest)) <$> (o : option BindEntry))
  | _ => Done None
  end.

Definition bind_resolve_absolute (b : Bindings) (p : Path) : run (option (result Refused Cwd)) :=
  o ← split_absolute b p;
  match o with
  | None => Done None
  | Some (base, rest) =>
      '(r, pos) ← apply base rest;
      Done (Some (match r with Ok _ => Ok pos | Err e => Err e end))
  end.

(** ** What an array of names stands for *)

Definition packed_name (nm : list Z) : list Z := nm ++ replicate (MAX_NAME - length nm) 0.

(** The position below the root that a list of component names is. *)
Definition cwd_of (l : list (list Z)) : Cwd :=
  MkCwd ((packed_name <$> l) ++ replicate (MAX_DEPTH - length l) (replicate MAX_NAME 0))
        (((fun nm => Z.of_nat (length nm)) <$> l) ++ replicate (MAX_DEPTH - length l) 0)
        (length l).

Definition place_ok (l : list (list Z)) : Prop :=
  (length l <= MAX_DEPTH)%nat /\ Forall (fun nm => component_fits nm = true) l.

Definition cwd_ok (c : Cwd) : Prop := exists l, place_ok l /\ c = cwd_of l.

Lemma fits_spec nm : component_fits nm = true <->
  nm <> [] /\ (length nm <= MAX_NAME)%nat /\ nm <> lit "." /\ nm <> lit ".." /\
  SLASH ∉ nm /\ BACKSLASH ∉ nm /\ COLON ∉ nm /\ 0 ∉ nm.
Proof.
  unfold component_fits. rewrite !andb_true_iff, !negb_true_iff, !bool_decide_eq_false, Nat.leb_le. tauto.
Qed.

Lemma list_inserts_zero (l : list Z) n : (length l <= n)%nat -> list_inserts 0 l (replicate n 0) = l ++ replicate (n - length l) 0.
Proof. intros Hn. pose proof (list_inserts_blank [] [] l n Hn) as H. cbn [app length] in H. by rewrite !app_nil_r in H. Qed.

Lemma root_is_empty : root = cwd_of [].
Proof. reflexivity. Qed.

Lemma fits_len nm : component_fits nm = true -> (length nm <= 16)%nat.
Proof. intros H. by apply fits_spec in H as (_ & H & _). Qed.

Lemma nav_descend_spec l nm : (length l <= MAX_DEPTH)%nat ->
  descend (cwd_of l) nm =
    if (length l =? MAX_DEPTH)%nat || negb (component_fits nm) then Done (false, cwd_of l) else Done (true, cwd_of (l ++ [nm])).
Proof.
  intros Hl. unfold descend, cwd_of. cbn [names lens depth]. destruct (Nat.eqb_spec (length l) MAX_DEPTH) as [|Hne]; [done|]. cbn [orb].
  destruct (component_fits nm) eqn:Hf; [|done]. cbn [negb]. pose proof (fits_len nm Hf) as Hn.
  replace (MAX_DEPTH - length l)%nat with (S (MAX_DEPTH - length (l ++ [nm]))) by (rewrite length_app; simpl; lia).
  cbn [replicate]. assert (Hlen : length l = length (packed_name <$> l)) by by rewrite length_fmap.
  rewrite list_lookup_middle by done. rewrite list_inserts_zero by done.
  rewrite wrap_small by (split; lia). do 2 f_equal. f_equal.
  - rewrite insert_app_r_alt by by rewrite length_fmap. rewrite length_fmap, Nat.sub_diag. cbn [list_insert insert]. by rewrite fmap_app, <- (assoc_L app).
  - rewrite insert_app_r_alt by by rewrite length_fmap. rewrite length_fmap, Nat.sub_diag. cbn [list_insert insert]. by rewrite fmap_app, <- (assoc_L app).
  - by rewrite length_app.
Qed.

Lemma ascend_spec l : (length l <= MAX_DEPTH)%nat ->
  ascend (cwd_of l) = match l with [] => Done (false, cwd_of []) | _ => Done (true, cwd_of (take (length l - 1) l)) end.
Proof.
  intros Hl. destruct l as [|x l _] using rev_ind; [done|]. unfold ascend, cwd_of. cbn [names lens depth].
  rewrite length_app in *. cbn [length] in *. destruct (Nat.eqb_spec (length l + 1) 0); [lia|].
  replace (length l + 1 - 1)%nat with (length l) by lia.
  rewrite take_app_length. destruct (Nat.leb_spec (length ((packed_name <$> l ++ [x]) ++ replicate (MAX_DEPTH - (length l + 1)) (replicate MAX_NAME 0))) (length l)) as [Hle|_].
  { rewrite !length_app, length_fmap, length_app in Hle. simpl in Hle. lia. }
  destruct (l ++ [x]) as [|y l'] eqn:E; [by destruct l|]. rewrite <- E. do 2 f_equal. f_equal.
  - rewrite fmap_app, <- (assoc_L app), insert_app_r_alt by by rewrite length_fmap. rewrite length_fmap, Nat.sub_diag.
    by replace (MAX_DEPTH - length l)%nat with (S (MAX_DEPTH - (length l + 1))) by lia.
  - rewrite fmap_app, <- (assoc_L app), insert_app_r_alt by by rewrite length_fmap. rewrite length_fmap, Nat.sub_diag.
    by replace (MAX_DEPTH - length l)%nat with (S (MAX_DEPTH - (length l + 1))) by lia.
Qed.

Lemma component_spec l i nm : place_ok l -> l !! i = Some nm -> component (cwd_of l) i = Done nm.
Proof.
  intros [_ Hf] Hi. unfold component, cwd_of. cbn [names lens].
  rewrite !lookup_app_l by (rewrite length_fmap; by apply lookup_lt_Some in Hi).
  rewrite !list_lookup_fmap, Hi. cbn [fmap option_fmap option_map].
  assert (Hn : (length nm <= 16)%nat) by (apply fits_len; exact (proj1 (Forall_lookup _ _) Hf _ _ Hi)).
  unfold packed_name. rewrite Elf.slice_done; [|lia|unfold Elf.len; rewrite length_app; lia].
  rewrite Z.sub_0_r, Nat2Z.id. change (Z.to_nat 0) with 0%nat. by rewrite drop_0, take_app_length.
Qed.

(** Equal positions have equal arrays and the other way round. *)
Lemma cwd_of_inj l1 l2 : place_ok l1 -> place_ok l2 -> cwd_of l1 = cwd_of l2 -> l1 = l2.
Proof.
  intros H1 H2 E. assert (Hlen : length l1 = length l2) by exact (f_equal depth E).
  apply list_eq. intros i. destruct (l1 !! i) as [x|] eqn:Hx.
  - destruct (lookup_lt_is_Some_2 l2 i) as [y Hy]; [rewrite <- Hlen; by apply lookup_lt_Some in Hx|].
    pose proof (component_spec l1 i x H1 Hx). pose proof (component_spec l2 i y H2 Hy). congruence.
  - apply lookup_ge_None in Hx. rewrite Hlen in Hx. by apply lookup_ge_None in Hx as ->.
Qed.

(** ** Walking *)

(** The reference: a stack of names, never below its floor. *)
Fixpoint walk (l : list (list Z)) (ss : list Step) : result Refused (list (list Z)) :=
  match ss with
  | [] => Ok l
  | Up :: rest => match l with [] => Err AtYourRoot | _ => walk (take (length l - 1) l) rest end
  | Down nm :: rest =>
      if negb (component_fits nm) then Err NotAName
      else if (length l =? MAX_DEPTH)%nat then Err TooDeep
      else walk (l ++ [nm]) rest
  end.

Lemma place_ok_app l nm : place_ok l -> component_fits nm = true -> length l <> MAX_DEPTH -> place_ok (l ++ [nm]).
Proof. intros [Hl Hf] Hn Hne. split; [rewrite length_app; simpl; lia|]. by apply Forall_app_2; [|constructor]. Qed.

Lemma place_ok_take n l : place_ok l -> place_ok (take n l).
Proof. intros [Hl Hf]. split; [rewrite length_take; lia|by apply Forall_take]. Qed.

Lemma walk_ok l ss l' : place_ok l -> walk l ss = Ok l' -> place_ok l'.
Proof.
  revert l. induction ss as [|[nm|] ss IH]; intros l Hl; cbn [walk]; [by intros [= <-]| |].
  - destruct (component_fits nm) eqn:Hf; [|done]. cbn [negb]. destruct (Nat.eqb_spec (length l) MAX_DEPTH); [done|].
    apply IH. by apply place_ok_app.
  - destruct l as [|x l]; [done|]. apply IH. by apply place_ok_take.
Qed.

Lemma apply_loop_spec l ss : place_ok l ->
  apply_loop (cwd_of l) ss = Done (match walk l ss with Ok l' => Ok (cwd_of l') | Err e => Err e end).
Proof.
  revert l. induction ss as [|[nm|] ss IH]; intros l Hl; cbn [walk apply_loop]; [done| |].
  - destruct (component_fits nm) eqn:Hf; [|done]. cbn [negb]. rewrite nav_descend_spec, Hf by apply Hl. cbn [negb]. rewrite orb_false_r.
    destruct (Nat.eqb_spec (length l) MAX_DEPTH); [done|]. cbn [mbind run_bind]. apply IH. by apply place_ok_app.
  - rewrite ascend_spec by apply Hl. destruct l as [|x l]; [done|]. cbn [mbind run_bind]. apply IH. by apply place_ok_take.
Qed.

Lemma apply_spec l ss : place_ok l ->
  apply (cwd_of l) ss = Done (match walk l ss with Ok l' => (Ok tt, cwd_of l') | Err e => (Err e, cwd_of l) end).
Proof. intros Hl. unfold apply. rewrite apply_loop_spec by done. cbn [mbind run_bind]. by destruct (walk l ss). Qed.

(** ** Paths and what they render from *)

Lemma split_slash_none a : SLASH ∉ a -> split_slash a = [a].
Proof.
  induction a as [|x a IH]; intros Ha; [done|]. cbn [split_slash].
  apply not_elem_of_cons in Ha as [Hx Ha]. destruct (Z.eqb_spec x SLASH); [congruence|]. by rewrite IH.
Qed.

Lemma split_slash_app a b : SLASH ∉ a -> split_slash (a ++ SLASH :: b) = a :: split_slash b.
Proof.
  induction a as [|x a IH]; intros Ha; [done|]. cbn [split_slash app].
  apply not_elem_of_cons in Ha as [Hx Ha]. destruct (Z.eqb_spec x SLASH); [congruence|]. by rewrite IH.
Qed.

(** A place written out in full. *)
Definition spelled (l : list (list Z)) : list Z := concat ((fun nm => SLASH :: nm) <$> l).

Lemma split_slash_spelled l : l <> [] -> Forall (fun nm => component_fits nm = true) l -> split_slash (spelled l) = [] :: l.
Proof.
  destruct l as [|x l]; [done|]. intros _ Hf. change (spelled (x :: l)) with (SLASH :: x ++ spelled l). cbn [split_slash Z.eqb]. f_equal.
  revert x Hf. induction l as [|y l IH]; intros x Hf; apply Forall_cons in Hf as [Hx Hf]; apply fits_spec in Hx as (_ & _ & _ & _ & Hs & _).
  - change (spelled []) with (@nil Z). rewrite app_nil_r. by apply split_slash_none.
  - change (spelled (y :: l)) with (SLASH :: y ++ spelled l). rewrite split_slash_app by done. f_equal. by apply IH.
Qed.

Lemma path_loop_names l acc : Forall (fun nm => component_fits nm = true) l -> (length acc + length l <= MAX_DEPTH)%nat ->
  path_loop l acc = Ok (acc ++ (Down <$> l)).
Proof.
  revert acc. induction l as [|x l IH]; intros acc Hf Hl; cbn [path_loop]; [by rewrite app_nil_r|].
  apply Forall_cons in Hf as [Hx Hf]. cbn [length] in Hl. rewrite Hx. apply fits_spec in Hx as (H1 & _ & H2 & H3 & _).
  rewrite !bool_decide_false by done. cbn [orb negb]. destruct (Nat.eqb_spec (length acc) MAX_DEPTH); [lia|].
  rewrite IH; [|done|rewrite length_app; simpl; lia]. by rewrite <- (assoc_L app).
Qed.

(** What a path is made of. *)
Lemma path_loop_ok parts acc ss : path_loop parts acc = Ok ss ->
  exists more, ss = acc ++ more /\ Forall (fun s => match s with Down nm => component_fits nm = true | Up => True end) more /\
    ((length acc <= MAX_DEPTH)%nat -> (length ss <= MAX_DEPTH)%nat).
Proof.
  revert acc. induction parts as [|part rest IH]; intros acc; cbn [path_loop].
  { intros [= <-]. exists []. by rewrite app_nil_r. }
  destruct (bool_decide (part = []) || bool_decide (part = lit ".")); [apply IH|].
  destruct (Nat.eqb_spec (length acc) MAX_DEPTH) as [|Hne]; [done|].
  case_bool_decide; [|destruct (component_fits part) eqn:Hf; [|done]]; cbn [negb]; intros Hr; apply IH in Hr as (more & -> & Hm & Hl);
    eexists; (split; [by rewrite <- (assoc_L app)|]); (split; [by constructor|]); intros Ha; apply Hl; rewrite length_app; simpl; lia.
Qed.

Definition path_ok (p : Path) : Prop :=
  (length (steps p) <= MAX_DEPTH)%nat /\
  Forall (fun s => match s with Down nm => component_fits nm = true | Up => True end) (steps p).

Lemma path_is_ok token p : path token = Ok p -> path_ok p.
Proof.
  unfold path. destruct (bool_decide (token = [])); [done|]. destruct (path_loop _ _) as [ss|] eqn:Hp; [|done].
  destruct (_ && _); [done|]. intros [= <-]. apply path_loop_ok in Hp as (more & -> & Hm & Hl). split; [|done]. apply Hl. simpl. lia.
Qed.

Lemma path_spelled l : place_ok l -> l <> [] -> path (spelled l) = Ok (MkPath (Down <$> l) true).
Proof.
  intros [Hl Hf] Hne. unfold path. rewrite split_slash_spelled by done.
  rewrite (bool_decide_false (spelled l = [])) by by destruct l. cbn [path_loop]. rewrite (bool_decide_true ([] = [])) by done. cbn [orb].
  rewrite path_loop_names by done. by destruct l.
Qed.

Lemma fold_put cap nm out : (length out + length nm <= cap)%nat -> fold_left (put cap) nm out = out ++ nm.
Proof.
  revert out. induction nm as [|x nm IH]; intros out H; cbn [fold_left]; [by rewrite app_nil_r|].
  cbn [length] in H. unfold put at 2. destruct (Nat.ltb_spec (length out) cap); [|lia].
  rewrite IH by (rewrite length_app; simpl; lia). by rewrite <- (assoc_L app).
Qed.

Lemma render_levels_spec l cap k out : place_ok l -> (k <= length l)%nat ->
  (length out + length (spelled (drop k l)) <= cap)%nat ->
  render_levels (cwd_of l) cap (seq k (length l - k)) out = Done (out ++ spelled (drop k l)).
Proof.
  intros Hl. remember (length l - k)%nat as n eqn:En. revert k out En. induction n as [|n IH]; intros k out En Hk Hc; cbn [seq render_levels].
  { rewrite drop_ge by lia. by rewrite app_nil_r. }
  destruct (lookup_lt_is_Some_2 l k) as [nm Hnm]; [lia|]. rewrite (component_spec l k nm) by done. cbn [mbind run_bind].
  rewrite (drop_S l nm k) in Hc |- * by done. change (spelled (nm :: drop (S k) l)) with (SLASH :: nm ++ spelled (drop (S k) l)) in *.
  cbn [length] in Hc. rewrite length_app in Hc. unfold put at 2. destruct (Nat.ltb_spec (length out) cap); [|lia].
  rewrite fold_put by (rewrite length_app; simpl; lia). rewrite IH; [|lia|lia|rewrite !length_app; simpl; lia].
  by rewrite <- !(assoc_L app).
Qed.

Lemma length_spelled l : Forall (fun nm => component_fits nm = true) l -> (length (spelled l) <= length l * 17)%nat.
Proof.
  induction 1 as [|x l Hx _ IH]; [done|]. change (spelled (x :: l)) with (SLASH :: x ++ spelled l). cbn [length]. rewrite length_app.
  apply fits_len in Hx. lia.
Qed.

Lemma render_spec l : place_ok l -> render (cwd_of l) RENDER_MAX = Done (if decide (l = []) then [SLASH] else spelled l).
Proof.
  intros Hl. unfold render. cbn [cwd_of depth]. destruct l as [|x l]; [done|]. cbn [length Nat.eqb decide].
  rewrite decide_False by done. pose proof (render_levels_spec (x :: l) RENDER_MAX 0 [] Hl) as H. rewrite Nat.sub_0_r, drop_0 in H.
  apply H; [lia|]. pose proof (length_spelled _ (proj2 Hl)). pose proof (proj1 Hl). unfold RENDER_MAX, MAX_DEPTH, MAX_NAME, MAX_FILE_NAME in *.
  cbn [length] in *. lia.
Qed.

Lemma walk_names l ns : place_ok (l ++ ns) -> walk l (Down <$> ns) = Ok (l ++ ns).
Proof.
  revert l. induction ns as [|x ns IH]; intros l Hl; cbn [fmap list_fmap walk]; [by rewrite app_nil_r|].
  destruct Hl as [Hlen Hf]. apply Forall_app in Hf as [Hf1 Hf2]. apply Forall_cons in Hf2 as [Hx Hf2]. rewrite Hx. cbn [negb].
  rewrite length_app in Hlen. cbn [length] in Hlen. destruct (Nat.eqb_spec (length l) MAX_DEPTH); [lia|].
  rewrite IH; rewrite <- (assoc_L app); [done|]. split; [rewrite length_app; simpl; lia|]. apply Forall_app_2; [done|by constructor].
Qed.

Lemma resolve_spec l p : place_ok l ->
  resolve (cwd_of l) p = Done (match walk (if is_from_root p then [] else l) (steps p) with Ok l' => Ok (cwd_of l') | Err e => Err e end).
Proof.
  intros Hl. unfold resolve. destruct (is_from_root p).
  - rewrite root_is_empty, apply_spec by (split; [simpl; lia|done]). cbn [mbind run_bind]. by destruct (walk _ _).
  - rewrite apply_spec by done. cbn [mbind run_bind]. by destruct (walk _ _).
Qed.

(** The place a shell stands at survives being written and read. A place
    rendered in full parses as a path from the root, and that path leads from
    anywhere back to the same place, array for array. *)
Theorem place_round_trips c c0 :
  cwd_ok c -> cwd_ok c0 ->
  exists bytes p, render c RENDER_MAX = Done bytes /\ (length bytes <= RENDER_MAX)%nat /\
    path bytes = Ok p /\ is_from_root p = true /\ resolve c0 p = Done (Ok c).
Proof.
  intros (l & Hl & ->) (l0 & Hl0 & ->). rewrite render_spec by done. destruct (decide (l = [])) as [->|Hne].
  - exists [SLASH], (MkPath [] true). split; [done|]. split; [apply Nat.leb_le; reflexivity|]. split; [reflexivity|]. split; [done|]. by rewrite resolve_spec by done.
  - exists (spelled l), (MkPath (Down <$> l) true). split; [done|]. split.
    { pose proof (length_spelled _ (proj2 Hl)). pose proof (proj1 Hl). unfold RENDER_MAX, MAX_DEPTH, MAX_NAME, MAX_FILE_NAME in *. lia. }
    split; [by apply path_spelled|]. split; [done|]. rewrite resolve_spec by done. cbn [is_from_root from_root steps].
    by rewrite (walk_names [] l).
Qed.

Lemma place_round_trips_witness :
  exists bytes p, render (cwd_of [lit "etc"; lit "init"]) RENDER_MAX = Done bytes /\ (length bytes <= RENDER_MAX)%nat /\
    path bytes = Ok p /\ is_from_root p = true /\ resolve root p = Done (Ok (cwd_of [lit "etc"; lit "init"])).
Proof.
  apply (place_round_trips (cwd_of [lit "etc"; lit "init"]) root).
  - exists [lit "etc"; lit "init"]. split; [split; [simpl; unfold MAX_DEPTH; lia|repeat constructor]|reflexivity].
  - exists []. split; [split; [simpl; lia|constructor]|reflexivity].
Defined.

(** No path names anything above the root. Whatever bytes are typed,
    resolving them from a place below the root either is refused, or ends at a
    place at most eight fit names below the root: the place a stack of names
    reaches that a step up never empties. *)
Theorem no_path_leads_above_the_root c token :
  cwd_ok c ->
  exists l, place_ok l /\ c = cwd_of l /\
    match path token with
    | Err _ => True
    | Ok p =>
        let start := if is_from_root p then [] else l in
        match walk start (steps p) with
        | Ok l' => place_ok l' /\ resolve c p = Done (Ok (cwd_of l')) /\ apply (cwd_of start) (steps p) = Done (Ok tt, cwd_of l')
        | Err e => resolve c p = Done (Err e) /\ apply (cwd_of start) (steps p) = Done (Err e, cwd_of start)
        end
    end.
Proof.
  intros (l & Hl & ->). exists l. split; [done|]. split; [done|]. destruct (path token) as [p|]; [|done]. cbv zeta.
  rewrite resolve_spec by done. set (start := if is_from_root p then [] else l).
  assert (Hs : place_ok start) by (unfold start; destruct (is_from_root p); [by split; [simpl; lia|]|done]).
  rewrite apply_spec by done. destruct (walk start (steps p)) as [l'|] eqn:Hw; [|done]. split; [by apply (walk_ok start (steps p))|done].
Qed.

Lemma no_path_leads_above_the_root_witness :
  resolve (cwd_of [lit "a"]) (MkPath [Up; Up; Down (lit "b")] false) = Done (Err AtYourRoot).
Proof.
  destruct (no_path_leads_above_the_root (cwd_of [lit "a"]) (lit "../../b")) as (l & Hl & Hc & H).
  - exists [lit "a"]. split; [split; [simpl; unfold MAX_DEPTH; lia|repeat constructor]|reflexivity].
  - assert (l = [lit "a"]) as ->.
    { apply cwd_of_inj; [done|split; [simpl; unfold MAX_DEPTH; lia|repeat constructor]|done]. }
    exact (proj1 H).
Defined.

(** ** Bound names are a map *)

Definition entry_of (b : list Z * Cwd) : BindEntry := MkBindEntry (packed_name b.1) (Z.of_nat (length b.1)) b.2.

(** The table as names and places, slot by slot. *)
Definition binds_of (ps : list (option (list Z * Cwd))) : Bindings := MkBindings (map (option_map entry_of) ps).

Definition binds_ok (b : Bindings) : Prop := exists ps, b = binds_of ps /\ length ps = MAX_BINDS /\
  Forall (fun p => component_fits p.1 = true) (omap (fun o => o) ps) /\ NoDup ((omap (fun o => o) ps).*1).

Fixpoint assoc (ps : list (option (list Z * Cwd))) (nm : list Z) : option (list Z * Cwd) :=
  match ps with
  | [] => None
  | None :: rest => assoc rest nm
  | Some p :: rest => if decide (p.1 = nm) then Some p else assoc rest nm
  end.

(** Where a name leads. *)
Definition leads_to (b : Bindings) (nm : list Z) : run (option Cwd) :=
  o ← lookup b nm; Done (bpos <$> (o : option BindEntry)).

Lemma binds_lookup_spec ps nm : Forall (fun p => component_fits p.1 = true) (omap (fun o => o) ps) ->
  lookup (binds_of ps) nm = Done (entry_of <$> assoc ps nm).
Proof.
  unfold lookup, binds_of. cbn [entries]. induction ps as [|[p|] ps IH]; intros Hf; [done| |by apply IH].
  cbn [map option_map lookup_loop assoc omap list_omap] in *. apply Forall_cons in Hf as [Hp Hf].
  assert (Hn : entry_name (entry_of p) = Done p.1).
  { unfold entry_name, entry_of, packed_name. cbn [bname bname_len]. apply fits_len in Hp.
    rewrite Elf.slice_done; [|lia|unfold Elf.len; rewrite length_app; lia].
    rewrite Z.sub_0_r, Nat2Z.id. change (Z.to_nat 0) with 0%nat. by rewrite drop_0, take_app_length. }
  rewrite Hn. cbn [mbind run_bind]. destruct (decide (p.1 = nm)); [by rewrite bool_decide_true|rewrite bool_decide_false by done]. by apply IH.
Qed.

Lemma assoc_none ps nm : assoc ps nm = None <-> nm ∉ (omap (fun o => o) ps).*1.
Proof.
  induction ps as [|[p|] ps IH]; cbn [assoc omap list_omap fmap list_fmap]; [by split; [intros _ ?%not_elem_of_nil|]| |exact IH].
  rewrite not_elem_of_cons. destruct (decide (p.1 = nm)); [naive_solver|]. rewrite IH. naive_solver.
Qed.

(** A free slot is filled; the other names keep their place. *)
Lemma assoc_insert ps i nm pos nm' :
  ps !! i = Some None -> assoc ps nm = None ->
  assoc (<[i := Some (nm, pos)]> ps) nm' = if decide (nm' = nm) then Some (nm, pos) else assoc ps nm'.
Proof.
  revert i. induction ps as [|o ps IH]; intros [|i] Hi Ha; try done; cbn [insert list_insert].
  - cbn in Hi. injection Hi as ->. cbn [assoc] in *. cbn [fst]. destruct (decide (nm = nm')), (decide (nm' = nm)); congruence || done.
  - cbn [lookup] in Hi. destruct o as [p|]; cbn [assoc] in *; [|by apply IH].
    destruct (decide (p.1 = nm)) as [|Hn]; [done|]. rewrite IH by done.
    destruct (decide (p.1 = nm')) as [<-|]; [by rewrite decide_False|done].
Qed.

Lemma omap_insert_free {X} (ps : list (option X)) i p : ps !! i = Some None ->
  omap (fun o => o) (<[i := Some p]> ps) ≡ₚ p :: omap (fun o => o) ps.
Proof.
  revert i. induction ps as [|o ps IH]; intros [|i] Hi; try done.
  - cbn in Hi. by injection Hi as ->.
  - cbn [insert list_insert]. cbn in Hi. destruct o as [q|]; cbn [omap list_omap].
    + etransitivity; [apply Permutation_skip, (IH i Hi)|]. apply Permutation_swap.
    + by apply IH.
Qed.

(** The first free slot, if there is one. *)
Lemma position_free {X} (l : list (option X)) :
  match position (fun e => is_none e) l with
  | Some i => l !! i = Some None /\ (occupied l < length l)%nat
  | None => occupied l = length l
  end.
Proof.
  induction l as [|[x|] l IH]; [done| |].
  - cbn [position]. rewrite occupied_cons. destruct (position _ l); simpl in *; [|lia]. split; [apply IH|]. destruct IH. lia.
  - cbn [position]. rewrite occupied_cons. simpl. pose proof (occupied_le l). split; [done|lia].
Qed.

Lemma occupied_map {X Y} (f : X -> Y) l : occupied (map (option_map f) l) = occupied l.
Proof. induction l as [|[x|] l IH]; [done|..]; cbn [map option_map]; rewrite !occupied_cons; simpl; lia. Qed.

Lemma leads_to_spec ps nm : Forall (fun p => component_fits p.1 = true) (omap (fun o => o) ps) ->
  leads_to (binds_of ps) nm = Done (snd <$> assoc ps nm).
Proof. intros Hf. unfold leads_to. rewrite binds_lookup_spec by done. cbn [mbind run_bind]. by destruct (assoc ps nm). Qed.

(** The bound names are a map. Adding a name succeeds exactly when it is a
    fit name that leads nowhere yet and a slot is free; then it leads to its
    place and every other name leads where it did; a refusal changes nothing. *)
Theorem bindings_are_a_map b nm pos :
  binds_ok b ->
  exists r b', add b nm pos = Done (r, b') /\ binds_ok b' /\
    (r = Ok tt <-> component_fits nm = true /\ leads_to b nm = Done None /\ (occupied (entries b) < MAX_BINDS)%nat) /\
    (r <> Ok tt -> b' = b) /\
    forall nm', leads_to b' nm' = if decide (r = Ok tt /\ nm' = nm) then Done (Some pos) else leads_to b nm'.
Proof.
  intros (ps & -> & Hlen & Hf & Hnd). unfold add. rewrite leads_to_spec, binds_lookup_spec by done.
  assert (Hok : binds_ok (binds_of ps)) by by exists ps.
  assert (Hrefuse : forall e : BindRefused, ~ (component_fits nm = true /\ Done (snd <$> assoc ps nm) = Done None /\ (occupied (entries (binds_of ps)) < MAX_BINDS)%nat) ->
    exists (r : result BindRefused unit) b', Done (Err e, binds_of ps) = Done (r, b') /\ binds_ok b' /\
    (r = Ok tt <-> component_fits nm = true /\ Done (snd <$> assoc ps nm) = Done None /\ (occupied (entries (binds_of ps)) < MAX_BINDS)%nat) /\
    (r <> Ok tt -> b' = binds_of ps) /\
    forall nm', leads_to b' nm' = if decide (r = Ok tt /\ nm' = nm) then Done (Some pos) else leads_to (binds_of ps) nm').
  { intros e Hno. exists (Err e), (binds_of ps). split; [done|]. split; [done|]. split; [done|]. split; [done|]. intros nm'. by rewrite decide_False by naive_solver. }
  destruct (component_fits nm) eqn:Hfit; [|apply Hrefuse; naive_solver]. cbn [negb mbind run_bind].
  destruct (assoc ps nm) as [p|] eqn:Ha; [apply Hrefuse; naive_solver|]. cbn [fmap option_fmap option_map is_some].
  cbn [entries binds_of]. pose proof (position_free (map (option_map entry_of) ps)) as Hpos.
  destruct (position _ _) as [i|]; [|apply Hrefuse; cbn [entries binds_of]; rewrite length_map in Hpos; lia].
  destruct Hpos as [Hi Hocc]. rewrite length_map, Hlen in Hocc.
  assert (Hpi : ps !! i = Some None).
  { rewrite list_lookup_fmap in Hi. destruct (ps !! i) as [[]|]; done. }
  assert (Hnew : MkBindings (<[i := Some (MkBindEntry (list_inserts 0 nm (replicate MAX_NAME 0)) (wrap 8 (Z.of_nat (length nm))) pos)]>
    (map (option_map entry_of) ps)) = binds_of (<[i := Some (nm, pos)]> ps)).
  { unfold binds_of. f_equal. pose proof (fits_len nm Hfit). rewrite list_inserts_zero, wrap_small by (done || (split; lia)).
    exact (eq_sym (list_fmap_insert (option_map entry_of) ps i (Some (nm, pos)))). }
  rewrite Hnew. pose proof (omap_insert_free ps i (nm, pos) Hpi) as Hperm.
  assert (Hf' : Forall (fun p => component_fits p.1 = true) (omap (fun o => o) (<[i := Some (nm, pos)]> ps))).
  { rewrite Hperm. by constructor. }
  exists (Ok tt), (binds_of (<[i := Some (nm, pos)]> ps)). split; [done|]. split.
  { exists (<[i := Some (nm, pos)]> ps). rewrite length_insert. split_and!; [done|done|done|]. rewrite Hperm. cbn [fmap list_fmap fst].
    constructor; [by apply assoc_none|done]. }
  split; [by split|]. split; [done|]. intros nm'. rewrite !leads_to_spec by done. rewrite assoc_insert by done.
  destruct (decide (nm' = nm)) as [->|Hn]; [by rewrite decide_True|by rewrite decide_False by naive_solver].
Qed.

Lemma bindings_are_a_map_witness :
  exists r b', add none (lit "docs") (cwd_of [lit "usr"]) = Done (r, b') /\ leads_to b' (lit "docs") = Done (Some (cwd_of [lit "usr"])).
Proof.
  destruct (bindings_are_a_map none (lit "docs") (cwd_of [lit "usr"])) as (r & b' & Ha & _ & Hr & _ & Hl).
  - exists (replicate MAX_BINDS None). split; [reflexivity|]. split; [reflexivity|]. split; constructor.
  - exists r, b'. split; [exact Ha|]. rewrite Hl, decide_True; [reflexivity|]. split; [|reflexivity]. apply Hr.
    split; [reflexivity|]. split; [reflexivity|]. apply Nat.ltb_lt. reflexivity.
Defined.
End Nav.
