(* ===== verification/ShellWords.v ===== *)
(** * Reading a line (crates/grant_plan: word.rs, line.rs and the parser of lib.rs)

    What the user typed is bytes. A word may be quoted whole; whitespace inside
    quotes separates nothing and operators inside quotes are bytes. A line is
    cut into pipeline stages with their redirections, a stage into a program
    name, options, a memory grant and positionals. *)

From S2P Require Import Prelude Glob.
Local Open Scope Z_scope.

Module ShellWords.

(** ** Refusals *)

Inductive CapKind := CapFile.

Inductive Refusal :=
  | NoSuchProgram | NoSuchCapability (k : CapKind) | FileForbidden | FileRequired | PathRequired | NoSuchOption
  | FileNotNameable | MemForbidden | MemRequired | MemOutOfRange (min max : Z) | ArgRequired | ArgForbidden
  | NoMatch | TooManyNames | MatchNotNameable | PatternInPath | Unexpanded | AmbiguousFile | NoRedirectTarget
  | RedirectRepeated | RedirectMidPipeline | WordAfterRedirect | EmptyStage | TooManyStages | PatternInRedirect
  | NotAByteStream | NoDiagnosticStream | InputForbidden | InputRequired | NoReaderButThisShell | NotAPipelineStage
  | Unexpected | UnclosedQuote | PartlyQuoted | EmptySegment | TooManySegments | PatternInArguments
  | ArgumentsTooLong.

#[export] Instance CapKind_eq_dec : EqDecision CapKind.
Proof. solve_decision. Defined.
#[export] Instance Refusal_eq_dec : EqDecision Refusal.
Proof. solve_decision. Defined.

(** ** Quotes *)

Definition SINGLE : Z := 39.
Definition DOUBLE : Z := 34.

Inductive Quote := Bare | Single | Double.

#[export] Instance Quote_eq_dec : EqDecision Quote.
Proof. solve_decision. Defined.

(** The cursor is its quote. The answer says whether the byte is outside any. *)
Definition step (q : Quote) (b : Z) : bool * Quote :=
  match q with
  | Bare => if b =? SINGLE then (false, Single) else if b =? DOUBLE then (false, Double) else (true, Bare)
  | Single => if b =? SINGLE then (false, Bare) else (false, Single)
  | Double => if b =? DOUBLE then (false, Bare) else (false, Double)
  end.

Definition is_open (q : Quote) : bool := match q with Bare => false | _ => true end.

Record Word := MkWord { text : list Z; quoted : bool }.

Definition bare (t : list Z) : Word := MkWord t false.

Definition read (token : list Z) : result Refusal Word :=
  match token with
  | [] => Ok (bare token)
  | first :: inner =>
      if negb (first =? SINGLE) && negb (first =? DOUBLE) then
        if bool_decide (SINGLE ∈ token) || bool_decide (DOUBLE ∈ token) then Err PartlyQuoted else Ok (bare token)
      else
        match position (fun b => b =? first) inner with
        | Some at_ =>
            if (at_ + 2 =? length token)%nat then Ok (MkWord (take (length token - 2) inner) true) else Err PartlyQuoted
        | None => Err UnclosedQuote
        end
  end.

(** The bytes from here up to the first unquoted one that stops the span. *)
Fixpoint span_loop (q : Quote) (rest : list Z) (stop : Z -> bool) : nat :=
  match rest with
  | [] => 0
  | b :: rest' => if negb (is_open q) && stop b then 0 else S (span_loop (step q b).2 rest' stop)
  end.
Definition span (line : list Z) (i : nat) (stop : Z -> bool) : nat := (i + span_loop Bare (drop i line) stop)%nat.

(** ** Words of a line *)

Fixpoint trim_start (s : list Z) : list Z :=
  match s with b :: s' => if is_ascii_whitespace b then trim_start s' else s | [] => [] end.
Definition trim (s : list Z) : list Z := rev (trim_start (rev (trim_start s))).

Definition split_first_word (s : list Z) : list Z * list Z :=
  let i := span s 0 is_ascii_whitespace in
  (take i s, trim_start (drop i s)).

(** [while i < line.len() && !c.is_open() && line[i].is_ascii_whitespace()]. *)
Fixpoint skip_space (q : Quote) (rest : list Z) : list Z :=
  match rest with
  | b :: rest' => if negb (is_open q) && is_ascii_whitespace b then skip_space q rest' else rest
  | [] => []
  end.

(** The word that starts here, what is left of the line, and the quote it leaves open. *)
Fixpoint word_loop (q : Quote) (rest : list Z) : list Z * list Z * Quote :=
  match rest with
  | [] => ([], [], q)
  | b :: rest' =>
      if negb (is_open q) && is_ascii_whitespace b then ([], rest, q)
      else let '(w, r, q') := word_loop (step q b).2 rest' in (b :: w, r, q')
  end.

(** The tokens, at most [room] of them, each with what follows it. *)
Fixpoint tokenize_loop (fuel : nat) (q : Quote) (rest : list Z) (room : nat) : list (list Z * list Z) :=
  match fuel, rest, room with
  | S fuel', _ :: _, S room' =>
      let '(w, r, q') := word_loop q (skip_space q rest) in
      match w with
      | [] => tokenize_loop fuel' q' r room
      | _ => (w, r) :: tokenize_loop fuel' q' r room'
      end
  | _, _, _ => []
  end.

Definition tokenize_rest (line : list Z) (room : nat) : list (list Z * list Z) :=
  tokenize_loop (S (length line)) Bare line room.
Definition tokenize (line : list Z) (room : nat) : list (list Z) := fst <$> tokenize_rest line room.

(** Each word in turn, quotes off, through a callback with state. *)
Fixpoint each_word_loop {S} (fuel : nat) (rest : list Z) (f : list Z -> S -> result Refusal unit * S) (s : S) : result Refusal unit * S :=
  match fuel with
  | O => (Ok tt, s)
  | Datatypes.S fuel' =>
      match tokenize_rest rest 1 with
      | [] => (Ok tt, s)
      | (token, rest') :: _ =>
          match read token with
          | Err r => (Err r, s)
          | Ok w =>
              if negb (quoted w) && Glob.has_magic (text w) then (Err PatternInArguments, s)
              else match f (text w) s with
                   | (Err r, s') => (Err r, s')
                   | (Ok _, s') => each_word_loop fuel' rest' f s'
                   end
          end
      end
  end.

Definition each_word {S} (line : list Z) (f : list Z -> S -> result Refusal unit * S) (s : S) : result Refusal unit * S :=
  each_word_loop (Datatypes.S (length line)) line f s.

(** [argument_protocol::CAPACITY]. *)
Definition CAPACITY : Z := 4080.

Definition check_words (line : list Z) : result Refusal unit :=
  (each_word line
     (fun w used =>
        let used := used + 4 + Z.of_nat (length w) in
        ((if CAPACITY <? used then Err ArgumentsTooLong else Ok tt), used)) 0).1.

Fixpoint parse_u64_loop (v : Z) (s : list Z) : option Z :=
  match s with
  | [] => Some v
  | b :: s' =>
      if negb (is_ascii_digit b) then None
      else
        v ← checked_mul 64 v 10;
        v ← checked_add 64 v (b - 48);
        parse_u64_loop v s'
  end.
Definition parse_u64 (s : list Z) : option Z := if bool_decide (s = []) then None else parse_u64_loop 0 s.

(** ** A program invocation *)

Definition MAX_POSITIONALS : nat := 4.
Definition MAX_FLAGS : nat := 8.
Definition MAX_TOKENS : nat := 16.

(** The filled prefixes of the fixed arrays. *)
Record RunSpec := MkRunSpec {
  prog : list Z;
  line_ : list Z;
  mem : option Z;
  positionals : list (list Z);
  options : list Z;
  posq : list bool;
  unexpected : option (list Z);
  misquoted : option Refusal
}.

Definition is_quoted (r : RunSpec) (i : nat) : bool := default false (posq r !! i).

Record ParseState := MkParseState { have_prog : bool; spec : RunSpec }.

Definition with_misquoted (r : RunSpec) (e : Refusal) : RunSpec :=
  MkRunSpec (prog r) (line_ r) (mem r) (positionals r) (options r) (posq r) (unexpected r)
    (match misquoted r with None => Some e | m => m end).
Definition with_mem (r : RunSpec) (m : option Z) : RunSpec :=
  MkRunSpec (prog r) (line_ r) m (positionals r) (options r) (posq r) (unexpected r) (misquoted r).
Definition with_unexpected (r : RunSpec) (t : list Z) : RunSpec :=
  MkRunSpec (prog r) (line_ r) (mem r) (positionals r) (options r) (posq r)
    (match unexpected r with None => Some t | u => u end) (misquoted r).
Definition with_options (r : RunSpec) (ls : list Z) : RunSpec :=
  MkRunSpec (prog r) (line_ r) (mem r) (positionals r) (options r ++ ls) (posq r) (unexpected r) (misquoted r).
Definition with_prog (r : RunSpec) (t : list Z) : RunSpec :=
  MkRunSpec t (line_ r) (mem r) (positionals r) (options r) (posq r) (unexpected r) (misquoted r).
Definition with_positional (r : RunSpec) (t : list Z) (q : bool) : RunSpec :=
  MkRunSpec (prog r) (line_ r) (mem r) (positionals r ++ [t]) (options r) (posq r ++ [q]) (unexpected r) (misquoted r).

(** What one readable word that is not a memory grant does. *)
Definition classify (s : ParseState) (t : list Z) (q : bool) : ParseState :=
  let r := spec s in
  if negb q && bool_decide (head t = Some 45) then
    let letters := tail t in
    let short := negb (bool_decide (letters = [])) && forallb is_ascii_alphabetic letters in
    if short && (length (options r) + length letters <=? MAX_FLAGS)%nat
    then MkParseState (have_prog s) (with_options r letters)
    else MkParseState (have_prog s) (with_unexpected r t)
  else if negb (have_prog s) then MkParseState true (with_prog r t)
  else if (length (positionals r) <? MAX_POSITIONALS)%nat then MkParseState true (with_positional r t q)
  else MkParseState true (with_unexpected r t).

Fixpoint parse_run_loop (toks : list (list Z)) (s : ParseState) : ParseState :=
  match toks with
  | [] => s
  | tok :: rest =>
      match read tok with
      | Err e => parse_run_loop rest (MkParseState (have_prog s) (with_misquoted (spec s) e))
      | Ok w =>
          if negb (quoted w) && bool_decide (text w = lit "--mem") then
            match rest with
            | [] => s
            | value :: rest' =>
                let m := match read value with Ok v => parse_u64 (text v) | Err _ => None end in
                parse_run_loop rest' (MkParseState (have_prog s) (with_mem (spec s) m))
            end
          else parse_run_loop rest (classify s (text w) (quoted w))
      end
  end.

Definition parse_run (line : list Z) : RunSpec :=
  spec (parse_run_loop (tokenize line MAX_TOKENS)
          (MkParseState false (MkRunSpec [] line None [] [] [] None None))).

(** ** Commands *)

Inductive Command :=
  | Empty | Help
  | Echo (rest : list Z) | Caps (rest : list Z) | Time_ (rest : list Z) | Xargs (rest : list Z)
  | Cd (rest : list Z) | Pwd_ | Ls (rest : list Z) | Mkdir (rest : list Z)
  | Touch (at_ : option (list Z)) (name : list Z)
  | Bind (target name : list Z) | Apropos (rest : list Z) | Package (rest : list Z) | Vouch (rest : list Z)
  | User (rest : list Z) | Run (r : RunSpec).

Definition strip_prefix (p s : list Z) : option (list Z) :=
  if bool_decide (take (length p) s = p) then Some (drop (length p) s) else None.

Definition parse (line : list Z) : Command :=
  let trimmed := trim line in
  if bool_decide (trimmed = []) then Empty else
  let '(first, rest) := split_first_word trimmed in
  match read first with
  | Err _ => Run (parse_run trimmed)
  | Ok w =>
      let named s := bool_decide (text w = lit s) in
      if named "help"%string then Help
      else if named "echo"%string then Echo rest
      else if named "caps"%string then Caps rest
      else if named "time"%string then Time_ rest
      else if named "xargs"%string then Xargs rest
      else if named "cd"%string then Cd (trim rest)
      else if named "pwd"%string then Pwd_
      else if named "ls"%string then Ls (trim rest)
      else if named "mkdir"%string then Mkdir (trim rest)
      else if named "touch"%string then
        let rest := trim rest in
        match strip_prefix (lit "-t") rest with
        | Some after_flag =>
            if bool_decide (after_flag = []) || match after_flag with b :: _ => is_ascii_whitespace b | [] => false end then
              let '(at_, name) := split_first_word (trim after_flag) in Touch (Some at_) (trim name)
            else Touch None rest
        | None => Touch None rest
        end
      else if named "bind"%string then
        let '(target, name) := split_first_word (trim rest) in Bind target (trim name)
      else if named "apropos"%string then Apropos (trim rest)
      else if named "package"%string then Package (trim rest)
      else if named "vouch"%string then Vouch (trim rest)
      else if named "user"%string then User (trim rest)
      else Run (parse_run trimmed)
  end.

(** ** Pipelines and redirections *)

Definition MAX_STAGES : nat := 4.
Definition PIPE : Z := 124.
Definition LT : Z := 60.
Definition GT : Z := 62.

Definition is_op (b : Z) : bool := (b =? PIPE) || (b =? LT) || (b =? GT).

(** [2>] at the start of a word. *)
Definition is_diag_op (line : list Z) (i word_start : nat) : bool :=
  bool_decide (line !! i = Some 50)
  && bool_decide (line !! S i = Some GT)
  && ((i =? word_start)%nat || match line !! (i - 1)%nat with Some b => is_ascii_whitespace b | None => false end).

Definition is_op_at (line : list Z) (i : nat) : bool := match line !! i with Some b => is_op b | None => false end.
Definition is_at (line : list Z) (i : nat) (b : Z) : bool := bool_decide (line !! i = Some b).

(** One stage as it is read: its text, its redirections with whether the name
    was quoted, and whether they append. *)
Record Stage := MkStage {
  stage_text : list Z;
  s_in : option Word;
  s_out : option Word;
  s_diag : option Word;
  s_app : bool;
  s_diag_app : bool
}.

Record Line := MkLine {
  stages : list (list Z);
  input : option (list Z);
  output : option (list Z);
  diagnostics : option (list Z);
  append : bool;
  diag_append : bool
}.

(** The end of the text of a stage that starts at [start], and the quote left open. *)
Fixpoint stage_span (fuel : nat) (line : list Z) (start i : nat) (q : Quote) : nat * Quote :=
  match fuel with
  | O => (i, q)
  | S fuel' =>
      match line !! i with
      | None => (i, q)
      | Some b =>
          if negb (is_open q) && (is_op b || is_diag_op line i start) then (i, q)
          else stage_span fuel' line start (S i) (step q b).2
      end
  end.

Fixpoint skip_space_at (fuel : nat) (line : list Z) (i : nat) : nat :=
  match fuel with
  | O => i
  | S fuel' =>
      match line !! i with
      | Some b => if is_ascii_whitespace b then skip_space_at fuel' line (S i) else i
      | None => i
      end
  end.

Inductive Redirect := RIn | ROut | RDiag.

(** The operator at [i], whether it appends, and its width. *)
Definition redirect_at (line : list Z) (i : nat) : Redirect * bool * nat :=
  if is_at line i LT then (RIn, false, 1%nat)
  else if is_at line i GT then
    let a := is_at line (i + 1) GT in (ROut, a, if a then 2%nat else 1%nat)
  else
    let a := is_at line (i + 2) GT in (RDiag, a, if a then 3%nat else 2%nat).

(** The stage with the redirection filled in, [None] when it has one already. *)
Definition redirected (s : Stage) (which : Redirect) (app : bool) (name : Word) : option Stage :=
  match which with
  | RIn => if is_some (s_in s) then None
           else Some (MkStage (stage_text s) (Some name) (s_out s) (s_diag s) (s_app s) (s_diag_app s))
  | ROut => if is_some (s_out s) then None
            else Some (MkStage (stage_text s) (s_in s) (Some name) (s_diag s) app (s_diag_app s))
  | RDiag => if is_some (s_diag s) then None
             else Some (MkStage (stage_text s) (s_in s) (s_out s) (Some name) (s_app s) app)
  end.

Fixpoint redirect_loop (fuel : nat) (line : list Z) (i : nat) (s : Stage) : result Refusal (nat * Stage) :=
  match fuel with
  | O => Ok (i, s)
  | S fuel' =>
      if (i <? length line)%nat && (is_at line i LT || is_at line i GT || is_diag_op line i i) then
        let '(which, app, width) := redirect_at line i in
        let t := skip_space_at (length line) line (i + width) in
        let e := span line t (fun b => is_ascii_whitespace b || is_op b) in
        if (e =? t)%nat then Err NoRedirectTarget else
        name ← read (take (e - t) (drop t line));
        s' ← ok_or (redirected s which app name) RedirectRepeated;
        let j := skip_space_at (length line) line e in
        if (j <? length line)%nat && negb (is_op_at line j) && negb (is_diag_op line j j) then Err WordAfterRedirect
        else redirect_loop fuel' line j s'
      else Ok (i, s)
  end.

(** The stages, from the one that starts at [i] when [n] are read. The pipe
    between two stages is a debug assertion. *)
Fixpoint split_loop (fuel : nat) (line : list Z) (i n : nat) : run (result Refusal (list Stage)) :=
  match fuel with
  | O => Panicked
  | S fuel' =>
      if (n =? MAX_STAGES)%nat then Done (Err TooManyStages) else
      let '(e, q) := stage_span (S (length line)) line i i Bare in
      if is_open q then Done (Err UnclosedQuote) else
      match redirect_loop (S (length line)) line e
              (MkStage (trim (take (e - i) (drop i line))) None None None false false) with
      | Err r => Done (Err r)
      | Ok (i', s) =>
          if (length line <=? i')%nat then Done (Ok [s])
          else if negb (is_at line i' PIPE) then Panicked
          else
            rest ← split_loop fuel' line (S i') (S n);
            match rest with Ok ss => Done (Ok (s :: ss)) | Err r => Done (Err r) end
      end
  end.

(** Only the first stage takes input and only the last is redirected. *)
Fixpoint check_redirects (ss : list Stage) (k n : nat) : result Refusal unit :=
  match ss with
  | [] => Ok tt
  | s :: ss' =>
      if is_some (s_in s) && negb (k =? 0)%nat then Err RedirectMidPipeline
      else if is_some (s_out s) && negb (k + 1 =? n)%nat then Err RedirectMidPipeline
      else if is_some (s_diag s) && negb (k + 1 =? n)%nat then Err RedirectMidPipeline
      else check_redirects ss' (S k) n
  end.

Definition is_bare_pattern (o : option Word) : bool :=
  match o with Some w => negb (quoted w) && Glob.has_magic (text w) | None => false end.

Definition split (line : list Z) : run (result Refusal Line) :=
  r ← split_loop (S MAX_STAGES) line 0 0;
  match r with
  | Err e => Done (Err e)
  | Ok ss =>
      let n := length ss in
      if (1 <? n)%nat && existsb (fun s => bool_decide (stage_text s = [])) ss then Done (Err EmptyStage) else
      match check_redirects ss 0 n with
      | Err e => Done (Err e)
      | Ok _ =>
          match head ss, last ss with
          | Some f, Some l =>
              if is_bare_pattern (s_in f) || is_bare_pattern (s_out l) || is_bare_pattern (s_diag l)
              then Done (Err PatternInRedirect)
              else Done (Ok (MkLine (stage_text <$> ss) (text <$> s_in f) (text <$> s_out l) (text <$> s_diag l)
                               (s_app l) (s_diag_app l)))
          | _, _ => Panicked
          end
      end
  end.

Definition is_plain (l : Line) : bool :=
  (length (stages l) =? 1)%nat && is_none (input l) && is_none (output l) && is_none (diagnostics l).


(** ** Cutting a line never goes wrong *)

Lemma diag_op_self line i start : is_diag_op line i start = true -> is_diag_op line i i = true.
Proof. unfold is_diag_op. rewrite Nat.eqb_refl, !andb_true_iff. tauto. Qed.

Definition at_operator (line : list Z) (i : nat) : Prop :=
  (length line <= i)%nat \/ is_op_at line i = true \/ is_diag_op line i i = true.

Lemma stage_span_spec fuel line start i q : (length line - i < fuel)%nat ->
  let '(e, q') := stage_span fuel line start i q in (i <= e)%nat /\ at_operator line e.
Proof.
  revert i q. induction fuel as [|fuel IH]; intros i q Hf; [lia|]. cbn [stage_span].
  destruct (line !! i) as [b|] eqn:Hb; [|split; [done|left; by apply lookup_ge_None in Hb]].
  destruct (negb (is_open q) && (is_op b || is_diag_op line i start)) eqn:Hc.
  - split; [done|]. right. apply andb_true_iff in Hc as [_ Hc]. unfold is_op_at. rewrite Hb.
    apply orb_true_iff in Hc as [Hc|Hc]; [by left|right; by apply diag_op_self in Hc].
  - apply lookup_lt_Some in Hb. specialize (IH (S i) (step q b).2 ltac:(lia)).
    destruct (stage_span fuel line start (S i) (step q b).2) as [e q']. split; [lia|apply IH].
Qed.

Lemma skip_space_at_le fuel line i : (i <= skip_space_at fuel line i)%nat.
Proof.
  revert i. induction fuel as [|fuel IH]; intros i; cbn [skip_space_at]; [done|].
  destruct (line !! i) as [b|]; [|done]. destruct (is_ascii_whitespace b); [specialize (IH (S i)); lia|done].
Qed.

Lemma redirect_at_width line i : (1 <= (redirect_at line i).2)%nat.
Proof. unfold redirect_at. repeat case_match; simpl; lia. Qed.

Lemma redirect_loop_spec fuel line i s i' s' : (length line - i < fuel)%nat -> at_operator line i ->
  redirect_loop fuel line i s = Ok (i', s') -> (length line <= i')%nat \/ is_at line i' PIPE = true.
Proof.
  revert i s. induction fuel as [|fuel IH]; intros i s Hf Hop; [lia|]. cbn [redirect_loop].
  destruct (Nat.ltb_spec i (length line)) as [Hi|Hi]; cbn [andb]; [|intros [= <- <-]; by left].
  destruct (is_at line i LT || is_at line i GT || is_diag_op line i i) eqn:Hr.
  2: { intros [= <- <-]. right. apply orb_false_iff in Hr as [[Hl Hg]%orb_false_iff Hd].
       destruct Hop as [|[Ho|]]; [lia| |congruence]. unfold is_op_at, is_at in *. destruct (line !! i) as [b|]; [|done].
       unfold is_op in Ho. rewrite !orb_true_iff, !Z.eqb_eq in Ho. apply bool_decide_eq_true. rewrite !bool_decide_eq_false in *. naive_solver. }
  pose proof (redirect_at_width line i) as Hw. destruct (redirect_at line i) as [[which app] width]. cbn [snd] in Hw.
  set (t := skip_space_at (length line) line (i + width)). pose proof (skip_space_at_le (length line) line (i + width)) as Ht. fold t in Ht.
  set (e := span line t _). assert (He : (t <= e)%nat) by (unfold e, span; lia). destruct (Nat.eqb_spec e t); [done|].
  destruct (read _) as [nm|]; [|done]. cbn [mbind result_bind]. destruct (redirected s which app nm) as [s2|]; [|done]. cbn [ok_or mbind result_bind].
  set (j := skip_space_at (length line) line e). pose proof (skip_space_at_le (length line) line e) as Hj. fold j in Hj.
  destruct ((j <? length line)%nat && negb (is_op_at line j) && negb (is_diag_op line j j)) eqn:Hc; [done|].
  apply IH; [lia|]. destruct (Nat.ltb_spec j (length line)); [|by left]. right. cbn [andb] in Hc.
  apply andb_false_iff in Hc as [Hc|Hc]; apply negb_false_iff in Hc; tauto.
Qed.

Lemma split_loop_total fuel line i n : (fuel + n = S MAX_STAGES)%nat -> (n <= MAX_STAGES)%nat ->
  exists r, split_loop fuel line i n = Done r /\
    forall ss, r = Ok ss -> (0 < length ss)%nat /\ (length ss + n <= MAX_STAGES)%nat.
Proof.
  revert i n. induction fuel as [|fuel IH]; intros i n Hf Hn; cbn [split_loop]; [lia|].
  destruct (Nat.eqb_spec n MAX_STAGES); [by eexists|].
  pose proof (stage_span_spec (S (length line)) line i i Bare ltac:(lia)) as Hs.
  destruct (stage_span (S (length line)) line i i Bare) as [e q]. destruct Hs as [_ Hop].
  destruct (is_open q); [by eexists|]. destruct (redirect_loop _ _ _ _) as [[i' s]|r] eqn:Hr; [|by eexists].
  apply redirect_loop_spec in Hr; [|lia|done].
  destruct (Nat.leb_spec (length line) i').
  { eexists. split; [done|]. intros ss [= <-]. simpl. unfold MAX_STAGES in *. lia. }
  destruct Hr as [|Hp]; [lia|]. rewrite Hp. cbn [negb].
  destruct (IH (S i') (S n) ltac:(lia) ltac:(lia)) as (r & -> & Hss). cbn [mbind run_bind].
  destruct r as [ss|]; [|by eexists]. eexists. split; [done|]. intros ss' [= <-]. destruct (Hss ss eq_refl). simpl. lia.
Qed.

(** Cutting a line never goes wrong. Whatever was typed, [split] ends with
    a line or a refusal and its assertion that stages are separated by a pipe
    holds; a line has one to four stages, and none of several is empty. *)
Theorem split_is_total line :
  exists r, split line = Done r /\
    forall l, r = Ok l -> (1 <= length (stages l) <= MAX_STAGES)%nat /\
      ((1 < length (stages l))%nat -> [] ∉ stages l).
Proof.
  unfold split. destruct (split_loop_total (S MAX_STAGES) line 0 0 ltac:(lia) ltac:(lia)) as (r & -> & Hr). cbn [mbind run_bind].
  destruct r as [ss|]; [|by eexists]. destruct (Hr ss eq_refl) as [Hpos Hmax].
  destruct ((1 <? length ss)%nat && existsb _ ss) eqn:He; [by eexists|]. destruct (check_redirects ss 0 (length ss)); [|by eexists].
  destruct ss as [|s ss]; [simpl in Hpos; lia|]. cbn [head]. destruct (last (s :: ss)) as [l|] eqn:Hl; [|by apply last_None in Hl].
  destruct (is_bare_pattern _ || _ || _); [by eexists|]. eexists. split; [done|]. intros l' Hl'. assert (Hst : stages l' = stage_text <$> s :: ss) by by injection Hl' as <-. rewrite Hst, length_fmap.
  split; [lia|]. intros Hlt. apply Nat.ltb_lt in Hlt. rewrite Hlt in He. cbn [andb] in He. intros Hin.
  apply list_elem_of_fmap in Hin as (st & Hst' & Hin). assert (Ht : existsb (fun s0 => bool_decide (stage_text s0 = [])) (s :: ss) = true).
  { apply existsb_exists. exists st. split; [by apply list_elem_of_In|]. by apply bool_decide_eq_true. }
  congruence.
Qed.

(** ** Quoting designates bytes *)

Definition quote (nm : list Z) : list Z := DOUBLE :: nm ++ [DOUBLE].
Definition SPACE : Z := 32.

(** A bare word that is not an option. *)
Definition plain_word (w : list Z) : Prop :=
  w <> [] /\ head w <> Some 45 /\
  Forall (fun b => is_ascii_whitespace b = false /\ b <> SINGLE /\ b <> DOUBLE /\ is_op b = false) w.

(** A program and names, each name in double quotes. *)
Definition spelled_line (pg : list Z) (nms : list (list Z)) : list Z := pg ++ concat ((fun nm => SPACE :: quote nm) <$> nms).

Definition ends_word (rest : list Z) : Prop := match rest with [] => True | b :: _ => is_ascii_whitespace b = true end.

Lemma word_loop_end rest : ends_word rest -> word_loop Bare rest = ([], rest, Bare).
Proof. destruct rest as [|b rest]; [done|]. cbn. by intros ->. Qed.

Lemma word_loop_plain w rest :
  Forall (fun b => is_ascii_whitespace b = false /\ b <> SINGLE /\ b <> DOUBLE /\ is_op b = false) w -> ends_word rest ->
  word_loop Bare (w ++ rest) = (w, rest, Bare).
Proof.
  intros Hw Hr. induction Hw as [|b w (Hs & H1 & H2 & _) _ IH]; [by apply word_loop_end|].
  cbn [app word_loop is_open negb andb]. rewrite Hs. cbn [step].
  apply Z.eqb_neq in H1, H2. rewrite H1, H2. cbn [snd]. by rewrite IH.
Qed.

Lemma word_loop_double nm rest : DOUBLE ∉ nm -> ends_word rest ->
  word_loop Double (nm ++ DOUBLE :: rest) = (nm ++ [DOUBLE], rest, Bare).
Proof.
  intros Hn Hr. induction nm as [|b nm IH].
  - cbn [app word_loop is_open negb andb step]. rewrite Z.eqb_refl. cbn [snd]. by rewrite word_loop_end.
  - apply not_elem_of_cons in Hn as [Hb Hn]. cbn [app word_loop is_open negb andb step].
    rewrite (proj2 (Z.eqb_neq b DOUBLE)) by done. cbn [snd]. by rewrite IH.
Qed.

Lemma word_loop_quote nm rest : DOUBLE ∉ nm -> ends_word rest -> word_loop Bare (quote nm ++ rest) = (quote nm, rest, Bare).
Proof.
  intros Hn Hr. unfold quote. cbn [app word_loop is_open negb andb]. change (is_ascii_whitespace DOUBLE) with false.
  change ((step Bare DOUBLE).2) with Double. cbn iota. rewrite <- (assoc_L app). cbn [app]. by rewrite word_loop_double.
Qed.

Lemma tokenize_names fuel nms room :
  Forall (fun nm => DOUBLE ∉ nm) nms -> (length nms < fuel)%nat -> (length nms <= room)%nat ->
  fst <$> tokenize_loop fuel Bare (concat ((fun nm => SPACE :: quote nm) <$> nms)) room = quote <$> nms.
Proof.
  intros Hn. revert fuel room. induction Hn as [|nm nms Hnm Hn IH]; intros fuel room Hf Hr; [by destruct fuel|].
  destruct fuel as [|fuel]; [lia|]. destruct room as [|room]; [simpl in Hr; lia|]. cbn [length] in *.
  set (rest := concat ((fun nm0 => SPACE :: quote nm0) <$> nms)) in *.
  change (concat ((fun nm0 => SPACE :: quote nm0) <$> nm :: nms)) with (SPACE :: (quote nm ++ rest)).
  cbn [tokenize_loop]. change (skip_space Bare (SPACE :: quote nm ++ rest)) with (quote nm ++ rest).
  rewrite word_loop_quote; [|done|unfold rest; by destruct nms]. unfold quote at 1. cbn [fmap list_fmap fst].
  f_equal. apply IH; lia.
Qed.

Lemma tokenize_spelled pg nms : plain_word pg -> Forall (fun nm => DOUBLE ∉ nm) nms -> (length nms < MAX_TOKENS)%nat ->
  tokenize (spelled_line pg nms) MAX_TOKENS = pg :: (quote <$> nms).
Proof.
  intros (Hne & _ & Hp) Hn Hl. unfold tokenize, tokenize_rest, spelled_line. destruct pg as [|b pg]; [done|].
  set (rest := concat ((fun nm => SPACE :: quote nm) <$> nms)).
  assert (Hlen : (length nms <= length rest)%nat).
  { unfold rest. clear. induction nms as [|nm nms IH]; [done|]. cbn [fmap list_fmap concat length]. rewrite length_app. cbn [length]. lia. }
  assert (Hsk : skip_space Bare ((b :: pg) ++ rest) = (b :: pg) ++ rest).
  { apply Forall_cons in Hp as [[Hs _] _]. cbn. by rewrite Hs. }
  unfold MAX_TOKENS in *. cbn [app tokenize_loop]. change (b :: pg ++ rest) with ((b :: pg) ++ rest). rewrite Hsk.
  rewrite word_loop_plain; [|done|unfold rest; by destruct nms]. cbn [fmap list_fmap fst]. f_equal.
  apply tokenize_names; [done|cbn [length app]; rewrite length_app; lia|lia].
Qed.

Lemma position_end nm : DOUBLE ∉ nm -> position (fun b => b =? DOUBLE) (nm ++ [DOUBLE]) = Some (length nm).
Proof.
  induction nm as [|x nm IH]; intros Hn; [done|]. apply not_elem_of_cons in Hn as [Hx Hn]. cbn [app position length].
  rewrite (proj2 (Z.eqb_neq x DOUBLE)) by done. by rewrite IH.
Qed.

Lemma read_quote nm : DOUBLE ∉ nm -> read (quote nm) = Ok (MkWord nm true).
Proof.
  intros Hn. unfold read, quote. change (negb (DOUBLE =? SINGLE) && negb (DOUBLE =? DOUBLE)) with false. cbn iota.
  rewrite position_end by done. cbn [length]. rewrite length_app. cbn [length].
  destruct (Nat.eqb_spec (length nm + 2) (S (length nm + 1))); [|lia].
  replace (S (length nm + 1) - 2)%nat with (length nm) by lia. by rewrite take_app_length.
Qed.

Lemma read_plain pg : plain_word pg -> read pg = Ok (bare pg).
Proof.
  intros (Hne & _ & Hp). destruct pg as [|b pg]; [done|]. unfold read.
  assert (H1 : SINGLE ∉ b :: pg) by (intros H; by apply (proj1 (Forall_forall _ _) Hp) in H as (_ & ? & _)).
  assert (H2 : DOUBLE ∉ b :: pg) by (intros H; by apply (proj1 (Forall_forall _ _) Hp) in H as (_ & _ & ? & _)).
  rewrite !bool_decide_false by done. apply not_elem_of_cons in H1 as [H1 _], H2 as [H2 _].
  by rewrite (proj2 (Z.eqb_neq b SINGLE)), (proj2 (Z.eqb_neq b DOUBLE)) by done.
Qed.

Lemma parse_names nms r : Forall (fun nm => DOUBLE ∉ nm) nms -> (length (positionals r) + length nms <= MAX_POSITIONALS)%nat ->
  parse_run_loop (quote <$> nms) (MkParseState true r) =
    MkParseState true (MkRunSpec (prog r) (line_ r) (mem r) (positionals r ++ nms) (options r) (posq r ++ replicate (length nms) true)
      (unexpected r) (misquoted r)).
Proof.
  intros Hn. revert r. induction Hn as [|nm nms Hnm Hn IH]; intros r Hl; cbn [fmap list_fmap parse_run_loop].
  { destruct r. cbn. by rewrite !app_nil_r. }
  rewrite read_quote by done. cbn [quoted text negb andb]. unfold classify. cbn [have_prog spec negb andb length] in *.
  destruct (Nat.ltb_spec (length (positionals r)) MAX_POSITIONALS); [|lia].
  rewrite IH by (cbn [positionals with_positional]; rewrite length_app; simpl; lia).
  unfold with_positional. cbn. by rewrite <- !(assoc_L app).
Qed.

(** A stretch of the line with no operator outside quotes. *)
Fixpoint quiet (q : Quote) (l : list Z) : Prop :=
  match l with
  | [] => True
  | b :: r => (is_open q = false -> is_op b = false) /\ quiet (step q b).2 r
  end.

Definition quote_after (q : Quote) (l : list Z) : Quote := fold_left (fun q b => (step q b).2) l q.

Lemma quiet_app q a b : quiet q (a ++ b) <-> quiet q a /\ quiet (quote_after q a) b.
Proof. revert q. induction a as [|x a IH]; intros q; cbn; [tauto|]. rewrite IH. tauto. Qed.

Lemma stage_span_quiet fuel line start i q : quiet q (drop i line) -> (i <= length line)%nat -> (length line - i < fuel)%nat ->
  stage_span fuel line start i q = (length line, quote_after q (drop i line)).
Proof.
  revert i q. induction fuel as [|fuel IH]; intros i q Hq Hi Hf; [lia|]. cbn [stage_span].
  destruct (line !! i) as [b|] eqn:Hb.
  2: { apply lookup_ge_None in Hb. assert (i = length line) as -> by lia. by rewrite drop_all. }
  rewrite (drop_S line b i) in Hq |- * by done. cbn [quiet] in Hq. destruct Hq as [Hop Hq].
  assert (Hno : negb (is_open q) && (is_op b || is_diag_op line i start) = false).
  { destruct (is_open q) eqn:Ho; [done|]. cbn [negb andb]. rewrite (Hop eq_refl). cbn [orb]. unfold is_diag_op.
    case_bool_decide as H2; [|done]. case_bool_decide as H3; [|done]. exfalso. rewrite Hb in H2. injection H2 as ->.
    rewrite (drop_S line GT (S i)) in Hq by done. cbn [quiet] in Hq. destruct Hq as [Hq _].
    destruct q; try done. specialize (Hq eq_refl). done. }
  rewrite Hno. apply lookup_lt_Some in Hb. by rewrite IH by (done || lia).
Qed.

Lemma quiet_plain w : Forall (fun b => is_ascii_whitespace b = false /\ b <> SINGLE /\ b <> DOUBLE /\ is_op b = false) w ->
  quiet Bare w /\ quote_after Bare w = Bare.
Proof.
  induction 1 as [|b w (_ & H1 & H2 & H3) _ IH]; [done|]. cbn. apply Z.eqb_neq in H1, H2. rewrite H1, H2. cbn. tauto.
Qed.

Lemma quiet_double nm : DOUBLE ∉ nm -> quiet Double (nm ++ [DOUBLE]) /\ quote_after Double (nm ++ [DOUBLE]) = Bare.
Proof.
  induction nm as [|x nm IH]; intros Hn; [done|]. apply not_elem_of_cons in Hn as [Hx Hn]. cbn.
  rewrite (proj2 (Z.eqb_neq x DOUBLE)) by done. cbn. destruct (IH Hn). done.
Qed.

Lemma quiet_names nms : Forall (fun nm => DOUBLE ∉ nm) nms ->
  quiet Bare (concat ((fun nm => SPACE :: quote nm) <$> nms)) /\ quote_after Bare (concat ((fun nm => SPACE :: quote nm) <$> nms)) = Bare.
Proof.
  induction 1 as [|nm nms Hnm _ [IH1 IH2]]; [done|]. cbn [fmap list_fmap concat].
  destruct (quiet_double nm Hnm) as [H1 H2].
  assert (Hq : quiet Bare (SPACE :: quote nm) /\ quote_after Bare (SPACE :: quote nm) = Bare) by done. destruct Hq as [Hq1 Hq2].
  split; [apply quiet_app; by rewrite Hq2|]. unfold quote_after in *. by rewrite fold_left_app, Hq2.
Qed.

Lemma quiet_spelled pg nms : plain_word pg -> Forall (fun nm => DOUBLE ∉ nm) nms ->
  quiet Bare (spelled_line pg nms) /\ quote_after Bare (spelled_line pg nms) = Bare.
Proof.
  intros (_ & _ & Hp) Hn. destruct (quiet_plain pg Hp) as [H1 H2]. destruct (quiet_names nms Hn) as [H3 H4]. unfold spelled_line.
  split; [apply quiet_app; by rewrite H2|]. unfold quote_after in *. by rewrite fold_left_app, H2.
Qed.

Lemma trim_start_id s b : head s = Some b -> is_ascii_whitespace b = false -> trim_start s = s.
Proof. destruct s as [|x s]; [done|]. intros [= ->] Hb. cbn. by rewrite Hb. Qed.

Lemma trim_id s b e : head s = Some b -> last s = Some e -> is_ascii_whitespace b = false -> is_ascii_whitespace e = false -> trim s = s.
Proof.
  intros Hh Hl Hb He. unfold trim. rewrite (trim_start_id s b Hh Hb), (trim_start_id (rev s) e); [apply rev_involutive| |done].
  destruct s as [|x s _] using rev_ind; [done|]. rewrite last_snoc in Hl. injection Hl as ->. by rewrite rev_app_distr.
Qed.

Lemma last_spelled pg nms : plain_word pg -> exists e, last (spelled_line pg nms) = Some e /\ is_ascii_whitespace e = false.
Proof.
  intros (Hne & _ & Hp). unfold spelled_line. destruct nms as [|nm nms _] using rev_ind.
  - cbn. rewrite app_nil_r. destruct pg as [|x pg _] using rev_ind; [done|]. exists x. rewrite last_snoc. split; [done|].
    apply Forall_app in Hp as [_ Hp]. by apply Forall_cons in Hp as [[? _] _].
  - exists DOUBLE. split; [|done]. rewrite fmap_app, concat_app. cbn [fmap list_fmap concat]. rewrite app_nil_r. unfold quote.
    change (SPACE :: DOUBLE :: nm ++ [DOUBLE]) with ((SPACE :: DOUBLE :: nm) ++ [DOUBLE]). rewrite !(assoc_L app). apply last_snoc.
Qed.

(** What is between the quotes is what is designated, byte for byte. A line
    that names a program and up to four quoted names, whatever bytes the names
    hold other than the quote itself (spaces, operators, dashes, stars), is one
    plain stage, and it parses to exactly that program and those names: no
    option, no memory grant and nothing left over. *)
Theorem quoted_names_are_designated pg nms :
  plain_word pg -> Forall (fun nm => DOUBLE ∉ nm) nms -> (length nms <= MAX_POSITIONALS)%nat ->
  let line := spelled_line pg nms in
  split line = Done (Ok (MkLine [line] None None None false false)) /\
  parse_run line = MkRunSpec pg line None nms [] (replicate (length nms) true) None None.
Proof.
  intros Hpg Hn Hl line. destruct (quiet_spelled pg nms Hpg Hn) as [Hq Hb]. split.
  - assert (Hlen : line <> []) by (destruct Hpg as [? _]; unfold line, spelled_line; by destruct pg).
    assert (Htrim : trim line = line).
    { destruct (last_spelled pg nms Hpg) as (e & He & Hw). destruct Hpg as (Hne & _ & Hp). destruct pg as [|b pg]; [done|].
      apply (trim_id _ b e); try done. by apply Forall_cons in Hp as [[? _] _]. }
    unfold split, MAX_STAGES. cbn [split_loop Nat.eqb]. rewrite stage_span_quiet by (try done; lia).
    rewrite drop_0. unfold line in *. rewrite Hb. cbn [is_open]. cbn [redirect_loop]. rewrite Nat.ltb_irrefl. cbn [andb].
    rewrite Nat.leb_refl. cbn [mbind run_bind length]. rewrite Nat.sub_0_r, firstn_all, Htrim. cbn.
    done.
  - unfold parse_run, line. rewrite tokenize_spelled by (try done; unfold MAX_POSITIONALS, MAX_TOKENS in *; lia). cbn [parse_run_loop].
    rewrite read_plain by done. destruct Hpg as (Hne & Hh & _). cbn [quoted text bare negb andb].
    rewrite bool_decide_false; [|intros ->; by apply Hh]. unfold classify. cbn [negb andb have_prog spec].
    rewrite bool_decide_false by done. rewrite parse_names by done. done.
Qed.

Lemma quoted_names_are_designated_witness :
  positionals (parse_run (lit "rm " ++ [34] ++ lit "my *> notes" ++ [34])) = [lit "my *> notes"].
Proof.
  pose proof (quoted_names_are_designated (lit "rm") [lit "my *> notes"]) as H. cbv zeta in H.
  change (lit "rm " ++ [34] ++ lit "my *> notes" ++ [34]) with (spelled_line (lit "rm") [lit "my *> notes"]).
  destruct H as [_ ->]; [|repeat constructor; vm_decide|vm_compute; lia|reflexivity].
  split; [done|]. split; [done|]. repeat constructor; done.
Defined.

(** ** Numbers *)

Definition decimal (v : Z) (s : list Z) : Z := fold_left (fun v b => v * 10 + (b - 48)) s v.

Lemma decimal_ge v s : 0 <= v -> Forall (fun b => is_ascii_digit b = true) s -> v <= decimal v s.
Proof.
  intros Hv Hs. revert v Hv. induction Hs as [|b s Hb _ IH]; intros v Hv; [done|]. cbn. unfold is_ascii_digit in Hb.
  specialize (IH (v * 10 + (b - 48)) ltac:(lia)). unfold decimal in IH. lia.
Qed.

(** A number is read when it is all digits and fits its word. *)
Lemma parse_u64_spec s v : parse_u64 s = Some v <->
  s <> [] /\ Forall (fun b => is_ascii_digit b = true) s /\ v = decimal 0 s /\ v < 2 ^ 64.
Proof.
  unfold parse_u64. case_bool_decide as Hs; [naive_solver|].
  assert (H : forall s a, 0 <= a < 2 ^ 64 -> parse_u64_loop a s = Some v <->
    Forall (fun b => is_ascii_digit b = true) s /\ v = decimal a s /\ v < 2 ^ 64).
  { clear. intros s. induction s as [|b s IH]; intros a Ha; cbn [parse_u64_loop].
    { cbn. split; [intros [= <-]; split_and!; [constructor|done|lia]|intros (_ & -> & _); done]. }
    rewrite Forall_cons. destruct (is_ascii_digit b) eqn:Hb; [|naive_solver]. cbn [negb].
    assert (Hd : 0 <= b - 48 <= 9) by (unfold is_ascii_digit in Hb; lia).
    change (decimal a (b :: s)) with (decimal (a * 10 + (b - 48)) s).
    assert (Hbig : 2 ^ 64 <= a * 10 + (b - 48) -> ~ ((true = true /\ Forall (fun b => is_ascii_digit b = true) s) /\ v = decimal (a * 10 + (b - 48)) s /\ v < 2 ^ 64)).
    { intros Hge ((_ & Hf) & -> & Hlt). pose proof (decimal_ge (a * 10 + (b - 48)) s ltac:(lia) Hf). lia. }
    unfold checked_mul, checked_add. case_decide as H1; cbn [mbind option_bind]; [|split; [done|intros Hx; exfalso; apply Hbig; [lia|done]]].
    case_decide as H2; cbn [mbind option_bind]; [|split; [done|intros Hx; exfalso; apply Hbig; [lia|done]]].
    rewrite IH by lia. tauto. }
  rewrite H by lia. tauto.
Qed.
End ShellWords.
