(* ===== verification/NameSets.v ===== *)
(** * Names a grant carries (crates/grant_plan/src/expand.rs)

    A pattern designates the names it matched, so what travels in a grant is a
    set of at most eight names. The expander is offered a directory's names one
    by one; in batches it keeps the eight smallest past where the last batch
    ended. *)

From stdpp Require Import sorting.
From S2P Require Import Prelude Glob Nav ShellWords.
Local Open Scope Z_scope.

Module NameSets.

Definition MAX_NAME : nat := Nav.MAX_FILE_NAME.
Definition MAX_NAMES : nat := 8.

Definition file_name_fits (name : list Z) : bool :=
  negb (bool_decide (name = []))
  && (length name <=? Nav.MAX_FILE_NAME)%nat
  && negb (bool_decide (name = lit "."))
  && negb (bool_decide (name = lit ".."))
  && negb (bool_decide (Nav.SLASH ∈ name))
  && negb (bool_decide (Nav.BACKSLASH ∈ name)).

(** ** One name *)

(** The fields are private: every value is zero or comes from [Name_new]. *)
Record Name := MkName { nbytes : list Z; nlen : Z }.

#[export] Instance Name_eq_dec : EqDecision Name.
Proof. solve_decision. Defined.

Definition Name_new (name : list Z) : option Name :=
  if negb (file_name_fits name) then None
  else Some (MkName (list_inserts 0 name (replicate MAX_NAME 0)) (wrap 8 (Z.of_nat (length name)))).

Definition as_bytes (n : Name) : list Z := take (Z.to_nat (nlen n)) (nbytes n).

(** ** A set of names *)

Record NameSet := MkNameSet { names : list Name; dirs : list bool; n : nat }.

#[export] Instance NameSet_eq_dec : EqDecision NameSet.
Proof. solve_decision. Defined.

Definition empty : NameSet :=
  MkNameSet (replicate MAX_NAMES (MkName (replicate MAX_NAME 0) 0)) (replicate MAX_NAMES false) 0.

Definition iter (s : NameSet) : list (list Z * bool) :=
  zip (as_bytes <$> take (n s) (names s)) (take (n s) (dirs s)).

Definition contains (s : NameSet) (name : list Z) : bool := existsb (fun p => bool_decide (p.1 = name)) (iter s).

Definition push (s : NameSet) (name : list Z) (is_dir : bool) : bool * NameSet :=
  if (n s =? MAX_NAMES)%nat || contains s name then (false, s)
  else
    match Name_new name with
    | Some nm => (true, MkNameSet (<[n s := nm]> (names s)) (<[n s := is_dir]> (dirs s)) (n s + 1))
    | None => (false, s)
    end.

Definition one (name : list Z) (is_dir : bool) : option NameSet :=
  let '(ok, s) := push empty name is_dir in if ok then Some s else None.

Definition len (s : NameSet) : nat := n s.
Definition is_empty (s : NameSet) : bool := (n s =? 0)%nat.
Definition last_name (s : NameSet) : option (list Z) :=
  if (0 <? n s)%nat then as_bytes <$> (names s !! (n s - 1)%nat) else None.
Definition only (s : NameSet) : option (list Z) :=
  if (n s =? 1)%nat then as_bytes <$> (names s !! 0%nat) else None.

(** The order of byte slices. *)
Fixpoint bytes_lt (a b : list Z) : bool :=
  match a, b with
  | [], [] => false
  | [], _ :: _ => true
  | _ :: _, [] => false
  | x :: a', y :: b' => (x <? y) || ((x =? y) && bytes_lt a' b')
  end.

(** The first of the filled entries that is larger. *)
Definition first_larger (s : NameSet) (name : Name) : nat :=
  default (n s) (position (fun m => bytes_lt (as_bytes name) (as_bytes m)) (take (n s) (names s))).

(** [while i > at { a[i] = a[i - 1]; i -= 1 }]. *)
Fixpoint shift_up {A} (a : list A) (at_ i : nat) : list A :=
  match i with
  | O => a
  | S i' => if (at_ <? i)%nat then
              shift_up (match a !! i' with Some x => <[i := x]> a | None => a end) at_ i'
            else a
  end.

Definition keep_smallest (s : NameSet) (name : Name) (is_dir : bool) : bool * NameSet :=
  let at_ := first_larger s name in
  let room := (n s <? MAX_NAMES)%nat in
  if negb room && (at_ =? MAX_NAMES)%nat then (false, s)
  else
    let n' := if room then (n s + 1)%nat else n s in
    (room, MkNameSet (<[at_ := name]> (shift_up (names s) at_ (n' - 1)))
                     (<[at_ := is_dir]> (shift_up (dirs s) at_ (n' - 1))) n').

(** ** Expanding a pattern *)

Inductive Resume := Start | After (w : Name).

#[export] Instance Resume_eq_dec : EqDecision Resume.
Proof. solve_decision. Defined.

Record Expander := MkExpander {
  pattern : list Z;
  set_ : NameSet;
  refused : option ShellWords.Refusal;
  resume : option Resume;
  more : bool
}.

Record Batch := MkBatch { b_names : NameSet; b_more : bool }.

Definition expander_new (p : list Z) : Expander := MkExpander p empty None None false.
Definition expander_batch (p : list Z) (r : Resume) : Expander := MkExpander p empty None (Some r) false.

(** [refused.get_or_insert(r)]. *)
Definition refuse (e : Expander) (r : ShellWords.Refusal) : Expander :=
  MkExpander (pattern e) (set_ e) (match refused e with None => Some r | o => o end) (resume e) (more e).

Definition with_set (e : Expander) (s : NameSet) : Expander := MkExpander (pattern e) s (refused e) (resume e) (more e).

(** Matching always answers; see [Glob]. *)
Definition glob_matches (p name : list Z) : bool := default false (Glob.matches p name).

Definition offer (e : Expander) (name : list Z) (is_dir : bool) : Expander :=
  if negb (glob_matches (pattern e) name) || contains (set_ e) name then e
  else if negb (file_name_fits name) then refuse e ShellWords.MatchNotNameable
  else
    match resume e with
    | None =>
        let '(ok, s) := push (set_ e) name is_dir in
        if ok then with_set e s else refuse (with_set e s) ShellWords.TooManyNames
    | Some r =>
        if match r with After w => negb (bytes_lt (as_bytes w) name) | Start => false end then e
        else
          match Name_new name with
          | None => e
          | Some nm =>
              let '(kept, s) := keep_smallest (set_ e) nm is_dir in
              MkExpander (pattern e) s (refused e) (resume e) (if kept then more e else true)
          end
    end.

(** [debug] says whether the build keeps debug assertions. *)
Definition finish (debug : bool) (e : Expander) : run (result ShellWords.Refusal NameSet) :=
  if debug && is_some (resume e) then Panicked
  else match refused e with
       | Some r => Done (Err r)
       | None => if is_empty (set_ e) then Done (Err ShellWords.NoMatch) else Done (Ok (set_ e))
       end.

Definition finish_batch (debug : bool) (e : Expander) : run (result ShellWords.Refusal Batch) :=
  if debug && is_none (resume e) then Panicked
  else match refused e with
       | Some r => Done (Err r)
       | None =>
           if is_empty (set_ e) && bool_decide (resume e = Some Start) then Done (Err ShellWords.NoMatch)
           else Done (Ok (MkBatch (set_ e) (more e)))
       end.

Definition batch_next (b : Batch) : option Resume :=
  if negb (b_more b) then None
  else l ← last_name (b_names b); After <$> Name_new l.

(** Whether a word's last component is a pattern. *)
Definition magic_component (token : list Z) : result ShellWords.Refusal bool :=
  match Nav.path token with
  | Err _ => Err ShellWords.FileNotNameable
  | Ok p =>
      match last (Nav.steps p) with
      | None => Ok false
      | Some l =>
          let lead := take (length (Nav.steps p) - 1) (Nav.steps p) in
          if existsb (fun s => match s with Nav.Down nm => Glob.has_magic nm | Nav.Up => false end) lead
          then Err ShellWords.PatternInPath
          else Ok (match l with Nav.Down nm => Glob.has_magic nm | Nav.Up => false end)
      end
  end.

(** ** What words designate *)

Record Designation := MkDesignation { d_names : NameSet; d_here : bool }.

Definition designation_none : Designation := MkDesignation empty false.

Definition designate_name (d : Designation) (name : list Z) (is_dir : bool) : result ShellWords.Refusal unit * Designation :=
  if contains (d_names d) name then (Ok tt, d)
  else if is_none (Name_new name) then (Err ShellWords.MatchNotNameable, d)
  else
    let '(ok, s) := push (d_names d) name is_dir in
    ((if ok then Ok tt else Err ShellWords.TooManyNames), MkDesignation s (d_here d)).

Definition designate_here (d : Designation) : Designation := MkDesignation (d_names d) true.
Definition designation_is_empty (d : Designation) : bool := negb (d_here d) && is_empty (d_names d).

Record Expansion := MkExpansion { e_at : option nat; e_names : NameSet; e_words : option bool }.

Definition expansion_none : Expansion := MkExpansion None empty None.
Definition designated (d : Designation) : Expansion := MkExpansion None (d_names d) (Some (d_here d)).
Definition designation (e : Expansion) : option Designation := (fun here => MkDesignation (e_names e) here) <$> e_words e.
Definition expansion_at (i : nat) (s : NameSet) : Expansion := MkExpansion (Some i) s None.
Definition for_positional (e : Expansion) (i : nat) : option NameSet :=
  if bool_decide (e_at e = Some i) then Some (e_names e) else None.

(** ** What the arrays stand for *)

Definition name_of (nm : list Z) : Name := MkName (nm ++ replicate (MAX_NAME - length nm) 0) (Z.of_nat (length nm)).

(** An array of eight filled from the front. *)
Definition fill {X B} (f : X -> B) (blank : B) (l : list X) : list B := (f <$> l) ++ replicate (MAX_NAMES - length l) blank.

Definition blank_name : Name := MkName (replicate MAX_NAME 0) 0.

(** The set that holds these names. *)
Definition set_of (l : list (list Z * bool)) : NameSet :=
  MkNameSet (fill (fun p => name_of p.1) blank_name l) (fill snd false l) (length l).

Lemma name_fits_spec nm : file_name_fits nm = true <->
  nm <> [] /\ (length nm <= MAX_NAME)%nat /\ nm <> lit "." /\ nm <> lit ".." /\ Nav.SLASH ∉ nm /\ Nav.BACKSLASH ∉ nm.
Proof.
  unfold file_name_fits. rewrite !andb_true_iff, !negb_true_iff, !bool_decide_eq_false, Nat.leb_le. tauto.
Qed.

Lemma Name_new_spec nm : Name_new nm = if file_name_fits nm then Some (name_of nm) else None.
Proof.
  unfold Name_new. destruct (file_name_fits nm) eqn:Hf; [|done]. cbn [negb]. apply name_fits_spec in Hf as (_ & Hl & _).
  rewrite Nav.list_inserts_zero, wrap_small by (done || (unfold MAX_NAME, Nav.MAX_FILE_NAME in *; split; lia)). done.
Qed.

Lemma as_bytes_name nm : as_bytes (name_of nm) = nm.
Proof. unfold as_bytes, name_of. cbn [nlen nbytes]. by rewrite Nat2Z.id, take_app_length. Qed.

Lemma empty_is : empty = set_of [].
Proof. reflexivity. Qed.

Lemma take_fill {X B} (f : X -> B) blank l : take (length l) (fill f blank l) = f <$> l.
Proof. unfold fill. by rewrite <- (length_fmap f l), take_app_length. Qed.

Lemma iter_spec l : iter (set_of l) = l.
Proof.
  unfold iter, set_of. cbn [n names dirs]. rewrite !take_fill, <- list_fmap_compose.
  induction l as [|[nm d] l IH]; [done|]. cbn [fmap list_fmap zip_with snd]. unfold compose at 1. cbn [fst]. rewrite as_bytes_name. f_equal. exact IH.
Qed.

Lemma contains_spec l nm : contains (set_of l) nm = bool_decide (nm ∈ l.*1).
Proof.
  unfold contains. rewrite iter_spec. apply Bool.eq_iff_eq_true. rewrite existsb_exists, bool_decide_eq_true, list_elem_of_fmap.
  setoid_rewrite <- list_elem_of_In. setoid_rewrite bool_decide_eq_true. naive_solver.
Qed.

Lemma insert_fill {X B} (f : X -> B) blank l x : (length l < MAX_NAMES)%nat ->
  <[length l := f x]> (fill f blank l) = fill f blank (l ++ [x]).
Proof.
  intros Hl. unfold fill. rewrite insert_app_r_alt by by rewrite length_fmap. rewrite length_fmap, Nat.sub_diag, length_app. cbn [length].
  replace (MAX_NAMES - length l)%nat with (S (MAX_NAMES - (length l + 1))) by lia. by rewrite fmap_app, <- (assoc_L app).
Qed.

Lemma push_spec l nm d : (length l <= MAX_NAMES)%nat ->
  push (set_of l) nm d =
    if decide (length l <> MAX_NAMES /\ nm ∉ l.*1 /\ file_name_fits nm = true) then (true, set_of (l ++ [(nm, d)])) else (false, set_of l).
Proof.
  intros Hl. unfold push. rewrite contains_spec, Name_new_spec. cbn [n set_of].
  destruct (Nat.eqb_spec (length l) MAX_NAMES) as [He|He]; cbn [orb]; [by rewrite decide_False by naive_solver|].
  case_bool_decide as Hin; [by rewrite decide_False by naive_solver|].
  destruct (file_name_fits nm) eqn:Hf; [|by rewrite decide_False by naive_solver]. rewrite decide_True by done.
  f_equal. unfold set_of. cbn [names dirs n]. f_equal; [| |by rewrite length_app].
  - exact (insert_fill (fun p => name_of p.1) blank_name l (nm, d) ltac:(lia)).
  - exact (insert_fill snd false l (nm, d) ltac:(lia)).
Qed.

(** ** Keeping the smallest *)

Fixpoint ins (x : list Z * bool) (l : list (list Z * bool)) : list (list Z * bool) :=
  match l with
  | [] => [x]
  | y :: r => if bytes_lt x.1 y.1 then x :: l else y :: ins x r
  end.

Lemma ins_position x l :
  let k := default (length l) (position (fun y => bytes_lt x.1 y.1) l) in
  (k <= length l)%nat /\ ins x l = take k l ++ x :: drop k l.
Proof.
  induction l as [|y l [IH1 IH2]]; [done|]. cbn [position ins length]. destruct (bytes_lt x.1 y.1); [cbn; split; [lia|done]|].
  rewrite IH2. destruct (position _ l) as [i|]; cbn in *; (split; [lia|done]).
Qed.

Lemma shift_up_spec {A} (a : list A) at_ i x : (at_ <= i < length a)%nat ->
  <[at_ := x]> (shift_up a at_ i) = take at_ a ++ x :: take (i - at_) (drop at_ a) ++ drop (S i) a.
Proof.
  revert a. induction i as [|i IH]; intros a Hi; cbn [shift_up].
  { assert (at_ = 0)%nat as -> by lia. destruct a; [simpl in Hi; lia|done]. }
  destruct (Nat.ltb_spec at_ (S i)) as [Hlt|Hge].
  2: { assert (at_ = S i) as -> by lia. rewrite Nat.sub_diag. cbn [take app]. by rewrite insert_take_drop by lia. }
  destruct (lookup_lt_is_Some_2 a i) as [y Hy]; [lia|]. rewrite Hy. rewrite IH by (rewrite length_insert; lia).
  rewrite take_insert_ge by lia. f_equal. f_equal.
  rewrite (insert_take_drop a (S i) y) by lia.
  assert (Ht : length (take (S i) a) = S i) by (rewrite length_take; lia).
  rewrite (drop_app_ge _ _ (S i)), Ht, Nat.sub_diag by lia. cbn [drop].
  rewrite drop_app_le by lia. rewrite take_app_le by (rewrite length_drop; lia).
  rewrite take_drop_commute. replace (at_ + (i - at_))%nat with i by lia. rewrite take_take, Nat.min_l by lia.
  rewrite (take_drop_commute a (S i - at_) at_). replace (at_ + (S i - at_))%nat with (S i) by lia.
  rewrite (take_S_r a i y Hy), drop_app_le by (rewrite length_take; lia). by rewrite <- (assoc_L app).
Qed.

Lemma length_fill {X B} (f : X -> B) blank l : (length l <= MAX_NAMES)%nat -> length (fill f blank l) = MAX_NAMES.
Proof. intros Hl. unfold fill. rewrite length_app, length_fmap, length_replicate. lia. Qed.

Lemma fill_shift {X B} (f : X -> B) blank l x k : (k <= length l <= MAX_NAMES)%nat -> (k < MAX_NAMES)%nat ->
  let n' := if (length l <? MAX_NAMES)%nat then (length l + 1)%nat else length l in
  <[k := f x]> (shift_up (fill f blank l) k (n' - 1)) = fill f blank (take MAX_NAMES (take k l ++ x :: drop k l)).
Proof.
  intros Hk Hk8 n'. assert (Hn : (k <= n' - 1 < MAX_NAMES)%nat) by (unfold n'; destruct (Nat.ltb_spec (length l) MAX_NAMES); lia).
  rewrite shift_up_spec by (rewrite length_fill; lia).
  assert (Hrun : take (n' - 1 - k) (drop k (fill f blank l)) = f <$> take (n' - 1 - k) (drop k l)).
  { unfold fill. rewrite drop_app_le by (rewrite length_fmap; lia). rewrite take_app_le.
    - by rewrite <- fmap_drop, <- fmap_take.
    - rewrite length_drop, length_fmap. unfold n'. destruct (Nat.ltb_spec (length l) MAX_NAMES); lia. }
  rewrite Hrun. assert (Hfront : take k (fill f blank l) = f <$> take k l).
  { unfold fill. rewrite take_app_le by (rewrite length_fmap; lia). by rewrite fmap_take. }
  rewrite Hfront. unfold n'. destruct (Nat.ltb_spec (length l) MAX_NAMES) as [Hlt|Hge].
  - replace (length l + 1 - 1)%nat with (length l) by lia. rewrite (take_ge (drop k l)) by (rewrite length_drop; lia).
    rewrite (take_ge (take k l ++ _)) by (rewrite length_app, length_take; cbn [length]; rewrite length_drop; lia).
    unfold fill. rewrite length_app, length_take. cbn [length]. rewrite length_drop, fmap_app. cbn [fmap list_fmap].
    rewrite <- (assoc_L app). f_equal. cbn [app]. f_equal. f_equal. rewrite drop_app_ge by (rewrite length_fmap; lia).
    rewrite length_fmap, drop_replicate. f_equal. lia.
  - assert (Hl : length l = MAX_NAMES) by lia. rewrite Hl. rewrite (drop_ge (fill f blank l)) by (rewrite length_fill; lia).
    rewrite app_nil_r. rewrite take_app_ge by (rewrite length_take; lia). rewrite length_take, Hl, Nat.min_l by lia.
    replace (MAX_NAMES - k)%nat with (S (MAX_NAMES - 1 - k)) by lia. cbn [take]. unfold fill.
    rewrite length_app, length_take. cbn [length]. rewrite length_take, length_drop, Hl.
    match goal with |- context [replicate ?z blank] => replace z with 0%nat by lia end. by rewrite app_nil_r, fmap_app.
Qed.

Lemma first_larger_spec l nm (d : bool) : (length l <= MAX_NAMES)%nat ->
  first_larger (set_of l) (name_of nm) = default (length l) (position (fun y => bytes_lt (nm, d).1 y.1) l).
Proof.
  intros Hl. unfold first_larger, set_of. cbn [n names]. rewrite take_fill, as_bytes_name. cbn [fst]. f_equal.
  induction l as [|y l IH]; [done|]. cbn [fmap list_fmap position]. rewrite as_bytes_name. rewrite IH by (cbn [length] in Hl; lia). done.
Qed.

(** The eight smallest of nine at most, and whether nothing fell off. *)
Lemma keep_smallest_spec l nm d : (length l <= MAX_NAMES)%nat ->
  keep_smallest (set_of l) (name_of nm) d = ((length l <? MAX_NAMES)%nat, set_of (take MAX_NAMES (ins (nm, d) l))).
Proof.
  intros Hl. unfold keep_smallest. rewrite (first_larger_spec l nm d Hl).
  destruct (ins_position (nm, d) l) as [Hk Hins]. rewrite Hins. set (k := default (length l) _) in *. cbn [n set_of].
  destruct (negb (length l <? MAX_NAMES)%nat && (k =? MAX_NAMES)%nat) eqn:Hc.
  - apply andb_true_iff in Hc as [H1%negb_true_iff H2%Nat.eqb_eq]. rewrite H1. apply Nat.ltb_ge in H1. f_equal. f_equal.
    rewrite (take_ge l k) by lia. rewrite take_app_le, take_ge by lia. done.
  - assert (Hk8 : (k < MAX_NAMES)%nat).
    { apply andb_false_iff in Hc as [H%negb_false_iff|H]; [apply Nat.ltb_lt in H; lia|]. apply Nat.eqb_neq in H. lia. }
    f_equal. unfold set_of. cbn [names dirs]. f_equal.
    + exact (fill_shift (fun p => name_of p.1) blank_name l (nm, d) k ltac:(lia) Hk8).
    + exact (fill_shift snd false l (nm, d) k ltac:(lia) Hk8).
    + rewrite length_take, length_app, length_take. cbn [length]. rewrite length_drop. destruct (Nat.ltb_spec (length l) MAX_NAMES); lia.
Qed.

(** ** Names in order *)

Lemma bytes_lt_irrefl a : bytes_lt a a = false.
Proof. induction a as [|x a IH]; [done|]. cbn. rewrite Z.ltb_irrefl, Z.eqb_refl. done. Qed.

Lemma bytes_lt_trans a b c : bytes_lt a b = true -> bytes_lt b c = true -> bytes_lt a c = true.
Proof.
  revert b c. induction a as [|x a IH]; intros [|y b] [|z c]; try done. cbn.
  rewrite !orb_true_iff, !andb_true_iff, !Z.ltb_lt, !Z.eqb_eq. intros [H1|[-> H1]] [H2|[-> H2]]; [left; lia..|right].
  split; [done|]. by apply (IH b).
Qed.

Lemma bytes_lt_total a b : bytes_lt a b = true \/ a = b \/ bytes_lt b a = true.
Proof.
  revert b. induction a as [|x a IH]; intros [|y b]; cbn; [auto..|].
  rewrite !orb_true_iff, !andb_true_iff, !Z.ltb_lt, !Z.eqb_eq. destruct (Z.lt_total x y) as [?|[->|?]]; [auto| |auto].
  destruct (IH b) as [?|[->|?]]; auto.
Qed.

Definition before (p q : list Z * bool) : Prop := bytes_lt p.1 q.1 = true.

#[local] Instance before_trans : Transitive before.
Proof. intros p q r. apply bytes_lt_trans. Qed.
#[local] Instance before_antisym : AntiSymm (=) before.
Proof.
  intros p q H1 H2. unfold before in *. pose proof (bytes_lt_trans _ _ _ H1 H2) as H. by rewrite bytes_lt_irrefl in H.
Qed.

Definition in_order (l : list (list Z * bool)) : Prop := StronglySorted before l.

Lemma ins_perm x l : ins x l ≡ₚ x :: l.
Proof.
  induction l as [|y l IH]; [done|]. cbn [ins]. destruct (bytes_lt x.1 y.1); [done|]. rewrite IH. apply Permutation_swap.
Qed.

Lemma ins_in_order x l : in_order l -> x.1 ∉ l.*1 -> in_order (ins x l).
Proof.
  induction 1 as [|y l Hl IH Hy]; intros Hx; [by repeat constructor|]. cbn [ins].
  apply not_elem_of_cons in Hx as [Hne Hx]. destruct (bytes_lt x.1 y.1) eqn:Hlt.
  - constructor; [by constructor|]. constructor; [done|]. eapply Forall_impl; [exact Hy|]. intros z. apply (bytes_lt_trans x.1 y.1 z.1 Hlt).
  - constructor; [by apply IH|]. rewrite ins_perm. constructor; [|done].
    destruct (bytes_lt_total x.1 y.1) as [?|[?|?]]; [congruence|done|done].
Qed.

Lemma take_ins k x l : take k (ins x (take k l)) = take k (ins x l).
Proof.
  revert k. induction l as [|y l IH]; intros [|k]; try done. cbn [take ins]. destruct (bytes_lt x.1 y.1).
  - cbn [take]. f_equal. destruct k as [|k]; [done|]. cbn [take]. f_equal. rewrite take_take. f_equal. lia.
  - cbn [take]. f_equal. apply IH.
Qed.

(** The names of a listing, in order. *)
Definition sorted_names (l : list (list Z * bool)) : list (list Z * bool) := fold_left (fun s x => ins x s) l [].

Lemma fold_ins_spec l s : in_order s -> NoDup (s.*1 ++ l.*1) ->
  in_order (fold_left (fun s x => ins x s) l s) /\ fold_left (fun s x => ins x s) l s ≡ₚ l ++ s.
Proof.
  revert s. induction l as [|x l IH]; intros s Hs Hnd; [done|]. cbn [fold_left].
  assert (Hx : x.1 ∉ s.*1 /\ NoDup ((ins x s).*1 ++ l.*1)).
  { cbn [fmap list_fmap] in Hnd. rewrite <- Permutation_middle in Hnd. apply NoDup_cons in Hnd as [Hx Hnd].
    split; [set_solver|]. rewrite ins_perm. cbn [fmap list_fmap app]. by constructor. }
  destruct (IH (ins x s) (ins_in_order x s Hs (proj1 Hx)) (proj2 Hx)) as [H1 H2]. split; [done|]. rewrite H2, ins_perm.
  symmetry. apply Permutation_middle.
Qed.

Lemma sorted_names_spec l : NoDup l.*1 -> in_order (sorted_names l) /\ sorted_names l ≡ₚ l.
Proof. intros Hnd. destruct (fold_ins_spec l [] ltac:(constructor) Hnd) as [H1 H2]. by rewrite app_nil_r in H2. Qed.

Lemma in_order_unique l1 l2 : in_order l1 -> in_order l2 -> l1 ≡ₚ l2 -> l1 = l2.
Proof. intros H1 H2. by apply (StronglySorted_unique before). Qed.

(** ** Offering a listing *)

Section Batches.
Context (debug : bool) (p : list Z).

Definition past (r : Resume) (nm : list Z) : bool := match r with After w => bytes_lt (as_bytes w) nm | Start => true end.

(** What a batch that resumes here may take of a listing. *)
Definition wanted (r : Resume) (l : list (list Z * bool)) : list (list Z * bool) :=
  filter (fun x => glob_matches p x.1 && past r x.1 = true) l.

(** An expander that was offered exactly these names so far. *)
Definition collecting (r : Resume) (s : list (list Z * bool)) : Expander :=
  MkExpander p (set_of (take MAX_NAMES s)) None (Some r) (MAX_NAMES <? length s)%nat.

Definition nameable (l : list (list Z * bool)) : Prop :=
  Forall (fun x => glob_matches p x.1 = true -> file_name_fits x.1 = true) l.

Lemma past_spec r nm : match r with After w => negb (bytes_lt (as_bytes w) nm) | Start => false end = negb (past r nm).
Proof. by destruct r. Qed.

Lemma length_ins x l : length (ins x l) = S (length l).
Proof. by rewrite ins_perm. Qed.

Lemma offer_collecting r s x : x.1 ∉ s.*1 -> (glob_matches p x.1 = true -> file_name_fits x.1 = true) ->
  offer (collecting r s) x.1 x.2 = collecting r (if glob_matches p x.1 && past r x.1 then ins x s else s).
Proof.
  intros Hx Hfit. unfold offer. cbn [collecting pattern set_ refused resume more]. rewrite contains_spec.
  rewrite bool_decide_false by (rewrite fmap_take; intros H; apply Hx, (subseteq_take MAX_NAMES), H).
  destruct (glob_matches p x.1) eqn:Hm; cbn [negb orb andb]; [|done]. rewrite (Hfit eq_refl). cbn [negb].
  rewrite past_spec. destruct (past r x.1); cbn [negb]; [|done]. rewrite Name_new_spec, (Hfit eq_refl).
  rewrite keep_smallest_spec by (rewrite length_take; lia). rewrite <- surjective_pairing, take_ins. unfold collecting. f_equal.
  rewrite length_take, length_ins. destruct (Nat.ltb_spec (MAX_NAMES `min` length s) MAX_NAMES);
    destruct (Nat.ltb_spec MAX_NAMES (length s)); destruct (Nat.ltb_spec MAX_NAMES (S (length s))); try done; lia.
Qed.

Lemma offers_collecting r l s : NoDup (s.*1 ++ l.*1) -> nameable l ->
  fold_left (fun e x => offer e x.1 x.2) l (collecting r s) = collecting r (fold_left (fun s x => ins x s) (wanted r l) s).
Proof.
  revert s. induction l as [|x l IH]; intros s Hnd Hn; [done|]. cbn [fold_left]. inversion Hn as [|? ? Hx Hl]; subst.
  cbn [fmap list_fmap] in Hnd. rewrite <- Permutation_middle in Hnd. apply NoDup_cons in Hnd as [Hxs Hnd].
  rewrite offer_collecting by (done || set_solver). unfold wanted. rewrite filter_cons.
  destruct (glob_matches p x.1 && past r x.1) eqn:Hc; cbn [fold_left]; (destruct (decide _) as [Hd|Hd]; [|try congruence]); try congruence.
  - rewrite IH; [done| |done]. rewrite ins_perm. cbn [fmap list_fmap app]. by constructor.
  - by rewrite IH.
Qed.

Definition offered (r : Resume) (l : list (list Z * bool)) : Expander :=
  fold_left (fun e x => offer e x.1 x.2) l (expander_batch p r).

Lemma offered_spec r l : NoDup l.*1 -> nameable l -> offered r l = collecting r (sorted_names (wanted r l)).
Proof. intros Hnd Hn. exact (offers_collecting r l [] Hnd Hn). Qed.

(** A match that cannot travel in a grant refuses the batch, whatever else the
    listing holds. *)
Lemma refused_stays e x r : refused e = Some r -> refused (offer e x.1 x.2) = Some r.
Proof.
  intros H. unfold offer. destruct (_ || _); [done|]. destruct (negb _); [unfold refuse; cbn; by rewrite H|].
  destruct (resume e) as [w|].
  - destruct (match w with After _ => _ | Start => _ end); [done|]. destruct (Name_new _); [|done]. by destruct (keep_smallest _ _ _).
  - destruct (push _ _ _) as [[] s]; [done|]. unfold refuse. cbn. by rewrite H.
Qed.

(** ** A sweep *)

Lemma filter_past_drop s k x : in_order s -> s !! k = Some x -> filter (fun y => bytes_lt x.1 y.1 = true) s = drop (S k) s.
Proof.
  intros Hs. revert k. induction Hs as [|y s Hs IH Hy]; intros [|k] Hk; try done.
  - injection Hk as <-. cbn [drop]. rewrite filter_cons_False by (by rewrite bytes_lt_irrefl). rewrite drop_0.
    clear -Hy. induction s as [|z s IH]; [done|]. inversion Hy; subst. rewrite filter_cons_True by done. by rewrite IH.
  - cbn in Hk. cbn [drop]. rewrite filter_cons_False; [by apply IH|].
    rewrite Forall_forall in Hy. specialize (Hy x (list_elem_of_lookup_2 _ _ _ Hk)). intros Hb.
    pose proof (bytes_lt_trans _ _ _ Hy Hb) as H. by rewrite bytes_lt_irrefl in H.
Qed.

Lemma NoDup_wanted r l : NoDup l.*1 -> NoDup (wanted r l).*1.
Proof. intros Hnd. eapply sublist_NoDup; [exact Hnd|]. apply fmap_sublist, sublist_filter. Qed.

Lemma in_order_filter P `{!forall x, Decision (P x)} l : in_order l -> in_order (filter P l).
Proof.
  induction 1 as [|y s Hs IH Hy]; [constructor|]. rewrite filter_cons. destruct (decide _); [|done].
  constructor; [done|]. rewrite Forall_forall in *. intros z [_ Hz]%list_elem_of_filter. by apply Hy.
Qed.

(** What is left after a batch is what a batch resumed at its last name wants. *)
Lemma rest_of_sweep r l x : NoDup l.*1 -> sorted_names (wanted r l) !! (MAX_NAMES - 1)%nat = Some x ->
  sorted_names (wanted (After (name_of x.1)) l) = drop MAX_NAMES (sorted_names (wanted r l)).
Proof.
  intros Hnd Hx. destruct (sorted_names_spec (wanted r l) (NoDup_wanted r l Hnd)) as [Ho Hp].
  destruct (sorted_names_spec (wanted (After (name_of x.1)) l) (NoDup_wanted _ l Hnd)) as [Ho' Hp'].
  change (drop MAX_NAMES) with (drop (A:=list Z * bool) (S (MAX_NAMES - 1))). rewrite <- (filter_past_drop _ _ x Ho Hx). apply in_order_unique; [done|by apply in_order_filter|].
  rewrite Hp', Hp. unfold wanted. rewrite list_filter_filter.
  assert (Hxw : past r x.1 = true).
  { apply list_elem_of_lookup_2 in Hx. rewrite Hp in Hx. apply list_elem_of_filter in Hx as [[_ ?]%andb_true_iff _]. done. }
  match goal with |- ?a ≡ₚ ?b => cut (a = b); [by intros ->|] end. apply list_filter_iff. intros y. cbn [past]. rewrite as_bytes_name, !andb_true_iff.
  split; [intros [H1 H2]|naive_solver]. split; [done|]. split; [done|].
  destruct r as [|w]; [done|]. by apply (bytes_lt_trans _ x.1).
Qed.

(** One batch after another over the same listing, the way a sweep runs its
    line once per batch, until a batch says it was the last. *)
Fixpoint sweep (fuel : nat) (r : Resume) (l : list (list Z * bool)) : run (result ShellWords.Refusal (list (list (list Z * bool)))) :=
  match fuel with
  | O => Panicked
  | S f =>
      match finish_batch debug (offered r l) with
      | Done (Ok b) =>
          match batch_next b with
          | None => Done (Ok [iter (b_names b)])
          | Some r' =>
              match sweep f r' l with
              | Done (Ok bs) => Done (Ok (iter (b_names b) :: bs))
              | o => o
              end
          end
      | Done (Err x) => Done (Err x)
      | Panicked => Panicked
      end
  end.

(** The batches a list of names falls into. *)
Fixpoint eights (fuel : nat) (l : list (list Z * bool)) : list (list (list Z * bool)) :=
  match fuel with
  | O => []
  | S f => take MAX_NAMES l :: (if (MAX_NAMES <? length l)%nat then eights f (drop MAX_NAMES l) else [])
  end.

Lemma eights_concat fuel l : (length l < fuel)%nat -> mjoin (eights fuel l) = l.
Proof.
  revert l. induction fuel as [|f IH]; intros l Hl; [lia|]. cbn [eights].
  change (mjoin (?a :: ?b)) with (a ++ mjoin b). destruct (Nat.ltb_spec MAX_NAMES (length l)).
  - rewrite IH by (rewrite length_drop; unfold MAX_NAMES in *; lia). apply take_drop.
  - rewrite app_nil_r. apply take_ge. lia.
Qed.

Lemma eights_short fuel l : Forall (fun b => (length b <= MAX_NAMES)%nat) (eights fuel l).
Proof.
  revert l. induction fuel as [|f IH]; intros l; [constructor|]. cbn [eights]. constructor; [rewrite length_take; lia|].
  by destruct (_ <? _)%nat; [apply IH|constructor].
Qed.

Lemma last_name_spec l : last_name (set_of l) = fst <$> last l.
Proof.
  unfold last_name. cbn [set_of n names]. destruct l as [|y l _] using rev_ind; [done|].
  rewrite last_snoc, length_app, Nat.add_comm. cbn [length]. change (0 <? 1 + length l)%nat with true. cbv iota.
  replace (1 + length l - 1)%nat with (length l) by lia. unfold fill. rewrite fmap_app, <- (assoc_L app).
  cbn [fmap list_fmap app]. rewrite list_lookup_middle by by rewrite length_fmap. cbn. by rewrite as_bytes_name.
Qed.

Lemma collected_next r s : nameable s -> Forall (fun x => glob_matches p x.1 = true) s ->
  batch_next (MkBatch (set_ (collecting r s)) (more (collecting r s))) =
    if (MAX_NAMES <? length s)%nat then (fun x => After (name_of x.1)) <$> s !! (MAX_NAMES - 1)%nat else None.
Proof.
  intros Hn Hm. unfold batch_next. cbn [collecting set_ more b_more b_names]. destruct (Nat.ltb_spec MAX_NAMES (length s)) as [Hl|]; [|done].
  cbn [negb]. destruct (lookup_lt_is_Some_2 s (MAX_NAMES - 1)) as [x Hx]; [lia|]. rewrite Hx.
  rewrite last_name_spec. change MAX_NAMES with (S (MAX_NAMES - 1)) at 1. rewrite (take_S_r _ _ _ Hx), last_snoc. cbn.
  rewrite Name_new_spec. unfold nameable in Hn. rewrite Forall_lookup in Hn, Hm. by rewrite (Hn _ _ Hx (Hm _ _ Hx)).
Qed.

Lemma sorted_wanted r l : NoDup l.*1 -> nameable l ->
  nameable (sorted_names (wanted r l)) /\ Forall (fun x => glob_matches p x.1 = true) (sorted_names (wanted r l)).
Proof.
  intros Hnd Hn. destruct (sorted_names_spec (wanted r l) (NoDup_wanted r l Hnd)) as [_ Hp]. unfold nameable in *.
  rewrite Forall_forall in Hn. split; apply Forall_forall; intros x; rewrite Hp; intros [Hx Hin]%list_elem_of_filter; [by apply Hn|].
  by apply andb_true_iff in Hx as [? _].
Qed.

Lemma finish_collecting r l : NoDup l.*1 -> nameable l -> wanted r l <> [] ->
  finish_batch debug (offered r l) =
    Done (Ok (MkBatch (set_of (take MAX_NAMES (sorted_names (wanted r l)))) (MAX_NAMES <? length (sorted_names (wanted r l)))%nat)).
Proof.
  intros Hnd Hn Hw. rewrite offered_spec by done. unfold finish_batch. cbn [collecting resume refused set_ more is_none].
  rewrite andb_false_r. destruct (sorted_names_spec (wanted r l) (NoDup_wanted r l Hnd)) as [_ Hp].
  apply Permutation_length in Hp. unfold is_empty. cbn [set_of n]. rewrite length_take, Hp. destruct (wanted r l) as [|x w]; [done|].
  cbn [length]. by rewrite (proj2 (Nat.eqb_neq _ 0)) by (unfold MAX_NAMES; lia).
Qed.

Lemma sweep_spec fuel r l : NoDup l.*1 -> nameable l -> wanted r l <> [] -> (length (wanted r l) < fuel)%nat ->
  sweep fuel r l = Done (Ok (eights fuel (sorted_names (wanted r l)))).
Proof.
  revert r. induction fuel as [|f IH]; intros r Hnd Hn Hw Hf; [lia|]. cbn [sweep eights].
  rewrite finish_collecting by done. cbn [b_names]. rewrite iter_spec.
  destruct (sorted_wanted r l Hnd Hn) as [Hn' Hm']. pose proof (collected_next r _ Hn' Hm') as Hnext. cbn [collecting set_ more] in Hnext.
  rewrite Hnext. destruct (sorted_names_spec (wanted r l) (NoDup_wanted r l Hnd)) as [_ Hp].
  destruct (Nat.ltb_spec MAX_NAMES (length (sorted_names (wanted r l)))) as [Hl|Hl]; [|done].
  destruct (lookup_lt_is_Some_2 (sorted_names (wanted r l)) (MAX_NAMES - 1)) as [x Hx]; [lia|]. rewrite Hx. cbn [fmap option_fmap option_map].
  pose proof (rest_of_sweep r l x Hnd Hx) as Hrest. assert (Hlen := f_equal length Hrest).
  rewrite length_drop, Hp in Hlen. rewrite Hp in Hl.
  destruct (sorted_names_spec (wanted (After (name_of x.1)) l) (NoDup_wanted _ l Hnd)) as [_ Hp2]. rewrite Hp2 in Hlen.
  rewrite IH; [by rewrite Hrest|done|done| |].
  - intros H0. rewrite H0 in Hlen. cbn [length] in Hlen. lia.
  - unfold MAX_NAMES in *. lia.
Qed.

Lemma offers_stay_refused l e r : refused e = Some r -> refused (fold_left (fun e x => offer e x.1 x.2) l e) = Some r.
Proof. revert e. induction l as [|x l IH]; intros e H; [done|]. by apply IH, refused_stays. Qed.

(** An expander of a batch holds nameable names and refuses for one reason. *)
Definition batching (r : Resume) (e : Expander) : Prop :=
  pattern e = p /\ resume e = Some r /\ (refused e = None \/ refused e = Some ShellWords.MatchNotNameable) /\
  exists s, set_ e = set_of s /\ (length s <= MAX_NAMES)%nat /\ Forall (fun x => file_name_fits x.1 = true) s.

Lemma offer_batching r e x : batching r e -> batching r (offer e x.1 x.2).
Proof.
  intros (Hp & Hr & Href & s & Hs & Hl & Hf). unfold offer. destruct (_ || _); [by repeat (split; [done|]); eauto|].
  destruct (file_name_fits x.1) eqn:Hx; cbn [negb].
  - rewrite Hr, past_spec, Name_new_spec, Hx, Hs. destruct (past r x.1); [|by repeat (split; [done|]); eauto]. cbn [negb].
    rewrite keep_smallest_spec by done. rewrite <- surjective_pairing.
    split; [done|]. split; [done|]. split; [done|]. eexists. split; [reflexivity|]. split; [rewrite length_take; lia|].
    apply Forall_take. rewrite ins_perm. by constructor.
  - split; [done|]. split; [done|]. split; [right; unfold refuse; cbn; by destruct Href as [-> | ->]|]. eauto.
Qed.

Lemma offers_batching r l e : batching r e -> batching r (fold_left (fun e x => offer e x.1 x.2) l e).
Proof. revert e. induction l as [|x l IH]; intros e H; [done|]. by apply IH, offer_batching. Qed.

Lemma offer_unnameable r e x : batching r e -> glob_matches p x.1 = true -> file_name_fits x.1 = false ->
  refused (offer e x.1 x.2) = Some ShellWords.MatchNotNameable.
Proof.
  intros (Hp & _ & Href & s & Hs & _ & Hf) Hm Hx. unfold offer. rewrite Hp, Hm, Hs, contains_spec, Hx.
  rewrite bool_decide_false; [unfold refuse; cbn; by destruct Href as [-> | ->]|].
  intros (y & Hy & Hin)%list_elem_of_fmap. rewrite Forall_forall in Hf. specialize (Hf y Hin). congruence.
Qed.

Lemma sweep_refuses fuel l x : x ∈ l -> glob_matches p x.1 = true -> file_name_fits x.1 = false ->
  sweep (S fuel) Start l = Done (Err ShellWords.MatchNotNameable).
Proof.
  intros (l1 & l2 & ->)%list_elem_of_split Hm Hx. cbn [sweep]. unfold offered. rewrite fold_left_app. cbn [fold_left].
  assert (Hb : batching Start (expander_batch p Start)).
  { repeat (split; [by auto|]). exists []. split; [done|]. split; [cbn; lia|constructor]. }
  pose proof (offers_batching Start l1 _ Hb) as Hb1. pose proof (offer_unnameable Start _ x Hb1 Hm Hx) as Hr.
  pose proof (offers_batching Start l2 _ (offer_batching _ _ x Hb1)) as (_ & Hres & _).
  apply (offers_stay_refused l2) in Hr. unfold finish_batch. rewrite Hres, Hr. cbn [is_none]. by rewrite andb_false_r.
Qed.
End Batches.

(** C40: A sweep terminates, and its batches hold every name the pattern matches
    exactly once, in byte order, at most eight to a batch, whatever order the
    directory lists its names in; no debug assertion fires. When some match
    cannot travel in a grant the sweep is refused before anything is handed
    over, and a pattern that matches nothing is refused as such. *)
Theorem batches_cover_every_match debug p l :
  NoDup l.*1 ->
  (Forall (fun x => glob_matches p x.1 = true -> file_name_fits x.1 = true) l ->
   forall x, x ∈ l -> glob_matches p x.1 = true ->
   exists bs, sweep debug p (S (length l)) Start l = Done (Ok bs) /\
     mjoin bs ≡ₚ filter (fun y => glob_matches p y.1 = true) l /\
     StronglySorted before (mjoin bs) /\ Forall (fun b => (length b <= MAX_NAMES)%nat) bs) /\
  (forall x, x ∈ l -> glob_matches p x.1 = true -> file_name_fits x.1 = false ->
   sweep debug p (S (length l)) Start l = Done (Err ShellWords.MatchNotNameable)) /\
  (Forall (fun x => glob_matches p x.1 = false) l -> sweep debug p (S (length l)) Start l = Done (Err ShellWords.NoMatch)).
Proof.
  intros Hnd. split; [|split]; [|intros x; apply sweep_refuses|].
  - intros Hn x Hx Hm. assert (Hw : wanted p Start l = filter (fun y => glob_matches p y.1 = true) l).
    { apply list_filter_iff. intros y. cbn [past]. by rewrite andb_true_r. }
    assert (Hlen : (length (wanted p Start l) < S (length l))%nat) by (pose proof (length_filter (fun y => glob_matches p y.1 && past Start y.1 = true) l); unfold wanted; lia).
    exists (eights (S (length l)) (sorted_names (wanted p Start l))).
    destruct (sorted_names_spec (wanted p Start l) (NoDup_wanted p Start l Hnd)) as [Ho Hp].
    rewrite eights_concat by (by rewrite Hp). split; [|split; [by rewrite Hp, Hw|split; [exact Ho|]]].
    + apply sweep_spec; [done|done| |done]. intros H0. rewrite Hw in H0. by apply (filter_nil_not_elem_of _ _ x H0).
    + apply eights_short.
  - intros Hno. cbn [sweep]. rewrite offered_spec; [|done|eapply Forall_impl; [exact Hno|]; cbn; congruence].
    replace (wanted p Start l) with (@nil (list Z * bool)); [by destruct debug|].
    symmetry. clear -Hno. unfold wanted. induction Hno as [|y l Hy _ IH]; [done|]. rewrite filter_cons_False; [exact IH|]. by rewrite Hy.
Qed.

Lemma batches_cover_every_match_witness : exists bs, sweep true (lit "*.rs") 13 Start
     ((fun c => (c :: lit ".rs", false)) <$> [108; 107; 106; 105; 104; 103; 102; 101; 100; 99; 98; 97]) = Done (Ok bs) /\
     mjoin bs ≡ₚ filter (fun y => glob_matches (lit "*.rs") y.1 = true)
       ((fun c => (c :: lit ".rs", false)) <$> [108; 107; 106; 105; 104; 103; 102; 101; 100; 99; 98; 97]) /\
     StronglySorted before (mjoin bs) /\ Forall (fun b => (length b <= MAX_NAMES)%nat) bs.
Proof.
  pose proof (batches_cover_every_match true (lit "*.rs")
    ((fun c => (c :: lit ".rs", false)) <$> [108; 107; 106; 105; 104; 103; 102; 101; 100; 99; 98; 97]) ltac:(apply (bool_decide_unpack _); vm_compute; exact I)) as [H _].
  apply (H ltac:(repeat constructor) (97 :: lit ".rs", false)); [apply (bool_decide_unpack _); vm_compute; exact I|vm_compute; reflexivity].
Defined.
End NameSets.
