(* ===== verification/SubtreeScope.v ===== *)
(** * Subtree grants (crates/subtree_scope, and the directory rights of
    crates/filesystem_protocol)

    Which names a path may hold, how a walk descends, which handles a badge
    may use, and how badges are bound and revoked. The server's [lookup] is a
    parameter: it reads and may change the server's state [S], fails with the
    server's error type, and finds a name in a directory. Bytes are [Z]. *)

From S2P Require Import Prelude.
Local Open Scope Z_scope.

Module SubtreeScope.

(** ** Directory rights (filesystem_protocol::dir) *)

Definition ENUMERATE : Z := Z.shiftl 1 0.
Definition READ : Z := Z.shiftl 1 1.
Definition WRITE : Z := Z.shiftl 1 2.
Definition CREATE : Z := Z.shiftl 1 3.
Definition REMOVE : Z := Z.shiftl 1 4.
Definition DESCEND : Z := Z.shiftl 1 5.
Definition SETTIME : Z := Z.shiftl 1 6.
Definition ALL : Z :=
  Z.lor (Z.lor (Z.lor (Z.lor (Z.lor (Z.lor ENUMERATE READ) WRITE) CREATE) REMOVE) DESCEND) SETTIME.

Record Rights := MkRights { bits : Z }.
#[export] Instance Rights_eq_dec : EqDecision Rights.
Proof. solve_decision. Defined.

(** [Rights::root], the only way to make a set out of a mask. *)
Definition root (mask : Z) : Rights := MkRights (Z.land mask ALL).
Definition attenuate (r : Rights) (requested : Z) : Rights := MkRights (Z.land (bits r) requested).
Definition allows (r : Rights) (needed : Z) : bool := Z.land (bits r) needed =? needed.
Definition denies_all (r : Rights) (any : Z) : bool := Z.land (bits r) any =? 0.

(** ** Refusals and kinds *)

Inductive Refusal :=
  | Malformed | NotFound | NotADirectory | Narrowed | Symlink | MountCrossing | NotYours | Refused.
#[export] Instance Refusal_eq_dec : EqDecision Refusal.
Proof. solve_decision. Defined.

Definition errno (r : Refusal) : Z :=
  match r with
  | Malformed => 22
  | NotFound => 2
  | NotADirectory => 20
  | Narrowed | Refused => 1
  | Symlink => 40
  | MountCrossing => 18
  | NotYours => 9
  end.

Module Kind.
Inductive t := Directory | File | Symlink | MountPoint.
#[global] Instance t_eq_dec : EqDecision t.
Proof. solve_decision. Defined.
End Kind.

(** ** Paths *)

Definition SLASH : Z := 47.
Definition DOT : Z := 46.

(** [c.contains(&b)]. *)
Definition contains (c : list Z) (b : Z) : bool := existsb (Z.eqb b) c.

Definition is_name (c : list Z) : bool :=
  negb (bool_decide (c = [])) && negb (bool_decide (c = [DOT])) &&
  negb (bool_decide (c = [DOT; DOT])) && negb (contains c SLASH) && negb (contains c 0).

(** [slice.split(|&b| b == sep)]: always at least one piece. *)
Fixpoint split (sep : Z) (l : list Z) : list (list Z) :=
  match l with
  | [] => [[]]
  | x :: l' =>
      if x =? sep then [] :: split sep l'
      else match split sep l' with
           | w :: ws => (x :: w) :: ws
           | [] => [[x]]
           end
  end.

(** [iter().rposition(p)]: the last index that satisfies [p]. *)
Fixpoint rposition (p : Z -> bool) (l : list Z) : option nat :=
  match l with
  | [] => None
  | x :: l' => match rposition p l' with
               | Some i => Some (S i)
               | None => if p x then Some 0%nat else None
               end
  end.

Definition check_path (path : list Z) : result Refusal unit :=
  if forallb is_name (split SLASH path) then Ok tt else Err Malformed.

Definition landing (kind : Kind.t) (want_dir : bool) : result Refusal unit :=
  match kind, want_dir with
  | Kind.Symlink, _ => Err Symlink
  | Kind.MountPoint, _ => Err MountCrossing
  | Kind.Directory, true | Kind.File, false => Ok tt
  | Kind.File, true => Err NotADirectory
  | Kind.Directory, false => Err Malformed
  end.

Section walk.
Context {S N E : Type} (from : Refusal -> E).
Context (lookup : N -> list Z -> S -> S * result E (N * Kind.t)).

(** The loop of [walk] over the names before the last. *)
Fixpoint walk_steps (hop : Z) (steps : list (list Z)) (node : N) (rights : Rights) (s : S)
    : S * result E (N * Rights) :=
  match steps with
  | [] => (s, Ok (node, rights))
  | step :: steps' =>
      if negb (allows rights DESCEND) then (s, Err (from NotFound)) else
      match lookup node step s with
      | (s', Err e) => (s', Err e)
      | (s', Ok (child, kind)) =>
          match landing kind true with
          | Err r => (s', Err (from r))
          | Ok _ =>
              let asked := Z.lor DESCEND hop in
              let granted := attenuate rights asked in
              if bool_decide (granted <> root asked) then (s', Err (from Narrowed))
              else walk_steps hop steps' child granted s'
          end
      end
  end.

Definition walk (start : N) (rights : Rights) (path : list Z) (hop : Z) (s : S)
    : S * result E (N * Rights * list Z) :=
  match check_path path with
  | Err r => (s, Err (from r))
  | Ok _ =>
      match rposition (Z.eqb SLASH) path with
      | None => (s, Ok (start, rights, path))
      | Some i =>
          match walk_steps hop (split SLASH (take i path)) start rights s with
          | (s', Ok (node, rights')) => (s', Ok (node, rights', drop (i + 1) path))
          | (s', Err e) => (s', Err e)
          end
      end
  end.

(** The hop-by-hop descent a client could have sent itself: one directory per
    name, each open needing [DESCEND] on its parent and carrying exactly what
    it asked for. *)
Inductive descends (hop : Z) : list (list Z) -> N -> Rights -> S -> N -> Rights -> S -> Prop :=
  | descends_here n r s : descends hop [] n r s n r s
  | descends_step name names n r s child s1 n' r' s' :
      is_name name = true ->
      allows r DESCEND = true ->
      lookup n name s = (s1, Ok (child, Kind.Directory)) ->
      attenuate r (Z.lor DESCEND hop) = root (Z.lor DESCEND hop) ->
      descends hop names child (attenuate r (Z.lor DESCEND hop)) s1 n' r' s' ->
      descends hop (name :: names) n r s n' r' s'.

End walk.

(** The directories below [n] in a tree, reached by names that are
    directories in it. *)
Inductive below {N : Type} (tree : N -> list Z -> option (N * Kind.t)) : N -> N -> Prop :=
  | below_refl n : below tree n n
  | below_step n name child n' :
      is_name name = true -> tree n name = Some (child, Kind.Directory) ->
      below tree child n' -> below tree n n'.

(** [lookup] answers only what is in [tree], whatever state the server is in. *)
Definition reports {S N E : Type} (lookup : N -> list Z -> S -> S * result E (N * Kind.t))
    (tree : N -> list Z -> option (N * Kind.t)) : Prop :=
  forall n name s s' found, lookup n name s = (s', Ok found) -> tree n name = Some found.

(** ** Badges *)

Inductive Binding := Open | Bound (root : Z) | Revoked.
#[export] Instance Binding_eq_dec : EqDecision Binding.
Proof. solve_decision. Defined.

(** filesystem_protocol::fs::ROOT. *)
Definition ROOT : Z := 0.

Definition admit_handle (binding : Binding) (badge requested : Z) (owner : option Z) : result Refusal Z :=
  match binding with
  | Open => Ok requested
  | Revoked => Err NotYours
  | Bound r =>
      if requested =? ROOT then Ok r
      else if bool_decide (owner = Some badge) then Ok requested
      else Err NotYours
  end.

(** [Bindings<B>]: the array, whose length is [B]. *)
Record Bindings := MkBindings { state : list Binding }.

Definition new (B : nat) : Bindings := MkBindings (replicate B Open).

Definition index (t : Bindings) (badge : Z) : nat :=
  if badge <? Z.of_nat (length (state t)) then Z.to_nat badge else 0%nat.

Definition binding_of (t : Bindings) (badge : Z) : run Binding :=
  if negb (badge =? 0) && (Z.of_nat (length (state t)) <=? badge) then Done Revoked
  else match index t badge with
       | O => Done Open
       | i => match state t !! i with Some b => Done b | None => Panicked end
       end.

Definition is_bound (b : Binding) : bool := match b with Bound _ => true | _ => false end.

Definition bind (t : Bindings) (caller badge r : Z) : run (result Refusal unit * Bindings) :=
  c ← binding_of t caller;
  if bool_decide (c <> Open) then Done (Err Refused, t) else
  match index t badge with
  | O => Done (Err Refused, t)
  | i =>
      match state t !! i with
      | None => Panicked
      | Some b =>
          if is_bound b then Done (Err Refused, t)
          else Done (Ok tt, MkBindings (<[i := Bound r]> (state t)))
      end
  end.

Definition unbind (t : Bindings) (caller badge : Z) : run (result Refusal Z * Bindings) :=
  c ← binding_of t caller;
  if bool_decide (c <> Open) then Done (Err Refused, t) else
  let i := index t badge in
  match state t !! i with
  | None => Panicked
  | Some (Bound r) =>
      if bool_decide (i <> 0%nat) then Done (Ok r, MkBindings (<[i := Revoked]> (state t)))
      else Done (Err Refused, t)
  | Some _ => Done (Err Refused, t)
  end.

(** ** Splitting a path *)

Lemma split_cons_inv sep l : exists w ws, split sep l = w :: ws.
Proof.
  induction l as [|x l (w & ws & IH)]; simpl; [eauto|].
  rewrite IH. destruct (x =? sep); eauto.
Qed.

Lemma split_none sep l : contains l sep = false -> split sep l = [l].
Proof.
  induction l as [|x l IH]; simpl; [done|].
  rewrite orb_false_iff. intros [Hx Hl]. rewrite Z.eqb_sym, Hx, IH; done.
Qed.

Lemma split_at sep l1 l2 : split sep (l1 ++ sep :: l2) = split sep l1 ++ split sep l2.
Proof.
  induction l1 as [|x l1 IH]; simpl; [by rewrite Z.eqb_refl|].
  destruct (x =? sep); [by rewrite IH|].
  rewrite IH. destruct (split_cons_inv sep l1) as (w & ws & ->). done.
Qed.

Lemma rposition_None p l : rposition p l = None -> existsb p l = false.
Proof.
  induction l as [|x l IH]; simpl; [done|].
  destruct (rposition p l); [done|]. destruct (p x); [done|]. auto.
Qed.

Lemma rposition_Some sep l i :
  rposition (Z.eqb sep) l = Some i ->
  l = take i l ++ sep :: drop (i + 1) l /\ contains (drop (i + 1) l) sep = false.
Proof.
  revert i. induction l as [|x l IH]; intros i Hi; simpl in Hi; [done|].
  destruct (rposition (Z.eqb sep) l) as [k|] eqn:Hk; simplify_eq.
  - destruct (IH k eq_refl) as [Hl Hn]. simpl. split; [by f_equal|done].
  - destruct (Z.eqb_spec sep x); simplify_eq. simpl. rewrite drop_0. split; [done|].
    by apply rposition_None.
Qed.

(** The names of a path: all but the last are walked through. *)
Lemma split_last path :
  match rposition (Z.eqb SLASH) path with
  | None => split SLASH path = [path]
  | Some i => split SLASH path = split SLASH (take i path) ++ [drop (i + 1) path]
  end.
Proof.
  destruct (rposition (Z.eqb SLASH) path) as [i|] eqn:Hi.
  - destruct (rposition_Some _ _ _ Hi) as [Hl Hn].
    rewrite Hl at 1. by rewrite split_at, (split_none _ (drop _ _)).
  - apply split_none. by apply rposition_None.
Qed.

Lemma check_path_ok path : check_path path = Ok tt <-> forallb is_name (split SLASH path) = true.
Proof. unfold check_path. destruct (forallb _ _); split; congruence. Qed.

Lemma check_path_cases path :
  check_path path = if forallb is_name (split SLASH path) then Ok tt else Err Malformed.
Proof. done. Qed.

(** ** The walk is the descent *)

Section walk_facts.
Context {S N E : Type} (from : Refusal -> E).
Context (lookup : N -> list Z -> S -> S * result E (N * Kind.t)).

Lemma landing_directory kind : landing kind true = Ok tt <-> kind = Kind.Directory.
Proof. by destruct kind. Qed.

Lemma walk_steps_descends hop steps n r s n' r' s' :
  forallb is_name steps = true ->
  walk_steps from lookup hop steps n r s = (s', Ok (n', r')) <->
  descends lookup hop steps n r s n' r' s'.
Proof.
  revert n r s. induction steps as [|step steps IH]; intros n r s Hn; simpl.
  - split; [intros; simplify_eq; constructor | by inversion 1].
  - simpl in Hn. apply andb_true_iff in Hn as [Hname Hn]. split.
    + destruct (allows r DESCEND) eqn:Ha; [|done]. simpl.
      destruct (lookup n step s) as [s1 [[child kind]|]] eqn:Hl; [|done].
      destruct (landing kind true) as [[]|] eqn:Hk; [|done]. apply landing_directory in Hk as ->.
      case_bool_decide as Hg; [done|]. intros Hw. econstructor; [done|done|done| |by apply IH].
      destruct (decide (attenuate r (Z.lor DESCEND hop) = root (Z.lor DESCEND hop))); [done | by destruct Hg].
    + inversion 1 as [|? ? ? ? ? child s1 ? ? ? ? Ha Hl Hg Hd]; subst.
      rewrite Ha, Hl. simpl. rewrite bool_decide_false by (intros Hx; by apply Hx).
      by apply IH.
Qed.

Lemma walk_iff start r path hop s n' r' last s' :
  walk from lookup start r path hop s = (s', Ok (n', r', last)) <->
  forallb is_name (split SLASH path) = true /\
  exists names, split SLASH path = names ++ [last] /\
                descends lookup hop names start r s n' r' s'.
Proof.
  unfold walk. rewrite check_path_cases.
  destruct (forallb is_name (split SLASH path)) eqn:Hall; [|split; [done | by intros [? _]]].
  pose proof (split_last path) as Hs.
  destruct (rposition (Z.eqb SLASH) path) as [i|] eqn:Hi.
  - rewrite Hs in Hall. rewrite forallb_app in Hall. apply andb_true_iff in Hall as [Hall _].
    destruct (walk_steps from lookup hop (split SLASH (take i path)) start r s) as [s1 res] eqn:Hw.
    split.
    + destruct res as [[n1 r1]|]; [|done]. intros; simplify_eq. split; [done|].
      exists (split SLASH (take i path)). split; [done|]. by apply (walk_steps_descends hop).
    + intros [_ (names & Heq & Hd)]. rewrite Hs in Heq. apply app_inj_tail in Heq as [<- <-].
      apply walk_steps_descends in Hd; [|done]. rewrite Hw in Hd. by simplify_eq.
  - split.
    + intros; simplify_eq. split; [done|]. exists []. split; [done|constructor].
    + intros [_ (names & Heq & Hd)]. rewrite Hs in Heq.
      destruct names as [|? [|? ?]]; simplify_eq/=. by inversion Hd.
Qed.

Lemma descends_rights hop names n r s n' r' s' :
  descends lookup hop names n r s n' r' s' ->
  Z.land (bits r') (bits r) = bits r' /\ (names <> [] -> r' = root (Z.lor DESCEND hop)).
Proof.
  induction 1 as [|name names n r s child s1 n' r' s' Hname Ha Hl Hg Hd [IH1 IH2]].
  - split; [apply Z.land_diag | done].
  - split.
    + apply Z.bits_inj'. intros i Hi. apply (f_equal (fun x => Z.testbit x i)) in IH1. simpl in IH1.
      rewrite !Z.land_spec in *. destruct (Z.testbit (bits r') i), (Z.testbit (bits r) i); by simpl in *.
    + intros _. destruct names; [|by apply IH2]. inversion Hd; by subst.
Qed.

Lemma descends_below tree hop names n r s n' r' s' :
  reports lookup tree -> descends lookup hop names n r s n' r' s' -> below tree n n'.
Proof. intros Hr. induction 1; [constructor | econstructor; eauto]. Qed.

End walk_facts.

(** ** Bindings over any sequence of binds and unbinds *)

Inductive BindingOp := OpBind (caller badge r : Z) | OpUnbind (caller badge : Z).

Definition op_caller (o : BindingOp) : Z :=
  match o with OpBind c _ _ => c | OpUnbind c _ => c end.

Definition binding_op (t : Bindings) (o : BindingOp) : run Bindings :=
  match o with
  | OpBind c b r => res ← bind t c b r; Done res.2
  | OpUnbind c b => res ← unbind t c b; Done res.2
  end.

Definition binding_ops (t : Bindings) (ops : list BindingOp) : run Bindings :=
  foldl (fun rt o => t' ← rt; binding_op t' o) (Done t) ops.

(** What a badge is, as a total function: badge 0 open, a badge with no slot
    revoked, any other its slot. *)
Definition slot_of (t : Bindings) (badge : Z) : Binding :=
  if badge =? 0 then Open else default Revoked (state t !! Z.to_nat badge).

Lemma binding_of_slot t badge :
  0 <= badge -> binding_of t badge = Done (slot_of t badge).
Proof.
  intros Hb. unfold binding_of, slot_of, index.
  destruct (Z.eqb_spec badge 0) as [->|Hnz]; simpl.
  - by destruct (0 <? _).
  - destruct (Z.leb_spec (Z.of_nat (length (state t))) badge) as [Hge|Hlt].
    + by rewrite lookup_ge_None_2 by lia.
    + destruct (Z.ltb_spec badge (Z.of_nat (length (state t)))); [|lia].
      destruct (Z.to_nat badge) as [|i] eqn:Hi; [lia|].
      destruct (lookup_lt_is_Some_2 (state t) (Datatypes.S i)) as [x Hx]; [lia|]. by rewrite Hx.
Qed.

(** What one accepted operation does to the table. *)
Inductive binding_step (t : Bindings) : BindingOp -> Bindings -> Prop :=
  | step_same o : binding_step t o t
  | step_bind caller badge r :
      slot_of t caller = Open -> badge <> 0 -> is_bound (slot_of t badge) = false ->
      (Z.to_nat badge < length (state t))%nat ->
      binding_step t (OpBind caller badge r) (MkBindings (<[Z.to_nat badge := Bound r]> (state t)))
  | step_unbind caller badge r :
      slot_of t caller = Open -> badge <> 0 -> slot_of t badge = Bound r ->
      (Z.to_nat badge < length (state t))%nat ->
      binding_step t (OpUnbind caller badge) (MkBindings (<[Z.to_nat badge := Revoked]> (state t))).

Definition op_badge (o : BindingOp) : Z :=
  match o with OpBind _ b _ => b | OpUnbind _ b => b end.
Definition op_wf (o : BindingOp) : Prop := 0 <= op_caller o /\ 0 <= op_badge o.

Lemma index_nonzero t badge :
  0 <= badge -> index t badge <> 0%nat ->
  index t badge = Z.to_nat badge /\ badge <> 0 /\ (Z.to_nat badge < length (state t))%nat.
Proof.
  intros Hb. unfold index. destruct (Z.ltb_spec badge (Z.of_nat (length (state t)))); [|done].
  intros. split_and!; [done|lia|lia].
Qed.

(** What [bind] and [unbind] can do. *)
Lemma bind_cases t c b r :
  0 <= c -> 0 <= b ->
  (exists e, bind t c b r = Done (Err e, t)) \/
  (bind t c b r = Done (Ok tt, MkBindings (<[Z.to_nat b := Bound r]> (state t))) /\
   slot_of t c = Open /\ b <> 0 /\ is_bound (slot_of t b) = false /\ (Z.to_nat b < length (state t))%nat).
Proof.
  intros Hc Hb. unfold bind. rewrite (binding_of_slot t c Hc). cbn [mbind run_bind].
  case_bool_decide as Ho; [by left; eexists|].
  assert (slot_of t c = Open) by (destruct (decide (slot_of t c = Open)); [done|by destruct Ho]).
  destruct (index t b) as [|i] eqn:Hi; [by left; eexists|].
  destruct (index_nonzero t b Hb) as (Hidx & Hnz & Hlt); [lia|]. rewrite <- Hi, Hidx.
  destruct (lookup_lt_is_Some_2 (state t) (Z.to_nat b) Hlt) as [x Hx]. rewrite Hx.
  assert (Hs : slot_of t b = x) by (unfold slot_of; destruct (Z.eqb_spec b 0); [lia|by rewrite Hx]).
  destruct (is_bound x) eqn:Hbx; [by left; eexists|]. right. rewrite Hs. by split_and!.
Qed.

Lemma unbind_cases t c b :
  (0 < length (state t))%nat -> 0 <= c -> 0 <= b ->
  (exists e, unbind t c b = Done (Err e, t)) \/
  (exists r, unbind t c b = Done (Ok r, MkBindings (<[Z.to_nat b := Revoked]> (state t))) /\
   slot_of t c = Open /\ b <> 0 /\ slot_of t b = Bound r /\ (Z.to_nat b < length (state t))%nat).
Proof.
  intros Hlen Hc Hb. unfold unbind. rewrite (binding_of_slot t c Hc). cbn [mbind run_bind].
  case_bool_decide as Ho; [by left; eexists|].
  assert (slot_of t c = Open) by (destruct (decide (slot_of t c = Open)); [done|by destruct Ho]).
  destruct (lookup_lt_is_Some_2 (state t) (index t b)) as [x Hx].
  { unfold index. destruct (Z.ltb_spec b (Z.of_nat (length (state t)))); lia. }
  rewrite Hx. destruct x as [|r|]; [by left; eexists| |by left; eexists].
  case_bool_decide as Hi; [|by left; eexists].
  destruct (index_nonzero t b Hb Hi) as (Hidx & Hnz & Hlt). rewrite Hidx in *.
  right. exists r. split_and!; [done|done|done| |done].
  unfold slot_of. destruct (Z.eqb_spec b 0); [lia|by rewrite Hx].
Qed.

Lemma binding_op_step t o :
  (0 < length (state t))%nat -> op_wf o ->
  exists t', binding_op t o = Done t' /\ binding_step t o t'.
Proof.
  intros Hlen [Hc Hb]. destruct o as [c b r|c b]; simpl in *.
  - destruct (bind_cases t c b r Hc Hb) as [[e ->]|(-> & ? & ? & ? & ?)]; (eexists; split; [done|]); by constructor.
  - destruct (unbind_cases t c b Hlen Hc Hb) as [[e ->]|(r & -> & ? & ? & ? & ?)]; (eexists; split; [done|]).
    + constructor.
    + by eapply step_unbind.
Qed.

Lemma binding_step_len t o t' : binding_step t o t' -> length (state t') = length (state t).
Proof. destruct 1; simpl; rewrite ?length_insert; done. Qed.

Lemma slot_of_insert t b x badge :
  0 <= b -> b <> 0 -> 0 <= badge -> (Z.to_nat b < length (state t))%nat ->
  slot_of (MkBindings (<[Z.to_nat b := x]> (state t))) badge =
    if decide (badge = b) then x else slot_of t badge.
Proof.
  intros. unfold slot_of; simpl. destruct (decide (badge = b)) as [->|].
  - destruct (Z.eqb_spec b 0); [lia|]. by rewrite list_lookup_insert_eq by lia.
  - destruct (Z.eqb_spec badge 0); [done|]. by rewrite list_lookup_insert_ne by lia.
Qed.

Lemma binding_step_keeps_scoped t o t' badge :
  op_wf o -> 0 <= badge -> binding_step t o t' -> slot_of t badge <> Open -> slot_of t' badge <> Open.
Proof.
  intros [_ Hb] Hbd Hst Hs. destruct Hst as [|? b ? ? ? ? ?|? b ? ? ? ? ?]; simpl in *; [done| |];
    rewrite slot_of_insert by done; by case_decide.
Qed.

Lemma binding_step_by_open t o t' badge :
  op_wf o -> 0 <= badge -> binding_step t o t' -> slot_of t' badge <> slot_of t badge ->
  slot_of t (op_caller o) = Open /\ op_badge o = badge.
Proof.
  intros [_ Hb] Hbd Hst Hs. destruct Hst as [|? b ? ? ? ? ?|? b ? ? ? ? ?]; simpl in *; [done| |];
    rewrite slot_of_insert in Hs by done; by case_decide; subst.
Qed.

Lemma binding_ops_cons t o ops t' :
  binding_op t o = Done t' -> binding_ops t (o :: ops) = binding_ops t' ops.
Proof. intros H. unfold binding_ops. simpl. by rewrite H. Qed.

Lemma binding_ops_total t ops :
  (0 < length (state t))%nat -> Forall op_wf ops ->
  exists t', binding_ops t ops = Done t' /\ length (state t') = length (state t) /\
    (forall badge, 0 <= badge -> slot_of t badge <> Open -> slot_of t' badge <> Open).
Proof.
  revert t. induction ops as [|o ops IH]; intros t Hlen Hwf; [by exists t|].
  apply Forall_cons in Hwf as [Ho Hwf].
  destruct (binding_op_step t o Hlen Ho) as (t1 & Hop & Hst).
  pose proof (binding_step_len _ _ _ Hst) as Hl.
  destruct (IH t1) as (t' & Ht' & Hl' & Hk); [lia|done|]. exists t'. split_and!; [|lia|].
  - by rewrite (binding_ops_cons _ _ _ _ Hop).
  - intros badge Hb Hs. apply Hk; [done|]. by apply (binding_step_keeps_scoped t o t1).
Qed.

(** ** Main theorems *)

(** Resolving a path in one request is exactly the hop-by-hop descent the
    client could have asked for: [walk] succeeds with a node, rights and a last
    name if and only if every component is a name, and opening the directories
    before the last one at a time, each needing [DESCEND] on its parent and
    carrying exactly what it asked for, ends at that node with those rights and
    that server state. *)
Theorem walk_is_hop_by_hop {S N E : Type} (from : Refusal -> E)
    (lookup : N -> list Z -> S -> S * result E (N * Kind.t)) start r path hop s n' r' last s' :
  walk from lookup start r path hop s = (s', Ok (n', r', last)) <->
  forallb is_name (split SLASH path) = true /\
  exists names, split SLASH path = names ++ [last] /\
                descends lookup hop names start r s n' r' s'.
Proof. apply walk_iff. Qed.

(** A walk never leaves the granted directory: where it stops is reached
    from the start by names that are directories only (so no [..], no symbolic
    link and no mount point is ever passed), it carries no right the start did
    not carry, and the name it hands back is one name. A path with a component
    that is not a name is refused before the file system is asked anything. *)
Theorem walk_never_leaves_the_grant {S N E : Type} (from : Refusal -> E)
    (lookup : N -> list Z -> S -> S * result E (N * Kind.t)) tree start r path hop s :
  reports lookup tree ->
  match walk from lookup start r path hop s with
  | (_, Ok (n', r', last)) =>
      below tree start n' /\ Z.land (bits r') (bits r) = bits r' /\ is_name last = true
  | (s', Err e) =>
      forallb is_name (split SLASH path) = false -> s' = s /\ e = from Malformed
  end.
Proof.
  intros Hrep. destruct (walk from lookup start r path hop s) as [s' [[[n' r'] last]|e]] eqn:Hw.
  - apply walk_iff in Hw as (Hall & names & Heq & Hd). split_and!.
    + by eapply descends_below.
    + by apply (descends_rights _ _ _ _ _ _ _ _ _ Hd).
    + rewrite Heq, forallb_app in Hall. apply andb_true_iff in Hall as [_ Hall].
      simpl in Hall. by rewrite andb_true_r in Hall.
  - intros Hn. unfold walk in Hw. rewrite check_path_cases, Hn in Hw. by simplify_eq.
Qed.

(** A small tree: [a/b] are directories, [f] a file, [l] a link, [m] a mount. *)
Definition demo_tree (n : Z) (name : list Z) : option (Z * Kind.t) :=
  if bool_decide (n = 0 /\ name = [97]) then Some (1, Kind.Directory)
  else if bool_decide (n = 1 /\ name = [98]) then Some (2, Kind.Directory)
  else if bool_decide (n = 0 /\ name = [102]) then Some (3, Kind.File)
  else if bool_decide (n = 0 /\ name = [108]) then Some (4, Kind.Symlink)
  else if bool_decide (n = 0 /\ name = [109]) then Some (5, Kind.MountPoint)
  else None.

Definition demo_lookup (n : Z) (name : list Z) (s : unit) : unit * result Refusal (Z * Kind.t) :=
  (s, match demo_tree n name with Some c => Ok c | None => Err NotFound end).

Lemma walk_never_leaves_the_grant_witness :
  walk (fun r => r) demo_lookup 0 (root ALL) [97; 47; 98; 47; 120] READ tt
    = (tt, Ok (2, root (Z.lor DESCEND READ), [120])) /\
  walk (fun r => r) demo_lookup 0 (root ALL) [97; 47; 46; 46; 47; 120] READ tt = (tt, Err Malformed) /\
  walk (fun r => r) demo_lookup 0 (root ALL) [108; 47; 120] READ tt = (tt, Err Symlink) /\
  below demo_tree 0 2.
Proof.
  split_and!; [by vm_compute | by vm_compute | by vm_compute |].
  pose proof (walk_never_leaves_the_grant (fun r => r) demo_lookup demo_tree 0 (root ALL)
    [97; 47; 98; 47; 120] READ tt) as H.
  refine (proj1 (H _)). intros n name s s' found. unfold demo_lookup.
  destruct (demo_tree n name); intros; by simplify_eq.
Defined.

(** Once a badge is bound it is never open again, over any sequence of
    binds and unbinds by any callers: the operations never panic, the badge
    stays bound or revoked, and every handle it is admitted to is the root of
    its own grant or a handle it minted itself. *)
Theorem bound_badge_never_open_again B ops1 ops2 badge r t1 :
  (0 < B)%nat -> 0 <= badge -> Forall op_wf (ops1 ++ ops2) ->
  binding_ops (new B) ops1 = Done t1 -> binding_of t1 badge = Done (Bound r) ->
  exists t2 b, binding_ops t1 ops2 = Done t2 /\ binding_of t2 badge = Done b /\ b <> Open /\
    forall requested owner h, admit_handle b badge requested owner = Ok h ->
      (b = Bound h /\ requested = ROOT) \/ (h = requested /\ owner = Some badge).
Proof.
  intros HB Hb Hwf Ht1 Hbound. apply Forall_app in Hwf as [Hwf1 Hwf2].
  destruct (binding_ops_total (new B) ops1) as (t & Ht & Hlen & _); [simpl; by rewrite length_replicate|done|].
  rewrite Ht in Ht1. simplify_eq. simpl in Hlen. rewrite length_replicate in Hlen.
  rewrite binding_of_slot in Hbound by done. injection Hbound as Hbound.
  destruct (binding_ops_total t1 ops2) as (t2 & Ht2 & _ & Hk); [lia|done|].
  exists t2, (slot_of t2 badge). split_and!; [done|by apply binding_of_slot|apply Hk; [done|congruence]|].
  specialize (Hk badge Hb). rewrite Hbound in Hk. specialize (Hk ltac:(done)).
  intros requested owner h. destruct (slot_of t2 badge) as [|r'|]; [done| |done]. simpl.
  destruct (Z.eqb_spec requested ROOT); [intros; simplify_eq; by left|].
  case_bool_decide; intros; simplify_eq. by right.
Qed.

Lemma bound_badge_never_open_again_witness :
  exists t2 b, binding_ops (MkBindings [Open; Open; Bound 7; Open]) [OpUnbind 1 2; OpBind 2 3 9; OpBind 1 2 8] = Done t2 /\
    binding_of t2 2 = Done b /\ b <> Open /\
    forall requested owner h, admit_handle b 2 requested owner = Ok h ->
      (b = Bound h /\ requested = ROOT) \/ (h = requested /\ owner = Some 2).
Proof.
  apply (bound_badge_never_open_again 4 [OpBind 0 2 7] [OpUnbind 1 2; OpBind 2 3 9; OpBind 1 2 8] 2 7); try (by vm_compute).
  - lia.
  - repeat constructor; simpl; lia.
Defined.

End SubtreeScope.
