(* ===== verification/FsProtocol.v ===== *)
(** * The file service's wire format (crates/filesystem_protocol)

    Request and reply words, the directory listing, the name set of a grant,
    the extended-attribute records and the verb table. Words are 64 bits wide,
    bytes are [Z] in [0..255], and an output slice is a list of bytes of which
    the encoder overwrites a prefix. *)

From S2P Require Import Prelude SubtreeScope.
Local Open Scope Z_scope.

Module FsProtocol.

(** ** Record streams

    Every variable-length format of the protocol is a sequence of records read
    by an iterator that keeps an offset and stops at the first record that
    does not parse. *)

(** [buf.get(a..b)]. *)
Definition get_range (l : list Z) (a b : nat) : option (list Z) :=
  if decide (a <= b <= length l)%nat then Some (take (b - a) (drop a l)) else None.

(** What an iterator yields from offset [at_] on. *)
Fixpoint collect {A} (next : nat -> option (A * nat)) (fuel at_ : nat) : list A :=
  match fuel with
  | O => []
  | S fuel' => match next at_ with
               | None => []
               | Some (a, at') => a :: collect next fuel' at'
               end
  end.

(** A record format: how a record is written, which records can be, and how
    one is read at an offset. Reading what was written gives it back, wherever
    it stands; reading always advances. *)
Record RecordFormat (A : Type) := MkFormat {
  enc : A -> list Z;
  valid : A -> Prop;
  next : list Z -> nat -> option (A * nat);
  enc_next : forall a pre post, valid a ->
    next (pre ++ enc a ++ post) (length pre) = Some (a, (length pre + length (enc a))%nat);
  next_advances : forall buf at_ a at', next buf at_ = Some (a, at') ->
    (at_ < at' <= length buf)%nat
}.
Arguments enc {A} _ _.
Arguments valid {A} _ _.
Arguments next {A} _ _ _.
Arguments enc_next {A} _ _ _ _ _.
Arguments next_advances {A} _ _ _ _ _ _.

(** The iterator's run over a whole buffer; a record is at least one byte, so
    [length buf] steps reach the end. *)
Definition items {A} (next : list Z -> nat -> option (A * nat)) (buf : list Z) : list A :=
  collect (next buf) (S (length buf)) 0.

Section streams.
Context {A : Type} (F : RecordFormat A).

(** The bytes of a sequence of records. *)
Definition encs (l : list A) : list Z := concat (enc F <$> l).

Lemma encs_cons a l : encs (a :: l) = enc F a ++ encs l.
Proof. done. Qed.

Lemma encs_app l1 l2 : encs (l1 ++ l2) = encs l1 ++ encs l2.
Proof. unfold encs. by rewrite fmap_app, concat_app. Qed.

Lemma collect_fuel buf fuel1 fuel2 at_ :
  (length buf - at_ < fuel1)%nat -> (length buf - at_ < fuel2)%nat ->
  collect (next F buf) fuel1 at_ = collect (next F buf) fuel2 at_.
Proof.
  revert fuel2 at_. induction fuel1 as [|f1 IH]; intros [|f2] at_ H1 H2; try lia.
  simpl. destruct (next F buf at_) as [[a at']|] eqn:Hn; [|done].
  apply next_advances in Hn. f_equal. apply IH; lia.
Qed.

Lemma collect_encs l pre post :
  Forall (valid F) l ->
  collect (next F (pre ++ encs l ++ post)) (S (length (encs l ++ post))) (length pre)
  = l ++ collect (next F (pre ++ encs l ++ post)) (S (length post)) (length pre + length (encs l)).
Proof.
  revert pre. induction l as [|a l IH]; intros pre Hv.
  - simpl. by rewrite Nat.add_0_r.
  - apply Forall_cons in Hv as [Ha Hv]. rewrite encs_cons.
    assert (Hb : pre ++ (enc F a ++ encs l) ++ post = (pre ++ enc F a) ++ encs l ++ post)
      by by rewrite <- !app_assoc.
    specialize (IH (pre ++ enc F a) Hv). rewrite <- Hb in IH.
    pose proof (enc_next F a pre (encs l ++ post) Ha) as Hn.
    rewrite (app_assoc (enc F a)) in Hn.
    pose proof (next_advances F _ _ _ _ Hn) as Hadv.
    cbn [collect]. rewrite Hn. cbn [app]. f_equal.
    rewrite (length_app pre (enc F a)) in IH. etransitivity; [|etransitivity; [exact IH|]].
    + apply collect_fuel; rewrite !length_app in *; lia.
    + by rewrite length_app, Nat.add_assoc.
Qed.

(** What was written is what is read, up to whatever follows it. *)
Lemma items_encs l post :
  Forall (valid F) l -> next F (encs l ++ post) (length (encs l)) = None ->
  items (next F) (encs l ++ post) = l.
Proof.
  intros Hv Hend. unfold items. pose proof (collect_encs l [] post Hv) as Hc.
  cbn [app length] in Hc. rewrite Nat.add_0_l in Hc. rewrite Hc.
  cbn [collect]. rewrite Hend. apply app_nil_r.
Qed.
End streams.

(** ** Request and reply words *)

Definition PAGE : Z := 4096.
Definition OPERATION_SHIFT : Z := 56.
Definition TRANSFER_PAGES : Z := 16.
Definition TRANSFER_MAX : Z := TRANSFER_PAGES * PAGE.
Definition CLIENT_WINDOWS : nat := 8.
Definition MAX_LEN : Z := Z.shiftl 1 40 - 1.
Definition MAX_HANDLE : Z := 0xffff.

Definition operation (w0 : Z) : Z := Z.shiftr w0 OPERATION_SHIFT.
Definition reply_err (errno : Z) : Z := - errno.
Definition reply_errno (r0 : Z) : option Z := if r0 <? 0 then Some (- r0) else None.

Definition req (op handle len : Z) : Z :=
  Z.lor (Z.lor (wrap 64 (Z.shiftl op OPERATION_SHIFT)) (Z.shiftl (Z.land handle MAX_HANDLE) 40))
        (Z.land len MAX_LEN).
Definition req_handle (w0 : Z) : Z := Z.land (Z.shiftr w0 40) MAX_HANDLE.
Definition req_len (w0 : Z) : Z := Z.land w0 MAX_LEN.

Definition rename_dst (handle len : Z) : Z :=
  Z.lor (Z.shiftl (Z.land handle MAX_HANDLE) 40) (Z.land len MAX_LEN).
Definition dst_handle (w1 : Z) : Z := Z.land (Z.shiftr w1 40) MAX_HANDLE.
Definition dst_len (w1 : Z) : Z := Z.land w1 MAX_LEN.

(** The opcodes of the [fs] module. *)
Definition OPEN : Z := 1.
Definition READ : Z := 2.
Definition WRITE : Z := 3.
Definition CLOSE : Z := 4.
Definition FSTAT : Z := 5.
Definition CREATE : Z := 6.
Definition TRUNCATE : Z := 7.
Definition OPENDIR : Z := 8.
Definition READDIR : Z := 9.
Definition MKDIR : Z := 10.
Definition RENAME : Z := 11.
Definition UNLINK : Z := 12.
Definition RMDIR : Z := 13.
Definition GETXATTR : Z := 14.
Definition SETXATTR : Z := 15.
Definition LISTXATTR : Z := 16.
Definition REMOVEXATTR : Z := 17.
Definition STATFS : Z := 18.
Definition SYNC : Z := 19.
Definition GETMTIME : Z := 20.
Definition SETMTIME : Z := 21.
Definition SETMTIME_AT : Z := 22.
Definition BIND : Z := 64.
Definition UNBIND : Z := 65.

(** ** Writing into an output slice *)

(** [out[..n].copy_from_slice(bs)] with [n = bs.len()], on a slice at least
    that long. *)
Definition put (out bs : list Z) : list Z := bs ++ drop (length bs) out.

(** An encoder run on [&mut out[used..]]. *)
Definition at_tail {A} (used : nat) (out : list Z) (f : list Z -> option (A * list Z)) : option (A * list Z) :=
  match f (drop used out) with
  | Some (a, sub) => Some (a, take used out ++ sub)
  | None => None
  end.

(** ** Free space ([statfs]) *)

Definition STATFS_LEN : nat := 24.

Definition statfs_encode (out : list Z) (block_size total_blocks free_blocks : Z) : option (nat * list Z) :=
  if decide (length out < STATFS_LEN)%nat then None
  else Some (STATFS_LEN, put out (to_le_bytes 8 block_size ++ to_le_bytes 8 total_blocks ++ to_le_bytes 8 free_blocks)).

Definition statfs_decode (buf : list Z) : option (Z * Z * Z) :=
  if decide (length buf < STATFS_LEN)%nat then None
  else let w at_ := from_le_bytes (take 8 (drop at_ buf)) in Some (w 0%nat, w 8%nat, w 16%nat).

Definition total_bytes (block_size total_blocks : Z) : Z := saturating_mul 64 block_size total_blocks.
Definition free_bytes (block_size free_blocks : Z) : Z := saturating_mul 64 block_size free_blocks.

(** ** Directory listings ([dirent]) *)

Definition IS_DIR : Z := Z.shiftl 1 0.
Definition dirent_record_len (name_len : nat) : nat := (2 + name_len)%nat.

Definition dirent_encode (out name : list Z) (is_dir : bool) : option (nat * list Z) :=
  let n := dirent_record_len (length name) in
  if decide (255 < length name \/ length out < n)%nat then None
  else Some (n, put out ((if is_dir then IS_DIR else 0) :: wrap 8 (Z.of_nat (length name)) :: name)).

Definition dirent_next (buf : list Z) (at_ : nat) : option ((list Z * bool) * nat) :=
  match get_range buf at_ (at_ + 2) with
  | Some [flags; len] =>
      match get_range buf (at_ + 2) (at_ + 2 + Z.to_nat len) with
      | Some name => Some ((name, negb (Z.land flags IS_DIR =? 0)), (at_ + dirent_record_len (Z.to_nat len))%nat)
      | None => None
      end
  | _ => None
  end.

(** ** The names of a grant ([grant], [nameset]) *)

Definition GRANT_MAX_NAME : nat := 16.
Definition NAMESET_MAX_NAMES : nat := 8.
Definition NAMESET_IS_DIR : Z := Z.shiftl 1 7.
Definition NAMESET_LEN : Z := 0x7f.

(** [pack_name]: up to sixteen bytes in two words, zero padded. *)
Definition pad8 (l : list Z) : list Z := take 8 (l ++ replicate 8 0).
Definition pack_name (name : list Z) : Z * Z :=
  (from_le_bytes (pad8 (take 8 name)), from_le_bytes (pad8 (drop 8 (take GRANT_MAX_NAME name)))).
Definition unpack_name (lo hi : Z) (len : nat) : nat * list Z :=
  (Nat.min len GRANT_MAX_NAME, to_le_bytes 8 lo ++ to_le_bytes 8 hi).
Definition fits (name : list Z) : bool :=
  negb (bool_decide (name = [])) && bool_decide (length name <= GRANT_MAX_NAME)%nat.

Definition grant_spec (len rights : Z) : Z := Z.lor (Z.land len 0xff) (wrap 64 (Z.shiftl rights 8)).
Definition grant_spec_len (w : Z) : Z := Z.land w 0xff.
Definition grant_spec_rights (w : Z) : Z := Z.shiftr w 8.

Definition nameset_head (name : list Z) (is_dir : bool) : Z :=
  Z.lor (wrap 8 (Z.of_nat (length name))) (if is_dir then NAMESET_IS_DIR else 0).

(** The loop of [nameset::encode]; [n] bytes of [out] are written. *)
Fixpoint nameset_loop (names : list (list Z * bool)) (n : nat) (out : list Z) : option (nat * list Z) :=
  match names with
  | [] => match out !! n with
          | Some _ => Some ((n + 1)%nat, <[n := 0]> out)
          | None => None
          end
  | (name, is_dir) :: names' =>
      if decide (name = [] \/ GRANT_MAX_NAME < length name)%nat then None else
      let e := (n + 1 + length name)%nat in
      if decide (length out < e + 1)%nat then None
      else nameset_loop names' e (take n out ++ put (drop n out) (nameset_head name is_dir :: name))
  end.

Definition nameset_encode (names : list (list Z * bool)) (out : list Z) : option (nat * list Z) :=
  if decide (NAMESET_MAX_NAMES < length names)%nat then None else nameset_loop names 0 out.

Definition nameset_next (buf : list Z) (at_ : nat) : option ((list Z * bool) * nat) :=
  match buf !! at_ with
  | None => None
  | Some head =>
      let len := Z.to_nat (Z.land head NAMESET_LEN) in
      if decide (len = 0)%nat then None else
      match get_range buf (at_ + 1) (at_ + 1 + len) with
      | Some name => Some ((name, negb (Z.land head NAMESET_IS_DIR =? 0)), (at_ + 1 + len)%nat)
      | None => None
      end
  end.

(** ** Extended attributes ([xattr]) *)

Definition XATTR_MAX_NAME : nat := 255.
Definition MAX_VALUE : nat := Z.to_nat 3072.
Definition MAX_COUNT : nat := 16.
Definition MAX_KIND : Z := 2 ^ 31 - 1.
Definition ENODATA : Z := 61.
Definition ERANGE : Z := 34.
Definition E2BIG : Z := 7.
Definition ENOSPC : Z := 28.

(** [".nife-attrs"], the directory of the image root that holds attributes. *)
Definition STORE_DIR : list Z := [46; 110; 105; 102; 101; 45; 97; 116; 116; 114; 115].

Definition xattr_spec (kind value_len : Z) : Z := Z.lor (Z.shiftl kind 32) (Z.land value_len 0xffffffff).
Definition spec_kind (w1 : Z) : Z := wrap 32 (Z.shiftr w1 32).
Definition spec_value_len (w1 : Z) : Z := Z.land w1 0xffffffff.

(** [reply]: an [i64] that is never negative, since the kind is masked. *)
Definition xattr_reply (kind value_len : Z) : Z :=
  Z.lor (Z.shiftl (Z.land kind MAX_KIND) 32) (Z.land value_len 0xffffffff).
Definition reply_kind (r0 : Z) : Z := Z.land (wrap 32 (Z.shiftr r0 32)) MAX_KIND.
Definition reply_value_len (r0 : Z) : Z := Z.land r0 0xffffffff.

Definition is_valid_name (name : list Z) : bool :=
  negb (bool_decide (name = [] \/ (XATTR_MAX_NAME < length name)%nat)) && negb (existsb (Z.eqb 0) name).

Definition list_record_len (name_len : nat) : nat := (1 + name_len)%nat.

Definition list_encode (out name : list Z) : option (nat * list Z) :=
  let n := list_record_len (length name) in
  if negb (is_valid_name name) || bool_decide (length out < n)%nat then None
  else Some (n, put out (wrap 8 (Z.of_nat (length name)) :: name)).

Definition list_next (buf : list Z) (at_ : nat) : option (list Z * nat) :=
  match buf !! at_ with
  | None => None
  | Some b =>
      let len := Z.to_nat b in
      if decide (len = 0)%nat then None else
      match get_range buf (at_ + 1) (at_ + 1 + len) with
      | Some name => Some (name, (at_ + list_record_len len)%nat)
      | None => None
      end
  end.

Definition RECORD_HEADER : nat := 7.
Definition record_len (name_len value_len : nat) : nat := (RECORD_HEADER + name_len + value_len)%nat.

(** A hexadecimal digit, and the eight of a node id. *)
Definition hex_digit (nibble : Z) : Z := if nibble <? 10 then 48 + nibble else 97 + nibble - 10.
Definition file_name (node_id : Z) : list Z :=
  (fun i => hex_digit (Z.land (Z.shiftr node_id (28 - 4 * i)) 0xf)) <$> [0; 1; 2; 3; 4; 5; 6; 7].

Definition attr : Type := list Z * Z * list Z.
Definition attr_name (a : attr) : list Z := a.1.1.
Definition attr_kind (a : attr) : Z := a.1.2.
Definition attr_value (a : attr) : list Z := a.2.

Definition record_next (blob : list Z) (at_ : nat) : option (attr * nat) :=
  match get_range blob at_ (at_ + RECORD_HEADER) with
  | Some [b0; b1; b2; b3; b4; b5; b6] =>
      let name_len := Z.to_nat b0 in
      if decide (name_len = 0)%nat then None else
      let kind := from_le_bytes [b1; b2; b3; b4] in
      let value_len := Z.to_nat (from_le_bytes [b5; b6]) in
      let body := (at_ + RECORD_HEADER)%nat in
      match get_range blob body (body + name_len) with
      | None => None
      | Some name =>
          match get_range blob (body + name_len) (body + name_len + value_len) with
          | None => None
          | Some value => Some ((name, kind, value), (at_ + record_len name_len value_len)%nat)
          end
      end
  | _ => None
  end.

(** [store::iter], [count] and [get]. *)
Definition records (blob : list Z) : list attr := items record_next blob.
Definition count (blob : list Z) : nat := length (records blob).
Definition find_attr (name : list Z) (l : list attr) : option attr :=
  head (filter (fun a => attr_name a = name) l).
Definition get (blob name : list Z) : option (Z * list Z) :=
  match find_attr name (records blob) with
  | Some a => Some (attr_kind a, attr_value a)
  | None => None
  end.

Fixpoint list_loop (l : list attr) (used : nat) (out : list Z) : nat * list Z :=
  match l with
  | [] => (used, out)
  | a :: l' =>
      match at_tail used out (fun sub => list_encode sub (attr_name a)) with
      | Some (n, out') => list_loop l' (used + n) out'
      | None => (used, out)
      end
  end.
Definition store_list (blob out : list Z) : nat * list Z := list_loop (records blob) 0 out.

Definition record_bytes (a : attr) : list Z :=
  wrap 8 (Z.of_nat (length (attr_name a))) :: to_le_bytes 4 (attr_kind a) ++
  to_le_bytes 2 (wrap 16 (Z.of_nat (length (attr_value a)))) ++ attr_name a ++ attr_value a.

Definition write_record (out : list Z) (a : attr) : option (nat * list Z) :=
  let n := record_len (length (attr_name a)) (length (attr_value a)) in
  if decide (length out < n \/ XATTR_MAX_NAME < length (attr_name a) \/ MAX_VALUE < length (attr_value a))%nat
  then None
  else Some (n, put out (record_bytes a)).

(** The copying loops of [set] and [remove]: each record of the old blob is
    rewritten, replaced or skipped. *)
Fixpoint rewrite_loop (f : attr -> option attr) (l : list attr) (used : nat) (out : list Z)
    : result Z (nat * list Z) :=
  match l with
  | [] => Ok (used, out)
  | a :: l' =>
      match f a with
      | None => rewrite_loop f l' used out
      | Some a' =>
          match at_tail used out (fun sub => write_record sub a') with
          | Some (n, out') => rewrite_loop f l' (used + n) out'
          | None => Err ENOSPC
          end
      end
  end.

Definition mentions (name : list Z) (l : list attr) : bool :=
  existsb (fun a => bool_decide (attr_name a = name)) l.

Definition set_one (name : list Z) (kind : Z) (value : list Z) (a : attr) : option attr :=
  Some (if bool_decide (attr_name a = name) then (name, kind, value) else a).
Definition remove_one (name : list Z) (a : attr) : option attr :=
  if bool_decide (attr_name a = name) then None else Some a.

Definition set (blob name : list Z) (kind : Z) (value out : list Z) : result Z (nat * list Z) :=
  if negb (is_valid_name name) then Err ERANGE else
  if decide (MAX_VALUE < length value)%nat then Err E2BIG else
  if MAX_KIND <? kind then Err 22 else
  match rewrite_loop (set_one name kind value) (records blob) 0 out with
  | Err e => Err e
  | Ok (used, out') =>
      if mentions name (records blob) then Ok (used, out') else
      if decide (MAX_COUNT <= count blob)%nat then Err ENOSPC else
      match at_tail used out' (fun sub => write_record sub (name, kind, value)) with
      | Some (n, out'') => Ok ((used + n)%nat, out'')
      | None => Err ENOSPC
      end
  end.

Definition remove (blob name out : list Z) : result Z (nat * list Z) :=
  if negb (is_valid_name name) then Err ERANGE else
  match rewrite_loop (remove_one name) (records blob) 0 out with
  | Err e => Err e
  | Ok r => if mentions name (records blob) then Ok r else Err ENODATA
  end.

(** ** The verb table ([verb]) *)

Module Operand.
Inductive t := None | Name | Payload | Rename.
#[global] Instance t_eq_dec : EqDecision t.
Proof. solve_decision. Defined.
End Operand.

Record Verb := MkVerb {
  v_operation : Z; operand : Operand.t; carries_w1 : bool; mints_handle : bool;
  needs_all : Z; needs_any : Z }.

Definition carries_len (v : Verb) : bool := negb (bool_decide (operand v = Operand.None)).
Definition takes_name (v : Verb) : bool :=
  bool_decide (operand v = Operand.Name \/ operand v = Operand.Rename).
Definition mutates (v : Verb) : bool :=
  negb (Z.land (needs_all v) (Z.lor (Z.lor SubtreeScope.WRITE SubtreeScope.CREATE) SubtreeScope.REMOVE) =? 0).

Definition row (op : Z) (o : Operand.t) (w1 mints : bool) (needs : Z) : Verb :=
  MkVerb op o w1 mints needs 0.

Definition FIRST : Z := OPEN.
Definition LAST : Z := SETMTIME_AT.

Definition TABLE : list Verb := [
  MkVerb OPEN Operand.Name true true 0 (Z.lor SubtreeScope.READ SubtreeScope.WRITE);
  row READ Operand.Payload true false SubtreeScope.READ;
  row WRITE Operand.Payload true false SubtreeScope.WRITE;
  row CLOSE Operand.None false false 0;
  row FSTAT Operand.None false false 0;
  row CREATE Operand.Name false true SubtreeScope.CREATE;
  row TRUNCATE Operand.None true false SubtreeScope.WRITE;
  row OPENDIR Operand.Name true true SubtreeScope.DESCEND;
  row READDIR Operand.None true false SubtreeScope.ENUMERATE;
  row MKDIR Operand.Name true true (Z.lor SubtreeScope.CREATE SubtreeScope.DESCEND);
  row RENAME Operand.Rename true false (Z.lor SubtreeScope.REMOVE SubtreeScope.CREATE);
  row UNLINK Operand.Name false false SubtreeScope.REMOVE;
  row RMDIR Operand.Name false false SubtreeScope.REMOVE;
  row GETXATTR Operand.Payload false false SubtreeScope.READ;
  row SETXATTR Operand.Payload true false SubtreeScope.WRITE;
  row LISTXATTR Operand.None false false SubtreeScope.READ;
  row REMOVEXATTR Operand.Payload false false SubtreeScope.WRITE;
  row STATFS Operand.None false false 0;
  row SYNC Operand.None false false SubtreeScope.WRITE;
  row GETMTIME Operand.Name false false SubtreeScope.READ;
  row SETMTIME Operand.Name false false SubtreeScope.WRITE;
  row SETMTIME_AT Operand.Name true false (Z.lor SubtreeScope.WRITE SubtreeScope.SETTIME) ].

Definition verb_of (op : Z) : option Verb :=
  if (op <? FIRST) || (LAST <? op) then None else TABLE !! Z.to_nat (op - FIRST).

(** ** The formats round trip *)

Lemma get_range_mid buf pre mid post a b :
  buf = pre ++ mid ++ post -> a = length pre -> b = (length pre + length mid)%nat ->
  get_range buf a b = Some mid.
Proof.
  intros -> -> ->. unfold get_range. rewrite decide_True by (rewrite !length_app; lia).
  rewrite drop_app_length. f_equal. rewrite Nat.add_comm, Nat.add_sub. apply take_app_length.
Qed.

Lemma get_range_bound buf a b l :
  get_range buf a b = Some l -> (a <= b <= length buf)%nat /\ length l = (b - a)%nat.
Proof.
  unfold get_range. case_decide; intros; simplify_eq. split; [done|].
  rewrite length_take, length_drop. lia.
Qed.

Lemma wrap8_len (l : list Z) : (length l <= 255)%nat -> Z.to_nat (wrap 8 (Z.of_nat (length l))) = length l.
Proof. intros. rewrite wrap_small by (unfold in_width; lia). apply Nat2Z.id. Qed.

Lemma lookup_mid (pre post : list Z) x : (pre ++ x :: post) !! length pre = Some x.
Proof. by apply list_lookup_middle. Qed.

Program Definition dirent_format : RecordFormat (list Z * bool) := {|
  enc := fun e => (if e.2 then IS_DIR else 0) :: wrap 8 (Z.of_nat (length e.1)) :: e.1;
  valid := fun e => (length e.1 <= 255)%nat;
  next := dirent_next |}.
Next Obligation.
  intros [name d] pre post Hv. simpl in *. unfold dirent_next.
  erewrite (get_range_mid _ pre [_; _] (name ++ post)) by (try done; simpl; lia). cbv beta.
  rewrite wrap8_len by done.
  erewrite (get_range_mid _ (pre ++ [_; _]) name post);
    [|simpl; by rewrite <- app_assoc | rewrite length_app; simpl; lia | rewrite length_app; simpl; lia].
  do 2 f_equal. by destruct d.
Qed.
Next Obligation.
  intros buf at_ a at'. unfold dirent_next.
  destruct (get_range buf at_ (at_ + 2)) as [[|f [|l [|]]]|]; try done.
  destruct (get_range buf (at_ + 2) _) eqn:H; [|done]. intros; simplify_eq.
  apply get_range_bound in H. unfold dirent_record_len. lia.
Qed.

Program Definition nameset_format : RecordFormat (list Z * bool) := {|
  enc := fun e => nameset_head e.1 e.2 :: e.1;
  valid := fun e => (0 < length e.1 <= 16)%nat;
  next := nameset_next |}.
Next Obligation.
  intros [name d] pre post Hv. simpl in *. unfold nameset_next. rewrite lookup_mid.
  assert (Z.to_nat (Z.land (nameset_head name d) NAMESET_LEN) = length name /\
          negb (Z.land (nameset_head name d) NAMESET_IS_DIR =? 0) = d) as [-> ->].
  { unfold nameset_head. rewrite wrap_small by (unfold in_width; lia).
    assert (Hc : Z.of_nat (length name) ∈ [1;2;3;4;5;6;7;8;9;10;11;12;13;14;15;16]).
    { rewrite !elem_of_cons. lia. }
    rewrite <- (Nat2Z.id (length name)) at 2. revert Hc. generalize (Z.of_nat (length name)) as k. intros k Hc.
    repeat (apply elem_of_cons in Hc as [->|Hc]; [by destruct d|]). by apply elem_of_nil in Hc. }
  rewrite decide_False by lia.
  erewrite (get_range_mid _ (pre ++ [_]) name post);
    [|simpl; by rewrite <- app_assoc | rewrite length_app; simpl; lia | rewrite length_app; simpl; lia].
  do 2 f_equal. lia.
Qed.
Next Obligation.
  intros buf at_ a at'. unfold nameset_next. destruct (buf !! at_) as [h|]; [|done].
  case_decide; [done|]. destruct (get_range buf (at_ + 1) _) eqn:H1; [|done]. intros; simplify_eq.
  apply get_range_bound in H1. lia.
Qed.

Program Definition list_format : RecordFormat (list Z) := {|
  enc := fun name => wrap 8 (Z.of_nat (length name)) :: name;
  valid := fun name => (0 < length name <= 255)%nat;
  next := list_next |}.
Next Obligation.
  intros name pre post Hv. simpl in *. unfold list_next. rewrite lookup_mid, wrap8_len by lia.
  rewrite decide_False by lia.
  erewrite (get_range_mid _ (pre ++ [_]) name post);
    [|simpl; by rewrite <- app_assoc | rewrite length_app; simpl; lia | rewrite length_app; simpl; lia].
  done.
Qed.
Next Obligation.
  intros buf at_ a at'. unfold list_next. destruct (buf !! at_) as [h|]; [|done].
  case_decide; [done|]. destruct (get_range buf (at_ + 1) _) eqn:H1; [|done]. intros; simplify_eq.
  apply get_range_bound in H1. unfold list_record_len. lia.
Qed.

(** A record that can be stored: a name that is not empty and fits its length
    byte, a kind that is a [u32], and a value within the bound. *)
Definition attr_ok (a : attr) : Prop :=
  (0 < length (attr_name a) <= XATTR_MAX_NAME)%nat /\ in_width 32 (attr_kind a) /\
  (length (attr_value a) <= MAX_VALUE)%nat.

Program Definition record_format : RecordFormat attr := {|
  enc := record_bytes; valid := attr_ok; next := record_next |}.
Next Obligation.
  intros [[name kind] value] pre post (Hn & Hk & Hv). cbn [attr_name attr_kind attr_value fst snd] in *.
  unfold record_next, record_bytes, record_len, RECORD_HEADER. cbn [attr_name attr_kind attr_value fst snd].
  assert (HV : Z.of_nat (length value) <= 3072) by (unfold MAX_VALUE in Hv; lia).
  pose proof (length_to_le 4 kind) as H4. pose proof (length_to_le 2 (wrap 16 (Z.of_nat (length value)))) as H2.
  pose proof (from_to_le 4 kind Hk) as F4.
  assert (F2 : Z.to_nat (from_le_bytes (to_le_bytes 2 (wrap 16 (Z.of_nat (length value))))) = length value).
  { rewrite wrap_small by (unfold in_width; lia). rewrite from_to_le by (split; lia). apply Nat2Z.id. }
  destruct (to_le_bytes 4 kind) as [|k0 [|k1 [|k2 [|k3 [|]]]]]; try done.
  destruct (to_le_bytes 2 _) as [|v0 [|v1 [|]]]; try done.
  erewrite (get_range_mid _ pre [_; _; _; _; _; _; _] (name ++ value ++ post));
    [|simpl; by rewrite <- !app_assoc | done | done].
  cbv beta iota. rewrite wrap8_len by (unfold XATTR_MAX_NAME in Hn; lia). rewrite decide_False by lia.
  erewrite (get_range_mid _ (pre ++ [_; _; _; _; _; _; _]) name (value ++ post));
    [|simpl; by rewrite <- !app_assoc | rewrite length_app; simpl; lia | rewrite length_app; simpl; lia].
  rewrite F2, F4.
  erewrite (get_range_mid _ (pre ++ [_; _; _; _; _; _; _] ++ name) value post);
    [|simpl; by rewrite <- !app_assoc | rewrite !length_app; simpl; lia | rewrite !length_app; simpl; lia].
  do 2 f_equal. simpl. rewrite !length_app. simpl. lia.
Qed.
Next Obligation.
  intros buf at_ a at'. unfold record_next.
  destruct (get_range buf at_ _) as [[|? [|? [|? [|? [|? [|? [|? [|]]]]]]]]|]; try done.
  case_decide; [done|]. destruct (get_range buf (at_ + RECORD_HEADER) _); [|done].
  destruct (get_range buf _ _) eqn:H1; [|done]. intros; simplify_eq.
  apply get_range_bound in H1. unfold record_len, RECORD_HEADER in *. simpl in *. lia.
Qed.

(** ** The attribute store *)

Lemma length_record_bytes a :
  length (record_bytes a) = record_len (length (attr_name a)) (length (attr_value a)).
Proof.
  unfold record_bytes, record_len, RECORD_HEADER. simpl. rewrite !length_app. simpl. lia.
Qed.

Lemma length_put out bs : (length bs <= length out)%nat -> length (put out bs) = length out.
Proof. intros. unfold put. rewrite length_app, length_drop. lia. Qed.

(** A record fits a slice, and is then written at its front. *)
Definition fits_in (room : nat) (a : attr) : Prop :=
  (length (record_bytes a) <= room /\ length (attr_name a) <= XATTR_MAX_NAME /\
   length (attr_value a) <= MAX_VALUE)%nat.

Lemma write_record_spec out a :
  (fits_in (length out) a /\ write_record out a = Some (length (record_bytes a), put out (record_bytes a))) \/
  (~ fits_in (length out) a /\ write_record out a = None).
Proof.
  unfold fits_in, write_record. rewrite length_record_bytes.
  case_decide; [right | left]; (split; [|done]); lia.
Qed.

Lemma at_tail_record used out a :
  (used <= length out)%nat ->
  (fits_in (length out - used) a /\
   exists out', at_tail used out (fun sub => write_record sub a) = Some (length (record_bytes a), out') /\
     length out' = length out /\ take (used + length (record_bytes a)) out' = take used out ++ record_bytes a) \/
  (~ fits_in (length out - used) a /\ at_tail used out (fun sub => write_record sub a) = None).
Proof.
  intros Hu. unfold at_tail. destruct (write_record_spec (drop used out) a) as [[Hf ->]|[Hf ->]];
    rewrite length_drop in Hf; [left | by right].
  split; [done|]. eexists. split; [done|]. destruct Hf as [Hf _]. split.
  - rewrite length_app, length_put, length_take, length_drop by (rewrite length_drop; lia). lia.
  - unfold put. rewrite take_app_ge; rewrite length_take_le; try lia.
    rewrite Nat.add_comm, Nat.add_sub, take_app_length. done.
Qed.

(** The copying loop writes exactly the surviving records, in order. *)
Lemma rewrite_loop_ok f l used out used' out' :
  (used <= length out)%nat -> rewrite_loop f l used out = Ok (used', out') ->
  take used' out' = take used out ++ encs record_format (omap f l) /\
  (used' <= length out')%nat /\ length out' = length out /\
  Forall (fun a => length (attr_name a) <= XATTR_MAX_NAME /\ length (attr_value a) <= MAX_VALUE)%nat (omap f l).
Proof.
  revert used out. induction l as [|a l IH]; intros used out Hu; simpl.
  - intros; simplify_eq. unfold encs. simpl. by rewrite app_nil_r.
  - destruct (f a) as [a'|]; [|by apply IH].
    destruct (at_tail_record used out a' Hu) as [[(Hf & Hn & Hv) (o & Ho & Hlen & Htake)]|[_ ->]]; [|done].
    rewrite Ho. intros H. apply IH in H as (Ht & Hle & Hl & HF); [|lia].
    rewrite Ht, Htake, encs_cons, <- app_assoc. split_and!; [done|done|congruence|]. by constructor.
Qed.

Lemma rewrite_loop_fits f l used out :
  (used <= length out)%nat ->
  Forall (fun a => length (attr_name a) <= XATTR_MAX_NAME /\ length (attr_value a) <= MAX_VALUE)%nat (omap f l) ->
  (length (encs record_format (omap f l)) <= length out - used)%nat ->
  exists used' out', rewrite_loop f l used out = Ok (used', out') /\
    used' = (used + length (encs record_format (omap f l)))%nat /\ length out' = length out.
Proof.
  revert used out. induction l as [|a l IH]; intros used out Hu HF Hlen; simpl in *.
  - exists used, out. unfold encs. simpl. by rewrite Nat.add_0_r.
  - change (list_omap attr attr f l) with (omap f l) in *. destruct (f a) as [a'|]; [|by apply IH].
    apply Forall_cons in HF as [[Hn Hv] HF]. rewrite encs_cons, length_app in *. cbn [enc record_format] in *.
    destruct (at_tail_record used out a' Hu) as [[_ (o & -> & Hl & _)]|[Hno _]];
      [|exfalso; apply Hno; unfold fits_in; lia].
    destruct (IH (used + length (record_bytes a'))%nat o) as (u & o' & -> & -> & ?); [lia|done|lia|].
    exists (used + length (record_bytes a') + length (encs record_format (omap f l)))%nat, o'.
    split_and!; [done|lia|lia].
Qed.

(** What a read record looks like, and that the records of a blob occupy
    disjoint parts of it. *)
Lemma record_next_facts blob at_ a at' :
  bytes_ok blob -> record_next blob at_ = Some (a, at') ->
  (0 < length (attr_name a) <= XATTR_MAX_NAME)%nat /\ in_width 32 (attr_kind a) /\
  at' = (at_ + length (record_bytes a))%nat.
Proof.
  intros Hb. unfold record_next.
  destruct (get_range blob at_ (at_ + RECORD_HEADER)) as [h|] eqn:Hh; [|done].
  assert (Hok : bytes_ok h).
  { unfold get_range in Hh. case_decide; [|done]. simplify_eq. by apply Forall_take, Forall_drop. }
  destruct h as [|b0 [|b1 [|b2 [|b3 [|b4 [|b5 [|b6 [|]]]]]]]]; try done.
  case_decide; [done|]. destruct (get_range blob (at_ + RECORD_HEADER) _) as [name|] eqn:Hn; [|done].
  destruct (get_range blob (at_ + RECORD_HEADER + Z.to_nat b0) _) as [value|] eqn:Hv; [|done]. intros; simplify_eq.
  apply get_range_bound in Hn as [_ Hn]. apply get_range_bound in Hv as [_ Hv].
  rewrite length_record_bytes. unfold attr_name, attr_kind, attr_value. cbn [fst snd].
  replace (length name) with (Z.to_nat b0) by lia. replace (length value) with (Z.to_nat (from_le_bytes [b5; b6])) by lia.
  split_and!; [| | |done].
  - lia.
  - apply Forall_cons in Hok as [? _]. unfold XATTR_MAX_NAME. lia.
  - change (2 ^ 32) with (256 ^ Z.of_nat (length [b1; b2; b3; b4])).
    apply (from_le_range [b1; b2; b3; b4]). do 5 (apply Forall_cons in Hok as [? Hok]).
    repeat constructor; lia.
Qed.

Lemma records_facts blob fuel at_ :
  bytes_ok blob ->
  Forall (fun a => (0 < length (attr_name a) <= XATTR_MAX_NAME)%nat /\ in_width 32 (attr_kind a))
    (collect (record_next blob) fuel at_) /\
  (length (encs record_format (collect (record_next blob) fuel at_)) <= length blob - at_)%nat.
Proof.
  intros Hb. revert at_. induction fuel as [|fuel IH]; intros at_; simpl; [unfold encs; simpl; split; [constructor | lia]|].
  destruct (record_next blob at_) as [[a at']|] eqn:Hn; [|unfold encs; simpl; split; [constructor | lia]].
  destruct (record_next_facts _ _ _ _ Hb Hn) as (? & ? & Hat).
  pose proof (next_advances record_format _ _ _ _ Hn). destruct (IH at') as [IH1 IH2]. split.
  - by constructor.
  - rewrite encs_cons, length_app. cbn [enc record_format]. lia.
Qed.

(** The written prefix decodes to the records that were written. *)
Lemma records_encs l : Forall attr_ok l -> records (encs record_format l) = l.
Proof.
  intros Hl. unfold records. rewrite <- (app_nil_r (encs record_format l)).
  apply (items_encs record_format); [done|]. simpl. unfold record_next, get_range.
  rewrite decide_False; [done|]. rewrite app_nil_r. unfold RECORD_HEADER. lia.
Qed.

Definition set_spec (name : list Z) (kind : Z) (value : list Z) (l : list attr) : list attr :=
  if mentions name l then omap (set_one name kind value) l else l ++ [(name, kind, value)].

Lemma set_one_absent name kind value l :
  mentions name l = false -> omap (set_one name kind value) l = l.
Proof.
  induction l as [|a l IH]; [done|]. cbn [mentions existsb]. rewrite orb_false_iff. intros [Ha Hl].
  simpl. unfold set_one at 1. rewrite Ha. f_equal. by apply IH.
Qed.

Lemma valid_name_len name : is_valid_name name = true -> (0 < length name <= XATTR_MAX_NAME)%nat.
Proof.
  unfold is_valid_name. rewrite andb_true_iff, negb_true_iff. intros [H _].
  apply bool_decide_eq_false in H. destruct name; simpl in *; [tauto|]. unfold XATTR_MAX_NAME in *.
  destruct (decide (S (length name) <= 255)%nat); [lia|]. exfalso. apply H. right. lia.
Qed.

Lemma omap_attr_ok f l :
  Forall (fun a => (0 < length (attr_name a) <= XATTR_MAX_NAME)%nat /\ in_width 32 (attr_kind a)) l ->
  (forall a a', f a = Some a' -> a' = a \/ attr_ok a') ->
  Forall (fun a => length (attr_name a) <= XATTR_MAX_NAME /\ length (attr_value a) <= MAX_VALUE)%nat (omap f l) ->
  Forall attr_ok (omap f l).
Proof.
  intros Hl Hf. induction Hl as [|a l [Hn Hk] _ IH]; [done|]. simpl.
  destruct (f a) as [a'|] eqn:Ha; [|done]. rewrite !Forall_cons. intros [[_ Hv] HF]. split; [|by apply IH].
  destruct (Hf _ _ Ha) as [->|]; [|done]. split; [done|split; done].
Qed.

Lemma set_records blob name kind value out n out' :
  bytes_ok blob -> 0 <= kind -> set blob name kind value out = Ok (n, out') ->
  records (take n out') = set_spec name kind value (records blob).
Proof.
  intros Hb Hk. unfold set. destruct (is_valid_name name) eqn:Hname; [|done]. cbn [negb].
  case_decide as Hv; [done|]. destruct (Z.ltb_spec MAX_KIND kind) as [|HK]; [done|].
  apply valid_name_len in Hname.
  assert (Hnew : attr_ok (name, kind, value)).
  { unfold attr_ok, attr_name, attr_kind, attr_value, in_width. cbn [fst snd].
    change MAX_KIND with (2 ^ 31 - 1) in HK. lia. }
  destruct (records_facts blob (S (length blob)) 0 Hb) as [Hfacts _].
  destruct (rewrite_loop _ _ 0 out) as [[used out1]|] eqn:Hl; [|done].
  apply rewrite_loop_ok in Hl as (Ht & Hle & Hlen & HF); [|lia]. rewrite take_0 in Ht. cbn [app] in Ht.
  assert (Hall : Forall attr_ok (omap (set_one name kind value) (records blob))).
  { apply omap_attr_ok; [done| |done]. intros a a' Ha. unfold set_one in Ha.
    case_bool_decide; simplify_eq; auto. }
  unfold set_spec. destruct (mentions name (records blob)) eqn:Hm.
  - intros; simplify_eq. rewrite Ht. by apply records_encs.
  - rewrite set_one_absent in Ht, Hall by done. case_decide; [done|].
    destruct (at_tail_record used out1 (name, kind, value) Hle) as [[_ (o & -> & _ & Htk)]|[_ ->]]; [|done].
    remember (length (record_bytes (name, kind, value))) as k. injection 1 as <- <-. rewrite Htk, Ht.
    replace (encs record_format (records blob) ++ record_bytes (name, kind, value))
      with (encs record_format (records blob ++ [(name, kind, value)])).
    + apply records_encs. apply Forall_app. split; [done|]. by constructor.
    + rewrite encs_app. f_equal. unfold encs. simpl. by rewrite app_nil_r.
Qed.

Lemma remove_records blob name out n out' :
  bytes_ok blob -> remove blob name out = Ok (n, out') ->
  records (take n out') = omap (remove_one name) (records blob) /\ mentions name (records blob) = true.
Proof.
  intros Hb. unfold remove. destruct (is_valid_name name) eqn:Hname; [|done]. cbn [negb].
  destruct (records_facts blob (S (length blob)) 0 Hb) as [Hfacts _].
  destruct (rewrite_loop _ _ 0 out) as [[used out1]|] eqn:Hl; [|done].
  apply rewrite_loop_ok in Hl as (Ht & Hle & Hlen & HF); [|lia]. rewrite take_0 in Ht. cbn [app] in Ht.
  destruct (mentions name (records blob)) eqn:Hm; [|done]. intros; simplify_eq. split; [|done].
  rewrite Ht. apply records_encs. apply omap_attr_ok; [done| |done].
  intros a a' Ha. unfold remove_one in Ha. case_bool_decide; simplify_eq; auto.
Qed.

Lemma omap_attr_cons (f : attr -> option attr) a l :
  omap f (a :: l) = match f a with Some b => b :: omap f l | None => omap f l end.
Proof. done. Qed.

(** Looking a name up in the records. *)
Lemma find_attr_cons nm a l :
  find_attr nm (a :: l) = if decide (attr_name a = nm) then Some a else find_attr nm l.
Proof. unfold find_attr. rewrite filter_cons. by case_decide. Qed.

Lemma find_attr_set_one name kind value l nm :
  find_attr nm (omap (set_one name kind value) l) =
    if decide (nm = name) then (if mentions name l then Some (name, kind, value) else None)
    else find_attr nm l.
Proof.
  induction l as [|a l IH]; [by case_decide|].
  cbn [mentions existsb]. rewrite omap_attr_cons. unfold set_one at 1. rewrite !find_attr_cons.
  case_bool_decide as Ha; cbn [attr_name fst].
  - destruct (decide (name = nm)) as [<-|Hne]; [by rewrite decide_True|].
    rewrite IH, decide_False by congruence. by rewrite !decide_False by congruence.
  - rewrite IH. destruct (decide (nm = name)); subst; [by rewrite decide_False|done].
Qed.

Lemma mentions_find name l : mentions name l = bool_decide (is_Some (find_attr name l)).
Proof.
  induction l as [|a l IH]; [done|]. cbn [mentions existsb]. rewrite find_attr_cons.
  destruct (decide (attr_name a = name)) as [Ha|Ha].
  - rewrite bool_decide_true by done. by rewrite bool_decide_true by eauto.
  - rewrite bool_decide_false by done. exact IH.
Qed.

Lemma find_attr_app nm l1 l2 :
  find_attr nm (l1 ++ l2) = match find_attr nm l1 with Some a => Some a | None => find_attr nm l2 end.
Proof.
  induction l1 as [|a l1 IH]; [done|]. simpl. rewrite !find_attr_cons. by case_decide.
Qed.

Lemma find_attr_set_spec name kind value l nm :
  find_attr nm (set_spec name kind value l) =
    if decide (nm = name) then Some (name, kind, value) else find_attr nm l.
Proof.
  unfold set_spec. destruct (mentions name l) eqn:Hm; [by rewrite find_attr_set_one, Hm|].
  rewrite find_attr_app, find_attr_cons. cbn [attr_name fst].
  rewrite mentions_find in Hm. apply bool_decide_eq_false, eq_None_not_Some in Hm.
  case_decide as Hd; subst; [by rewrite Hm, decide_True|]. rewrite decide_False by congruence.
  by destruct (find_attr nm l).
Qed.

Lemma find_attr_remove name l nm :
  find_attr nm (omap (remove_one name) l) = if decide (nm = name) then None else find_attr nm l.
Proof.
  induction l as [|a l IH]; [by case_decide|].
  rewrite omap_attr_cons. unfold remove_one at 1. rewrite find_attr_cons. case_bool_decide as Ha.
  - etransitivity; [apply IH|]. subst. case_decide; [done|]. by rewrite decide_False by congruence.
  - rewrite find_attr_cons, IH. destruct (decide (attr_name a = nm)) as [Heq|]; [|done].
    by rewrite decide_False by congruence.
Qed.

Lemma omap_set_length name kind value l : length (omap (set_one name kind value) l) = length l.
Proof. induction l; simpl; auto. Qed.

(** ** Fields of the words *)

Lemma testbit_land_ones x k i :
  0 <= k -> 0 <= i -> Z.testbit (Z.land x (Z.ones k)) i = Z.testbit x i && (i <? k).
Proof. intros. by rewrite Z.land_spec, Z.testbit_ones_nonneg. Qed.

(** Two fields side by side: [hi] above bit [k], [lo] below it. *)
Lemma field_low hi lo k :
  0 <= k -> in_width k lo -> Z.land (Z.lor (Z.shiftl hi k) lo) (Z.ones k) = lo.
Proof.
  intros Hk Hlo. apply Z.bits_inj'. intros i Hi.
  rewrite testbit_land_ones, Z.lor_spec, Z.shiftl_spec by done.
  destruct (Z.ltb_spec i k).
  - by rewrite (Z.testbit_neg_r hi), andb_true_r by lia.
  - by rewrite andb_false_r, (testbit_above k lo).
Qed.

Lemma field_high hi lo k :
  0 <= k -> in_width k lo -> Z.shiftr (Z.lor (Z.shiftl hi k) lo) k = hi.
Proof.
  intros Hk Hlo. apply Z.bits_inj'. intros i Hi.
  rewrite Z.shiftr_spec, Z.lor_spec, Z.shiftl_spec by lia.
  rewrite (testbit_above k lo) by (done || lia). rewrite orb_false_r. f_equal. lia.
Qed.

Lemma land_ones_id k x : 0 <= k -> in_width k x -> Z.land x (Z.ones k) = x.
Proof. intros Hk [? ?]. rewrite Z.land_ones by done. by apply Z.mod_small. Qed.

Lemma rename_dst_fields handle len :
  in_width 16 handle -> in_width 40 len ->
  dst_handle (rename_dst handle len) = handle /\ dst_len (rename_dst handle len) = len.
Proof.
  intros Hh Hl. unfold dst_handle, dst_len, rename_dst.
  change MAX_HANDLE with (Z.ones 16). change MAX_LEN with (Z.ones 40).
  rewrite !(land_ones_id 16 handle), !(land_ones_id 40 len) by done.
  rewrite field_high, field_low, land_ones_id by done. done.
Qed.

Lemma req_fields op handle len :
  in_width 8 op -> in_width 16 handle -> in_width 40 len ->
  operation (req op handle len) = op /\ req_handle (req op handle len) = handle /\
  req_len (req op handle len) = len.
Proof.
  intros Hop Hh Hl. unfold operation, req_handle, req_len, req.
  change MAX_HANDLE with (Z.ones 16). change MAX_LEN with (Z.ones 40).
  rewrite !(land_ones_id 16 handle), !(land_ones_id 40 len) by done.
  assert (Hw : wrap 64 (Z.shiftl op OPERATION_SHIFT) = Z.shiftl (Z.shiftl op 16) 40).
  { rewrite Z.shiftl_shiftl by lia. apply wrap_small. unfold in_width in *. rewrite Z.shiftl_mul_pow2 by lia.
    change (2 ^ (16 + 40)) with (2 ^ 56). change (2 ^ 64) with (2 ^ 8 * 2 ^ 56). nia. }
  rewrite Hw, <- Z.shiftl_lor. rewrite field_low by done.
  change OPERATION_SHIFT with (40 + 16). rewrite <- Z.shiftr_shiftr by lia.
  rewrite !field_high by done. by rewrite field_low by done.
Qed.

Lemma statfs_fields out bs total free n out' :
  in_width 64 bs -> in_width 64 total -> in_width 64 free ->
  statfs_encode out bs total free = Some (n, out') ->
  statfs_decode (take n out') = Some (bs, total, free).
Proof.
  intros Hb Ht Hf. unfold statfs_encode, statfs_decode. case_decide as Hlen; [done|].
  intros; simplify_eq. unfold put.
  assert (L : forall x y, length (to_le_bytes 8 bs ++ to_le_bytes 8 x ++ to_le_bytes 8 y) = STATFS_LEN)
    by (intros; by rewrite !length_app, !length_to_le).
  rewrite take_app_le by (by rewrite L). rewrite (take_ge _ STATFS_LEN) by (by rewrite L).
  rewrite L, decide_False by (unfold STATFS_LEN; lia).
  rewrite drop_0, take_app_le, take_ge by (by rewrite length_to_le).
  rewrite (drop_app_ge _ _ 8), (drop_app_ge _ _ 16) by (rewrite length_to_le; lia).
  rewrite !length_to_le. cbn [Nat.sub]. rewrite drop_0, take_app_le, take_ge by (by rewrite length_to_le).
  rewrite (drop_app_ge _ _ 8) by (by rewrite length_to_le). rewrite length_to_le, Nat.sub_diag, drop_0.
  rewrite take_ge by (by rewrite length_to_le). by rewrite !from_to_le by done.
Qed.

Lemma xattr_reply_fields kind len :
  in_width 31 kind -> in_width 32 len ->
  0 <= xattr_reply kind len < 2 ^ 63 /\ reply_kind (xattr_reply kind len) = kind /\
  reply_value_len (xattr_reply kind len) = len.
Proof.
  intros Hk Hl. unfold reply_kind, reply_value_len, xattr_reply.
  change MAX_KIND with (Z.ones 31). change 0xffffffff with (Z.ones 32).
  rewrite (land_ones_id 31 kind), (land_ones_id 32 len) by done.
  rewrite field_high, field_low by done.
  rewrite wrap_small by (unfold in_width in *; change (2 ^ 32) with (2 ^ 31 * 2); lia).
  rewrite land_ones_id by done. split; [|done].
  apply (in_width_lor 63); [done| |unfold in_width in *; change (2 ^ 63) with (2 ^ 32 * 2 ^ 31); lia].
  unfold in_width in *. rewrite Z.shiftl_mul_pow2 by lia. change (2 ^ 63) with (2 ^ 31 * 2 ^ 32). nia.
Qed.

(** ** Name sets *)

Lemma nameset_loop_ok names n out n' out' :
  (n <= length out)%nat -> nameset_loop names n out = Some (n', out') ->
  take n' out' = take n out ++ encs nameset_format names ++ [0] /\
  Forall (valid nameset_format) names.
Proof.
  revert n out. induction names as [|[name d] names IH]; intros n out Hn; cbn [nameset_loop].
  - destruct (out !! n) as [x|] eqn:Hx; [|done]. intros; simplify_eq. split; [|done].
    apply lookup_lt_Some in Hx. unfold encs. simpl. rewrite Nat.add_1_r.
    rewrite (take_S_r _ _ 0) by (by rewrite list_lookup_insert_eq). by rewrite take_insert_ge by lia.
  - case_decide as Hname; [done|]. case_decide as Hroom; [done|].
    set (r := nameset_head name d :: name).
    assert (Hr : length r = (1 + length name)%nat) by done.
    assert (Hlen : length (take n out ++ put (drop n out) r) = length out).
    { rewrite length_app, length_put, length_take, length_drop by (rewrite length_drop, Hr; lia). lia. }
    intros H. apply IH in H as [Ht HF]; [|lia]. split.
    + rewrite Ht, encs_cons. change (enc nameset_format (name, d)) with r.
      rewrite <- app_assoc, (app_assoc (take n out)). f_equal.
      rewrite take_app_ge; rewrite length_take_le; try lia. unfold put.
      replace (n + 1 + length name - n)%nat with (length r) by (rewrite Hr; lia).
      by rewrite take_app_length.
    + constructor; [|done]. simpl. unfold GRANT_MAX_NAME in Hname.
      destruct name as [|x name]; [tauto|]. simpl in *.
      destruct (decide (16 < S (length name))%nat); [exfalso; apply Hname; by right|lia].
Qed.

Lemma nameset_round_trip names out n out' :
  nameset_encode names out = Some (n, out') ->
  items nameset_next (take n out') = names /\ items nameset_next out' = names.
Proof.
  unfold nameset_encode. case_decide; [done|]. intros Hloop. apply nameset_loop_ok in Hloop as [Ht HF]; [|lia].
  rewrite take_0 in Ht. cbn [app] in Ht.
  assert (Hgen : forall post, items nameset_next (encs nameset_format names ++ 0 :: post) = names).
  { intros post. apply (items_encs nameset_format); [done|]. simpl. unfold nameset_next.
    by rewrite lookup_mid. }
  split; [by rewrite Ht|].
  rewrite <- (take_drop n out'), Ht, <- app_assoc. apply Hgen.
Qed.

(** ** Room for a new attribute *)

(** Every value is within the bound, as [set] itself keeps it. *)
Definition values_ok (blob : list Z) : Prop :=
  Forall (fun a => length (attr_value a) <= MAX_VALUE)%nat (records blob).

Lemma omap_set_bounded blob name kind value :
  bytes_ok blob -> values_ok blob -> is_valid_name name = true -> (length value <= MAX_VALUE)%nat ->
  Forall (fun a => length (attr_name a) <= XATTR_MAX_NAME /\ length (attr_value a) <= MAX_VALUE)%nat
    (omap (set_one name kind value) (records blob)).
Proof.
  intros Hb Hv Hn Hlen. destruct (records_facts blob (S (length blob)) 0 Hb) as [Hf _].
  apply valid_name_len in Hn. unfold values_ok, records, items in *.
  induction (collect (record_next blob) (S (length blob)) 0) as [|a l IH]; [constructor|].
  apply Forall_cons in Hv as [Hva Hv]. apply Forall_cons in Hf as [[Hna _] Hf].
  rewrite omap_attr_cons. unfold set_one at 1. constructor; [|by apply IH].
  case_bool_decide; cbn [attr_name attr_value fst snd]; lia.
Qed.

Lemma encs_set_length name kind value l :
  (length (encs record_format (omap (set_one name kind value) l)) <=
   length (encs record_format l) + length (filter (fun a => attr_name a = name) l) *
     record_len (length name) (length value))%nat.
Proof.
  induction l as [|a l IH]; [simpl; lia|]. rewrite omap_attr_cons. unfold set_one at 1.
  rewrite filter_cons, !encs_cons, !length_app. cbn [enc record_format].
  case_bool_decide as Ha.
  - rewrite decide_True by done. rewrite (length_record_bytes (name, kind, value)). cbn [attr_name attr_value fst snd length]. lia.
  - rewrite decide_False by done. lia.
Qed.

(** Each name at most once, as [set] keeps it. *)
Definition names_unique (blob : list Z) : Prop := NoDup (attr_name <$> records blob).

Lemma filter_name_unique name (l : list attr) :
  NoDup (attr_name <$> l) -> (length (filter (fun a => attr_name a = name) l) <= 1)%nat.
Proof.
  induction l as [|a l IH]; [simpl; lia|]. rewrite fmap_cons, NoDup_cons, filter_cons. intros [Hn Hd].
  case_decide as Ha; [|by apply IH]. simpl.
  destruct (filter (fun b => attr_name b = name) l) as [|b fl] eqn:Hf; [simpl; lia|].
  exfalso. apply Hn. apply list_elem_of_fmap. exists b.
  assert (Hb : b ∈ filter (fun b => attr_name b = name) l) by (rewrite Hf; left).
  apply list_elem_of_filter in Hb as [Hb ?]. split; [congruence|done].
Qed.

Lemma set_spec_unique name kind value l :
  NoDup (attr_name <$> l) -> NoDup (attr_name <$> set_spec name kind value l).
Proof.
  intros Hd. unfold set_spec. destruct (mentions name l) eqn:Hm.
  - assert (Heq : attr_name <$> omap (set_one name kind value) l = attr_name <$> l); [|by rewrite Heq].
    clear. induction l as [|a l IH]; [done|]. rewrite omap_attr_cons. unfold set_one at 1.
    rewrite !fmap_cons. f_equal; [|done]. by case_bool_decide.
  - rewrite fmap_app. apply NoDup_app. split_and!; [done| |repeat constructor; set_solver].
    intros x Hx Hx'. simpl in Hx'. apply list_elem_of_singleton in Hx' as ->.
    apply list_elem_of_fmap in Hx as (a & Ha & Hin). cbn [attr_name fst] in Ha.
    assert (mentions name l = true); [|congruence]. apply existsb_exists. exists a.
    split; [by apply list_elem_of_In|]. by apply bool_decide_true.
Qed.

(** ** Main theorems *)

(** C34: the attribute blob behaves as a map from names to typed values. A
    successful [set] leaves a blob in which the name has exactly the kind and
    value that were set and every other name what it had; a successful
    [remove] one in which the name is gone and every other name is untouched.
    This holds for any bytes, also a blob whose tail does not parse. *)
Theorem attributes_are_a_map blob name kind value out n out' nm :
  bytes_ok blob -> 0 <= kind ->
  (set blob name kind value out = Ok (n, out') ->
   get (take n out') nm = if decide (nm = name) then Some (kind, value) else get blob nm) /\
  (remove blob name out = Ok (n, out') ->
   get (take n out') nm = if decide (nm = name) then None else get blob nm).
Proof.
  intros Hb Hk. split; intros H; unfold get.
  - rewrite (set_records _ _ _ _ _ _ _ Hb Hk H), find_attr_set_spec. by case_decide.
  - destruct (remove_records _ _ _ _ _ Hb H) as [-> _]. rewrite find_attr_remove. by case_decide.
Qed.

Definition demo_blob : list Z := record_bytes ([97], 1, [7]) ++ record_bytes ([98], 2, [8; 9]).
Definition demo_set : nat * list Z :=
  match set demo_blob [97] 5 [3; 4] (replicate 64 0) with Ok r => r | Err _ => (0%nat, []) end.

Lemma attributes_are_a_map_witness :
  set demo_blob [97] 5 [3; 4] (replicate 64 0) = Ok (demo_set.1, demo_set.2) /\
  get (take demo_set.1 demo_set.2) [97] = Some (5, [3; 4]) /\
  get (take demo_set.1 demo_set.2) [98] = get demo_blob [98] /\ get demo_blob [98] = Some (2, [8; 9]).
Proof.
  assert (Hset : set demo_blob [97] 5 [3; 4] (replicate 64 0) = Ok (demo_set.1, demo_set.2)) by by vm_compute.
  assert (H : forall nm, _) by
    (intros nm; apply (attributes_are_a_map demo_blob [97] 5 [3; 4] (replicate 64 0) demo_set.1 demo_set.2 nm);
     [vm_decide | lia]).
  split_and!; [done | exact (proj1 (H [97]) Hset) | exact (proj1 (H [98]) Hset) | by vm_compute].
Defined.

Lemma set_succeeds blob name kind value out :
  bytes_ok blob -> values_ok blob -> names_unique blob ->
  length out = (length blob + record_len (length name) (length value))%nat ->
  is_valid_name name = true -> (length value <= MAX_VALUE)%nat -> kind <= MAX_KIND ->
  mentions name (records blob) = true \/ (count blob < MAX_COUNT)%nat ->
  exists n out', set blob name kind value out = Ok (n, out') /\ (n <= length out')%nat.
Proof.
  intros Hb Hvals Huniq Hout Hname Hlen Hkind Hroom. unfold set.
  rewrite Hname, decide_False by lia. cbn [negb]. destruct (Z.ltb_spec MAX_KIND kind); [lia|].
  destruct (records_facts blob (S (length blob)) 0 Hb) as [_ Hsize]. rewrite Nat.sub_0_r in Hsize.
  pose proof (encs_set_length name kind value (records blob)) as Hgrow.
  pose proof (filter_name_unique name _ Huniq) as Hone.
  destruct (rewrite_loop_fits (set_one name kind value) (records blob) 0 out)
    as (used & out1 & -> & Hused & Hlen1); [lia|by apply omap_set_bounded| |].
  { unfold records, items in *. nia. }
  destruct (mentions name (records blob)) eqn:Hm.
  - exists used, out1. split; [done|]. unfold records, items in *. nia.
  - destruct Hroom as [|Hroom]; [done|]. rewrite decide_False by lia.
    rewrite set_one_absent in Hused by done. simpl in Hused.
    assert (used + record_len (length name) (length value) <= length out1)%nat
      by (unfold records, items in *; lia).
    destruct (at_tail_record used out1 (name, kind, value)) as [[_ (o & -> & Hlo & _)]|[Hno _]]; [lia| |].
    + exists (used + length (record_bytes (name, kind, value)))%nat, o. split; [done|].
      rewrite length_record_bytes. cbn [attr_name attr_value fst snd]. lia.
    + exfalso. apply Hno. unfold fits_in. rewrite length_record_bytes. cbn [attr_name attr_value fst snd].
      apply valid_name_len in Hname. lia.
Qed.

Lemma set_refused blob name kind value out :
  is_valid_name name = false -> set blob name kind value out = Err ERANGE.
Proof. intros H. unfold set. by rewrite H. Qed.

Lemma set_spec_values name kind value l :
  (length value <= MAX_VALUE)%nat -> Forall (fun a => length (attr_value a) <= MAX_VALUE)%nat l ->
  Forall (fun a => length (attr_value a) <= MAX_VALUE)%nat (set_spec name kind value l).
Proof.
  intros Hv Hl. unfold set_spec. destruct (mentions name l).
  - induction Hl as [|a l Ha _ IH]; [constructor|]. rewrite omap_attr_cons. unfold set_one at 1.
    constructor; [by case_bool_decide|done].
  - apply Forall_app. split; [done|]. apply Forall_cons; split; [exact Hv|constructor].
Qed.

Lemma set_spec_count name kind value l :
  mentions name l = true \/ (length l < MAX_COUNT)%nat -> (length l <= MAX_COUNT)%nat ->
  (length (set_spec name kind value l) <= MAX_COUNT)%nat.
Proof.
  intros Hroom Hl. unfold set_spec. destruct (mentions name l); [by rewrite omap_set_length|].
  destruct Hroom; [done|]. rewrite length_app. simpl. lia.
Qed.

(** With the room the server allocates (the old blob and one more record),
    [set] fails only for the reasons the contract names: a bad name, a value
    over the bound, a kind over the bound, or a seventeenth attribute. When it
    succeeds the blob never holds more than sixteen attributes, never two of
    one name, and never a value over the bound. *)
Theorem set_attribute_outcome blob name kind value out :
  bytes_ok blob -> 0 <= kind -> values_ok blob -> names_unique blob -> (count blob <= MAX_COUNT)%nat ->
  length out = (length blob + record_len (length name) (length value))%nat ->
  match set blob name kind value out with
  | Err e =>
      (e = ERANGE /\ is_valid_name name = false) \/
      (e = E2BIG /\ (MAX_VALUE < length value)%nat) \/
      (e = 22 /\ MAX_KIND < kind) \/
      (e = ENOSPC /\ mentions name (records blob) = false /\ count blob = MAX_COUNT)
  | Ok (n, out') =>
      (n <= length out')%nat /\ (count (take n out') <= MAX_COUNT)%nat /\
      names_unique (take n out') /\ values_ok (take n out')
  end.
Proof.
  intros Hb Hk Hvals Huniq Hcount Hout.
  destruct (is_valid_name name) eqn:Hname; [|rewrite set_refused by done; by left].
  destruct (decide (MAX_VALUE < length value)%nat) as [Hbig|Hlen].
  { unfold set. rewrite Hname, decide_True by done. cbn [negb]. by right; left. }
  destruct (Z.lt_ge_cases MAX_KIND kind) as [Hlt|Hkind].
  { unfold set. rewrite Hname, decide_False by done. cbn [negb].
    destruct (Z.ltb_spec MAX_KIND kind); [by right; right; left|lia]. }
  destruct (decide (mentions name (records blob) = true \/ (count blob < MAX_COUNT)%nat)) as [Hroom|Hfull].
  - destruct (set_succeeds blob name kind value out) as (n & out' & Hset & Hn); try done; [lia|].
    rewrite Hset. unfold count, names_unique, values_ok in *.
    rewrite (set_records _ _ _ _ _ _ _ Hb Hk Hset).
    split_and!; [done|by apply set_spec_count|by apply set_spec_unique|apply set_spec_values; [lia|done]].
  - assert (Hm : mentions name (records blob) = false) by (destruct (mentions name _); tauto).
    unfold set. rewrite Hname, decide_False by done. cbn [negb].
    destruct (Z.ltb_spec MAX_KIND kind); [lia|]. rewrite Hm.
    assert (count blob = MAX_COUNT) by (destruct (decide (count blob < MAX_COUNT)%nat); [tauto|lia]).
    destruct (rewrite_loop_fits (set_one name kind value) (records blob) 0 out)
      as (used & out1 & -> & _ & _); [lia|apply omap_set_bounded; by try lia| |].
    { rewrite set_one_absent by done. destruct (records_facts blob (S (length blob)) 0 Hb) as [_ Hsize].
      unfold records, items in *. lia. }
    rewrite decide_True by lia. right; right; right. done.
Qed.

Lemma set_attribute_outcome_witness :
  exists n out', set (record_bytes ([97], 1, [7])) [98] 5 [3; 4] (replicate 19 0) = Ok (n, out') /\
    (count (take n out') <= MAX_COUNT)%nat /\ names_unique (take n out').
Proof.
  pose proof (set_attribute_outcome (record_bytes ([97], 1, [7])) [98] 5 [3; 4] (replicate 19 0)) as H.
  assert (Hrec : records (record_bytes ([97], 1, [7])) = [([97], 1, [7])]) by by vm_compute.
  assert (Hset : exists n out', set (record_bytes ([97], 1, [7])) [98] 5 [3; 4] (replicate 19 0) = Ok (n, out'))
    by (eexists _, _; by vm_compute).
  destruct Hset as (n & out' & Hset). exists n, out'. rewrite Hset in H. split; [done|].
  destruct H as (_ & Hc & Hn & _); [vm_decide|lia| | | |done|done].
  - unfold values_ok. rewrite Hrec. apply Forall_cons; split; [unfold MAX_VALUE; simpl; lia|constructor].
  - unfold names_unique. rewrite Hrec. repeat constructor. set_solver.
  - unfold count. rewrite Hrec. unfold MAX_COUNT. simpl. lia.
Defined.

(** Every fixed-width message survives the wire: the fields of a request
    word, of a rename's second word and of an attribute reply come back as they
    were packed (an attribute reply is never negative, so never taken for an
    error), the free-space block decodes to what was encoded, and the names a
    grant lists are read back exactly, whatever bytes follow them. *)
Theorem wire_round_trips op handle len kind bs total free names out n out' :
  in_width 8 op -> in_width 16 handle -> in_width 40 len -> in_width 31 kind ->
  in_width 64 bs -> in_width 64 total -> in_width 64 free ->
  (operation (req op handle len) = op /\ req_handle (req op handle len) = handle /\
   req_len (req op handle len) = len) /\
  (dst_handle (rename_dst handle len) = handle /\ dst_len (rename_dst handle len) = len) /\
  (forall vlen, in_width 32 vlen -> reply_errno (xattr_reply kind vlen) = None /\
     reply_kind (xattr_reply kind vlen) = kind /\ reply_value_len (xattr_reply kind vlen) = vlen) /\
  (statfs_encode out bs total free = Some (n, out') -> statfs_decode (take n out') = Some (bs, total, free)) /\
  (nameset_encode names out = Some (n, out') -> items nameset_next out' = names).
Proof.
  intros. split; [by apply req_fields|]. split; [by apply rename_dst_fields|].
  split; [|split].
  - intros vlen Hv. destruct (xattr_reply_fields kind vlen) as ([Hpos _] & Hkv); [done|done|].
    split; [|done]. unfold reply_errno. by destruct (Z.ltb_spec (xattr_reply kind vlen) 0); [lia|].
  - by apply statfs_fields.
  - intros Hn. by apply (nameset_round_trip names out n).
Qed.

Lemma wire_round_trips_witness :
  req_handle (req OPENDIR 3 17) = 3 /\
  exists n out', nameset_encode [([97; 98], true); ([99], false)] (replicate 8 255) = Some (n, out') /\
    items nameset_next out' = [([97; 98], true); ([99], false)].
Proof.
  assert (H : forall n out', _) by
    (intros n out'; apply (wire_round_trips OPENDIR 3 17 0 0 0 0 [([97; 98], true); ([99], false)] (replicate 8 255) n out');
     unfold in_width; by vm_compute).
  split; [apply (H 0%nat [])|]. exists 6%nat, [130; 97; 98; 1; 99; 0; 255; 255].
  destruct (H 6%nat [130; 97; 98; 1; 99; 0; 255; 255]) as (_ & _ & _ & _ & Hn).
  split; [by vm_compute|]. apply Hn. by vm_compute.
Defined.

End FsProtocol.
