(* ===== verification/FileMemo.v ===== *)
(** * What the file server remembers (redoxfs_server/src/memo.rs)

    Directory listings, names found one at a time and small files, each within
    a budget. A node pointer is its id; the maps are finite maps; the counters
    are kept beside them as the source keeps them, and a subtraction that would
    go below zero panics. *)

From S2P Require Import Prelude SubtreeScope.
Local Open Scope Z_scope.

Module FileMemo.
Import SubtreeScope.

Definition FILE_MAX : Z := 256 * 1024.
Definition FILE_BUDGET : Z := 2 * 1024 * 1024.
Definition NAME_BUDGET : Z := 16 * 1024.

Record Child := MkChild { c_name : list Z; c_ptr : Z; c_kind : Kind.t }.

Record Memo := MkMemo {
  listings : gmap Z (list Child);
  found : gmap Z (gmap (list Z) (Z * Kind.t));
  names : Z;
  files : gmap Z (list Z);
  file_bytes : Z;
  large : gset Z }.

Definition empty_memo : Memo := MkMemo ∅ ∅ 0 ∅ 0 ∅.

Definition len {A} (l : list A) : Z := Z.of_nat (length l).

(** [a - b] on [usize]. *)
Definition minus (a b : Z) : run Z := if b <=? a then Done (a - b) else Panicked.

(** [str]'s order: bytewise, a prefix before what extends it. *)
Fixpoint cmp (a b : list Z) : comparison :=
  match a, b with
  | [], [] => Eq
  | [], _ :: _ => Lt
  | _ :: _, [] => Gt
  | x :: a', y :: b' => match Z.compare x y with Eq => cmp a' b' | c => c end
  end.

Definition forget_files (m : Memo) : Memo := MkMemo (listings m) (found m) (names m) ∅ 0 ∅.
Definition forget (m : Memo) : Memo := forget_files (MkMemo ∅ ∅ 0 (files m) (file_bytes m) (large m)).
Definition forget_names (m : Memo) : Memo := MkMemo ∅ ∅ 0 (files m) (file_bytes m) (large m).

Definition forget_file (m : Memo) (ptr : Z) : run Memo :=
  match files m !! ptr with
  | Some body =>
      fb ← minus (file_bytes m) (len body);
      Done (MkMemo (listings m) (found m) (names m) (delete ptr (files m)) fb (large m ∖ {[ptr]}))
  | None => Done (MkMemo (listings m) (found m) (names m) (files m) (file_bytes m) (large m ∖ {[ptr]}))
  end.

Definition listing (m : Memo) (dir : Z) : option (list Child) := listings m !! dir.

Definition keep_listing (m : Memo) (dir : Z) (children : list Child) : run Memo :=
  if NAME_BUDGET <? len children then Done m else
  let m := if NAME_BUDGET <? names m + len children then forget_names m else m in
  n ← match found m !! dir with
      | Some f => minus (names m) (Z.of_nat (size f))
      | None => Done (names m)
      end;
  let n := n + len children in
  n' ← match listings m !! dir with
       | Some old => minus n (len old)
       | None => Done n
       end;
  Done (MkMemo (<[dir := children]> (listings m)) (delete dir (found m)) n' (files m) (file_bytes m) (large m)).

Definition keep_found (m : Memo) (dir : Z) (name : list Z) (child : Z) (kind : Kind.t) : Memo :=
  match listings m !! dir with
  | Some _ => m
  | None =>
      let m := if NAME_BUDGET <? names m + 1 then forget_names m else m in
      let f := default ∅ (found m !! dir) in
      MkMemo (listings m) (<[dir := <[name := (child, kind)]> f]> (found m))
        (match f !! name with None => names m + 1 | Some _ => names m end)
        (files m) (file_bytes m) (large m)
  end.

(** [binary_search_by]: the standard library's loop, which halves [size]
    until one candidate is left; [fuel] is the slice's length. *)
Fixpoint search_loop (l : list Child) (name : list Z) (fuel base size : nat) : nat :=
  match fuel with
  | O => base
  | S fuel' =>
      if decide (size <= 1)%nat then base else
      let half := (size / 2)%nat in
      let mid := (base + half)%nat in
      let c := match l !! mid with Some ch => cmp (c_name ch) name | None => Gt end in
      search_loop l name fuel' (match c with Gt => base | _ => mid end) (size - half)
  end.

Definition binary_search (l : list Child) (name : list Z) : option nat :=
  if decide (length l = 0)%nat then None else
  let base := search_loop l name (length l) 0 (length l) in
  match l !! base with
  | Some ch => match cmp (c_name ch) name with Eq => Some base | _ => None end
  | None => None
  end.

Definition memo_lookup (m : Memo) (dir : Z) (name : list Z) : option (option (Z * Kind.t)) :=
  match listing m dir with
  | None =>
      match found m !! dir with
      | None => None
      | Some f => match f !! name with Some c => Some (Some c) | None => None end
      end
  | Some l =>
      Some (match binary_search l name with
            | Some i => match l !! i with Some ch => Some (c_ptr ch, c_kind ch) | None => None end
            | None => None
            end)
  end.

Definition file (m : Memo) (ptr : Z) : option (list Z) := files m !! ptr.
Definition would_keep (sz : Z) : bool := sz <=? FILE_MAX.
Definition is_large (m : Memo) (ptr : Z) : bool := bool_decide (ptr ∈ large m).
Definition mark_large (m : Memo) (ptr : Z) : Memo :=
  MkMemo (listings m) (found m) (names m) (files m) (file_bytes m) ({[ptr]} ∪ large m).

Definition keep_file (m : Memo) (ptr : Z) (body : list Z) : run Memo :=
  if FILE_MAX <? len body then Done m else
  let m := if FILE_BUDGET <? file_bytes m + len body then forget_files m else m in
  let fb := file_bytes m + len body in
  fb' ← match files m !! ptr with
        | Some old => minus fb (len old)
        | None => Done fb
        end;
  Done (MkMemo (listings m) (found m) (names m) (<[ptr := body]> (files m)) fb' (large m)).

(** ** The counters are exact and within their budgets *)

Definition sum_map {K} `{Countable K} {A} (f : A -> Z) (m : gmap K A) : Z :=
  map_fold (fun _ a acc => f a + acc) 0 m.

Record memo_inv (m : Memo) : Prop := MkMemoInv {
  inv_names : names m = sum_map len (listings m) + sum_map (fun f => Z.of_nat (size f)) (found m);
  inv_budget : names m <= NAME_BUDGET;
  inv_disjoint : forall d, is_Some (listings m !! d) -> found m !! d = None;
  inv_bytes : file_bytes m = sum_map len (files m);
  inv_fbudget : file_bytes m <= FILE_BUDGET;
  inv_fmax : forall p b, files m !! p = Some b -> len b <= FILE_MAX }.

Section sum_map.
Context {K} `{Countable K} {A : Type} (f : A -> Z).
Implicit Types m : gmap K A.

Lemma sum_map_empty : sum_map f (∅ : gmap K A) = 0.
Proof. apply map_fold_empty. Qed.

Lemma sum_map_insert m k a : m !! k = None -> sum_map f (<[k := a]> m) = f a + sum_map f m.
Proof. intros. unfold sum_map. apply (map_fold_insert_L (fun _ a acc => f a + acc) 0 k a m); [|done]. intros; lia. Qed.

Lemma sum_map_delete m k a : m !! k = Some a -> sum_map f m = f a + sum_map f (delete k m).
Proof. intros. unfold sum_map. apply (map_fold_delete_L (fun _ a acc => f a + acc) 0 k a m); [|done]. intros; lia. Qed.

Lemma sum_map_nonneg m : (forall a, 0 <= f a) -> 0 <= sum_map f m.
Proof.
  intros Hf. induction m as [|k a m Hk IH] using map_ind; [by rewrite sum_map_empty|].
  rewrite sum_map_insert by done. specialize (Hf a). lia.
Qed.

Lemma sum_map_replace m k a :
  sum_map f (<[k := a]> m) = f a + sum_map f m - match m !! k with Some b => f b | None => 0 end.
Proof.
  destruct (m !! k) as [b|] eqn:Hk.
  - rewrite (sum_map_delete m k b), <- insert_delete_eq, sum_map_insert by (done || apply lookup_delete_eq). lia.
  - rewrite sum_map_insert by done. lia.
Qed.

Lemma sum_map_remove m k :
  sum_map f (delete k m) = sum_map f m - match m !! k with Some b => f b | None => 0 end.
Proof.
  destruct (m !! k) as [b|] eqn:Hk; [rewrite (sum_map_delete m k b) by done; lia|].
  rewrite delete_id by done. lia.
Qed.
End sum_map.

Lemma len_nonneg {A} (l : list A) : 0 <= len l.
Proof. unfold len. lia. Qed.

Lemma sum_len_bound {A} (m : gmap Z (list A)) k b : m !! k = Some b -> len b <= sum_map len m.
Proof.
  intros Hk. rewrite (sum_map_delete len m k b Hk).
  pose proof (sum_map_nonneg len (delete k m) len_nonneg). lia.
Qed.

Definition fsize (f : gmap (list Z) (Z * Kind.t)) : Z := Z.of_nat (size f).
Lemma fsize_nonneg f : 0 <= fsize f.
Proof. unfold fsize. lia. Qed.

Lemma minus_ok a b : b <= a -> minus a b = Done (a - b).
Proof. intros. unfold minus. by destruct (Z.leb_spec b a); [|lia]. Qed.

Lemma empty_memo_inv : memo_inv empty_memo.
Proof. constructor; simpl; rewrite ?sum_map_empty; try done. Qed.

Lemma forget_files_inv m : memo_inv m -> memo_inv (forget_files m).
Proof. intros []. constructor; simpl; rewrite ?sum_map_empty; try done. Qed.

Lemma forget_names_inv m : memo_inv m -> memo_inv (forget_names m).
Proof. intros []. constructor; simpl; rewrite ?sum_map_empty; try done. Qed.

Lemma forget_inv m : memo_inv m -> memo_inv (forget m).
Proof. intros Hm. by apply (forget_files_inv (forget_names m)), forget_names_inv. Qed.

Lemma mark_large_inv m p : memo_inv m -> memo_inv (mark_large m p).
Proof. intros []. by constructor. Qed.

Lemma forget_file_inv m p : memo_inv m -> exists m', forget_file m p = Done m' /\ memo_inv m'.
Proof.
  intros []. unfold forget_file. destruct (files m !! p) as [b|] eqn:Hp; [|eexists; split; [done|by constructor]].
  pose proof (sum_len_bound _ _ _ Hp). rewrite minus_ok by lia. cbn [mbind run_bind].
  eexists. split; [done|]. pose proof (len_nonneg b). constructor; simpl; try done.
  - rewrite sum_map_remove, Hp. lia.
  - lia.
  - intros q c Hq. apply lookup_delete_Some in Hq as [_ Hq]. eauto.
Qed.

Lemma keep_file_inv m p b : memo_inv m -> exists m', keep_file m p b = Done m' /\ memo_inv m'.
Proof.
  intros Hm. unfold keep_file. destruct (Z.ltb_spec FILE_MAX (len b)); [by eauto|].
  assert (Hroom : exists m0, (if FILE_BUDGET <? file_bytes m + len b then forget_files m else m) = m0 /\
            memo_inv m0 /\ file_bytes m0 + len b <= FILE_BUDGET).
  { eexists. split; [done|]. destruct (Z.ltb_spec FILE_BUDGET (file_bytes m + len b)).
    - split; [by apply forget_files_inv|]. simpl. unfold FILE_MAX, FILE_BUDGET in *. lia.
    - done. }
  destruct Hroom as (m0 & -> & [] & Hb). pose proof (len_nonneg b).
  assert (Hold : match files m0 !! p with Some o => len o | None => 0 end <= sum_map len (files m0)).
  { destruct (files m0 !! p) eqn:Hp; [by eapply sum_len_bound|]. apply sum_map_nonneg, len_nonneg. }
  exists (MkMemo (listings m0) (found m0) (names m0) (<[p := b]> (files m0))
           (file_bytes m0 + len b - match files m0 !! p with Some o => len o | None => 0 end) (large m0)).
  split.
  - destruct (files m0 !! p); [rewrite minus_ok by lia|]; cbn [mbind run_bind]; do 2 f_equal; lia.
  - assert (0 <= match files m0 !! p with Some o => len o | None => 0 end)
      by (destruct (files m0 !! p); [apply len_nonneg|lia]).
    constructor; simpl; try done.
    + rewrite sum_map_replace. lia.
    + lia.
    + intros q c Hq. apply lookup_insert_Some in Hq as [[_ <-]|[_ Hq]]; [lia|eauto].
Qed.

Lemma keep_found_inv m d nm c k : memo_inv m -> memo_inv (keep_found m d nm c k).
Proof.
  intros Hm. unfold keep_found. destruct (listings m !! d) as [l|] eqn:Hd; [done|].
  assert (Hroom : exists m0, (if NAME_BUDGET <? names m + 1 then forget_names m else m) = m0 /\
            memo_inv m0 /\ names m0 + 1 <= NAME_BUDGET /\ listings m0 !! d = None).
  { eexists. split; [done|]. destruct (Z.ltb_spec NAME_BUDGET (names m + 1)); [|done].
    split_and!; [by apply forget_names_inv|done|done]. }
  destruct Hroom as (m0 & -> & [] & Hb & Hd0). constructor; simpl; try done.
  - rewrite sum_map_replace. destruct (found m0 !! d) as [f|] eqn:Hf; simpl.
    + destruct (f !! nm) as [?|] eqn:Hn; [rewrite map_size_insert_Some by eauto|rewrite map_size_insert_None by done]; lia.
    + rewrite lookup_empty, map_size_insert_None, map_size_empty by apply lookup_empty. lia.
  - destruct (default ∅ (found m0 !! d) !! nm); lia.
  - intros e He. destruct (decide (e = d)) as [->|]; [rewrite Hd0 in He; by destruct He|].
    rewrite lookup_insert_ne by done. auto.
Qed.

Lemma keep_listing_inv m d l : memo_inv m -> exists m', keep_listing m d l = Done m' /\ memo_inv m'.
Proof.
  intros Hm. unfold keep_listing. destruct (Z.ltb_spec NAME_BUDGET (len l)); [by eauto|].
  assert (Hroom : exists m0, (if NAME_BUDGET <? names m + len l then forget_names m else m) = m0 /\
            memo_inv m0 /\ names m0 + len l <= NAME_BUDGET).
  { eexists. split; [done|]. destruct (Z.ltb_spec NAME_BUDGET (names m + len l)); [|done].
    split; [by apply forget_names_inv|done]. }
  destruct Hroom as (m0 & -> & [] & Hb). pose proof (len_nonneg l).
  set (o1 := match found m0 !! d with Some f => fsize f | None => 0 end).
  set (o2 := match listings m0 !! d with Some l => len l | None => 0 end).
  pose proof (sum_map_remove fsize (found m0) d) as Hf. fold o1 in Hf.
  pose proof (sum_map_replace len (listings m0) d l) as Hl. fold o2 in Hl.
  pose proof (sum_map_nonneg fsize (delete d (found m0)) fsize_nonneg).
  pose proof (sum_map_remove len (listings m0) d) as Hl2. fold o2 in Hl2.
  pose proof (sum_map_nonneg len (delete d (listings m0)) len_nonneg).
  assert (0 <= o1 /\ 0 <= o2) as [? ?].
  { subst o1 o2. split; [destruct (found m0 !! d); [apply fsize_nonneg|done] |
      destruct (listings m0 !! d); [apply len_nonneg|done]]. }
  change (sum_map (fun f => Z.of_nat (size f)) (found m0)) with (sum_map fsize (found m0)) in *.
  exists (MkMemo (<[d := l]> (listings m0)) (delete d (found m0)) (names m0 - o1 + len l - o2)
           (files m0) (file_bytes m0) (large m0)). split.
  - subst o1 o2. destruct (found m0 !! d) as [f|]; [rewrite (minus_ok (names m0)) by (unfold fsize in *; lia)|];
      cbn [mbind run_bind]; (destruct (listings m0 !! d); [rewrite minus_ok by (unfold fsize in *; lia)|]);
      cbn [mbind run_bind]; do 2 f_equal; unfold fsize; lia.
  - constructor; simpl; try done.
    + change (sum_map (fun f => Z.of_nat (size f)) (delete d (found m0))) with (sum_map fsize (delete d (found m0))). lia.
    + lia.
    + intros e He. destruct (decide (e = d)) as [->|]; [apply lookup_delete_eq|].
      rewrite lookup_delete_ne, lookup_insert_ne in * by done. auto.
Qed.

(** ** Names are ordered, and the search finds what is there *)

Lemma cmp_eq a b : cmp a b = Eq <-> a = b.
Proof.
  revert b. induction a as [|x a IH]; intros [|y b]; simpl; [done|done|done|].
  destruct (Z.compare_spec x y) as [->|Hlt|Hgt]; [rewrite IH; split; congruence| |]; split; try done;
    intros; simplify_eq; lia.
Qed.

Lemma cmp_opp a b : cmp b a = CompOpp (cmp a b).
Proof.
  revert b. induction a as [|x a IH]; intros [|y b]; simpl; [done|done|done|].
  rewrite Z.compare_antisym. destruct (Z.compare x y); simpl; auto.
Qed.

Lemma cmp_lt_trans a b c : cmp a b = Lt -> cmp b c = Lt -> cmp a c = Lt.
Proof.
  revert b c. induction a as [|x a IH]; intros [|y b] [|z c]; simpl; try done.
  destruct (Z.compare x y) eqn:Hxy; [|intros _|done].
  - apply Z.compare_eq_iff in Hxy as ->. intros. destruct (Z.compare y z) eqn:Hyz; [by eapply IH|done|done].
  - destruct (Z.compare y z) eqn:Hyz; [|intros _|done].
    + apply Z.compare_eq_iff in Hyz as <-. by rewrite Hxy.
    + rewrite Z.compare_lt_iff in Hxy, Hyz. by rewrite (proj2 (Z.compare_lt_iff x z)) by lia.
Qed.

Definition by_name (a b : Child) : Prop := cmp (c_name a) (c_name b) = Lt.

(** The child of a given name in a listing. *)
Definition child_named (l : list Child) (name : list Z) : option (Z * Kind.t) :=
  match list_find (fun ch => c_name ch = name) l with
  | Some (_, ch) => Some (c_ptr ch, c_kind ch)
  | None => None
  end.

Lemma sorted_lookup l i j a b :
  StronglySorted by_name l -> l !! i = Some a -> l !! j = Some b -> (i < j)%nat -> by_name a b.
Proof.
  intros Hs. revert i j. induction Hs as [|x l Hs IH Hx]; intros i j Hi Hj Hij; [done|].
  destruct i as [|i], j as [|j]; try lia; simplify_eq/=.
  - by eapply Forall_lookup_1.
  - apply (IH i j); (done || lia).
Qed.

Lemma sorted_unique l i j a b :
  StronglySorted by_name l -> l !! i = Some a -> l !! j = Some b -> c_name a = c_name b -> i = j.
Proof.
  intros Hs Hi Hj Heq. destruct (Nat.lt_total i j) as [Hlt|[?|Hlt]]; [|done|];
    eapply sorted_lookup in Hlt; eauto; unfold by_name in Hlt;
    assert (Hx : cmp (c_name a) (c_name b) = Eq) by (by apply cmp_eq);
    rewrite ?Heq in *; congruence.
Qed.

(** The loop keeps the one candidate inside its window. *)
Lemma search_loop_finds l name j ch fuel base sz :
  StronglySorted by_name l -> l !! j = Some ch -> c_name ch = name ->
  (base <= j < base + sz)%nat -> (base + sz <= length l)%nat -> (sz <= fuel + 1)%nat ->
  search_loop l name fuel base sz = j.
Proof.
  intros Hs Hj Hn. revert base sz. induction fuel as [|fuel IH]; intros base sz Hin Hlen Hf; cbn [search_loop]; [lia|].
  case_decide; [lia|]. pose proof (Nat.div_lt sz 2 ltac:(lia) ltac:(lia)).
  pose proof (Nat.div_str_pos sz 2 ltac:(lia)). pose proof (Nat.Div0.div_mod sz 2).
  pose proof (Nat.mod_upper_bound sz 2 ltac:(lia)).
  set (half := (sz / 2)%nat) in *.
  destruct (lookup_lt_is_Some_2 l (base + half)) as [m Hm]; [lia|]. rewrite Hm.
  destruct (cmp (c_name m) name) eqn:Hc.
  - apply cmp_eq in Hc. assert (base + half = j)%nat by (eapply sorted_unique; eauto; congruence).
    apply IH; lia.
  - assert (~ (j < base + half)%nat).
    { intros Hlt. eapply sorted_lookup in Hlt; eauto. unfold by_name in Hlt.
      rewrite cmp_opp, Hn, Hc in Hlt. done. }
    apply IH; lia.
  - assert (j < base + half)%nat; [|apply IH; lia].
    destruct (Nat.lt_total j (base + half)) as [|[->|Hlt]]; [done| |].
    + rewrite Hm in Hj. simplify_eq. rewrite (proj2 (cmp_eq _ _)) in Hc by done. done.
    + eapply sorted_lookup in Hlt; eauto. unfold by_name in Hlt. rewrite Hn in Hlt. congruence.
Qed.

Lemma binary_search_correct l name :
  StronglySorted by_name l ->
  match binary_search l name with
  | Some i => exists ch, l !! i = Some ch /\ c_name ch = name
  | None => forall i ch, l !! i = Some ch -> c_name ch <> name
  end.
Proof.
  intros Hs. destruct (binary_search l name) as [i|] eqn:Hb.
  - unfold binary_search in Hb. case_decide; [done|].
    destruct (l !! _) as [ch|] eqn:Hl; [|done]. destruct (cmp (c_name ch) name) eqn:Hc; simplify_eq.
    exists ch. split; [done|]. by apply cmp_eq.
  - intros i ch Hi Hn. unfold binary_search in Hb. pose proof (lookup_lt_Some _ _ _ Hi).
    rewrite decide_False in Hb by lia.
    rewrite (search_loop_finds l name i ch), Hi in Hb by (done || lia).
    by rewrite (proj2 (cmp_eq _ _)) in Hb by done.
Qed.

Lemma child_named_spec l name i ch :
  StronglySorted by_name l -> l !! i = Some ch -> c_name ch = name ->
  child_named l name = Some (c_ptr ch, c_kind ch).
Proof.
  intros Hs Hi Hn. unfold child_named. destruct (list_find _ l) as [[j c]|] eqn:Hf.
  - apply list_find_Some in Hf as (Hj & Hc & _).
    assert (i = j) as <- by (eapply sorted_unique; eauto; congruence). by simplify_eq.
  - apply list_find_None in Hf. by eapply Forall_lookup_1 in Hf; [|exact Hi].
Qed.

Lemma memo_listing_lookup m d l name :
  listings m !! d = Some l -> StronglySorted by_name l ->
  memo_lookup m d name = Some (child_named l name).
Proof.
  intros Hd Hs. unfold memo_lookup, listing. rewrite Hd. f_equal.
  pose proof (binary_search_correct l name Hs) as Hb. destruct (binary_search l name) as [i|].
  - destruct Hb as (ch & Hi & Hn). rewrite Hi. symmetry. by eapply child_named_spec.
  - unfold child_named. destruct (list_find _ l) as [[j c]|] eqn:Hf; [|done].
    apply list_find_Some in Hf as (Hj & Hc & _). by destruct (Hb j c Hj).
Qed.

(** ** Agreement with the file system

    [tree] is what the engine answers for a name in a directory. A memo agrees
    with it when every name it would answer is answered the same; names that
    are not [visible] are never asked for. *)

Definition ENOENT : Z := 2.

Section agreement.
Context (visible : list Z -> Prop).

Record memo_agrees (tree : Z -> list Z -> result Z (Z * Kind.t)) (m : Memo) : Prop := MkAgrees {
  agree_listing : forall d l, listings m !! d = Some l ->
    StronglySorted by_name l /\
    forall nm, visible nm -> tree d nm = match child_named l nm with Some c => Ok c | None => Err ENOENT end;
  agree_found : forall d f nm c, found m !! d = Some f -> f !! nm = Some c -> tree d nm = Ok c }.

Lemma memo_lookup_agrees tree m d nm r :
  memo_agrees tree m -> visible nm -> memo_lookup m d nm = Some r ->
  tree d nm = match r with Some c => Ok c | None => Err ENOENT end.
Proof.
  intros [Hl Hf] Hv. destruct (listings m !! d) as [l|] eqn:Hd.
  - destruct (Hl d l Hd) as [Hs Hall]. rewrite (memo_listing_lookup _ _ _ _ Hd Hs).
    intros; simplify_eq. by apply Hall.
  - unfold memo_lookup, listing. rewrite Hd. destruct (found m !! d) as [f|] eqn:Hfd; [|done].
    destruct (f !! nm) eqn:Hn; intros; simplify_eq. by eapply Hf.
Qed.

(** Agreement only looks at the two name caches, which hold what is there and that
    something is not: an answer that is another error may change. *)
Lemma agrees_kept tree tree' m m' :
  memo_agrees tree m -> listings m' = listings m -> found m' = found m ->
  (forall d nm, (forall c, tree d nm = Ok c -> tree' d nm = Ok c) /\ (tree d nm = Err ENOENT -> tree' d nm = Err ENOENT)) ->
  memo_agrees tree' m'.
Proof.
  intros [Hl Hf] H1 H2 Ht. constructor; rewrite ?H1, ?H2.
  - intros d l Hd. destruct (Hl d l Hd) as [Hs Hall]. split; [done|]. intros nm Hv. specialize (Hall nm Hv). destruct (Ht d nm) as [T1 T2]. destruct (child_named l nm); auto.
  - intros d f nm c Hd Hn. apply (Ht d nm). eauto.
Qed.

Lemma agrees_same_names tree tree' m m' :
  memo_agrees tree m -> listings m' = listings m -> found m' = found m ->
  (forall d nm, tree' d nm = tree d nm) -> memo_agrees tree' m'.
Proof. intros Hm H1 H2 Ht. apply (agrees_kept tree _ m); [done..|]. intros d nm. by rewrite Ht. Qed.

Lemma forget_names_agrees tree m : memo_agrees tree (forget_names m).
Proof. constructor; simpl; intros; by simplify_map_eq. Qed.

Lemma forget_agrees tree m : memo_agrees tree (forget m).
Proof. constructor; simpl; intros; by simplify_map_eq. Qed.

Lemma forget_file_names m p m' :
  forget_file m p = Done m' -> listings m' = listings m /\ found m' = found m.
Proof.
  unfold forget_file. destruct (files m !! p); [destruct (minus _ _); [|done]|]; cbn; intros; by simplify_eq.
Qed.

Lemma keep_file_names m p b m' :
  keep_file m p b = Done m' -> listings m' = listings m /\ found m' = found m.
Proof.
  unfold keep_file. destruct (_ <? len b); [by intros; simplify_eq|].
  destruct (FILE_BUDGET <? _); destruct (files _ !! p); cbn [mbind run_bind];
    try (destruct (minus _ _); [|done]); cbn [mbind run_bind]; intros; by simplify_eq.
Qed.

Lemma keep_found_agrees tree m d nm c k :
  memo_agrees tree m -> tree d nm = Ok (c, k) -> memo_agrees tree (keep_found m d nm c k).
Proof.
  intros Hm Ht. unfold keep_found. destruct (listings m !! d); [done|].
  assert (Hm0 : memo_agrees tree (if NAME_BUDGET <? names m + 1 then forget_names m else m))
    by (destruct (_ <? _); [by apply forget_names_agrees|done]).
  destruct Hm0 as [Hl Hf]. constructor; simpl; eauto.
  intros e f n x He Hn. apply lookup_insert_Some in He as [[<- <-]|[_ He]]; [|eauto].
  apply lookup_insert_Some in Hn as [[<- <-]|[_ Hn]]; [done|].
  destruct (found _ !! d) as [f|] eqn:Hfd; simpl in Hn; [eauto|]. by rewrite lookup_empty in Hn.
Qed.

Lemma keep_listing_agrees tree m d l m' :
  memo_agrees tree m -> StronglySorted by_name l ->
  (forall nm, visible nm -> tree d nm = match child_named l nm with Some c => Ok c | None => Err ENOENT end) ->
  keep_listing m d l = Done m' -> memo_agrees tree m'.
Proof.
  intros Hm Hs Ht. unfold keep_listing. destruct (_ <? len l); [by intros; simplify_eq|].
  assert (Hm0 : memo_agrees tree (if NAME_BUDGET <? names m + len l then forget_names m else m))
    by (destruct (_ <? _); [by apply forget_names_agrees|done]).
  destruct Hm0 as [Hl Hf]. set (m0 := if _ <? _ then _ else _) in *. clearbody m0.
  destruct (match found m0 !! d with Some f => _ | None => _ end) as [n|]; [|done]. cbn [mbind run_bind].
  destruct (match listings m0 !! d with Some o => _ | None => _ end) as [n'|]; [|done]. cbn [mbind run_bind].
  intros; simplify_eq. constructor; simpl; eauto.
  - intros e l' He. apply lookup_insert_Some in He as [[<- <-]|[_ He]]; [done|eauto].
  - intros e f nm c He Hn. apply lookup_delete_Some in He as [_ He]. eauto.
Qed.

End agreement.

(** ** Any sequence of operations *)

Inductive MemoOp :=
  | OpForget | OpForgetFile (p : Z) | OpKeepListing (d : Z) (l : list Child)
  | OpKeepFound (d : Z) (nm : list Z) (c : Z) (k : Kind.t) | OpKeepFile (p : Z) (b : list Z) | OpMarkLarge (p : Z).

Definition memo_op (m : Memo) (o : MemoOp) : run Memo :=
  match o with
  | OpForget => Done (forget m)
  | OpForgetFile p => forget_file m p
  | OpKeepListing d l => keep_listing m d l
  | OpKeepFound d nm c k => Done (keep_found m d nm c k)
  | OpKeepFile p b => keep_file m p b
  | OpMarkLarge p => Done (mark_large m p)
  end.

Definition memo_ops (ops : list MemoOp) : run Memo :=
  foldl (fun rm o => m ← rm; memo_op m o) (Done empty_memo) ops.

Lemma memo_op_inv m o : memo_inv m -> exists m', memo_op m o = Done m' /\ memo_inv m'.
Proof.
  intros Hm. destruct o; simpl; eauto using forget_inv, forget_file_inv, keep_listing_inv,
    keep_found_inv, keep_file_inv, mark_large_inv.
Qed.

(** The memo stays within its budgets and its counters stay exact. After
    any sequence of operations, none of which panics, the name counter is the
    number of names held (at most 16384) and the byte counter the number of
    file bytes held (at most 2 MiB, each file at most 256 KiB), and no
    directory is both listed and remembered name by name. *)
Theorem memo_stays_in_budget ops :
  exists m, memo_ops ops = Done m /\
    names m = sum_map len (listings m) + sum_map (fun f => Z.of_nat (size f)) (found m) /\
    names m <= 16384 /\
    file_bytes m = sum_map len (files m) /\ file_bytes m <= 2097152 /\
    (forall p b, files m !! p = Some b -> len b <= 262144) /\
    (forall d, is_Some (listings m !! d) -> found m !! d = None).
Proof.
  assert (H : exists m, memo_ops ops = Done m /\ memo_inv m).
  { unfold memo_ops. generalize empty_memo_inv. generalize empty_memo. induction ops as [|o ops IH]; intros m Hm.
    - by exists m.
    - destruct (memo_op_inv m o Hm) as (m' & Ho & Hm'). simpl. rewrite Ho. by apply IH. }
  destruct H as (m & Hm & []). by exists m.
Qed.

End FileMemo.
