(* ===== verification/FileServer.v ===== *)
(** * The file server (redoxfs_server/src/lib.rs and its serve loop in
    redoxfs_server/src/bin/redoxfs_server.rs)

    Handles, their owners and their rights, the verbs of the file contract and
    the dispatch of one request. The RedoxFS engine is third-party code: the
    operations the server calls are the fields of the class [Engine], over a
    state [ES] the model never looks inside. A node pointer is its id, an error
    is its errno, a name is its bytes. *)

From S2P Require Import Prelude SubtreeScope FsProtocol FileMemo.
Local Open Scope Z_scope.

Module FileServer.
Import SubtreeScope FsProtocol FileMemo.

Definition EPERM : Z := 1.
Definition EIO : Z := 5.
Definition EBADF : Z := 9.
Definition EEXIST : Z := 17.
Definition ENOTDIR : Z := 20.
Definition EISDIR : Z := 21.
Definition EINVAL : Z := 22.
Definition EROFS : Z := 30.
Definition ENOTEMPTY : Z := 39.
Definition BLOCK : Z := 4096.

(** ** The engine *)

(** What a node's data says: a [TreeData<Node>] with its pointer. *)
Record Node := MkNode {
  n_ptr : Z; n_is_dir : bool; n_is_symlink : bool; n_links : Z; n_size : Z; n_mtime : Z }.

Definition MODE_FILE : Z := 0x8000.
Definition MODE_DIR : Z := 0x4000.

(** The engine's operations on a transaction. Those that free nodes read the
    count of open handles per node. *)
Class Engine (ES : Type) := {
  find_node : ES -> Z -> list Z -> result Z Node;
  read_tree : ES -> Z -> result Z Node;
  child_nodes : ES -> Z -> result Z (list (option (list Z) * Z));
  read_node : ES -> Z -> Z -> Z -> result Z (list Z);
  create_node : Z -> list Z -> Z -> Z -> ES -> result Z (Node * ES);
  write_node : Z -> Z -> list Z -> Z -> ES -> result Z (Z * ES);
  truncate_node : Z -> Z -> Z -> ES -> result Z ES;
  sync_mtime : Node -> Z -> ES -> result Z ES;
  rename_node : gmap Z Z -> Z -> list Z -> Z -> list Z -> ES -> result Z ES;
  remove_node : gmap Z Z -> Z -> list Z -> Z -> ES -> result Z (option Z * ES);
  release_unused_nodes : gmap Z Z -> ES -> result Z ES;
  commit : ES -> result Z ES;
  release_is_null : ES -> bool;
  header_size : ES -> Z;
  allocator_free : ES -> Z
}.

(** The node every image starts at, [TreePtr::root()]. *)
Definition tree_root : Z := 1.

Definition kind_of (n : Node) : Kind.t :=
  if n_is_dir n then Kind.Directory else if n_is_symlink n then Kind.Symlink else Kind.File.

(** ** Names *)

Definition BACKSLASH : Z := 92.
Definition COLON : Z := 58.

Definition check_component (name : list Z) : result Z unit :=
  if negb (is_name name) || bool_decide (name = STORE_DIR) || contains name BACKSLASH || contains name COLON
  then Err EINVAL else Ok tt.

Fixpoint check_components (steps : list (list Z)) : result Z unit :=
  match steps with
  | [] => Ok tt
  | step :: steps' => match check_component step with Err e => Err e | Ok _ => check_components steps' end
  end.

Definition refused (r : Refusal) : Z := errno r.

(** ** The server's state *)

Section server.
Context {ES : Type} `{Engine ES}.

(** [FileSystem]: the image, and the engine's open count per node, which a
    transaction that fails does not undo. *)
Record FS := MkFS { image : ES; node_usages : gmap Z Z }.

Inductive Entry := Dir (ptr : Z) (rights : Rights) | File (ptr : Z) (rights : Rights).

Record Server := MkServer {
  fs : FS; handles : list (option Entry); clock : Z; memo : Memo; owners : list Z; bindings : Bindings }.

Definition open_server (es : ES) : Server :=
  MkServer (MkFS es ∅) [Some (Dir tree_root (root ALL))] 1 empty_memo [0] (new CLIENT_WINDOWS).

Definition set_fs (s : Server) (f : FS) : Server :=
  MkServer f (handles s) (clock s) (memo s) (owners s) (bindings s).
Definition set_memo (s : Server) (m : Memo) : Server :=
  MkServer (fs s) (handles s) (clock s) m (owners s) (bindings s).
Definition set_handles (s : Server) (h : list (option Entry)) (o : list Z) : Server :=
  MkServer (fs s) h (clock s) (memo s) o (bindings s).
Definition set_bindings (s : Server) (b : Bindings) : Server :=
  MkServer (fs s) (handles s) (clock s) (memo s) (owners s) b.

(** A method of the server: it may panic, it may fail, and what it changed
    before failing stays changed. *)
Definition M (A : Type) : Type := Server -> run (result Z A * Server).

Definition ret {A} (a : A) : M A := fun s => Done (Ok a, s).
Definition fail {A} (e : Z) : M A := fun s => Done (Err e, s).
Definition bindM {A B} (m : M A) (f : A -> M B) : M B := fun s =>
  match m s with
  | Done (Ok a, s') => f a s'
  | Done (Err e, s') => Done (Err e, s')
  | Panicked => Panicked
  end.
Notation "x ←! m ; f" := (bindM m (fun x => f)) (at level 20, m at level 100, f at level 200, only parsing).
Definition lift {A} (r : result Z A) : M A := fun s => Done (r, s).
Definition guard (b : bool) (e : Z) : M unit := if b then fail e else ret tt.
Definition gets {A} (f : Server -> A) : M A := fun s => Done (Ok (f s), s).

(** [self.clock += 1], and the new time. *)
Definition tick : M Z := fun s =>
  if decide (clock s + 1 < 2 ^ 64)
  then Done (Ok (clock s + 1), MkServer (fs s) (handles s) (clock s + 1) (memo s) (owners s) (bindings s))
  else Panicked.

(** A transaction body, and [fs.tx]: the image changes only if the body and
    the commit succeed. *)
Definition T (A : Type) : Type := FS -> result Z A * FS.
Definition retT {A} (a : A) : T A := fun f => (Ok a, f).
Definition failT {A} (e : Z) : T A := fun f => (Err e, f).
Definition bindT {A B} (m : T A) (k : A -> T B) : T B := fun f =>
  match m f with (Ok a, f') => k a f' | (Err e, f') => (Err e, f') end.
Notation "x ←T m ; k" := (bindT m (fun x => k)) (at level 20, m at level 100, k at level 200, only parsing).

Definition readT {A} (q : ES -> A) : T A := fun f => (Ok (q (image f)), f).
Definition liftT {A} (r : result Z A) : T A := fun f => (r, f).
Definition stepT {A} (op : ES -> result Z (A * ES)) : T A := fun f =>
  match op (image f) with Ok (a, es) => (Ok a, MkFS es (node_usages f)) | Err e => (Err e, f) end.
Definition step_T (op : ES -> result Z ES) : T unit :=
  stepT (fun es => match op es with Ok es' => Ok (tt, es') | Err e => Err e end).
Definition usagesT : T (gmap Z Z) := fun f => (Ok (node_usages f), f).

Definition find_nodeT (p : Z) (name : list Z) : T Node := fun f => (find_node (image f) p name, f).

(** [Transaction::on_open_node] and [on_close_node]. *)
Definition on_open_node (p : Z) : T unit := fun f =>
  let n := default 0 (node_usages f !! p) in
  match checked_add 64 n 1 with
  | Some n' => (Ok tt, MkFS (image f) (<[p := n']> (node_usages f)))
  | None => (Err EINVAL, MkFS (image f) (<[p := n]> (node_usages f)))
  end.
Definition on_close_node (p : Z) : T unit := fun f =>
  match node_usages f !! p with
  | None => (Ok tt, f)
  | Some n =>
      if n =? 0 then (Err EINVAL, f) else
      if 0 <? n - 1 then (Ok tt, MkFS (image f) (<[p := n - 1]> (node_usages f))) else
      let f' := MkFS (image f) (delete p (node_usages f)) in
      step_T (release_unused_nodes (node_usages f')) f'
  end.

Definition fs_tx {A} (body : T A) (f : FS) : result Z A * FS :=
  match body f with
  | (Ok a, f') =>
      match commit (image f') with
      | Ok es => (Ok a, MkFS es (node_usages f'))
      | Err e => (Err e, MkFS (image f) (node_usages f'))
      end
  | (Err e, f') => (Err e, MkFS (image f) (node_usages f'))
  end.

(** [look]: a transaction that changes nothing commits nothing. *)
Definition look {A} (q : ES -> result Z A) : M A := fun s => Done (q (image (fs s)), s).

(** [change] and [change_file]: forget first, then run the transaction. *)
Definition change {A} (body : T A) : M A := fun s =>
  let s' := set_memo s (forget (memo s)) in
  let '(r, f) := fs_tx body (fs s') in Done (r, set_fs s' f).
Definition change_file {A} (ptr : Z) (body : T A) : M A := fun s =>
  m ← forget_file (memo s) ptr;
  let s' := set_memo s m in
  let '(r, f) := fs_tx body (fs s') in Done (r, set_fs s' f).

(** ** Handles *)

Definition entry (handle : Z) : M Entry := fun s =>
  Done (ok_or (mjoin (handles s !! Z.to_nat handle)) EBADF, s).

Definition dir_at (handle : Z) : M (Z * Rights) :=
  e ←! entry handle;
  match e with Dir ptr rights => ret (ptr, rights) | File _ _ => fail ENOTDIR end.

Definition file_at (handle needed refusal : Z) : M Z :=
  e ←! entry handle;
  match e with
  | File ptr rights => if allows rights needed then ret ptr else fail refusal
  | Dir _ _ => fail EISDIR
  end.

Definition node_at (handle needed refusal : Z) : M Z :=
  e ←! entry handle;
  match e with
  | Dir ptr rights | File ptr rights => if allows rights needed then ret ptr else fail refusal
  end.

(** [install]: the lowest free slot, or one more; the new handle is nobody's. *)
Definition install (e : Entry) : M Z := fun s =>
  match position (fun o => is_none o) (handles s) with
  | Some i =>
      match owners s !! i with
      | Some _ => Done (Ok (wrap 32 (Z.of_nat i)), set_handles s (<[i := Some e]> (handles s)) (<[i := 0]> (owners s)))
      | None => Panicked
      end
  | None =>
      Done (Ok (wrap 32 (Z.of_nat (length (handles s)))), set_handles s (handles s ++ [Some e]) (owners s ++ [0]))
  end.

(** [lookup]: the memo first, then the engine. *)
Definition lookup (parent : Z) (name : list Z) (s : Server) : Server * result Z (Z * Kind.t) :=
  match memo_lookup (memo s) parent name with
  | Some (Some c) => (s, Ok c)
  | Some None => (s, Err ENOENT)
  | None =>
      match find_node (image (fs s)) parent name with
      | Err e => (s, Err e)
      | Ok node =>
          (set_memo s (keep_found (memo s) parent name (n_ptr node) (kind_of node)),
           Ok (n_ptr node, kind_of node))
      end
  end.
Definition lookupM (parent : Z) (name : list Z) : M (Z * Kind.t) := fun s =>
  let '(s', r) := lookup parent name s in Done (r, s').

(** The closure [walk_prefix] hands to [walk]. *)
Definition walk_lookup (d : Z) (name : list Z) (s : Server) : Server * result Z (Z * Kind.t) :=
  if utf8_valid name then lookup d name s else (s, Err EINVAL).

Definition walk_prefix (handle : Z) (path : list Z) (hop : Z) : M (Z * Rights * list Z) :=
  pr ←! dir_at handle;
  _ ←! lift (check_components (split SLASH path));
  fun s =>
    let '(s', r) := walk refused walk_lookup pr.1 pr.2 path hop s in
    match r with
    | Ok (ptr, rights, last) => Done (Ok (ptr, rights, drop (length path - length last) path), s')
    | Err e => Done (Err e, s')
    end.

Definition land_on (kind : Kind.t) (want_dir : bool) : M unit :=
  lift (match landing kind want_dir with Ok _ => Ok tt | Err r => Err (refused r) end).

Definition child_dir (parent : Z) (rights : Rights) (name : list Z) (needed : Z) : M (Z * Rights) :=
  _ ←! guard (negb (allows rights needed)) ENOENT;
  c ←! lookupM parent name;
  _ ←! land_on c.2 true;
  ret (c.1, rights).

(** ** The attribute store in the image *)

(** [store_file]: ASCII by construction, checked all the same. *)
Definition store_file (id : Z) : result Z (list Z) :=
  let bytes := file_name id in if utf8_valid bytes then Ok bytes else Err EIO.

Definition find_store : T (option Z) := fun f =>
  match find_node (image f) tree_root STORE_DIR with
  | Ok node => (Ok (Some (n_ptr node)), f)
  | Err e => if e =? ENOENT then (Ok None, f) else (Err e, f)
  end.

Definition STORE_MAX_BYTES : Z := Z.of_nat (MAX_COUNT * record_len XATTR_MAX_NAME MAX_VALUE).

Definition read_attrs (node_id : Z) : T (list Z) :=
  st ←T find_store;
  match st with
  | None => retT []
  | Some dir_ptr =>
      name ←T liftT (store_file node_id);
      fun f =>
        match find_node (image f) dir_ptr name with
        | Err e => if e =? ENOENT then (Ok [], f) else (Err e, f)
        | Ok node =>
            if STORE_MAX_BYTES <? n_size node then (Err EIO, f)
            else (read_node (image f) (n_ptr node) 0 (n_size node), f)
        end
  end.

Definition drop_store_if_empty : T unit :=
  u ←T usagesT;
  fun f => match remove_node u tree_root STORE_DIR MODE_DIR (image f) with
           | Ok (_, es) => (Ok tt, MkFS es (node_usages f))
           | Err e => if (e =? ENOTEMPTY) || (e =? ENOENT) then (Ok tt, f) else (Err e, f)
           end.

Definition purge_attrs (node_id : Z) : T unit :=
  st ←T find_store;
  match st with
  | None => retT tt
  | Some dir_ptr =>
      name ←T liftT (store_file node_id);
      u ←T usagesT;
      fun f => match remove_node u dir_ptr name MODE_FILE (image f) with
               | Ok (_, es) => drop_store_if_empty (MkFS es (node_usages f))
               | Err e => if e =? ENOENT then (Ok tt, f) else (Err e, f)
               end
  end.

Definition write_attrs (node_id : Z) (blob : list Z) (now : Z) : T unit :=
  if bool_decide (blob = []) then purge_attrs node_id else
  name ←T liftT (store_file node_id);
  st ←T find_store;
  dir_ptr ←T match st with
             | Some ptr => retT ptr
             | None => n ←T stepT (create_node tree_root STORE_DIR (Z.lor MODE_DIR 0x1C0) now); retT (n_ptr n)
             end;
  ptr ←T (fun f => match find_node (image f) dir_ptr name with
                   | Ok node => (Ok (n_ptr node), f)
                   | Err e => if e =? ENOENT
                              then (n ←T stepT (create_node dir_ptr name (Z.lor MODE_FILE 0x180) now); retT (n_ptr n)) f
                              else (Err e, f)
                   end);
  _ ←T stepT (write_node ptr 0 blob now);
  step_T (truncate_node ptr (Z.of_nat (length blob)) now).

(** ** The verbs *)

Definition use_node (ptr : Z) : M unit := fun s =>
  let u := node_usages (fs s) in
  let n := default 0 (u !! ptr) in
  match checked_add 64 n 1 with
  | Some n' => Done (Ok tt, set_fs s (MkFS (image (fs s)) (<[ptr := n']> u)))
  | None => Done (Err EINVAL, set_fs s (MkFS (image (fs s)) (<[ptr := n]> u)))
  end.

Definition READ_WRITE : Z := Z.lor SubtreeScope.READ SubtreeScope.WRITE.

Definition open_file_path (handle : Z) (name : list Z) (requested : Z) : M Z :=
  w ←! walk_prefix handle name requested;
  let '(parent, rights, name) := w in
  _ ←! guard (denies_all rights READ_WRITE) ENOENT;
  c ←! lookupM parent name;
  _ ←! guard (bool_decide (c.2 = Kind.Directory)) EISDIR;
  _ ←! land_on c.2 false;
  _ ←! use_node c.1;
  install (File c.1 (attenuate rights READ_WRITE)).

Definition open_dir (handle : Z) (name : list Z) (requested : Z) : M Z :=
  w ←! walk_prefix handle name requested;
  let '(parent, rights, name) := w in
  c ←! child_dir parent rights name DESCEND;
  let granted := attenuate c.2 requested in
  _ ←! guard (bool_decide (granted <> root requested)) EPERM;
  install (Dir c.1 granted).

(** [tx.find_node(..).is_ok()] refuses, then the node is made. *)
Definition create_new (parent : Z) (name : list Z) (mode now : Z) : T Node := fun f =>
  match find_node (image f) parent name with
  | Ok _ => (Err EEXIST, f)
  | Err _ => stepT (create_node parent name mode now) f
  end.

Definition make_dir (handle : Z) (name : list Z) (requested : Z) : M Z :=
  _ ←! lift (check_component name);
  pr ←! dir_at handle;
  _ ←! guard (negb (allows pr.2 SubtreeScope.CREATE)) EROFS;
  _ ←! guard (negb (allows pr.2 DESCEND)) EPERM;
  let granted := attenuate pr.2 requested in
  _ ←! guard (bool_decide (granted <> root requested)) EPERM;
  now ←! tick;
  node ←! change (create_new pr.1 name (Z.lor MODE_DIR 0x1ED) now);
  install (Dir (n_ptr node) granted).

Definition create_file_at (handle : Z) (name : list Z) : M Z :=
  _ ←! lift (check_component name);
  pr ←! dir_at handle;
  _ ←! guard (negb (allows pr.2 SubtreeScope.CREATE)) EROFS;
  now ←! tick;
  ptr ←! change (node ←T create_new pr.1 name (Z.lor MODE_FILE 0x1A4) now;
                 _ ←T on_open_node (n_ptr node);
                 retT (n_ptr node));
  install (File ptr (attenuate pr.2 READ_WRITE)).

(** [list]: every child but the attribute store, sorted by name. *)
Fixpoint insert_child (c : Child) (l : list Child) : list Child :=
  match l with
  | [] => [c]
  | d :: l' => match cmp (c_name c) (c_name d) with Gt => d :: insert_child c l' | _ => c :: l end
  end.
Definition sort_children (l : list Child) : list Child := foldr insert_child [] l.

Fixpoint list_entries (es : ES) (children : list (option (list Z) * Z)) : result Z (list Child) :=
  match children with
  | [] => Ok []
  | (None, _) :: rest => list_entries es rest
  | (Some name, ptr) :: rest =>
      if bool_decide (name = STORE_DIR) then list_entries es rest else
      match read_tree es ptr with
      | Err e => Err e
      | Ok child =>
          match list_entries es rest with
          | Err e => Err e
          | Ok l => Ok (MkChild name ptr (kind_of child) :: l)
          end
      end
  end.

Definition list_dir (dir : Z) (es : ES) : result Z (list Child) :=
  match child_nodes es dir with
  | Err e => Err e
  | Ok children => match list_entries es children with Err e => Err e | Ok l => Ok (sort_children l) end
  end.

(** [encode_listing]: whole records from the cursor on, until one does not fit. *)
Fixpoint encode_loop (l : list Child) (used : nat) (out : list Z) : nat * list Z :=
  match l with
  | [] => (used, out)
  | c :: l' =>
      match at_tail used out (fun sub => dirent_encode sub (c_name c) (bool_decide (c_kind c = Kind.Directory))) with
      | Some (n, out') => encode_loop l' (used + n) out'
      | None => (used, out)
      end
  end.
Definition encode_listing (l : list Child) (cursor : Z) (out : list Z) : nat * list Z :=
  encode_loop (drop (Z.to_nat cursor) l) 0 out.

Definition update_memo (f : Memo -> run Memo) : M unit := fun s =>
  m ← f (memo s); Done (Ok tt, set_memo s m).

Definition read_dir (handle cursor : Z) (out : list Z) : M (nat * list Z) :=
  pr ←! dir_at handle;
  _ ←! guard (negb (allows pr.2 ENUMERATE)) EPERM;
  known ←! gets (fun s => listing (memo s) pr.1);
  match known with
  | Some l => ret (encode_listing l cursor out)
  | None =>
      l ←! look (list_dir pr.1);
      _ ←! update_memo (fun m => keep_listing m pr.1 l);
      ret (encode_listing l cursor out)
  end.

(** [read]: the bytes answered, at most [room] of them. *)
Definition fill_memo (ptr : Z) : M unit :=
  known ←! gets (fun s => is_some (file (memo s) ptr) || is_large (memo s) ptr);
  if known then ret tt else
  body ←! look (fun es =>
    match read_tree es ptr with
    | Err e => Err e
    | Ok node =>
        if negb (would_keep (n_size node)) then Ok None else
        match read_node es ptr 0 (n_size node) with Err e => Err e | Ok b => Ok (Some b) end
    end);
  match body with
  | Some b => update_memo (fun m => keep_file m ptr b)
  | None => update_memo (fun m => Done (mark_large m ptr))
  end.

Definition read (handle offset room : Z) : M (list Z) :=
  ptr ←! file_at handle SubtreeScope.READ EBADF;
  _ ←! fill_memo ptr;
  body ←! gets (fun s => file (memo s) ptr);
  match body with
  | Some b =>
      let start := Z.min offset (Z.of_nat (length b)) in
      let n := Z.min (Z.of_nat (length b) - start) room in
      ret (take (Z.to_nat n) (drop (Z.to_nat start) b))
  | None => look (fun es => read_node es ptr offset room)
  end.

Definition write (handle offset : Z) (data : list Z) : M Z :=
  ptr ←! file_at handle SubtreeScope.WRITE EROFS;
  now ←! tick;
  change_file ptr (stepT (write_node ptr offset data now)).

Definition fstat (handle : Z) : M Z :=
  ptr ←! file_at handle 0 EBADF;
  body ←! gets (fun s => file (memo s) ptr);
  match body with
  | Some b => ret (Z.of_nat (length b))
  | None => look (fun es => match read_tree es ptr with Ok n => Ok (n_size n) | Err e => Err e end)
  end.

Definition truncate (handle size : Z) : M unit :=
  ptr ←! file_at handle SubtreeScope.WRITE EROFS;
  now ←! tick;
  change_file ptr (step_T (truncate_node ptr size now)).

Definition rename_body (src_parent : Z) (src : list Z) (dst_parent : Z) (dst : list Z) : T unit :=
  node ←T find_nodeT src_parent src;
  if n_is_dir node && negb (src_parent =? dst_parent) then failT EINVAL else
  fun f =>
    let rename_to (replaced : option Z) : T unit :=
      u ←T usagesT;
      _ ←T step_T (rename_node u src_parent src dst_parent dst);
      match replaced with Some id => purge_attrs id | None => retT tt end in
    match find_node (image f) dst_parent dst with
    | Err _ => rename_to None f
    | Ok existing =>
        if n_ptr existing =? n_ptr node then (Ok tt, f) else
        if negb (Bool.eqb (n_is_dir existing) (n_is_dir node))
        then (Err (if n_is_dir existing then EISDIR else ENOTDIR), f)
        else rename_to (if n_links existing =? 1 then Some (n_ptr existing) else None) f
    end.

Definition rename (src_dir : Z) (src : list Z) (dst_dir : Z) (dst : list Z) : M unit :=
  _ ←! lift (check_component src);
  _ ←! lift (check_component dst);
  sp ←! dir_at src_dir;
  dp ←! dir_at dst_dir;
  _ ←! guard (negb (allows sp.2 REMOVE) || negb (allows dp.2 SubtreeScope.CREATE)) EROFS;
  change (rename_body sp.1 src dp.1 dst).

(** [unlink] and [rmdir], which differ in the kind they remove. *)
Definition remove_name (handle : Z) (name : list Z) (mode : Z) : M unit :=
  _ ←! lift (check_component name);
  pr ←! dir_at handle;
  _ ←! guard (negb (allows pr.2 REMOVE)) EROFS;
  change (u ←T usagesT;
          gone ←T stepT (remove_node u pr.1 name mode);
          match gone with Some id => purge_attrs id | None => retT tt end).
Definition unlink (handle : Z) (name : list Z) : M unit := remove_name handle name MODE_FILE.
Definition rmdir (handle : Z) (name : list Z) : M unit := remove_name handle name MODE_DIR.

Definition mtime (handle : Z) (name : list Z) : M Z :=
  _ ←! lift (check_component name);
  pr ←! dir_at handle;
  _ ←! guard (negb (allows pr.2 SubtreeScope.READ)) ENOENT;
  node ←! look (fun es => find_node es pr.1 name);
  ret (n_mtime node).

Definition set_mtime_body (parent : Z) (name : list Z) (seconds : Z) : T unit :=
  node ←T find_nodeT parent name;
  step_T (sync_mtime node seconds).

Definition set_mtime_now (handle : Z) (name : list Z) : M unit :=
  _ ←! lift (check_component name);
  pr ←! dir_at handle;
  _ ←! guard (negb (allows pr.2 SubtreeScope.WRITE)) EROFS;
  now ←! tick;
  change (set_mtime_body pr.1 name now).

Definition set_mtime_at (handle : Z) (name : list Z) (seconds : Z) : M unit :=
  _ ←! lift (check_component name);
  pr ←! dir_at handle;
  _ ←! guard (negb (allows pr.2 (Z.lor SubtreeScope.WRITE SETTIME))) EROFS;
  change (set_mtime_body pr.1 name seconds).

Definition get_xattr (handle : Z) (name : list Z) (room : Z) : M (Z * list Z) :=
  _ ←! guard (negb (is_valid_name name)) ERANGE;
  ptr ←! node_at handle SubtreeScope.READ EBADF;
  look (fun es =>
    match read_attrs ptr (MkFS es ∅) with
    | (Err e, _) => Err e
    | (Ok blob, _) =>
        match get blob name with
        | None => Err ENODATA
        | Some (kind, value) => if room <? Z.of_nat (length value) then Err ERANGE else Ok (kind, value)
        end
    end).

Definition set_xattr (handle : Z) (name : list Z) (kind : Z) (value : list Z) : M unit :=
  _ ←! guard (negb (is_valid_name name)) ERANGE;
  _ ←! guard (bool_decide (MAX_VALUE < length value)%nat) E2BIG;
  ptr ←! node_at handle SubtreeScope.WRITE EROFS;
  now ←! tick;
  change (blob ←T read_attrs ptr;
          r ←T liftT (set blob name kind value (replicate (length blob + record_len (length name) (length value)) 0));
          write_attrs ptr (take r.1 r.2) now).

Definition list_xattr (handle : Z) (out : list Z) : M (nat * list Z) :=
  ptr ←! node_at handle SubtreeScope.READ EBADF;
  look (fun es => match read_attrs ptr (MkFS es ∅) with
                  | (Ok blob, _) => Ok (store_list blob out)
                  | (Err e, _) => Err e
                  end).

Definition remove_xattr (handle : Z) (name : list Z) : M unit :=
  _ ←! guard (negb (is_valid_name name)) ERANGE;
  ptr ←! node_at handle SubtreeScope.WRITE EROFS;
  now ←! tick;
  change (blob ←T read_attrs ptr;
          r ←T liftT (remove blob name (replicate (length blob) 0));
          write_attrs ptr (take r.1 r.2) now).

(** [close]: the slot is freed first; then a file's node is let go. *)
Definition release_node (ptr : Z) : M unit := fun s =>
  let f := fs s in
  match node_usages f !! ptr with
  | Some uses =>
      if 1 <? uses then Done (Ok tt, set_fs s (MkFS (image f) (<[ptr := uses - 1]> (node_usages f))))
      else if release_is_null (image f) then Done (Ok tt, set_fs s (MkFS (image f) (delete ptr (node_usages f))))
      else let '(r, f') := fs_tx (on_close_node ptr) f in Done (r, set_fs s f')
  | None => Done (Ok tt, s)
  end.

Definition clear_slot (handle : Z) : M unit := fun s =>
  match handles s !! Z.to_nat handle with
  | Some _ => Done (Ok tt, set_handles s (<[Z.to_nat handle := None]> (handles s)) (owners s))
  | None => Panicked
  end.

Definition close (handle : Z) : M unit :=
  _ ←! guard (handle =? ROOT) EINVAL;
  e ←! entry handle;
  _ ←! clear_slot handle;
  match e with File ptr _ => release_node ptr | Dir _ _ => ret tt end.

Definition statfs (handle : Z) : M (Z * Z * Z) :=
  _ ←! entry handle;
  gets (fun s => (BLOCK, header_size (image (fs s)) / BLOCK, allocator_free (image (fs s)))).

Definition sync_permitted (handle : Z) : M unit :=
  _ ←! node_at handle SubtreeScope.WRITE EROFS; ret tt.

(** ** Grants the server enforces itself *)

Definition binding (badge : Z) : M Binding := fun s =>
  b ← binding_of (bindings s) badge; Done (Ok b, s).

Definition owner_of (requested : Z) : M (option Z) := fun s =>
  match handles s !! Z.to_nat requested with
  | Some (Some _) => match owners s !! Z.to_nat requested with
                     | Some o => Done (Ok (Some o), s)
                     | None => Panicked
                     end
  | _ => Done (Ok None, s)
  end.

Definition server_admit (badge requested : Z) : M Z :=
  owner ←! owner_of requested;
  b ←! binding badge;
  match admit_handle b badge requested owner with
  | Ok h => ret (wrap 32 h)
  | Err r => fail (refused r)
  end.

Definition scoped (badge : Z) : M bool :=
  b ←! binding badge; ret (bool_decide (b <> Open)).

Definition claim (handle badge : Z) : M unit :=
  b ←! binding badge;
  fun s =>
    if is_bound b && bool_decide (Z.to_nat handle < length (owners s))%nat
    then Done (Ok tt, set_handles s (handles s) (<[Z.to_nat handle := badge]> (owners s)))
    else Done (Ok tt, s).

Definition server_bind (caller handle badge : Z) : M unit :=
  _ ←! dir_at handle;
  fun s =>
    rb ← SubtreeScope.bind (bindings s) caller badge handle;
    Done (match rb.1 with Ok _ => Ok tt | Err r => Err (refused r) end, set_bindings s rb.2).

(** The handles a badge minted that are still open. *)
Definition minted (badge : Z) (s : Server) : list nat :=
  filter (fun h => owners s !! h = Some badge /\ is_some (mjoin (handles s !! h)) = true) (seq 0 (length (owners s))).

(** [let _ = self.close(h)]. *)
Definition ignore {A} (m : M A) : M unit := fun s =>
  match m s with Done (_, s') => Done (Ok tt, s') | Panicked => Panicked end.

Fixpoint close_minted (hs : list nat) : M unit :=
  match hs with
  | [] => ret tt
  | h :: hs' =>
      _ ←! (fun s => match owners s !! h with
                     | Some _ => Done (Ok tt, set_handles s (handles s) (<[h := 0]> (owners s)))
                     | None => Panicked
                     end);
      _ ←! ignore (close (Z.of_nat h));
      close_minted hs'
  end.

Definition server_unbind (caller badge : Z) : M unit :=
  r ←! (fun s =>
          rb ← SubtreeScope.unbind (bindings s) caller badge;
          Done (match rb.1 with Ok r => Ok r | Err e => Err (refused e) end, set_bindings s rb.2));
  hs ←! gets (minted badge);
  _ ←! close_minted hs;
  if r =? ROOT then ret tt else ignore (close (wrap 32 r)).

(** ** One request

    [win] is the client's window; a verb reads names and data from its front
    and writes what it answers there. [flush] is what the block server answers
    to a flush. *)

Record Request := MkRequest { w0 : Z; w1 : Z; badge : Z; win : list Z }.

Definition page (q : Request) (n : Z) : list Z := take (Z.to_nat n) (win q).

(** A verb's reply word and the window after it. *)
Definition reply_word (q : Request) (m : M Z) : M (Z * list Z) := r ←! m; ret (r, win q).
Definition reply_unit (q : Request) (m : M unit) : M (Z * list Z) := _ ←! m; ret (0, win q).
Definition reply_bytes (q : Request) (m : M (nat * list Z)) : M (Z * list Z) :=
  r ←! m; ret (Z.of_nat r.1, put (win q) r.2).

(** A name operand must be text. *)
Definition named {A} (bytes : list Z) (k : list Z -> M A) : M A :=
  if utf8_valid bytes then k bytes else fail EINVAL.

Definition scoped_root_close (code : Z) (q : Request) : M bool :=
  if (code =? CLOSE) && (req_handle (w0 q) =? ROOT) then scoped (badge q) else ret false.

Definition admitted (code : Z) (q : Request) : M Z :=
  if (code =? BIND) || (code =? UNBIND) then ret (wrap 32 (req_handle (w0 q))) else
  refuse ←! scoped_root_close code q;
  if refuse then fail EINVAL else server_admit (badge q) (req_handle (w0 q)).

Definition dispatch (flush : Z) (code handle : Z) (q : Request) : M (Z * list Z) :=
  let len := Z.min (req_len (w0 q)) BLOCK in
  let bulk_len := Z.min (req_len (w0 q)) TRANSFER_MAX in
  let offset := w1 q in
  let name := page q len in
  if code =? OPEN then reply_word q (named name (fun nm => open_file_path handle nm offset))
  else if code =? FsProtocol.READ then
    (b ←! read handle offset bulk_len; ret (Z.of_nat (length b), put (win q) b))
  else if code =? FsProtocol.WRITE then reply_word q (write handle offset (page q bulk_len))
  else if code =? FSTAT then reply_word q (fstat handle)
  else if code =? CLOSE then reply_unit q (close handle)
  else if code =? FsProtocol.CREATE then reply_word q (named name (create_file_at handle))
  else if code =? OPENDIR then reply_word q (named name (fun nm => open_dir handle nm offset))
  else if code =? MKDIR then reply_word q (named name (fun nm => make_dir handle nm offset))
  else if code =? READDIR then reply_bytes q (read_dir handle (wrap 32 offset) (page q BLOCK))
  else if code =? RENAME then
    (if BLOCK <? len + dst_len offset then fail EINVAL else
     let src := page q len in
     let dst := drop (Z.to_nat len) (page q (len + dst_len offset)) in
     named src (fun src => named dst (fun dst =>
       to ←! server_admit (badge q) (dst_handle offset);
       reply_unit q (rename handle src to dst))))
  else if code =? UNLINK then reply_unit q (named name (unlink handle))
  else if code =? RMDIR then reply_unit q (named name (rmdir handle))
  else if code =? GETXATTR then
    (if Z.of_nat XATTR_MAX_NAME <? len then fail ERANGE else
     kv ←! get_xattr handle name BLOCK;
     ret (xattr_reply kv.1 (Z.of_nat (length kv.2)), put (win q) kv.2))
  else if code =? SETXATTR then
    (if BLOCK <? len + spec_value_len offset then fail EINVAL else
     reply_unit q (set_xattr handle name (spec_kind offset)
       (drop (Z.to_nat len) (page q (len + spec_value_len offset)))))
  else if code =? LISTXATTR then reply_bytes q (list_xattr handle (page q BLOCK))
  else if code =? REMOVEXATTR then reply_unit q (remove_xattr handle name)
  else if code =? TRUNCATE then reply_unit q (truncate handle offset)
  else if code =? SYNC then (_ ←! sync_permitted handle; ret (flush, win q))
  else if code =? STATFS then
    (st ←! statfs handle;
     match statfs_encode (page q BLOCK) st.1.1 st.1.2 st.2 with
     | Some (n, out) => ret (Z.of_nat n, put (win q) out)
     | None => fail EINVAL
     end)
  else if code =? GETMTIME then reply_word q (named name (mtime handle))
  else if code =? SETMTIME then reply_unit q (named name (set_mtime_now handle))
  else if code =? SETMTIME_AT then reply_unit q (named name (fun nm => set_mtime_at handle nm offset))
  else if code =? BIND then reply_unit q (server_bind (badge q) handle offset)
  else if code =? UNBIND then reply_unit q (server_unbind (badge q) offset)
  else fail EINVAL.

Definition mints (code : Z) : bool :=
  (code =? OPEN) || (code =? OPENDIR) || (code =? FsProtocol.CREATE) || (code =? MKDIR).

(** The handle a minting verb answered becomes the badge's. *)
Definition claim_minted (code : Z) (q : Request) (r : result Z (Z * list Z)) : M unit :=
  match r with
  | Ok (h, _) => if mints code then claim (wrap 32 h) (badge q) else ret tt
  | Err _ => ret tt
  end.

(** [OPEN]'s second reply word is the file's size. *)
Definition reply_size (code : Z) (r : result Z (Z * list Z)) : M Z := fun s =>
  match r with
  | Ok (h, _) =>
      if code =? OPEN then
        match fstat (wrap 32 h) s with
        | Done (Ok n, s') => Done (Ok n, s')
        | Done (Err _, s') => Done (Ok 0, s')
        | Panicked => Panicked
        end
      else Done (Ok 0, s)
  | Err _ => Done (Ok 0, s)
  end.

(** One turn of the loop: the two reply words, the window and the server. *)
Definition serve (flush : Z) (q : Request) (s : Server) : run (Z * Z * list Z * Server) :=
  let code := operation (w0 q) in
  match admitted code q s with
  | Panicked => Panicked
  | Done (Err e, s1) => Done (reply_err e, 0, win q, s1)
  | Done (Ok handle, s1) =>
      match dispatch flush code handle q s1 with
      | Panicked => Panicked
      | Done (r, s2) =>
          match claim_minted code q r s2 with
          | Panicked => Panicked
          | Done (_, s3) =>
              match reply_size code r s3 with
              | Panicked => Panicked
              | Done (sz, s4) =>
                  let size := match sz with Ok n => n | Err _ => 0 end in
                  match r with
                  | Ok (r0, w) => Done (r0, size, w, s4)
                  | Err e => Done (reply_err e, size, win q, s4)
                  end
              end
          end
      end
  end.

End server.

Arguments FS ES : clear implicits.
Arguments Server ES : clear implicits.

End FileServer.
