(* ===== verification/FileEngine.v ===== *)
(** * What the file server relies on of its engine (vendor/redoxfs)

    The engine is third-party code. [EngineLaws] states what its operations do to the
    names of a consistent image and to which nodes there are; the server's transactions
    are then shown to keep the image consistent ([tame]), every directory that is open
    in its place, and every file that is open a file. [TreeEngine] is an engine that
    keeps the laws. *)

From S2P Require Import Prelude SubtreeScope FsProtocol FileMemo FileServer.
Local Open Scope Z_scope.

Module FileEngine.
Import SubtreeScope FsProtocol FileMemo FileServer.

(** What the engine answers for a name: the node and what it is. *)
Definition names_in {ES} `{Engine ES} (es : ES) (d : Z) (nm : list Z) : result Z (Z * Kind.t) :=
  match find_node es d nm with Ok n => Ok (n_ptr n, kind_of n) | Err e => Err e end.

Definition name_at {ES} `{Engine ES} (es : ES) (d : Z) (nm : list Z) : option (Z * Kind.t) :=
  match names_in es d nm with Ok c => Some c | Err _ => None end.

Definition is_file {ES} `{Engine ES} (es : ES) (p : Z) : Prop := exists n, read_tree es p = Ok n /\ n_is_dir n = false.
Definition is_dir {ES} `{Engine ES} (es : ES) (p : Z) : Prop := exists n, read_tree es p = Ok n /\ n_is_dir n = true.

(** How often a node is open. *)
Definition uses (u : gmap Z Z) (p : Z) : Z := default 0 (u !! p).

Definition MODE_TYPE : Z := 0xF000.

(** Every name leads where it led, and what was not there still is not. *)
Definition keeps_names {ES} `{Engine ES} (es es' : ES) : Prop :=
  forall d nm, name_at es' d nm = name_at es d nm /\ (find_node es d nm = Err ENOENT -> find_node es' d nm = Err ENOENT).

(** The engine's behaviour the server relies on, of an image that is consistent
    ([sound]). Nothing is said of a write to a directory, of a name made in a file, or of
    a directory moved to another parent, none of which the server asks for. *)
Class EngineLaws (ES : Type) `{Engine ES} := {
  sound : ES -> Prop;
  found_is_read es d nm n : sound es -> find_node es d nm = Ok n -> read_tree es (n_ptr n) = Ok n;
  root_is_directory es : sound es -> is_dir es tree_root;
  root_is_nameless es d nm k : sound es -> name_at es d nm <> Some (tree_root, k);
  directory_has_one_name es d nm d' nm' p k :
    sound es -> name_at es d nm = Some (p, Kind.Directory) -> name_at es d' nm' = Some (p, k) -> d' = d /\ nm' = nm;
  children_distinct es d cs : sound es -> child_nodes es d = Ok cs -> NoDup (omap fst cs);
  children_are_found es d cs nm p n :
    sound es -> child_nodes es d = Ok cs -> (Some nm, p) ∈ cs -> read_tree es p = Ok n -> names_in es d nm = Ok (p, kind_of n);
  others_are_not es d cs nm :
    sound es -> child_nodes es d = Ok cs -> (forall p, (Some nm, p) ∉ cs) -> find_node es d nm = Err ENOENT;
  commit_law es es' :
    sound es -> commit es = Ok es' ->
    sound es' /\ (forall d nm, find_node es' d nm = find_node es d nm) /\ forall p, read_tree es' p = read_tree es p;
  write_law p off data now es n es' :
    sound es -> is_file es p -> write_node p off data now es = Ok (n, es') ->
    sound es' /\ keeps_names es es' /\ forall q, is_file es q -> is_file es' q;
  truncate_law p sz now es es' :
    sound es -> is_file es p -> truncate_node p sz now es = Ok es' ->
    sound es' /\ keeps_names es es' /\ forall q, is_file es q -> is_file es' q;
  sync_law n t es es' :
    sound es -> read_tree es (n_ptr n) = Ok n -> sync_mtime n t es = Ok es' ->
    sound es' /\ keeps_names es es' /\ forall q, is_file es q -> is_file es' q;
  release_law u es es' :
    sound es -> release_unused_nodes u es = Ok es' ->
    sound es' /\ keeps_names es es' /\ forall q, 0 < uses u q -> is_file es q -> is_file es' q;
  create_law p nm mode now es n es' :
    sound es -> is_dir es p -> create_node p nm mode now es = Ok (n, es') ->
    sound es' /\ find_node es' p nm = Ok n /\
    (forall d' nm', (d', nm') <> (p, nm) -> name_at es' d' nm' = name_at es d' nm') /\
    (forall m, read_tree es (n_ptr n) <> Ok m) /\ (forall nm', name_at es (n_ptr n) nm' = None) /\
    (forall q, is_file es q -> is_file es' q) /\
    (Z.land mode MODE_TYPE = MODE_DIR -> kind_of n = Kind.Directory) /\ (Z.land mode MODE_TYPE = MODE_FILE -> kind_of n = Kind.File);
  remove_law u d nm mode es r es' :
    sound es -> remove_node u d nm mode es = Ok (r, es') ->
    exists n, find_node es d nm = Ok n /\ (n_is_dir n = true <-> Z.land mode MODE_TYPE = MODE_DIR) /\
      (n_is_dir n = true -> forall nm', name_at es (n_ptr n) nm' = None) /\ sound es' /\
      (forall d' nm', name_at es' d' nm' = if decide ((d', nm') = (d, nm)) then None else name_at es d' nm') /\
      (forall q, 0 < uses u q -> is_file es q -> is_file es' q);
  rename_law u d nm d' nm' es n es' :
    sound es -> find_node es d nm = Ok n -> is_dir es d' -> (n_is_dir n = true -> d = d') ->
    (forall old, find_node es d' nm' = Ok old -> n_ptr old <> n_ptr n /\ n_is_dir old = n_is_dir n) ->
    rename_node u d nm d' nm' es = Ok es' ->
    sound es' /\
    (forall old, find_node es d' nm' = Ok old -> n_is_dir old = true -> forall x, name_at es (n_ptr old) x = None) /\
    (forall x y, name_at es' x y = if decide ((x, y) = (d', nm')) then Some (n_ptr n, kind_of n) else if decide ((x, y) = (d, nm)) then None else name_at es x y) /\
    (forall q, 0 < uses u q -> is_file es q -> is_file es' q)
}.

Section transactions.
Context {ES : Type} `{EngineLaws ES}.
Implicit Types es : ES.

Definition visible (nm : list Z) : Prop := nm <> STORE_DIR.

Lemma name_at_Some es d nm c : name_at es d nm = Some c <-> names_in es d nm = Ok c.
Proof. unfold name_at. destruct (names_in es d nm); naive_solver. Qed.

Lemma name_at_found es d nm n : find_node es d nm = Ok n -> name_at es d nm = Some (n_ptr n, kind_of n).
Proof. intros Hf. unfold name_at, names_in. by rewrite Hf. Qed.

Lemma found_at es d nm p k : name_at es d nm = Some (p, k) -> exists n, find_node es d nm = Ok n /\ n_ptr n = p /\ kind_of n = k.
Proof. unfold name_at, names_in. destruct (find_node es d nm) as [n|]; [|done]. intros [= <- <-]. by exists n. Qed.

Lemma kind_directory n : kind_of n = Kind.Directory <-> n_is_dir n = true.
Proof. unfold kind_of. destruct (n_is_dir n), (n_is_symlink n); naive_solver. Qed.

(** One step down: a name a client may use that is a directory. *)
Definition edge_in es (a c : Z) : Prop := exists nm, is_name nm = true /\ visible nm /\ name_at es a nm = Some (c, Kind.Directory).

(** A directory that has its place: the image's root, or one under a client's name. *)
Definition placed es (q : Z) : Prop := q = tree_root \/ exists d nm, visible nm /\ name_at es d nm = Some (q, Kind.Directory).

(** The attribute store, if there is one, is a directory with no directory in it. *)
Definition store_ok es : Prop := forall st k, name_at es tree_root STORE_DIR = Some (st, k) ->
  k = Kind.Directory /\ forall nm c k', name_at es st nm = Some (c, k') -> k' <> Kind.Directory.

Lemma placed_dir es q : sound es -> placed es q -> is_dir es q.
Proof.
  intros Hs [->|(d & nm & _ & Hn)]; [by apply root_is_directory|]. apply found_at in Hn as (n & Hf & <- & Hk%kind_directory). exists n. split; [by eapply found_is_read|done].
Qed.

Lemma placed_not_store es q st k : sound es -> placed es q -> name_at es tree_root STORE_DIR = Some (st, k) -> q <> st.
Proof.
  intros Hs Hp Hst Hq. subst st. destruct Hp as [->|(d & nm & Hv & Hn)]; [by eapply root_is_nameless|]. by destruct (directory_has_one_name _ _ _ _ _ _ _ Hs Hn Hst) as [_ <-].
Qed.

(** ** Images that are in order *)

(** [D] are the directories that are open. *)
Record tidy (D : list Z) (f : FS ES) : Prop := MkTidy {
  td_sound : sound (image f);
  td_store : store_ok (image f);
  td_placed : forall q, q ∈ D -> placed (image f) q }.

(** What a transaction leaves alone: a file that is open stays a file, and the way to a
    directory that is open stays open. *)
Definition spared (D : list Z) (f f' : FS ES) : Prop :=
  (forall q, 0 < uses (node_usages f) q -> is_file (image f) q -> is_file (image f') q) /\
  (forall p q, q ∈ D -> rtc (edge_in (image f)) p q -> rtc (edge_in (image f')) p q).

Definition more_uses (f f' : FS ES) : Prop := forall q, uses (node_usages f) q <= uses (node_usages f') q.

(** The counts are as they were. *)
Ltac same_uses := let q := fresh in intros q; cbn [node_usages]; reflexivity.

Lemma spared_refl D f : spared D f f.
Proof. done. Qed.

Lemma spared_trans D f1 f2 f3 : more_uses f1 f2 -> spared D f1 f2 -> spared D f2 f3 -> spared D f1 f3.
Proof. intros Hu [A1 A2] [B1 B2]. split; [|by eauto]. intros q Hq Hf. apply B1; [specialize (Hu q); lia|by apply A1]. Qed.

(** A transaction's body, from states in order that satisfy [P]: one that succeeds leaves
    the image in order and what is open alone, and gives [Q]; in any case the counts of
    open handles only grow. *)
Definition tame {A} (D : list Z) (P : FS ES -> Prop) (b : T A) (Q : A -> FS ES -> Prop) : Prop := forall f r f',
  tidy D f -> P f -> b f = (r, f') -> more_uses f f' /\ forall a, r = Ok a -> tidy D f' /\ spared D f f' /\ Q a f'.

Lemma tame_bind {A B} D P (b : T A) Q (k : A -> T B) R :
  tame D P b Q -> (forall a, tame D (Q a) (k a) R) -> tame D P (bindT b k) R.
Proof.
  intros Hb Hk f r f' Ht Hp. unfold bindT. destruct (b f) as [[a|e] f1] eqn:Hf; destruct (Hb _ _ _ Ht Hp Hf) as [Hu Hok].
  - destruct (Hok a eq_refl) as (Ht1 & Hs1 & Hq). intros Hf'. destruct (Hk a _ _ _ Ht1 Hq Hf') as [Hu' Hok']. split; [intros q; specialize (Hu q); specialize (Hu' q); lia|].
    intros x Hx. destruct (Hok' x Hx) as (? & ? & ?). split; [done|]. split; [by eapply spared_trans|done].
  - intros [= <- <-]. done.
Qed.

Lemma tame_weaken {A} D (P P' : FS ES -> Prop) (b : T A) (Q Q' : A -> FS ES -> Prop) :
  tame D P b Q -> (forall f, P' f -> P f) -> (forall a f, Q a f -> Q' a f) -> tame D P' b Q'.
Proof. intros Hb Hp Hq f r f' Ht HP Hf. destruct (Hb f r f' Ht (Hp f HP) Hf) as [Hu Hok]. split; [done|]. intros a Ha. destruct (Hok a Ha) as (? & ? & ?). auto. Qed.

(** A body that only reads. *)
Lemma tame_read {A} D P (b : T A) (g : FS ES -> result Z A) Q :
  (forall f, b f = (g f, f)) -> (forall f a, tidy D f -> P f -> g f = Ok a -> Q a f) -> tame D P b Q.
Proof. intros Hb Hq f r f' Ht Hp. rewrite Hb. intros [= <- <-]. split; [same_uses|]. intros a Ha. split; [done|]. split; [apply spared_refl|by apply Hq]. Qed.

Lemma tame_ret {A} D P (a : A) : tame D P (retT a) (fun x f => x = a /\ P f).
Proof. apply (tame_read D P _ (fun _ => Ok a)); [done|]. by intros f x _ Hp [= <-]. Qed.

Lemma tame_lift {A} D P (r : result Z A) : tame D P (liftT r) (fun x f => r = Ok x /\ P f).
Proof. by apply (tame_read D P _ (fun _ => r)). Qed.

Lemma tame_fail {A} D P e (Q : A -> FS ES -> Prop) : tame D P (failT e) Q.
Proof. by apply (tame_read D P _ (fun _ => Err e)). Qed.

Lemma tame_usages D P : tame D P usagesT (fun u f => u = node_usages f /\ P f).
Proof. apply (tame_read D P _ (fun f => Ok (node_usages f))); [done|]. by intros f u _ Hp [= <-]. Qed.

Lemma tame_find D P d nm : tame D P (find_nodeT d nm) (fun n f => find_node (image f) d nm = Ok n /\ P f).
Proof. by apply (tame_read D P _ (fun f => find_node (image f) d nm)). Qed.

(** A step of the engine that keeps every name. *)
Lemma keeps_edges es es' a c : keeps_names es es' -> edge_in es a c -> edge_in es' a c.
Proof. intros Hk (nm & H1 & H2 & H3). exists nm. split; [done|]. split; [done|]. by rewrite (proj1 (Hk a nm)). Qed.

Lemma keeps_store es es' : keeps_names es es' -> store_ok es -> store_ok es'.
Proof. intros Hk Hs st k. rewrite (proj1 (Hk _ _)). intros Hst. destruct (Hs st k Hst) as [-> Hn]. split; [done|]. intros nm c k'. rewrite (proj1 (Hk _ _)). apply Hn. Qed.

Lemma keeps_placed es es' q : keeps_names es es' -> placed es q -> placed es' q.
Proof. intros Hk [->|(d & nm & Hv & Hn)]; [by left|]. right. exists d, nm. by rewrite (proj1 (Hk _ _)). Qed.

Lemma keeps_tidy D f es u : tidy D f -> sound es -> keeps_names (image f) es -> tidy D (MkFS es u).
Proof. intros [H1 H2 H3] Hs Hk. constructor; cbn [image]; [done|by eapply keeps_store|]. intros q Hq. eapply keeps_placed; [done|by apply H3]. Qed.

Lemma keeps_spared D f es u : keeps_names (image f) es -> (forall q, 0 < uses (node_usages f) q -> is_file (image f) q -> is_file es q) -> spared D f (MkFS es u).
Proof. intros Hk Hf. split; [done|]. intros p q _. cbn [image]. apply rtc_subrel. intros a c. by apply keeps_edges. Qed.

Lemma tame_write D p off data now : tame D (fun f => is_file (image f) p) (stepT (write_node p off data now)) (fun _ f => is_file (image f) p).
Proof.
  intros f r f' Ht Hp. unfold stepT. destruct (write_node p off data now (image f)) as [[n es]|e] eqn:Hw; intros [= <- <-]; [|by split; [same_uses|]]. split; [same_uses|]. intros a _.
  destruct (write_law _ _ _ _ _ _ _ (td_sound _ _ Ht) Hp Hw) as (Hs & Hk & Hf). split; [by apply keeps_tidy with f|]. split; [apply keeps_spared; auto|by apply Hf].
Qed.

Lemma tame_truncate D p sz now : tame D (fun f => is_file (image f) p) (step_T (truncate_node p sz now)) (fun _ _ => True).
Proof.
  intros f r f' Ht Hp. unfold step_T, stepT. destruct (truncate_node p sz now (image f)) as [es|e] eqn:Hw; intros [= <- <-]; [|by split; [same_uses|]]. split; [same_uses|]. intros a _.
  destruct (truncate_law _ _ _ _ _ (td_sound _ _ Ht) Hp Hw) as (Hs & Hk & Hf). split; [by apply keeps_tidy with f|]. split; [apply keeps_spared; auto|done].
Qed.

Lemma tame_set_mtime D P d nm t : tame D P (set_mtime_body d nm t) (fun _ _ => True).
Proof.
  unfold set_mtime_body. eapply tame_bind; [apply tame_find|]. intros n f r f' Ht [Hf _]. unfold step_T, stepT. destruct (sync_mtime n t (image f)) as [es|e] eqn:Hw; intros [= <- <-]; [|by split; [same_uses|]]. split; [same_uses|]. intros a _.
  destruct (sync_law _ _ _ _ (td_sound _ _ Ht) (found_is_read _ _ _ _ (td_sound _ _ Ht) Hf) Hw) as (Hs & Hk & Hfi). split; [by apply keeps_tidy with f|]. split; [apply keeps_spared; auto|done].
Qed.

(** ** Making a name *)

(** The directory it is made in is open, or it is the store, where no directory is made. *)
Definition makes_in (D : list Z) (f : FS ES) (p : Z) (nm : list Z) (mode : Z) : Prop :=
  p ∈ D /\ visible nm \/ p = tree_root /\ nm = STORE_DIR /\ Z.land mode MODE_TYPE = MODE_DIR \/
  name_at (image f) tree_root STORE_DIR = Some (p, Kind.Directory) /\ Z.land mode MODE_TYPE = MODE_FILE.

Lemma makes_dir D f p nm mode : tidy D f -> makes_in D f p nm mode -> is_dir (image f) p.
Proof.
  intros [Hs _ Hd] [[Hp _]|[(-> & _)|[Hst _]]]; [by apply placed_dir; auto|by apply root_is_directory|]. apply found_at in Hst as (n & Hf & <- & Hk%kind_directory). exists n. split; [by eapply found_is_read|done].
Qed.

Lemma made_store D f p nm mode n es : tidy D f -> makes_in D f p nm mode -> name_at (image f) p nm = None ->
  (forall d' nm', (d', nm') <> (p, nm) -> name_at es d' nm' = name_at (image f) d' nm') -> name_at es p nm = Some (n_ptr n, kind_of n) ->
  (forall nm', name_at (image f) (n_ptr n) nm' = None) -> n_ptr n <> p ->
  (Z.land mode MODE_TYPE = MODE_DIR -> kind_of n = Kind.Directory) -> (Z.land mode MODE_TYPE = MODE_FILE -> kind_of n = Kind.File) -> store_ok es.
Proof.
  intros Ht Hmk Hnew Hsame Hn Hempty Hne Hdir Hfile st k Hst. pose proof Ht as [Hs Hok Hd]. destruct (decide ((tree_root, STORE_DIR) = (p, nm))) as [[= <- <-]|Hroot].
  - rewrite Hn in Hst. injection Hst as <- <-. split.
    + destruct Hmk as [[_ Hv]|[(_ & _ & Hm)|[Hst _]]]; [done|by apply Hdir|]. congruence.
    + intros x c k'. rewrite Hsame by congruence. by rewrite Hempty.
  - rewrite Hsame in Hst by done. destruct (Hok st k Hst) as [-> Hin]. split; [done|]. intros x c k'. destruct (decide ((st, x) = (p, nm))) as [[= -> ->]|Hx]; [|rewrite Hsame by done; apply Hin].
    rewrite Hn. intros [= <- <-]. destruct Hmk as [[Hp _]|[(-> & -> & _)|[_ Hm]]]; [by destruct (placed_not_store (image f) p p Kind.Directory Hs (Hd p Hp) Hst)|done|by rewrite Hfile].
Qed.

Lemma tame_create D P p nm mode now : (forall f, tidy D f -> P f -> makes_in D f p nm mode /\ name_at (image f) p nm = None) ->
  tame D P (stepT (create_node p nm mode now)) (fun n f => find_node (image f) p nm = Ok n /\
    (Z.land mode MODE_TYPE = MODE_DIR -> kind_of n = Kind.Directory) /\ (Z.land mode MODE_TYPE = MODE_FILE -> kind_of n = Kind.File)).
Proof.
  intros Hmk f r f' Ht Hp. unfold stepT. destruct (create_node p nm mode now (image f)) as [[n es]|e] eqn:Hc; intros [= <- <-]; [|by split; [same_uses|]]. split; [same_uses|]. intros a [= <-]. destruct (Hmk f Ht Hp) as [Hin Hnone].
  pose proof (makes_dir _ _ _ _ _ Ht Hin) as Hpd. destruct (create_law _ _ _ _ _ _ _ (td_sound _ _ Ht) Hpd Hc) as (Hs & Hf & Hsame & Hfresh & Hempty & Hfiles & Hdir & Hfile). assert (Hne : n_ptr n <> p) by (intros He; destruct Hpd as (m & Hm & _); rewrite <- He in Hm; by apply Hfresh in Hm).
  assert (Hkeep : forall d' nm' c, name_at (image f) d' nm' = Some c -> name_at es d' nm' = Some c) by (intros d' nm' c Hn; rewrite Hsame; [done|]; intros [= -> ->]; congruence).
  split; [|split; [|by split]].
  - constructor; cbn [image]; [done| |]; [by eapply (made_store D f p nm mode n es); eauto using name_at_found|]. intros q Hq. destruct (td_placed _ _ Ht q Hq) as [->|(d & x & Hv & Hn)]; [by left|]. right. exists d, x. auto.
  - split; cbn [image]; [auto|]. intros x y _. apply rtc_subrel. intros a c (z & H1 & H2 & H3). exists z. auto.
Qed.

(** ** Taking a name away *)

(** Ways that do not end in the directory that goes survive its going. *)
Lemma path_survives es es' t p q : (forall a c, edge_in es a c -> c = t \/ edge_in es' a c) -> (forall c, ~ edge_in es t c) -> q <> t ->
  rtc (edge_in es) p q -> rtc (edge_in es') p q.
Proof.
  intros He Hempty Hq. induction 1 as [x|x y z Hxy Hyz IH]; [constructor|]. specialize (IH Hq). destruct (He x y Hxy) as [->|Hxy']; [|by eapply rtc_l]. apply rtc_inv in Hyz as [->|(w & Hw & _)]; [done|by apply Hempty in Hw].
Qed.

Lemma no_edge es t : (forall nm, name_at es t nm = None) -> forall c, ~ edge_in es t c.
Proof. intros Hn c (nm & _ & _ & He). by rewrite Hn in He. Qed.

(** A name may go unless a client's name for a directory that is open. *)
Definition may_go (D : list Z) (f : FS ES) (d : Z) (nm : list Z) : Prop :=
  visible nm -> forall q, name_at (image f) d nm = Some (q, Kind.Directory) -> q ∉ D.

Lemma gone_store es es' d nm : (forall d' nm', name_at es' d' nm' = if decide ((d', nm') = (d, nm)) then None else name_at es d' nm') -> store_ok es -> store_ok es'.
Proof.
  intros Hsame Hok st k. rewrite Hsame. case_decide; [done|]. intros Hst. destruct (Hok st k Hst) as [-> Hin]. split; [done|]. intros x c k'. rewrite Hsame. case_decide; [done|apply Hin].
Qed.

Lemma remove_tidy D f u d nm mode r es : tidy D f -> (Z.land mode MODE_TYPE = MODE_DIR -> may_go D f d nm) -> (forall q, uses (node_usages f) q <= uses u q) -> remove_node u d nm mode (image f) = Ok (r, es) ->
  tidy D (MkFS es (node_usages f)) /\ spared D f (MkFS es (node_usages f)).
Proof.
  intros Ht Hgo Hu Hr. destruct (remove_law _ _ _ _ _ _ _ (td_sound _ _ Ht) Hr) as (n & Hf & Hmode & Hempty & Hs & Hsame & Hfiles). pose proof (name_at_found _ _ _ _ Hf) as Hn.
  assert (Hgone : forall q x y, q ∈ D -> visible y -> name_at (image f) x y = Some (q, Kind.Directory) -> (x, y) <> (d, nm)) by (intros q x y Hq Hv Hx [= -> ->]; rewrite Hn in Hx; injection Hx as <- Hk; eapply (Hgo (proj1 Hmode (proj1 (kind_directory n) Hk)) Hv); [|exact Hq]; by rewrite Hn, Hk).
  split.
  - constructor; cbn [image]; [done|by eapply gone_store, Ht|]. intros q Hq. destruct (td_placed _ _ Ht q Hq) as [->|(x & y & Hv & Hx)]; [by left|]. right. exists x, y. split; [done|]. rewrite Hsame, decide_False by (by eapply Hgone). done.
  - split; cbn [image].
    + intros q Hq. apply Hfiles. specialize (Hu q). lia.
    + intros p q Hq. destruct (decide (visible nm)) as [Hv|Hv].
      * destruct (n_is_dir n) eqn:Hd.
        { apply (path_survives _ _ (n_ptr n)); [|by apply no_edge, Hempty|].
          - intros a c (z & H1 & H2 & H3). destruct (decide ((a, z) = (d, nm))) as [[= -> ->]|Hne]; [left; congruence|right]. exists z. rewrite Hsame, decide_False by done. done.
          - intros ->. apply (Hgo (proj1 Hmode eq_refl) Hv (n_ptr n)); [|done]. rewrite Hn. f_equal. f_equal. by apply kind_directory. }
        apply rtc_subrel. intros a c (z & H1 & H2 & H3). exists z. rewrite Hsame, decide_False; [done|]. intros [= -> ->]. rewrite Hn in H3. injection H3 as _ H3%kind_directory. congruence.
      * apply rtc_subrel. intros a c (z & H1 & H2 & H3). exists z. rewrite Hsame, decide_False; [done|]. by intros [= -> ->].
Qed.

Lemma tame_remove {A} D P u d nm mode (k : option Z -> T A) Q :
  (forall f, tidy D f -> P f -> (Z.land mode MODE_TYPE = MODE_DIR -> may_go D f d nm) /\ forall q, uses (node_usages f) q <= uses u q) -> (forall r, tame D (fun _ => True) (k r) Q) ->
  tame D P (bindT (stepT (remove_node u d nm mode)) k) Q.
Proof.
  intros Hgo Hk. eapply (tame_bind _ _ _ (fun _ _ => True)); [|done]. intros f r f' Ht Hp. unfold stepT. destruct (remove_node u d nm mode (image f)) as [[x es]|e] eqn:Hr; intros [= <- <-]; [|by split; [same_uses|]]. split; [same_uses|]. intros a _.
  destruct (Hgo f Ht Hp) as [Hg Hu]. destruct (remove_tidy D f u d nm mode x es Ht Hg Hu Hr). done.
Qed.

(** Moving a name within a directory, or a file from one to another. *)
Lemma rename_tidy D f u d nm d' nm' n es : tidy D f -> d' ∈ D -> visible nm -> visible nm' -> is_name nm' = true ->
  find_node (image f) d nm = Ok n -> (n_is_dir n = true -> d = d') -> (forall old, find_node (image f) d' nm' = Ok old -> n_ptr old <> n_ptr n /\ n_is_dir old = n_is_dir n) ->
  may_go D f d' nm' -> (forall q, uses (node_usages f) q <= uses u q) -> rename_node u d nm d' nm' (image f) = Ok es ->
  tidy D (MkFS es (node_usages f)) /\ spared D f (MkFS es (node_usages f)).
Proof.
  intros Ht Hd' Hv Hv' Hname Hn Hdir Hdst Hgo Hu Hr. destruct (rename_law _ _ _ _ _ _ _ _ (td_sound _ _ Ht) Hn (placed_dir _ _ (td_sound _ _ Ht) (td_placed _ _ Ht _ Hd')) Hdir Hdst Hr) as (Hs & Hempty & Hsame & Hfiles). pose proof (name_at_found _ _ _ _ Hn) as Hnat.
  assert (Hmoved : forall x y q, name_at (image f) x y = Some (q, Kind.Directory) -> (x, y) = (d, nm) -> x = d' /\ name_at es d' nm' = Some (q, Kind.Directory)).
  { intros x y q Hx [= -> ->]. rewrite Hnat in Hx. injection Hx as Hq Hk. split; [by apply Hdir, kind_directory|]. rewrite Hsame, decide_True by done. by rewrite Hq, Hk. }
  split; [constructor; cbn [image]; [done| |]|split; cbn [image]].
  - intros st k. rewrite Hsame, decide_False by congruence. rewrite decide_False by congruence. intros Hst. destruct (td_store _ _ Ht st k Hst) as [-> Hin]. split; [done|]. intros x c k'. rewrite Hsame. case_decide as Hx; [|case_decide; [done|apply Hin]]. injection Hx as -> ->.
    by destruct (placed_not_store _ d' d' Kind.Directory (td_sound _ _ Ht) (td_placed _ _ Ht _ Hd') Hst).
  - intros q Hq. destruct (td_placed _ _ Ht q Hq) as [->|(x & y & Hvy & Hx)]; [by left|]. right. destruct (decide ((x, y) = (d, nm))) as [He|He]; [destruct (Hmoved x y q Hx He); by exists d', nm'|].
    exists x, y. split; [done|]. rewrite Hsame, decide_False, decide_False; [done|done|]. intros [= -> ->]. by eapply (Hgo Hvy).
  - intros q Hq. apply Hfiles. specialize (Hu q). lia.
  - intros p q Hq. assert (Hedge : forall a c, edge_in (image f) a c -> (exists old, find_node (image f) d' nm' = Ok old /\ n_is_dir old = true /\ c = n_ptr old) \/ edge_in es a c).
    { intros a c (z & H1 & H2 & H3). destruct (decide ((a, z) = (d', nm'))) as [[= -> ->]|Hne].
      - left. apply found_at in H3 as (old & Hf & <- & Hk%kind_directory). by exists old.
      - right. destruct (decide ((a, z) = (d, nm))) as [He|He]; [destruct (Hmoved a z c H3 He) as [-> ?]; by exists nm'|]. exists z. by rewrite Hsame, decide_False, decide_False. }
    destruct (find_node (image f) d' nm') as [old|] eqn:Hold; [destruct (n_is_dir old) eqn:Hod|].
    + apply (path_survives _ _ (n_ptr old)); [|by apply no_edge, (Hempty old eq_refl)|].
      * intros a c Hac. destruct (Hedge a c Hac) as [(o & [= <-] & _ & ->)|]; [by left|by right].
      * intros ->. apply (Hgo Hv' (n_ptr old)); [|done]. rewrite (name_at_found _ _ _ _ Hold). f_equal. f_equal. by apply kind_directory.
    + apply rtc_subrel. intros a c Hac. destruct (Hedge a c Hac) as [(o & [= <-] & Ho & _)|]; [congruence|done].
    + apply rtc_subrel. intros a c Hac. by destruct (Hedge a c Hac) as [(o & [=] & _)|].
Qed.

(** ** The attribute store *)

Lemma tame_find_store D P : tame D P find_store (fun st f => P f /\ match st with Some p => name_at (image f) tree_root STORE_DIR = Some (p, Kind.Directory) | None => name_at (image f) tree_root STORE_DIR = None end).
Proof.
  apply (tame_read D P _ (fun f => match find_node (image f) tree_root STORE_DIR with Ok node => Ok (Some (n_ptr node)) | Err e => if e =? ENOENT then Ok None else Err e end)).
  - intros f. unfold find_store. destruct (find_node _ _ _); [done|]. by destruct (_ =? _).
  - intros f a Ht Hp. destruct (find_node (image f) tree_root STORE_DIR) as [n|e] eqn:Hf.
    + intros [= <-]. pose proof (name_at_found _ _ _ _ Hf) as Hn. destruct (td_store _ _ Ht _ _ Hn) as [<- _]. done.
    + destruct (e =? ENOENT); [|done]. intros [= <-]. split; [done|]. unfold name_at, names_in. by rewrite Hf.
Qed.

Lemma tame_drop_store D P : tame D P drop_store_if_empty (fun _ _ => True).
Proof.
  unfold drop_store_if_empty. eapply tame_bind; [apply tame_usages|]. intros u f r f' Ht [-> _]. destruct (remove_node _ _ _ _ _) as [[x es]|e] eqn:Hr.
  - intros [= <- <-]. split; [same_uses|]. intros a _. destruct (remove_tidy D f (node_usages f) _ _ _ _ _ Ht ltac:(intros _ Hv; by destruct Hv) ltac:(intros; lia) Hr). done.
  - destruct (_ || _); intros [= <- <-]; (split; [same_uses|]); intros a Ha; done.
Qed.

Lemma tame_purge D P id : tame D P (purge_attrs id) (fun _ _ => True).
Proof.
  unfold purge_attrs. eapply tame_bind; [apply tame_find_store|]. intros [st|]; [|eapply tame_weaken; [apply (tame_ret D (fun _ => True))|done|done]]. eapply tame_bind; [apply tame_lift|]. intros nm. eapply tame_bind; [apply tame_usages|].
  intros u f r f' Ht (-> & _ & _ & Hst). destruct (remove_node _ _ _ _ _) as [[x es]|e] eqn:Hr.
  - destruct (remove_tidy D f (node_usages f) _ _ MODE_FILE _ _ Ht ltac:(intros Hm; vm_compute in Hm; discriminate Hm) ltac:(intros; lia) Hr) as [Ht1 Hs1]. intros Hd. destruct (tame_drop_store D (fun _ => True) _ _ _ Ht1 I Hd) as [Hu Hok]. split; [exact Hu|].
    intros a Ha. destruct (Hok a Ha) as (? & ? & _). split; [done|]. split; [|done]. eapply spared_trans; [|exact Hs1|done]. same_uses.
  - destruct (_ =? _); intros [= <- <-]; (split; [same_uses|]); intros a Ha; done.
Qed.

Lemma tame_read_attrs D P id : tame D P (read_attrs id) (fun _ f => True).
Proof.
  unfold read_attrs. eapply tame_bind; [apply tame_find_store|]. intros [st|]; [|eapply tame_weaken; [apply (tame_ret D (fun _ => True))|done|done]]. eapply tame_bind; [apply tame_lift|]. intros nm.
  eapply (tame_read _ _ _ (fun f => match find_node (image f) st nm with Err e => if e =? ENOENT then Ok [] else Err e | Ok node => if STORE_MAX_BYTES <? n_size node then Err EIO else read_node (image f) (n_ptr node) 0 (n_size node) end)); [|done].
  intros f. destruct (find_node _ _ _) as [n|e]; [by destruct (_ <? _)|by destruct (_ =? _)].
Qed.

(** The file an attribute list is kept in. *)
Lemma tame_store_slot D now st nm : tame D (fun f => name_at (image f) tree_root STORE_DIR = Some (st, Kind.Directory))
  (fun f => match find_node (image f) st nm with
            | Ok node => (Ok (n_ptr node), f)
            | Err e => if e =? ENOENT then (bindT (stepT (create_node st nm (Z.lor MODE_FILE 0x180) now)) (fun n => retT (n_ptr n))) f else (Err e, f)
            end) (fun p f => is_file (image f) p).
Proof.
  intros f r f' Ht Hst. destruct (find_node (image f) st nm) as [n|e] eqn:Hf.
  - intros [= <- <-]. split; [same_uses|]. intros a [= <-]. split; [done|]. split; [done|]. exists n. split; [by eapply found_is_read; [apply Ht|]|]. pose proof (proj2 (td_store _ _ Ht _ _ Hst) nm _ _ (name_at_found _ _ _ _ Hf)) as Hk. rewrite kind_directory in Hk. by destruct (n_is_dir n).
  - destruct (e =? ENOENT); [|intros [= <- <-]; by split; [same_uses|]]. assert (Hc : tame D (fun f0 => name_at (image f0) tree_root STORE_DIR = Some (st, Kind.Directory) /\ name_at (image f0) st nm = None)
      (bindT (stepT (create_node st nm (Z.lor MODE_FILE 0x180) now)) (fun n => retT (n_ptr n))) (fun p f0 => is_file (image f0) p)).
    { eapply tame_bind; [apply tame_create; intros f0 _ [H1 H2]; split; [right; right; done|done]|].
      intros n. apply (tame_read _ _ _ (fun _ => Ok (n_ptr n))); [done|]. intros f0 a Ht0 (Hf0 & _ & Hk) [= <-]. specialize (Hk eq_refl). exists n. split; [by eapply found_is_read; [apply Ht0|]|]. unfold kind_of in Hk. by destruct (n_is_dir n). }
    apply Hc; [done|]. split; [done|]. unfold name_at, names_in. by rewrite Hf.
Qed.

Lemma tame_write_attrs D P id blob now : tame D P (write_attrs id blob now) (fun _ _ => True).
Proof.
  unfold write_attrs. case_bool_decide; [apply tame_purge|]. eapply tame_bind; [apply tame_lift|]. intros nm. eapply tame_bind; [apply tame_find_store|]. intros st. eapply tame_bind.
  { instantiate (1 := fun p f => name_at (image f) tree_root STORE_DIR = Some (p, Kind.Directory)). destruct st as [p|].
    - apply (tame_read _ _ _ (fun _ => Ok p)); [done|]. by intros f a _ [_ Hp] [= <-].
    - eapply tame_bind; [apply tame_create|].
      + intros f _ [_ Hst]. split; [right; left; done|done].
      + intros n. apply (tame_read _ _ _ (fun _ => Ok (n_ptr n))); [done|]. intros f a _ (Hf & Hk & _) [= <-]. by rewrite (name_at_found _ _ _ _ Hf), Hk. }
  intros p. eapply tame_bind; [apply tame_store_slot|]. intros q. eapply tame_bind; [apply tame_write|]. intros n. apply tame_truncate.
Qed.

(** ** The server's transactions *)

Lemma tame_create_new D P p nm mode now : p ∈ D -> visible nm ->
  tame D P (create_new p nm mode now) (fun n f => find_node (image f) p nm = Ok n /\
    (Z.land mode MODE_TYPE = MODE_DIR -> kind_of n = Kind.Directory) /\ (Z.land mode MODE_TYPE = MODE_FILE -> kind_of n = Kind.File)).
Proof.
  intros Hp Hv f r f' Ht HP. unfold create_new. destruct (find_node (image f) p nm) as [n|e] eqn:Hf; [intros [= <- <-]; by split; [same_uses|]|].
  apply (tame_create D (fun f0 => name_at (image f0) p nm = None)); [|done|unfold name_at, names_in; by rewrite Hf]. intros f0 _ Hn. split; [by left|done].
Qed.

Lemma tame_xattr_change D P id now (g : list Z -> result Z (nat * list Z)) :
  tame D P (bindT (read_attrs id) (fun blob => bindT (liftT (g blob)) (fun r => write_attrs id (take r.1 r.2) now))) (fun _ _ => True).
Proof. eapply tame_bind; [apply tame_read_attrs|]. intros blob. eapply tame_bind; [apply tame_lift|]. intros r. apply tame_write_attrs. Qed.

Lemma tame_remove_name D P p nm mode : (forall f, tidy D f -> P f -> Z.land mode MODE_TYPE = MODE_DIR -> may_go D f p nm) ->
  tame D P (bindT usagesT (fun u => bindT (stepT (remove_node u p nm mode)) (fun gone => match gone with Some id => purge_attrs id | None => retT tt end))) (fun _ _ => True).
Proof.
  intros Hgo. eapply tame_bind; [apply tame_usages|]. intros u. apply tame_remove; [intros f Ht [-> HP]; split; [by apply (Hgo f Ht HP)|intros; lia]|]. intros [id|]; [apply tame_purge|eapply tame_weaken; [apply (tame_ret D (fun _ => True))|done|done]].
Qed.

(** Which node a rename replaces: none, or one that may go. *)
Lemma tame_rename D P d nm d' nm' : d' ∈ D -> visible nm -> visible nm' -> is_name nm' = true ->
  (forall f, tidy D f -> P f -> name_at (image f) d' nm' <> name_at (image f) d nm -> may_go D f d' nm') ->
  tame D P (rename_body d nm d' nm') (fun _ _ => True).
Proof.
  intros Hd' Hv Hv' Hname Hgo. unfold rename_body. eapply tame_bind; [apply tame_find|]. intros n. destruct (n_is_dir n && negb (d =? d')) eqn:Hdd; [apply tame_fail|].
  assert (Hsame : n_is_dir n = true -> d = d') by (intros Hx; rewrite Hx in Hdd; by apply negb_false_iff, Z.eqb_eq in Hdd).
  assert (Hto : forall f r f' replaced, tidy D f -> find_node (image f) d nm = Ok n -> (forall old, find_node (image f) d' nm' = Ok old -> n_ptr old <> n_ptr n /\ n_is_dir old = n_is_dir n) -> may_go D f d' nm' ->
    bindT usagesT (fun u => bindT (step_T (rename_node u d nm d' nm')) (fun _ => match replaced with Some id => purge_attrs id | None => retT tt end)) f = (r, f') ->
    more_uses f f' /\ forall a, r = Ok a -> tidy D f' /\ spared D f f' /\ True).
  { intros f r f' replaced Ht Hf Hdst Hg. unfold bindT, usagesT, step_T, stepT. destruct (rename_node _ _ _ _ _ _) as [es|e] eqn:Hr; [|intros [= <- <-]; by split; [same_uses|]]. destruct (rename_tidy D f (node_usages f) d nm d' nm' n es Ht Hd' Hv Hv' Hname Hf Hsame Hdst Hg ltac:(intros; lia) Hr) as [Ht1 Hs1]. intros Hk.
    assert (Hp : tame D (fun _ => True) (match replaced with Some id => purge_attrs id | None => retT tt end) (fun _ _ => True)) by (destruct replaced; [apply tame_purge|eapply tame_weaken; [apply (tame_ret D (fun _ => True))|done|done]]). destruct (Hp _ _ _ Ht1 I Hk) as [Hu Hok]. split; [exact Hu|].
    intros a Ha. destruct (Hok a Ha) as (? & ? & _). split; [done|]. split; [|done]. eapply spared_trans; [|exact Hs1|done]. same_uses. }
  intros f r f' Ht [Hf HP]. pose proof (name_at_found _ _ _ _ Hf) as Hn. destruct (find_node (image f) d' nm') as [old|e] eqn:Hold.
  - destruct (Z.eqb_spec (n_ptr old) (n_ptr n)) as [He|He]; [intros [= <- <-]; split; [same_uses|]; done|]. destruct (Bool.eqb (n_is_dir old) (n_is_dir n)) eqn:Hb; cbn [negb]; [|intros [= <- <-]; by split; [same_uses|]]. apply eqb_prop in Hb.
    apply Hto; [done|done|intros o Ho; rewrite Hold in Ho; by injection Ho as <-|]. apply Hgo; [done|done|]. rewrite (name_at_found _ _ _ _ Hold), Hn. congruence.
  - apply (Hto f r f' None); [done|done|intros o Ho; by rewrite Hold in Ho|]. intros _ q Hq. unfold name_at, names_in in Hq. by rewrite Hold in Hq.
Qed.

(** What is known of the counts stays known. *)
Lemma tame_uses {A} D P (b : T A) Q (c : Z -> Z) :
  tame D P b Q -> tame D (fun f => P f /\ forall q, c q <= uses (node_usages f) q) b (fun a f => Q a f /\ forall q, c q <= uses (node_usages f) q).
Proof.
  intros Hb f r f' Ht [HP Hc] Hf. destruct (Hb f r f' Ht HP Hf) as [Hu Hok]. split; [done|]. intros a Ha. destruct (Hok a Ha) as (? & ? & ?). split; [done|]. split; [done|]. split; [done|]. intros q. specialize (Hu q). specialize (Hc q). lia.
Qed.

Lemma tame_open D p (c : Z -> Z) P : (forall f u, P f -> P (MkFS (image f) u)) ->
  tame D (fun f => P f /\ forall q, c q <= uses (node_usages f) q) (on_open_node p) (fun _ f => P f /\ forall q, c q + (if decide (q = p) then 1 else 0) <= uses (node_usages f) q).
Proof.
  intros HP f r f' Ht [Hp Hc]. unfold on_open_node. destruct (checked_add 64 _ 1) as [n'|] eqn:Ha.
  - assert (n' = uses (node_usages f) p + 1) as -> by (unfold checked_add in Ha; case_decide; unfold uses; congruence). intros [= <- <-]. split.
    + intros q. cbn [node_usages]. unfold uses. destruct (decide (p = q)) as [<-|]; [rewrite lookup_insert_eq; simpl; lia|by rewrite lookup_insert_ne].
    + intros a _. split; [by destruct Ht|]. split; [done|]. split; [by apply HP|]. intros q. specialize (Hc q). cbn [node_usages]. unfold uses in *. case_decide as Hq; [subst q; rewrite lookup_insert_eq; simpl; lia|rewrite lookup_insert_ne by done; lia].
  - intros [= <- <-]. split; [|done]. intros q. cbn [node_usages]. unfold uses. destruct (decide (p = q)) as [<-|]; [by rewrite lookup_insert_eq|by rewrite lookup_insert_ne].
Qed.

Lemma tame_create_file D P p nm now (c : Z -> Z) : p ∈ D -> visible nm ->
  tame D (fun f => P f /\ forall q, c q <= uses (node_usages f) q)
    (bindT (create_new p nm (Z.lor MODE_FILE 0x1A4) now) (fun node => bindT (on_open_node (n_ptr node)) (fun _ => retT (n_ptr node))))
    (fun ptr f => name_at (image f) p nm = Some (ptr, Kind.File) /\ forall q, c q + (if decide (q = ptr) then 1 else 0) <= uses (node_usages f) q).
Proof.
  intros Hp Hv. eapply tame_bind; [by apply tame_uses, tame_create_new|]. intros n. eapply tame_bind; [by apply (tame_open D (n_ptr n) c (fun f => find_node (image f) p nm = Ok n /\ (Z.land (Z.lor MODE_FILE 0x1A4) MODE_TYPE = MODE_DIR -> kind_of n = Kind.Directory) /\ (Z.land (Z.lor MODE_FILE 0x1A4) MODE_TYPE = MODE_FILE -> kind_of n = Kind.File)))|].
  intros u. apply (tame_read _ _ _ (fun _ => Ok (n_ptr n))); [done|]. intros f a _ ((Hf & _ & Hk) & Hc) [= <-]. split; [|done]. by rewrite (name_at_found _ _ _ _ Hf), Hk.
Qed.

(** [fs.tx]: what the body leaves, or nothing. *)
Lemma fs_tx_spec {A} D P (b : T A) Q f r f' : tame D P b Q -> tidy D f -> P f -> fs_tx b f = (r, f') ->
  more_uses f f' /\ tidy D f' /\ spared D f f' /\
  forall a, r = Ok a -> exists f1, Q a f1 /\ node_usages f' = node_usages f1 /\ (forall d nm, find_node (image f') d nm = find_node (image f1) d nm) /\ forall q, read_tree (image f') q = read_tree (image f1) q.
Proof.
  intros Hb Ht HP. unfold fs_tx. destruct (b f) as [[a|e] f1] eqn:Hf; destruct (Hb _ _ _ Ht HP Hf) as [Hu Hok].
  2: { intros [= <- <-]. split; [exact Hu|]. split; [by destruct Ht|]. split; [done|done]. }
  destruct (Hok a eq_refl) as (Ht1 & Hs1 & Hq). destruct (commit (image f1)) as [es|e] eqn:Hc; intros [= <- <-].
  - destruct (commit_law _ _ (td_sound _ _ Ht1) Hc) as (Hs & Hfind & Hread). split; [exact Hu|]. assert (Hk : keeps_names (image f1) es) by (intros d nm; unfold name_at, names_in; by rewrite Hfind). assert (Hfi : forall q, is_file (image f1) q -> is_file es q) by (intros q; unfold is_file; by rewrite Hread).
    split; [by apply keeps_tidy with f1|]. split; [eapply spared_trans; [exact Hu|exact Hs1|by apply keeps_spared; auto]|]. intros x [= <-]. by exists f1.
  - split; [exact Hu|]. split; [by destruct Ht|]. split; [done|done].
Qed.

End transactions.
End FileEngine.
