(* ===== verification/TreeEngine.v ===== *)
(** * An engine that keeps the laws

    A tree of names over numbered nodes, with no bytes in its files. A node's number is
    free again once it is gone and is then taken by the next node made, as in the
    image format of vendor/redoxfs; a file that is unlinked while it is open stays
    until it is released. It shows that [FileEngine.EngineLaws] can be kept, and runs
    the examples of [FileConfinement]. *)

From S2P Require Import Prelude SubtreeScope FsProtocol FileMemo FileServer FileEngine.
Local Open Scope Z_scope.

Module TreeEngine.
Import SubtreeScope FsProtocol FileMemo FileServer FileEngine.

(** Which node a name leads to, and which nodes there are: directories are [true]. *)
Record Tree := MkTree { names : gmap (Z * list Z) Z; nodes : gmap Z bool }.

Definition node_of (p : Z) (dir : bool) : Node := MkNode p dir false 1 0 0.
Definition fresh_id (ns : gmap Z bool) : Z := 1 + foldr Z.max 0 (map_to_list ns).*1.
Definition has_names (t : gmap (Z * list Z) Z) (d : Z) : bool := bool_decide (d ∈ (map_to_list t).*1.*1).
Definition is_named (t : gmap (Z * list Z) Z) (p : Z) : bool := bool_decide (p ∈ (map_to_list t).*2).

Definition in_dir (d : Z) (kv : Z * list Z * Z) : option (option (list Z) * Z) :=
  if decide (kv.1.1 = d) then Some (Some kv.1.2, kv.2) else None.

Definition leads (t : Tree) (d : Z) (nm : list Z) : option (Z * bool) :=
  p ← names t !! (d, nm); dir ← nodes t !! p; Some (p, dir).

(** A node whose name is gone: a directory goes at once, a file when nobody has it open. *)
Definition drop_node (u : gmap Z Z) (p : Z) (dir : bool) (ns : gmap Z bool) : gmap Z bool :=
  if dir || (uses u p <=? 0) then delete p ns else ns.

Definition make (d : Z) (nm : list Z) (mode : Z) (t : Tree) : result Z (Node * Tree) :=
  if is_some (names t !! (d, nm)) then Err EEXIST else
  let p := fresh_id (nodes t) in
  let add dir := Ok (node_of p dir, MkTree (<[(d, nm) := p]> (names t)) (<[p := dir]> (nodes t))) in
  if Z.land mode MODE_TYPE =? MODE_DIR then add true
  else if Z.land mode MODE_TYPE =? MODE_FILE then add false else Err EINVAL.

Definition take_away (u : gmap Z Z) (d : Z) (nm : list Z) (mode : Z) (t : Tree) : result Z (option Z * Tree) :=
  match leads t d nm with
  | None => Err ENOENT
  | Some (p, dir) =>
      if negb (Bool.eqb dir (Z.land mode MODE_TYPE =? MODE_DIR)) then Err EISDIR
      else if dir && has_names (names t) p then Err ENOTEMPTY
      else Ok (Some p, MkTree (delete (d, nm) (names t)) (drop_node u p dir (nodes t)))
  end.

Definition move (u : gmap Z Z) (d : Z) (nm : list Z) (d' : Z) (nm' : list Z) (t : Tree) : result Z Tree :=
  match leads t d nm with
  | None => Err ENOENT
  | Some (p, _) =>
      let moved := <[(d', nm') := p]> (delete (d, nm) (names t)) in
      match leads t d' nm' with
      | None => Ok (MkTree moved (nodes t))
      | Some (old, dir) =>
          if old =? p then Err EINVAL else if dir && has_names (names t) old then Err ENOTEMPTY
          else Ok (MkTree moved (drop_node u old dir (nodes t)))
      end
  end.

Definition kept (u : gmap Z Z) (t : gmap (Z * list Z) Z) (kv : Z * bool) : Prop := kv.2 = true \/ 0 < uses u kv.1 \/ is_named t kv.1 = true.

#[export] Instance tree_engine : Engine Tree := {|
  find_node t d nm := match leads t d nm with Some (p, dir) => Ok (node_of p dir) | None => Err ENOENT end;
  read_tree t p := match nodes t !! p with Some dir => Ok (node_of p dir) | None => Err ENOENT end;
  child_nodes t d := Ok (omap (in_dir d) (map_to_list (names t)));
  read_node _ _ _ _ := Ok [];
  create_node d nm mode _ t := make d nm mode t;
  write_node _ _ data _ t := Ok (Z.of_nat (length data), t);
  truncate_node _ _ _ t := Ok t;
  sync_mtime _ _ t := Ok t;
  rename_node u d nm d' nm' t := move u d nm d' nm' t;
  remove_node u d nm mode t := take_away u d nm mode t;
  release_unused_nodes u t := Ok (MkTree (names t) (filter (kept u (names t)) (nodes t)));
  commit t := Ok t;
  release_is_null t := bool_decide (filter (kept ∅ (names t)) (nodes t) = nodes t);
  header_size _ := 409600;
  allocator_free _ := 10
|}.

(** A consistent tree: the root is a directory without a name, names are in directories
    and lead to nodes there are, no two to the same. *)
Record consistent (t : Tree) : Prop := MkConsistent {
  c_root : nodes t !! tree_root = Some true;
  c_nameless : forall k, names t !! k <> Some tree_root;
  c_child : forall k p, names t !! k = Some p -> is_Some (nodes t !! p);
  c_parent : forall d nm p, names t !! (d, nm) = Some p -> nodes t !! d = Some true;
  c_one : forall k k' p, names t !! k = Some p -> names t !! k' = Some p -> k = k' }.

Implicit Types t : Tree.

Lemma in_dir_children (m : gmap (Z * list Z) Z) d nm p : (Some nm, p) ∈ omap (in_dir d) (map_to_list m) <-> m !! (d, nm) = Some p.
Proof.
  rewrite list_elem_of_omap. unfold in_dir. split.
  - intros ([[d' nm'] p'] & Hin & Hd). simpl in Hd. case_decide; simplify_eq. by apply elem_of_map_to_list in Hin.
  - intros Hl. exists (d, nm, p). split; [by apply elem_of_map_to_list|]. simpl. by rewrite decide_True.
Qed.

Lemma in_dir_distinct d (l : list (Z * list Z * Z)) : NoDup l.*1 -> NoDup (omap fst (omap (in_dir d) l)).
Proof.
  induction l as [|[[d' nm] p] l IH]; [constructor|]. rewrite fmap_cons, NoDup_cons. intros [Hn Hl].
  cbn [omap list_omap]. unfold in_dir at 1. simpl. case_decide as Hd; [|by apply IH]. cbn [omap list_omap fst].
  apply NoDup_cons. split; [|by apply IH]. intros (x & Hx & Hf)%list_elem_of_omap.
  apply list_elem_of_omap in Hx as ([[d2 nm2] p2] & Hin & Hi). unfold in_dir in Hi. simpl in Hi. case_decide; simplify_eq.
  simpl in Hf. simplify_eq. apply Hn, list_elem_of_fmap. eexists. split; [|exact Hin]. done.
Qed.

Lemma has_names_spec (m : gmap (Z * list Z) Z) d : has_names m d = false <-> forall nm, m !! (d, nm) = None.
Proof.
  unfold has_names. rewrite bool_decide_eq_false. split.
  - intros Hn nm. destruct (m !! (d, nm)) as [p|] eqn:Hp; [|done]. destruct Hn. apply list_elem_of_fmap. exists (d, nm). split; [done|]. apply list_elem_of_fmap. exists (d, nm, p). split; [done|]. by apply elem_of_map_to_list.
  - intros Hn (k & -> & Hk)%list_elem_of_fmap. apply list_elem_of_fmap in Hk as ([[d' nm] p] & -> & Hin). apply elem_of_map_to_list in Hin. simpl in Hn. by rewrite Hn in Hin.
Qed.

Lemma is_named_spec (m : gmap (Z * list Z) Z) k p : m !! k = Some p -> is_named m p = true.
Proof. intros Hk. apply bool_decide_eq_true, list_elem_of_fmap. exists (k, p). split; [done|]. by apply elem_of_map_to_list. Qed.

Lemma fresh_id_fresh (ns : gmap Z bool) : ns !! fresh_id ns = None.
Proof.
  destruct (ns !! fresh_id ns) as [x|] eqn:Hx; [|done]. exfalso. apply elem_of_map_to_list in Hx. unfold fresh_id in *.
  assert (Hle : forall (l : list Z) p, p ∈ l -> p <= foldr Z.max 0 l) by (intros l p; induction l as [|y l IH]; [by intros ?%elem_of_nil|]; intros [->|Hin]%elem_of_cons; simpl; [lia|specialize (IH Hin); lia]).
  assert (Hin : 1 + foldr Z.max 0 (map_to_list ns).*1 ∈ (map_to_list ns).*1) by (apply list_elem_of_fmap; by eexists (_, x)). apply Hle in Hin. lia.
Qed.

(** What the engine answers, of a consistent tree. *)
Lemma kind_node p dir : kind_of (node_of p dir) = if dir then Kind.Directory else Kind.File.
Proof. by destruct dir. Qed.

Lemma found_Some t d nm p dir : leads t d nm = Some (p, dir) <-> names t !! (d, nm) = Some p /\ nodes t !! p = Some dir.
Proof. unfold leads. split; [intros ?; by simplify_option_eq|]. intros [H1 H2]. rewrite H1. simpl. by rewrite H2. Qed.

Lemma found_ok t d nm n : find_node t d nm = Ok n <-> exists p dir, n = node_of p dir /\ names t !! (d, nm) = Some p /\ nodes t !! p = Some dir.
Proof.
  cbn [find_node tree_engine]. split.
  - destruct (leads t d nm) as [[p dir]|] eqn:Hf; [|done]. intros [= <-]. apply found_Some in Hf. eauto.
  - intros (p & dir & -> & Hf). apply found_Some in Hf. by rewrite Hf.
Qed.

Lemma name_at_tree t d nm : name_at t d nm = (fun x => (x.1, if x.2 : bool then Kind.Directory else Kind.File)) <$> leads t d nm.
Proof. unfold name_at, names_in. cbn [find_node tree_engine]. by destruct (leads t d nm) as [[p []]|]. Qed.

Lemma is_file_tree t p : is_file t p <-> nodes t !! p = Some false.
Proof. unfold is_file. cbn [read_tree tree_engine]. destruct (nodes t !! p) as [[]|]; naive_solver. Qed.

Lemma is_dir_tree t p : is_dir t p <-> nodes t !! p = Some true.
Proof. unfold is_dir. cbn [read_tree tree_engine]. destruct (nodes t !! p) as [[]|]; naive_solver. Qed.

Lemma found_None t d nm : consistent t -> leads t d nm = None <-> names t !! (d, nm) = None.
Proof.
  intros Hc. split; [|unfold leads; by intros ->]. intros Hf. destruct (names t !! (d, nm)) as [p|] eqn:Hp; [|done].
  destruct (c_child _ Hc _ _ Hp) as [dir Hd]. assert (leads t d nm = Some (p, dir)) by (by apply found_Some). congruence.
Qed.

(** Two trees that agree on a name and its node agree on where it leads. *)
Lemma found_same t t' d nm : names t' !! (d, nm) = names t !! (d, nm) -> (forall p, names t !! (d, nm) = Some p -> nodes t' !! p = nodes t !! p) -> leads t' d nm = leads t d nm.
Proof. intros Hn Hp. unfold leads. rewrite Hn. destruct (names t !! (d, nm)) as [p|]; [|done]. simpl. by rewrite Hp. Qed.

(** ** Making a node *)

Lemma make_ok d nm mode t n t' : make d nm mode t = Ok (n, t') ->
  exists dir, n = node_of (fresh_id (nodes t)) dir /\ names t !! (d, nm) = None /\
    t' = MkTree (<[(d, nm) := fresh_id (nodes t)]> (names t)) (<[fresh_id (nodes t) := dir]> (nodes t)) /\
    (Z.land mode MODE_TYPE = MODE_DIR -> dir = true) /\ (Z.land mode MODE_TYPE = MODE_FILE -> dir = false).
Proof.
  unfold make. destruct (names t !! (d, nm)); [done|]. cbn [is_some]. destruct (Z.eqb_spec (Z.land mode MODE_TYPE) MODE_DIR) as [He|He]; [|destruct (Z.eqb_spec (Z.land mode MODE_TYPE) MODE_FILE); [|done]].
  - intros [= <- <-]. exists true. split_and!; try done. by rewrite He.
  - intros [= <- <-]. exists false. split_and!; try done.
Qed.

Lemma make_consistent d nm t dir : consistent t -> nodes t !! d = Some true -> names t !! (d, nm) = None ->
  consistent (MkTree (<[(d, nm) := fresh_id (nodes t)]> (names t)) (<[fresh_id (nodes t) := dir]> (nodes t))).
Proof.
  intros Hc Hd Hn. pose proof (fresh_id_fresh (nodes t)) as Hf. set (p := fresh_id (nodes t)) in *. assert (Hne : forall k q, names t !! k = Some q -> q <> p) by (intros k q Hk ->; destruct (c_child _ Hc _ _ Hk); congruence).
  constructor; cbn [names nodes].
  - rewrite lookup_insert_ne; [apply Hc|]. intros Hp. pose proof (c_root _ Hc). congruence.
  - intros k. rewrite lookup_insert_Some. intros [[_ Hp]|[_ Hk]]; [pose proof (c_root _ Hc); congruence|by apply (c_nameless _ Hc k)].
  - intros k q. rewrite lookup_insert_Some. intros [[_ <-]|[_ Hk]]; [by rewrite lookup_insert_eq|]. rewrite lookup_insert_ne; [by eapply c_child|]. intros <-. by apply (Hne k p).
  - intros x y q. rewrite lookup_insert_Some. intros [[[= <- <-] _]|[_ Hk]]; [rewrite lookup_insert_ne; [done|congruence]|]. pose proof (c_parent _ Hc _ _ _ Hk). rewrite lookup_insert_ne; [done|congruence].
  - intros k k' q. rewrite !lookup_insert_Some. intros [[<- <-]|[_ Hk]] [[<- Hq]|[_ Hk']]; [done|by destruct (Hne k' p)|subst q; by destruct (Hne k p)|by eapply c_one].
Qed.

(** ** Taking a name away *)

Lemma drop_node_ne u p dir ns q : q <> p -> drop_node u p dir ns !! q = ns !! q.
Proof. intros Hq. unfold drop_node. destruct (_ || _); [by rewrite lookup_delete_ne|done]. Qed.

Lemma drop_node_used u p ns : 0 < uses u p -> drop_node u p false ns !! p = ns !! p.
Proof. intros Hu. unfold drop_node. cbn [orb]. by destruct (Z.leb_spec (uses u p) 0); [lia|]. Qed.

(** A file that is open is still there. *)
Lemma drop_node_file u p dir ns q : ns !! p = Some dir -> 0 < uses u q -> ns !! q = Some false -> drop_node u p dir ns !! q = Some false.
Proof. intros Hp Hq Hf. destruct (decide (q = p)) as [->|Hne]; [|by rewrite drop_node_ne]. assert (dir = false) as -> by congruence. by rewrite drop_node_used. Qed.

Lemma drop_node_parent u p dir ns d : ns !! p = Some dir -> (dir = true -> d <> p) -> ns !! d = Some true -> drop_node u p dir ns !! d = Some true.
Proof. intros Hp Hd Hn. rewrite drop_node_ne; [done|]. intros ->. assert (dir = true) as -> by congruence. by apply Hd. Qed.

Lemma take_away_ok u d nm mode t r t' : take_away u d nm mode t = Ok (r, t') ->
  exists p dir, names t !! (d, nm) = Some p /\ nodes t !! p = Some dir /\ (dir = true <-> Z.land mode MODE_TYPE = MODE_DIR) /\
    (dir = true -> forall nm', names t !! (p, nm') = None) /\ t' = MkTree (delete (d, nm) (names t)) (drop_node u p dir (nodes t)).
Proof.
  unfold take_away. destruct (leads t d nm) as [[p dir]|] eqn:Hf; [|done]. apply found_Some in Hf as [Hn Hp]. destruct (Bool.eqb _ _) eqn:Hb; cbn [negb]; [|done]. apply eqb_prop in Hb.
  destruct (dir && has_names (names t) p) eqn:He; [done|]. intros [= _ <-]. exists p, dir. split; [done|]. split; [done|]. split; [rewrite Hb; apply Z.eqb_eq|]. split; [|done]. intros Hd. rewrite Hd in He. by apply has_names_spec.
Qed.

Lemma take_away_consistent u d nm t p dir : consistent t -> names t !! (d, nm) = Some p -> nodes t !! p = Some dir -> (dir = true -> forall nm', names t !! (p, nm') = None) ->
  consistent (MkTree (delete (d, nm) (names t)) (drop_node u p dir (nodes t))).
Proof.
  intros Hc Hn Hp He. assert (Hpar : forall x y q, names t !! (x, y) = Some q -> drop_node u p dir (nodes t) !! x = Some true).
  { intros x y q Hx. apply drop_node_parent; [done| |by eapply c_parent]. intros Hd ->. by rewrite He in Hx. }
  constructor; cbn [names nodes].
  - rewrite drop_node_ne; [apply Hc|]. intros <-. by apply (c_nameless _ Hc (d, nm)).
  - intros k [_ Hk]%lookup_delete_Some. by apply (c_nameless _ Hc k).
  - intros k q [Hne Hk]%lookup_delete_Some. rewrite drop_node_ne; [by eapply c_child|]. intros ->. apply Hne. by eapply c_one.
  - intros x y q [_ Hk]%lookup_delete_Some. by eapply Hpar.
  - intros k k' q [_ Hk]%lookup_delete_Some [_ Hk']%lookup_delete_Some. by eapply c_one.
Qed.

(** ** Moving one *)

(** What is replaced: nothing, or a node with no names in it. *)
Definition replaced (t : Tree) (u : gmap Z Z) (d' : Z) (nm' : list Z) (p : Z) (ns : gmap Z bool) : Prop :=
  names t !! (d', nm') = None /\ ns = nodes t \/
  exists old dir, names t !! (d', nm') = Some old /\ nodes t !! old = Some dir /\ old <> p /\
    (dir = true -> forall nm, names t !! (old, nm) = None) /\ ns = drop_node u old dir (nodes t).

Lemma move_ok u d nm d' nm' t t' : consistent t -> move u d nm d' nm' t = Ok t' ->
  exists p ns, names t !! (d, nm) = Some p /\ replaced t u d' nm' p ns /\ t' = MkTree (<[(d', nm') := p]> (delete (d, nm) (names t))) ns.
Proof.
  intros Hc. unfold move. destruct (leads t d nm) as [[p dir]|] eqn:Hf; [|done]. apply found_Some in Hf as [Hn _]. destruct (leads t d' nm') as [[old od]|] eqn:Ho.
  - apply found_Some in Ho as [Ho Hod]. destruct (Z.eqb_spec old p); [done|]. destruct (od && has_names (names t) old) eqn:He; [done|]. intros [= <-]. exists p, (drop_node u old od (nodes t)). split; [done|]. split; [|done].
    right. exists old, od. split_and!; try done. intros ->. by apply has_names_spec.
  - intros [= <-]. exists p, (nodes t). split; [done|]. split; [|done]. left. split; [|done]. by apply found_None.
Qed.

Lemma replaced_ne t u d' nm' p ns q : replaced t u d' nm' p ns -> names t !! (d', nm') <> Some q -> ns !! q = nodes t !! q.
Proof. intros [[_ ->]|(old & dir & Ho & _ & _ & _ & ->)] Hq; [done|]. apply drop_node_ne. intros ->. done. Qed.

Lemma replaced_parent t u d' nm' p ns x y q : replaced t u d' nm' p ns -> names t !! (x, y) = Some q -> nodes t !! x = Some true -> ns !! x = Some true.
Proof. intros [[_ ->]|(old & dir & _ & Hd & _ & He & ->)] Hx; [done|]. apply drop_node_parent; [done|]. intros Hdir ->. by rewrite He in Hx. Qed.

(** The directory moved into is not what is replaced. *)
Lemma replaced_into t u d' nm' p ns : replaced t u d' nm' p ns -> nodes t !! d' = Some true -> ns !! d' = Some true.
Proof. intros [[_ ->]|(old & dir & Ho & Hd & _ & He & ->)]; [done|]. apply drop_node_parent; [done|]. intros Hdir ->. by rewrite He in Ho. Qed.

Lemma move_consistent u d nm d' nm' t p ns : consistent t -> nodes t !! d' = Some true -> names t !! (d, nm) = Some p -> replaced t u d' nm' p ns ->
  consistent (MkTree (<[(d', nm') := p]> (delete (d, nm) (names t))) ns).
Proof.
  intros Hc Hd' Hn Hr. assert (Hcur : forall k q, (d', nm') <> k -> names t !! k = Some q -> names t !! (d', nm') <> Some q) by (intros k q Hne Hk Hq; apply Hne; by eapply c_one).
  assert (Hpn : names t !! (d', nm') <> Some p) by (destruct Hr as [[Hx _]|(old & dir & Ho & _ & Hne & _)]; congruence).
  constructor; cbn [names nodes].
  - rewrite (replaced_ne _ _ _ _ _ _ _ Hr); [apply Hc|apply Hc].
  - intros k. rewrite lookup_insert_Some, lookup_delete_Some. intros [[_ ->]|(_ & _ & Hk)]; by eapply c_nameless.
  - intros k q. rewrite lookup_insert_Some, lookup_delete_Some. intros [[_ <-]|(Hne & _ & Hk)]; (rewrite (replaced_ne _ _ _ _ _ _ _ Hr); [by eapply c_child|]); [done|by eapply Hcur].
  - intros x y q. rewrite lookup_insert_Some, lookup_delete_Some. intros [[[= <- <-] _]|(_ & _ & Hk)]; [by eapply replaced_into|]. eapply replaced_parent; [done|done|by eapply c_parent].
  - intros k k' q. rewrite !lookup_insert_Some, !lookup_delete_Some. intros [[<- <-]|(_ & H1 & Hk)] [[<- Hq]|(_ & H1' & Hk')]; [done| | |by eapply c_one].
    + destruct H1'. by eapply c_one.
    + subst q. destruct H1. by eapply c_one.
Qed.

(** ** The laws *)

Lemma release_keeps u t : consistent t -> let t' := MkTree (names t) (filter (kept u (names t)) (nodes t)) in
  consistent t' /\ (forall d nm, leads t' d nm = leads t d nm) /\ forall q, 0 < uses u q -> nodes t !! q = Some false -> nodes t' !! q = Some false.
Proof.
  intros Hc t'. assert (Hkeep : forall q dir, nodes t !! q = Some dir -> kept u (names t) (q, dir) -> nodes t' !! q = Some dir) by (intros q dir Hq Hk; by apply map_lookup_filter_Some).
  assert (Hnamed : forall k q dir, names t !! k = Some q -> nodes t !! q = Some dir -> nodes t' !! q = Some dir) by (intros k q dir Hk Hq; apply Hkeep; [done|]; right; right; by eapply is_named_spec).
  split; [|split].
  - constructor; [apply Hkeep; [apply Hc|by left]|apply Hc| | |apply Hc].
    + intros k q Hk. destruct (c_child _ Hc _ _ Hk) as [dir Hq]. eexists. by eapply Hnamed.
    + intros d nm q Hk. apply Hkeep; [by eapply c_parent|by left].
  - intros d nm. apply found_same; [done|]. intros q Hq. destruct (c_child _ Hc _ _ Hq) as [dir Hd]. rewrite Hd. by eapply Hnamed.
  - intros q Hu Hq. apply Hkeep; [done|]. right. by left.
Qed.

Lemma same_keeps t t' : (forall d nm, leads t' d nm = leads t d nm) -> keeps_names t t'.
Proof. intros Hf d nm. rewrite !name_at_tree. cbn [find_node tree_engine]. by rewrite Hf. Qed.

Lemma create_keeps p nm mode t n t' : consistent t -> is_dir t p -> make p nm mode t = Ok (n, t') ->
  consistent t' /\ find_node t' p nm = Ok n /\
  (forall d' nm', (d', nm') <> (p, nm) -> name_at t' d' nm' = name_at t d' nm') /\
  (forall m, read_tree t (n_ptr n) <> Ok m) /\ (forall nm', name_at t (n_ptr n) nm' = None) /\
  (forall q, is_file t q -> is_file t' q) /\
  (Z.land mode MODE_TYPE = MODE_DIR -> kind_of n = Kind.Directory) /\ (Z.land mode MODE_TYPE = MODE_FILE -> kind_of n = Kind.File).
Proof.
  intros Hc Hd%is_dir_tree Hm. destruct (make_ok _ _ _ _ _ _ Hm) as (dir & -> & Hn & -> & Hk1 & Hk2). pose proof (fresh_id_fresh (nodes t)) as Hf.
  split; [by apply make_consistent|]. split; [apply found_ok; exists (fresh_id (nodes t)), dir; cbn [names nodes]; by rewrite !lookup_insert_eq|]. split.
  { intros d' nm' Hne. rewrite !name_at_tree. f_equal. apply found_same; cbn [names nodes]; [by rewrite lookup_insert_ne|]. intros q Hq. rewrite lookup_insert_ne; [done|]. intros <-. destruct (c_child _ Hc _ _ Hq). congruence. }
  split; [intros m; cbn [read_tree tree_engine node_of n_ptr]; by rewrite Hf|]. split.
  { intros nm'. rewrite name_at_tree. cbn [node_of n_ptr]. rewrite (proj2 (found_None t _ _ Hc)); [done|]. destruct (names t !! (fresh_id (nodes t), nm')) as [q|] eqn:Hq; [|done]. apply (c_parent _ Hc) in Hq. congruence. }
  split; [intros q; rewrite !is_file_tree; cbn [nodes]; intros Hq; rewrite lookup_insert_ne; [done|congruence]|]. rewrite kind_node. split; intros Hx; [by rewrite Hk1|by rewrite Hk2].
Qed.

Lemma remove_keeps u d nm mode t r t' : consistent t -> take_away u d nm mode t = Ok (r, t') ->
  exists n, find_node t d nm = Ok n /\ (n_is_dir n = true <-> Z.land mode MODE_TYPE = MODE_DIR) /\
    (n_is_dir n = true -> forall nm', name_at t (n_ptr n) nm' = None) /\ consistent t' /\
    (forall d' nm', name_at t' d' nm' = if decide ((d', nm') = (d, nm)) then None else name_at t d' nm') /\
    (forall q, 0 < uses u q -> is_file t q -> is_file t' q).
Proof.
  intros Hc Hr. destruct (take_away_ok _ _ _ _ _ _ _ Hr) as (p & dir & Hn & Hp & Hm & He & ->). exists (node_of p dir). split; [apply found_ok; eauto|]. split; [done|].
  split; [intros Hd nm'; rewrite name_at_tree, (proj2 (found_None t _ _ Hc)); [done|by apply He]|]. split; [by apply take_away_consistent|]. split.
  - intros d' nm'. rewrite !name_at_tree. case_decide as Hk; [injection Hk as -> ->; unfold leads; cbn [names]; by rewrite lookup_delete_eq|]. f_equal. apply found_same; cbn [names nodes]; [by rewrite lookup_delete_ne|]. intros q Hq. apply drop_node_ne. intros ->. apply Hk. by eapply c_one.
  - intros q Hq. rewrite !is_file_tree. cbn [nodes]. by apply drop_node_file.
Qed.

Lemma rename_keeps u d nm d' nm' t n t' : consistent t -> find_node t d nm = Ok n -> is_dir t d' -> move u d nm d' nm' t = Ok t' ->
  consistent t' /\
  (forall old, find_node t d' nm' = Ok old -> n_is_dir old = true -> forall x, name_at t (n_ptr old) x = None) /\
  (forall x y, name_at t' x y = if decide ((x, y) = (d', nm')) then Some (n_ptr n, kind_of n) else if decide ((x, y) = (d, nm)) then None else name_at t x y) /\
  (forall q, 0 < uses u q -> is_file t q -> is_file t' q).
Proof.
  intros Hc (p & dir & -> & Hn & Hp)%found_ok Hd%is_dir_tree Hm. destruct (move_ok _ _ _ _ _ _ _ Hc Hm) as (p' & ns & Hn' & Hr & ->). assert (p' = p) as -> by congruence.
  assert (Hpn : names t !! (d', nm') <> Some p) by (destruct Hr as [[Hx _]|(old & od & Ho & _ & Hne & _)]; congruence).
  split; [by eapply move_consistent|]. split; [|split].
  - intros old (q & od & -> & Hq & Hod)%found_ok Hdir x. cbn [node_of n_is_dir n_ptr] in *. rewrite name_at_tree, (proj2 (found_None t _ _ Hc)); [done|]. destruct Hr as [[Hx _]|(o & b & Ho & Hb & _ & He & _)]; [congruence|]. assert (o = q) as -> by congruence. apply He. congruence.
  - intros x y. rewrite !name_at_tree. case_decide as Hk; [injection Hk as -> ->; rewrite (proj2 (found_Some _ _ _ p dir)); [by destruct dir|]; cbn [names nodes]; rewrite lookup_insert_eq, (replaced_ne _ _ _ _ _ _ _ Hr); done|].
    case_decide as Hk'; [injection Hk' as -> ->; unfold leads; cbn [names]; by rewrite lookup_insert_ne, lookup_delete_eq|]. f_equal. apply found_same; cbn [names nodes]; [by rewrite lookup_insert_ne, lookup_delete_ne|]. intros q Hq. apply (replaced_ne _ _ _ _ _ _ _ Hr). intros Hq'. apply Hk. by eapply c_one.
  - intros q Hq. rewrite !is_file_tree. cbn [nodes]. destruct Hr as [[_ ->]|(o & b & Ho & Hb & _ & _ & ->)]; [done|]. by apply drop_node_file.
Qed.

#[export, refine] Instance tree_laws : EngineLaws Tree := {| sound := consistent |}.
Proof.
  - intros t d nm n _ (p & dir & -> & _ & Hp)%found_ok. cbn [read_tree tree_engine node_of n_ptr]. by rewrite Hp.
  - intros t Hc. apply is_dir_tree, Hc.
  - intros t d nm k Hc. rewrite name_at_tree. destruct (leads t d nm) as [[p dir]|] eqn:Hf; [|done]. apply found_Some in Hf as [Hf _]. intros [= -> _]. by apply (c_nameless _ Hc _ Hf).
  - intros t d nm d' nm' p k Hc. rewrite !name_at_tree. destruct (leads t d nm) as [[q dir]|] eqn:Hf, (leads t d' nm') as [[q' dir']|] eqn:Hf'; try done. apply found_Some in Hf as [Hf _], Hf' as [Hf' _]. intros [= -> _] [= -> _]. pose proof (c_one _ Hc _ _ _ Hf Hf'). by simplify_eq.
  - intros t d cs _ [= <-]. apply in_dir_distinct, NoDup_fst_map_to_list.
  - intros t d cs nm p n _ [= <-] Hin%in_dir_children. cbn [read_tree tree_engine]. destruct (nodes t !! p) as [dir|] eqn:Hp; [|done]. intros [= <-]. unfold names_in. by rewrite (proj2 (found_ok t d nm (node_of p dir)) ltac:(eauto)).
  - intros t d cs nm Hc [= <-] Hno. cbn [find_node tree_engine]. rewrite (proj2 (found_None t d nm Hc)); [done|]. destruct (names t !! (d, nm)) as [p|] eqn:Hp; [|done]. exfalso. by apply (Hno p), in_dir_children.
  - intros t t' Hc [= <-]. done.
  - intros p off data now t n t' Hc _ [= _ <-]. done.
  - intros p sz now t t' Hc _ [= <-]. done.
  - intros n tm t t' Hc _ [= <-]. done.
  - intros u t t' Hc [= <-]. destruct (release_keeps u t Hc) as (H1 & H2 & H3). split; [done|]. split; [by apply same_keeps|]. intros q. rewrite !is_file_tree. apply H3.
  - intros p nm mode now t n t' Hc Hd. by apply create_keeps.
  - intros u d nm mode t r t' Hc. by apply remove_keeps.
  - intros u d nm d' nm' t n t' Hc Hf Hd _ _. by apply rename_keeps.
Defined.

End TreeEngine.
