(* ===== verification/FileConfinement.v ===== *)
(** * What a client of the file server can reach

    The server never panics, answers names from its memo exactly as the engine
    would, and keeps a bound badge inside its grant: proved against the laws of
    [FileEngine.EngineLaws], of runs in which the binder keeps to its rules and no
    directory is removed while a handle to it is open. What the last condition is for
    is shown at the end. *)

From S2P Require Import Prelude SubtreeScope FsProtocol FileMemo FileServer FileEngine TreeEngine.
Local Open Scope Z_scope.

Module FileConfinement.
Import SubtreeScope FsProtocol FileMemo FileServer FileEngine.

Section confinement.
Context {ES : Type} `{EngineLaws ES}.
Implicit Types s : Server ES.

(** ** The server's invariant *)

(** The handles that are files, by node, and those that are directories. *)
Definition is_use (p : Z) (o : option Entry) : bool := match o with Some (File q _) => q =? p | _ => false end.
Definition uses_of (hs : list (option Entry)) (p : Z) : nat := length (List.filter (is_use p) hs).
Definition dir_of (o : option Entry) : option Z := match o with Some (Dir q _) => Some q | _ => None end.
Definition open_dirs (s : Server ES) : list Z := omap dir_of (handles s).

(** The memo is sound and agrees with the image; the image is in order; and every open
    handle of a file, with [x] more on their way, is counted and is a file's. *)
Record core_with (x : Z -> nat) (s : Server ES) : Prop := MkCore {
  core_memo : memo_inv (memo s);
  core_agrees : memo_agrees visible (names_in (image (fs s))) (memo s);
  core_tidy : tidy (open_dirs s) (fs s);
  core_count : forall p, Z.of_nat (uses_of (handles s) p + x p) <= uses (node_usages (fs s)) p /\
    ((0 < uses_of (handles s) p + x p)%nat -> is_file (image (fs s)) p) }.

Definition no_more (p : Z) : nat := 0.
Definition one_more (p q : Z) : nat := if decide (q = p) then 1 else 0.
Abbreviation core := (core_with no_more).

(** Which handle means what, for whom, did not change. *)
Definition same_grants (s s' : Server ES) : Prop :=
  handles s' = handles s /\ owners s' = owners s /\ bindings s' = bindings s.

(** The way to a directory that is open is open still. *)
Definition ways_kept (s s' : Server ES) : Prop := forall p q,
  q ∈ open_dirs s -> rtc (edge_in (image (fs s))) p q -> rtc (edge_in (image (fs s'))) p q.

(** A method that runs to its end, keeps the core, leaves handles, owners and
    bindings alone and the open directories in their places, and takes at most [k] ticks
    of the clock. *)
Definition settles {A} (k : nat) (m : M A) (s : Server ES) : Prop :=
  exists r s', m s = Done (r, s') /\ core s' /\ same_grants s s' /\ ways_kept s s' /\ clock s <= clock s' <= clock s + Z.of_nat k.

Definition quiet {A} (k : nat) (m : M A) : Prop := forall s, core s -> clock s + Z.of_nat k < 2 ^ 64 -> settles k m s.

Lemma same_open_dirs s s' : same_grants s s' -> open_dirs s' = open_dirs s.
Proof. intros (Hh & _). unfold open_dirs. by rewrite Hh. Qed.

Lemma ways_kept_refl s s' : image (fs s') = image (fs s) -> ways_kept s s'.
Proof. intros He p q _. by rewrite He. Qed.

Lemma ways_kept_trans s1 s2 s3 : same_grants s1 s2 -> ways_kept s1 s2 -> ways_kept s2 s3 -> ways_kept s1 s3.
Proof. intros Hg H1 H2 p q Hq Hr. apply H2; [by rewrite (same_open_dirs _ _ Hg)|by apply H1]. Qed.

Lemma same_grants_trans s1 s2 s3 : same_grants s1 s2 -> same_grants s2 s3 -> same_grants s1 s3.
Proof. intros (? & ? & ?) (? & ? & ?). unfold same_grants. split_and!; congruence. Qed.

(** A method that touches nothing. *)
Lemma quiet_pure {A} k (m : M A) (f : Server ES -> result Z A) :
  (forall s, m s = Done (f s, s)) -> quiet k m.
Proof. intros Hm s Hc Hk. exists (f s), s. rewrite Hm. split_and!; [done|done|done|by apply ways_kept_refl|lia|lia]. Qed.

Lemma settles_bind {A B} k k' (m : M A) (f : A -> M B) s :
  settles k m s -> (forall a s', m s = Done (Ok a, s') -> core s' -> same_grants s s' -> clock s' <= clock s + Z.of_nat k -> settles k' (f a) s') -> settles (k + k') (bindM m f) s.
Proof.
  intros ([a|e] & s1 & Hm & Hc1 & Hg1 & Hw1 & Hk1) Hf; unfold settles, bindM; rewrite Hm.
  - destruct (Hf a s1 Hm Hc1 Hg1 ltac:(lia)) as (r & s2 & -> & Hc2 & Hg2 & Hw2 & Hk2). exists r, s2.
    split_and!; [done|done|by eapply same_grants_trans|by eapply ways_kept_trans|lia|lia].
  - exists (Err e), s1. split_and!; [done|done|done|done|lia|lia].
Qed.

Lemma quiet_bind {A B} k (m : M A) (f : A -> M B) :
  quiet 0 m -> (forall a, quiet k (f a)) -> quiet k (bindM m f).
Proof. intros Hm Hf s Hc Hk. apply (settles_bind 0 k); [apply Hm; [done|lia]|]. intros a s' _ Hc' _ Hk'. apply Hf; [done|lia]. Qed.

Lemma core_clock x s c : core_with x s -> core_with x (MkServer (fs s) (handles s) c (memo s) (owners s) (bindings s)).
Proof. intros []. by constructor. Qed.

Lemma tick_spec s : core s -> clock s + 1 < 2 ^ 64 -> settles 1 tick s.
Proof.
  intros Hc Hk. unfold settles, tick. rewrite decide_True by lia. eexists _, _. split; [done|]. split; [by apply core_clock|]. split; [done|]. split; [by apply ways_kept_refl|]. simpl. lia.
Qed.

Lemma quiet_tick {B} (f : Z -> M B) : (forall now, quiet 0 (f now)) -> quiet 1 (bindM tick f).
Proof. intros Hf s Hc Hk. apply (settles_bind 1 0); [by apply tick_spec|]. intros a s' _ Hc' _ Hk'. apply Hf; [done|lia]. Qed.

Create HintDb quiet discriminated.

Lemma quiet_ret {A} k (a : A) : quiet k (ret a).
Proof. by apply (quiet_pure k _ (fun _ => Ok a)). Qed.
Lemma quiet_fail {A} k e : quiet k (fail (A := A) e).
Proof. by apply (quiet_pure k _ (fun _ => Err e)). Qed.
Lemma quiet_lift {A} k (r : result Z A) : quiet k (lift r).
Proof. by apply (quiet_pure k _ (fun _ => r)). Qed.
Lemma quiet_gets {A} k (f : Server ES -> A) : quiet k (gets f).
Proof. by apply (quiet_pure k _ (fun s => Ok (f s))). Qed.
Lemma quiet_look {A} k (q : ES -> result Z A) : quiet k (look q).
Proof. by apply (quiet_pure k _ (fun s => q (image (fs s)))). Qed.
Lemma quiet_guard k b e : quiet k (guard b e).
Proof. destruct b; [apply quiet_fail | apply quiet_ret]. Qed.
Lemma quiet_entry k h : quiet k (entry h).
Proof. by eapply quiet_pure. Qed.
#[local] Hint Resolve quiet_ret quiet_fail quiet_lift quiet_gets quiet_look quiet_guard quiet_entry : quiet.

(** Split a method into its steps. *)
Ltac quiet :=
  intros; repeat first
    [ solve [eauto 3 with quiet nocore]
    | apply quiet_tick; intros
    | apply quiet_bind; [solve [eauto 3 with quiet nocore]|intros]
    | case_match ].

Lemma quiet_dir_at k h : quiet k (dir_at h).
Proof. unfold dir_at. quiet. Qed.
Lemma quiet_file_at k h n e : quiet k (file_at h n e).
Proof. unfold file_at. quiet. Qed.
Lemma quiet_node_at k h n e : quiet k (node_at h n e).
Proof. unfold node_at. quiet. Qed.
#[local] Hint Resolve quiet_dir_at quiet_file_at quiet_node_at : quiet.

(** ** Transactions *)

Lemma uses_of_pos hs p r : Some (File p r) ∈ hs -> (0 < uses_of hs p)%nat.
Proof.
  unfold uses_of. induction hs as [|o hs IH]; [by intros ?%elem_of_nil|]. intros [<-|Hin]%elem_of_cons; cbn [List.filter]; [cbn [is_use]; rewrite Z.eqb_refl; cbn [length]; lia|]. specialize (IH Hin). destruct (is_use p o); cbn [length]; lia.
Qed.

(** What a transaction leaves keeps the core: the handles are still counted, and files. *)
Lemma core_after x s m f : core_with x s -> memo_inv m -> memo_agrees visible (names_in (image f)) m ->
  more_uses (fs s) f -> tidy (open_dirs s) f -> spared (open_dirs s) (fs s) f -> core_with x (set_fs (set_memo s m) f).
Proof.
  intros [_ _ _ Hc] Hm Ha Hu Ht [Hs _]. constructor; [done|done|done|]. intros p. destruct (Hc p) as [H1 H2]. cbn [handles fs set_fs set_memo]. specialize (Hu p). split; [lia|]. intros Hp. apply Hs; [lia|by apply H2].
Qed.

(** [change] forgets everything first, so nothing it does can leave the memo
    wrong. *)
Lemma change_spec {A} (b : T A) P Q s : core s -> tame (open_dirs s) P b Q -> P (fs s) ->
  exists r f, change b s = Done (r, set_fs (set_memo s (forget (memo s))) f) /\ core (set_fs (set_memo s (forget (memo s))) f) /\
    ways_kept s (set_fs (set_memo s (forget (memo s))) f) /\
    forall a, r = Ok a -> exists f1, Q a f1 /\ node_usages f = node_usages f1 /\ (forall d nm, find_node (image f) d nm = find_node (image f1) d nm) /\ forall q, read_tree (image f) q = read_tree (image f1) q.
Proof.
  intros Hc Hb HP. destruct (fs_tx b (fs s)) as [r f] eqn:Hf. exists r, f. destruct (fs_tx_spec _ _ _ _ _ _ _ Hb (core_tidy _ _ Hc) HP Hf) as (Hu & Ht & Hs & Hr). split; [unfold change; simpl; by rewrite Hf|].
  split; [by apply core_after; [done|apply forget_inv, Hc|apply forget_agrees|..]|]. split; [|done]. intros p q. apply Hs.
Qed.

Lemma settles_change {A} k (b : T A) P Q s : core s -> tame (open_dirs s) P b Q -> P (fs s) -> settles k (change b) s.
Proof.
  intros Hc Hb HP. destruct (change_spec b P Q s Hc Hb HP) as (r & f & Hr & Hc' & Hw & _). exists r, (set_fs (set_memo s (forget (memo s))) f). split; [done|]. split; [done|]. split; [done|]. split; [done|]. simpl. lia.
Qed.

Lemma quiet_change {A} k (b : T A) Q : (forall D, tame D (fun _ => True) b Q) -> quiet k (change b).
Proof. intros Hb s Hc Hk. by eapply settles_change. Qed.

(** Answers that are kept are kept in the memo. *)
Lemma keeps_answers es es' d nm : keeps_names es es' ->
  (forall c, names_in es d nm = Ok c -> names_in es' d nm = Ok c) /\ (names_in es d nm = Err ENOENT -> names_in es' d nm = Err ENOENT).
Proof.
  intros Hk. destruct (Hk d nm) as [H1 H2]. split; [intros c Hc; apply name_at_Some; rewrite H1; by apply name_at_Some|]. unfold names_in. destruct (find_node es d nm) as [n|e]; [done|]. intros [= ->]. by rewrite H2.
Qed.

Lemma agrees_keeps es es' m m' : memo_agrees visible (names_in es) m -> listings m' = listings m -> found m' = found m -> keeps_names es es' -> memo_agrees visible (names_in es') m'.
Proof. intros Ha H1 H2 Hk. apply (agrees_kept _ (names_in es) _ m); [done..|]. intros d nm. by apply keeps_answers. Qed.

(** A step that keeps every name, committed. *)
Lemma fs_tx_keeps {A} (b : T A) f r f' : sound (image f) -> fs_tx b f = (r, f') ->
  (forall a f1, b f = (Ok a, f1) -> sound (image f1) /\ keeps_names (image f) (image f1)) -> keeps_names (image f) (image f').
Proof.
  intros Hs. unfold fs_tx. destruct (b f) as [[a|e] f1]; [|by intros [= <- <-]]. intros Hf Hb. destruct (Hb a f1 eq_refl) as [Hs1 Hk1]. destruct (commit (image f1)) as [es|e] eqn:Hc; injection Hf as <- <-; [|done]. destruct (commit_law _ _ Hs1 Hc) as (_ & Hfind & _).
  intros d nm. cbn [image]. unfold name_at, names_in. rewrite Hfind. apply Hk1.
Qed.

Lemma settles_change_file {A} k ptr (b : T A) P Q s : core s -> tame (open_dirs s) P b Q -> P (fs s) ->
  (forall a f1, b (fs s) = (Ok a, f1) -> sound (image f1) /\ keeps_names (image (fs s)) (image f1)) -> settles k (change_file ptr b) s.
Proof.
  intros Hc Hb HP Hkeep. unfold settles, change_file. destruct (forget_file_inv (memo s) ptr (core_memo _ _ Hc)) as (m & Hfm & Hm'). rewrite Hfm. cbn [mbind run_bind]. destruct (fs_tx b _) as [r f] eqn:Hf. cbn [fs set_memo] in Hf.
  destruct (fs_tx_spec _ _ _ _ _ _ _ Hb (core_tidy _ _ Hc) HP Hf) as (Hu & Ht & Hs & _). destruct (forget_file_names _ _ _ Hfm) as [N1 N2]. eexists r, _. split; [done|]. split.
  - apply core_after; try done. eapply agrees_keeps; [apply Hc|done|done|]. eapply fs_tx_keeps; [apply Hc|done|done].
  - split; [done|]. split; [intros p q; apply Hs|]. simpl. lia.
Qed.

(** ** Listings are what the engine finds *)

Lemma insert_child_perm c (l : list Child) : insert_child c l ≡ₚ c :: l.
Proof.
  induction l as [|d l IH]; [done|]. simpl. destruct (cmp _ _); [done|done|].
  rewrite IH. apply Permutation_swap.
Qed.

Lemma sort_children_perm (l : list Child) : sort_children l ≡ₚ l.
Proof. induction l as [|c l IH]; [done|]. simpl. by rewrite insert_child_perm, IH. Qed.

Lemma insert_child_sorted c (l : list Child) :
  StronglySorted by_name l -> c_name c ∉ (c_name <$> l) -> StronglySorted by_name (insert_child c l).
Proof.
  induction 1 as [|d l Hs IH Hd]; intros Hn; simpl; [by repeat constructor|].
  rewrite fmap_cons, not_elem_of_cons in Hn. destruct Hn as [Hne Hn].
  destruct (cmp (c_name c) (c_name d)) eqn:Hc.
  - by apply cmp_eq in Hc.
  - constructor; [by constructor|]. constructor; [done|].
    eapply Forall_impl; [exact Hd|]. intros e He. by eapply cmp_lt_trans.
  - constructor; [by apply IH|]. rewrite insert_child_perm. constructor; [|done].
    unfold by_name. by rewrite cmp_opp, Hc.
Qed.

Lemma sort_children_sorted (l : list Child) : NoDup (c_name <$> l) -> StronglySorted by_name (sort_children l).
Proof.
  induction l as [|c l IH]; [constructor|]. rewrite fmap_cons, NoDup_cons. intros [Hn Hd]. simpl.
  apply insert_child_sorted; [by apply IH|]. by rewrite sort_children_perm.
Qed.

Lemma list_entries_names es cs l :
  list_entries es cs = Ok l -> c_name <$> l = filter (fun nm => nm <> STORE_DIR) (omap fst cs).
Proof.
  revert l. induction cs as [|[[nm|] p] cs IH]; intros l; simpl; [by intros; simplify_eq| |by apply IH].
  case_bool_decide as Hst.
  - intros. rewrite filter_cons_False by (intros Hx; by apply Hx). by apply IH.
  - destruct (read_tree es p) as [n|]; [|done]. destruct (list_entries es cs) as [l0|]; [|done].
    intros; simplify_eq/=. rewrite filter_cons_True by done. by rewrite (IH l0).
Qed.

Lemma list_entries_in es cs l c :
  list_entries es cs = Ok l -> c ∈ l ->
  (Some (c_name c), c_ptr c) ∈ cs /\ exists n, read_tree es (c_ptr c) = Ok n /\ c_kind c = kind_of n.
Proof.
  revert l. induction cs as [|[[nm|] p] cs IH]; intros l; simpl.
  - intros; simplify_eq. by apply elem_of_nil in H2.
  - case_bool_decide.
    + intros Hl Hc. destruct (IH l Hl Hc) as [? ?]. split; [by right|done].
    + destruct (read_tree es p) as [n|] eqn:Hr; [|done]. destruct (list_entries es cs) as [l0|]; [|done].
      intros Heq Hc; simplify_eq. apply elem_of_cons in Hc as [->|Hc].
      * simpl. split; [left|by exists n].
      * destruct (IH l0 eq_refl Hc) as [? ?]. split; [by right|done].
  - intros Hl Hc. destruct (IH l Hl Hc) as [? ?]. split; [by right|done].
Qed.

Lemma list_dir_agrees es d l :
  sound es -> list_dir d es = Ok l ->
  StronglySorted by_name l /\
  forall nm, visible nm -> names_in es d nm = match child_named l nm with Some c => Ok c | None => Err ENOENT end.
Proof.
  intros Hsound. unfold list_dir. destruct (child_nodes es d) as [cs|] eqn:Hcs; [|done].
  destruct (list_entries es cs) as [l0|] eqn:Hl; [|done]. intros; simplify_eq.
  pose proof (list_entries_names _ _ _ Hl) as Hnames.
  assert (Hs : StronglySorted by_name (sort_children l0)).
  { apply sort_children_sorted. rewrite Hnames. by apply NoDup_filter, (children_distinct es d). }
  split; [done|]. intros nm Hv. destruct (child_named (sort_children l0) nm) as [[p k]|] eqn:Hc.
  - unfold child_named in Hc. destruct (list_find _ _) as [[i c]|] eqn:Hf; [|done]. simplify_eq.
    apply list_find_Some in Hf as (Hi & <- & _). apply list_elem_of_lookup_2 in Hi.
    rewrite sort_children_perm in Hi. destruct (list_entries_in _ _ _ _ Hl Hi) as (Hin & n & Hr & ->).
    by eapply children_are_found.
  - unfold names_in. erewrite others_are_not; [done|exact Hsound|exact Hcs|]. intros p Hin.
    assert (Hnm : nm ∈ c_name <$> l0).
    { rewrite Hnames. apply list_elem_of_filter. split; [done|].
      apply list_elem_of_omap. exists (Some nm, p). done. }
    apply list_elem_of_fmap in Hnm as (c & -> & Hin'). rewrite <- sort_children_perm in Hin'.
    unfold child_named in Hc. destruct (list_find _ _) as [[i e]|] eqn:Hf; [done|].
    apply list_find_None in Hf. rewrite Forall_forall in Hf. by apply (Hf c Hin').
Qed.

(** ** Memo updates and lookups *)

Lemma core_set_memo x s m : core_with x s -> memo_inv m -> memo_agrees visible (names_in (image (fs s))) m -> core_with x (set_memo s m).
Proof. intros [] Hm Ha. by constructor. Qed.

Lemma settles_memo {A} k (m : M A) s r mm : core s -> m s = Done (r, set_memo s mm) -> memo_inv mm -> memo_agrees visible (names_in (image (fs s))) mm -> settles k m s.
Proof.
  intros Hc Hr Hm Ha. exists r, (set_memo s mm). split; [done|]. split; [by apply core_set_memo|]. split; [done|]. split; [by apply ways_kept_refl|]. simpl. lia.
Qed.

Lemma quiet_keep_file k p b : quiet k (update_memo (fun m => keep_file m p b)).
Proof.
  intros s Hc Hk. destruct (keep_file_inv (memo s) p b (core_memo _ _ Hc)) as (m & Hkf & Hm').
  destruct (keep_file_names _ _ _ _ Hkf). eapply (settles_memo k _ s (Ok tt) m); [done|unfold update_memo; by rewrite Hkf|done|]. by eapply agrees_same_names; [apply Hc|..].
Qed.

Lemma quiet_mark_large k p : quiet k (update_memo (fun m => Done (mark_large m p))).
Proof. intros s Hc Hk. eapply (settles_memo k _ s (Ok tt)); [done|done|by apply mark_large_inv, Hc|]. by eapply agrees_same_names; [apply Hc|..]. Qed.
#[local] Hint Resolve quiet_keep_file quiet_mark_large : quiet.

Lemma quiet_fill_memo k p : quiet k (fill_memo p).
Proof. unfold fill_memo. quiet. Qed.
#[local] Hint Resolve quiet_fill_memo : quiet.

Lemma quiet_read_dir k h c out : quiet k (read_dir h c out).
Proof.
  unfold read_dir. apply quiet_bind; [quiet|intros [d rights]]. apply quiet_bind; [quiet|intros _].
  intros s Hc Hk. unfold settles, bindM, gets. simpl. destruct (listing (memo s) d) as [l|]; [by apply (quiet_ret k)|].
  unfold look, update_memo. destruct (list_dir d (image (fs s))) as [l|e] eqn:Hl.
  - destruct (keep_listing_inv (memo s) d l (core_memo _ _ Hc)) as (m & Hkl & Hm'). rewrite Hkl. cbn [mbind run_bind].
    destruct (list_dir_agrees _ _ _ (td_sound _ _ (core_tidy _ _ Hc)) Hl) as [Hs Hall].
    refine (settles_memo k (fun s0 => Done (Ok (encode_listing l c out), set_memo s0 m)) s _ m Hc eq_refl Hm' _). by eapply keep_listing_agrees; [apply Hc|..].
  - by apply (quiet_fail k e s).
Qed.

(** The memo answers as the engine would. *)
Lemma lookup_spec x d nm s :
  core_with x s -> visible nm ->
  exists m, lookup d nm s = (set_memo s m, names_in (image (fs s)) d nm) /\ core_with x (set_memo s m).
Proof.
  intros Hc Hv. unfold lookup. destruct (memo_lookup (memo s) d nm) as [r|] eqn:Hl.
  - rewrite (memo_lookup_agrees _ _ _ _ _ _ (core_agrees _ _ Hc) Hv Hl). exists (memo s).
    destruct s; destruct r; by split.
  - unfold names_in. destruct (find_node (image (fs s)) d nm) as [n|e] eqn:Hf.
    + eexists. split; [done|]. apply core_set_memo; [done|apply keep_found_inv, Hc|].
      apply keep_found_agrees; [apply Hc|]. unfold names_in. by rewrite Hf.
    + exists (memo s). by destruct s.
Qed.

Lemma quiet_lookupM k d nm : visible nm -> quiet k (lookupM d nm).
Proof.
  intros Hv s Hc Hk. destruct (lookup_spec _ d nm s Hc Hv) as (m & Hl & Hc'). apply (settles_memo k _ s (names_in (image (fs s)) d nm) m); [done|unfold lookupM; by rewrite Hl|apply Hc'..].
Qed.

(** ** Walking a path *)

Lemma check_component_facts nm : check_component nm = Ok tt -> is_name nm = true /\ visible nm.
Proof.
  unfold check_component, visible. destruct (is_name nm); [|done]. simpl.
  case_bool_decide; [done|]. by intros _.
Qed.

Lemma check_components_all steps :
  check_components steps = Ok tt -> Forall (fun nm => check_component nm = Ok tt) steps.
Proof.
  induction steps as [|st steps IH]; [constructor|]. simpl.
  destruct (check_component st) as [[]|] eqn:Hc; [|done]. intros. constructor; auto.
Qed.

Lemma walk_lookup_spec d nm s :
  core s -> visible nm ->
  exists m r, walk_lookup d nm s = (set_memo s m, r) /\ core (set_memo s m) /\
    (forall c, r = Ok c -> names_in (image (fs s)) d nm = Ok c).
Proof.
  intros Hc Hv. unfold walk_lookup. destruct (utf8_valid nm).
  - destruct (lookup_spec _ d nm s Hc Hv) as (m & -> & Hc'). by exists m, (names_in (image (fs s)) d nm).
  - exists (memo s), (Err EINVAL). destruct s. split_and!; [done|exact Hc|done].
Qed.

Lemma set_memo_twice s m m' : set_memo (set_memo s m) m' = set_memo s m'.
Proof. done. Qed.

Lemma walk_steps_spec hop steps d r s :
  core s -> Forall (fun nm => is_name nm = true /\ visible nm) steps ->
  exists m res, walk_steps refused walk_lookup hop steps d r s = (set_memo s m, res) /\ core (set_memo s m) /\
    (forall d' r', res = Ok (d', r') -> rtc (edge_in (image (fs s))) d d').
Proof.
  revert d r s. induction steps as [|st steps IH]; intros d r s Hc Hv.
  - exists (memo s), (Ok (d, r)). destruct s. split_and!; [done|exact Hc|].
    intros; simplify_eq. constructor.
  - apply Forall_cons in Hv as [[Hn Hvis] Hv]. simpl. destruct (allows r DESCEND); simpl.
    2: { exists (memo s), (Err (refused NotFound)). destruct s. split_and!; [done|exact Hc|done]. }
    destruct (walk_lookup_spec d st s Hc Hvis) as (m1 & r1 & Hl & Hc1 & Hr1). rewrite Hl.
    destruct r1 as [[child kind]|e]; [|by eexists _, _].
    destruct (landing kind true) as [[]|] eqn:Hland; [|by eexists _, _].
    apply landing_directory in Hland as ->. case_bool_decide; [by eexists _, _|].
    destruct (IH child (attenuate r (Z.lor DESCEND hop)) (set_memo s m1) Hc1 Hv) as (m2 & res & Hw & Hc2 & Hr2).
    rewrite set_memo_twice in *. exists m2, res. split_and!; [done|exact Hc2|].
    intros d' r' ->. eapply rtc_l; [|by eapply Hr2]. exists st. split; [done|]. split; [done|]. by apply name_at_Some, Hr1.
Qed.

Lemma walk_spec d r path hop s :
  core s -> Forall (fun nm => is_name nm = true /\ visible nm) (split SLASH path) ->
  exists m res, walk refused walk_lookup d r path hop s = (set_memo s m, res) /\ core (set_memo s m) /\
    (forall d' r' last, res = Ok (d', r', last) ->
       rtc (edge_in (image (fs s))) d d' /\ Z.land (bits r') (bits r) = bits r' /\
       last ∈ split SLASH path /\ drop (length path - length last) path = last).
Proof.
  intros Hc Hv. destruct (walk refused walk_lookup d r path hop s) as [s' res] eqn:Hw.
  assert (Hright : forall d' r' last, res = Ok (d', r', last) ->
            Z.land (bits r') (bits r) = bits r' /\ last ∈ split SLASH path).
  { intros d' r' last ->. apply walk_iff in Hw as (_ & names & Heq & Hd).
    split; [by apply (descends_rights _ _ _ _ _ _ _ _ _ Hd)|]. rewrite Heq. set_solver. }
  pose proof (split_last path) as Hsplit. unfold walk in Hw. destruct (check_path path) as [[]|rf].
  2: { injection Hw as <- <-. exists (memo s), (Err (refused rf)). destruct s. split_and!; [done|exact Hc|done]. }
  destruct (rposition (Z.eqb SLASH) path) as [i|] eqn:Hi.
  - rewrite Hsplit, Forall_app in Hv.
    destruct (walk_steps_spec hop (split SLASH (take i path)) d r s Hc (proj1 Hv)) as (m & res1 & Hws & Hc' & Hr).
    rewrite Hws in Hw. exists m, res. destruct res1 as [[d1 r1]|e]; injection Hw as <- <-.
    + split; [done|]. split; [done|]. intros d' r' last Heq; simplify_eq.
      destruct (Hright _ _ _ eq_refl) as [? ?]. split_and!; [by eapply Hr|done|done|].
      f_equal. rewrite length_drop. apply rposition_Some in Hi as [Hp _].
      apply (f_equal length) in Hp. rewrite length_app in Hp. simpl in Hp. rewrite length_take, length_drop in Hp. lia.
    + split; [done|]. split; [done|]. done.
  - injection Hw as <- <-. exists (memo s), (Ok (d, r, path)). split; [by destruct s|]. split; [by destruct s, Hc|].
    intros d' r' last Heq. destruct (Hright _ _ _ Heq) as [? ?]. simplify_eq.
    split_and!; [constructor|done|done|]. by rewrite Nat.sub_diag, drop_0.
Qed.

(** The directory a handle names. *)
Lemma dir_at_spec h s :
  (exists p r, handles s !! Z.to_nat h = Some (Some (Dir p r)) /\ dir_at h s = Done (Ok (p, r), s)) \/
  (exists e, dir_at h s = Done (Err e, s)).
Proof.
  unfold dir_at, bindM, entry. destruct (handles s !! Z.to_nat h) as [[[p r|p r]|]|]; simpl; eauto 10.
Qed.

Lemma walk_prefix_spec h path hop s :
  core s ->
  exists m res, walk_prefix h path hop s = Done (res, set_memo s m) /\ core (set_memo s m) /\
    (forall p r last, res = Ok (p, r, last) ->
       exists d0 r0, handles s !! Z.to_nat h = Some (Some (Dir d0 r0)) /\
         rtc (edge_in (image (fs s))) d0 p /\ Z.land (bits r) (bits r0) = bits r /\
         check_component last = Ok tt).
Proof.
  intros Hc. assert (Hfail : forall e, exists m (res : result Z (Z * Rights * list Z)),
    Done (Err e, s) = Done (res, set_memo s m) /\ core (set_memo s m) /\
    (forall p r last, res = Ok (p, r, last) ->
       exists d0 r0, handles s !! Z.to_nat h = Some (Some (Dir d0 r0)) /\
         rtc (edge_in (image (fs s))) d0 p /\ Z.land (bits r) (bits r0) = bits r /\
         check_component last = Ok tt)).
  { intros e. exists (memo s), (Err e). destruct s. split_and!; [done|exact Hc|done]. }
  unfold walk_prefix, bindM. destruct (dir_at_spec h s) as [(d0 & r0 & Hh & ->)|(e & ->)]; [|apply Hfail].
  unfold lift. destruct (check_components (split SLASH path)) as [[]|e] eqn:Hcc; [|apply Hfail].
  apply check_components_all in Hcc.
  destruct (walk_spec d0 r0 path hop s Hc) as (m & res & Hw & Hc' & Hr).
  { eapply Forall_impl; [exact Hcc|]. intros. by apply check_component_facts. }
  cbn [fst snd]. rewrite Hw. destruct res as [[[p r] last]|e].
  - eexists m, _. split; [done|]. split; [done|]. intros p' r' last' Heq.
    destruct (Hr _ _ _ eq_refl) as (Hrt & Hb & Hin & Hdrop). rewrite Hdrop in Heq. simplify_eq.
    exists d0, r0. split_and!; [done|done|done|]. rewrite Forall_forall in Hcc. by apply Hcc.
  - eexists m, _. split; [done|]. by split.
Qed.

(** ** What a grant reaches

    [es] is the image and [hist] holds the images of the run so far, the newest first. A
    directory is inside a grant when names lead down to it from the granted directory in
    the image as it is. A file is inside when, in one image of the run, names led down from
    the granted directory to a directory where it was, and it has been a file in every
    image since: it may have been moved or unlinked, but it was not freed for another to
    take its number. No right is there that the grant does not carry. *)

Definition sub (r rr : Rights) : Prop := Z.land (bits r) (bits rr) = bits r.

Definition inside (hist : list ES) (es : ES) (p : Z) (rr : Rights) (e : Entry) : Prop :=
  match e with
  | Dir q r => rtc (edge_in es) p q /\ sub r rr
  | File q r =>
      (exists newer es0 older d nm, hist = newer ++ es0 :: older /\ Forall (fun es' => is_file es' q) newer /\
         rtc (edge_in es0) p d /\ is_name nm = true /\ visible nm /\
         name_at es0 d nm = Some (q, Kind.File)) /\ sub r rr
  end.

Lemma sub_refl r : sub r r.
Proof. apply Z.land_diag. Qed.

Lemma sub_trans r1 r2 r3 : sub r1 r2 -> sub r2 r3 -> sub r1 r3.
Proof. unfold sub. intros H12 H23. rewrite <- H12, <- Z.land_assoc, H23. done. Qed.

Lemma sub_attenuate r m : sub (attenuate r m) r.
Proof.
  unfold sub, attenuate. cbn [bits].
  by rewrite <- Z.land_assoc, (Z.land_comm m), Z.land_assoc, Z.land_diag.
Qed.

Lemma inside_grow hist es' es p rr e : (forall q r, e = File q r -> is_file es' q) -> inside hist es p rr e -> inside (es' :: hist) es p rr e.
Proof.
  destruct e as [q r|q r]; simpl; [done|]. intros Hq [(newer & es0 & older & d & nm & -> & Hn & ?) ?]. split; [|done].
  exists (es' :: newer), es0, older, d, nm. split; [done|]. split; [|done]. constructor; [by eapply Hq|done].
Qed.

(** What is inside a directory that is inside a grant is inside the grant. *)
Lemma inside_trans hist es p rr d0 r0 e :
  inside hist es p rr (Dir d0 r0) -> inside [es] es d0 r0 e -> inside (es :: hist) es p rr e.
Proof.
  intros [Hpd Hr] He. destruct e as [q r|q r]; simpl in *.
  - destruct He. split; [by etransitivity|by eapply sub_trans].
  - destruct He as [(newer & es0 & older & d & nm & Heq & _ & ? & ?) ?]. split; [|by eapply sub_trans].
    destruct newer as [|x newer]; [|injection Heq as _ Heq; by destruct newer]. injection Heq as <- _.
    exists [], es, hist, d, nm. split; [done|]. split; [constructor|]. split; [by etransitivity|done].
Qed.

Definition slot_entry (s : Server ES) (h : nat) : option Entry := mjoin (handles s !! h).

(** Every grant's root is an open directory handle of the binder's own, no two
    grants share one (the image's own root apart), and every open handle a
    badge minted is inside its grant. *)
Record ginv (hist : list ES) (s : Server ES) : Prop := MkGinv {
  g_len : length (owners s) = length (handles s);
  g_tab : (0 < length (state (bindings s)))%nat;
  g_zero : is_Some (slot_entry s 0) /\ owners s !! 0%nat = Some 0;
  g_grant : forall b r, 0 <= b -> slot_of (bindings s) b = Bound r ->
    0 <= r < 2 ^ 16 /\ owners s !! Z.to_nat r = Some 0 /\
    exists p rr, slot_entry s (Z.to_nat r) = Some (Dir p rr);
  g_alone : forall b b' r, 0 <= b -> 0 <= b' -> slot_of (bindings s) b = Bound r ->
    slot_of (bindings s) b' = Bound r -> r <> ROOT -> b = b';
  g_owned : forall h b e, owners s !! h = Some b -> b <> 0 -> slot_entry s h = Some e ->
    0 <= b /\ exists r p rr, slot_of (bindings s) b = Bound r /\
      slot_entry s (Z.to_nat r) = Some (Dir p rr) /\ inside hist (image (fs s)) p rr e }.

Lemma open_dirs_spec s q : q ∈ open_dirs s <-> exists h r, slot_entry s h = Some (Dir q r).
Proof.
  unfold open_dirs, slot_entry. rewrite list_elem_of_omap. split.
  - intros ([[p r|p r]|] & Hin & Hd); [|done|done]. injection Hd as ->. apply list_elem_of_lookup in Hin as [h Hh]. exists h, r. by rewrite Hh.
  - intros (h & r & Hh). destruct (handles s !! h) as [o|] eqn:Ho; [|done]. exists o. split; [by eapply list_elem_of_lookup_2|]. cbn in Hh. by subst o.
Qed.

(** What is inside stays so while the ways to what is open stay. *)
Lemma inside_kept hist s s' h p rr e : ways_kept s s' -> slot_entry s h = Some e -> inside hist (image (fs s)) p rr e -> inside hist (image (fs s')) p rr e.
Proof. intros Hw He. destruct e as [q r|q r]; simpl; [|done]. intros [Hr ?]. split; [|done]. apply Hw; [|done]. apply open_dirs_spec. eauto. Qed.

Lemma ginv_same hist s s' : same_grants s s' -> ways_kept s s' -> ginv hist s -> ginv hist s'.
Proof.
  intros (Hh & Ho & Hb) Hw []. constructor; unfold slot_entry in *; rewrite ?Hh, ?Ho, ?Hb; try done.
  intros h b e H1 H2 H3. destruct (g_owned0 h b e H1 H2 H3) as (? & r & p & rr & ? & ? & ?).
  split; [done|]. exists r, p, rr. split_and!; [done|done|]. by eapply inside_kept.
Qed.

Lemma slot_file s h q r : core s -> slot_entry s h = Some (File q r) -> is_file (image (fs s)) q.
Proof.
  intros Hc Hh. apply (core_count _ _ Hc q). unfold slot_entry in Hh. destruct (handles s !! h) as [o|] eqn:Ho; [|done]. cbn in Hh. subst o.
  apply list_elem_of_lookup_2, uses_of_pos in Ho. lia.
Qed.

Lemma ginv_grow hist s : core s -> ginv hist s -> ginv (image (fs s) :: hist) s.
Proof.
  intros Hc []. constructor; try done. intros h b e H1 H2 H3. destruct (g_owned0 h b e H1 H2 H3) as (? & r & p & rr & ? & ? & ?).
  split; [done|]. exists r, p, rr. split; [done|]. split; [done|]. apply inside_grow; [|done]. intros q r' ->. by eapply slot_file.
Qed.

(** Closing a handle that is no grant's root. *)
Lemma ginv_clear hist s s' h :
  ginv hist s -> h <> 0%nat ->
  (forall b r, 0 <= b -> slot_of (bindings s) b = Bound r -> Z.to_nat r <> h) ->
  handles s' = <[h := None]> (handles s) -> owners s' = owners s -> bindings s' = bindings s -> ways_kept s s' ->
  ginv hist s'.
Proof.
  intros [] Hh0 Hroots Hh Ho Hb Hw.
  assert (Hsame : forall j, j <> h -> slot_entry s' j = slot_entry s j).
  { intros j Hj. unfold slot_entry. by rewrite Hh, list_lookup_insert_ne. }
  assert (Hgone : slot_entry s' h = None).
  { unfold slot_entry. rewrite Hh. destruct (decide (h < length (handles s))%nat).
    - by rewrite list_lookup_insert_eq.
    - rewrite list_insert_ge by lia. by rewrite lookup_ge_None_2 by lia. }
  constructor; rewrite ?Ho, ?Hb; [by rewrite Hh, length_insert|done| | |done|].
  - by rewrite Hsame.
  - intros b r H1 H2. destruct (g_grant0 b r H1 H2) as (? & ? & p & rr & ?).
    split_and!; [lia|lia|done|]. exists p, rr. rewrite Hsame; [done|by eapply Hroots].
  - intros j b e H1 H2 H3. destruct (decide (j = h)) as [->|Hj]; [congruence|]. rewrite Hsame in H3 by done.
    destruct (g_owned0 j b e H1 H2 H3) as (? & r & p & rr & Hs & ? & ?). split; [done|].
    exists r, p, rr. split_and!; [done| |by eapply inside_kept]. rewrite Hsame; [done|]. by eapply Hroots.
Qed.

(** ** Handing out a handle *)

Definition installed (s s' : Server ES) (i : nat) (e : Entry) : Prop :=
  slot_entry s i = None /\ slot_entry s' i = Some e /\ owners s' !! i = Some 0 /\
  (forall j, j <> i -> slot_entry s' j = slot_entry s j /\ owners s' !! j = owners s !! j) /\
  length (owners s') = length (handles s') /\
  (length (handles s) <= length (handles s') <= length (handles s) + 1)%nat /\ (i <= length (handles s))%nat /\
  bindings s' = bindings s.

Lemma uses_of_insert hs i o x p : hs !! i = Some o ->
  (uses_of (<[i := x]> hs) p + (if is_use p o then 1 else 0) = uses_of hs p + (if is_use p x then 1 else 0))%nat.
Proof.
  unfold uses_of. revert i. induction hs as [|y hs IH]; intros [|i] Hi; [done|done| |].
  - injection Hi as ->. change (<[0%nat := x]> (o :: hs)) with (x :: hs). cbn [List.filter]. destruct (is_use p x), (is_use p o); cbn [length]; lia.
  - specialize (IH i Hi). change (<[S i := x]> (y :: hs)) with (y :: <[i := x]> hs). cbn [List.filter]. destruct (is_use p y); cbn [length]; lia.
Qed.

Lemma uses_of_snoc hs x p : uses_of (hs ++ [x]) p = (uses_of hs p + (if is_use p x then 1 else 0))%nat.
Proof. unfold uses_of. rewrite List.filter_app, length_app. cbn [List.filter]. by destruct (is_use p x). Qed.

Lemma install_spec s e :
  length (owners s) = length (handles s) ->
  exists i s', install e s = Done (Ok (wrap 32 (Z.of_nat i)), s') /\ installed s s' i e /\
    fs s' = fs s /\ memo s' = memo s /\ clock s' = clock s /\
    forall p, uses_of (handles s') p = (uses_of (handles s) p + (if is_use p (Some e) then 1 else 0))%nat.
Proof.
  intros Hlen. unfold install. destruct (position (fun o => is_none o) (handles s)) as [i|] eqn:Hp.
  - apply position_Some in Hp as (x & Hx & Hnone & _). pose proof (lookup_lt_Some _ _ _ Hx).
    destruct (lookup_lt_is_Some_2 (owners s) i) as [o ->]; [lia|]. destruct x; [done|].
    eexists i, _. split; [done|]. split; [|split; [done|split; [done|split; [done|]]]].
    + unfold installed, slot_entry; simpl.
      rewrite Hx, !list_lookup_insert_eq, !length_insert by lia. split_and!; try done; try lia.
      intros j Hj. by rewrite !list_lookup_insert_ne by done.
    + intros p. pose proof (uses_of_insert _ _ _ (Some e) p Hx) as Hu. cbn [is_use] in *. cbn [handles set_handles]. lia.
  - eexists (length (handles s)), _. split; [done|]. split; [|split; [done|split; [done|split; [done|]]]]; [|intros p; apply uses_of_snoc]. unfold installed, slot_entry; simpl.
    rewrite !length_app, lookup_ge_None_2 by lia. simpl.
    rewrite list_lookup_middle by done. rewrite <- Hlen at 2. rewrite list_lookup_middle by done.
    split_and!; try done; try lia. intros j Hj.
    destruct (decide (j < length (handles s))%nat); [by rewrite !lookup_app_l by lia|].
    rewrite !lookup_ge_None_2; [done|rewrite ?length_app; simpl; lia..].
Qed.

Lemma ginv_installed hist s s' i e : ginv hist s -> installed s s' i e -> ways_kept s s' -> ginv hist s'.
Proof.
  intros [] (Hfree & Hnew & Ho & Hsame & Hlen & _ & _ & Hb) Hw.
  assert (Hne : forall j x, slot_entry s j = Some x -> j <> i) by congruence.
  constructor; rewrite ?Hb; try done.
  - destruct g_zero0 as [[x Hx] ?]. destruct (Hsame 0%nat) as [-> ->]; [by eapply Hne|]. eauto.
  - intros b r H1 H2. destruct (g_grant0 b r H1 H2) as (? & ? & p & rr & Hr).
    destruct (Hsame (Z.to_nat r)) as [-> ->]; [by eapply Hne|]. eauto.
  - intros j b x H1 H2 H3. destruct (decide (j = i)) as [->|Hj]; [congruence|].
    destruct (Hsame j Hj) as [Hs1 Hs2]. rewrite Hs1 in H3. rewrite Hs2 in H1.
    destruct (g_owned0 j b x H1 H2 H3) as (? & r & p & rr & ? & Hr & ?). split; [done|].
    exists r, p, rr. destruct (Hsame (Z.to_nat r)) as [-> _]; [by eapply Hne|]. split; [done|]. split; [done|]. by eapply inside_kept.
Qed.

Lemma installed_same s0 s s' i e : same_grants s0 s -> installed s s' i e -> installed s0 s' i e.
Proof.
  intros (Hh & Ho & Hb). unfold installed, slot_entry. by rewrite Hh, Ho, Hb.
Qed.

(** What a verb that opens or creates answers: an error with nothing changed
    for anyone, or a fresh handle to something inside the directory whose
    handle it was given. *)
Definition minted_one (h : Z) (s : Server ES) (r : result Z Z) (s' : Server ES) : Prop :=
  core s' /\ ways_kept s s' /\ clock s <= clock s' <= clock s + 1 /\
    ((exists e, r = Err e) /\ same_grants s s' \/
     exists i e d0 r0, r = Ok (wrap 32 (Z.of_nat i)) /\ installed s s' i e /\
       slot_entry s (Z.to_nat h) = Some (Dir d0 r0) /\
       inside [image (fs s')] (image (fs s')) d0 r0 e).

Definition minting (m : M Z) (h : Z) : Prop := forall s,
  core s -> length (owners s) = length (handles s) -> clock s + 1 < 2 ^ 64 ->
  exists r s', m s = Done (r, s') /\ minted_one h s r s'.

(** A handle on its way: a file's is counted already, a directory has its place. *)
Definition coming (e : Entry) (s : Server ES) : Prop :=
  match e with File q _ => core_with (one_more q) s | Dir q _ => core s /\ placed (image (fs s)) q end.

Lemma core_installed e s s' i : coming e s -> installed s s' i e -> fs s' = fs s -> memo s' = memo s ->
  (forall p, uses_of (handles s') p = (uses_of (handles s) p + (if is_use p (Some e) then 1 else 0))%nat) -> core s'.
Proof.
  intros Hc (Hfree & Hnew & _ & Hsame & _) Hf Hm Hu.
  assert (Hcore : exists x, core_with x s /\ (forall p, x p = (if is_use p (Some e) then 1 else 0)%nat) /\ forall q r, e = Dir q r -> placed (image (fs s)) q).
  { destruct e as [q r|q r]; [exists no_more; split; [apply Hc|]; split; [done|]; intros q0 r0 [= <- <-]; apply Hc|]. exists (one_more q). split; [done|]. split; [|done]. intros p. unfold one_more. cbn [is_use]. destruct (Z.eqb_spec q p), (decide (p = q)); congruence. }
  destruct Hcore as (x & [C1 C2 C3 C4] & Hx & Hd). constructor; rewrite ?Hf, ?Hm; [done|done| |].
  - destruct C3 as [T1 T2 T3]. constructor; [done|done|]. intros q (h & r & Hh)%open_dirs_spec. destruct (decide (h = i)) as [->|Hne]; [eapply (Hd q r); congruence|]. apply T3, open_dirs_spec. exists h, r. rewrite <- Hh. symmetry. by apply Hsame.
  - intros p. destruct (C4 p) as [D1 D2]. rewrite Hu. rewrite Hx in D1, D2. unfold no_more. rewrite Nat.add_0_r. done.
Qed.

Lemma install_after s s1 e h d0 r0 :
  coming e s1 -> same_grants s s1 -> ways_kept s s1 -> clock s <= clock s1 <= clock s + 1 -> length (owners s) = length (handles s) ->
  slot_entry s (Z.to_nat h) = Some (Dir d0 r0) -> inside [image (fs s1)] (image (fs s1)) d0 r0 e ->
  exists r s', install e s1 = Done (r, s') /\ minted_one h s r s'.
Proof.
  intros Hc Hg Hw Hk Hlen Hh Hin. pose proof Hg as (Hg1 & Hg2 & Hg3).
  destruct (install_spec s1 e) as (i & s' & Hi & Hinst & Hf & Hmemo & Hcl & Hu); [congruence|].
  exists (Ok (wrap 32 (Z.of_nat i))), s'. split; [done|]. split; [by eapply core_installed|]. split; [intros p q Hq Hr; rewrite Hf; by apply Hw|].
  split; [lia|]. right. exists i, e, d0, r0. rewrite Hf. split_and!; try done.
  by eapply installed_same; [|exact Hinst].
Qed.

Lemma minted_err h s s1 e : core s1 -> same_grants s s1 -> ways_kept s s1 -> clock s <= clock s1 <= clock s + 1 -> minted_one h s (Err e) s1.
Proof. intros Hc Hg Hw Hk. split; [done|]. split; [done|]. split; [done|]. left. split; [by eexists|done]. Qed.

Lemma slot_entry_dir s h p r : handles s !! h = Some (Some (Dir p r)) -> slot_entry s h = Some (Dir p r).
Proof. intros Hh. unfold slot_entry. by rewrite Hh. Qed.

(** An error ends a minting verb wherever it arises. *)
Ltac mint_err := try unfold fail; cbn beta iota; match goal with
  | |- exists r s', Done (Err ?e, ?s2) = _ /\ _ => exists (Err e), s2; split; [done|]; apply minted_err; [done|done|by apply ways_kept_refl|simpl; lia]
  end.

Lemma mint_open_dir h nm requested : minting (open_dir h nm requested) h.
Proof.
  intros s Hc Hlen Hk. unfold open_dir, bindM.
  destruct (walk_prefix_spec h nm requested s Hc) as (m & res & -> & Hc1 & Hr).
  destruct res as [[[p r] last]|e]; [|mint_err].
  destruct (Hr _ _ _ eq_refl) as (d0 & r0 & Hh & Hrtc & Hsub & Hcc). apply slot_entry_dir in Hh.
  unfold child_dir, guard, bindM. destruct (allows r DESCEND); cbn [negb ret fail]; [|mint_err].
  apply check_component_facts in Hcc as [Hname Hvis].
  destruct (lookup_spec _ p last (set_memo s m) Hc1 Hvis) as (m2 & Hl & Hc2). unfold lookupM. rewrite Hl.
  rewrite set_memo_twice in *. cbn [image fs set_memo] in *.
  destruct (names_in (image (fs s)) p last) as [[c k]|e] eqn:Hn; [|mint_err].
  unfold land_on, lift. cbn [fst snd].
  destruct (landing k true) as [[]|rf] eqn:Hland; [|mint_err]. apply landing_directory in Hland as ->.
  unfold ret. cbn [fst snd]. case_bool_decide; [mint_err|]. apply name_at_Some in Hn.
  eapply install_after; [|done|by apply ways_kept_refl|simpl; lia|done|done|].
  - split; [done|]. right. by exists p, last.
  - split; [eapply rtc_r; [exact Hrtc|by exists last]|]. eapply sub_trans; [apply sub_attenuate|done].
Qed.

(** A file is counted before its handle is given out. *)
Lemma use_node_spec p s : core s -> is_file (image (fs s)) p ->
  exists r f, use_node p s = Done (r, set_fs s f) /\ image f = image (fs s) /\ core (set_fs s f) /\ (r = Ok tt -> core_with (one_more p) (set_fs s f)).
Proof.
  intros [C1 C2 [T1 T2 T3] C4] Hp. unfold use_node. set (n := default 0 (node_usages (fs s) !! p)).
  assert (Hins : forall n', n <= n' -> core (set_fs s (MkFS (image (fs s)) (<[p := n']> (node_usages (fs s)))))).
  { intros n' Hn. constructor; [done|done|by constructor|]. intros q. destruct (C4 q) as [D1 D2]. split; [|done]. cbn [fs set_fs node_usages handles]. unfold uses in *. destruct (decide (p = q)) as [<-|]; [rewrite lookup_insert_eq; simpl; subst n; lia|by rewrite lookup_insert_ne]. }
  destruct (checked_add 64 n 1) as [n'|] eqn:Hadd; eexists _, _; (split; [done|]); (split; [done|]).
  - assert (n' = n + 1) as -> by (unfold checked_add in Hadd; case_decide; congruence). split; [apply Hins; lia|]. intros _. constructor; [done|done|by constructor|]. intros q. destruct (C4 q) as [D1 D2]. cbn [fs set_fs node_usages handles image]. unfold uses, one_more, no_more in *. case_decide as Hq.
    + subst q. rewrite lookup_insert_eq. simpl. subst n. split; [lia|done].
    + rewrite lookup_insert_ne by done. done.
  - split; [apply Hins; lia|done].
Qed.

Lemma mint_open_file h nm requested : minting (open_file_path h nm requested) h.
Proof.
  intros s Hc Hlen Hk. unfold open_file_path, bindM.
  destruct (walk_prefix_spec h nm requested s Hc) as (m & res & -> & Hc1 & Hr).
  destruct res as [[[p r] last]|e]; [|mint_err].
  destruct (Hr _ _ _ eq_refl) as (d0 & r0 & Hh & Hrtc & Hsub & Hcc). apply slot_entry_dir in Hh.
  unfold guard. destruct (denies_all r READ_WRITE); cbn [ret fail]; [mint_err|].
  apply check_component_facts in Hcc as [Hname Hvis].
  destruct (lookup_spec _ p last (set_memo s m) Hc1 Hvis) as (m2 & Hl & Hc2). unfold lookupM. rewrite Hl.
  rewrite set_memo_twice in *. cbn [image fs set_memo] in *.
  destruct (names_in (image (fs s)) p last) as [[c k]|e] eqn:Hn; [|mint_err].
  cbn [fst snd]. case_bool_decide as Hdir; [mint_err|]. unfold ret at 1.
  unfold land_on, lift. destruct (landing k false) as [[]|rf] eqn:Hland; [|mint_err].
  assert (k = Kind.File) as -> by (destruct k; done). apply name_at_Some in Hn.
  assert (Hfile : is_file (image (fs (set_memo s m2))) c).
  { apply found_at in Hn as (n & Hf & <- & Hkd). exists n. split; [eapply found_is_read; [apply Hc|exact Hf]|]. unfold kind_of in Hkd. by destruct (n_is_dir n). }
  destruct (use_node_spec c (set_memo s m2) Hc2 Hfile) as ([[]|e] & f & -> & Him & Hcf & Hco).
  2: { exists (Err e), (set_fs (set_memo s m2) f). split; [done|]. apply minted_err; [done|done|by apply ways_kept_refl|simpl; lia]. }
  eapply install_after; [by apply Hco|done|by apply ways_kept_refl|simpl; lia|done|done|]. simpl. rewrite Him. simpl.
  split; [|eapply sub_trans; [apply sub_attenuate|done]]. exists [], (image (fs s)), [], p, last. split_and!; [done|constructor|done..].
Qed.

(** ** Creating *)

Lemma slot_open s h p r : slot_entry s h = Some (Dir p r) -> p ∈ open_dirs s.
Proof. intros Hh. apply open_dirs_spec. eauto. Qed.

Lemma mint_make_dir h nm requested : minting (make_dir h nm requested) h.
Proof.
  intros s Hc Hlen Hk. unfold make_dir, bindM, lift, guard.
  destruct (check_component nm) as [[]|e] eqn:Hcc; [|mint_err].
  apply check_component_facts in Hcc as [Hname Hvis].
  destruct (dir_at_spec h s) as [(d0 & r0 & Hh & ->)|(e & ->)]; [|mint_err].
  apply slot_entry_dir in Hh. cbn [fst snd].
  destruct (allows r0 SubtreeScope.CREATE); cbn [negb ret fail]; [|mint_err].
  destruct (allows r0 DESCEND); cbn [negb ret fail]; [|mint_err].
  case_bool_decide; [mint_err|]. unfold tick, ret. rewrite decide_True by lia.
  set (s1 := MkServer (fs s) (handles s) (clock s + 1) (memo s) (owners s) (bindings s)).
  destruct (change_spec (create_new d0 nm (Z.lor MODE_DIR 0x1ED) (clock s + 1)) (fun _ => True) _ s1 (core_clock _ s _ Hc) (tame_create_new _ _ d0 nm _ _ (slot_open s _ _ _ Hh) Hvis) I) as (r & f & -> & Hc2 & Hw & Hr).
  destruct r as [node|e]; [|eexists _, _; split; [done|]; apply minted_err; [done|done|done|simpl; lia]].
  destruct (Hr node eq_refl) as (f1 & (Hfind & Hdir & _) & _ & Hsame & _). assert (Hn : name_at (image f) d0 nm = Some (n_ptr node, Kind.Directory)) by (rewrite <- (Hdir eq_refl); apply name_at_found; by rewrite Hsame).
  eapply install_after; [|done|done|simpl; lia|done|done|].
  - split; [done|]. right. by exists d0, nm.
  - split; [|apply sub_attenuate]. apply rtc_once. by exists nm.
Qed.

Lemma mint_create_file h nm : minting (create_file_at h nm) h.
Proof.
  intros s Hc Hlen Hk. unfold create_file_at, bindM, lift, guard.
  destruct (check_component nm) as [[]|e] eqn:Hcc; [|mint_err].
  apply check_component_facts in Hcc as [Hname Hvis].
  destruct (dir_at_spec h s) as [(d0 & r0 & Hh & ->)|(e & ->)]; [|mint_err].
  apply slot_entry_dir in Hh. cbn [fst snd].
  destruct (allows r0 SubtreeScope.CREATE); cbn [negb ret fail]; [|mint_err].
  unfold tick, ret. rewrite decide_True by lia. set (s1 := MkServer (fs s) (handles s) (clock s + 1) (memo s) (owners s) (bindings s)).
  destruct (change_spec _ _ _ s1 (core_clock _ s _ Hc) (tame_create_file _ (fun _ => True) d0 nm (clock s + 1) (uses (node_usages (fs s))) (slot_open s _ _ _ Hh) Hvis)) as (r & f & -> & Hc2 & Hw & Hr); [split; [done|intros; simpl; lia]|].
  destruct r as [ptr|e]; [|eexists _, _; split; [done|]; apply minted_err; [done|done|done|simpl; lia]].
  destruct (Hr ptr eq_refl) as (f1 & (Hfind & Huse) & Hus & Hsame & Hread). assert (Hn : name_at (image f) d0 nm = Some (ptr, Kind.File)) by (unfold name_at, names_in in *; by rewrite Hsame).
  eapply install_after; [|done|done|simpl; lia|done|done|].
  - destruct Hc2 as [C1 C2 C3 C4]. constructor; [done|done|done|]. intros p. destruct (C4 p) as [D1 D2]. pose proof (proj1 (core_count _ _ Hc p)) as D0. specialize (Huse p). cbn [fs set_fs handles set_memo] in *. rewrite Hus in D1 |- *. unfold one_more, no_more in *. revert Huse. destruct (decide (p = ptr)) as [Hq|Hq]; intros Huse; [|split; [lia|intros Hp; apply D2; lia]].
    change (handles s1) with (handles s) in *. split; [lia|]. intros _. subst p. apply found_at in Hn as (n & Hf & <- & Hkd). exists n. split; [eapply found_is_read; [apply C3|exact Hf]|]. unfold kind_of in Hkd. by destruct (n_is_dir n).
  - split; [|apply sub_attenuate]. exists [], (image f), [], d0, nm. split_and!; [done|constructor|constructor|done..].
Qed.

(** ** Closing *)

Definition names_kept (s s' : Server ES) : Prop := keeps_names (image (fs s)) (image (fs s')).

Lemma names_kept_trans s1 s2 s3 : names_kept s1 s2 -> names_kept s2 s3 -> names_kept s1 s3.
Proof. intros H1 H2 d nm. destruct (H1 d nm) as [A1 A2], (H2 d nm) as [B1 B2]. split; [congruence|auto]. Qed.

Lemma names_kept_ways s s' : names_kept s s' -> ways_kept s s'.
Proof. intros Hk p q _. apply rtc_subrel. intros a c. by apply keeps_edges. Qed.

Lemma tidy_sub D D' (f : FS ES) : D' ⊆ D -> tidy D f -> tidy D' f.
Proof. intros Hsub [H1 H2 H3]. constructor; [done|done|]. intros q Hq. by apply H3, Hsub. Qed.

(** One use of a file less. *)
Lemma core_released p s es u : core_with (one_more p) s -> sound es -> keeps_names (image (fs s)) es -> (forall q, 0 < uses u q -> is_file (image (fs s)) q -> is_file es q) ->
  (forall q, uses u q = if decide (q = p) then uses (node_usages (fs s)) q - 1 else uses (node_usages (fs s)) q) -> core (set_fs s (MkFS es u)).
Proof.
  intros [C1 C2 C3 C4] Hs Hk Hf Hu. constructor; [done|by eapply agrees_keeps|by eapply keeps_tidy|]. intros q. destruct (C4 q) as [D1 D2]. cbn [fs set_fs image node_usages handles]. unfold one_more, no_more in *. pose proof (Hu q) as Hq. destruct (decide (q = p)) as [->|Hne].
  - split; [lia|]. intros Hp. apply Hf; [lia|]. apply D2. lia.
  - split; [lia|]. intros Hp. apply Hf; [lia|]. apply D2. lia.
Qed.

Lemma uses_delete (u : gmap Z Z) p n q : u !! p = Some n -> n <= 1 -> 0 < n -> uses (delete p u) q = if decide (q = p) then uses u q - 1 else uses u q.
Proof. intros Hp H1 H2. unfold uses. destruct (decide (q = p)) as [->|]; [rewrite lookup_delete_eq, Hp; simpl; lia|by rewrite lookup_delete_ne]. Qed.

(** The engine's own close, which lets go of what nobody has open. *)
Lemma on_close_keeps p n f r f' : sound (image f) -> node_usages f !! p = Some n -> n <= 1 -> 0 < n -> fs_tx (on_close_node p) f = (r, f') ->
  node_usages f' = delete p (node_usages f) /\ sound (image f') /\ keeps_names (image f) (image f') /\ forall q, 0 < uses (delete p (node_usages f)) q -> is_file (image f) q -> is_file (image f') q.
Proof.
  intros Hs Hp H1 H2. unfold fs_tx, on_close_node. rewrite Hp. destruct (Z.eqb_spec n 0); [lia|]. destruct (Z.ltb_spec 0 (n - 1)); [lia|]. unfold step_T, stepT. cbn [image node_usages].
  destruct (release_unused_nodes _ (image f)) as [es|e] eqn:Hr; [|intros [= <- <-]; done]. destruct (release_law _ _ _ Hs Hr) as (Hs1 & Hk1 & Hf1). cbn [image node_usages]. destruct (commit es) as [es'|e] eqn:Hc; intros [= <- <-]; [|done]. destruct (commit_law _ _ Hs1 Hc) as (Hs2 & Hfind & Hread). cbn [image node_usages].
  split; [done|]. split; [done|]. split; [intros d nm; unfold name_at, names_in; rewrite Hfind; apply Hk1|]. intros q Hq Hfi. unfold is_file. rewrite Hread. by apply Hf1.
Qed.

Lemma release_node_spec p s : core_with (one_more p) s ->
  exists r f, release_node p s = Done (r, set_fs s f) /\ core (set_fs s f) /\ keeps_names (image (fs s)) (image f).
Proof.
  intros Hc. pose proof (td_sound _ _ (core_tidy _ _ Hc)) as Hs. destruct (core_count _ _ Hc p) as [Hn _]. unfold one_more in Hn. rewrite decide_True in Hn by done. unfold release_node. destruct (node_usages (fs s) !! p) as [u|] eqn:Hu; unfold uses in Hn; rewrite Hu in Hn; simpl in Hn; [|lia].
  destruct (Z.ltb_spec 1 u) as [H1|H1].
  - eexists _, _. split; [done|]. split; [|done]. apply (core_released p); [done|done|done|done|]. intros q. unfold uses. destruct (decide (q = p)) as [->|]; [by rewrite lookup_insert_eq, Hu|by rewrite lookup_insert_ne].
  - destruct (release_is_null (image (fs s))).
    + eexists _, _. split; [done|]. split; [|done]. apply (core_released p); [done|done|done|done|]. intros q. by apply uses_delete with u; [|lia|lia].
    + destruct (fs_tx (on_close_node p) (fs s)) as [r f] eqn:Hf. destruct (on_close_keeps p u _ _ _ Hs Hu H1 ltac:(lia) Hf) as (U1 & S1 & K1 & F1). exists r, f. split; [done|]. split; [|done]. destruct f as [es us]. cbn [image node_usages] in *. subst us. apply (core_released p); [done|done|done|done|]. intros q. by apply uses_delete with u; [|lia|lia].
Qed.

Lemma core_clear s h o e : core s -> handles s !! h = Some (Some e) ->
  match e with File p _ => core_with (one_more p) | Dir _ _ => core end (set_handles s (<[h := None]> (handles s)) o).
Proof.
  intros [C1 C2 C3 C4] Hh. assert (Ht : tidy (open_dirs (set_handles s (<[h := None]> (handles s)) o)) (fs s)).
  { eapply tidy_sub; [|exact C3]. intros q (j & r & Hj)%open_dirs_spec. apply open_dirs_spec. exists j, r. unfold slot_entry in *. cbn [handles set_handles] in Hj. destruct (decide (j = h)) as [->|Hne]; [|by rewrite list_lookup_insert_ne in Hj]. rewrite list_lookup_insert_eq in Hj by (by eapply lookup_lt_Some). done. }
  assert (Hu : forall p, (uses_of (<[h := None]> (handles s)) p + (if is_use p (Some e) then 1 else 0) = uses_of (handles s) p)%nat) by (intros p; pose proof (uses_of_insert _ _ _ None p Hh) as Hx; cbn [is_use] in *; lia).
  destruct e as [q r|q r]; (constructor; [done|done|done|]); intros p; specialize (Hu p); destruct (C4 p) as [D1 D2]; cbn [handles set_handles fs is_use] in *; unfold one_more, no_more in *.
  - split; [lia|]. intros Hp. apply D2. lia.
  - destruct (decide (p = q)) as [->|Hne]; [rewrite Z.eqb_refl in Hu|destruct (Z.eqb_spec q p); [congruence|]]; (split; [lia|]; intros Hp; apply D2; lia).
Qed.

Lemma close_spec h s :
  core s -> clock s < 2 ^ 64 ->
  exists r s', close h s = Done (r, s') /\ core s' /\ names_kept s s' /\ clock s' = clock s /\
    owners s' = owners s /\ bindings s' = bindings s /\
    (handles s' = handles s /\ (h = ROOT \/ slot_entry s (Z.to_nat h) = None) \/
     h <> ROOT /\ is_Some (slot_entry s (Z.to_nat h)) /\ handles s' = <[Z.to_nat h := None]> (handles s)).
Proof.
  intros Hc Hk. unfold close, bindM, guard. destruct (Z.eqb_spec h ROOT) as [->|Hne].
  { exists (Err EINVAL), s. split_and!; [done|done|done|done|done|done|]. left. auto. }
  unfold ret at 1, entry. fold (slot_entry s (Z.to_nat h)). destruct (slot_entry s (Z.to_nat h)) as [e|] eqn:He.
  2: { exists (Err EBADF), s. split_and!; [done|done|done|done|done|done|]. left. auto. }
  cbn [ok_or]. unfold clear_slot.
  destruct (handles s !! Z.to_nat h) as [o|] eqn:Hh; [|unfold slot_entry in He; by rewrite Hh in He].
  assert (o = Some e) as -> by (unfold slot_entry in He; by rewrite Hh in He).
  pose proof (core_clear s _ (owners s) e Hc Hh) as Hc1. set (s1 := set_handles s _ _) in *.
  destruct e as [p r|p r].
  - exists (Ok tt), s1. split_and!; [done|done|done|done|done|done|]. right. split_and!; [done|by eexists|done].
  - destruct (release_node_spec p s1 Hc1) as (r' & f & -> & Hc' & Hkn).
    exists r', (set_fs s1 f). split_and!; [done|done|done|done|done|done|]. right. by split_and!; [|eexists|].
Qed.

(** ** The verbs that hand out nothing *)

#[local] Hint Resolve quiet_read_dir : quiet.
Lemma quiet_read k h o n : quiet k (read h o n).
Proof. unfold read. quiet. Qed.

Lemma file_at_spec h n e s a s' : file_at h n e s = Done (Ok a, s') -> s' = s /\ exists r, Some (File a r) ∈ handles s.
Proof.
  unfold file_at, bindM, entry. destruct (handles s !! Z.to_nat h) as [[[p r|p r]|]|] eqn:Hh; simpl; try done. destruct (allows r n); [|done]. intros [= <- <-]. split; [done|]. exists r. by eapply list_elem_of_lookup_2.
Qed.

(** A handle of a file is a file's. *)
Lemma open_is_file s a r : core s -> Some (File a r) ∈ handles s -> is_file (image (fs s)) a.
Proof. intros Hc Hin. apply (core_count _ _ Hc a). pose proof (uses_of_pos _ _ _ Hin). lia. Qed.

(** A verb that changes the bytes of the file a handle names. *)
Lemma quiet_file_change {A} h n e (b : Z -> Z -> T A) Q :
  (forall D p now, tame D (fun f => is_file (image f) p) (b p now) Q) ->
  (forall p now f a f1, sound (image f) -> is_file (image f) p -> b p now f = (Ok a, f1) -> sound (image f1) /\ keeps_names (image f) (image f1)) ->
  quiet 1 (bindM (file_at h n e) (fun ptr => bindM tick (fun now => change_file ptr (b ptr now)))).
Proof.
  intros Hb Hkeep s Hc Hk. apply (settles_bind 0 1); [by apply quiet_file_at; [|lia]|]. intros p s0 [-> [r Hin]]%file_at_spec _ _ _.
  apply (settles_bind 1 0); [by apply tick_spec|]. intros now s1 Ht Hc1 (Hh & _ & _) _. assert (Hf : is_file (image (fs s1)) p) by (apply (open_is_file s1 p r Hc1); by rewrite Hh).
  eapply settles_change_file; [done|apply Hb|done|]. intros a f1. by apply Hkeep; [apply Hc1|].
Qed.

Lemma quiet_write h o d : quiet 1 (write h o d).
Proof.
  unfold write. apply (quiet_file_change h _ _ (fun p now => stepT (write_node p o d now)) (fun _ _ => True)).
  - intros D p now. eapply tame_weaken; [apply tame_write|done|done].
  - intros p now f a f1 Hs Hf. unfold stepT. destruct (write_node p o d now (image f)) as [[n es]|] eqn:Hw; intros [= <- <-]. by destruct (write_law _ _ _ _ _ _ _ Hs Hf Hw) as (? & ? & _).
Qed.
Lemma quiet_fstat k h : quiet k (fstat h).
Proof. unfold fstat. quiet. Qed.
Lemma quiet_truncate h n : quiet 1 (truncate h n).
Proof.
  unfold truncate. apply (quiet_file_change h _ _ (fun p now => step_T (truncate_node p n now)) (fun _ _ => True)); [intros D p now; apply tame_truncate|].
  intros p now f a f1 Hs Hf. unfold step_T, stepT. destruct (truncate_node p n now (image f)) as [es|] eqn:Hw; intros [= <- <-]. by destruct (truncate_law _ _ _ _ _ Hs Hf Hw) as (? & ? & _).
Qed.

(** Removing and renaming: the directory that goes must not be open. *)
Lemma settles_lift {A B} k (r : result Z A) (f : A -> M B) s : core s -> (forall a, r = Ok a -> settles k (f a) s) -> settles k (bindM (lift r) f) s.
Proof. intros Hc Hf. destruct r as [a|e]; [by apply Hf|]. exists (Err e), s. split_and!; [done|done|done|by apply ways_kept_refl|lia|lia]. Qed.

Lemma settles_guard {B} k b e (f : unit -> M B) s : core s -> (b = false -> settles k (f tt) s) -> settles k (bindM (guard b e) f) s.
Proof. intros Hc Hf. destruct b; [|by apply Hf]. exists (Err e), s. split_and!; [done|done|done|by apply ways_kept_refl|lia|lia]. Qed.

Lemma settles_dir_at {B} k h (f : Z * Rights -> M B) s : core s -> (forall p r, slot_entry s (Z.to_nat h) = Some (Dir p r) -> settles k (f (p, r)) s) -> settles k (bindM (dir_at h) f) s.
Proof.
  intros Hc Hf. destruct (dir_at_spec h s) as [(p & r & Hh & Hd)|(e & Hd)]; unfold settles, bindM; rewrite Hd; [by apply (Hf p r), slot_entry_dir|]. exists (Err e), s. split_and!; [done|done|done|by apply ways_kept_refl|lia|lia].
Qed.

Lemma settles_remove k h nm mode s : core s ->
  (Z.land mode MODE_TYPE = MODE_DIR -> forall p r, slot_entry s (Z.to_nat h) = Some (Dir p r) -> may_go (open_dirs s) (fs s) p nm) -> settles k (remove_name h nm mode) s.
Proof.
  intros Hc Hgo. unfold remove_name. apply settles_lift; [done|]. intros [] Hcc. apply settles_dir_at; [done|]. intros p r Hp. cbn [fst snd]. apply settles_guard; [done|]. intros _.
  eapply (settles_change k _ (fun f => f = fs s)); [done| |done]. apply tame_remove_name. intros f _ -> Hm. by apply (Hgo Hm p r).
Qed.

Lemma quiet_unlink k h nm : quiet k (unlink h nm).
Proof. intros s Hc Hk. by apply settles_remove. Qed.

Lemma settles_rename k h a h' b s : core s ->
  (forall d r d' r', slot_entry s (Z.to_nat h) = Some (Dir d r) -> slot_entry s (Z.to_nat h') = Some (Dir d' r') -> name_at (image (fs s)) d' b <> name_at (image (fs s)) d a -> may_go (open_dirs s) (fs s) d' b) ->
  settles k (rename h a h' b) s.
Proof.
  intros Hc Hgo. unfold rename. apply settles_lift; [done|]. intros [] [Ha1 Ha2]%check_component_facts. apply settles_lift; [done|]. intros [] [Hb1 Hb2]%check_component_facts. apply settles_dir_at; [done|]. intros d r Hd. apply settles_dir_at; [done|]. intros d' r' Hd'. cbn [fst snd].
  apply settles_guard; [done|]. intros _. eapply (settles_change k _ (fun f => f = fs s)); [done| |done]. apply tame_rename; [by eapply slot_open|done|done|done|]. intros f _ ->. by eapply Hgo.
Qed.

Lemma quiet_mtime_change k d nm t : quiet k (change (set_mtime_body d nm t)).
Proof. eapply quiet_change. intros D. apply tame_set_mtime. Qed.
Lemma quiet_set_change k p nm kd v now : quiet k (change (bindT (read_attrs p) (fun blob => bindT (liftT (set blob nm kd v (replicate (length blob + record_len (length nm) (length v)) 0))) (fun r => write_attrs p (take r.1 r.2) now)))).
Proof. eapply quiet_change. intros D. apply (tame_xattr_change D _ p now (fun blob => set blob nm kd v (replicate (length blob + record_len (length nm) (length v)) 0))). Qed.
Lemma quiet_remove_change k p nm now : quiet k (change (bindT (read_attrs p) (fun blob => bindT (liftT (remove blob nm (replicate (length blob) 0))) (fun r => write_attrs p (take r.1 r.2) now)))).
Proof. eapply quiet_change. intros D. apply (tame_xattr_change D _ p now (fun blob => remove blob nm (replicate (length blob) 0))). Qed.
#[local] Hint Resolve quiet_mtime_change quiet_set_change quiet_remove_change : quiet.

Lemma quiet_mtime k h nm : quiet k (mtime h nm).
Proof. unfold mtime. quiet. Qed.
Lemma quiet_set_mtime_now h nm : quiet 1 (set_mtime_now h nm).
Proof. unfold set_mtime_now. quiet. Qed.
Lemma quiet_set_mtime_at k h nm t : quiet k (set_mtime_at h nm t).
Proof. unfold set_mtime_at. quiet. Qed.
Lemma quiet_get_xattr k h nm n : quiet k (get_xattr h nm n).
Proof. unfold get_xattr. quiet. Qed.
Lemma quiet_set_xattr h nm kd v : quiet 1 (set_xattr h nm kd v).
Proof. unfold set_xattr. quiet. Qed.
Lemma quiet_list_xattr k h o : quiet k (list_xattr h o).
Proof. unfold list_xattr. quiet. Qed.
Lemma quiet_remove_xattr h nm : quiet 1 (remove_xattr h nm).
Proof. unfold remove_xattr. quiet. Qed.
Lemma quiet_statfs k h : quiet k (statfs h).
Proof. unfold statfs. quiet. Qed.
Lemma quiet_sync k h : quiet k (sync_permitted h).
Proof. unfold sync_permitted. quiet. Qed.

(** ** Admission *)

Lemma req_handle_range w : 0 <= req_handle w < 2 ^ 16.
Proof.
  unfold req_handle. change MAX_HANDLE with (Z.ones 16). rewrite Z.land_ones by lia.
  apply Z.mod_pos_bound. lia.
Qed.

Lemma wrap32_small x : 0 <= x < 2 ^ 16 -> wrap 32 x = x.
Proof. intros. apply wrap_small. unfold in_width. lia. Qed.

(** What a badge's admitted handle can be. *)
Definition reach (s : Server ES) (b : Z) (h : Z) : Prop :=
  0 <= h < 2 ^ 16 /\
  (slot_of (bindings s) b = Open \/
   exists r, slot_of (bindings s) b = Bound r /\
     (h = r \/ owners s !! Z.to_nat h = Some b /\ is_Some (slot_entry s (Z.to_nat h)))).

Lemma server_admit_spec hist s b raw :
  ginv hist s -> 0 <= b -> 0 <= raw < 2 ^ 16 ->
  (exists e, server_admit b raw s = Done (Err e, s)) \/
  (exists h, server_admit b raw s = Done (Ok h, s) /\ reach s b h /\
     (slot_of (bindings s) b = Open -> h = raw) /\
     (raw <> ROOT -> slot_of (bindings s) b <> Open ->
        owners s !! Z.to_nat h = Some b /\ is_Some (slot_entry s (Z.to_nat h)))).
Proof.
  intros [] Hb Hraw. unfold server_admit, bindM.
  assert (Hown : exists o, owner_of raw s = Done (Ok o, s) /\
      (o = Some b -> owners s !! Z.to_nat raw = Some b /\ is_Some (slot_entry s (Z.to_nat raw)))).
  { unfold owner_of, slot_entry. destruct (handles s !! Z.to_nat raw) as [[e|]|] eqn:Hh; [|by exists None|by exists None].
    apply lookup_lt_Some in Hh. rewrite <- g_len0 in Hh. apply lookup_lt_is_Some_2 in Hh as [o Ho].
    rewrite Ho. exists (Some o). split; [done|]. intros; simplify_eq. simpl. eauto. }
  destruct Hown as (o & -> & Ho). unfold binding. rewrite (binding_of_slot _ _ Hb). cbn [mbind run_bind].
  unfold admit_handle, ret, fail.
  destruct (slot_of (bindings s) b) as [|r|] eqn:Hs; [| |by left; eexists].
  - right. exists raw. rewrite wrap32_small by done. split; [done|]. split; [split; [lia|by left]|done].
  - destruct (g_grant0 b r Hb Hs) as ([Hr1 Hr2] & _). destruct (Z.eqb_spec raw ROOT) as [->|Hne].
    + right. exists r. rewrite wrap32_small by done. split; [done|]. split; [|done]. split; [lia|]. right. eauto.
    + case_bool_decide as Hob; [|by left; eexists]. right. exists raw. rewrite wrap32_small by done.
      destruct (Ho Hob) as [? ?]. split; [done|]. split; [|done]. split; [lia|]. right. exists r. auto.
Qed.

(** What a bound badge reaches is inside its grant. *)
Lemma reach_inside hist s b h e :
  ginv hist s -> 0 <= b -> reach s b h -> slot_of (bindings s) b <> Open -> slot_entry s (Z.to_nat h) = Some e ->
  exists r p rr, slot_of (bindings s) b = Bound r /\ slot_entry s (Z.to_nat r) = Some (Dir p rr) /\
    inside hist (image (fs s)) p rr e.
Proof.
  intros [] Hb (Hh & [Ho|(r & Hs & [->|[Hown _]])]) Hno He; [done| |].
  - destruct (g_grant0 b r Hb Hs) as (_ & _ & p & rr & Hp). exists r, p, rr. split_and!; [done|done|].
    assert (e = Dir p rr) as -> by congruence. simpl. split; [constructor|apply sub_refl].
  - destruct (decide (b = 0)) as [->|Hnz]; [done|].
    destruct (g_owned0 _ _ _ Hown Hnz He) as (_ & r' & p & rr & ? & ? & ?). eauto 10.
Qed.

(** ** Claiming *)

Lemma ginv_claim hist s s' i b r p rr e :
  ginv hist s -> 0 <= b -> b <> 0 -> i <> 0%nat -> slot_of (bindings s) b = Bound r ->
  slot_entry s (Z.to_nat r) = Some (Dir p rr) -> slot_entry s i = Some e -> inside hist (image (fs s)) p rr e ->
  (forall b' r', 0 <= b' -> slot_of (bindings s) b' = Bound r' -> Z.to_nat r' <> i) ->
  handles s' = handles s -> owners s' = <[i := b]> (owners s) -> bindings s' = bindings s -> fs s' = fs s ->
  ginv hist s'.
Proof.
  intros [] Hb Hnz Hi Hs Hp He Hin Hroots Hh Ho Hbd Hf.
  assert (Hse : forall j, slot_entry s' j = slot_entry s j) by (intros; unfold slot_entry; by rewrite Hh).
  constructor; rewrite ?Hbd, ?Ho, ?Hse, ?Hf; try done.
  - by rewrite length_insert, Hh.
  - split; [apply g_zero0|]. rewrite list_lookup_insert_ne by done. apply g_zero0.
  - intros b' r' H1 H2. rewrite Hse, list_lookup_insert_ne by (intros Heq; by eapply Hroots; eauto). eauto.
  - intros j b' x H1 H2 H3. rewrite Hse in H3. destruct (decide (j = i)) as [->|Hj].
    + apply list_lookup_insert_Some in H1 as [(_ & <- & _)|[? _]]; [|done]. assert (x = e) as -> by congruence.
      split; [done|]. exists r, p, rr. rewrite Hse. done.
    + rewrite list_lookup_insert_ne in H1 by done.
      destruct (g_owned0 j b' x H1 H2 H3) as (? & r0 & p0 & rr0 & ? & ? & ?). split; [done|].
      exists r0, p0, rr0. rewrite Hse. done.
Qed.

(** ** Binding and unbinding *)

Lemma server_bind_spec hist s caller h b :
  ginv hist s -> core s -> 0 <= caller -> 0 <= b -> 0 <= h < 2 ^ 16 ->
  (slot_of (bindings s) caller = Open ->
     owners s !! Z.to_nat h = Some 0 /\
     forall b' r, 0 <= b' -> slot_of (bindings s) b' = Bound r -> r = ROOT \/ r <> h) ->
  exists r s', server_bind caller h b s = Done (r, s') /\ core s' /\ ginv hist s' /\
    handles s' = handles s /\ fs s' = fs s /\ clock s' = clock s.
Proof.
  intros Hg Hcore Hc Hb Hh Hdisc. unfold server_bind, bindM.
  destruct (dir_at_spec h s) as [(d0 & r0 & Hd & ->)|(e & ->)]; [|by exists (Err e), s].
  apply slot_entry_dir in Hd.
  destruct (bind_cases (bindings s) caller b h Hc Hb) as [[e ->]|(-> & Ho & Hnz & Hnb & Hlt)];
    (eexists _, _; split; [done|]; split; [by destruct Hcore; constructor|]).
  { split_and!; [|done|done|done]. by apply (ginv_same hist s _); [|apply ways_kept_refl|]. }
  split_and!; [|done|done|done]. destruct (Hdisc Ho) as [Hown Halone]. destruct Hg.
  assert (Hslot : forall x, 0 <= x -> slot_of (MkBindings (<[Z.to_nat b := Bound h]> (state (bindings s)))) x =
            if decide (x = b) then Bound h else slot_of (bindings s) x)
    by (intros; by apply slot_of_insert).
  constructor; simpl; try done.
  - by rewrite length_insert.
  - intros x r Hx. rewrite Hslot by done. case_decide; [|by apply g_grant0].
    intros; simplify_eq. split_and!; [lia|lia|done|]. eauto.
  - intros x y r Hx Hy. rewrite !Hslot by done. repeat case_decide; subst; [done| | |by apply g_alone0].
    + intros; simplify_eq. destruct (Halone y r Hy) as [|]; done.
    + intros; simplify_eq. destruct (Halone x r Hx) as [|]; done.
  - intros j x e H1 H2 H3. destruct (g_owned0 j x e H1 H2 H3) as (Hx & r & p & rr & Hs & ? & ?). split; [done|].
    exists r, p, rr. rewrite Hslot by done. rewrite decide_False; [done|]. intros ->. by rewrite Hs in Hnb.
Qed.

(** The handles in [hs] are closed and nobody's; everything else is as it was. *)
Definition cleared (hs : list nat) (s s' : Server ES) : Prop :=
  length (handles s') = length (handles s) /\ length (owners s') = length (owners s) /\
  clock s' = clock s /\
  (forall j, j ∈ hs -> slot_entry s' j = None /\ owners s' !! j = Some 0) /\
  (forall j, j ∉ hs -> slot_entry s' j = slot_entry s j /\ owners s' !! j = owners s !! j).

Lemma close_one s h :
  core s -> clock s < 2 ^ 64 -> h <> 0%nat -> is_Some (slot_entry s h) -> (h < length (owners s))%nat ->
  length (owners s) = length (handles s) ->
  exists s', close_minted [h] s = Done (Ok tt, s') /\ core s' /\ names_kept s s' /\ bindings s' = bindings s /\ cleared [h] s s'.
Proof.
  intros Hc Hk Hh Hse Hlt Hlen. unfold close_minted, bindM, ignore.
  destruct (lookup_lt_is_Some_2 (owners s) h Hlt) as [o ->].
  set (s1 := set_handles s (handles s) (<[h := 0]> (owners s))).
  assert (Hc1 : core s1) by (destruct Hc; by constructor).
  destruct (close_spec (Z.of_nat h) s1 Hc1) as (r & s' & -> & Hc' & Hkn & Hcl & Ho & Hb & Hcase); [done|].
  rewrite Nat2Z.id in Hcase. eexists. split; [done|]. split; [done|]. split; [done|]. split; [done|].
  assert (Hh' : handles s' = <[h := None]> (handles s)).
  { destruct Hcase as [[_ [Hz|Hz]]|(_ & _ & ->)]; [unfold ROOT in Hz; lia| |done].
    unfold slot_entry in *. simpl in Hz. rewrite Hz in Hse. by destruct Hse. }
  unfold cleared, slot_entry. rewrite Hh', Ho, Hcl. simpl. rewrite !length_insert.
  split; [done|]. split; [done|]. split; [done|]. split.
  - intros j Hj. apply list_elem_of_singleton in Hj as ->. rewrite !list_lookup_insert_eq by lia. done.
  - intros j Hj. assert (j <> h) by set_solver. by rewrite !list_lookup_insert_ne by done.
Qed.

Lemma close_minted_cons h hs s s1 :
  close_minted [h] s = Done (Ok tt, s1) -> close_minted (h :: hs) s = close_minted hs s1.
Proof.
  cbn [close_minted]. unfold bindM, ret. destruct (owners s !! h); [|done].
  destruct (ignore _ _) as [[[u|e] s']|]; intros; by simplify_eq.
Qed.

Lemma close_minted_spec hs s :
  core s -> clock s < 2 ^ 64 -> length (owners s) = length (handles s) -> NoDup hs ->
  (forall h, h ∈ hs -> h <> 0%nat /\ is_Some (slot_entry s h) /\ (h < length (owners s))%nat) ->
  exists s', close_minted hs s = Done (Ok tt, s') /\ core s' /\ names_kept s s' /\ bindings s' = bindings s /\ cleared hs s s'.
Proof.
  revert s. induction hs as [|h hs IH]; intros s Hc Hk Hlen Hnd Hall.
  - exists s. split; [done|]. split; [done|]. split; [done|]. split; [done|]. unfold cleared. split_and!; try done.
    intros j Hj. by apply elem_of_nil in Hj.
  - apply NoDup_cons in Hnd as [Hnin Hnd]. destruct (Hall h ltac:(left)) as (H1 & H2 & H3).
    destruct (close_one s h Hc Hk H1 H2 H3 Hlen) as (s1 & Hs1 & Hc1 & Hk1 & Hb & L1 & L2 & Hcl & Hin & Hout).
    destruct (IH s1) as (s2 & Hs2 & Hc2 & Hk2 & Nb & M1 & M2 & Ncl & Min & Mout); [done|lia|congruence|done| |].
    { intros j Hj. destruct (Hall j) as (? & ? & ?); [by right|].
      destruct (Hout j) as [-> _]; [set_solver|]. rewrite L2. done. }
    exists s2. split.
    { by rewrite (close_minted_cons _ _ _ _ Hs1). }
    split; [done|]. split; [by eapply names_kept_trans|]. split; [congruence|]. unfold cleared. split_and!; try congruence.
    + intros j Hj. destruct (decide (j ∈ hs)) as [Hjs|Hjs]; [by apply Min|].
      apply elem_of_cons in Hj as [->|]; [|done]. destruct (Mout h Hjs) as [-> ->]. apply Hin. left.
    + intros j Hj. apply not_elem_of_cons in Hj as [? ?]. destruct (Mout j) as [-> ->]; [done|]. apply Hout. set_solver.
Qed.

Lemma minted_facts s b j :
  j ∈ minted b s <-> owners s !! j = Some b /\ is_Some (slot_entry s j).
Proof.
  unfold minted. rewrite list_elem_of_filter, elem_of_seq. fold (slot_entry s j). split.
  - intros [[Ho Hs] _]. split; [done|]. by destruct (slot_entry s j); [eexists|].
  - intros [Ho [e He]]. rewrite He. split; [done|]. apply lookup_lt_Some in Ho. lia.
Qed.

(** Forgetting a badge whose handles are all closed, and its root too. *)
Lemma ginv_unbound hist s s1 s2 b r :
  ginv hist s -> 0 <= b -> b <> 0 -> (Z.to_nat b < length (state (bindings s)))%nat ->
  slot_of (bindings s) b = Bound r ->
  cleared (minted b s) s s1 ->
  (r = ROOT /\ handles s2 = handles s1 \/ r <> ROOT /\ handles s2 = <[Z.to_nat r := None]> (handles s1)) ->
  owners s2 = owners s1 -> bindings s2 = MkBindings (<[Z.to_nat b := Revoked]> (state (bindings s))) -> ways_kept s s2 ->
  ginv hist s2.
Proof.
  intros [] Hb Hnz Hlt Hs (L1 & L2 & _ & Hin & Hout) Hroot Ho Hbd Hw.
  assert (Hslot : forall x, 0 <= x -> slot_of (bindings s2) x =
            if decide (x = b) then Revoked else slot_of (bindings s) x)
    by (intros; rewrite Hbd; by apply slot_of_insert).
  destruct (g_grant0 b r Hb Hs) as (Hr & Hor & p0 & rr0 & Hpr).
  assert (Hkeep : forall j e, slot_entry s j = Some e -> owners s !! j <> Some b -> (r <> ROOT -> j <> Z.to_nat r) ->
            slot_entry s2 j = Some e /\ owners s2 !! j = owners s !! j).
  { intros j e He Hj Hjr. destruct (Hout j) as [He1 Ho1]; [rewrite minted_facts; naive_solver|].
    rewrite Ho. split; [|done]. unfold slot_entry in *. destruct Hroot as [[_ ->]|[Hne ->]]; [by rewrite He1|].
    rewrite list_lookup_insert_ne by (symmetry; by apply Hjr). by rewrite He1. }
  constructor.
  - rewrite Ho, L2. destruct Hroot as [[_ ->]|[_ ->]]; rewrite ?length_insert; congruence.
  - rewrite Hbd. simpl. rewrite length_insert. lia.
  - destruct g_zero0 as [[e He] Ho0]. destruct (Hkeep 0%nat e He) as [-> ->]; [congruence|unfold ROOT; lia|]. eauto.
  - intros x r' Hx. rewrite Hslot by done. case_decide; [done|]. intros Hs'.
    destruct (g_grant0 x r' Hx Hs') as (? & Hor' & p & rr & Hp).
    destruct (Hkeep (Z.to_nat r') _ Hp) as [-> ->]; [congruence| |eauto].
    intros Hne Heq. assert (r' = r) as -> by lia. by destruct (g_alone0 x b r).
  - intros x y r' Hx Hy. rewrite !Hslot by done. repeat case_decide; [done..|]. by apply g_alone0.
  - intros j x e H1 H2 H3. assert (Hj : j ∉ minted b s).
    { intros Hj. destruct (Hin j Hj) as [_ Hz]. rewrite Ho in H1. congruence. }
    assert (He : slot_entry s j = Some e).
    { destruct (Hout j Hj) as [<- _]. unfold slot_entry in *. destruct Hroot as [[_ <-]|[_ Hh]]; [done|].
      rewrite Hh in H3. destruct (decide (j = Z.to_nat r)) as [->|]; [|by rewrite list_lookup_insert_ne in H3].
      destruct (decide (Z.to_nat r < length (handles s1))%nat); [by rewrite list_lookup_insert_eq in H3|].
      rewrite list_insert_ge in H3 by lia. done. }
    assert (Hox : owners s !! j = Some x) by (destruct (Hout j Hj) as [_ <-]; by rewrite <- Ho).
    destruct (g_owned0 j x e Hox H2 He) as (Hx & r' & p & rr & Hs' & Hp & Hi). split; [done|].
    assert (x <> b) by (intros ->; apply Hj, minted_facts; eauto).
    exists r', p, rr. rewrite Hslot, decide_False by done. split; [done|].
    destruct (g_grant0 x r' Hx Hs') as (? & Hor' & _).
    destruct (Hkeep (Z.to_nat r') _ Hp) as [-> _]; [congruence| |split; [done|by eapply inside_kept]].
    intros Hne Heq. assert (r' = r) as -> by lia. by destruct (g_alone0 x b r).
Qed.

Lemma server_unbind_spec hist s caller b :
  ginv hist s -> core s -> clock s < 2 ^ 64 -> 0 <= caller -> 0 <= b ->
  exists r s', server_unbind caller b s = Done (r, s') /\ core s' /\ ginv hist s' /\ names_kept s s' /\
    length (handles s') = length (handles s) /\ clock s' = clock s.
Proof.
  intros Hg Hc Hclock Hcl Hb. unfold server_unbind, bindM.
  destruct (unbind_cases (bindings s) caller b (g_tab _ _ Hg) Hcl Hb) as [[e ->]|(r & -> & Ho & Hnz & Hs & Hlt)];
    cbn [mbind run_bind fst snd].
  { eexists _, _. split; [done|]. split; [destruct Hc; by constructor|]. split_and!; [|done|done|done].
    by apply (ginv_same hist s _); [|apply ways_kept_refl|]. }
  set (s0 := set_bindings s _). unfold gets. change (minted b s0) with (minted b s).
  assert (Hc0 : core s0) by (destruct Hc; by constructor).
  assert (Hown0 : owners s !! 0%nat = Some 0) by apply Hg.
  destruct (close_minted_spec (minted b s) s0) as (s1 & -> & Hc1 & Hk1 & Hb1 & Hclr); [done|done|apply Hg| | |].
  { apply NoDup_filter, NoDup_seq. }
  { intros j Hj. apply minted_facts in Hj as [Hj1 Hj2]. split_and!; [intros ->; congruence|done|].
    by apply lookup_lt_Some in Hj1. }
  assert (Hclr' : cleared (minted b s) s s1) by exact Hclr.
  destruct (g_grant _ _ Hg b r Hb Hs) as (Hr & Hor & p & rr & Hp). destruct Hclr as (L1 & _ & Hclk & _ & Hout).
  destruct (Z.eqb_spec r ROOT) as [Hr0|Hr0].
  - eexists _, _. split; [done|]. split; [done|]. split_and!; [|done|done|done].
    eapply (ginv_unbound hist s s1 s1 b r); eauto. by apply (names_kept_ways s s1).
  - unfold ignore. rewrite wrap32_small by done.
    destruct (close_spec r s1 Hc1) as (res & s2 & -> & Hc2 & Hk2 & Hclk2 & Ho2 & Hb2 & Hcase); [simpl in *; lia|]. assert (Hk : names_kept s s2) by (by eapply (names_kept_trans s s1)).
    assert (Hse : slot_entry s1 (Z.to_nat r) = Some (Dir p rr)).
    { rewrite <- Hp. apply (Hout (Z.to_nat r)). intros Hj. apply minted_facts in Hj as [Hj _]. congruence. }
    destruct Hcase as [[_ [|Hno]]|(_ & _ & Hh2)]; [done|congruence|].
    eexists _, s2. split; [done|]. split; [done|]. split_and!; [|done|by rewrite Hh2, length_insert|simpl in *; congruence].
    eapply (ginv_unbound hist s s1 s2 b r); [done..|auto|done|by rewrite Hb2, Hb1|by apply names_kept_ways].
Qed.

(** ** One request *)

#[local] Hint Resolve quiet_read quiet_write quiet_fstat quiet_truncate quiet_unlink
  quiet_mtime quiet_set_mtime_now quiet_set_mtime_at quiet_get_xattr quiet_set_xattr quiet_list_xattr
  quiet_remove_xattr quiet_statfs quiet_sync : quiet.

(** A quiet step followed by packing its answer. *)
Lemma settles_then {A B} k (m : M A) (f : A -> M B) s :
  settles k m s -> (forall a, quiet 0 (f a)) -> clock s + Z.of_nat k < 2 ^ 64 -> settles k (bindM m f) s.
Proof. intros Hm Hf Hk. rewrite <- (Nat.add_0_r k). apply settles_bind; [done|]. intros a s' _ Hc' _ Hk'. apply Hf; [done|lia]. Qed.

Lemma quiet_then {A B} k (m : M A) (f : A -> M B) :
  quiet k m -> (forall a, quiet 0 (f a)) -> quiet k (bindM m f).
Proof. intros Hm Hf s Hc Hk. apply settles_then; [by apply Hm|done|done]. Qed.

Lemma settles_reply_unit k q m s : settles k m s -> clock s + Z.of_nat k < 2 ^ 64 -> settles k (reply_unit q m) s.
Proof. intros Hm Hk. apply settles_then; [done|quiet|done]. Qed.

Lemma quiet_reply_word k q m : quiet k m -> quiet k (reply_word q m).
Proof. intros. apply quiet_then; [done|]. quiet. Qed.
Lemma quiet_reply_unit k q m : quiet k m -> quiet k (reply_unit q m).
Proof. intros. apply quiet_then; [done|]. quiet. Qed.
Lemma quiet_reply_bytes k q m : quiet k m -> quiet k (reply_bytes q m).
Proof. intros. apply quiet_then; [done|]. quiet. Qed.
Lemma quiet_named {A} k l (f : list Z -> M A) : (forall nm, quiet k (f nm)) -> quiet k (named l f).
Proof. intros. unfold named. quiet. Qed.
#[local] Hint Resolve quiet_reply_word quiet_reply_unit quiet_reply_bytes quiet_named : quiet.

(** The verbs that change which handle means what, or take a directory away. *)
Definition granting (code : Z) : bool :=
  mints code || (code =? CLOSE) || (code =? BIND) || (code =? UNBIND) || (code =? RENAME) || (code =? RMDIR).

Lemma dispatch_quiet flush code h q : granting code = false -> quiet 1 (dispatch flush code h q).
Proof.
  unfold granting, mints. rewrite !orb_false_iff. intros Hall. destruct_and! Hall.
  unfold dispatch.
  repeat match goal with Hk : (code =? _) = false |- _ => rewrite Hk; clear Hk end.
  repeat match goal with
  | |- quiet _ (if code =? ?K then _ else _) => destruct (code =? K);
      [first [ apply quiet_reply_word | apply quiet_reply_unit | apply quiet_reply_bytes
             | apply quiet_then; [|intros] | idtac ]; quiet|]
  end.
  quiet.
Qed.

(** What the binder keeps to: it binds a handle of its own that no other grant
    uses, and does not close a handle it has bound. *)
Definition disciplined (s : Server ES) (q : Request) : Prop :=
  let code := operation (w0 q) in
  let h := req_handle (w0 q) in
  slot_of (bindings s) (badge q) = Open ->
  (code = CLOSE \/ code = BIND -> h = ROOT \/ Forall (fun x => x <> Bound h) (state (bindings s))) /\
  (code = BIND -> owners s !! Z.to_nat h = Some 0).
#[global] Instance disciplined_dec s q : Decision (disciplined s q).
Proof. unfold disciplined. cbv zeta. apply _. Defined.

Lemma disciplined_spec s q :
  disciplined s q -> slot_of (bindings s) (badge q) = Open ->
  (operation (w0 q) = CLOSE \/ operation (w0 q) = BIND ->
     forall b r, 0 <= b -> slot_of (bindings s) b = Bound r -> r = ROOT \/ r <> req_handle (w0 q)) /\
  (operation (w0 q) = BIND -> owners s !! Z.to_nat (req_handle (w0 q)) = Some 0).
Proof.
  intros Hd Ho. destruct (Hd Ho) as [H1 H2]. split; [|done]. intros Hc b r Hb Hs.
  destruct (decide (r = req_handle (w0 q))) as [->|]; [|by right].
  destruct (H1 Hc) as [|Hall]; [by left|]. exfalso. rewrite Forall_forall in Hall. unfold slot_of in Hs.
  destruct (b =? 0); [done|]. destruct (state (bindings s) !! Z.to_nat b) as [x|] eqn:Hx; [|done]. simpl in Hs. subst x.
  eapply Hall; [|done]. by eapply list_elem_of_lookup_2.
Qed.

(** Whether a name in the directory behind a handle is that of a directory some handle
    is open on, and whether two names lead to the same. *)
Definition names_open (s : Server ES) (h : Z) (nm : list Z) : bool :=
  match slot_entry s (Z.to_nat h) with
  | Some (Dir p _) =>
      match name_at (image (fs s)) p nm with Some (q, Kind.Directory) => bool_decide (q ∈ open_dirs s) | _ => false end
  | _ => false
  end.

Definition name_of (s : Server ES) (h : Z) (nm : list Z) : option (Z * Kind.t) :=
  match slot_entry s (Z.to_nat h) with Some (Dir p _) => name_at (image (fs s)) p nm | _ => None end.

(** The request takes no directory away that a handle is open on: it is no RMDIR of one,
    and no RENAME of another over one. *)
Definition spares (s : Server ES) (q : Request) : bool :=
  let code := operation (w0 q) in
  let len := Z.min (req_len (w0 q)) BLOCK in
  match admitted code q s with
  | Done (Ok h, _) =>
      if code =? RMDIR then negb (names_open s h (page q len))
      else if code =? RENAME then
        match server_admit (badge q) (dst_handle (w1 q)) s with
        | Done (Ok to, _) =>
            let dst := drop (Z.to_nat len) (page q (len + dst_len (w1 q))) in
            bool_decide (name_of s to dst = name_of s h (page q len)) || negb (names_open s to dst)
        | _ => true
        end
      else true
  | _ => true
  end.

Lemma names_open_spares s h nm p r : names_open s h nm = false -> slot_entry s (Z.to_nat h) = Some (Dir p r) -> may_go (open_dirs s) (fs s) p nm.
Proof. unfold names_open, may_go. intros Hn Hh _ q Hq. rewrite Hh, Hq in Hn. by apply bool_decide_eq_false in Hn. Qed.

Definition request_ok (q : Request) : Prop := 0 <= badge q /\ 0 <= w1 q.
#[global] Instance request_ok_dec q : Decision (request_ok q).
Proof. unfold request_ok. apply _. Defined.

(** What a request leaves behind. *)
Definition step_ok (hist : list ES) (s s' : Server ES) : Prop :=
  core s' /\ ginv (image (fs s') :: hist) s' /\ clock s <= clock s' <= clock s + 1 /\
  (length (handles s') <= length (handles s) + 1)%nat.

Lemma step_ok_settled hist s s' :
  core s' -> ginv hist s' -> clock s <= clock s' <= clock s + 1 ->
  (length (handles s') <= length (handles s) + 1)%nat -> step_ok hist s s'.
Proof.
  intros Hc Hg Hk Hl. split; [done|]. split; [|done].
  by apply ginv_grow.
Qed.

Lemma step_ok_quiet hist s s' :
  ginv hist s -> core s' -> same_grants s s' -> ways_kept s s' -> clock s <= clock s' <= clock s + 1 -> step_ok hist s s'.
Proof.
  intros Hg Hc Hs Hw Hk. split; [done|]. split; [|split; [done|destruct Hs as (-> & _); lia]].
  apply ginv_grow; [done|]. by eapply ginv_same.
Qed.

Lemma step_ok_same hist s : ginv hist s -> core s -> step_ok hist s s.
Proof. intros Hg Hc. apply step_ok_quiet; [done|done|done|by apply ways_kept_refl|lia]. Qed.

Lemma step_ok_settles {A} hist (m : M A) s : ginv hist s -> settles 1 m s -> exists r s', m s = Done (r, s') /\ step_ok hist s s'.
Proof. intros Hg (r & s' & Hm & Hc & Hs & Hw & Hk). exists r, s'. split; [done|]. apply step_ok_quiet; (done || lia). Qed.

Lemma scoped_root_close_spec code q s :
  0 <= badge q ->
  scoped_root_close code q s =
    Done (Ok ((code =? CLOSE) && (req_handle (w0 q) =? ROOT) &&
              bool_decide (slot_of (bindings s) (badge q) <> Open)), s).
Proof.
  intros Hb. unfold scoped_root_close, scoped, bindM, binding, ret.
  destruct ((code =? CLOSE) && (req_handle (w0 q) =? ROOT)); [|done].
  by rewrite (binding_of_slot _ _ Hb).
Qed.

Lemma admitted_spec hist s q :
  ginv hist s -> request_ok q ->
  (exists e, admitted (operation (w0 q)) q s = Done (Err e, s)) \/
  (exists h, admitted (operation (w0 q)) q s = Done (Ok h, s) /\
    ((operation (w0 q) = BIND \/ operation (w0 q) = UNBIND) /\ h = req_handle (w0 q) \/
     operation (w0 q) <> BIND /\ operation (w0 q) <> UNBIND /\ reach s (badge q) h /\
     (operation (w0 q) = CLOSE ->
        slot_of (bindings s) (badge q) = Open /\ h = req_handle (w0 q) \/
        badge q <> 0 /\ owners s !! Z.to_nat h = Some (badge q)))).
Proof.
  intros Hg [Hb _]. pose proof (req_handle_range (w0 q)) as Hraw. unfold admitted.
  set (code := operation (w0 q)). set (raw := req_handle (w0 q)) in *.
  destruct ((code =? BIND) || (code =? UNBIND)) eqn:Hctl.
  { right. exists raw. split; [unfold ret; by rewrite wrap32_small|]. left. split; [|done].
    apply orb_true_iff in Hctl as [Hx|Hx]; apply Z.eqb_eq in Hx; auto. }
  apply orb_false_iff in Hctl as [Hnb Hnu]. rewrite Z.eqb_neq in Hnb, Hnu.
  unfold bindM. rewrite scoped_root_close_spec by done. fold raw.
  destruct ((code =? CLOSE) && (raw =? ROOT) && _) eqn:Hrc; [left; by eexists|].
  destruct (server_admit_spec hist s (badge q) raw Hg Hb Hraw) as [[e He]|(h & He & Hr & Hopen & Hown)].
  { left. exists e. exact He. }
  right. exists h. split; [exact He|]. right. split; [done|]. split; [done|]. split; [done|].
  intros Hcl. destruct (decide (slot_of (bindings s) (badge q) = Open)) as [Ho|Ho]; [left; auto|right].
  rewrite Hcl, Z.eqb_refl, bool_decide_true, andb_true_r in Hrc by done. cbn [andb] in Hrc. apply Z.eqb_neq in Hrc.
  split; [intros Heq; by rewrite Heq in Ho|]. by apply Hown.
Qed.

Lemma dispatch_close flush h q : dispatch flush CLOSE h q = reply_unit q (close h).
Proof. done. Qed.
Lemma dispatch_bind flush h q : dispatch flush BIND h q = reply_unit q (server_bind (badge q) h (w1 q)).
Proof. done. Qed.
Lemma dispatch_unbind flush h q : dispatch flush UNBIND h q = reply_unit q (server_unbind (badge q) (w1 q)).
Proof. done. Qed.

Lemma dispatch_mints flush code h q :
  mints code = true ->
  exists m, minting m h /\
    (dispatch flush code h q = reply_word q m \/
     dispatch flush code h q = reply_word q (fail EINVAL)).
Proof.
  unfold mints. rewrite !orb_true_iff, !Z.eqb_eq. unfold dispatch, named.
  intros [[[->| ->]| ->]| ->].
  - exists (open_file_path h (page q (Z.min (req_len (w0 q)) BLOCK)) (w1 q)). split; [apply mint_open_file|].
    simpl. case_match; auto.
  - exists (open_dir h (page q (Z.min (req_len (w0 q)) BLOCK)) (w1 q)). split; [apply mint_open_dir|].
    simpl. case_match; auto.
  - exists (create_file_at h (page q (Z.min (req_len (w0 q)) BLOCK))). split; [apply mint_create_file|].
    simpl. case_match; auto.
  - exists (make_dir h (page q (Z.min (req_len (w0 q)) BLOCK)) (w1 q)). split; [apply mint_make_dir|].
    simpl. case_match; auto.
Qed.

Lemma step_ok_closed hist s h q :
  ginv hist s -> core s -> clock s + 1 < 2 ^ 64 -> 0 <= h ->
  (h <> ROOT -> forall b r, 0 <= b -> slot_of (bindings s) b = Bound r -> Z.to_nat r <> Z.to_nat h) ->
  exists r s', reply_unit q (close h) s = Done (r, s') /\ step_ok hist s s'.
Proof.
  intros Hg Hc Hk Hh Hroots. unfold reply_unit, bindM, ret.
  destruct (close_spec h s Hc) as (r & s' & -> & Hc' & Hkn%names_kept_ways & Hck & Ho & Hb & Hcase); [lia|].
  exists (match r with Ok _ => Ok (0, win q) | Err e => Err e end), s'. split; [by destruct r|].
  destruct Hcase as [[Hsame _]|(Hne & _ & Hgone)].
  - apply step_ok_quiet; [done|done|by split_and!|done|lia].
  - apply step_ok_settled; [done| |lia|rewrite Hgone, length_insert; lia].
    apply (ginv_clear hist s s' (Z.to_nat h)); eauto. unfold ROOT in Hne. lia.
Qed.

(** A name taken from the window: a refusal, or the verb. *)
Lemma settles_named {A} k l (f : list Z -> M A) s : core s -> settles k (f l) s -> settles k (named l f) s.
Proof. intros Hc Hf. unfold named. destruct (utf8_valid l); [done|]. exists (Err EINVAL), s. split_and!; [done|done|done|by apply ways_kept_refl|lia|lia]. Qed.

Lemma rmdir_step hist s flush h q :
  ginv hist s -> core s -> clock s + 1 < 2 ^ 64 -> names_open s h (page q (Z.min (req_len (w0 q)) BLOCK)) = false ->
  exists r s', dispatch flush RMDIR h q s = Done (r, s') /\ step_ok hist s s'.
Proof.
  intros Hg Hc Hk Hno. apply step_ok_settles; [done|].
  change (settles 1 (reply_unit q (named (page q (Z.min (req_len (w0 q)) BLOCK)) (rmdir h))) s).
  apply settles_reply_unit; [|lia]. apply settles_named; [done|]. apply settles_remove; [done|]. intros _ p r Hp. by eapply names_open_spares.
Qed.

Lemma rename_step hist s flush h q :
  ginv hist s -> core s -> clock s + 1 < 2 ^ 64 -> request_ok q ->
  (forall to, server_admit (badge q) (dst_handle (w1 q)) s = Done (Ok to, s) ->
     let dst := drop (Z.to_nat (Z.min (req_len (w0 q)) BLOCK)) (page q (Z.min (req_len (w0 q)) BLOCK + dst_len (w1 q))) in
     name_of s to dst = name_of s h (page q (Z.min (req_len (w0 q)) BLOCK)) \/ names_open s to dst = false) ->
  exists r s', dispatch flush RENAME h q s = Done (r, s') /\ step_ok hist s s'.
Proof.
  intros Hg Hc Hk [Hb _] Hsp. apply step_ok_settles; [done|].
  assert (Hfail : forall e, settles 1 (@fail ES (Z * list Z) e) s) by (intros e; by apply quiet_fail; [|lia]).
  change (settles 1 (if BLOCK <? Z.min (req_len (w0 q)) BLOCK + dst_len (w1 q) then fail EINVAL else
     named (page q (Z.min (req_len (w0 q)) BLOCK)) (fun src =>
       named (drop (Z.to_nat (Z.min (req_len (w0 q)) BLOCK)) (page q (Z.min (req_len (w0 q)) BLOCK + dst_len (w1 q))))
         (fun dst => bindM (server_admit (badge q) (dst_handle (w1 q)))
                       (fun to => reply_unit q (rename h src to dst))))) s).
  destruct (BLOCK <? _); [apply Hfail|]. apply settles_named; [done|]. apply settles_named; [done|].
  destruct (server_admit_spec hist s (badge q) (dst_handle (w1 q)) Hg Hb (req_handle_range (w1 q)))
    as [[e He]|(to & He & _)]; unfold settles, bindM; rewrite He; [apply Hfail|].
  apply settles_reply_unit; [|lia]. apply settles_rename; [done|]. intros d r d' r' Hd Hd' Hne.
  destruct (Hsp to He) as [Hsame|Hno]; [|by eapply names_open_spares].
  unfold name_of in Hsame. by rewrite Hd, Hd' in Hsame.
Qed.

(** What a minting verb leaves: an error and nothing, or a handle nobody owns yet. *)
Definition minted_step (hist : list ES) (q : Request) (h : Z) (s : Server ES) (r : result Z (Z * list Z)) (s' : Server ES) : Prop :=
  (exists e, r = Err e) /\ step_ok hist s s' \/
  core s' /\ ways_kept s s' /\ clock s <= clock s' <= clock s + 1 /\
  exists i e d0 r0 w, r = Ok (wrap 32 (Z.of_nat i), w) /\ installed s s' i e /\ reach s (badge q) h /\
    slot_entry s (Z.to_nat h) = Some (Dir d0 r0) /\ inside [image (fs s')] (image (fs s')) d0 r0 e.

Lemma mint_step hist s flush q h :
  ginv hist s -> core s -> clock s + 1 < 2 ^ 64 -> mints (operation (w0 q)) = true -> reach s (badge q) h ->
  exists r s', dispatch flush (operation (w0 q)) h q s = Done (r, s') /\ minted_step hist q h s r s'.
Proof.
  intros Hg Hc Hk Hmint Hreach. destruct (dispatch_mints flush _ h q Hmint) as (m & Hm & [-> | ->]).
  2: { exists (Err EINVAL), s. split; [done|]. left. split; [by eexists|by apply step_ok_same]. }
  destruct (Hm s Hc (g_len _ _ Hg) Hk) as (r & s' & Hms & Hc' & Hw & Hck & Hres). unfold reply_word, bindM, ret. rewrite Hms.
  destruct Hres as [[[e ->] Hs]|(i & e & d0 & r0 & -> & Hinst & Hse & Hin)].
  - exists (Err e), s'. split; [done|]. left. split; [by eexists|by apply step_ok_quiet].
  - eexists _, s'. split; [done|]. right. split; [done|]. split; [done|]. split; [done|]. eauto 12.
Qed.

Lemma close_step hist s flush q h :
  ginv hist s -> core s -> clock s + 1 < 2 ^ 64 -> disciplined s q -> operation (w0 q) = CLOSE -> reach s (badge q) h ->
  (slot_of (bindings s) (badge q) = Open /\ h = req_handle (w0 q) \/ badge q <> 0 /\ owners s !! Z.to_nat h = Some (badge q)) ->
  exists r s', dispatch flush CLOSE h q s = Done (r, s') /\ step_ok hist s s'.
Proof.
  intros Hg Hc Hk Hdisc Hop Hreach Hclose. rewrite dispatch_close.
  apply step_ok_closed; [done|done|done|apply Hreach|]. intros Hne b r Hbb Hs.
  destruct (g_grant _ _ Hg b r Hbb Hs) as (Hr & Hor & _). intros Heq. destruct Hclose as [[Ho ->]|[Hnz Hown]].
  - destruct (disciplined_spec s q Hdisc Ho) as [Hd _]. destruct (Hd ltac:(auto) b r Hbb Hs) as [-> |Hne']; pose proof (req_handle_range (w0 q)); unfold ROOT in *; lia.
  - rewrite <- Heq in Hown. congruence.
Qed.

Lemma bind_step hist s flush q :
  ginv hist s -> core s -> request_ok q -> disciplined s q -> operation (w0 q) = BIND ->
  exists r s', dispatch flush BIND (req_handle (w0 q)) q s = Done (r, s') /\ step_ok hist s s'.
Proof.
  intros Hg Hc [Hb Hw1] Hdisc Hop. rewrite dispatch_bind. unfold reply_unit, bindM, ret.
  destruct (server_bind_spec hist s (badge q) (req_handle (w0 q)) (w1 q))
    as (r & s' & -> & Hc' & Hg' & Hh & _ & Hck); [done|done|done|done|apply req_handle_range| |].
  { intros Ho. destruct (disciplined_spec s q Hdisc Ho) as [Hd1 Hd2]. split; [by apply Hd2|]. apply Hd1. auto. }
  eexists (match r with Ok _ => Ok (0, win q) | Err e => Err e end), s'. split; [by destruct r|].
  apply step_ok_settled; [done|done|lia|rewrite Hh; lia].
Qed.

Lemma unbind_step hist s flush q h :
  ginv hist s -> core s -> clock s + 1 < 2 ^ 64 -> request_ok q ->
  exists r s', dispatch flush UNBIND h q s = Done (r, s') /\ step_ok hist s s'.
Proof.
  intros Hg Hc Hk [Hb Hw1]. rewrite dispatch_unbind. unfold reply_unit, bindM, ret.
  destruct (server_unbind_spec hist s (badge q) (w1 q)) as (r & s' & -> & Hc' & Hg' & _ & Hh & Hck); [done|done|lia|done|done|].
  eexists (match r with Ok _ => Ok (0, win q) | Err e => Err e end), s'. split; [by destruct r|].
  apply step_ok_settled; [done|done|lia|rewrite Hh; lia].
Qed.

(** Every admitted request: one that mints nothing is done with, one that mints may
    have a handle to be claimed. *)
Lemma dispatch_step hist s flush q h :
  ginv hist s -> core s -> clock s + 1 < 2 ^ 64 -> request_ok q -> disciplined s q -> spares s q = true ->
  admitted (operation (w0 q)) q s = Done (Ok h, s) ->
  exists r s', dispatch flush (operation (w0 q)) h q s = Done (r, s') /\
    (if mints (operation (w0 q)) then minted_step hist q h s r s' else step_ok hist s s').
Proof.
  intros Hg Hc Hk Hq Hdisc Hsp Hadm. unfold spares in Hsp. rewrite Hadm in Hsp.
  destruct (admitted_spec hist s q Hg Hq) as [[e He]|(h' & Hh' & Hcase)]; [congruence|].
  assert (h' = h) as -> by congruence. clear Hh'. destruct (mints (operation (w0 q))) eqn:Hmint.
  { destruct Hcase as [[[Hx|Hx] _]|(_ & _ & Hreach & _)]; [by rewrite Hx in Hmint|by rewrite Hx in Hmint|]. by apply mint_step. }
  destruct (granting (operation (w0 q))) eqn:Hgr.
  2: { apply step_ok_settles; [done|]. by apply dispatch_quiet; [|done|lia]. }
  unfold granting in Hgr. rewrite Hmint in Hgr. cbn [orb] in Hgr. rewrite !orb_true_iff, !Z.eqb_eq in Hgr.
  destruct Hgr as [[[[Hx|Hx]|Hx]|Hx]|Hx]; rewrite Hx in Hcase, Hsp |- *.
  - destruct Hcase as [[[?|?] _]|(_ & _ & Hreach & Hclose)]; [done|done|]. apply close_step; auto.
  - destruct Hcase as [[_ ->]|(? & _)]; [|done]. by apply bind_step.
  - by apply unbind_step.
  - apply rename_step; [done|done|done|done|]. intros to Hto. cbn in Hsp. rewrite Hto in Hsp. apply orb_true_iff in Hsp as [Hs|Hs]; [left; by apply bool_decide_eq_true in Hs|right; by apply negb_true_iff].
  - apply rmdir_step; [done|done|done|]. by apply negb_true_iff.
Qed.

(** The new handle becomes the badge's own, when the badge has a grant. *)
Lemma claim_step hist s s' b h i e d0 r0 :
  ginv hist s -> 0 <= b -> core s' -> ways_kept s s' -> clock s <= clock s' <= clock s + 1 ->
  Z.of_nat (length (handles s)) < 2 ^ 32 -> installed s s' i e -> reach s b h ->
  slot_entry s (Z.to_nat h) = Some (Dir d0 r0) -> inside [image (fs s')] (image (fs s')) d0 r0 e ->
  exists u s3, claim (wrap 32 (wrap 32 (Z.of_nat i))) b s' = Done (u, s3) /\ step_ok hist s s3 /\ clock s3 = clock s'.
Proof.
  intros Hg Hb Hc' Hw Hk Hlen Hinst Hreach Hse Hins. pose proof (ginv_installed _ _ _ _ _ Hg Hinst Hw) as Hg'.
  destruct Hinst as (Hfree & Hnew & Ho & Hsame & Hlo & Hlh & Hi & Hbd).
  unfold claim, bindM, binding. rewrite (binding_of_slot _ _ Hb), Hbd. cbn [mbind run_bind].
  rewrite (wrap_small 32 (Z.of_nat i)), (wrap_small 32 (Z.of_nat i)), Nat2Z.id by (unfold in_width; lia).
  destruct (is_bound _) eqn:Hbound; cbn [andb].
  2: { exists (Ok tt), s'. split; [done|]. split; [|done]. apply step_ok_settled; [done|done|lia|lia]. }
  rewrite bool_decide_true by (by apply lookup_lt_Some in Ho).
  eexists _, _. split; [done|]. split; [|done].
  destruct (slot_of (bindings s) b) as [|r|] eqn:Hs; try done.
  destruct (reach_inside _ _ _ _ _ Hg Hb Hreach ltac:(congruence) Hse) as (r' & p & rr & Hr' & Hp & Hip).
  assert (r' = r) as -> by congruence. clear Hr'.
  assert (Hroot : forall b' r', 0 <= b' -> slot_of (bindings s) b' = Bound r' -> Z.to_nat r' <> i).
  { intros b' r' Hb' Hs'. destruct (g_grant _ _ Hg b' r' Hb' Hs') as (_ & _ & ? & ? & ?). congruence. }
  split; [destruct Hc'; by constructor|]. split; [|simpl; split; lia].
  eapply (ginv_claim _ s' _ i b r p rr e); try done.
  - by apply (ginv_grow hist s').
  - intros ->. done.
  - intros ->. destruct (g_zero _ _ Hg) as [[? ?] _]. congruence.
  - by rewrite Hbd.
  - rewrite <- Hp. apply Hsame. by eapply Hroot.
  - eapply inside_trans; [|exact Hins]. by eapply inside_kept.
  - by rewrite Hbd.
Qed.

(** Reading the size back changes nothing. *)
Lemma fstat_reads h s : exists r, fstat h s = Done (r, s).
Proof.
  unfold fstat, file_at, entry, bindM, gets, ret, fail, look.
  destruct (ok_or _ EBADF) as [[ptr r|ptr r]|e]; [by eexists| |by eexists].
  destruct (allows r 0); [|by eexists]. destruct (file (memo s) ptr); by eexists.
Qed.

Lemma reply_size_reads code r s : exists n, reply_size code r s = Done (Ok n, s).
Proof.
  unfold reply_size. destruct r as [[h w]|e]; [|by eexists]. destruct (code =? OPEN); [|by eexists].
  destruct (fstat_reads (wrap 32 h) s) as [[n|e] ->]; by eexists.
Qed.

(** One request is answered, and leaves every grant as confined as it was. *)
Lemma serve_step hist s flush q :
  ginv hist s -> core s -> clock s + 1 < 2 ^ 64 ->
  Z.of_nat (length (handles s)) < 2 ^ 32 -> request_ok q -> disciplined s q -> spares s q = true ->
  exists w0 w1 win s', serve flush q s = Done (w0, w1, win, s') /\ step_ok hist s s'.
Proof.
  intros Hg Hc Hk Hlen Hq Hdisc Hsp. unfold serve.
  destruct (admitted_spec hist s q Hg Hq) as [[e ->]|(h & Hadm & _)].
  { eexists _, _, _, s. split; [done|]. by apply step_ok_same. }
  rewrite Hadm. destruct (dispatch_step hist s flush q h Hg Hc Hk Hq Hdisc Hsp Hadm) as (r & s2 & -> & Hcase).
  assert (Hmid : exists u s3, claim_minted (operation (w0 q)) q r s2 = Done (u, s3) /\ step_ok hist s s3).
  { unfold claim_minted. destruct (mints (operation (w0 q))).
    - destruct Hcase as [[[e ->] Hok]|(Hc2 & Hw & Hk2 & i & e & d0 & r0 & w & -> & Hinst & Hreach & Hse & Hins)]; [by eexists _, s2|].
      destruct (claim_step hist s s2 (badge q) h i e d0 r0) as (u & s3 & ? & ? & _); try done; [apply Hq|eauto].
    - exists (Ok tt), s2. by destruct r as [[h' w]|e]. }
  destruct Hmid as (u & s3 & -> & Hok). destruct (reply_size_reads (operation (w0 q)) r s3) as [n ->].
  destruct r as [[r0 w]|e]; eexists _, _, _, s3; (split; [done|exact Hok]).
Qed.

(** ** A run of the server *)

(** The requests one after another, each with the block server's answer to a
    flush. *)
Fixpoint serve_all (qs : list (Z * Request)) (s : Server ES) : run (Server ES) :=
  match qs with
  | [] => Done s
  | (flush, q) :: qs' => r ← serve flush q s; serve_all qs' r.2
  end.

(** The images the server goes through. *)
Fixpoint images (qs : list (Z * Request)) (s : Server ES) : list ES :=
  image (fs s) :: match qs with
                  | [] => []
                  | (flush, q) :: qs' => match serve flush q s with Done r => images qs' r.2 | Panicked => [] end
                  end.

(** Every request of the run is a 64-bit one, keeps to the binder's rules, and takes
    away no directory a handle is open on. *)
Fixpoint orderly (qs : list (Z * Request)) (s : Server ES) : Prop :=
  match qs with
  | [] => True
  | (flush, q) :: qs' =>
      request_ok q /\ disciplined s q /\ spares s q = true /\
      match serve flush q s with Done r => orderly qs' r.2 | Panicked => True end
  end.

#[global] Instance orderly_dec qs s : Decision (orderly qs s).
Proof.
  revert s. induction qs as [|[flush q] qs IH]; intros s; cbn [orderly]; [apply _|].
  destruct (serve flush q s) as [r|]; apply _.
Defined.

Lemma ginv_open_server es : ginv [es] (open_server es).
Proof.
  assert (Hno : forall b r, 0 <= b -> slot_of (new CLIENT_WINDOWS) b <> Bound r).
  { intros b r Hb. unfold slot_of. destruct (b =? 0); [done|]. unfold new; simpl state.
    match goal with |- context [?l !! ?i] => destruct (l !! i) eqn:Hl end; [|done].
    apply list_elem_of_lookup_2 in Hl. repeat (apply elem_of_cons in Hl as [->|Hl]; [done|]). by apply elem_of_nil in Hl. }
  constructor; simpl; try done.
  - apply Nat.ltb_lt. reflexivity.
  - intros b r Hb Hs. by apply Hno in Hs.
  - intros b b' r Hb _ Hs. by apply Hno in Hs.
  - intros [|h] b e Ho; [by injection Ho as <-|done].
Qed.

Lemma core_open_server es : sound es -> store_ok es -> core (open_server es).
Proof.
  intros Hs Hst. constructor; simpl; [apply empty_memo_inv|apply (forget_agrees _ _ empty_memo)| |].
  - constructor; [done|done|]. intros q ->%list_elem_of_singleton. by left.
  - intros p. unfold uses. rewrite lookup_empty. cbn. unfold no_more. lia.
Qed.

Lemma run_spec h0 qs s :
  ginv (image (fs s) :: h0) s -> core s -> orderly qs s ->
  clock s + Z.of_nat (length qs) < 2 ^ 64 -> Z.of_nat (length (handles s) + length qs) < 2 ^ 32 ->
  exists s', serve_all qs s = Done s' /\ core s' /\ ginv (reverse (images qs s) ++ h0) s'.
Proof.
  revert h0 s. induction qs as [|[flush q] qs IH]; intros h0 s Hg Hc Ho Hk Hl; [by exists s|].
  destruct Ho as (Hq & Hd & Hsp & Ho). cbn [length] in Hk, Hl. cbn [serve_all images].
  destruct (serve_step _ s flush q Hg Hc) as (r0 & r1 & w & s1 & Hs & Hc1 & Hg1 & Hk1 & Hl1); [lia|lia|done|done|done|].
  rewrite Hs in Ho |- *. cbn [mbind run_bind snd] in *.
  destruct (IH (image (fs s) :: h0) s1 Hg1 Hc1 Ho) as (s' & -> & Hc' & Hg'); [lia|lia|].
  exists s'. split; [done|]. split; [done|]. by rewrite reverse_cons, <- (assoc_L (++)).
Qed.

(** A run from a fresh server. *)
Lemma fresh_run_spec es qs : sound es -> store_ok es -> orderly qs (open_server es) -> Z.of_nat (length qs) < 2 ^ 32 - 1 ->
  exists s, serve_all qs (open_server es) = Done s /\ core s /\ ginv (reverse (images qs (open_server es))) s.
Proof.
  intros Hs Hst Ho Hl. rewrite <- (app_nil_r (reverse _)).
  apply run_spec; [apply ginv_open_server|by apply core_open_server|done|simpl; lia|simpl; lia].
Qed.

(** C15: The server keeps every client inside its grant. From a fresh server over a
    consistent image, after any run of requests in which the binder keeps to its rules and
    no directory is removed while a handle to it is open, the server has not panicked,
    and whatever handle a bound badge is admitted to carries no right its grant does
    not, and names a directory that names lead down to, in the image as it is now, from the
    directory the badge was bound to, or a file that was under that directory in an
    image of the run and has not been freed since. *)
Theorem clients_stay_in_their_grants es qs b raw h e :
  sound es -> store_ok es ->
  orderly qs (open_server es) -> Z.of_nat (length qs) < 2 ^ 32 - 1 -> 0 <= b -> 0 <= raw < 2 ^ 16 ->
  exists s, serve_all qs (open_server es) = Done s /\
    (slot_of (bindings s) b <> Open -> server_admit b raw s = Done (Ok h, s) ->
     slot_entry s (Z.to_nat h) = Some e ->
     exists r p rr, slot_of (bindings s) b = Bound r /\ slot_entry s (Z.to_nat r) = Some (Dir p rr) /\
       inside (reverse (images qs (open_server es))) (image (fs s)) p rr e).
Proof.
  intros Hsd Hst Ho Hl Hb Hraw. destruct (fresh_run_spec es qs Hsd Hst Ho Hl) as (s & Hs & Hc & Hg).
  exists s. split; [done|]. intros Hno Hadm He.
  destruct (server_admit_spec _ _ b raw Hg Hb Hraw) as [[? Hx]|(h' & Hx & Hr & _)]; [congruence|].
  assert (h' = h) as -> by congruence. by eapply reach_inside.
Qed.

(** C28: The memo never answers for the engine: after any run of the server over a
    consistent image, in which the binder keeps to its rules and no directory is removed while a
    handle to it is open, a name looked up through the memo gets exactly what the
    engine says of it, the attribute store's own name apart. *)
Theorem cached_lookup_is_the_engines es qs d nm :
  sound es -> store_ok es ->
  orderly qs (open_server es) -> Z.of_nat (length qs) < 2 ^ 32 - 1 -> nm <> STORE_DIR ->
  exists s, serve_all qs (open_server es) = Done s /\
    (lookup d nm s).2 = names_in (image (fs s)) d nm /\ fs (lookup d nm s).1 = fs s.
Proof.
  intros Hsd Hst Ho Hl Hnm. destruct (fresh_run_spec es qs Hsd Hst Ho Hl) as (s & Hs & Hc & Hg).
  exists s. split; [done|]. destruct (lookup_spec _ d nm s Hc Hnm) as (m & -> & _). done.
Qed.

End confinement.

Import TreeEngine.

(** ** Small runs

    Over [TreeEngine]. The root is node 1; node 2 is the directory a, with the file f
    (node 3); node 4 is the directory b. *)
Definition house : Tree :=
  MkTree {[ (1, [97]) := 2; (2, [102]) := 3; (1, [98]) := 4 ]} {[ 1 := true; 2 := true; 3 := false; 4 := true ]}.
Definition ask (op h len arg b : Z) (name : list Z) : Z * Request := (0, MkRequest (req op h len) arg b name).

Lemma house_names k p : names house !! k = Some p -> (k, p) = (1, [97], 2) \/ (k, p) = (2, [102], 3) \/ (k, p) = (1, [98], 4).
Proof.
  unfold house. cbn [names]. intros Hp. apply lookup_insert_Some in Hp as [[<- <-]|[_ Hp]]; [by left|].
  apply lookup_insert_Some in Hp as [[<- <-]|[_ Hp]]; [right; by left|]. apply lookup_singleton_Some in Hp as [<- <-]. right. by right.
Qed.

Lemma house_sound : sound house.
Proof.
  constructor; [reflexivity| | | |].
  - intros k [Hk|[Hk|Hk]]%house_names; discriminate Hk.
  - intros k p [Hk|[Hk|Hk]]%house_names; injection Hk as -> ->; by eexists.
  - intros d nm p [Hk|[Hk|Hk]]%house_names; injection Hk as -> -> ->; reflexivity.
  - intros k k' p [Hk|[Hk|Hk]]%house_names [Hk'|[Hk'|Hk']]%house_names; congruence.
Qed.

Lemma house_store : store_ok house.
Proof. intros st k Hst. vm_compute in Hst. discriminate Hst. Qed.

(** The binder opens a, binds badge 1 to it; the badge opens f. *)
Definition errands : list (Z * Request) :=
  [ask OPENDIR 0 1 ALL 0 [97]; ask BIND 1 0 1 0 []; ask OPEN 0 1 SubtreeScope.READ 1 [102]].

Definition after (qs : list (Z * Request)) (es : Tree) : Server Tree :=
  match serve_all qs (open_server es) with Done s => s | Panicked => open_server es end.

Lemma clients_stay_in_their_grants_witness :
  orderly errands (open_server house) /\
  let s := after errands house in
  serve_all errands (open_server house) = Done s /\ slot_entry s 2 = Some (File 3 (MkRights 6)) /\
  exists r p rr, slot_of (bindings s) 1 = Bound r /\ slot_entry s (Z.to_nat r) = Some (Dir p rr) /\
    inside (reverse (images errands (open_server house))) (image (fs s)) p rr (File 3 (MkRights 6)).
Proof.
  assert (Ho : orderly errands (open_server house)) by vm_decide.
  split; [exact Ho|]. cbv zeta.
  destruct (clients_stay_in_their_grants house errands 1 2 2 (File 3 (MkRights 6)) house_sound house_store Ho) as (s & Hs & Hin);
    [reflexivity|lia|lia|].
  assert (Ha : after errands house = s) by (unfold after; by rewrite Hs). rewrite Ha.
  assert (He : slot_entry s 2 = Some (File 3 (MkRights 6))) by (rewrite <- Ha; vm_compute; reflexivity).
  split; [exact Hs|]. split; [exact He|]. apply Hin; [|rewrite <- Ha; vm_compute; reflexivity|exact He].
  rewrite <- Ha. vm_compute. discriminate.
Defined.

Lemma cached_lookup_is_the_engines_witness :
  orderly errands (open_server house) /\ [102] <> STORE_DIR /\
  memo_lookup (memo (after errands house)) 2 [102] = Some (Some (3, Kind.File)) /\
  (lookup 2 [102] (after errands house)).2 = names_in (image (fs (after errands house))) 2 [102].
Proof.
  assert (Ho : orderly errands (open_server house)) by vm_decide.
  assert (Hn : [102] <> STORE_DIR) by vm_decide.
  destruct (cached_lookup_is_the_engines house errands 2 [102] house_sound house_store Ho) as (s & Hs & Hl & _); [reflexivity|exact Hn|].
  split; [exact Ho|]. split; [exact Hn|]. split; [vm_compute; reflexivity|].
  assert (Ha : after errands house = s) by (unfold after; by rewrite Hs). rewrite Ha. exact Hl.
Defined.

(** ** What the conditions are for *)

(** No way leads down from a directory with nothing but files in it. *)
Lemma only_files t a c : (forall nm p, names t !! (a, nm) = Some p -> nodes t !! p = Some false) -> a <> c -> ~ rtc (edge_in t) a c.
Proof.
  intros Hf Hne Hr. apply rtc_inv in Hr as [Hx|(y & (nm & _ & _ & Hn) & _)]; [done|]. rewrite name_at_tree in Hn.
  destruct (leads t a nm) as [[p dir]|] eqn:Hl; [|done]. apply found_Some in Hl as [Hl Hd]. rewrite (Hf nm p Hl) in Hd. by injection Hd as <-.
Qed.

(** The same handle bound to two badges, one of them unbound, and the freed
    handle opened again on b. *)
Definition sharing : list (Z * Request) :=
  [ask OPENDIR 0 1 ALL 0 [97]; ask BIND 1 0 1 0 []; ask BIND 1 0 2 0 [];
   ask UNBIND 0 0 1 0 []; ask OPENDIR 0 1 ALL 0 [98]].

(** A handle bound to two badges outlives neither: [BIND] takes a handle
    that is another badge's root already, [UNBIND] of one badge closes it under
    the other, and the next directory opened takes the slot. Badge 2 was bound
    to the directory a (node 2); all five requests are answered without error
    and its root is then the directory b (node 4), which a does not lead to. *)
Theorem shared_root_is_handed_on :
  exists s1 s2,
    serve_all (take 3 sharing) (open_server house) = Done s1 /\
    slot_of (bindings s1) 2 = Bound 1 /\ slot_entry s1 1 = Some (Dir 2 (MkRights ALL)) /\
    serve_all (drop 3 sharing) s1 = Done s2 /\
    slot_of (bindings s2) 2 = Bound 1 /\ server_admit 2 ROOT s2 = Done (Ok 1, s2) /\
    slot_entry s2 1 = Some (Dir 4 (MkRights ALL)) /\ image (fs s2) = house /\
    ~ rtc (edge_in house) 2 4.
Proof.
  exists (after (take 3 sharing) house), (after sharing house).
  do 7 (split; [vm_compute; reflexivity|]). split; [vm_compute; reflexivity|].
  apply only_files; [|done]. intros nm p [Hk|[Hk|Hk]]%house_names; [done| |done]. by injection Hk as -> ->.
Qed.

(** Badge 1, bound to a, makes the directory x in it and keeps the handle, and removes
    x again; the binder makes the directory y in the root. *)
Definition reusing : list (Z * Request) :=
  [ask OPENDIR 0 1 ALL 0 [97]; ask BIND 1 0 1 0 []; ask MKDIR 0 1 ALL 1 [120]; ask RMDIR 0 1 0 1 [120];
   ask MKDIR 0 1 ALL 0 [121]].

(** A directory can be removed while a handle to it is open, and the handle then
    names whatever takes the node: badge 1's handle on x (node 5) is a handle on y once
    the binder has made y, with every right, and a, which is all badge 1 was granted,
    does not lead to y. *)
Theorem removed_directory_is_handed_on :
  exists s1 s2,
    serve_all (take 3 reusing) (open_server house) = Done s1 /\
    server_admit 1 2 s1 = Done (Ok 2, s1) /\ slot_entry s1 2 = Some (Dir 5 (MkRights ALL)) /\
    name_at (image (fs s1)) 2 [120] = Some (5, Kind.Directory) /\
    serve_all (drop 3 reusing) s1 = Done s2 /\
    slot_of (bindings s2) 1 = Bound 1 /\ slot_entry s2 1 = Some (Dir 2 (MkRights ALL)) /\
    server_admit 1 2 s2 = Done (Ok 2, s2) /\ slot_entry s2 2 = Some (Dir 5 (MkRights ALL)) /\
    name_at (image (fs s2)) tree_root [121] = Some (5, Kind.Directory) /\
    ~ rtc (edge_in (image (fs s2))) 2 5.
Proof.
  exists (after (take 3 reusing) house), (after reusing house).
  do 10 (split; [vm_compute; reflexivity|]).
  assert (Him : image (fs (after reusing house)) = MkTree (<[(1, [121]) := 5]> (names house)) (<[5 := true]> (nodes house))) by (vm_compute; reflexivity).
  rewrite Him. apply only_files; [|done]. cbn [names nodes]. intros nm p [[? _]|[_ Hp]]%lookup_insert_Some; [done|].
  apply house_names in Hp as [Hk|[Hk|Hk]]; [done| |done]. by injection Hk as -> ->.
Qed.

End FileConfinement.
