(* ===== verification/GrantPlan.v ===== *)
(** * From a line to a grant (crates/grant_plan/src/lib.rs: Holdings to plan)

    What the shell holds, what a program declares and what the line says decide
    together the endowment a program starts with: the options, the argument,
    the pages, the one file or directory with its names, and the streams. A
    line that asks for what the manifest does not declare, or leaves out what it
    requires, is refused before anything runs. *)

From S2P Require Import Prelude Elf Glob Manifest Nav ShellWords NameSets.
Local Open Scope Z_scope.

Module GrantPlan.
Import (notations) Elf.

(** ** What the shell holds *)

(** The field is private: every value comes from [mounted_at]. *)
Record SecondDir := MkSecondDir { mount : Nav.Cwd }.

Definition mounted_at (m : Nav.Cwd) : option SecondDir := if negb (Nav.is_root m) then Some (MkSecondDir m) else None.

Record Holdings := MkHoldings {
  h_dir : bool;
  second : option SecondDir;
  cwd : Nav.Cwd;
  binds : Nav.Bindings
}.

(** Where a path's walk starts, and the steps left to walk. *)
Definition anchor (h : Holdings) (from_root : bool) (steps : list Nav.Step) : run (Nav.Cwd * list Nav.Step) :=
  if negb from_root then Done (cwd h, steps)
  else
    match steps with
    | Nav.Down first :: rest =>
        o ← Nav.lookup (binds h) first;
        match (o : option Nav.BindEntry) with
        | Some e => Done (Nav.bpos e, rest)
        | None => Done (Nav.root, steps)
        end
    | _ => Done (Nav.root, steps)
    end.

Definition resolve_steps (h : Holdings) (from_root : bool) (steps : list Nav.Step) : run (result Nav.Refused Nav.Cwd) :=
  '(pos, rest) ← anchor h from_root steps;
  '(r, pos') ← Nav.apply pos rest;
  Done (match r with Ok _ => Ok pos' | Err e => Err e end).

Definition resolve_path (h : Holdings) (p : Nav.Path) : run (result Nav.Refused Nav.Cwd) :=
  resolve_steps h (Nav.is_from_root p) (Nav.steps p).

Definition resolve (h : Holdings) (token : list Z) : run (result Nav.Refused Nav.Cwd) :=
  match Nav.path token with Err e => Done (Err e) | Ok p => resolve_path h p end.

(** [(0..m.depth()).all(|l| place.component(l) == m.component(l))]. *)
Fixpoint same_components (a b : Nav.Cwd) (levels : list nat) : run bool :=
  match levels with
  | [] => Done true
  | l :: rest =>
      x ← Nav.component a l;
      y ← Nav.component b l;
      if bool_decide (x = y) then same_components a b rest else Done false
  end.

(** Descends along the levels of another place; a refusal is ignored. *)
Fixpoint descend_along (to from : Nav.Cwd) (levels : list nat) : run Nav.Cwd :=
  match levels with
  | [] => Done to
  | l :: rest =>
      nm ← Nav.component from l;
      '(_, to') ← Nav.descend to nm;
      descend_along to' from rest
  end.

Definition locate (h : Holdings) (place : Nav.Cwd) : run (Nav.Which * Nav.Cwd) :=
  match second h with
  | Some sd =>
      let m := mount sd in
      inside ← (if (Nav.depth m <=? Nav.depth place)%nat then same_components place m (seq 0 (Nav.depth m)) else Done false);
      if (inside : bool) then
        pos ← descend_along Nav.root place (seq (Nav.depth m) (Nav.depth place - Nav.depth m));
        Done (Nav.B, pos)
      else Done (Nav.A, place)
  | None => Done (Nav.A, place)
  end.

Definition place (h : Holdings) (which : Nav.Which) (pos : Nav.Cwd) : run Nav.Cwd :=
  match which, second h with
  | Nav.B, Some sd => descend_along (mount sd) pos (seq 0 (Nav.depth pos))
  | _, _ => Done pos
  end.

Definition bind (h : Holdings) (name : list Z) (pos : Nav.Cwd) : run (result Nav.BindRefused unit * Holdings) :=
  reserved ← match second h with
             | Some sd => c ← Nav.component (mount sd) 0; Done (bool_decide (name = c))
             | None => Done false
             end;
  if (reserved : bool) then Done (Err Nav.ReservedLabel, h)
  else
    '(r, b) ← Nav.add (binds h) name pos;
    Done (r, MkHoldings (h_dir h) (second h) (cwd h) b).

(** ** What a program is given *)

Record FileGrant := MkFileGrant { f_which : Nav.Which; f_dir : Nav.Cwd; f_name : NameSets.Name; f_writable : bool }.

Record DirGrant := MkDirGrant { g_which : Nav.Which; g_dir : Nav.Cwd; g_names : NameSets.NameSet; g_subtree : bool }.

Inductive Mode := Truncate | Append.
Inductive Sink := SinkReport | SinkPipe | SinkFile (g : FileGrant) (m : Mode).
Inductive Source := SourceNone | SourcePipe | SourceFile (g : FileGrant).
Inductive Diagnostics := DiagnosticsNone | DiagnosticsPrinted | DiagnosticsFile (g : FileGrant) (m : Mode).

Definition mode (l : ShellWords.Line) : Mode := if ShellWords.append l then Append else Truncate.
Definition diagnostics_mode (l : ShellWords.Line) : Mode := if ShellWords.diag_append l then Append else Truncate.

Definition sink_for (l : ShellWords.Line) (i : nat) (file : option FileGrant) : Sink :=
  if (i + 1 <? length (ShellWords.stages l))%nat then SinkPipe
  else match file with Some g => SinkFile g (mode l) | None => SinkReport end.

Definition source_for (l : ShellWords.Line) (i : nat) (file : option FileGrant) : Source :=
  if (0 <? i)%nat then SourcePipe else match file with Some g => SourceFile g | None => SourceNone end.

Record Endowment := MkEndowment {
  prog : Manifest.Prog;
  arg : Z;
  mem_pages : Z;
  file : option FileGrant;
  dir : option DirGrant;
  flags : Z;
  sink : Sink;
  source : Source;
  diagnostics : Diagnostics;
  reports : bool;
  interruptible : bool;
  writes_while_reading : bool
}.

Record Streams := MkStreams { st_sink : Sink; st_source : Source; st_diagnostics : option (FileGrant * Mode) }.

Definition default_streams : Streams := MkStreams SinkReport SourceNone None.

(** ** Planning *)

(** Which directory a word leads to, and the names it designates there. *)
Definition designate (token : list Z) (at_ : nat) (h : Holdings) (expanded : NameSets.Expansion) :
    run (result ShellWords.Refusal (Nav.Which * Nav.Cwd * NameSets.NameSet)) :=
  magic ←? Done (NameSets.magic_component token);
  parsed ←? Done (match Nav.path token with Ok p => Ok p | Err _ => Err ShellWords.FileNotNameable end);
  ll ←? Done (ok_or (Nav.split_last_component parsed) ShellWords.FileNotNameable);
  let '(lead, last) := ll : list Nav.Step * list Z in
  '(pos, rest) ← anchor h (Nav.is_from_root parsed) lead;
  '(r, pos') ← Nav.apply pos rest;
  match (r : result Nav.Refused unit) with
  | Err _ => Done (Err ShellWords.FileNotNameable)
  | Ok _ =>
      '(which, dir) ← locate h pos';
      names ←? Done (if (magic : bool) then
                       set ← ok_or (NameSets.for_positional expanded at_) ShellWords.Unexpanded;
                       if NameSets.is_empty set then Err ShellWords.NoMatch else Ok set
                     else ok_or (NameSets.one last false) ShellWords.FileNotNameable);
      Done (Ok (which, dir, names))
  end.

(** The grant of the one file a word designates. *)
Definition file_grant (token : list Z) (at_ : nat) (h : Holdings) (expanded : NameSets.Expansion) (writable : bool)
    (ambiguous : ShellWords.Refusal) : run (result ShellWords.Refusal FileGrant) :=
  if negb (h_dir h) then Done (Err (ShellWords.NoSuchCapability ShellWords.CapFile)) else
  d ←? designate token at_ h expanded;
  let '(which, dir, names) := d : Nav.Which * Nav.Cwd * NameSets.NameSet in
  name ←? Done (ok_or (NameSets.only names) ambiguous);
  n ←? Done (ok_or (NameSets.Name_new name) ShellWords.FileNotNameable);
  Done (Ok (MkFileGrant which dir n writable)).

(** The options bit by bit. *)
Fixpoint plan_flags (declared options : list Z) (acc : Z) : result ShellWords.Refusal Z :=
  match options with
  | [] => Ok acc
  | letter :: rest =>
      match position (fun d => d =? letter) declared with
      | None => Err ShellWords.NoSuchOption
      | Some bit => plan_flags declared rest (Z.lor acc (Z.shiftl 1 (Z.of_nat bit)))
      end
  end.

(** The argument, and the next positional to place. *)
Definition plan_arg (m : Manifest.Manifest) (r : ShellWords.RunSpec) : result ShellWords.Refusal (Z * nat) :=
  match Manifest.arg m with
  | Manifest.ArgSpecRequired =>
      first ← ok_or (ShellWords.positionals r !! 0%nat) ShellWords.ArgRequired;
      v ← ok_or (ShellWords.parse_u64 first) ShellWords.ArgRequired;
      Ok (v, 1%nat)
  | Manifest.ArgSpecForbidden => Ok (0, 0%nat)
  | Manifest.ArgSpecWords _ =>
      _ ← ShellWords.check_words (ShellWords.line_ r);
      Ok (0, length (ShellWords.positionals r))
  end.

Definition plan_file (m : Manifest.Manifest) (pos : list (list Z)) (next : nat) (h : Holdings) (expanded : NameSets.Expansion) :
    run (result ShellWords.Refusal (option FileGrant * nat)) :=
  match Manifest.file m with
  | Manifest.FileSpecForbidden => Done (Ok (None, next))
  | Manifest.FileSpecRequired writable =>
      token ←? Done (ok_or (pos !! next) ShellWords.FileRequired);
      g ←? file_grant token next h expanded writable ShellWords.AmbiguousFile;
      Done (Ok (Some g, S next))
  end.

Definition plan_dir (m : Manifest.Manifest) (fl : Z) (pos : list (list Z)) (next : nat) (h : Holdings) (expanded : NameSets.Expansion) :
    run (result ShellWords.Refusal (option DirGrant * nat)) :=
  match Manifest.dir m with
  | Manifest.DirSpecForbidden => Done (Ok (None, next))
  | Manifest.DirSpecRequired subtree_flag =>
      token ←? Done (ok_or (pos !! next) ShellWords.PathRequired);
      if negb (h_dir h) then Done (Err (ShellWords.NoSuchCapability ShellWords.CapFile)) else
      d ←? designate token next h expanded;
      let '(which, dir, names) := d : Nav.Which * Nav.Cwd * NameSets.NameSet in
      let subtree :=
        match subtree_flag with
        | Some letter =>
            match position (fun d => d =? letter) (Manifest.letters (Manifest.flags m)) with
            | Some bit => negb (Z.land fl (Z.shiftl 1 (Z.of_nat bit)) =? 0)
            | None => false
            end
        | None => false
        end in
      Done (Ok (Some (MkDirGrant which dir names subtree), S next))
  end.

(** The names a line's words designate, for a program that hears words. *)
Definition plan_words (m : Manifest.Manifest) (h : Holdings) (expanded : NameSets.Expansion) (dir : option DirGrant) :
    result ShellWords.Refusal (option DirGrant) :=
  match Manifest.arg m, NameSets.designation expanded with
  | Manifest.ArgSpecWords _, Some d =>
      if negb (NameSets.designation_is_empty d) then
        if negb (h_dir h) then Err (ShellWords.NoSuchCapability ShellWords.CapFile)
        else Ok (Some (MkDirGrant Nav.A (cwd h) (if NameSets.d_here d then NameSets.empty else NameSets.d_names d) true))
      else Ok dir
  | _, _ => Ok dir
  end.

(** A program that reads takes a positional when nothing else feeds it. *)
Definition plan_source (m : Manifest.Manifest) (pos : list (list Z)) (next : nat) (h : Holdings) (expanded : NameSets.Expansion)
    (s : Streams) : run (result ShellWords.Refusal (Streams * nat)) :=
  match Manifest.input m, st_source s, pos !! next with
  | Manifest.InputSpecRequired _, SourceNone, Some token =>
      g ←? file_grant token next h expanded false ShellWords.AmbiguousFile;
      Done (Ok (MkStreams (st_sink s) (SourceFile g) (st_diagnostics s), S next))
  | _, _, _ => Done (Ok (s, next))
  end.

Definition unplaceable (tok : list Z) (m : Manifest.Manifest) : ShellWords.Refusal :=
  let numeric := is_some (ShellWords.parse_u64 tok) in
  if numeric && match Manifest.arg m with Manifest.ArgSpecForbidden => true | _ => false end then ShellWords.ArgForbidden
  else if negb numeric && match Manifest.file m with Manifest.FileSpecForbidden => true | _ => false end
          && match Manifest.dir m with Manifest.DirSpecForbidden => true | _ => false end then ShellWords.FileForbidden
  else ShellWords.Unexpected.

Definition plan_mem (m : Manifest.Manifest) (mem : option Z) : result ShellWords.Refusal Z :=
  match Manifest.mem m, mem with
  | Manifest.MemSpecForbidden, None => Ok 0
  | Manifest.MemSpecForbidden, Some _ => Err ShellWords.MemForbidden
  | Manifest.MemSpecRequired _ _, None => Err ShellWords.MemRequired
  | Manifest.MemSpecRequired min max, Some n =>
      if (n <? min) || (max <? n) then Err (ShellWords.MemOutOfRange min max) else Ok n
  end.

Definition check_streams (m : Manifest.Manifest) (s : Streams) : result ShellWords.Refusal Diagnostics :=
  if match st_sink s with SinkReport => false | _ => true end && negb (Manifest.is_byte_stream (Manifest.output m))
  then Err ShellWords.NotAByteStream else
  d ← match Manifest.diagnostics_slot (Manifest.output m), st_diagnostics s with
      | None, None => Ok DiagnosticsNone
      | None, Some _ => Err ShellWords.NoDiagnosticStream
      | Some _, None => Ok DiagnosticsPrinted
      | Some _, Some (g, mo) => Ok (DiagnosticsFile g mo)
      end;
  match Manifest.input m, st_source s with
  | Manifest.InputSpecRequired _, SourceNone => Err ShellWords.InputRequired
  | Manifest.InputSpecForbidden, SourceNone => Ok d
  | Manifest.InputSpecForbidden, _ => Err ShellWords.InputForbidden
  | Manifest.InputSpecRequired _, _ => Ok d
  end.

Definition plan_against_with (r : ShellWords.RunSpec) (p : Manifest.Prog) (m : Manifest.Manifest) (h : Holdings)
    (expanded : NameSets.Expansion) (streams : Streams) : run (result ShellWords.Refusal Endowment) :=
  match ShellWords.misquoted r with
  | Some e => Done (Err e)
  | None =>
      let words := Manifest.hears_words (Manifest.arg m) in
      if is_some (ShellWords.unexpected r) && negb words then Done (Err ShellWords.Unexpected) else
      fl ←? Done (plan_flags (Manifest.letters (Manifest.flags m)) (if words then [] else ShellWords.options r) 0);
      let pos := ShellWords.positionals r in
      an ←? Done (plan_arg m r);
      let '(a, next) := an : Z * nat in
      fn ←? plan_file m pos next h expanded;
      let '(f, next) := fn : option FileGrant * nat in
      dn ←? plan_dir m fl pos next h expanded;
      let '(d, next) := dn : option DirGrant * nat in
      d ←? Done (plan_words m h expanded d);
      sn ←? plan_source m pos next h expanded streams;
      let '(streams, next) := sn : Streams * nat in
      match pos !! next with
      | Some extra => Done (Err (unplaceable extra m))
      | None =>
          pages ←? Done (plan_mem m (ShellWords.mem r));
          diag ←? Done (check_streams m streams);
          Done (Ok (MkEndowment p a pages f d fl (st_sink streams) (st_source streams) diag
                      (Manifest.reports m) (Manifest.interruptible m)
                      (match Manifest.input m with Manifest.InputSpecRequired true => true | _ => false end)))
      end
  end.

Definition plan_against (r : ShellWords.RunSpec) (p : Manifest.Prog) (m : Manifest.Manifest) (h : Holdings)
    (expanded : NameSets.Expansion) : run (result ShellWords.Refusal Endowment) :=
  plan_against_with r p m h expanded default_streams.

Definition plan_stage (r : ShellWords.RunSpec) (h : Holdings) (expanded : NameSets.Expansion) (streams : Streams) :
    run (result ShellWords.Refusal Endowment) :=
  match ShellWords.misquoted r with
  | Some e => Done (Err e)
  | None =>
      p ←? Done (ok_or (Manifest.from_name (ShellWords.prog r)) ShellWords.NoSuchProgram);
      plan_against_with r p (Manifest.manifest p) h expanded streams
  end.

Definition plan (r : ShellWords.RunSpec) (h : Holdings) (expanded : NameSets.Expansion) : run (result ShellWords.Refusal Endowment) :=
  plan_stage r h expanded default_streams.

(** A redirection's file. *)
Definition redirect_target (token : list Z) (h : Holdings) (writable : bool) : run (result ShellWords.Refusal FileGrant) :=
  file_grant token 0 h NameSets.expansion_none writable ShellWords.FileNotNameable.

Fixpoint chain_tail (plans : list (option Endowment)) (tail : option Endowment) : option (option Endowment) :=
  match plans with
  | [] => Some tail
  | None :: rest => chain_tail rest tail
  | Some e :: rest => if negb (writes_while_reading e) then None else chain_tail rest (Some e)
  end.

Definition check_chain (shell_feeds_head : bool) (plans : list (option Endowment)) : result ShellWords.Refusal unit :=
  if negb shell_feeds_head then Ok tt
  else
    match chain_tail plans None with
    | None => Ok tt
    | Some None => Ok tt
    | Some (Some e) => match sink e with SinkReport => Ok tt | _ => Err ShellWords.NoReaderButThisShell end
    end.

(** ** Interrupting what runs *)

Inductive Action := ActionNone | Cooperative | Forcible.

Definition COOP_GRACE_TICKS : Z := 200.

Record Escalation := MkEscalation { interrupts : Z; grace_left : Z; coop_sent : bool; done_ : bool }.

Definition escalation_new : Escalation := MkEscalation 0 0 false false.

(** [u32] arithmetic that panics on overflow. *)
Definition on_interrupt (e : Escalation) : run (Action * Escalation) :=
  if done_ e then Done (ActionNone, e)
  else
    match checked_add 32 (interrupts e) 1 with
    | None => Panicked
    | Some n =>
        if n =? 1 then Done (Cooperative, MkEscalation n COOP_GRACE_TICKS true (done_ e))
        else Done (Forcible, MkEscalation n (grace_left e) (coop_sent e) true)
    end.

Definition on_tick (e : Escalation) : Action * Escalation :=
  if done_ e || negb (coop_sent e) then (ActionNone, e)
  else
    let g := Z.max 0 (grace_left e - 1) in
    if g =? 0 then (Forcible, MkEscalation (interrupts e) g (coop_sent e) true)
    else (ActionNone, MkEscalation (interrupts e) g (coop_sent e) (done_ e)).

Definition is_spent (e : Escalation) : bool := done_ e.


(** ** Places and the second directory *)

Lemma same_components_spec l m k n : Nav.place_ok l -> Nav.place_ok m -> (k + n <= length l)%nat -> (k + n <= length m)%nat ->
  same_components (Nav.cwd_of l) (Nav.cwd_of m) (seq k n) = Done (bool_decide (take n (drop k l) = take n (drop k m))).
Proof.
  intros Hl Hm. revert k. induction n as [|n IH]; intros k H1 H2; cbn [seq same_components]; [by rewrite bool_decide_true|].
  destruct (lookup_lt_is_Some_2 l k) as [x Hx]; [lia|]. destruct (lookup_lt_is_Some_2 m k) as [y Hy]; [lia|].
  rewrite (Nav.component_spec l k x Hl Hx), (Nav.component_spec m k y Hm Hy). cbn [mbind run_bind].
  rewrite (drop_S l x k Hx), (drop_S m y k Hy). cbn [take]. case_bool_decide as Hxy.
  - subst y. rewrite IH by lia. f_equal. apply bool_decide_ext. split; congruence.
  - rewrite bool_decide_false; [done|]. congruence.
Qed.

Lemma descend_along_spec to from k n : Nav.place_ok from -> (k + n <= length from)%nat -> (length to + n <= Nav.MAX_DEPTH)%nat ->
  descend_along (Nav.cwd_of to) (Nav.cwd_of from) (seq k n) = Done (Nav.cwd_of (to ++ take n (drop k from))).
Proof.
  intros Hf. revert to k. induction n as [|n IH]; intros to k Hk Ht; cbn [seq descend_along]; [by rewrite app_nil_r|].
  destruct (lookup_lt_is_Some_2 from k) as [x Hx]; [lia|]. rewrite (Nav.component_spec from k x Hf Hx). cbn [mbind run_bind].
  rewrite Nav.nav_descend_spec by lia. rewrite (proj2 (Nat.eqb_neq (length to) _)) by lia.
  rewrite (proj1 (Forall_lookup _ _) (proj2 Hf) _ _ Hx). cbn [orb negb mbind run_bind].
  rewrite IH by (rewrite ?length_app; cbn [length]; lia). rewrite (drop_S from x k Hx). cbn [take]. by rewrite <- (assoc_L app).
Qed.

(** A shell as it can be: it stands at a place, its second directory is mounted
    below its root, and the names it bound lead to places. *)
Definition holdings_ok (h : Holdings) : Prop :=
  Nav.cwd_ok (cwd h) /\
  (forall sd, second h = Some sd -> Nav.cwd_ok (mount sd) /\ Nav.is_root (mount sd) = false) /\
  exists ps, binds h = Nav.binds_of ps /\ Forall (fun p => Nav.component_fits p.1 = true) (omap (fun o => o) ps) /\
    Forall (fun p => Nav.cwd_ok p.2) (omap (fun o => o) ps).

(** What [locate] answers, on lists of names. *)
Definition located (m : option (list (list Z))) (l : list (list Z)) : Nav.Which * list (list Z) :=
  match m with
  | Some m => if decide (take (length m) l = m) then (Nav.B, drop (length m) l) else (Nav.A, l)
  | None => (Nav.A, l)
  end.

Definition mount_of (h : Holdings) (m : option (list (list Z))) : Prop :=
  second h = (fun l => MkSecondDir (Nav.cwd_of l)) <$> m /\ match m with Some l => Nav.place_ok l /\ l <> [] | None => True end.

Lemma mount_exists h : holdings_ok h -> exists m, mount_of h m.
Proof.
  intros (_ & Hs & _). unfold mount_of. destruct (second h) as [[mt]|]; [|by exists None].
  destruct (Hs _ eq_refl) as [(m & Hm & Hmt) Hroot]. cbn [mount] in *. subst mt. exists (Some m). split; [done|]. split; [done|].
  intros ->. done.
Qed.

Lemma locate_spec h m l : mount_of h m -> Nav.place_ok l ->
  locate h (Nav.cwd_of l) = Done (let '(w, l') := located m l in (w, Nav.cwd_of l')).
Proof.
  intros [Hs Hm] Hl. unfold locate. rewrite Hs. destruct m as [m|]; [|done]. destruct Hm as [Hm _].
  cbn [fmap option_fmap option_map mount located]. change (Nav.depth (Nav.cwd_of m)) with (length m).
  change (Nav.depth (Nav.cwd_of l)) with (length l). destruct (Nat.leb_spec (length m) (length l)) as [Hle|Hlt].
  - rewrite same_components_spec by (done || lia). rewrite !drop_0, (take_ge m) by lia. cbn [mbind run_bind].
    destruct (decide (take (length m) l = m)) as [He|He]; [rewrite (bool_decide_true _ He)|by rewrite (bool_decide_false _ He)].
    rewrite Nav.root_is_empty, descend_along_spec; [|done|lia|cbn [length]; destruct Hl; lia]. cbn [mbind run_bind app].
    rewrite (take_ge (drop _ l)) by (rewrite length_drop; lia). done.
  - cbn [mbind run_bind]. rewrite decide_False; [done|]. intros He. apply (f_equal length) in He. rewrite length_take in He. lia.
Qed.

Lemma placed_spec h m w l : mount_of h m -> Nav.place_ok l ->
  (match w, m with Nav.B, Some m => length m + length l <= Nav.MAX_DEPTH | _, _ => True end)%nat ->
  place h w (Nav.cwd_of l) = Done (Nav.cwd_of (match w, m with Nav.B, Some m => m ++ l | _, _ => l end)).
Proof.
  intros [Hs Hm] Hl Hlen. unfold place. rewrite Hs. destruct w; [done|]. destruct m as [m|]; [|done]. cbn [fmap option_fmap option_map mount].
  change (Nav.depth (Nav.cwd_of l)) with (length l). rewrite descend_along_spec by (done || lia). by rewrite drop_0, take_ge.
Qed.

(** Where a shell stands and which directory that is say the same thing: a
    place is located in one of the two directories, at a position that puts it
    back exactly there, and a position inside the second directory that fits
    below its mount is located as itself. *)
Theorem located_places_come_back h c :
  holdings_ok h -> Nav.cwd_ok c ->
  (exists w pos, locate h c = Done (w, pos) /\ Nav.cwd_ok pos /\ place h w pos = Done c) /\
  (forall sd, second h = Some sd -> (Nav.depth (mount sd) + Nav.depth c <= Nav.MAX_DEPTH)%nat ->
   exists at_, place h Nav.B c = Done at_ /\ Nav.cwd_ok at_ /\ locate h at_ = Done (Nav.B, c)).
Proof.
  intros Hh (l & Hl & ->). destruct (mount_exists h Hh) as [m Hm]. split.
  - rewrite (locate_spec h m l Hm Hl). destruct m as [m|]; cbn [located].
    2: { exists Nav.A, (Nav.cwd_of l). split; [done|]. split; [by exists l|]. by rewrite (placed_spec h None). }
    destruct (decide (take (length m) l = m)) as [He|He].
    + exists Nav.B, (Nav.cwd_of (drop (length m) l)). assert (Hd : Nav.place_ok (drop (length m) l)).
      { destruct Hl as [Hl1 Hl2]. split; [rewrite length_drop; lia|by apply Forall_drop]. }
      split; [done|]. split; [by eexists|]. rewrite (placed_spec h (Some m)); [|done|done|].
      * do 2 f_equal. rewrite <- He at 1. apply take_drop.
      * rewrite length_drop. apply (f_equal length) in He. rewrite length_take in He. destruct Hl. lia.
    + exists Nav.A, (Nav.cwd_of l). split; [done|]. split; [by exists l|]. by rewrite (placed_spec h (Some m)).
  - intros sd Hsd Hlen. destruct Hm as [Hs Hm]. rewrite Hsd in Hs. destruct m as [m|]; [|done]. injection Hs as ->. cbn [mount] in Hlen.
    change (Nav.depth (Nav.cwd_of ?x)) with (length x) in Hlen. exists (Nav.cwd_of (m ++ l)).
    assert (Hml : Nav.place_ok (m ++ l)).
    { split; [rewrite length_app; lia|]. apply Forall_app_2; [apply (proj1 Hm)|apply Hl]. }
    assert (Hmt : mount_of h (Some m)) by done. split; [by rewrite (placed_spec h (Some m))|]. split; [by eexists|].
    rewrite (locate_spec h (Some m)) by done. cbn [located]. rewrite take_app_length, decide_True by done. by rewrite drop_app_length.
Qed.

Lemma located_places_come_back_witness :
  let h := MkHoldings true (Some (MkSecondDir (Nav.cwd_of [lit "docs"]))) Nav.root Nav.none in
  exists w pos, locate h (Nav.cwd_of [lit "docs"; lit "a"]) = Done (w, pos) /\ Nav.cwd_ok pos /\
    place h w pos = Done (Nav.cwd_of [lit "docs"; lit "a"]).
Proof.
  intros h. apply (located_places_come_back h (Nav.cwd_of [lit "docs"; lit "a"])).
  - split; [exists []; split; [split; [apply Nat.leb_le; reflexivity|constructor]|reflexivity]|]. split.
    + intros sd [= <-]. split; [|reflexivity]. exists [lit "docs"]. split; [split; [apply Nat.leb_le; reflexivity|repeat constructor]|reflexivity].
    + exists [None; None; None; None]. split; [reflexivity|split; constructor].
  - exists [lit "docs"; lit "a"]. split; [split; [apply Nat.leb_le; reflexivity|repeat constructor]|reflexivity].
Defined.

(** ** Escalation *)

Inductive Event := Interrupt | Tick.

#[export] Instance Event_eq_dec : EqDecision Event.
Proof. solve_decision. Defined.

(** What the shell does over a sequence of interrupts and ticks. *)
Fixpoint escalate (e : Escalation) (es : list Event) : run (list Action * Escalation) :=
  match es with
  | [] => Done ([], e)
  | ev :: rest =>
      '(a, e') ← match ev with Interrupt => on_interrupt e | Tick => Done (on_tick e) end;
      '(acts, e'') ← escalate e' rest;
      Done (a :: acts, e'')
  end.

Definition ticks (es : list Event) : Z := Z.of_nat (length (filter (fun ev => ev = Tick) es)).

(** Whether a grace of [g] ticks has run out, or a second interrupt came. *)
Definition grace_over (g : Z) (es : list Event) : bool := bool_decide (Interrupt ∈ es) || (g <=? ticks es).

Definition forcible (a : Action) : bool := match a with Forcible => true | _ => false end.
Definition count_of (p : Action -> bool) (acts : list Action) : nat := length (List.filter p acts).

Lemma escalate_spent e es : done_ e = true -> exists acts, escalate e es = Done (acts, e) /\ Forall (fun a => a = ActionNone) acts.
Proof.
  intros He. induction es as [|ev es (acts & IH & Ha)]; [by exists []|]. exists (ActionNone :: acts). cbn [escalate].
  replace (match ev with Interrupt => on_interrupt e | Tick => Done (on_tick e) end) with (Done (ActionNone, e));
    [|unfold on_interrupt, on_tick; rewrite He; by destruct ev]. cbn [mbind run_bind]. rewrite IH. split; [done|by constructor].
Qed.

Lemma count_none p acts : p ActionNone = false -> Forall (fun a => a = ActionNone) acts -> count_of p acts = 0%nat.
Proof. intros Hp. induction 1 as [|a acts -> _ IH]; [done|]. unfold count_of in *. cbn. by rewrite Hp. Qed.

Lemma ticks_cons ev es : ticks (ev :: es) = (if decide (ev = Tick) then 1 else 0) + ticks es.
Proof.
  unfold ticks. destruct ev.
  - rewrite filter_cons_False, decide_False by done. lia.
  - rewrite filter_cons_True, decide_True by done. cbn [length]. lia.
Qed.

(** Once the request went out: [g] ticks are left. *)
Lemma escalate_asked g es : 0 < g -> exists acts e', escalate (MkEscalation 1 g true false) es = Done (acts, e') /\
  count_of forcible acts = (if grace_over g es then 1%nat else 0%nat) /\ is_spent e' = grace_over g es /\
  Forall (fun a => a <> Cooperative) acts.
Proof.
  revert g. induction es as [|ev es IH]; intros g Hg.
  { exists [], (MkEscalation 1 g true false). unfold grace_over. change (ticks []) with 0. rewrite bool_decide_false by apply not_elem_of_nil.
    rewrite (proj2 (Z.leb_gt g 0)) by lia. repeat split; constructor. }
  assert (Hfin : forall n g' c, grace_over g (ev :: es) = true ->
    exists acts e', escalate (MkEscalation n g' c true) es = Done (acts, e') /\
    count_of forcible (Forcible :: acts) = 1%nat /\ is_spent e' = true /\ Forall (fun a => a <> Cooperative) (Forcible :: acts)).
  { intros n g' c _. destruct (escalate_spent (MkEscalation n g' c true) es eq_refl) as (acts & He & Ha). exists acts, (MkEscalation n g' c true).
    split; [done|]. split; [unfold count_of; cbn; f_equal; by apply (count_none forcible)|]. split; [done|].
    constructor; [done|]. eapply Forall_impl; [exact Ha|]. by intros ? ->. }
  cbn [escalate]. destruct ev.
  - assert (Hov : grace_over g (Interrupt :: es) = true) by (unfold grace_over; by rewrite bool_decide_true by constructor).
    destruct (Hfin 2 g true Hov) as (acts & e' & He & H). change (on_interrupt _) with (Done (Forcible, MkEscalation 2 g true true)).
    cbn [mbind run_bind]. rewrite He, Hov. exists (Forcible :: acts), e'. split; [done|exact H].
  - assert (Hshift : grace_over g (Tick :: es) = grace_over (g - 1) es).
    { unfold grace_over. rewrite ticks_cons, decide_True by done. f_equal; [apply bool_decide_ext; rewrite elem_of_cons; naive_solver|].
      apply Bool.eq_iff_eq_true. rewrite !Z.leb_le. lia. }
    unfold on_tick. cbn [done_ coop_sent orb negb grace_left]. rewrite Z.max_r by lia. destruct (Z.eqb_spec (g - 1) 0) as [H0|H0].
    + assert (Hov : grace_over g (Tick :: es) = true).
      { rewrite Hshift. unfold grace_over. apply orb_true_iff. right. apply Z.leb_le. unfold ticks. lia. }
      destruct (Hfin 1 (g - 1) true Hov) as (acts & e' & He & H). cbn [mbind run_bind interrupts]. rewrite He, Hov.
      exists (Forcible :: acts), e'. split; [done|exact H].
    + cbn [mbind run_bind interrupts]. destruct (IH (g - 1) ltac:(lia)) as (acts & e' & He & H1 & H2 & H3). rewrite He, Hshift.
      exists (ActionNone :: acts), e'. split; [done|]. split; [exact H1|]. split; [exact H2|]. by constructor.
Qed.

(** Whatever interrupts and ticks arrive in whatever order: nothing happens
    before the first interrupt; the first asks the program to stop; and it is
    killed exactly once, as soon as a second interrupt comes or two hundred
    ticks have passed since the first, and never otherwise. The counters never
    overflow. *)
Theorem interrupted_program_is_ended_once before after :
  Interrupt ∉ before ->
  exists quiet acts e,
    escalate escalation_new (before ++ Interrupt :: after) = Done (quiet ++ Cooperative :: acts, e) /\
    Forall (fun a => a = ActionNone) quiet /\ Forall (fun a => a <> Cooperative) acts /\
    is_spent e = grace_over COOP_GRACE_TICKS after /\
    count_of forcible acts = (if grace_over COOP_GRACE_TICKS after then 1%nat else 0%nat).
Proof.
  induction before as [|ev before IH]; intros Hb.
  - destruct (escalate_asked COOP_GRACE_TICKS after ltac:(done)) as (acts & e' & He & H1 & H2 & H3).
    exists [], acts, e'. cbn [app escalate]. change (on_interrupt escalation_new) with (Done (Cooperative, MkEscalation 1 COOP_GRACE_TICKS true false)).
    cbn [mbind run_bind]. rewrite He. repeat split; [constructor|done..].
  - apply not_elem_of_cons in Hb as [Hev Hb]. destruct ev; [done|]. destruct (IH Hb) as (quiet & acts & e & He & Hq & H).
    exists (ActionNone :: quiet), acts, e. cbn [app escalate]. change (on_tick escalation_new) with (ActionNone, escalation_new).
    cbn [mbind run_bind]. rewrite He. split; [done|]. split; [by constructor|exact H].
Qed.

Lemma interrupted_program_is_ended_once_witness :
  exists quiet acts e, escalate escalation_new ([Tick] ++ Interrupt :: replicate 200 Tick) = Done (quiet ++ Cooperative :: acts, e) /\
    is_spent e = true /\ count_of forcible acts = 1%nat.
Proof.
  destruct (interrupted_program_is_ended_once [Tick] (replicate 200 Tick)) as (q & acts & e & He & _ & _ & H1 & H2).
  - intros H. apply list_elem_of_singleton in H. discriminate.
  - exists q, acts, e. split; [exact He|]. split; [rewrite H1; vm_compute; reflexivity|rewrite H2; vm_compute; reflexivity].
Defined.

(** ** What planning answers *)

(** It answers without panicking, and an answer that is not a refusal satisfies [P]. *)
Definition yields {X} (x : run (result ShellWords.Refusal X)) (P : X -> Prop) : Prop :=
  exists r, x = Done r /\ forall a, r = Ok a -> P a.

Lemma plan_yields_ok {X} (a : X) (P : X -> Prop) : P a -> yields (Done (Ok a)) P.
Proof. intros H. eexists. split; [done|]. by intros ? [= <-]. Qed.
Lemma plan_yields_err {X} e (P : X -> Prop) : yields (Done (Err e)) P.
Proof. by eexists. Qed.
Lemma plan_yields_try {X Y} (x : run (result ShellWords.Refusal X)) (f : X -> run (result ShellWords.Refusal Y)) P Q :
  yields x P -> (forall a, P a -> yields (f a) Q) -> yields (Elf.try x f) Q.
Proof. intros (r & -> & Hr) Hf. destruct r as [a|e]; cbn [Elf.try]; [by apply Hf, Hr|by eexists]. Qed.
Lemma yields_pure {X} (r : result ShellWords.Refusal X) (P : X -> Prop) : (forall a, r = Ok a -> P a) -> yields (Done r) P.
Proof. intros H. by exists r. Qed.
Lemma yields_ok_or {X} (o : option X) e : yields (Done (ok_or o e)) (fun a => o = Some a).
Proof. apply yields_pure. by destruct o as [x|]; intros ? [= <-]. Qed.
Lemma yields_weaken {X} (x : run (result ShellWords.Refusal X)) (P Q : X -> Prop) : yields x P -> (forall a, P a -> Q a) -> yields x Q.
Proof. intros (r & -> & Hr) H. exists r. split; [done|]. naive_solver. Qed.

#[local] Hint Resolve plan_yields_ok plan_yields_err yields_ok_or : yields.

(** What a word designates: the directory its leading steps lead to, and there
    the one name it ends in or, when that is a pattern, the set it was expanded to. *)
Definition designates (h : Holdings) (expanded : NameSets.Expansion) (token : list Z) (at_ : nat)
    (d : Nav.Which * Nav.Cwd * NameSets.NameSet) : Prop :=
  exists p lead last pos,
    Nav.path token = Ok p /\ Nav.split_last_component p = Some (lead, last) /\
    resolve_steps h (Nav.is_from_root p) lead = Done (Ok pos) /\ locate h pos = Done d.1 /\ Nav.cwd_ok d.1.2 /\
    if Glob.has_magic last then NameSets.for_positional expanded at_ = Some d.2 /\ NameSets.is_empty d.2 = false
    else NameSets.iter d.2 = [(last, false)].

Lemma assoc_elem ps nm x : Nav.assoc ps nm = Some x -> x ∈ omap (fun o => o) ps.
Proof.
  induction ps as [|[p|] ps IH]; cbn [Nav.assoc omap list_omap]; [done| |done].
  destruct (decide _); [intros [= ->]; constructor|]. intros H. constructor. by apply IH.
Qed.

Lemma anchor_total h fr steps : holdings_ok h -> exists l rest, Nav.place_ok l /\ anchor h fr steps = Done (Nav.cwd_of l, rest).
Proof.
  intros ((l & Hl & Hc) & _ & ps & Hb & Hf & Hp). unfold anchor. rewrite Hb, Hc.
  assert (Hroot : Nav.place_ok []) by (split; [cbn [length]; lia|constructor]).
  destruct fr; cbn [negb]; [|by exists l, steps]. destruct steps as [|[nm|] steps]; [by exists [], []| |by exists [], (Nav.Up :: steps)].
  rewrite (Nav.binds_lookup_spec ps nm Hf). cbn [mbind run_bind]. destruct (Nav.assoc ps nm) as [x|] eqn:Ha; cbn [fmap option_fmap option_map].
  - rewrite Forall_forall in Hp. destruct (Hp x (assoc_elem ps nm x Ha)) as (lx & Hlx & Hx). exists lx, steps. split; [done|]. by rewrite <- Hx.
  - by exists [], (Nav.Down nm :: steps).
Qed.

Lemma locate_total h l : holdings_ok h -> Nav.place_ok l -> exists w l', locate h (Nav.cwd_of l) = Done (w, Nav.cwd_of l') /\ Nav.place_ok l'.
Proof.
  intros Hh Hl. destruct (mount_exists h Hh) as [m Hm]. rewrite (locate_spec h m l Hm Hl).
  assert (Hd : forall k, Nav.place_ok (drop k l)) by (intros k; split; [rewrite length_drop; destruct Hl; lia|apply Forall_drop, Hl]).
  destruct m as [m|]; cbn [located]; [|by eauto]. destruct (decide _); eauto.
Qed.

Lemma one_spec nm d s : NameSets.one nm d = Some s -> s = NameSets.set_of [(nm, d)].
Proof.
  unfold NameSets.one. rewrite NameSets.empty_is, NameSets.push_spec by (cbn [length]; lia). destruct (decide _); [by intros [= <-]|done].
Qed.

Lemma magic_spec token p lead last : Nav.path token = Ok p -> Nav.split_last_component p = Some (lead, last) ->
  forall b, NameSets.magic_component token = Ok b -> b = Glob.has_magic last.
Proof.
  intros Hp. unfold NameSets.magic_component, Nav.split_last_component. rewrite Hp. destruct (list.last (Nav.steps p)) as [[nm|]|]; [|done|done].
  intros [= _ <-] b. destruct (existsb _ _); [done|]. by intros [= <-].
Qed.

Lemma designate_yields token at_ h expanded : holdings_ok h -> yields (designate token at_ h expanded) (designates h expanded token at_).
Proof.
  intros Hh. unfold designate. eapply plan_yields_try; [apply (yields_pure _ (fun b => NameSets.magic_component token = Ok b)); naive_solver|]. intros magic Hmagic.
  eapply (plan_yields_try _ _ (fun p => Nav.path token = Ok p)); [apply yields_pure; intros a; destruct (Nav.path token); congruence|]. intros p Hp.
  eapply plan_yields_try; [apply yields_ok_or|]. intros [lead last] Hll.
  destruct (anchor_total h (Nav.is_from_root p) lead Hh) as (l & rest & Hl & Ha). rewrite Ha. cbn [mbind run_bind].
  rewrite (Nav.apply_spec l rest Hl). cbn [mbind run_bind]. destruct (Nav.walk l rest) as [l'|e] eqn:Hw; [|apply plan_yields_err].
  pose proof (Nav.walk_ok l rest l' Hl Hw) as Hl'. destruct (locate_total h l' Hh Hl') as (w & l2 & Hloc & Hl2). rewrite Hloc. cbn [mbind run_bind].
  assert (Hres : resolve_steps h (Nav.is_from_root p) lead = Done (Ok (Nav.cwd_of l'))).
  { unfold resolve_steps. rewrite Ha. cbn [mbind run_bind]. by rewrite (Nav.apply_spec l rest Hl), Hw. }
  eapply (plan_yields_try _ _ (fun ns => designates h expanded token at_ (w, Nav.cwd_of l2, ns))); [|intros ns Hns; by apply plan_yields_ok].
  apply yields_pure. intros ns Hns. exists p, lead, last, (Nav.cwd_of l'). repeat (split; [done|]). split; [by exists l2|]. cbn [snd].
  rewrite <- (magic_spec token p lead last Hp Hll magic Hmagic). destruct magic.
  - destruct (NameSets.for_positional expanded at_) as [set|]; [|done]. cbn [ok_or mbind result_bind] in Hns.
    destruct (NameSets.is_empty set) eqn:He; [done|]. by injection Hns as <-.
  - destruct (NameSets.one last false) as [s|] eqn:Ho; [|done]. injection Hns as <-. apply one_spec in Ho as ->. apply NameSets.iter_spec.
Qed.

(** A grant of the one file that the [i]th word designates. *)
Definition names_file (h : Holdings) (expanded : NameSets.Expansion) (pos : list (list Z)) (i : nat) (g : FileGrant) : Prop :=
  exists token ns, pos !! i = Some token /\ h_dir h = true /\
    designates h expanded token i (f_which g, f_dir g, ns) /\ NameSets.only ns = Some (NameSets.as_bytes (f_name g)).

Lemma file_grant_yields token pos i h expanded wr amb : holdings_ok h -> pos !! i = Some token ->
  yields (file_grant token i h expanded wr amb) (fun g => f_writable g = wr /\ names_file h expanded pos i g).
Proof.
  intros Hh Hi. unfold file_grant. destruct (h_dir h) eqn:Hd; cbn [negb]; [|apply plan_yields_err].
  eapply plan_yields_try; [by apply designate_yields|]. intros [[w d] ns] Hdes.
  eapply plan_yields_try; [apply yields_ok_or|]. intros nm Hnm. eapply plan_yields_try; [apply yields_ok_or|]. intros n Hn.
  apply plan_yields_ok. split; [done|]. exists token, ns. split; [done|]. split; [done|]. split; [exact Hdes|]. cbn [f_name].
  rewrite NameSets.Name_new_spec in Hn. destruct (NameSets.file_name_fits nm); [|done]. injection Hn as <-. by rewrite NameSets.as_bytes_name.
Qed.

(** The options that were given, as bits of the letters declared. *)
Definition granted_flags (declared options : list Z) (fl : Z) : Prop :=
  forall i, Z.testbit fl (Z.of_nat i) = true <-> exists c, c ∈ options /\ position (fun d => d =? c) declared = Some i.

Lemma plan_flags_spec declared options seen acc fl : granted_flags declared seen acc -> plan_flags declared options acc = Ok fl ->
  granted_flags declared (seen ++ options) fl.
Proof.
  revert seen acc. induction options as [|c options IH]; intros seen acc Hs; cbn [plan_flags]; [intros [= <-]; by rewrite app_nil_r|].
  destruct (position (fun d => d =? c) declared) as [bit|] eqn:Hc; [|done]. intros H. apply (IH (seen ++ [c])) in H; [by rewrite <- (assoc_L app) in H|].
  intros i. rewrite Z.lor_spec, orb_true_iff, (Hs i), Z.shiftl_1_l, Z.pow2_bits_eqb by lia. rewrite Z.eqb_eq.
  setoid_rewrite elem_of_app. setoid_rewrite list_elem_of_singleton. split.
  - intros [(c' & Hin & Hp)|He]; [by exists c'; auto|]. exists c. assert (bit = i) as -> by lia. auto.
  - intros (c' & [Hin| ->] & Hp); [left; by exists c'|]. right. rewrite Hc in Hp. injection Hp as ->. done.
Qed.

Lemma plan_flags_declared declared options acc fl : plan_flags declared options acc = Ok fl -> forall c, c ∈ options -> c ∈ declared.
Proof.
  revert acc. induction options as [|x options IH]; intros acc; cbn [plan_flags]; [by intros _ c ?%not_elem_of_nil|]. destruct (position (fun d => d =? x) declared) as [bit|] eqn:Hp; [|done]. intros H c [->|Hc]%elem_of_cons; [|by eapply IH].
  apply position_Some in Hp as (y & Hy & ->%Z.eqb_eq & _). by eapply list_elem_of_lookup_2.
Qed.

Lemma plan_flags_ok declared options fl : plan_flags declared options 0 = Ok fl -> granted_flags declared options fl /\ forall c, c ∈ options -> c ∈ declared.
Proof.
  intros H. split; [|by eapply plan_flags_declared]. apply (plan_flags_spec declared options [] 0 fl); [|done]. intros i. rewrite Z.bits_0. split; [done|].
  by intros (c & ?%not_elem_of_nil & _).
Qed.

Definition file_slots (m : Manifest.Manifest) : nat := match Manifest.file m with Manifest.FileSpecRequired _ => 1 | _ => 0 end.
Definition dir_slots (m : Manifest.Manifest) : nat := match Manifest.dir m with Manifest.DirSpecRequired _ => 1 | _ => 0 end.
Definition arg_slots (m : Manifest.Manifest) : nat := match Manifest.arg m with Manifest.ArgSpecRequired => 1 | _ => 0 end.

Definition file_declared (m : Manifest.Manifest) (h : Holdings) (expanded : NameSets.Expansion) (pos : list (list Z)) (next : nat)
    (f : option FileGrant) : Prop :=
  match f with
  | None => Manifest.file m = Manifest.FileSpecForbidden
  | Some g => Manifest.file m = Manifest.FileSpecRequired (f_writable g) /\ names_file h expanded pos next g
  end.

Lemma plan_file_yields m pos next h expanded : holdings_ok h ->
  yields (plan_file m pos next h expanded) (fun fn => fn.2 = (next + file_slots m)%nat /\ file_declared m h expanded pos next fn.1).
Proof.
  intros Hh. unfold plan_file, file_slots, file_declared. destruct (Manifest.file m) as [|wr].
  - apply plan_yields_ok. cbn. split; [lia|done].
  - eapply plan_yields_try; [apply yields_ok_or|]. intros token Ht.
    eapply plan_yields_try; [by apply (file_grant_yields token pos)|]. intros g [Hw Hg]. apply plan_yields_ok. cbn. rewrite Hw. split; [lia|done].
Qed.

(** A directory grant a positional asks for: the names it designates, and what
    is below them exactly when the option that says so was given. *)
Definition dir_declared (m : Manifest.Manifest) (options : list Z) (h : Holdings) (expanded : NameSets.Expansion) (pos : list (list Z))
    (next : nat) (d : option DirGrant) : Prop :=
  match d with
  | None => Manifest.dir m = Manifest.DirSpecForbidden
  | Some g => exists sf token, Manifest.dir m = Manifest.DirSpecRequired sf /\ pos !! next = Some token /\ h_dir h = true /\
      designates h expanded token next (g_which g, g_dir g, g_names g) /\
      (g_subtree g = true <-> exists c, sf = Some c /\ c ∈ options)
  end.

Lemma land_bit fl bit : negb (Z.land fl (Z.shiftl 1 (Z.of_nat bit)) =? 0) = Z.testbit fl (Z.of_nat bit).
Proof.
  assert (H : Z.land fl (Z.shiftl 1 (Z.of_nat bit)) = if Z.testbit fl (Z.of_nat bit) then Z.shiftl 1 (Z.of_nat bit) else 0).
  { apply Z.bits_inj'. intros i Hi. rewrite Z.land_spec, Z.shiftl_1_l, Z.pow2_bits_eqb by lia. destruct (Z.eqb_spec (Z.of_nat bit) i) as [<-|Hne]; destruct (Z.testbit fl (Z.of_nat bit)); rewrite ?Z.pow2_bits_eqb, ?Z.bits_0, ?Z.eqb_refl, ?andb_false_r by lia; try done. symmetry. by apply Z.eqb_neq. }
  rewrite H. destruct (Z.testbit fl (Z.of_nat bit)); [|done]. apply negb_true_iff, Z.eqb_neq. rewrite Z.shiftl_1_l. lia.
Qed.

(** The bit of an option is set exactly when the option was given. *)
Lemma option_bit declared options fl c : granted_flags declared options fl -> (forall x, x ∈ options -> x ∈ declared) ->
  match position (fun d => d =? c) declared with Some bit => negb (Z.land fl (Z.shiftl 1 (Z.of_nat bit)) =? 0) | None => false end = true <-> c ∈ options.
Proof.
  intros Hfl Hd. destruct (position (fun d => d =? c) declared) as [bit|] eqn:Hp.
  - rewrite land_bit, (Hfl bit). split; [|intros Hc; by exists c]. intros (x & Hx & Hp'). apply position_Some in Hp as (y & Hy & ->%Z.eqb_eq & _). apply position_Some in Hp' as (z & Hz & ->%Z.eqb_eq & _). congruence.
  - split; [done|]. intros Hc%Hd. apply list_elem_of_lookup in Hc as [i Hi]. pose proof (position_None _ _ Hp i c Hi) as Hn. cbn in Hn. by rewrite Z.eqb_refl in Hn.
Qed.

Lemma plan_dir_yields m fl options pos next h expanded : holdings_ok h -> granted_flags (Manifest.letters (Manifest.flags m)) options fl -> (forall c, c ∈ options -> c ∈ Manifest.letters (Manifest.flags m)) ->
  yields (plan_dir m fl pos next h expanded) (fun dn => dn.2 = (next + dir_slots m)%nat /\ dir_declared m options h expanded pos next dn.1).
Proof.
  intros Hh Hfl Hdec. unfold plan_dir, dir_slots, dir_declared. destruct (Manifest.dir m) as [|sf].
  - apply plan_yields_ok. cbn. split; [lia|done].
  - eapply plan_yields_try; [apply yields_ok_or|]. intros token Ht. destruct (h_dir h) eqn:Hd; cbn [negb]; [|apply plan_yields_err].
    eapply plan_yields_try; [by apply designate_yields|]. intros [[w d] ns] Hdes. apply plan_yields_ok. cbn [fst snd g_which g_dir g_names g_subtree].
    split; [lia|]. exists sf, token. repeat (split; [done|]). destruct sf as [c|]; [|split; [done|naive_solver]]. rewrite (option_bit _ options fl c Hfl Hdec). naive_solver.
Qed.

(** What the words of a line designate, to a program that hears them. *)
Definition heard (m : Manifest.Manifest) (expanded : NameSets.Expansion) : option NameSets.Designation :=
  if Manifest.hears_words (Manifest.arg m) then
    d ← NameSets.designation expanded; if NameSets.designation_is_empty d then None else Some d
  else None.

(** Such a program is granted, where the shell stands, the names its words designate, or
    everything when a word names this directory. *)
Definition words_grant (h : Holdings) (d : NameSets.Designation) : DirGrant :=
  MkDirGrant Nav.A (cwd h) (if NameSets.d_here d then NameSets.empty else NameSets.d_names d) true.

Lemma plan_words_spec m h expanded d d' : plan_words m h expanded d = Ok d' ->
  match heard m expanded with Some x => h_dir h = true /\ d' = Some (words_grant h x) | None => d' = d end.
Proof.
  unfold plan_words, heard. destruct (Manifest.arg m) as [| |wg]; cbn [Manifest.hears_words]; [by intros [= <-]..|].
  destruct (NameSets.designation expanded) as [dd|]; [|by intros [= <-]]. cbn [mbind option_bind].
  destruct (NameSets.designation_is_empty dd); cbn [negb]; [by intros [= <-]|]. destruct (h_dir h); cbn [negb]; [|done]. by intros [= <-].
Qed.

(** What feeds the program: a positional's file, for reading, where the program reads, the
    line fixed nothing and a positional is left; else what the line fixed. *)
Definition source_declared (m : Manifest.Manifest) (h : Holdings) (expanded : NameSets.Expansion) (pos : list (list Z)) (next : nat)
    (st st' : Streams) (next' : nat) : Prop :=
  match Manifest.input m, st_source st, pos !! next with
  | Manifest.InputSpecRequired _, SourceNone, Some _ => exists g, st' = MkStreams (st_sink st) (SourceFile g) (st_diagnostics st) /\ next' = S next /\
      f_writable g = false /\ names_file h expanded pos next g
  | _, _, _ => st' = st /\ next' = next
  end.

Lemma plan_source_yields m pos next h expanded st : holdings_ok h ->
  yields (plan_source m pos next h expanded st) (fun sn => source_declared m h expanded pos next st sn.1 sn.2).
Proof.
  intros Hh. unfold plan_source, source_declared. destruct (Manifest.input m) as [|wwr]; [by apply plan_yields_ok|].
  destruct (st_source st) eqn:Hs; [|by apply plan_yields_ok..]. destruct (pos !! next) as [token|] eqn:Ht; [|by apply plan_yields_ok].
  eapply plan_yields_try; [by apply (file_grant_yields token pos)|]. intros g [Hw Hg]. apply plan_yields_ok. by exists g.
Qed.

Lemma plan_mem_spec m mem pages : plan_mem m mem = Ok pages ->
  match Manifest.mem m with
  | Manifest.MemSpecForbidden => mem = None /\ pages = 0
  | Manifest.MemSpecRequired min max => mem = Some pages /\ min <= pages <= max
  end.
Proof.
  unfold plan_mem. destruct (Manifest.mem m) as [|min max]; destruct mem as [x|]; try done; [by intros [= <-]|].
  destruct (Z.ltb_spec x min); [done|]. destruct (Z.ltb_spec max x); [done|]. intros [= <-]. split; [done|lia].
Qed.

(** Where diagnostics go: to the file the line gave, or else printed, and nowhere for a
    program that declares none. *)
Definition diagnostics_declared (m : Manifest.Manifest) (st : Streams) (d : Diagnostics) : Prop :=
  match Manifest.diagnostics_slot (Manifest.output m), st_diagnostics st with
  | None, given => given = None /\ d = DiagnosticsNone
  | Some _, None => d = DiagnosticsPrinted
  | Some _, Some (g, mo) => d = DiagnosticsFile g mo
  end.

(** The streams fit what the program declares. *)
Definition streams_fit (m : Manifest.Manifest) (st : Streams) (d : Diagnostics) : Prop :=
  (st_sink st = SinkReport \/ Manifest.is_byte_stream (Manifest.output m) = true) /\
  (st_source st = SourceNone <-> Manifest.input m = Manifest.InputSpecForbidden) /\
  diagnostics_declared m st d.

Lemma check_streams_spec m st d : check_streams m st = Ok d -> streams_fit m st d.
Proof.
  unfold check_streams, streams_fit, diagnostics_declared.
  destruct (st_sink st); destruct (Manifest.is_byte_stream _); cbn [andb negb]; try done;
    destruct (Manifest.diagnostics_slot _); destruct (st_diagnostics st) as [[]|]; cbn [mbind result_bind]; try done;
    destruct (Manifest.input m); destruct (st_source st); try done; intros [= <-]; repeat split; naive_solver.
Qed.

Definition arg_declared (m : Manifest.Manifest) (r : ShellWords.RunSpec) (a : Z) (next : nat) : Prop :=
  match Manifest.arg m with
  | Manifest.ArgSpecRequired => next = 1%nat /\ exists tok, ShellWords.positionals r !! 0%nat = Some tok /\ ShellWords.parse_u64 tok = Some a
  | Manifest.ArgSpecForbidden => next = 0%nat /\ a = 0
  | Manifest.ArgSpecWords _ => next = length (ShellWords.positionals r) /\ a = 0 /\ ShellWords.check_words (ShellWords.line_ r) = Ok tt
  end.

Lemma plan_arg_spec m r an : plan_arg m r = Ok an -> arg_declared m r an.1 an.2.
Proof.
  unfold plan_arg, arg_declared. destruct (Manifest.arg m).
  - destruct (ShellWords.positionals r !! 0%nat) as [tok|]; [|done]. cbn [ok_or mbind result_bind].
    destruct (ShellWords.parse_u64 tok) as [v|] eqn:Hv; [|done]. intros [= <-]. cbn. naive_solver.
  - by intros [= <-].
  - destruct (ShellWords.check_words _) as [[]|]; [|done]. by intros [= <-].
Qed.

(** The options that count: a program that hears words is given them as words. *)
Definition heard_options (m : Manifest.Manifest) (r : ShellWords.RunSpec) : list Z :=
  if Manifest.hears_words (Manifest.arg m) then [] else ShellWords.options r.

(** The endowment answers, slot by slot, to the manifest and to the line. [n] positionals
    are the argument's, the next are the file's, the directory's and the input's. *)
Definition answers_to (r : ShellWords.RunSpec) (p : Manifest.Prog) (m : Manifest.Manifest) (h : Holdings)
    (expanded : NameSets.Expansion) (st : Streams) (e : Endowment) : Prop :=
  let pos := ShellWords.positionals r in
  exists n st' n',
    prog e = p /\ ShellWords.misquoted r = None /\
    (is_some (ShellWords.unexpected r) = true -> Manifest.hears_words (Manifest.arg m) = true) /\
    arg_declared m r (arg e) n /\
    granted_flags (Manifest.letters (Manifest.flags m)) (heard_options m r) (flags e) /\
    (forall c, c ∈ heard_options m r -> c ∈ Manifest.letters (Manifest.flags m)) /\
    file_declared m h expanded pos n (file e) /\
    match heard m expanded with
    | Some d => h_dir h = true /\ dir e = Some (words_grant h d)
    | None => dir_declared m (heard_options m r) h expanded pos (n + file_slots m) (dir e)
    end /\
    source_declared m h expanded pos (n + file_slots m + dir_slots m) st st' n' /\ sink e = st_sink st' /\ source e = st_source st' /\
    (length pos <= n')%nat /\ streams_fit m st' (diagnostics e) /\
    match Manifest.mem m with
    | Manifest.MemSpecForbidden => ShellWords.mem r = None /\ mem_pages e = 0
    | Manifest.MemSpecRequired min max => ShellWords.mem r = Some (mem_pages e) /\ min <= mem_pages e <= max
    end /\
    reports e = Manifest.reports m /\ interruptible e = Manifest.interruptible m /\
    (writes_while_reading e = true <-> Manifest.input m = Manifest.InputSpecRequired true).

Lemma plan_yields r p m h expanded st : holdings_ok h ->
  yields (plan_against_with r p m h expanded st) (answers_to r p m h expanded st).
Proof.
  intros Hh. unfold plan_against_with. destruct (ShellWords.misquoted r) eqn:Hmq; [apply plan_yields_err|].
  destruct (is_some (ShellWords.unexpected r) && negb _) eqn:Hun; [apply plan_yields_err|].
  eapply (plan_yields_try _ _ (fun fl => granted_flags (Manifest.letters (Manifest.flags m)) (heard_options m r) fl /\ forall c, c ∈ heard_options m r -> c ∈ Manifest.letters (Manifest.flags m))).
  { apply yields_pure. intros fl. apply plan_flags_ok. }
  intros fl [Hfl Hdec]. eapply (plan_yields_try _ _ (fun an => arg_declared m r an.1 an.2)); [apply yields_pure, plan_arg_spec|]. intros [a n] Ha.
  eapply plan_yields_try; [by apply plan_file_yields|]. intros [f n1] [Hn1 Hf]. cbn [fst snd] in *. subst n1.
  eapply plan_yields_try; [by apply plan_dir_yields|]. intros [d n2] [Hn2 Hd]. cbn [fst snd] in *. subst n2.
  eapply plan_yields_try; [apply yields_pure; intros d'; apply plan_words_spec|]. intros d' Hd'.
  eapply plan_yields_try; [by apply plan_source_yields|]. intros [st' n'] Hst. cbn [fst snd] in *.
  destruct (ShellWords.positionals r !! n') eqn:Hn'; [apply plan_yields_err|]. apply lookup_ge_None in Hn'.
  eapply plan_yields_try; [apply yields_pure; intros pg; apply plan_mem_spec|]. intros pages Hpages.
  eapply plan_yields_try; [apply yields_pure; intros dg Hdg; exact (check_streams_spec _ _ _ Hdg)|]. intros dg Hdg. apply plan_yields_ok.
  exists n, st', n'. split; [done|]. split; [done|]. split; [intros Hu; rewrite Hu in Hun; by apply negb_false_iff in Hun|]. repeat (split; [done|]).
  split; [destruct (heard m expanded); [done|by rewrite Hd']|]. repeat (split; [done|]). cbn [writes_while_reading]. destruct (Manifest.input m) as [|[]]; split; congruence.
Qed.

(** C17: Planning always answers, and what a program is given is exactly what its
    manifest declares and its line designates: the options are those written, by
    their declared bits, each of them declared; the argument is the first positional; the
    file is there exactly when declared, writable exactly when declared so, at the place
    the word leads to and with the name it designates; a program that hears words is
    given, where the shell stands, the names they designate, or all of them; another is
    given a directory exactly when declared, with the names the word designates, and
    what is below them exactly when the option that says so was written; memory is what
    was asked within the declared bounds; what feeds it is what the line fixed, or a
    positional's file, read only; diagnostics go where the line sends them and only
    when declared; no stream is attached that the manifest does not declare; whether it
    reports, can be interrupted and writes while reading is what the manifest says;
    and every positional of the run as parsed was placed. *)
Theorem endowment_is_declared_and_designated r p m h expanded st :
  holdings_ok h ->
  exists answer, plan_against_with r p m h expanded st = Done answer /\
    forall e, answer = Ok e -> answers_to r p m h expanded st e.
Proof. apply plan_yields. Qed.

(** A shell at its root with nothing mounted or bound. *)
Definition plain_shell : Holdings := MkHoldings true None Nav.root Nav.none.

Lemma plain_shell_ok : holdings_ok plain_shell.
Proof.
  split; [exists []; split; [split; [cbn [length]; lia|constructor]|reflexivity]|]. split; [done|].
  exists [None; None; None; None]. split; [reflexivity|split; constructor].
Qed.

Lemma endowment_is_declared_and_designated_witness :
  exists answer, plan_against_with (ShellWords.parse_run (lit "rm -r old/notes")) Manifest.Rm (Manifest.manifest Manifest.Rm)
      plain_shell NameSets.expansion_none default_streams = Done answer /\
    (forall e, answer = Ok e -> answers_to (ShellWords.parse_run (lit "rm -r old/notes")) Manifest.Rm (Manifest.manifest Manifest.Rm)
      plain_shell NameSets.expansion_none default_streams e) /\
    exists e, answer = Ok e /\ flags e = 1 /\ g_dir <$> dir e = Some (Nav.cwd_of [lit "old"]) /\
      NameSets.iter ∘ g_names <$> dir e = Some [(lit "notes", false)] /\ g_subtree <$> dir e = Some true.
Proof.
  destruct (endowment_is_declared_and_designated (ShellWords.parse_run (lit "rm -r old/notes")) Manifest.Rm (Manifest.manifest Manifest.Rm)
    plain_shell NameSets.expansion_none default_streams plain_shell_ok) as (answer & H1 & H2).
  exists answer. split; [exact H1|]. split; [exact H2|]. vm_compute in H1. injection H1 as <-. eexists. split; [reflexivity|].
  repeat split.
Defined.
End GrantPlan.
