(* ===== verification/Revocation.v ===== *)
(** * Revocation (kernel/src/revoke.rs, the sweeps of sched.rs, the mapping handlers of syscall.rs)

    Every mapping made under a capability, and every mapping the kernel wires
    into a space, is recorded in the log of the address space it was made in:
    pages of the space's own region, linked from the space's slot in a fixed
    registry. Taking a run of frames back deletes the capabilities that name it,
    also one parked in a hand-off slot, and unmaps the mappings made under it;
    reclaiming a region unmaps its pages from every space.

    Page tables are kept here as what they translate, for the mappings that are
    recorded; [Mapper] shows that mapping and unmapping a page do that. *)

From S2P Require Import Prelude Capability PageFormat Mapper.
Local Open Scope Z_scope.

Module Revocation.

Definition FRAME_SIZE : Z := 4096.

(** ** What a capability names (kernel/src/cap.rs) *)

Inductive Object :=
  | ORendezvous (ep badge : Z)
  | OMemoryRegion (region : Z)
  | OIrq (intid : Z)
  | OPageFrame (phys count : Z)
  | ODeviceFrame (phys : Z)
  | OReply (tid : Z)
  | OAddressSpace (name : Z)
  | OThreadControlBlock (tid : Z)
  | ONotification (id : Z)
  | OTimer (id : Z)
  | OVirtio (id : Z)
  | OPortRange (base count : Z).

#[export] Instance Object_eq_dec : EqDecision Object.
Proof. solve_decision. Defined.

Notation Cap := (Capability.Cap Object).

Definition CAPABILITY_TABLE_SLOTS : nat := 32.

(** ** The log *)

Record LogEntry := MkEntry { e_phys : Z; e_va : Z; e_object : Z }.

#[export] Instance LogEntry_eq_dec : EqDecision LogEntry.
Proof. solve_decision. Defined.

Definition LOG_ENTRIES : nat := 170.

Definition log_pages_for (n : Z) : Z := div_ceil n (Z.of_nat LOG_ENTRIES).

Inductive PageMapSource := FromCapability (base : Z) | NoCapability.

Definition source_object (s : PageMapSource) (phys : Z) : Z :=
  match s with FromCapability base => base | NoCapability => phys end.

Record LogPage := MkLogPage { next : Z; used : nat; entries : list LogEntry }.

Record SpaceLog := MkSpaceLog { root : Z; region : Z; head : Z }.

Definition MAX_THREADS : nat := 256.
Definition MAX_SPACES : nat := MAX_THREADS + 32.

(** ** The registry *)

Record Registry := MkRegistry { spaces : list (option SpaceLog); top : nat }.

Definition registry_new : Registry := MkRegistry (replicate MAX_SPACES None) 0.

(** [self.spaces[..self.top].iter().flatten()]. *)
Definition live (r : Registry) : list SpaceLog := omap (fun o => o) (take (top r) (spaces r)).

Definition claim (r : Registry) (log : SpaceLog) : bool * Registry :=
  match position (fun s : option SpaceLog => is_none s) (spaces r) with
  | None => (false, r)
  | Some slot => (true, MkRegistry (<[slot := Some log]> (spaces r)) (if (top r <=? slot)%nat then S slot else top r))
  end.

Definition has_root (rt : Z) (o : option SpaceLog) : bool := match o with Some s => root s =? rt | None => false end.

(** The [for _ in 0..MAX_SPACES] loop that lowers the top over empty slots. *)
Fixpoint lower_top (fuel : nat) (ss : list (option SpaceLog)) (t : nat) : nat :=
  match fuel, t with
  | S fuel', S t' => match ss !! t' with Some (Some _) => t | _ => lower_top fuel' ss t' end
  | _, _ => t
  end.

Definition release (r : Registry) (rt : Z) : Registry :=
  let ss := ((fun o => if has_root rt o then None else o) <$> take (top r) (spaces r)) ++ drop (top r) (spaces r) in
  MkRegistry ss (lower_top MAX_SPACES ss (top r)).

(** ** The kernel's state *)

Record Thread := MkThread { t_id : Z; capability_table : Capability.CapabilityTable Object; outgoing_cap : option Cap }.

(** Where region pages come from: [memory_region::retype_page], which never
    hands the same page out twice. [handed] is the pages that are out. *)
Class PageSource (R : Type) := {
  retype_page : R -> Z -> option (Z * R);
  handed : R -> gset Z;
  retype_new r g p r' : retype_page r g = Some (p, r') -> p ∉ handed r /\ handed r' = {[p]} ∪ handed r;
  handed_page r p : p ∈ handed r -> 0 < p < 2 ^ 64 /\ (FRAME_SIZE | p) }.

Lemma retype_fresh {R} `{!PageSource R} (r r' : R) g p : retype_page r g = Some (p, r') ->
  0 < p < 2 ^ 64 /\ (FRAME_SIZE | p) /\ p ∉ handed r /\ handed r' = {[p]} ∪ handed r.
Proof.
  intros [Hn Hh]%retype_new. assert (Hp : p ∈ handed r') by (rewrite Hh; set_solver). apply handed_page in Hp as [? ?]. done.
Qed.

Section kernel.
Context {R : Type} `{PS : !PageSource R}.

Record Kernel := MkKernel {
  registry : Registry;
  logs : gmap Z LogPage;
  tables : gmap (Z * Z) (Z * PageFormat.Flags);
  threads : list Thread;
  PEAK : Z;
  regions : R
}.

Definition set_registry (k : Kernel) (r : Registry) : Kernel := MkKernel r (logs k) (tables k) (threads k) (PEAK k) (regions k).
Definition set_logs (k : Kernel) (l : gmap Z LogPage) : Kernel := MkKernel (registry k) l (tables k) (threads k) (PEAK k) (regions k).
Definition set_tables (k : Kernel) (t : gmap (Z * Z) (Z * PageFormat.Flags)) : Kernel := MkKernel (registry k) (logs k) t (threads k) (PEAK k) (regions k).
Definition set_threads (k : Kernel) (t : list Thread) : Kernel := MkKernel (registry k) (logs k) (tables k) t (PEAK k) (regions k).
Definition set_regions (k : Kernel) (r : R) : Kernel := MkKernel (registry k) (logs k) (tables k) (threads k) (PEAK k) r.

Definition register_space (k : Kernel) (rt rg : Z) : bool * Kernel :=
  let '(ok, r) := claim (registry k) (MkSpaceLog rt rg 0) in (ok, set_registry k r).

Definition forget_root (k : Kernel) (rt : Z) : Kernel := set_registry k (release (registry k) rt).

(** [mmu::unmap_user_at]. *)
Definition unmap_user_at (t : gmap (Z * Z) (Z * PageFormat.Flags)) (rt va : Z) : gmap (Z * Z) (Z * PageFormat.Flags) :=
  base.delete (rt, va) t.

(** ** Recording *)

(** The first tombstone of a page, or its next free entry. *)
Definition place_in (pg : LogPage) (e : LogEntry) : option LogPage :=
  match position (fun x => e_phys x =? 0) (take (used pg) (entries pg)) with
  | Some i => Some (MkLogPage (next pg) (used pg) (<[i := e]> (entries pg)))
  | None =>
      if (used pg <? LOG_ENTRIES)%nat then Some (MkLogPage (next pg) (S (used pg)) (<[used pg := e]> (entries pg)))
      else None
  end.

(** Walks the pages of a log from [p]; [None] when no page has room. *)
Fixpoint record_in (fuel : nat) (l : gmap Z LogPage) (p : Z) (e : LogEntry) : run (option (gmap Z LogPage)) :=
  if p =? 0 then Done None
  else
    match fuel, l !! p with
    | S fuel', Some pg =>
        match place_in pg e with
        | Some pg' => Done (Some (<[p := pg']> l))
        | None => record_in fuel' l (next pg) e
        end
    | _, _ => Panicked
    end.

Definition chain_fuel (l : gmap Z LogPage) : nat := S (size l).

(** A page fresh from a region is zero. *)
Definition zero_page : LogPage := MkLogPage 0 0 (replicate LOG_ENTRIES (MkEntry 0 0 0)).

(** Puts the head of the [i]th space's log. *)
Definition set_head (r : Registry) (i : nat) (h : Z) : Registry :=
  match spaces r !! i with
  | Some (Some s) => MkRegistry (<[i := Some (MkSpaceLog (root s) (region s) h)]> (spaces r)) (top r)
  | _ => r
  end.

Definition find_space (r : Registry) (rt : Z) : option nat := position (has_root rt) (take (top r) (spaces r)).

Definition record_mapping (k : Kernel) (phys rt va : Z) (under : PageMapSource) : run (bool * Kernel) :=
  let object := source_object under phys in
  if negb ((object <=? phys) && is_multiple_of (phys - object) FRAME_SIZE) then Panicked
  else
    match find_space (registry k) rt with
    | None => Done (false, k)
    | Some i =>
        match spaces (registry k) !! i with
        | Some (Some s) =>
            let e := MkEntry phys va object in
            o ← record_in (chain_fuel (logs k)) (logs k) (head s) e;
            match (o : option (gmap Z LogPage)) with
            | Some l => Done (true, set_logs k l)
            | None =>
                match retype_page (regions k) (region s) with
                | None => Done (false, k)
                | Some (fresh, rs) =>
                    let pg := MkLogPage (head s) 1 (<[0%nat := e]> (entries zero_page)) in
                    Done (true, MkKernel (set_head (registry k) i fresh) (<[fresh := pg]> (logs k)) (tables k) (threads k) (PEAK k) rs)
                end
            end
        | _ => Panicked
        end
    end.

(** ** Forgetting one mapping *)

Definition tombstone (e : LogEntry) : LogEntry := MkEntry 0 (e_va e) (e_object e).

Fixpoint forget_in (fuel : nat) (l : gmap Z LogPage) (p phys va : Z) : run (gmap Z LogPage) :=
  if p =? 0 then Done l
  else
    match fuel, l !! p with
    | S fuel', Some pg =>
        match position (fun e => (e_phys e =? phys) && (e_va e =? va)) (take (used pg) (entries pg)) with
        | Some i => Done (<[p := MkLogPage (next pg) (used pg) (alter tombstone i (entries pg))]> l)
        | None => forget_in fuel' l (next pg) phys va
        end
    | _, _ => Panicked
    end.

Definition forget_mapping (k : Kernel) (phys rt va : Z) : run Kernel :=
  match find_space (registry k) rt with
  | Some i =>
      match spaces (registry k) !! i with
      | Some (Some s) => l ← forget_in (chain_fuel (logs k)) (logs k) (head s) phys va; Done (set_logs k l)
      | _ => Panicked
      end
  | None => Done k
  end.

(** ** Unmapping *)

Definition matches_entry (phys : Z) (object : option Z) (e : LogEntry) : bool :=
  (e_phys e =? phys) && match object with Some o => e_object e =? o | None => true end.

(** The entries of one page, first to last. *)
Fixpoint unmap_entries (rt phys : Z) (object : option Z) (es : list LogEntry) (t : gmap (Z * Z) (Z * PageFormat.Flags)) :
    list LogEntry * gmap (Z * Z) (Z * PageFormat.Flags) :=
  match es with
  | [] => ([], t)
  | e :: rest =>
      if matches_entry phys object e then
        let '(rest', t') := unmap_entries rt phys object rest (unmap_user_at t rt (e_va e)) in (tombstone e :: rest', t')
      else
        let '(rest', t') := unmap_entries rt phys object rest t in (e :: rest', t')
  end.

Fixpoint unmap_pages (fuel : nat) (rt p phys : Z) (object : option Z) (l : gmap Z LogPage) (t : gmap (Z * Z) (Z * PageFormat.Flags)) :
    run (gmap Z LogPage * gmap (Z * Z) (Z * PageFormat.Flags)) :=
  if p =? 0 then Done (l, t)
  else
    match fuel, l !! p with
    | S fuel', Some pg =>
        let '(es, t') := unmap_entries rt phys object (take (used pg) (entries pg)) t in
        unmap_pages fuel' rt (next pg) phys object (<[p := MkLogPage (next pg) (used pg) (es ++ drop (used pg) (entries pg))]> l) t'
    | _, _ => Panicked
    end.

Fixpoint unmap_spaces (fuel : nat) (ss : list SpaceLog) (phys spare : Z) (object : option Z) (l : gmap Z LogPage)
    (t : gmap (Z * Z) (Z * PageFormat.Flags)) : run (gmap Z LogPage * gmap (Z * Z) (Z * PageFormat.Flags)) :=
  match ss with
  | [] => Done (l, t)
  | s :: rest =>
      if root s =? spare then unmap_spaces fuel rest phys spare object l t
      else
        '(l', t') ← unmap_pages fuel (root s) (head s) phys object l t;
        unmap_spaces fuel rest phys spare object l' t'
  end.

Definition unmap_matching (k : Kernel) (phys spare : Z) (object : option Z) : run Kernel :=
  '(l, t) ← unmap_spaces (chain_fuel (logs k)) (live (registry k)) phys spare object (logs k) (tables k);
  Done (set_tables (set_logs k l) t).

Definition unmap_everywhere (k : Kernel) (phys spare : Z) : run Kernel := unmap_matching k phys spare None.
Definition unmap_under_object (k : Kernel) (phys object : Z) : run Kernel := unmap_matching k phys 0 (Some object).

(** ** The sweeps of the capability tables (kernel/src/sched.rs) *)

Definition sweep_thread (peak : Z) (matches : Object -> bool) (t : Thread) : run Thread :=
  match Capability.delete_matching CAPABILITY_TABLE_SLOTS matches (Capability.MkWorld (capability_table t) peak) with
  | None => Panicked
  | Some w =>
      Done (MkThread (t_id t) (Capability.table w)
              (match outgoing_cap t with Some c => if matches (Capability.object c) then None else Some c | None => None end))
  end.

Fixpoint sweep_threads (peak : Z) (matches : Object -> bool) (ts : list Thread) : run (list Thread) :=
  match ts with
  | [] => Done []
  | t :: rest => t' ← sweep_thread peak matches t; rest' ← sweep_threads peak matches rest; Done (t' :: rest')
  end.

Definition delete_page_frame_caps_where (k : Kernel) (matches : Object -> bool) : run Kernel :=
  ts ← sweep_threads (PEAK k) matches (threads k); Done (set_threads k ts).

Definition delete_page_frame_caps (k : Kernel) (phys count : Z) : run Kernel :=
  if count =? 0 then Done k
  else delete_page_frame_caps_where k (fun o => bool_decide (o = OPageFrame phys count)).

Definition overlaps (base size : Z) (o : Object) : bool :=
  let end_ := saturating_add 64 base size in
  match o with
  | OPageFrame phys count =>
      let run_end := saturating_add 64 phys (Z.min u64_max (count * FRAME_SIZE)) in
      (phys <? end_) && (base <? run_end)
  | _ => false
  end.

Definition delete_page_frame_caps_overlapping (k : Kernel) (base size : Z) : run Kernel :=
  delete_page_frame_caps_where k (overlaps base size).

(** ** Revoking *)

(** [for k in 0..count], from page [i] on. *)
Fixpoint unmap_run (n : nat) (k : Kernel) (phys i : Z) : run Kernel :=
  match n with
  | O => Done k
  | S n' => k' ← unmap_under_object k (wrap 64 (phys + i * FRAME_SIZE)) phys; unmap_run n' k' phys (i + 1)
  end.

Definition revoke_page_frame_run (k : Kernel) (phys count : Z) : run Kernel :=
  k1 ← delete_page_frame_caps k phys count;
  unmap_run (Z.to_nat count) k1 phys 0.

Definition revoke_page_frame (k : Kernel) (phys : Z) : run Kernel := revoke_page_frame_run k phys 1.

(** The first recorded page of the range in one log, then in any. *)
Fixpoint find_in (fuel : nat) (l : gmap Z LogPage) (p base size : Z) : run (option Z) :=
  if p =? 0 then Done None
  else
    match fuel, l !! p with
    | S fuel', Some pg =>
        match find (fun e => (base <=? e_phys e) && (e_phys e <? wrap 64 (base + size))) (take (used pg) (entries pg)) with
        | Some e => Done (Some (e_phys e))
        | None => find_in fuel' l (next pg) base size
        end
    | _, _ => Panicked
    end.

Fixpoint find_victim (fuel : nat) (ss : list SpaceLog) (l : gmap Z LogPage) (base size : Z) : run (option Z) :=
  match ss with
  | [] => Done None
  | s :: rest =>
      o ← find_in fuel l (head s) base size;
      match (o : option Z) with Some p => Done (Some p) | None => find_victim fuel rest l base size end
  end.

Fixpoint revoke_loop (fuel : nat) (k : Kernel) (base size : Z) : run Kernel :=
  match fuel with
  | O => Panicked
  | S fuel' =>
      o ← find_victim (chain_fuel (logs k)) (live (registry k)) (logs k) base size;
      match (o : option Z) with
      | Some phys => k' ← unmap_everywhere k phys 0; revoke_loop fuel' k' base size
      | None => Done k
      end
  end.

(** As many turns as there are entries, and one to see there are no more. *)
Definition revoke_fuel (l : gmap Z LogPage) : nat := S (size l * LOG_ENTRIES).

Definition revoke_region (k : Kernel) (base size : Z) : run Kernel :=
  k1 ← delete_page_frame_caps_overlapping k base size;
  revoke_loop (revoke_fuel (logs k1)) k1 base size.

(** ** What a log holds *)

Definition page_ok (pg : LogPage) : Prop := length (entries pg) = LOG_ENTRIES /\ (used pg <= LOG_ENTRIES)%nat.

Definition live_entries (es : list LogEntry) : list LogEntry := filter (fun e => e_phys e <> 0) es.

Definition page_live (pg : LogPage) : list LogEntry := live_entries (take (used pg) (entries pg)).

(** The pages linked from [p], with what they hold. *)
Fixpoint chain (l : gmap Z LogPage) (p : Z) (ps : list (Z * LogPage)) : Prop :=
  match ps with
  | [] => p = 0
  | (a, pg) :: rest => p = a /\ a <> 0 /\ l !! a = Some pg /\ page_ok pg /\ chain l (next pg) rest
  end.

Definition log_of (ps : list (Z * LogPage)) : list LogEntry := concat (page_live <$> ps.*2).

Lemma chain_frame l l' p ps : (forall a, a ∈ ps.*1 -> l' !! a = l !! a) -> chain l p ps -> chain l' p ps.
Proof.
  revert p. induction ps as [|[a pg] ps IH]; intros p Hf; cbn [chain]; [done|]. intros (-> & H0 & Hl & Hok & Hc).
  split; [done|]. split; [done|]. split; [rewrite Hf; [done|constructor]|]. split; [done|]. apply IH; [|done].
  intros b Hb. apply Hf. by constructor.
Qed.

Lemma chain_dom l p ps : chain l p ps -> (list_to_set ps.*1 : gset Z) ⊆ dom l.
Proof.
  revert p. induction ps as [|[a pg] ps IH]; intros p; [set_solver|]. intros (_ & _ & Hl & _ & Hc).
  apply IH in Hc. cbn [fmap list_fmap fst list_to_set]. apply elem_of_dom_2 in Hl. set_solver.
Qed.

(** The fuel of a walk is enough. *)
Lemma chain_short l p ps : chain l p ps -> NoDup ps.*1 -> (length ps < chain_fuel l)%nat.
Proof.
  intros Hc Hnd. apply chain_dom in Hc. apply subseteq_size in Hc. rewrite size_dom, size_list_to_set, length_fmap in Hc by done.
  unfold chain_fuel. lia.
Qed.

(** ** Unmapping a page of entries *)

Definition unmapped (phys : Z) (object : option Z) (e : LogEntry) : LogEntry := if matches_entry phys object e then tombstone e else e.

Definition cleared (rt : Z) (es : list LogEntry) (t : gmap (Z * Z) (Z * PageFormat.Flags)) : gmap (Z * Z) (Z * PageFormat.Flags) :=
  foldl (fun t e => base.delete (rt, e_va e) t) t es.

Definition hit (phys : Z) (object : option Z) (es : list LogEntry) : list LogEntry := filter (fun e => matches_entry phys object e = true) es.
Definition missed (phys : Z) (object : option Z) (es : list LogEntry) : list LogEntry := filter (fun e => matches_entry phys object e = false) es.

Lemma unmap_entries_spec rt phys object es t :
  unmap_entries rt phys object es t = (unmapped phys object <$> es, cleared rt (hit phys object es) t).
Proof.
  revert t. induction es as [|e es IH]; intros t; [done|]. cbn [unmap_entries fmap list_fmap]. unfold unmapped at 1, hit.
  rewrite filter_cons. destruct (matches_entry phys object e); rewrite IH; (destruct (decide _); [|done || congruence]); done || congruence.
Qed.

Lemma live_unmapped phys object es : phys <> 0 -> live_entries (unmapped phys object <$> es) = missed phys object (live_entries es).
Proof.
  intros Hp. unfold live_entries, missed. induction es as [|e es IH]; [done|]. cbn [fmap list_fmap]. unfold unmapped at 1.
  destruct (matches_entry phys object e) eqn:Hm.
  - rewrite filter_cons_False by (intros Hq; by apply Hq). rewrite IH. symmetry. rewrite (filter_cons_True _ e).
    + by rewrite filter_cons_False by congruence.
    + unfold matches_entry in Hm. apply andb_true_iff in Hm as [->%Z.eqb_eq _]. done.
  - rewrite !(filter_cons _ e). destruct (decide (e_phys e <> 0)); [|done]. rewrite filter_cons_True by done. by rewrite IH.
Qed.

Lemma hit_live phys object es : phys <> 0 -> hit phys object es = hit phys object (live_entries es).
Proof.
  intros Hp. unfold hit, live_entries. rewrite list_filter_filter. apply list_filter_iff. intros e. split; [|by intros [? _]].
  intros Hm. split; [done|]. unfold matches_entry in Hm. by apply andb_true_iff in Hm as [->%Z.eqb_eq _].
Qed.

Definition unmapped_page (phys : Z) (object : option Z) (pg : LogPage) : LogPage :=
  MkLogPage (next pg) (used pg) ((unmapped phys object <$> take (used pg) (entries pg)) ++ drop (used pg) (entries pg)).

Lemma unmapped_page_ok phys object pg : page_ok pg -> page_ok (unmapped_page phys object pg).
Proof.
  intros [H1 H2]. split; [|done]. cbn [entries unmapped_page]. rewrite length_app, length_fmap, <- length_app, take_drop. done.
Qed.

Lemma unmapped_page_live phys object pg : phys <> 0 -> page_ok pg ->
  page_live (unmapped_page phys object pg) = missed phys object (page_live pg).
Proof.
  intros Hp [H1 H2]. unfold page_live, unmapped_page. cbn [used entries]. rewrite take_app_le by (rewrite length_fmap, length_take; lia).
  rewrite take_ge by (rewrite length_fmap, length_take; lia). by apply live_unmapped.
Qed.

Lemma cleared_app rt a b t : cleared rt (a ++ b) t = cleared rt b (cleared rt a t).
Proof. apply foldl_app. Qed.

Lemma hit_app phys object a b : hit phys object (a ++ b) = hit phys object a ++ hit phys object b.
Proof. apply filter_app. Qed.
Lemma missed_app phys object a b : missed phys object (a ++ b) = missed phys object a ++ missed phys object b.
Proof. apply filter_app. Qed.

Lemma unmap_pages_spec fuel rt p phys object l t ps :
  phys <> 0 -> chain l p ps -> NoDup ps.*1 -> (length ps < fuel)%nat ->
  exists l' ps', unmap_pages fuel rt p phys object l t = Done (l', cleared rt (hit phys object (log_of ps)) t) /\
    chain l' p ps' /\ ps'.*1 = ps.*1 /\ log_of ps' = missed phys object (log_of ps) /\
    dom l' = dom l /\ (forall a, a ∉ ps.*1 -> l' !! a = l !! a).
Proof.
  intros Hp. revert fuel p l t. induction ps as [|[a pg] ps IH]; intros fuel p l t Hc Hnd Hf; cbn [chain] in Hc.
  - subst p. exists l, []. destruct fuel; done.
  - destruct Hc as (-> & Ha & Hl & Hok & Hc). destruct fuel as [|fuel]; [cbn [length] in Hf; lia|]. cbn [unmap_pages].
    rewrite (proj2 (Z.eqb_neq a 0) Ha), Hl, unmap_entries_spec. apply NoDup_cons in Hnd as [Hna Hnd].
    change (MkLogPage (next pg) (used pg) _) with (unmapped_page phys object pg).
    destruct (IH fuel (next pg) (<[a := unmapped_page phys object pg]> l) (cleared rt (hit phys object (take (used pg) (entries pg))) t))
      as (l' & ps' & Hr & Hc' & Hk & Hlog & Hdom & Hfr); [|done|cbn [length] in Hf; lia|].
    { eapply chain_frame; [|exact Hc]. intros b Hb. apply lookup_insert_ne. by intros ->. }
    exists l', ((a, unmapped_page phys object pg) :: ps'). rewrite Hr. split.
    + change (log_of ((a, pg) :: ps)) with (page_live pg ++ log_of ps). unfold page_live. by rewrite hit_app, cleared_app, <- hit_live.
    + split; [cbn [chain]; split; [done|]; split; [done|]; split|split; [|split]].
      * rewrite Hfr by done. apply lookup_insert_eq.
      * split; [by apply unmapped_page_ok|exact Hc'].
      * cbn [fmap list_fmap fst]. by rewrite Hk.
      * change (log_of (?x :: ?y)) with (page_live x.2 ++ log_of y). cbn [snd]. by rewrite missed_app, Hlog, unmapped_page_live.
      * split; [rewrite Hdom, dom_insert_L; apply elem_of_dom_2 in Hl; set_solver|].
        intros b Hb. apply not_elem_of_cons in Hb as [Hb1 Hb2]. rewrite Hfr by done. by apply lookup_insert_ne.
Qed.

Lemma cleared_lookup rt es t rt' va :
  cleared rt es t !! (rt', va) = if decide (rt' = rt /\ va ∈ e_va <$> es) then None else t !! (rt', va).
Proof.
  unfold cleared. revert t. induction es as [|e es IH]; intros t; cbn [foldl fmap list_fmap].
  - rewrite decide_False; [done|]. intros [_ Hq]. by apply not_elem_of_nil in Hq.
  - rewrite IH. destruct (decide (rt' = rt /\ va ∈ e_va <$> es)) as [[-> Hin]|Hn].
    + rewrite decide_True; [done|]. split; [done|]. by constructor.
    + destruct (decide ((rt, e_va e) = (rt', va))) as [[= <- <-]|Hne].
      * rewrite lookup_delete_eq. rewrite decide_True; [done|]. split; [done|constructor].
      * rewrite lookup_delete_ne by done. rewrite decide_False; [done|]. intros [-> [->|Hq]%elem_of_cons]; naive_solver.
Qed.

(** ** All the logs together *)

Definition chains (l : gmap Z LogPage) (ss : list SpaceLog) (pss : list (list (Z * LogPage))) : Prop :=
  Forall2 (fun s ps => chain l (head s) ps) ss pss.

Definition pages_of (pss : list (list (Z * LogPage))) : list Z := (concat pss).*1.

(** What is recorded, space by space. *)
Definition view (ss : list SpaceLog) (pss : list (list (Z * LogPage))) : list (Z * list LogEntry) :=
  zip_with (fun s ps => (root s, log_of ps)) ss pss.

Definition swept (phys spare : Z) (object : option Z) (v : list (Z * list LogEntry)) : list (Z * list LogEntry) :=
  (fun a => if a.1 =? spare then a else (a.1, missed phys object a.2)) <$> v.

Definition clear_view (phys spare : Z) (object : option Z) (v : list (Z * list LogEntry)) (t : gmap (Z * Z) (Z * PageFormat.Flags)) :
    gmap (Z * Z) (Z * PageFormat.Flags) :=
  foldl (fun t a => if a.1 =? spare then t else cleared a.1 (hit phys object a.2) t) t v.

Lemma chains_frame l l' ss pss : (forall a, a ∈ pages_of pss -> l' !! a = l !! a) -> chains l ss pss -> chains l' ss pss.
Proof.
  intros Hf Hc. induction Hc as [|s ps ss pss Hs Hc IH]; [constructor|]. constructor.
  - eapply chain_frame; [|exact Hs]. intros a Ha. apply Hf. unfold pages_of. cbn [concat]. rewrite fmap_app. set_solver.
  - apply IH. intros a Ha. apply Hf. unfold pages_of in *. cbn [concat]. rewrite fmap_app. set_solver.
Qed.

Lemma pages_cons ps pss : pages_of (ps :: pss) = ps.*1 ++ pages_of pss.
Proof. apply fmap_app. Qed.

Lemma unmap_spaces_spec fuel ss phys spare object l t pss :
  phys <> 0 -> chains l ss pss -> NoDup (pages_of pss) -> Forall (fun ps => (length ps < fuel)%nat) pss ->
  exists l' pss', unmap_spaces fuel ss phys spare object l t = Done (l', clear_view phys spare object (view ss pss) t) /\
    chains l' ss pss' /\ pages_of pss' = pages_of pss /\ view ss pss' = swept phys spare object (view ss pss) /\
    dom l' = dom l /\ (forall a, a ∉ pages_of pss -> l' !! a = l !! a).
Proof.
  intros Hp. revert l t pss. induction ss as [|s ss IH]; intros l t pss0 Hc0 Hnd Hf; inversion Hc0 as [|? ps ? pss Hs Hc]; subst; [by exists l, []|].
  rewrite pages_cons in Hnd. apply NoDup_app in Hnd as (Hnd1 & Hdis & Hnd2). inversion Hf as [|? ? Hf1 Hf2]; subst. cbn [unmap_spaces].
  unfold view, clear_view, swept. cbn [zip_with foldl fmap list_fmap fst snd]. destruct (root s =? spare) eqn:Hsp.
  - destruct (IH l t pss Hc Hnd2 Hf2) as (l' & pss' & Hr & Hc' & Hk & Hv & Hd & Hfr). exists l', (ps :: pss'). split; [exact Hr|].
    split; [constructor; [|done]; eapply chain_frame; [|exact Hs]; intros a Ha; apply Hfr; auto|]. split; [by rewrite !pages_cons, Hk|].
    split; [by f_equal|]. split; [done|]. intros a Ha. rewrite pages_cons in Ha. apply Hfr. set_solver.
  - destruct (unmap_pages_spec fuel (root s) (head s) phys object l t ps Hp Hs Hnd1 Hf1) as (l1 & ps' & Hr1 & Hc1 & Hk1 & Hlog1 & Hd1 & Hfr1).
    rewrite Hr1. cbn [mbind run_bind]. assert (Hc2 : chains l1 ss pss).
    { eapply chains_frame; [|exact Hc]. intros a Ha. apply Hfr1. intros Hin. by apply (Hdis a). }
    destruct (IH l1 (cleared (root s) (hit phys object (log_of ps)) t) pss Hc2 Hnd2 Hf2) as (l' & pss' & Hr & Hc' & Hk & Hv & Hd & Hfr).
    exists l', (ps' :: pss'). split; [exact Hr|]. split.
    { constructor; [|done]. eapply chain_frame; [|exact Hc1]. intros a Ha. apply Hfr. rewrite Hk1 in Ha. auto. }
    split; [by rewrite !pages_cons, Hk, Hk1|]. split; [rewrite Hlog1; by f_equal|]. split; [congruence|].
    intros a Ha. rewrite pages_cons in Ha. rewrite Hfr, Hfr1 by set_solver. done.
Qed.

Lemma clear_view_lookup phys spare object v t rt va x :
  clear_view phys spare object v t !! (rt, va) = Some x <->
  t !! (rt, va) = Some x /\ (rt <> spare -> forall es, (rt, es) ∈ v -> va ∉ e_va <$> hit phys object es).
Proof.
  unfold clear_view. revert t. induction v as [|[r es] v IH]; intros t; cbn [foldl].
  - split; [intros Hx; split; [done|]; intros _ es ?%not_elem_of_nil; done|by intros [? _]].
  - rewrite IH. cbn [fst snd]. destruct (Z.eqb_spec r spare) as [->|Hr].
    + split; (intros [Hx Hall]; split; [done|]); intros Hne es' Hin; apply Hall; [done| |done|by constructor].
      apply elem_of_cons in Hin as [[= -> ->]|Hin]; [congruence|done].
    + rewrite cleared_lookup. split.
      * intros [Hx Hall]. destruct (decide _) as [|Hn]; [done|]. split; [done|]. intros Hne es' [[= -> ->]|Hin]%elem_of_cons; [naive_solver|by apply Hall].
      * intros [Hx Hall]. rewrite decide_False; [|intros [-> Hin]; by apply (Hall Hr es); [constructor|]]. split; [done|].
        intros Hne es' Hin. apply Hall; [done|by constructor].
Qed.

(** [map_new], with which a loader fills a space of its own, records nothing. Where it
    mapped is known here as a set of places, which no part of the kernel keeps. *)
Context {loaded : gset (Z * Z)}.

(** A log and a page table say the same of the mappings that are recorded: all but
    those at the places [loaded]. *)
Definition agrees (t : gmap (Z * Z) (Z * PageFormat.Flags)) (v : list (Z * list LogEntry)) : Prop :=
  NoDup v.*1 /\
  forall rt es, (rt, es) ∈ v -> NoDup (e_va <$> es) /\
    forall va phys, (exists o, MkEntry phys va o ∈ es) <-> (rt, va) ∉ loaded /\ exists fl, t !! (rt, va) = Some (phys, fl).

Lemma key_unique {X} (v : list (Z * X)) k x y : NoDup v.*1 -> (k, x) ∈ v -> (k, y) ∈ v -> x = y.
Proof.
  intros Hnd (i & Hi)%list_elem_of_lookup (j & Hj)%list_elem_of_lookup. assert (i = j) as ->; [|congruence].
  eapply (NoDup_lookup v.*1); [done|by rewrite list_lookup_fmap, Hi|by rewrite list_lookup_fmap, Hj].
Qed.

Lemma va_unique es e1 e2 : NoDup (e_va <$> es) -> e1 ∈ es -> e2 ∈ es -> e_va e1 = e_va e2 -> e1 = e2.
Proof.
  intros Hnd (i & Hi)%list_elem_of_lookup (j & Hj)%list_elem_of_lookup He. assert (i = j) as ->; [|congruence].
  eapply (NoDup_lookup (e_va <$> es)); [done|by rewrite list_lookup_fmap, Hi|rewrite list_lookup_fmap, Hj; cbn; congruence].
Qed.

Lemma swept_elem phys spare object v rt es' : (rt, es') ∈ swept phys spare object v <->
  exists es, (rt, es) ∈ v /\ es' = if rt =? spare then es else missed phys object es.
Proof.
  unfold swept. rewrite list_elem_of_fmap. split.
  - intros ([r es] & He & Hin). cbn [fst snd] in He. exists es. destruct (Z.eqb_spec r spare); injection He as -> ->; (split; [done|]);
      [by rewrite (proj2 (Z.eqb_eq _ _))|by rewrite (proj2 (Z.eqb_neq _ _))].
  - intros (es & Hin & ->). exists (rt, es). split; [|done]. cbn [fst snd]. by destruct (rt =? spare).
Qed.

Lemma agrees_swept t v phys spare object : agrees t v -> agrees (clear_view phys spare object v t) (swept phys spare object v).
Proof.
  intros [Hnd Ha]. split.
  - unfold swept. rewrite <- list_fmap_compose. erewrite list_fmap_ext; [exact Hnd|]. intros i [r es] _. unfold compose. cbn. by destruct (r =? spare).
  - intros rt es' (es & Hin & ->)%swept_elem. destruct (Ha rt es Hin) as [Hva Hes].
    split; [destruct (rt =? spare); [done|]; eapply sublist_NoDup; [exact Hva|]; apply fmap_sublist, sublist_filter|].
    intros va ph. setoid_rewrite clear_view_lookup. destruct (Z.eqb_spec rt spare) as [->|Hr].
    { rewrite Hes. split; intros [Hn [fl Hfl]]; (split; [done|]); exists fl; [by split|naive_solver]. }
    split.
    + intros (o & [Hm He]%list_elem_of_filter). destruct (proj1 (Hes va ph) (ex_intro _ o He)) as [Hn [fl Hfl]]. split; [done|]. exists fl. split; [done|].
      intros _ es2 Hin2. rewrite (key_unique v rt es2 es Hnd Hin2 Hin). intros (e2 & Hv2 & [Hm2 He2]%list_elem_of_filter)%list_elem_of_fmap.
      rewrite (va_unique es e2 (MkEntry ph va o) Hva He2 He) in Hm2 by done. congruence.
    + intros (Hn & fl & Hfl & Hno). destruct (proj2 (Hes va ph) (conj Hn (ex_intro _ fl Hfl))) as [o He]. exists o. apply list_elem_of_filter. split; [|done].
      destruct (matches_entry phys object _) eqn:Hm; [|done]. exfalso. apply (Hno Hr es Hin). apply list_elem_of_fmap. exists (MkEntry ph va o).
      split; [done|]. by apply list_elem_of_filter.
Qed.

(** ** The invariant *)

Definition registry_ok (r : Registry) : Prop :=
  length (spaces r) = MAX_SPACES /\ (top r <= MAX_SPACES)%nat /\ forall i s, spaces r !! i = Some (Some s) -> (i < top r)%nat.

Record inv_with (k : Kernel) (pss : list (list (Z * LogPage))) : Prop := {
  inv_registry : registry_ok (registry k);
  inv_roots : Forall (fun s => root s <> 0) (live (registry k));
  inv_chains : chains (logs k) (live (registry k)) pss;
  inv_pages : NoDup (pages_of pss);
  inv_handed : (list_to_set (pages_of pss) : gset Z) ⊆ handed (regions k);
  inv_agrees : agrees (tables k) (view (live (registry k)) pss);
  inv_loaded_mapped : forall x, x ∈ loaded -> is_Some (tables k !! x);
  inv_caps : Forall (fun t => Capability.wf CAPABILITY_TABLE_SLOTS (Capability.MkWorld (capability_table t) (PEAK k))) (threads k)
}.

Definition inv_loaded (k : Kernel) : Prop := exists pss, inv_with k pss.
#[local] Abbreviation inv := inv_loaded.

(** The space rooted at [rt] has recorded [e]. *)
Definition recorded (k : Kernel) (rt : Z) (e : LogEntry) : Prop :=
  exists s ps, s ∈ live (registry k) /\ root s = rt /\ chain (logs k) (head s) ps /\ e ∈ log_of ps.

Lemma chain_det l p ps1 ps2 : chain l p ps1 -> chain l p ps2 -> ps1 = ps2.
Proof.
  revert p ps2. induction ps1 as [|[a pg] ps1 IH]; intros p [|[a2 pg2] ps2]; cbn [chain]; [done|naive_solver|naive_solver|].
  intros (-> & _ & H1 & _ & Hc1) (-> & _ & H2 & _ & Hc2). rewrite H1 in H2. injection H2 as ->. f_equal. by eapply IH.
Qed.

Lemma view_elem ss pss rt es : (rt, es) ∈ view ss pss <-> exists i s ps, ss !! i = Some s /\ pss !! i = Some ps /\ root s = rt /\ es = log_of ps.
Proof.
  unfold view. rewrite list_elem_of_lookup. setoid_rewrite lookup_zip_with_Some. split; [intros (i & s & ps & He & H1 & H2); injection He as -> ->; eauto 10|].
  intros (i & s & ps & H1 & H2 & <- & ->). eauto 10.
Qed.

Lemma recorded_view k pss rt e : inv_with k pss -> recorded k rt e <-> exists es, (rt, es) ∈ view (live (registry k)) pss /\ e ∈ es.
Proof.
  intros Hi. pose proof (inv_chains _ _ Hi) as Hc. split.
  - intros (s & ps & (i & Hs)%list_elem_of_lookup & Hr & Hch & He). exists (log_of ps). split; [|done]. apply view_elem.
    destruct (Forall2_lookup_l _ _ _ _ _ Hc Hs) as (ps' & Hps' & Hch'). rewrite (chain_det _ _ _ _ Hch Hch'). eauto 10.
  - intros (es & (i & s & ps & Hs & Hps & Hr & ->)%view_elem & He). exists s, ps. split; [by eapply list_elem_of_lookup_2|].
    split; [done|]. split; [|done]. by apply (Forall2_lookup_lr _ _ _ _ _ _ Hc Hs Hps).
Qed.

(** The mappings [P] tells of are gone from the logs and from the page tables,
    and nothing else is. *)
Definition erased (P : Z -> LogEntry -> Prop) (k k' : Kernel) : Prop :=
  (forall rt e, recorded k' rt e <-> recorded k rt e /\ ~ P rt e) /\
  (forall rt va x, tables k' !! (rt, va) = Some x <->
     tables k !! (rt, va) = Some x /\ forall e, recorded k rt e -> e_va e = va -> ~ P rt e).

Lemma erased_none P k : (forall rt e, recorded k rt e -> ~ P rt e) -> erased P k k.
Proof. intros Hn. split; [naive_solver|]. intros rt va x. split; [|naive_solver]. intros Hx. split; [done|]. intros e He _. by apply Hn. Qed.

Lemma erased_trans P Q k1 k2 k3 : erased P k1 k2 -> erased Q k2 k3 -> erased (fun rt e => P rt e \/ Q rt e) k1 k3.
Proof.
  intros [HP HP'] [HQ HQ']. split; [intros rt e; rewrite HQ, HP; naive_solver|].
  intros rt va x. rewrite HQ', HP'. split.
  - intros [[Hx H1] H2]. split; [done|]. intros e He Hv [Hp|Hq]; [by apply (H1 e)|]. apply (H2 e); [|done|done]. apply HP. split; [done|]. by apply H1.
  - intros [Hx Hno]. split; [split; [done|]; intros e He Hv Hp; apply (Hno e He Hv); by left|].
    intros e [He _]%HP Hv Hq. apply (Hno e He Hv). by right.
Qed.

Lemma erased_ext (P Q : Z -> LogEntry -> Prop) k k' : (forall rt e, recorded k rt e -> P rt e <-> Q rt e) -> erased P k k' -> erased Q k k'.
Proof.
  intros Hpq [H1 H2]. split; [intros rt e; rewrite H1; split; intros [He Hn]; (split; [done|]); rewrite Hpq in * by done; tauto|].
  intros rt va x. rewrite H2. split; intros [Hx Hn]; (split; [done|]); intros e He Hv; specialize (Hn e He Hv); specialize (Hpq rt e He); tauto.
Qed.

(** What sweeps leave alone. *)
Definition same_rest (k k' : Kernel) : Prop :=
  registry k' = registry k /\ regions k' = regions k /\ dom (logs k') = dom (logs k) /\ PEAK k' = PEAK k.

Lemma same_rest_trans k1 k2 k3 : same_rest k1 k2 -> same_rest k2 k3 -> same_rest k1 k3.
Proof. unfold same_rest. intuition congruence. Qed.

Lemma page_sublist (pss : list (list (Z * LogPage))) i ps : pss !! i = Some ps -> sublist ps.*1 (pages_of pss).
Proof.
  intros Hps. apply fmap_sublist. revert i Hps. induction pss as [|p pss IH]; intros [|i] Hps; try done; cbn [concat].
  - injection Hps as ->. by apply sublist_inserts_r.
  - apply sublist_inserts_l. by eapply IH.
Qed.

Lemma chains_short k pss : inv_with k pss -> Forall (fun ps => (length ps < chain_fuel (logs k))%nat) pss.
Proof.
  intros Hi. apply Forall_forall. intros ps (i & Hps)%list_elem_of_lookup. destruct (Forall2_lookup_r _ _ _ _ _ (inv_chains _ _ Hi) Hps) as (s & _ & Hs).
  eapply chain_short; [exact Hs|]. eapply sublist_NoDup; [apply (inv_pages _ _ Hi)|]. by eapply page_sublist.
Qed.

Lemma unmap_matching_spec k pss phys spare object : inv_with k pss -> phys <> 0 ->
  exists k' pss', unmap_matching k phys spare object = Done k' /\ inv_with k' pss' /\ same_rest k k' /\ threads k' = threads k /\
    view (live (registry k)) pss' = swept phys spare object (view (live (registry k)) pss) /\
    erased (fun rt e => rt <> spare /\ matches_entry phys object e = true) k k'.
Proof.
  intros Hi Hp. pose proof Hi as [Hreg Hroots Hch Hnd Hhand Hag Hld Hcaps]. unfold unmap_matching.
  destruct (unmap_spaces_spec (chain_fuel (logs k)) (live (registry k)) phys spare object (logs k) (tables k) pss Hp Hch Hnd)
    as (l' & pss' & Hr & Hc' & Hk & Hv & Hd & _).
  { by apply (chains_short k). }
  rewrite Hr. cbn [mbind run_bind]. eexists _, pss'. split; [done|]. cbn [registry threads regions logs tables PEAK set_tables set_logs].
  assert (Hi' : inv_with (set_tables (set_logs k l') (clear_view phys spare object (view (live (registry k)) pss) (tables k))) pss').
  { constructor; cbn [registry threads regions logs tables PEAK set_tables set_logs]; try done; [by rewrite Hk|by rewrite Hk|rewrite Hv; by apply agrees_swept|].
    intros [rt va] Hx. destruct (Hld _ Hx) as [x Hlx]. exists x. rewrite clear_view_lookup. split; [done|]. intros _ es Hin (e & -> & [_ He]%list_elem_of_filter)%list_elem_of_fmap.
    destruct Hag as [_ Hag]. destruct (Hag rt es Hin) as [_ Hes]. destruct (proj1 (Hes (e_va e) (e_phys e))) as [Hn _]; [exists (e_object e); by destruct e|done]. }
  split; [exact Hi'|]. split; [done|]. split; [done|]. split; [done|].
  split.
  - intros rt e. rewrite (recorded_view _ _ _ _ Hi'), (recorded_view _ _ _ _ Hi). cbn [registry set_tables set_logs]. rewrite Hv.
    setoid_rewrite swept_elem. split.
    + intros (es' & (es & Hin & ->) & He). destruct (Z.eqb_spec rt spare) as [Heq|Hne]; [split; [by eauto|]; tauto|].
      apply list_elem_of_filter in He as [Hm He]. split; [by eauto|]. intros [_ Hm2]. congruence.
    + intros [(es & Hin & He) Hn]. eexists. split; [by eauto|]. destruct (Z.eqb_spec rt spare) as [Heq|Hne]; [done|].
      apply list_elem_of_filter. split; [|done]. destruct (matches_entry phys object e); [exfalso; tauto|done].
  - intros rt va x. cbn [tables set_tables set_logs]. rewrite clear_view_lookup. setoid_rewrite (recorded_view _ _ _ _ Hi). split.
    + intros [Hx Hall]. split; [done|]. intros e (es & Hin & He) Hv' [Hne Hm]. apply (Hall Hne es Hin). apply list_elem_of_fmap. exists e.
      split; [done|]. by apply list_elem_of_filter.
    + intros [Hx Hall]. split; [done|]. intros Hne es Hin (e & Hv' & [Hm He]%list_elem_of_filter)%list_elem_of_fmap.
      by apply (Hall e); [eauto|done|].
Qed.

(** ** Sweeping the capabilities *)

(** Every capability a thread can use or is handing on. *)
Definition caps_of (t : Thread) : list Cap :=
  omap (fun o : option Cap => o) (Capability.slots (capability_table t)) ++ option_list (outgoing_cap t).

(** The capabilities that [matches] tells of are gone, and only they. *)
Definition dropped (matches : Object -> bool) (ts ts' : list Thread) : Prop :=
  Forall2 (fun t t' => t_id t' = t_id t /\ caps_of t' = filter (fun c => matches (Capability.object c) = false) (caps_of t)) ts ts'.

Lemma omap_dropped (matches : Object -> bool) (l : list (option Cap)) :
  omap (fun o : option Cap => o) ((fun o => match o with Some c => if matches (Capability.object c) then None else Some c | None => None end) <$> l) =
  filter (fun c => matches (Capability.object c) = false) (omap (fun o : option Cap => o) l).
Proof.
  induction l as [|[c|] l IH]; [done| |exact IH]. cbn [fmap list_fmap omap list_omap]. rewrite filter_cons.
  destruct (matches (Capability.object c)); cbn [omap list_omap]; (destruct (decide _); [|try congruence]); try congruence; by rewrite <- IH.
Qed.

Lemma sweep_threads_spec peak matches ts :
  Forall (fun t => Capability.wf CAPABILITY_TABLE_SLOTS (Capability.MkWorld (capability_table t) peak)) ts ->
  exists ts', sweep_threads peak matches ts = Done ts' /\ dropped matches ts ts' /\
    Forall (fun t => Capability.wf CAPABILITY_TABLE_SLOTS (Capability.MkWorld (capability_table t) peak)) ts'.
Proof.
  induction 1 as [|t ts Ht _ (ts' & Hr & Hd & Hw)]; [by exists []; repeat constructor|]. cbn [sweep_threads]. unfold sweep_thread.
  destruct (Capability.delete_matching_total CAPABILITY_TABLE_SLOTS (le_n 32) matches _ Ht) as ([tb pk] & Hrun & Hwf & HP & Hsl).
  cbn [Capability.PEAK Capability.table] in *. subst pk. rewrite Hrun.
  cbn [mbind run_bind]. rewrite Hr. cbn [mbind run_bind Capability.table]. eexists. split; [done|].
  split; [|constructor; [exact Hwf|done]]. constructor; [|done]. split; [done|].
  unfold caps_of. cbn [capability_table outgoing_cap]. rewrite Hsl, filter_app, omap_dropped. f_equal.
  destruct (outgoing_cap t) as [c|]; [|done]. cbn. by destruct (matches _).
Qed.

Lemma delete_caps_spec k pss matches : inv_with k pss ->
  exists k', delete_page_frame_caps_where k matches = Done k' /\ inv_with k' pss /\ same_rest k k' /\
    dropped matches (threads k) (threads k') /\ logs k' = logs k /\ tables k' = tables k.
Proof.
  intros Hi. destruct (sweep_threads_spec (PEAK k) matches (threads k) (inv_caps _ _ Hi)) as (ts & Hr & Hd & Hw).
  unfold delete_page_frame_caps_where. rewrite Hr. eexists. split; [done|]. split; [destruct Hi; by constructor|]. done.
Qed.

Lemma same_recorded k k' : registry k' = registry k -> logs k' = logs k -> forall rt e, recorded k' rt e <-> recorded k rt e.
Proof. intros H1 H2 rt e. unfold recorded. by rewrite H1, H2. Qed.

(** ** Taking a run of frames back *)

Definition in_run (phys count x : Z) : Prop := exists i, 0 <= i < count /\ x = phys + i * FRAME_SIZE.

Lemma unmap_run_spec n k pss phys i : inv_with k pss -> 0 < phys -> 0 <= i -> phys + (i + Z.of_nat n) * FRAME_SIZE <= 2 ^ 64 ->
  exists k' pss', unmap_run n k phys i = Done k' /\ inv_with k' pss' /\ same_rest k k' /\ threads k' = threads k /\
    erased (fun rt e => rt <> 0 /\ e_object e = phys /\ exists j, i <= j < i + Z.of_nat n /\ e_phys e = phys + j * FRAME_SIZE) k k'.
Proof.
  unfold FRAME_SIZE. revert k pss i. induction n as [|n IH]; intros k pss i Hi Hp Hi0 Hb; cbn [unmap_run].
  - exists k, pss. split; [done|]. split; [done|]. split; [done|]. split; [done|]. apply erased_none. intros rt e _ (_ & _ & j & Hj & _). lia.
  - unfold unmap_under_object, FRAME_SIZE. rewrite wrap_small by (split; lia).
    destruct (unmap_matching_spec k pss (phys + i * 4096) 0 (Some phys) Hi ltac:(lia)) as (k1 & pss1 & Hr1 & Hi1 & Hs1 & Ht1 & _ & He1).
    rewrite Hr1. cbn [mbind run_bind]. destruct (IH k1 pss1 (i + 1) Hi1 Hp ltac:(lia) ltac:(lia)) as (k2 & pss2 & Hr2 & Hi2 & Hs2 & Ht2 & He2).
    exists k2, pss2. split; [exact Hr2|]. split; [done|]. split; [by eapply same_rest_trans|]. split; [congruence|].
    eapply erased_ext; [|exact (erased_trans _ _ _ _ _ He1 He2)]. intros rt e _. cbn beta. unfold matches_entry.
    rewrite andb_true_iff, !Z.eqb_eq. split.
    + intros [(Hn & Hph & Ho)|(Hn & Ho & j & Hj & Hph)]; (split; [done|]); (split; [done|]); [exists i|exists j]; (split; [lia|done]).
    + intros (Hn & Ho & j & Hj & Hph). destruct (decide (j = i)) as [->|Hne]; [by left|]. right. split; [done|]. split; [done|]. exists j. split; [lia|done].
Qed.

Lemma recorded_root k pss rt e : inv_with k pss -> recorded k rt e -> rt <> 0.
Proof. intros Hi (s & ps & Hs & <- & _). pose proof (inv_roots _ _ Hi) as Hr. rewrite Forall_forall in Hr. by apply Hr. Qed.

(** ** Reclaiming a region *)

Definition in_range (base size x : Z) : Prop := base <= x < base + size.

Lemma find_in_spec fuel l p base size ps : 0 < base -> 0 <= size -> base + size < 2 ^ 64 -> chain l p ps -> (length ps < fuel)%nat ->
  exists o, find_in fuel l p base size = Done o /\
    match o with
    | Some x => in_range base size x /\ exists e, e ∈ log_of ps /\ e_phys e = x
    | None => Forall (fun e => ~ in_range base size (e_phys e)) (log_of ps)
    end.
Proof.
  intros Hb Hs0 Hs1. revert fuel p. induction ps as [|[a pg] ps IH]; intros fuel p Hc Hf; cbn [chain] in Hc.
  - subst p. exists None. destruct fuel; (split; [done|constructor]).
  - destruct Hc as (-> & Ha & Hl & Hok & Hc). destruct fuel as [|fuel]; [cbn [length] in Hf; lia|]. cbn [find_in].
    rewrite (proj2 (Z.eqb_neq a 0) Ha), Hl, wrap_small by (split; lia). change (log_of ((a, pg) :: ps)) with (page_live pg ++ log_of ps).
    destruct (find _ _) as [e|] eqn:Hfind.
    + apply find_some in Hfind as [Hin Hr]. rewrite <- list_elem_of_In in Hin. exists (Some (e_phys e)). split; [done|].
      apply andb_true_iff in Hr as [H1%Z.leb_le H2%Z.ltb_lt]. split; [split; lia|]. exists e. split; [|done]. apply elem_of_app. left.
      apply list_elem_of_filter. split; [lia|done].
    + destruct (IH fuel (next pg) Hc) as (o & Hr & Ho); [cbn [length] in Hf; lia|]. exists o. split; [exact Hr|]. destruct o as [x|].
      * destruct Ho as (H1 & e & He & Hx). split; [done|]. exists e. split; [|done]. apply elem_of_app. by right.
      * apply Forall_app_2; [|done]. apply Forall_forall. intros e [_ He]%list_elem_of_filter [H1 H2].
        apply list_elem_of_In in He. pose proof (find_none _ _ Hfind e He) as Hn. apply andb_false_iff in Hn.
        rewrite Z.leb_gt, Z.ltb_ge in Hn. lia.
Qed.

Lemma find_victim_spec fuel ss l base size pss : 0 < base -> 0 <= size -> base + size < 2 ^ 64 -> chains l ss pss -> Forall (fun ps => (length ps < fuel)%nat) pss ->
  exists o, find_victim fuel ss l base size = Done o /\
    match o with
    | Some x => in_range base size x /\ exists rt es e, (rt, es) ∈ view ss pss /\ e ∈ es /\ e_phys e = x
    | None => forall rt es, (rt, es) ∈ view ss pss -> Forall (fun e => ~ in_range base size (e_phys e)) es
    end.
Proof.
  intros Hb Hs0 Hs1 Hc Hf. induction Hc as [|s ps ss pss Hs Hc IH]; [exists None; split; [done|]; by intros rt es ?%not_elem_of_nil|].
  inversion Hf as [|? ? Hf1 Hf2]; subst. destruct (find_in_spec fuel l (head s) base size ps Hb Hs0 Hs1 Hs Hf1) as (o & Hr & Ho). cbn [find_victim]. rewrite Hr.
  cbn [mbind run_bind]. change (view (s :: ss) (ps :: pss)) with ((root s, log_of ps) :: view ss pss). destruct o as [x|].
  - exists (Some x). split; [done|]. destruct Ho as (H1 & e & He & Hx). split; [done|]. exists (root s), (log_of ps), e. split; [constructor|done].
  - destruct (IH Hf2) as (o & Hr2 & Ho2). exists o. split; [exact Hr2|]. destruct o as [x|].
    + destruct Ho2 as (H1 & rt & es & e & Hin & He). split; [done|]. exists rt, es, e. split; [by constructor|done].
    + intros rt es [[= -> ->]|Hin]%elem_of_cons; [done|by apply (Ho2 rt)].
Qed.

Lemma find_victim_inv k pss base size : inv_with k pss -> 0 < base -> 0 <= size -> base + size < 2 ^ 64 ->
  exists o, find_victim (chain_fuel (logs k)) (live (registry k)) (logs k) base size = Done o /\
    match o with
    | Some x => in_range base size x /\ exists rt es e, (rt, es) ∈ view (live (registry k)) pss /\ e ∈ es /\ e_phys e = x
    | None => forall rt e, recorded k rt e -> ~ in_range base size (e_phys e)
    end.
Proof.
  intros Hi Hb Hs0 Hs1. destruct (find_victim_spec (chain_fuel (logs k)) _ _ base size pss Hb Hs0 Hs1 (inv_chains _ _ Hi) (chains_short k pss Hi)) as (o & Hr & Ho).
  exists o. split; [done|]. destruct o as [x|]; [done|]. intros rt e (es & Hin & He)%(recorded_view _ _ _ _ Hi).
  specialize (Ho rt es Hin). rewrite Forall_forall in Ho. by apply Ho.
Qed.

Definition total (v : list (Z * list LogEntry)) : nat := sum_list_with (fun a => length a.2) v.

Lemma length_missed phys object es : (length (missed phys object es) + length (hit phys object es) = length es)%nat.
Proof.
  unfold missed, hit. induction es as [|e es IH]; [done|]. rewrite !filter_cons. destruct (matches_entry phys object e);
    repeat (destruct (decide _); try congruence); cbn [length]; lia.
Qed.

Lemma total_swept phys object v rt es e : (rt, es) ∈ v -> rt <> 0 -> e ∈ es -> matches_entry phys object e = true ->
  (total (swept phys 0 object v) < total v)%nat.
Proof.
  intros Hin Hr He Hm. assert (Hle : forall v, (total (swept phys 0 object v) <= total v)%nat).
  { induction v0 as [|[r x] v0 IH]; [done|]. cbn [swept fmap list_fmap total sum_list_with fst snd].
    pose proof (length_missed phys object x). unfold total, swept in IH. destruct (r =? 0); cbn [snd]; lia. }
  induction v as [|[r x] v IH]; [by apply not_elem_of_nil in Hin|]. cbn [swept fmap list_fmap total sum_list_with fst snd].
  specialize (Hle v). unfold total, swept in IH, Hle. apply elem_of_cons in Hin as [[= <- <-]|Hin].
  - rewrite (proj2 (Z.eqb_neq rt 0) Hr). cbn [snd]. assert (Hh : e ∈ hit phys object es) by by apply list_elem_of_filter.
    pose proof (length_missed phys object es). apply list_elem_of_In, in_split in Hh as (a & b & Hh). rewrite Hh, length_app in *. cbn [length] in *. lia.
  - specialize (IH Hin). pose proof (length_missed phys object x). destruct (r =? 0); cbn [snd]; lia.
Qed.

Lemma revoke_loop_spec fuel k pss base size : inv_with k pss -> 0 < base -> 0 <= size -> base + size < 2 ^ 64 -> (total (view (live (registry k)) pss) < fuel)%nat ->
  exists k', revoke_loop fuel k base size = Done k' /\ inv k' /\ threads k' = threads k /\
    erased (fun _ e => in_range base size (e_phys e)) k k'.
Proof.
  revert k pss. induction fuel as [|fuel IH]; intros k pss Hi Hb Hs0 Hs1 Hf; [lia|]. cbn [revoke_loop].
  destruct (find_victim_inv k pss base size Hi Hb Hs0 Hs1) as (o & Hr & Ho). rewrite Hr. cbn [mbind run_bind]. destruct o as [x|].
  - destruct Ho as (Hx & rt & es & e & Hin & He & Hex). unfold unmap_everywhere, in_range in *.
    destruct (unmap_matching_spec k pss x 0 None Hi ltac:(lia)) as (k1 & pss1 & Hr1 & Hi1 & (Hreg1 & _) & Ht1 & Hv1 & He1). rewrite Hr1. cbn [mbind run_bind].
    assert (Hrec : recorded k rt e) by (apply (recorded_view _ _ _ _ Hi); eauto).
    destruct (IH k1 pss1 Hi1 Hb Hs0 Hs1) as (k2 & Hr2 & Hi2 & Ht2 & He2).
    { rewrite Hreg1, Hv1. pose proof (total_swept x None _ rt es e Hin (recorded_root k pss rt e Hi Hrec) He) as Hlt.
      unfold matches_entry in Hlt. rewrite Hex, Z.eqb_refl in Hlt. specialize (Hlt eq_refl). lia. }
    exists k2. split; [exact Hr2|]. split; [done|]. split; [congruence|]. eapply erased_ext; [|exact (erased_trans _ _ _ _ _ He1 He2)].
    intros rt' e' Hrec'. pose proof (recorded_root k pss rt' e' Hi Hrec'). cbn beta. unfold matches_entry. rewrite andb_true_r, Z.eqb_eq. lia.
  - exists k. split; [done|]. split; [by exists pss|]. split; [done|]. by apply erased_none.
Qed.

Lemma total_bound k pss : inv_with k pss -> (total (view (live (registry k)) pss) <= size (logs k) * LOG_ENTRIES)%nat.
Proof.
  intros Hi. assert (Hpages : (length (pages_of pss) <= size (logs k))%nat).
  { rewrite <- size_dom. rewrite <- (size_list_to_set (C:=gset Z)) by apply Hi. apply subseteq_size.
    pose proof (inv_chains _ _ Hi) as Hc. clear Hi. induction Hc as [|s ps ss pss Hs Hc IH]; [set_solver|]. rewrite pages_cons, list_to_set_app.
    apply chain_dom in Hs. set_solver. }
  assert (Ht : (total (view (live (registry k)) pss) <= length (pages_of pss) * LOG_ENTRIES)%nat).
  { pose proof (inv_chains _ _ Hi) as Hc. clear Hi Hpages. induction Hc as [|s ps ss pss Hs Hc IH]; [cbn; lia|].
    change (view (s :: ss) (ps :: pss)) with ((root s, log_of ps) :: view ss pss). rewrite pages_cons, length_app, length_fmap.
    cbn [total sum_list_with snd]. unfold total in IH. assert (Hps : (length (log_of ps) <= length ps * LOG_ENTRIES)%nat); [|nia].
    clear -Hs. revert Hs. generalize (head s). induction ps as [|[a pg] ps IH]; intros p Hs; [cbn; lia|]. destruct Hs as (_ & _ & _ & [H1 H2] & Hc).
    change (log_of ((a, pg) :: ps)) with (page_live pg ++ log_of ps). rewrite length_app. specialize (IH _ Hc). cbn [length].
    pose proof (length_filter (fun e => e_phys e <> 0) (take (used pg) (entries pg))). rewrite length_take in *. unfold page_live, live_entries. lia. }
  nia.
Qed.

(** ** Recording and forgetting one mapping *)

Lemma place_in_spec pg e : page_ok pg -> e_phys e <> 0 ->
  match place_in pg e with
  | Some pg' => page_ok pg' /\ next pg' = next pg /\ page_live pg' ≡ₚ e :: page_live pg
  | None => True
  end.
Proof.
  intros [H1 H2] He. unfold place_in. destruct (position _ _) as [i|] eqn:Hp.
  - apply position_Some in Hp as (x & Hx & Hx0%Z.eqb_eq & _). pose proof (lookup_lt_Some _ _ _ Hx) as Hi. rewrite length_take in Hi.
    split; [split; [cbn [entries]; by rewrite length_insert|done]|]. split; [done|]. unfold page_live, live_entries. cbn [used entries].
    rewrite take_insert_lt by lia. rewrite insert_take_drop by (rewrite length_take; lia).
    rewrite <- (take_drop_middle _ _ _ Hx) at 3. rewrite !filter_app, filter_cons_True by done. rewrite (filter_cons_False _ x) by (intros Hq; done).
    by rewrite <- Permutation_middle.
  - destruct (Nat.ltb_spec (used pg) LOG_ENTRIES) as [Hlt|]; [|done].
    split; [split; [cbn [entries]; by rewrite length_insert|cbn [used]; lia]|]. split; [done|]. unfold page_live, live_entries. cbn [used entries].
    rewrite (take_S_r _ _ e) by (apply list_lookup_insert_eq; lia). rewrite take_insert_ge by lia.
    rewrite filter_app, (filter_cons_True _ e) by done. rewrite filter_nil. by rewrite Permutation_app_comm.
Qed.

Lemma record_in_spec fuel l p e ps : e_phys e <> 0 -> chain l p ps -> NoDup ps.*1 -> (length ps < fuel)%nat ->
  exists o, record_in fuel l p e = Done o /\
    match o with
    | Some l' => exists ps', chain l' p ps' /\ ps'.*1 = ps.*1 /\ log_of ps' ≡ₚ e :: log_of ps /\ (forall a, a ∉ ps.*1 -> l' !! a = l !! a)
    | None => True
    end.
Proof.
  intros He. revert fuel p. induction ps as [|[a pg] ps IH]; intros fuel p Hc Hnd Hf; cbn [chain] in Hc.
  - subst p. exists None. by destruct fuel.
  - destruct Hc as (-> & Ha & Hl & Hok & Hc). destruct fuel as [|fuel]; [cbn [length] in Hf; lia|]. cbn [record_in].
    rewrite (proj2 (Z.eqb_neq a 0) Ha), Hl. apply NoDup_cons in Hnd as [Hna Hnd]. pose proof (place_in_spec pg e Hok He) as Hpl.
    destruct (place_in pg e) as [pg'|].
    + destruct Hpl as (Hok' & Hn & Hlive). eexists. split; [done|]. exists ((a, pg') :: ps). split; [|split; [done|split]].
      * cbn [chain]. split; [done|]. split; [done|]. split; [apply lookup_insert_eq|]. split; [done|]. rewrite Hn.
        eapply chain_frame; [|exact Hc]. intros b Hb. apply lookup_insert_ne. by intros ->.
      * change (log_of (?x :: ps)) with (page_live x.2 ++ log_of ps). cbn [snd]. by rewrite Hlive.
      * intros b Hb. apply not_elem_of_cons in Hb as [Hb _]. by apply lookup_insert_ne.
    + destruct (IH fuel (next pg) Hc Hnd) as (o & Hr & Ho); [cbn [length] in Hf; lia|]. exists o. split; [exact Hr|].
      destruct o as [l'|]; [|done]. destruct Ho as (ps' & Hc' & Hk & Hlog & Hfr). exists ((a, pg) :: ps').
      split; [cbn [chain]; split; [done|]; split; [done|]; split; [by rewrite Hfr|done]|]. split; [cbn [fmap list_fmap]; by rewrite Hk|]. split.
      * change (log_of ((a, pg) :: ?x)) with (page_live pg ++ log_of x). rewrite Hlog. by rewrite Permutation_middle.
      * intros b Hb. apply not_elem_of_cons in Hb as [_ Hb]. by apply Hfr.
Qed.

Lemma live_split r i s : spaces r !! i = Some (Some s) -> (i < top r)%nat ->
  exists pre post, live r = pre ++ s :: post /\
    forall s', live (MkRegistry (<[i := Some s']> (spaces r)) (top r)) = pre ++ s' :: post.
Proof.
  intros Hs Hi. exists (omap (fun o => o) (take i (take (top r) (spaces r)))), (omap (fun o => o) (drop (S i) (take (top r) (spaces r)))).
  assert (Ht : take (top r) (spaces r) !! i = Some (Some s)) by by rewrite lookup_take_lt. split.
  - unfold live. rewrite <- (take_drop_middle _ _ _ Ht) at 1. by rewrite omap_app.
  - intros s'. unfold live. cbn [spaces top]. rewrite take_insert_lt by done. rewrite insert_take_drop by by eapply lookup_lt_Some. by rewrite omap_app.
Qed.

Lemma find_space_spec r rt :
  match find_space r rt with
  | Some i => (i < top r)%nat /\ exists s, spaces r !! i = Some (Some s) /\ root s = rt
  | None => rt ∉ root <$> live r
  end.
Proof.
  unfold find_space. destruct (position _ _) as [i|] eqn:Hp.
  - apply position_Some in Hp as ([s|] & Hs & Hr & _); [|done]. apply lookup_take_Some in Hs as [Hs Hi]. split; [done|]. exists s.
    split; [done|]. by apply Z.eqb_eq.
  - intros (s & -> & (o & Ho & Hs)%list_elem_of_omap)%list_elem_of_fmap. apply list_elem_of_lookup in Ho as [j Hj].
    apply (position_None _ _ Hp) in Hj. destruct o as [s'|]; [|done]. injection Hs as ->. cbn [has_root] in Hj. by rewrite Z.eqb_refl in Hj.
Qed.

Lemma agrees_update t t' v1 v2 rt es es' : agrees t (v1 ++ (rt, es) :: v2) ->
  (forall rt' va, rt' <> rt -> t' !! (rt', va) = t !! (rt', va)) -> NoDup (e_va <$> es') ->
  (forall va phys, (exists o, MkEntry phys va o ∈ es') <-> (rt, va) ∉ loaded /\ exists fl, t' !! (rt, va) = Some (phys, fl)) ->
  agrees t' (v1 ++ (rt, es') :: v2).
Proof.
  intros [Hnd Ha] Ht Hnv Hes. split; [by rewrite fmap_app in *|]. intros r x Hin.
  assert (Hcase : (r = rt /\ x = es') \/ (r <> rt /\ (r, x) ∈ v1 ++ (rt, es) :: v2)).
  { rewrite fmap_app in Hnd. cbn [fmap list_fmap fst] in Hnd. rewrite <- Permutation_middle in Hnd. apply NoDup_cons in Hnd as [Hnr _].
    assert (Hoth : (r, x) ∈ v1 ++ v2 -> r <> rt) by (intros Hq ->; apply Hnr; rewrite <- fmap_app; by eapply (list_elem_of_fmap_2 fst _ (rt, x))).
    apply elem_of_app in Hin as [Hin|[[= -> ->]|Hin]%elem_of_cons]; [right|by left|right];
      (split; [apply Hoth, elem_of_app; auto|apply elem_of_app; rewrite elem_of_cons; auto]). }
  destruct Hcase as [[-> ->]|[Hne Hin']]; [done|]. destruct (Ha r x Hin') as [H1 H2]. split; [done|]. intros va ph. by rewrite H2, Ht.
Qed.

Lemma chains_app l ss1 ss2 pss1 pss2 : chains l ss1 pss1 -> chains l ss2 pss2 -> chains l (ss1 ++ ss2) (pss1 ++ pss2).
Proof. apply Forall2_app. Qed.

Lemma view_app ss1 ss2 pss1 pss2 : length ss1 = length pss1 -> view (ss1 ++ ss2) (pss1 ++ pss2) = view ss1 pss1 ++ view ss2 pss2.
Proof. apply zip_with_app. Qed.

Lemma pages_app a b : pages_of (a ++ b) = pages_of a ++ pages_of b.
Proof. unfold pages_of. by rewrite concat_app, fmap_app. Qed.

Lemma chains_split l pre s post pss : chains l (pre ++ s :: post) pss ->
  exists pss1 ps pss2, pss = pss1 ++ ps :: pss2 /\ length pre = length pss1 /\ chain l (head s) ps.
Proof.
  intros (pss1 & pss' & H1 & H2 & ->)%Forall2_app_inv_l. inversion H2 as [|? ps ? pss2 Hs Hc]; subst.
  exists pss1, ps, pss2. split; [done|]. split; [by eapply Forall2_length|done].
Qed.

(** One log of the kernel changes, and with it its page table. *)
Lemma space_update k k' pre s s' post pss1 ps ps' pss2 :
  inv_with k (pss1 ++ ps :: pss2) -> live (registry k) = pre ++ s :: post -> length pre = length pss1 ->
  registry_ok (registry k') -> live (registry k') = pre ++ s' :: post -> root s' = root s ->
  chain (logs k') (head s') ps' -> (forall a, a ∉ ps.*1 -> a ∈ handed (regions k) -> logs k' !! a = logs k !! a) ->
  NoDup ps'.*1 -> (forall a, a ∈ ps'.*1 -> a ∈ ps.*1 \/ a ∉ handed (regions k)) ->
  list_to_set ps'.*1 ∪ handed (regions k) ⊆ handed (regions k') -> threads k' = threads k -> PEAK k' = PEAK k ->
  agrees (tables k') (view pre pss1 ++ (root s, log_of ps') :: view post pss2) -> (forall x, x ∈ loaded -> is_Some (tables k' !! x)) ->
  inv_with k' (pss1 ++ ps' :: pss2).
Proof.
  intros Hi Hlive Hlen Hreg Hlive' Hroot Hch Hfr Hnd Hpg Hh Hth Hpk Hag Hld. destruct Hi as [_ Hroots Hc Hndp Hhand _ _ Hcaps].
  rewrite Hlive in Hroots, Hc. apply Forall2_app_inv in Hc as [Hc1 Hc2]; [|done]. inversion Hc2 as [|? ? ? ? _ Hc3]; subst.
  rewrite pages_app, pages_cons in Hndp, Hhand. rewrite !list_to_set_app in Hhand.
  assert (Hd : forall a, a ∈ pages_of pss1 \/ a ∈ pages_of pss2 -> a ∉ ps.*1 /\ a ∈ handed (regions k)).
  { intros a Ha. split; [|set_solver]. intros Hin. apply NoDup_app in Hndp as (_ & Hx & (_ & Hy & _)%NoDup_app). set_solver. }
  constructor; rewrite ?Hlive', ?Hth, ?Hpk; [done| | | | | |done|done].
  - rewrite Forall_app in *. rewrite Forall_cons in *. by rewrite Hroot.
  - apply chains_app; [eapply chains_frame; [|exact Hc1]; intros a Ha; apply Hfr; apply Hd; auto|]. constructor; [done|].
    eapply chains_frame; [|exact Hc3]. intros a Ha. apply Hfr; apply Hd; auto.
  - rewrite pages_app, pages_cons. apply NoDup_app in Hndp as (Hn1 & Hx & (Hn2 & Hy & Hn3)%NoDup_app).
    apply NoDup_app. split; [done|]. split; [|apply NoDup_app; split; [done|]; split; [|done]].
    + intros a Ha [Hb|Hb]%elem_of_app; [|set_solver]. destruct (Hpg a Hb); [set_solver|]. destruct (Hd a); [auto|done].
    + intros a Ha Hb. destruct (Hpg a Ha); [set_solver|]. destruct (Hd a); [auto|done].
  - rewrite pages_app, pages_cons, !list_to_set_app. set_solver.
  - rewrite view_app by done. cbn [view zip_with]. by rewrite Hroot.
Qed.

(** Exactly this mapping was added. *)
Definition added (rt : Z) (e : LogEntry) (fl : PageFormat.Flags) (k k' : Kernel) : Prop :=
  (forall rt' e', recorded k' rt' e' <-> recorded k rt' e' \/ (rt' = rt /\ e' = e)) /\
  tables k' = <[(rt, e_va e) := (e_phys e, fl)]> (tables k) /\ threads k' = threads k /\
  root <$> live (registry k') = root <$> live (registry k).

Lemma agrees_perm t v1 v2 rt es es' : es' ≡ₚ es -> agrees t (v1 ++ (rt, es) :: v2) -> agrees t (v1 ++ (rt, es') :: v2).
Proof.
  intros Hp Hag. destruct (proj2 Hag rt es) as [Hnd Hes]; [apply elem_of_app; right; constructor|].
  eapply agrees_update; [exact Hag|done|by rewrite Hp|]. intros va ph. rewrite <- Hes. by setoid_rewrite Hp.
Qed.

Lemma agrees_add t v1 v2 rt es e fl : agrees t (v1 ++ (rt, es) :: v2) -> t !! (rt, e_va e) = None -> (rt, e_va e) ∉ loaded ->
  agrees (<[(rt, e_va e) := (e_phys e, fl)]> t) (v1 ++ (rt, e :: es) :: v2).
Proof.
  intros Hag Hno Hnl. destruct (proj2 Hag rt es) as [Hnd Hes]; [apply elem_of_app; right; constructor|].
  assert (Hfree : e_va e ∉ e_va <$> es).
  { intros ([ph va o] & Hva & He)%list_elem_of_fmap. cbn [e_va] in Hva. subst va. destruct (proj1 (Hes (e_va e) ph)) as [_ [fl' Hx]]; [by exists o|]. congruence. }
  eapply agrees_update; [exact Hag| | |].
  - intros rt' va Hne. apply lookup_insert_ne. congruence.
  - cbn [fmap list_fmap]. by constructor.
  - intros va ph. destruct (decide (va = e_va e)) as [->|Hne].
    + rewrite lookup_insert_eq. split.
      * intros (o & [<-|Hin]%elem_of_cons); [split; [done|by exists fl]|]. exfalso. apply Hfree. by eapply (list_elem_of_fmap_2 e_va _ (MkEntry ph (e_va e) o)).
      * intros (_ & fl' & [= <- <-]). exists (e_object e). destruct e. constructor.
    + rewrite lookup_insert_ne by congruence. rewrite <- Hes. split; intros [o Hin]; exists o.
      * apply elem_of_cons in Hin as [<-|Hin]; [done|done].
      * by constructor.
Qed.

Lemma live_elem_view r pre s post pss1 ps pss2 : live r = pre ++ s :: post -> length pre = length pss1 ->
  view (live r) (pss1 ++ ps :: pss2) = view pre pss1 ++ (root s, log_of ps) :: view post pss2.
Proof. intros -> Hlen. by rewrite view_app. Qed.

Lemma recorded_added k k' pss1 ps ps' pss2 pre s s' post e :
  inv_with k (pss1 ++ ps :: pss2) -> inv_with k' (pss1 ++ ps' :: pss2) -> live (registry k) = pre ++ s :: post ->
  live (registry k') = pre ++ s' :: post -> root s' = root s -> length pre = length pss1 -> log_of ps' ≡ₚ e :: log_of ps ->
  forall rt' e', recorded k' rt' e' <-> recorded k rt' e' \/ (rt' = root s /\ e' = e).
Proof.
  intros Hi Hi' Hl Hl' Hr Hlen Hp rt' e'. rewrite (recorded_view _ _ _ _ Hi), (recorded_view _ _ _ _ Hi').
  rewrite (live_elem_view _ _ _ _ _ _ _ Hl Hlen), (live_elem_view _ _ _ _ _ _ _ Hl' Hlen), Hr.
  setoid_rewrite elem_of_app. setoid_rewrite elem_of_cons. split.
  - intros (es & [Hin|[[= -> ->]|Hin]] & He); [left; eauto| |left; eauto]. rewrite Hp in He. apply elem_of_cons in He as [->|He]; [by right|left; eauto].
  - intros [(es & [Hin|[[= -> ->]|Hin]] & He)|[-> ->]]; [eauto| |eauto|].
    + exists (log_of ps'). split; [auto|]. rewrite Hp. by constructor.
    + exists (log_of ps'). split; [auto|]. rewrite Hp. constructor.
Qed.

Section record.
Context (k : Kernel) (pre post : list SpaceLog) (s : SpaceLog) (pss1 pss2 : list (list (Z * LogPage))) (ps : list (Z * LogPage)).
Context (e : LogEntry) (fl : PageFormat.Flags).
Hypothesis (Hi : inv_with k (pss1 ++ ps :: pss2)) (Hl : live (registry k) = pre ++ s :: post) (Hlen : length pre = length pss1).
Hypothesis (Hc : chain (logs k) (head s) ps) (He : e_phys e <> 0) (Hno : tables k !! (root s, e_va e) = None).

Let mapped : Kernel := set_tables k (<[(root s, e_va e) := (e_phys e, fl)]> (tables k)).

Lemma own_pages_handed a : a ∈ ps.*1 -> a ∈ handed (regions k).
Proof using Hi.
  intros Ha. apply (inv_handed _ _ Hi), elem_of_list_to_set. rewrite pages_app, pages_cons, !elem_of_app. auto.
Qed.

Lemma own_pages_distinct : NoDup ps.*1.
Proof. eapply sublist_NoDup; [apply (inv_pages _ _ Hi)|]. eapply (page_sublist _ (length pss1)). by apply list_lookup_middle. Qed.

Lemma agrees_mapped ps' : log_of ps' ≡ₚ e :: log_of ps ->
  agrees (tables mapped) (view pre pss1 ++ (root s, log_of ps') :: view post pss2).
Proof.
  intros Hlog. eapply agrees_perm; [exact Hlog|]. apply (agrees_add (tables k) _ _ (root s) (log_of ps) e fl); [|done|by intros [x Hx]%(inv_loaded_mapped _ _ Hi); rewrite Hno in Hx].
  pose proof (inv_agrees _ _ Hi) as Ha. by rewrite (live_elem_view _ _ _ _ _ _ _ Hl Hlen) in Ha.
Qed.

Lemma loaded_kept x : x ∈ loaded -> is_Some (tables mapped !! x).
Proof. intros Hx%(inv_loaded_mapped _ _ Hi). cbn [mapped tables set_tables]. rewrite lookup_insert_is_Some'. by right. Qed.

Lemma record_old l' ps' : chain l' (head s) ps' -> ps'.*1 = ps.*1 -> log_of ps' ≡ₚ e :: log_of ps ->
  (forall a, a ∉ ps.*1 -> l' !! a = logs k !! a) -> inv (set_logs mapped l') /\ added (root s) e fl k (set_logs mapped l').
Proof.
  intros Hc' Hk Hlog Hfr. assert (Hi' : inv_with (set_logs mapped l') (pss1 ++ ps' :: pss2)).
  { eapply (space_update k); [exact Hi|exact Hl|done|apply Hi|exact Hl|done|exact Hc'|intros a Ha _; by apply Hfr| |rewrite Hk; auto| |done|done|by apply agrees_mapped|by apply loaded_kept].
    - rewrite Hk. apply own_pages_distinct.
    - rewrite Hk. pose proof own_pages_handed. set_solver. }
  split; [by eexists|]. split; [by eapply recorded_added|done].
Qed.

Lemma record_new i fresh rs : spaces (registry k) !! i = Some (Some s) -> (i < top (registry k))%nat ->
  (forall s', live (MkRegistry (<[i := Some s']> (spaces (registry k))) (top (registry k))) = pre ++ s' :: post) ->
  retype_page (regions k) (region s) = Some (fresh, rs) ->
  let k2 := MkKernel (set_head (registry k) i fresh) (<[fresh := MkLogPage (head s) 1 (<[0%nat := e]> (entries zero_page))]> (logs k))
              (tables mapped) (threads k) (PEAK k) rs in
  inv k2 /\ added (root s) e fl k k2.
Proof.
  intros Hs Hit Hl' Hrt k2. destruct (retype_fresh _ _ _ _ Hrt) as ([Hf0 Hf1] & _ & Hfn & Hfh).
  assert (Hreg : registry k2 = MkRegistry (<[i := Some (MkSpaceLog (root s) (region s) fresh)]> (spaces (registry k))) (top (registry k)))
    by (cbn [k2 registry]; unfold set_head; by rewrite Hs).
  set (pg := MkLogPage (head s) 1 (<[0%nat := e]> (entries zero_page))).
  assert (Hlog : log_of ((fresh, pg) :: ps) ≡ₚ e :: log_of ps).
  { change (log_of ((fresh, pg) :: ps)) with (live_entries [e] ++ log_of ps). unfold live_entries. by rewrite filter_cons_True. }
  assert (Hi' : inv_with k2 (pss1 ++ ((fresh, pg) :: ps) :: pss2)).
  { eapply (space_update k k2 pre s (MkSpaceLog (root s) (region s) fresh));
      [exact Hi|exact Hl|done| |rewrite Hreg; apply Hl'|done| | | | | |done|done|by apply agrees_mapped|by apply loaded_kept].
    - rewrite Hreg. destruct (inv_registry _ _ Hi) as (R1 & R2 & R3). split; [cbn [spaces]; by rewrite length_insert|]. split; [done|].
      cbn [spaces top]. intros j s' [(<- & _ & _)|[_ Hj]]%list_lookup_insert_Some; [done|by eapply R3].
    - cbn [head chain k2 logs]. split; [done|]. split; [lia|]. split; [apply lookup_insert_eq|]. split; [split; [reflexivity|apply Nat.leb_le; reflexivity]|].
      eapply chain_frame; [|exact Hc]. intros a Ha. apply lookup_insert_ne. intros ->. by apply Hfn, own_pages_handed.
    - intros a _ Ha. cbn [k2 logs]. apply lookup_insert_ne. by intros ->.
    - constructor; [|apply own_pages_distinct]. intros Hin. by apply Hfn, own_pages_handed.
    - intros a [->|Ha]%elem_of_cons; auto.
    - cbn [k2 regions fmap list_fmap fst list_to_set]. pose proof own_pages_handed. rewrite Hfh. set_solver. }
  split; [by eexists|]. split; [eapply recorded_added; [exact Hi|exact Hi'|exact Hl|rewrite Hreg; apply Hl'|done|done|done]|].
  split; [done|]. split; [done|]. by rewrite Hreg, Hl', Hl, !fmap_app.
Qed.
End record.

(** Recording a mapping that was just made: it is in the log, or the log could
    not take it and nothing changed. *)
Lemma record_spec k phys rt va fl under :
  inv k -> phys <> 0 -> tables k !! (rt, va) = None ->
  source_object under phys <= phys -> (FRAME_SIZE | phys - source_object under phys) ->
  let k1 := set_tables k (<[(rt, va) := (phys, fl)]> (tables k)) in
  exists b k2, record_mapping k1 phys rt va under = Done (b, k2) /\
    if (b : bool) then inv k2 /\ added rt (MkEntry phys va (source_object under phys)) fl k k2 else k2 = k1.
Proof.
  intros [pss Hi] Hp Hno Hle Hdiv k1. unfold record_mapping. cbv zeta. rewrite (proj2 (Z.leb_le _ _) Hle).
  replace (is_multiple_of (phys - source_object under phys) FRAME_SIZE) with true by (symmetry; apply Z.eqb_eq; by apply Z.mod_divide).
  cbn [andb negb]. change (registry k1) with (registry k). change (logs k1) with (logs k). change (regions k1) with (regions k).
  pose proof (find_space_spec (registry k) rt) as Hfs. destruct (find_space (registry k) rt) as [i|]; [|by exists false, k1].
  destruct Hfs as (Hit & s & Hs & <-). rewrite Hs. destruct (live_split (registry k) i s Hs Hit) as (pre & post & Hl & Hl').
  pose proof (inv_chains _ _ Hi) as Hch. rewrite Hl in Hch. destruct (chains_split _ _ _ _ _ Hch) as (pss1 & ps & pss2 & -> & Hlen & Hc).
  pose proof (own_pages_distinct k pss1 pss2 ps Hi) as Hnd. set (e := MkEntry phys va (source_object under phys)).
  destruct (record_in_spec (chain_fuel (logs k)) (logs k) (head s) e ps Hp Hc Hnd (chain_short _ _ _ Hc Hnd)) as (o & Hr & Ho).
  rewrite Hr. cbn [mbind run_bind]. destruct o as [l'|].
  - destruct Ho as (ps' & Hc' & Hk & Hlog & Hfr). eexists true, _. split; [done|].
    by apply (record_old k pre post s pss1 pss2 ps e fl) with ps'.
  - destruct (retype_page (regions k) (region s)) as [[fresh rs]|] eqn:Hrt; [|by exists false, k1]. eexists true, _. split; [done|].
    by apply (record_new k pre post s pss1 pss2 ps e fl).
Qed.

(** ** Forgetting a mapping that was just undone *)

Definition is_entry (phys va : Z) (e : LogEntry) : bool := (e_phys e =? phys) && (e_va e =? va).
Definition without (phys va : Z) (es : list LogEntry) : list LogEntry := filter (fun e => is_entry phys va e = false) es.

Lemma is_entry_true phys va e : is_entry phys va e = true <-> e_phys e = phys /\ e_va e = va.
Proof. unfold is_entry. by rewrite andb_true_iff, !Z.eqb_eq. Qed.

Lemma without_none phys va es : va ∉ e_va <$> es -> without phys va es = es.
Proof.
  intros Hn. unfold without. induction es as [|e es IH]; [done|]. cbn [fmap list_fmap] in Hn. apply not_elem_of_cons in Hn as [H1 H2].
  rewrite filter_cons_True; [by rewrite IH|]. destruct (is_entry phys va e) eqn:He; [|done]. apply is_entry_true in He as [_ He]. by subst.
Qed.

Lemma live_tombstone (es : list LogEntry) i x : es !! i = Some x -> e_phys x <> 0 -> NoDup (e_va <$> live_entries es) ->
  live_entries (alter tombstone i es) = without (e_phys x) (e_va x) (live_entries es).
Proof.
  intros (l1 & l2 & -> & ->)%list_elem_of_split_length H0 Hnd. unfold live_entries in *.
  rewrite alter_app_r_alt by lia. rewrite Nat.sub_diag. cbn [alter list_alter]. rewrite !filter_app in *.
  rewrite (filter_cons_False _ (tombstone x)) by (intros Hq; by apply Hq). rewrite (filter_cons_True _ x) in * by done.
  rewrite fmap_app in Hnd. cbn [fmap list_fmap] in Hnd. rewrite <- Permutation_middle in Hnd. apply NoDup_cons in Hnd as [Hn _].
  unfold without. rewrite filter_app, filter_cons_False.
  - symmetry. f_equal; apply (without_none (e_phys x) (e_va x)); set_solver.
  - by rewrite (proj2 (is_entry_true _ _ x)).
Qed.

Lemma filter_keep {X} (P : X -> Prop) `{!forall x, Decision (P x)} l : Forall P l -> filter P l = l.
Proof. induction 1 as [|x l Hx _ IH]; [done|]. rewrite filter_cons_True by done. by rewrite IH. Qed.

Lemma forget_in_spec fuel l p phys va ps : phys <> 0 -> chain l p ps -> NoDup ps.*1 -> (length ps < fuel)%nat -> NoDup (e_va <$> log_of ps) ->
  exists l' ps', forget_in fuel l p phys va = Done l' /\ chain l' p ps' /\ ps'.*1 = ps.*1 /\
    log_of ps' = without phys va (log_of ps) /\ (forall a, a ∉ ps.*1 -> l' !! a = l !! a).
Proof.
  intros Hp. revert fuel p. induction ps as [|[a pg] ps IH]; intros fuel p Hc Hnd Hf Hva; cbn [chain] in Hc.
  - subst p. exists l, []. by destruct fuel.
  - destruct Hc as (-> & Ha & Hl & Hok & Hc). destruct fuel as [|fuel]; [cbn [length] in Hf; lia|]. cbn [forget_in].
    rewrite (proj2 (Z.eqb_neq a 0) Ha), Hl. apply NoDup_cons in Hnd as [Hna Hnd].
    change (log_of ((a, pg) :: ps)) with (page_live pg ++ log_of ps) in *. rewrite fmap_app in Hva. apply NoDup_app in Hva as (Hv1 & Hdis & Hv2).
    change (fun e => (e_phys e =? phys) && (e_va e =? va)) with (is_entry phys va). destruct (position _ _) as [i|] eqn:Hpos.
    + apply position_Some in Hpos as (x & Hx & [Hxp Hxv]%is_entry_true & _). pose proof (lookup_lt_Some _ _ _ Hx) as Hi. rewrite length_take in Hi.
      set (pg' := MkLogPage (next pg) (used pg) (alter tombstone i (entries pg))). exists (<[a := pg']> l), ((a, pg') :: ps). split; [done|].
      split; [cbn [chain]; split; [done|]; split; [done|]; split; [apply lookup_insert_eq|]; split|split; [done|split]].
      * split; [cbn [pg' entries]; by rewrite length_alter; destruct Hok|apply Hok].
      * eapply chain_frame; [|exact Hc]. intros b Hb. apply lookup_insert_ne. by intros ->.
      * change (log_of ((a, pg') :: ps)) with (page_live pg' ++ log_of ps). unfold without. rewrite filter_app. fold (without phys va (page_live pg)).
        assert (Hlive : page_live pg' = without phys va (page_live pg)).
        { unfold page_live. cbn [pg' used entries]. rewrite take_alter_lt by lia. subst phys va. by apply live_tombstone. }
        rewrite Hlive. f_equal. symmetry. apply (without_none phys va). intros Hin. apply (Hdis va); [|done]. subst va.
        apply list_elem_of_fmap_2. apply list_elem_of_filter. split; [congruence|]. by eapply list_elem_of_lookup_2.
      * intros b Hb. apply not_elem_of_cons in Hb as [Hb _]. by apply lookup_insert_ne.
    + destruct (IH fuel (next pg) Hc Hnd) as (l' & ps' & Hr & Hc' & Hk & Hlog & Hfr); [cbn [length] in Hf; lia|done|]. exists l', ((a, pg) :: ps').
      split; [exact Hr|]. split; [cbn [chain]; split; [done|]; split; [done|]; split; [by rewrite Hfr|done]|]. split; [cbn [fmap list_fmap]; by rewrite Hk|].
      split; [|intros b Hb; apply not_elem_of_cons in Hb as [_ Hb]; by apply Hfr].
      change (log_of ((a, pg) :: ps')) with (page_live pg ++ log_of ps'). unfold without. rewrite filter_app. fold (without phys va (log_of ps)). rewrite <- Hlog. f_equal.
      symmetry. apply filter_keep, Forall_forall. intros e [_ He]%list_elem_of_filter. apply list_elem_of_lookup in He as [j Hj].
      by apply (position_None _ _ Hpos) in Hj.
Qed.

Lemma erased_one k k' pss1 ps ps' pss2 pre s post e :
  inv_with k (pss1 ++ ps :: pss2) -> inv_with k' (pss1 ++ ps' :: pss2) -> live (registry k) = pre ++ s :: post ->
  live (registry k') = pre ++ s :: post -> length pre = length pss1 -> (forall x, x ∈ log_of ps' <-> x ∈ log_of ps /\ x <> e) ->
  recorded k (root s) e -> tables k' = unmap_user_at (tables k) (root s) (e_va e) -> erased (fun rt' e' => rt' = root s /\ e' = e) k k'.
Proof.
  intros Hi Hi' Hl Hl' Hlen Hout Hrec Ht. pose proof (inv_agrees _ _ Hi) as [Hnd _]. rewrite (live_elem_view _ _ _ _ _ _ _ Hl Hlen) in Hnd. split.
  - intros rt' e'. rewrite (recorded_view _ _ _ _ Hi), (recorded_view _ _ _ _ Hi').
    rewrite (live_elem_view _ _ _ _ _ _ _ Hl Hlen), (live_elem_view _ _ _ _ _ _ _ Hl' Hlen).
    assert (Hne : forall es, (rt', es) ∈ view pre pss1 \/ (rt', es) ∈ view post pss2 -> rt' <> root s).
    { intros es Hin ->. rewrite fmap_app in Hnd. cbn [fmap list_fmap fst] in Hnd. rewrite <- Permutation_middle in Hnd. apply NoDup_cons in Hnd as [Hn _].
      apply Hn. rewrite <- fmap_app. apply (list_elem_of_fmap_2 fst _ (root s, es)). by apply elem_of_app. }
    setoid_rewrite elem_of_app. setoid_rewrite elem_of_cons. split.
    + intros (es & [Hin|[[= -> ->]|Hin]] & He); [split; [by eauto|]; intros [-> _]; by apply (Hne es); auto| |split; [by eauto|]; intros [-> _]; by apply (Hne es); auto].
      apply Hout in He as [He Hx]. split; [by eauto|]. tauto.
    + intros [(es & [Hin|[[= -> ->]|Hin]] & He) Hx]; [by eauto| |by eauto]. exists (log_of ps'). split; [auto|]. apply Hout. split; [done|]. tauto.
  - intros rt' va x. rewrite Ht. unfold unmap_user_at. destruct (decide ((root s, e_va e) = (rt', va))) as [[= <- <-]|Hne].
    + rewrite lookup_delete_eq. split; [done|]. intros [_ Hx]. by destruct (Hx e Hrec eq_refl).
    + rewrite lookup_delete_ne by done. split; [|by intros [? _]]. intros Hx. split; [done|]. intros e' _ Hv [-> ->]. by subst.
Qed.

Lemma forget_spec k rt e : inv k -> recorded k rt e -> e_phys e <> 0 ->
  exists k', forget_mapping (set_tables k (unmap_user_at (tables k) rt (e_va e))) (e_phys e) rt (e_va e) = Done k' /\ inv k' /\
    erased (fun rt' e' => rt' = rt /\ e' = e) k k' /\ tables k' = unmap_user_at (tables k) rt (e_va e) /\
    threads k' = threads k /\ registry k' = registry k.
Proof.
  intros [pss Hi] Hrec H0. unfold forget_mapping. cbn [registry set_tables logs]. pose proof (find_space_spec (registry k) rt) as Hfs.
  destruct (find_space (registry k) rt) as [i|].
  2: { exfalso. destruct Hrec as (s & ps & Hs & <- & _). apply Hfs. by apply list_elem_of_fmap_2. }
  destruct Hfs as (Hit & s & Hs & <-). rewrite Hs. destruct (live_split (registry k) i s Hs Hit) as (pre & post & Hl & _).
  pose proof (inv_chains _ _ Hi) as Hch. rewrite Hl in Hch. destruct (chains_split _ _ _ _ _ Hch) as (pss1 & ps & pss2 & -> & Hlen & Hc).
  pose proof (own_pages_distinct k pss1 pss2 ps Hi) as Hnd. pose proof (inv_agrees _ _ Hi) as Hag. rewrite (live_elem_view _ _ _ _ _ _ _ Hl Hlen) in Hag.
  destruct (proj2 Hag (root s) (log_of ps)) as [Hva Hes]; [apply elem_of_app; right; constructor|].
  assert (He : e ∈ log_of ps).
  { apply (recorded_view _ _ _ _ Hi) in Hrec as (es & Hin & He). rewrite (live_elem_view _ _ _ _ _ _ _ Hl Hlen) in Hin.
    rewrite (key_unique _ (root s) es (log_of ps) (proj1 Hag) Hin) in He; [done|]. apply elem_of_app. right. constructor. }
  destruct (forget_in_spec (chain_fuel (logs k)) (logs k) (head s) (e_phys e) (e_va e) ps H0 Hc Hnd (chain_short _ _ _ Hc Hnd) Hva)
    as (l' & ps' & Hr & Hc' & Hk & Hlog & Hfr).
  rewrite Hr. cbn [mbind run_bind]. eexists. split; [done|].
  assert (Hout : forall x, x ∈ log_of ps' <-> x ∈ log_of ps /\ x <> e).
  { intros x. rewrite Hlog. unfold without. rewrite list_elem_of_filter. split; intros [H1 H2].
    - split; [done|]. intros ->. by rewrite (proj2 (is_entry_true _ _ e)) in H1.
    - split; [|done]. destruct (is_entry _ _ x) eqn:Hx; [|done]. apply is_entry_true in Hx as [_ Hx]. by destruct (va_unique _ _ _ Hva H1 He Hx). }
  set (k' := set_logs _ l'). assert (Hi' : inv_with k' (pss1 ++ ps' :: pss2)).
  { eapply (space_update k k'); [exact Hi|exact Hl|done|apply Hi|exact Hl|done|exact Hc'|intros a Ha _; by apply Hfr|by rewrite Hk|rewrite Hk; auto| |done|done| |].
    - rewrite Hk. pose proof (own_pages_handed k pss1 pss2 ps Hi). set_solver.
    - eapply agrees_update; [exact Hag| | |].
      + intros rt' va Hne. apply lookup_delete_ne. congruence.
      + rewrite Hlog. eapply sublist_NoDup; [exact Hva|]. apply fmap_sublist, sublist_filter.
      + intros va ph. setoid_rewrite Hout. cbn [k' tables set_logs set_tables]. unfold unmap_user_at. destruct (decide (va = e_va e)) as [->|Hne].
        * rewrite lookup_delete_eq. split; [|by intros (? & ? & ?)]. intros (o & Ho & Hx). by destruct (Hx (va_unique _ _ _ Hva Ho He eq_refl)).
        * rewrite lookup_delete_ne by congruence. rewrite <- Hes. split; [naive_solver|]. intros [o Ho]. exists o. split; [done|]. by intros <-.
    - intros [rt' va] Hx. destruct (inv_loaded_mapped _ _ Hi _ Hx) as [x Hlx]. exists x. cbn [k' tables set_logs set_tables]. unfold unmap_user_at. rewrite lookup_delete_ne; [done|]. intros [= <- <-].
      destruct (proj1 (Hes (e_va e) (e_phys e))) as [Hn _]; [exists (e_object e); by destruct e|done]. }
  split; [by eexists|]. split; [|done]. by eapply erased_one.
Qed.
(** ** Spaces come and go *)

Lemma claim_spec r log : registry_ok r ->
  match claim r log with
  | (true, r') => registry_ok r' /\ exists pre post, live r = pre ++ post /\ live r' = pre ++ log :: post
  | (false, r') => r' = r
  end.
Proof.
  intros (H1 & H2 & H3). unfold claim. destruct (position _ _) as [slot|] eqn:Hp; [|done].
  apply position_Some in Hp as ([|] & Hs & Hx & Hbefore); [done|]. clear Hx. pose proof (lookup_lt_Some _ _ _ Hs) as Hlt.
  assert (Hst : (slot <= top r)%nat).
  { destruct (le_lt_dec slot (top r)) as [|Hgt]; [done|]. exfalso. destruct (lookup_lt_is_Some_2 (spaces r) (top r)) as [o Ho]; [lia|].
    specialize (Hbefore (top r) o Hgt Ho). destruct o as [s|]; [|done]. specialize (H3 _ _ Ho). lia. }
  set (t' := if (top r <=? slot)%nat then S slot else top r).
  assert (Ht' : (slot < t' <= MAX_SPACES)%nat /\ (top r <= t')%nat) by (unfold t'; destruct (Nat.leb_spec (top r) slot); lia).
  split.
  - split; [cbn [spaces]; by rewrite length_insert|]. split; [apply Ht'|]. cbn [spaces top].
    intros i s [(-> & _ & _)|[_ Hi]]%list_lookup_insert_Some; [lia|]. apply H3 in Hi. lia.
  - exists (omap (fun o => o) (take slot (spaces r))), (omap (fun o => o) (drop (S slot) (take t' (spaces r)))).
    assert (Hmid : take t' (spaces r) = take slot (spaces r) ++ None :: drop (S slot) (take t' (spaces r))).
    { rewrite <- (take_drop_middle (take t' (spaces r)) slot None) at 1 by (rewrite lookup_take_lt by lia; done). by rewrite take_take, Nat.min_l by lia. }
    split.
    + transitivity (omap (fun o => o) (take t' (spaces r))); [|rewrite Hmid at 1; by rewrite omap_app]. unfold live, t'.
      destruct (Nat.leb_spec (top r) slot); [|done]. assert (slot = top r) as -> by lia. rewrite (take_S_r _ _ _ Hs), omap_app. cbn [omap list_omap]. by rewrite app_nil_r.
    + unfold live. cbn [spaces top]. rewrite take_insert_lt by lia. rewrite Hmid at 1. rewrite insert_app_r_alt by (rewrite length_take; lia).
      rewrite length_take, Nat.min_l, Nat.sub_diag by lia. by rewrite omap_app.
Qed.

Lemma register_inv k rt rg : inv k -> rt <> 0 -> rt ∉ root <$> live (registry k) -> (forall va, tables k !! (rt, va) = None) ->
  inv (register_space k rt rg).2.
Proof.
  intros [pss Hi] H0 Hfresh Hno. unfold register_space. pose proof (claim_spec (registry k) (MkSpaceLog rt rg 0) (inv_registry _ _ Hi)) as Hc.
  destruct (claim (registry k) (MkSpaceLog rt rg 0)) as [[] r']; cbn [snd]; [|subst r'; exists pss; destruct k; exact Hi].
  destruct Hc as (Hok & pre & post & Hl & Hl'). destruct Hi as [_ Hroots Hch Hnd Hh Hag Hld Hcaps]. rewrite Hl in *.
  apply Forall2_app_inv_l in Hch as (pss1 & pss2 & Hc1 & Hc2 & ->). pose proof (Forall2_length _ _ _ Hc1) as Hlen.
  rewrite view_app in Hag by done. exists (pss1 ++ [] :: pss2). constructor; cbn [registry set_registry logs tables threads PEAK regions]; rewrite ?Hl'; try done.
  - apply Forall_app in Hroots as [Hr1 Hr2]. apply Forall_app_2; [done|by constructor].
  - apply chains_app; [done|]. by constructor.
  - rewrite pages_app in *. done.
  - rewrite pages_app in *. done.
  - rewrite view_app by done. destruct Hag as [Hk Hag]. split.
    + rewrite fmap_app in *. cbn [view zip_with fmap list_fmap fst root]. fold (view post pss2). rewrite <- Permutation_middle. constructor; [|done].
      rewrite fmap_app in Hfresh. assert (Hv : forall ss ps, length ss = length ps -> (view ss ps).*1 = root <$> ss).
      { induction ss as [|s ss IH]; intros [|p ps] Hle; try done. cbn [view zip_with fmap list_fmap fst]. f_equal. apply IH. by injection Hle. }
      rewrite !Hv by (done || by eapply Forall2_length). done.
    + intros rt' es. rewrite elem_of_app. cbn [view zip_with]. rewrite elem_of_cons. intros [Hin|[[= -> ->]|Hin]]; [apply Hag, elem_of_app; by left| |apply Hag, elem_of_app; by right].
      split; [constructor|]. intros va ph. rewrite Hno. split; [by intros [o ?%not_elem_of_nil]|by intros (? & ? & ?)].
Qed.

Lemma lower_top_spec fuel ss t : (lower_top fuel ss t <= t)%nat /\ forall i s, (lower_top fuel ss t <= i < t)%nat -> ss !! i <> Some (Some s).
Proof.
  revert t. induction fuel as [|fuel IH]; intros [|t]; cbn [lower_top]; [split; [done|lia]..|].
  destruct (ss !! t) as [[s|]|] eqn:Ht; [split; [done|lia]| |]; destruct (IH t) as [H1 H2];
    (split; [lia|]); intros i s Hi Hx; (destruct (decide (i = t)) as [->|]; [congruence|by apply (H2 i s); [lia|]]).
Qed.

Lemma omap_nones (l : list (option SpaceLog)) : (forall s, Some s ∉ l) -> omap (fun o => o) l = [].
Proof.
  induction l as [|[s|] l IH]; intros Hn; [done| |]; cbn [omap list_omap].
  - exfalso. apply (Hn s). constructor.
  - apply IH. intros s Hs. apply (Hn s). by constructor.
Qed.

Lemma release_spec r rt : registry_ok r -> registry_ok (release r rt) /\ live (release r rt) = filter (fun s => root s <> rt) (live r).
Proof.
  intros (H1 & H2 & H3). unfold release. set (ss := _ ++ drop (top r) (spaces r)). destruct (lower_top_spec MAX_SPACES ss (top r)) as [Hle Hno].
  assert (Hlen : length ss = MAX_SPACES) by (unfold ss; rewrite length_app, length_fmap, <- length_app, take_drop; done).
  assert (Htake : take (top r) ss = (fun o => if has_root rt o then None else o) <$> take (top r) (spaces r)).
  { unfold ss. rewrite take_app_le by (rewrite length_fmap, length_take; lia). apply take_ge. rewrite length_fmap, length_take. lia. }
  assert (Habove : forall i s, ss !! i = Some (Some s) -> (i < top r)%nat).
  { intros i s Hi. destruct (le_lt_dec (top r) i) as [Hge|]; [|done]. unfold ss in Hi. rewrite lookup_app_r in Hi by (rewrite length_fmap, length_take; lia).
    rewrite length_fmap, length_take, Nat.min_l, lookup_drop in Hi by lia. replace (top r + (i - top r))%nat with i in Hi by lia. by eapply H3. }
  split.
  - split; [done|]. split; [cbn [top]; lia|]. cbn [spaces top]. intros i s Hi. pose proof (Habove _ _ Hi).
    destruct (le_lt_dec (lower_top MAX_SPACES ss (top r)) i); [|done]. by destruct (Hno i s); [lia|].
  - unfold live. cbn [spaces top]. transitivity (omap (fun o => o) (take (top r) ss)).
    + rewrite <- (take_drop (lower_top MAX_SPACES ss (top r)) (take (top r) ss)), omap_app, take_take, Nat.min_l by lia.
      rewrite (omap_nones (drop _ _)); [by rewrite app_nil_r|]. intros s (j & Hj)%list_elem_of_lookup. rewrite lookup_drop in Hj.
      apply lookup_take_Some in Hj as [Hj Hlt]. by apply (Hno (lower_top MAX_SPACES ss (top r) + j)%nat s); [lia|].
    + rewrite Htake. clear. induction (take (top r) (spaces r)) as [|[s|] l IH]; [done| |exact IH]. cbn [fmap list_fmap has_root omap list_omap].
      rewrite filter_cons. destruct (Z.eqb_spec (root s) rt); cbn [omap list_omap]; (destruct (decide _); try tauto); by rewrite IH.
Qed.

Lemma forget_root_inv k rt : inv k -> inv (forget_root k rt).
Proof.
  intros [pss Hi]. destruct (release_spec (registry k) rt (inv_registry _ _ Hi)) as [Hok Hl]. destruct Hi as [_ Hroots Hch Hnd Hh Hag Hld Hcaps].
  assert (Hsub : exists pss', chains (logs k) (filter (fun s => root s <> rt) (live (registry k))) pss' /\ sublist pss' pss /\
    sublist (view (filter (fun s => root s <> rt) (live (registry k))) pss') (view (live (registry k)) pss)).
  { clear -Hch. induction Hch as [|s ps ss pss Hs Hc (pss' & H1 & H2 & H3)]; [by exists []; repeat constructor|]. rewrite filter_cons.
    destruct (decide _); [exists (ps :: pss')|exists pss']; (split; [by try constructor|]); (split; [by constructor|]); by constructor. }
  destruct Hsub as (pss' & Hc' & Hs1 & Hs2). assert (Hpages : sublist (pages_of pss') (pages_of pss)).
  { apply fmap_sublist. clear -Hs1. induction Hs1 as [|p a b Hs IH|p a b Hs IH]; cbn [concat]; [done|by apply sublist_app|by apply sublist_inserts_l]. }
  exists pss'. constructor; cbn [registry forget_root set_registry logs tables threads PEAK regions]; rewrite ?Hl; try done.
  - apply Forall_forall. intros s [_ Hs]%list_elem_of_filter. rewrite Forall_forall in Hroots. by apply Hroots.
  - by eapply sublist_NoDup.
  - intros a Ha%elem_of_list_to_set. apply Hh, elem_of_list_to_set. by eapply sublist_subseteq.
  - destruct Hag as [Hk Hag]. split; [eapply sublist_NoDup; [exact Hk|]; by apply fmap_sublist|]. intros rt' es Hin. apply Hag. by eapply sublist_subseteq.
Qed.

End kernel.
Arguments inv_loaded {R PS} loaded k.
Arguments inv_with {R PS} loaded k pss.

(** No page was mapped by [map_new]. *)
Definition inv {R} `{!PageSource R} (k : Kernel (R:=R)) : Prop := inv_loaded ∅ k.

Lemma revoke_run_spec {R} `{!PageSource R} (L : gset (Z * Z)) (k : Kernel (R:=R)) phys count :
  inv_loaded L k -> 0 < phys -> 0 < count -> phys + count * FRAME_SIZE <= 2 ^ 64 ->
  exists k', revoke_page_frame_run k phys count = Done k' /\ inv_loaded L k' /\
    dropped (fun o => bool_decide (o = OPageFrame phys count)) (threads k) (threads k') /\
    erased (fun _ e => e_object e = phys /\ in_run phys count (e_phys e)) k k'.
Proof.
  intros [pss Hi] Hp Hc Hb. unfold revoke_page_frame_run, delete_page_frame_caps. rewrite (proj2 (Z.eqb_neq count 0)) by lia.
  destruct (delete_caps_spec k pss (fun o => bool_decide (o = OPageFrame phys count)) Hi) as (k1 & Hr1 & Hi1 & (Hreg1 & _) & Hd1 & Hl1 & Ht1).
  rewrite Hr1. cbn [mbind run_bind].
  destruct (unmap_run_spec (Z.to_nat count) k1 pss phys 0 Hi1 Hp ltac:(lia) ltac:(rewrite Z2Nat.id; lia)) as (k2 & pss2 & Hr2 & Hi2 & _ & Ht2 & He2).
  exists k2. split; [exact Hr2|]. split; [by exists pss2|]. split; [by rewrite Ht2|].
  rewrite Z2Nat.id in He2 by lia. pose proof (same_recorded k k1 Hreg1 Hl1) as Hsame. destruct He2 as [E1 E2]. rewrite Ht1 in E2.
  assert (HE : erased (fun rt e => rt <> 0 /\ e_object e = phys /\ exists j, 0 <= j < 0 + count /\ e_phys e = phys + j * FRAME_SIZE) k k2).
  { split; [intros rt e; by rewrite E1, Hsame|]. intros rt va x. rewrite E2. by setoid_rewrite Hsame. }
  eapply erased_ext; [|exact HE]. intros rt e Hrec. pose proof (recorded_root k pss rt e Hi Hrec). unfold in_run. tauto.
Qed.

(** C11: Taking a run of frames back ends, and leaves a kernel in which no thread
    holds a capability that names the run, in its table or in flight, and every other
    capability is as it was. Of the mappings, those of the run's pages that were recorded
    under a run that starts where this one does are gone, from their address spaces and
    from the logs, whichever space they are in; this takes also those made under a longer
    or a shorter capability with the same first page, since the log keeps a run's base and
    not its length, although that capability stays. Every other mapping is as it was: of
    the same pages under a run with another first page, of other pages, and what a loader
    mapped without recording it. *)
Theorem revoked_run_is_unreachable {R} `{!PageSource R} (L : gset (Z * Z)) (k : Kernel (R:=R)) phys count :
  inv_loaded L k -> 0 < phys -> 0 < count -> phys + count * FRAME_SIZE <= 2 ^ 64 ->
  exists k', revoke_page_frame_run k phys count = Done k' /\ inv_loaded L k' /\
    dropped (fun o => bool_decide (o = OPageFrame phys count)) (threads k) (threads k') /\
    erased (fun _ e => e_object e = phys /\ in_run phys count (e_phys e)) k k'.
Proof. apply revoke_run_spec. Qed.

Lemma revoke_region_spec {R} `{!PageSource R} (L : gset (Z * Z)) (k : Kernel (R:=R)) base size :
  inv_loaded L k -> 0 < base -> 0 <= size -> base + size < 2 ^ 64 ->
  exists k', revoke_region k base size = Done k' /\ inv_loaded L k' /\
    dropped (overlaps base size) (threads k) (threads k') /\
    erased (fun _ e => in_range base size (e_phys e)) k k' /\
    (forall rt va phys fl, rt ∈ root <$> live (registry k) -> tables k' !! (rt, va) = Some (phys, fl) -> (rt, va) ∉ L -> ~ in_range base size phys).
Proof.
  intros [pss Hi] Hb Hs Hbs. unfold revoke_region, delete_page_frame_caps_overlapping.
  destruct (delete_caps_spec k pss (overlaps base size) Hi) as (k1 & Hr1 & Hi1 & (Hreg1 & _) & Hd1 & Hl1 & Ht1). rewrite Hr1. cbn [mbind run_bind].
  destruct (revoke_loop_spec (revoke_fuel (logs k1)) k1 pss base size Hi1 Hb Hs Hbs) as (k2 & Hr2 & Hi2 & Ht2 & [E1 E2]).
  { pose proof (total_bound k1 pss Hi1). unfold revoke_fuel. lia. }
  exists k2. split; [exact Hr2|]. split; [done|]. split; [by rewrite Ht2|]. pose proof (same_recorded k k1 Hreg1 Hl1) as Hsame. rewrite Ht1 in E2.
  assert (HE : erased (fun _ e => in_range base size (e_phys e)) k k2).
  { split; [intros rt e; by rewrite E1, Hsame|]. intros rt va x. rewrite E2. by setoid_rewrite Hsame. }
  split; [exact HE|]. intros rt va phys fl (s & -> & (i & Hi')%list_elem_of_lookup)%list_elem_of_fmap [Hx Hno]%(proj2 HE) Hnl Hrange.
  destruct (Forall2_lookup_l _ _ _ _ _ (inv_chains _ _ Hi) Hi') as (ps & Hps & Hch).
  assert (Hv : (root s, log_of ps) ∈ view (live (registry k)) pss) by (apply view_elem; eauto 10).
  destruct (proj2 (inv_agrees _ _ Hi) _ _ Hv) as [_ Hag]. destruct (proj2 (Hag va phys) (conj Hnl (ex_intro _ fl Hx))) as [o He].
  apply (Hno (MkEntry phys va o)); [|done|done]. apply (recorded_view _ _ _ _ Hi). eauto.
Qed.

(** A page-frame capability whose run and the range have an address in common. *)
Definition shares (base size : Z) (o : Object) : Prop :=
  exists phys count x, o = OPageFrame phys count /\ phys <= x < phys + count * FRAME_SIZE /\ in_range base size x.

(** The addresses of a capability are [u64]s. *)
Definition cap_u64 (c : Cap) : Prop := match Capability.object c with OPageFrame phys count => 0 <= phys /\ 0 < count | _ => True end.

Lemma overlaps_shares base size c : 0 < base -> 0 < size -> base + size < 2 ^ 64 -> cap_u64 c ->
  overlaps base size (Capability.object c) = true <-> shares base size (Capability.object c).
Proof.
  unfold cap_u64, overlaps, shares, in_range, saturating_add, u64_max, FRAME_SIZE. intros Hb Hs Hbs Hc.
  destruct (Capability.object c) as [| | |phys count| | | | | | | |]; try (split; [done|]; by intros (? & ? & ? & [=] & _)).
  rewrite andb_true_iff, !Z.ltb_lt. split.
  - intros [H1 H2]. exists phys, count, (Z.max phys base). split; [done|]. lia.
  - intros (? & ? & x & [= <- <-] & Hx & Hr). lia.
Qed.


(** ** A small kernel *)

(** Frames one after another. *)
Definition bump_pages (n : nat) : gset Z := list_to_set ((fun i => Z.of_nat (S i) * FRAME_SIZE) <$> seq 0 n).

#[export, program] Instance bump_source : PageSource nat := {
  retype_page n _ := if decide (Z.of_nat (S n) * FRAME_SIZE < 2 ^ 64) then Some (Z.of_nat (S n) * FRAME_SIZE, S n) else None;
  handed n := if decide (Z.of_nat n * FRAME_SIZE < 2 ^ 64) then bump_pages n else ∅
}.
Next Obligation.
  intros n g p n' H. cbn beta in *. destruct (decide (Z.of_nat (S n) * FRAME_SIZE < 2 ^ 64)) as [Hlt|]; [|done]. injection H as <- <-.
  unfold FRAME_SIZE in *. rewrite !decide_True by lia. split.
  - unfold bump_pages. rewrite elem_of_list_to_set. intros (i & Hi & Hin%elem_of_seq)%list_elem_of_fmap. unfold FRAME_SIZE in Hi. lia.
  - unfold bump_pages. rewrite seq_S, fmap_app, list_to_set_app_L. cbn [fmap list_fmap list_to_set Nat.add]. rewrite (right_id_L ∅ (∪)). apply (comm_L (∪)).
Qed.
Next Obligation.
  intros n p H. cbn beta in *. destruct (decide _) as [Hlt|]; [|set_solver]. unfold bump_pages in H. apply elem_of_list_to_set in H.
  apply list_elem_of_fmap in H as (i & -> & Hi%elem_of_seq). unfold FRAME_SIZE in *. split; [lia|]. by exists (Z.of_nat (S i)).
Qed.

Definition demo_caps : Capability.World Object :=
  (Capability.insert 32 (Capability.insert 32 (Capability.MkWorld (Capability.new 32) 0)
    (Capability.MkCap (OMemoryRegion 7) Capability.ALL)).2 (Capability.MkCap (OPageFrame 1048576 3) Capability.ALL)).2.

(** One thread, with a region and a run of three frames, and its space. *)
Definition demo : Kernel (R:=nat) :=
  (register_space (MkKernel registry_new ∅ ∅
     [MkThread 1 (Capability.table demo_caps) (Some (Capability.MkCap (OPageFrame 1048576 3) Capability.READ))]
     (Capability.PEAK demo_caps) 0%nat) 8192 7).2.

Lemma demo_inv : inv demo.
Proof.
  unfold demo. apply register_inv; [|lia|by intros ?%not_elem_of_nil|done]. exists []. constructor; cbn [registry logs tables threads PEAK regions].
  - split; [reflexivity|]. split; [cbn; lia|]. intros i s Hi. apply lookup_replicate in Hi as [Hi _]. done.
  - constructor.
  - constructor.
  - constructor.
  - apply empty_subseteq.
  - split; [constructor|]. by intros rt es ?%not_elem_of_nil.
  - by intros x ?%not_elem_of_empty.
  - constructor; [|constructor]. change (Capability.wf 32 demo_caps). 
    do 2 (eapply Capability.step_wf; [done| |by eapply Capability.step_insert]). by apply Capability.wf_new.
Qed.

(** The same kernel with the second of the three frames mapped. *)
Definition demo_mapped : Kernel (R:=nat) :=
  match record_mapping (set_tables demo {[ (8192, 65536) := (1052672, PageFormat.user_data) ]}) 1052672 8192 65536 (FromCapability 1048576) with
  | Done (_, k) => k
  | Panicked => demo
  end.

Lemma demo_mapped_inv : inv demo_mapped.
Proof.
  destruct (record_spec demo 1052672 8192 65536 PageFormat.user_data (FromCapability 1048576) demo_inv ltac:(lia)) as (b & k2 & Hr & Hb);
    [reflexivity|cbn; lia|by exists 1|].
  unfold demo_mapped. change ({[ (8192, 65536) := _ ]}) with (<[(8192, 65536) := (1052672, PageFormat.user_data)]> (tables demo)). rewrite Hr.
  destruct b; [apply Hb|]. exfalso. vm_compute in Hr. discriminate.
Qed.

Lemma revoked_run_is_unreachable_witness :
  exists k', revoke_page_frame_run demo_mapped 1048576 3 = Done k' /\ inv k' /\
    tables demo_mapped !! (8192, 65536) = Some (1052672, PageFormat.user_data) /\ tables k' !! (8192, 65536) = None /\
    (length ∘ caps_of <$> threads demo_mapped, length ∘ caps_of <$> threads k') = ([3%nat], [1%nat]).
Proof.
  destruct (revoked_run_is_unreachable ∅ demo_mapped 1048576 3 demo_mapped_inv ltac:(lia) ltac:(lia) ltac:(vm_compute; discriminate)) as (k' & H1 & H2 & _ & _).
  exists k'. split; [exact H1|]. split; [exact H2|]. vm_compute in H1. injection H1 as <-. repeat split.
Defined.

End Revocation.
