(* ===== verification/MappingCalls.v ===== *)
(** * Mapping system calls (kernel/src/syscall.rs, user.rs and the listing of revoke.rs)

    How a user page comes to be mapped: from a region, from a frame capability
    into the caller's space, or into a space under construction. Each mapping is
    recorded before the call returns; a run is mapped whole or not at all. And
    how what is mapped is listed, one entry per call. *)

From S2P Require Import Prelude Capability PageFormat Aarch64 Mapper Revocation.
Local Open Scope Z_scope.

Module MappingCalls.
Import Revocation.

Inductive Error :=
  | NoSuchSlot | WrongObject | NotPermitted | BadPointer | BadMethod | BadSyscall | OutOfMemory | DeviceRefused | StillAlive
  | NotSupervised | Gone.

(** The mapper over the pages of a region: whether it maps the page, and the
    region pages its tables took. *)
Class PageMapper (R : Type) `{PageSource R} := {
  map_page : R -> Z -> gmap (Z * Z) (Z * PageFormat.Flags) -> Z -> Z -> Z -> PageFormat.Flags -> result Mapper.MapError unit * R;
  map_page_fresh r g t rt va phys fl r' : map_page r g t rt va phys fl = (Ok tt, r') -> t !! (rt, va) = None;
  map_page_handed r g t rt va phys fl res r' : map_page r g t rt va phys fl = (res, r') -> handed r ⊆ handed r' }.

Section calls.
Context {R : Type} `{PM : PageMapper R} `{F : !PageFormat.PageFormat} {loaded : gset (Z * Z)}.
#[local] Abbreviation inv := (inv_loaded loaded).

Notation Kernel := (Kernel (R:=R)).

(** ** Mapping one page *)

(** [mmu::map_current_user_page_frame] and [AddressSpace::map_at]. *)
Definition map_at (k : Kernel) (region rt va phys : Z) (fl : PageFormat.Flags) : result Mapper.MapError unit * Kernel :=
  match map_page (regions k) region (tables k) rt va phys fl with
  | (Ok _, r) => (Ok tt, set_regions (set_tables k (<[(rt, va) := (phys, fl)]> (tables k))) r)
  | (Err e, r) => (Err e, set_regions k r)
  end.

(** [AddressSpace::map_new]: a page of the space's own region, which nothing records. *)
Definition map_new (k : Kernel) (region rt va : Z) (fl : PageFormat.Flags) : result Mapper.MapError unit * Kernel :=
  match retype_page (regions k) region with
  | None => (Err Mapper.OutOfPageFrames, k)
  | Some (frame, r) => map_at (set_regions k r) region rt va frame fl
  end.

(** [AddressSpace::map_physical]. *)
Definition map_physical (k : Kernel) (region rt va phys : Z) (fl : PageFormat.Flags) (under : PageMapSource) :
    run (result Mapper.MapError unit * Kernel) :=
  match map_at k region rt va phys fl with
  | (Err e, k1) => Done (Err e, k1)
  | (Ok _, k1) =>
      '(ok, k2) ← record_mapping k1 phys rt va under;
      if (ok : bool) then Done (Ok tt, k2)
      else Done (Err Mapper.OutOfPageFrames, set_tables k2 (unmap_user_at (tables k2) rt va))
  end.

(** ** Mapping from a region *)

Definition memory_region_map (k : Kernel) (rt region va : Z) : run (result Error unit * Kernel) :=
  if negb (PageFormat.is_user_page_va va) then Done (Err BadPointer, k)
  else
    match retype_page (regions k) region with
    | None => Done (Err OutOfMemory, k)
    | Some (leaf, r) =>
        match map_at (set_regions k r) region rt va leaf PageFormat.user_data with
        | (Err Mapper.OutOfPageFrames, k1) => Done (Err OutOfMemory, k1)
        | (Err _, k1) => Done (Err BadPointer, k1)
        | (Ok _, k1) =>
            '(ok, k2) ← record_mapping k1 leaf rt va NoCapability;
            if (ok : bool) then Done (Ok tt, k2)
            else Done (Err OutOfMemory, set_tables k2 (unmap_user_at (tables k2) rt va))
        end
    end.

(** ** Mapping a run *)

Definition run_end_va (va count : Z) : option Z :=
  n ← (if count <? 1 then None else Some (count - 1));
  bytes ← checked_mul 64 n FRAME_SIZE;
  checked_add 64 va bytes.

(** The [i]th page of a run. *)
Definition page_at (base i : Z) : Z := wrap 64 (base + i * FRAME_SIZE).

(** [for k in 0..mapped], from page [i] on. *)
Fixpoint unmap_run_prefix (n : nat) (k : Kernel) (rt phys va i : Z) : run Kernel :=
  match n with
  | O => Done k
  | S n' =>
      k1 ← forget_mapping (set_tables k (unmap_user_at (tables k) rt (page_at va i))) (page_at phys i) rt (page_at va i);
      unmap_run_prefix n' k1 rt phys va (i + 1)
  end.

Definition map_error (e : Mapper.MapError) : Error := match e with Mapper.OutOfPageFrames => OutOfMemory | _ => BadPointer end.

(** The pages of a run from the [i]th on; the [i] that are mapped are undone
    when one fails. *)
Fixpoint map_run (n : nat) (k : Kernel) (region rt phys va i : Z) (fl : PageFormat.Flags) : run (result Error unit * Kernel) :=
  match n with
  | O => Done (Ok tt, k)
  | S n' =>
      match map_at k region rt (page_at va i) (page_at phys i) fl with
      | (Ok _, k1) =>
          '(ok, k2) ← record_mapping k1 (page_at phys i) rt (page_at va i) (FromCapability phys);
          if (ok : bool) then map_run n' k2 region rt phys va (i + 1) fl
          else
            let k3 := set_tables k2 (unmap_user_at (tables k2) rt (page_at va i)) in
            k4 ← unmap_run_prefix (Z.to_nat i) k3 rt phys va 0;
            Done (Err OutOfMemory, k4)
      | (Err e, k1) =>
          k2 ← unmap_run_prefix (Z.to_nat i) k1 rt phys va 0;
          Done (Err (map_error e), k2)
      end
  end.

(** A failed check answers and changes nothing. *)
Definition guard_call {X} (ok : bool) (e : Error) (k : Kernel) (rest : run (result Error X * Kernel)) : run (result Error X * Kernel) :=
  if ok then rest else Done (Err e, k).

Definition run_fits (va count : Z) : bool :=
  match run_end_va va count with
  | Some last_va => PageFormat.is_user_page_va va && PageFormat.is_user_page_va last_va
  | None => false
  end.

(** [cur] is the caller's capability table, [rt] its root. *)
Definition page_frame_map (k : Kernel) (cur : Capability.CapabilityTable Object) (rt : Z) (cap : Capability.Cap Object)
    (phys count va writable ut_slot : Z) : run (result Error unit * Kernel) :=
  guard_call (run_fits va count) BadPointer k (
  let needed := if writable =? 0 then Capability.READ else Capability.WRITE in
  guard_call (Capability.allows (Capability.rights cap) needed) NotPermitted k (
  let fl := if writable =? 0 then PageFormat.user_rodata else PageFormat.user_data in
  match Capability.get cur ut_slot with
  | Err _ => Done (Err NoSuchSlot, k)
  | Ok ut =>
      match Capability.object ut with
      | OMemoryRegion region =>
          guard_call (Capability.allows (Capability.rights ut) Capability.WRITE) NotPermitted k
            (map_run (Z.to_nat count) k region rt phys va 0 fl)
      | _ => Done (Err WrongObject, k)
      end
  end)).

Definition MAP_RO : Z := 0.
Definition MAP_RW : Z := 1.
Definition MAP_CODE : Z := 2.

(** What a frame capability lets be mapped: the run, and with which flags. *)
Definition frame_mapping (frame : Capability.Cap Object) (kind : Z) : result Error (Z * Z * PageFormat.Flags) :=
  let need r := Capability.allows (Capability.rights frame) r in
  match Capability.object frame with
  | ODeviceFrame phys => if need Capability.WRITE then Ok (phys, 1, PageFormat.user_device) else Err NotPermitted
  | OPageFrame phys count =>
      if kind =? MAP_RW then if need Capability.WRITE then Ok (phys, count, PageFormat.user_data) else Err NotPermitted
      else if kind =? MAP_CODE then if need Capability.READ then Ok (phys, count, PageFormat.user_code) else Err NotPermitted
      else if need Capability.READ then Ok (phys, count, PageFormat.user_rodata) else Err NotPermitted
  | _ => Err WrongObject
  end.

(** The pages of a run mapped into a space by name. *)
Fixpoint map_into_run (n : nat) (k : Kernel) (region rt phys va i : Z) (fl : PageFormat.Flags) : run (result Error unit * Kernel) :=
  match n with
  | O => Done (Ok tt, k)
  | S n' =>
      '(r, k1) ← map_physical k region rt (page_at va i) (page_at phys i) fl (FromCapability phys);
      match (r : result Mapper.MapError unit) with
      | Ok _ => map_into_run n' k1 region rt phys va (i + 1) fl
      | Err e =>
          k2 ← unmap_run_prefix (Z.to_nat i) k1 rt phys va 0;
          Done (Err (map_error e), k2)
      end
  end.

(** [space] is what the name resolves to in the registry of spaces. *)
Definition address_space_map_into (k : Kernel) (cur : Capability.CapabilityTable Object) (cap : Capability.Cap Object)
    (space : option (Z * Z)) (va frame_slot kind : Z) : run (result Error unit * Kernel) :=
  guard_call (Capability.allows (Capability.rights cap) Capability.WRITE) NotPermitted k (
  match Capability.get cur frame_slot with
  | Err _ => Done (Err NoSuchSlot, k)
  | Ok frame =>
      match frame_mapping frame kind with
      | Err e => Done (Err e, k)
      | Ok (phys, count, fl) =>
          guard_call (run_fits va count) BadPointer k (
          match space with
          | None => Done (Err BadPointer, k)
          | Some (rt, region) => map_into_run (Z.to_nat count) k region rt phys va 0 fl
          end)
      end
  end).

(** ** Slicing a run *)

Definition page_frame_slice (w : Capability.World Object) (rights : Capability.Rights) (phys count first len : Z) :
    result Error Z * Capability.World Object :=
  if negb (Capability.allows rights Capability.GRANT) then (Err NotPermitted, w)
  else
    match checked_add 64 first len with
    | Some end_ =>
        if (len =? 0) || (count <? end_) then (Err BadPointer, w)
        else
          match Capability.insert CAPABILITY_TABLE_SLOTS w (Capability.MkCap (OPageFrame (page_at phys first) len) rights) with
          | (Ok slot, w') => (Ok slot, w')
          | (Err _, w') => (Err OutOfMemory, w')
          end
    | None => (Err BadPointer, w)
    end.

(** ** Listing what is mapped *)

(** The next live entry of a page at or after [index], and its address. *)
Definition next_entry (pg : LogPage) (index : nat) : option (nat * Z) :=
  match position (fun e => negb (e_phys e =? 0)) (drop index (take (used pg) (entries pg))) with
  | Some d => e ← entries pg !! (index + d)%nat; Some ((index + d)%nat, e_va e)
  | None => None
  end.

(** A page that is not a log page reads as undefined. *)
Fixpoint list_walk (fuel : nat) (l : gmap Z LogPage) (p : Z) (index : nat) : run (Z * Z) :=
  if p =? 0 then Done (0, 0)
  else
    match fuel, l !! p with
    | S fuel', Some pg =>
        match next_entry pg index with
        | Some (i, va) => Done (Z.lor p (Z.of_nat (S i)), va)
        | None => list_walk fuel' l (next pg) 0
        end
    | _, _ => Panicked
    end.

Definition PAGE_MASK : Z := not_w 64 (FRAME_SIZE - 1).

Definition list_mapping (k : Kernel) (rt cursor : Z) : run (Z * Z) :=
  match find_space (registry k) rt with
  | None => Done (0, 0)
  | Some i =>
      match spaces (registry k) !! i with
      | Some (Some s) =>
          let '(p, index) :=
            if cursor =? 0 then (head s, 0%nat)
            else (Z.land cursor PAGE_MASK, Z.to_nat (Z.land cursor (not_w 64 PAGE_MASK))) in
          list_walk (chain_fuel (logs k)) (logs k) p index
      | _ => Panicked
      end
  end.

Definition DONE : Z := 0.

Definition kind_of (fl : PageFormat.Flags) : Z :=
  if PageFormat.is_user_executable fl then MAP_CODE else if PageFormat.is_writable fl then MAP_RW else MAP_RO.

(** The next cursor, the address and the kind. *)
Fixpoint address_space_list (fuel : nat) (k : Kernel) (space : option Z) (cursor : Z) : run (Z * Z * Z) :=
  match space with
  | None => Done (DONE, 0, 0)
  | Some rt =>
      match fuel with
      | O => Panicked
      | S fuel' =>
          '(nxt, va) ← list_mapping k rt cursor;
          if nxt =? DONE then Done (DONE, 0, 0)
          else
            match tables k !! (rt, va) with
            | Some (_, fl) => Done (nxt, va, kind_of fl)
            | None => address_space_list fuel' k space nxt
            end
      end
  end.

(** ** One page *)

(** Nothing a program can see has changed. *)
Definition unchanged (k k' : Kernel) : Prop :=
  (forall rt e, recorded k' rt e <-> recorded k rt e) /\ tables k' = tables k /\ threads k' = threads k /\
  root <$> live (registry k') = root <$> live (registry k).

Lemma unchanged_refl k : unchanged k k.
Proof. done. Qed.

Lemma unchanged_trans k1 k2 k3 : unchanged k1 k2 -> unchanged k2 k3 -> unchanged k1 k3.
Proof. intros (H1 & H2 & H3 & H4) (G1 & G2 & G3 & G4). split; [intros rt e; by rewrite G1, H1|]. split; [congruence|]. split; congruence. Qed.

Lemma inv_regions k r : inv k -> handed (regions k) ⊆ handed r -> inv (set_regions k r).
Proof. intros [pss Hi] Hh. exists pss. destruct Hi as [H1 H2 H3 H4 H5 H6 H7 H8]. constructor; try done. cbn [regions set_regions]. set_solver. Qed.

Lemma map_record k region rt va phys fl under : inv k -> phys <> 0 ->
  source_object under phys <= phys -> (FRAME_SIZE | phys - source_object under phys) ->
  match map_at k region rt va phys fl with
  | (Err _, k1) => inv k1 /\ unchanged k k1
  | (Ok _, k1) => exists b k2, record_mapping k1 phys rt va under = Done (b, k2) /\
      if (b : bool) then inv k2 /\ added rt (MkEntry phys va (source_object under phys)) fl k k2 /\ tables k !! (rt, va) = None
      else let k3 := set_tables k2 (unmap_user_at (tables k2) rt va) in inv k3 /\ unchanged k k3
  end.
Proof.
  intros Hi Hp Hle Hdiv. unfold map_at. destruct (map_page _ _ _ _ _ _ _) as [[[]|e] r] eqn:Hm.
  2: { split; [|done]. apply inv_regions; [done|]. by eapply map_page_handed. }
  pose proof (map_page_fresh _ _ _ _ _ _ _ _ Hm) as Hno. assert (Hi' : inv (set_regions k r)) by (apply inv_regions; [done|]; by eapply map_page_handed).
  destruct (record_spec (set_regions k r) phys rt va fl under Hi' Hp Hno Hle Hdiv) as (b & k2 & Hr & Hb).
  exists b, k2. split; [exact Hr|]. destruct b; [by destruct Hb|]. subst k2. cbn [tables set_tables set_regions unmap_user_at].
  assert (Ht : unmap_user_at (<[(rt, va) := (phys, fl)]> (tables k)) rt va = tables k).
  { unfold unmap_user_at. rewrite delete_insert_eq. by apply delete_id. }
  cbn [set_regions tables set_tables]. rewrite Ht. split; [exact Hi'|done].
Qed.

(** What is recorded is mapped. *)
Lemma recorded_mapped k rt e : inv k -> recorded k rt e -> exists fl, tables k !! (rt, e_va e) = Some (e_phys e, fl).
Proof.
  intros [pss Hi] (es & Hin & He)%(recorded_view _ _ _ _ Hi). destruct (proj2 (inv_agrees _ _ Hi) rt es Hin) as [_ Hag].
  apply Hag. exists (e_object e). by destruct e.
Qed.

(** ** A run of pages *)

Section run.
Context (k0 : Kernel) (region rt phys va count : Z) (fl : PageFormat.Flags).
Hypothesis (Hi0 : inv k0) (Hphys : 0 < phys) (Hpb : phys + count * FRAME_SIZE <= 2 ^ 64) (Hva0 : 0 <= va) (Hvb : va + (count - 1) * FRAME_SIZE < 2 ^ 64).

Definition nth_entry (j : Z) : LogEntry := MkEntry (page_at phys j) (page_at va j) phys.

Lemma page_at_phys j : 0 <= j < count -> page_at phys j = phys + j * FRAME_SIZE.
Proof. intros Hj. unfold page_at. apply wrap_small. unfold FRAME_SIZE in *. split; nia. Qed.
Lemma page_at_va j : 0 <= j < count -> page_at va j = va + j * FRAME_SIZE.
Proof. intros Hj. unfold page_at. apply wrap_small. unfold FRAME_SIZE in *. split; nia. Qed.

Lemma page_at_va_inj i j : 0 <= i < count -> 0 <= j < count -> page_at va i = page_at va j -> i = j.
Proof. intros Hi Hj. rewrite !page_at_va by done. unfold FRAME_SIZE. lia. Qed.

(** The kernel with exactly the pages [m] to [n] of the run mapped beyond [k0]. *)
Record between (m n : Z) (k : Kernel) : Prop := {
  btw_inv : inv k;
  btw_recorded : forall rt' e, recorded k rt' e <-> recorded k0 rt' e \/ (rt' = rt /\ exists j, m <= j < n /\ e = nth_entry j);
  btw_free : forall j, m <= j < n -> tables k0 !! (rt, page_at va j) = None;
  btw_mapped : forall j, m <= j < n -> tables k !! (rt, page_at va j) = Some (page_at phys j, fl);
  btw_other : forall x, (forall j, m <= j < n -> x <> (rt, page_at va j)) -> tables k !! x = tables k0 !! x;
  btw_threads : threads k = threads k0;
  btw_roots : root <$> live (registry k) = root <$> live (registry k0)
}.

Lemma between_start : between 0 0 k0.
Proof. constructor; try done; [|by intros j ?; lia..]. intros rt' e. split; [by left|]. intros [?|(_ & j & ? & _)]; [done|lia]. Qed.

Lemma between_end m k : between m m k -> inv k /\ unchanged k0 k.
Proof.
  intros [H1 H2 H3 H4 H5 H6 H7]. split; [done|]. split; [intros rt' e; rewrite H2; split; [intros [?|(_ & j & ? & _)]; [done|lia]|by left]|].
  split; [|done]. apply map_eq. intros x. apply H5. intros j Hj. lia.
Qed.

Lemma between_add n k k2 : between 0 n k -> 0 <= n < count -> tables k !! (rt, page_at va n) = None -> inv k2 -> added rt (nth_entry n) fl k k2 ->
  between 0 (n + 1) k2.
Proof.
  intros [H1 H2 H3 H4 H5 H6 H7] Hn Hno Hi2 (A1 & A2 & A3 & A4). cbn [nth_entry e_va e_phys] in A2.
  assert (Hne : forall j, 0 <= j < n -> (rt, page_at va n) <> (rt, page_at va j)).
  { intros j Hj [= Hq]. apply page_at_va_inj in Hq; lia. }
  constructor; [done| | | | |congruence|congruence].
  - intros rt' e. rewrite A1, H2. split.
    + intros [[?|(-> & j & Hj & ->)]|[-> ->]]; [by left|right; split; [done|]; exists j; split; [lia|done]|right; split; [done|]; exists n; split; [lia|done]].
    + intros [?|(-> & j & Hj & ->)]; [by left; left|]. destruct (decide (j = n)) as [->|]; [by right|]. left. right. split; [done|]. exists j. split; [lia|done].
  - intros j Hj. destruct (decide (j = n)) as [->|]; [|apply H3; lia]. rewrite <- H5; [done|apply Hne].
  - intros j Hj. rewrite A2. destruct (decide (j = n)) as [->|Hjn]; [by rewrite lookup_insert_eq|]. rewrite lookup_insert_ne by (apply Hne; lia). apply H4. lia.
  - intros x Hx. rewrite A2, lookup_insert_ne; [apply H5; intros j Hj; apply Hx; lia|]. intros <-. by apply (Hx n); [lia|].
Qed.

Lemma between_drop m n k : between m n k -> 0 <= m < n -> n <= count ->
  exists k2, forget_mapping (set_tables k (unmap_user_at (tables k) rt (page_at va m))) (page_at phys m) rt (page_at va m) = Done k2 /\ between (m + 1) n k2.
Proof.
  intros [H1 H2 H3 H4 H5 H6 H7] Hm Hn. assert (Hrec : recorded k rt (nth_entry m)) by (apply H2; right; split; [done|]; exists m; split; [lia|done]).
  assert (H0 : page_at phys m <> 0) by (rewrite page_at_phys by lia; unfold FRAME_SIZE; lia).
  destruct (forget_spec k rt (nth_entry m) H1 Hrec H0) as (k2 & Hr & Hi2 & [E1 E2] & Ht & Hth & Hreg). exists k2. split; [exact Hr|].
  cbn [nth_entry e_va] in Ht. unfold unmap_user_at in Ht.
  assert (Hne : forall j, m + 1 <= j < n -> (rt, page_at va m) <> (rt, page_at va j)).
  { intros j Hj [= Hq]. apply page_at_va_inj in Hq; lia. }
  assert (Hold : ~ recorded k0 rt (nth_entry m)).
  { intros Hr0. pose proof (H3 m ltac:(lia)) as Hno. destruct (recorded_mapped k0 rt _ Hi0 Hr0) as [fl' Hx]. cbn [nth_entry e_va] in Hx. congruence. }
  constructor; [done| | | | |congruence|congruence].
  - intros rt' e. rewrite E1, H2. split.
    + intros [[?|(-> & j & Hj & ->)] Hx]; [by left|]. right. split; [done|]. exists j. split; [|done].
      destruct (decide (j = m)) as [->|]; [exfalso; tauto|lia].
    + intros [Hr0|(-> & j & Hj & ->)]; [split; [by left|]; by intros [-> ->]|]. split; [right; split; [done|]; exists j; split; [lia|done]|].
      intros [_ Hq]. apply (Hne j ltac:(lia)). f_equal. symmetry. exact (f_equal e_va Hq).
  - intros j Hj. apply H3. lia.
  - intros j Hj. rewrite Ht, lookup_delete_ne by (apply Hne; lia). apply H4. lia.
  - intros x Hx. rewrite Ht. destruct (decide (x = (rt, page_at va m))) as [->|Hxm].
    + rewrite lookup_delete_eq. symmetry. apply H3. lia.
    + rewrite lookup_delete_ne by done. apply H5. intros j Hj. destruct (decide (j = m)) as [->|]; [done|]. apply Hx. lia.
Qed.

Lemma prefix_undo n m k : between (Z.of_nat m) (Z.of_nat m + Z.of_nat n) k -> Z.of_nat m + Z.of_nat n <= count ->
  exists k2, unmap_run_prefix n k rt phys va (Z.of_nat m) = Done k2 /\ inv k2 /\ unchanged k0 k2.
Proof.
  revert m k. induction n as [|n IH]; intros m k Hb Hn; cbn [unmap_run_prefix].
  - exists k. split; [done|]. rewrite Z.add_0_r in Hb. by eapply between_end.
  - destruct (between_drop (Z.of_nat m) (Z.of_nat m + Z.of_nat (S n)) k Hb ltac:(lia) ltac:(lia)) as (k1 & Hr & Hb1). rewrite Hr. cbn [mbind run_bind].
    replace (Z.of_nat m + 1) with (Z.of_nat (S m)) in * by lia. apply IH; [|lia].
    by replace (Z.of_nat (S m) + Z.of_nat n) with (Z.of_nat m + Z.of_nat (S n)) by lia.
Qed.

Lemma between_unchanged m n k k' : between m n k -> inv k' -> unchanged k k' -> between m n k'.
Proof.
  intros [H1 H2 H3 H4 H5 H6 H7] Hi (U1 & U2 & U3 & U4). constructor; rewrite ?U2, ?U3, ?U4; try done. intros rt' e. by rewrite U1.
Qed.

Lemma object_of_page j : 0 <= j < count -> phys <= page_at phys j /\ (FRAME_SIZE | page_at phys j - phys).
Proof. intros Hj. rewrite page_at_phys by done. unfold FRAME_SIZE in *. split; [lia|]. exists j. lia. Qed.

Lemma map_run_spec n i k : between 0 i k -> 0 <= i -> i + Z.of_nat n <= count ->
  exists r k', map_run n k region rt phys va i fl = Done (r, k') /\
    match r with Ok _ => between 0 (i + Z.of_nat n) k' | Err _ => inv k' /\ unchanged k0 k' end.
Proof.
  revert i k. induction n as [|n IH]; intros i k Hb Hi Hn; cbn [map_run].
  - exists (Ok tt), k. split; [done|]. by rewrite Z.add_0_r.
  - assert (Hundo : forall k1, inv k1 -> unchanged k k1 -> exists k2, unmap_run_prefix (Z.to_nat i) k1 rt phys va 0 = Done k2 /\ inv k2 /\ unchanged k0 k2).
    { intros k1 Hi1 Hu. apply (prefix_undo (Z.to_nat i) 0); [|lia]. change (Z.of_nat 0) with 0. rewrite Z.add_0_l, Z2Nat.id by lia.
      by eapply between_unchanged. }
    destruct (object_of_page i ltac:(lia)) as [Ho1 Ho2]. assert (H0 : page_at phys i <> 0) by lia.
    pose proof (map_record k region rt (page_at va i) (page_at phys i) fl (FromCapability phys) (btw_inv _ _ _ Hb) H0 Ho1 Ho2) as Hm.
    destruct (map_at k region rt (page_at va i) (page_at phys i) fl) as [[[]|e] k1].
    + destruct Hm as (b & k2 & Hr & Hbr). rewrite Hr. cbn [mbind run_bind]. destruct b.
      * destruct Hbr as (Hi2 & Ha & Hno). destruct (IH (i + 1) k2) as (r & k' & Hr2 & Hres); [apply (between_add i k k2); [exact Hb|lia|exact Hno|exact Hi2|exact Ha]|lia|lia|].
        exists r, k'. split; [exact Hr2|]. by replace (i + Z.of_nat (S n)) with (i + 1 + Z.of_nat n) by lia.
      * destruct Hbr as (Hi3 & Hu3). destruct (Hundo _ Hi3 Hu3) as (k4 & Hr4 & Hi4 & Hu4). rewrite Hr4. cbn [mbind run_bind]. by eexists _, _.
    + destruct Hm as [Hi1 Hu1]. destruct (Hundo _ Hi1 Hu1) as (k4 & Hr4 & Hi4 & Hu4). rewrite Hr4. cbn [mbind run_bind]. by eexists _, _.
Qed.
End run.

(** ** The handlers *)

Lemma run_fits_spec va count : 0 <= va -> run_fits va count = true -> 1 <= count /\ va + (count - 1) * FRAME_SIZE < 2 ^ 64.
Proof.
  intros Hva. unfold run_fits, run_end_va. destruct (Z.ltb_spec count 1) as [|Hc]; [done|]. cbn [mbind option_bind].
  unfold checked_mul, checked_add. destruct (decide ((count - 1) * FRAME_SIZE < 2 ^ 64)); [|done]. cbn [mbind option_bind].
  destruct (decide (va + (count - 1) * FRAME_SIZE < 2 ^ 64)); [|done]. done.
Qed.

Lemma map_into_run_is n k region rt phys va i fl : map_into_run n k region rt phys va i fl = map_run n k region rt phys va i fl.
Proof.
  revert k i. induction n as [|n IH]; intros k i; cbn [map_into_run map_run]; [done|]. unfold map_physical.
  destruct (map_at k region rt (page_at va i) (page_at phys i) fl) as [[[]|e] k1]; [|done].
  destruct (record_mapping k1 (page_at phys i) rt (page_at va i) (FromCapability phys)) as [[[] k2]|]; cbn [mbind run_bind]; [by rewrite IH|done|done].
Qed.

(** Every page of the run is mapped with these flags and recorded under it, was
    not mapped before, and nothing else has changed. *)
Definition mapped_run (k k' : Kernel) (rt phys va count : Z) (fl : PageFormat.Flags) : Prop :=
  (forall j, 0 <= j < count -> tables k !! (rt, va + j * FRAME_SIZE) = None /\
     tables k' !! (rt, va + j * FRAME_SIZE) = Some (phys + j * FRAME_SIZE, fl)) /\
  (forall x, (forall j, 0 <= j < count -> x <> (rt, va + j * FRAME_SIZE)) -> tables k' !! x = tables k !! x) /\
  (forall rt' e, recorded k' rt' e <-> recorded k rt' e \/
     (rt' = rt /\ exists j, 0 <= j < count /\ e = MkEntry (phys + j * FRAME_SIZE) (va + j * FRAME_SIZE) phys)) /\
  threads k' = threads k.

Lemma run_whole_or_nothing k region rt phys va count fl : inv k -> 0 < phys -> phys + count * FRAME_SIZE <= 2 ^ 64 -> 0 <= va ->
  run_fits va count = true ->
  exists r k', map_run (Z.to_nat count) k region rt phys va 0 fl = Done (r, k') /\ inv k' /\
    match r with Ok _ => mapped_run k k' rt phys va count fl | Err _ => unchanged k k' end.
Proof.
  intros Hi Hp Hpb Hva Hfit. destruct (run_fits_spec va count Hva Hfit) as [Hc Hvb].
  destruct (map_run_spec k region rt phys va count fl Hi Hp Hpb Hva Hvb (Z.to_nat count) 0 k) as (r & k' & Hr & Hres);
    [by apply between_start|lia|rewrite Z2Nat.id; lia|]. rewrite Z.add_0_l, Z2Nat.id in Hres by lia.
  exists r, k'. split; [exact Hr|]. destruct r as [[]|e]; [|done]. destruct Hres as [H1 H2 H3 H4 H5 H6 _]. split; [done|].
  pose proof (page_at_va va count Hva Hvb) as Pv. pose proof (page_at_phys phys count Hp Hpb) as Pp. split; [|split; [|split; [|done]]].
  - intros j Hj. rewrite <- Pv, <- Pp by done. split; [by apply H3|by apply H4].
  - intros x Hx. apply H5. intros j Hj. rewrite Pv by done. by apply Hx.
  - intros rt' e. rewrite H2. unfold nth_entry. split; (intros [?|(-> & j & Hj & ->)]; [by left|right]); (split; [done|]); exists j; (split; [done|]); by rewrite Pv, Pp.
Qed.

Lemma region_map_spec k rt region va : inv k ->
  exists r k', memory_region_map k rt region va = Done (r, k') /\ inv k' /\
    match r with
    | Err _ => unchanged k k'
    | Ok _ => exists leaf, leaf ∉ handed (regions k) /\ tables k !! (rt, va) = None /\ added rt (MkEntry leaf va leaf) PageFormat.user_data k k'
    end.
Proof.
  intros Hi. unfold memory_region_map. destruct (negb _); [by exists (Err BadPointer), k|].
  destruct (retype_page (regions k) region) as [[leaf r]|] eqn:Hrt; [|by exists (Err OutOfMemory), k].
  destruct (retype_fresh _ _ _ _ Hrt) as (Hl & _ & Hfresh & Hh). assert (Hi1 : inv (set_regions k r)) by (apply inv_regions; [done|]; rewrite Hh; set_solver).
  pose proof (map_record (set_regions k r) region rt va leaf PageFormat.user_data NoCapability Hi1 ltac:(lia) (Z.le_refl _)) as Hm.
  cbn [source_object] in Hm. rewrite Z.sub_diag in Hm. specialize (Hm (Z.divide_0_r _)).
  destruct (map_at (set_regions k r) region rt va leaf PageFormat.user_data) as [[[]|e] k1].
  - destruct Hm as (b & k2 & Hr & Hb). rewrite Hr. cbn [mbind run_bind]. destruct b.
    + destruct Hb as (Hi2 & Ha & Hno). exists (Ok tt), k2. split; [done|]. split; [done|]. by exists leaf.
    + destruct Hb as (Hi3 & Hu). by eexists (Err OutOfMemory), _.
  - destruct Hm as [Hi2 Hu]. by destruct e; eexists _, k1.
Qed.

Lemma map_into_spec k cur cap space va frame_slot kind : inv k -> 0 <= va ->
  (forall frame phys count, Capability.get cur frame_slot = Ok frame ->
     Capability.object frame = OPageFrame phys count \/ (Capability.object frame = ODeviceFrame phys /\ count = 1) ->
     0 < phys /\ phys + count * FRAME_SIZE <= 2 ^ 64) ->
  exists r k', address_space_map_into k cur cap space va frame_slot kind = Done (r, k') /\ inv k' /\
    match r with
    | Err _ => unchanged k k'
    | Ok _ => exists frame phys count fl rt region, Capability.get cur frame_slot = Ok frame /\ space = Some (rt, region) /\
        frame_mapping frame kind = Ok (phys, count, fl) /\ mapped_run k k' rt phys va count fl
    end.
Proof.
  intros Hi Hva Hok. unfold address_space_map_into, guard_call. destruct (Capability.allows _ _); [|by exists (Err NotPermitted), k].
  destruct (Capability.get cur frame_slot) as [frame|] eqn:Hg; [|by exists (Err NoSuchSlot), k].
  destruct (frame_mapping frame kind) as [[[phys count] fl]|e] eqn:Hfm; [|by exists (Err e), k].
  destruct (run_fits va count) eqn:Hfit; [|by exists (Err BadPointer), k]. destruct space as [[rt region]|]; [|by exists (Err BadPointer), k].
  rewrite map_into_run_is. assert (Hb : 0 < phys /\ phys + count * FRAME_SIZE <= 2 ^ 64).
  { apply (Hok frame); [done|]. unfold frame_mapping in Hfm. destruct (Capability.object frame); try done; repeat case_match; simplify_eq; auto. }
  destruct Hb as [Hp Hpb]. destruct (run_whole_or_nothing k region rt phys va count fl Hi Hp Hpb Hva Hfit) as (r & k' & Hr & Hi' & Hres).
  exists r, k'. split; [exact Hr|]. split; [done|]. destruct r as [[]|]; [|done]. by exists frame, phys, count, fl, rt, region.
Qed.

(** ** Listing *)

(** A cursor splits back into the page and the index it was made of. *)
Lemma cursor_split p i : 0 <= p < 2 ^ 64 -> (FRAME_SIZE | p) -> (i < 4096)%nat ->
  Z.land (Z.lor p (Z.of_nat i)) PAGE_MASK = p /\ Z.land (Z.lor p (Z.of_nat i)) (not_w 64 PAGE_MASK) = Z.of_nat i.
Proof.
  intros Hp [q Hq] Hi. unfold FRAME_SIZE in Hq. assert (Hbits : forall b, 0 <= b -> Z.testbit p b = (12 <=? b) && (b <? 64) && Z.testbit p b).
  { intros b Hb. destruct (Z.testbit p b) eqn:Ht; [|by rewrite andb_false_r]. destruct (Z.leb_spec 12 b) as [|Hlow]; [destruct (Z.ltb_spec b 64) as [|Hhigh]; [done|]|].
    - rewrite Z.bits_above_log2 in Ht; [done|lia|]. destruct (decide (p = 0)) as [->|]; [simpl; lia|]. apply Z.log2_lt_pow2; [lia|].
      assert (2 ^ 64 <= 2 ^ b) by (apply Z.pow_le_mono_r; lia). lia.
    - rewrite Hq in Ht. change 4096 with (2 ^ 12) in Ht. rewrite Z.mul_pow2_bits_low in Ht by lia. done. }
  assert (Hib : forall b, 0 <= b -> Z.testbit (Z.of_nat i) b = (b <? 12) && Z.testbit (Z.of_nat i) b).
  { intros b Hb. destruct (Z.ltb_spec b 12) as [|Hge]; [done|]. destruct (decide (i = 0%nat)) as [->|]; [apply Z.bits_0|]. apply Z.bits_above_log2; [lia|].
    apply Z.log2_lt_pow2; [lia|]. assert (2 ^ 12 <= 2 ^ b) by (apply Z.pow_le_mono_r; lia). lia. }
  assert (Hmask : forall b, 0 <= b -> Z.testbit PAGE_MASK b = (b <? 64) && (12 <=? b)).
  { intros b Hb. unfold PAGE_MASK. rewrite testbit_not_w by lia. change (FRAME_SIZE - 1) with (Z.ones 12). rewrite Z.testbit_ones_nonneg by lia.
    f_equal. destruct (Z.ltb_spec b 12), (Z.leb_spec 12 b); done || lia. }
  split; apply Z.bits_inj'; intros b Hb; rewrite Z.land_spec, Z.lor_spec, ?testbit_not_w, Hmask by lia; rewrite Hbits, Hib by done;
    destruct (Z.leb_spec 12 b), (Z.ltb_spec b 12), (Z.ltb_spec b 64); try lia; by destruct (Z.testbit p b), (Z.testbit (Z.of_nat i) b).
Qed.

(** What is still to be listed from a place in a log. *)
Definition to_list (ps : list (Z * LogPage)) (index : nat) : list LogEntry :=
  match ps with
  | [] => []
  | (_, pg) :: rest => live_entries (drop index (take (used pg) (entries pg))) ++ log_of rest
  end.

Lemma filter_none {X} (P : X -> Prop) `{!forall x, Decision (P x)} l : Forall (fun x => ~ P x) l -> filter P l = [].
Proof. induction 1 as [|x l Hx _ IH]; [done|]. by rewrite filter_cons_False. Qed.

Lemma next_entry_spec pg index : page_ok pg ->
  match next_entry pg index with
  | Some (i, va) => (i < used pg)%nat /\ exists e, e_va e = va /\
      live_entries (drop index (take (used pg) (entries pg))) = e :: live_entries (drop (S i) (take (used pg) (entries pg)))
  | None => live_entries (drop index (take (used pg) (entries pg))) = []
  end.
Proof.
  intros [H1 H2]. unfold next_entry. destruct (position _ _) as [d|] eqn:Hp.
  - apply position_Some in Hp as (e & He & Hlive & Hbefore). rewrite lookup_drop in He. pose proof He as Hlt. apply lookup_take_Some in Hlt as [Hent Hlt].
    rewrite Hent. cbn [mbind option_bind]. split; [done|]. exists e. split; [done|]. unfold live_entries.
    assert (Hd : drop index (take (used pg) (entries pg)) !! d = Some e) by by rewrite lookup_drop.
    rewrite <- (take_drop_middle _ _ _ Hd) at 1. rewrite filter_app, filter_cons_True by (apply negb_true_iff, Z.eqb_neq in Hlive; done).
    rewrite drop_drop. replace (index + S d)%nat with (S (index + d)) by lia. rewrite filter_none; [done|].
    apply Forall_forall. intros x (j & Hj)%list_elem_of_lookup. apply lookup_take_Some in Hj as [Hj Hjd]. specialize (Hbefore j x Hjd Hj).
    apply negb_false_iff, Z.eqb_eq in Hbefore. tauto.
  - unfold live_entries. apply filter_none, Forall_forall. intros x (j & Hj)%list_elem_of_lookup. apply (position_None _ _ Hp) in Hj.
    apply negb_false_iff, Z.eqb_eq in Hj. tauto.
Qed.

Lemma list_walk_spec fuel l p ps index : chain l p ps -> (length ps < fuel)%nat ->
  match to_list ps index with
  | [] => list_walk fuel l p index = Done (0, 0)
  | e :: rest => exists a pg ps2 i, list_walk fuel l p index = Done (Z.lor a (Z.of_nat (S i)), e_va e) /\
      suffix ((a, pg) :: ps2) ps /\ chain l a ((a, pg) :: ps2) /\ (i < used pg)%nat /\ to_list ((a, pg) :: ps2) (S i) = rest
  end.
Proof.
  revert fuel p index. induction ps as [|[a pg] ps IH]; intros fuel p index Hc Hf.
  - cbn [chain] in Hc. subst p. by destruct fuel.
  - pose proof Hc as Hc0. cbn [chain] in Hc. destruct Hc as (-> & Ha & Hl & Hok & Hc). destruct fuel as [|fuel]; [cbn [length] in Hf; lia|]. cbn [list_walk].
    rewrite (proj2 (Z.eqb_neq a 0) Ha), Hl. cbn [to_list]. pose proof (next_entry_spec pg index Hok) as Hn. destruct (next_entry pg index) as [[i va]|].
    + destruct Hn as (Hi & e & <- & ->). cbn [app]. exists a, pg, ps, i. split; [done|]. split; [done|]. split; [exact Hc0|]. split; [done|]. reflexivity.
    + rewrite Hn. cbn [app]. specialize (IH fuel (next pg) 0%nat Hc ltac:(cbn [length] in Hf; lia)).
      assert (Hlog : log_of ps = to_list ps 0) by (destruct ps as [|[b pb] ps]; [done|]; cbn [to_list]; by rewrite drop_0).
      rewrite Hlog. destruct (to_list ps 0) as [|e rest]; [exact IH|]. destruct IH as (b & pb & ps2 & i & Hw & Hsuf & Hrest).
      exists b, pb, ps2, i. split; [exact Hw|]. split; [by apply suffix_cons_r|done].
Qed.

(** A caller that feeds each cursor back until the listing says it is done. *)
Fixpoint list_all (fuel : nat) (k : Kernel) (rt cursor : Z) : run (list (Z * Z)) :=
  match fuel with
  | O => Panicked
  | S fuel' =>
      '(nxt, va, kind) ← address_space_list fuel k (Some rt) cursor;
      if nxt =? DONE then Done [] else rest ← list_all fuel' k rt nxt; Done ((va, kind) :: rest)
  end.

(** How an address is mapped. *)
Definition kind_at (k : Kernel) (rt va : Z) : Z := match tables k !! (rt, va) with Some (_, fl) => kind_of fl | None => 0 end.

Lemma list_from k pss i s ps ps2 index cursor fuel : inv_with loaded k pss ->
  find_space (registry k) (root s) = Some i -> spaces (registry k) !! i = Some (Some s) -> chain (logs k) (head s) ps ->
  (list_to_set ps.*1 : gset Z) ⊆ handed (regions k) -> NoDup ps.*1 -> suffix ps2 ps ->
  (cursor = 0 /\ ps2 = ps /\ index = 0%nat) \/
  (exists a pg r, ps2 = (a, pg) :: r /\ cursor = Z.lor a (Z.of_nat index) /\ (0 < index <= LOG_ENTRIES)%nat /\ chain (logs k) a ps2) ->
  (forall e, e ∈ to_list ps2 index -> is_Some (tables k !! (root s, e_va e))) ->
  (length (to_list ps2 index) < fuel)%nat ->
  list_all fuel k (root s) cursor = Done ((fun e => (e_va e, kind_at k (root s) (e_va e))) <$> to_list ps2 index).
Proof.
  intros Hi Hfind Hs Hc Hh Hnd. revert ps2 index cursor. induction fuel as [|fuel IH]; intros ps2 index cursor Hsuf Hcur Hall Hf; [lia|].
  cbn [list_all address_space_list].
  assert (Hsub : sublist ps2.*1 ps.*1) by (apply fmap_sublist; destruct Hsuf as [pre ->]; by apply sublist_inserts_l).
  assert (Hpage : forall a, a ∈ ps.*1 -> 0 < a < 2 ^ 64 /\ (FRAME_SIZE | a)) by (intros a Ha; apply (handed_page (regions k)), Hh, elem_of_list_to_set, Ha).
  assert (Hwalk : exists p, list_mapping k (root s) cursor = list_walk (chain_fuel (logs k)) (logs k) p index /\ chain (logs k) p ps2).
  { unfold list_mapping. rewrite Hfind, Hs. destruct Hcur as [(-> & -> & ->)|(a & pg & r & -> & -> & Hix & Hch)]; [by exists (head s)|].
    destruct (Hpage a) as [Hpa Hdiv]; [eapply sublist_subseteq; [exact Hsub|constructor]|].
    destruct (cursor_split a index ltac:(lia) Hdiv ltac:(unfold LOG_ENTRIES in Hix; lia)) as [E1 E2].
    exists a. split; [|done]. destruct (Z.eqb_spec (Z.lor a (Z.of_nat index)) 0) as [H0|_].
    - apply Z.lor_eq_0_iff in H0. lia.
    - rewrite E1, E2. by rewrite Nat2Z.id. }
  destruct Hwalk as (p & Hm & Hch). rewrite Hm.
  pose proof (list_walk_spec (chain_fuel (logs k)) (logs k) p ps2 index Hch ltac:(eapply chain_short; [exact Hch|by eapply sublist_NoDup])) as Hw.
  destruct (to_list ps2 index) as [|e rest]; [by rewrite Hw|]. destruct Hw as (a & pg & ps3 & j & Hw & Hsuf3 & Hch3 & Hj & Hrest). rewrite Hw. cbn [mbind run_bind].
  assert (Hsuf3' : suffix ((a, pg) :: ps3) ps) by (by etransitivity). pose proof Hch3 as (_ & Ha0 & _ & [_ Hused] & _).
  rewrite (proj2 (Z.eqb_neq _ _)) by (unfold DONE; intros H0; apply Z.lor_eq_0_iff in H0; lia).
  destruct (Hall e ltac:(constructor)) as [[ph fl] He]. rewrite He. cbn [mbind run_bind].
  rewrite (proj2 (Z.eqb_neq _ _)) by (unfold DONE; intros H0; apply Z.lor_eq_0_iff in H0; lia).
  rewrite (IH ((a, pg) :: ps3) (S j)); [|done| |rewrite Hrest; intros x Hx; apply Hall; by constructor|rewrite Hrest; cbn [length] in Hf; lia].
  { rewrite Hrest. cbn [fmap list_fmap mbind run_bind]. unfold kind_at at 2. by rewrite He. }
  right. exists a, pg, ps3. split; [done|]. split; [done|]. split; [lia|done].
Qed.
(** A slice is a part of the run, with the rights of the whole. *)
Lemma slice_within w rights phys count first len slot w' : 0 <= first -> 0 <= len -> 0 < phys -> phys + count * FRAME_SIZE <= 2 ^ 64 ->
  page_frame_slice w rights phys count first len = (Ok slot, w') ->
  Capability.allows rights Capability.GRANT = true /\ 0 < len /\ first + len <= count /\
  w' = (Capability.insert CAPABILITY_TABLE_SLOTS w (Capability.MkCap (OPageFrame (phys + first * FRAME_SIZE) len) rights)).2.
Proof.
  intros Hf Hl Hp Hb. unfold page_frame_slice. destruct (Capability.allows rights Capability.GRANT) eqn:Ha; cbn [negb]; [|done].
  unfold checked_add. destruct (decide (first + len < 2 ^ 64)); [|done].
  destruct (Z.eqb_spec len 0) as [|H0]; [done|]. destruct (Z.ltb_spec count (first + len)) as [|Hc]; [done|]. cbn [orb].
  assert (Hpg : page_at phys first = phys + first * FRAME_SIZE) by (unfold page_at; apply wrap_small; unfold FRAME_SIZE in *; split; nia). rewrite Hpg.
  destruct (Capability.insert _ _ _) as [[s|] w2]; [|done]. intros [= <- <-]. split; [done|]. split; [lia|]. split; [lia|]. done.
Qed.

(** ** What the kernel does to mappings *)

(** A run a capability may name. *)
Definition run_ok (phys count : Z) : Prop := 0 < phys /\ 0 < count /\ phys + count * FRAME_SIZE <= 2 ^ 64.

(** The calls that make, drop or take back mappings, in any order and by any
    thread. A space is registered under the root of a page table that is new and
    empty. *)
Inductive step (k : Kernel) : Kernel -> Prop :=
  | step_register rt rg : rt <> 0 -> rt ∉ root <$> live (registry k) -> (forall va, tables k !! (rt, va) = None) ->
      step k (register_space k rt rg).2
  | step_forget rt : step k (forget_root k rt)
  | step_region_map rt region va r k' : memory_region_map k rt region va = Done (r, k') -> step k k'
  | step_frame_map cur rt cap phys count va writable ut_slot r k' : Capability.object cap = OPageFrame phys count -> run_ok phys count -> 0 <= va ->
      page_frame_map k cur rt cap phys count va writable ut_slot = Done (r, k') -> step k k'
  | step_map_into cur cap space va frame_slot kind r k' : 0 <= va ->
      (forall frame phys count, Capability.get cur frame_slot = Ok frame ->
         Capability.object frame = OPageFrame phys count \/ (Capability.object frame = ODeviceFrame phys /\ count = 1) -> run_ok phys count) ->
      address_space_map_into k cur cap space va frame_slot kind = Done (r, k') -> step k k'
  | step_revoke_run phys count k' : run_ok phys count -> revoke_page_frame_run k phys count = Done k' -> step k k'
  | step_revoke_region base size k' : 0 < base -> 0 <= size -> base + size < 2 ^ 64 -> revoke_region k base size = Done k' -> step k k'.

Lemma frame_map_spec k cur rt cap phys count va writable ut_slot :
  inv k -> 0 < phys -> phys + count * FRAME_SIZE <= 2 ^ 64 -> 0 <= va ->
  exists r k', page_frame_map k cur rt cap phys count va writable ut_slot = Done (r, k') /\ inv k' /\
    match r with
    | Err _ => unchanged k k'
    | Ok _ =>
        Capability.allows (Capability.rights cap) (if writable =? 0 then Capability.READ else Capability.WRITE) = true /\
        mapped_run k k' rt phys va count (if writable =? 0 then PageFormat.user_rodata else PageFormat.user_data)
    end.
Proof.
  intros Hi Hp Hpb Hva. unfold page_frame_map, guard_call. destruct (run_fits va count) eqn:Hfit; [|by exists (Err BadPointer), k].
  destruct (Capability.allows (Capability.rights cap) _) eqn:Hal; [|by exists (Err NotPermitted), k].
  destruct (Capability.get cur ut_slot) as [ut|]; [|by exists (Err NoSuchSlot), k].
  destruct (Capability.object ut) as [| region | | | | | | | | | |]; try by exists (Err WrongObject), k.
  destruct (Capability.allows (Capability.rights ut) Capability.WRITE); [|by exists (Err NotPermitted), k].
  destruct (run_whole_or_nothing k region rt phys va count (if writable =? 0 then PageFormat.user_rodata else PageFormat.user_data) Hi Hp Hpb Hva Hfit)
    as (r & k' & Hr & Hi' & Hres). exists r, k'. split; [exact Hr|]. split; [done|]. by destruct r as [[]|].
Qed.

Lemma call_inv k k' : inv k -> step k k' -> inv k'.
Proof.
  intros Hi [rt rg H0 Hf Hn|rt|rt region va r k2 Hr|cur rt cap phys count va writable ut r k2 _ (Hp & _ & Hb) Hva Hr|cur cap space va slot kind r k2 Hva Hok Hr
    |phys count k2 (Hp & Hc & Hb) Hr|base size k2 Hb Hs Hbs Hr].
  - by apply register_inv.
  - by apply forget_root_inv.
  - destruct (region_map_spec k rt region va Hi) as (r2 & k3 & Hr2 & Hi2 & _). congruence.
  - destruct (frame_map_spec k cur rt cap phys count va writable ut Hi Hp Hb Hva) as (r2 & k3 & Hr2 & Hi2 & _). congruence.
  - destruct (map_into_spec k cur cap space va slot kind Hi Hva) as (r2 & k3 & Hr2 & Hi2 & _); [|congruence].
    intros frame phys count Hg Ho. destruct (Hok frame phys count Hg Ho) as (? & _ & ?). done.
  - destruct (revoke_run_spec loaded k phys count Hi Hp Hc Hb) as (k3 & Hr2 & Hi2 & _). congruence.
  - destruct (revoke_region_spec loaded k base size Hi Hb Hs Hbs) as (k3 & Hr2 & Hi2 & _). congruence.
Qed.
End calls.


(** With nothing mapped by [map_new]: listing an address space from the start and feeding each cursor back
    ends, and shows every page that is mapped there, each exactly once and with
    what its page-table entry allows. *)
Theorem listing_shows_every_mapping {R} `{PM : PageMapper R} (k : Kernel (R:=R)) rt :
  inv k -> rt ∈ root <$> live (registry k) ->
  exists shown, (forall fuel, (length shown < fuel)%nat -> list_all fuel k rt 0 = Done shown) /\ NoDup shown.*1 /\
    (forall va kind, (va, kind) ∈ shown <-> exists phys fl, tables k !! (rt, va) = Some (phys, fl) /\ kind = kind_of fl).
Proof.
  intros [pss Hi] Hlive. pose proof (find_space_spec (registry k) rt) as Hfs. destruct (find_space (registry k) rt) as [i|] eqn:Hfind; [|done].
  destruct Hfs as (Hit & s & Hs & <-). destruct (live_split (registry k) i s Hs Hit) as (pre & post & Hl & _).
  pose proof (inv_chains _ _ Hi) as Hch. rewrite Hl in Hch. destruct (chains_split _ _ _ _ _ Hch) as (pss1 & ps & pss2 & -> & Hlen & Hc).
  pose proof (inv_agrees _ _ Hi) as Hag. rewrite (live_elem_view _ _ _ _ _ _ _ Hl Hlen) in Hag.
  destruct (proj2 Hag (root s) (log_of ps)) as [Hva Hes]; [apply elem_of_app; right; constructor|].
  assert (Hlog : log_of ps = to_list ps 0) by (destruct ps as [|[b pb] ps]; [done|]; cbn [to_list]; by rewrite drop_0).
  assert (Hin : forall e, e ∈ log_of ps -> exists fl, tables k !! (root s, e_va e) = Some (e_phys e, fl)).
  { intros e He. apply Hes. exists (e_object e). by destruct e. }
  exists ((fun e => (e_va e, kind_at k (root s) (e_va e))) <$> log_of ps). split; [|split].
  - intros fuel Hf. rewrite length_fmap in Hf. rewrite Hlog in *. eapply list_from; [exact Hi|exact Hfind|exact Hs|exact Hc| | |done|by left| |done].
    + intros a Ha%elem_of_list_to_set. by eapply own_pages_handed.
    + by eapply own_pages_distinct.
    + intros e [fl He]%Hin. eauto.
  - by rewrite <- list_fmap_compose.
  - intros va kind. split.
    + intros (e & [= -> ->] & He)%list_elem_of_fmap. destruct (Hin e He) as [fl Hx]. exists (e_phys e), fl. unfold kind_at. by rewrite Hx.
    + intros (phys & fl & Hx & ->). destruct (proj2 (Hes va phys) (conj (not_elem_of_empty _) (ex_intro _ fl Hx))) as [o He].
      apply list_elem_of_fmap. exists (MkEntry phys va o). split; [|done]. unfold kind_at. cbn [e_va]. by rewrite Hx.
Qed.

(** ** Loading *)

(** What happens to mappings, with the places [map_new] has mapped kept beside the
    kernel: a call; a page a loader maps in a space; and the end of a space's page table,
    which takes what it mapped with it, once the space is no longer registered. *)
Inductive load_step {R} `{PM : PageMapper R} `{F : !PageFormat.PageFormat} : gset (Z * Z) * Kernel (R:=R) -> gset (Z * Z) * Kernel (R:=R) -> Prop :=
  | load_call L k k' : step k k' -> load_step (L, k) (L, k')
  | load_page L k region rt va fl r k' : map_new k region rt va fl = (r, k') ->
      load_step (L, k) (match r with Ok _ => {[(rt, va)]} ∪ L | Err _ => L end, k')
  | load_drop L k rt : rt ∉ root <$> live (registry k) ->
      load_step (L, k) (filter (fun x => x.1 <> rt) L, set_tables k (filter (fun p => p.1.1 <> rt) (tables k))).

Section loading.
Context {R : Type} `{PM : PageMapper R} `{F : !PageFormat.PageFormat}.

Lemma map_new_inv L (k : Kernel (R:=R)) region rt va fl r k' : inv_loaded L k -> map_new k region rt va fl = (r, k') ->
  inv_loaded (match r with Ok _ => {[(rt, va)]} ∪ L | Err _ => L end) k'.
Proof.
  intros Hi. unfold map_new. destruct (retype_page (regions k) region) as [[frame rs]|] eqn:Hrt; [|by intros [= <- <-]].
  assert (Hi1 : inv_loaded L (set_regions k rs)) by (apply inv_regions; [done|]; destruct (retype_new _ _ _ _ Hrt) as [_ ->]; set_solver).
  unfold map_at. destruct (map_page _ _ _ _ _ _ _) as [[[]|e] r2] eqn:Hm; intros [= <- <-]; [|apply (inv_regions (set_regions k rs)); [done|by eapply map_page_handed]].
  pose proof (map_page_fresh _ _ _ _ _ _ _ _ Hm) as Hno. pose proof (map_page_handed _ _ _ _ _ _ _ _ _ Hm) as Hh. cbn [tables set_regions regions] in *.
  destruct Hi1 as [pss [H1 H2 H3 H4 H5 H6 H7 H8]]. exists pss. constructor; cbn [registry logs tables threads PEAK regions set_regions set_tables] in *; try done; [set_solver| |].
  - destruct H6 as [Hnd Hag]. split; [done|]. intros rt' es Hin. destruct (Hag rt' es Hin) as [Hva Hes]. split; [done|]. intros va' ph. rewrite Hes.
    destruct (decide ((rt, va) = (rt', va'))) as [[= <- <-]|Hne]; [|rewrite lookup_insert_ne by done; set_solver].
    rewrite Hno. split; [by intros (_ & ? & ?)|]. intros [Hn _]. set_solver.
  - intros x [->%elem_of_singleton|Hx]%elem_of_union; [rewrite lookup_insert_eq; eauto|]. rewrite lookup_insert_is_Some'. auto.
Qed.

Lemma drop_inv L (k : Kernel (R:=R)) rt : inv_loaded L k -> rt ∉ root <$> live (registry k) ->
  inv_loaded (filter (fun x => x.1 <> rt) L) (set_tables k (filter (fun p => p.1.1 <> rt) (tables k))).
Proof.
  intros [pss Hi] Hrt. exists pss. pose proof Hi as [H1 H2 H3 H4 H5 H6 H7 H8]. constructor; cbn [registry logs tables threads PEAK regions set_tables]; try done.
  - destruct H6 as [Hnd Hag]. split; [done|]. intros rt' es Hin. destruct (Hag rt' es Hin) as [Hva Hes]. split; [done|]. intros va ph. rewrite Hes.
    assert (Hne : rt' <> rt) by (intros ->; apply Hrt; apply view_elem in Hin as (i & s & ps & Hs & _ & <- & _); apply list_elem_of_fmap_2; by eapply list_elem_of_lookup_2).
    rewrite elem_of_filter. setoid_rewrite map_lookup_filter_Some. cbn [fst]. naive_solver.
  - intros x [Hx HL]%elem_of_filter. destruct (H7 x HL) as [p Hp]. exists p. by apply map_lookup_filter_Some.
Qed.

Lemma loading_inv p p' : inv_loaded p.1 p.2 -> rtc load_step p p' -> inv_loaded p'.1 p'.2.
Proof.
  intros Hi Hs. induction Hs as [|p1 p2 p3 Hs _ IH]; [done|]. apply IH. destruct Hs; cbn [fst snd] in *; [by eapply call_inv|by eapply map_new_inv|by apply drop_inv].
Qed.
End loading.

(** C14: Whatever calls are made to map, unmap, register, forget and revoke, whatever
    pages a loader maps with [map_new] and whatever page tables go, in any order, the
    logs and the page tables agree: in every registered space, a page that is mapped at
    an address [map_new] did not map is there exactly when one entry of that space's log
    says so, under one capability only; and what [map_new] mapped, which it does not
    record, is mapped still and no entry of the log of its space has its address. *)
Theorem every_mapping_is_recorded {R} `{PM : PageMapper R} `{F : !PageFormat.PageFormat} (k k' : Kernel (R:=R)) L rt :
  inv k -> rtc load_step (∅, k) (L, k') -> rt ∈ root <$> live (registry k') ->
  (forall va phys, (rt, va) ∉ L -> (exists fl, tables k' !! (rt, va) = Some (phys, fl)) <-> exists! o, recorded k' rt (MkEntry phys va o)) /\
  (forall va, (rt, va) ∈ L -> is_Some (tables k' !! (rt, va)) /\ forall phys o, ~ recorded k' rt (MkEntry phys va o)).
Proof.
  intros Hi Hsteps Hlive. destruct (loading_inv (∅, k) (L, k') Hi Hsteps) as [pss Hiw]. cbn [fst snd] in Hiw. apply list_elem_of_fmap in Hlive as (s & -> & (i & Hs)%list_elem_of_lookup).
  destruct (Forall2_lookup_l _ _ _ _ _ (inv_chains _ _ Hiw) Hs) as (ps & Hps & _).
  assert (Hv : (root s, log_of ps) ∈ view (live (registry k')) pss) by (apply view_elem; eauto 10).
  destruct (inv_agrees _ _ Hiw) as [Hk Hag]. destruct (Hag _ _ Hv) as [Hnd Hes].
  assert (Hrec : forall e, recorded k' (root s) e <-> e ∈ log_of ps).
  { intros e. rewrite (recorded_view _ _ _ _ Hiw). split; [|eauto]. intros (es & Hin & He). by rewrite (key_unique _ _ _ _ Hk Hv Hin). }
  split.
  - intros va phys Hnl. split.
    + intros Hx. destruct (proj2 (Hes va phys) (conj Hnl Hx)) as [o Ho]. exists o. split; [by apply Hrec|]. intros o' Ho'%Hrec. by injection (va_unique _ _ _ Hnd Ho Ho' eq_refl).
    + intros (o & Ho%Hrec & _). apply (proj1 (Hes va phys)). by exists o.
  - intros va HL. split; [by apply (inv_loaded_mapped _ _ Hiw)|]. intros phys o Ho%Hrec. destruct (proj1 (Hes va phys)) as [Hn _]; [by exists o|done].
Qed.

(** ** A mapper for the small kernel *)

#[export, program] Instance bump_mapper : PageMapper nat := {
  map_page n _ t rt va _ _ := if decide (t !! (rt, va) = None) then (Ok tt, n) else (Err Mapper.AlreadyMapped, n)
}.
Next Obligation. intros n g t rt va phys fl n' H. cbn beta in H. by destruct (decide _). Qed.
Next Obligation. intros n g t rt va phys fl res n' H. cbn beta in H. destruct (decide _); injection H as _ <-; done. Qed.

#[local] Existing Instance Aarch64.Aarch64_format.


Lemma listing_shows_every_mapping_witness :
  list_all 5 demo_mapped 8192 0 = Done [(65536, MAP_RW)] /\
  exists shown, NoDup shown.*1 /\ (65536, MAP_RW) ∈ shown.
Proof.
  split; [vm_compute; reflexivity|].
  destruct (listing_shows_every_mapping demo_mapped 8192 demo_mapped_inv ltac:(vm_compute; constructor)) as (shown & _ & H2 & H3).
  exists shown. split; [exact H2|]. apply H3. exists 1052672, PageFormat.user_data. split; reflexivity.
Defined.

(** A loader maps a page of region 7 at 49152, and a run of three frames is mapped beside it. *)
Lemma every_mapping_is_recorded_witness :
  exists L k, rtc load_step (∅, demo) (L, k) /\ (exists! o, recorded k 8192 (MkEntry 1052672 69632 o)) /\
    is_Some (tables k !! (8192, 49152)) /\ forall phys o, ~ recorded k 8192 (MkEntry phys 49152 o).
Proof.
  destruct (map_new demo 7 8192 49152 PageFormat.user_data) as [r0 k0] eqn:Hn.
  destruct (page_frame_map k0 (Capability.table demo_caps) 8192 (Capability.MkCap (OPageFrame 1048576 3) Capability.ALL) 1048576 3 65536 1 0)
    as [[r k]|] eqn:Hr; [|vm_compute in Hn; injection Hn as <- <-; vm_compute in Hr; discriminate].
  assert (Hs : rtc load_step (∅, demo) (match r0 with Ok _ => {[(8192, 49152)]} ∪ ∅ | Err _ => ∅ end, k)).
  { eapply rtc_l; [by eapply load_page|]. eapply rtc_once, load_call, step_frame_map; [| | |exact Hr]; [reflexivity|split; [lia|split; [lia|vm_compute; discriminate]]|lia]. }
  eexists _, k. split; [exact Hs|]. vm_compute in Hn. injection Hn as <- <-. vm_compute in Hr. injection Hr as <- <-.
  destruct (every_mapping_is_recorded _ _ _ 8192 demo_inv Hs) as [H1 H2]; [vm_compute; constructor|]. split.
  - apply H1; [set_solver|]. exists PageFormat.user_data. reflexivity.
  - apply (H2 49152). set_solver.
Defined.

(** The cursor comes from the caller, and is followed as the address of a log
    page without being looked for in the space's own log: one the listing never
    handed out leaves the log. *)
Theorem forged_cursor_leaves_the_log :
  inv demo_mapped /\ address_space_list 5 demo_mapped (Some 8192) 0 = Done (4097, 65536, MAP_RW) /\
  address_space_list 5 demo_mapped (Some 8192) (1048576 + 1) = Panicked.
Proof. split; [apply demo_mapped_inv|]. by vm_compute. Qed.

End MappingCalls.
