(* ===== verification/KernelIpc.v ===== *)
(** * Kernel IPC (kernel/src/sched.rs and the IPC calls of kernel/src/syscall.rs)

    What a thread does when it invokes an endpoint, a reply capability or a
    notification, from the capability it names to the thread it wakes: messages
    through mailboxes, capabilities through hand-off slots, calls and their
    one-shot replies, deaths reported to a supervisor, and what is torn down with
    a region. A call that blocks is two halves: what happens before the thread is
    switched out and what it finds when it runs again.

    Threads' handshakes and the cores are the machine of [Scheduler]; an endpoint
    and a notification are the contracts [Rendezvous.Endpoint] and
    [Notification.Cell], which their queues are proved to implement; a
    generational table is the map of its live names. *)

From S2P Require Import Prelude Capability IntrusiveFifo Rendezvous Notification Handshake Scheduler Revocation MappingCalls.
Local Open Scope Z_scope.

Module KernelIpc.
Import Revocation.

#[local] Existing Instance Handshake.RunState_eq_dec.
Abbreviation Machine := Scheduler.Machine.
Abbreviation ThreadId := Z (only parsing).

Definition NO_CAP : Z := u64_max.
Definition REPLY_DELIVERED : Z := 1.
Definition BOUND : Z := 2.
Definition EVENT_FAULT : Z := 1.
Definition EVENT_EXIT : Z := 2.
Definition FAULT_EP_SLOT : Z := Z.of_nat CAPABILITY_TABLE_SLOTS - 1.

Inductive WaitRole := Sender | Receiver | Reply.

Inductive Wait := WRendezvous (ep : Z) (role : WaitRole) | WNotification (id : Z).

#[export] Instance WaitRole_eq_dec : EqDecision WaitRole.
Proof. solve_decision. Defined.
#[export] Instance Wait_eq_dec : EqDecision Wait.
Proof. solve_decision. Defined.

(** The five words of a mailbox. *)
Record Msg := MkMsg { w0 : Z; w1 : Z; w2 : Z; w3 : Z; w4 : Z }.

Definition no_msg : Msg := MkMsg 0 0 0 0 0.

#[export] Instance Msg_eq_dec : EqDecision Msg.
Proof. solve_decision. Defined.

(** A thread without its handshake, which is the machine's. *)
Record Tcb := MkTcb {
  page : Z;
  capability_table : Capability.CapabilityTable Object;
  mailbox : Msg;
  outgoing_cap : option Cap;
  cap_delivered : bool;
  ipc_refused : bool;
  killed : bool;
  fault_ep : option Z;
  fault_msg : option Msg;
  bound_notification : option Z }.

Definition set_table (x : Capability.CapabilityTable Object) (b : Tcb) : Tcb :=
  MkTcb (page b) x (mailbox b) (outgoing_cap b) (cap_delivered b) (ipc_refused b) (killed b) (fault_ep b) (fault_msg b) (bound_notification b).
Definition set_mailbox (x : Msg) (b : Tcb) : Tcb :=
  MkTcb (page b) (capability_table b) x (outgoing_cap b) (cap_delivered b) (ipc_refused b) (killed b) (fault_ep b) (fault_msg b) (bound_notification b).
Definition set_outgoing (x : option Cap) (b : Tcb) : Tcb :=
  MkTcb (page b) (capability_table b) (mailbox b) x (cap_delivered b) (ipc_refused b) (killed b) (fault_ep b) (fault_msg b) (bound_notification b).
Definition set_cap_delivered (x : bool) (b : Tcb) : Tcb :=
  MkTcb (page b) (capability_table b) (mailbox b) (outgoing_cap b) x (ipc_refused b) (killed b) (fault_ep b) (fault_msg b) (bound_notification b).
Definition set_refused (x : bool) (b : Tcb) : Tcb :=
  MkTcb (page b) (capability_table b) (mailbox b) (outgoing_cap b) (cap_delivered b) x (killed b) (fault_ep b) (fault_msg b) (bound_notification b).
Definition set_killed (x : bool) (b : Tcb) : Tcb :=
  MkTcb (page b) (capability_table b) (mailbox b) (outgoing_cap b) (cap_delivered b) (ipc_refused b) x (fault_ep b) (fault_msg b) (bound_notification b).
Definition set_fault_ep (x : option Z) (b : Tcb) : Tcb :=
  MkTcb (page b) (capability_table b) (mailbox b) (outgoing_cap b) (cap_delivered b) (ipc_refused b) (killed b) x (fault_msg b) (bound_notification b).
Definition set_fault_msg (x : option Msg) (b : Tcb) : Tcb :=
  MkTcb (page b) (capability_table b) (mailbox b) (outgoing_cap b) (cap_delivered b) (ipc_refused b) (killed b) (fault_ep b) x (bound_notification b).
Definition set_bound (x : option Z) (b : Tcb) : Tcb :=
  MkTcb (page b) (capability_table b) (mailbox b) (outgoing_cap b) (cap_delivered b) (ipc_refused b) (killed b) (fault_ep b) (fault_msg b) x.

(** The object pages a table's names lead to. *)
Record RendezvousPage := MkRendezvousPage { r_page : Z; r_state : Rendezvous.Endpoint }.
Record NotificationPage := MkNotificationPage { n_page : Z; n_state : Notification.Cell; n_bound : option ThreadId }.

Record IpcTables := MkTables {
  machine : Machine Wait;
  tcbs : gmap Z Tcb;
  rendezvous_table : gmap Z RendezvousPage;
  notification_table : gmap Z NotificationPage;
  PEAK : Z }.

Definition set_machine (k : IpcTables) (m : Machine Wait) : IpcTables := MkTables m (tcbs k) (rendezvous_table k) (notification_table k) (PEAK k).
Definition set_tcbs (k : IpcTables) (b : gmap Z Tcb) : IpcTables := MkTables (machine k) b (rendezvous_table k) (notification_table k) (PEAK k).
Definition set_rendezvous (k : IpcTables) (r : gmap Z RendezvousPage) : IpcTables := MkTables (machine k) (tcbs k) r (notification_table k) (PEAK k).
Definition set_notifications (k : IpcTables) (n : gmap Z NotificationPage) : IpcTables := MkTables (machine k) (tcbs k) (rendezvous_table k) n (PEAK k).

(** ** Access *)

(** [current_thread_id], on core [c]. *)
Definition current_thread_id (k : IpcTables) (c : nat) : run ThreadId :=
  match Scheduler.cpus (machine k) !! c with Some p => Done (Scheduler.current p) | None => Panicked end.

(** [threads.get_mut(t).unwrap()], and a write through it. *)
Definition with_thread (k : IpcTables) (t : ThreadId) (f : Tcb -> Tcb) : run IpcTables :=
  match tcbs k !! t with Some b => Done (set_tcbs k (<[t := f b]> (tcbs k))) | None => Panicked end.

(** [if let Some(t) = threads.get_mut(t)]. *)
Definition if_thread (k : IpcTables) (t : ThreadId) (f : Tcb -> Tcb) : IpcTables := set_tcbs k (alter f t (tcbs k)).

Definition handshake_of (k : IpcTables) (t : ThreadId) : option (Handshake.Handshake Wait) := Scheduler.threads (machine k) !! t.

Definition on_handshake (k : IpcTables) (t : ThreadId) (f : Handshake.Handshake Wait -> Handshake.Handshake Wait) : IpcTables :=
  set_machine k (Scheduler.deliver (machine k) t f).

Definition wake (k : IpcTables) (c : nat) (t : ThreadId) : run IpcTables := m ← Scheduler.wake (machine k) c t; Done (set_machine k m).

Definition park (k : IpcTables) (c : nat) (w : Wait) : run IpcTables := m ← Scheduler.park_current (machine k) c w; Done (set_machine k m).

Definition set_ipc_aborted (k : IpcTables) (t : ThreadId) : IpcTables :=
  if_thread (set_machine k (Scheduler.set_ipc_aborted (machine k) t)) t (set_outgoing None).

Definition set_ipc_refused (k : IpcTables) (t : ThreadId) : IpcTables :=
  if_thread (set_machine k (Scheduler.set_ipc_aborted (machine k) t)) t (set_refused true).

(** [capability_table.insert(cap).unwrap_or(NO_CAP)]. *)
Definition insert_cap (k : IpcTables) (t : ThreadId) (cap : Cap) : run (Z * IpcTables) :=
  match tcbs k !! t with
  | None => Panicked
  | Some b =>
      let '(r, w) := Capability.insert CAPABILITY_TABLE_SLOTS (Capability.MkWorld (capability_table b) (PEAK k)) cap in
      Done (match r with Ok slot => slot | Err _ => NO_CAP end,
            MkTables (machine k) (<[t := set_table (Capability.table w) b]> (tcbs k)) (rendezvous_table k) (notification_table k) (Capability.PEAK w))
  end.

(** ** Endpoints and notifications *)

Definition put_endpoint (k : IpcTables) (ep : Z) (p : RendezvousPage) (e : Rendezvous.Endpoint) : IpcTables :=
  set_rendezvous k (<[ep := MkRendezvousPage (r_page p) e]> (rendezvous_table k)).

Definition put_cell (k : IpcTables) (id : Z) (p : NotificationPage) (e : Notification.Cell) : IpcTables :=
  set_notifications k (<[id := MkNotificationPage (n_page p) e (n_bound p)]> (notification_table k)).

Definition ep_send (e : Rendezvous.Endpoint) (me : ThreadId) : Rendezvous.Send * Rendezvous.Endpoint :=
  match Rendezvous.spec_call (Rendezvous.CSend me) e with (Rendezvous.RSend s, e') => (s, e') | (_, e') => (Rendezvous.SendRefused, e') end.
Definition ep_receive (e : Rendezvous.Endpoint) (me : ThreadId) : Rendezvous.Receive * Rendezvous.Endpoint :=
  match Rendezvous.spec_call (Rendezvous.CReceive me) e with (Rendezvous.RReceive s, e') => (s, e') | (_, e') => (Rendezvous.ReceiveBlocked, e') end.
Definition ep_signal (e : Rendezvous.Endpoint) : option ThreadId * Rendezvous.Endpoint :=
  match Rendezvous.spec_call Rendezvous.CSignal e with (Rendezvous.RSignal s, e') => (s, e') | (_, e') => (None, e') end.
Definition ep_drain (e : Rendezvous.Endpoint) : list ThreadId * Rendezvous.Endpoint :=
  match Rendezvous.spec_call Rendezvous.CDrain e with (Rendezvous.RDrained ws, e') => (ws, e') | (_, e') => ([], e') end.
Definition ep_remove_sender (e : Rendezvous.Endpoint) (t : ThreadId) : Rendezvous.Endpoint := (Rendezvous.spec_call (Rendezvous.CRemoveSender t) e).2.
Definition ep_remove_receiver (e : Rendezvous.Endpoint) (t : ThreadId) : Rendezvous.Endpoint := (Rendezvous.spec_call (Rendezvous.CRemoveReceiver t) e).2.

Definition note_signal (e : Notification.Cell) (bits : Z) (bound_receiving : bool) : Notification.Signal * Notification.Cell :=
  match Notification.spec_call (Notification.CSignal bits bound_receiving) e with (Notification.RSignal s, e') => (s, e') | (_, e') => (Notification.Empty, e') end.
Definition note_wait (e : Notification.Cell) (me : ThreadId) : Notification.Wait * Notification.Cell :=
  match Notification.spec_call (Notification.CWait me) e with (Notification.RWait s, e') => (s, e') | (_, e') => (Notification.Blocked, e') end.
Definition note_poll (e : Notification.Cell) : Z * Notification.Cell :=
  match Notification.spec_call Notification.CPoll e with (Notification.RPoll s, e') => (s, e') | (_, e') => (0, e') end.

(** ** Sending *)

Definition wide (a b d badge : Z) : Msg := MkMsg a b d badge 0.

(** A receiver's mailbox is written, it is served and woken. *)
Definition hand_over (k : IpcTables) (c : nat) (r : ThreadId) (f : Tcb -> Tcb) : run IpcTables :=
  k1 ← with_thread k r f;
  wake (on_handshake k1 r Handshake.serve) c r.

(** Whether the caller blocks. *)
Definition ipc_send_badged (k : IpcTables) (c : nat) (ep a0 a1 a2 badge : Z) : run (bool * IpcTables) :=
  current ← current_thread_id k c;
  let msg := wide a0 a1 a2 badge in
  match tcbs k !! current, rendezvous_table k !! ep with
  | None, _ => Panicked
  | Some _, None => Done (false, set_ipc_aborted k current)
  | Some _, Some p =>
      match ep_send (r_state p) current with
      | (Rendezvous.SendRendezvous receiver, e) => k1 ← hand_over (put_endpoint k ep p e) c receiver (set_mailbox msg); Done (false, k1)
      | (Rendezvous.SendBlocked, e) =>
          k1 ← with_thread (put_endpoint k ep p e) current (set_mailbox msg);
          k2 ← park k1 c (WRendezvous ep Sender); Done (true, k2)
      | (Rendezvous.SendRefused, e) => Done (false, set_ipc_refused (put_endpoint k ep p e) current)
      end
  end.

Definition ipc_send_cap (k : IpcTables) (c : nat) (ep data : Z) (cap : Cap) (badge : Z) : run (bool * IpcTables) :=
  current ← current_thread_id k c;
  match tcbs k !! current, rendezvous_table k !! ep with
  | None, _ => Panicked
  | Some _, None => Done (false, set_ipc_aborted k current)
  | Some _, Some p =>
      match ep_send (r_state p) current with
      | (Rendezvous.SendRendezvous receiver, e) =>
          '(slot, k1) ← insert_cap (put_endpoint k ep p e) receiver cap;
          k2 ← hand_over k1 c receiver (fun b => set_cap_delivered true (set_mailbox (MkMsg data slot 0 badge 0) b)); Done (false, k2)
      | (Rendezvous.SendBlocked, e) =>
          k1 ← with_thread (put_endpoint k ep p e) current (fun b => set_outgoing (Some cap) (set_mailbox (MkMsg data 0 0 badge 0) b));
          k2 ← park k1 c (WRendezvous ep Sender); Done (true, k2)
      | (Rendezvous.SendRefused, e) => Done (false, set_ipc_refused (put_endpoint k ep p e) current)
      end
  end.

(** ** Calling and replying *)

Definition reply_cap (t : ThreadId) : Cap := Capability.MkCap (OReply t) Capability.WRITE.

Definition reply_tag (slot : Z) : Z := if slot =? NO_CAP then 0 else REPLY_DELIVERED.

Definition ipc_call_badged (k : IpcTables) (c : nat) (ep a0 a1 badge : Z) : run (bool * IpcTables) :=
  current ← current_thread_id k c;
  match tcbs k !! current, rendezvous_table k !! ep with
  | None, _ => Panicked
  | Some _, None => Done (false, set_ipc_aborted k current)
  | Some _, Some p =>
      match ep_send (r_state p) current with
      | (Rendezvous.SendRendezvous receiver, e) =>
          '(slot, k1) ← insert_cap (put_endpoint k ep p e) receiver (reply_cap current);
          k2 ← hand_over k1 c receiver (fun b => set_cap_delivered true (set_mailbox (MkMsg a0 slot a1 badge (reply_tag slot)) b));
          k3 ← park k2 c (WRendezvous ep Reply); Done (true, k3)
      | (Rendezvous.SendBlocked, e) =>
          k1 ← with_thread (put_endpoint k ep p e) current (fun b => set_outgoing (Some (reply_cap current)) (set_mailbox (MkMsg a0 a1 0 badge 0) b));
          k2 ← park k1 c (WRendezvous ep Reply); Done (true, k2)
      | (Rendezvous.SendRefused, e) => Done (false, set_ipc_refused (put_endpoint k ep p e) current)
      end
  end.

(** Whether a handshake is parked for a reply, on any endpoint. *)
Definition awaits_reply (h : Handshake.Handshake Wait) : bool :=
  match Handshake.wait_on h with Some (WRendezvous _ Reply) => true | _ => false end.

Definition ipc_reply (k : IpcTables) (c : nat) (caller a0 a1 : Z) : run IpcTables :=
  match handshake_of k caller with
  | None => Done k
  | Some h =>
      if negb (awaits_reply h) then Done k
      else hand_over k c caller (set_mailbox (MkMsg a0 a1 0 0 0))
  end.

(** ** Receiving *)

Definition bound_delivery (word : Z) : Msg := MkMsg BOUND word 0 0 BOUND.

Definition take_bound_signal (k : IpcTables) (t : ThreadId) : option (Z * IpcTables) :=
  b ← tcbs k !! t;
  id ← bound_notification b;
  p ← notification_table k !! id;
  let '(word, e) := note_poll (n_state p) in
  if word =? 0 then None else Some (word, put_cell k id p e).

Definition is_reply (c : option Cap) : bool := match c with Some c => match Capability.object c with OReply _ => true | _ => false end | None => false end.

(** The sender a plain [RECEIVE] took its message from: a caller stays blocked,
    a corpse only forgets what it waits on, any other loses its hand-off slot
    and is woken. *)
Definition release_sender (k : IpcTables) (c : nat) (sender : ThreadId) : run IpcTables :=
  match tcbs k !! sender, handshake_of k sender with
  | Some b, Some h =>
      let dead := bool_decide (Handshake.state h = Handshake.Dead) in
      if is_reply (outgoing_cap b) || dead then
        Done (if dead then on_handshake k sender (fun h => Handshake.MkHandshake (Handshake.state h) (Handshake.on_cpu h) (Handshake.wake_pending h) None
                                                     (Handshake.ipc_served h) (Handshake.ipc_aborted h))
              else k)
      else wake (on_handshake (if_thread k sender (set_outgoing None)) sender Handshake.serve) c sender
  | _, _ => Panicked
  end.

(** The message, or [None] when the caller blocks. *)
Definition ipc_receive (k : IpcTables) (c : nat) (ep : Z) : run (option Msg * IpcTables) :=
  current ← current_thread_id k c;
  match tcbs k !! current, rendezvous_table k !! ep with
  | None, _ => Panicked
  | Some _, None => Done (Some no_msg, set_ipc_aborted k current)
  | Some _, Some p =>
      match take_bound_signal k current with
      | Some (word, k1) => Done (Some (bound_delivery word), k1)
      | None =>
          match ep_receive (r_state p) current with
          | (Rendezvous.ReceiveSignal, e) => Done (Some (MkMsg 1 0 0 0 0), put_endpoint k ep p e)
          | (Rendezvous.FromSender sender, e) =>
              match tcbs k !! sender with
              | None => Panicked
              | Some s => k1 ← release_sender (put_endpoint k ep p e) c sender; Done (Some (mailbox s), k1)
              end
          | (Rendezvous.ReceiveBlocked, e) => k1 ← park (put_endpoint k ep p e) c (WRendezvous ep Receiver); Done (None, k1)
          end
      end
  end.

(** What a thread that blocked in [ipc_receive] reads when it runs again. *)
Definition ipc_receive_resume (k : IpcTables) (c : nat) : run Msg :=
  current ← current_thread_id k c;
  match tcbs k !! current, handshake_of k current with
  | Some b, Some h => if Handshake.is_delivered h then Done (mailbox b) else Panicked
  | _, _ => Panicked
  end.

(** The capability a sender offers, into the receiver's table. *)
Definition collect_cap (k : IpcTables) (current : ThreadId) (cap : option Cap) : run (Z * IpcTables) :=
  match cap with Some c => insert_cap k current c | None => Done (NO_CAP, k) end.

Definition ipc_receive_cap (k : IpcTables) (c : nat) (ep : Z) : run (option Msg * IpcTables) :=
  current ← current_thread_id k c;
  match tcbs k !! current, rendezvous_table k !! ep with
  | None, _ => Panicked
  | Some _, None => Done (Some no_msg, set_ipc_aborted k current)
  | Some _, Some p =>
      match take_bound_signal k current with
      | Some (word, k1) => Done (Some (bound_delivery word), k1)
      | None =>
          match ep_receive (r_state p) current with
          | (Rendezvous.ReceiveSignal, e) => Done (Some (MkMsg 1 NO_CAP 0 0 0), put_endpoint k ep p e)
          | (Rendezvous.FromSender sender, e) =>
              match tcbs k !! sender with
              | None => Panicked
              | Some s =>
                  let msg := mailbox s in
                  let cap := outgoing_cap s in
                  k1 ← with_thread (put_endpoint k ep p e) sender (set_outgoing None);
                  '(slot, k2) ← collect_cap k1 current cap;
                  k3 ← (if is_reply cap then Done k2 else wake (on_handshake k2 sender Handshake.serve) c sender);
                  Done (Some (MkMsg (w0 msg) slot (w1 msg) (w3 msg) (if is_reply cap then reply_tag slot else 0)), k3)
              end
          | (Rendezvous.ReceiveBlocked, e) =>
              k1 ← with_thread (put_endpoint k ep p e) current (set_cap_delivered false);
              k2 ← park k1 c (WRendezvous ep Receiver); Done (None, k2)
          end
      end
  end.

Definition ipc_receive_cap_resume (k : IpcTables) (c : nat) : run Msg :=
  current ← current_thread_id k c;
  match tcbs k !! current, handshake_of k current with
  | Some b, Some h =>
      if Handshake.is_delivered h then
        let m := mailbox b in
        Done (if cap_delivered b || (w4 m =? BOUND) then m else MkMsg (w0 m) NO_CAP (w1 m) (w3 m) 0)
      else Panicked
  | _, _ => Panicked
  end.

(** The reply's two words and the pad. *)
Definition ipc_call_resume (k : IpcTables) (c : nat) : run Msg :=
  m ← ipc_receive_resume k c; Done (MkMsg (w0 m) (w1 m) (w2 m) 0 0).

(** ** Interrupts and notifications *)

Definition irq_notify (k : IpcTables) (c : nat) (ep : Z) : run IpcTables :=
  match rendezvous_table k !! ep with
  | None => Done k
  | Some p =>
      match ep_signal (r_state p) with
      | (Some waiter, e) =>
          k1 ← with_thread (put_endpoint k ep p e) waiter (set_mailbox (MkMsg 1 0 0 0 0));
          m ← Scheduler.wake_load_aware (machine (on_handshake k1 waiter Handshake.serve)) c waiter;
          Done (set_machine k1 m)
      | (None, e) => Done (put_endpoint k ep p e)
      end
  end.

(** The bound thread, when it is parked in a receive. *)
Definition bound_receiver (k : IpcTables) (p : NotificationPage) : option (ThreadId * Z) :=
  t ← n_bound p;
  h ← handshake_of k t;
  match Handshake.wait_on h with
  | Some (WRendezvous ep Receiver) =>
      if bool_decide (Handshake.state h = Handshake.Blocked) && negb (Handshake.is_delivered h) then Some (t, ep) else None
  | _ => None
  end.

Definition deliver_bound (k : IpcTables) (t : ThreadId) (ep word : Z) : run IpcTables :=
  match tcbs k !! t, rendezvous_table k !! ep with
  | Some _, Some p =>
      if bool_decide (t ∈ Rendezvous.rcv_q (r_state p)) then
        k1 ← with_thread (put_endpoint k ep p (ep_remove_receiver (r_state p) t)) t (set_mailbox (bound_delivery word));
        Done (on_handshake k1 t Handshake.serve)
      else Panicked
  | _, _ => Panicked
  end.

Inductive WakePlacement := Local | LoadAware.

Definition wake_placed (k : IpcTables) (c : nat) (t : ThreadId) (p : WakePlacement) : run IpcTables :=
  match p with
  | Local => wake k c t
  | LoadAware => m ← Scheduler.wake_load_aware (machine k) c t; Done (set_machine k m)
  end.

Definition signal_locked (k : IpcTables) (c : nat) (id bits : Z) (placement : WakePlacement) : run (result MappingCalls.Error unit * IpcTables) :=
  match notification_table k !! id with
  | None => Done (Err MappingCalls.Gone, k)
  | Some p =>
      let bound := bound_receiver k p in
      let '(s, e) := note_signal (n_state p) bits (is_some bound) in
      let k0 := put_cell k id p e in
      match s with
      | Notification.Woke t word =>
          k1 ← with_thread k0 t (set_mailbox (MkMsg word 0 0 0 0));
          k2 ← wake_placed (on_handshake k1 t Handshake.serve) c t placement; Done (Ok tt, k2)
      | Notification.ToBound word =>
          match bound with
          | Some (t, ep) => k1 ← deliver_bound k0 t ep word; k2 ← wake_placed k1 c t placement; Done (Ok tt, k2)
          | None => Panicked
          end
      | _ => Done (Ok tt, k0)
      end
  end.

(** The word, or [None] when the caller blocks. *)
Definition notification_wait (k : IpcTables) (c : nat) (id : Z) : run (option (result MappingCalls.Error Z) * IpcTables) :=
  current ← current_thread_id k c;
  match tcbs k !! current, notification_table k !! id with
  | None, _ => Panicked
  | Some _, None => Done (Some (Err MappingCalls.Gone), k)
  | Some _, Some p =>
      match note_wait (n_state p) current with
      | (Notification.Word word, e) => Done (Some (Ok word), put_cell k id p e)
      | (Notification.Blocked, e) => k1 ← park (put_cell k id p e) c (WNotification id); Done (None, k1)
      end
  end.

Definition notification_wait_resume (k : IpcTables) (c : nat) : run (result MappingCalls.Error Z * IpcTables) :=
  current ← current_thread_id k c;
  match tcbs k !! current, handshake_of k current with
  | Some b, Some h =>
      if negb (Handshake.is_delivered h) then Panicked
      else
        let '(aborted, h') := Handshake.take_aborted h in
        Done (if (aborted : bool) then Err MappingCalls.Gone else Ok (w0 (mailbox b)), on_handshake k current (fun _ => h'))
  | _, _ => Panicked
  end.

Definition notification_poll (k : IpcTables) (id : Z) : result MappingCalls.Error Z * IpcTables :=
  match notification_table k !! id with
  | None => (Err MappingCalls.Gone, k)
  | Some p => let '(word, e) := note_poll (n_state p) in (Ok word, put_cell k id p e)
  end.

Definition notification_bind (k : IpcTables) (c : nat) (id : Z) (t : ThreadId) : run (result MappingCalls.Error unit * IpcTables) :=
  match notification_table k !! id with
  | None => Done (Err MappingCalls.Gone, k)
  | Some p =>
      if match n_bound p with Some b => is_some (tcbs k !! b) | None => false end then Done (Err MappingCalls.NotPermitted, k)
      else
        match tcbs k !! t, handshake_of k t with
        | Some b, Some h =>
            if bool_decide (Handshake.state h = Handshake.Finished \/ Handshake.state h = Handshake.Dead) then Done (Err MappingCalls.Gone, k)
            else if match bound_notification b with Some n => is_some (notification_table k !! n) | None => false end then Done (Err MappingCalls.NotPermitted, k)
            else
              let p' := MkNotificationPage (n_page p) (n_state p) (Some t) in
              let k1 := if_thread (set_notifications k (<[id := p']> (notification_table k))) t (set_bound (Some id)) in
              if Notification.bits_of (n_state p) =? 0 then Done (Ok tt, k1)
              else
                match bound_receiver k1 p' with
                | None => Done (Ok tt, k1)
                | Some (t', ep) =>
                    let '(word, e) := note_poll (n_state p') in
                    k2 ← deliver_bound (put_cell k1 id p' e) t' ep word;
                    k3 ← wake k2 c t'; Done (Ok tt, k3)
                end
        | _, _ => Done (Err MappingCalls.Gone, k)
        end
  end.

(** ** Callers nobody will answer *)

(** The table and the hand-off slot of one thread. *)
Definition sweep_tcb (peak : Z) (matches : Object -> bool) (b : Tcb) : option Tcb :=
  w ← Capability.delete_matching CAPABILITY_TABLE_SLOTS matches (Capability.MkWorld (capability_table b) peak);
  Some (set_outgoing (match outgoing_cap b with Some c => if matches (Capability.object c) then None else Some c | None => None end)
          (set_table (Capability.table w) b)).

Definition delete_reply_caps_naming (k : IpcTables) (caller : ThreadId) : run IpcTables :=
  let swept := omap (sweep_tcb (PEAK k) (fun o => bool_decide (o = OReply caller))) (tcbs k) in
  if (size swept =? size (tcbs k))%nat then Done (set_tcbs k swept) else Panicked.

Definition strand_reply_caller (k : IpcTables) (c : nat) (caller : ThreadId) : run (bool * IpcTables) :=
  match handshake_of k caller with
  | Some h =>
      if awaits_reply h then
        k1 ← delete_reply_caps_naming k caller;
        k2 ← wake (set_ipc_aborted k1 caller) c caller; Done (true, k2)
      else Done (false, k)
  | None => Done (false, k)
  end.

(** The callers whose reply capabilities a table holds, slot by slot. *)
Definition reply_victims (t : Capability.CapabilityTable Object) : list ThreadId :=
  omap (fun o : option Cap => match o with Some c => match Capability.object c with OReply caller => Some caller | _ => None end | None => None end)
    (Capability.slots t).

Fixpoint strand_each (k : IpcTables) (c : nat) (victims : list ThreadId) : run IpcTables :=
  match victims with
  | [] => Done k
  | caller :: rest => '(_, k1) ← strand_reply_caller k c caller; strand_each k1 c rest
  end.

Definition strand_callers_of (k : IpcTables) (c : nat) (t : ThreadId) : run IpcTables :=
  match tcbs k !! t with
  | None => Done k
  | Some b => if Capability.used (capability_table b) =? 0 then Done k else strand_each k c (reply_victims (capability_table b))
  end.

(** A thread parked for a reply on [ep] and not aborted. *)
Definition awaits_on (ep : Z) (h : Handshake.Handshake Wait) : bool :=
  match Handshake.wait_on h with Some (WRendezvous on Reply) => (on =? ep) && negb (Handshake.ipc_aborted h) | _ => false end.

Fixpoint strand_awaiting (fuel : nat) (k : IpcTables) (c : nat) (ep : Z) : run IpcTables :=
  match fuel with
  | O => Panicked
  | S fuel' =>
      match find (fun p => awaits_on ep p.2) (map_to_list (Scheduler.threads (machine k))) with
      | None => Done k
      | Some (caller, _) =>
          '(did, k1) ← strand_reply_caller k c caller;
          if (did : bool) then strand_awaiting fuel' k1 c ep else Done k1
      end
  end.

Definition strand_callers_awaiting (k : IpcTables) (c : nat) (ep : Z) : run IpcTables :=
  strand_awaiting (S (size (Scheduler.threads (machine k)))) k c ep.

(** ** Departure *)

Definition deliver_death (k : IpcTables) (c : nat) (corpse : ThreadId) (ep : Z) (msg : Msg) : run IpcTables :=
  match tcbs k !! corpse, rendezvous_table k !! ep with
  | None, _ => Panicked
  | Some _, None => Done k
  | Some _, Some p =>
      match ep_send (r_state p) corpse with
      | (Rendezvous.SendRendezvous receiver, e) => hand_over (put_endpoint k ep p e) c receiver (set_mailbox msg)
      | (Rendezvous.SendBlocked, e) =>
          Done (on_handshake (put_endpoint k ep p e) corpse
                  (fun h => Handshake.MkHandshake (Handshake.state h) (Handshake.on_cpu h) (Handshake.wake_pending h) (Some (WRendezvous ep Sender))
                              (Handshake.ipc_served h) (Handshake.ipc_aborted h)))
      | (Rendezvous.SendRefused, e) => Done (put_endpoint k ep p e)
      end
  end.

(** What [depart] does before the final switch. *)
Definition depart (k : IpcTables) (c : nat) (event pc addr : Z) : run IpcTables :=
  current ← current_thread_id k c;
  let ep := b ← tcbs k !! current; fault_ep b in
  k1 ← strand_callers_of k c current;
  match ep with
  | None => Done (on_handshake k1 current (fun h => Handshake.set_state h Handshake.Finished))
  | Some ep =>
      let msg := MkMsg event current pc addr 0 in
      let k2 := on_handshake (if_thread k1 current (fun b => set_mailbox msg (set_fault_msg (Some msg) b))) current (fun h => Handshake.set_state h Handshake.Dead) in
      deliver_death k2 c current ep msg
  end.

(** The kill that lands when the thread is next switched. *)
Definition finish_killed_current (k : IpcTables) (c : nat) (t : ThreadId) : run IpcTables :=
  strand_callers_of (set_machine k (Scheduler.finish_killed_current (machine k) t)) c t.

(** ** Tearing a region down *)

(** Aborts and wakes each waiter of a queue that is drained. *)
Fixpoint abort_each (k : IpcTables) (c : nat) (ws : list ThreadId) : run IpcTables :=
  match ws with
  | [] => Done k
  | t :: rest => k1 ← wake (set_ipc_aborted k t) c t; abort_each k1 c rest
  end.

(** One doomed endpoint: its queues are drained, its name is removed, and the
    callers whose requests were already taken are freed. *)
Definition reap_rendezvous (k : IpcTables) (c : nat) (name : Z) : run IpcTables :=
  match rendezvous_table k !! name with
  | None => Done k
  | Some p =>
      let '(ws, e) := ep_drain (r_state p) in
      k1 ← abort_each (put_endpoint k name p e) c ws;
      strand_callers_awaiting (set_rendezvous k1 (delete name (rendezvous_table k1))) c name
  end.

Definition in_region (base end_ phys : Z) : bool := (base <=? phys) && (phys <? end_).

Fixpoint reap_rendezvous_loop (fuel : nat) (k : IpcTables) (c : nat) (base end_ : Z) : run IpcTables :=
  match fuel with
  | O => Panicked
  | S fuel' =>
      match find (fun p => in_region base end_ (r_page p.2)) (map_to_list (rendezvous_table k)) with
      | None => Done k
      | Some (name, _) => k1 ← reap_rendezvous k c name; reap_rendezvous_loop fuel' k1 c base end_
      end
  end.

Definition reap_notification (k : IpcTables) (c : nat) (name : Z) : run IpcTables :=
  match notification_table k !! name with
  | None => Done k
  | Some p =>
      match Notification.spec_call Notification.CDrain (n_state p) with
      | (Notification.RDrained ws, e) =>
          k1 ← abort_each (put_cell k name p e) c ws;
          Done (set_notifications k1 (delete name (notification_table k1)))
      | _ => Panicked
      end
  end.

Fixpoint reap_region_notifications (fuel : nat) (k : IpcTables) (c : nat) (base end_ : Z) : run IpcTables :=
  match fuel with
  | O => Panicked
  | S fuel' =>
      match find (fun p => in_region base end_ (n_page p.2)) (map_to_list (notification_table k)) with
      | None => Done k
      | Some (name, _) => k1 ← reap_notification k c name; reap_region_notifications fuel' k1 c base end_
      end
  end.

(** A blocked thread is ended where it is: off its queue, its reply capabilities
    deleted, [Finished]. *)
Definition finish_blocked_resident (k : IpcTables) (t : ThreadId) : run IpcTables :=
  match handshake_of k t with
  | Some h =>
      let k1 :=
        match Handshake.wait_on h with
        | Some (WRendezvous ep _) =>
            match rendezvous_table k !! ep with
            | Some p => put_endpoint k ep p (ep_remove_receiver (ep_remove_sender (r_state p) t) t)
            | None => k
            end
        | Some (WNotification id) =>
            match notification_table k !! id with
            | Some p => put_cell k id p (Notification.spec_call (Notification.CRemove t) (n_state p)).2
            | None => k
            end
        | None => k
        end in
      if is_none (Handshake.wait_on h) then Panicked
      else
        k2 ← delete_reply_caps_naming k1 t;
        Done (on_handshake (if_thread k2 t (set_killed true)) t Scheduler.finish_blocked_resident)
  | None => Done k
  end.

Definition resident (base end_ : Z) (k : IpcTables) (t : ThreadId) (b : Tcb) (v : Scheduler.RegionReap) : bool :=
  in_region base end_ (page b) &&
  match handshake_of k t with
  | Some h => match Scheduler.region_reap_verdict (Handshake.state h) (Handshake.on_cpu h), v with
              | Scheduler.FinishInPlace, Scheduler.FinishInPlace | Scheduler.RefuseAndArm, Scheduler.RefuseAndArm
              | Scheduler.RefuseStanding, Scheduler.RefuseStanding | Scheduler.ReapNow, Scheduler.ReapNow => true
              | _, _ => false
              end
  | None => false
  end.

Fixpoint finish_blocked_loop (fuel : nat) (k : IpcTables) (base end_ : Z) : run IpcTables :=
  match fuel with
  | O => Panicked
  | S fuel' =>
      match find (fun p => resident base end_ k p.1 p.2 Scheduler.FinishInPlace) (map_to_list (tcbs k)) with
      | None => Done k
      | Some (t, _) => k1 ← finish_blocked_resident k t; finish_blocked_loop fuel' k1 base end_
      end
  end.

(** Arms the kill of every resident that may still run. *)
Definition arm_residents (k : IpcTables) (base end_ : Z) : bool * IpcTables :=
  let armed t b := resident base end_ k t b Scheduler.RefuseAndArm || resident base end_ k t b Scheduler.FinishInPlace in
  let refused t b := armed t b || resident base end_ k t b Scheduler.RefuseStanding in
  (existsb (fun p => refused p.1 p.2) (map_to_list (tcbs k)),
   set_tcbs k (map_imap (fun t b => Some (if armed t b then set_killed true b else b)) (tcbs k))).

(** A corpse is taken off its supervisor's queue before its page is freed. *)
Definition remove_resident (k : IpcTables) (c : nat) (t : ThreadId) (b : Tcb) : run IpcTables :=
  let dead := match handshake_of k t with Some h => bool_decide (Handshake.state h = Handshake.Dead) | None => false end in
  let k1 :=
    match fault_ep b with
    | Some ep =>
        match rendezvous_table k !! ep with
        | Some p => if dead then put_endpoint k ep p (ep_remove_sender (r_state p) t) else k
        | None => k
        end
    | None => k
    end in
  k2 ← strand_callers_of k1 c t;
  Done (set_tcbs (set_machine k2 (Scheduler.MkMachine (delete t (Scheduler.threads (machine k2))) (Scheduler.cpus (machine k2)))) (delete t (tcbs k2))).

Fixpoint remove_loop (fuel : nat) (k : IpcTables) (c : nat) (base end_ : Z) : run IpcTables :=
  match fuel with
  | O => Panicked
  | S fuel' =>
      match find (fun p => in_region base end_ (page p.2)) (map_to_list (tcbs k)) with
      | None => Done k
      | Some (t, b) => k1 ← remove_resident k c t b; remove_loop fuel' k1 c base end_
      end
  end.

Definition reap_region_objects (k : IpcTables) (c : nat) (base end_ : Z) : run (result unit unit * IpcTables) :=
  k1 ← reap_rendezvous_loop (S (size (rendezvous_table k))) k c base end_;
  k2 ← reap_region_notifications (S (size (notification_table k1))) k1 c base end_;
  k3 ← finish_blocked_loop (S (size (tcbs k2))) k2 base end_;
  let '(refused, k4) := arm_residents k3 base end_ in
  if (refused : bool) then Done (Err tt, k4)
  else k5 ← remove_loop (S (size (tcbs k4))) k4 c base end_; Done (Ok tt, k5).

(** ** System calls *)

Inductive Cont :=
  | InSend (ep : Z) | InReceive (ep : Z) | InReceiveCap (ep : Z) | InCall (ep : Z) | InWait (id : Z)
  | AfterSend | AfterReceive (m : Msg) | AfterCall (m : Msg)
  | InReply (slot : Z).

(** Back to the program with an error or with its registers, or inside the
    kernel: parked, or about to look at what the call left. *)
Inductive Next := Return (r : result MappingCalls.Error (list Z)) | Continue (c : Cont).

Definition refuse {X} (e : MappingCalls.Error) (k : X) : run (Next * X) := Done (Return (Err e), k).

(** A method number as the object the slot names decodes it, with its arguments;
    a number the object does not have is a bad method. An endpoint's REAP and SURVEY,
    which concern the threads it supervises and no message, are left out. *)
Inductive Method :=
  | SEND (a0 a1 a2 : Z) | RECEIVE | SEND_CAP (slot rights data : Z) | RECEIVE_CAP | CALL (a0 a1 : Z)
  | REPLY (a0 a1 : Z) | SIGNAL (bits : Z) | WAIT | POLL | BIND (slot : Z) | BADGE (badge : Z).

Definition current_cap (k : IpcTables) (t : ThreadId) (slot : Z) : option Cap :=
  b ← tcbs k !! t; match Capability.get (capability_table b) slot with Ok c => Some c | Err _ => None end.

(** A capability into the current thread's table, in the first free slot or in
    the one named. *)
Definition grant (k : IpcTables) (c : nat) (target : option Z) (cap : Cap) : run (result Capability.Error Z * IpcTables) :=
  t ← current_thread_id k c;
  match tcbs k !! t with
  | None => Done (Err Capability.NoFreeSlot, k)
  | Some b =>
      let w := Capability.MkWorld (capability_table b) (PEAK k) in
      let '(r, w') := match target with
                      | None => Capability.insert CAPABILITY_TABLE_SLOTS w cap
                      | Some slot => Capability.insert_at CAPABILITY_TABLE_SLOTS w slot cap
                      end in
      Done (r, MkTables (machine k) (<[t := set_table (Capability.table w') b]> (tcbs k)) (rendezvous_table k) (notification_table k) (Capability.PEAK w'))
  end.

(** A holder of an unbadged endpoint that it may grant mints a badged one. *)
Definition rendezvous_badge (k : IpcTables) (c : nat) (ep : Z) (rights : Capability.Rights) (held_badge new_badge : Z) : run (Next * IpcTables) :=
  if negb (Capability.allows rights Capability.GRANT) || (new_badge =? 0) || negb (held_badge =? 0) then refuse MappingCalls.NotPermitted k
  else '(r, k1) ← grant k c None (Capability.MkCap (ORendezvous ep new_badge) rights);
       Done (Return (match r with Ok slot => Ok [slot] | Err _ => Err MappingCalls.OutOfMemory end), k1).

Definition invoke_rendezvous (k : IpcTables) (c : nat) (t : ThreadId) (rights : Capability.Rights) (ep badge : Z) (m : Method) : run (Next * IpcTables) :=
  let can r := Capability.allows rights r in
  match m with
  | SEND a0 a1 a2 =>
      if negb (can Capability.WRITE) then refuse MappingCalls.NotPermitted k
      else '(block, k1) ← ipc_send_badged k c ep a0 a1 a2 badge; Done (Continue (if (block : bool) then InSend ep else AfterSend), k1)
  | RECEIVE =>
      if negb (can Capability.READ) then refuse MappingCalls.NotPermitted k
      else '(r, k1) ← ipc_receive k c ep; Done (Continue (match r with Some msg => AfterReceive msg | None => InReceive ep end), k1)
  | SEND_CAP slot rights' data =>
      if negb (can Capability.WRITE) then refuse MappingCalls.NotPermitted k
      else
        match current_cap k t slot with
        | None => refuse MappingCalls.NoSuchSlot k
        | Some src =>
            if negb (Capability.allows (Capability.rights src) Capability.GRANT) then refuse MappingCalls.NotPermitted k
            else
              let narrowed := Capability.from_bits (wrap 32 rights') in
              if negb (Capability.is_subset_of narrowed (Capability.rights src)) then refuse MappingCalls.NotPermitted k
              else '(block, k1) ← ipc_send_cap k c ep data (Capability.MkCap (Capability.object src) narrowed) badge;
                   Done (Continue (if (block : bool) then InSend ep else AfterSend), k1)
        end
  | RECEIVE_CAP =>
      if negb (can Capability.READ) then refuse MappingCalls.NotPermitted k
      else '(r, k1) ← ipc_receive_cap k c ep; Done (Continue (match r with Some msg => AfterReceive msg | None => InReceiveCap ep end), k1)
  | CALL a0 a1 =>
      if negb (can Capability.WRITE) then refuse MappingCalls.NotPermitted k
      else '(block, k1) ← ipc_call_badged k c ep a0 a1 badge; Done (Continue (if (block : bool) then InCall ep else AfterCall no_msg), k1)
  | BADGE new => rendezvous_badge k c ep rights badge new
  | _ => refuse MappingCalls.BadMethod k
  end.

Definition invoke_notification (k : IpcTables) (c : nat) (t : ThreadId) (rights : Capability.Rights) (id : Z) (m : Method) : run (Next * IpcTables) :=
  let can r := Capability.allows rights r in
  let answer (r : result MappingCalls.Error unit) := Return (match r with Ok _ => Ok [0] | Err e => Err e end) in
  match m with
  | SIGNAL bits =>
      if negb (can Capability.WRITE) then refuse MappingCalls.NotPermitted k
      else '(r, k1) ← signal_locked k c id bits Local; Done (answer r, k1)
  | WAIT =>
      if negb (can Capability.READ) then refuse MappingCalls.NotPermitted k
      else '(r, k1) ← notification_wait k c id;
           Done (match r with Some (Ok word) => Return (Ok [word]) | Some (Err e) => Return (Err e) | None => Continue (InWait id) end, k1)
  | POLL =>
      if negb (can Capability.READ) then refuse MappingCalls.NotPermitted k
      else let '(r, k1) := notification_poll k id in Done (Return (match r with Ok word => Ok [word] | Err e => Err e end), k1)
  | BIND slot =>
      if negb (can Capability.WRITE) then refuse MappingCalls.NotPermitted k
      else
        match current_cap k t slot with
        | None => refuse MappingCalls.NoSuchSlot k
        | Some th =>
            match Capability.object th with
            | OThreadControlBlock tid =>
                if negb (Capability.allows (Capability.rights th) Capability.WRITE) then refuse MappingCalls.NotPermitted k
                else '(r, k1) ← notification_bind k c id tid; Done (answer r, k1)
            | _ => refuse MappingCalls.WrongObject k
            end
        end
  | _ => refuse MappingCalls.BadMethod k
  end.

Definition invoke_reply (k : IpcTables) (c : nat) (slot : Z) (rights : Capability.Rights) (caller : ThreadId) (m : Method) : run (Next * IpcTables) :=
  match m with
  | REPLY a0 a1 =>
      if negb (Capability.allows rights Capability.WRITE) then refuse MappingCalls.NotPermitted k
      else k1 ← ipc_reply k c caller a0 a1; Done (Continue (InReply slot), k1)
  | _ => refuse MappingCalls.BadMethod k
  end.

(** [invoke], on the three kinds of object IPC is made of. *)
Definition invoke (k : IpcTables) (c : nat) (slot : Z) (m : Method) : run (Next * IpcTables) :=
  t ← current_thread_id k c;
  match current_cap k t slot with
  | None => refuse MappingCalls.NoSuchSlot k
  | Some cap =>
      match Capability.object cap with
      | ORendezvous ep badge => invoke_rendezvous k c t (Capability.rights cap) ep badge m
      | OReply caller => invoke_reply k c slot (Capability.rights cap) caller m
      | ONotification id => invoke_notification k c t (Capability.rights cap) id m
      | _ => refuse MappingCalls.BadMethod k
      end
  end.

(** [delete_current_cap]. *)
Definition delete_cap (k : IpcTables) (t : ThreadId) (slot : Z) : IpcTables :=
  match tcbs k !! t with
  | Some b =>
      let w := (Capability.delete (Capability.MkWorld (capability_table b) (PEAK k)) slot).2 in
      set_tcbs k (<[t := set_table (Capability.table w) b]> (tcbs k))
  | None => k
  end.

(** [take_ipc_aborted], and [take_ipc_refused] when a send was aborted. *)
Definition take_aborted (k : IpcTables) (t : ThreadId) : bool * IpcTables :=
  match handshake_of k t with
  | Some h => let '(a, h') := Handshake.take_aborted h in (a, on_handshake k t (fun _ => h'))
  | None => (false, k)
  end.

Definition aborted_send_error (k : IpcTables) (t : ThreadId) : MappingCalls.Error * IpcTables :=
  match tcbs k !! t with
  | Some b => (if ipc_refused b then MappingCalls.NotPermitted else MappingCalls.Gone, if_thread k t (set_refused false))
  | None => (MappingCalls.Gone, k)
  end.

(** The rest of a call, in the thread that made it, once it runs. *)
Definition resume (k : IpcTables) (c : nat) (co : Cont) : run (Next * IpcTables) :=
  t ← current_thread_id k c;
  match co with
  | InSend _ => Done (Continue AfterSend, k)
  | InReceive _ => m ← ipc_receive_resume k c; Done (Continue (AfterReceive m), k)
  | InReceiveCap _ => m ← ipc_receive_cap_resume k c; Done (Continue (AfterReceive m), k)
  | InCall _ => m ← ipc_call_resume k c; Done (Continue (AfterCall m), k)
  | InWait _ => '(r, k1) ← notification_wait_resume k c; Done (Return (match r with Ok word => Ok [word] | Err e => Err e end), k1)
  | AfterSend =>
      let '(a, k1) := take_aborted k t in
      if (a : bool) then let '(e, k2) := aborted_send_error k1 t in refuse e k2 else Done (Return (Ok [0]), k1)
  | AfterReceive m =>
      let '(a, k1) := take_aborted k t in
      if (a : bool) then refuse MappingCalls.Gone k1 else Done (Return (Ok [w0 m; w1 m; w2 m; w3 m; w4 m]), k1)
  | AfterCall m =>
      let '(a, k1) := take_aborted k t in
      if (a : bool) then let '(e, k2) := aborted_send_error k1 t in refuse e k2 else Done (Return (Ok [w0 m; w1 m]), k1)
  | InReply slot => Done (Return (Ok [0]), delete_cap k t slot)
  end.

(** ** Objects and capabilities *)

Definition MAX_RENDEZVOUS : nat := Z.to_nat 512.
Definition MAX_NOTIFICATIONS : nat := Z.to_nat 256.

Inductive RendezvousFailure := RegionFull | RegistryFull.

(** [page] is what the region gives for an object page, [name] the name the
    registry hands out. *)
Definition try_create_rendezvous_from (k : IpcTables) (page : option Z) (name : Z) : result RendezvousFailure Z * IpcTables :=
  if (MAX_RENDEZVOUS <=? size (rendezvous_table k))%nat then (Err RegistryFull, k)
  else
    match page with
    | None => (Err RegionFull, k)
    | Some phys => (Ok name, set_rendezvous k (<[name := MkRendezvousPage phys Rendezvous.spec_new]> (rendezvous_table k)))
    end.

Definition create_notification_from (k : IpcTables) (page : option Z) (name : Z) : option Z * IpcTables :=
  if (MAX_NOTIFICATIONS <=? size (notification_table k))%nat then (None, k)
  else
    match page with
    | None => (None, k)
    | Some phys => (Some name, set_notifications k (<[name := MkNotificationPage phys Notification.spec_new None]> (notification_table k)))
    end.

(** The table's part of [bind_irq]. *)
Definition bind_irq (k : IpcTables) (ep : Z) : IpcTables :=
  match rendezvous_table k !! ep with
  | Some p => put_endpoint k ep p (Rendezvous.spec_call Rendezvous.CBind (r_state p)).2
  | None => k
  end.

(** ** Threads *)

Definition fresh_tcb (pg : Z) : Tcb := MkTcb pg (Capability.new CAPABILITY_TABLE_SLOTS) no_msg None false false false None None None.

(** [create_thread_control_block]; [t] is the name the table hands out. *)
Definition create_thread (k : IpcTables) (t : ThreadId) (pg : Z) : IpcTables :=
  set_tcbs (set_machine k (Scheduler.set_thread (machine k) t Handshake.embryo)) (<[t := fresh_tcb pg]> (tcbs k)).

(** [spawn_on] and [adopt_secondary_idle]: a kernel thread, ready or running on a
    core that comes online. *)
Definition spawn_on (k : IpcTables) (here target : nat) (t : ThreadId) (pg : Z) : run IpcTables :=
  m ← Scheduler.spawn_on (machine k) here target t; Done (set_tcbs (set_machine k m) (<[t := fresh_tcb pg]> (tcbs k))).

Definition adopt_secondary_idle (k : IpcTables) (t : ThreadId) (pg : Z) : IpcTables :=
  set_tcbs (set_machine k (Scheduler.adopt_secondary_idle (machine k) t)) (<[t := fresh_tcb pg]> (tcbs k)).

(** The tables as [init] leaves them: the boot thread and its core's idle thread. *)
Definition init (boot_tid idle_id pg pg' : Z) : IpcTables :=
  MkTables (Scheduler.init boot_tid idle_id) (<[boot_tid := fresh_tcb pg]> (<[idle_id := fresh_tcb pg']> ∅)) ∅ ∅ 0.

(** [thread_control_block_insert_cap]. *)
Definition thread_insert_cap (k : IpcTables) (t : ThreadId) (cap : Cap) (target : option Z) : result MappingCalls.Error Z * IpcTables :=
  match tcbs k !! t, handshake_of k t with
  | Some b, Some h =>
      if negb (bool_decide (Handshake.state h = Handshake.Embryo)) then (Err MappingCalls.WrongObject, k)
      else
        let w := Capability.MkWorld (capability_table b) (PEAK k) in
        let '(r, w') := match target with
                        | None => Capability.insert CAPABILITY_TABLE_SLOTS w cap
                        | Some slot => Capability.insert_at CAPABILITY_TABLE_SLOTS w slot cap
                        end in
        match r with
        | Ok slot => (Ok slot, MkTables (machine k) (<[t := set_table (Capability.table w') b]> (tcbs k)) (rendezvous_table k) (notification_table k) (Capability.PEAK w'))
        | Err _ => (Err MappingCalls.OutOfMemory, k)
        end
  | _, _ => (Err MappingCalls.NoSuchSlot, k)
  end.

(** The endpoint in the reserved slot becomes the thread's supervisor. *)
Definition take_fault_ep (peak : Z) (b : Tcb) : Tcb :=
  match Capability.get (capability_table b) FAULT_EP_SLOT with
  | Ok c =>
      match Capability.object c with
      | ORendezvous ep _ => set_fault_ep (Some ep) (set_table (Capability.table (Capability.delete (Capability.MkWorld (capability_table b) peak) FAULT_EP_SLOT).2) b)
      | _ => b
      end
  | Err _ => b
  end.

(** [start_thread_control_block]. [configured] is whether the thread has an address
    space and an entry point, [stack] whether a kernel stack could be built for it; a
    thread refused for want of a stack has given up its supervisor's slot already. *)
Definition start_thread (k : IpcTables) (here target : nat) (t : ThreadId) (configured stack : bool) : run (result MappingCalls.Error unit * IpcTables) :=
  match Scheduler.start_thread_control_block (machine k) here target t with
  | Err Scheduler.NoSuchSlot => Done (Err MappingCalls.NoSuchSlot, k)
  | Err Scheduler.WrongObject => Done (Err MappingCalls.WrongObject, k)
  | Ok r =>
      if negb configured then Done (Err MappingCalls.NotPermitted, k)
      else if negb stack then Done (Err MappingCalls.OutOfMemory, if_thread k t (take_fault_ep (PEAK k)))
      else m ← r; Done (Ok tt, if_thread (set_machine k m) t (take_fault_ep (PEAK k)))
  end.

(** The end of a switch: a thread that has finished is freed. *)
Definition finish_switch (k : IpcTables) (c : nat) : run IpcTables :=
  m ← Scheduler.finish_switch (machine k) c;
  Done (set_tcbs (set_machine k m) (filter (fun p => is_Some (Scheduler.threads m !! p.1)) (tcbs k))).

(** [reap_supervised]'s decision. *)
Definition may_reap (k : IpcTables) (ep : Z) (t : ThreadId) : Capability.Reap :=
  Capability.reap_decision (b ← tcbs k !! t; fault_ep b) ep
    (match handshake_of k t with Some h => bool_decide (Handshake.state h = Handshake.Dead) | None => false end).
End KernelIpc.
