(* ===== verification/IpcInvariant.v ===== *)
(** * What holds of IPC whatever threads do (kernel/src/sched.rs)

    The kernel as a system of threads, each in its program or inside a call, that
    take steps in any order, and the invariant that ties the queues, the
    handshakes, the hand-off slots and the reply capabilities together. *)

From S2P Require Import Prelude Capability IntrusiveFifo Rendezvous Notification Handshake Scheduler Revocation MappingCalls KernelIpc.
Local Open Scope Z_scope.

Module IpcInvariant.
Import Revocation KernelIpc.
#[local] Existing Instance Handshake.RunState_eq_dec.

Abbreviation HS := (Handshake.Handshake Wait).
Abbreviation hs k := (Scheduler.threads (machine k)).

(** ** Where a thread waits *)

Inductive Place := Nowhere | AtReceivers (ep : Z) | AtSenders (ep : Z) | AtReply (ep : Z) | AtWaiters (id : Z) | AsCorpse (ep : Z).

Definition place_of (w : Wait) : Place :=
  match w with
  | WRendezvous ep Receiver => AtReceivers ep
  | WRendezvous ep Sender => AtSenders ep
  | WRendezvous ep Reply => AtReply ep
  | WNotification id => AtWaiters id
  end.

Definition place (h : HS) : Place :=
  match Handshake.state h, Handshake.wait_on h with
  | Handshake.Blocked, Some w => if Handshake.is_delivered h then Nowhere else place_of w
  | Handshake.Dead, Some (WRendezvous ep _) => AsCorpse ep
  | _, _ => Nowhere
  end.

Definition place_at (k : IpcTables) (t : Z) : Place := match hs k !! t with Some h => place h | None => Nowhere end.

Definition receiving (k : IpcTables) (ep t : Z) : Prop := exists p, rendezvous_table k !! ep = Some p /\ t ∈ Rendezvous.rcv_q (r_state p).
Definition sending (k : IpcTables) (ep t : Z) : Prop := exists p, rendezvous_table k !! ep = Some p /\ t ∈ Rendezvous.snd_q (r_state p).
Definition noticing (k : IpcTables) (id t : Z) : Prop := exists p, notification_table k !! id = Some p /\ t ∈ Notification.queue (n_state p).

(** ** The system *)

Record Sys := MkSys { tabs : IpcTables; conts : gmap Z Cont }.

(** What a parked continuation waits on. *)
Definition wait_of (c : Cont) : option Wait :=
  match c with
  | InSend ep => Some (WRendezvous ep Sender)
  | InReceive ep | InReceiveCap ep => Some (WRendezvous ep Receiver)
  | InCall ep => Some (WRendezvous ep Reply)
  | InWait id => Some (WNotification id)
  | _ => None
  end.

(** A continuation that will look at the abort flag. *)
Definition collects (c : option Cont) : Prop := match c with None | Some (InReply _) => False | _ => True end.

Definition is_reply_cap (c : Cap) : bool := match Capability.object c with OReply _ => true | _ => false end.

Notation slots_of b := (Capability.slots (capability_table b)).

(** ** The invariant *)

Record thread_inv (peak t : Z) (h : HS) (b : Tcb) (co : option Cont) : Prop := {
  ti_blocked : Handshake.state h = Handshake.Blocked -> exists c w, co = Some c /\ wait_of c = Some w /\ Handshake.wait_on h = Some w;
  ti_runs : Handshake.state h = Handshake.Ready \/ Handshake.state h = Handshake.Running ->
    Handshake.wait_on h = None /\ forall c w, co = Some c -> wait_of c = Some w -> Handshake.is_delivered h = true;
  ti_dead : Handshake.state h = Handshake.Dead -> forall w, Handshake.wait_on h = Some w -> exists ep, w = WRendezvous ep Sender;
  ti_off : Handshake.state h = Handshake.Embryo \/ Handshake.state h = Handshake.Finished -> Handshake.wait_on h = None;
  ti_embryo : Handshake.state h = Handshake.Embryo -> co = None;
  ti_aborted : Handshake.ipc_aborted h = true -> collects co \/ Handshake.state h = Handshake.Dead \/ Handshake.state h = Handshake.Finished;
  ti_pending : Handshake.wake_pending h = true -> Handshake.is_delivered h = true;
  ti_outgoing : forall c, outgoing_cap b = Some c ->
    (Handshake.state h = Handshake.Finished /\ is_reply_cap c = false) \/ (exists ep, place h = AtSenders ep /\ is_reply_cap c = false) \/ (exists ep, place h = AtReply ep /\ c = reply_cap t);
  ti_table : Capability.wf CAPABILITY_TABLE_SLOTS (Capability.MkWorld (capability_table b) peak);
  ti_rights : forall i c u, slots_of b !! i = Some (Some c) -> Capability.object c = OReply u -> Capability.rights c = Capability.WRITE;
  ti_ended : Handshake.state h = Handshake.Finished \/ Handshake.state h = Handshake.Dead -> forall slot, co <> Some (InReply slot)
}.

(** Slot [i] of thread [s] holds a capability to answer [t], and [s] has not
    used it. *)
Definition holds (y : Sys) (s : Z) (i : nat) (t : Z) : Prop :=
  exists b c, tcbs (tabs y) !! s = Some b /\ slots_of b !! i = Some (Some c) /\ Capability.object c = OReply t /\
    forall slot, conts y !! s = Some (InReply slot) -> Z.to_nat slot <> i.

(** [dying] tells an endpoint that is being removed, [drained] the threads just
    taken off a queue and not woken yet; both are empty between calls. *)
Record queues_ok (dying : Z -> Prop) (drained : list Z) (k : IpcTables) : Prop := {
  q_receivers : forall ep t, receiving k ep t <-> place_at k t = AtReceivers ep /\ t ∉ drained;
  q_senders : forall ep t, sending k ep t -> (place_at k t = AtSenders ep \/ place_at k t = AtReply ep \/ place_at k t = AsCorpse ep) /\ t ∉ drained;
  q_sender : forall ep t, place_at k t = AtSenders ep -> t ∉ drained -> sending k ep t;
  q_caller : forall ep t b, sending k ep t -> place_at k t = AtReply ep -> tcbs k !! t = Some b -> outgoing_cap b = Some (reply_cap t);
  q_waiters : forall id t, noticing k id t <-> place_at k t = AtWaiters id /\ t ∉ drained;
  q_reply : forall ep t, place_at k t = AtReply ep -> is_Some (rendezvous_table k !! ep) \/ dying ep;
  q_corpse : forall ep t b, place_at k t = AsCorpse ep -> tcbs k !! t = Some b -> fault_ep b = Some ep;
  q_distinct : forall ep p, rendezvous_table k !! ep = Some p -> NoDup (Rendezvous.snd_q (r_state p)) /\ NoDup (Rendezvous.rcv_q (r_state p));
  q_distinct_notes : forall id p, notification_table k !! id = Some p -> NoDup (Notification.queue (n_state p))
}.

Record inv_with (dying : Z -> Prop) (drained : list Z) (y : Sys) : Prop := {
  inv_machine : Scheduler.inv (machine (tabs y));
  inv_dom : forall t, is_Some (tcbs (tabs y) !! t) <-> is_Some (hs (tabs y) !! t);
  inv_conts : forall t, is_Some (conts y !! t) -> is_Some (hs (tabs y) !! t);
  inv_peak : 0 <= PEAK (tabs y);
  inv_threads : forall t h b, hs (tabs y) !! t = Some h -> tcbs (tabs y) !! t = Some b -> thread_inv (PEAK (tabs y)) t h b (conts y !! t);
  inv_queues : queues_ok dying drained (tabs y);
  inv_holds : forall s i t, holds y s i t -> (exists ep, place_at (tabs y) t = AtReply ep) /\ forall b, tcbs (tabs y) !! t = Some b -> outgoing_cap b = None;
  inv_one : forall s i s' i' t, holds y s i t -> holds y s' i' t -> s = s' /\ i = i'
}.

Definition nothing : Z -> Prop := fun _ => False.
Definition inv (y : Sys) : Prop := inv_with nothing [] y.

(** ** The machine underneath *)

(** The cores keep their threads. *)
Definition same_cores (m m' : Machine Wait) : Prop :=
  forall c, (fun p => (Scheduler.current p, Scheduler.idle p, Scheduler.switched_from p)) <$> Scheduler.cpus m !! c =
            (fun p => (Scheduler.current p, Scheduler.idle p, Scheduler.switched_from p)) <$> Scheduler.cpus m' !! c.

Lemma same_cores_refl m : same_cores m m.
Proof. done. Qed.

Lemma same_cores_trans m1 m2 m3 : same_cores m1 m2 -> same_cores m2 m3 -> same_cores m1 m3.
Proof. intros H1 H2 c. by rewrite H1, H2. Qed.

Lemma same_cores_queue m ths c p p' : Scheduler.cpus m !! c = Some p ->
  (Scheduler.current p', Scheduler.idle p', Scheduler.switched_from p') = (Scheduler.current p, Scheduler.idle p, Scheduler.switched_from p) ->
  same_cores m (Scheduler.MkMachine ths (<[c := p']> (Scheduler.cpus m))).
Proof.
  intros Hc Hp c'. cbn [Scheduler.cpus]. destruct (decide (c = c')) as [<-|Hne].
  - rewrite list_lookup_insert_eq by (by eapply lookup_lt_Some). rewrite Hc. cbn. by rewrite Hp.
  - by rewrite list_lookup_insert_ne.
Qed.

Lemma same_cores_some m m' c : same_cores m m' -> is_Some (Scheduler.cpus m !! c) -> is_Some (Scheduler.cpus m' !! c).
Proof. intros Hs [p Hp]. specialize (Hs c). rewrite Hp in Hs. cbn in Hs. destruct (Scheduler.cpus m' !! c) as [p'|]; [eauto|done]. Qed.

Lemma same_cores_current m m' c p : same_cores m m' -> Scheduler.cpus m !! c = Some p ->
  exists p', Scheduler.cpus m' !! c = Some p' /\ Scheduler.current p' = Scheduler.current p.
Proof. intros Hs Hp. specialize (Hs c). rewrite Hp in Hs. destruct (Scheduler.cpus m' !! c) as [p'|]; [|done]. injection Hs as ? _ _. eauto. Qed.

(** What a wake leaves of the handshake. *)
Definition woken (h : HS) : HS := (Handshake.try_wake h).2.

Lemma deliver_threads (m : Machine Wait) t f h : Scheduler.threads m !! t = Some h -> Scheduler.deliver m t f = Scheduler.set_thread m t (f h).
Proof. intros Hh. unfold Scheduler.deliver. by rewrite Hh. Qed.

(** Flags raised and the thread woken, on any core that exists. *)
Lemma wake_effect (m : Machine Wait) c t h f : Scheduler.inv m -> is_Some (Scheduler.cpus m !! c) -> Scheduler.threads m !! t = Some h ->
  (forall h, Scheduler.same_but_flags h (f h)) ->
  exists m', Scheduler.wake (Scheduler.deliver m t f) c t = Done m' /\ Scheduler.threads m' = <[t := woken (f h)]> (Scheduler.threads m) /\
    same_cores m m' /\ Scheduler.inv m'.
Proof.
  intros Hi [p Hp] Hh Hf. assert (Hw : exists m', Scheduler.wake (Scheduler.deliver m t f) c t = Done m' /\
    Scheduler.threads m' = <[t := woken (f h)]> (Scheduler.threads m) /\ same_cores m m').
  { rewrite (deliver_threads m t f h Hh). unfold Scheduler.wake, woken. cbn [Scheduler.set_thread Scheduler.threads Scheduler.cpus]. rewrite lookup_insert_eq.
    destruct (Handshake.try_wake (f h)) as [[] h2]; cbn [snd].
    1-3: eexists; split; [done|]; cbn; split; [by rewrite insert_insert_eq|done].
    rewrite Hp. eexists. split; [done|]. unfold Scheduler.set_thread, Scheduler.set_cpu. cbn [Scheduler.threads Scheduler.cpus]. split; [by rewrite insert_insert_eq|].
    by apply (same_cores_queue m _ c p). }
  destruct Hw as (m' & Hw & Ht & Hs). exists m'. split; [done|]. split; [done|]. split; [done|]. by eapply Scheduler.wake_inv.
Qed.

Lemma pick_wake_target_some (m : Machine Wait) c : is_Some (Scheduler.cpus m !! c) -> is_Some (Scheduler.cpus m !! Scheduler.pick_wake_target m c).
Proof.
  intros [p Hp]. unfold Scheduler.pick_wake_target. rewrite Hp.
  assert (Hall : Forall (fun q => is_Some (Scheduler.cpus m !! q.1)) (imap pair (Scheduler.cpus m))).
  { apply Forall_forall. intros [i q] (j & x & [= -> ->] & Hj)%elem_of_lookup_imap. eauto. }
  assert (Hgen : forall l best n, Forall (fun q => is_Some (Scheduler.cpus m !! q.1)) l -> is_Some (Scheduler.cpus m !! best) ->
    is_Some (Scheduler.cpus m !! (fold_left (fun '(best, best_load) '(c', k') => if decide (c' = c) then (best, best_load)
      else if (Scheduler.runnable_len k' <? best_load)%nat then (c', Scheduler.runnable_len k') else (best, best_load)) l (best, n)).1)).
  { intros l. induction l as [|[i q] l IH]; intros best n Hl Hb; [done|]. apply Forall_cons in Hl as [Hq Hl]. cbn [fold_left].
    case_decide; [by apply IH|]. destruct (_ <? _)%nat; by apply IH. }
  apply Hgen; eauto.
Qed.

Lemma wake_load_aware_effect (m : Machine Wait) c t h f : Scheduler.inv m -> is_Some (Scheduler.cpus m !! c) -> Scheduler.threads m !! t = Some h ->
  (forall h, Scheduler.same_but_flags h (f h)) ->
  exists m', Scheduler.wake_load_aware (Scheduler.deliver m t f) c t = Done m' /\ Scheduler.threads m' = <[t := woken (f h)]> (Scheduler.threads m) /\
    same_cores m m' /\ Scheduler.inv m'.
Proof.
  intros Hi Hc Hh Hf. assert (Hw : exists m', Scheduler.wake_load_aware (Scheduler.deliver m t f) c t = Done m' /\
    Scheduler.threads m' = <[t := woken (f h)]> (Scheduler.threads m) /\ same_cores m m').
  { rewrite (deliver_threads m t f h Hh). unfold Scheduler.wake_load_aware, woken. cbn [Scheduler.set_thread Scheduler.threads Scheduler.cpus]. rewrite lookup_insert_eq.
    destruct (Handshake.try_wake (f h)) as [[] h2]; cbn [snd].
    1-3: eexists; split; [done|]; cbn; split; [by rewrite insert_insert_eq|done].
    unfold Scheduler.place_on. change (Scheduler.cpus (Scheduler.set_thread _ _ _)) with (Scheduler.cpus m).
    destruct (pick_wake_target_some (Scheduler.set_thread m t (f h)) c Hc) as [p Hp]. change (Scheduler.cpus (Scheduler.set_thread m t (f h))) with (Scheduler.cpus m) in Hp.
    rewrite Hp. case_decide; (eexists; split; [done|]; unfold Scheduler.set_thread, Scheduler.set_cpu; cbn [Scheduler.threads Scheduler.cpus];
      split; [by rewrite insert_insert_eq|]; by apply (same_cores_queue m _ _ p)). }
  destruct Hw as (m' & Hw & Ht & Hs). exists m'. split; [done|]. split; [done|]. split; [done|]. by eapply Scheduler.wake_load_aware_inv.
Qed.

(** The thread core [c] runs, in its program or in a call. *)
Definition running (k : IpcTables) (c : nat) (t : Z) : Prop :=
  Scheduler.runs (machine k) c t /\ exists h, hs k !! t = Some h /\ Handshake.state h = Handshake.Running.

Definition parked (h : HS) (w : Wait) : HS :=
  Handshake.MkHandshake Handshake.Blocked (Handshake.on_cpu h) (Handshake.wake_pending h) (Some w) false (Handshake.ipc_aborted h).

Lemma park_effect (m : Machine Wait) c t h w : Scheduler.inv m -> Scheduler.runs m c t -> Scheduler.threads m !! t = Some h ->
  Handshake.state h = Handshake.Running -> Handshake.ipc_aborted h = false ->
  Scheduler.park_current m c w = Done (Scheduler.set_thread m t (parked h w)) /\ Scheduler.inv (Scheduler.set_thread m t (parked h w)).
Proof.
  intros Hi Hr Hh Hs Ha. assert (Hp : Scheduler.park_current m c w = Done (Scheduler.set_thread m t (parked h w))).
  { destruct Hr as (p & Hp & _ & <- & _). unfold Scheduler.park_current. rewrite Hp, Hh. unfold Handshake.park. by rewrite decide_True. }
  split; [done|]. eapply Scheduler.step_inv; [exact Hi|]. by eapply Scheduler.step_park.
Qed.

(** ** What the updates of a handshake do to its place and its invariant *)

Lemma woken_blocked h : Handshake.state h = Handshake.Blocked -> Handshake.is_delivered h = true ->
  (Handshake.on_cpu h = true /\ woken h = Handshake.MkHandshake Handshake.Blocked true true (Handshake.wait_on h) (Handshake.ipc_served h) (Handshake.ipc_aborted h)) \/
  (Handshake.on_cpu h = false /\ woken h = Handshake.MkHandshake Handshake.Ready false (Handshake.wake_pending h) None (Handshake.ipc_served h) (Handshake.ipc_aborted h)).
Proof.
  intros Hs Hd. unfold woken, Handshake.try_wake. rewrite decide_False by (rewrite Hs; tauto). rewrite Hd, andb_false_r.
  destruct (Handshake.on_cpu h) eqn:Hc; [left|right]; split; try done; cbn [snd]; by rewrite Hs.
Qed.

Lemma woken_other h : Handshake.state h <> Handshake.Blocked -> woken h = h.
Proof. intros Hs. unfold woken, Handshake.try_wake. by rewrite decide_True. Qed.

Lemma delivered_serve (h : HS) : Handshake.is_delivered (Handshake.serve h) = true.
Proof. done. Qed.
Lemma delivered_abort (h : HS) : Handshake.is_delivered (Handshake.abort h) = true.
Proof. unfold Handshake.is_delivered. cbn. apply orb_true_r. Qed.

Lemma place_woken f h : (f = Handshake.serve \/ f = Handshake.abort) -> Handshake.state h <> Handshake.Dead -> place (woken (f h)) = Nowhere.
Proof.
  intros Hf Hd. assert (Hdel : Handshake.is_delivered (f h) = true) by (destruct Hf as [-> | ->]; [apply delivered_serve|apply delivered_abort]).
  assert (Hst : Handshake.state (f h) = Handshake.state h) by (by destruct Hf as [-> | ->]).
  destruct (decide (Handshake.state h = Handshake.Blocked)) as [Hb|Hb].
  - destruct (woken_blocked (f h)) as [[_ ->]|[_ ->]]; [congruence|done| |done]. unfold place. cbn [Handshake.state Handshake.wait_on].
    destruct (Handshake.wait_on (f h)); [|done]. unfold Handshake.is_delivered in *. cbn. by rewrite Hdel.
  - rewrite woken_other by congruence. unfold place. rewrite Hst. by destruct (Handshake.state h).
Qed.

Lemma place_dead f h : (f = Handshake.serve \/ f = Handshake.abort) -> Handshake.state h = Handshake.Dead -> place (woken (f h)) = place h.
Proof. intros Hf Hd. rewrite woken_other by (destruct Hf as [-> | ->]; cbn; congruence). unfold place. by destruct Hf as [-> | ->]; cbn; rewrite Hd. Qed.

(** What is needed of the rest of a thread when its handshake changes. *)
Definition tcb_ok (peak t : Z) (b : Tcb) : Prop :=
  Capability.wf CAPABILITY_TABLE_SLOTS (Capability.MkWorld (capability_table b) peak) /\
  forall i c u, slots_of b !! i = Some (Some c) -> Capability.object c = OReply u -> Capability.rights c = Capability.WRITE.

Lemma ti_tcb_ok peak t h b co : thread_inv peak t h b co -> tcb_ok peak t b.
Proof. intros Ht. split; [apply (ti_table _ _ _ _ _ Ht)|apply (ti_rights _ _ _ _ _ Ht)]. Qed.

(** A delivery or an abort, and the wake. *)
Lemma ti_woken peak t h b b' co f : thread_inv peak t h b co -> (f = Handshake.serve \/ f = Handshake.abort) ->
  Handshake.state h = Handshake.Blocked -> outgoing_cap b' = None -> tcb_ok peak t b' -> thread_inv peak t (woken (f h)) b' co.
Proof.
  intros Ht Hf Hb Ho [Hwf Hr]. assert (Hdel : Handshake.is_delivered (f h) = true) by (destruct Hf as [-> | ->]; [apply delivered_serve|apply delivered_abort]).
  destruct (ti_blocked _ _ _ _ _ Ht Hb) as (c & w & -> & Hw & Hwo). assert (Hwf' : Handshake.wait_on (f h) = Some w) by (by destruct Hf as [-> | ->]).
  assert (Hst : Handshake.state (f h) = Handshake.Blocked) by (by destruct Hf as [-> | ->]).
  assert (Hcol : collects (Some c)) by (by destruct c).
  destruct (woken_blocked (f h) Hst Hdel) as [[_ ->]|[_ ->]]; constructor; cbn [Handshake.state Handshake.wait_on Handshake.ipc_aborted Handshake.wake_pending]; try done;
    try (by intros [?|?]); try (by intros; exists c, w); try (by left); try (by intros x; rewrite Ho).
Qed.

Lemma ti_abort_dead peak t h b b' co : thread_inv peak t h b co -> Handshake.state h = Handshake.Dead -> outgoing_cap b' = None -> tcb_ok peak t b' ->
  thread_inv peak t (woken (Handshake.abort h)) b' co.
Proof.
  intros Ht Hd Ho [Hwf Hr]. rewrite woken_other by (cbn; congruence). destruct Ht as [H1 H2 H3 H4 H5 H6 H7 H8 H9 H10 H11].
  constructor; cbn [Handshake.abort Handshake.state Handshake.wait_on Handshake.ipc_aborted Handshake.wake_pending]; try done; try congruence; auto.
  - intros [?|?]; congruence.
  - intros _. apply delivered_abort.
Qed.

Lemma ti_parked peak t h b b' c w : thread_inv peak t h b None -> Handshake.state h = Handshake.Running -> wait_of c = Some w -> tcb_ok peak t b' ->
  (forall x, outgoing_cap b' = Some x -> (exists ep, w = WRendezvous ep Sender /\ is_reply_cap x = false) \/ (exists ep, w = WRendezvous ep Reply /\ x = reply_cap t)) ->
  Handshake.wake_pending h = false ->
  thread_inv peak t (parked h w) b' (Some c) /\ place (parked h w) = place_of w.
Proof.
  intros Ht Hs Hw [Hwf Hr] Ho Hp. assert (Ha : Handshake.ipc_aborted h = false).
  { destruct (Handshake.ipc_aborted h) eqn:Ha; [|done]. destruct (ti_aborted _ _ _ _ _ Ht Ha) as [[]|[?|?]]; congruence. }
  assert (Hpl : place (parked h w) = place_of w).
  { unfold place, parked. cbn [Handshake.state Handshake.wait_on]. unfold Handshake.is_delivered. cbn [Handshake.ipc_served Handshake.ipc_aborted]. by rewrite Ha. }
  split; [|done]. constructor; cbn [parked Handshake.state Handshake.wait_on Handshake.ipc_aborted Handshake.wake_pending]; try congruence; try done; try (by intros [?|?]).
  - intros _. by exists c, w.
  - intros x Hx. rewrite Hpl. destruct (Ho x Hx) as [(ep & -> & Hx2)|(ep & -> & ->)]; [right; left|right; right]; by exists ep.
Qed.

(** ** Threads that join and leave queues *)

(** Nothing the queues depend on has changed for [u]. *)
Definition quiet (k k' : IpcTables) (u : Z) : Prop :=
  place_at k' u = place_at k u /\
  forall b', tcbs k' !! u = Some b' -> exists b, tcbs k !! u = Some b /\ outgoing_cap b' = outgoing_cap b /\ fault_ep b' = fault_ep b.

(** Thread [t] is where its place says it is. *)
Record placed (dying : Z -> Prop) (k : IpcTables) (t : Z) : Prop := {
  p_receivers : forall ep, receiving k ep t <-> place_at k t = AtReceivers ep;
  p_senders : forall ep, sending k ep t -> place_at k t = AtSenders ep \/ place_at k t = AtReply ep \/ place_at k t = AsCorpse ep;
  p_sender : forall ep, place_at k t = AtSenders ep -> sending k ep t;
  p_caller : forall ep b, sending k ep t -> place_at k t = AtReply ep -> tcbs k !! t = Some b -> outgoing_cap b = Some (reply_cap t);
  p_waiters : forall id, noticing k id t <-> place_at k t = AtWaiters id;
  p_reply : forall ep, place_at k t = AtReply ep -> is_Some (rendezvous_table k !! ep) \/ dying ep;
  p_corpse : forall ep b, place_at k t = AsCorpse ep -> tcbs k !! t = Some b -> fault_ep b = Some ep
}.

Definition distinct (k : IpcTables) : Prop :=
  (forall ep p, rendezvous_table k !! ep = Some p -> NoDup (Rendezvous.snd_q (r_state p)) /\ NoDup (Rendezvous.rcv_q (r_state p))) /\
  (forall id p, notification_table k !! id = Some p -> NoDup (Notification.queue (n_state p))).

Lemma queues_distinct D P k : queues_ok D P k -> distinct k.
Proof. intros Hq. split; [apply (q_distinct _ _ _ Hq)|apply (q_distinct_notes _ _ _ Hq)]. Qed.

Lemma queues_placed D P k t : queues_ok D P k -> t ∉ P -> placed D k t.
Proof.
  intros Hq Ht. constructor.
  - intros ep. rewrite (q_receivers _ _ _ Hq). tauto.
  - intros ep Hs. by destruct (q_senders _ _ _ Hq _ _ Hs).
  - intros ep Hs. by apply (q_sender _ _ _ Hq).
  - intros ep b. apply (q_caller _ _ _ Hq).
  - intros id. rewrite (q_waiters _ _ _ Hq). tauto.
  - intros ep. apply (q_reply _ _ _ Hq).
  - intros ep b. apply (q_corpse _ _ _ Hq).
Qed.

(** One thread moves; the queues change for it alone. *)
Lemma queues_move D P k k' t : queues_ok D P k -> t ∉ P -> (forall u, u <> t -> quiet k k' u) ->
  (forall u ep, u <> t -> (receiving k' ep u <-> receiving k ep u) /\ (sending k' ep u <-> sending k ep u)) ->
  (forall u id, u <> t -> noticing k' id u <-> noticing k id u) ->
  (forall ep, is_Some (rendezvous_table k !! ep) -> is_Some (rendezvous_table k' !! ep)) ->
  distinct k' -> placed D k' t -> queues_ok D P k'.
Proof.
  intros Hq HtP Hquiet Hr Hn Hdom [Hd1 Hd2] [P1 P2 P3 P4 P5 P6 P7]. constructor; [..|exact Hd1|exact Hd2].
  - intros ep u. destruct (decide (u = t)) as [->|Hu]; [rewrite P1; tauto|]. rewrite (proj1 (Hr u ep Hu)), (proj1 (Hquiet u Hu)). apply (q_receivers _ _ _ Hq).
  - intros ep u Hs. destruct (decide (u = t)) as [->|Hu]; [split; [by apply P2|done]|]. rewrite (proj1 (Hquiet u Hu)). apply (q_senders _ _ _ Hq), Hr, Hs. done.
  - intros ep u. destruct (decide (u = t)) as [->|Hu]; [by intros ?%P3|]. rewrite (proj1 (Hquiet u Hu)), (proj2 (Hr u ep Hu)). apply (q_sender _ _ _ Hq).
  - intros ep u b. destruct (decide (u = t)) as [->|Hu]; [apply P4|]. destruct (Hquiet u Hu) as [-> Hb]. rewrite (proj2 (Hr u ep Hu)).
    intros H1 H2 (b0 & H3 & -> & _)%Hb. by eapply (q_caller _ _ _ Hq).
  - intros id u. destruct (decide (u = t)) as [->|Hu]; [rewrite P5; tauto|]. rewrite (Hn u id Hu), (proj1 (Hquiet u Hu)). apply (q_waiters _ _ _ Hq).
  - intros ep u. destruct (decide (u = t)) as [->|Hu]; [apply P6|]. rewrite (proj1 (Hquiet u Hu)). intros [H|H]%(q_reply _ _ _ Hq); [left; auto|by right].
  - intros ep u b. destruct (decide (u = t)) as [->|Hu]; [apply P7|]. destruct (Hquiet u Hu) as [-> Hb]. intros H1 (b0 & H2 & _ & ->)%Hb. by eapply (q_corpse _ _ _ Hq).
Qed.

(** Nothing moves. *)
Lemma queues_still D P k k' : queues_ok D P k -> (forall u, quiet k k' u) ->
  (forall u ep, (receiving k' ep u <-> receiving k ep u) /\ (sending k' ep u <-> sending k ep u)) -> (forall u id, noticing k' id u <-> noticing k id u) ->
  (forall ep, is_Some (rendezvous_table k !! ep) -> is_Some (rendezvous_table k' !! ep)) -> distinct k' -> queues_ok D P k'.
Proof.
  intros Hq Hquiet Hr Hn Hdom [Hd1 Hd2]. constructor; [..|exact Hd1|exact Hd2].
  - intros ep u. rewrite (proj1 (Hr u ep)), (proj1 (Hquiet u)). apply (q_receivers _ _ _ Hq).
  - intros ep u Hs. rewrite (proj1 (Hquiet u)). by apply (q_senders _ _ _ Hq), Hr.
  - intros ep u. rewrite (proj1 (Hquiet u)), (proj2 (Hr u ep)). apply (q_sender _ _ _ Hq).
  - intros ep u b. destruct (Hquiet u) as [-> Hb]. rewrite (proj2 (Hr u ep)). intros H1 H2 (b0 & H3 & -> & _)%Hb. by eapply (q_caller _ _ _ Hq).
  - intros id u. rewrite (Hn u id), (proj1 (Hquiet u)). apply (q_waiters _ _ _ Hq).
  - intros ep u. rewrite (proj1 (Hquiet u)). intros [H|H]%(q_reply _ _ _ Hq); [left; auto|by right].
  - intros ep u b. destruct (Hquiet u) as [-> Hb]. intros H1 (b0 & H2 & _ & ->)%Hb. by eapply (q_corpse _ _ _ Hq).
Qed.

(** Membership after one endpoint's or one notification's queues are replaced. *)
Lemma receiving_put k k' ep p e' ep' t : rendezvous_table k !! ep = Some p -> rendezvous_table k' = <[ep := MkRendezvousPage (r_page p) e']> (rendezvous_table k) ->
  receiving k' ep' t <-> if decide (ep' = ep) then t ∈ Rendezvous.rcv_q e' else receiving k ep' t.
Proof.
  intros Hp Ht. unfold receiving. rewrite Ht. case_decide as He; [subst ep'; rewrite lookup_insert_eq|by rewrite lookup_insert_ne by congruence].
  split; [by intros (q & [= <-] & Hq)|]. intros Hq. by eexists.
Qed.

Lemma sending_put k k' ep p e' ep' t : rendezvous_table k !! ep = Some p -> rendezvous_table k' = <[ep := MkRendezvousPage (r_page p) e']> (rendezvous_table k) ->
  sending k' ep' t <-> if decide (ep' = ep) then t ∈ Rendezvous.snd_q e' else sending k ep' t.
Proof.
  intros Hp Ht. unfold sending. rewrite Ht. case_decide as He; [subst ep'; rewrite lookup_insert_eq|by rewrite lookup_insert_ne by congruence].
  split; [by intros (q & [= <-] & Hq)|]. intros Hq. by eexists.
Qed.

Lemma noticing_put k k' id p e' bd id' t : notification_table k !! id = Some p -> notification_table k' = <[id := MkNotificationPage (n_page p) e' bd]> (notification_table k) ->
  noticing k' id' t <-> if decide (id' = id) then t ∈ Notification.queue e' else noticing k id' t.
Proof.
  intros Hp Ht. unfold noticing. rewrite Ht. case_decide as He; [subst id'; rewrite lookup_insert_eq|by rewrite lookup_insert_ne by congruence].
  split; [by intros (q & [= <-] & Hq)|]. intros Hq. by eexists.
Qed.

Lemma noticing_same k k' id t : notification_table k' = notification_table k -> noticing k' id t <-> noticing k id t.
Proof. intros Ht. unfold noticing. by rewrite Ht. Qed.

Lemma endpoint_same k k' ep t : rendezvous_table k' = rendezvous_table k -> (receiving k' ep t <-> receiving k ep t) /\ (sending k' ep t <-> sending k ep t).
Proof. intros Ht. unfold receiving, sending. by rewrite Ht. Qed.

Section endpoint.
Context (D : Z -> Prop) (P : list Z) (k k' : IpcTables) (ep : Z) (p : RendezvousPage) (e' : Rendezvous.Endpoint) (t : Z).
Hypothesis (Hq : queues_ok D P k) (HtP : t ∉ P) (Hp : rendezvous_table k !! ep = Some p)
  (Hput : rendezvous_table k' = <[ep := MkRendezvousPage (r_page p) e']> (rendezvous_table k)) (Hnote : notification_table k' = notification_table k)
  (Hquiet : forall u, u <> t -> quiet k k' u)
  (Hmem : forall u, u <> t -> (u ∈ Rendezvous.rcv_q e' <-> u ∈ Rendezvous.rcv_q (r_state p)) /\ (u ∈ Rendezvous.snd_q e' <-> u ∈ Rendezvous.snd_q (r_state p)))
  (Hnd : NoDup (Rendezvous.snd_q e') /\ NoDup (Rendezvous.rcv_q e')).

Lemma endpoint_move : placed D k' t -> queues_ok D P k'.
Proof.
  intros Hpl. apply (queues_move D P k k' t); try done.
  - intros u ep' Hu. rewrite (receiving_put k k' ep p e'), (sending_put k k' ep p e') by done. case_decide as He; [|done]. subst ep'.
    destruct (Hmem u Hu) as [-> ->]. unfold receiving, sending. rewrite Hp. split; (split; [intros Hx; by exists p|by intros (q & [= <-] & Hx)]).
  - intros u id _. by apply noticing_same.
  - intros ep' Hs. rewrite Hput. destruct (decide (ep = ep')) as [<-|Hne]; [by rewrite lookup_insert_eq|by rewrite lookup_insert_ne].
  - split; [|rewrite Hnote; apply (q_distinct_notes _ _ _ Hq)]. intros ep' p'. rewrite Hput. destruct (decide (ep = ep')) as [<-|Hne].
    + rewrite lookup_insert_eq. by intros [= <-].
    + rewrite lookup_insert_ne by done. apply (q_distinct _ _ _ Hq).
Qed.

(** [t] was at this endpoint and nowhere else. *)
Lemma endpoint_leave : (place_at k t = AtReceivers ep \/ place_at k t = AtSenders ep \/ place_at k t = AtReply ep \/ place_at k t = AsCorpse ep) ->
  t ∉ Rendezvous.rcv_q e' -> t ∉ Rendezvous.snd_q e' ->
  place_at k' t = Nowhere \/ (place_at k' t = AtReply ep /\ place_at k t = AtReply ep) \/
    (place_at k' t = AsCorpse ep /\ place_at k t = AsCorpse ep /\ quiet k k' t) -> queues_ok D P k'.
Proof.
  intros Hold Hr Hs Hnew. apply endpoint_move. destruct (queues_placed _ _ _ t Hq HtP) as [P1 P2 P3 P4 P5 P6 P7].
  assert (Hno1 : forall ep', ~ receiving k' ep' t).
  { intros ep'. rewrite (receiving_put k k' ep p e') by done. case_decide as He; [done|]. rewrite P1. intros H. destruct Hold as [H'|[H'|[H'|H']]]; congruence. }
  assert (Hno2 : forall ep', ~ sending k' ep' t).
  { intros ep'. rewrite (sending_put k k' ep p e') by done. case_decide as He; [done|]. intros H%P2. destruct Hold as [H'|[H'|[H'|H']]], H as [H|[H|H]]; congruence. }
  assert (Hno3 : forall id, ~ noticing k' id t).
  { intros id. rewrite noticing_same by done. rewrite P5. intros H. destruct Hold as [H'|[H'|[H'|H']]]; congruence. }
  constructor.
  - intros ep'. split; [by intros ?%Hno1|]. destruct Hnew as [->|[[-> _]|[-> _]]]; congruence.
  - by intros ep' ?%Hno2.
  - intros ep'. destruct Hnew as [->|[[-> _]|[-> _]]]; congruence.
  - by intros ep' b ?%Hno2.
  - intros id. split; [by intros ?%Hno3|]. destruct Hnew as [->|[[-> _]|[-> _]]]; congruence.
  - intros ep'. destruct Hnew as [->|[[-> _]|[-> _]]]; try congruence. intros [= <-]. left. rewrite Hput, lookup_insert_eq. eauto.
  - intros ep' b. destruct Hnew as [->|[[-> _]|(-> & Hc & [_ Hb])]]; try congruence. intros [= <-] (b0 & H0 & _ & ->)%Hb. by eapply P7.
Qed.

(** [t] was nowhere and joins this endpoint's queues. *)
Lemma endpoint_join : place_at k t = Nowhere ->
  (t ∈ Rendezvous.rcv_q e' /\ t ∉ Rendezvous.snd_q e' /\ place_at k' t = AtReceivers ep) \/
  (t ∈ Rendezvous.snd_q e' /\ t ∉ Rendezvous.rcv_q e' /\
     (place_at k' t = AtSenders ep \/ (place_at k' t = AtReply ep /\ forall b, tcbs k' !! t = Some b -> outgoing_cap b = Some (reply_cap t)) \/
      (place_at k' t = AsCorpse ep /\ forall b, tcbs k' !! t = Some b -> fault_ep b = Some ep))) -> queues_ok D P k'.
Proof.
  intros Hold Hnew. apply endpoint_move. destruct (queues_placed _ _ _ t Hq HtP) as [P1 P2 P3 P4 P5 P6 P7].
  assert (Hr : forall ep', receiving k' ep' t <-> ep' = ep /\ t ∈ Rendezvous.rcv_q e').
  { intros ep'. rewrite (receiving_put k k' ep p e') by done. case_decide as He; [tauto|]. rewrite P1, Hold. split; [congruence|tauto]. }
  assert (Hs : forall ep', sending k' ep' t <-> ep' = ep /\ t ∈ Rendezvous.snd_q e').
  { intros ep'. rewrite (sending_put k k' ep p e') by done. case_decide as He; [tauto|]. split; [|tauto]. intros H%P2. rewrite Hold in H. destruct H as [H|[H|H]]; congruence. }
  assert (Hn : forall id, ~ noticing k' id t) by (intros id; rewrite noticing_same by done; rewrite P5; congruence).
  assert (Hdom : is_Some (rendezvous_table k' !! ep)) by (rewrite Hput, lookup_insert_eq; eauto).
  constructor; intros x; rewrite ?Hr, ?Hs.
  - destruct Hnew as [(H1 & H2 & ->)|(H1 & H2 & [->|[[-> _]|[-> _]]])]; split; try (by intros [-> ?]); try congruence. by intros [= ->].
  - intros [-> H]. destruct Hnew as [(H1 & H2 & ->)|(H1 & H2 & [->|[[-> _]|[-> _]]])]; tauto.
  - destruct Hnew as [(H1 & H2 & ->)|(H1 & H2 & [->|[[-> _]|[-> _]]])]; try congruence. by intros [= ->].
  - intros b [-> H]%Hs. destruct Hnew as [(H1 & H2 & ->)|(H1 & H2 & [->|[[-> Ho]|[-> _]]])]; try congruence. intros _. apply Ho.
  - split; [by intros ?%Hn|]. destruct Hnew as [(H1 & H2 & ->)|(H1 & H2 & [->|[[-> _]|[-> _]]])]; congruence.
  - destruct Hnew as [(H1 & H2 & ->)|(H1 & H2 & [->|[[-> _]|[-> _]]])]; try congruence. intros [= <-]. by left.
  - intros b. destruct Hnew as [(H1 & H2 & ->)|(H1 & H2 & [->|[[-> _]|[-> Hf]]])]; try congruence. intros [= <-]. apply Hf.
Qed.
End endpoint.

(** A thread off every queue changes its place without joining one. *)
Lemma queues_alone D P k k' t : queues_ok D P k -> t ∉ P -> (forall u, u <> t -> quiet k k' u) ->
  rendezvous_table k' = rendezvous_table k -> notification_table k' = notification_table k ->
  (forall ep, ~ receiving k ep t) -> (forall ep, ~ sending k ep t) -> (forall id, ~ noticing k id t) ->
  place_at k' t = Nowhere \/ (exists ep, place_at k' t = AtReply ep /\ is_Some (rendezvous_table k !! ep)) \/
    (exists ep, place_at k' t = AsCorpse ep /\ forall b, tcbs k' !! t = Some b -> fault_ep b = Some ep) -> queues_ok D P k'.
Proof.
  intros Hq HtP Hquiet Hr Hn N1 N2 N3 Hnew. apply (queues_move D P k k' t); try done.
  - intros u ep _. by apply endpoint_same.
  - intros u id _. by apply noticing_same.
  - by rewrite Hr.
  - unfold distinct. rewrite Hr, Hn. by apply (queues_distinct D P).
  - assert (M1 : forall ep, ~ receiving k' ep t) by (intros ep; by rewrite (proj1 (endpoint_same k k' ep t Hr))).
    assert (M2 : forall ep, ~ sending k' ep t) by (intros ep; by rewrite (proj2 (endpoint_same k k' ep t Hr))).
    assert (M3 : forall id, ~ noticing k' id t) by (intros id; by rewrite noticing_same).
    constructor.
    + intros ep. split; [by intros ?%M1|]. destruct Hnew as [->|[(? & -> & _)|(? & -> & _)]]; congruence.
    + by intros ep ?%M2.
    + intros ep. destruct Hnew as [->|[(? & -> & _)|(? & -> & _)]]; congruence.
    + by intros ep b ?%M2.
    + intros id. split; [by intros ?%M3|]. destruct Hnew as [->|[(? & -> & _)|(? & -> & _)]]; congruence.
    + intros ep. destruct Hnew as [->|[(? & -> & Hs)|(? & -> & _)]]; try congruence. intros [= <-]. left. by rewrite Hr.
    + intros ep b. destruct Hnew as [->|[(? & -> & _)|(? & -> & Hf)]]; try congruence. intros [= <-]. apply Hf.
Qed.

Lemma nowhere_unqueued D P k t : queues_ok D P k -> t ∉ P -> place_at k t = Nowhere ->
  (forall ep, ~ receiving k ep t) /\ (forall ep, ~ sending k ep t) /\ (forall id, ~ noticing k id t).
Proof.
  intros Hq HtP Hpl. destruct (queues_placed _ _ _ t Hq HtP) as [P1 P2 _ _ P5 _ _]. repeat split.
  - intros ep. rewrite P1. congruence.
  - intros ep [H|[H|H]]%P2; congruence.
  - intros id. rewrite P5. congruence.
Qed.

Section notification.
Context (D : Z -> Prop) (P : list Z) (k k' : IpcTables) (id : Z) (p : NotificationPage) (e' : Notification.Cell) (bd : option Z) (t : Z).
Hypothesis (Hq : queues_ok D P k) (HtP : t ∉ P) (Hp : notification_table k !! id = Some p)
  (Hput : notification_table k' = <[id := MkNotificationPage (n_page p) e' bd]> (notification_table k)) (Hep : rendezvous_table k' = rendezvous_table k)
  (Hquiet : forall u, u <> t -> quiet k k' u)
  (Hmem : forall u, u <> t -> u ∈ Notification.queue e' <-> u ∈ Notification.queue (n_state p)) (Hnd : NoDup (Notification.queue e')).

Lemma notification_move : placed D k' t -> queues_ok D P k'.
Proof.
  intros Hpl. apply (queues_move D P k k' t); try done.
  - intros u ep _. by apply endpoint_same.
  - intros u id' Hu. rewrite (noticing_put k k' id p e' bd) by done. case_decide as He; [|done]. subst id'. rewrite (Hmem u Hu).
    unfold noticing. rewrite Hp. split; [intros Hx; by exists p|by intros (q & [= <-] & Hx)].
  - by rewrite Hep.
  - split; [rewrite Hep; apply (q_distinct _ _ _ Hq)|]. intros id' p'. rewrite Hput. destruct (decide (id = id')) as [<-|Hne].
    + rewrite lookup_insert_eq. by intros [= <-].
    + rewrite lookup_insert_ne by done. apply (q_distinct_notes _ _ _ Hq).
Qed.

Lemma notification_leave : place_at k t = AtWaiters id -> t ∉ Notification.queue e' -> place_at k' t = Nowhere -> queues_ok D P k'.
Proof.
  intros Hold Ht Hnew. apply notification_move. destruct (queues_placed _ _ _ t Hq HtP) as [P1 P2 P3 P4 P5 P6 P7].
  constructor; rewrite ?Hnew; try congruence; try (intros [?|?]; congruence).
  - intros ep. rewrite (proj1 (endpoint_same k k' ep t Hep)), P1. split; congruence.
  - intros ep. rewrite (proj2 (endpoint_same k k' ep t Hep)). intros [H|[H|H]]%P2; congruence.
  - intros id'. rewrite (noticing_put k k' id p e' bd) by done. case_decide; [|rewrite P5]; split; congruence.
Qed.

Lemma notification_join : place_at k t = Nowhere -> t ∈ Notification.queue e' -> place_at k' t = AtWaiters id -> queues_ok D P k'.
Proof.
  intros Hold Ht Hnew. apply notification_move. destruct (queues_placed _ _ _ t Hq HtP) as [P1 P2 P3 P4 P5 P6 P7].
  constructor; rewrite ?Hnew; try congruence; try (intros [?|?]; congruence).
  - intros ep. rewrite (proj1 (endpoint_same k k' ep t Hep)), P1. split; congruence.
  - intros ep. rewrite (proj2 (endpoint_same k k' ep t Hep)). intros [H|[H|H]]%P2; congruence.
  - intros id'. rewrite (noticing_put k k' id p e' bd) by done. case_decide as He; [subst; tauto|]. rewrite P5. split; congruence.
Qed.

(** The word changes and no thread moves. *)
Lemma notification_word : Notification.queue e' = Notification.queue (n_state p) -> quiet k k' t -> queues_ok D P k'.
Proof.
  intros Hqq Ht. apply (queues_still D P k k'); try done.
  - intros u. destruct (decide (u = t)) as [->|Hu]; [done|by apply Hquiet].
  - intros u ep. by apply endpoint_same.
  - intros u id'. rewrite (noticing_put k k' id p e' bd) by done. case_decide as He; [|done]. subst id'. rewrite Hqq.
    unfold noticing. rewrite Hp. split; [intros Hx; by exists p|by intros (q & [= <-] & Hx)].
  - by rewrite Hep.
  - split; [rewrite Hep; apply (q_distinct _ _ _ Hq)|]. intros id' p'. rewrite Hput. destruct (decide (id = id')) as [<-|Hne].
    + rewrite lookup_insert_eq. by intros [= <-].
    + rewrite lookup_insert_ne by done. apply (q_distinct_notes _ _ _ Hq).
Qed.
End notification.

(** ** Reply capabilities *)

Definition replies_ok (y : Sys) : Prop :=
  (forall s i t, holds y s i t -> (exists ep, place_at (tabs y) t = AtReply ep) /\ forall b, tcbs (tabs y) !! t = Some b -> outgoing_cap b = None) /\
  (forall s i s' i' t, holds y s i t -> holds y s' i' t -> s = s' /\ i = i').

Lemma inv_replies D P y : inv_with D P y -> replies_ok y.
Proof. intros Hi. split; [apply (inv_holds _ _ _ Hi)|apply (inv_one _ _ _ Hi)]. Qed.

(** The reply capabilities of [b'] are [b]'s. *)
Definition slots_sub (b' b : Tcb) : Prop := forall i c u, slots_of b' !! i = Some (Some c) -> Capability.object c = OReply u -> slots_of b !! i = Some (Some c).

(** No thread gains a reply capability. *)
Definition no_new_replies (y y' : Sys) : Prop :=
  (forall s b', tcbs (tabs y') !! s = Some b' -> exists b, tcbs (tabs y) !! s = Some b /\ slots_sub b' b) /\
  (forall s slot, conts y !! s = Some (InReply slot) -> conts y' !! s = Some (InReply slot)).

Lemma holds_back y y' s i t : no_new_replies y y' -> holds y' s i t -> holds y s i t.
Proof.
  intros [Hb Hc] (b' & c & Hb' & Hi & Ho & Hs). destruct (Hb s b' Hb') as (b & H0 & Hsub). exists b, c. split; [done|].
  split; [by eapply Hsub|]. split; [done|]. intros slot H%Hc. by apply Hs.
Qed.

(** [t] moves, and if it was waiting for a reply nobody can answer it any more. *)
Lemma replies_move y y' t : replies_ok y -> (forall s i u, holds y' s i u -> holds y s i u) -> (forall u, u <> t -> quiet (tabs y) (tabs y') u) ->
  quiet (tabs y) (tabs y') t \/ (forall s i, ~ holds y' s i t) -> replies_ok y'.
Proof.
  intros [H1 H2] Hback Hquiet Ht. split; [|intros s i s' i' u Hh%Hback Hh'%Hback; by eapply H2]. intros s i u Hh.
  assert (Hu : quiet (tabs y) (tabs y') u).
  { destruct (decide (u = t)) as [->|Hu]; [|by apply Hquiet]. destruct Ht as [Ht|Ht]; [done|]. by destruct (Ht s i). }
  destruct Hu as [-> Hb]. destruct (H1 s i u (Hback _ _ _ Hh)) as [Hp Ho]. split; [done|]. intros b' (b & H0 & -> & _)%Hb. by apply Ho.
Qed.

Lemma not_awaiting_unheld y t : replies_ok y -> (forall ep, place_at (tabs y) t <> AtReply ep) -> forall s i, ~ holds y s i t.
Proof. intros [H1 _] Hp s i Hh. destruct (H1 s i t Hh) as [[ep He] _]. by apply (Hp ep). Qed.

(** ** Capability tables *)

Lemma wf_mono N (tb : Capability.CapabilityTable Object) q q' : Capability.wf N (Capability.MkWorld tb q) -> q <= q' -> Capability.wf N (Capability.MkWorld tb q').
Proof.
  intros [H1 H2 H3 H4 H5 H6] Hq. constructor; try done. cbn [Capability.table Capability.PEAK] in *. etransitivity; [exact H6|].
  unfold Capability.highest_seen. cbn [fst]. rewrite !Z.shiftr_div_pow2 by lia. apply Z.div_le_mono; lia.
Qed.

Lemma ti_mono q q' t h b co : thread_inv q t h b co -> q <= q' -> thread_inv q' t h b co.
Proof. intros [H1 H2 H3 H4 H5 H6 H7 H8 H9 H10 H11] Hq. constructor; try done. by eapply wf_mono. Qed.

Lemma fill_peak N (w : Capability.World Object) i c : Capability.PEAK w <= Capability.PEAK (Capability.fill N w i c).2.
Proof.
  unfold Capability.fill. destruct (Capability.slots (Capability.table w) !! i) as [[old|]|]; cbn; try lia. destruct (_ >? _); cbn; [|lia].
  unfold Capability.note_peak. lia.
Qed.

Lemma insert_cap_spec k t b cap : tcbs k !! t = Some b -> tcb_ok (PEAK k) t b ->
  exists slot tb pk, insert_cap k t cap = Done (slot, MkTables (machine k) (<[t := set_table tb b]> (tcbs k)) (rendezvous_table k) (notification_table k) pk) /\
    PEAK k <= pk /\ Capability.wf CAPABILITY_TABLE_SLOTS (Capability.MkWorld tb pk) /\
    ((slot = NO_CAP /\ tb = capability_table b) \/
     exists i, slot = Z.of_nat i /\ slots_of b !! i = Some None /\ Capability.slots tb = <[i := Some cap]> (slots_of b)).
Proof.
  intros Hb [Hwf _]. unfold insert_cap. rewrite Hb. unfold Capability.insert, Capability.first_free.
  cbn [Capability.table]. destruct (Z.eqb_spec (Capability.free (capability_table b)) 0) as [H0|H0].
  - eexists _, _, _. split; [done|]. cbn [Capability.table Capability.PEAK]. split; [lia|]. split; [done|]. by left.
  - set (i := trailing_zeros 32 _). set (w := Capability.MkWorld (capability_table b) (PEAK k)).
    assert (Hbit : Z.testbit (Capability.free (capability_table b)) (Z.of_nat i) = true) by (apply trailing_zeros_hit, trailing_zeros_lt; [apply (Capability.wf_free_width _ _ Hwf)|done]).
    apply (Capability.wf_free _ _ Hwf) in Hbit. cbn [Capability.table] in Hbit. eexists _, _, _. split; [done|]. cbn [Capability.table Capability.PEAK].
    split; [apply (fill_peak _ w)|]. split.
    + assert (Hw : Capability.wf CAPABILITY_TABLE_SLOTS (Capability.fill CAPABILITY_TABLE_SLOTS w i cap).2) by (apply Capability.fill_wf; [by apply Nat.leb_le|done]).
      by destruct (Capability.fill CAPABILITY_TABLE_SLOTS w i cap).2.
    + right. exists i. split; [done|]. split; [done|]. apply (Capability.fill_slots _ w).
Qed.

(** A table that takes a capability that is no reply. *)
Lemma tcb_ok_insert q t b tb i cap : tcb_ok q t b -> Capability.wf CAPABILITY_TABLE_SLOTS (Capability.MkWorld tb q) -> Capability.slots tb = <[i := Some cap]> (slots_of b) ->
  (forall u, Capability.object cap = OReply u -> Capability.rights cap = Capability.WRITE) -> tcb_ok q t (set_table tb b).
Proof.
  intros [_ Hr] Hwf Hs Hc. split; [done|]. intros j c u. cbn [capability_table set_table]. rewrite Hs.
  intros [(<- & Hx & _)|(_ & Hj)]%list_lookup_insert_Some Ho; [injection Hx as <-|]; eauto.
Qed.

(** ** Putting the invariant back together *)

Lemma sys_update D P D' P' y y' (T : list Z) : inv_with D P y -> Scheduler.inv (machine (tabs y')) -> PEAK (tabs y) <= PEAK (tabs y') ->
  (forall u, u ∉ T -> hs (tabs y') !! u = hs (tabs y) !! u /\ tcbs (tabs y') !! u = tcbs (tabs y) !! u /\ conts y' !! u = conts y !! u) ->
  (forall t, t ∈ T -> exists h b, hs (tabs y') !! t = Some h /\ tcbs (tabs y') !! t = Some b /\ thread_inv (PEAK (tabs y')) t h b (conts y' !! t)) ->
  queues_ok D' P' (tabs y') -> replies_ok y' -> inv_with D' P' y'.
Proof.
  intros Hi Hm Hpk Hother HT Hq [Hr1 Hr2]. constructor; [done| | | | |done|exact Hr1|exact Hr2].
  - intros t. destruct (decide (t ∈ T)) as [Ht|Ht]; [destruct (HT t Ht) as (h & b & -> & -> & _); by split|].
    destruct (Hother t Ht) as (-> & -> & _). apply (inv_dom _ _ _ Hi).
  - intros t. destruct (decide (t ∈ T)) as [Ht|Ht]; [destruct (HT t Ht) as (h & b & -> & _ & _); by eauto|].
    destruct (Hother t Ht) as (-> & _ & ->). apply (inv_conts _ _ _ Hi).
  - pose proof (inv_peak _ _ _ Hi). lia.
  - intros t h b. destruct (decide (t ∈ T)) as [Ht|Ht].
    + destruct (HT t Ht) as (h' & b' & -> & -> & Hti). by intros [= <-] [= <-].
    + destruct (Hother t Ht) as (-> & -> & ->). intros Hh Hb. eapply ti_mono; [by eapply (inv_threads _ _ _ Hi)|done].
Qed.

Lemma quiet_same k k' u : hs k' !! u = hs k !! u -> tcbs k' !! u = tcbs k !! u -> quiet k k' u.
Proof. intros Hh Hb. split; [unfold place_at; by rewrite Hh|]. intros b'. rewrite Hb. eauto. Qed.

(** The thread a core is running, and what the invariant says of it. *)
Record at_core (k : IpcTables) (c : nat) (t : Z) (h : HS) (b : Tcb) : Prop := {
  ac_runs : Scheduler.runs (machine k) c t;
  ac_core : is_Some (Scheduler.cpus (machine k) !! c);
  ac_current : current_thread_id k c = Done t;
  ac_hs : hs k !! t = Some h;
  ac_tcb : tcbs k !! t = Some b;
  ac_running : Handshake.state h = Handshake.Running;
  ac_pending : Handshake.wake_pending h = false;
  ac_wait : Handshake.wait_on h = None;
  ac_nowhere : place_at k t = Nowhere;
  ac_outgoing : outgoing_cap b = None
}.

Lemma at_core_of D P y c t : inv_with D P y -> running (tabs y) c t -> exists h b, at_core (tabs y) c t h b /\ thread_inv (PEAK (tabs y)) t h b (conts y !! t).
Proof.
  intros Hi [Hr (h & Hh & Hs)]. destruct (proj2 (inv_dom _ _ _ Hi t)) as [b Hb]; [eauto|]. pose proof (inv_threads _ _ _ Hi t h b Hh Hb) as Ht.
  exists h, b. split; [|done]. assert (Hpl : place h = Nowhere) by (unfold place; by rewrite Hs). destruct Hr as (p & Hp & Hr). constructor; try done.
  - by exists p.
  - unfold current_thread_id. rewrite Hp. by destruct Hr as (_ & -> & _).
  - destruct (Handshake.wake_pending h) eqn:Hw; [|done]. destruct (Scheduler.lo_pending _ _ (Scheduler.inv_live _ t h (inv_machine _ _ _ Hi) Hh) Hw). congruence.
  - by destruct (ti_runs _ _ _ _ _ Ht (or_intror Hs)).
  - unfold place_at. by rewrite Hh.
  - destruct (outgoing_cap b) as [x|] eqn:Ho; [|done]. destruct (ti_outgoing _ _ _ _ _ Ht x Ho) as [[? _]|[(ep & ? & _)|(ep & ? & _)]]; congruence.
Qed.

(** The thread a place names. *)
Lemma placed_thread D P y t : inv_with D P y -> place_at (tabs y) t <> Nowhere ->
  exists h b, hs (tabs y) !! t = Some h /\ tcbs (tabs y) !! t = Some b /\ place h = place_at (tabs y) t /\ thread_inv (PEAK (tabs y)) t h b (conts y !! t).
Proof.
  intros Hi Hp. unfold place_at in *. destruct (hs (tabs y) !! t) as [h|] eqn:Hh; [|done]. destruct (proj2 (inv_dom _ _ _ Hi t)) as [b Hb]; [eauto|].
  exists h, b. split; [done|]. split; [done|]. split; [done|]. by eapply (inv_threads _ _ _ Hi).
Qed.

Lemma place_blocked h : (exists ep, place h = AtReceivers ep \/ place h = AtSenders ep \/ place h = AtReply ep \/ place h = AtWaiters ep) ->
  Handshake.state h = Handshake.Blocked /\ Handshake.is_delivered h = false.
Proof.
  intros [ep Hp]. unfold place in Hp. destruct (Handshake.state h); try (by destruct Hp as [|[|[|]]]).
  - destruct (Handshake.wait_on h); [|by destruct Hp as [|[|[|]]]]. destruct (Handshake.is_delivered h); [by destruct Hp as [|[|[|]]]|done].
  - destruct (Handshake.wait_on h) as [[]|]; by destruct Hp as [|[|[|]]].
Qed.

Lemma hand_over_effect k c r h b f : Scheduler.inv (machine k) -> is_Some (Scheduler.cpus (machine k) !! c) -> hs k !! r = Some h -> tcbs k !! r = Some b ->
  exists m', hand_over k c r f = Done (MkTables m' (<[r := f b]> (tcbs k)) (rendezvous_table k) (notification_table k) (PEAK k)) /\
    Scheduler.threads m' = <[r := woken (Handshake.serve h)]> (hs k) /\ same_cores (machine k) m' /\ Scheduler.inv m'.
Proof.
  intros Hi Hc Hh Hb. destruct (wake_effect (machine k) c r h Handshake.serve Hi Hc Hh Scheduler.flags_serve) as (m' & Hw & Ht & Hs & Hm). exists m'.
  split; [|done]. unfold hand_over, with_thread. rewrite Hb. cbn [mbind run_bind]. unfold wake, on_handshake. cbn [machine set_machine set_tcbs].
  by rewrite Hw.
Qed.

Lemma alter_is_insert {X} (m : gmap Z X) i f x : m !! i = Some x -> alter f i m = <[i := f x]> m.
Proof.
  intros Hx. apply map_eq. intros j. destruct (decide (i = j)) as [<-|Hne]; [by rewrite lookup_alter_eq, Hx, lookup_insert_eq|].
  by rewrite lookup_alter_ne, lookup_insert_ne.
Qed.

(** ** The current thread's part of a call *)

Section current.
Context (y : Sys) (c : nat) (t : Z) (h : HS) (b : Tcb).
Hypothesis (Hi : inv_with nothing [] y) (Hac : at_core (tabs y) c t h b) (Hti : thread_inv (PEAK (tabs y)) t h b (conts y !! t)) (Hfree : conts y !! t = None).

(** It goes on inside the call. *)
Lemma inv_continue co : wait_of co = None -> collects (Some co) -> inv (MkSys (tabs y) (<[t := co]> (conts y))).
Proof.
  intros Hw Hco. rewrite Hfree in Hti. apply (sys_update nothing [] nothing [] y _ [t] Hi); cbn [tabs conts].
  - apply (inv_machine _ _ _ Hi).
  - done.
  - intros u Hu%not_elem_of_cons. rewrite lookup_insert_ne by (destruct Hu; congruence). done.
  - intros u ->%list_elem_of_singleton. exists h, b. split; [apply Hac|]. split; [apply Hac|]. rewrite lookup_insert_eq.
    destruct Hti as [H1 H2 H3 H4 H5 H6 H7 H8 H9 H10 H11]. pose proof (ac_running _ _ _ _ _ Hac) as Hrun. constructor; try done; try congruence; try (intros [?|?]; congruence).
    + intros Hs. split; [by apply H2|]. intros c0 w [= <-]. congruence.
    + by left.
  - apply (inv_queues _ _ _ Hi).
  - apply (replies_move y _ t (inv_replies _ _ _ Hi)); cbn [tabs].
    + intros s i u. apply holds_back. split; [intros s0 b' Hb; exists b'; split; [done|]; by intros ?|]. intros s0 slot Hs. cbn [conts].
      destruct (decide (t = s0)) as [<-|Hne]; [congruence|by rewrite lookup_insert_ne].
    + intros u _. by apply quiet_same.
    + left. by apply quiet_same.
Qed.

(** Its call is refused or its object is gone. *)
Lemma inv_abort_current g co : wait_of co = None -> collects (Some co) -> capability_table (g b) = capability_table b -> outgoing_cap (g b) = None ->
  fault_ep (g b) = fault_ep b ->
  inv (MkSys (if_thread (set_machine (tabs y) (Scheduler.set_ipc_aborted (machine (tabs y)) t)) t g) (<[t := co]> (conts y))).
Proof.
  intros Hw Hco Htb Ho Hf. rewrite Hfree in Hti. set (k1 := if_thread _ _ _). pose proof (ac_hs _ _ _ _ _ Hac) as Hh. pose proof (ac_tcb _ _ _ _ _ Hac) as Hb.
  assert (Hm : machine k1 = Scheduler.set_thread (machine (tabs y)) t (Handshake.abort h)) by (apply (deliver_threads _ t _ h); apply Hac).
  assert (Hhs : hs k1 = <[t := Handshake.abort h]> (hs (tabs y))) by (by rewrite Hm).
  assert (Htc : tcbs k1 = <[t := g b]> (tcbs (tabs y))) by (cbn [k1 if_thread set_tcbs tcbs set_machine]; by apply alter_is_insert).
  assert (Hq : forall u, quiet (tabs y) k1 u).
  { intros u. destruct (decide (u = t)) as [->|Hu]; [|apply quiet_same; [rewrite Hhs|rewrite Htc]; by rewrite lookup_insert_ne].
    split; [unfold place_at; rewrite Hhs, lookup_insert_eq, Hh; unfold place; cbn [Handshake.abort Handshake.state]; by rewrite (ac_running _ _ _ _ _ Hac)|].
    intros b'. rewrite Htc, lookup_insert_eq. intros [= <-]. exists b. split; [done|]. split; [|done]. by rewrite Ho, (ac_outgoing _ _ _ _ _ Hac). }
  apply (sys_update nothing [] nothing [] y _ [t] Hi); cbn [tabs conts].
  - rewrite Hm. rewrite <- (deliver_threads _ t Handshake.abort h Hh). apply (Scheduler.step_inv _ _ (inv_machine _ _ _ Hi)).
    apply (Scheduler.step_abort_current _ c t h); [apply Hac|done|apply Hac].
  - done.
  - intros u Hu%not_elem_of_cons. rewrite Hhs, Htc, !lookup_insert_ne by (destruct Hu; congruence). done.
  - intros u ->%list_elem_of_singleton. exists (Handshake.abort h), (g b). rewrite Hhs, Htc, !lookup_insert_eq. split; [done|]. split; [done|].
    destruct Hti as [H1 H2 H3 H4 H5 H6 H7 H8 H9 H10 H11]. pose proof (ac_running _ _ _ _ _ Hac) as Hrun.
    constructor; cbn [Handshake.abort Handshake.state Handshake.wait_on Handshake.wake_pending]; try done; try congruence; try (intros [?|?]; congruence).
    + intros Hs. split; [by apply H2|]. intros c0 w [= <-]. congruence.
    + by left.
    + intros _. apply delivered_abort.
    + by rewrite Htb.
    + by rewrite Htb.
  - apply (queues_still nothing [] (tabs y)); try done; [apply (inv_queues _ _ _ Hi)|exact (queues_distinct _ _ _ (inv_queues _ _ _ Hi))].
  - apply (replies_move y _ t (inv_replies _ _ _ Hi)); cbn [tabs]; [|by intros u _|by left].
    intros s i u. apply holds_back. split; cbn [tabs conts].
    + intros s0 b'. rewrite Htc. destruct (decide (t = s0)) as [<-|Hne]; [|rewrite lookup_insert_ne by done; intros Hb'; exists b'; split; [done|]; by intros ?].
      rewrite lookup_insert_eq. intros [= <-]. exists b. split; [done|]. unfold slots_sub. by rewrite Htb.
    + intros s0 slot Hs. destruct (decide (t = s0)) as [<-|Hne]; [congruence|by rewrite lookup_insert_ne].
Qed.

(** It parks. *)
Lemma inv_park b' w co rt nt : wait_of co = Some w -> capability_table b' = capability_table b ->
  (forall x, outgoing_cap b' = Some x -> (exists ep, w = WRendezvous ep Sender /\ is_reply_cap x = false) \/ (exists ep, w = WRendezvous ep Reply /\ x = reply_cap t)) ->
  let k1 := MkTables (Scheduler.set_thread (machine (tabs y)) t (parked h w)) (<[t := b']> (tcbs (tabs y))) rt nt (PEAK (tabs y)) in
  (place_at k1 t = place_of w -> queues_ok nothing [] k1) -> inv (MkSys k1 (<[t := co]> (conts y))).
Proof.
  intros Hw Htb Ho k1 Hqk. rewrite Hfree in Hti. pose proof (ac_hs _ _ _ _ _ Hac) as Hh. pose proof (ac_tcb _ _ _ _ _ Hac) as Hb.
  assert (Htok : tcb_ok (PEAK (tabs y)) t b') by (unfold tcb_ok; rewrite Htb; by eapply ti_tcb_ok).
  destruct (ti_parked _ t h b b' co w Hti (ac_running _ _ _ _ _ Hac) Hw Htok Ho (ac_pending _ _ _ _ _ Hac)) as [Hti' Hpl].
  assert (Ha : Handshake.ipc_aborted h = false).
  { destruct (Handshake.ipc_aborted h) eqn:Ha; [|done]. pose proof (ac_running _ _ _ _ _ Hac). destruct (ti_aborted _ _ _ _ _ Hti Ha) as [[]|[?|?]]; congruence. }
  apply (sys_update nothing [] nothing [] y _ [t] Hi); cbn [tabs conts k1 machine tcbs PEAK].
  - apply (park_effect (machine (tabs y)) c t h w (inv_machine _ _ _ Hi)); [apply Hac|done|apply Hac|done].
  - done.
  - intros u Hu%not_elem_of_cons. cbn [Scheduler.threads Scheduler.set_thread]. rewrite !lookup_insert_ne by (destruct Hu; congruence). done.
  - intros u ->%list_elem_of_singleton. exists (parked h w), b'. cbn [Scheduler.threads Scheduler.set_thread]. by rewrite !lookup_insert_eq.
  - apply Hqk. unfold place_at. cbn [k1 machine Scheduler.threads Scheduler.set_thread]. by rewrite lookup_insert_eq.
  - assert (Hback : forall s i u, holds (MkSys k1 (<[t := co]> (conts y))) s i u -> holds y s i u).
    { intros s i u. apply holds_back. split; cbn [tabs conts k1 tcbs].
      + intros s0 b0. destruct (decide (t = s0)) as [<-|Hne]; [|rewrite lookup_insert_ne by done; intros Hb'; exists b0; split; [done|]; by intros ?].
        rewrite lookup_insert_eq. intros [= <-]. exists b. split; [done|]. unfold slots_sub. by rewrite Htb.
      + intros s0 slot Hs. destruct (decide (t = s0)) as [<-|Hne]; [congruence|by rewrite lookup_insert_ne]. }
    apply (replies_move y _ t (inv_replies _ _ _ Hi)); cbn [tabs]; [done| |].
    + intros u Hu. apply quiet_same; cbn [k1 machine Scheduler.threads Scheduler.set_thread tcbs]; by rewrite lookup_insert_ne.
    + right. intros s i Hx%Hback. eapply not_awaiting_unheld; [by eapply inv_replies| |exact Hx]. rewrite (ac_nowhere _ _ _ _ _ Hac). done.
Qed.
End current.

Lemma ep_send_cases e t :
  (Rendezvous.bound e = true /\ ep_send e t = (Rendezvous.SendRefused, e)) \/
  (exists r l, Rendezvous.rcv_q e = r :: l /\
     ep_send e t = (Rendezvous.SendRendezvous r, Rendezvous.MkEndpoint (Rendezvous.snd_q e) l (Rendezvous.pend e) (Rendezvous.bound e))) \/
  (Rendezvous.rcv_q e = [] /\
     ep_send e t = (Rendezvous.SendBlocked, Rendezvous.MkEndpoint (Rendezvous.snd_q e ++ [t]) [] (Rendezvous.pend e) (Rendezvous.bound e))).
Proof.
  unfold ep_send. cbn [Rendezvous.spec_call]. destruct (Rendezvous.bound e); [by left|]. destruct (Rendezvous.rcv_q e) as [|r l]; [by right; right|].
  right. left. by exists r, l.
Qed.

Lemma put_same k ep p : rendezvous_table k !! ep = Some p -> put_endpoint k ep p (r_state p) = k.
Proof. intros Hp. unfold put_endpoint, set_rendezvous. destruct p. rewrite insert_id by done. by destruct k. Qed.

(** An endpoint whose queues are [e] without [t]. *)
Definition without_receiver (e e' : Rendezvous.Endpoint) (t : Z) : Prop :=
  Rendezvous.snd_q e' = Rendezvous.snd_q e /\ NoDup (Rendezvous.rcv_q e') /\ forall u, u ∈ Rendezvous.rcv_q e' <-> u ∈ Rendezvous.rcv_q e /\ u <> t.

Lemma without_head e r l : NoDup (Rendezvous.rcv_q e) -> Rendezvous.rcv_q e = r :: l ->
  without_receiver e (Rendezvous.MkEndpoint (Rendezvous.snd_q e) l (Rendezvous.pend e) (Rendezvous.bound e)) r.
Proof.
  intros Hnd He. rewrite He in Hnd. apply NoDup_cons in Hnd as [Hr Hl]. split; [done|]. split; [done|]. intros u. cbn [Rendezvous.rcv_q]. rewrite He, elem_of_cons.
  split; [intros Hu; split; [by right|]; congruence|]. intros [[->|Hu] Hne]; congruence.
Qed.

(** A thread not waiting to send or for a reply offers nothing. *)
Lemma offers_nothing q t h b co : thread_inv q t h b co -> Handshake.state h <> Handshake.Finished -> (forall ep, place h <> AtSenders ep /\ place h <> AtReply ep) -> outgoing_cap b = None.
Proof.
  intros Ht Hs Hp. destruct (outgoing_cap b) as [x|] eqn:Ho; [|done]. destruct (ti_outgoing _ _ _ _ _ Ht x Ho) as [[? _]|[(ep & He & _)|(ep & He & _)]]; [done|..]; by apply Hp in He.
Qed.

(** A parked receiver is served: by a message, a signal or a death. *)
Lemma inv_receiver_served y ep p e' r h b b' m' pk : inv y -> rendezvous_table (tabs y) !! ep = Some p -> receiving (tabs y) ep r ->
  without_receiver (r_state p) e' r -> hs (tabs y) !! r = Some h -> tcbs (tabs y) !! r = Some b ->
  Scheduler.threads m' = <[r := woken (Handshake.serve h)]> (hs (tabs y)) -> Scheduler.inv m' -> PEAK (tabs y) <= pk ->
  outgoing_cap b' = outgoing_cap b -> tcb_ok pk r b' -> slots_sub b' b ->
  inv (MkSys (MkTables m' (<[r := b']> (tcbs (tabs y))) (<[ep := MkRendezvousPage (r_page p) e']> (rendezvous_table (tabs y))) (notification_table (tabs y)) pk) (conts y)).
Proof.
  intros Hi Hp Hrcv (Hsq & Hnd & Hmem) Hh Hb Hm Hmi Hpk Ho Htok Hsub. apply (q_receivers _ _ _ (inv_queues _ _ _ Hi)) in Hrcv as [Hpl _].
  assert (Hph : place h = AtReceivers ep) by (unfold place_at in Hpl; by rewrite Hh in Hpl). destruct (place_blocked h) as [Hblk Hund]; [eauto|].
  pose proof (inv_threads _ _ _ Hi r h b Hh Hb) as Hti. assert (Ho' : outgoing_cap b' = None) by (rewrite Ho; eapply offers_nothing; [exact Hti|congruence|by rewrite Hph]).
  set (k1 := MkTables _ _ _ _ _). assert (Hpl1 : place_at k1 r = Nowhere).
  { unfold place_at. cbn [k1 machine]. rewrite Hm, lookup_insert_eq. apply place_woken; [by left|congruence]. }
  assert (Hquiet : forall u, u <> r -> quiet (tabs y) k1 u) by (intros u Hu; apply quiet_same; cbn [k1 machine tcbs]; rewrite ?Hm; by rewrite lookup_insert_ne).
  apply (sys_update nothing [] nothing [] y _ [r] Hi); cbn [tabs conts k1 machine tcbs PEAK]; try done.
  - intros u Hu%not_elem_of_cons. rewrite Hm, !lookup_insert_ne by (destruct Hu; congruence). done.
  - intros u ->%list_elem_of_singleton. eexists _, _. rewrite Hm, !lookup_insert_eq. split; [done|]. split; [done|].
    eapply ti_woken; [eapply ti_mono; [exact Hti|done]|by left|done|done|done].
  - assert (Hns : r ∉ Rendezvous.snd_q (r_state p)).
    { intros Hx. destruct (q_senders _ _ _ (inv_queues _ _ _ Hi) ep r) as [[H|[H|H]] _]; [by exists p|congruence..]. }
    apply (endpoint_leave nothing [] (tabs y) k1 ep p e' r (inv_queues _ _ _ Hi)); try done; [set_solver| | |by left| |by rewrite Hsq|by left].
    + intros u Hu. rewrite Hmem, Hsq. tauto.
    + rewrite Hsq. split; [apply (q_distinct _ _ _ (inv_queues _ _ _ Hi) ep p Hp)|done].
    + rewrite Hmem. tauto.
  - assert (Hback : forall s i u, holds (MkSys k1 (conts y)) s i u -> holds y s i u).
    { intros s i u. apply holds_back. split; [|done]. cbn [tabs k1 tcbs]. intros s0 b0. destruct (decide (r = s0)) as [<-|Hne].
      + rewrite lookup_insert_eq. intros [= <-]. eauto.
      + rewrite lookup_insert_ne by done. intros Hb'. exists b0. split; [done|]. by intros ?. }
    apply (replies_move y _ r (inv_replies _ _ _ Hi)); cbn [tabs]; [done|done|]. right. intros s i Hx%Hback.
    eapply not_awaiting_unheld; [by eapply inv_replies| |exact Hx]. rewrite Hpl. done.
Qed.

(** The running thread keeps running while others are woken. *)
Lemma running_kept k k' c t : running k c t -> same_cores (machine k) (machine k') -> hs k' !! t = hs k !! t -> running k' c t.
Proof.
  intros [(p & Hp & Hsf & Hcur & Hid) (h & Hh & Hs)] Hsc Ht. split; [|exists h; by rewrite Ht]. specialize (Hsc c). rewrite Hp in Hsc. cbn in Hsc.
  destruct (Scheduler.cpus (machine k') !! c) as [p'|] eqn:Hp'; [|done]. injection Hsc as H1 H2 H3. exists p'. split; [done|]. split; [congruence|]. split; congruence.
Qed.

(** The receiver at the head of an endpoint's queue is given [f]'s message;
    [k1] may already have filed a capability in its table. *)
Lemma serve_receiver y c ep p r l k1 br1 f : inv y -> is_Some (Scheduler.cpus (machine (tabs y)) !! c) -> rendezvous_table (tabs y) !! ep = Some p ->
  Rendezvous.rcv_q (r_state p) = r :: l -> machine k1 = machine (tabs y) -> tcbs k1 = <[r := br1]> (tcbs (tabs y)) ->
  rendezvous_table k1 = <[ep := MkRendezvousPage (r_page p) (Rendezvous.MkEndpoint (Rendezvous.snd_q (r_state p)) l (Rendezvous.pend (r_state p)) (Rendezvous.bound (r_state p)))]>
    (rendezvous_table (tabs y)) -> notification_table k1 = notification_table (tabs y) -> PEAK (tabs y) <= PEAK k1 ->
  (forall br, tcbs (tabs y) !! r = Some br -> outgoing_cap (f br1) = outgoing_cap br /\ tcb_ok (PEAK k1) r (f br1) /\ slots_sub (f br1) br) ->
  exists k2, hand_over k1 c r f = Done k2 /\ inv (MkSys k2 (conts y)) /\ (forall t, running (tabs y) c t -> running k2 c t /\ r <> t) /\
    tcbs k2 = <[r := f br1]> (tcbs (tabs y)).
Proof.
  intros Hi Hc Hp Hrl Hm1 Htc1 Hrt1 Hnt1 Hpk Hf. assert (Hrcv : receiving (tabs y) ep r) by (exists p; rewrite Hrl; split; [done|constructor]).
  pose proof (proj1 (q_receivers _ _ _ (inv_queues _ _ _ Hi) ep r) Hrcv) as [Hpl _].
  destruct (placed_thread _ _ y r Hi) as (hr & br & Hhr & Hbr & Hph & Htr); [congruence|]. destruct (Hf br Hbr) as (Ho & Htok & Hsub).
  destruct (hand_over_effect k1 c r hr br1 f) as (m' & Hho & Hth & Hsc & Hmi); [rewrite Hm1; apply (inv_machine _ _ _ Hi)|by rewrite Hm1|by rewrite Hm1|by rewrite Htc1, lookup_insert_eq|].
  rewrite Hm1 in Hth, Hsc. eexists. split; [exact Hho|]. rewrite Htc1, Hrt1, Hnt1, insert_insert_eq. split; [|split; [|done]].
  - by apply (inv_receiver_served y ep p _ r hr br _ m' (PEAK k1) Hi Hp Hrcv (without_head _ r l (proj2 (q_distinct _ _ _ (inv_queues _ _ _ Hi) ep p Hp)) Hrl) Hhr Hbr Hth Hmi Hpk).
  - intros t Hrun. assert (Hne : r <> t).
    { intros ->. destruct Hrun as [_ (h0 & H0 & Hs0)]. destruct (place_blocked hr) as [Hb _]; [exists ep; left; congruence|]. congruence. }
    split; [|done]. apply (running_kept _ _ c t Hrun); cbn [machine]; [done|]. by rewrite Hth, lookup_insert_ne.
Qed.

Lemma receiver_thread y ep p r l : inv y -> rendezvous_table (tabs y) !! ep = Some p -> Rendezvous.rcv_q (r_state p) = r :: l ->
  exists br, tcbs (tabs y) !! r = Some br /\ tcb_ok (PEAK (tabs y)) r br.
Proof.
  intros Hi Hp Hrl. assert (Hrcv : receiving (tabs y) ep r) by (exists p; rewrite Hrl; split; [done|constructor]).
  pose proof (proj1 (q_receivers _ _ _ (inv_queues _ _ _ Hi) ep r) Hrcv) as [Hpl _].
  destruct (placed_thread _ _ y r Hi) as (hr & br & Hhr & Hbr & Hph & Htr); [congruence|]. exists br. split; [done|by eapply ti_tcb_ok].
Qed.

(** Parking in a call. *)
Lemma park_now y c t h b k1 w : inv y -> at_core (tabs y) c t h b -> thread_inv (PEAK (tabs y)) t h b None -> machine k1 = machine (tabs y) ->
  park k1 c w = Done (set_machine k1 (Scheduler.set_thread (machine (tabs y)) t (parked h w))).
Proof.
  intros Hi Hac Hti Hm. assert (Ha : Handshake.ipc_aborted h = false).
  { destruct (Handshake.ipc_aborted h) eqn:Ha; [|done]. pose proof (ac_running _ _ _ _ _ Hac). destruct (ti_aborted _ _ _ _ _ Hti Ha) as [[]|[?|?]]; congruence. }
  destruct (park_effect (machine (tabs y)) c t h w (inv_machine _ _ _ Hi) (ac_runs _ _ _ _ _ Hac) (ac_hs _ _ _ _ _ Hac) (ac_running _ _ _ _ _ Hac) Ha) as [Hp _].
  unfold park. by rewrite Hm, Hp.
Qed.

(** ... on an endpoint's sender queue, with or without something to hand over. *)
Lemma inv_park_sender y c t h b b' w co ep p e' : inv y -> at_core (tabs y) c t h b -> thread_inv (PEAK (tabs y)) t h b (conts y !! t) -> conts y !! t = None ->
  rendezvous_table (tabs y) !! ep = Some p -> Rendezvous.rcv_q (r_state p) = [] -> Rendezvous.rcv_q e' = [] -> Rendezvous.snd_q e' = Rendezvous.snd_q (r_state p) ++ [t] ->
  wait_of co = Some w -> capability_table b' = capability_table b ->
  (w = WRendezvous ep Sender /\ (forall x, outgoing_cap b' = Some x -> is_reply_cap x = false)) \/ (w = WRendezvous ep Reply /\ outgoing_cap b' = Some (reply_cap t)) ->
  inv (MkSys (MkTables (Scheduler.set_thread (machine (tabs y)) t (parked h w)) (<[t := b']> (tcbs (tabs y)))
    (<[ep := MkRendezvousPage (r_page p) e']> (rendezvous_table (tabs y))) (notification_table (tabs y)) (PEAK (tabs y))) (<[t := co]> (conts y))).
Proof.
  intros Hi Hac Hti Hfree Hp Hr0 Hr1 Hs1 Hw Htb Hwr. pose proof (inv_queues _ _ _ Hi) as Hq.
  destruct (nowhere_unqueued _ _ _ t Hq ltac:(apply not_elem_of_nil) (ac_nowhere _ _ _ _ _ Hac)) as (_ & Hns & _).
  assert (Hnot : t ∉ Rendezvous.snd_q (r_state p)) by (intros Hx; apply (Hns ep); by exists p).
  apply (inv_park y c t h b Hi Hac Hti Hfree b' w co _ _ Hw Htb).
  { intros x Hx. destruct Hwr as [[-> Hn]|[-> Hn]]; [left; eauto|right; exists ep; split; [done|congruence]]. }
  intros Hpl. apply (endpoint_join nothing [] (tabs y) _ ep p e' t Hq); try done; cbn [tcbs].
  - apply not_elem_of_nil.
  - intros u Hu. apply quiet_same; cbn [machine Scheduler.threads Scheduler.set_thread tcbs]; by rewrite lookup_insert_ne.
  - intros u Hu. rewrite Hr0, Hr1, Hs1, elem_of_app, list_elem_of_singleton. tauto.
  - rewrite Hr1, Hs1. split; [|constructor]. apply NoDup_app. split; [apply (q_distinct _ _ _ Hq ep p Hp)|].
    split; [intros x Hx ->%list_elem_of_singleton; done|apply NoDup_singleton].
  - apply Hac.
  - right. rewrite Hr1, Hs1. split; [apply elem_of_app; right; constructor|]. split; [apply not_elem_of_nil|].
    rewrite Hpl. destruct Hwr as [[-> _]|[-> Ho]]; [by left|right; left]. split; [done|]. intros b0. rewrite lookup_insert_eq. congruence.
Qed.

Lemma ipc_send_ok y c t ep a0 a1 a2 badge : inv y -> running (tabs y) c t -> conts y !! t = None ->
  exists block k', ipc_send_badged (tabs y) c ep a0 a1 a2 badge = Done (block, k') /\ inv (MkSys k' (<[t := if (block : bool) then InSend ep else AfterSend]> (conts y))).
Proof.
  intros Hi Hrun Hfree. destruct (at_core_of _ _ y c t Hi Hrun) as (h & b & Hac & Hti). unfold ipc_send_badged.
  rewrite (ac_current _ _ _ _ _ Hac). cbn [mbind run_bind]. rewrite (ac_tcb _ _ _ _ _ Hac).
  destruct (rendezvous_table (tabs y) !! ep) as [p|] eqn:Hp.
  2: { eexists _, _. split; [done|]. by apply (inv_abort_current y c t h b Hi Hac Hti Hfree (set_outgoing None)). }
  destruct (ep_send_cases (r_state p) t) as [[_ ->]|[(r & l & Hrl & ->)|[Hrl ->]]].
  - rewrite put_same by done. eexists _, _. split; [done|]. apply (inv_abort_current y c t h b Hi Hac Hti Hfree (set_refused true)); try done. apply Hac.
  - destruct (receiver_thread y ep p r l Hi Hp Hrl) as (br & Hbr & Hok).
    destruct (serve_receiver y c ep p r l (put_endpoint (tabs y) ep p (Rendezvous.MkEndpoint (Rendezvous.snd_q (r_state p)) l (Rendezvous.pend (r_state p)) (Rendezvous.bound (r_state p))))
      br (set_mailbox (wide a0 a1 a2 badge)) Hi (ac_core _ _ _ _ _ Hac) Hp Hrl) as (k2 & Hho & Hi2 & Hkept & _); try done; [by symmetry; apply insert_id| |].
    { intros br' Hbr'. assert (br' = br) as -> by congruence. split; [done|]. split; [done|by intros ?]. }
    rewrite Hho. cbn [mbind run_bind]. eexists _, _. split; [done|]. destruct (Hkept t Hrun) as [Hrun2 _].
    destruct (at_core_of _ _ _ c t Hi2 Hrun2) as (h1 & b1 & Hac1 & Hti1). exact (inv_continue _ c t h1 b1 Hi2 Hac1 Hti1 Hfree AfterSend eq_refl I).
  - unfold with_thread. cbn [tcbs put_endpoint set_rendezvous]. rewrite (ac_tcb _ _ _ _ _ Hac). cbn [mbind run_bind].
    pose proof Hti as Hti'. rewrite Hfree in Hti'. erewrite (park_now y c t h b _ _ Hi Hac Hti') by done. cbn [mbind run_bind]. eexists _, _. split; [done|].
    apply (inv_park_sender y c t h b _ (WRendezvous ep Sender) (InSend ep) ep p _ Hi Hac Hti Hfree Hp Hrl); try done.
    left. split; [done|]. cbn [outgoing_cap set_mailbox]. rewrite (ac_outgoing _ _ _ _ _ Hac). done.
Qed.

Lemma ipc_send_cap_ok y c t ep data cap badge : inv y -> running (tabs y) c t -> conts y !! t = None -> is_reply_cap cap = false ->
  exists block k', ipc_send_cap (tabs y) c ep data cap badge = Done (block, k') /\ inv (MkSys k' (<[t := if (block : bool) then InSend ep else AfterSend]> (conts y))).
Proof.
  intros Hi Hrun Hfree Hcap. destruct (at_core_of _ _ y c t Hi Hrun) as (h & b & Hac & Hti). unfold ipc_send_cap.
  rewrite (ac_current _ _ _ _ _ Hac). cbn [mbind run_bind]. rewrite (ac_tcb _ _ _ _ _ Hac).
  destruct (rendezvous_table (tabs y) !! ep) as [p|] eqn:Hp.
  2: { eexists _, _. split; [done|]. by apply (inv_abort_current y c t h b Hi Hac Hti Hfree (set_outgoing None)). }
  destruct (ep_send_cases (r_state p) t) as [[_ ->]|[(r & l & Hrl & ->)|[Hrl ->]]].
  - rewrite put_same by done. eexists _, _. split; [done|]. apply (inv_abort_current y c t h b Hi Hac Hti Hfree (set_refused true)); try done. apply Hac.
  - destruct (receiver_thread y ep p r l Hi Hp Hrl) as (br & Hbr & Hok). set (e' := Rendezvous.MkEndpoint _ _ _ _).
    destruct (insert_cap_spec (put_endpoint (tabs y) ep p e') r br cap Hbr Hok) as (slot & tb & pk & Hins & Hpk & Hwf & Hslot). rewrite Hins. cbn [mbind run_bind].
    set (k1 := MkTables _ _ _ _ _). assert (Htok : tcb_ok pk r (set_table tb br) /\ slots_sub (set_table tb br) br).
    { destruct Hslot as [[_ ->]|(i & _ & Hi0 & Hsl)]; [split; [split; [by eapply wf_mono; [apply Hok|]|apply Hok]|by intros ?]|]. split.
      - eapply tcb_ok_insert; [split; [by eapply wf_mono; [apply Hok|]|apply Hok]|done|done|]. intros u Hu. unfold is_reply_cap in Hcap. by rewrite Hu in Hcap.
      - intros j x u. cbn [capability_table set_table]. rewrite Hsl. intros [(<- & Hx & _)|(_ & Hj)]%list_lookup_insert_Some Hu; [|done].
        injection Hx as <-. unfold is_reply_cap in Hcap. by rewrite Hu in Hcap. }
    destruct (serve_receiver y c ep p r l k1 (set_table tb br) (fun b => set_cap_delivered true (set_mailbox (MkMsg data slot 0 badge 0) b)) Hi (ac_core _ _ _ _ _ Hac) Hp Hrl)
      as (k2 & Hho & Hi2 & Hkept & _); try done.
    { intros br' Hbr'. assert (br' = br) as -> by congruence. split; [done|]. by destruct Htok. }
    rewrite Hho. cbn [mbind run_bind]. eexists _, _. split; [done|]. destruct (Hkept t Hrun) as [Hrun2 _].
    destruct (at_core_of _ _ _ c t Hi2 Hrun2) as (h1 & b1 & Hac1 & Hti1). exact (inv_continue _ c t h1 b1 Hi2 Hac1 Hti1 Hfree AfterSend eq_refl I).
  - unfold with_thread. cbn [tcbs put_endpoint set_rendezvous]. rewrite (ac_tcb _ _ _ _ _ Hac). cbn [mbind run_bind].
    pose proof Hti as Hti'. rewrite Hfree in Hti'. erewrite (park_now y c t h b _ _ Hi Hac Hti') by done. cbn [mbind run_bind]. eexists _, _. split; [done|].
    apply (inv_park_sender y c t h b _ (WRendezvous ep Sender) (InSend ep) ep p _ Hi Hac Hti Hfree Hp Hrl); try done.
    left. split; [done|]. cbn [outgoing_cap set_outgoing]. congruence.
Qed.

(** At most one new reply capability, in slot [i] of [r], for a thread that nobody
    could answer. *)
Lemma replies_gain y y' r i t : replies_ok y -> (forall s j, ~ holds y s j t) -> (forall s j u, holds y' s j u -> holds y s j u \/ (s = r /\ j = i /\ u = t)) ->
  (forall s j u, holds y s j u -> quiet (tabs y) (tabs y') u) ->
  (exists ep, place_at (tabs y') t = AtReply ep) -> (forall b, tcbs (tabs y') !! t = Some b -> outgoing_cap b = None) -> replies_ok y'.
Proof.
  intros [H1 H2] Hold Hback Hquiet Hpl Ho. split.
  - intros s j u [Hx|(-> & -> & ->)]%Hback; [|done]. destruct (Hquiet _ _ _ Hx) as [-> Hb].
    destruct (H1 _ _ _ Hx) as [Hp Hoo]. split; [done|]. intros b' (b & H0 & -> & _)%Hb. by apply Hoo.
  - intros s j s' j' u [Hx|(-> & -> & ->)]%Hback [Hx'|(-> & -> & Hu)]%Hback; [by eapply H2| | |done].
    + subst u. by apply Hold in Hx.
    + by apply Hold in Hx'.
Qed.

(** [r] leaves the receivers and [t] waits for its reply. *)
Lemma call_met_queues k k3 ep p e' r t : queues_ok nothing [] k -> rendezvous_table k !! ep = Some p -> place_at k r = AtReceivers ep -> place_at k t = Nowhere -> r <> t ->
  Rendezvous.snd_q e' = Rendezvous.snd_q (r_state p) -> NoDup (Rendezvous.rcv_q e') ->
  (forall u, u ∈ Rendezvous.rcv_q e' <-> u ∈ Rendezvous.rcv_q (r_state p) /\ u <> r) ->
  rendezvous_table k3 = <[ep := MkRendezvousPage (r_page p) e']> (rendezvous_table k) -> notification_table k3 = notification_table k ->
  place_at k3 r = Nowhere -> place_at k3 t = AtReply ep -> (forall u, u <> t -> u <> r -> quiet k k3 u) -> (forall b, tcbs k3 !! t = Some b -> tcbs k !! t = Some b) ->
  queues_ok nothing [] k3.
Proof.
  intros Hq Hp Hpr Hpt Hne Hsq Hnd Hmem Hrt Hnt Hpr3 Hpt3 Hquiet Ht3. destruct (nowhere_unqueued _ _ _ t Hq ltac:(apply not_elem_of_nil) Hpt) as (N1 & N2 & N3).
  assert (exists hp, hs k3 !! t = Some hp /\ place hp = AtReply ep) as (hp & Hhp & Hplp).
  { unfold place_at in Hpt3. destruct (hs k3 !! t) as [hp|]; [eauto|done]. }
  set (kv := MkTables (Scheduler.set_thread (machine k) t hp) (tcbs k) (rendezvous_table k) (notification_table k) (PEAK k)).
  assert (Hpv : place_at kv t = AtReply ep) by (unfold place_at; cbn; by rewrite lookup_insert_eq).
  assert (Hqv : forall u, u <> t -> quiet k kv u) by (intros u Hu; apply quiet_same; [cbn; by rewrite lookup_insert_ne|done]).
  assert (Hkv : queues_ok nothing [] kv).
  { apply (queues_alone nothing [] k kv t Hq); try done; [apply not_elem_of_nil|]. right. left. exists ep. split; [done|]. rewrite Hp. eauto. }
  assert (Hprv : place_at kv r = AtReceivers ep) by (rewrite (proj1 (Hqv r Hne)); done).
  assert (Hns : r ∉ Rendezvous.snd_q (r_state p)).
  { intros Hx. destruct (q_senders _ _ _ Hq ep r) as [[H|[H|H]] _]; [by exists p|congruence..]. }
  apply (endpoint_leave nothing [] kv k3 ep p e' r Hkv); try done; [apply not_elem_of_nil| | | |by left| |by rewrite Hsq|by left].
  - intros u Hu. destruct (decide (u = t)) as [->|Hut].
    + split; [congruence|]. intros b' Hb'. exists b'. split; [by apply Ht3|done].
    + destruct (Hquiet u Hut Hu) as [H1 H2]. split; [rewrite H1; symmetry; by apply Hqv|done].
  - intros u Hu. rewrite Hmem, Hsq. tauto.
  - rewrite Hsq. split; [apply (q_distinct _ _ _ Hq ep p Hp)|done].
  - rewrite Hmem. tauto.
Qed.

(** A call met a receiver: it is served, maybe with the means to answer, and the
    caller is parked off every queue. *)
Lemma inv_call_met y c t h b ep p e' r hr br b' m' pk i : inv y -> at_core (tabs y) c t h b -> thread_inv (PEAK (tabs y)) t h b None -> conts y !! t = None ->
  rendezvous_table (tabs y) !! ep = Some p -> receiving (tabs y) ep r -> without_receiver (r_state p) e' r -> hs (tabs y) !! r = Some hr -> tcbs (tabs y) !! r = Some br ->
  Scheduler.threads m' = <[r := woken (Handshake.serve hr)]> (hs (tabs y)) -> same_cores (machine (tabs y)) m' -> Scheduler.inv m' -> PEAK (tabs y) <= pk ->
  outgoing_cap b' = outgoing_cap br -> tcb_ok pk r b' ->
  (forall j x u, slots_of b' !! j = Some (Some x) -> Capability.object x = OReply u -> slots_of br !! j = Some (Some x) \/ (j = i /\ u = t)) ->
  let m2 := Scheduler.set_thread m' t (parked h (WRendezvous ep Reply)) in
  Scheduler.park_current m' c (WRendezvous ep Reply) = Done m2 /\
  inv (MkSys (MkTables m2 (<[r := b']> (tcbs (tabs y))) (<[ep := MkRendezvousPage (r_page p) e']> (rendezvous_table (tabs y))) (notification_table (tabs y)) pk)
    (<[t := InCall ep]> (conts y))).
Proof.
  intros Hi Hac Hti Hfree Hp Hrcv (Hsq & Hnd & Hmem) Hhr Hbr Hth Hsc Hmi Hpk Ho Htok Hgive m2. pose proof (inv_queues _ _ _ Hi) as Hq.
  pose proof (proj1 (q_receivers _ _ _ Hq ep r) Hrcv) as [Hplr _]. assert (Hphr : place hr = AtReceivers ep) by (unfold place_at in Hplr; by rewrite Hhr in Hplr).
  destruct (place_blocked hr) as [Hblk _]; [eauto|]. pose proof (inv_threads _ _ _ Hi r hr br Hhr Hbr) as Htir.
  assert (Hne : r <> t) by (intros ->; pose proof (ac_nowhere _ _ _ _ _ Hac); congruence).
  assert (Hor : outgoing_cap br = None) by (eapply offers_nothing; [exact Htir|congruence|by rewrite Hphr]).
  assert (Hrun : running (tabs y) c t) by (split; [apply Hac|]; exists h; split; apply Hac).
  pose proof (running_kept (tabs y) (set_machine (tabs y) m') c t Hrun Hsc ltac:(cbn [machine set_machine]; by rewrite Hth, lookup_insert_ne)) as [Hruns' _].
  assert (Hht : Scheduler.threads m' !! t = Some h) by (rewrite Hth, lookup_insert_ne by done; apply Hac).
  assert (Ha : Handshake.ipc_aborted h = false).
  { destruct (Handshake.ipc_aborted h) eqn:Ha; [|done]. pose proof (ac_running _ _ _ _ _ Hac). destruct (ti_aborted _ _ _ _ _ Hti Ha) as [[]|[?|?]]; congruence. }
  destruct (park_effect m' c t h (WRendezvous ep Reply) Hmi Hruns' Hht (ac_running _ _ _ _ _ Hac) Ha) as [Hpark Hm2]. split; [exact Hpark|].
  destruct (ti_parked pk t h b b (InCall ep) (WRendezvous ep Reply)) as [Htp Hplp]; [by eapply ti_mono|apply Hac|done| | |apply Hac|].
  { eapply ti_tcb_ok, ti_mono; [exact Hti|done]. }
  { rewrite (ac_outgoing _ _ _ _ _ Hac). done. }
  set (k3 := MkTables _ _ _ _ _). assert (Hhs : hs k3 = <[t := parked h (WRendezvous ep Reply)]> (<[r := woken (Handshake.serve hr)]> (hs (tabs y)))) by (cbn; by rewrite Hth).
  assert (Hpt : place_at k3 t = AtReply ep) by (unfold place_at; by rewrite Hhs, lookup_insert_eq).
  assert (Hpr : place_at k3 r = Nowhere) by (unfold place_at; rewrite Hhs, lookup_insert_ne, lookup_insert_eq by done; apply place_woken; [by left|congruence]).
  assert (Hquiet : forall u, u <> t -> u <> r -> quiet (tabs y) k3 u).
  { intros u Hut Hur. apply quiet_same; [rewrite Hhs|cbn [k3 tcbs]]; by rewrite !lookup_insert_ne. }
  apply (sys_update nothing [] nothing [] y _ [t; r] Hi); cbn [tabs conts]; try done.
  - intros u Hu. assert (u <> t /\ u <> r) as [Hut Hur] by set_solver. rewrite Hhs. cbn [k3 tcbs]. by rewrite !lookup_insert_ne.
  - intros u [->|[->|[]%elem_of_nil]%elem_of_cons]%elem_of_cons.
    + exists (parked h (WRendezvous ep Reply)), b. rewrite Hhs. cbn [k3 tcbs PEAK]. rewrite !lookup_insert_eq, lookup_insert_ne by done. split; [done|]. split; [apply Hac|done].
    + eexists _, b'. rewrite Hhs. cbn [k3 tcbs PEAK]. rewrite lookup_insert_ne by done. rewrite !lookup_insert_eq. split; [done|]. split; [done|].
      rewrite lookup_insert_ne by done. eapply ti_woken; [eapply ti_mono; [exact Htir|done]|by left|done|by rewrite Ho|done].
  - apply (call_met_queues (tabs y) k3 ep p e' r t Hq Hp Hplr (ac_nowhere _ _ _ _ _ Hac) Hne); try done.
    intros b0. cbn [k3 tcbs]. rewrite lookup_insert_ne by done. done.
  - apply (replies_gain y _ r i t (inv_replies _ _ _ Hi)); cbn [tabs]; [apply (not_awaiting_unheld _ _ (inv_replies _ _ _ Hi)); rewrite (ac_nowhere _ _ _ _ _ Hac); done|..|eauto|].
    + intros s j u (b0 & x & Hb0 & Hj & Hx & Hc). cbn [tabs conts k3 tcbs] in *.
      assert (Hcy : forall slot, conts y !! s = Some (InReply slot) -> Z.to_nat slot <> j).
      { intros slot Hs. apply Hc. rewrite lookup_insert_ne; [done|]. intros <-. congruence. }
      destruct (decide (r = s)) as [<-|Hrs].
      * rewrite lookup_insert_eq in Hb0. injection Hb0 as <-. destruct (Hgive j x u Hj Hx) as [Hj'|[-> ->]]; [left|by right]. by exists br, x.
      * rewrite lookup_insert_ne in Hb0 by done. left. by exists b0, x.
    + intros s j u Hx. apply Hquiet; intros ->; (eapply not_awaiting_unheld; [exact (inv_replies _ _ _ Hi)| |exact Hx]); [rewrite (ac_nowhere _ _ _ _ _ Hac)|rewrite Hplr]; done.
    + intros b0. cbn [k3 tcbs]. rewrite lookup_insert_ne by done. rewrite (ac_tcb _ _ _ _ _ Hac). intros [= <-]. apply Hac.
Qed.

Lemma ipc_call_ok y c t ep a0 a1 badge : inv y -> running (tabs y) c t -> conts y !! t = None ->
  exists block k', ipc_call_badged (tabs y) c ep a0 a1 badge = Done (block, k') /\
    inv (MkSys k' (<[t := if (block : bool) then InCall ep else AfterCall no_msg]> (conts y))).
Proof.
  intros Hi Hrun Hfree. destruct (at_core_of _ _ y c t Hi Hrun) as (h & b & Hac & Hti). unfold ipc_call_badged.
  rewrite (ac_current _ _ _ _ _ Hac). cbn [mbind run_bind]. rewrite (ac_tcb _ _ _ _ _ Hac). pose proof Hti as Hti'. rewrite Hfree in Hti'.
  destruct (rendezvous_table (tabs y) !! ep) as [p|] eqn:Hp.
  2: { eexists _, _. split; [done|]. by apply (inv_abort_current y c t h b Hi Hac Hti Hfree (set_outgoing None)). }
  destruct (ep_send_cases (r_state p) t) as [[_ ->]|[(r & l & Hrl & ->)|[Hrl ->]]].
  - rewrite put_same by done. eexists _, _. split; [done|]. apply (inv_abort_current y c t h b Hi Hac Hti Hfree (set_refused true)); try done. apply Hac.
  - set (e' := Rendezvous.MkEndpoint _ _ _ _). assert (Hrcv : receiving (tabs y) ep r) by (exists p; rewrite Hrl; split; [done|constructor]).
    pose proof (inv_queues _ _ _ Hi) as Hq. pose proof (proj1 (q_receivers _ _ _ Hq ep r) Hrcv) as [Hplr _].
    destruct (placed_thread _ _ y r Hi) as (hr & br & Hhr & Hbr & Hphr & Htir); [congruence|]. pose proof (ti_tcb_ok _ _ _ _ _ Htir) as Hok.
    destruct (insert_cap_spec (put_endpoint (tabs y) ep p e') r br (reply_cap t) Hbr Hok) as (slot & tb & pk & Hins & Hpk & Hwf & Hslot).
    rewrite Hins. cbn [mbind run_bind]. set (k1 := MkTables _ _ _ _ _). set (f := fun b => set_cap_delivered _ _).
    destruct (hand_over_effect k1 c r hr (set_table tb br) f (inv_machine _ _ _ Hi) (ac_core _ _ _ _ _ Hac) Hhr) as (m' & Hho & Hth & Hsc & Hmi);
      [cbn [k1 tcbs]; by rewrite lookup_insert_eq|]. rewrite Hho. cbn [mbind run_bind k1 tcbs rendezvous_table notification_table PEAK put_endpoint set_rendezvous]. rewrite insert_insert_eq.
    assert (exists i, tcb_ok pk r (f (set_table tb br)) /\ forall j x u, slots_of (f (set_table tb br)) !! j = Some (Some x) -> Capability.object x = OReply u ->
      slots_of br !! j = Some (Some x) \/ (j = i /\ u = t)) as (i & Htok & Hgive).
    { cbn [f capability_table set_cap_delivered set_mailbox set_table]. assert (Hok' : tcb_ok pk r br) by (split; [by eapply wf_mono; [apply Hok|]|apply Hok]).
      destruct Hslot as [[_ ->]|(i & _ & Hi0 & Hsl)]; [exists 0%nat; split; [done|by left]|]. exists i. split.
      - apply (tcb_ok_insert pk r br tb i (reply_cap t) Hok' Hwf Hsl). done.
      - intros j x u. rewrite Hsl. intros [(<- & Hx & _)|(_ & Hj)]%list_lookup_insert_Some Hu; [right|by left]. injection Hx as <-. by injection Hu as <-. }
    destruct (inv_call_met y c t h b ep p e' r hr br (f (set_table tb br)) m' pk i Hi Hac Hti' Hfree Hp Hrcv
      (without_head _ r l (proj2 (q_distinct _ _ _ Hq ep p Hp)) Hrl) Hhr Hbr Hth Hsc Hmi Hpk eq_refl Htok Hgive) as [Hpark Hinv].
    unfold park. cbn [machine]. rewrite Hpark. cbn [mbind run_bind set_machine tcbs rendezvous_table notification_table PEAK]. by eexists _, _.
  - unfold with_thread. cbn [tcbs put_endpoint set_rendezvous]. rewrite (ac_tcb _ _ _ _ _ Hac). cbn [mbind run_bind].
    erewrite (park_now y c t h b _ _ Hi Hac Hti') by done. cbn [mbind run_bind]. eexists _, _. split; [done|].
    apply (inv_park_sender y c t h b _ (WRendezvous ep Reply) (InCall ep) ep p _ Hi Hac Hti Hfree Hp Hrl); try done. by right.
Qed.

(** A caller a capability names is off every queue. *)
Lemma held_unqueued D P y s i u : inv_with D P y -> u ∉ P -> holds y s i u ->
  exists ep h b, place_at (tabs y) u = AtReply ep /\ hs (tabs y) !! u = Some h /\ tcbs (tabs y) !! u = Some b /\ outgoing_cap b = None /\
    thread_inv (PEAK (tabs y)) u h b (conts y !! u) /\ place h = AtReply ep /\
    (forall ep, ~ receiving (tabs y) ep u) /\ (forall ep, ~ sending (tabs y) ep u) /\ (forall id, ~ noticing (tabs y) id u).
Proof.
  intros Hi HuP Hh. destruct (inv_holds _ _ _ Hi s i u Hh) as [[ep Hp] Ho]. destruct (placed_thread _ _ y u Hi) as (h & b & Hhs & Hb & Hph & Hti); [congruence|].
  destruct (queues_placed _ _ _ u (inv_queues _ _ _ Hi) HuP) as [P1 P2 _ P4 P5 _ _].
  exists ep, h, b. split; [done|]. split; [done|]. split; [done|]. split; [by apply Ho|]. split; [done|]. split; [congruence|]. split; [|split].
  - intros ep'. rewrite P1. congruence.
  - intros ep' Hs. assert (ep' = ep) as -> by (destruct (P2 ep' Hs) as [H|[H|H]]; congruence). specialize (P4 ep b Hs Hp Hb). rewrite (Ho b Hb) in P4. done.
  - intros id. rewrite P5. congruence.
Qed.

Lemma place_reply_awaits h ep : place h = AtReply ep -> awaits_reply h = true.
Proof.
  unfold place, awaits_reply. destruct (Handshake.state h); try done; destruct (Handshake.wait_on h) as [[ep' []|]|]; try done; destruct (Handshake.is_delivered h); done.
Qed.

Lemma ipc_reply_ok y c t b slot cap caller a0 a1 : inv y -> running (tabs y) c t -> conts y !! t = None -> tcbs (tabs y) !! t = Some b ->
  slots_of b !! Z.to_nat slot = Some (Some cap) -> Capability.object cap = OReply caller ->
  exists k', ipc_reply (tabs y) c caller a0 a1 = Done k' /\ inv (MkSys k' (<[t := InReply slot]> (conts y))).
Proof.
  intros Hi Hrun Hfree Hb Hsl Hobj. assert (Hh : holds y t (Z.to_nat slot) caller) by (exists b, cap; repeat split; try done; congruence).
  destruct (at_core_of _ _ y c t Hi Hrun) as (h & b0 & Hac & Hti). assert (b0 = b) as -> by (pose proof (ac_tcb _ _ _ _ _ Hac); congruence).
  destruct (held_unqueued _ _ y t _ caller Hi ltac:(apply not_elem_of_nil) Hh) as (ep & hc & bc & Hpl & Hhc & Hbc & Hoc & Htic & Hplc & N1 & N2 & N3).
  destruct (place_blocked hc) as [Hblk _]; [eauto|]. assert (Hne : caller <> t) by (intros ->; pose proof (ac_nowhere _ _ _ _ _ Hac); congruence).
  unfold ipc_reply, handshake_of. rewrite Hhc, (place_reply_awaits hc ep Hplc). cbn [negb].
  destruct (hand_over_effect (tabs y) c caller hc bc (set_mailbox (MkMsg a0 a1 0 0 0)) (inv_machine _ _ _ Hi) (ac_core _ _ _ _ _ Hac) Hhc Hbc) as (m' & Hho & Hth & Hsc & Hmi).
  rewrite Hho. eexists. split; [done|]. set (k1 := MkTables _ _ _ _ _).
  assert (Hhs : hs k1 = <[caller := woken (Handshake.serve hc)]> (hs (tabs y))) by done.
  assert (Hpl1 : place_at k1 caller = Nowhere) by (unfold place_at; rewrite Hhs, lookup_insert_eq; apply place_woken; [by left|congruence]).
  assert (Hquiet : forall u, u <> caller -> quiet (tabs y) k1 u) by (intros u Hu; apply quiet_same; [rewrite Hhs|cbn [k1 tcbs]]; by rewrite lookup_insert_ne).
  apply (sys_update nothing [] nothing [] y _ [t; caller] Hi); cbn [tabs conts]; try done.
  - intros u Hu. assert (u <> t /\ u <> caller) as [Hut Huc] by set_solver. rewrite Hhs. cbn [k1 tcbs]. by rewrite !lookup_insert_ne.
  - intros u [->|[->|[]%elem_of_nil]%elem_of_cons]%elem_of_cons.
    + exists h, b. rewrite Hhs. cbn [k1 tcbs PEAK]. rewrite !lookup_insert_eq, !lookup_insert_ne by done. split; [apply Hac|]. split; [done|].
      rewrite Hfree in Hti. pose proof (ac_running _ _ _ _ _ Hac) as Hs. destruct Hti as [H1 H2 H3 H4 H5 H6 H7 H8 H9 H10 H11]. constructor; try done; try congruence; try (intros [?|?]; congruence).
      * intros _. split; [by apply H2; right|]. intros c0 w [= <-]. done.
    + eexists _, _. rewrite Hhs. cbn [k1 tcbs PEAK]. rewrite !lookup_insert_eq. split; [done|]. split; [done|]. rewrite lookup_insert_ne by done.
      eapply ti_woken; [exact Htic|by left|done|done|exact (ti_tcb_ok _ _ _ _ _ Htic)].
  - apply (queues_alone nothing [] (tabs y) k1 caller (inv_queues _ _ _ Hi)); try done; [apply not_elem_of_nil|by left].
  - assert (Hback : forall s i u, holds (MkSys k1 (<[t := InReply slot]> (conts y))) s i u -> holds y s i u).
    { intros s i u. apply holds_back. split; cbn [tabs conts k1 tcbs].
      + intros s0 b'. destruct (decide (caller = s0)) as [<-|Hs0]; [rewrite lookup_insert_eq; intros [= <-]; exists bc|rewrite lookup_insert_ne by done; intros Hb'; exists b']; (split; [done|by intros ?]).
      + intros s0 sl Hs. destruct (decide (t = s0)) as [<-|Hs0]; [congruence|by rewrite lookup_insert_ne]. }
    apply (replies_move y _ caller (inv_replies _ _ _ Hi)); cbn [tabs]; [done|done|]. right. intros s i Hx. pose proof (Hback _ _ _ Hx) as Hy.
    destruct (inv_one _ _ _ Hi _ _ _ _ _ Hy Hh) as [-> ->]. destruct Hx as (? & ? & _ & _ & _ & Hc). apply (Hc slot); [|done]. cbn [conts]. by rewrite lookup_insert_eq.
Qed.

(** The current thread goes on after others have been dealt with. *)
Lemma continue_after k c t cs co : inv (MkSys k cs) -> running k c t -> cs !! t = None -> wait_of co = None -> collects (Some co) -> inv (MkSys k (<[t := co]> cs)).
Proof.
  intros Hi Hrun Hfree Hw Hco. destruct (at_core_of _ _ _ c t Hi Hrun) as (h & b & Hac & Hti). exact (inv_continue _ c t h b Hi Hac Hti Hfree co Hw Hco).
Qed.

Lemma ep_receive_cases e t :
  (exists n, ep_receive e t = (Rendezvous.ReceiveSignal, Rendezvous.MkEndpoint (Rendezvous.snd_q e) (Rendezvous.rcv_q e) n (Rendezvous.bound e))) \/
  (exists s l, Rendezvous.snd_q e = s :: l /\
     ep_receive e t = (Rendezvous.FromSender s, Rendezvous.MkEndpoint l (Rendezvous.rcv_q e) (Rendezvous.pend e) (Rendezvous.bound e))) \/
  (Rendezvous.snd_q e = [] /\
     ep_receive e t = (Rendezvous.ReceiveBlocked, Rendezvous.MkEndpoint [] (Rendezvous.rcv_q e ++ [t]) (Rendezvous.pend e) (Rendezvous.bound e))).
Proof.
  unfold ep_receive. cbn [Rendezvous.spec_call]. destruct (0 <? Rendezvous.pend e); [left; by eexists|]. destruct (Rendezvous.snd_q e) as [|s l]; [by right; right|].
  right. left. by exists s, l.
Qed.

(** Counters and words change; no thread moves. *)
Lemma inv_tables y rt nt : inv y ->
  (forall ep t, (receiving (MkTables (machine (tabs y)) (tcbs (tabs y)) rt nt (PEAK (tabs y))) ep t <-> receiving (tabs y) ep t) /\
                (sending (MkTables (machine (tabs y)) (tcbs (tabs y)) rt nt (PEAK (tabs y))) ep t <-> sending (tabs y) ep t)) ->
  (forall id t, noticing (MkTables (machine (tabs y)) (tcbs (tabs y)) rt nt (PEAK (tabs y))) id t <-> noticing (tabs y) id t) ->
  (forall ep, is_Some (rendezvous_table (tabs y) !! ep) -> is_Some (rt !! ep)) ->
  distinct (MkTables (machine (tabs y)) (tcbs (tabs y)) rt nt (PEAK (tabs y))) ->
  inv (MkSys (MkTables (machine (tabs y)) (tcbs (tabs y)) rt nt (PEAK (tabs y))) (conts y)).
Proof.
  intros Hi Hep Hn Hdom Hd. apply (sys_update nothing [] nothing [] y _ [] Hi); cbn [tabs conts]; try done.
  - apply (inv_machine _ _ _ Hi).
  - by intros t ?%elem_of_nil.
  - apply (queues_still nothing [] (tabs y)); try done; [apply (inv_queues _ _ _ Hi)|intros u; by apply quiet_same].
  - apply (replies_move y _ 0 (inv_replies _ _ _ Hi)); cbn [tabs]; [|by intros u _; apply quiet_same|left; by apply quiet_same].
    intros s i u. apply holds_back. split; [|done]. intros s0 b' Hb. exists b'. split; [done|]. by intros ?.
Qed.

Lemma inv_signal_taken y ep p n : inv y -> rendezvous_table (tabs y) !! ep = Some p ->
  inv (MkSys (put_endpoint (tabs y) ep p (Rendezvous.MkEndpoint (Rendezvous.snd_q (r_state p)) (Rendezvous.rcv_q (r_state p)) n (Rendezvous.bound (r_state p)))) (conts y)).
Proof.
  intros Hi Hp. pose proof (queues_distinct _ _ _ (inv_queues _ _ _ Hi)) as [Hd1 Hd2]. apply inv_tables; try done.
  - intros ep' t. erewrite (receiving_put (tabs y) _ ep p _ ep' t Hp), (sending_put (tabs y) _ ep p _ ep' t Hp) by reflexivity. case_decide as He; [|done]. subst ep'.
    unfold receiving, sending. rewrite Hp. split; (split; [intros Hx; by exists p|by intros (q & [= <-] & Hx)]).
  - intros ep' Hs. destruct (decide (ep = ep')) as [<-|Hne]; [rewrite lookup_insert_eq; eauto|by rewrite lookup_insert_ne].
  - split; [|done]. intros ep' p'. cbn [rendezvous_table]. destruct (decide (ep = ep')) as [<-|Hne]; [|rewrite lookup_insert_ne by done; apply Hd1].
    rewrite lookup_insert_eq. intros [= <-]. exact (Hd1 ep p Hp).
Qed.

Lemma inv_word_taken y id p e' bd : inv y -> notification_table (tabs y) !! id = Some p -> Notification.queue e' = Notification.queue (n_state p) ->
  inv (MkSys (set_notifications (tabs y) (<[id := MkNotificationPage (n_page p) e' bd]> (notification_table (tabs y)))) (conts y)).
Proof.
  intros Hi Hp Hqq. pose proof (queues_distinct _ _ _ (inv_queues _ _ _ Hi)) as [Hd1 Hd2]. apply inv_tables; try done.
  - intros id' t. erewrite (noticing_put (tabs y) _ id p e' _ id' t Hp) by reflexivity. case_decide as He; [|done]. subst id'. rewrite Hqq.
    unfold noticing. rewrite Hp. split; [intros Hx; by exists p|by intros (q & [= <-] & Hx)].
  - split; [done|]. intros id' p'. cbn [notification_table]. destruct (decide (id = id')) as [<-|Hne]; [|rewrite lookup_insert_ne by done; apply Hd2].
    rewrite lookup_insert_eq. intros [= <-]. cbn [n_state]. rewrite Hqq. exact (Hd2 id p Hp).
Qed.

Lemma take_bound_ok y t word k1 : inv y -> take_bound_signal (tabs y) t = Some (word, k1) ->
  inv (MkSys k1 (conts y)) /\ machine k1 = machine (tabs y) /\ tcbs k1 = tcbs (tabs y).
Proof.
  intros Hi. unfold take_bound_signal. destruct (tcbs (tabs y) !! t) as [b|]; [|done]. cbn [mbind option_bind]. destruct (bound_notification b) as [id|]; [|done].
  cbn [mbind option_bind]. destruct (notification_table (tabs y) !! id) as [p|] eqn:Hp; [|done]. cbn [mbind option_bind]. unfold note_poll. cbn [Notification.spec_call].
  destruct (Notification.bits_of (n_state p) =? 0); [done|]. intros [= <- <-]. split; [|done]. by apply (inv_word_taken y id p _ (n_bound p)).
Qed.

(** The first sender has left its queue. *)
Lemma inv_sender_left y ep p s l h b h' b' m' : inv y -> rendezvous_table (tabs y) !! ep = Some p -> Rendezvous.snd_q (r_state p) = s :: l ->
  hs (tabs y) !! s = Some h -> tcbs (tabs y) !! s = Some b -> Scheduler.threads m' = <[s := h']> (hs (tabs y)) -> Scheduler.inv m' ->
  thread_inv (PEAK (tabs y)) s h' b' (conts y !! s) -> capability_table b' = capability_table b -> fault_ep b' = fault_ep b ->
  (place h' = Nowhere /\ place h <> AtReply ep) \/ (place h' = place h /\ place h <> AtSenders ep /\ outgoing_cap b' = outgoing_cap b) ->
  inv (MkSys (MkTables m' (<[s := b']> (tcbs (tabs y)))
    (<[ep := MkRendezvousPage (r_page p) (Rendezvous.MkEndpoint l (Rendezvous.rcv_q (r_state p)) (Rendezvous.pend (r_state p)) (Rendezvous.bound (r_state p)))]>
      (rendezvous_table (tabs y))) (notification_table (tabs y)) (PEAK (tabs y))) (conts y)).
Proof.
  intros Hi Hp Hsl Hh Hb Hm Hmi Hti Htb Hfe Hnew. pose proof (inv_queues _ _ _ Hi) as Hq. assert (Hsend : sending (tabs y) ep s) by (exists p; rewrite Hsl; split; [done|constructor]).
  destruct (q_senders _ _ _ Hq ep s Hsend) as [Hold _]. assert (Hph : place_at (tabs y) s = place h) by (unfold place_at; by rewrite Hh). rewrite Hph in Hold.
  set (k1 := MkTables _ _ _ _ _). assert (Hpl1 : place_at k1 s = place h') by (unfold place_at; cbn [k1 machine]; by rewrite Hm, lookup_insert_eq).
  assert (Hquiet : forall u, u <> s -> quiet (tabs y) k1 u) by (intros u Hu; apply quiet_same; cbn [k1 machine tcbs]; rewrite ?Hm; by rewrite lookup_insert_ne).
  assert (Hqs : place h' = place h -> outgoing_cap b' = outgoing_cap b -> quiet (tabs y) k1 s).
  { intros Hpl Ho. split; [congruence|]. intros b0. cbn [k1 tcbs]. rewrite lookup_insert_eq. intros [= <-]. eauto. }
  destruct (q_distinct _ _ _ Hq ep p Hp) as [Hnds Hndr]. rewrite Hsl in Hnds. apply NoDup_cons in Hnds as [Hnots Hndl].
  apply (sys_update nothing [] nothing [] y _ [s] Hi); cbn [tabs conts]; try done.
  - intros u Hu%not_elem_of_cons. cbn [k1 machine tcbs]. rewrite Hm, !lookup_insert_ne by (destruct Hu; congruence). done.
  - intros u ->%list_elem_of_singleton. exists h', b'. cbn [k1 machine tcbs PEAK]. rewrite Hm, !lookup_insert_eq. done.
  - apply (endpoint_leave nothing [] (tabs y) k1 ep p (Rendezvous.MkEndpoint l (Rendezvous.rcv_q (r_state p)) (Rendezvous.pend (r_state p)) (Rendezvous.bound (r_state p))) s Hq); try done.
    + apply not_elem_of_nil.
    + intros u Hu. cbn [Rendezvous.rcv_q Rendezvous.snd_q]. rewrite Hsl, elem_of_cons. tauto.
    + rewrite Hph. tauto.
    + cbn [Rendezvous.rcv_q]. intros Hx. assert (Hr : receiving (tabs y) ep s) by by exists p. apply (q_receivers _ _ _ Hq) in Hr as [Hr _]. rewrite Hph in Hr.
      destruct Hold as [H|[H|H]]; congruence.
    + rewrite Hpl1, Hph. destruct Hnew as [[-> _]|(Hpl & Hns & Ho)]; [by left|]. destruct Hold as [H|[H|H]]; [congruence|right; left; split; congruence|].
      right. right. split; [congruence|]. split; [congruence|by apply Hqs].
  - assert (Hback : forall s0 i u, holds (MkSys k1 (conts y)) s0 i u -> holds y s0 i u).
    { intros s0 i u. apply holds_back. split; [|done]. cbn [tabs k1 tcbs]. intros s1 b0. destruct (decide (s = s1)) as [<-|Hne].
      + rewrite lookup_insert_eq. intros [= <-]. exists b. split; [done|]. unfold slots_sub. by rewrite Htb.
      + rewrite lookup_insert_ne by done. intros Hb'. exists b0. split; [done|]. by intros ?. }
    apply (replies_move y _ s (inv_replies _ _ _ Hi)); cbn [tabs]; [done|done|]. destruct Hnew as [[_ Hnr]|(Hpl & _ & Ho)]; [right|left; by apply Hqs].
    intros s0 i Hx%Hback. eapply not_awaiting_unheld; [by eapply inv_replies| |exact Hx]. intros ep'. rewrite Hph. destruct Hold as [H|[H|H]]; congruence.
Qed.

(** A corpse that waits on nothing any more. *)
Definition forget_wait (h : HS) : HS :=
  Handshake.MkHandshake (Handshake.state h) (Handshake.on_cpu h) (Handshake.wake_pending h) None (Handshake.ipc_served h) (Handshake.ipc_aborted h).

Lemma forget_wait_inv (m : Machine Wait) s h : Scheduler.inv m -> Scheduler.threads m !! s = Some h -> Handshake.state h = Handshake.Dead ->
  Scheduler.inv (Scheduler.set_thread m s (forget_wait h)).
Proof.
  intros Hi Hh Hd. apply Scheduler.inv_set_thread; [done|]. destruct (Scheduler.inv_live m s h Hi Hh) as [H1 H2 H3 H4 H5 H6 H7 H8 H9].
  constructor; try done. cbn. congruence.
Qed.

Lemma ti_forget_wait q t h b co : thread_inv q t h b co -> Handshake.state h = Handshake.Dead -> thread_inv q t (forget_wait h) b co.
Proof.
  intros Ht Hd. assert (Ho : outgoing_cap b = None).
  { eapply offers_nothing; [exact Ht|congruence|]. intros ep. unfold place. rewrite Hd. by destruct (Handshake.wait_on h) as [[]|]. }
  destruct Ht as [H1 H2 H3 H4 H5 H6 H7 H8 H9 H10 H11]. constructor; cbn; try done; try congruence. intros [?|?]; congruence.
Qed.

(** What a thread first in a sender queue may be. *)
Lemma sender_cases y ep p s l : inv y -> rendezvous_table (tabs y) !! ep = Some p -> Rendezvous.snd_q (r_state p) = s :: l ->
  exists h b, hs (tabs y) !! s = Some h /\ tcbs (tabs y) !! s = Some b /\ thread_inv (PEAK (tabs y)) s h b (conts y !! s) /\
    ((place h = AtSenders ep /\ Handshake.state h = Handshake.Blocked /\ is_reply (outgoing_cap b) = false) \/
     (place h = AtReply ep /\ Handshake.state h = Handshake.Blocked /\ outgoing_cap b = Some (reply_cap s)) \/
     (place h = AsCorpse ep /\ Handshake.state h = Handshake.Dead /\ outgoing_cap b = None)).
Proof.
  intros Hi Hp Hsl. pose proof (inv_queues _ _ _ Hi) as Hq. assert (Hsend : sending (tabs y) ep s) by (exists p; rewrite Hsl; split; [done|constructor]).
  destruct (q_senders _ _ _ Hq ep s Hsend) as [Hold _].
  destruct (placed_thread _ _ y s Hi) as (h & b & Hh & Hb & Hph & Hti); [by destruct Hold as [->|[->| ->]]|]. exists h, b. split; [done|]. split; [done|]. split; [done|].
  destruct Hold as [H|[H|H]]; rewrite H in Hph; [left|right; left|right; right]; (split; [done|]).
  - destruct (place_blocked h) as [Hblk _]; [eauto|]. split; [done|]. destruct (outgoing_cap b) as [x|] eqn:Ho; [|done].
    destruct (ti_outgoing _ _ _ _ _ Hti x Ho) as [[? _]|[(ep' & _ & Hx)|(ep' & ? & _)]]; [congruence|exact Hx|congruence].
  - destruct (place_blocked h) as [Hblk _]; [eauto|]. split; [done|]. by apply (q_caller _ _ _ Hq ep s b Hsend).
  - assert (Hd : Handshake.state h = Handshake.Dead).
    { unfold place in Hph. destruct (Handshake.state h); try done; destruct (Handshake.wait_on h) as [[? []|]|]; try done; by destruct (Handshake.is_delivered h). }
    split; [done|]. eapply offers_nothing; [exact Hti|congruence|]. rewrite Hph. done.
Qed.

Lemma release_sender_ok y c ep p s l : inv y -> is_Some (Scheduler.cpus (machine (tabs y)) !! c) -> rendezvous_table (tabs y) !! ep = Some p ->
  Rendezvous.snd_q (r_state p) = s :: l ->
  exists k1, release_sender (put_endpoint (tabs y) ep p (Rendezvous.MkEndpoint l (Rendezvous.rcv_q (r_state p)) (Rendezvous.pend (r_state p)) (Rendezvous.bound (r_state p)))) c s = Done k1 /\
    inv (MkSys k1 (conts y)) /\ (forall t, running (tabs y) c t -> running k1 c t).
Proof.
  intros Hi Hc Hp Hsl. destruct (sender_cases y ep p s l Hi Hp Hsl) as (h & b & Hh & Hb & Hti & Hcase). set (e' := Rendezvous.MkEndpoint _ _ _ _).
  assert (Hnr : forall t, running (tabs y) c t -> s <> t).
  { intros t [_ (ht & Ht & Hst)] ->. destruct Hcase as [(_ & ? & _)|[(_ & ? & _)|(_ & ? & _)]]; congruence. }
  unfold release_sender, handshake_of. cbn [tcbs machine put_endpoint set_rendezvous]. rewrite Hb, Hh.
  destruct Hcase as [(Hpl & Hst & Ho)|[(Hpl & Hst & Ho)|(Hpl & Hst & Ho)]].
  - rewrite Ho, bool_decide_false by congruence. cbn [orb].
    destruct (wake_effect (machine (tabs y)) c s h Handshake.serve (inv_machine _ _ _ Hi) Hc Hh Scheduler.flags_serve) as (m' & Hw & Hth & Hsc & Hmi).
    unfold wake, on_handshake. cbn [machine set_machine if_thread set_tcbs put_endpoint set_rendezvous]. rewrite Hw. cbn [mbind run_bind]. eexists. split; [done|]. split.
    + unfold set_machine, set_tcbs, set_rendezvous, if_thread. cbn [tcbs rendezvous_table notification_table PEAK]. rewrite (alter_is_insert _ _ _ _ Hb).
      apply (inv_sender_left y ep p s l h b (woken (Handshake.serve h)) (set_outgoing None b) m' Hi Hp Hsl Hh Hb Hth Hmi); try done.
      * eapply ti_woken; [exact Hti|by left|done|done|exact (ti_tcb_ok _ _ _ _ _ Hti)].
      * left. split; [apply place_woken; [by left|congruence]|congruence].
    + intros t Hrun. apply (running_kept _ _ c t Hrun); cbn [machine set_machine]; [done|]. rewrite Hth, lookup_insert_ne; [done|by apply Hnr].
  - rewrite Ho. cbn [is_reply Capability.object reply_cap orb]. rewrite bool_decide_false by congruence. eexists. split; [done|]. split; [|done].
    pose proof (inv_sender_left y ep p s l h b h b (machine (tabs y)) Hi Hp Hsl Hh Hb ltac:(by rewrite insert_id) (inv_machine _ _ _ Hi) Hti eq_refl eq_refl) as Hy.
    rewrite insert_id in Hy by done. apply Hy. right. split; [done|]. split; [congruence|done].
  - rewrite Ho. cbn [is_reply orb]. rewrite bool_decide_true by done. eexists. split; [done|]. unfold on_handshake. cbn [machine put_endpoint set_rendezvous set_machine].
    rewrite (deliver_threads _ s _ h Hh). fold (forget_wait h). split.
    + pose proof (inv_sender_left y ep p s l h b (forget_wait h) b (Scheduler.set_thread (machine (tabs y)) s (forget_wait h)) Hi Hp Hsl Hh Hb eq_refl
        (forget_wait_inv _ s h (inv_machine _ _ _ Hi) Hh Hst) (ti_forget_wait _ _ _ _ _ Hti Hst) eq_refl eq_refl) as Hy.
      rewrite (insert_id (tcbs (tabs y))) in Hy by done. apply Hy. left. split; [unfold place; cbn; by rewrite Hst|congruence].
    + intros t Hrun. apply (running_kept _ _ c t Hrun); cbn [machine set_machine Scheduler.threads Scheduler.set_thread]; [done|]. rewrite lookup_insert_ne; [done|by apply Hnr].
Qed.

(** ... on an endpoint's receiver queue. *)
Lemma inv_park_receiver y c t h b b' co ep p e' : inv y -> at_core (tabs y) c t h b -> thread_inv (PEAK (tabs y)) t h b (conts y !! t) -> conts y !! t = None ->
  rendezvous_table (tabs y) !! ep = Some p -> Rendezvous.snd_q (r_state p) = [] -> Rendezvous.snd_q e' = [] -> Rendezvous.rcv_q e' = Rendezvous.rcv_q (r_state p) ++ [t] ->
  wait_of co = Some (WRendezvous ep Receiver) -> capability_table b' = capability_table b -> outgoing_cap b' = outgoing_cap b ->
  inv (MkSys (MkTables (Scheduler.set_thread (machine (tabs y)) t (parked h (WRendezvous ep Receiver))) (<[t := b']> (tcbs (tabs y)))
    (<[ep := MkRendezvousPage (r_page p) e']> (rendezvous_table (tabs y))) (notification_table (tabs y)) (PEAK (tabs y))) (<[t := co]> (conts y))).
Proof.
  intros Hi Hac Hti Hfree Hp Hs0 Hs1 Hr1 Hw Htb Ho. pose proof (inv_queues _ _ _ Hi) as Hq.
  destruct (nowhere_unqueued _ _ _ t Hq ltac:(apply not_elem_of_nil) (ac_nowhere _ _ _ _ _ Hac)) as (Hnr & _ & _).
  assert (Hnot : t ∉ Rendezvous.rcv_q (r_state p)) by (intros Hx; apply (Hnr ep); by exists p).
  apply (inv_park y c t h b Hi Hac Hti Hfree b' _ co _ _ Hw Htb); [rewrite Ho, (ac_outgoing _ _ _ _ _ Hac); done|].
  intros Hpl. apply (endpoint_join nothing [] (tabs y) _ ep p e' t Hq); try done; cbn [tcbs].
  - apply not_elem_of_nil.
  - intros u Hu. apply quiet_same; cbn [machine Scheduler.threads Scheduler.set_thread tcbs]; by rewrite lookup_insert_ne.
  - intros u Hu. rewrite Hr1, Hs0, Hs1, elem_of_app, list_elem_of_singleton. tauto.
  - rewrite Hr1, Hs1. split; [constructor|]. apply NoDup_app. split; [apply (q_distinct _ _ _ Hq ep p Hp)|].
    split; [intros x Hx ->%list_elem_of_singleton; done|apply NoDup_singleton].
  - apply Hac.
  - left. rewrite Hr1, Hs1. split; [apply elem_of_app; right; constructor|]. split; [apply not_elem_of_nil|done].
Qed.

Lemma ipc_receive_ok y c t ep : inv y -> running (tabs y) c t -> conts y !! t = None ->
  exists r k', ipc_receive (tabs y) c ep = Done (r, k') /\ inv (MkSys k' (<[t := match r with Some msg => AfterReceive msg | None => InReceive ep end]> (conts y))).
Proof.
  intros Hi Hrun Hfree. destruct (at_core_of _ _ y c t Hi Hrun) as (h & b & Hac & Hti). unfold ipc_receive.
  rewrite (ac_current _ _ _ _ _ Hac). cbn [mbind run_bind]. rewrite (ac_tcb _ _ _ _ _ Hac).
  destruct (rendezvous_table (tabs y) !! ep) as [p|] eqn:Hp.
  2: { eexists _, _. split; [done|]. by apply (inv_abort_current y c t h b Hi Hac Hti Hfree (set_outgoing None)). }
  destruct (take_bound_signal (tabs y) t) as [[word k1]|] eqn:Htb.
  { destruct (take_bound_ok y t word k1 Hi Htb) as (Hi1 & Hm1 & Htc1). eexists _, _. split; [done|]. eapply (continue_after k1 c); [exact Hi1| |done..].
    apply (running_kept (tabs y) _ c t Hrun); rewrite Hm1; done. }
  destruct (ep_receive_cases (r_state p) t) as [(n & ->)|[(s & l & Hsl & ->)|[Hsl ->]]].
  - eexists _, _. split; [done|]. pose proof (inv_signal_taken y ep p n Hi Hp) as Hi1. by apply (continue_after _ c).
  - destruct (sender_cases y ep p s l Hi Hp Hsl) as (hs_ & bs & _ & -> & _). destruct (release_sender_ok y c ep p s l Hi (ac_core _ _ _ _ _ Hac) Hp Hsl) as (k1 & -> & Hi1 & Hkept).
    cbn [mbind run_bind]. eexists _, _. split; [done|]. eapply continue_after; [exact Hi1|by apply Hkept|done|done|done].
  - pose proof Hti as Hti'. rewrite Hfree in Hti'. erewrite (park_now y c t h b _ _ Hi Hac Hti') by done. cbn [mbind run_bind]. eexists _, _. split; [done|].
    pose proof (inv_park_receiver y c t h b b (InReceive ep) ep p (Rendezvous.MkEndpoint [] (Rendezvous.rcv_q (r_state p) ++ [t]) (Rendezvous.pend (r_state p)) (Rendezvous.bound (r_state p))) Hi Hac Hti Hfree Hp Hsl eq_refl eq_refl eq_refl eq_refl eq_refl) as Hy.
    rewrite insert_id in Hy by apply Hac. exact Hy.
Qed.

Lemma set_table_same b : set_table (capability_table b) b = b.
Proof. by destruct b. Qed.

Lemma collect_cap_spec k t b cap : tcbs k !! t = Some b -> tcb_ok (PEAK k) t b ->
  exists slot tb pk, collect_cap k t cap = Done (slot, MkTables (machine k) (<[t := set_table tb b]> (tcbs k)) (rendezvous_table k) (notification_table k) pk) /\
    PEAK k <= pk /\ Capability.wf CAPABILITY_TABLE_SLOTS (Capability.MkWorld tb pk) /\
    ((slot = NO_CAP /\ tb = capability_table b) \/
     exists i x, cap = Some x /\ slot = Z.of_nat i /\ slots_of b !! i = Some None /\ Capability.slots tb = <[i := Some x]> (slots_of b)).
Proof.
  intros Hb Hok. destruct cap as [x|]; cbn [collect_cap].
  - destruct (insert_cap_spec k t b x Hb Hok) as (slot & tb & pk & H1 & H2 & H3 & H4). exists slot, tb, pk. split; [done|]. split; [done|]. split; [done|].
    destruct H4 as [H4|(i & H4)]; [by left|]. right. by exists i, x.
  - exists NO_CAP, (capability_table b), (PEAK k). rewrite set_table_same, insert_id by done. split; [by destruct k|]. split; [lia|]. split; [apply Hok|by left].
Qed.

(** The reply capabilities when [t] has collected the first sender's capability. *)
Lemma inv_collected_replies y k1 s h b t bt tb i : inv y -> hs (tabs y) !! s = Some h -> tcbs (tabs y) !! s = Some b -> tcbs (tabs y) !! t = Some bt -> s <> t ->
  tcbs k1 = <[t := set_table tb bt]> (<[s := set_outgoing None b]> (tcbs (tabs y))) -> (forall u, u <> s -> quiet (tabs y) k1 u) ->
  (forall ep, place h <> AtReply ep) \/ (exists ep, place_at k1 s = AtReply ep /\ outgoing_cap b = Some (reply_cap s)) ->
  (forall j x u, Capability.slots tb !! j = Some (Some x) -> Capability.object x = OReply u -> slots_of bt !! j = Some (Some x) \/ ((exists ep, place h = AtReply ep) /\ j = i /\ u = s)) ->
  replies_ok (MkSys k1 (conts y)).
Proof.
  intros Hi Hh Hb Hbt Hne Htc Hquiet Hcase Hgive.
  assert (Hph : place_at (tabs y) s = place h) by (unfold place_at; by rewrite Hh).
  assert (Hback : forall s0 j u, holds (MkSys k1 (conts y)) s0 j u -> holds y s0 j u \/ ((exists ep, place h = AtReply ep) /\ s0 = t /\ j = i /\ u = s)).
  { intros s0 j u (b0 & x & Hb0 & Hj & Hx & Hc). cbn [tabs conts] in *. rewrite Htc in Hb0. destruct (decide (t = s0)) as [<-|Hts].
    - rewrite lookup_insert_eq in Hb0. injection Hb0 as <-. destruct (Hgive j x u Hj Hx) as [Hj'|(? & -> & ->)]; [left; by exists bt, x|by right].
    - left. rewrite lookup_insert_ne in Hb0 by done. destruct (decide (s = s0)) as [<-|Hss]; [|rewrite lookup_insert_ne in Hb0 by done; by exists b0, x].
      rewrite lookup_insert_eq in Hb0. injection Hb0 as <-. by exists b, x. }
  destruct Hcase as [Hno|(ep & Hpl & Ho)].
  - apply (replies_move y _ s (inv_replies _ _ _ Hi)); cbn [tabs]; [|done|].
    + intros s0 j u [?|([ep He] & _)]%Hback; [done|]. by apply Hno in He.
    + right. intros s0 j [Hx|([ep He] & _)]%Hback; [|by apply Hno in He]. eapply not_awaiting_unheld; [exact (inv_replies _ _ _ Hi)| |exact Hx]. by rewrite Hph.
  - assert (Hun : forall s0 j, ~ holds y s0 j s) by (intros s0 j Hx; destruct (inv_holds _ _ _ Hi _ _ _ Hx) as [_ Hx2]; specialize (Hx2 b Hb); congruence).
    apply (replies_gain y _ t i s (inv_replies _ _ _ Hi)); cbn [tabs]; [done| | |eauto|].
    + intros s0 j u [?|(_ & H)]%Hback; [by left|by right].
    + intros s0 j u Hx. apply Hquiet. intros ->. by eapply Hun.
    + intros b0. rewrite Htc, lookup_insert_ne, lookup_insert_eq by done. by intros [= <-].
Qed.

(** [RECEIVE_CAP] has taken the first sender's message and capability. *)
Lemma inv_collected y ep p s l h b h' m' t ht bt tb pk i : inv y -> rendezvous_table (tabs y) !! ep = Some p -> Rendezvous.snd_q (r_state p) = s :: l ->
  hs (tabs y) !! s = Some h -> tcbs (tabs y) !! s = Some b -> Scheduler.threads m' = <[s := h']> (hs (tabs y)) -> Scheduler.inv m' -> s <> t ->
  hs (tabs y) !! t = Some ht -> tcbs (tabs y) !! t = Some bt -> PEAK (tabs y) <= pk -> tcb_ok pk t (set_table tb bt) ->
  thread_inv (PEAK (tabs y)) s h' (set_outgoing None b) (conts y !! s) ->
  (place h = AtSenders ep /\ place h' = Nowhere) \/ (place h = AtReply ep /\ h' = h /\ outgoing_cap b = Some (reply_cap s)) \/
    (place h = AsCorpse ep /\ place h' = AsCorpse ep /\ outgoing_cap b = None) ->
  (forall j x u, Capability.slots tb !! j = Some (Some x) -> Capability.object x = OReply u -> slots_of bt !! j = Some (Some x) \/ (place h = AtReply ep /\ j = i /\ u = s)) ->
  inv (MkSys (MkTables m' (<[t := set_table tb bt]> (<[s := set_outgoing None b]> (tcbs (tabs y))))
    (<[ep := MkRendezvousPage (r_page p) (Rendezvous.MkEndpoint l (Rendezvous.rcv_q (r_state p)) (Rendezvous.pend (r_state p)) (Rendezvous.bound (r_state p)))]>
      (rendezvous_table (tabs y))) (notification_table (tabs y)) pk) (conts y)).
Proof.
  intros Hi Hp Hsl Hh Hb Hm Hmi Hne Hht Hbt Hpk Htok Hti Hcase Hgive. pose proof (inv_queues _ _ _ Hi) as Hq. pose proof (inv_threads _ _ _ Hi t ht bt Hht Hbt) as Htt.
  assert (Hph : place_at (tabs y) s = place h) by (unfold place_at; by rewrite Hh). set (k1 := MkTables _ _ _ _ _).
  assert (Hpl1 : place_at k1 s = place h') by (unfold place_at; cbn [k1 machine]; by rewrite Hm, lookup_insert_eq).
  assert (Hquiet : forall u, u <> s -> quiet (tabs y) k1 u).
  { intros u Hu. split; [unfold place_at; cbn [k1 machine]; by rewrite Hm, lookup_insert_ne|]. intros b0. cbn [k1 tcbs]. destruct (decide (t = u)) as [<-|Hut].
    - rewrite lookup_insert_eq. intros [= <-]. exists bt. done.
    - rewrite !lookup_insert_ne by done. eauto. }
  destruct (q_distinct _ _ _ Hq ep p Hp) as [Hnds Hndr]. rewrite Hsl in Hnds. apply NoDup_cons in Hnds as [Hnots Hndl].
  apply (sys_update nothing [] nothing [] y _ [s; t] Hi); cbn [tabs conts]; try done.
  - intros u Hu. assert (u <> s /\ u <> t) as [Hus Hut] by set_solver. cbn [k1 machine tcbs]. by rewrite Hm, !lookup_insert_ne.
  - intros u [->|[->|[]%elem_of_nil]%elem_of_cons]%elem_of_cons; cbn [k1 machine tcbs PEAK].
    + exists h', (set_outgoing None b). rewrite Hm, !lookup_insert_eq, lookup_insert_ne by done. rewrite lookup_insert_eq. split; [done|]. split; [done|]. by eapply ti_mono.
    + exists ht, (set_table tb bt). rewrite Hm, lookup_insert_ne, lookup_insert_eq by done. split; [done|]. split; [done|].
      destruct Htok as [Hwf Hrr]. destruct Htt as [H1 H2 H3 H4 H5 H6 H7 H8 H9 H10 H11]. by constructor.
  - apply (endpoint_leave nothing [] (tabs y) k1 ep p (Rendezvous.MkEndpoint l (Rendezvous.rcv_q (r_state p)) (Rendezvous.pend (r_state p)) (Rendezvous.bound (r_state p))) s Hq); try done.
    + apply not_elem_of_nil.
    + intros u Hu. cbn [Rendezvous.rcv_q Rendezvous.snd_q]. rewrite Hsl, elem_of_cons. tauto.
    + rewrite Hph. tauto.
    + cbn [Rendezvous.rcv_q]. intros Hx. assert (Hr : receiving (tabs y) ep s) by by exists p. apply (q_receivers _ _ _ Hq) in Hr as [Hr _]. rewrite Hph in Hr.
      destruct Hcase as [[H _]|[[H _]|[H _]]]; congruence.
    + rewrite Hpl1, Hph. destruct Hcase as [[_ ->]|[(H & -> & _)|(H & H' & Ho)]]; [by left|by right; left|]. right. right. split; [done|]. split; [done|]. split; [congruence|].
      intros b0. cbn [k1 tcbs]. rewrite lookup_insert_ne, lookup_insert_eq by done. intros [= <-]. by exists b.
  - apply (inv_collected_replies y k1 s h b t bt tb i Hi Hh Hb Hbt Hne eq_refl Hquiet).
    + destruct Hcase as [[H _]|[(H & -> & Ho)|(H & _)]]; [left; congruence| |left; congruence]. right. exists ep. by rewrite Hpl1, H.
    + intros j x u Hj Hx. destruct (Hgive j x u Hj Hx) as [?|(? & -> & ->)]; [by left|right; eauto].
Qed.
Lemma ti_serve_dead q t h b co : thread_inv q t h b co -> Handshake.state h = Handshake.Dead -> thread_inv q t (woken (Handshake.serve h)) b co.
Proof.
  intros Ht Hd. assert (Ho : outgoing_cap b = None).
  { eapply offers_nothing; [exact Ht|congruence|]. intros ep. unfold place. rewrite Hd. by destruct (Handshake.wait_on h) as [[]|]. }
  rewrite woken_other by (cbn; congruence). destruct Ht as [H1 H2 H3 H4 H5 H6 H7 H8 H9 H10 H11]. constructor; cbn; try done; try congruence. intros [?|?]; congruence.
Qed.

Lemma ti_no_offer q t h b co : thread_inv q t h b co -> thread_inv q t h (set_outgoing None b) co.
Proof. intros [H1 H2 H3 H4 H5 H6 H7 H8 H9 H10 H11]. by constructor. Qed.

(** The first sender's message and capability are collected. *)
Lemma collect_ok y c t ep p s l b : inv y -> running (tabs y) c t -> rendezvous_table (tabs y) !! ep = Some p -> Rendezvous.snd_q (r_state p) = s :: l -> tcbs (tabs y) !! s = Some b ->
  exists slot k3,
    ('(slot, k2) ← (k1 ← with_thread (put_endpoint (tabs y) ep p (Rendezvous.MkEndpoint l (Rendezvous.rcv_q (r_state p)) (Rendezvous.pend (r_state p)) (Rendezvous.bound (r_state p)))) s (set_outgoing None);
       collect_cap k1 t (outgoing_cap b));
     k3 ← (if is_reply (outgoing_cap b) then Done k2 else wake (on_handshake k2 s Handshake.serve) c s); Done (slot, k3)) = Done (slot, k3) /\
    inv (MkSys k3 (conts y)) /\ running k3 c t.
Proof.
  intros Hi Hrun Hp Hsl Hb. destruct (sender_cases y ep p s l Hi Hp Hsl) as (h & b0 & Hh & Hb0 & Hti & Hcase). assert (b0 = b) as -> by congruence.
  destruct (at_core_of _ _ y c t Hi Hrun) as (ht & bt & Hac & Htt). set (e' := Rendezvous.MkEndpoint _ _ _ _).
  assert (Hne : s <> t) by (intros ->; pose proof (ac_running _ _ _ _ _ Hac); pose proof (ac_hs _ _ _ _ _ Hac); destruct Hcase as [(_ & ? & _)|[(_ & ? & _)|(_ & ? & _)]]; congruence).
  unfold with_thread. cbn [tcbs put_endpoint set_rendezvous]. rewrite Hb. cbn [mbind run_bind]. set (k1 := set_tcbs _ _).
  destruct (collect_cap_spec k1 t bt (outgoing_cap b)) as (slot & tb & pk & Hc & Hpk & Hwf & Hslot).
  { cbn. rewrite lookup_insert_ne by done. apply Hac. } { exact (ti_tcb_ok _ _ _ _ _ Htt). }
  rewrite Hc. cbn [mbind run_bind]. cbn [k1 machine tcbs rendezvous_table notification_table set_tcbs put_endpoint set_rendezvous PEAK] in *.
  assert (exists i, tcb_ok pk t (set_table tb bt) /\ forall j x u, Capability.slots tb !! j = Some (Some x) -> Capability.object x = OReply u ->
    slots_of bt !! j = Some (Some x) \/ (place h = AtReply ep /\ j = i /\ u = s)) as (i & Htok & Hgive).
  { assert (Hok' : tcb_ok pk t bt) by (split; [by eapply wf_mono; [apply (ti_tcb_ok _ _ _ _ _ Htt)|]|apply (ti_tcb_ok _ _ _ _ _ Htt)]).
    destruct Hslot as [[_ ->]|(i & x & Hx & _ & Hi0 & Hs)]; [exists 0%nat; rewrite set_table_same; split; [done|by left]|]. exists i. split.
    - apply (tcb_ok_insert pk t bt tb i x Hok' Hwf Hs). intros u Hu. rewrite Hx in Hcase. destruct Hcase as [(_ & _ & Hf)|[(_ & _ & [= ->])|(_ & _ & ?)]]; [cbn in Hf; by rewrite Hu in Hf|done|done].
    - intros j x' u. rewrite Hs. intros [(<- & Hx' & _)|(_ & Hj)]%list_lookup_insert_Some Hu; [|by left]. injection Hx' as <-. right. rewrite Hx in Hcase.
      destruct Hcase as [(_ & _ & Hf)|[(Hpl & _ & [= ->])|(_ & _ & ?)]]; [cbn in Hf; by rewrite Hu in Hf|by injection Hu as <-|done]. }
  assert (Hdone : forall h' m', Scheduler.threads m' = <[s := h']> (hs (tabs y)) -> Scheduler.inv m' -> same_cores (machine (tabs y)) m' -> thread_inv (PEAK (tabs y)) s h' (set_outgoing None b) (conts y !! s) ->
    (place h = AtSenders ep /\ place h' = Nowhere) \/ (place h = AtReply ep /\ h' = h /\ outgoing_cap b = Some (reply_cap s)) \/ (place h = AsCorpse ep /\ place h' = AsCorpse ep /\ outgoing_cap b = None) ->
    let k3 := MkTables m' (<[t := set_table tb bt]> (<[s := set_outgoing None b]> (tcbs (tabs y)))) (<[ep := MkRendezvousPage (r_page p) e']> (rendezvous_table (tabs y))) (notification_table (tabs y)) pk in
    inv (MkSys k3 (conts y)) /\ running k3 c t).
  { intros h' m' Hth Hmi Hsc Hti' Hpl k3. split.
    - by apply (inv_collected y ep p s l h b h' m' t ht bt tb pk i Hi Hp Hsl Hh Hb Hth Hmi Hne (ac_hs _ _ _ _ _ Hac) (ac_tcb _ _ _ _ _ Hac) Hpk Htok Hti' Hpl Hgive).
    - apply (running_kept _ _ c t Hrun); cbn [k3 machine]; [done|]. by rewrite Hth, lookup_insert_ne. }
  destruct Hcase as [(Hpl & Hst & Ho)|[(Hpl & Hst & Ho)|(Hpl & Hst & Ho)]].
  2: { rewrite Ho. cbn [is_reply Capability.object reply_cap mbind run_bind]. eexists _, _. split; [done|]. apply (Hdone h); try done.
    - by rewrite insert_id.
    - apply (inv_machine _ _ _ Hi).
    - by apply ti_no_offer.
    - right. by left. }
  all: assert (is_reply (outgoing_cap b) = false) as -> by (by rewrite Ho).
  all: destruct (wake_effect (machine (tabs y)) c s h Handshake.serve (inv_machine _ _ _ Hi) (ac_core _ _ _ _ _ Hac) Hh Scheduler.flags_serve) as (m' & Hw & Hth & Hsc & Hmi).
  all: unfold wake, on_handshake; cbn [machine set_machine]; rewrite Hw; cbn [mbind run_bind]; eexists _, _; (split; [done|]); apply (Hdone _ m' Hth Hmi Hsc).
  - eapply ti_woken; [exact Hti|by left|done|done|exact (ti_tcb_ok _ _ _ _ _ Hti)].
  - left. split; [done|]. apply place_woken; [by left|congruence].
  - apply ti_no_offer. by apply ti_serve_dead.
  - right. right. split; [done|]. split; [|done]. rewrite place_dead; [done|by left|done].
Qed.
Lemma ipc_receive_cap_ok y c t ep : inv y -> running (tabs y) c t -> conts y !! t = None ->
  exists r k', ipc_receive_cap (tabs y) c ep = Done (r, k') /\ inv (MkSys k' (<[t := match r with Some msg => AfterReceive msg | None => InReceiveCap ep end]> (conts y))).
Proof.
  intros Hi Hrun Hfree. destruct (at_core_of _ _ y c t Hi Hrun) as (h & b & Hac & Hti). unfold ipc_receive_cap.
  rewrite (ac_current _ _ _ _ _ Hac). cbn [mbind run_bind]. rewrite (ac_tcb _ _ _ _ _ Hac).
  destruct (rendezvous_table (tabs y) !! ep) as [p|] eqn:Hp.
  2: { eexists _, _. split; [done|]. by apply (inv_abort_current y c t h b Hi Hac Hti Hfree (set_outgoing None)). }
  destruct (take_bound_signal (tabs y) t) as [[word k1]|] eqn:Htb.
  { destruct (take_bound_ok y t word k1 Hi Htb) as (Hi1 & Hm1 & Htc1). eexists _, _. split; [done|]. eapply (continue_after k1 c); [exact Hi1| |done..].
    apply (running_kept (tabs y) _ c t Hrun); rewrite Hm1; done. }
  destruct (ep_receive_cases (r_state p) t) as [(n & ->)|[(s & l & Hsl & ->)|[Hsl ->]]].
  - eexists _, _. split; [done|]. pose proof (inv_signal_taken y ep p n Hi Hp) as Hi1. by apply (continue_after _ c).
  - destruct (sender_cases y ep p s l Hi Hp Hsl) as (hs_ & bs & _ & Hbs & _). rewrite Hbs.
    destruct (collect_ok y c t ep p s l bs Hi Hrun Hp Hsl Hbs) as (slot & k3 & Hcol & Hi3 & Hrun3). cbv zeta. destruct (with_thread _ s _) as [k1|]; [|done]. cbn [mbind run_bind] in Hcol |- *.
    destruct (collect_cap k1 t _) as [[slot' k2]|]; [|done]. cbn [mbind run_bind] in Hcol |- *.
    destruct (if is_reply (outgoing_cap bs) then Done k2 else _) as [k3'|]; [|done]. cbn [mbind run_bind] in Hcol |- *. injection Hcol as -> ->.
    eexists _, _. split; [done|]. by apply (continue_after k3 c).
  - unfold with_thread. cbn [tcbs put_endpoint set_rendezvous]. rewrite (ac_tcb _ _ _ _ _ Hac). cbn [mbind run_bind].
    pose proof Hti as Hti'. rewrite Hfree in Hti'. erewrite (park_now y c t h b _ _ Hi Hac Hti') by done. cbn [mbind run_bind]. eexists _, _. split; [done|].
    by apply (inv_park_receiver y c t h b _ (InReceiveCap ep) ep p _ Hi Hac Hti Hfree Hp Hsl).
Qed.
(** ** Other threads *)

(** A blocked thread is served or aborted and woken. *)
Lemma sys_woken D P D' P' y k1 t h b b' f : inv_with D P y -> hs (tabs y) !! t = Some h -> tcbs (tabs y) !! t = Some b -> Handshake.state h = Handshake.Blocked ->
  f = Handshake.serve \/ f = Handshake.abort -> Scheduler.threads (machine k1) = <[t := woken (f h)]> (hs (tabs y)) -> Scheduler.inv (machine k1) ->
  tcbs k1 = <[t := b']> (tcbs (tabs y)) -> PEAK k1 = PEAK (tabs y) -> capability_table b' = capability_table b -> outgoing_cap b' = None ->
  (forall s i, ~ holds y s i t) -> queues_ok D' P' k1 -> inv_with D' P' (MkSys k1 (conts y)).
Proof.
  intros Hi Hh Hb Hblk Hf Hm Hmi Htc Hpk Htb Ho Hun Hq. pose proof (inv_threads _ _ _ Hi t h b Hh Hb) as Hti.
  apply (sys_update D P D' P' y _ [t] Hi); cbn [tabs conts]; try done.
  - lia.
  - intros u Hu%not_elem_of_cons. rewrite Hm, Htc, !lookup_insert_ne by (destruct Hu; congruence). done.
  - intros u ->%list_elem_of_singleton. exists (woken (f h)), b'. rewrite Hm, Htc, !lookup_insert_eq, Hpk. split; [done|]. split; [done|].
    eapply ti_woken; [exact Hti|done|done|done|]. unfold tcb_ok. rewrite Htb. exact (ti_tcb_ok _ _ _ _ _ Hti).
  - assert (Hback : forall s i u, holds (MkSys k1 (conts y)) s i u -> holds y s i u).
    { intros s i u. apply holds_back. split; [|done]. cbn [tabs]. rewrite Htc. intros s0 b0. destruct (decide (t = s0)) as [<-|Hne].
      + rewrite lookup_insert_eq. intros [= <-]. exists b. split; [done|]. unfold slots_sub. by rewrite Htb.
      + rewrite lookup_insert_ne by done. intros Hb'. exists b0. split; [done|]. by intros ?. }
    apply (replies_move y _ t (inv_replies _ _ _ Hi)); cbn [tabs]; [done| |].
    + intros u Hu. apply quiet_same; rewrite ?Hm, ?Htc; by rewrite lookup_insert_ne.
    + right. intros s i Hx%Hback. by apply Hun in Hx.
Qed.

(** A field the invariant does not mention changes. *)
Lemma sys_field D P y t b g : inv_with D P y -> tcbs (tabs y) !! t = Some b -> capability_table (g b) = capability_table b -> outgoing_cap (g b) = outgoing_cap b ->
  fault_ep (g b) = fault_ep b -> inv_with D P (MkSys (if_thread (tabs y) t g) (conts y)).
Proof.
  intros Hi Hb Htb Ho Hf. destruct (proj1 (inv_dom _ _ _ Hi t)) as [h Hh]; [eauto|]. pose proof (inv_threads _ _ _ Hi t h b Hh Hb) as Hti.
  assert (Htc : tcbs (if_thread (tabs y) t g) = <[t := g b]> (tcbs (tabs y))) by by apply alter_is_insert.
  assert (Hquiet : forall u, quiet (tabs y) (if_thread (tabs y) t g) u).
  { intros u. split; [done|]. intros b'. rewrite Htc. destruct (decide (t = u)) as [<-|Hne]; [|rewrite lookup_insert_ne by done; eauto].
    rewrite lookup_insert_eq. intros [= <-]. eauto. }
  apply (sys_update D P D P y _ [t] Hi); cbn [tabs conts]; try done.
  - apply (inv_machine _ _ _ Hi).
  - intros u Hu%not_elem_of_cons. rewrite Htc, lookup_insert_ne by (destruct Hu; congruence). done.
  - intros u ->%list_elem_of_singleton. exists h, (g b). rewrite Htc, lookup_insert_eq. split; [done|]. split; [done|]. cbn [if_thread set_tcbs PEAK].
    destruct Hti as [H1 H2 H3 H4 H5 H6 H7 H8 H9 H10 H11]. constructor; try done; rewrite ?Ho, ?Htb; done.
  - apply (queues_still D P (tabs y)); try done; [apply (inv_queues _ _ _ Hi)|exact (queues_distinct _ _ _ (inv_queues _ _ _ Hi))].
  - apply (replies_move y _ t (inv_replies _ _ _ Hi)); cbn [tabs]; [|by intros|by left].
    intros s i u. apply holds_back. split; [|done]. cbn [tabs]. rewrite Htc. intros s0 b0. destruct (decide (t = s0)) as [<-|Hne].
    + rewrite lookup_insert_eq. intros [= <-]. exists b. split; [done|]. unfold slots_sub. by rewrite Htb.
    + rewrite lookup_insert_ne by done. intros Hb'. exists b0. split; [done|]. by intros ?.
Qed.
End IpcInvariant.
