(* ===== verification/IpcQueues.v ===== *)
(** * How the sender queues move (kernel/src/sched.rs)

    What each path of the kernel's IPC does to the threads that wait at an endpoint
    to be received: every path leaves the queues as they are or puts the thread it acts
    for behind them, a receive takes the head of one, and nothing else touches them but
    the teardown of a region. *)

From S2P Require Import Prelude Capability IntrusiveFifo Rendezvous Notification Handshake Scheduler Revocation MappingCalls KernelIpc IpcInvariant.
Local Open Scope Z_scope.

Module IpcQueues.
Import Revocation KernelIpc IpcInvariant.

(** Opens the next test, bind or result of a path that completed. *)
Ltac open_path H :=
  match type of H with
  | Panicked = Done _ => discriminate H
  | Done _ = Done _ => injection H; clear H; intros; subst
  | mbind _ ?x = Done _ => let E := fresh "E" in destruct x eqn:E; cbn [mbind run_bind] in H; [|discriminate H]
  | (match ?x with _ => _ end) = Done _ => let E := fresh "E" in destruct x eqn:E; cbn [mbind run_bind] in H; try discriminate H
  end.

Abbreviation senders p := (Rendezvous.snd_q (r_state p)).

(** Every endpoint stays, and what its sender queue gained is at the end and is [who]. *)
Definition grows (who : option Z) (k k' : IpcTables) : Prop :=
  forall ep p, rendezvous_table k !! ep = Some p ->
    exists p' tl, rendezvous_table k' !! ep = Some p' /\ senders p' = senders p ++ tl /\ Forall (fun t => who = Some t) tl.

(** The head of [ep]'s sender queue is taken, and the other queues stay. *)
Definition takes (ep s : Z) (k k' : IpcTables) : Prop :=
  (exists p p', rendezvous_table k !! ep = Some p /\ rendezvous_table k' !! ep = Some p' /\ senders p = s :: senders p') /\
  forall ep' p, ep' <> ep -> rendezvous_table k !! ep' = Some p -> rendezvous_table k' !! ep' = Some p.

Lemma grows_sending who k k' ep t : grows who k k' -> sending k ep t -> sending k' ep t.
Proof. intros Hg (p & Hp & Ht). destruct (Hg ep p Hp) as (p' & tl & Hp' & Hq & _). exists p'. split; [done|]. rewrite Hq. set_solver. Qed.

Lemma takes_sending ep s k k' ep' t : takes ep s k k' -> sending k ep' t -> sending k' ep' t \/ (ep' = ep /\ t = s).
Proof.
  intros [(p & p' & Hp & Hp' & Hq) Ho] (q & Hpq & Ht). destruct (decide (ep' = ep)) as [->|Hne]; [|left; exists q; eauto].
  rewrite Hp in Hpq. injection Hpq as <-. rewrite Hq in Ht. apply elem_of_cons in Ht as [->|Ht]; [by right|left; by exists p'].
Qed.

Section paths.
Context (who : option Z) (k0 : IpcTables).

Lemma gr_same k k' : grows who k0 k -> rendezvous_table k' = rendezvous_table k -> grows who k0 k'.
Proof. intros Hg Hr ep p Hp. rewrite Hr. by apply Hg. Qed.

Lemma gr_refl : grows who k0 k0.
Proof. intros ep p Hp. exists p, []. by rewrite app_nil_r. Qed.

Lemma gr_put k ep p e tl : grows who k0 k -> rendezvous_table k !! ep = Some p -> Rendezvous.snd_q e = senders p ++ tl -> Forall (fun t => who = Some t) tl ->
  grows who k0 (put_endpoint k ep p e).
Proof.
  intros Hg Hp He Htl ep' q Hq. cbn. destruct (decide (ep = ep')) as [<-|Hne]; [|rewrite lookup_insert_ne by done; by apply Hg].
  destruct (Hg ep q Hq) as (p1 & tl1 & Hp1 & Hq1 & Hf1). rewrite Hp in Hp1. injection Hp1 as <-. rewrite lookup_insert_eq. eexists _, (tl1 ++ tl). split; [done|]. cbn.
  rewrite He, Hq1, app_assoc. split; [done|by apply Forall_app].
Qed.

(** The same queue of senders. *)
Lemma gr_keep k ep p e : grows who k0 k -> rendezvous_table k !! ep = Some p -> Rendezvous.snd_q e = senders p -> grows who k0 (put_endpoint k ep p e).
Proof. intros Hg Hp He. apply (gr_put k ep p e []); [done|done|by rewrite app_nil_r|done]. Qed.

Lemma gr_wake k c t k' : grows who k0 k -> wake k c t = Done k' -> grows who k0 k'.
Proof. intros Hg H. unfold wake in H. repeat open_path H. by apply (gr_same k). Qed.

Lemma gr_park k c w k' : grows who k0 k -> park k c w = Done k' -> grows who k0 k'.
Proof. intros Hg H. unfold park in H. repeat open_path H. by apply (gr_same k). Qed.

Lemma gr_with k t f k' : grows who k0 k -> with_thread k t f = Done k' -> grows who k0 k'.
Proof. intros Hg H. unfold with_thread in H. repeat open_path H. by apply (gr_same k). Qed.

Lemma gr_hand_over k c r f k' : grows who k0 k -> hand_over k c r f = Done k' -> grows who k0 k'.
Proof. intros Hg H. unfold hand_over in H. repeat open_path H. eapply gr_wake; [|exact H]. eapply (gr_same a); [|done]. by eapply gr_with. Qed.

Lemma gr_insert_cap k t cap slot k' : grows who k0 k -> insert_cap k t cap = Done (slot, k') -> grows who k0 k'.
Proof. intros Hg H. unfold insert_cap in H. destruct (tcbs k !! t); [|done]. destruct (Capability.insert _ _ _). injection H as _ <-. by apply (gr_same k). Qed.

Lemma gr_sweep k caller k' : grows who k0 k -> delete_reply_caps_naming k caller = Done k' -> grows who k0 k'.
Proof. intros Hg H. unfold delete_reply_caps_naming in H. cbv zeta in H. repeat open_path H. by apply (gr_same k). Qed.
End paths.

(** What one call to an endpoint makes of the senders. *)
Lemma send_senders e me s e' : ep_send e me = (s, e') -> exists tl, Rendezvous.snd_q e' = Rendezvous.snd_q e ++ tl /\ Forall (fun t => Some me = Some t) tl.
Proof.
  unfold ep_send. cbn. destruct (Rendezvous.bound e), (Rendezvous.rcv_q e); intros [= <- <-]; cbn.
  4: exists []. 1, 2: exists []. 1-2,4: by rewrite app_nil_r. exists [me]. split; [done|by repeat constructor].
Qed.

Lemma signal_senders e s e' : ep_signal e = (s, e') -> Rendezvous.snd_q e' = Rendezvous.snd_q e.
Proof. unfold ep_signal. cbn. by destruct (Rendezvous.rcv_q e); intros [= <- <-]. Qed.

(** Peels the last write or the last call that completed. *)
Ltac settle := repeat lazymatch goal with
  | H : wake _ _ _ = Done ?k |- grows _ _ ?k => eapply gr_wake; [clear H|exact H]
  | H : park _ _ _ = Done ?k |- grows _ _ ?k => eapply gr_park; [clear H|exact H]
  | H : hand_over _ _ _ _ = Done ?k |- grows _ _ ?k => eapply gr_hand_over; [clear H|exact H]
  | H : with_thread _ _ _ = Done ?k |- grows _ _ ?k => eapply gr_with; [clear H|exact H]
  | H : insert_cap _ _ _ = Done (_, ?k) |- grows _ _ ?k => eapply gr_insert_cap; [clear H|exact H]
  | H : delete_reply_caps_naming _ _ = Done ?k |- grows _ _ ?k => eapply gr_sweep; [clear H|exact H]
  | |- grows _ _ (set_machine ?k _) => apply (gr_same _ _ k); [|reflexivity]
  | |- grows _ _ (on_handshake ?k _ _) => apply (gr_same _ _ k); [|reflexivity]
  | |- grows _ _ (put_cell ?k _ _ _) => apply (gr_same _ _ k); [|reflexivity]
  | |- grows _ _ (set_notifications ?k _) => apply (gr_same _ _ k); [|reflexivity]
  | |- grows _ _ (set_ipc_refused ?k _) => apply (gr_same _ _ k); [|reflexivity]
  | |- grows _ _ (set_ipc_aborted ?k _) => apply (gr_same _ _ k); [|reflexivity]
  | |- grows _ _ (if_thread ?k _ _) => apply (gr_same _ _ k); [|reflexivity]
  | |- grows _ _ (set_tcbs ?k _) => apply (gr_same _ _ k); [|reflexivity]
  | H : ep_send (r_state ?p) ?me = (_, ?e) |- grows (Some ?me) _ (put_endpoint _ _ ?p ?e) =>
      let tl := fresh "tl" in let H1 := fresh in let H2 := fresh in destruct (send_senders _ _ _ _ H) as (tl & H1 & H2); eapply gr_put; [clear H H1 H2|eassumption|exact H1|exact H2]
  | H : ep_signal (r_state ?p) = (_, ?e) |- grows _ _ (put_endpoint _ _ ?p ?e) => eapply gr_keep; [|eassumption|by eapply signal_senders]
  | H : grows ?w ?k0 ?k |- grows ?w ?k0 ?k => exact H
  | |- grows _ ?k ?k => apply gr_refl
  end.

Section calls.
Context (who : option Z).

Lemma gr_irq k c ep k' : irq_notify k c ep = Done k' -> grows who k k'.
Proof. intros H. unfold irq_notify in H. repeat open_path H; settle. Qed.

Lemma gr_strand k0 k c t r k' : grows who k0 k -> strand_reply_caller k c t = Done (r, k') -> grows who k0 k'.
Proof. intros Hg H. unfold strand_reply_caller in H. repeat open_path H; settle. Qed.

Lemma gr_strand_each k0 l : forall k c k', grows who k0 k -> strand_each k c l = Done k' -> grows who k0 k'.
Proof. induction l as [|t l IH]; intros k c k' Hg H; cbn [strand_each] in H; repeat open_path H; [done|]. eapply IH; [|exact H]. by eapply gr_strand. Qed.

Lemma gr_strand_of k0 k c t k' : grows who k0 k -> strand_callers_of k c t = Done k' -> grows who k0 k'.
Proof. intros Hg H. unfold strand_callers_of in H. repeat open_path H; try done. by eapply gr_strand_each. Qed.

Lemma gr_deliver_bound k0 k t ep word k' : grows who k0 k -> deliver_bound k t ep word = Done k' -> grows who k0 k'.
Proof. intros Hg H. unfold deliver_bound in H. repeat open_path H; settle. by eapply gr_keep. Qed.

Lemma gr_wake_placed k0 k c t p k' : grows who k0 k -> wake_placed k c t p = Done k' -> grows who k0 k'.
Proof. intros Hg H. unfold wake_placed in H. repeat open_path H; settle. Qed.

Lemma gr_signal k c id bits pl r k' : signal_locked k c id bits pl = Done (r, k') -> grows who k k'.
Proof.
  intros H. unfold signal_locked in H. cbv zeta in H. repeat open_path H; settle.
  - eapply gr_wake_placed; [|eassumption]. settle.
  - eapply gr_wake_placed; [|eassumption]. eapply gr_deliver_bound; [|eassumption]. settle.
Qed.

Lemma gr_bind k c id t r k' : notification_bind k c id t = Done (r, k') -> grows who k k'.
Proof. intros H. unfold notification_bind in H. cbv zeta in H. repeat open_path H; settle. eapply gr_deliver_bound; [|eassumption]. settle. Qed.

Lemma gr_grant k c target cap r k' : grant k c target cap = Done (r, k') -> grows who k k'.
Proof.
  intros H. unfold grant in H. open_path H. destruct (tcbs k !! a); [|injection H as _ <-; apply gr_refl]. cbv zeta in H.
  destruct target; [destruct (Capability.insert_at _ _ _ _)|destruct (Capability.insert _ _ _)]; injection H as _ <-; (apply (gr_same _ _ k); [apply gr_refl|done]).
Qed.

Lemma gr_resume k c co n k' : resume k c co = Done (n, k') -> grows who k k'.
Proof.
  intros H. apply (gr_same _ _ k); [apply gr_refl|]. unfold resume, refuse in H. open_path H.
  assert (Ha : rendezvous_table (take_aborted k a).2 = rendezvous_table k) by (unfold take_aborted; destruct (handshake_of k a); [by destruct (Handshake.take_aborted _)|done]).
  destruct (take_aborted k a) as [ab k1]. cbn [snd] in Ha.
  assert (Hb : rendezvous_table (aborted_send_error k1 a).2 = rendezvous_table k1) by (unfold aborted_send_error; by destruct (tcbs k1 !! a)).
  destruct (aborted_send_error k1 a) as [e k2]. cbn [snd] in Hb. destruct co; repeat open_path H; try done; try congruence.
  - unfold notification_wait_resume in E0. by repeat open_path E0.
  - unfold delete_cap. by destruct (tcbs k !! a).
Qed.
End calls.

Section acting.
Context (k : IpcTables) (c : nat) (t : Z) (Hcur : current_thread_id k c = Done t).

Lemma gr_send ep a0 a1 a2 badge r k' : ipc_send_badged k c ep a0 a1 a2 badge = Done (r, k') -> grows (Some t) k k'.
Proof. intros H. unfold ipc_send_badged in H. cbv zeta in H. rewrite Hcur in H. cbn [mbind run_bind] in H. repeat open_path H; settle. Qed.

Lemma gr_send_cap ep data cap badge r k' : ipc_send_cap k c ep data cap badge = Done (r, k') -> grows (Some t) k k'.
Proof. intros H. unfold ipc_send_cap in H. rewrite Hcur in H. cbn [mbind run_bind] in H. repeat open_path H; settle. Qed.

Lemma gr_call ep a0 a1 badge r k' : ipc_call_badged k c ep a0 a1 badge = Done (r, k') -> grows (Some t) k k'.
Proof. intros H. unfold ipc_call_badged in H. rewrite Hcur in H. cbn [mbind run_bind] in H. repeat open_path H; settle. Qed.

Lemma gr_depart event pc addr k' : depart k c event pc addr = Done k' -> grows (Some t) k k'.
Proof.
  intros H. unfold depart in H. cbv zeta in H. rewrite Hcur in H. cbn [mbind run_bind] in H. open_path H. eapply (gr_strand_of (Some t) k) in E; [|apply gr_refl]. repeat open_path H; settle.
  unfold deliver_death in H. repeat open_path H; settle.
Qed.
End acting.

(** ** Receiving *)

(** What a receive answers with: a signal or nothing yet, and no queue is shorter; or
    the message of the thread at the head of the queue, which leaves it. *)
Definition receives (ep : Z) (k : IpcTables) (r : option Msg) (k' : IpcTables) : Prop :=
  grows None k k' \/ exists s b msg, takes ep s k k' /\ tcbs k !! s = Some b /\ r = Some msg /\ w0 msg = w0 (mailbox b) /\ w3 msg = w3 (mailbox b).

Lemma receive_senders e me s e' : ep_receive e me = (s, e') ->
  match s with Rendezvous.FromSender t => Rendezvous.snd_q e = t :: Rendezvous.snd_q e' | _ => Rendezvous.snd_q e' = Rendezvous.snd_q e end.
Proof. unfold ep_receive. cbn. destruct (0 <? Rendezvous.pend e); [by intros [= <- <-]|]. destruct (Rendezvous.snd_q e) eqn:Hq; intros [= <- <-]; cbn; by rewrite ?Hq. Qed.

Lemma takes_put k ep p e s : rendezvous_table k !! ep = Some p -> senders p = s :: Rendezvous.snd_q e -> takes ep s k (put_endpoint k ep p e).
Proof.
  intros Hp Hq. split.
  - exists p. eexists. split; [done|]. cbn. by rewrite lookup_insert_eq.
  - intros ep' q Hne Hq'. cbn. by rewrite lookup_insert_ne.
Qed.

Lemma takes_same ep s k k1 k' : takes ep s k k1 -> rendezvous_table k' = rendezvous_table k1 -> takes ep s k k'.
Proof. intros Ht Hr. unfold takes. rewrite Hr. exact Ht. Qed.

Lemma gr_take_bound who k t w k' : take_bound_signal k t = Some (w, k') -> grows who k k'.
Proof.
  intros H. unfold take_bound_signal in H. destruct (tcbs k !! t) as [b|]; [|done]. cbn [mbind option_bind] in H. destruct (bound_notification b) as [id|]; [|done]. cbn [mbind option_bind] in H.
  destruct (notification_table k !! id) as [p|] eqn:Hp; [|done]. cbn [mbind option_bind] in H. destruct (note_poll _) as [word e]. destruct (word =? 0); [done|]. injection H as _ <-. settle.
Qed.

Lemma wake_ends k c t k' : wake k c t = Done k' -> rendezvous_table k' = rendezvous_table k.
Proof. intros H. unfold wake in H. by repeat open_path H. Qed.

Lemma release_ends k c s k' : release_sender k c s = Done k' -> rendezvous_table k' = rendezvous_table k.
Proof. intros H. unfold release_sender in H. cbv zeta in H. repeat open_path H; [by destruct (bool_decide _)|]. by apply wake_ends in H. Qed.

Lemma receive_moves k c ep r k' : ipc_receive k c ep = Done (r, k') -> receives ep k r k'.
Proof.
  intros H. unfold ipc_receive in H. repeat open_path H; try (left; settle; fail).
  - left. by eapply gr_take_bound.
  - left. settle. eapply gr_keep; [apply gr_refl|done|]. match goal with E : ep_receive _ _ = _ |- _ => by apply receive_senders in E end.
  - right. match goal with E : ep_receive _ _ = _ |- _ => apply receive_senders in E end. eexists _, _, _. split; [|done]. eapply takes_same; [by apply takes_put|]. match goal with H : release_sender _ _ _ = Done _ |- _ => by apply release_ends in H end.
  - left. settle. eapply gr_keep; [apply gr_refl|done|]. match goal with E : ep_receive _ _ = _ |- _ => by apply receive_senders in E end.
Qed.

Lemma collect_ends k t cap slot k' : collect_cap k t cap = Done (slot, k') -> rendezvous_table k' = rendezvous_table k.
Proof. unfold collect_cap, insert_cap. destruct cap; [|by intros [= _ <-]]. destruct (tcbs k !! t); [|done]. destruct (Capability.insert _ _ _). by intros [= _ <-]. Qed.

Lemma receive_cap_moves k c ep r k' : ipc_receive_cap k c ep = Done (r, k') -> receives ep k r k'.
Proof.
  intros H. unfold ipc_receive_cap in H. cbv zeta in H. repeat open_path H; try (left; settle; fail).
  1: left; by eapply gr_take_bound.
  1: left; settle; eapply gr_keep; [apply gr_refl|done|]; match goal with E : ep_receive _ _ = _ |- _ => by apply receive_senders in E end.
  2: left; settle; eapply gr_keep; [apply gr_refl|done|]; match goal with E : ep_receive _ _ = _ |- _ => by apply receive_senders in E end.
  all: right; match goal with E : ep_receive _ _ = _ |- _ => apply receive_senders in E end; eexists _, _, _; split; [|done]; eapply takes_same; [by apply takes_put|].
  all: match goal with H : collect_cap _ _ _ = Done _, G : with_thread _ _ _ = Done _ |- _ => apply collect_ends in H; unfold with_thread in G; repeat open_path G end; cbn in *.
  all: repeat match goal with E : _ = Done _ |- _ => progress repeat open_path E | E : wake _ _ _ = Done _ |- _ => apply wake_ends in E end; cbn in *; congruence.
Qed.

Lemma grows_any who k k' : grows None k k' -> grows who k k'.
Proof. intros Hg ep p Hp. destruct (Hg ep p Hp) as (p' & tl & Hp' & Hq & Hf). exists p', tl. split_and!; [done|done|]. by eapply Forall_impl. Qed.

Lemma gr_wait who k c id r k' : notification_wait k c id = Done (r, k') -> grows who k k'.
Proof. intros H. unfold notification_wait in H. repeat open_path H; settle. Qed.

Lemma gr_reply who k c caller a0 a1 k' : ipc_reply k c caller a0 a1 = Done k' -> grows who k k'.
Proof. intros H. unfold ipc_reply in H. repeat open_path H; settle. Qed.

(** A method a thread invokes is a receive that takes the head of the queue of the
    endpoint the slot names and returns with its message, or it takes nobody. *)
Definition took_head (k : IpcTables) (t slot : Z) (m : Method) (n : Next) (k' : IpcTables) (ep s : Z) : Prop :=
  (m = RECEIVE \/ m = RECEIVE_CAP) /\ takes ep s k k' /\
  (exists cap badge, current_cap k t slot = Some cap /\ Capability.object cap = ORendezvous ep badge /\ Capability.allows (Capability.rights cap) Capability.READ = true) /\
  exists b msg, tcbs k !! s = Some b /\ n = Continue (AfterReceive msg) /\ w0 msg = w0 (mailbox b) /\ w3 msg = w3 (mailbox b).

Lemma invoke_moves k c t slot m n k' : current_thread_id k c = Done t -> invoke k c slot m = Done (n, k') ->
  grows (Some t) k k' \/ exists ep s, took_head k t slot m n k' ep s.
Proof.
  intros Hcur H. unfold invoke, refuse in H. rewrite Hcur in H. cbn [mbind run_bind] in H. destruct (current_cap k t slot) as [[o rights]|] eqn:Hcap; [|injection H as _ <-; left; apply gr_refl].
  cbn [Capability.object Capability.rights] in H. destruct o; try (injection H as _ <-; left; apply gr_refl).
  - unfold invoke_rendezvous, refuse in H. cbv zeta in H. destruct m; try (injection H as _ <-; left; apply gr_refl).
    6: { left. unfold rendezvous_badge, refuse in H. repeat open_path H; [apply gr_refl|]. by eapply gr_grant. }
    all: destruct (Capability.allows rights _) eqn:Hr; cbn [negb] in H; [|injection H as _ <-; left; apply gr_refl].
    + left. repeat open_path H; by eapply gr_send.
    + repeat open_path H; match goal with E : ipc_receive _ _ _ = _ |- _ => destruct (receive_moves _ _ _ _ _ E) as [Hg|(s & b & msg & Ht & Hb & Hm & Hw)] end; [left; by apply grows_any|].
      right. eexists _, s. split; [by left|]. split; [done|]. split; [by eexists _, _|]. exists b, msg. by rewrite Hm.
    + left. repeat open_path H; try apply gr_refl; by eapply gr_send_cap.
    + repeat open_path H; match goal with E : ipc_receive_cap _ _ _ = _ |- _ => destruct (receive_cap_moves _ _ _ _ _ E) as [Hg|(s & b & msg & Ht & Hb & Hm & Hw)] end; [left; by apply grows_any|].
      right. eexists _, s. split; [by right|]. split; [done|]. split; [by eexists _, _|]. exists b, msg. by rewrite Hm.
    + left. repeat open_path H; by eapply gr_call.
  - left. unfold invoke_reply, refuse in H. destruct m; repeat open_path H; try apply gr_refl. by eapply gr_reply.
  - left. unfold invoke_notification, refuse in H. cbv zeta in H. destruct m; repeat open_path H; try apply gr_refl.
    + by eapply gr_signal.
    + by eapply gr_wait.
    + unfold notification_poll in *. destruct (notification_table k !! id) eqn:Hn; [|by injection E0 as _ <-; apply gr_refl]. destruct (note_poll _). injection E0 as _ <-. settle.
    + by eapply gr_bind.
Qed.
End IpcQueues.
