(* ===== verification/IpcTeardown.v ===== *)
(** * IPC: signals, departures and teardown (kernel/src/sched.rs)

    That interrupts, notifications, a thread's end and the reaping of a region
    never panic and keep [IpcInvariant.inv]. *)

From S2P Require Import Prelude Capability IntrusiveFifo Rendezvous Notification Handshake Scheduler Revocation MappingCalls KernelIpc IpcInvariant.
Local Open Scope Z_scope.

Module IpcTeardown.
Import Revocation KernelIpc IpcInvariant.
#[local] Existing Instance Handshake.RunState_eq_dec.
#[local] Existing Instance KernelIpc.Wait_eq_dec.

(** ** Signals *)

Lemma wake_placed_effect k c t h pl : Scheduler.inv (machine k) -> is_Some (Scheduler.cpus (machine k) !! c) -> hs k !! t = Some h ->
  exists m', wake_placed (on_handshake k t Handshake.serve) c t pl = Done (set_machine k m') /\
    Scheduler.threads m' = <[t := woken (Handshake.serve h)]> (hs k) /\ same_cores (machine k) m' /\ Scheduler.inv m'.
Proof.
  intros Hi Hc Hh. destruct pl; cbn [wake_placed].
  - destruct (wake_effect (machine k) c t h Handshake.serve Hi Hc Hh Scheduler.flags_serve) as (m' & Hw & Hr). exists m'. split; [|done].
    unfold wake, on_handshake. cbn [machine set_machine]. by rewrite Hw.
  - destruct (wake_load_aware_effect (machine k) c t h Handshake.serve Hi Hc Hh Scheduler.flags_serve) as (m' & Hw & Hr). exists m'. split; [|done].
    unfold on_handshake. cbn [machine set_machine]. by rewrite Hw.
Qed.

Lemma unheld D P y t : inv_with D P y -> (forall ep, place_at (tabs y) t <> AtReply ep) -> forall s i, ~ holds y s i t.
Proof. intros Hi Hp. by apply not_awaiting_unheld; [apply (inv_replies _ _ _ Hi)|]. Qed.

(** A receiver is taken off its endpoint and given a message. *)
Lemma receiver_signalled y c ep p e' r msg pl : inv y -> is_Some (Scheduler.cpus (machine (tabs y)) !! c) -> rendezvous_table (tabs y) !! ep = Some p ->
  receiving (tabs y) ep r -> without_receiver (r_state p) e' r ->
  exists k', (k1 ← with_thread (put_endpoint (tabs y) ep p e') r (set_mailbox msg); wake_placed (on_handshake k1 r Handshake.serve) c r pl) = Done k' /\
    inv (MkSys k' (conts y)).
Proof.
  intros Hi Hc Hp Hrcv Hwo. pose proof (proj1 (q_receivers _ _ _ (inv_queues _ _ _ Hi) ep r) Hrcv) as [Hpl _].
  destruct (placed_thread _ _ y r Hi) as (h & b & Hh & Hb & Hph & Hti); [congruence|]. unfold with_thread. cbn [tcbs put_endpoint set_rendezvous]. rewrite Hb. cbn [mbind run_bind].
  set (k1 := set_tcbs _ _). destruct (wake_placed_effect k1 c r h pl (inv_machine _ _ _ Hi) Hc Hh) as (m' & -> & Hth & Hsc & Hmi). eexists. split; [done|].
  apply (inv_receiver_served y ep p e' r h b (set_mailbox msg b) m' (PEAK (tabs y)) Hi Hp Hrcv Hwo Hh Hb Hth Hmi); try done.
  - exact (ti_tcb_ok _ _ _ _ _ Hti).
  - by intros ?.
Qed.

Lemma irq_notify_ok y c ep : inv y -> is_Some (Scheduler.cpus (machine (tabs y)) !! c) -> exists k', irq_notify (tabs y) c ep = Done k' /\ inv (MkSys k' (conts y)).
Proof.
  intros Hi Hc. unfold irq_notify. destruct (rendezvous_table (tabs y) !! ep) as [p|] eqn:Hp; [|exists (tabs y); split; [done|by destruct y]].
  unfold ep_signal. cbn [Rendezvous.spec_call]. destruct (Rendezvous.rcv_q (r_state p)) as [|r l] eqn:Hr.
  - eexists. split; [done|]. pose proof (inv_signal_taken y ep p (saturating_add 32 (Rendezvous.pend (r_state p)) 1) Hi Hp) as Hy. by rewrite Hr in Hy.
  - assert (Hrcv : receiving (tabs y) ep r) by (exists p; rewrite Hr; split; [done|constructor]).
    destruct (receiver_signalled y c ep p _ r (MkMsg 1 0 0 0 0) LoadAware Hi Hc Hp Hrcv (without_head _ r l (proj2 (q_distinct _ _ _ (inv_queues _ _ _ Hi) ep p Hp)) Hr)) as (k' & Hk & Hi').
    destruct (with_thread _ r _) as [k1|]; [|done]. cbn [mbind run_bind wake_placed] in Hk |- *. destruct (Scheduler.wake_load_aware _ c r) as [m'|]; [|done].
    cbn [mbind run_bind] in Hk |- *. injection Hk as <-. by eexists.
Qed.
(** The bound thread, found parked, is on the endpoint it waits on. *)
Lemma bound_receiver_placed k p t ep : bound_receiver k p = Some (t, ep) -> n_bound p = Some t /\ place_at k t = AtReceivers ep.
Proof.
  unfold bound_receiver, handshake_of, place_at. destruct (n_bound p) as [u|]; [|done]. cbn [mbind option_bind]. destruct (hs k !! u) as [h|] eqn:Hh; [|done]. cbn [mbind option_bind].
  destruct (Handshake.wait_on h) as [[ep' []|]|] eqn:Hw; try done. destruct (bool_decide (Handshake.state h = Handshake.Blocked)) eqn:Hb; [|done].
  apply bool_decide_eq_true in Hb. cbn [andb]. destruct (Handshake.is_delivered h) eqn:Hd; [done|]. intros [= <- <-]. rewrite Hh. unfold place. rewrite Hb, Hw, Hd. done.
Qed.

Lemma without_removed e t : NoDup (Rendezvous.rcv_q e) -> without_receiver e (ep_remove_receiver e t) t.
Proof.
  intros Hnd. unfold ep_remove_receiver. cbn [Rendezvous.spec_call snd]. split; [done|]. cbn [Rendezvous.rcv_q]. unfold Rendezvous.without.
  split; [by apply NoDup_filter|]. intros u. rewrite list_elem_of_filter. tauto.
Qed.

Lemma deliver_bound_ok y c t ep word pl : inv y -> is_Some (Scheduler.cpus (machine (tabs y)) !! c) -> place_at (tabs y) t = AtReceivers ep ->
  exists k', (k1 ← deliver_bound (tabs y) t ep word; wake_placed k1 c t pl) = Done k' /\ inv (MkSys k' (conts y)).
Proof.
  intros Hi Hc Hpl. pose proof (inv_queues _ _ _ Hi) as Hq. destruct (placed_thread _ _ y t Hi) as (h & b & Hh & Hb & Hph & Hti); [congruence|].
  assert (Hrcv : receiving (tabs y) ep t) by (apply (q_receivers _ _ _ Hq); split; [done|apply not_elem_of_nil]). pose proof Hrcv as (p & Hp & Hin).
  unfold deliver_bound. rewrite Hb, Hp, bool_decide_true by done.
  destruct (receiver_signalled y c ep p _ t (bound_delivery word) pl Hi Hc Hp Hrcv (without_removed _ t (proj2 (q_distinct _ _ _ Hq ep p Hp)))) as (k' & Hk & Hi').
  destruct (with_thread _ t _) as [k1|]; [|done]. cbn [mbind run_bind] in Hk |- *. by exists k'.
Qed.

(** The first waiter is given the word. *)
Lemma waiter_signalled y c id p t l word bits pl : inv y -> is_Some (Scheduler.cpus (machine (tabs y)) !! c) -> notification_table (tabs y) !! id = Some p ->
  Notification.queue (n_state p) = t :: l ->
  exists k', (k1 ← with_thread (put_cell (tabs y) id p (Notification.MkCell bits l)) t (set_mailbox word); wake_placed (on_handshake k1 t Handshake.serve) c t pl) = Done k' /\
    inv (MkSys k' (conts y)).
Proof.
  intros Hi Hc Hp Hl. pose proof (inv_queues _ _ _ Hi) as Hq. assert (Hno : noticing (tabs y) id t) by (exists p; rewrite Hl; split; [done|constructor]).
  pose proof (proj1 (q_waiters _ _ _ Hq id t) Hno) as [Hpl _]. pose proof (q_distinct_notes _ _ _ Hq id p Hp) as Hnd. rewrite Hl in Hnd. apply NoDup_cons in Hnd as [Hnot Hnd].
  destruct (placed_thread _ _ y t Hi) as (h & b & Hh & Hb & Hph & Hti); [congruence|]. destruct (place_blocked h) as [Hblk _]; [exists id; rewrite Hph; tauto|].
  unfold with_thread. cbn [tcbs put_cell set_notifications]. rewrite Hb. cbn [mbind run_bind]. set (k1 := set_tcbs _ _).
  destruct (wake_placed_effect k1 c t h pl (inv_machine _ _ _ Hi) Hc Hh) as (m' & -> & Hth & Hsc & Hmi). eexists. split; [done|].
  apply (sys_woken nothing [] nothing [] y _ t h b (set_mailbox word b) Handshake.serve Hi Hh Hb Hblk); try done; [by left| | |].
  - cbn [outgoing_cap set_mailbox]. eapply offers_nothing; [exact Hti|congruence|]. by rewrite Hph, Hpl.
  - apply (unheld _ _ y t Hi). by rewrite Hpl.
  - eapply (notification_leave nothing [] (tabs y) _ id p (Notification.MkCell bits l) (n_bound p) t Hq); try done; cbn [Notification.queue].
    + apply not_elem_of_nil.
    + intros u Hu. apply quiet_same; cbn [machine set_machine tcbs k1 set_tcbs]; rewrite ?Hth; by rewrite lookup_insert_ne.
    + intros u Hu. rewrite Hl, elem_of_cons. tauto.
    + unfold place_at. cbn [machine set_machine]. rewrite Hth, lookup_insert_eq. apply place_woken; [by left|congruence].
Qed.

Lemma signal_ok y c id bits pl : inv y -> is_Some (Scheduler.cpus (machine (tabs y)) !! c) ->
  exists r k', signal_locked (tabs y) c id bits pl = Done (r, k') /\ inv (MkSys k' (conts y)).
Proof.
  intros Hi Hc. unfold signal_locked. destruct (notification_table (tabs y) !! id) as [p|] eqn:Hp; [|eexists _, (tabs y); split; [done|by destruct y]].
  cbv zeta. unfold note_signal. cbn [Notification.spec_call]. destruct (bits =? 0).
  { eexists _, _. split; [done|]. apply (inv_word_taken y id p _ (n_bound p) Hi Hp eq_refl). }
  destruct (Notification.queue (n_state p)) as [|t l] eqn:Hl.
  - destruct (bound_receiver (tabs y) p) as [[t ep]|] eqn:Hb; cbn [is_some].
    + apply bound_receiver_placed in Hb as [_ Hpl]. pose proof (inv_word_taken y id p (Notification.MkCell 0 []) (n_bound p) Hi Hp (eq_sym Hl)) as Hi1.
      destruct (deliver_bound_ok _ c t ep (Z.lor (Notification.bits_of (n_state p)) bits) pl Hi1 Hc Hpl) as (k' & Hk & Hi').
      unfold put_cell. cbn [tabs] in Hk. destruct (deliver_bound _ t ep _) as [k1|]; [|done]. cbn [mbind run_bind] in Hk |- *. rewrite Hk. cbn [mbind run_bind]. by eexists _, _.
    + eexists _, _. split; [done|]. exact (inv_word_taken y id p (Notification.MkCell _ []) (n_bound p) Hi Hp (eq_sym Hl)).
  - destruct (waiter_signalled y c id p t l (MkMsg bits 0 0 0 0) (Notification.bits_of (n_state p)) pl Hi Hc Hp Hl) as (k' & Hk & Hi').
    destruct (with_thread _ t _) as [k1|]; [|done]. cbn [mbind run_bind] in Hk |- *. rewrite Hk. cbn [mbind run_bind]. by eexists _, _.
Qed.
Lemma poll_ok y id : inv y -> inv (MkSys (notification_poll (tabs y) id).2 (conts y)).
Proof.
  intros Hi. unfold notification_poll. destruct (notification_table (tabs y) !! id) as [p|] eqn:Hp; [|by destruct y].
  exact (inv_word_taken y id p (Notification.MkCell 0 _) (n_bound p) Hi Hp eq_refl).
Qed.

Lemma inv_park_waiter y c t h b id p : inv y -> at_core (tabs y) c t h b -> thread_inv (PEAK (tabs y)) t h b (conts y !! t) -> conts y !! t = None ->
  notification_table (tabs y) !! id = Some p ->
  inv (MkSys (set_machine (put_cell (tabs y) id p (Notification.MkCell (Notification.bits_of (n_state p)) (Notification.queue (n_state p) ++ [t])))
    (Scheduler.set_thread (machine (tabs y)) t (parked h (WNotification id)))) (<[t := InWait id]> (conts y))).
Proof.
  intros Hi Hac Hti Hfree Hp. pose proof (inv_queues _ _ _ Hi) as Hq.
  destruct (nowhere_unqueued _ _ _ t Hq ltac:(apply not_elem_of_nil) (ac_nowhere _ _ _ _ _ Hac)) as (_ & _ & Hnn).
  assert (Hnot : t ∉ Notification.queue (n_state p)) by (intros Hx; apply (Hnn id); by exists p).
  pose proof (inv_park y c t h b Hi Hac Hti Hfree b (WNotification id) (InWait id) (rendezvous_table (tabs y))
    (<[id := MkNotificationPage (n_page p) (Notification.MkCell (Notification.bits_of (n_state p)) (Notification.queue (n_state p) ++ [t])) (n_bound p)]> (notification_table (tabs y))) eq_refl eq_refl) as Hy.
  rewrite insert_id in Hy by apply Hac. apply Hy; [rewrite (ac_outgoing _ _ _ _ _ Hac); done|].
  intros Hpl. apply (notification_join nothing [] (tabs y) _ id p (Notification.MkCell (Notification.bits_of (n_state p)) (Notification.queue (n_state p) ++ [t])) (n_bound p) t Hq); try done;
    cbn [Notification.queue].
  - apply not_elem_of_nil.
  - intros u Hu. apply quiet_same; cbn [machine Scheduler.threads Scheduler.set_thread tcbs]; [by rewrite lookup_insert_ne|done].
  - intros u Hu. rewrite elem_of_app, list_elem_of_singleton. tauto.
  - apply NoDup_app. split; [apply (q_distinct_notes _ _ _ Hq id p Hp)|]. split; [intros x Hx ->%list_elem_of_singleton; done|apply NoDup_singleton].
  - apply Hac.
  - apply elem_of_app. right. constructor.
Qed.

Lemma wait_ok y c t id : inv y -> running (tabs y) c t -> conts y !! t = None ->
  exists r k', notification_wait (tabs y) c id = Done (r, k') /\ inv (MkSys k' (match r with Some _ => conts y | None => <[t := InWait id]> (conts y) end)).
Proof.
  intros Hi Hrun Hfree. destruct (at_core_of _ _ y c t Hi Hrun) as (h & b & Hac & Hti). unfold notification_wait.
  rewrite (ac_current _ _ _ _ _ Hac). cbn [mbind run_bind]. rewrite (ac_tcb _ _ _ _ _ Hac).
  destruct (notification_table (tabs y) !! id) as [p|] eqn:Hp; [|eexists _, (tabs y); split; [done|by destruct y]].
  unfold note_wait. cbn [Notification.spec_call]. destruct (negb _).
  - eexists _, _. split; [done|]. exact (inv_word_taken y id p (Notification.MkCell 0 _) (n_bound p) Hi Hp eq_refl).
  - pose proof Hti as Hti'. rewrite Hfree in Hti'. erewrite (park_now y c t h b _ _ Hi Hac Hti') by done. cbn [mbind run_bind]. eexists _, _. split; [done|].
    by apply (inv_park_waiter y c t h b).
Qed.

Lemma bind_ok y c id t : inv y -> is_Some (Scheduler.cpus (machine (tabs y)) !! c) ->
  exists r k', notification_bind (tabs y) c id t = Done (r, k') /\ inv (MkSys k' (conts y)).
Proof.
  intros Hi Hc. assert (Hsame : forall r : result MappingCalls.Error unit, exists r' k', Done (r, tabs y) = Done (r', k') /\ inv (MkSys k' (conts y))) by (intros r; exists r, (tabs y); split; [done|by destruct y]).
  unfold notification_bind. destruct (notification_table (tabs y) !! id) as [p|] eqn:Hp; [|apply Hsame]. destruct (match n_bound p with Some _ => _ | None => _ end); [apply Hsame|].
  destruct (tcbs (tabs y) !! t) as [b|] eqn:Hb; [|apply Hsame]. destruct (handshake_of (tabs y) t) as [h|]; [|apply Hsame]. case_bool_decide; [apply Hsame|].
  destruct (match bound_notification b with Some _ => _ | None => _ end); [apply Hsame|]. cbv zeta. set (p' := MkNotificationPage _ _ _). set (k1 := if_thread _ _ _).
  assert (Hi1 : inv (MkSys k1 (conts y))).
  { apply (sys_field nothing [] (MkSys (set_notifications (tabs y) (<[id := p']> (notification_table (tabs y)))) (conts y)) t b); try done.
    by apply (inv_word_taken y id p (n_state p) (Some t)). }
  assert (Hp1 : notification_table k1 !! id = Some p') by (cbn; by rewrite lookup_insert_eq).
  destruct (_ =? 0); [by eexists _, _|]. destruct (bound_receiver k1 p') as [[u ep]|] eqn:Hbr; [|by eexists _, _].
  apply bound_receiver_placed in Hbr as [_ Hpl]. unfold note_poll. cbn [Notification.spec_call].
  pose proof (inv_word_taken _ id p' (Notification.MkCell 0 (Notification.queue (n_state p'))) (n_bound p') Hi1 Hp1 eq_refl) as Hi2.
  destruct (deliver_bound_ok _ c u ep (Notification.bits_of (n_state p')) Local Hi2 Hc Hpl) as (k' & Hk & Hi').
  unfold put_cell. cbn [tabs] in Hk. destruct (deliver_bound _ u ep _) as [k2|]; [|done]. cbn [mbind run_bind wake_placed] in Hk |- *. rewrite Hk. cbn [mbind run_bind]. by eexists _, _.
Qed.

(** ** Deleting a caller's reply capabilities *)

(** [b'] is [b] without the capabilities that answer [caller]. *)
Definition swept_of (caller peak : Z) (b b' : Tcb) : Prop :=
  exists tb, b' = set_outgoing (match outgoing_cap b with Some c => if bool_decide (Capability.object c = OReply caller) then None else Some c | None => None end) (set_table tb b) /\
    Capability.wf CAPABILITY_TABLE_SLOTS (Capability.MkWorld tb peak) /\
    Capability.slots tb = (fun o => match o with Some c => if bool_decide (Capability.object c = OReply caller) then None else Some c | None => None end) <$> slots_of b.

Lemma sweep_total D P y caller : inv_with D P y ->
  exists tc, delete_reply_caps_naming (tabs y) caller = Done (set_tcbs (tabs y) tc) /\
    (forall t, is_Some (tc !! t) <-> is_Some (tcbs (tabs y) !! t)) /\
    forall t b', tc !! t = Some b' -> exists b, tcbs (tabs y) !! t = Some b /\ swept_of caller (PEAK (tabs y)) b b'.
Proof.
  intros Hi. set (f := sweep_tcb (PEAK (tabs y)) (fun o => bool_decide (o = OReply caller))).
  assert (Hf : forall t b, tcbs (tabs y) !! t = Some b -> exists b', f b = Some b' /\ swept_of caller (PEAK (tabs y)) b b').
  { intros t b Hb. destruct (proj1 (inv_dom _ _ _ Hi t)) as [h Hh]; [eauto|]. pose proof (ti_table _ _ _ _ _ (inv_threads _ _ _ Hi t h b Hh Hb)) as Hwf.
    destruct (Capability.delete_matching_total CAPABILITY_TABLE_SLOTS (le_n 32) (fun o => bool_decide (o = OReply caller)) _ Hwf) as ([tb pk] & Hrun & Hwf' & HP & Hsl).
    cbn [Capability.PEAK Capability.table] in *. subst pk. unfold f, sweep_tcb. rewrite Hrun. cbn [mbind option_bind Capability.table]. eexists. split; [done|]. by exists tb. }
  assert (Hdom : forall t, is_Some (omap f (tcbs (tabs y)) !! t) <-> is_Some (tcbs (tabs y) !! t)).
  { intros t. rewrite lookup_omap. destruct (tcbs (tabs y) !! t) as [b|] eqn:Hb; cbn [mbind option_bind]; [|done]. destruct (Hf t b Hb) as (b' & -> & _). split; eauto. }
  exists (omap f (tcbs (tabs y))). split; [|split; [done|]].
  - unfold delete_reply_caps_naming. fold f. assert (size (omap f (tcbs (tabs y))) = size (tcbs (tabs y))) as ->; [|by rewrite Nat.eqb_refl].
    rewrite <- !size_dom. f_equal. apply set_eq. intros t. rewrite !elem_of_dom. apply Hdom.
  - intros t b'. rewrite lookup_omap. destruct (tcbs (tabs y) !! t) as [b|] eqn:Hb; cbn [mbind option_bind]; [|done]. destruct (Hf t b Hb) as (b1 & -> & Hs). intros [= <-]. by exists b.
Qed.

Lemma swept_slots caller pk b b' i c : swept_of caller pk b b' -> slots_of b' !! i = Some (Some c) -> slots_of b !! i = Some (Some c) /\ Capability.object c <> OReply caller.
Proof.
  intros (tb & -> & _ & Hsl). cbn [capability_table set_outgoing set_table]. rewrite Hsl, list_lookup_fmap. destruct (slots_of b !! i) as [[x|]|]; cbn; try done.
  case_bool_decide; [done|]. by intros [= <-].
Qed.

Lemma ti_swept caller q t h b b' co : thread_inv q t h b co -> swept_of caller q b b' ->
  thread_inv q t h b' co /\ (t <> caller -> outgoing_cap b' = outgoing_cap b) /\ (outgoing_cap b = None -> outgoing_cap b' = None) /\ fault_ep b' = fault_ep b.
Proof.
  intros Ht Hs. pose proof Hs as (tb & Hb' & Hwf & Hsl). assert (Ho : forall c, outgoing_cap b' = Some c -> outgoing_cap b = Some c).
  { intros c. rewrite Hb'. cbn [outgoing_cap set_outgoing]. destruct (outgoing_cap b) as [x|]; [|done]. by case_bool_decide. }
  split; [|split; [|split]].
  - destruct Ht as [H1 H2 H3 H4 H5 H6 H7 H8 H9 H10 H11]. constructor; try done; [auto|rewrite Hb'; exact Hwf|].
    intros i c u Hi%(swept_slots _ _ _ _ _ _ Hs). destruct Hi as [Hi _]. by apply (H10 i).
  - intros Hne. rewrite Hb'. cbn [outgoing_cap set_outgoing]. destruct (outgoing_cap b) as [x|] eqn:Hx; [|done]. case_bool_decide as Hob; [|done].
    destruct (ti_outgoing _ _ _ _ _ Ht x Hx) as [[_ Hr]|[(ep & _ & Hr)|(ep & _ & ->)]]; [unfold is_reply_cap in Hr; by rewrite Hob in Hr..|].
    cbn in Hob. congruence.
  - intros Hn. destruct (outgoing_cap b') as [c|] eqn:Hc; [|done]. specialize (Ho c eq_refl). congruence.
  - by rewrite Hb'.
Qed.

Lemma sweep_ok D P y caller : inv_with D P y -> (forall ep, ~ sending (tabs y) ep caller) ->
  exists tc, delete_reply_caps_naming (tabs y) caller = Done (set_tcbs (tabs y) tc) /\ inv_with D P (MkSys (set_tcbs (tabs y) tc) (conts y)) /\
    (forall s i, ~ holds (MkSys (set_tcbs (tabs y) tc) (conts y)) s i caller) /\
    (forall t b', tc !! t = Some b' -> exists b, tcbs (tabs y) !! t = Some b /\ swept_of caller (PEAK (tabs y)) b b').
Proof.
  intros Hi Hns. destruct (sweep_total D P y caller Hi) as (tc & Hrun & Hdom & Hsw). exists tc. split; [done|]. set (y1 := MkSys _ _).
  assert (Hnone : forall s i, ~ holds y1 s i caller).
  { intros s i (b' & c & Hb' & Hsl & Ho & _). destruct (Hsw s b' Hb') as (b & Hb & Hs). by destruct (swept_slots _ _ _ _ _ _ Hs Hsl). }
  assert (Hth : forall t b', tc !! t = Some b' -> exists h b, hs (tabs y) !! t = Some h /\ tcbs (tabs y) !! t = Some b /\ thread_inv (PEAK (tabs y)) t h b' (conts y !! t) /\
    (t <> caller -> outgoing_cap b' = outgoing_cap b) /\ fault_ep b' = fault_ep b).
  { intros t b' Hb'. destruct (Hsw t b' Hb') as (b & Hb & Hs). destruct (proj1 (inv_dom _ _ _ Hi t)) as [h Hh]; [eauto|]. exists h, b.
    destruct (ti_swept caller _ t h b b' _ (inv_threads _ _ _ Hi t h b Hh Hb) Hs) as (H1 & H2 & _ & H3). done. }
  split; [|split; [exact Hnone|done]]. pose proof (inv_queues _ _ _ Hi) as Hq.
  apply (sys_update D P D P y y1 (elements (dom (tcbs (tabs y)))) Hi); cbn [tabs conts y1]; try done.
  - apply (inv_machine _ _ _ Hi).
  - intros u Hu. rewrite elem_of_elements, elem_of_dom in Hu. split; [done|]. split; [|done]. cbn [tcbs set_tcbs].
    destruct (tc !! u) as [b'|] eqn:Hb; [destruct Hu; apply Hdom; eauto|]. by destruct (tcbs (tabs y) !! u) as [?|]; [destruct Hu; eauto|].
  - intros u Hu. rewrite elem_of_elements, elem_of_dom, <- Hdom in Hu. destruct Hu as [b' Hb']. destruct (Hth u b' Hb') as (h & b & Hh & Hb & Hti & _). by exists h, b'.
  - destruct Hq as [Q1 Q2 Q3 Q4 Q5 Q6 Q7 Q8 Q9]. constructor; try done.
    + intros ep t b' Hs Hpl Hb'. destruct (Hth t b' Hb') as (h & b & Hh & Hb & _ & Ho & _). rewrite Ho; [by apply (Q4 ep)|]. intros ->. by apply (Hns ep).
    + intros ep t b' Hpl Hb'. destruct (Hth t b' Hb') as (h & b & Hh & Hb & _ & _ & ->). by apply (Q7 ep t).
  - apply (replies_move y _ caller (inv_replies _ _ _ Hi)); [| |by right].
    + intros s i u. apply holds_back. split; [|done]. cbn [tabs y1 tcbs set_tcbs]. intros s0 b' Hb'. destruct (Hsw s0 b' Hb') as (b & Hb & Hs). exists b. split; [done|].
      intros j c v Hj _. by destruct (swept_slots _ _ _ _ _ _ Hs Hj).
    + intros u Hu. split; [done|]. cbn [tabs y1 tcbs set_tcbs]. intros b' Hb'. destruct (Hth u b' Hb') as (h & b & _ & Hb & _ & Ho & Hf). exists b. auto.
Qed.

(** ** Aborting what waits *)

Lemma abort_wake_effect k c t h b : Scheduler.inv (machine k) -> is_Some (Scheduler.cpus (machine k) !! c) -> hs k !! t = Some h -> tcbs k !! t = Some b ->
  exists m', wake (set_ipc_aborted k t) c t = Done (MkTables m' (<[t := set_outgoing None b]> (tcbs k)) (rendezvous_table k) (notification_table k) (PEAK k)) /\
    Scheduler.threads m' = <[t := woken (Handshake.abort h)]> (hs k) /\ same_cores (machine k) m' /\ Scheduler.inv m'.
Proof.
  intros Hi Hc Hh Hb. destruct (wake_effect (machine k) c t h Handshake.abort Hi Hc Hh Scheduler.flags_abort) as (m' & Hw & Hr). exists m'. split; [|done].
  unfold wake, set_ipc_aborted, Scheduler.set_ipc_aborted. cbn [machine set_machine if_thread set_tcbs]. rewrite Hw. cbn [mbind run_bind]. unfold set_machine, if_thread, set_tcbs.
  cbn [tcbs rendezvous_table notification_table PEAK]. by rewrite (alter_is_insert _ _ _ _ Hb).
Qed.

(** A thread that was waiting and has been told that its call is over: it is ready,
    or its core will make it so when it has left it. *)
Definition freed (k : IpcTables) (t : Z) : Prop :=
  exists h, hs k !! t = Some h /\ Handshake.ipc_aborted h = true /\ (Handshake.wake_pending h = true \/ Handshake.state h = Handshake.Ready).

(** What an abort or a strand leaves alone. *)
Record aborts_only (k k' : IpcTables) : Prop := {
  ao_cores : same_cores (machine k) (machine k');
  ao_rendezvous : rendezvous_table k' = rendezvous_table k;
  ao_notifications : notification_table k' = notification_table k;
  ao_dom : forall t, is_Some (hs k' !! t) <-> is_Some (hs k !! t);
  ao_places : forall t, place_at k' t = place_at k t \/ freed k' t;
  ao_freed : forall t, freed k t -> freed k' t;
  ao_kept : forall t h, hs k !! t = Some h -> Handshake.state h <> Handshake.Blocked -> Handshake.state h <> Handshake.Dead -> hs k' !! t = Some h;
  ao_dead : forall t h, hs k !! t = Some h -> Handshake.state h = Handshake.Dead -> exists h', hs k' !! t = Some h' /\ Handshake.state h' = Handshake.Dead /\ Handshake.on_cpu h' = Handshake.on_cpu h;
  ao_tcbs : forall t b', tcbs k' !! t = Some b' -> exists b, tcbs k !! t = Some b /\ page b' = page b /\ fault_ep b' = fault_ep b
}.

Lemma aborts_refl k : aborts_only k k.
Proof. constructor; try done; eauto. Qed.

Lemma aborts_trans k1 k2 k3 : aborts_only k1 k2 -> aborts_only k2 k3 -> aborts_only k1 k3.
Proof.
  intros [A1 A2 A3 A4 A5 A9 A6 A7 A8] [B1 B2 B3 B4 B5 B9 B6 B7 B8]. constructor; [by eapply same_cores_trans|congruence..| | |auto| | |].
  - intros t. by rewrite B4.
  - intros t. destruct (B5 t) as [->|?]; [|by right]. destruct (A5 t); auto.
  - intros t h Hh H1 H2. apply B6; [by apply A6|done..].
  - intros t h Hh Hd. destruct (A7 t h Hh Hd) as (h1 & Hh1 & Hd1 & Hc1). destruct (B7 t h1 Hh1 Hd1) as (h2 & Hh2 & Hd2 & Hc2). exists h2. split; [done|]. split; congruence.
  - intros t b' (b1 & Hb1 & H1 & H2)%B8. destruct (A8 t b1 Hb1) as (b & Hb & H3 & H4). exists b. split; [done|]. split; congruence.
Qed.

Lemma abort_aborts k m' t h b : hs k !! t = Some h -> tcbs k !! t = Some b -> Handshake.state h = Handshake.Blocked \/ Handshake.state h = Handshake.Dead ->
  Scheduler.threads m' = <[t := woken (Handshake.abort h)]> (hs k) -> same_cores (machine k) m' ->
  aborts_only k (MkTables m' (<[t := set_outgoing None b]> (tcbs k)) (rendezvous_table k) (notification_table k) (PEAK k)).
Proof.
  intros Hh Hb Hst Hth Hsc. assert (Hfr : Handshake.state h = Handshake.Blocked ->
    freed (MkTables m' (<[t := set_outgoing None b]> (tcbs k)) (rendezvous_table k) (notification_table k) (PEAK k)) t).
  { intros Hs. eexists. cbn [machine]. rewrite Hth, lookup_insert_eq. split; [done|]. destruct (woken_blocked (Handshake.abort h)) as [[_ ->]|[_ ->]]; [done|apply delivered_abort| |]; cbn; auto. }
  constructor; cbn [machine tcbs rendezvous_table notification_table]; try done.
  - intros u. rewrite Hth. destruct (decide (t = u)) as [<-|Hne]; [rewrite lookup_insert_eq, Hh; split; eauto|by rewrite lookup_insert_ne].
  - intros u. unfold place_at. cbn [machine]. rewrite Hth. destruct (decide (t = u)) as [<-|Hne]; [rewrite lookup_insert_eq, Hh|left; by rewrite lookup_insert_ne].
    destruct Hst as [Hs|Hs]; [right; by apply Hfr|left; apply place_dead; [by right|done]].
  - intros u (hu & Hu & Hab & Hw). destruct (decide (t = u)) as [<-|Hne]; [|exists hu; cbn [machine]; by rewrite Hth, lookup_insert_ne]. destruct Hst as [Hs|Hs]; [by apply Hfr|].
    eexists. cbn [machine]. rewrite Hth, lookup_insert_eq. split; [done|]. rewrite woken_other by (cbn; congruence). assert (hu = h) as -> by congruence. done.
  - intros u hu Hu Hnb Hnd. rewrite Hth, lookup_insert_ne; [done|]. intros <-. destruct Hst; congruence.
  - intros u hu Hu Hd. rewrite Hth. destruct (decide (t = u)) as [<-|Hne]; [rewrite lookup_insert_eq|rewrite lookup_insert_ne by done; eauto].
    assert (hu = h) as -> by congruence. eexists. split; [done|]. by rewrite woken_other by (cbn; congruence).
  - intros u b'. destruct (decide (t = u)) as [<-|Hne]; [rewrite lookup_insert_eq|rewrite lookup_insert_ne by done; eauto]. intros [= <-]. by exists b.
Qed.

(** A thread that was taken off its queue is dealt with. *)
Lemma queues_undrain D k k' t rest : queues_ok D (t :: rest) k -> rendezvous_table k' = rendezvous_table k -> notification_table k' = notification_table k ->
  (forall u, u <> t -> quiet k k' u) -> place_at k' t = Nowhere \/ (exists ep, place_at k' t = AsCorpse ep /\ quiet k k' t) -> queues_ok D rest k'.
Proof.
  intros [Q1 Q2 Q3 Q4 Q5 Q6 Q7 Q8 Q9] Hr Hn Hquiet Hnew.
  assert (M1 : forall ep u, receiving k' ep u <-> receiving k ep u) by (intros ep u; apply endpoint_same, Hr).
  assert (M2 : forall ep u, sending k' ep u <-> sending k ep u) by (intros ep u; apply endpoint_same, Hr).
  assert (M3 : forall id u, noticing k' id u <-> noticing k id u) by (intros id u; by apply noticing_same).
  assert (Hpl : (forall ep, place_at k' t <> AtReceivers ep /\ place_at k' t <> AtSenders ep /\ place_at k' t <> AtReply ep /\ place_at k' t <> AtWaiters ep))
    by (intros ep; by destruct Hnew as [->|(ep' & -> & _)]).
  constructor; rewrite ?Hr, ?Hn; try done.
  - intros ep u. rewrite M1, Q1, not_elem_of_cons. destruct (decide (u = t)) as [->|Hu]; [|rewrite (proj1 (Hquiet u Hu)); tauto].
    split; [tauto|]. intros [H _]. by apply Hpl in H.
  - intros ep u [H1 H2]%M2%Q2. apply not_elem_of_cons in H2 as [Hu H2]. by rewrite (proj1 (Hquiet u Hu)).
  - intros ep u. rewrite M2. destruct (decide (u = t)) as [->|Hu]; [by intros H%Hpl|].
    rewrite (proj1 (Hquiet u Hu)). intros H1 H2. apply Q3; [done|]. by apply not_elem_of_cons.
  - intros ep u b' Hs%M2. destruct (Q2 ep u Hs) as [_ [Hu _]%not_elem_of_cons]. destruct (Hquiet u Hu) as [-> Hb]. intros Hp (b & Hb0 & -> & _)%Hb. by apply (Q4 ep).
  - intros id u. rewrite M3, Q5, not_elem_of_cons. destruct (decide (u = t)) as [->|Hu]; [|rewrite (proj1 (Hquiet u Hu)); tauto].
    split; [tauto|]. intros [H _]. by apply Hpl in H.
  - intros ep u. destruct (decide (u = t)) as [->|Hu]; [by intros H%Hpl|]. rewrite (proj1 (Hquiet u Hu)). apply Q6.
  - intros ep u b'. assert (Hx : place_at k' u = AsCorpse ep -> quiet k k' u).
    { destruct (decide (u = t)) as [->|Hu]; [|by intros; apply Hquiet]. destruct Hnew as [->|(ep' & _ & H)]; [done|by intros]. }
    intros Hp. destruct (Hx Hp) as [He Hb]. rewrite He in Hp. intros (b & Hb0 & _ & ->)%Hb. by apply (Q7 ep u).
Qed.

Lemma holds_outgoing y k1 t b : tcbs (tabs y) !! t = Some b -> tcbs k1 = <[t := set_outgoing None b]> (tcbs (tabs y)) ->
  forall s i u, holds (MkSys k1 (conts y)) s i u -> holds y s i u.
Proof.
  intros Hb Htc s i u. apply holds_back. split; [|done]. cbn [tabs]. rewrite Htc. intros s0 b0. destruct (decide (t = s0)) as [<-|Hne].
  - rewrite lookup_insert_eq. intros [= <-]. exists b. split; [done|]. by intros ?.
  - rewrite lookup_insert_ne by done. intros Hb'. exists b0. split; [done|]. by intros ?.
Qed.

Lemma sys_abort_dead D P D' P' y k1 t h b : inv_with D P y -> hs (tabs y) !! t = Some h -> tcbs (tabs y) !! t = Some b -> Handshake.state h = Handshake.Dead ->
  Scheduler.threads (machine k1) = <[t := woken (Handshake.abort h)]> (hs (tabs y)) -> Scheduler.inv (machine k1) ->
  tcbs k1 = <[t := set_outgoing None b]> (tcbs (tabs y)) -> PEAK k1 = PEAK (tabs y) -> queues_ok D' P' k1 -> inv_with D' P' (MkSys k1 (conts y)).
Proof.
  intros Hi Hh Hb Hd Hm Hmi Htc Hpk Hq. pose proof (inv_threads _ _ _ Hi t h b Hh Hb) as Hti. apply (sys_update D P D' P' y _ [t] Hi); cbn [tabs conts]; try done.
  - lia.
  - intros u Hu%not_elem_of_cons. rewrite Hm, Htc, !lookup_insert_ne by (destruct Hu; congruence). done.
  - intros u ->%list_elem_of_singleton. eexists _, _. rewrite Hm, Htc, !lookup_insert_eq, Hpk. split; [done|]. split; [done|].
    eapply ti_abort_dead; [exact Hti|done|done|exact (ti_tcb_ok _ _ _ _ _ Hti)].
  - apply (replies_move y _ t (inv_replies _ _ _ Hi)); cbn [tabs]; [by apply (holds_outgoing y k1 t b)| |].
    + intros u Hu. apply quiet_same; rewrite ?Hm, ?Htc; by rewrite lookup_insert_ne.
    + right. intros s i Hx%(holds_outgoing y k1 t b); [|done|done]. revert Hx. apply (unheld _ _ _ _ Hi). intros ep. unfold place_at. rewrite Hh. unfold place. rewrite Hd.
      by destruct (Handshake.wait_on h) as [[]|].
Qed.

Lemma abort_drained D y c t rest : inv_with D (t :: rest) y -> is_Some (Scheduler.cpus (machine (tabs y)) !! c) -> place_at (tabs y) t <> Nowhere -> (forall s i, ~ holds y s i t) ->
  exists k', wake (set_ipc_aborted (tabs y) t) c t = Done k' /\ inv_with D rest (MkSys k' (conts y)) /\ aborts_only (tabs y) k' /\
    (forall s i u, holds (MkSys k' (conts y)) s i u -> holds y s i u) /\ (forall u, u <> t -> hs k' !! u = hs (tabs y) !! u) /\
    ((forall ep, place_at (tabs y) t <> AsCorpse ep) -> freed k' t).
Proof.
  intros Hi Hc Hpl Hun. destruct (placed_thread _ _ y t Hi Hpl) as (h & b & Hh & Hb & Hph & Hti).
  destruct (abort_wake_effect (tabs y) c t h b (inv_machine _ _ _ Hi) Hc Hh Hb) as (m' & Hw & Hth & Hsc & Hmi). rewrite Hw. eexists. split; [done|].
  assert (Hst : Handshake.state h = Handshake.Blocked \/ Handshake.state h = Handshake.Dead).
  { rewrite <- Hph in Hpl. unfold place in Hpl. by destruct (Handshake.state h); try (by left); try (by right); destruct (Handshake.wait_on h) as [[]|]. }
  set (k1 := MkTables _ _ _ _ _). assert (Hquiet : forall u, u <> t -> quiet (tabs y) k1 u) by (intros u Hu; apply quiet_same; cbn [k1 machine tcbs]; rewrite ?Hth; by rewrite lookup_insert_ne).
  assert (Hpl1 : place_at k1 t = place (woken (Handshake.abort h))) by (unfold place_at; cbn [k1 machine]; by rewrite Hth, lookup_insert_eq).
  split; [|split; [by apply (abort_aborts (tabs y) m' t h b)|split; [by apply (holds_outgoing y k1 t b)|split; [intros u Hu; cbn [k1 machine]; by rewrite Hth, lookup_insert_ne|]]]].
  - destruct Hst as [Hs|Hs].
    + apply (sys_woken D (t :: rest) D rest y k1 t h b (set_outgoing None b) Handshake.abort Hi Hh Hb Hs); try done; [by right|].
      apply (queues_undrain D (tabs y) k1 t rest (inv_queues _ _ _ Hi)); try done. left. rewrite Hpl1. apply place_woken; [by right|congruence].
    + apply (sys_abort_dead D (t :: rest) D rest y k1 t h b Hi Hh Hb Hs); try done. apply (queues_undrain D (tabs y) k1 t rest (inv_queues _ _ _ Hi)); try done.
      right. assert (Hsame : place_at k1 t = place_at (tabs y) t) by (rewrite Hpl1, place_dead; [done|by right|done]).
      rewrite Hpl1, place_dead by (by right || done). unfold place in Hpl |- *. rewrite Hs in *. rewrite <- Hph in Hpl. unfold place in Hpl. rewrite Hs in Hpl.
      destruct (Handshake.wait_on h) as [[ep' r|]|]; try done. exists ep'. split; [done|]. split; [done|]. intros b'. cbn [k1 tcbs]. rewrite lookup_insert_eq. intros [= <-].
      exists b. split; [done|]. split; [|done]. cbn. symmetry. eapply offers_nothing; [exact Hti|congruence|]. intros ep. unfold place. rewrite Hs. destruct (Handshake.wait_on h) as [[]|]; done.
  - intros Hnc. destruct Hst as [Hs|Hs].
    + eexists. cbn [k1 machine]. rewrite Hth, lookup_insert_eq. split; [done|]. destruct (woken_blocked (Handshake.abort h)) as [[_ ->]|[_ ->]]; [done|apply delivered_abort| |]; cbn; auto.
    + rewrite <- Hph in Hnc, Hpl. unfold place in Hnc, Hpl. rewrite Hs in *. destruct (Handshake.wait_on h) as [[ep' r|]|]; try done. by destruct (Hnc ep').
Qed.

Lemma abort_each_ok D c ws y : inv_with D ws y -> is_Some (Scheduler.cpus (machine (tabs y)) !! c) -> NoDup ws ->
  Forall (fun t => place_at (tabs y) t <> Nowhere /\ forall s i, ~ holds y s i t) ws ->
  exists k', abort_each (tabs y) c ws = Done k' /\ inv_with D [] (MkSys k' (conts y)) /\ aborts_only (tabs y) k' /\
    (forall s i u, holds (MkSys k' (conts y)) s i u -> holds y s i u) /\ (forall u, u ∉ ws -> hs k' !! u = hs (tabs y) !! u) /\
    Forall (fun t => (forall ep, place_at (tabs y) t <> AsCorpse ep) -> freed k' t) ws.
Proof.
  revert y. induction ws as [|t rest IH]; intros y Hi Hc Hnd Hws; cbn [abort_each].
  - exists (tabs y). split; [done|]. split; [by destruct y|]. split; [apply aborts_refl|]. split; [by intros; destruct y|]. done.
  - apply NoDup_cons in Hnd as [Hnt Hnd]. apply Forall_cons in Hws as [[Hpl Hun] Hws].
    destruct (abort_drained D y c t rest Hi Hc Hpl Hun) as (k1 & -> & Hi1 & Ha1 & Hb1 & Hh1 & Hf1). cbn [mbind run_bind].
    assert (Hp1 : forall u, u <> t -> place_at k1 u = place_at (tabs y) u) by (intros u Hu; unfold place_at; by rewrite Hh1).
    destruct (IH (MkSys k1 (conts y)) Hi1) as (k2 & Hk2 & Hi2 & Ha2 & Hb2 & Hh2 & Hf2); [by eapply same_cores_some; [apply (ao_cores _ _ Ha1)|]|done| |].
    { apply Forall_forall. intros u Hu. rewrite Forall_forall in Hws. destruct (Hws u Hu) as [H1 H2]. cbn [tabs]. rewrite Hp1 by congruence. split; [done|].
      intros s i Hx%Hb1. by apply H2 in Hx. }
    exists k2. cbn [tabs conts] in *. split; [exact Hk2|]. split; [done|]. split; [by eapply aborts_trans|]. split; [intros s i u Hx; by apply Hb1, Hb2|]. split.
    + intros u [Hu Hur]%not_elem_of_cons. by rewrite Hh2, Hh1.
    + constructor.
      * intros Hnc. destruct (Hf1 Hnc) as (h & Hh & Hr). exists h. rewrite Hh2 by done. done.
      * rewrite Forall_forall in Hf2 |- *. intros u Hu Hnc. apply Hf2; [done|]. rewrite Hp1; [done|congruence].
Qed.

Lemma awaits_blocked q t h b co : thread_inv q t h b co -> awaits_reply h = true -> Handshake.state h = Handshake.Blocked.
Proof.
  intros Ht. unfold awaits_reply. destruct (Handshake.wait_on h) as [[ep []|]|] eqn:Hw; try done. intros _. destruct (Handshake.state h) eqn:Hs; try done.
  - pose proof (ti_off _ _ _ _ _ Ht (or_introl Hs)). congruence.
  - destruct (ti_runs _ _ _ _ _ Ht (or_introl Hs)). congruence.
  - destruct (ti_runs _ _ _ _ _ Ht (or_intror Hs)). congruence.
  - pose proof (ti_off _ _ _ _ _ Ht (or_intror Hs)). congruence.
  - destruct (ti_dead _ _ _ _ _ Ht Hs _ Hw) as [ep' [=]].
Qed.

(** A caller off its endpoint's queue is freed, and nobody can answer it. *)
Lemma strand_ok D y c caller : inv_with D [] y -> is_Some (Scheduler.cpus (machine (tabs y)) !! c) -> (forall ep, ~ sending (tabs y) ep caller) ->
  exists did k', strand_reply_caller (tabs y) c caller = Done (did, k') /\ inv_with D [] (MkSys k' (conts y)) /\ aborts_only (tabs y) k' /\
    (forall s i u, holds (MkSys k' (conts y)) s i u -> holds y s i u) /\ (forall u, u <> caller -> hs k' !! u = hs (tabs y) !! u) /\
    match handshake_of (tabs y) caller with
    | Some h => if awaits_reply h then did = true /\ hs k' !! caller = Some (woken (Handshake.abort h)) /\ freed k' caller else did = false /\ k' = tabs y
    | None => did = false /\ k' = tabs y
    end.
Proof.
  intros Hi Hc Hns. unfold strand_reply_caller, handshake_of. assert (Hid : inv_with D [] (MkSys (tabs y) (conts y)) /\ aborts_only (tabs y) (tabs y) /\
    (forall s i u, holds (MkSys (tabs y) (conts y)) s i u -> holds y s i u)) by (split; [by destruct y|split; [apply aborts_refl|by destruct y]]).
  destruct (hs (tabs y) !! caller) as [h|] eqn:Hh; [|exists false, (tabs y); tauto]. destruct (awaits_reply h) eqn:Haw; [|exists false, (tabs y); tauto].
  destruct (sweep_ok D [] y caller Hi Hns) as (tc & -> & Hi1 & Hn1 & Hsw). cbn [mbind run_bind]. destruct (proj2 (inv_dom _ _ _ Hi1 caller)) as [b1 Hb1]; [cbn; eauto|].
  pose proof (inv_threads _ _ _ Hi1 caller h b1 Hh Hb1) as Hti. pose proof (awaits_blocked _ _ _ _ _ Hti Haw) as Hblk.
  destruct (abort_wake_effect (set_tcbs (tabs y) tc) c caller h b1 (inv_machine _ _ _ Hi1) Hc Hh Hb1) as (m' & -> & Hth & Hsc & Hmi). cbn [mbind run_bind]. set (k2 := MkTables _ _ _ _ _).
  exists true, k2. cbn [machine set_tcbs] in Hth, Hsc. assert (Hwait : exists ep, Handshake.wait_on h = Some (WRendezvous ep Reply)).
  { unfold awaits_reply in Haw. destruct (Handshake.wait_on h) as [[ep []|]|]; try done. by exists ep. } destruct Hwait as [ep Hwait].
  assert (Hpl : place_at (set_tcbs (tabs y) tc) caller = AtReply ep \/ place_at (set_tcbs (tabs y) tc) caller = Nowhere).
  { unfold place_at. cbn [machine set_tcbs]. rewrite Hh. unfold place. rewrite Hblk, Hwait. destruct (Handshake.is_delivered h); auto. }
  destruct (queues_placed _ _ _ caller (inv_queues _ _ _ Hi1) ltac:(apply not_elem_of_nil)) as [P1 P2 _ _ P5 _ _]. split; [done|]. split.
  { apply (sys_woken D [] D [] _ k2 caller h b1 (set_outgoing None b1) Handshake.abort Hi1 Hh Hb1 Hblk); try done; [by right|].
    apply (queues_alone D [] (set_tcbs (tabs y) tc) k2 caller (inv_queues _ _ _ Hi1)); try done.
    - apply not_elem_of_nil.
    - intros u Hu. apply quiet_same; cbn [k2 machine tcbs]; rewrite ?Hth; by rewrite lookup_insert_ne.
    - intros ep'. rewrite P1. cbn [tabs]. destruct Hpl as [->| ->]; done.
    - intros id. rewrite P5. cbn [tabs]. destruct Hpl as [->| ->]; done.
    - left. unfold place_at. cbn [k2 machine]. rewrite Hth, lookup_insert_eq. apply place_woken; [by right|congruence]. }
  split; [|split; [|split]].
  - eapply (aborts_trans _ (set_tcbs (tabs y) tc)); [|by apply (abort_aborts (set_tcbs (tabs y) tc) m' caller h b1 Hh Hb1 (or_introl Hblk))].
    constructor; try done; [by left|eauto|]. intros t b' Hb'. destruct (Hsw t b' Hb') as (b & Hb & tb & -> & _). by exists b.
  - intros s i u Hx%(holds_outgoing (MkSys (set_tcbs (tabs y) tc) (conts y)) k2 caller b1); [|done|done]. revert Hx. apply holds_back. split; [|done].
    intros s0 b' Hb'. destruct (Hsw s0 b' Hb') as (b & Hb & Hs). exists b. split; [done|]. intros j x v Hj _. by destruct (swept_slots _ _ _ _ _ _ Hs Hj).
  - intros u Hu. cbn [k2 machine]. by rewrite Hth, lookup_insert_ne.
  - split; [done|]. cbn [k2 machine]. rewrite Hth, lookup_insert_eq. split; [done|]. eexists. cbn [k2 machine]. rewrite Hth, lookup_insert_eq. split; [done|].
    destruct (woken_blocked (Handshake.abort h)) as [[_ ->]|[_ ->]]; [done|apply delivered_abort| |]; cbn; auto.
Qed.

Lemma sending_kept k k' ep t : aborts_only k k' -> sending k' ep t <-> sending k ep t.
Proof. intros Ha. unfold sending. by rewrite (ao_rendezvous _ _ Ha). Qed.

(** What stranding callers leaves. *)
Record stranding (y : Sys) (k' : IpcTables) : Prop := {
  st_aborts : aborts_only (tabs y) k';
  st_holds : forall s i u, holds (MkSys k' (conts y)) s i u -> holds y s i u;
  st_freed : forall u, freed (tabs y) u -> freed k' u
}.

Lemma stranding_refl y : stranding y (tabs y).
Proof. constructor; [apply aborts_refl|by destruct y|done]. Qed.

Lemma stranding_trans y k1 k2 : stranding y k1 -> stranding (MkSys k1 (conts y)) k2 -> stranding y k2.
Proof. intros [A1 A2 A3] [B1 B2 B3]. constructor; [by eapply aborts_trans|intros s i u Hx; by apply A2, B2|auto]. Qed.

Lemma strand_one D y c caller : inv_with D [] y -> is_Some (Scheduler.cpus (machine (tabs y)) !! c) -> (forall ep, ~ sending (tabs y) ep caller) ->
  exists did k', strand_reply_caller (tabs y) c caller = Done (did, k') /\ inv_with D [] (MkSys k' (conts y)) /\ stranding y k' /\
    (forall u, u <> caller -> hs k' !! u = hs (tabs y) !! u) /\ (forall ep, place_at (tabs y) caller = AtReply ep -> freed k' caller) /\
    (forall h, hs (tabs y) !! caller = Some h -> awaits_reply h = true -> did = true /\ hs k' !! caller = Some (woken (Handshake.abort h))).
Proof.
  intros Hi Hc Hv. destruct (strand_ok D y c caller Hi Hc Hv) as (did & k1 & Hr & Hi1 & Ha1 & Hb1 & Hh1 & Hd1). exists did, k1. split; [done|]. split; [done|].
  unfold handshake_of in Hd1. split; [|split; [done|split]].
  - constructor; [done..|]. intros u (h & Hh & Hab & Hw). destruct (decide (u = caller)) as [->|Hu]; [|exists h; by rewrite Hh1]. rewrite Hh in Hd1.
    destruct (awaits_reply h); [by destruct Hd1 as (_ & _ & ?)|]. destruct Hd1 as [_ ->]. by exists h.
  - intros ep Hpl. unfold place_at in Hpl. destruct (hs (tabs y) !! caller) as [h|] eqn:Hh; [|done]. rewrite (place_reply_awaits h ep Hpl) in Hd1. by destruct Hd1 as (_ & _ & ?).
  - intros h Hh Haw. rewrite Hh, Haw in Hd1. tauto.
Qed.

Lemma strand_each_ok D c vs y : inv_with D [] y -> is_Some (Scheduler.cpus (machine (tabs y)) !! c) -> Forall (fun v => forall ep, ~ sending (tabs y) ep v) vs ->
  exists k', strand_each (tabs y) c vs = Done k' /\ inv_with D [] (MkSys k' (conts y)) /\ stranding y k' /\
    Forall (fun v => forall ep, place_at (tabs y) v = AtReply ep -> freed k' v) vs.
Proof.
  revert y. induction vs as [|v rest IH]; intros y Hi Hc Hvs; cbn [strand_each].
  - exists (tabs y). split; [done|]. split; [by destruct y|]. split; [apply stranding_refl|constructor].
  - apply Forall_cons in Hvs as [Hv Hvs]. destruct (strand_one D y c v Hi Hc Hv) as (did & k1 & -> & Hi1 & Hs1 & Hh1 & Hf1 & _). cbn [mbind run_bind].
    destruct (IH (MkSys k1 (conts y)) Hi1) as (k2 & Hk2 & Hi2 & Hs2 & Hf2); [by eapply same_cores_some; [apply (ao_cores _ _ (st_aborts _ _ Hs1))|]| |].
    { eapply Forall_impl; [exact Hvs|]. intros u Hu ep. cbn [tabs]. rewrite (sending_kept _ _ _ _ (st_aborts _ _ Hs1)). apply Hu. }
    cbn [tabs conts] in *. exists k2. split; [exact Hk2|]. split; [done|]. split; [by eapply stranding_trans|]. constructor.
    + intros ep Hpl. apply (st_freed _ _ Hs2). by apply (Hf1 ep).
    + rewrite Forall_forall in Hf2 |- *. intros u Hu ep Hpl. destruct (decide (u = v)) as [->|Hne]; [apply (st_freed _ _ Hs2); by apply (Hf1 ep)|].
      apply (Hf2 u Hu ep). unfold place_at in *. by rewrite Hh1.
Qed.

Lemma elem_of_victims t v : v ∈ reply_victims t <-> exists i c, Capability.slots t !! i = Some (Some c) /\ Capability.object c = OReply v.
Proof.
  unfold reply_victims. rewrite list_elem_of_omap. split.
  - intros (o & [i Hi]%list_elem_of_lookup & Ho). destruct o as [c|]; [|done]. exists i, c. split; [done|]. destruct (Capability.object c) eqn:Hc; try done. by injection Ho as <-.
  - intros (i & c & Hi & Hc). exists (Some c). split; [by apply list_elem_of_lookup; exists i|]. by rewrite Hc.
Qed.

(** Everyone thread [t] could have answered is freed. *)
Lemma strand_callers_ok y c t : inv y -> is_Some (Scheduler.cpus (machine (tabs y)) !! c) -> (forall slot, conts y !! t <> Some (InReply slot)) ->
  exists k', strand_callers_of (tabs y) c t = Done k' /\ inv (MkSys k' (conts y)) /\ stranding y k' /\ (forall i v, holds y t i v -> freed k' v).
Proof.
  intros Hi Hc Hni. unfold strand_callers_of. destruct (tcbs (tabs y) !! t) as [b|] eqn:Hb.
  2: { exists (tabs y). split; [done|]. split; [by destruct y|]. split; [apply stranding_refl|]. intros i v (b & ? & Hb' & _). congruence. }
  assert (Hheld : forall i x v, slots_of b !! i = Some (Some x) -> Capability.object x = OReply v -> holds y t i v).
  { intros i x v Hx Ho. exists b, x. repeat split; try done. intros slot Hs. by apply Hni in Hs. }
  assert (Hout : forall v, v ∈ reply_victims (capability_table b) -> forall ep, ~ sending (tabs y) ep v).
  { intros v (i & x & Hx & Ho)%elem_of_victims. destruct (held_unqueued _ _ y t i v Hi ltac:(apply not_elem_of_nil) (Hheld i x v Hx Ho)) as (ep & h & b0 & _ & _ & _ & _ & _ & _ & _ & Hn & _). done. }
  destruct (strand_each_ok nothing c (reply_victims (capability_table b)) y Hi Hc) as (k' & Hk & Hi' & Hs & Hf); [by apply Forall_forall|].
  assert (Hfree : forall i v, holds y t i v -> v ∈ reply_victims (capability_table b) /\ freed k' v).
  { intros i v Hv. pose proof Hv as (b0 & x & Hb0 & Hx & Ho & _). assert (b0 = b) as -> by congruence. assert (v ∈ reply_victims (capability_table b)) by (apply elem_of_victims; eauto).
    split; [done|]. rewrite Forall_forall in Hf. destruct (inv_holds _ _ _ Hi t i v Hv) as [[ep Hep] _]. by apply (Hf v H ep). }
  destruct (Z.eqb_spec (Capability.used (capability_table b)) 0) as [Hu|Hu]; [|exists k'; split; [done|split; [done|split; [done|intros i v Hv; by apply (Hfree i v Hv)]]]].
  assert (Hempty : forall i v, ~ holds y t i v).
  { intros i v (b0 & x & Hb0 & Hx & _ & _). assert (b0 = b) as -> by congruence. destruct (proj1 (inv_dom _ _ _ Hi t)) as [h Hh]; [eauto|].
    pose proof (Capability.wf_used _ _ (ti_table _ _ _ _ _ (inv_threads _ _ _ Hi t h b Hh Hb))) as Hw. cbn [Capability.table] in Hw. rewrite Hu in Hw.
    pose proof (occupied_insert (slots_of b) i (Some x) None Hx) as Ho. cbn in Ho. lia. }
  exists (tabs y). split; [done|]. split; [by destruct y|]. split; [apply stranding_refl|]. intros i v Hv. by apply Hempty in Hv.
Qed.

(** ** An endpoint's callers *)

Lemma awaits_on_place ep h : place h = AtReply ep -> awaits_on ep h = true.
Proof.
  unfold place, awaits_on. destruct (Handshake.state h); try done; destruct (Handshake.wait_on h) as [[ep' []|]|]; try done; destruct (Handshake.is_delivered h) eqn:Hd; try done.
  cbn [place_of]. intros [= ->]. rewrite Z.eqb_refl. unfold Handshake.is_delivered in Hd. by apply orb_false_iff in Hd as [_ ->].
Qed.

Lemma inv_no_dying D y : inv_with D [] y -> (forall t ep, place_at (tabs y) t = AtReply ep -> ~ D ep) -> inv y.
Proof.
  intros [H1 H2 H3 H4 H5 [Q1 Q2 Q3 Q4 Q5 Q6 Q7 Q8 Q9] H7 H8] Hd. constructor; try done. constructor; try done.
  intros ep t Hp. destruct (Q6 ep t Hp) as [?|?]; [by left|]. by apply Hd in Hp.
Qed.

Lemma awaits_on_woken ep h : Handshake.state h = Handshake.Blocked -> awaits_on ep (woken (Handshake.abort h)) = false.
Proof.
  intros Hs. unfold awaits_on. destruct (woken_blocked (Handshake.abort h)) as [[_ ->]|[_ ->]]; [done|apply delivered_abort| |done]. cbn.
  destruct (Handshake.wait_on h) as [[? []|]|]; try done. by rewrite andb_false_r.
Qed.

Definition on_ep (ep : Z) (y : Sys) : gmap Z HS := filter (fun p => awaits_on ep p.2 = true) (hs (tabs y)).

Lemma strand_awaiting_ok ep c fuel y : inv_with (eq ep) [] y -> is_Some (Scheduler.cpus (machine (tabs y)) !! c) -> rendezvous_table (tabs y) !! ep = None ->
  (size (on_ep ep y) < fuel)%nat ->
  exists k', strand_awaiting fuel (tabs y) c ep = Done k' /\ inv (MkSys k' (conts y)) /\ stranding y k' /\ (forall t, place_at (tabs y) t = AtReply ep -> freed k' t).
Proof.
  revert y. induction fuel as [|fuel IH]; intros y Hi Hc Hgone Hf; [lia|]. cbn [strand_awaiting]. destruct (find _ _) as [[caller h]|] eqn:Hfind.
  - apply find_some in Hfind as [Hin Haw]. cbn [snd] in Haw. rewrite <- list_elem_of_In in Hin. apply elem_of_map_to_list in Hin.
    assert (Hwait : Handshake.wait_on h = Some (WRendezvous ep Reply)).
    { unfold awaits_on in Haw. destruct (Handshake.wait_on h) as [[on []|]|]; try done. by apply andb_true_iff in Haw as [->%Z.eqb_eq _]. }
    assert (Hns : forall ep', ~ sending (tabs y) ep' caller).
    { intros ep' Hs. pose proof Hs as (p & Hp & _). destruct (q_senders _ _ _ (inv_queues _ _ _ Hi) ep' caller Hs) as [Hpl _]. unfold place_at in Hpl. rewrite Hin in Hpl. unfold place in Hpl.
      rewrite Hwait in Hpl. assert (ep' = ep) as ->; [|congruence]. destruct (Handshake.state h); destruct (Handshake.is_delivered h); cbn in Hpl; destruct Hpl as [H|[H|H]]; try done; congruence. }
    destruct (strand_one (eq ep) y c caller Hi Hc Hns) as (did & k1 & -> & Hi1 & Hs1 & Hh1 & Hf1 & Hd1). cbn [mbind run_bind].
    destruct (Hd1 h Hin) as [-> Hk1]; [unfold awaits_reply; by rewrite Hwait|]. destruct (proj2 (inv_dom _ _ _ Hi caller)) as [b Hb]; [eauto|].
    assert (Hblk : Handshake.state h = Handshake.Blocked) by (eapply awaits_blocked; [exact (inv_threads _ _ _ Hi caller h b Hin Hb)|unfold awaits_reply; by rewrite Hwait]).
    assert (Hhs : hs k1 = <[caller := woken (Handshake.abort h)]> (hs (tabs y))).
    { apply map_eq. intros u. destruct (decide (caller = u)) as [<-|Hu]; [by rewrite lookup_insert_eq|by rewrite lookup_insert_ne, Hh1]. }
    destruct (IH (MkSys k1 (conts y)) Hi1) as (k2 & Hk2 & Hi2 & Hs2 & Hf2); cbn [tabs conts] in *.
    + by eapply same_cores_some; [apply (ao_cores _ _ (st_aborts _ _ Hs1))|].
    + by rewrite (ao_rendezvous _ _ (st_aborts _ _ Hs1)).
    + unfold on_ep in *. cbn [tabs]. rewrite Hhs, map_filter_insert_False by (cbn; by rewrite awaits_on_woken). rewrite map_filter_delete.
      assert (Hx : filter (fun p => awaits_on ep p.2 = true) (hs (tabs y)) !! caller = Some h) by by apply map_lookup_filter_Some_2.
      rewrite map_size_delete_Some by eauto. assert (size (filter (fun p => awaits_on ep p.2 = true) (hs (tabs y))) <> 0%nat); [|lia].
      intros Hz%map_size_empty_inv. by rewrite Hz in Hx.
    + exists k2. split; [done|]. split; [done|]. split; [by eapply stranding_trans|]. intros t Hpl. destruct (decide (t = caller)) as [->|Ht]; [apply (st_freed _ _ Hs2); by apply (Hf1 ep)|].
      apply Hf2. unfold place_at in *. by rewrite Hh1.
  - assert (Hnone : forall t, place_at (tabs y) t <> AtReply ep).
    { intros t Hpl. unfold place_at in Hpl. destruct (hs (tabs y) !! t) as [h|] eqn:Hh; [|done]. apply awaits_on_place in Hpl.
      pose proof (find_none _ _ Hfind (t, h)) as Hx. cbn [snd] in Hx. rewrite Hx in Hpl; [done|]. apply list_elem_of_In, elem_of_map_to_list, Hh. }
    exists (tabs y). split; [done|]. split; [|split; [apply stranding_refl|intros t Hpl; by apply Hnone in Hpl]].
    replace (MkSys (tabs y) (conts y)) with y by by destruct y. apply (inv_no_dying (eq ep)); [done|]. intros t ep' Hpl <-. by apply Hnone in Hpl.
Qed.

Lemma strand_callers_awaiting_ok ep c y : inv_with (eq ep) [] y -> is_Some (Scheduler.cpus (machine (tabs y)) !! c) -> rendezvous_table (tabs y) !! ep = None ->
  exists k', strand_callers_awaiting (tabs y) c ep = Done k' /\ inv (MkSys k' (conts y)) /\ stranding y k' /\ (forall t, place_at (tabs y) t = AtReply ep -> freed k' t).
Proof.
  intros Hi Hc Hgone. apply strand_awaiting_ok; try done. unfold on_ep. apply Nat.lt_succ_r. rewrite <- !size_dom. apply subseteq_size, dom_filter_subseteq.
Qed.

(** ** Departure *)

(** The running thread ends; what it wrote last does not matter to the queues. *)
Lemma sys_ended y c t h b s g : inv y -> at_core (tabs y) c t h b -> s = Handshake.Finished \/ s = Handshake.Dead -> (forall slot, conts y !! t <> Some (InReply slot)) ->
  capability_table (g b) = capability_table b -> outgoing_cap (g b) = outgoing_cap b -> fault_ep (g b) = fault_ep b ->
  inv (MkSys (if_thread (on_handshake (tabs y) t (fun h => Handshake.set_state h s)) t g) (conts y)).
Proof.
  intros Hi Hac Hs Hni Htb Ho Hf. pose proof (ac_hs _ _ _ _ _ Hac) as Hh. pose proof (ac_tcb _ _ _ _ _ Hac) as Hb. pose proof (inv_threads _ _ _ Hi t h b Hh Hb) as Hti.
  pose proof (ac_wait _ _ _ _ _ Hac) as Hw. set (k1 := if_thread _ _ _).
  assert (Hm : machine k1 = Scheduler.set_thread (machine (tabs y)) t (Handshake.set_state h s)) by exact (deliver_threads _ t (fun h => Handshake.set_state h s) h Hh).
  assert (Htc : tcbs k1 = <[t := g b]> (tcbs (tabs y))) by by apply alter_is_insert.
  assert (Hq : forall u, quiet (tabs y) k1 u).
  { intros u. destruct (decide (u = t)) as [->|Hu]; [|apply quiet_same; [rewrite Hm; cbn|rewrite Htc]; by rewrite lookup_insert_ne]. split.
    - rewrite (ac_nowhere _ _ _ _ _ Hac). unfold place_at. rewrite Hm. cbn. rewrite lookup_insert_eq. unfold place. cbn. rewrite Hw. by destruct Hs as [-> | ->].
    - intros b'. rewrite Htc, lookup_insert_eq. intros [= <-]. eauto. }
  apply (sys_update nothing [] nothing [] y _ [t] Hi); cbn [tabs conts]; try done.
  - rewrite Hm. apply (Scheduler.depart_inv (machine (tabs y)) c t h (if decide (s = Handshake.Finished) then None else Some None) _ (inv_machine _ _ _ Hi) (ac_runs _ _ _ _ _ Hac) Hh (ac_running _ _ _ _ _ Hac)).
    destruct (ac_runs _ _ _ _ _ Hac) as (p & Hp & _ & Hcur & _). unfold Scheduler.depart. rewrite Hp, Hcur, Hh. by destruct Hs as [-> | ->].
  - intros u Hu%not_elem_of_cons. rewrite Hm, Htc. cbn. rewrite !lookup_insert_ne by (destruct Hu; congruence). done.
  - intros u ->%list_elem_of_singleton. exists (Handshake.set_state h s), (g b). rewrite Hm, Htc. cbn [Scheduler.threads Scheduler.set_thread]. rewrite !lookup_insert_eq. split; [done|]. split; [done|].
    destruct (ti_tcb_ok _ _ _ _ _ Hti) as [Hwf Hrr]. destruct Hti as [H1 H2 H3 H4 H5 H6 H7 H8 H9 H10 H11].
    constructor; cbn [Handshake.set_state Handshake.state Handshake.wait_on Handshake.ipc_aborted Handshake.wake_pending]; try done; try (by destruct Hs as [-> | ->]).
    + by destruct Hs as [-> | ->]; intros [|].
    + congruence.
    + intros _. right. by destruct Hs as [-> | ->]; [right|left].
    + rewrite Ho, (ac_outgoing _ _ _ _ _ Hac). done.
    + by rewrite Htb.
    + by rewrite Htb.
  - apply (queues_still nothing [] (tabs y)); try done; [apply (inv_queues _ _ _ Hi)|exact (queues_distinct _ _ _ (inv_queues _ _ _ Hi))].
  - apply (replies_move y _ t (inv_replies _ _ _ Hi)); cbn [tabs]; [|by intros|by left]. intros s0 i u. apply holds_back. split; [|done]. cbn [tabs]. rewrite Htc. intros s1 b0.
    destruct (decide (t = s1)) as [<-|Hne].
    + rewrite lookup_insert_eq. intros [= <-]. exists b. split; [done|]. unfold slots_sub. by rewrite Htb.
    + rewrite lookup_insert_ne by done. intros Hb'. exists b0. split; [done|]. by intros ?.
Qed.

(** A corpse that waits for its supervisor. *)
Definition laid_out (ep : Z) (h : HS) : HS :=
  Handshake.MkHandshake (Handshake.state h) (Handshake.on_cpu h) (Handshake.wake_pending h) (Some (WRendezvous ep Sender)) (Handshake.ipc_served h) (Handshake.ipc_aborted h).

Lemma inv_corpse_joins y t h b ep p : inv y -> hs (tabs y) !! t = Some h -> tcbs (tabs y) !! t = Some b -> Handshake.state h = Handshake.Dead -> place_at (tabs y) t = Nowhere ->
  rendezvous_table (tabs y) !! ep = Some p -> Rendezvous.rcv_q (r_state p) = [] -> fault_ep b = Some ep ->
  inv (MkSys (on_handshake (put_endpoint (tabs y) ep p (Rendezvous.MkEndpoint (Rendezvous.snd_q (r_state p) ++ [t]) [] (Rendezvous.pend (r_state p)) (Rendezvous.bound (r_state p)))) t (laid_out ep)) (conts y)).
Proof.
  intros Hi Hh Hb Hd Hpl Hp Hr Hfe. pose proof (inv_threads _ _ _ Hi t h b Hh Hb) as Hti. pose proof (inv_queues _ _ _ Hi) as Hq.
  destruct (nowhere_unqueued _ _ _ t Hq ltac:(apply not_elem_of_nil) Hpl) as (_ & Hns & _).
  assert (Hnot : t ∉ Rendezvous.snd_q (r_state p)) by (intros Hx; apply (Hns ep); by exists p). set (e' := Rendezvous.MkEndpoint _ _ _ _). set (k1 := on_handshake _ _ _).
  assert (Hm : machine k1 = Scheduler.set_thread (machine (tabs y)) t (laid_out ep h)) by exact (deliver_threads _ t (laid_out ep) h Hh).
  assert (Hplc : place_at k1 t = AsCorpse ep) by (unfold place_at; rewrite Hm; cbn; rewrite lookup_insert_eq; unfold place; cbn; by rewrite Hd).
  assert (Hquiet : forall u, u <> t -> quiet (tabs y) k1 u) by (intros u Hu; apply quiet_same; [rewrite Hm; cbn; by rewrite lookup_insert_ne|done]).
  assert (Hback : forall s i u, holds (MkSys k1 (conts y)) s i u -> holds y s i u).
  { intros s i u. apply holds_back. split; [|done]. intros s0 b0 Hb0. exists b0. split; [done|]. by intros ?. }
  apply (sys_update nothing [] nothing [] y _ [t] Hi); cbn [tabs conts]; try done.
  - rewrite Hm. apply Scheduler.inv_set_thread; [apply (inv_machine _ _ _ Hi)|]. destruct (Scheduler.inv_live _ t h (inv_machine _ _ _ Hi) Hh) as [H1 H2 H3 H4 H5 H6 H7 H8 H9].
    constructor; try done.
  - intros u Hu%not_elem_of_cons. rewrite Hm. cbn. rewrite !lookup_insert_ne by (destruct Hu; congruence). done.
  - intros u ->%list_elem_of_singleton. exists (laid_out ep h), b. rewrite Hm. cbn [Scheduler.threads Scheduler.set_thread]. rewrite lookup_insert_eq. split; [done|]. split; [done|].
    assert (Ho : outgoing_cap b = None) by (eapply offers_nothing; [exact Hti|congruence|]; intros ep'; unfold place_at in Hpl; rewrite Hh in Hpl; by rewrite Hpl).
    destruct Hti as [H1 H2 H3 H4 H5 H6 H7 H8 H9 H10 H11]. constructor; cbn; try done; try congruence; try (by intros _ w [= <-]; exists ep); intros [?|?]; congruence.
  - apply (endpoint_join nothing [] (tabs y) k1 ep p e' t Hq); try done; [apply not_elem_of_nil| | |].
    + intros u Hu. cbn [e' Rendezvous.rcv_q Rendezvous.snd_q]. rewrite Hr, elem_of_app, list_elem_of_singleton. tauto.
    + cbn [e' Rendezvous.rcv_q Rendezvous.snd_q]. split; [|constructor]. apply NoDup_app. split; [apply (q_distinct _ _ _ Hq ep p Hp)|].
      split; [intros x Hx ->%list_elem_of_singleton; done|apply NoDup_singleton].
    + right. cbn [e' Rendezvous.rcv_q Rendezvous.snd_q]. split; [apply elem_of_app; right; constructor|]. split; [apply not_elem_of_nil|]. right. right. split; [done|]. intros b0 Hb0. change (tcbs k1) with (tcbs (tabs y)) in Hb0. congruence.
  - apply (replies_move y _ t (inv_replies _ _ _ Hi)); cbn [tabs]; [done|done|]. right. intros s i Hx%Hback. revert Hx. apply (unheld _ _ _ _ Hi). by rewrite Hpl.
Qed.

Lemma freed_other k k' r v : freed k v -> (forall u, u <> r -> hs k' !! u = hs k !! u) -> (forall h, hs k !! r = Some h -> Handshake.ipc_aborted h = false) -> freed k' v.
Proof.
  intros (h & Hh & Ha & Hw) Hsame Hr. exists h. split; [|done]. rewrite Hsame; [done|]. intros ->. specialize (Hr h Hh). congruence.
Qed.

Lemma deliver_death_ok y c t h b ep msg : inv y -> is_Some (Scheduler.cpus (machine (tabs y)) !! c) -> hs (tabs y) !! t = Some h -> tcbs (tabs y) !! t = Some b ->
  Handshake.state h = Handshake.Dead -> Handshake.wait_on h = None -> fault_ep b = Some ep ->
  exists k', deliver_death (tabs y) c t ep msg = Done k' /\ inv (MkSys k' (conts y)) /\ (forall v, v <> t -> freed (tabs y) v -> freed k' v) /\
    exists h', hs k' !! t = Some h' /\ Handshake.state h' = Handshake.Dead.
Proof.
  intros Hi Hc Hh Hb Hd Hw Hfe. unfold deliver_death. rewrite Hb. assert (Hpl : place_at (tabs y) t = Nowhere) by (unfold place_at; rewrite Hh; unfold place; by rewrite Hd, Hw).
  destruct (rendezvous_table (tabs y) !! ep) as [p|] eqn:Hp; [|exists (tabs y); split; [done|split; [by destruct y|split; [done|by exists h]]]].
  destruct (ep_send_cases (r_state p) t) as [[_ ->]|[(r & l & Hrl & ->)|[Hrl ->]]].
  - rewrite put_same by done. exists (tabs y). split; [done|]. split; [by destruct y|]. split; [done|by exists h].
  - destruct (receiver_thread y ep p r l Hi Hp Hrl) as (br & Hbr & Hok). set (e' := Rendezvous.MkEndpoint _ _ _ _).
    destruct (serve_receiver y c ep p r l (put_endpoint (tabs y) ep p e') br (set_mailbox msg) Hi Hc Hp Hrl) as (k2 & Hho & Hi2 & _ & _); try done; [by symmetry; apply insert_id| |].
    { intros br' Hbr'. assert (br' = br) as -> by congruence. split; [done|]. split; [done|by intros ?]. }
    exists k2. split; [done|]. split; [done|]. assert (Hrcv : receiving (tabs y) ep r) by (exists p; rewrite Hrl; split; [done|constructor]).
    pose proof (proj1 (q_receivers _ _ _ (inv_queues _ _ _ Hi) ep r) Hrcv) as [Hplr _]. destruct (placed_thread _ _ y r Hi) as (hr & br' & Hhr & Hbr' & Hphr & _); [congruence|].
    destruct (place_blocked hr) as [Hblk Hund]; [exists ep; left; congruence|].
    destruct (hand_over_effect (put_endpoint (tabs y) ep p e') c r hr br (set_mailbox msg) (inv_machine _ _ _ Hi) Hc Hhr Hbr) as (m' & Hho' & Hth & _). rewrite Hho in Hho'. injection Hho' as ->.
    cbn [machine put_endpoint set_rendezvous] in Hth |- *. assert (Hsame : forall u, u <> r -> Scheduler.threads m' !! u = hs (tabs y) !! u) by (intros u Hu; by rewrite Hth, lookup_insert_ne).
    split; [|exists h; rewrite Hsame; [done|congruence]]. intros v _ Hv. apply (freed_other _ _ r v Hv); [exact Hsame|]. intros h0 H0. assert (h0 = hr) as -> by congruence.
    unfold Handshake.is_delivered in Hund. by apply orb_false_iff in Hund as [_ ->].
  - eexists. split; [done|]. split; [by apply (inv_corpse_joins y t h b)|]. unfold on_handshake. cbn [machine put_endpoint set_rendezvous set_machine]. rewrite (deliver_threads _ t _ h Hh).
    cbn [Scheduler.threads Scheduler.set_thread]. split; [|eexists; by rewrite lookup_insert_eq]. intros v Hv (h0 & H0 & Hr). exists h0. cbn. by rewrite lookup_insert_ne.
Qed.

Lemma running_stranded y k' c t : stranding y k' -> running (tabs y) c t -> running k' c t.
Proof.
  intros Hs Hrun. pose proof Hrun as [_ (h & Hh & Hst)]. apply (running_kept _ _ c t Hrun); [apply (st_aborts _ _ Hs)|].
  rewrite Hh. apply (ao_kept _ _ (st_aborts _ _ Hs) t h Hh); congruence.
Qed.

(** The running thread ends: nobody it could have answered waits any longer. *)
Lemma depart_ok y c t event pc addr : inv y -> running (tabs y) c t -> (forall slot, conts y !! t <> Some (InReply slot)) ->
  exists k', depart (tabs y) c event pc addr = Done k' /\ inv (MkSys k' (conts y)) /\ (forall i v, holds y t i v -> freed k' v) /\
    exists h', hs k' !! t = Some h' /\ (Handshake.state h' = Handshake.Finished \/ Handshake.state h' = Handshake.Dead).
Proof.
  intros Hi Hrun Hni. destruct (at_core_of _ _ y c t Hi Hrun) as (h & b & Hac & Hti). unfold depart. rewrite (ac_current _ _ _ _ _ Hac). cbn [mbind run_bind].
  rewrite (ac_tcb _ _ _ _ _ Hac). cbn [mbind option_bind]. destruct (strand_callers_ok y c t Hi (ac_core _ _ _ _ _ Hac) Hni) as (k1 & -> & Hi1 & Hs1 & Hf1). cbn [mbind run_bind].
  pose proof (running_stranded y k1 c t Hs1 Hrun) as Hrun1. destruct (at_core_of _ _ (MkSys k1 (conts y)) c t Hi1 Hrun1) as (h1 & b1 & Hac1 & Hti1). cbn [tabs conts] in *.
  assert (Hfe1 : fault_ep b1 = fault_ep b) by (destruct (ao_tcbs _ _ (st_aborts _ _ Hs1) t b1 (ac_tcb _ _ _ _ _ Hac1)) as (b0 & Hb0 & _ & ->); pose proof (ac_tcb _ _ _ _ _ Hac); congruence).
  assert (Hnt : forall i v, holds y t i v -> v <> t).
  { intros i v Hv ->. destruct (inv_holds _ _ _ Hi t i t Hv) as [[ep Hep] _]. pose proof (ac_nowhere _ _ _ _ _ Hac). congruence. }
  assert (Hother : forall s g v, v <> t -> freed k1 v -> freed (if_thread (on_handshake k1 t (fun h => Handshake.set_state h s)) t g) v).
  { intros s g v Hv (h0 & H0 & Hr). exists h0. split; [|done]. unfold if_thread, on_handshake. cbn [machine set_machine set_tcbs].
    rewrite (deliver_threads _ t _ h1 (ac_hs _ _ _ _ _ Hac1)). cbn. by rewrite lookup_insert_ne. }
  destruct (fault_ep b) as [ep|] eqn:Hfe.
  - set (msg := MkMsg _ _ _ _ _). set (g := fun b => set_mailbox msg (set_fault_msg (Some msg) b)).
    pose proof (sys_ended (MkSys k1 (conts y)) c t h1 b1 Handshake.Dead g Hi1 Hac1 (or_intror eq_refl) Hni eq_refl eq_refl eq_refl) as Hi2. cbn [tabs conts] in Hi2.
    assert (Hh2 : hs (if_thread (on_handshake k1 t (fun h => Handshake.set_state h Handshake.Dead)) t g) !! t = Some (Handshake.set_state h1 Handshake.Dead)).
    { unfold if_thread, on_handshake. cbn [machine set_machine set_tcbs]. rewrite (deliver_threads _ t _ h1 (ac_hs _ _ _ _ _ Hac1)). cbn. by rewrite lookup_insert_eq. }
    destruct (deliver_death_ok _ c t (Handshake.set_state h1 Handshake.Dead) (g b1) ep msg Hi2) as (k3 & Hk3 & Hi3 & Hf3 & h3 & Hh3 & Hd3); cbn [tabs conts] in *; try done.
    + unfold if_thread, on_handshake. cbn [machine set_machine set_tcbs]. rewrite (deliver_threads _ t _ h1 (ac_hs _ _ _ _ _ Hac1)). apply Hac1.
    + cbn. rewrite lookup_alter_eq. change (tcbs (on_handshake k1 t _)) with (tcbs k1). by rewrite (ac_tcb _ _ _ _ _ Hac1).
    + apply Hac1.
    + exists k3. split; [exact Hk3|]. split; [done|]. split; [|exists h3; auto]. intros i v Hv. apply Hf3; [by apply (Hnt i)|]. apply Hother; [by apply (Hnt i)|by apply (Hf1 i)].
  - pose proof (sys_ended (MkSys k1 (conts y)) c t h1 b1 Handshake.Finished (fun b => b) Hi1 Hac1 (or_introl eq_refl) Hni eq_refl eq_refl eq_refl) as Hi2. cbn [tabs conts] in Hi2.
    assert (Hid : if_thread (on_handshake k1 t (fun h => Handshake.set_state h Handshake.Finished)) t (fun b => b) = on_handshake k1 t (fun h => Handshake.set_state h Handshake.Finished)).
    { unfold if_thread. rewrite (alter_is_insert _ t _ b1) by apply Hac1. rewrite insert_id by apply Hac1. by destruct (on_handshake k1 t _). }
    rewrite Hid in Hi2. eexists. split; [done|]. split; [done|]. split.
    + intros i v Hv. rewrite <- Hid. apply Hother; [by apply (Hnt i)|by apply (Hf1 i)].
    + unfold on_handshake. cbn [machine set_machine]. rewrite (deliver_threads _ t _ h1 (ac_hs _ _ _ _ _ Hac1)). eexists. cbn. rewrite lookup_insert_eq. split; [done|by left].
Qed.

Lemma killed_ok y c t : inv y -> running (tabs y) c t -> (forall slot, conts y !! t <> Some (InReply slot)) ->
  exists k', finish_killed_current (tabs y) c t = Done k' /\ inv (MkSys k' (conts y)) /\ (forall i v, holds y t i v -> freed k' v).
Proof.
  intros Hi Hrun Hni. destruct (at_core_of _ _ y c t Hi Hrun) as (h & b & Hac & Hti). unfold finish_killed_current.
  pose proof (sys_ended y c t h b Handshake.Finished (fun b => b) Hi Hac (or_introl eq_refl) Hni eq_refl eq_refl eq_refl) as Hi1.
  assert (Hid : if_thread (on_handshake (tabs y) t (fun h => Handshake.set_state h Handshake.Finished)) t (fun b => b) = set_machine (tabs y) (Scheduler.finish_killed_current (machine (tabs y)) t)).
  { unfold if_thread. rewrite (alter_is_insert _ t _ b) by apply Hac. rewrite insert_id by apply Hac. done. }
  rewrite Hid in Hi1. destruct (strand_callers_ok _ c t Hi1) as (k' & Hk & Hi' & _ & Hf); cbn [tabs conts] in *; [|done|].
  - unfold Scheduler.finish_killed_current. cbn [machine set_machine]. rewrite (deliver_threads _ t _ h (ac_hs _ _ _ _ _ Hac)). apply Hac.
  - exists k'. split; [done|]. split; [done|]. intros i v Hv. by apply (Hf i).
Qed.

(** ** Reaping a region's endpoints and notifications *)

Lemma queue_place D k ep p t : queues_ok D [] k -> rendezvous_table k !! ep = Some p -> t ∈ Rendezvous.snd_q (r_state p) ++ Rendezvous.rcv_q (r_state p) ->
  place_at k t = AtReceivers ep \/ place_at k t = AtSenders ep \/ place_at k t = AtReply ep \/ place_at k t = AsCorpse ep.
Proof.
  intros Hq Hp [Hs|Hr]%elem_of_app.
  - destruct (q_senders _ _ _ Hq ep t) as [H _]; [by exists p|tauto].
  - destruct (proj1 (q_receivers _ _ _ Hq ep t)) as [H _]; [by exists p|tauto].
Qed.

(** The queues of an endpoint are emptied. *)
Lemma endpoint_drain D k ep p e' : queues_ok D [] k -> rendezvous_table k !! ep = Some p -> Rendezvous.snd_q e' = [] -> Rendezvous.rcv_q e' = [] ->
  queues_ok D (Rendezvous.snd_q (r_state p) ++ Rendezvous.rcv_q (r_state p)) (put_endpoint k ep p e').
Proof.
  intros Hq Hp Hs Hr. pose proof (queue_place D k ep p) as Hplace. assert (Hput : rendezvous_table (put_endpoint k ep p e') = <[ep := MkRendezvousPage (r_page p) e']> (rendezvous_table k)) by done.
  assert (M1 : forall ep' t, receiving (put_endpoint k ep p e') ep' t <-> ep' <> ep /\ receiving k ep' t).
  { intros ep' t. rewrite (receiving_put k _ ep p e' ep' t Hp Hput). case_decide; [rewrite Hr, elem_of_nil|]; tauto. }
  assert (M2 : forall ep' t, sending (put_endpoint k ep p e') ep' t <-> ep' <> ep /\ sending k ep' t).
  { intros ep' t. rewrite (sending_put k _ ep p e' ep' t Hp Hput). case_decide; [rewrite Hs, elem_of_nil|]; tauto. }
  assert (Hmem : forall t, t ∈ Rendezvous.snd_q (r_state p) ++ Rendezvous.rcv_q (r_state p) <-> sending k ep t \/ receiving k ep t).
  { intros t. rewrite elem_of_app. unfold sending, receiving. rewrite Hp. split; [intros [?|?]; [left|right]; by exists p|]. intros [(q & [= <-] & ?)|(q & [= <-] & ?)]; tauto. }
  assert (Hout : forall t ep', ep' <> ep -> sending k ep' t \/ receiving k ep' t \/ (exists id, noticing k id t) -> t ∉ Rendezvous.snd_q (r_state p) ++ Rendezvous.rcv_q (r_state p)).
  { intros t ep' Hne Hx Hin. specialize (Hplace t Hq Hp Hin). destruct Hx as [Hx|[Hx|[id Hx]]].
    - destruct (q_senders _ _ _ Hq ep' t Hx) as [H _]. destruct Hplace as [Y|[Y|[Y|Y]]], H as [H|[H|H]]; congruence.
    - apply (q_receivers _ _ _ Hq) in Hx as [H _]. destruct Hplace as [Y|[Y|[Y|Y]]]; congruence.
    - apply (q_waiters _ _ _ Hq) in Hx as [H _]. destruct Hplace as [Y|[Y|[Y|Y]]]; congruence. }
  assert (Hin : forall t, t ∉ Rendezvous.snd_q (r_state p) ++ Rendezvous.rcv_q (r_state p) -> ~ sending k ep t /\ ~ receiving k ep t) by (intros t; rewrite Hmem; tauto).
  assert (Hnil : forall t, t ∉ (@nil Z)) by (intros t; apply not_elem_of_nil). constructor.
  - intros ep' t. rewrite M1. split.
    + intros [Hne Hx]. split; [by apply (q_receivers _ _ _ Hq)|]. apply (Hout t ep' Hne). tauto.
    + intros [Hpl Hn]. assert (Hx : receiving k ep' t) by (apply (q_receivers _ _ _ Hq); split; [exact Hpl|apply Hnil]). split; [|done]. intros ->. by apply Hin in Hn as [_ ?].
  - intros ep' t [Hne Hx]%M2. split; [by apply (q_senders _ _ _ Hq)|]. apply (Hout t ep' Hne). tauto.
  - intros ep' t Hpl Hn. apply M2. assert (Hx : sending k ep' t) by (apply (q_sender _ _ _ Hq); [exact Hpl|apply Hnil]). split; [|done]. intros ->. by apply Hin in Hn as [? _].
  - intros ep' t b [_ Hx]%M2. by apply (q_caller _ _ _ Hq ep').
  - intros id t. change (noticing (put_endpoint k ep p e') id t) with (noticing k id t). rewrite (q_waiters _ _ _ Hq). split; [|intros [? _]; split; [done|apply Hnil]].
    intros [Hpl _]. split; [exact Hpl|]. intros Hx. specialize (Hplace t Hq Hp Hx). change (place_at (put_endpoint k ep p e') t) with (place_at k t) in Hpl. destruct Hplace as [Y|[Y|[Y|Y]]]; congruence.
  - intros ep' t Hpl. destruct (q_reply _ _ _ Hq ep' t Hpl) as [Hx|Hx]; [left|by right]. rewrite Hput. destruct (decide (ep = ep')) as [<-|Hne]; [rewrite lookup_insert_eq; eauto|by rewrite lookup_insert_ne].
  - intros ep' t b. apply (q_corpse _ _ _ Hq).
  - intros ep' p'. rewrite Hput. destruct (decide (ep = ep')) as [<-|Hne]; [rewrite lookup_insert_eq|rewrite lookup_insert_ne by done; apply (q_distinct _ _ _ Hq)].
    intros [= <-]. cbn. rewrite Hs, Hr. split; constructor.
  - apply (q_distinct_notes _ _ _ Hq).
Qed.

(** The object tables change, the threads do not. *)
Lemma sys_retable D P D' P' y k1 : inv_with D P y -> machine k1 = machine (tabs y) -> tcbs k1 = tcbs (tabs y) -> PEAK k1 = PEAK (tabs y) -> queues_ok D' P' k1 ->
  inv_with D' P' (MkSys k1 (conts y)).
Proof.
  intros Hi Hm Htc Hpk Hq. destruct Hi as [H1 H2 H3 H4 H5 _ H7 H8].
  assert (Hback : forall s i u, holds (MkSys k1 (conts y)) s i u -> holds y s i u) by (intros s i u (b & x & Hb & Hr); exists b, x; cbn [tabs] in Hb; by rewrite Htc in Hb).
  constructor; cbn [tabs conts]; rewrite ?Hm, ?Htc, ?Hpk; try done.
  - intros s i t Hx%Hback. unfold place_at. rewrite Hm. by apply (H7 s i).
  - intros s i s' i' t Hx%Hback Hx'%Hback. by eapply H8.
Qed.

Lemma endpoint_gone D k ep p : queues_ok D [] k -> rendezvous_table k !! ep = Some p -> Rendezvous.snd_q (r_state p) = [] -> Rendezvous.rcv_q (r_state p) = [] ->
  queues_ok (fun e => e = ep \/ D e) [] (set_rendezvous k (delete ep (rendezvous_table k))).
Proof.
  intros [Q1 Q2 Q3 Q4 Q5 Q6 Q7 Q8 Q9] Hp Hs Hr. set (k1 := set_rendezvous _ _).
  assert (M1 : forall ep' t, receiving k1 ep' t <-> receiving k ep' t).
  { intros ep' t. unfold receiving. cbn [k1 rendezvous_table set_rendezvous]. destruct (decide (ep = ep')) as [<-|Hne]; [rewrite lookup_delete_eq|by rewrite lookup_delete_ne].
    split; [by intros (q & ? & _)|]. intros (q & Hq & Hx). assert (q = p) as -> by congruence. rewrite Hr in Hx. by apply elem_of_nil in Hx. }
  assert (M2 : forall ep' t, sending k1 ep' t <-> sending k ep' t).
  { intros ep' t. unfold sending. cbn [k1 rendezvous_table set_rendezvous]. destruct (decide (ep = ep')) as [<-|Hne]; [rewrite lookup_delete_eq|by rewrite lookup_delete_ne].
    split; [by intros (q & ? & _)|]. intros (q & Hq & Hx). assert (q = p) as -> by congruence. rewrite Hs in Hx. by apply elem_of_nil in Hx. }
  constructor; try done.
  - intros ep' t. rewrite M1. apply Q1.
  - intros ep' t Hx%M2. by apply Q2.
  - intros ep' t Hpl Hn. apply M2. by apply Q3.
  - intros ep' t b Hx%M2. by apply (Q4 ep').
  - intros ep' t Hpl. destruct (decide (ep = ep')) as [<-|Hne]; [right; by left|]. destruct (Q6 ep' t Hpl) as [Hx|Hx]; [left|right; by right]. cbn. by rewrite lookup_delete_ne.
  - intros ep' p'. cbn [k1 rendezvous_table set_rendezvous]. intros [_ Hx]%lookup_delete_Some. by apply (Q8 ep').
Qed.

Lemma queues_dying D D' P k : queues_ok D P k -> (forall e, D e -> D' e) -> queues_ok D' P k.
Proof. intros [Q1 Q2 Q3 Q4 Q5 Q6 Q7 Q8 Q9] Hd. constructor; try done. intros ep t Hp. destruct (Q6 ep t Hp); auto. Qed.

Lemma freed_nowhere D P y t : inv_with D P y -> freed (tabs y) t -> place_at (tabs y) t = Nowhere.
Proof.
  intros Hi (h & Hh & Ha & Hw). unfold place_at. rewrite Hh. unfold place, Handshake.is_delivered. rewrite Ha, orb_true_r.
  destruct Hw as [Hw|Hw]; [|by rewrite Hw]. destruct (Scheduler.lo_pending _ _ (Scheduler.inv_live _ t h (inv_machine _ _ _ Hi) Hh) Hw) as [-> _]. by destruct (Handshake.wait_on h).
Qed.

(** What tearing objects down leaves of the threads. *)
Record keeps (k k' : IpcTables) : Prop := {
  kp_cores : same_cores (machine k) (machine k');
  kp_dom : forall t, is_Some (hs k' !! t) <-> is_Some (hs k !! t);
  kp_kept : forall t h, hs k !! t = Some h -> Handshake.state h <> Handshake.Blocked -> Handshake.state h <> Handshake.Dead -> hs k' !! t = Some h;
  kp_dead : forall t h, hs k !! t = Some h -> Handshake.state h = Handshake.Dead -> exists h', hs k' !! t = Some h' /\ Handshake.state h' = Handshake.Dead /\ Handshake.on_cpu h' = Handshake.on_cpu h;
  kp_tcbs : forall t b', tcbs k' !! t = Some b' -> exists b, tcbs k !! t = Some b /\ page b' = page b;
  kp_freed : forall t, freed k t -> freed k' t
}.

Lemma keeps_same k k' : machine k' = machine k -> tcbs k' = tcbs k -> keeps k k'.
Proof. intros Hm Ht. constructor; unfold freed; rewrite ?Hm, ?Ht; try done; eauto. Qed.

Lemma keeps_trans k1 k2 k3 : keeps k1 k2 -> keeps k2 k3 -> keeps k1 k3.
Proof.
  intros [A1 A4 A6 A7 A8 A9] [B1 B4 B6 B7 B8 B9]. constructor; [by eapply same_cores_trans| | | | |auto].
  - intros t. by rewrite B4.
  - intros t h Hh H1 H2. apply B6; [by apply A6|done..].
  - intros t h Hh Hd. destruct (A7 t h Hh Hd) as (h1 & Hh1 & Hd1 & Hc1). destruct (B7 t h1 Hh1 Hd1) as (h2 & Hh2 & Hd2 & Hc2). exists h2. split; [done|]. split; congruence.
  - intros t b' (b1 & Hb1 & H1)%B8. destruct (A8 t b1 Hb1) as (b & Hb & H3). exists b. split; [done|]. congruence.
Qed.

Lemma keeps_aborts k k' : aborts_only k k' -> keeps k k'.
Proof. intros [A1 A2 A3 A4 A5 A9 A6 A7 A8]. constructor; try done. intros t b' (b & Hb & H1 & _)%A8. eauto. Qed.

Lemma keeps_core k k' c : keeps k k' -> is_Some (Scheduler.cpus (machine k) !! c) -> is_Some (Scheduler.cpus (machine k') !! c).
Proof. intros Hk. apply same_cores_some, Hk. Qed.

(** A drained queue is aborted. *)
Lemma abort_drain D c y ws : inv_with D ws y -> is_Some (Scheduler.cpus (machine (tabs y)) !! c) -> NoDup ws ->
  Forall (fun t => place_at (tabs y) t <> Nowhere /\ forall s i, ~ holds y s i t) ws ->
  exists k', abort_each (tabs y) c ws = Done k' /\ inv_with D [] (MkSys k' (conts y)) /\ aborts_only (tabs y) k' /\ keeps (tabs y) k' /\
    (forall u, u ∉ ws -> hs k' !! u = hs (tabs y) !! u) /\ Forall (fun t => (forall ep, place_at (tabs y) t <> AsCorpse ep) -> freed k' t) ws.
Proof.
  intros Hi Hc Hnd Hws. destruct (abort_each_ok D c ws y Hi Hc Hnd Hws) as (k' & Hk & Hi' & Ha & _ & Hh & Hf). exists k'. split; [done|]. split; [done|]. split; [done|]. split; [|done].
  by apply keeps_aborts.
Qed.

Definition waits_at (k : IpcTables) (ep t : Z) : Prop := place_at k t = AtReceivers ep \/ place_at k t = AtSenders ep \/ place_at k t = AtReply ep.

(** A thread keeps its place or is freed. *)
Definition only_leave (k k' : IpcTables) : Prop := forall t, place_at k' t = place_at k t \/ freed k' t.

Lemma only_leave_trans k1 k2 k3 : only_leave k1 k2 -> only_leave k2 k3 -> keeps k2 k3 -> only_leave k1 k3.
Proof. intros H1 H2 Hk t. destruct (H2 t) as [->|?]; [|by right]. destruct (H1 t) as [?|?]; [by left|right; by apply Hk]. Qed.

Lemma reap_rendezvous_ok y c name p : inv y -> is_Some (Scheduler.cpus (machine (tabs y)) !! c) -> rendezvous_table (tabs y) !! name = Some p ->
  exists k', reap_rendezvous (tabs y) c name = Done k' /\ inv (MkSys k' (conts y)) /\ keeps (tabs y) k' /\ only_leave (tabs y) k' /\
    rendezvous_table k' = delete name (rendezvous_table (tabs y)) /\ notification_table k' = notification_table (tabs y) /\ (forall t, waits_at (tabs y) name t -> freed k' t).
Proof.
  intros Hi Hc Hp. pose proof (inv_queues _ _ _ Hi) as Hq. unfold reap_rendezvous. rewrite Hp. unfold ep_drain. cbn [Rendezvous.spec_call].
  set (e' := Rendezvous.MkEndpoint _ _ _ _). set (ws := Rendezvous.snd_q (r_state p) ++ Rendezvous.rcv_q (r_state p)).
  pose proof (sys_retable nothing [] nothing ws y (put_endpoint (tabs y) name p e') Hi eq_refl eq_refl eq_refl (endpoint_drain nothing (tabs y) name p e' Hq Hp eq_refl eq_refl)) as Hi1.
  assert (Hplace : forall t, t ∈ ws -> place_at (tabs y) t = AtReceivers name \/ place_at (tabs y) t = AtSenders name \/ place_at (tabs y) t = AtReply name \/ place_at (tabs y) t = AsCorpse name)
    by (intros t; by apply (queue_place nothing)).
  destruct (abort_drain nothing c _ ws Hi1) as (k1 & Hk1 & Hi2 & Ha1 & Hkp1 & Hh1 & Hf1); cbn [tabs conts] in *.
  { done. }
  { destruct (q_distinct _ _ _ Hq name p Hp) as [H1 H2]. apply NoDup_app. split; [done|]. split; [|done]. intros t Hs Hr.
    destruct (q_senders _ _ _ Hq name t) as [Hx _]; [by exists p|]. destruct (proj1 (q_receivers _ _ _ Hq name t)) as [Hy _]; [by exists p|]. destruct Hx as [X|[X|X]]; congruence. }
  { apply Forall_forall. intros t Ht. split; [change (place_at (put_endpoint (tabs y) name p e') t) with (place_at (tabs y) t); destruct (Hplace t Ht) as [->|[->|[->| ->]]]; done|].
    intros s i Hx. assert (Hy : holds y s i t) by exact Hx. destruct (held_unqueued _ _ y s i t Hi ltac:(apply not_elem_of_nil) Hy) as (ep & h & b & _ & _ & _ & _ & _ & _ & N1 & N2 & _).
    apply elem_of_app in Ht as [Ht|Ht]; [apply (N2 name)|apply (N1 name)]; by exists p. }
  rewrite Hk1. cbn [mbind run_bind]. assert (Hp1 : rendezvous_table k1 !! name = Some (MkRendezvousPage (r_page p) e')) by (rewrite (ao_rendezvous _ _ Ha1); cbn; by rewrite lookup_insert_eq).
  set (k2 := set_rendezvous k1 _).
  assert (Hi3 : inv_with (eq name) [] (MkSys k2 (conts y))).
  { apply (sys_retable nothing [] (eq name) [] (MkSys k1 (conts y)) k2 Hi2 eq_refl eq_refl eq_refl). eapply queues_dying; [exact (endpoint_gone nothing k1 name _ (inv_queues _ _ _ Hi2) Hp1 eq_refl eq_refl)|].
    intros e [->|[]]. done. }
  assert (Hkp2 : keeps (tabs y) k2) by (eapply keeps_trans; [|by apply (keeps_same k1)]; eapply keeps_trans; [|exact Hkp1]; by apply keeps_same).
  destruct (strand_callers_awaiting_ok name c (MkSys k2 (conts y)) Hi3) as (k3 & Hk3 & Hi4 & Hs & Hf3); cbn [tabs conts] in *.
  { by apply (keeps_core (tabs y)). } { cbn. by rewrite lookup_delete_eq. }
  exists k3. split; [exact Hk3|]. split; [done|]. pose proof (keeps_aborts _ _ (st_aborts _ _ Hs)) as Hkp3. cbn [tabs] in Hkp3. split; [by eapply keeps_trans|].
  assert (Hpl1 : only_leave (tabs y) k2) by exact (ao_places _ _ Ha1).
  split; [|split; [|split]].
  - eapply only_leave_trans; [exact Hpl1|exact (ao_places _ _ (st_aborts _ _ Hs))|exact Hkp3].
  - rewrite (ao_rendezvous _ _ (st_aborts _ _ Hs)). cbn [tabs k2 rendezvous_table set_rendezvous]. rewrite (ao_rendezvous _ _ Ha1). cbn. by rewrite delete_insert_eq.
  - rewrite (ao_notifications _ _ (st_aborts _ _ Hs)). cbn [tabs k2 notification_table set_rendezvous]. by rewrite (ao_notifications _ _ Ha1).
  - intros t Hw. destruct (decide (t ∈ ws)) as [Hin|Hin].
    + apply (st_freed _ _ Hs). rewrite Forall_forall in Hf1. apply (Hf1 t Hin). intros ep. change (place_at (put_endpoint (tabs y) name p e') t) with (place_at (tabs y) t). destruct Hw as [->|[->| ->]]; done.
    + apply Hf3. assert (place_at k2 t = place_at (tabs y) t) as -> by (unfold place_at; cbn [k2 machine set_rendezvous]; by rewrite Hh1).
      destruct Hw as [Hw|[Hw|Hw]]; [| |done]; destruct Hin; apply elem_of_app.
      * destruct (proj2 (q_receivers _ _ _ Hq name t)) as (q & Hq' & Hx); [split; [done|apply not_elem_of_nil]|]. right. congruence.
      * destruct (q_sender _ _ _ Hq name t Hw) as (q & Hq' & Hx); [apply not_elem_of_nil|]. left. congruence.
Qed.

Lemma notification_drain D k id p e' : queues_ok D [] k -> notification_table k !! id = Some p -> Notification.queue e' = [] ->
  queues_ok D (Notification.queue (n_state p)) (put_cell k id p e').
Proof.
  intros Hq Hp Hn. assert (Hmem : forall t, t ∈ Notification.queue (n_state p) <-> noticing k id t).
  { intros t. unfold noticing. rewrite Hp. split; [by exists p|by intros (q & [= <-] & ?)]. }
  assert (Hpl : forall t, t ∈ Notification.queue (n_state p) -> place_at k t = AtWaiters id) by (intros t Ht%Hmem; by apply (q_waiters _ _ _ Hq)).
  assert (M : forall id' t, noticing (put_cell k id p e') id' t <-> id' <> id /\ noticing k id' t).
  { intros id' t. erewrite (noticing_put k (put_cell k id p e') id p e' (n_bound p) id' t Hp) by reflexivity. case_decide; [rewrite Hn, elem_of_nil|]; tauto. }
  assert (Hnil : forall t, t ∉ (@nil Z)) by (intros t; apply not_elem_of_nil).
  destruct Hq as [Q1 Q2 Q3 Q4 Q5 Q6 Q7 Q8 Q9]. constructor; try done.
  - intros ep t. change (receiving k ep t <-> place_at k t = AtReceivers ep /\ t ∉ Notification.queue (n_state p)). rewrite Q1. split; [|intros [? _]; split; [done|apply Hnil]].
    intros [Hx _]. split; [done|]. intros ?%Hpl. congruence.
  - intros ep t Hx. destruct (Q2 ep t Hx) as [Hy _]. split; [exact Hy|]. intros Hz%Hpl. destruct Hy as [Y|[Y|Y]]; congruence.
  - intros ep t Hx _. by apply Q3.
  - intros id' t. rewrite M. split.
    + intros [Hne Hx]. apply Q5 in Hx as [Hx _]. split; [exact Hx|]. intros ?%Hpl. congruence.
    + intros [Hx Hz]. assert (Hy : noticing k id' t) by (apply Q5; split; [exact Hx|apply Hnil]). split; [|done]. intros ->. by apply Hz, Hmem.
  - intros id' p'. cbn [put_cell notification_table set_notifications]. destruct (decide (id = id')) as [<-|Hne]; [rewrite lookup_insert_eq|rewrite lookup_insert_ne by done; apply Q9].
    intros [= <-]. cbn. rewrite Hn. constructor.
Qed.

Lemma notification_gone D k id p : queues_ok D [] k -> notification_table k !! id = Some p -> Notification.queue (n_state p) = [] ->
  queues_ok D [] (set_notifications k (delete id (notification_table k))).
Proof.
  intros [Q1 Q2 Q3 Q4 Q5 Q6 Q7 Q8 Q9] Hp Hn. set (k1 := set_notifications _ _). constructor; try done.
  - intros id' t. change (place_at k1 t) with (place_at k t). rewrite <- (Q5 id' t). unfold noticing. cbn [k1 notification_table set_notifications]. destruct (decide (id = id')) as [<-|Hne]; [rewrite lookup_delete_eq|by rewrite lookup_delete_ne].
    split; [by intros (q & ? & _)|]. intros (q & Hq & Hx). assert (q = p) as -> by congruence. rewrite Hn in Hx. by apply elem_of_nil in Hx.
  - intros id' p'. cbn [k1 notification_table set_notifications]. intros [_ Hx]%lookup_delete_Some. by apply (Q9 id').
Qed.

Lemma reap_notification_ok y c name p : inv y -> is_Some (Scheduler.cpus (machine (tabs y)) !! c) -> notification_table (tabs y) !! name = Some p ->
  exists k', reap_notification (tabs y) c name = Done k' /\ inv (MkSys k' (conts y)) /\ keeps (tabs y) k' /\ only_leave (tabs y) k' /\
    rendezvous_table k' = rendezvous_table (tabs y) /\ notification_table k' = delete name (notification_table (tabs y)) /\ (forall t, place_at (tabs y) t = AtWaiters name -> freed k' t).
Proof.
  intros Hi Hc Hp. pose proof (inv_queues _ _ _ Hi) as Hq. unfold reap_notification. rewrite Hp. cbn [Notification.spec_call]. set (e' := Notification.MkCell _ _). set (ws := Notification.queue (n_state p)).
  pose proof (sys_retable nothing [] nothing ws y (put_cell (tabs y) name p e') Hi eq_refl eq_refl eq_refl (notification_drain nothing (tabs y) name p e' Hq Hp eq_refl)) as Hi1.
  assert (Hpl : forall t, t ∈ ws <-> place_at (tabs y) t = AtWaiters name).
  { intros t. rewrite <- (and_True (place_at (tabs y) t = AtWaiters name)). transitivity (place_at (tabs y) t = AtWaiters name /\ t ∉ (@nil Z)).
    - rewrite <- (q_waiters _ _ _ Hq name t). unfold noticing. rewrite Hp. split; [by exists p|by intros (q & [= <-] & ?)].
    - split; [tauto|]. intros [? _]. split; [done|apply not_elem_of_nil]. }
  destruct (abort_drain nothing c _ ws Hi1) as (k1 & Hk1 & Hi2 & Ha1 & Hkp1 & Hh1 & Hf1); cbn [tabs conts] in *.
  { done. } { apply (q_distinct_notes _ _ _ Hq name p Hp). }
  { apply Forall_forall. intros t Ht%Hpl. change (place_at (put_cell (tabs y) name p e') t) with (place_at (tabs y) t). rewrite Ht. split; [done|]. intros s i Hx. assert (Hy : holds y s i t) by exact Hx.
    revert Hy. apply (unheld _ _ _ _ Hi). by rewrite Ht. }
  rewrite Hk1. cbn [mbind run_bind]. assert (Hp1 : notification_table k1 !! name = Some (MkNotificationPage (n_page p) e' (n_bound p))) by (rewrite (ao_notifications _ _ Ha1); cbn; by rewrite lookup_insert_eq).
  eexists. split; [done|]. set (k2 := set_notifications k1 _). split; [|split; [|split; [|split; [|split]]]].
  - apply (sys_retable nothing [] nothing [] (MkSys k1 (conts y)) k2 Hi2 eq_refl eq_refl eq_refl). by apply (notification_gone nothing k1 name _ (inv_queues _ _ _ Hi2) Hp1).
  - eapply keeps_trans; [|by apply (keeps_same k1)]. eapply keeps_trans; [|exact Hkp1]. by apply keeps_same.
  - exact (ao_places _ _ Ha1).
  - cbn [k2 rendezvous_table set_notifications]. by rewrite (ao_rendezvous _ _ Ha1).
  - cbn [k2 notification_table set_notifications]. rewrite (ao_notifications _ _ Ha1). cbn. by rewrite delete_insert_eq.
  - intros t Ht. rewrite Forall_forall in Hf1. apply (Hf1 t); [by apply Hpl|]. intros ep. change (place_at (put_cell (tabs y) name p e') t) with (place_at (tabs y) t). by rewrite Ht.
Qed.

(** The endpoints and notifications of a region. *)
Definition doomed_wait (base end_ : Z) (k : IpcTables) (t : Z) : Prop :=
  (exists ep p, rendezvous_table k !! ep = Some p /\ in_region base end_ (r_page p) = true /\ waits_at k ep t) \/
  (exists id p, notification_table k !! id = Some p /\ in_region base end_ (n_page p) = true /\ place_at k t = AtWaiters id).

Definition objects_gone (base end_ : Z) (k : IpcTables) : Prop :=
  (forall ep p, rendezvous_table k !! ep = Some p -> in_region base end_ (r_page p) = false) /\
  (forall id p, notification_table k !! id = Some p -> in_region base end_ (n_page p) = false).

Lemma find_map_some {X} (f : Z * X -> bool) (m : gmap Z X) i x : find f (map_to_list m) = Some (i, x) -> m !! i = Some x /\ f (i, x) = true.
Proof. intros [Hin Hf]%find_some. rewrite <- list_elem_of_In in Hin. by apply elem_of_map_to_list in Hin. Qed.

Lemma find_map_none {X} (f : Z * X -> bool) (m : gmap Z X) i x : find f (map_to_list m) = None -> m !! i = Some x -> f (i, x) = false.
Proof. intros Hf Hx. apply (find_none _ _ Hf). by apply list_elem_of_In, elem_of_map_to_list. Qed.

Lemma reap_rendezvous_loop_ok c base end_ fuel y : inv y -> is_Some (Scheduler.cpus (machine (tabs y)) !! c) -> (size (rendezvous_table (tabs y)) < fuel)%nat ->
  exists k', reap_rendezvous_loop fuel (tabs y) c base end_ = Done k' /\ inv (MkSys k' (conts y)) /\ keeps (tabs y) k' /\ only_leave (tabs y) k' /\
    notification_table k' = notification_table (tabs y) /\ (forall ep p, rendezvous_table k' !! ep = Some p -> in_region base end_ (r_page p) = false) /\
    (forall t ep p, rendezvous_table (tabs y) !! ep = Some p -> in_region base end_ (r_page p) = true -> waits_at (tabs y) ep t -> freed k' t).
Proof.
  revert y. induction fuel as [|fuel IH]; intros y Hi Hc Hf; [lia|]. cbn [reap_rendezvous_loop]. destruct (find _ _) as [[name p]|] eqn:Hfind.
  - apply find_map_some in Hfind as [Hp Hin]. cbn [snd] in Hin. destruct (reap_rendezvous_ok y c name p Hi Hc Hp) as (k1 & -> & Hi1 & Hkp1 & Hol1 & Hr1 & Hn1 & Hf1). cbn [mbind run_bind].
    destruct (IH (MkSys k1 (conts y)) Hi1) as (k2 & Hk2 & Hi2 & Hkp2 & Hol2 & Hn2 & Hgone & Hf2); cbn [tabs conts] in *; [by eapply keeps_core| |].
    { rewrite Hr1, map_size_delete_Some by eauto. assert (size (rendezvous_table (tabs y)) <> 0%nat); [|lia]. intros Hz%map_size_empty_inv. by rewrite Hz in Hp. }
    exists k2. split; [exact Hk2|]. split; [done|]. split; [by eapply keeps_trans|]. split; [by eapply only_leave_trans; [exact Hol1|..]|]. split; [congruence|]. split; [done|]. intros t ep q Hq Hir Hw.
    destruct (decide (name = ep)) as [<-|Hne]; [apply (kp_freed _ _ Hkp2); by apply Hf1|]. destruct (Hol1 t) as [Hs|Hs].
    + apply (Hf2 t ep q); [by rewrite Hr1, lookup_delete_ne|done|]. unfold waits_at in *. by rewrite Hs.
    + by apply (kp_freed _ _ Hkp2).
  - exists (tabs y). split; [done|]. split; [by destruct y|]. split; [by apply keeps_same|]. split; [by left|]. split; [done|]. split; [intros ep q Hq; exact (find_map_none _ _ _ _ Hfind Hq)|].
    intros t ep q Hq Hir. pose proof (find_map_none _ _ _ _ Hfind Hq) as Hx. cbn [snd] in Hx. congruence.
Qed.

Lemma reap_notifications_loop_ok c base end_ fuel y : inv y -> is_Some (Scheduler.cpus (machine (tabs y)) !! c) -> (size (notification_table (tabs y)) < fuel)%nat ->
  exists k', reap_region_notifications fuel (tabs y) c base end_ = Done k' /\ inv (MkSys k' (conts y)) /\ keeps (tabs y) k' /\ only_leave (tabs y) k' /\
    rendezvous_table k' = rendezvous_table (tabs y) /\ (forall id p, notification_table k' !! id = Some p -> in_region base end_ (n_page p) = false) /\
    (forall t id p, notification_table (tabs y) !! id = Some p -> in_region base end_ (n_page p) = true -> place_at (tabs y) t = AtWaiters id -> freed k' t).
Proof.
  revert y. induction fuel as [|fuel IH]; intros y Hi Hc Hf; [lia|]. cbn [reap_region_notifications]. destruct (find _ _) as [[name p]|] eqn:Hfind.
  - apply find_map_some in Hfind as [Hp Hin]. cbn [snd] in Hin. destruct (reap_notification_ok y c name p Hi Hc Hp) as (k1 & -> & Hi1 & Hkp1 & Hol1 & Hr1 & Hn1 & Hf1). cbn [mbind run_bind].
    destruct (IH (MkSys k1 (conts y)) Hi1) as (k2 & Hk2 & Hi2 & Hkp2 & Hol2 & Hr2 & Hgone & Hf2); cbn [tabs conts] in *; [by eapply keeps_core| |].
    { rewrite Hn1, map_size_delete_Some by eauto. assert (size (notification_table (tabs y)) <> 0%nat); [|lia]. intros Hz%map_size_empty_inv. by rewrite Hz in Hp. }
    exists k2. split; [exact Hk2|]. split; [done|]. split; [by eapply keeps_trans|]. split; [by eapply only_leave_trans; [exact Hol1|..]|]. split; [congruence|]. split; [done|]. intros t id q Hq Hir Hw.
    destruct (decide (name = id)) as [<-|Hne]; [apply (kp_freed _ _ Hkp2); by apply Hf1|]. destruct (Hol1 t) as [Hs|Hs].
    + apply (Hf2 t id q); [by rewrite Hn1, lookup_delete_ne|done|congruence].
    + by apply (kp_freed _ _ Hkp2).
  - exists (tabs y). split; [done|]. split; [by destruct y|]. split; [by apply keeps_same|]. split; [by left|]. split; [done|]. split; [intros id q Hq; exact (find_map_none _ _ _ _ Hfind Hq)|].
    intros t id q Hq Hir. pose proof (find_map_none _ _ _ _ Hfind Hq) as Hx. cbn [snd] in Hx. congruence.
Qed.

(** ** Residents that are blocked *)

(** One thread is unlinked from the queue it waits in. *)
Lemma queues_unlinked D k k1 t : queues_ok D [] k -> machine k1 = machine k -> tcbs k1 = tcbs k ->
  (forall u ep, u <> t -> (receiving k1 ep u <-> receiving k ep u) /\ (sending k1 ep u <-> sending k ep u)) -> (forall u id, u <> t -> noticing k1 id u <-> noticing k id u) ->
  (forall ep, ~ receiving k1 ep t) -> (forall ep, ~ sending k1 ep t) -> (forall id, ~ noticing k1 id t) ->
  (forall ep, is_Some (rendezvous_table k !! ep) -> is_Some (rendezvous_table k1 !! ep)) -> distinct k1 -> queues_ok D [t] k1.
Proof.
  intros [Q1 Q2 Q3 Q4 Q5 Q6 Q7 Q8 Q9] Hm Htc Hep Hno N1 N2 N3 Hdom [Hd1 Hd2].
  assert (Hpl : forall u, place_at k1 u = place_at k u) by (intros u; unfold place_at; by rewrite Hm).
  assert (Hnt : forall u, u ∉ [t] <-> u <> t) by (intros u; by rewrite list_elem_of_singleton).
  assert (Hnil : forall u, u ∉ (@nil Z)) by (intros u; apply not_elem_of_nil).
  constructor; try done; rewrite ?Htc.
  - intros ep u. rewrite Hnt, Hpl. destruct (decide (u = t)) as [->|Hu]; [split; [by intros ?%N1|tauto]|]. rewrite (proj1 (Hep u ep Hu)), Q1. split; [tauto|]. intros [? _]. by split.
  - intros ep u Hs. rewrite Hnt, Hpl. destruct (decide (u = t)) as [->|Hu]; [by apply N2 in Hs|]. apply Hep in Hs; [|done]. split; [by apply Q2|done].
  - intros ep u. rewrite Hpl, Hnt. intros Hp Hu. apply Hep; [done|]. by apply Q3.
  - intros ep u b Hs. rewrite Hpl. destruct (decide (u = t)) as [->|Hu]; [by apply N2 in Hs|]. apply Hep in Hs; [|done]. by apply (Q4 ep).
  - intros id u. rewrite Hnt, Hpl. destruct (decide (u = t)) as [->|Hu]; [split; [by intros ?%N3|tauto]|]. rewrite (Hno u id Hu), Q5. split; [tauto|]. intros [? _]. by split.
  - intros ep u. rewrite Hpl. intros [?|?]%Q6; auto.
  - intros ep u b. rewrite Hpl. apply Q7.
Qed.

Lemma endpoint_unlinked D k ep p t : queues_ok D [] k -> rendezvous_table k !! ep = Some p -> (place_at k t = AtReceivers ep \/ place_at k t = AtSenders ep \/ place_at k t = AtReply ep) ->
  queues_ok D [t] (put_endpoint k ep p (ep_remove_receiver (ep_remove_sender (r_state p) t) t)).
Proof.
  intros Hq Hp Hpl. set (e' := ep_remove_receiver _ _). set (k1 := put_endpoint _ _ _ _).
  assert (Hput : rendezvous_table k1 = <[ep := MkRendezvousPage (r_page p) e']> (rendezvous_table k)) by done.
  assert (Hr : forall u, u ∈ Rendezvous.rcv_q e' <-> u ∈ Rendezvous.rcv_q (r_state p) /\ u <> t) by (intros u; etransitivity; [apply Rendezvous.elem_of_without|tauto]).
  assert (Hs : forall u, u ∈ Rendezvous.snd_q e' <-> u ∈ Rendezvous.snd_q (r_state p) /\ u <> t) by (intros u; etransitivity; [apply Rendezvous.elem_of_without|tauto]).
  assert (Hnil : t ∉ (@nil Z)) by apply not_elem_of_nil. destruct (queues_placed _ _ _ t Hq Hnil) as [P1 P2 _ _ P5 _ _].
  apply (queues_unlinked D k k1 t Hq); try done.
  - intros u ep' Hu. rewrite (receiving_put k k1 ep p e' ep' u Hp Hput), (sending_put k k1 ep p e' ep' u Hp Hput). case_decide as He; [|done]. subst ep'. rewrite Hr, Hs.
    unfold receiving, sending. rewrite Hp. split; (split; [intros [? _]; by exists p|by intros (q & [= <-] & ?)]).
  - intros ep'. rewrite (receiving_put k k1 ep p e' ep' t Hp Hput). case_decide as He; [rewrite Hr; tauto|]. rewrite P1. destruct Hpl as [X|[X|X]]; congruence.
  - intros ep'. rewrite (sending_put k k1 ep p e' ep' t Hp Hput). case_decide as He; [rewrite Hs; tauto|]. intros Hx%P2. destruct Hpl as [X|[X|X]], Hx as [Y|[Y|Y]]; congruence.
  - intros id. change (noticing k1 id t) with (noticing k id t). rewrite P5. destruct Hpl as [X|[X|X]]; congruence.
  - intros ep' Hx. rewrite Hput. destruct (decide (ep = ep')) as [<-|Hne]; [rewrite lookup_insert_eq; eauto|by rewrite lookup_insert_ne].
  - split; [|apply (q_distinct_notes _ _ _ Hq)]. intros ep' p'. rewrite Hput. destruct (decide (ep = ep')) as [<-|Hne]; [rewrite lookup_insert_eq|rewrite lookup_insert_ne by done; apply (q_distinct _ _ _ Hq)].
    intros [= <-]. destruct (q_distinct _ _ _ Hq ep p Hp). split; by apply NoDup_filter.
Qed.

Lemma notification_unlinked D k id p t : queues_ok D [] k -> notification_table k !! id = Some p -> place_at k t = AtWaiters id ->
  queues_ok D [t] (put_cell k id p (Notification.spec_call (Notification.CRemove t) (n_state p)).2).
Proof.
  intros Hq Hp Hpl. cbn [Notification.spec_call snd]. set (e' := Notification.MkCell _ _). set (k1 := put_cell _ _ _ _).
  assert (Hput : notification_table k1 = <[id := MkNotificationPage (n_page p) e' (n_bound p)]> (notification_table k)) by done.
  assert (He : forall u, u ∈ Notification.queue e' <-> u ∈ Notification.queue (n_state p) /\ u <> t) by (intros u; etransitivity; [apply Rendezvous.elem_of_without|tauto]).
  assert (Hnil : t ∉ (@nil Z)) by apply not_elem_of_nil. destruct (queues_placed _ _ _ t Hq Hnil) as [P1 P2 _ _ P5 _ _].
  apply (queues_unlinked D k k1 t Hq); try done.
  - intros u id' Hu. rewrite (noticing_put k k1 id p e' (n_bound p) id' u Hp Hput). case_decide as Hx; [|done]. subst id'. rewrite He. unfold noticing. rewrite Hp.
    split; [intros [? _]; by exists p|by intros (q & [= <-] & ?)].
  - intros ep. change (receiving k1 ep t) with (receiving k ep t). rewrite P1. congruence.
  - intros ep Hx. change (sending k ep t) in Hx. apply P2 in Hx as [X|[X|X]]; congruence.
  - intros id'. rewrite (noticing_put k k1 id p e' (n_bound p) id' t Hp Hput). case_decide as Hx; [rewrite He; tauto|]. rewrite P5. congruence.
  - split; [apply (q_distinct _ _ _ Hq)|]. intros id' p'. rewrite Hput. destruct (decide (id = id')) as [<-|Hne]; [rewrite lookup_insert_eq|rewrite lookup_insert_ne by done; apply (q_distinct_notes _ _ _ Hq)].
    intros [= <-]. apply NoDup_filter, (q_distinct_notes _ _ _ Hq id p Hp).
Qed.
End IpcTeardown.
