(* ===== verification/IpcReap.v ===== *)
(** * Reaping a region's threads and objects (kernel/src/sched.rs)

    That [reap_region_objects] always ends, keeps [IpcInvariant.inv], frees every
    thread that waited on an object of the region, and leaves no name for one. *)

From S2P Require Import Prelude Capability IntrusiveFifo Rendezvous Notification Handshake Scheduler Revocation MappingCalls KernelIpc IpcInvariant IpcTeardown.
Local Open Scope Z_scope.

Module IpcReap.
Import Revocation KernelIpc IpcInvariant IpcTeardown.
#[local] Existing Instance Handshake.RunState_eq_dec.

(** A parked thread that has left its core waits where its handshake says. *)
Lemma parked_place D P y t h : inv_with D P y -> hs (tabs y) !! t = Some h -> Handshake.state h = Handshake.Blocked -> Handshake.on_cpu h = false ->
  exists w, Handshake.wait_on h = Some w /\ place h = place_of w.
Proof.
  intros Hi Hh Hb Hc. destruct (Scheduler.inv_live _ t h (inv_machine _ _ _ Hi) Hh) as [_ _ Hp Hw Hd _ _ _ _]. specialize (Hw Hb). unfold place. rewrite Hb.
  destruct (Handshake.wait_on h) as [w|]; [|done]. exists w. split; [done|]. destruct (Handshake.is_delivered h); [|done]. destruct (Hp (Hd Hb eq_refl)). congruence.
Qed.

(** Thread [t], off its queue and named by no reply capability, is ended. *)
Lemma sys_finished D y t h b : inv_with D [t] y -> hs (tabs y) !! t = Some h -> tcbs (tabs y) !! t = Some b -> Handshake.state h = Handshake.Blocked -> Handshake.on_cpu h = false ->
  (forall c, outgoing_cap b = Some c -> is_reply_cap c = false) -> (forall s i, ~ holds y s i t) ->
  inv_with D [] (MkSys (on_handshake (if_thread (tabs y) t (set_killed true)) t Scheduler.finish_blocked_resident) (conts y)).
Proof.
  intros Hi Hh Hb Hblk Hoc Ho Hun. pose proof (inv_threads _ _ _ Hi t h b Hh Hb) as Hti. set (k1 := on_handshake _ _ _).
  assert (Hm : machine k1 = Scheduler.set_thread (machine (tabs y)) t (Scheduler.finish_blocked_resident h)) by exact (deliver_threads _ t Scheduler.finish_blocked_resident h Hh).
  assert (Htc : tcbs k1 = <[t := set_killed true b]> (tcbs (tabs y))) by by apply alter_is_insert.
  assert (Hquiet : forall u, u <> t -> quiet (tabs y) k1 u) by (intros u Hu; apply quiet_same; [rewrite Hm; cbn|rewrite Htc]; by rewrite lookup_insert_ne).
  assert (Hback : forall s i u, holds (MkSys k1 (conts y)) s i u -> holds y s i u).
  { intros s i u. apply holds_back. split; [|done]. cbn [tabs]. rewrite Htc. intros s0 b0. destruct (decide (t = s0)) as [<-|Hne].
    + rewrite lookup_insert_eq. intros [= <-]. exists b. split; [done|by intros ?].
    + rewrite lookup_insert_ne by done. intros Hb'. exists b0. split; [done|]. by intros ?. }
  apply (sys_update D [t] D [] y _ [t] Hi); cbn [tabs conts]; try done.
  - rewrite Hm. pose proof (Scheduler.reap_inv (machine (tabs y)) t (inv_machine _ _ _ Hi)) as Hr. unfold Scheduler.reap_resident in Hr. rewrite Hh in Hr.
    unfold Scheduler.region_reap_verdict in Hr. rewrite Hblk, Hoc in Hr. exact Hr.
  - intros u Hu%not_elem_of_cons. rewrite Hm, Htc. cbn. rewrite !lookup_insert_ne by (destruct Hu; congruence). done.
  - intros u ->%list_elem_of_singleton. exists (Scheduler.finish_blocked_resident h), (set_killed true b). rewrite Hm, Htc. cbn [Scheduler.threads Scheduler.set_thread].
    rewrite !lookup_insert_eq. split; [done|]. split; [done|]. destruct Hti as [H1 H2 H3 H4 H5 H6 H7 H8 H9 H10 H11].
    constructor; cbn [Scheduler.finish_blocked_resident Handshake.state Handshake.wait_on Handshake.ipc_aborted Handshake.wake_pending]; try done; try (by intros [?|?]); try tauto.
    + intros c Hc. left. split; [done|by apply Ho].
    + intros _ slot Hs. destruct (H1 Hblk) as (c & w & Hc & Hw & _). rewrite Hs in Hc. by injection Hc as <-.
  - apply (queues_undrain D (tabs y) k1 t [] (inv_queues _ _ _ Hi)); try done. left. unfold place_at. rewrite Hm. cbn. by rewrite lookup_insert_eq.
  - apply (replies_move y _ t (inv_replies _ _ _ Hi)); cbn [tabs]; [done|done|]. right. intros s i Hx%Hback. by apply Hun in Hx.
Qed.

(** What ending one blocked thread leaves of the others. *)
Record ends_one (k k' : IpcTables) (t : Z) : Prop := {
  eo_machine : machine k' = Scheduler.deliver (machine k) t Scheduler.finish_blocked_resident;
  eo_tcbs : forall u b', tcbs k' !! u = Some b' -> exists b, tcbs k !! u = Some b /\ page b' = page b;
  eo_rendezvous : forall ep p', rendezvous_table k' !! ep = Some p' -> exists p, rendezvous_table k !! ep = Some p /\ r_page p' = r_page p;
  eo_notifications : forall id p', notification_table k' !! id = Some p' -> exists p, notification_table k !! id = Some p /\ n_page p' = n_page p
}.

Lemma finish_blocked_ok y t h : inv y -> hs (tabs y) !! t = Some h -> Handshake.state h = Handshake.Blocked -> Handshake.on_cpu h = false ->
  exists k', finish_blocked_resident (tabs y) t = Done k' /\ inv (MkSys k' (conts y)) /\ ends_one (tabs y) k' t.
Proof.
  intros Hi Hh Hblk Hoc. destruct (parked_place _ _ y t h Hi Hh Hblk Hoc) as (w & Hw & Hph). pose proof (inv_queues _ _ _ Hi) as Hq.
  assert (Hpl : place_at (tabs y) t = place_of w) by (unfold place_at; by rewrite Hh). unfold finish_blocked_resident, handshake_of. rewrite Hh, Hw. cbn [is_none negb is_some].
  assert (exists k1, match w with WRendezvous ep _ => match rendezvous_table (tabs y) !! ep with Some p => put_endpoint (tabs y) ep p (ep_remove_receiver (ep_remove_sender (r_state p) t) t) | None => tabs y end
      | WNotification id => match notification_table (tabs y) !! id with Some p => put_cell (tabs y) id p (Notification.spec_call (Notification.CRemove t) (n_state p)).2 | None => tabs y end end = k1 /\
    queues_ok nothing [t] k1 /\ machine k1 = machine (tabs y) /\ tcbs k1 = tcbs (tabs y) /\ PEAK k1 = PEAK (tabs y) /\
    (forall ep p', rendezvous_table k1 !! ep = Some p' -> exists p, rendezvous_table (tabs y) !! ep = Some p /\ r_page p' = r_page p) /\
    (forall id p', notification_table k1 !! id = Some p' -> exists p, notification_table (tabs y) !! id = Some p /\ n_page p' = n_page p)) as (k1 & Hk1 & Hq1 & Hm1 & Htc1 & Hpk1 & Hr1 & Hn1).
  { destruct w as [ep r|id].
    - assert (Hx : place_at (tabs y) t = AtReceivers ep \/ place_at (tabs y) t = AtSenders ep \/ place_at (tabs y) t = AtReply ep) by (rewrite Hpl; destruct r; cbn; tauto).
      assert (is_Some (rendezvous_table (tabs y) !! ep)) as [p Hp].
      { destruct Hx as [Hx|[Hx|Hx]].
        - destruct (proj2 (q_receivers _ _ _ Hq ep t)) as (p & Hp & _); [split; [done|apply not_elem_of_nil]|eauto].
        - destruct (q_sender _ _ _ Hq ep t Hx) as (p & Hp & _); [apply not_elem_of_nil|eauto].
        - by destruct (q_reply _ _ _ Hq ep t Hx) as [?|[]]. }
      rewrite Hp. eexists. split; [done|]. split; [by apply endpoint_unlinked|]. split; [done|]. split; [done|]. split; [done|]. split; [|eauto].
      intros ep' p'. cbn. destruct (decide (ep = ep')) as [<-|Hne]; [rewrite lookup_insert_eq; intros [= <-]; eauto|rewrite lookup_insert_ne by done; eauto].
    - destruct (proj2 (q_waiters _ _ _ Hq id t)) as (p & Hp & _); [split; [done|apply not_elem_of_nil]|].
      rewrite Hp. eexists. split; [done|]. split; [by apply notification_unlinked|]. split; [done|]. split; [done|]. split; [done|]. split; [eauto|].
      intros id' p'. cbn. destruct (decide (id = id')) as [<-|Hne]; [rewrite lookup_insert_eq; intros [= <-]; eauto|rewrite lookup_insert_ne by done; eauto]. }
  rewrite Hk1. pose proof (sys_retable nothing [] nothing [t] y k1 Hi Hm1 Htc1 Hpk1 Hq1) as Hi1.
  destruct (sweep_ok nothing [t] (MkSys k1 (conts y)) t Hi1) as (tc & Hsw & Hi2 & Hun & Hold).
  { intros ep Hs. destruct (q_senders _ _ _ Hq1 ep t Hs) as [_ Hx]. apply Hx. constructor. }
  cbn [tabs conts] in *. rewrite Hsw. cbn [mbind run_bind]. destruct (proj2 (inv_dom _ _ _ Hi2 t)) as [b2 Hb2]; [cbn; rewrite Hm1; eauto|]. cbn [tabs] in Hb2.
  assert (Hh2 : hs (set_tcbs k1 tc) !! t = Some h) by (cbn; by rewrite Hm1). eexists. split; [done|]. split.
  - apply (sys_finished nothing (MkSys (set_tcbs k1 tc) (conts y)) t h b2 Hi2 Hh2 Hb2 Hblk Hoc); [|done]. intros x Hx.
    destruct (Hold t b2 Hb2) as (b & Hb & tb & -> & _). cbn [outgoing_cap set_outgoing] in Hx. destruct (outgoing_cap b) as [z|] eqn:Hz; [|done]. case_bool_decide as Hob; [done|]. injection Hx as <-.
    rewrite Htc1 in Hb. destruct (ti_outgoing _ _ _ _ _ (inv_threads _ _ _ Hi t h b Hh Hb) z Hz) as [[_ ?]|[(ep & _ & ?)|(ep & _ & ->)]]; [done..|]. by cbn in Hob.
  - constructor; cbn; [by rewrite Hm1| |done|done]. intros u b'. change (alter (set_killed true) t tc !! u = Some b' -> exists b, tcbs (tabs y) !! u = Some b /\ page b' = page b).
    rewrite lookup_alter_Some. rewrite <- Htc1. intros [(<- & b0 & Hb0 & ->)|[_ Hb0]]; destruct (Hold _ _ Hb0) as (b & Hb & tb & -> & _); by exists b.
Qed.

Lemma keeps_ended y k' t h : inv y -> hs (tabs y) !! t = Some h -> Handshake.state h = Handshake.Blocked -> Handshake.on_cpu h = false -> ends_one (tabs y) k' t -> keeps (tabs y) k'.
Proof.
  intros Hi Hh Hblk Hoc [Em Et _ _]. rewrite (deliver_threads _ t _ h Hh) in Em.
  assert (Hsame : forall u, u <> t -> hs k' !! u = hs (tabs y) !! u) by (intros u Hu; rewrite Em; cbn; by rewrite lookup_insert_ne).
  constructor; try done.
  - by rewrite Em.
  - intros u. rewrite Em. cbn. destruct (decide (t = u)) as [<-|Hne]; [rewrite lookup_insert_eq, Hh; split; eauto|by rewrite lookup_insert_ne].
  - intros u hu Hu Hn _. rewrite Hsame; [done|congruence].
  - intros u hu Hu Hd. exists hu. rewrite Hsame; [done|congruence].
  - intros u (hu & Hu & Ha & Hw). exists hu. rewrite Hsame; [done|]. intros ->. assert (hu = h) as -> by congruence. destruct Hw as [Hw|Hw]; [|congruence].
    destruct (Scheduler.lo_pending _ _ (Scheduler.inv_live _ t h (inv_machine _ _ _ Hi) Hh) Hw). congruence.
Qed.

Definition is_blocked (p : Z * HS) : Prop := Handshake.state p.2 = Handshake.Blocked.

Lemma resident_verdict base end_ k t b v : resident base end_ k t b v = true ->
  in_region base end_ (page b) = true /\ exists h, hs k !! t = Some h /\ Scheduler.region_reap_verdict (Handshake.state h) (Handshake.on_cpu h) = v.
Proof.
  unfold resident, handshake_of. intros [Hr Hv]%andb_true_iff. split; [done|]. destruct (hs k !! t) as [h|]; [|done]. exists h. split; [done|].
  by destruct (Scheduler.region_reap_verdict _ _), v.
Qed.

Lemma verdict_resident base end_ k t b h : in_region base end_ (page b) = true -> hs k !! t = Some h ->
  resident base end_ k t b (Scheduler.region_reap_verdict (Handshake.state h) (Handshake.on_cpu h)) = true.
Proof. intros Hr Hh. unfold resident, handshake_of. rewrite Hr, Hh. by destruct (Scheduler.region_reap_verdict _ _). Qed.

Lemma finish_in_place (h : HS) : Scheduler.region_reap_verdict (Handshake.state h) (Handshake.on_cpu h) = Scheduler.FinishInPlace ->
  Handshake.state h = Handshake.Blocked /\ Handshake.on_cpu h = false.
Proof. unfold Scheduler.region_reap_verdict. by destruct (Handshake.state h), (Handshake.on_cpu h). Qed.

Lemma finish_blocked_loop_ok base end_ fuel y : inv y -> (size (filter is_blocked (hs (tabs y))) < fuel)%nat ->
  exists k', finish_blocked_loop fuel (tabs y) base end_ = Done k' /\ inv (MkSys k' (conts y)) /\ keeps (tabs y) k' /\
    (objects_gone base end_ (tabs y) -> objects_gone base end_ k') /\ (forall t b, tcbs k' !! t = Some b -> resident base end_ k' t b Scheduler.FinishInPlace = false).
Proof.
  revert y. induction fuel as [|fuel IH]; intros y Hi Hf; [lia|]. cbn [finish_blocked_loop]. destruct (find _ _) as [[t b]|] eqn:Hfind.
  - apply find_map_some in Hfind as [Hb Hr]. cbn [fst snd] in Hr. apply resident_verdict in Hr as (Hreg & h & Hh & Hv%finish_in_place). destruct Hv as [Hblk Hoc].
    destruct (finish_blocked_ok y t h Hi Hh Hblk Hoc) as (k1 & -> & Hi1 & He). cbn [mbind run_bind]. pose proof (keeps_ended y k1 t h Hi Hh Hblk Hoc He) as Hkp1.
    destruct (IH (MkSys k1 (conts y)) Hi1) as (k2 & Hk2 & Hi2 & Hkp2 & Hg2 & Hdone); cbn [tabs conts] in *.
    + rewrite (eo_machine _ _ _ He), (deliver_threads _ t _ h Hh). cbn [Scheduler.threads Scheduler.set_thread]. rewrite map_filter_insert_False by done. rewrite map_filter_delete.
      assert (Hx : filter is_blocked (hs (tabs y)) !! t = Some h) by by apply map_lookup_filter_Some_2.
      rewrite map_size_delete_Some by eauto. assert (size (filter is_blocked (hs (tabs y))) <> 0%nat); [|lia]. intros Hz%map_size_empty_inv. by rewrite Hz in Hx.
    + exists k2. split; [exact Hk2|]. split; [done|]. split; [by eapply keeps_trans|]. split; [|done]. intros [G1 G2]. apply Hg2. split.
      * intros ep p' (p & Hp & ->)%(eo_rendezvous _ _ _ He). by apply (G1 ep).
      * intros id p' (p & Hp & ->)%(eo_notifications _ _ _ He). by apply (G2 id).
  - exists (tabs y). split; [done|]. split; [by destruct y|]. split; [by apply keeps_same|]. split; [done|]. intros t b Hb. exact (find_map_none _ _ _ _ Hfind Hb).
Qed.

(** Fields the invariant does not mention change in several threads. *)
Lemma sys_fields y tc : inv y -> (forall t, is_Some (tc !! t) <-> is_Some (tcbs (tabs y) !! t)) ->
  (forall t b', tc !! t = Some b' -> exists b, tcbs (tabs y) !! t = Some b /\ capability_table b' = capability_table b /\ outgoing_cap b' = outgoing_cap b /\ fault_ep b' = fault_ep b) ->
  inv (MkSys (set_tcbs (tabs y) tc) (conts y)).
Proof.
  intros [H1 H2 H3 H4 H5 [Q1 Q2 Q3 Q4 Q5 Q6 Q7 Q8 Q9] H7 H8] Hdom Hf.
  assert (Hback : forall s i u, holds (MkSys (set_tcbs (tabs y) tc) (conts y)) s i u -> holds y s i u).
  { intros s i u (b' & x & Hb' & Hsl & Hr). destruct (Hf s b' Hb') as (b & Hb & Ht & _). exists b, x. rewrite Ht in Hsl. done. }
  constructor; cbn [tabs conts set_tcbs machine tcbs PEAK]; try done.
  - intros t. rewrite Hdom. apply H2.
  - intros t h b' Hh Hb'. destruct (Hf t b' Hb') as (b & Hb & Ht & Ho & _). destruct (H5 t h b Hh Hb) as [T1 T2 T3 T4 T5 T6 T7 T8 T9 T10 T11]. constructor; rewrite ?Ho, ?Ht; done.
  - constructor; try done; cbn [set_tcbs tcbs].
    + intros ep t b' Hs Hpl Hb'. destruct (Hf t b' Hb') as (b & Hb & _ & -> & _). by apply (Q4 ep).
    + intros ep t b' Hpl Hb'. destruct (Hf t b' Hb') as (b & Hb & _ & _ & ->). by apply (Q7 ep t).
  - intros s i t Hx%Hback. destruct (H7 s i t Hx) as [Hp Ho]. split; [exact Hp|]. intros b' Hb'. destruct (Hf t b' Hb') as (b & Hb & _ & -> & _). by apply Ho.
  - intros s i s' i' t Hx%Hback Hx'%Hback. by eapply H8.
Qed.

Lemma arm_ok base end_ y : inv y -> let '(refused, k1) := arm_residents (tabs y) base end_ in
  inv (MkSys k1 (conts y)) /\ keeps (tabs y) k1 /\ machine k1 = machine (tabs y) /\ rendezvous_table k1 = rendezvous_table (tabs y) /\ notification_table k1 = notification_table (tabs y) /\
  (refused = false -> forall t b h, tcbs k1 !! t = Some b -> in_region base end_ (page b) = true -> hs k1 !! t = Some h ->
     Scheduler.region_reap_verdict (Handshake.state h) (Handshake.on_cpu h) = Scheduler.ReapNow).
Proof.
  intros Hi. unfold arm_residents. set (armed := fun (t : Z) (b : Tcb) => resident base end_ (tabs y) t b Scheduler.RefuseAndArm || resident base end_ (tabs y) t b Scheduler.FinishInPlace).
  set (tc := map_imap _ _). cbv beta zeta.
  assert (Hl : forall t, tc !! t = (fun b => if armed t b then set_killed true b else b) <$> tcbs (tabs y) !! t).
  { intros t. unfold tc. rewrite map_lookup_imap. by destruct (tcbs (tabs y) !! t). }
  assert (Hf : forall t b', tc !! t = Some b' -> exists b, tcbs (tabs y) !! t = Some b /\ (b' = b \/ b' = set_killed true b)).
  { intros t b'. rewrite Hl. destruct (tcbs (tabs y) !! t) as [b|]; [|done]. intros [= <-]. exists b. split; [done|]. destruct (armed t b); auto. }
  split; [|split; [|split; [done|split; [done|split; [done|]]]]].
  - apply sys_fields; [done| |].
    + intros t. rewrite Hl. destruct (tcbs (tabs y) !! t); split; intros [x Hx]; try done; eauto.
    + intros t b' (b & Hb & [->| ->])%Hf; by exists b.
  - constructor; try done; eauto. intros t b' (b & Hb & [->| ->])%Hf; by exists b.
  - intros Hr t b' h (b & Hb & Hb')%Hf Hreg Hh. cbn in Hh. assert (Hp : page b' = page b) by (by destruct Hb' as [->| ->]). rewrite Hp in Hreg.
    pose proof (verdict_resident base end_ (tabs y) t b h Hreg Hh) as Hv. 
    destruct (Scheduler.region_reap_verdict (Handshake.state h) (Handshake.on_cpu h)) eqn:Hver; [done|..]; exfalso;
      (assert (Hx : existsb (fun p => armed p.1 p.2 || resident base end_ (tabs y) p.1 p.2 Scheduler.RefuseStanding) (map_to_list (tcbs (tabs y))) = true); [|unfold armed in Hx; congruence]);
      apply existsb_exists; exists (t, b); (split; [by apply list_elem_of_In, elem_of_map_to_list|]); cbn [fst snd]; unfold armed; rewrite Hv, ?orb_true_r; done.
Qed.

(** ** Residents that have ended *)

(** The continuations of the threads that are left. *)
Definition prune (k : IpcTables) (cs : gmap Z Cont) : gmap Z Cont := filter (fun p => is_Some (hs k !! p.1)) cs.

Lemma prune_lookup k cs t : prune k cs !! t = (if decide (is_Some (hs k !! t)) then cs !! t else None).
Proof.
  unfold prune. destruct (cs !! t) as [c|] eqn:Hc.
  - case_decide as Hd; [by apply map_lookup_filter_Some_2|]. apply map_lookup_filter_None. right. intros c' _. by cbn.
  - rewrite map_lookup_filter_None_2 by (by left). by case_decide.
Qed.

Definition without_thread (k : IpcTables) (t : Z) : IpcTables :=
  set_tcbs (set_machine k (Scheduler.MkMachine (delete t (hs k)) (Scheduler.cpus (machine k)))) (delete t (tcbs k)).

(** A thread in no queue, that no capability names, is removed. *)
Lemma sys_removed y t h : inv y -> hs (tabs y) !! t = Some h -> Scheduler.region_reap_verdict (Handshake.state h) (Handshake.on_cpu h) = Scheduler.ReapNow ->
  (forall ep, ~ sending (tabs y) ep t) -> inv (MkSys (without_thread (tabs y) t) (prune (without_thread (tabs y) t) (conts y))).
Proof.
  intros Hi Hh Hv Hns. pose proof (Scheduler.reap_inv (machine (tabs y)) t (inv_machine _ _ _ Hi)) as Hm. unfold Scheduler.reap_resident in Hm. rewrite Hh, Hv in Hm.
  set (k1 := without_thread _ _). assert (Hpl : forall u, u <> t -> place_at k1 u = place_at (tabs y) u) by (intros u Hu; unfold place_at; cbn; by rewrite lookup_delete_ne).
  assert (Hpt : place_at k1 t = Nowhere) by (unfold place_at; cbn; by rewrite lookup_delete_eq).
  assert (Hco : forall u, u <> t -> prune k1 (conts y) !! u = conts y !! u).
  { intros u Hu. rewrite prune_lookup. cbn. rewrite lookup_delete_ne by done. case_decide as Hd; [done|]. destruct (conts y !! u) eqn:Hc; [|done]. destruct Hd. apply (inv_conts _ _ _ Hi). eauto. }
  assert (Hold : forall ep, place_at (tabs y) t <> AtReceivers ep /\ place_at (tabs y) t <> AtWaiters ep /\ place_at (tabs y) t <> AtReply ep /\ place_at (tabs y) t <> AtSenders ep).
  { intros ep. unfold place_at. rewrite Hh. unfold place. unfold Scheduler.region_reap_verdict in Hv. destruct (Handshake.state h), (Handshake.on_cpu h); try done; by destruct (Handshake.wait_on h) as [[]|]. }
  assert (Hback : forall s i u, holds (MkSys k1 (prune k1 (conts y))) s i u -> holds y s i u /\ s <> t).
  { intros s i u (b & x & Hb & Hsl & Hx & Hc). cbn in Hb. apply lookup_delete_Some in Hb as [Hne Hb]. split; [|done]. exists b, x. split; [done|]. split; [done|]. split; [done|].
    intros slot Hs. apply Hc. cbn [conts]. by rewrite Hco. }
  assert (Hin : forall s i u, holds y s i u -> u <> t) by (intros s i u Hx ->; destruct (inv_holds _ _ _ Hi s i t Hx) as [[ep He] _]; by apply Hold in He).
  destruct Hi as [H1 H2 H3 H4 H5 [Q1 Q2 Q3 Q4 Q5 Q6 Q7 Q8 Q9] H7 H8]. constructor; cbn [tabs conts]; try done.
  - intros u. cbn. destruct (decide (t = u)) as [<-|Hne]; [by rewrite !lookup_delete_eq|by rewrite !lookup_delete_ne].
  - intros u [x Hx]. rewrite prune_lookup in Hx. by case_decide.
  - intros u hu b Hu Hb. cbn in Hu, Hb. apply lookup_delete_Some in Hu as [Hne Hu], Hb as [_ Hb]. rewrite Hco by done. by apply H5.
  - constructor; try done.
    + intros ep u. change (receiving k1 ep u) with (receiving (tabs y) ep u). rewrite Q1. destruct (decide (u = t)) as [->|Hu]; [|by rewrite Hpl]. rewrite Hpt. split; [intros [Hx _]; by apply Hold in Hx|by intros []].
    + intros ep u Hs. destruct (decide (u = t)) as [->|Hu]; [by apply Hns in Hs|]. rewrite Hpl by done. by apply Q2.
    + intros ep u. destruct (decide (u = t)) as [->|Hu]; [by rewrite Hpt|]. rewrite Hpl by done. by apply Q3.
    + intros ep u b Hs. destruct (decide (u = t)) as [->|Hu]; [by apply Hns in Hs|]. rewrite Hpl by done. cbn. rewrite lookup_delete_ne by done. by apply Q4.
    + intros id u. change (noticing k1 id u) with (noticing (tabs y) id u). rewrite Q5. destruct (decide (u = t)) as [->|Hu]; [|by rewrite Hpl]. rewrite Hpt. split; [intros [Hx _]; by apply Hold in Hx|by intros []].
    + intros ep u. destruct (decide (u = t)) as [->|Hu]; [by rewrite Hpt|]. rewrite Hpl by done. by apply Q6.
    + intros ep u b. destruct (decide (u = t)) as [->|Hu]; [by rewrite Hpt|]. rewrite Hpl by done. cbn. rewrite lookup_delete_ne by done. by apply Q7.
  - intros s i u [Hx _]%Hback. pose proof (Hin _ _ _ Hx) as Hu. rewrite Hpl by done. destruct (H7 s i u Hx) as [Hp Ho]. split; [done|]. cbn. intros b. rewrite lookup_delete_ne by done. apply Ho.
  - intros s i s' i' u [Hx _]%Hback [Hx' _]%Hback. by eapply H8.
Qed.

Lemma reapable_place (h : HS) : Scheduler.region_reap_verdict (Handshake.state h) (Handshake.on_cpu h) = Scheduler.ReapNow ->
  place h = Nowhere \/ exists ep, place h = AsCorpse ep /\ Handshake.state h = Handshake.Dead.
Proof.
  unfold Scheduler.region_reap_verdict, place. destruct (Handshake.state h), (Handshake.on_cpu h); try done; try (by left); destruct (Handshake.wait_on h) as [[]|]; eauto.
Qed.

(** What [remove_resident] does before it strands the callers. *)
Definition unlink_corpse (k : IpcTables) (t : Z) (b : Tcb) : IpcTables :=
  let dead := match handshake_of k t with Some h => bool_decide (Handshake.state h = Handshake.Dead) | None => false end in
  match fault_ep b with
  | Some ep => match rendezvous_table k !! ep with Some p => if dead then put_endpoint k ep p (ep_remove_sender (r_state p) t) else k | None => k end
  | None => k
  end.

Lemma unlink_corpse_ok y t h b : inv y -> hs (tabs y) !! t = Some h -> tcbs (tabs y) !! t = Some b ->
  Scheduler.region_reap_verdict (Handshake.state h) (Handshake.on_cpu h) = Scheduler.ReapNow ->
  inv (MkSys (unlink_corpse (tabs y) t b) (conts y)) /\ (forall ep, ~ sending (unlink_corpse (tabs y) t b) ep t).
Proof.
  intros Hi Hh Hb Hv. pose proof (inv_queues _ _ _ Hi) as Hq. assert (Hpl : place_at (tabs y) t = place h) by (unfold place_at; by rewrite Hh).
  assert (Hsend : forall ep, sending (tabs y) ep t -> place h = AsCorpse ep /\ Handshake.state h = Handshake.Dead).
  { intros ep Hs. destruct (q_senders _ _ _ Hq ep t Hs) as [Hx _]. rewrite Hpl in Hx. destruct (reapable_place h Hv) as [He|(ep' & He & Hd)]; rewrite He in Hx; destruct Hx as [X|[X|X]]; try done.
    injection X as <-. done. }
  assert (Hfe : forall ep, sending (tabs y) ep t -> fault_ep b = Some ep) by (intros ep Hs; destruct (Hsend ep Hs) as [He _]; apply (q_corpse _ _ _ Hq ep t b); [congruence|done]).
  unfold unlink_corpse, handshake_of. rewrite Hh. destruct (fault_ep b) as [ep|] eqn:Hf.
  2: { split; [by destruct y|]. intros ep Hs. by apply Hfe in Hs. }
  destruct (rendezvous_table (tabs y) !! ep) as [p|] eqn:Hp.
  2: { split; [by destruct y|]. intros ep' Hs. pose proof (Hfe ep' Hs) as [= <-]. destruct Hs as (p & Hp' & _). congruence. }
  case_bool_decide as Hd.
  2: { split; [by destruct y|]. intros ep' Hs. by destruct (Hsend ep' Hs). }
  set (e' := ep_remove_sender _ _). set (k1 := put_endpoint _ _ _ _).
  assert (Hput : rendezvous_table k1 = <[ep := MkRendezvousPage (r_page p) e']> (rendezvous_table (tabs y))) by done.
  assert (He : forall u, u ∈ Rendezvous.snd_q e' <-> u ∈ Rendezvous.snd_q (r_state p) /\ u <> t) by (intros u; etransitivity; [apply Rendezvous.elem_of_without|tauto]).
  assert (Hns : forall ep', ~ sending k1 ep' t).
  { intros ep'. rewrite (sending_put (tabs y) k1 ep p e' ep' t Hp Hput). case_decide as Hx; [rewrite He; tauto|]. intros Hs%Hfe. congruence. }
  split; [|done]. apply (sys_retable nothing [] nothing [] y k1 Hi eq_refl eq_refl eq_refl).
  assert (Hr : forall ep' u, receiving k1 ep' u <-> receiving (tabs y) ep' u).
  { intros ep' u. rewrite (receiving_put (tabs y) k1 ep p e' ep' u Hp Hput). case_decide as Hx; [|done]. subst ep'. unfold receiving. rewrite Hp. split; [by exists p|by intros (q & [= <-] & ?)]. }
  assert (Hs : forall ep' u, u <> t -> sending k1 ep' u <-> sending (tabs y) ep' u).
  { intros ep' u Hu. rewrite (sending_put (tabs y) k1 ep p e' ep' u Hp Hput). case_decide as Hx; [|done]. subst ep'. rewrite He. unfold sending. rewrite Hp. split; [intros [? _]; by exists p|by intros (q & [= <-] & ?)]. }
  assert (Hnil : t ∉ (@nil Z)) by apply not_elem_of_nil. destruct (queues_placed _ _ _ t Hq Hnil) as [P1 P2 P3 P4 P5 P6 P7].
  apply (queues_move nothing [] (tabs y) k1 t Hq Hnil); try done.
  - intros u _. by apply quiet_same.
  - intros u ep' Hu. split; [apply Hr|by apply Hs].
  - intros ep' Hx. rewrite Hput. destruct (decide (ep = ep')) as [<-|Hne]; [rewrite lookup_insert_eq; eauto|by rewrite lookup_insert_ne].
  - split; [|apply (q_distinct_notes _ _ _ Hq)]. intros ep' p'. rewrite Hput. destruct (decide (ep = ep')) as [<-|Hne]; [rewrite lookup_insert_eq|rewrite lookup_insert_ne by done; apply (q_distinct _ _ _ Hq)].
    intros [= <-]. destruct (q_distinct _ _ _ Hq ep p Hp). split; [by apply NoDup_filter|done].
  - assert (Hnot : forall ep', place_at (tabs y) t <> AtSenders ep' /\ place_at (tabs y) t <> AtReply ep') by (intros ep'; rewrite Hpl; by destruct (reapable_place h Hv) as [->|(? & -> & _)]).
    constructor; [| | | |done| |done].
    + intros ep'. rewrite Hr. apply P1.
    + by intros ep' ?%Hns.
    + intros ep' Hx. by apply Hnot in Hx.
    + by intros ep' b0 ?%Hns.
    + intros ep' Hx. by apply Hnot in Hx.
Qed.

(** One resident is removed. *)
Lemma remove_resident_ok y c t h b : inv y -> is_Some (Scheduler.cpus (machine (tabs y)) !! c) -> hs (tabs y) !! t = Some h -> tcbs (tabs y) !! t = Some b ->
  Scheduler.region_reap_verdict (Handshake.state h) (Handshake.on_cpu h) = Scheduler.ReapNow ->
  exists k2, remove_resident (tabs y) c t b = Done (without_thread k2 t) /\ keeps (tabs y) k2 /\ (forall i v, holds y t i v -> freed k2 v) /\
    (forall ep p', rendezvous_table k2 !! ep = Some p' -> exists p, rendezvous_table (tabs y) !! ep = Some p /\ r_page p' = r_page p) /\ notification_table k2 = notification_table (tabs y) /\
    inv (MkSys (without_thread k2 t) (prune (without_thread k2 t) (conts y))).
Proof.
  intros Hi Hc Hh Hb Hv. destruct (unlink_corpse_ok y t h b Hi Hh Hb Hv) as [Hi1 Hns]. assert (machine (unlink_corpse (tabs y) t b) = machine (tabs y) /\ tcbs (unlink_corpse (tabs y) t b) = tcbs (tabs y) /\
    notification_table (unlink_corpse (tabs y) t b) = notification_table (tabs y) /\
    (forall ep p', rendezvous_table (unlink_corpse (tabs y) t b) !! ep = Some p' -> exists p, rendezvous_table (tabs y) !! ep = Some p /\ r_page p' = r_page p)) as (Hm & Htc & Hnt & Hrt).
  { unfold unlink_corpse. destruct (fault_ep b) as [ep|]; [|eauto 10]. destruct (rendezvous_table (tabs y) !! ep) as [p|] eqn:Hp; [|eauto 10]. destruct (match _ with Some _ => _ | None => _ end); [|eauto 10].
    split; [done|]. split; [done|]. split; [done|]. intros ep' p'. cbn. destruct (decide (ep = ep')) as [<-|Hne]; [rewrite lookup_insert_eq; intros [= <-]; eauto|rewrite lookup_insert_ne by done; eauto]. }
  assert (Hni : forall slot, conts y !! t <> Some (InReply slot)).
  { destruct (inv_threads _ _ _ Hi t h b Hh Hb) as [_ _ _ _ He _ _ _ _ _ Hend]. unfold Scheduler.region_reap_verdict in Hv. destruct (Handshake.state h), (Handshake.on_cpu h); try done; auto; by rewrite He. }
  destruct (strand_callers_ok _ c t Hi1) as (k2 & Hk2 & Hi2 & Hst & Hf); cbn [tabs conts] in *; [by rewrite Hm|done|]. pose proof (keeps_aborts _ _ (st_aborts _ _ Hst)) as Hkp. cbn [tabs] in Hkp.
  assert (Hkp' : keeps (tabs y) k2) by (eapply keeps_trans; [|exact Hkp]; by apply keeps_same). exists k2.
  split; [unfold remove_resident; fold (unlink_corpse (tabs y) t b); rewrite Hk2; done|]. split; [done|]. split; [|split; [|split]].
  - intros i v (b0 & x & Hb0 & Hr). apply (Hf i v). exists b0, x. cbn [tabs]. rewrite Htc. done.
  - rewrite (ao_rendezvous _ _ (st_aborts _ _ Hst)). exact Hrt.
  - rewrite (ao_notifications _ _ (st_aborts _ _ Hst)). exact Hnt.
  - assert (exists h2, hs k2 !! t = Some h2 /\ Scheduler.region_reap_verdict (Handshake.state h2) (Handshake.on_cpu h2) = Scheduler.ReapNow) as (h2 & Hh2 & Hv2).
    { destruct (decide (Handshake.state h = Handshake.Dead)) as [Hd|Hd]; [destruct (kp_dead _ _ Hkp' t h Hh Hd) as (h2 & Hh2 & Hd2 & Hc2); exists h2; split; [done|by rewrite Hd2, Hc2, <- Hd]|].
      exists h. split; [|done]. apply (kp_kept _ _ Hkp' t h Hh); [|done]. unfold Scheduler.region_reap_verdict in Hv. intros Hx. rewrite Hx in Hv. by destruct (Handshake.on_cpu h). }
    apply (sys_removed (MkSys k2 (conts y)) t h2 Hi2 Hh2 Hv2). intros ep. cbn [tabs]. rewrite (sending_kept _ _ _ _ (st_aborts _ _ Hst)). apply Hns.
Qed.

Lemma freed_live D P y t h : inv_with D P y -> freed (tabs y) t -> hs (tabs y) !! t = Some h -> Scheduler.region_reap_verdict (Handshake.state h) (Handshake.on_cpu h) <> Scheduler.ReapNow.
Proof.
  intros Hi (h0 & H0 & _ & Hw) Hh. assert (h0 = h) as -> by congruence. destruct Hw as [Hw|Hw]; [|by rewrite Hw].
  destruct (Scheduler.lo_pending _ _ (Scheduler.inv_live _ t h (inv_machine _ _ _ Hi) Hh) Hw) as [-> ->]. done.
Qed.

Lemma prune_idem k k' cs : (forall t, is_Some (hs k' !! t) -> is_Some (hs k !! t)) -> prune k' (prune k cs) = prune k' cs.
Proof. intros Hd. apply map_eq. intros t. rewrite !prune_lookup. case_decide as H; [|done]. rewrite decide_True by auto. done. Qed.

Lemma prune_all D P y k' : inv_with D P y -> (forall t, is_Some (hs k' !! t) <-> is_Some (hs (tabs y) !! t)) -> prune k' (conts y) = conts y.
Proof.
  intros Hi Hd. apply map_eq. intros t. rewrite prune_lookup. case_decide as H; [done|]. destruct (conts y !! t) eqn:Hc; [|done]. destruct H. apply Hd, (inv_conts _ _ _ Hi). eauto.
Qed.

(** The residents of a region whose threads have all ended. *)
Definition all_reapable (base end_ : Z) (k : IpcTables) : Prop :=
  forall t b h, tcbs k !! t = Some b -> in_region base end_ (page b) = true -> hs k !! t = Some h -> Scheduler.region_reap_verdict (Handshake.state h) (Handshake.on_cpu h) = Scheduler.ReapNow.

Lemma reapable_kept base end_ y k' t : inv y -> all_reapable base end_ (tabs y) -> keeps (tabs y) k' -> all_reapable base end_ (without_thread k' t).
Proof.
  intros Hi Ha Hk u b' h' Hb' Hr Hh'. cbn in Hb', Hh'. apply lookup_delete_Some in Hb' as [_ Hb'], Hh' as [_ Hh']. destruct (kp_tcbs _ _ Hk u b' Hb') as (b & Hb & Hp).
  destruct (proj1 (inv_dom _ _ _ Hi u)) as [h Hh]; [eauto|]. rewrite Hp in Hr. pose proof (Ha u b h Hb Hr Hh) as Hv.
  destruct (decide (Handshake.state h = Handshake.Dead)) as [Hd|Hd].
  - destruct (kp_dead _ _ Hk u h Hh Hd) as (h2 & Hh2 & Hd2 & Hc2). assert (h2 = h') as -> by congruence. by rewrite Hd2, Hc2, <- Hd.
  - assert (Hx : hs k' !! u = Some h); [|congruence]. apply (kp_kept _ _ Hk u h Hh); [|done]. intros Hx. unfold Scheduler.region_reap_verdict in Hv. rewrite Hx in Hv. by destruct (Handshake.on_cpu h).
Qed.

Lemma remove_loop_ok c base end_ fuel y : inv y -> is_Some (Scheduler.cpus (machine (tabs y)) !! c) -> all_reapable base end_ (tabs y) -> (size (tcbs (tabs y)) < fuel)%nat ->
  exists k', remove_loop fuel (tabs y) c base end_ = Done k' /\ inv (MkSys k' (prune k' (conts y))) /\
    (forall t, is_Some (hs k' !! t) -> is_Some (hs (tabs y) !! t)) /\ (forall t, freed (tabs y) t -> freed k' t) /\
    (objects_gone base end_ (tabs y) -> objects_gone base end_ k') /\ (forall t b, tcbs k' !! t = Some b -> in_region base end_ (page b) = false).
Proof.
  revert y. induction fuel as [|fuel IH]; intros y Hi Hc Hall Hf; [lia|]. cbn [remove_loop]. destruct (find _ _) as [[t b]|] eqn:Hfind.
  - apply find_map_some in Hfind as [Hb Hreg]. cbn [snd] in Hreg. destruct (proj1 (inv_dom _ _ _ Hi t)) as [h Hh]; [eauto|]. pose proof (Hall t b h Hb Hreg Hh) as Hv.
    destruct (remove_resident_ok y c t h b Hi Hc Hh Hb Hv) as (k2 & -> & Hkp & _ & Hrt & Hnt & Hi1). cbn [mbind run_bind]. set (k1 := without_thread k2 t) in *.
    assert (Hsub : forall u, is_Some (hs k1 !! u) -> is_Some (hs (tabs y) !! u)) by (intros u [x Hx]; cbn in Hx; apply lookup_delete_Some in Hx as [_ Hx]; apply (kp_dom _ _ Hkp); eauto).
    assert (Hfr : forall u, freed (tabs y) u -> freed k1 u).
    { intros u Hu. pose proof (kp_freed _ _ Hkp u Hu) as (x & Hx & Hr). exists x. split; [|done]. cbn. rewrite lookup_delete_ne; [done|]. intros <-. by apply (freed_live _ _ y t h Hi Hu Hh). }
    destruct (IH (MkSys k1 (prune k1 (conts y))) Hi1) as (k' & Hk' & Hi' & Hs' & Hfr' & Hg' & Hno); cbn [tabs conts] in *.
    + by apply (keeps_core (tabs y) k2).
    + by apply (reapable_kept base end_ y).
    + assert (Hsz : (size (tcbs k1) < size (tcbs (tabs y)))%nat); [|lia]. rewrite <- !size_dom. apply subset_size. split.
      * intros u. rewrite !elem_of_dom. intros [x Hx]. cbn in Hx. apply lookup_delete_Some in Hx as [_ Hx]. destruct (kp_tcbs _ _ Hkp u x Hx) as (x' & Hx' & _). eauto.
      * intros Hs. assert (Ht : t ∈ dom (tcbs k1)) by (apply Hs, elem_of_dom; eauto). apply elem_of_dom in Ht as [x Hx]. cbn in Hx. by rewrite lookup_delete_eq in Hx.
    + exists k'. split; [exact Hk'|]. rewrite prune_idem in Hi' by done. split; [done|]. split; [auto|]. split; [auto|]. split; [|done]. intros [G1 G2]. apply Hg'. split.
      * intros ep p' (p & Hp & ->)%Hrt. by apply (G1 ep).
      * intros id p' Hp. cbn in Hp. rewrite Hnt in Hp. by apply (G2 id).
  - exists (tabs y). rewrite (prune_all _ _ y (tabs y) Hi) by done. split; [done|]. split; [by destruct y|]. split; [done|]. split; [done|]. split; [done|].
    intros t b Hb. exact (find_map_none _ _ _ _ Hfind Hb).
Qed.

(** The whole of it. *)
Lemma reap_region_ok y c base end_ : inv y -> is_Some (Scheduler.cpus (machine (tabs y)) !! c) ->
  exists r k', reap_region_objects (tabs y) c base end_ = Done (r, k') /\ inv (MkSys k' (prune k' (conts y))) /\
    objects_gone base end_ k' /\ (forall t, doomed_wait base end_ (tabs y) t -> freed k' t) /\
    (r = Ok tt -> forall t b, tcbs k' !! t = Some b -> in_region base end_ (page b) = false).
Proof.
  intros Hi Hc. unfold reap_region_objects.
  destruct (reap_rendezvous_loop_ok c base end_ (S (size (rendezvous_table (tabs y)))) y Hi Hc ltac:(lia)) as (k1 & -> & Hi1 & Hkp1 & Hol1 & Hn1 & Hg1 & Hf1). cbn [mbind run_bind].
  destruct (reap_notifications_loop_ok c base end_ (S (size (notification_table k1))) (MkSys k1 (conts y)) Hi1 (keeps_core _ _ c Hkp1 Hc) ltac:(cbn; lia)) as (k2 & Hk2 & Hi2 & Hkp2 & Hol2 & Hr2 & Hg2 & Hf2).
  cbn [tabs conts] in *. rewrite Hk2. cbn [mbind run_bind].
  assert (Hsz : (size (filter is_blocked (hs k2)) < S (size (tcbs k2)))%nat).
  { apply Nat.lt_succ_r. rewrite <- !size_dom. apply subseteq_size. intros t. rewrite !elem_of_dom. intros [h [Hh _]%map_lookup_filter_Some]. apply (inv_dom _ _ _ Hi2). cbn. eauto. }
  destruct (finish_blocked_loop_ok base end_ _ (MkSys k2 (conts y)) Hi2 Hsz) as (k3 & Hk3 & Hi3 & Hkp3 & Hg3 & Hno3). cbn [tabs conts] in *. rewrite Hk3. cbn [mbind run_bind].
  pose proof (arm_ok base end_ (MkSys k3 (conts y)) Hi3) as Harm. cbn [tabs conts] in Harm. destruct (arm_residents k3 base end_) as [refused k4]. destruct Harm as (Hi4 & Hkp4 & Hm4 & Hr4 & Hn4 & Hall).
  assert (Hgone : objects_gone base end_ k4).
  { assert (H2 : objects_gone base end_ k2) by (split; [rewrite Hr2; exact Hg1|exact Hg2]). apply Hg3 in H2 as [X1 X2]. split; [rewrite Hr4|rewrite Hn4]; done. }
  assert (Hkp : keeps (tabs y) k4) by (eapply keeps_trans; [exact Hkp1|]; eapply keeps_trans; [exact Hkp2|]; eapply keeps_trans; [exact Hkp3|exact Hkp4]).
  assert (Hfree : forall t, doomed_wait base end_ (tabs y) t -> freed k4 t).
  { intros t Hw. apply (kp_freed _ _ Hkp4), (kp_freed _ _ Hkp3). destruct Hw as [(ep & p & Hp & Hreg & Hw)|(id & p & Hp & Hreg & Hw)]; [apply (kp_freed _ _ Hkp2); by apply (Hf1 t ep p)|].
    destruct (Hol1 t) as [Hx|Hx]; [|by apply (kp_freed _ _ Hkp2)]. apply (Hf2 t id p); [by rewrite Hn1|done|congruence]. }
  destruct refused.
  - eexists _, k4. split; [done|]. rewrite (prune_all _ _ y k4 Hi (kp_dom _ _ Hkp)). split; [done|]. split; [done|]. split; [done|done].
  - destruct (remove_loop_ok c base end_ (S (size (tcbs k4))) (MkSys k4 (conts y)) Hi4 (keeps_core _ _ c Hkp Hc) (Hall eq_refl) ltac:(cbn; lia)) as (k5 & Hk5 & Hi5 & _ & Hf5 & Hg5 & Hno5).
    cbn [tabs conts] in *. rewrite Hk5. cbn [mbind run_bind]. eexists _, k5. split; [done|]. split; [done|]. split; [auto|]. split; [auto|done].
Qed.
End IpcReap.
