(* ===== verification/IpcSystem.v ===== *)
(** * The kernel's IPC as a system (kernel/src/sched.rs, kernel/src/syscall.rs)

    Threads in their programs or inside calls, cores that switch between them,
    interrupts, departures and teardown, in any order: what holds of every state
    that can be reached. *)

From S2P Require Import Prelude Capability IntrusiveFifo Rendezvous Notification Handshake Scheduler Revocation MappingCalls KernelIpc IpcInvariant IpcQueues IpcTeardown IpcReap.
Local Open Scope Z_scope.

Module IpcSystem.
Import Revocation KernelIpc IpcInvariant IpcQueues IpcTeardown IpcReap.
#[local] Existing Instance Handshake.RunState_eq_dec.

(** ** Switching *)

(** What a switch does to a handshake: nothing but the core it is on, or from
    ready to running and back, or it completes a wake that was deferred. *)
Inductive switched (h h' : HS) : Prop :=
  | sw_core : h' = Handshake.MkHandshake (Handshake.state h) (Handshake.on_cpu h') (Handshake.wake_pending h) (Handshake.wait_on h) (Handshake.ipc_served h) (Handshake.ipc_aborted h) -> switched h h'
  | sw_turn : Handshake.state h = Handshake.Ready \/ Handshake.state h = Handshake.Running -> Handshake.state h' = Handshake.Ready \/ Handshake.state h' = Handshake.Running ->
      h' = Handshake.MkHandshake (Handshake.state h') (Handshake.on_cpu h') (Handshake.wake_pending h) (Handshake.wait_on h) (Handshake.ipc_served h) (Handshake.ipc_aborted h) -> switched h h'
  | sw_woken : Handshake.state h = Handshake.Blocked -> Handshake.wake_pending h = true ->
      h' = Handshake.MkHandshake Handshake.Ready false false None (Handshake.ipc_served h) (Handshake.ipc_aborted h) -> switched h h'.

Lemma switched_refl h : switched h h.
Proof. apply sw_core. by destruct h. Qed.

Lemma switched_place q t h b co h' : thread_inv q t h b co -> switched h h' -> place h' = place h.
Proof.
  intros Ht [->|H1 H2 ->|H1 H2 ->]; [done| |].
  - unfold place. cbn. destruct H1 as [->| ->]; cbn in H2; destruct H2 as [->| ->]; destruct (Handshake.wait_on h); done.
  - unfold place. cbn. rewrite H1. destruct (Handshake.wait_on h); [|done]. by rewrite (ti_pending _ _ _ _ _ Ht H2).
Qed.

Lemma ti_switched q t h b co h' : thread_inv q t h b co -> switched h h' -> thread_inv q t h' b co.
Proof.
  intros Ht Hsw. pose proof (switched_place q t h b co h' Ht Hsw) as Hpl. destruct Ht as [H1 H2 H3 H4 H5 H6 H7 H8 H9 H10 H11]. destruct Hsw as [He|S1 S2 He|S1 S2 He].
  - rewrite He. by constructor.
  - destruct (H2 S1) as [Hw Hd]. rewrite He in Hpl |- *. rewrite He in S2. cbn [Handshake.state] in S2.
    assert (Hn : Handshake.state h' <> Handshake.Blocked /\ Handshake.state h' <> Handshake.Dead /\ Handshake.state h' <> Handshake.Embryo) by (by destruct S2 as [->| ->]).
    constructor; cbn; try done; try tauto.
    + intros Ha. destruct (H6 Ha) as [?|[?|?]]; [by left|destruct S1; congruence|destruct S1; congruence].
    + intros c Hc. rewrite Hpl. destruct (H8 c Hc) as [[? _]|?]; [destruct S1; congruence|by right].
    + destruct S2 as [->| ->]; by intros [|].
  - specialize (H7 S2). destruct (H1 S1) as (c & w & -> & Hw & Hwo). rewrite He in Hpl |- *. constructor; cbn; try done; try (by intros [|]).
    + intros Ha. destruct (H6 Ha) as [?|[?|?]]; [by left|congruence|congruence].
    + intros x Hx. destruct (H8 x Hx) as [[? _]|[(ep & Hp & Hr)|(ep & Hp & Hr)]]; [congruence|rewrite <- Hpl in Hp; by cbn in Hp|rewrite <- Hpl in Hp; by cbn in Hp].
Qed.

(** The threads after a switch: the ended one that was left is freed. *)
Definition switched_threads (k : IpcTables) (m' : Machine Wait) : Prop :=
  forall t, match hs k !! t, Scheduler.threads m' !! t with
            | Some h, Some h' => switched h h'
            | Some h, None => Handshake.state h = Handshake.Finished
            | None, None => True
            | None, Some _ => False
            end.

Definition after_switch (k : IpcTables) (m' : Machine Wait) : IpcTables :=
  set_tcbs (set_machine k m') (filter (fun p => is_Some (Scheduler.threads m' !! p.1)) (tcbs k)).

Lemma after_tcb k m' t b : tcbs (after_switch k m') !! t = Some b <-> tcbs k !! t = Some b /\ is_Some (Scheduler.threads m' !! t).
Proof. unfold after_switch. cbn. by rewrite map_lookup_filter_Some. Qed.

Lemma sys_switched y m' : inv y -> Scheduler.inv m' -> switched_threads (tabs y) m' ->
  let y' := MkSys (after_switch (tabs y) m') (prune (after_switch (tabs y) m') (conts y)) in inv y'.
Proof.
  intros Hi Hm Hsw y'. set (k1 := after_switch (tabs y) m').
  assert (Hback : forall t h', Scheduler.threads m' !! t = Some h' -> exists h, hs (tabs y) !! t = Some h /\ switched h h').
  { intros t h' Hh'. specialize (Hsw t). rewrite Hh' in Hsw. destruct (hs (tabs y) !! t) as [h|]; [eauto|done]. }
  assert (Hpl : forall t, place_at k1 t = place_at (tabs y) t).
  { intros t. unfold place_at. cbn. specialize (Hsw t). destruct (hs (tabs y) !! t) as [h|] eqn:Hh, (Scheduler.threads m' !! t) as [h'|]; try done.
    - destruct (proj2 (inv_dom _ _ _ Hi t)) as [b Hb]; [eauto|]. exact (switched_place _ t h b _ h' (inv_threads _ _ _ Hi t h b Hh Hb) Hsw).
    - unfold place. by rewrite Hsw. }
  assert (Hco : forall t, is_Some (Scheduler.threads m' !! t) -> prune k1 (conts y) !! t = conts y !! t) by (intros t Ht; rewrite prune_lookup; by rewrite decide_True).
  assert (Hholds : forall s i u, holds y' s i u -> holds y s i u).
  { intros s i u (b & x & Hb & Hsl & Hx & Hc). cbn [tabs conts y'] in Hb, Hc. fold k1 in Hc. apply after_tcb in Hb as [Hb Hs]. exists b, x. split; [done|]. split; [done|]. split; [done|].
    intros slot Hs'. apply Hc. by rewrite Hco. }
  pose proof (inv_queues _ _ _ Hi) as [Q1 Q2 Q3 Q4 Q5 Q6 Q7 Q8 Q9]. destruct Hi as [H1 H2 H3 H4 H5 _ H7 H8]. constructor; cbn [tabs conts y']; try done; fold k1.
    + intros t. split.
      * intros [b Hb]. by apply after_tcb in Hb as [_ ?].
      * intros [h' Hh']. cbn in Hh'. destruct (Hback t h' Hh') as (h & Hh & _). destruct (proj2 (H2 t)) as [b Hb]; [eauto|]. exists b. apply after_tcb. eauto.
    + intros t [c Hc]. rewrite prune_lookup in Hc. by case_decide.
    + intros t h' b Hh' Hb. apply after_tcb in Hb as [Hb Hs]. cbn in Hh'. destruct (Hback t h' Hh') as (h & Hh & Hx). rewrite Hco by done. eapply ti_switched; [by apply (H5 t h b)|done].
    + constructor; try done.
      * intros ep t. rewrite Hpl. apply Q1.
      * intros ep t Hs. rewrite Hpl. by apply Q2.
      * intros ep t. rewrite Hpl. apply Q3.
      * intros ep t b Hs. rewrite Hpl. intros Hp [Hb _]%after_tcb. by apply (Q4 ep).
      * intros id t. rewrite Hpl. apply Q5.
      * intros ep t. rewrite Hpl. apply Q6.
      * intros ep t b. rewrite Hpl. intros Hp [Hb _]%after_tcb. by apply (Q7 ep t).
    + intros s i t Hx%Hholds. rewrite Hpl. destruct (H7 s i t Hx) as [Hp Ho]. split; [done|]. intros b [Hb _]%after_tcb. by apply Ho.
    + intros s i s' i' t Hx%Hholds Hx'%Hholds. by eapply H8.
Qed.

Lemma switched_same k m' : Scheduler.threads m' = hs k -> switched_threads k m'.
Proof. intros Ht t. rewrite Ht. destruct (hs k !! t); [apply switched_refl|done]. Qed.

Lemma finish_switched k c m' : Scheduler.inv (machine k) -> Scheduler.finish_switch (machine k) c = Done m' -> switched_threads k m'.
Proof.
  intros Hi. unfold Scheduler.finish_switch. destruct (Scheduler.cpus (machine k) !! c) as [p|]; [|done]. destruct (Scheduler.switched_from p) as [prev|]; [|intros [= <-]; by apply switched_same].
  destruct (hs k !! prev) as [h|] eqn:Hh; [|intros [= <-]; by apply switched_same]. unfold Handshake.finish_switch. case_decide as Hf.
  - intros [= <-] t. cbn. destruct (decide (prev = t)) as [<-|Hne]; [by rewrite Hh, lookup_delete_eq|]. rewrite lookup_delete_ne by done. destruct (hs k !! t); [apply switched_refl|done].
  - destruct (Handshake.wake_pending h) eqn:Hp; intros [= <-] t; cbn; (destruct (decide (prev = t)) as [<-|Hne]; [rewrite Hh, lookup_insert_eq|rewrite lookup_insert_ne by done; destruct (hs k !! t); [apply switched_refl|done]]).
    + destruct (Scheduler.lo_pending _ _ (Scheduler.inv_live _ prev h Hi Hh) Hp) as [Hb _]. by apply sw_woken.
    + apply sw_core. cbn. by rewrite Hp.
Qed.

Lemma schedule_switched k c m' : Scheduler.schedule (machine k) c = Done m' -> switched_threads k m'.
Proof.
  assert (Hgen : forall p next, Scheduler.switch_to_next (machine k) c p (bool_decide (Handshake.state <$> hs k !! Scheduler.current p = Some Handshake.Running)) next = Done m' -> switched_threads k m').
  { intros p next. unfold Scheduler.switch_to_next. case_decide as Hne; [done|]. set (cur := Scheduler.current p). fold cur in Hne.
    assert (Hin : forall ths, (forall t, match hs k !! t, ths !! t with Some h, Some h' => switched h h' /\ (t <> cur -> h' = h) | None, None => True | _, _ => False end) ->
      forall q, (match ths !! next with None => Panicked | Some h => h' ← Handshake.switch_in h; Done (Scheduler.MkMachine (<[next := h']> ths)
        (<[c := Scheduler.MkCpu next (Scheduler.idle p) (Some cur) q (Scheduler.inbox p) (Scheduler.steal_request p)]> (Scheduler.cpus (machine k)))) end = Done m') -> switched_threads k m').
    { intros ths Hths q. pose proof (Hths next) as Hn. destruct (ths !! next) as [h|] eqn:Hh; [|done]. destruct (hs k !! next) as [h0|] eqn:H0; [|done]. destruct Hn as [_ Hn]. specialize (Hn Hne). subst h.
      unfold Handshake.switch_in. destruct (Handshake.on_cpu h0) eqn:Hoc; [done|]. destruct (Handshake.state h0) eqn:Hs; try done; cbn [mbind run_bind]; intros [= <-] t; cbn; specialize (Hths t).
      all: destruct (decide (next = t)) as [<-|Ht]; [rewrite H0, lookup_insert_eq; apply sw_turn; auto|rewrite lookup_insert_ne by done].
      all: destruct (hs k !! t), (ths !! t); try done; by destruct Hths. }
    destruct (_ && _) eqn:Hpre.
    - destruct (hs k !! cur) as [h|] eqn:Hh; [|done]. unfold Handshake.preempt. destruct (decide (Handshake.state h = Handshake.Running)) as [Hr|]; [|done]. cbn [mbind run_bind]. apply Hin. intros t.
      destruct (decide (cur = t)) as [<-|Ht]; [rewrite Hh, lookup_insert_eq|rewrite lookup_insert_ne by done; destruct (hs k !! t); [split; [apply switched_refl|done]|done]].
      split; [|done]. apply sw_turn; cbn; auto.
    - cbn [mbind run_bind]. apply Hin. intros t. destruct (hs k !! t); [split; [apply switched_refl|done]|done]. }
  unfold Scheduler.schedule. destruct (Scheduler.cpus (machine k) !! c) as [p|]; [|done]. destruct (Scheduler.runq p) as [|next rest].
  - destruct (bool_decide _) eqn:Hb; [intros [= <-]; by apply switched_same|]. destruct (Scheduler.idle p) as [i|]; [|done]. destruct (decide (Scheduler.current p = i)); [done|]. rewrite <- Hb. apply Hgen.
  - apply (Hgen (Scheduler.set_runq rest p)).
Qed.

(** ** The rest of a call *)

(** The running thread changes its own state and where it is in its call. *)
Lemma sys_self y c t h b h' b' o' k1 cs' : inv y -> at_core (tabs y) c t h b -> h' = h \/ h' = (Handshake.take_aborted h).2 ->
  thread_inv (PEAK k1) t h' b' o' -> outgoing_cap b' = outgoing_cap b -> fault_ep b' = fault_ep b -> PEAK (tabs y) <= PEAK k1 ->
  (forall i x u, slots_of b' !! i = Some (Some x) -> Capability.object x = OReply u -> slots_of b !! i = Some (Some x) /\
     forall slot, conts y !! t = Some (InReply slot) -> o' = Some (InReply slot) \/ Z.to_nat slot <> i) ->
  machine k1 = Scheduler.set_thread (machine (tabs y)) t h' -> tcbs k1 = <[t := b']> (tcbs (tabs y)) -> rendezvous_table k1 = rendezvous_table (tabs y) ->
  notification_table k1 = notification_table (tabs y) -> cs' !! t = o' -> (forall u, u <> t -> cs' !! u = conts y !! u) -> inv (MkSys k1 cs').
Proof.
  intros Hi Hac Hh' Hti Ho Hf Hpk Hsl Hm Htc Hrt Hnt Hct Hcu. pose proof (ac_hs _ _ _ _ _ Hac) as Hh. pose proof (ac_tcb _ _ _ _ _ Hac) as Hb.
  assert (Hhs : hs k1 = <[t := h']> (hs (tabs y))) by (by rewrite Hm).
  assert (Hquiet : forall u, quiet (tabs y) k1 u).
  { intros u. destruct (decide (u = t)) as [->|Hu]; [|apply quiet_same; [rewrite Hhs|rewrite Htc]; by rewrite lookup_insert_ne]. split.
    - rewrite (ac_nowhere _ _ _ _ _ Hac). unfold place_at. rewrite Hhs, lookup_insert_eq. unfold place. assert (Handshake.state h' = Handshake.Running) as -> by (destruct Hh' as [->| ->]; apply Hac). done.
    - intros b0. rewrite Htc, lookup_insert_eq. intros [= <-]. eauto. }
  apply (sys_update nothing [] nothing [] y _ [t] Hi); cbn [tabs conts]; try done.
  - rewrite Hm. destruct Hh' as [->| ->]; [unfold Scheduler.set_thread; rewrite insert_id by done; destruct (machine (tabs y)) eqn:E; cbn; rewrite <- E; apply (inv_machine _ _ _ Hi)|].
    apply (Scheduler.step_inv _ _ (inv_machine _ _ _ Hi)). apply (Scheduler.step_take_aborted _ c t (Handshake.ipc_aborted h)); [apply Hac|]. destruct (ac_runs _ _ _ _ _ Hac) as (p & Hp & _ & Hcur & _).
    unfold Scheduler.take_ipc_aborted. rewrite Hp. cbn [mbind option_bind]. rewrite Hcur, Hh. done.
  - intros u Hu%not_elem_of_cons. rewrite Hhs, Htc, !lookup_insert_ne by (destruct Hu; congruence). split; [done|]. split; [done|]. apply Hcu. by destruct Hu.
  - intros u ->%list_elem_of_singleton. exists h', b'. rewrite Hhs, Htc, !lookup_insert_eq, Hct. done.
  - apply (queues_still nothing [] (tabs y)); try done; [apply (inv_queues _ _ _ Hi)|intros u ep; by apply endpoint_same|intros u id; by apply noticing_same|by rewrite Hrt|].
    unfold distinct. rewrite Hrt, Hnt. exact (queues_distinct _ _ _ (inv_queues _ _ _ Hi)).
  - apply (replies_move y _ t (inv_replies _ _ _ Hi)); cbn [tabs]; [|by intros|by left]. intros s i u (b0 & x & Hb0 & Hx & Hox & Hc). cbn [tabs conts] in *. rewrite Htc in Hb0.
    destruct (decide (t = s)) as [<-|Hne].
    + rewrite lookup_insert_eq in Hb0. injection Hb0 as <-. destruct (Hsl i x u Hx Hox) as [Hx' Hs]. exists b, x. repeat split; try done. intros slot Hslot. destruct (Hs slot Hslot) as [->|?]; [|done]. by apply Hc.
    + rewrite lookup_insert_ne in Hb0 by done. exists b0, x. repeat split; try done. intros slot. rewrite <- Hcu by done. apply Hc.
Qed.

Lemma set_same (m : Machine Wait) t h : Scheduler.threads m !! t = Some h -> Scheduler.set_thread m t h = m.
Proof. intros Hh. unfold Scheduler.set_thread. rewrite insert_id by done. by destruct m. Qed.

Lemma tables_same k k' : machine k' = machine k -> tcbs k' = tcbs k -> rendezvous_table k' = rendezvous_table k -> notification_table k' = notification_table k -> PEAK k' = PEAK k -> k' = k.
Proof. destruct k, k'; cbn; congruence. Qed.

(** Where the thread is after a step of its call. *)
Definition next_conts (t : Z) (n : Next) (cs : gmap Z Cont) : gmap Z Cont := match n with Return _ => delete t cs | Continue co => <[t := co]> cs end.
Definition next_cont (n : Next) : option Cont := match n with Return _ => None | Continue co => Some co end.

Lemma next_conts_at t n cs : next_conts t n cs !! t = next_cont n.
Proof. destruct n; cbn; [apply lookup_delete_eq|apply lookup_insert_eq]. Qed.
Lemma next_conts_other t n cs u : u <> t -> next_conts t n cs !! u = cs !! u.
Proof. intros Hu. destruct n; cbn; [by rewrite lookup_delete_ne|by rewrite lookup_insert_ne]. Qed.

Lemma ti_cont q t h b co o' : thread_inv q t h b co -> Handshake.state h = Handshake.Running -> (forall c w, o' = Some c -> wait_of c = Some w -> Handshake.is_delivered h = true) ->
  (Handshake.ipc_aborted h = true -> collects o') -> thread_inv q t h b o'.
Proof.
  intros [H1 H2 H3 H4 H5 H6 H7 H8 H9 H10 H11] Hs Hw Ha. constructor; try done; try congruence; try (intros [?|?]; congruence); [|by left; apply Ha].
  intros Hr. split; [by apply H2|done].
Qed.

(** It goes on, or back to its program, and only where it is changes. *)
Lemma resume_cont y c t n : inv y -> running (tabs y) c t -> (forall slot, conts y !! t <> Some (InReply slot)) ->
  (exists co, next_cont n = Some co /\ wait_of co = None /\ collects (Some co)) -> inv (MkSys (tabs y) (next_conts t n (conts y))).
Proof.
  intros Hi Hrun Hni (co & Hn & Hw & Hc). destruct (at_core_of _ _ y c t Hi Hrun) as (h & b & Hac & Hti).
  apply (sys_self y c t h b h b (Some co) _ _ Hi Hac (or_introl eq_refl)); try done.
  - eapply ti_cont; [exact Hti|apply Hac|intros c0 w [= <-]; congruence|done].
  - intros i x u Hx _. split; [done|]. intros slot Hs. by apply Hni in Hs.
  - by rewrite set_same by apply Hac.
  - by rewrite insert_id by apply Hac.
  - by rewrite next_conts_at.
  - intros u. apply next_conts_other.
Qed.

(** The abort flag is collected and the call is over. *)
Lemma resume_collect y c t r : inv y -> running (tabs y) c t -> (forall slot, conts y !! t <> Some (InReply slot)) ->
  inv (MkSys (take_aborted (tabs y) t).2 (next_conts t (Return r) (conts y))).
Proof.
  intros Hi Hrun Hni. destruct (at_core_of _ _ y c t Hi Hrun) as (h & b & Hac & Hti). unfold take_aborted, handshake_of. rewrite (ac_hs _ _ _ _ _ Hac). cbn [Handshake.take_aborted snd].
  apply (sys_self y c t h b (Handshake.take_aborted h).2 b None _ _ Hi Hac (or_intror eq_refl)); try done.
  - destruct Hti as [H1 H2 H3 H4 H5 H6 H7 H8 H9 H10 H11]. pose proof (ac_running _ _ _ _ _ Hac) as Hs. constructor; cbn; try done; try congruence; try (intros [?|?]; congruence).
    + intros _. split; [apply Hac|done].
    + rewrite (ac_pending _ _ _ _ _ Hac). done.
    + by rewrite (ac_outgoing _ _ _ _ _ Hac).
  - intros i x u Hx _. split; [done|]. intros slot Hs. by apply Hni in Hs.
  - unfold on_handshake. cbn [machine set_machine]. rewrite (deliver_threads _ t _ h) by apply Hac. done.
  - cbn. by rewrite insert_id by apply Hac.
  - apply next_conts_at.
  - intros u. apply next_conts_other.
Qed.

Lemma get_slot (tb : Capability.CapabilityTable Object) slot cap : Capability.get tb slot = Ok cap -> Capability.slots tb !! Z.to_nat slot = Some (Some cap).
Proof.
  unfold Capability.get, Capability.slot. destruct (Capability.slots tb !! Z.to_nat slot) as [[c|]|]; try done. by intros [= <-].
Qed.

Lemma delete_peak (w : Capability.World Object) s : Capability.PEAK (Capability.delete w s).2 = Capability.PEAK w.
Proof. unfold Capability.delete. pose proof (Capability.empty_PEAK w (Z.to_nat s)) as H. by destruct (Capability.empty w (Z.to_nat s)) as [[?|] ?]. Qed.

(** A capability is deleted: by the program, or as the end of a reply. *)
Lemma delete_cap_ok y c t slot : inv y -> running (tabs y) c t -> conts y !! t = None \/ conts y !! t = Some (InReply slot) ->
  inv (MkSys (delete_cap (tabs y) t slot) (next_conts t (Return (Ok [0])) (conts y))).
Proof.
  intros Hi Hrun Hco. destruct (at_core_of _ _ y c t Hi Hrun) as (h & b & Hac & Hti). unfold delete_cap. rewrite (ac_tcb _ _ _ _ _ Hac). set (w := Capability.MkWorld _ _).
  pose proof (ti_tcb_ok _ _ _ _ _ Hti) as [Hwf Hr]. assert (Hwf' : Capability.wf CAPABILITY_TABLE_SLOTS (Capability.delete w slot).2) by (apply Capability.delete_wf; [by apply Nat.leb_le|done]).
  pose proof (Capability.delete_slots w slot) as Hsl. pose proof (delete_peak w slot) as Hpk. destruct (Capability.delete w slot).2 as [tb pk]. cbn [Capability.table Capability.PEAK w] in *. subst pk.
  assert (Hsub : forall i x, slots_of (set_table tb b) !! i = Some (Some x) -> slots_of b !! i = Some (Some x) /\ Z.to_nat slot <> i).
  { intros i x. cbn [capability_table set_table]. rewrite Hsl. intros [(_ & ? & _)|[Hne ?]]%list_lookup_insert_Some; done. }
  apply (sys_self y c t h b h (set_table tb b) None _ _ Hi Hac (or_introl eq_refl)); try done.
  - assert (Ha : Handshake.ipc_aborted h = true -> False).
    { intros Ha. pose proof (ac_running _ _ _ _ _ Hac). destruct (ti_aborted _ _ _ _ _ Hti Ha) as [Hx|[?|?]]; [|congruence..]. destruct Hco as [He|He]; rewrite He in Hx; done. }
    assert (Ht : thread_inv (PEAK (tabs y)) t h b None) by (eapply ti_cont; [exact Hti|apply Hac|done|done]).
    destruct Ht as [H1 H2 H3 H4 H5 H6 H7 H8 H9 H10 H11]. constructor; try done. intros i x u [Hx _]%Hsub. by apply (H10 i).
  - intros i x u [Hx Hne]%Hsub _. split; [done|]. intros slot' Hs. right. destruct Hco as [He|He]; congruence.
  - by rewrite set_same by apply Hac.
  - apply next_conts_at.
  - intros u. apply next_conts_other.
Qed.

Lemma delivered_at y c t h b co w : at_core (tabs y) c t h b -> thread_inv (PEAK (tabs y)) t h b (conts y !! t) -> conts y !! t = Some co -> wait_of co = Some w -> Handshake.is_delivered h = true.
Proof. intros Hac Hti Hco Hw. destruct (ti_runs _ _ _ _ _ Hti (or_intror (ac_running _ _ _ _ _ Hac))) as [_ Hd]. by apply (Hd co w). Qed.

Lemma aborted_error_inv y t : inv y -> inv (MkSys (aborted_send_error (tabs y) t).2 (conts y)).
Proof.
  intros Hi. unfold aborted_send_error. destruct (tcbs (tabs y) !! t) as [b|] eqn:Hb; [|by destruct y]. cbn [snd]. by apply (sys_field nothing [] y t b).
Qed.

(** The rest of a call never panics and keeps the invariant. *)
Lemma resume_ok y c t co : inv y -> running (tabs y) c t -> conts y !! t = Some co -> exists n k', resume (tabs y) c co = Done (n, k') /\ inv (MkSys k' (next_conts t n (conts y))).
Proof.
  intros Hi Hrun Hco. destruct (at_core_of _ _ y c t Hi Hrun) as (h & b & Hac & Hti). unfold resume. rewrite (ac_current _ _ _ _ _ Hac). cbn [mbind run_bind].
  assert (Hrecv : (exists w, wait_of co = Some w) -> ipc_receive_resume (tabs y) c = Done (mailbox b)).
  { intros [w Hw]. unfold ipc_receive_resume, handshake_of. rewrite (ac_current _ _ _ _ _ Hac). cbn [mbind run_bind]. rewrite (ac_tcb _ _ _ _ _ Hac), (ac_hs _ _ _ _ _ Hac).
    by rewrite (delivered_at y c t h b co w Hac Hti Hco Hw). }
  assert (Hgo : forall n co', next_cont n = Some co' -> wait_of co' = None -> collects (Some co') -> (forall slot, co <> InReply slot) -> inv (MkSys (tabs y) (next_conts t n (conts y)))).
  { intros n co' H1 H2 H3 H4. apply (resume_cont y c t n Hi Hrun); [|eauto]. intros slot Hs. rewrite Hco in Hs. injection Hs. apply H4. }
  assert (Htake : forall r, (forall slot, co <> InReply slot) -> inv (MkSys (take_aborted (tabs y) t).2 (next_conts t (Return r) (conts y)))).
  { intros r H4. apply (resume_collect y c t r Hi Hrun). intros slot Hs. rewrite Hco in Hs. injection Hs. apply H4. }
  destruct co as [ep|ep|ep|ep|id| |m|m|slot].
  - eexists _, _. split; [done|]. by eapply Hgo.
  - rewrite Hrecv by (by eexists). cbn [mbind run_bind]. eexists _, _. split; [done|]. by eapply Hgo.
  - unfold ipc_receive_cap_resume, handshake_of. rewrite (ac_current _ _ _ _ _ Hac). cbn [mbind run_bind]. rewrite (ac_tcb _ _ _ _ _ Hac), (ac_hs _ _ _ _ _ Hac).
    erewrite (delivered_at y c t h b _ _ Hac Hti Hco) by reflexivity. cbn [mbind run_bind]. eexists _, _. split; [done|]. by eapply Hgo.
  - unfold ipc_call_resume. rewrite Hrecv by (by eexists). cbn [mbind run_bind]. eexists _, _. split; [done|]. by eapply Hgo.
  - unfold notification_wait_resume, handshake_of. rewrite (ac_current _ _ _ _ _ Hac). cbn [mbind run_bind]. rewrite (ac_tcb _ _ _ _ _ Hac), (ac_hs _ _ _ _ _ Hac).
    erewrite (delivered_at y c t h b _ _ Hac Hti Hco) by reflexivity. cbn [negb Handshake.take_aborted mbind run_bind]. eexists _, _. split; [done|].
    pose proof (Htake (match (if Handshake.ipc_aborted h then Err MappingCalls.Gone else Ok (w0 (mailbox b))) with Ok word => Ok [word] | Err e => Err e end) ltac:(done)) as Hx.
    unfold take_aborted, handshake_of in Hx. rewrite (ac_hs _ _ _ _ _ Hac) in Hx. exact Hx.
  - destruct (take_aborted (tabs y) t) as [[] k1] eqn:Ht.
    + destruct (aborted_send_error k1 t) as [e k2] eqn:He. eexists _, _. split; [done|]. pose proof (aborted_error_inv _ t (Htake (Err e) ltac:(done))) as Hx. cbn [tabs conts snd] in Hx. by rewrite He in Hx.
    + eexists _, _. split; [done|]. exact (Htake (Ok [0]) ltac:(done)).
  - destruct (take_aborted (tabs y) t) as [[] k1] eqn:Ht; (eexists _, _; split; [done|]); exact (Htake _ ltac:(done)).
  - destruct (take_aborted (tabs y) t) as [[] k1] eqn:Ht.
    + destruct (aborted_send_error k1 t) as [e k2] eqn:He. eexists _, _. split; [done|]. pose proof (aborted_error_inv _ t (Htake (Err e) ltac:(done))) as Hx. cbn [tabs conts snd] in Hx. by rewrite He in Hx.
    + eexists _, _. split; [done|]. exact (Htake _ ltac:(done)).
  - eexists _, _. split; [done|]. apply (delete_cap_ok y c t slot Hi Hrun). by right.
Qed.

(** ** A call *)

Lemma reply_not_grantable cap u : Capability.object cap = OReply u -> Capability.rights cap = Capability.WRITE -> Capability.allows (Capability.rights cap) Capability.GRANT = false.
Proof. intros _ ->. done. Qed.

Lemma current_cap_slot k t slot cap : current_cap k t slot = Some cap -> exists b, tcbs k !! t = Some b /\ slots_of b !! Z.to_nat slot = Some (Some cap).
Proof.
  unfold current_cap. destruct (tcbs k !! t) as [b|]; [|done]. cbn [mbind option_bind]. destruct (Capability.get (capability_table b) slot) eqn:Hg; [|done]. intros [= <-]. exists b. split; [done|by apply get_slot].
Qed.

(** A call that comes straight back. *)
Lemma call_returned_ok y t k' r : conts y !! t = None -> inv (MkSys k' (conts y)) -> inv (MkSys k' (next_conts t (Return r) (conts y))).
Proof. intros Hc Hi. cbn [next_conts]. by rewrite delete_id. Qed.

Lemma refused_ok y t e : inv y -> conts y !! t = None -> exists n k', refuse e (tabs y) = Done (n, k') /\ inv (MkSys k' (next_conts t n (conts y))).
Proof. intros Hi Hc. eexists _, _. split; [done|]. apply call_returned_ok; [done|by destruct y]. Qed.

(** A thread's table gains no reply capability. *)
Lemma sys_table y t b tb pk : inv y -> tcbs (tabs y) !! t = Some b -> PEAK (tabs y) <= pk -> Capability.wf CAPABILITY_TABLE_SLOTS (Capability.MkWorld tb pk) ->
  (forall i x u, Capability.slots tb !! i = Some (Some x) -> Capability.object x = OReply u -> slots_of b !! i = Some (Some x)) ->
  inv (MkSys (MkTables (machine (tabs y)) (<[t := set_table tb b]> (tcbs (tabs y))) (rendezvous_table (tabs y)) (notification_table (tabs y)) pk) (conts y)).
Proof.
  intros Hi Hb Hpk Hwf Hsl. destruct (proj1 (inv_dom _ _ _ Hi t)) as [h Hh]; [eauto|]. pose proof (inv_threads _ _ _ Hi t h b Hh Hb) as Hti. set (k1 := MkTables _ _ _ _ _).
  assert (Hquiet : forall u, quiet (tabs y) k1 u).
  { intros u. split; [done|]. intros b'. cbn [k1 tcbs]. destruct (decide (t = u)) as [<-|Hne]; [rewrite lookup_insert_eq; intros [= <-]; by exists b|rewrite lookup_insert_ne by done; eauto]. }
  apply (sys_update nothing [] nothing [] y _ [t] Hi); cbn [tabs conts]; try done.
  - apply (inv_machine _ _ _ Hi).
  - intros u Hu%not_elem_of_cons. cbn [k1 machine tcbs]. rewrite lookup_insert_ne by (destruct Hu; congruence). done.
  - intros u ->%list_elem_of_singleton. exists h, (set_table tb b). cbn [k1 machine tcbs PEAK]. rewrite lookup_insert_eq. split; [done|]. split; [done|].
    destruct Hti as [H1 H2 H3 H4 H5 H6 H7 H8 H9 H10 H11]. constructor; try done. intros i x u Hx Ho. apply (H10 i x u); [by apply (Hsl i x u)|done].
  - apply (queues_still nothing [] (tabs y)); try done; [apply (inv_queues _ _ _ Hi)|exact (queues_distinct _ _ _ (inv_queues _ _ _ Hi))].
  - apply (replies_move y _ t (inv_replies _ _ _ Hi)); cbn [tabs]; [|by intros|by left]. intros s i u. apply holds_back. split; [|done]. cbn [tabs k1 tcbs]. intros s0 b0. destruct (decide (t = s0)) as [<-|Hne].
    + rewrite lookup_insert_eq. intros [= <-]. exists b. split; [done|exact Hsl].
    + rewrite lookup_insert_ne by done. intros Hb'. exists b0. split; [done|]. by intros ?.
Qed.

(** Both ways to file a capability. *)
Lemma filed_ok (w : Capability.World Object) target cap : Capability.wf CAPABILITY_TABLE_SLOTS w -> is_reply_cap cap = false ->
  let '(r, w') := match target with None => Capability.insert CAPABILITY_TABLE_SLOTS w cap | Some slot => Capability.insert_at CAPABILITY_TABLE_SLOTS w slot cap end in
  Capability.wf CAPABILITY_TABLE_SLOTS w' /\ Capability.PEAK w <= Capability.PEAK w' /\
  forall i x u, Capability.slots (Capability.table w') !! i = Some (Some x) -> Capability.object x = OReply u -> Capability.slots (Capability.table w) !! i = Some (Some x).
Proof.
  intros Hwf Hnr. assert (Hfill : forall s, Capability.wf CAPABILITY_TABLE_SLOTS (Capability.fill CAPABILITY_TABLE_SLOTS w s cap).2 /\ Capability.PEAK w <= Capability.PEAK (Capability.fill CAPABILITY_TABLE_SLOTS w s cap).2 /\
    forall i x u, Capability.slots (Capability.table (Capability.fill CAPABILITY_TABLE_SLOTS w s cap).2) !! i = Some (Some x) -> Capability.object x = OReply u -> Capability.slots (Capability.table w) !! i = Some (Some x)).
  { intros s. split; [apply Capability.fill_wf; [by apply Nat.leb_le|done]|]. split; [apply fill_peak|]. intros i x u. rewrite Capability.fill_slots.
    intros [(_ & Hx & _)|[_ Hx]]%list_lookup_insert_Some Hu; [|done]. injection Hx as <-. unfold is_reply_cap in Hnr. by rewrite Hu in Hnr. }
  destruct target as [slot|]; unfold Capability.insert_at, Capability.insert.
  - destruct (slot >=? _); [split; [done|split; [lia|done]]|]. destruct (is_some _); [split; [done|split; [lia|done]]|]. apply Hfill.
  - destruct (Capability.first_free _); [apply Hfill|split; [done|split; [lia|done]]].
Qed.

Lemma grant_ok y c t target cap : inv y -> running (tabs y) c t -> is_reply_cap cap = false -> exists r k', grant (tabs y) c target cap = Done (r, k') /\ inv (MkSys k' (conts y)).
Proof.
  intros Hi Hrun Hnr. destruct (at_core_of _ _ y c t Hi Hrun) as (h & b & Hac & Hti). unfold grant. rewrite (ac_current _ _ _ _ _ Hac). cbn [mbind run_bind]. rewrite (ac_tcb _ _ _ _ _ Hac). cbv zeta.
  pose proof (filed_ok (Capability.MkWorld (capability_table b) (PEAK (tabs y))) target cap (ti_table _ _ _ _ _ Hti) Hnr) as Hf.
  destruct (match target with Some _ => _ | None => _ end) as [r [tb pk]]. destruct Hf as (Hwf & Hpk & Hsl). cbn [Capability.table Capability.PEAK] in *. eexists _, _. split; [done|].
  by apply (sys_table y t b tb pk Hi (ac_tcb _ _ _ _ _ Hac)).
Qed.

Lemma invoke_rendezvous_ok y c t rights ep badge m : inv y -> running (tabs y) c t -> conts y !! t = None ->
  exists n k', invoke_rendezvous (tabs y) c t rights ep badge m = Done (n, k') /\ inv (MkSys k' (next_conts t n (conts y))).
Proof.
  intros Hi Hrun Hfree. pose proof (fun e => refused_ok y t e Hi Hfree) as Hrefuse. unfold invoke_rendezvous. destruct m as [a0 a1 a2| |slot rights' data| |a0 a1| | | | | |new]; try apply Hrefuse.
  6: { unfold rendezvous_badge. destruct (_ || _ || _); [apply Hrefuse|]. destruct (grant_ok y c t None (Capability.MkCap (ORendezvous ep new) rights) Hi Hrun eq_refl) as (r & k' & -> & Hi').
    cbn [mbind run_bind]. eexists _, _. split; [done|]. by apply call_returned_ok. }
  all: destruct (negb _); [apply Hrefuse|].
  - destruct (ipc_send_ok y c t ep a0 a1 a2 badge Hi Hrun Hfree) as (block & k' & -> & Hi'). cbn [mbind run_bind]. by eexists _, _.
  - destruct (ipc_receive_ok y c t ep Hi Hrun Hfree) as (r & k' & -> & Hi'). cbn [mbind run_bind]. by eexists _, _.
  - destruct (current_cap (tabs y) t slot) as [src|] eqn:Hsrc; [|apply Hrefuse]. destruct (Capability.allows (Capability.rights src) Capability.GRANT) eqn:Hg; cbn [negb]; [|apply Hrefuse].
    destruct (negb _); [apply Hrefuse|]. set (cap := Capability.MkCap _ _). assert (Hnr : is_reply_cap cap = false).
    { unfold is_reply_cap. cbn [cap Capability.object]. destruct (Capability.object src) eqn:Ho; try done. apply current_cap_slot in Hsrc as (b & Hb & Hsl).
      destruct (proj1 (inv_dom _ _ _ Hi t)) as [h Hh]; [eauto|]. pose proof (ti_rights _ _ _ _ _ (inv_threads _ _ _ Hi t h b Hh Hb) _ _ _ Hsl Ho) as Hr. by rewrite (reply_not_grantable src _ Ho Hr) in Hg. }
    destruct (ipc_send_cap_ok y c t ep data cap badge Hi Hrun Hfree Hnr) as (block & k' & -> & Hi'). cbn [mbind run_bind]. by eexists _, _.
  - destruct (ipc_receive_cap_ok y c t ep Hi Hrun Hfree) as (r & k' & -> & Hi'). cbn [mbind run_bind]. by eexists _, _.
  - destruct (ipc_call_ok y c t ep a0 a1 badge Hi Hrun Hfree) as (block & k' & -> & Hi'). cbn [mbind run_bind]. by eexists _, _.
Qed.

Lemma invoke_notification_ok y c t rights id m : inv y -> running (tabs y) c t -> conts y !! t = None ->
  exists n k', invoke_notification (tabs y) c t rights id m = Done (n, k') /\ inv (MkSys k' (next_conts t n (conts y))).
Proof.
  intros Hi Hrun Hfree. pose proof (fun e => refused_ok y t e Hi Hfree) as Hrefuse. assert (Hc : is_Some (Scheduler.cpus (machine (tabs y)) !! c)) by (destruct Hrun as [(p & Hp & _) _]; eauto).
  unfold invoke_notification. destruct m as [| | | | | |bits| | |slot|]; try apply Hrefuse; (destruct (negb _); [apply Hrefuse|]).
  - destruct (signal_ok y c id bits Local Hi Hc) as (r & k' & -> & Hi'). cbn [mbind run_bind]. eexists _, _. split; [done|]. by apply call_returned_ok.
  - destruct (wait_ok y c t id Hi Hrun Hfree) as (r & k' & -> & Hi'). cbn [mbind run_bind]. eexists _, _. split; [done|]. destruct r as [[]|]; [by apply call_returned_ok..|done].
  - pose proof (poll_ok y id Hi) as Hi'. destruct (notification_poll (tabs y) id) as [r k']. eexists _, _. split; [done|]. by apply call_returned_ok.
  - destruct (current_cap (tabs y) t slot) as [th|]; [|apply Hrefuse]. destruct (Capability.object th) as [| | | | | | |tid| | | |]; try apply Hrefuse.
    destruct (negb _); [apply Hrefuse|]. destruct (bind_ok y c id tid Hi Hc) as (r & k' & -> & Hi'). cbn [mbind run_bind]. eexists _, _. split; [done|]. by apply call_returned_ok.
Qed.

(** An invocation never panics and keeps the invariant. *)
Lemma invoke_ok y c t slot m : inv y -> running (tabs y) c t -> conts y !! t = None ->
  exists n k', invoke (tabs y) c slot m = Done (n, k') /\ inv (MkSys k' (next_conts t n (conts y))).
Proof.
  intros Hi Hrun Hfree. pose proof (fun e => refused_ok y t e Hi Hfree) as Hrefuse. destruct (at_core_of _ _ y c t Hi Hrun) as (h & b & Hac & Hti). unfold invoke.
  rewrite (ac_current _ _ _ _ _ Hac). cbn [mbind run_bind]. destruct (current_cap (tabs y) t slot) as [cap|] eqn:Hcap; [|apply Hrefuse].
  destruct (Capability.object cap) eqn:Ho; try apply Hrefuse.
  - by apply invoke_rendezvous_ok.
  - unfold invoke_reply. destruct m as [| | | | |a0 a1| | | | |]; try apply Hrefuse. destruct (negb _); [apply Hrefuse|]. apply current_cap_slot in Hcap as (b' & Hb' & Hsl).
    destruct (ipc_reply_ok y c t b' slot cap _ a0 a1 Hi Hrun Hfree Hb' Hsl Ho) as (k' & -> & Hi'). cbn [mbind run_bind]. by eexists _, _.
  - by apply invoke_notification_ok.
Qed.

(** ** New objects and new authority *)

Lemma sys_objects y k1 : inv y -> machine k1 = machine (tabs y) -> tcbs k1 = tcbs (tabs y) -> PEAK k1 = PEAK (tabs y) ->
  (forall ep t, (receiving k1 ep t <-> receiving (tabs y) ep t) /\ (sending k1 ep t <-> sending (tabs y) ep t)) -> (forall id t, noticing k1 id t <-> noticing (tabs y) id t) ->
  (forall ep, is_Some (rendezvous_table (tabs y) !! ep) -> is_Some (rendezvous_table k1 !! ep)) -> distinct k1 -> inv (MkSys k1 (conts y)).
Proof.
  intros Hi Hm Htc Hpk Hep Hno Hdom Hd. apply (sys_retable nothing [] nothing [] y k1 Hi Hm Htc Hpk). apply (queues_still nothing [] (tabs y)); try done.
  - apply (inv_queues _ _ _ Hi).
  - intros u. apply quiet_same; [by rewrite Hm|by rewrite Htc].
Qed.

Lemma create_rendezvous_ok y page name : inv y -> rendezvous_table (tabs y) !! name = None -> inv (MkSys (try_create_rendezvous_from (tabs y) page name).2 (conts y)).
Proof.
  intros Hi Hnone. unfold try_create_rendezvous_from. destruct (_ <=? _)%nat; [by destruct y|]. destruct page as [phys|]; [|by destruct y]. cbn [snd]. set (k1 := set_rendezvous _ _).
  pose proof (queues_distinct _ _ _ (inv_queues _ _ _ Hi)) as [Hd1 Hd2]. apply sys_objects; try done.
  - intros ep t. unfold receiving, sending. cbn [k1 rendezvous_table set_rendezvous]. destruct (decide (name = ep)) as [<-|Hne]; [rewrite lookup_insert_eq, Hnone|by rewrite lookup_insert_ne].
    split; (split; [intros (p & [= <-] & Hx); by apply elem_of_nil in Hx|by intros (p & ? & _)]).
  - intros ep Hs. cbn. destruct (decide (name = ep)) as [<-|Hne]; [rewrite lookup_insert_eq; eauto|by rewrite lookup_insert_ne].
  - split; [|done]. intros ep p. cbn. destruct (decide (name = ep)) as [<-|Hne]; [rewrite lookup_insert_eq; intros [= <-]; split; constructor|rewrite lookup_insert_ne by done; apply Hd1].
Qed.

Lemma create_notification_ok y page name : inv y -> notification_table (tabs y) !! name = None -> inv (MkSys (create_notification_from (tabs y) page name).2 (conts y)).
Proof.
  intros Hi Hnone. unfold create_notification_from. destruct (_ <=? _)%nat; [by destruct y|]. destruct page as [phys|]; [|by destruct y]. cbn [snd]. set (k1 := set_notifications _ _).
  pose proof (queues_distinct _ _ _ (inv_queues _ _ _ Hi)) as [Hd1 Hd2]. apply sys_objects; try done.
  - intros id t. unfold noticing. cbn [k1 notification_table set_notifications]. destruct (decide (name = id)) as [<-|Hne]; [rewrite lookup_insert_eq, Hnone|by rewrite lookup_insert_ne].
    split; [intros (p & [= <-] & Hx); by apply elem_of_nil in Hx|by intros (p & ? & _)].
  - split; [done|]. intros id p. cbn. destruct (decide (name = id)) as [<-|Hne]; [rewrite lookup_insert_eq; intros [= <-]; constructor|rewrite lookup_insert_ne by done; apply Hd2].
Qed.

Lemma bind_irq_ok y ep : inv y -> inv (MkSys (bind_irq (tabs y) ep) (conts y)).
Proof.
  intros Hi. unfold bind_irq. destruct (rendezvous_table (tabs y) !! ep) as [p|] eqn:Hp; [|by destruct y]. cbn [Rendezvous.spec_call snd]. set (e' := Rendezvous.MkEndpoint _ _ _ _). set (k1 := put_endpoint _ _ _ _).
  pose proof (queues_distinct _ _ _ (inv_queues _ _ _ Hi)) as [Hd1 Hd2]. apply sys_objects; try done.
  - intros ep' t. erewrite (receiving_put (tabs y) k1 ep p e' ep' t Hp), (sending_put (tabs y) k1 ep p e' ep' t Hp) by reflexivity. case_decide as He; [|done]. subst ep'.
    unfold receiving, sending. rewrite Hp. split; (split; [intros Hx; by exists p|by intros (q & [= <-] & Hx)]).
  - intros ep' Hs. cbn. destruct (decide (ep = ep')) as [<-|Hne]; [rewrite lookup_insert_eq; eauto|by rewrite lookup_insert_ne].
  - split; [|done]. intros ep' p'. cbn. destruct (decide (ep = ep')) as [<-|Hne]; [|rewrite lookup_insert_ne by done; apply Hd1]. rewrite lookup_insert_eq. intros [= <-]. exact (Hd1 ep p Hp).
Qed.

Lemma thread_insert_ok y t cap target : inv y -> is_reply_cap cap = false -> inv (MkSys (thread_insert_cap (tabs y) t cap target).2 (conts y)).
Proof.
  intros Hi Hnr. unfold thread_insert_cap, handshake_of. destruct (tcbs (tabs y) !! t) as [b|] eqn:Hb; [|by destruct y]. destruct (hs (tabs y) !! t) as [h|] eqn:Hh; [|by destruct y].
  destruct (negb _); [by destruct y|]. cbv zeta. pose proof (inv_threads _ _ _ Hi t h b Hh Hb) as Hti.
  pose proof (filed_ok (Capability.MkWorld (capability_table b) (PEAK (tabs y))) target cap (ti_table _ _ _ _ _ Hti) Hnr) as Hf.
  destruct (match target with Some _ => _ | None => _ end) as [[r|e] [tb pk]]; [|by destruct y]. destruct Hf as (Hwf & Hpk & Hsl). cbn [Capability.table Capability.PEAK snd] in *.
  by apply (sys_table y t b tb pk Hi Hb).
Qed.

(** ** New threads *)

Lemma fresh_thread q t h pg co : 0 <= q -> h = Handshake.embryo \/ h = Handshake.ready \/ h = Handshake.on_cpu_now -> co = None -> thread_inv q t h (fresh_tcb pg) co.
Proof.
  intros Hq Hh ->. assert (Hwf : Capability.wf CAPABILITY_TABLE_SLOTS (Capability.MkWorld (capability_table (fresh_tcb pg)) q)) by (apply Capability.wf_new; [by apply Nat.leb_le|done]).
  assert (Hsl : forall i c u, slots_of (fresh_tcb pg) !! i = Some (Some c) -> Capability.object c = OReply u -> Capability.rights c = Capability.WRITE).
  { intros i c u. cbn [fresh_tcb capability_table Capability.new Capability.slots]. intros Hx%lookup_replicate_1. by destruct Hx. }
  constructor; [| | | | | | | |exact Hwf|exact Hsl|]; destruct Hh as [->|[->| ->]]; try done; by intros [|].
Qed.

Lemma sys_new_thread y m' t h pg : inv y -> hs (tabs y) !! t = None -> h = Handshake.embryo \/ h = Handshake.ready \/ h = Handshake.on_cpu_now ->
  Scheduler.threads m' = <[t := h]> (hs (tabs y)) -> Scheduler.inv m' -> inv (MkSys (set_tcbs (set_machine (tabs y) m') (<[t := fresh_tcb pg]> (tcbs (tabs y)))) (conts y)).
Proof.
  intros Hi Hnone Hh Hth Hm. set (k1 := set_tcbs _ _). assert (Hco : conts y !! t = None).
  { destruct (conts y !! t) eqn:Hc; [|done]. destruct (inv_conts _ _ _ Hi t) as [? ?]; [eauto|congruence]. }
  assert (Hpl0 : place_at (tabs y) t = Nowhere) by (unfold place_at; by rewrite Hnone).
  destruct (nowhere_unqueued _ _ _ t (inv_queues _ _ _ Hi) ltac:(apply not_elem_of_nil) Hpl0) as (N1 & N2 & N3).
  assert (Hback : forall s i u, holds (MkSys k1 (conts y)) s i u -> holds y s i u).
  { intros s i u (b & x & Hb & Hx & Hr). cbn [tabs k1 tcbs set_tcbs] in Hb. destruct (decide (t = s)) as [<-|Hne]; [rewrite lookup_insert_eq in Hb; injection Hb as <-|rewrite lookup_insert_ne in Hb by done; by exists b, x].
    cbn [fresh_tcb capability_table Capability.new Capability.slots] in Hx. apply lookup_replicate_1 in Hx. by destruct Hx. }
  apply (sys_update nothing [] nothing [] y _ [t] Hi); cbn [tabs conts]; try done.
  - intros u Hu%not_elem_of_cons. cbn [k1 machine set_tcbs set_machine tcbs]. rewrite Hth, !lookup_insert_ne by (destruct Hu; congruence). done.
  - intros u ->%list_elem_of_singleton. exists h, (fresh_tcb pg). cbn [k1 machine set_tcbs set_machine tcbs PEAK]. rewrite Hth, !lookup_insert_eq. split; [done|]. split; [done|].
    apply fresh_thread; [apply (inv_peak _ _ _ Hi)|done|done].
  - apply (queues_alone nothing [] (tabs y) k1 t (inv_queues _ _ _ Hi)); try done; [apply not_elem_of_nil| |].
    + intros u Hu. apply quiet_same; cbn [k1 machine set_tcbs set_machine tcbs]; rewrite ?Hth; by rewrite lookup_insert_ne.
    + left. unfold place_at. cbn [k1 machine set_tcbs set_machine]. rewrite Hth, lookup_insert_eq. by destruct Hh as [->|[->| ->]].
  - apply (replies_move y _ t (inv_replies _ _ _ Hi)); cbn [tabs]; [done| |].
    + intros u Hu. apply quiet_same; cbn [k1 machine set_tcbs set_machine tcbs]; rewrite ?Hth; by rewrite lookup_insert_ne.
    + right. intros s i Hx%Hback. revert Hx. apply (unheld _ _ _ _ Hi). by rewrite Hpl0.
Qed.

Lemma place_on_threads (m : Machine Wait) here target t m' : Scheduler.place_on m here target t = Done m' -> Scheduler.threads m' = Scheduler.threads m.
Proof. unfold Scheduler.place_on. destruct (Scheduler.cpus m !! target); [|done]. by case_decide; intros [= <-]. Qed.

(** A thread not yet started gives its supervisor's slot up, and may become ready. *)
Lemma armed_ok y t h b m' h' : inv y -> hs (tabs y) !! t = Some h -> tcbs (tabs y) !! t = Some b -> Handshake.state h = Handshake.Embryo -> Scheduler.inv m' ->
  Scheduler.threads m' = <[t := h']> (hs (tabs y)) -> h' = h \/ h' = Handshake.set_state h Handshake.Ready ->
  inv (MkSys (if_thread (set_machine (tabs y) m') t (take_fault_ep (PEAK (tabs y)))) (conts y)).
Proof.
  intros Hi Hh Hb Hem Hm Hst Hh'. pose proof (inv_threads _ _ _ Hi t h b Hh Hb) as Hti.
  set (k1 := if_thread _ _ _). assert (Htc : tcbs k1 = <[t := take_fault_ep (PEAK (tabs y)) b]> (tcbs (tabs y))) by by apply alter_is_insert. set (b' := take_fault_ep _ _) in *.
  assert (Hb' : outgoing_cap b' = outgoing_cap b /\ tcb_ok (PEAK (tabs y)) t b' /\ slots_sub b' b).
  { pose proof (ti_tcb_ok _ _ _ _ _ Hti) as [Hwf Hrr]. unfold b', take_fault_ep. destruct (Capability.get (capability_table b) FAULT_EP_SLOT) as [x|]; [|split; [done|split; [done|by intros ?]]].
    destruct (Capability.object x); try (split; [done|split; [done|by intros ?]]). set (w := Capability.MkWorld _ _).
    assert (Hwf' : Capability.wf CAPABILITY_TABLE_SLOTS (Capability.delete w FAULT_EP_SLOT).2) by (apply Capability.delete_wf; [by apply Nat.leb_le|done]).
    pose proof (Capability.delete_slots w FAULT_EP_SLOT) as Hsl. pose proof (delete_peak w FAULT_EP_SLOT) as Hpk. destruct (Capability.delete w FAULT_EP_SLOT).2 as [tb pk]. cbn [Capability.table Capability.PEAK w] in *. subst pk.
    assert (Hsub : forall i z, Capability.slots tb !! i = Some (Some z) -> slots_of b !! i = Some (Some z)) by (intros i z; rewrite Hsl; by intros [(_ & ? & _)|[_ ?]]%list_lookup_insert_Some).
    split; [done|]. split; [split; [done|]|]; [intros i z u Hz%Hsub; by apply (Hrr i)|intros i z u Hz _; by apply Hsub]. }
  destruct Hb' as (Ho & [Hwf Hrr] & Hsub). assert (Hon : outgoing_cap b = None) by (eapply offers_nothing; [exact Hti|congruence|]; intros ep; unfold place; by rewrite Hem).
  assert (Hpl0 : place_at (tabs y) t = Nowhere) by (unfold place_at; rewrite Hh; unfold place; by rewrite Hem).
  destruct (nowhere_unqueued _ _ _ t (inv_queues _ _ _ Hi) ltac:(apply not_elem_of_nil) Hpl0) as (N1 & N2 & N3).
  assert (Hback : forall s i u, holds (MkSys k1 (conts y)) s i u -> holds y s i u).
  { intros s i u. apply holds_back. split; [|done]. cbn [tabs]. rewrite Htc. intros s0 b0. destruct (decide (t = s0)) as [<-|Hne]; [rewrite lookup_insert_eq; intros [= <-]; by exists b|].
    rewrite lookup_insert_ne by done. intros Hb0. exists b0. split; [done|by intros ?]. }
  apply (sys_update nothing [] nothing [] y _ [t] Hi); cbn [tabs conts]; try done.
  - intros u Hu%not_elem_of_cons. rewrite Htc. cbn [k1 machine if_thread set_tcbs set_machine]. rewrite Hst, !lookup_insert_ne by (destruct Hu; congruence). done.
  - intros u ->%list_elem_of_singleton. exists h', b'. rewrite Htc. cbn [k1 machine if_thread set_tcbs set_machine PEAK]. rewrite Hst, !lookup_insert_eq. split; [done|]. split; [done|].
    destruct Hti as [H1 H2 H3 H4 H5 H6 H7 H8 H9 H10 H11]. rewrite (H5 Hem) in *. destruct Hh' as [->| ->]; constructor; cbn; try done; try (by intros [?|?]); try (rewrite Ho, Hon; done).
    + intros _. split; [by apply H4; left|done].
    + intros Ha. destruct (H6 Ha) as [[]|[?|?]]; congruence.
  - apply (queues_alone nothing [] (tabs y) k1 t (inv_queues _ _ _ Hi)); try done; [apply not_elem_of_nil| |].
    + intros u Hu. apply quiet_same; [cbn [k1 machine if_thread set_tcbs set_machine]; rewrite Hst|rewrite Htc]; by rewrite lookup_insert_ne.
    + left. unfold place_at. cbn [k1 machine if_thread set_tcbs set_machine]. rewrite Hst, lookup_insert_eq. destruct Hh' as [->| ->]; unfold place; cbn; [by rewrite Hem|done].
  - apply (replies_move y _ t (inv_replies _ _ _ Hi)); cbn [tabs]; [done| |].
    + intros u Hu. apply quiet_same; [cbn [k1 machine if_thread set_tcbs set_machine]; rewrite Hst|rewrite Htc]; by rewrite lookup_insert_ne.
    + right. intros s i Hx%Hback. revert Hx. apply (unheld _ _ _ _ Hi). by rewrite Hpl0.
Qed.

(** A thread is started, or refused. *)
Lemma start_ok y here target t configured stack r k' : inv y -> start_thread (tabs y) here target t configured stack = Done (r, k') -> inv (MkSys k' (conts y)).
Proof.
  intros Hi. unfold start_thread. destruct (Scheduler.start_thread_control_block (machine (tabs y)) here target t) as [rm|[]] eqn:Hst; try (intros [= <- <-]; by destruct y).
  destruct configured; cbn [negb]; [|intros [= <- <-]; by destruct y]. pose proof Hst as Hst0. unfold Scheduler.start_thread_control_block in Hst.
  destruct (hs (tabs y) !! t) as [h|] eqn:Hh; [|done]. destruct (decide (Handshake.state h <> Handshake.Embryo)) as [|He]; [done|]. assert (Hem : Handshake.state h = Handshake.Embryo) by (destruct (decide (Handshake.state h = Handshake.Embryo)); tauto).
  destruct (proj2 (inv_dom _ _ _ Hi t)) as [b Hb]; [eauto|]. destruct stack; cbn [negb].
  - destruct rm as [m'|]; [|done]. cbn [mbind run_bind]. intros [= <- <-]. injection Hst as Hst%place_on_threads. apply (armed_ok y t h b m' (Handshake.set_state h Handshake.Ready)); try done; [|by right].
    by eapply Scheduler.start_inv; [apply (inv_machine _ _ _ Hi)|].
  - intros [= <- <-]. pose proof (armed_ok y t h b (machine (tabs y)) h Hi Hh Hb Hem (inv_machine _ _ _ Hi)) as Ha. rewrite insert_id in Ha by done.
    assert (Hid : set_machine (tabs y) (machine (tabs y)) = tabs y) by (by destruct (tabs y)). rewrite Hid in Ha. apply Ha; [done|by left].
Qed.

(** ** Executions

    Each constructor is one critical section, or for a call the part of it between
    two points where another thread may run. A thread inside the kernel is not
    ended between answering a call and giving up the capability it answered with:
    a system call runs with interrupts masked. *)

Inductive ustep (y : Sys) : Sys -> Prop :=
  | k_invoke c t slot m n k' : running (tabs y) c t -> conts y !! t = None -> invoke (tabs y) c slot m = Done (n, k') -> ustep y (MkSys k' (next_conts t n (conts y)))
  | k_resume c t co n k' : running (tabs y) c t -> conts y !! t = Some co -> resume (tabs y) c co = Done (n, k') -> ustep y (MkSys k' (next_conts t n (conts y)))
  | k_delete c t slot : running (tabs y) c t -> conts y !! t = None -> ustep y (MkSys (delete_cap (tabs y) t slot) (conts y))
  | k_depart c t event pc addr k' : running (tabs y) c t -> conts y !! t = None -> depart (tabs y) c event pc addr = Done k' -> ustep y (MkSys k' (conts y))
  | k_killed c t b k' : running (tabs y) c t -> tcbs (tabs y) !! t = Some b -> killed b = true -> (forall slot, conts y !! t <> Some (InReply slot)) ->
      finish_killed_current (tabs y) c t = Done k' -> ustep y (MkSys k' (conts y))
  | k_schedule c m' : Scheduler.settled (machine (tabs y)) c -> Scheduler.schedule (machine (tabs y)) c = Done m' -> ustep y (MkSys (set_machine (tabs y) m') (conts y))
  | k_finish_switch c k' : finish_switch (tabs y) c = Done k' -> ustep y (MkSys k' (prune k' (conts y)))
  | k_drain c m' : Scheduler.drain_inbox (machine (tabs y)) c = Done m' -> ustep y (MkSys (set_machine (tabs y) m') (conts y))
  | k_serve_steal c m' : Scheduler.settled (machine (tabs y)) c -> Scheduler.serve_steal_request (machine (tabs y)) c = Done m' -> ustep y (MkSys (set_machine (tabs y) m') (conts y))
  | k_initiate_steal c m' : Scheduler.try_initiate_steal (machine (tabs y)) c = Done m' -> ustep y (MkSys (set_machine (tabs y) m') (conts y))
  | k_irq c ep k' : is_Some (Scheduler.cpus (machine (tabs y)) !! c) -> irq_notify (tabs y) c ep = Done k' -> ustep y (MkSys k' (conts y))
  | k_signal c id bits r k' : is_Some (Scheduler.cpus (machine (tabs y)) !! c) -> signal_locked (tabs y) c id bits LoadAware = Done (r, k') -> ustep y (MkSys k' (conts y))
  | k_bind_irq ep : ustep y (MkSys (bind_irq (tabs y) ep) (conts y))
  | k_reap c base end_ r k' : is_Some (Scheduler.cpus (machine (tabs y)) !! c) -> reap_region_objects (tabs y) c base end_ = Done (r, k') -> ustep y (MkSys k' (prune k' (conts y)))
  | k_rendezvous page name : rendezvous_table (tabs y) !! name = None -> ustep y (MkSys (try_create_rendezvous_from (tabs y) page name).2 (conts y))
  | k_notification page name : notification_table (tabs y) !! name = None -> ustep y (MkSys (create_notification_from (tabs y) page name).2 (conts y))
  | k_thread t pg : hs (tabs y) !! t = None -> ustep y (MkSys (create_thread (tabs y) t pg) (conts y))
  | k_start here target t configured stack r k' : start_thread (tabs y) here target t configured stack = Done (r, k') -> ustep y (MkSys k' (conts y))
  | k_spawn here target t pg k' : hs (tabs y) !! t = None -> spawn_on (tabs y) here target t pg = Done k' -> ustep y (MkSys k' (conts y))
  | k_online t pg : hs (tabs y) !! t = None -> ustep y (MkSys (adopt_secondary_idle (tabs y) t pg) (conts y)).

(** The kernel puts a capability of its own making into a table: an object just
    created, or what a parent files in a thread it has not started. *)
Inductive gstep (y : Sys) (cap : Cap) : Sys -> Prop :=
  | k_grant c t target r k' : running (tabs y) c t -> is_reply_cap cap = false -> grant (tabs y) c target cap = Done (r, k') -> gstep y cap (MkSys k' (conts y))
  | k_thread_cap t target : is_reply_cap cap = false -> gstep y cap (MkSys (thread_insert_cap (tabs y) t cap target).2 (conts y)).

Definition kstep (y y' : Sys) : Prop := ustep y y' \/ exists cap, gstep y cap y'.

Definition boot (boot_tid idle_id pg pg' : Z) : Sys := MkSys (init boot_tid idle_id pg pg') ∅.

Definition reachable (y : Sys) : Prop := exists b i pg pg', b <> i /\ steps kstep (boot b i pg pg') y.

Lemma boot_inv b i pg pg' : b <> i -> inv (boot b i pg pg').
Proof.
  intros Hne. assert (Hpl : forall t, place_at (init b i pg pg') t = Nowhere).
  { intros t. unfold place_at. cbn [machine init Scheduler.threads Scheduler.init]. destruct (decide (b = t)) as [<-|Hb]; [by rewrite lookup_insert_eq|]. rewrite lookup_insert_ne by done.
    destruct (decide (i = t)) as [<-|Hi]; [by rewrite lookup_insert_eq|]. by rewrite lookup_insert_ne. }
  assert (Hno : forall s j u, ~ holds (boot b i pg pg') s j u).
  { intros s j u (x & c & Hx & Hs & _). cbn [boot tabs init tcbs] in Hx. assert (Hf : exists p, x = fresh_tcb p).
    { destruct (decide (b = s)) as [<-|Hb]; [rewrite lookup_insert_eq in Hx; injection Hx as <-; eauto|]. rewrite lookup_insert_ne in Hx by done.
      destruct (decide (i = s)) as [<-|Hi]; [rewrite lookup_insert_eq in Hx; injection Hx as <-; eauto|]. by rewrite lookup_insert_ne in Hx. }
    destruct Hf as [p ->]. cbn [fresh_tcb capability_table Capability.new Capability.slots] in Hs. apply lookup_replicate_1 in Hs. by destruct Hs. }
  constructor; cbn [boot tabs conts].
  - by apply Scheduler.init_inv.
  - intros t. cbn [tcbs init machine Scheduler.threads Scheduler.init]. rewrite !lookup_insert_is_Some. rewrite !lookup_empty. split; (intros [?|[? [?|[_ Hx]]]]; [by left|right; split; [done|by left]|by destruct Hx]).
  - intros t [c Hc]. by rewrite lookup_empty in Hc.
  - done.
  - intros t h x Hh Hx. rewrite lookup_empty. cbn [tcbs init machine Scheduler.threads Scheduler.init PEAK] in *.
    apply lookup_insert_Some in Hh as [[<- <-]|[Hb Hh]]; [rewrite lookup_insert_eq in Hx; injection Hx as <-; apply fresh_thread; [lia|auto|done]|].
    apply lookup_insert_Some in Hh as [[<- <-]|[_ Hh]]; [|by rewrite lookup_empty in Hh]. rewrite lookup_insert_ne, lookup_insert_eq in Hx by done. injection Hx as <-. apply fresh_thread; [lia|auto|done].
  - assert (H1 : forall ep t, ~ receiving (init b i pg pg') ep t) by (intros ep t (p & Hp & _); cbn in Hp; by rewrite lookup_empty in Hp).
    assert (H2 : forall ep t, ~ sending (init b i pg pg') ep t) by (intros ep t (p & Hp & _); cbn in Hp; by rewrite lookup_empty in Hp).
    assert (H3 : forall id t, ~ noticing (init b i pg pg') id t) by (intros id t (p & Hp & _); cbn in Hp; by rewrite lookup_empty in Hp).
    constructor.
    + intros ep t. rewrite Hpl. split; [by intros ?%H1|by intros []].
    + by intros ep t ?%H2.
    + intros ep t. by rewrite Hpl.
    + by intros ep t x ?%H2.
    + intros id t. rewrite Hpl. split; [by intros ?%H3|by intros []].
    + intros ep t. by rewrite Hpl.
    + intros ep t x. by rewrite Hpl.
    + intros ep p Hp. cbn in Hp. by rewrite lookup_empty in Hp.
    + intros ep p Hp. cbn in Hp. by rewrite lookup_empty in Hp.
  - intros s j t Hx. by apply Hno in Hx.
  - intros s j s' j' t Hx. by apply Hno in Hx.
Qed.

Lemma switch_only y m' : inv y -> Scheduler.inv m' -> switched_threads (tabs y) m' -> (forall t, is_Some (hs (tabs y) !! t) -> is_Some (Scheduler.threads m' !! t)) ->
  inv (MkSys (set_machine (tabs y) m') (conts y)).
Proof.
  intros Hi Hm Hsw Hd. pose proof (sys_switched y m' Hi Hm Hsw) as Hy. cbv zeta in Hy. assert (Hk : after_switch (tabs y) m' = set_machine (tabs y) m').
  { unfold after_switch, set_tcbs, set_machine. cbn. f_equal. apply map_eq. intros t. destruct (tcbs (tabs y) !! t) as [b|] eqn:Hb.
    - apply map_lookup_filter_Some_2; [done|]. apply Hd, (inv_dom _ _ _ Hi). eauto.
    - apply map_lookup_filter_None_2. by left. }
  rewrite Hk, (prune_all nothing [] y _ Hi) in Hy; [done|]. intros t. cbn. split; [|apply Hd]. specialize (Hsw t). destruct (hs (tabs y) !! t); [eauto|]. destruct (Scheduler.threads m' !! t); [done|done].
Qed.

Lemma same_threads y m' : inv y -> Scheduler.inv m' -> Scheduler.threads m' = hs (tabs y) -> inv (MkSys (set_machine (tabs y) m') (conts y)).
Proof. intros Hi Hm Ht. apply switch_only; [done|done|by apply switched_same|by rewrite Ht]. Qed.

Lemma schedule_dom (m m' : Machine Wait) c : Scheduler.schedule m c = Done m' -> forall t, is_Some (Scheduler.threads m !! t) -> is_Some (Scheduler.threads m' !! t).
Proof.
  assert (Hins : forall (ths : gmap Z HS) u x t, is_Some (ths !! t) -> is_Some (<[u := x]> ths !! t)) by (intros ths u x t Ht; destruct (decide (u = t)) as [<-|Hne]; [rewrite lookup_insert_eq; eauto|by rewrite lookup_insert_ne]).
  assert (Hgen : forall p run next, Scheduler.switch_to_next m c p run next = Done m' -> forall t, is_Some (Scheduler.threads m !! t) -> is_Some (Scheduler.threads m' !! t)).
  { intros p run next. unfold Scheduler.switch_to_next. destruct (decide (next = Scheduler.current p)); [done|].
    destruct (if run && _ then _ else _) as [[ths q]|] eqn:Hx; [|done]. cbn [mbind run_bind]. destruct (ths !! next) as [h|]; [|done]. destruct (Handshake.switch_in h); [|done]. cbn [mbind run_bind]. intros [= <-] t Ht. cbn. apply Hins.
    destruct (run && _); [|by injection Hx as <- _]. destruct (Scheduler.threads m !! Scheduler.current p) as [hc|]; [|done]. destruct (Handshake.preempt hc); [|done]. injection Hx as <- _. by apply Hins. }
  unfold Scheduler.schedule. destruct (Scheduler.cpus m !! c) as [p|]; [|done]. destruct (Scheduler.runq p) as [|next rest]; [|apply Hgen].
  destruct (bool_decide _); [by intros [= <-]|]. destruct (Scheduler.idle p) as [i|]; [|done]. destruct (decide (Scheduler.current p = i)); [done|]. apply Hgen.
Qed.

Lemma steal_threads (m m' : Machine Wait) c : Scheduler.serve_steal_request m c = Done m' -> Scheduler.threads m' = Scheduler.threads m.
Proof.
  unfold Scheduler.serve_steal_request. destruct (Scheduler.cpus m !! c) as [p|]; [|done]. destruct (StealSlot.take _) as [[r|] slot]; [|by intros [= <-]].
  destruct (Scheduler.runq p) as [|t rest]; [by intros [= <-]|]. cbv zeta. destruct (Scheduler.cpus _ !! Z.to_nat r); [by intros [= <-]|done].
Qed.

Lemma initiate_threads (m m' : Machine Wait) c : Scheduler.try_initiate_steal m c = Done m' -> Scheduler.threads m' = Scheduler.threads m.
Proof.
  unfold Scheduler.try_initiate_steal. destruct (Scheduler.cpus m !! c) as [p|]; [|done]. destruct (_ <? _)%nat; [by intros [= <-]|]. destruct (Scheduler.pick_victim m c) as [v|]; [|by intros [= <-]].
  destruct (Scheduler.cpus m !! v); [by intros [= <-]|done].
Qed.

Lemma ustep_inv y y' : inv y -> ustep y y' -> inv y'.
Proof.
  intros Hi Hst. destruct Hst.
  - destruct (invoke_ok y c t slot m Hi H H0) as (n0 & k0 & Hr & Hi'). rewrite Hr in H1. by injection H1 as <- <-.
  - destruct (resume_ok y c t co Hi H H0) as (n0 & k0 & Hr & Hi'). rewrite Hr in H1. by injection H1 as <- <-.
  - pose proof (delete_cap_ok y c t slot Hi H (or_introl H0)) as Hx. cbn [next_conts] in Hx. by rewrite delete_id in Hx.
  - destruct (depart_ok y c t event pc addr Hi H) as (k0 & Hr & Hi' & _); [by rewrite H0|]. rewrite Hr in H1. by injection H1 as <-.
  - destruct (killed_ok y c t Hi H) as (k0 & Hr & Hi' & _); [done|]. rewrite Hr in H3. by injection H3 as <-.
  - apply switch_only; [done| |by eapply schedule_switched|by eapply schedule_dom]. destruct (Scheduler.schedule_inv _ c (inv_machine _ _ _ Hi) H) as (m1 & Hm1 & Hx). congruence.
  - unfold finish_switch in H. destruct (Scheduler.finish_switch (machine (tabs y)) c) as [m'|] eqn:Hf; [|done]. cbn [mbind run_bind] in H. injection H as <-.
    apply (sys_switched y m' Hi); [|by apply (finish_switched (tabs y) c); [apply (inv_machine _ _ _ Hi)|]]. destruct (Scheduler.cpus (machine (tabs y)) !! c) as [p|] eqn:Hc; [|by unfold Scheduler.finish_switch in Hf; rewrite Hc in Hf].
    destruct (Scheduler.finish_switch_inv _ c p (inv_machine _ _ _ Hi) Hc) as (m1 & Hm1 & Hx). congruence.
  - apply same_threads; [done|by eapply Scheduler.drain_inbox_inv; [apply (inv_machine _ _ _ Hi)|]|]. unfold Scheduler.drain_inbox in H. destruct (Scheduler.cpus (machine (tabs y)) !! c); [|done]. by injection H as <-.
  - apply same_threads; [done| |by eapply steal_threads]. destruct (Scheduler.serve_steal_inv _ c (inv_machine _ _ _ Hi) H) as (m1 & Hm1 & Hx). congruence.
  - apply same_threads; [done|by eapply Scheduler.initiate_steal_inv; [apply (inv_machine _ _ _ Hi)|]|by eapply initiate_threads].
  - destruct (irq_notify_ok y c ep Hi H) as (k0 & Hr & Hi'). rewrite Hr in H0. by injection H0 as <-.
  - destruct (signal_ok y c id bits LoadAware Hi H) as (r0 & k0 & Hr & Hi'). rewrite Hr in H0. by injection H0 as <- <-.
  - by apply bind_irq_ok.
  - destruct (reap_region_ok y c base end_ Hi H) as (r0 & k0 & Hr & Hi' & _). rewrite Hr in H0. by injection H0 as <- <-.
  - by apply create_rendezvous_ok.
  - by apply create_notification_ok.
  - apply (sys_new_thread y _ t Handshake.embryo pg Hi H); [by left|done|]. apply Scheduler.retype_inv; [apply (inv_machine _ _ _ Hi)|done].
  - by eapply start_ok.
  - unfold spawn_on in H0. destruct (Scheduler.spawn_on (machine (tabs y)) here target t) as [m'|] eqn:Hs; [|done]. cbn [mbind run_bind] in H0. injection H0 as <-.
    apply (sys_new_thread y m' t Handshake.ready pg Hi H); [by right; left|exact (place_on_threads _ _ _ _ _ Hs)|by eapply Scheduler.spawn_inv; [apply (inv_machine _ _ _ Hi)|..]].
  - apply (sys_new_thread y _ t Handshake.on_cpu_now pg Hi H); [by right; right|done|]. apply Scheduler.online_inv; [apply (inv_machine _ _ _ Hi)|done].
Qed.

Lemma gstep_inv y cap y' : inv y -> gstep y cap y' -> inv y'.
Proof.
  intros Hi Hst. destruct Hst; [|by apply thread_insert_ok].
  destruct (grant_ok y c t target cap Hi H H0) as (r0 & k0 & Hr & Hi'). rewrite Hr in H1. by injection H1 as <- <-.
Qed.

Lemma kstep_inv y y' : inv y -> kstep y y' -> inv y'.
Proof. intros Hi [Hs|[cap Hs]]; [by eapply ustep_inv|by eapply gstep_inv]. Qed.

Lemma reachable_holds y : reachable y -> inv y.
Proof. intros (b & i & pg & pg' & Hne & Hs). eapply steps_invariant; [exact kstep_inv|exact Hs|by apply boot_inv]. Qed.

(** ** A message meets a receiver *)

(** A thread that was answered: its message is in its mailbox and it runs again. *)
Definition answered (k : IpcTables) (t : Z) (m : Msg) : Prop :=
  exists h b, hs k !! t = Some h /\ tcbs k !! t = Some b /\ mailbox b = m /\ Handshake.is_delivered h = true /\ (Handshake.wake_pending h = true \/ Handshake.state h = Handshake.Ready).

Lemma bound_signal_kept k k' t : tcbs k' !! t = tcbs k !! t -> notification_table k' = notification_table k -> take_bound_signal k t = None -> take_bound_signal k' t = None.
Proof.
  intros Ht Hn. unfold take_bound_signal. rewrite Ht, Hn. destruct (tcbs k !! t) as [b|]; [|done]. cbn [mbind option_bind]. destruct (bound_notification b) as [id|]; [|done]. cbn [mbind option_bind].
  destruct (notification_table k !! id); [|done]. cbn [mbind option_bind]. destruct (note_poll _) as [w e]. by destruct (w =? 0).
Qed.

Section meeting.
Context (y : Sys) (c1 c2 : nat) (t r ep : Z) (p : RendezvousPage) (a0 a1 a2 badge : Z).
Hypothesis (Hi : inv y) (Hrun : running (tabs y) c1 t) (Hrun2 : running (tabs y) c2 r) (Hne : t <> r) (Hfree : conts y !! t = None) (Hfree2 : conts y !! r = None)
  (Hp : rendezvous_table (tabs y) !! ep = Some p) (Hsq : Rendezvous.snd_q (r_state p) = []) (Hrq : Rendezvous.rcv_q (r_state p) = [])
  (Hpend : Rendezvous.pend (r_state p) = 0) (Hbound : Rendezvous.bound (r_state p) = false) (Hsig : take_bound_signal (tabs y) r = None).

Lemma sender_first : exists k1 k2, ipc_send_badged (tabs y) c1 ep a0 a1 a2 badge = Done (true, k1) /\ ipc_receive k1 c2 ep = Done (Some (wide a0 a1 a2 badge), k2).
Proof.
  destruct (at_core_of _ _ y c1 t Hi Hrun) as (h & b & Hac & Hti). pose proof Hti as Hti'. rewrite Hfree in Hti'. unfold ipc_send_badged.
  rewrite (ac_current _ _ _ _ _ Hac). cbn [mbind run_bind]. rewrite (ac_tcb _ _ _ _ _ Hac), Hp. unfold ep_send. cbn [Rendezvous.spec_call]. rewrite Hbound, Hrq, Hsq. cbn [app].
  unfold with_thread. cbn [tcbs put_endpoint set_rendezvous]. rewrite (ac_tcb _ _ _ _ _ Hac). cbn [mbind run_bind]. set (e' := Rendezvous.MkEndpoint _ _ _ _). set (b' := set_mailbox _ _).
  erewrite (park_now y c1 t h b _ _ Hi Hac Hti') by done. cbn [mbind run_bind]. set (k1 := set_machine _ _). assert (Hi1 : inv (MkSys k1 (<[t := InSend ep]> (conts y)))).
  { apply (inv_park_sender y c1 t h b b' (WRendezvous ep Sender) (InSend ep) ep p e' Hi Hac Hti Hfree Hp Hrq); try done; [by rewrite Hsq|]. left. split; [done|].
    cbn [b' outgoing_cap set_mailbox]. by rewrite (ac_outgoing _ _ _ _ _ Hac). }
  assert (Hrun1 : running k1 c2 r) by (apply (running_kept (tabs y) _ c2 r Hrun2); cbn; [done|by rewrite lookup_insert_ne]).
  destruct (at_core_of _ _ _ c2 r Hi1 Hrun1) as (hr & br & Hacr & _). cbn [tabs] in Hacr. eexists k1. assert (Hp1 : rendezvous_table k1 !! ep = Some (MkRendezvousPage (r_page p) e')) by (cbn; by rewrite lookup_insert_eq).
  destruct (release_sender_ok (MkSys k1 (<[t := InSend ep]> (conts y))) c2 ep _ t [] Hi1 (ac_core _ _ _ _ _ Hacr) Hp1 eq_refl) as (k2 & Hk2 & _). cbn [tabs r_state] in Hk2. exists k2. split; [done|].
  unfold ipc_receive. rewrite (ac_current _ _ _ _ _ Hacr). cbn [mbind run_bind]. rewrite (ac_tcb _ _ _ _ _ Hacr), Hp1.
  rewrite (bound_signal_kept (tabs y) k1 r) by (try done; cbn; by rewrite lookup_insert_ne). unfold ep_receive. cbn [Rendezvous.spec_call r_state e' Rendezvous.pend Rendezvous.snd_q]. rewrite Hpend. cbn [Z.ltb Z.compare].
  assert (tcbs k1 !! t = Some b') as -> by (cbn; by rewrite lookup_insert_eq). cbn [Rendezvous.rcv_q Rendezvous.bound] in Hk2 |- *. cbn [e' Rendezvous.rcv_q Rendezvous.pend Rendezvous.bound] in Hk2. rewrite Hpend in Hk2.
  match type of Hk2 with ?l = _ => change (l ≫= (fun k0 => Done (Some (mailbox b'), k0)) = Done (Some (wide a0 a1 a2 badge), k2)) end. by rewrite Hk2.
Qed.

Lemma receiver_first : exists k1 k2, ipc_receive (tabs y) c2 ep = Done (None, k1) /\ ipc_send_badged k1 c1 ep a0 a1 a2 badge = Done (false, k2) /\ answered k2 r (wide a0 a1 a2 badge).
Proof.
  destruct (at_core_of _ _ y c2 r Hi Hrun2) as (h & b & Hac & Hti). pose proof Hti as Hti'. rewrite Hfree2 in Hti'. unfold ipc_receive.
  rewrite (ac_current _ _ _ _ _ Hac). cbn [mbind run_bind]. rewrite (ac_tcb _ _ _ _ _ Hac), Hp, Hsig. unfold ep_receive. cbn [Rendezvous.spec_call]. rewrite Hpend, Hsq, Hrq. cbn [Z.ltb Z.compare app].
  set (e' := Rendezvous.MkEndpoint _ _ _ _). erewrite (park_now y c2 r h b _ _ Hi Hac Hti') by done. cbn [mbind run_bind]. set (k1 := set_machine _ _). assert (Hi1 : inv (MkSys k1 (<[r := InReceive ep]> (conts y)))).
  { pose proof (inv_park_receiver y c2 r h b b (InReceive ep) ep p e' Hi Hac Hti Hfree2 Hp Hsq eq_refl) as Hy. rewrite insert_id in Hy by apply Hac. apply Hy; try done. by rewrite Hrq. }
  assert (Hrun1 : running k1 c1 t) by (apply (running_kept (tabs y) _ c1 t Hrun); cbn; [done|by rewrite lookup_insert_ne]).
  destruct (at_core_of _ _ _ c1 t Hi1 Hrun1) as (ht & bt & Hact & _). cbn [tabs] in Hact. assert (Hp1 : rendezvous_table k1 !! ep = Some (MkRendezvousPage (r_page p) e')) by (cbn; by rewrite lookup_insert_eq).
  assert (Hr1 : hs k1 !! r = Some (parked h (WRendezvous ep Receiver))) by (cbn; by rewrite lookup_insert_eq).
  exists k1. unfold ipc_send_badged. rewrite (ac_current _ _ _ _ _ Hact). cbn [mbind run_bind]. rewrite (ac_tcb _ _ _ _ _ Hact), Hp1. unfold ep_send. cbn [Rendezvous.spec_call r_state e' Rendezvous.bound Rendezvous.rcv_q].
  rewrite Hbound. set (e2 := Rendezvous.MkEndpoint _ _ _ _).
  destruct (hand_over_effect (put_endpoint k1 ep (MkRendezvousPage (r_page p) e') e2) c1 r _ b (set_mailbox (wide a0 a1 a2 badge)) (inv_machine _ _ _ Hi1) (ac_core _ _ _ _ _ Hact) Hr1 (ac_tcb _ _ _ _ _ Hac)) as (m' & -> & Hth & _ & _).
  cbn [mbind run_bind]. eexists. split; [done|]. split; [done|]. eexists _, _. cbn [tcbs machine]. rewrite Hth, !lookup_insert_eq.
  split; [done|]. split; [done|]. split; [done|]. destruct (woken_blocked (Handshake.serve (parked h (WRendezvous ep Receiver)))) as [[_ ->]|[_ ->]]; [done|done| |]; cbn; auto.
Qed.
End meeting.

(** ** Playing an execution

    The steps as moves that are computed, so that an execution is found by
    evaluation. *)

(** The thread a core is working for: not its idle thread, and not in mid-switch. *)
Definition working (k : IpcTables) (c : nat) : option Z :=
  p ← Scheduler.cpus (machine k) !! c;
  h ← hs k !! Scheduler.current p;
  if bool_decide (Scheduler.switched_from p = None) && bool_decide (Scheduler.idle p <> Some (Scheduler.current p)) && bool_decide (Handshake.state h = Handshake.Running)
  then Some (Scheduler.current p) else None.

Lemma working_runs k c t : working k c = Some t -> running k c t.
Proof.
  unfold working. destruct (Scheduler.cpus (machine k) !! c) as [p|] eqn:Hp; [|done]. cbn [mbind option_bind]. destruct (hs k !! Scheduler.current p) as [h|] eqn:Hh; [|done]. cbn [mbind option_bind].
  destruct (bool_decide (Scheduler.switched_from p = None)) eqn:H1; [|done]. destruct (bool_decide (Scheduler.idle p <> _)) eqn:H2; [|done].
  destruct (bool_decide (Handshake.state h = _)) eqn:H3; [|done]. cbn [andb]. intros [= <-].
  apply bool_decide_eq_true in H1, H2, H3. split; [by exists p|by exists h].
Qed.

Inductive Move :=
  | Invoke (c : nat) (slot : Z) (m : Method)
  | Resume (c : nat)
  | Grant (c : nat) (cap : Cap)
  | Depart (c : nat) (event : Z)
  | Switch (c : nat)
  | FinishSwitch (c : nat)
  | Drain (c : nat)
  | NewRendezvous (page name : Z)
  | NewNotification (page name : Z)
  | NewThread (here target : nat) (t page : Z)
  | Online (t page : Z).

Definition settled_now (k : IpcTables) (c : nat) : bool :=
  match Scheduler.cpus (machine k) !! c with Some p => bool_decide (Scheduler.switched_from p = None) | None => false end.

Definition play (y : Sys) (mv : Move) : option Sys :=
  let k := tabs y in
  match mv with
  | Invoke c slot m =>
      t ← working k c;
      match conts y !! t, invoke k c slot m with None, Done (n, k') => Some (MkSys k' (next_conts t n (conts y))) | _, _ => None end
  | Resume c =>
      t ← working k c; co ← conts y !! t;
      match resume k c co with Done (n, k') => Some (MkSys k' (next_conts t n (conts y))) | Panicked => None end
  | Grant c cap =>
      t ← working k c;
      match is_reply_cap cap, grant k c None cap with false, Done (_, k') => Some (MkSys k' (conts y)) | _, _ => None end
  | Depart c event =>
      t ← working k c;
      match conts y !! t, depart k c event 0 0 with None, Done k' => Some (MkSys k' (conts y)) | _, _ => None end
  | Switch c =>
      if settled_now k c then match Scheduler.schedule (machine k) c with Done m' => Some (MkSys (set_machine k m') (conts y)) | Panicked => None end else None
  | FinishSwitch c => match finish_switch k c with Done k' => Some (MkSys k' (prune k' (conts y))) | Panicked => None end
  | Drain c => match Scheduler.drain_inbox (machine k) c with Done m' => Some (MkSys (set_machine k m') (conts y)) | Panicked => None end
  | NewRendezvous page name =>
      match rendezvous_table k !! name with None => Some (MkSys (try_create_rendezvous_from k (Some page) name).2 (conts y)) | Some _ => None end
  | NewNotification page name =>
      match notification_table k !! name with None => Some (MkSys (create_notification_from k (Some page) name).2 (conts y)) | Some _ => None end
  | NewThread here target t page =>
      match hs k !! t, spawn_on k here target t page with None, Done k' => Some (MkSys k' (conts y)) | _, _ => None end
  | Online t page => match hs k !! t with None => Some (MkSys (adopt_secondary_idle k t page) (conts y)) | Some _ => None end
  end.

Fixpoint plays (y : Sys) (l : list Move) : option Sys := match l with [] => Some y | mv :: l' => y' ← play y mv; plays y' l' end.

Lemma play_step y mv y' : play y mv = Some y' -> ustep y y' \/ exists c cap, mv = Grant c cap /\ gstep y cap y'.
Proof.
  destruct mv; cbn [play]; intros Hp; repeat (match type of Hp with
    | context [working ?k ?c] => destruct (working k c) as [t'|] eqn:Hw; [apply working_runs in Hw|done]; cbn [mbind option_bind] in Hp
    | context [match ?x with _ => _ end] => destruct x eqn:?; try done; cbn [mbind option_bind] in Hp
    | context [mbind _ ?x] => destruct x eqn:?; try done; cbn [mbind option_bind] in Hp
    end); injection Hp as <-; try (left; by econstructor); try (right; eexists _, _; split; [done|by econstructor]).
  left. apply (k_schedule y c); [|done]. unfold settled_now in *. destruct (Scheduler.cpus _ !! c) as [p|] eqn:Hp; [|done]. exists p. split; [done|]. by eapply bool_decide_eq_true_1.
Qed.

Lemma plays_steps l : forall y y', plays y l = Some y' -> steps kstep y y'.
Proof.
  induction l as [|mv l IH]; intros y y'; cbn [plays]; [intros [= <-]; constructor|]. destruct (play y mv) as [y1|] eqn:Hp; [|done]. cbn [mbind option_bind].
  intros Hl%IH. eapply steps_step; [|done]. apply play_step in Hp as [Hp|(c & cap & _ & Hp)]; [by left|right; eauto].
Qed.

(** A client on core 0 calls an endpoint; a server on core 1 receives the call with
    its reply capability. *)
Definition endpoint_cap : Cap := Capability.MkCap (ORendezvous 100 7) (Capability.from_bits 7).

Definition two_cores : list Move :=
  [NewRendezvous 4096 100; NewNotification 8192 200; Online 2 20480; NewThread 0 1 3 24576; Grant 0 endpoint_cap; Drain 1; Switch 1; FinishSwitch 1; Grant 1 endpoint_cap].

Definition open_call : list Move := two_cores ++ [Invoke 0 0 (CALL 11 12); Invoke 1 0 RECEIVE_CAP; Resume 1].

Definition demo (l : list Move) : Sys := match plays (boot 0 1 28672 32768) l with Some y => y | None => boot 0 1 28672 32768 end.

(** ** Replies *)

Lemma get_live (tb : Capability.CapabilityTable Object) i cap : Capability.slots tb !! i = Some (Some cap) -> Capability.get tb (Z.of_nat i) = Ok cap.
Proof. intros Hs. unfold Capability.get, Capability.slot. by rewrite Nat2Z.id, Hs. Qed.

Lemma reply_delivers y c s i t a0 a1 : inv y -> running (tabs y) c s -> conts y !! s = None -> holds y s i t ->
  exists k', invoke (tabs y) c (Z.of_nat i) (REPLY a0 a1) = Done (Continue (InReply (Z.of_nat i)), k') /\ answered k' t (MkMsg a0 a1 0 0 0) /\
    forall s' i', ~ holds (MkSys k' (<[s := InReply (Z.of_nat i)]> (conts y))) s' i' t.
Proof.
  intros Hi Hrun Hfree Hh. destruct (at_core_of _ _ y c s Hi Hrun) as (h & b & Hac & Hti). pose proof Hh as (b0 & cap & Hb0 & Hsl & Hobj & _).
  assert (b0 = b) as -> by (pose proof (ac_tcb _ _ _ _ _ Hac); congruence).
  destruct (ipc_reply_ok y c s b (Z.of_nat i) cap t a0 a1 Hi Hrun Hfree Hb0 ltac:(by rewrite Nat2Z.id) Hobj) as (k' & Hk & Hi').
  assert (Hinv : invoke (tabs y) c (Z.of_nat i) (REPLY a0 a1) = Done (Continue (InReply (Z.of_nat i)), k')).
  { unfold invoke, current_cap, invoke_reply. rewrite (ac_current _ _ _ _ _ Hac). cbn [mbind run_bind]. rewrite Hb0. cbn [mbind option_bind]. rewrite (get_live _ _ _ Hsl), Hobj, (ti_rights _ _ _ _ _ Hti i cap t Hsl Hobj).
    cbn [negb]. by rewrite Hk. }
  exists k'. split; [done|].
  destruct (held_unqueued _ _ y s i t Hi ltac:(apply not_elem_of_nil) Hh) as (ep & hc & bc & Hpl & Hhc & Hbc & Hoc & Htic & Hplc & _). destruct (place_blocked hc) as [Hblk _]; [eauto|].
  unfold ipc_reply, handshake_of in Hk. rewrite Hhc, (place_reply_awaits hc ep Hplc) in Hk. cbn [negb] in Hk.
  destruct (hand_over_effect (tabs y) c t hc bc (set_mailbox (MkMsg a0 a1 0 0 0)) (inv_machine _ _ _ Hi) (ac_core _ _ _ _ _ Hac) Hhc Hbc) as (m' & Hho & Hth & _ & _).
  rewrite Hho in Hk. injection Hk as <-. split.
  - eexists _, _. cbn [tcbs machine]. rewrite Hth, !lookup_insert_eq. split; [done|]. split; [done|]. split; [done|].
    destruct (woken_blocked (Handshake.serve hc)) as [[_ ->]|[_ ->]]; [done|done| |]; cbn; auto.
  - intros s' i' Hh'. destruct (inv_holds _ _ _ Hi' s' i' t Hh') as [[ep' He] _]. unfold place_at in He. cbn [tabs machine] in He. rewrite Hth, lookup_insert_eq, place_woken in He; [done|by left|congruence].
Qed.

(** ** Who joins a sender queue, and who leaves it *)

Lemma answered_same k k' t m : hs k' !! t = hs k !! t -> tcbs k' !! t = tcbs k !! t -> answered k t m -> answered k' t m.
Proof. intros Hh Hb (h & b & H). exists h, b. by rewrite Hh, Hb. Qed.

(** A receiver a message is handed to is answered with it. *)
Lemma hand_over_answers k c r ep h b f k' : Scheduler.inv (machine k) -> is_Some (Scheduler.cpus (machine k) !! c) -> hs k !! r = Some h -> tcbs k !! r = Some b -> place h = AtReceivers ep ->
  hand_over k c r f = Done k' -> answered k' r (mailbox (f b)) /\ same_cores (machine k) (machine k') /\ forall t, t <> r -> hs k' !! t = hs k !! t /\ tcbs k' !! t = tcbs k !! t.
Proof.
  intros Hi Hc Hh Hb Hpl Hk. destruct (place_blocked h) as [Hblk _]; [eauto|]. destruct (hand_over_effect k c r h b f Hi Hc Hh Hb) as (m' & Hho & Hth & Hsc & _). rewrite Hho in Hk. injection Hk as <-.
  split; [|split; [done|intros t Ht; cbn [machine tcbs]; rewrite Hth; by rewrite !lookup_insert_ne]]. eexists _, _. cbn [machine tcbs]. rewrite Hth, !lookup_insert_eq. split; [done|]. split; [done|]. split; [done|].
  destruct (woken_blocked (Handshake.serve h)) as [[_ ->]|[_ ->]]; [done|done| |]; cbn; auto.
Qed.

(** A thread that parks waits where it parked. *)
Lemma park_places k c t h w k' : current_thread_id k c = Done t -> hs k !! t = Some h -> Handshake.ipc_aborted h = false -> park k c w = Done k' ->
  place_at k' t = place_of w /\ rendezvous_table k' = rendezvous_table k /\ forall u, u <> t -> hs k' !! u = hs k !! u /\ tcbs k' !! u = tcbs k !! u.
Proof.
  unfold current_thread_id, park, Scheduler.park_current. destruct (Scheduler.cpus (machine k) !! c) as [p|]; [|done]. intros [= ->] Hh Ha. rewrite Hh. unfold Handshake.park.
  destruct (decide _); [|done]. cbn [mbind run_bind]. intros [= <-]. split; [|split; [done|intros u Hu; cbn; by rewrite lookup_insert_ne]].
  unfold place_at. cbn. rewrite lookup_insert_eq. cbn. unfold place, Handshake.is_delivered. cbn. by rewrite Ha.
Qed.

Lemma running_clean y c t h b : at_core (tabs y) c t h b -> thread_inv (PEAK (tabs y)) t h b None -> Handshake.ipc_aborted h = false.
Proof.
  intros Hac Hti. destruct (Handshake.ipc_aborted h) eqn:Ha; [|done]. pose proof (ac_running _ _ _ _ _ Hac). destruct (ti_aborted _ _ _ _ _ Hti Ha) as [[]|[?|?]]; congruence.
Qed.

(** The receiver at the head, as a thread. *)
Lemma head_receiver y ep p r l : inv y -> rendezvous_table (tabs y) !! ep = Some p -> Rendezvous.rcv_q (r_state p) = r :: l ->
  receiving (tabs y) ep r /\ exists h b, hs (tabs y) !! r = Some h /\ tcbs (tabs y) !! r = Some b /\ place h = AtReceivers ep /\ tcb_ok (PEAK (tabs y)) r b.
Proof.
  intros Hi Hp Hrl. assert (Hrcv : receiving (tabs y) ep r) by (exists p; rewrite Hrl; split; [done|constructor]). split; [done|].
  pose proof (proj1 (q_receivers _ _ _ (inv_queues _ _ _ Hi) ep r) Hrcv) as [Hpl _]. destruct (placed_thread _ _ y r Hi) as (h & b & Hh & Hb & Hph & Hti); [congruence|].
  exists h, b. split_and!; [done|done|congruence|by eapply ti_tcb_ok].
Qed.

Lemma call_joins y c t ep p a0 a1 badge : inv y -> running (tabs y) c t -> conts y !! t = None -> rendezvous_table (tabs y) !! ep = Some p -> Rendezvous.bound (r_state p) = false ->
  exists k', ipc_call_badged (tabs y) c ep a0 a1 badge = Done (true, k') /\ place_at k' t = AtReply ep /\
    (sending k' ep t \/ exists r slot, receiving (tabs y) ep r /\ answered k' r (MkMsg a0 slot a1 badge (reply_tag slot))).
Proof.
  intros Hi Hrun Hfree Hp Hbd. destruct (at_core_of _ _ y c t Hi Hrun) as (h & b & Hac & Hti). rewrite Hfree in Hti. pose proof (running_clean y c t h b Hac Hti) as Ha.
  destruct (ipc_call_ok y c t ep a0 a1 badge Hi Hrun Hfree) as (block & k' & Hk & _). rewrite Hk. unfold ipc_call_badged in Hk. rewrite (ac_current _ _ _ _ _ Hac) in Hk. cbn [mbind run_bind] in Hk.
  rewrite (ac_tcb _ _ _ _ _ Hac), Hp in Hk. destruct (ep_send_cases (r_state p) t) as [[? _]|[(r & l & Hrl & Hs)|[Hrl Hs]]]; [congruence| |]; rewrite Hs in Hk.
  - destruct (head_receiver y ep p r l Hi Hp Hrl) as (Hrcv & hr & br & Hhr & Hbr & Hpr & Hok).
    assert (Hne : t <> r) by (intros ->; rewrite (ac_hs _ _ _ _ _ Hac) in Hhr; injection Hhr as <-; destruct (place_blocked h) as [Hblk _]; [eauto|]; pose proof (ac_running _ _ _ _ _ Hac); congruence).
    match type of Hk with context [put_endpoint ?k ?ep ?p ?e] => destruct (insert_cap_spec (put_endpoint k ep p e) r br (reply_cap t) Hbr Hok) as (slot & tb & pk & Hins & _) end. rewrite Hins in Hk.
    cbn [mbind run_bind] in Hk. destruct (hand_over _ _ _ _) as [k2|] eqn:Hho in Hk; [|done]. cbn [mbind run_bind] in Hk. destruct (park k2 _ _) as [k3|] eqn:Hpk; [|done]. injection Hk as <- <-.
    eapply (hand_over_answers _ c r ep hr (set_table tb br)) in Hho as (Hans & Hsc & Hoth); [|apply (inv_machine _ _ _ Hi)|apply Hac|exact Hhr|cbn; by rewrite lookup_insert_eq|done].
    destruct (Hoth t Hne) as [Hht _]. cbn [machine put_endpoint set_rendezvous] in Hht, Hsc. destruct (park_places k2 c t h (WRendezvous ep Reply) k3) as (Hpl & _ & Hp3); [|rewrite Hht; apply Hac|done|exact Hpk|].
    + pose proof (ac_current _ _ _ _ _ Hac) as Hcur. unfold current_thread_id in *. destruct (Scheduler.cpus (machine (tabs y)) !! c) as [q|] eqn:Hq; [|done].
      destruct (same_cores_current _ _ _ _ Hsc Hq) as (q' & -> & ->). done.
    + exists k3. split; [done|]. split; [done|]. right. exists r, slot. split; [done|]. by apply (answered_same k2); [apply Hp3|apply Hp3|].
  - unfold with_thread in Hk. cbn [tcbs put_endpoint set_rendezvous] in Hk. rewrite (ac_tcb _ _ _ _ _ Hac) in Hk. cbn [mbind run_bind] in Hk.
    destruct (park _ _ _) as [k3|] eqn:Hpk in Hk; [|done]. injection Hk as <- <-. eapply (park_places _ c t h) in Hpk as (Hpl & Hrt & _); [|apply Hac|apply Hac|done].
    exists k3. split; [done|]. split; [done|]. left. unfold sending. rewrite Hrt. cbn. rewrite lookup_insert_eq. eexists. split; [done|]. cbn. set_solver.
Qed.

(** A death with a supervisor is reported or queued. *)
Lemma death_joins y c t b ep p event pc addr : inv y -> running (tabs y) c t -> conts y !! t = None -> tcbs (tabs y) !! t = Some b -> fault_ep b = Some ep ->
  rendezvous_table (tabs y) !! ep = Some p -> Rendezvous.bound (r_state p) = false ->
  exists k', depart (tabs y) c event pc addr = Done k' /\ (sending k' ep t \/ exists r, receiving (tabs y) ep r /\ answered k' r (MkMsg event t pc addr 0)).
Proof.
  intros Hi Hrun Hfree Hb Hfe Hp Hbd. assert (Hni : forall slot, conts y !! t <> Some (InReply slot)) by congruence. destruct (at_core_of _ _ y c t Hi Hrun) as (h & b0 & Hac & _).
  destruct (depart_ok y c t event pc addr Hi Hrun Hni) as (k' & Hk & _). exists k'. split; [done|]. unfold depart in Hk. rewrite (ac_current _ _ _ _ _ Hac) in Hk. cbn [mbind run_bind] in Hk. rewrite Hb in Hk. cbn [mbind option_bind] in Hk.
  destruct (strand_callers_ok y c t Hi (ac_core _ _ _ _ _ Hac) Hni) as (k1 & Hk1 & Hi1 & Hs1 & _). rewrite Hk1, Hfe in Hk. cbn [mbind run_bind] in Hk. pose proof (ao_rendezvous _ _ (st_aborts _ _ Hs1)) as Hr1.
  pose proof (running_stranded y k1 c t Hs1 Hrun) as Hrun1. destruct (at_core_of _ _ (MkSys k1 (conts y)) c t Hi1 Hrun1) as (h1 & b1 & Hac1 & _). cbn [tabs conts] in Hac1.
  set (k2 := on_handshake _ t _) in Hk. assert (Hr2 : rendezvous_table k2 !! ep = Some p) by (cbn; by rewrite Hr1). unfold deliver_death in Hk.
  assert (Hb2 : is_Some (tcbs k2 !! t)) by (cbn; rewrite lookup_alter_eq, (ac_tcb _ _ _ _ _ Hac1); eauto). destruct Hb2 as [b2 Hb2]. rewrite Hb2, Hr2 in Hk.
  destruct (ep_send_cases (r_state p) t) as [[? _]|[(r & l & Hrl & Hs)|[Hrl Hs]]]; [congruence| |]; rewrite Hs in Hk.
  - right. destruct (head_receiver (MkSys k1 (conts y)) ep p r l Hi1) as (Hrcv & hr & br & Hhr & Hbr & Hpr & Hok); [by cbn [tabs]; rewrite Hr1|done|]. cbn [tabs] in *.
    assert (Hne : t <> r) by (intros ->; rewrite (ac_hs _ _ _ _ _ Hac1) in Hhr; injection Hhr as <-; destruct (place_blocked h1) as [Hblk _]; [eauto|]; pose proof (ac_running _ _ _ _ _ Hac1); congruence).
    exists r. split; [destruct Hrcv as (q & Hq & Hin); exists q; by rewrite <- Hr1|].
    assert (Hm2 : hs k2 = <[t := Handshake.set_state h1 Handshake.Dead]> (hs k1)) by (unfold k2, on_handshake; cbn [machine set_machine if_thread set_tcbs]; by rewrite (deliver_threads _ t _ h1 (ac_hs _ _ _ _ _ Hac1))).
    pose proof (sys_ended (MkSys k1 (conts y)) c t h1 b1 Handshake.Dead (fun b => b) Hi1 Hac1 (or_intror eq_refl) Hni eq_refl eq_refl eq_refl) as Hi2.
    eapply (hand_over_answers _ c r ep hr br) in Hk as (Hans & _); [exact Hans|exact (inv_machine _ _ _ Hi2)| | | |done].
    + unfold k2, on_handshake. cbn [machine set_machine if_thread set_tcbs put_endpoint set_rendezvous]. rewrite (deliver_threads _ t _ h1 (ac_hs _ _ _ _ _ Hac1)). apply Hac1.
    + change (hs k2 !! r = Some hr). by rewrite Hm2, lookup_insert_ne.
    + cbn. by rewrite lookup_alter_ne.
  - left. injection Hk as <-. unfold sending. cbn. rewrite lookup_insert_eq. eexists. split; [done|]. cbn. set_solver.
Qed.

(** Nothing but a receive of the head and the teardown of a region takes a thread off
    a sender queue. *)
Definition leaves_queue (y y' : Sys) (ep t : Z) : Prop :=
  (exists c r slot m n, running (tabs y) c r /\ invoke (tabs y) c slot m = Done (n, tabs y') /\ took_head (tabs y) r slot m n (tabs y') ep t) \/
  (exists c base end_ r, reap_region_objects (tabs y) c base end_ = Done (r, tabs y')).

Lemma senders_stay y y' ep t : inv y -> kstep y y' -> sending (tabs y) ep t -> sending (tabs y') ep t \/ leaves_queue y y' ep t.
Proof.
  intros Hi Hstep Ht. assert (Hg : forall who, grows who (tabs y) (tabs y') -> sending (tabs y') ep t \/ leaves_queue y y' ep t) by (intros who Hg; left; by eapply grows_sending).
  assert (Hsame : rendezvous_table (tabs y') = rendezvous_table (tabs y) -> sending (tabs y') ep t \/ leaves_queue y y' ep t) by (intros Hr; apply (Hg None), (gr_same _ _ (tabs y)); [apply gr_refl|done]).
  assert (Hcur : forall c r, running (tabs y) c r -> current_thread_id (tabs y) c = Done r) by (intros c r Hr; destruct (at_core_of _ _ y c r Hi Hr) as (h & b & Hac & _); apply Hac).
  destruct Hstep as [Hs|[cap Hs]]; destruct Hs; cbn [tabs] in *; try (by apply Hsame).
  - destruct (invoke_moves _ _ _ _ _ _ _ (Hcur _ _ H) H1) as [?|(ep' & s & Hh)]; [by eapply Hg|]. pose proof Hh as (_ & Htk & _).
    destruct (takes_sending _ _ _ _ ep t Htk Ht) as [?|[-> ->]]; [by left|]. right. left. by exists c, t0, slot, m, n.
  - apply (Hg None). by eapply gr_resume.
  - apply Hsame. unfold delete_cap. destruct (tcbs (tabs y) !! t0); done.
  - eapply Hg, gr_depart; [by apply Hcur|done].
  - unfold finish_killed_current in H3. eapply (Hg None), gr_strand_of; [|exact H3]. by apply (gr_same _ _ (tabs y)); [apply gr_refl|].
  - unfold finish_switch in H. apply Hsame. by repeat open_path H.
  - apply (Hg None). by eapply gr_irq.
  - apply (Hg None). by eapply gr_signal.
  - apply (Hg None). unfold bind_irq. destruct (rendezvous_table (tabs y) !! ep0) eqn:Hp; [|apply gr_refl]. eapply gr_keep; [apply gr_refl|done|done].
  - right. right. by exists c, base, end_, r.
  - left. unfold try_create_rendezvous_from. destruct (_ <=? _)%nat; [done|]. destruct page0; [|done]. destruct Ht as (p & Hp & Hq). exists p. cbn. rewrite lookup_insert_ne by congruence. done.
  - apply Hsame. unfold create_notification_from. destruct (_ <=? _)%nat; [done|]. by destruct page0.
  - apply Hsame. unfold start_thread in H. by repeat open_path H.
  - apply Hsame. unfold spawn_on in H0. by repeat open_path H0.
  - apply (Hg None). by eapply gr_grant.
  - apply Hsame. unfold thread_insert_cap. destruct (tcbs (tabs y) !! t0); [|done]. destruct (handshake_of _ _); [|done]. destruct (negb _); [done|]. cbv zeta. destruct target; [destruct (Capability.insert_at _ _ _ _) as [[] ?]|destruct (Capability.insert _ _ _) as [[] ?]]; done.
Qed.

(** ** What holds of every reachable state *)

(** C4: In every state the kernel can reach, whatever order calls, switches,
    interrupts, deaths and teardowns happened in, the wait queues and the threads agree.
    A thread is on an endpoint's receiver queue exactly when it is blocked receiving
    there, on a notification's queue exactly when it is blocked on that notification;
    every thread blocked sending is on its endpoint's sender queue, and what else is on
    a sender queue is a caller not yet received, which offers the capability for its
    reply, or a dead thread whose last event waits for its supervisor, which that
    endpoint is. No thread is twice in a queue, and none in two. Callers and deaths are
    not forgotten: a CALL on an endpoint that takes messages blocks its thread, which is
    then on the sender queue or has its words in the mailbox of a thread that was
    receiving; a thread that ends under a supervising endpoint that takes messages is on
    that queue or its event is in a receiver's mailbox; and in every step from there a
    thread on a sender queue stays on it unless it is the head and the step is a RECEIVE
    or RECEIVE_CAP through a capability for that endpoint, which returns the first word
    and the badge of its message, or the step is the teardown of a region. *)
Theorem queues_hold_exactly_the_waiters y : reachable y ->
  (forall ep t, receiving (tabs y) ep t <-> place_at (tabs y) t = AtReceivers ep) /\
  (forall id t, noticing (tabs y) id t <-> place_at (tabs y) t = AtWaiters id) /\
  (forall ep t, place_at (tabs y) t = AtSenders ep -> sending (tabs y) ep t) /\
  (forall ep t b, sending (tabs y) ep t -> tcbs (tabs y) !! t = Some b ->
     place_at (tabs y) t = AtSenders ep \/ (place_at (tabs y) t = AtReply ep /\ outgoing_cap b = Some (reply_cap t)) \/ (place_at (tabs y) t = AsCorpse ep /\ fault_ep b = Some ep)) /\
  (forall ep p, rendezvous_table (tabs y) !! ep = Some p -> NoDup (Rendezvous.snd_q (r_state p) ++ Rendezvous.rcv_q (r_state p))) /\
  (forall id p, notification_table (tabs y) !! id = Some p -> NoDup (Notification.queue (n_state p))) /\
  (forall c t ep p, running (tabs y) c t -> conts y !! t = None -> rendezvous_table (tabs y) !! ep = Some p -> Rendezvous.bound (r_state p) = false ->
     (forall a0 a1 badge, exists k', ipc_call_badged (tabs y) c ep a0 a1 badge = Done (true, k') /\ place_at k' t = AtReply ep /\
        (sending k' ep t \/ exists r slot, receiving (tabs y) ep r /\ answered k' r (MkMsg a0 slot a1 badge (reply_tag slot)))) /\
     (forall b event pc addr, tcbs (tabs y) !! t = Some b -> fault_ep b = Some ep ->
        exists k', depart (tabs y) c event pc addr = Done k' /\ (sending k' ep t \/ exists r, receiving (tabs y) ep r /\ answered k' r (MkMsg event t pc addr 0)))) /\
  (forall y' ep t, kstep y y' -> sending (tabs y) ep t -> sending (tabs y') ep t \/ leaves_queue y y' ep t).
Proof.
  intros Hr%reachable_holds. pose proof (inv_queues _ _ _ Hr) as Hq. assert (Hnil : forall t : Z, t ∉ []) by (intros t; apply not_elem_of_nil). split_and!.
  - intros ep t. split; [by intros [? _]%(q_receivers _ _ _ Hq)|]. intros Hp. by apply (q_receivers _ _ _ Hq).
  - intros id t. split; [by intros [? _]%(q_waiters _ _ _ Hq)|]. intros Hp. by apply (q_waiters _ _ _ Hq).
  - intros ep t Hp. by apply (q_sender _ _ _ Hq).
  - intros ep t b Hs Hb. destruct (q_senders _ _ _ Hq ep t Hs) as [[Hp|[Hp|Hp]] _]; [by left|right; left|right; right]; (split; [done|]); [by eapply (q_caller _ _ _ Hq)|by eapply (q_corpse _ _ _ Hq)].
  - intros ep p Hp. destruct (q_distinct _ _ _ Hq ep p Hp) as [H1 H2]. apply NoDup_app. repeat split; try done. intros t Hs Hrc.
    assert (Hs' : sending (tabs y) ep t) by (by exists p). assert (Hr' : receiving (tabs y) ep t) by (by exists p). apply (q_receivers _ _ _ Hq) in Hr' as [Hr' _].
    apply (q_senders _ _ _ Hq) in Hs' as [[?|[?|?]] _]; congruence.
  - intros id p. apply (q_distinct_notes _ _ _ Hq).
  - intros c t ep p Hrun Hfree Hp Hb. split; [intros a0 a1 badge; by eapply call_joins|]. intros b event pc addr Htb Hfe. by eapply death_joins.
  - intros y' ep t. by apply senders_stay.
Qed.

Lemma plays_reachable l y : plays (boot 0 1 28672 32768) l = Some y -> reachable y.
Proof. intros Hl. exists 0, 1, 28672, 32768. split; [done|by apply plays_steps in Hl]. Qed.

(** A CALL that nobody receives yet, made by thread 0 on an endpoint that takes messages. *)
Lemma queues_hold_exactly_the_waiters_witness : exists k', ipc_call_badged (tabs (demo two_cores)) 0 100 11 12 7 = Done (true, k') /\
  (sending k' 100 0 \/ exists r slot, receiving (tabs (demo two_cores)) 100 r /\ answered k' r (MkMsg 11 slot 12 7 (reply_tag slot))).
Proof.
  assert (Hr : reachable (demo two_cores)) by (apply (plays_reachable two_cores); vm_compute; reflexivity).
  assert (Hrun : running (tabs (demo two_cores)) 0 0) by (by apply working_runs; vm_compute). assert (Hf : conts (demo two_cores) !! 0 = None) by (by vm_compute).
  assert (Hp : rendezvous_table (tabs (demo two_cores)) !! 100 = Some (MkRendezvousPage 4096 Rendezvous.spec_new)) by (by vm_compute).
  revert Hr Hrun Hf Hp. generalize (demo two_cores) as y. intros y Hr Hrun Hf Hp. destruct (queues_hold_exactly_the_waiters y Hr) as (_ & _ & _ & _ & _ & _ & Hjoin & _).
  destruct (Hjoin 0%nat 0 100 _ Hrun Hf Hp eq_refl) as [Hcall _]. destruct (Hcall 11 12 7) as (k' & Hk & _ & Hq). by exists k'.
Defined.

(** C10: No IPC path of the kernel panics, in any reachable state. Whatever a running
    thread invokes, whatever slot and method it names, the rest of the call once the
    thread runs again, its exit or its fault, and the end of a thread that was killed,
    each completes; and so does, on any core at all, idle, switching or busy, an
    interrupt or a signal for any endpoint or notification, the teardown of any region,
    the end of a switch and the draining of the core's inbox, and on any core that is not
    in the middle of a switch, the next switch and the answer to a steal. In particular
    no thread that sits in a queue, in a hand-off slot or behind a reply capability is
    missing from the thread table. *)
Theorem no_ipc_call_panics y : reachable y ->
  (forall c t, running (tabs y) c t ->
     (conts y !! t = None -> forall slot m, invoke (tabs y) c slot m <> Panicked) /\
     (forall co, conts y !! t = Some co -> resume (tabs y) c co <> Panicked) /\
     (conts y !! t = None -> forall event pc addr, depart (tabs y) c event pc addr <> Panicked) /\
     ((forall slot, conts y !! t <> Some (InReply slot)) -> finish_killed_current (tabs y) c t <> Panicked)) /\
  (forall c, is_Some (Scheduler.cpus (machine (tabs y)) !! c) ->
     (forall ep, irq_notify (tabs y) c ep <> Panicked) /\
     (forall id bits pl, signal_locked (tabs y) c id bits pl <> Panicked) /\
     (forall base end_, reap_region_objects (tabs y) c base end_ <> Panicked) /\
     finish_switch (tabs y) c <> Panicked /\
     Scheduler.drain_inbox (machine (tabs y)) c <> Panicked) /\
  (forall c, Scheduler.settled (machine (tabs y)) c ->
     Scheduler.schedule (machine (tabs y)) c <> Panicked /\ Scheduler.serve_steal_request (machine (tabs y)) c <> Panicked).
Proof.
  intros Hr%reachable_holds. split_and!.
  - intros c t Hrun. split_and!.
    + intros Hf slot m. by destruct (invoke_ok y c t slot m Hr Hrun Hf) as (n & k' & -> & _).
    + intros co Hco. by destruct (resume_ok y c t co Hr Hrun Hco) as (n & k' & -> & _).
    + intros Hf event pc addr. destruct (depart_ok y c t event pc addr Hr Hrun) as (k' & -> & _); [congruence|done].
    + intros Hni. by destruct (killed_ok y c t Hr Hrun Hni) as (k' & -> & _).
  - intros c Hc. split_and!.
    + intros ep. by destruct (irq_notify_ok y c ep Hr Hc) as (k' & -> & _).
    + intros id bits pl. by destruct (signal_ok y c id bits pl Hr Hc) as (r & k' & -> & _).
    + intros base end_. by destruct (reap_region_ok y c base end_ Hr Hc) as (r & k' & -> & _).
    + destruct Hc as [p Hp]. unfold finish_switch. by destruct (Scheduler.finish_switch_inv _ c p (inv_machine _ _ _ Hr) Hp) as (m1 & -> & _).
    + destruct Hc as [p Hp]. unfold Scheduler.drain_inbox. by rewrite Hp.
  - intros c Hs. split; [by destruct (Scheduler.schedule_inv _ c (inv_machine _ _ _ Hr) Hs) as (m1 & -> & _)|by destruct (Scheduler.serve_steal_inv _ c (inv_machine _ _ _ Hr) Hs) as (m1 & -> & _)].
Qed.

(** An interrupt on core 1, which is idle: nothing has been switched in there yet. *)
Lemma no_ipc_call_panics_witness : working (tabs (demo (take 3 two_cores))) 1 = None /\ irq_notify (tabs (demo (take 3 two_cores))) 1 100 <> Panicked.
Proof.
  split; [by vm_compute|]. assert (Hr : reachable (demo (take 3 two_cores))) by (apply (plays_reachable (take 3 two_cores)); vm_compute; reflexivity).
  assert (Hc : is_Some (Scheduler.cpus (machine (tabs (demo (take 3 two_cores)))) !! 1%nat)) by (vm_compute; eauto).
  revert Hr Hc. generalize (demo (take 3 two_cores)) as y. intros y Hr Hc. destruct (no_ipc_call_panics y Hr) as (_ & Hcore & _). by apply (Hcore 1%nat Hc).
Defined.

(** C5: A reply capability answers exactly one open call. In every reachable state, when
    a thread holds one, the caller it names is blocked waiting for the reply on an
    endpoint that still exists, and no other slot of any table names the same caller.
    When the holder invokes it, the two words are in the caller's mailbox, the caller
    runs again, and no table holds a capability that could answer it a second time. *)
Theorem reply_capability_answers_one_open_call y c s i t a0 a1 : reachable y -> running (tabs y) c s -> conts y !! s = None -> holds y s i t ->
  (exists ep, place_at (tabs y) t = AtReply ep /\ is_Some (rendezvous_table (tabs y) !! ep)) /\
  (forall s' i', holds y s' i' t -> s' = s /\ i' = i) /\
  exists k', invoke (tabs y) c (Z.of_nat i) (REPLY a0 a1) = Done (Continue (InReply (Z.of_nat i)), k') /\ answered k' t (MkMsg a0 a1 0 0 0) /\
    forall s' i', ~ holds (MkSys k' (<[s := InReply (Z.of_nat i)]> (conts y))) s' i' t.
Proof.
  intros Hr%reachable_holds Hrun Hfree Hh. repeat split.
  - destruct (inv_holds _ _ _ Hr s i t Hh) as [[ep He] _]. exists ep. split; [done|]. by destruct (q_reply _ _ _ (inv_queues _ _ _ Hr) ep t He).
  - by destruct (inv_one _ _ _ Hr s' i' s i t).
  - by destruct (inv_one _ _ _ Hr s' i' s i t).
  - by apply reply_delivers.
Qed.

Lemma demo_holds : holds (demo open_call) 3 1 0.
Proof. eexists _, _. split; [vm_compute; reflexivity|]. split; [vm_compute; reflexivity|]. split; [reflexivity|]. intros slot. vm_compute. done. Qed.

Lemma reply_capability_answers_one_open_call_witness : exists k', invoke (tabs (demo open_call)) 1 1 (REPLY 5 6) = Done (Continue (InReply 1), k') /\ answered k' 0 (MkMsg 5 6 0 0 0).
Proof.
  assert (Hr : reachable (demo open_call)) by (apply (plays_reachable open_call); vm_compute; reflexivity).
  assert (Hrun : running (tabs (demo open_call)) 1 3) by (by apply working_runs; vm_compute). assert (Hf : conts (demo open_call) !! 3 = None) by (by vm_compute).
  pose proof demo_holds as Hh. revert Hr Hrun Hf Hh. generalize (demo open_call) as y. intros y Hr Hrun Hf Hh.
  destruct (reply_capability_answers_one_open_call y 1 3 1 0 5 6 Hr Hrun Hf Hh) as (_ & _ & k' & Hk & Ha & _). by exists k'.
Defined.

Lemma freed_unplaced k t : freed k t -> place_at k t = Nowhere \/ exists ep, place_at k t = AsCorpse ep.
Proof.
  intros (h & Hh & Ha & _). unfold place_at. rewrite Hh. unfold place, Handshake.is_delivered. rewrite Ha, orb_true_r.
  destruct (Handshake.state h), (Handshake.wait_on h) as [[]|]; eauto.
Qed.

Lemma freed_unheld y t : inv y -> freed (tabs y) t -> forall s i, ~ holds y s i t.
Proof. intros Hi Hf s i Hh. destruct (inv_holds _ _ _ Hi s i t Hh) as [[ep He] _]. destruct (freed_unplaced _ _ Hf) as [?|[? ?]]; congruence. Qed.

(** C8: When a server leaves, by exiting, by faulting or by being killed, the kernel's
    path completes and every caller whose reply capability the server held is let go in
    the same critical section: its call is marked aborted, it is made runnable, and no
    capability that names it is left in any table. A server's death strands no client. *)
Theorem departing_server_frees_its_callers y c t : reachable y -> running (tabs y) c t -> (forall slot, conts y !! t <> Some (InReply slot)) ->
  (forall event pc addr, exists k', depart (tabs y) c event pc addr = Done k' /\
     (exists h', hs k' !! t = Some h' /\ (Handshake.state h' = Handshake.Finished \/ Handshake.state h' = Handshake.Dead)) /\
     forall i v, holds y t i v -> freed k' v /\ forall s j, ~ holds (MkSys k' (conts y)) s j v) /\
  (exists k', finish_killed_current (tabs y) c t = Done k' /\ forall i v, holds y t i v -> freed k' v /\ forall s j, ~ holds (MkSys k' (conts y)) s j v).
Proof.
  intros Hr%reachable_holds Hrun Hni. split.
  - intros event pc addr. destruct (depart_ok y c t event pc addr Hr Hrun Hni) as (k' & Hk & Hi' & Hf & He). exists k'. repeat split; try done; [by eapply Hf|].
    apply (freed_unheld (MkSys k' (conts y))); [done|by eapply Hf].
  - destruct (killed_ok y c t Hr Hrun Hni) as (k' & Hk & Hi' & Hf). exists k'. repeat split; try done; [by eapply Hf|]. apply (freed_unheld (MkSys k' (conts y))); [done|by eapply Hf].
Qed.

Lemma departing_server_frees_its_callers_witness : exists k', depart (tabs (demo open_call)) 1 EVENT_FAULT 4096 0 = Done k' /\ freed k' 0.
Proof.
  assert (Hr : reachable (demo open_call)) by (apply (plays_reachable open_call); vm_compute; reflexivity).
  assert (Hrun : running (tabs (demo open_call)) 1 3) by (by apply working_runs; vm_compute). assert (Hf : forall slot, conts (demo open_call) !! 3 <> Some (InReply slot)) by (intros slot; by vm_compute).
  pose proof demo_holds as Hh. revert Hr Hrun Hf Hh. generalize (demo open_call) as y. intros y Hr Hrun Hf Hh.
  destruct (departing_server_frees_its_callers y 1 3 Hr Hrun Hf) as [Hd _]. destruct (Hd EVENT_FAULT 4096 0) as (k' & Hk & _ & Hv). exists k'. split; [done|]. by apply (Hv 1%nat).
Defined.

(** C9: Tearing a region down always completes, and leaves no endpoint and no
    notification whose page is in the region. Every thread that was receiving, sending
    or waiting for a reply at one of its endpoints, or waiting at one of its
    notifications, is freed with its call aborted, wherever the thread itself lives, and
    when the teardown reports success no thread of the region is left. *)
Theorem reaped_region_leaves_no_waiter y c t base end_ : reachable y -> running (tabs y) c t ->
  exists r k', reap_region_objects (tabs y) c base end_ = Done (r, k') /\
    (forall ep p, rendezvous_table k' !! ep = Some p -> in_region base end_ (r_page p) = false) /\
    (forall id p, notification_table k' !! id = Some p -> in_region base end_ (n_page p) = false) /\
    (forall u ep p, rendezvous_table (tabs y) !! ep = Some p -> in_region base end_ (r_page p) = true -> waits_at (tabs y) ep u -> freed k' u) /\
    (forall u id p, notification_table (tabs y) !! id = Some p -> in_region base end_ (n_page p) = true -> place_at (tabs y) u = AtWaiters id -> freed k' u) /\
    (r = Ok tt -> forall u b, tcbs k' !! u = Some b -> in_region base end_ (page b) = false).
Proof.
  intros Hr%reachable_holds Hrun. destruct (at_core_of _ _ y c t Hr Hrun) as (h & b & Hac & _).
  destruct (reap_region_ok y c base end_ Hr (ac_core _ _ _ _ _ Hac)) as (r & k' & Hk & _ & [Hg1 Hg2] & Hd & Hok). exists r, k'. repeat split; try done.
  - intros u ep p Hp Hin Hw. apply Hd. left. eauto.
  - intros u id p Hp Hin Hw. apply Hd. right. eauto.
Qed.

Lemma reaped_region_leaves_no_waiter_witness : exists r k', reap_region_objects (tabs (demo open_call)) 1 4096 8192 = Done (r, k') /\ freed k' 0.
Proof.
  assert (Hr : reachable (demo open_call)) by (apply (plays_reachable open_call); vm_compute; reflexivity).
  assert (Hrun : running (tabs (demo open_call)) 1 3) by (by apply working_runs; vm_compute).
  assert (Hp : exists p, rendezvous_table (tabs (demo open_call)) !! 100 = Some p /\ in_region 4096 8192 (r_page p) = true) by (eexists; split; [vm_compute; reflexivity|by vm_compute]).
  assert (Hw : waits_at (tabs (demo open_call)) 100 0) by (right; right; by vm_compute).
  revert Hr Hrun Hp Hw. generalize (demo open_call) as y. intros y Hr Hrun (p & Hp & Hin) Hw.
  destruct (reaped_region_leaves_no_waiter y 1 3 4096 8192 Hr Hrun) as (r & k' & Hk & _ & _ & Hf & _). exists r, k'. split; [done|]. by apply (Hf 0 100 p).
Defined.

(** C19: A message crosses an idle endpoint whichever side comes first. With the sender
    first, the send blocks and the receive returns the three words and the badge of the
    sender's capability; with the receiver first, the receive blocks, the send completes
    without blocking, and the same four words are in the receiver's mailbox with the
    receiver made runnable, to be returned when it resumes. *)
Theorem message_crosses_in_either_order y c1 c2 t r ep p a0 a1 a2 badge : reachable y -> running (tabs y) c1 t -> running (tabs y) c2 r -> t <> r ->
  conts y !! t = None -> conts y !! r = None -> rendezvous_table (tabs y) !! ep = Some p ->
  Rendezvous.snd_q (r_state p) = [] -> Rendezvous.rcv_q (r_state p) = [] -> Rendezvous.pend (r_state p) = 0 -> Rendezvous.bound (r_state p) = false -> take_bound_signal (tabs y) r = None ->
  (exists k1 k2, ipc_send_badged (tabs y) c1 ep a0 a1 a2 badge = Done (true, k1) /\ ipc_receive k1 c2 ep = Done (Some (MkMsg a0 a1 a2 badge 0), k2)) /\
  (exists k1 k2, ipc_receive (tabs y) c2 ep = Done (None, k1) /\ ipc_send_badged k1 c1 ep a0 a1 a2 badge = Done (false, k2) /\ answered k2 r (MkMsg a0 a1 a2 badge 0)).
Proof. intros Hr%reachable_holds. intros. split; [by eapply (sender_first y c1 c2 t r)|by eapply (receiver_first y c1 c2 t r)]. Qed.

Lemma message_crosses_in_either_order_witness : exists k1 k2, ipc_send_badged (tabs (demo two_cores)) 0 100 1 2 3 7 = Done (true, k1) /\ ipc_receive k1 1 100 = Done (Some (MkMsg 1 2 3 7 0), k2).
Proof.
  assert (Hr : reachable (demo two_cores)) by (apply (plays_reachable two_cores); vm_compute; reflexivity).
  assert (H0 : running (tabs (demo two_cores)) 0 0) by (by apply working_runs; vm_compute). assert (H1 : running (tabs (demo two_cores)) 1 3) by (by apply working_runs; vm_compute).
  assert (Hc : conts (demo two_cores) !! 0 = None /\ conts (demo two_cores) !! 3 = None) by (by vm_compute).
  assert (Hp : rendezvous_table (tabs (demo two_cores)) !! 100 = Some (MkRendezvousPage 4096 Rendezvous.spec_new)) by (vm_compute; reflexivity).
  assert (Hs : take_bound_signal (tabs (demo two_cores)) 3 = None) by (by vm_compute).
  revert Hr H0 H1 Hc Hp Hs. generalize (demo two_cores) as y. intros y Hr H0 H1 [Hc0 Hc3] Hp Hs.
  by apply (message_crosses_in_either_order y 0 1 0 3 100 (MkRendezvousPage 4096 Rendezvous.spec_new) 1 2 3 7).
Defined.
End IpcSystem.
