(* ===== verification/IpcAuthority.v ===== *)
(** * Authority and bounds of the kernel's IPC

    What every IPC path may do to the capabilities threads hold, and to the sizes
    and counters of the object tables, followed through whole executions. *)

From S2P Require Import Prelude Capability IntrusiveFifo Rendezvous Notification Handshake Scheduler Revocation MappingCalls KernelIpc IpcInvariant IpcQueues IpcTeardown IpcReap IpcSystem.
Local Open Scope Z_scope.

Module IpcAuthority.
Import Revocation KernelIpc IpcInvariant IpcQueues IpcTeardown IpcReap IpcSystem.

(** ** What a path may do to the tables *)

(** A thread carries a capability in its table or in its hand-off slot. *)
Definition carries (b : Tcb) (cap : Cap) : Prop := (exists i, slots_of b !! i = Some (Some cap)) \/ outgoing_cap b = Some cap.
Definition held (k : IpcTables) (cap : Cap) : Prop := exists t b, tcbs k !! t = Some b /\ carries b cap.

(** The pending-signal counter is a [u32]. *)
Definition fits (e : Rendezvous.Endpoint) : Prop := 0 <= Rendezvous.pend e < 2 ^ 32.

(** The capabilities are those held before, reply capabilities and those of [X];
    no object appears, and no counter leaves its width. *)
Record evolves (X : Cap -> Prop) (k k' : IpcTables) : Prop := {
  ev_held : forall cap, held k' cap -> held k cap \/ is_reply_cap cap = true \/ X cap;
  ev_endpoints : forall ep p', rendezvous_table k' !! ep = Some p' -> exists p, rendezvous_table k !! ep = Some p /\ (fits (r_state p) -> fits (r_state p'));
  ev_notifications : forall id, is_Some (notification_table k' !! id) -> is_Some (notification_table k !! id) }.

Section evolution.
Context (X : Cap -> Prop) (k0 : IpcTables).

Lemma ev_refl : evolves X k0 k0.
Proof. constructor; [auto|eauto|auto]. Qed.

Lemma ev_trans k1 k2 : evolves X k0 k1 -> evolves X k1 k2 -> evolves X k0 k2.
Proof.
  intros [H1 H2 H3] [G1 G2 G3]. constructor; [|..|auto].
  - intros cap [Hc|Hc]%G1; [by apply H1|by right].
  - intros ep p' (p1 & Hp1 & Hf1)%G2. destruct (H2 ep p1 Hp1) as (p & Hp & Hf). exists p. auto.
Qed.

(** A change of threads alone. *)
Lemma ev_threads k k' : evolves X k0 k -> rendezvous_table k' = rendezvous_table k -> notification_table k' = notification_table k ->
  (forall t b' cap, tcbs k' !! t = Some b' -> carries b' cap -> held k cap \/ is_reply_cap cap = true \/ X cap) -> evolves X k0 k'.
Proof.
  intros He Hr Hn Ht. apply (ev_trans k); [done|]. constructor; [|rewrite Hr; eauto|by rewrite Hn]. intros cap (t & b' & Hb' & Hc). by eapply Ht.
Qed.

Lemma ev_same k k' : evolves X k0 k -> tcbs k' = tcbs k -> rendezvous_table k' = rendezvous_table k -> notification_table k' = notification_table k -> evolves X k0 k'.
Proof. intros He Ht Hr Hn. apply (ev_threads k); try done. rewrite Ht. intros t b' cap Hb' Hc. left. by exists t, b'. Qed.

Lemma ev_machine k m : evolves X k0 k -> evolves X k0 (set_machine k m).
Proof. intros He. by apply (ev_same k). Qed.

Lemma ev_insert k t b f : evolves X k0 k -> tcbs k !! t = Some b -> (forall cap, carries (f b) cap -> carries b cap \/ is_reply_cap cap = true \/ X cap) ->
  evolves X k0 (set_tcbs k (<[t := f b]> (tcbs k))).
Proof.
  intros He Hb Hf. apply (ev_threads k); try done. cbn [tcbs set_tcbs]. intros u b' cap. destruct (decide (t = u)) as [<-|Hne].
  - rewrite lookup_insert_eq. intros [= <-] [Hc|Hc]%Hf; [left; by exists t, b|by right].
  - rewrite lookup_insert_ne by done. intros Hu Hc. left. by exists u, b'.
Qed.

Definition tame (f : Tcb -> Tcb) : Prop := forall b cap, carries (f b) cap -> carries b cap \/ is_reply_cap cap = true \/ X cap.

Lemma ev_with k t f k' : evolves X k0 k -> tame f -> with_thread k t f = Done k' -> evolves X k0 k'.
Proof. intros He Hf. unfold with_thread. destruct (tcbs k !! t) as [b|] eqn:Hb; [|done]. intros [= <-]. apply ev_insert; auto. Qed.

Lemma ev_if k t f : evolves X k0 k -> tame f -> evolves X k0 (if_thread k t f).
Proof.
  intros He Hf. unfold if_thread. destruct (tcbs k !! t) as [b|] eqn:Hb; [rewrite (alter_is_insert _ t _ b Hb); apply ev_insert; auto|].
  apply (ev_same k); try done. cbn. by rewrite alter_id by congruence.
Qed.

(** One endpoint or notification is rewritten. *)
Lemma ev_put k ep p e : evolves X k0 k -> rendezvous_table k !! ep = Some p -> (fits (r_state p) -> fits e) -> evolves X k0 (put_endpoint k ep p e).
Proof.
  intros He Hp Hf. apply (ev_trans k); [done|]. constructor; cbn; [auto| |auto]. intros ep' p'. destruct (decide (ep = ep')) as [<-|Hne].
  - rewrite lookup_insert_eq. intros [= <-]. exists p. auto.
  - rewrite lookup_insert_ne by done. eauto.
Qed.

Lemma ev_cell k id p p' : evolves X k0 k -> notification_table k !! id = Some p -> evolves X k0 (set_notifications k (<[id := p']> (notification_table k))).
Proof.
  intros He Hp. apply (ev_trans k); [done|]. constructor; cbn; [auto|eauto|]. intros id'. rewrite lookup_insert_is_Some. intros [<-|[_ ?]]; eauto.
Qed.
End evolution.

Lemma ep_fits c e : fits e -> fits (Rendezvous.spec_call c e).2.
Proof.
  unfold fits, Rendezvous.spec_call, saturating_add. intros He. destruct c; cbn.
  - by destruct (Rendezvous.bound e), (Rendezvous.rcv_q e).
  - destruct (Z.ltb_spec 0 (Rendezvous.pend e)); [cbn; lia|by destruct (Rendezvous.snd_q e)].
  - destruct (Rendezvous.rcv_q e); cbn; lia.
  - done.
  - done.
  - done.
  - done.
Qed.

(** ** The paths *)

Lemma send_fits e me s e' : ep_send e me = (s, e') -> fits e -> fits e'.
Proof. unfold ep_send. pose proof (ep_fits (Rendezvous.CSend me) e) as Hf. destruct (Rendezvous.spec_call _ e) as [r e1]. by destruct r; intros [= _ <-]. Qed.

Lemma receive_fits e me s e' : ep_receive e me = (s, e') -> fits e -> fits e'.
Proof. unfold ep_receive. pose proof (ep_fits (Rendezvous.CReceive me) e) as Hf. destruct (Rendezvous.spec_call _ e) as [r e1]. by destruct r; intros [= _ <-]. Qed.

Lemma signal_fits e s e' : ep_signal e = (s, e') -> fits e -> fits e'.
Proof. unfold ep_signal. pose proof (ep_fits Rendezvous.CSignal e) as Hf. destruct (Rendezvous.spec_call _ e) as [r e1]. by destruct r; intros [= _ <-]. Qed.

Lemma drain_fits e s e' : ep_drain e = (s, e') -> fits e -> fits e'.
Proof. unfold ep_drain. pose proof (ep_fits Rendezvous.CDrain e) as Hf. destruct (Rendezvous.spec_call _ e) as [r e1]. by destruct r; intros [= _ <-]. Qed.

Lemma remove_sender_fits e t : fits e -> fits (ep_remove_sender e t).
Proof. apply (ep_fits (Rendezvous.CRemoveSender t)). Qed.

Lemma remove_receiver_fits e t : fits e -> fits (ep_remove_receiver e t).
Proof. apply (ep_fits (Rendezvous.CRemoveReceiver t)). Qed.

(** A write that leaves the table and the hand-off slot alone, or empties the slot. *)
Lemma tame_carries X f : (forall b, slots_of (f b) = slots_of b /\ (outgoing_cap (f b) = outgoing_cap b \/ outgoing_cap (f b) = None)) -> tame X f.
Proof. intros Hf b cap [[i Hc]|Hc]; destruct (Hf b) as [Hs Ho]; [rewrite Hs in Hc; left; left; eauto|]. destruct Ho as [Ho|Ho]; rewrite Ho in Hc; [left; by right|done]. Qed.

Lemma tame_offer X cap f : is_reply_cap cap = true \/ X cap -> tame X f -> tame X (fun b => set_outgoing (Some cap) (f b)).
Proof. intros Hcap Hf b x [[i Hx]|Hx]; [apply Hf; left; eauto|]. injection Hx as <-. by right. Qed.

Create HintDb fits discriminated.
#[local] Hint Resolve send_fits receive_fits signal_fits drain_fits remove_sender_fits remove_receiver_fits : fits.

(** Peels the last write off the tables. *)
Ltac peel := lazymatch goal with
  | |- evolves _ _ (put_endpoint _ _ _ _) => eapply ev_put; [|try eassumption|eauto 2 with fits]
  | |- evolves _ _ (set_machine _ _) => apply ev_machine
  | |- evolves _ _ (on_handshake _ _ _) => apply ev_machine
  | |- evolves _ _ (put_cell _ _ _ _) => eapply ev_cell; [|try eassumption]
  | |- evolves _ _ (set_ipc_refused _ _) => apply ev_if
  | |- evolves _ _ (set_ipc_aborted _ _) => apply ev_if
  | |- evolves _ _ (if_thread _ _ _) => apply ev_if
  | |- tame _ (fun b => set_outgoing (Some _) _) => apply tame_offer
  | |- tame _ _ => apply tame_carries; intros ?; cbn; by auto
  | H : evolves ?X ?k0 ?k |- evolves ?X ?k0 ?k => exact H
  end.

Section paths.
Context (X : Cap -> Prop) (k0 : IpcTables).

Lemma ev_wake k c t k' : evolves X k0 k -> wake k c t = Done k' -> evolves X k0 k'.
Proof. intros He H. unfold wake in H. repeat open_path H. repeat peel. Qed.

Lemma ev_park k c w k' : evolves X k0 k -> park k c w = Done k' -> evolves X k0 k'.
Proof. intros He H. unfold park in H. repeat open_path H. repeat peel. Qed.

Lemma ev_hand_over k c r f k' : evolves X k0 k -> tame X f -> hand_over k c r f = Done k' -> evolves X k0 k'.
Proof. intros He Hf H. unfold hand_over in H. repeat open_path H. eapply ev_wake; [|exact H]. apply ev_machine. by eapply ev_with. Qed.

(** A capability goes into a table. *)
Lemma ev_filed k t b tb pk cap : evolves X k0 k -> tcbs k !! t = Some b -> held k0 cap \/ is_reply_cap cap = true \/ X cap ->
  (forall i x, Capability.slots tb !! i = Some (Some x) -> x = cap \/ slots_of b !! i = Some (Some x)) ->
  evolves X k0 (MkTables (machine k) (<[t := set_table tb b]> (tcbs k)) (rendezvous_table k) (notification_table k) pk).
Proof.
  intros He Hb Hcap Htb. constructor; [|apply (ev_endpoints _ _ _ He)|apply (ev_notifications _ _ _ He)]. cbn [tcbs]. intros x (u & b' & Hb' & Hx). cbn [tcbs] in Hb'.
  assert (held k x \/ x = cap) as [Hh| ->]; [|by apply (ev_held _ _ _ He)|done].
  destruct (decide (t = u)) as [<-|Hne]; [|rewrite lookup_insert_ne in Hb' by done; left; by exists u, b']. rewrite lookup_insert_eq in Hb'. injection Hb' as <-.
  destruct Hx as [[i [->|Hx]%Htb]|Hx]; [by right|left; exists t, b; split; [done|left; eauto]|left; exists t, b; split; [done|by right]].
Qed.

Lemma insert_slots (w : Capability.World Object) cap i x : Capability.slots (Capability.table (Capability.insert CAPABILITY_TABLE_SLOTS w cap).2) !! i = Some (Some x) ->
  x = cap \/ Capability.slots (Capability.table w) !! i = Some (Some x).
Proof.
  unfold Capability.insert. destruct (Capability.first_free _) as [s|]; [|by right]. cbn [snd]. rewrite Capability.fill_slots.
  intros [(_ & [= <-] & _)|[_ Hx]]%list_lookup_insert_Some; [by left|by right].
Qed.

Lemma insert_at_slots (w : Capability.World Object) s cap i x : Capability.slots (Capability.table (Capability.insert_at CAPABILITY_TABLE_SLOTS w s cap).2) !! i = Some (Some x) ->
  x = cap \/ Capability.slots (Capability.table w) !! i = Some (Some x).
Proof.
  unfold Capability.insert_at. destruct (s >=? _); [by right|]. destruct (is_some _); [by right|]. cbn [snd]. rewrite Capability.fill_slots.
  intros [(_ & [= <-] & _)|[_ Hx]]%list_lookup_insert_Some; [by left|by right].
Qed.

Lemma ev_insert_cap k t cap slot k' : evolves X k0 k -> held k0 cap \/ is_reply_cap cap = true \/ X cap -> insert_cap k t cap = Done (slot, k') -> evolves X k0 k'.
Proof.
  intros He Hcap H. unfold insert_cap in H. destruct (tcbs k !! t) as [b|] eqn:Hb; [|done]. pose proof (insert_slots (Capability.MkWorld (capability_table b) (PEAK k)) cap) as Hs.
  destruct (Capability.insert _ _ cap) as [r w]. injection H as _ <-. by apply (ev_filed k t b _ _ cap).
Qed.

End paths.

(** And the last call that completed. *)
Ltac unwind := repeat lazymatch goal with
  | H : wake _ _ _ = Done ?k |- evolves _ _ ?k => eapply ev_wake; [clear H|exact H]
  | H : park _ _ _ = Done ?k |- evolves _ _ ?k => eapply ev_park; [clear H|exact H]
  | H : hand_over _ _ _ _ = Done ?k |- evolves _ _ ?k => eapply ev_hand_over; [clear H|clear H|exact H]
  | H : with_thread _ _ _ = Done ?k |- evolves _ _ ?k => eapply ev_with; [clear H|clear H|exact H]
  | H : insert_cap _ _ _ = Done (_, ?k) |- evolves _ _ ?k => eapply ev_insert_cap; [clear H|clear H|exact H]
  | |- _ => peel
  end.

Section calls.
Context (X : Cap -> Prop) (k0 : IpcTables).

Lemma ev_send k c ep a0 a1 a2 badge r k' : evolves X k0 k -> ipc_send_badged k c ep a0 a1 a2 badge = Done (r, k') -> evolves X k0 k'.
Proof. intros He H. unfold ipc_send_badged in H. cbv zeta in H. repeat open_path H; unwind. Qed.

Lemma ev_send_cap k c ep data cap badge r k' : evolves X k0 k -> X cap -> ipc_send_cap k c ep data cap badge = Done (r, k') -> evolves X k0 k'.
Proof.
  intros He Hx H. unfold ipc_send_cap in H. repeat open_path H; unwind; auto.
Qed.

Lemma ev_call k c ep a0 a1 badge r k' : evolves X k0 k -> ipc_call_badged k c ep a0 a1 badge = Done (r, k') -> evolves X k0 k'.
Proof. intros He H. unfold ipc_call_badged in H. repeat open_path H; unwind; auto. Qed.

Lemma ev_reply k c caller a0 a1 k' : evolves X k0 k -> ipc_reply k c caller a0 a1 = Done k' -> evolves X k0 k'.
Proof. intros He H. unfold ipc_reply in H. repeat open_path H; unwind. Qed.

Lemma ev_take_bound k t w k' : evolves X k0 k -> take_bound_signal k t = Some (w, k') -> evolves X k0 k'.
Proof.
  intros He H. unfold take_bound_signal in H. destruct (tcbs k !! t) as [b|]; [|done]. cbn [mbind option_bind] in H. destruct (bound_notification b) as [id|]; [|done]. cbn [mbind option_bind] in H.
  destruct (notification_table k !! id) as [p|] eqn:Hp; [|done]. cbn [mbind option_bind] in H. destruct (note_poll _) as [word e]. destruct (word =? 0); [done|]. injection H as _ <-. unwind.
Qed.

Lemma ev_release k c s k' : evolves X k0 k -> release_sender k c s = Done k' -> evolves X k0 k'.
Proof. intros He H. unfold release_sender in H. cbv zeta in H. repeat open_path H; unwind. destruct (bool_decide _); unwind. Qed.

Lemma ev_receive k c ep r k' : evolves X k0 k -> ipc_receive k c ep = Done (r, k') -> evolves X k0 k'.
Proof.
  intros He H. unfold ipc_receive in H. repeat open_path H; unwind; try (by eapply ev_take_bound). eapply ev_release; [|eassumption]. unwind.
Qed.

Lemma ev_collect k t cap slot k' : evolves X k0 k -> (forall x, cap = Some x -> held k x \/ held k0 x \/ is_reply_cap x = true \/ X x) -> collect_cap k t cap = Done (slot, k') -> evolves X k0 k'.
Proof.
  intros He Hcap H. unfold collect_cap in H. destruct cap as [x|]; [|by injection H as _ <-]. eapply ev_insert_cap; [exact He| |exact H].
  destruct (Hcap x eq_refl) as [Hx|Hx]; [by apply (ev_held _ _ _ He)|done].
Qed.

Lemma ev_receive_cap k c ep r k' : evolves X k0 k -> ipc_receive_cap k c ep = Done (r, k') -> evolves X k0 k'.
Proof.
  intros He H. unfold ipc_receive_cap in H. cbv zeta in H. repeat open_path H; unwind; try (by eapply ev_take_bound).
  all: match goal with E : (if is_reply ?c then _ else _) = Done _ |- _ => destruct (is_reply c); [injection E as <-|]; unwind end.
  all: eapply ev_collect; [| |eassumption]; [unwind|]; intros x Hx; right; apply (ev_held _ _ _ He); eexists _, _; split; [eassumption|by right].
Qed.

Lemma ev_irq k c ep k' : evolves X k0 k -> irq_notify k c ep = Done k' -> evolves X k0 k'.
Proof. intros He H. unfold irq_notify in H. repeat open_path H; unwind. Qed.

Lemma ev_wake_placed k c t p k' : evolves X k0 k -> wake_placed k c t p = Done k' -> evolves X k0 k'.
Proof. intros He H. unfold wake_placed in H. repeat open_path H; unwind. Qed.

Lemma ev_deliver_bound k t ep word k' : evolves X k0 k -> deliver_bound k t ep word = Done k' -> evolves X k0 k'.
Proof. intros He H. unfold deliver_bound in H. repeat open_path H; unwind. Qed.

Lemma ev_signal k c id bits pl r k' : evolves X k0 k -> signal_locked k c id bits pl = Done (r, k') -> evolves X k0 k'.
Proof.
  intros He H. unfold signal_locked in H. cbv zeta in H. repeat open_path H; unwind.
  - eapply ev_wake_placed; [|eassumption]. unwind.
  - eapply ev_wake_placed; [|eassumption]. eapply ev_deliver_bound; [|eassumption]. unwind.
Qed.

Lemma ev_wait k c id r k' : evolves X k0 k -> notification_wait k c id = Done (r, k') -> evolves X k0 k'.
Proof. intros He H. unfold notification_wait in H. repeat open_path H; unwind. Qed.

Lemma ev_poll k id : evolves X k0 k -> evolves X k0 (notification_poll k id).2.
Proof. intros He. unfold notification_poll. destruct (notification_table k !! id) as [p|] eqn:Hp; [|done]. destruct (note_poll _). cbn [snd]. unwind. Qed.

Lemma ev_bind k c id t r k' : evolves X k0 k -> notification_bind k c id t = Done (r, k') -> evolves X k0 k'.
Proof.
  intros He H. unfold notification_bind in H. cbv zeta in H.
  assert (Hk1 : forall p p', notification_table k !! id = Some p -> evolves X k0 (if_thread (set_notifications k (<[id := p']> (notification_table k))) t (set_bound (Some id)))) by (intros p p' Hp; peel; [by eapply ev_cell|peel]).
  repeat open_path H; try done; eauto. eapply ev_wake; [|eassumption]. eapply ev_deliver_bound; [|eassumption]. peel; [by eapply Hk1|]. cbn. by rewrite lookup_insert_eq.
Qed.

(** *** Strands, deaths and teardown *)

Lemma delete_loop_slots fuel : forall occ matches (w w' : Capability.World Object) i x, Capability.delete_matching_loop fuel occ matches w = Some w' ->
  Capability.slots (Capability.table w') !! i = Some (Some x) -> Capability.slots (Capability.table w) !! i = Some (Some x).
Proof.
  induction fuel as [|fuel IH]; intros occ matches w w' i x Hw Hx; [done|]. cbn [Capability.delete_matching_loop] in Hw. destruct (occ =? 0); [by injection Hw as <-|].
  pose proof (IH _ _ _ _ i x Hw Hx) as Hy. destruct (Capability.slot _ _) as [c|]; [|done]. destruct (matches _); [|done].
  rewrite Capability.empty_slots in Hy. by apply list_lookup_insert_Some in Hy as [(_ & ? & _)|[_ ?]].
Qed.

Lemma ev_sweep k caller k' : evolves X k0 k -> delete_reply_caps_naming k caller = Done k' -> evolves X k0 k'.
Proof.
  intros He H. unfold delete_reply_caps_naming in H. cbv zeta in H. repeat open_path H. apply (ev_threads X k0 k); try done. cbn [tcbs set_tcbs]. intros t b' cap Hb' Hc. left.
  rewrite lookup_omap in Hb'. destruct (tcbs k !! t) as [b|] eqn:Hb; [|done]. cbn [mbind option_bind] in Hb'. unfold sweep_tcb in Hb'.
  destruct (Capability.delete_matching _ _ _) as [w|] eqn:Hw; [|done]. cbn [mbind option_bind] in Hb'. injection Hb' as <-. exists t, b. split; [done|].
  destruct Hc as [[i Hc]|Hc]; [left; exists i; by eapply (delete_loop_slots _ _ _ _ _ i cap) in Hw|right]. cbn in Hc. destruct (outgoing_cap b) as [x|]; [|done]. by destruct (bool_decide _).
Qed.

Lemma ev_strand k c t r k' : evolves X k0 k -> strand_reply_caller k c t = Done (r, k') -> evolves X k0 k'.
Proof. intros He H. unfold strand_reply_caller in H. repeat open_path H; unwind. by eapply ev_sweep. Qed.

Lemma ev_strand_each l : forall k c k', evolves X k0 k -> strand_each k c l = Done k' -> evolves X k0 k'.
Proof.
  induction l as [|t l IH]; intros k c k' He H; cbn [strand_each] in H; repeat open_path H; [done|]. eapply IH; [|exact H]. by eapply ev_strand.
Qed.

Lemma ev_strand_of k c t k' : evolves X k0 k -> strand_callers_of k c t = Done k' -> evolves X k0 k'.
Proof. intros He H. unfold strand_callers_of in H. repeat open_path H; try done. by eapply ev_strand_each. Qed.

Lemma ev_strand_awaiting fuel : forall k c ep k', evolves X k0 k -> strand_awaiting fuel k c ep = Done k' -> evolves X k0 k'.
Proof.
  induction fuel as [|fuel IH]; intros k c ep k' He H; cbn [strand_awaiting] in H; repeat open_path H; try done; [|by eapply ev_strand]. eapply IH; [|exact H]. by eapply ev_strand.
Qed.

Lemma ev_death k c t ep msg k' : evolves X k0 k -> deliver_death k c t ep msg = Done k' -> evolves X k0 k'.
Proof. intros He H. unfold deliver_death in H. repeat open_path H; unwind. Qed.

Lemma ev_depart k c event pc addr k' : evolves X k0 k -> depart k c event pc addr = Done k' -> evolves X k0 k'.
Proof.
  intros He H. unfold depart in H. cbv zeta in H. repeat open_path H; unwind; [|by eapply ev_strand_of]. eapply ev_death; [|exact H]. unwind. by eapply ev_strand_of.
Qed.

Lemma ev_abort_each l : forall k c k', evolves X k0 k -> abort_each k c l = Done k' -> evolves X k0 k'.
Proof. induction l as [|t l IH]; intros k c k' He H; cbn [abort_each] in H; repeat open_path H; [done|]. eapply IH; [|exact H]. unwind. Qed.

Lemma ev_drop_endpoint k ep : evolves X k0 k -> evolves X k0 (set_rendezvous k (delete ep (rendezvous_table k))).
Proof. intros He. apply (ev_trans X k0 k); [done|]. constructor; cbn; [auto| |auto]. intros ep' p' [_ Hp]%lookup_delete_Some. eauto. Qed.

Lemma ev_drop_cell k id : evolves X k0 k -> evolves X k0 (set_notifications k (delete id (notification_table k))).
Proof. intros He. apply (ev_trans X k0 k); [done|]. constructor; cbn; [auto|eauto|]. intros id' [p [_ Hp]%lookup_delete_Some]. eauto. Qed.

Lemma ev_reap_endpoint k c name k' : evolves X k0 k -> reap_rendezvous k c name = Done k' -> evolves X k0 k'.
Proof.
  intros He H. unfold reap_rendezvous in H. repeat open_path H; try done. eapply ev_strand_awaiting; [|exact H]. apply ev_drop_endpoint. eapply ev_abort_each; [|eassumption]. unwind.
Qed.

Lemma ev_reap_endpoints fuel : forall k c base end_ k', evolves X k0 k -> reap_rendezvous_loop fuel k c base end_ = Done k' -> evolves X k0 k'.
Proof. induction fuel as [|fuel IH]; intros k c base end_ k' He H; cbn [reap_rendezvous_loop] in H; repeat open_path H; try done. eapply IH; [|exact H]. by eapply ev_reap_endpoint. Qed.

Lemma ev_reap_cell k c name k' : evolves X k0 k -> reap_notification k c name = Done k' -> evolves X k0 k'.
Proof. intros He H. unfold reap_notification in H. repeat open_path H; try done. apply ev_drop_cell. eapply ev_abort_each; [|eassumption]. unwind. Qed.

Lemma ev_reap_cells fuel : forall k c base end_ k', evolves X k0 k -> reap_region_notifications fuel k c base end_ = Done k' -> evolves X k0 k'.
Proof. induction fuel as [|fuel IH]; intros k c base end_ k' He H; cbn [reap_region_notifications] in H; repeat open_path H; try done. eapply IH; [|exact H]. by eapply ev_reap_cell. Qed.

Lemma ev_finish_blocked k t k' : evolves X k0 k -> KernelIpc.finish_blocked_resident k t = Done k' -> evolves X k0 k'.
Proof.
  intros He H. unfold KernelIpc.finish_blocked_resident in H. cbv zeta in H. open_path H; [|by repeat open_path H]. open_path H. open_path H. repeat open_path H. unwind. eapply ev_sweep; [|eassumption].
  repeat match goal with |- evolves _ _ (match ?x with _ => _ end) => destruct x eqn:? end; unwind.
Qed.

Lemma ev_finish_loop fuel : forall k base end_ k', evolves X k0 k -> finish_blocked_loop fuel k base end_ = Done k' -> evolves X k0 k'.
Proof. induction fuel as [|fuel IH]; intros k base end_ k' He H; cbn [finish_blocked_loop] in H; repeat open_path H; try done. eapply IH; [|exact H]. by eapply ev_finish_blocked. Qed.

Lemma ev_arm k base end_ : evolves X k0 k -> evolves X k0 (arm_residents k base end_).2.
Proof.
  intros He. apply (ev_threads X k0 k); try done. cbn. intros t b' cap Hb' Hc. left. rewrite map_lookup_imap in Hb'. destruct (tcbs k !! t) as [b|] eqn:Hb; [|done]. cbn [mbind option_bind] in Hb'.
  injection Hb' as <-. exists t, b. split; [done|]. by destruct (_ || _).
Qed.

(** Threads go. *)
Lemma ev_fewer k m tc : evolves X k0 k -> tc ⊆ tcbs k -> evolves X k0 (set_tcbs (set_machine k m) tc).
Proof. intros He Htc. apply (ev_threads X k0 k); try done. cbn. intros t b' cap Hb' Hc. left. exists t, b'. split; [|done]. by eapply lookup_weaken. Qed.

Lemma ev_remove k c t b k' : evolves X k0 k -> remove_resident k c t b = Done k' -> evolves X k0 k'.
Proof.
  intros He H. unfold remove_resident in H. cbv zeta in H. open_path H. repeat open_path H. apply ev_fewer; [|apply delete_subseteq]. eapply ev_strand_of; [|eassumption].
  repeat match goal with |- evolves _ _ (match ?x with _ => _ end) => destruct x eqn:? end; unwind.
Qed.

Lemma ev_remove_loop fuel : forall k c base end_ k', evolves X k0 k -> remove_loop fuel k c base end_ = Done k' -> evolves X k0 k'.
Proof. induction fuel as [|fuel IH]; intros k c base end_ k' He H; cbn [remove_loop] in H; repeat open_path H; try done. eapply IH; [|exact H]. by eapply ev_remove. Qed.

Lemma ev_reap_region k c base end_ r k' : evolves X k0 k -> reap_region_objects k c base end_ = Done (r, k') -> evolves X k0 k'.
Proof.
  intros He H. unfold reap_region_objects in H. open_path H. open_path H. open_path H.
  assert (H3 : evolves X k0 (arm_residents a1 base end_).2) by (apply ev_arm; eapply ev_finish_loop; [|eassumption]; eapply ev_reap_cells; [|eassumption]; by eapply ev_reap_endpoints).
  destruct (arm_residents a1 base end_) as [refused k4]. cbn [snd] in H3. repeat open_path H; [done|]. by eapply ev_remove_loop.
Qed.

Lemma ev_delete_cap k t slot : evolves X k0 k -> evolves X k0 (delete_cap k t slot).
Proof.
  intros He. unfold delete_cap. destruct (tcbs k !! t) as [b|] eqn:Hb; [|done]. cbv zeta. apply (ev_insert X k0 k t b (set_table _)); [done|done|].
  intros cap [[i Hc]|Hc]; left; [left; exists i|by right]. cbn [set_table capability_table] in Hc. rewrite Capability.delete_slots in Hc. by apply list_lookup_insert_Some in Hc as [(_ & ? & _)|[_ ?]].
Qed.

Lemma ev_take_aborted k t : evolves X k0 k -> evolves X k0 (take_aborted k t).2.
Proof. intros He. unfold take_aborted. destruct (handshake_of k t) as [h|]; [|done]. destruct (Handshake.take_aborted h). cbn [snd]. unwind. Qed.

Lemma ev_send_error k t : evolves X k0 k -> evolves X k0 (aborted_send_error k t).2.
Proof. intros He. unfold aborted_send_error. destruct (tcbs k !! t); [|done]. cbn [snd]. unwind. Qed.

Lemma ev_resume k c co n k' : evolves X k0 k -> resume k c co = Done (n, k') -> evolves X k0 k'.
Proof.
  intros He H. unfold resume in H. open_path H. pose proof (ev_take_aborted k a He) as Ha. destruct (take_aborted k a) as [ab k1]. cbn [snd] in Ha.
  pose proof (ev_send_error k1 a Ha) as Hb. destruct (aborted_send_error k1 a) as [e k2]. cbn [snd] in Hb. unfold refuse in H. destruct co; repeat open_path H; try done.
  - unfold notification_wait_resume in E0. repeat open_path E0. unwind.
  - by apply ev_delete_cap.
Qed.

Lemma ev_no_thread k m t pg : evolves X k0 k -> evolves X k0 (set_tcbs (set_machine k m) (<[t := fresh_tcb pg]> (tcbs k))).
Proof.
  intros He. apply (ev_threads X k0 k); try done. cbn [tcbs set_tcbs]. intros u b' cap. destruct (decide (t = u)) as [<-|Hne].
  - rewrite lookup_insert_eq. intros [= <-] [[i Hc]|Hc]; [|done]. cbn [fresh_tcb capability_table Capability.new Capability.slots] in Hc. by apply lookup_replicate_1 in Hc as [? _].
  - rewrite lookup_insert_ne by done. intros Hu Hc. left. by exists u, b'.
Qed.

Lemma tame_fault_ep pk : tame X (take_fault_ep pk).
Proof.
  intros b cap Hc. unfold take_fault_ep in Hc. destruct (Capability.get _ _) as [x|]; [|by left]. destruct (Capability.object x); try by left. left. destruct Hc as [[i Hc]|Hc]; [left; exists i|by right].
  cbn [set_fault_ep set_table capability_table] in Hc. rewrite Capability.delete_slots in Hc. by apply list_lookup_insert_Some in Hc as [(_ & ? & _)|[_ ?]].
Qed.

Lemma ev_start k here target t configured stack r k' : evolves X k0 k -> start_thread k here target t configured stack = Done (r, k') -> evolves X k0 k'.
Proof. intros He H. unfold start_thread in H. repeat open_path H; try done; (apply ev_if; [unwind|apply tame_fault_ep]). Qed.

Lemma ev_granted k c target cap r k' : evolves X k0 k -> X cap -> grant k c target cap = Done (r, k') -> evolves X k0 k'.
Proof.
  intros He Hx H. unfold grant in H. open_path H. destruct (tcbs k !! a) as [b|] eqn:Hb; [|by injection H as _ <-]. cbv zeta in H.
  pose proof (insert_slots (Capability.MkWorld (capability_table b) (PEAK k)) cap) as H1.
  assert (H2 : forall slot i x, Capability.slots (Capability.table (Capability.insert_at CAPABILITY_TABLE_SLOTS (Capability.MkWorld (capability_table b) (PEAK k)) slot cap).2) !! i = Some (Some x) -> x = cap \/ slots_of b !! i = Some (Some x))
    by (intros slot i x; apply insert_at_slots).
  destruct target as [slot|]; [specialize (H2 slot); destruct (Capability.insert_at _ _ _ _) as [r0 w]|destruct (Capability.insert _ _ _) as [r0 w]]; injection H as _ <-; apply (ev_filed X k0 k a b _ _ cap); auto.
Qed.

Lemma ev_thread_cap k t cap target : evolves X k0 k -> X cap -> evolves X k0 (thread_insert_cap k t cap target).2.
Proof.
  intros He Hx. unfold thread_insert_cap. destruct (tcbs k !! t) as [b|] eqn:Hb; [|done]. destruct (handshake_of k t); [|done]. destruct (negb _); [done|]. cbv zeta.
  pose proof (insert_slots (Capability.MkWorld (capability_table b) (PEAK k)) cap) as H1.
  assert (H2 : forall slot i x, Capability.slots (Capability.table (Capability.insert_at CAPABILITY_TABLE_SLOTS (Capability.MkWorld (capability_table b) (PEAK k)) slot cap).2) !! i = Some (Some x) -> x = cap \/ slots_of b !! i = Some (Some x))
    by (intros slot i x; apply insert_at_slots).
  destruct target as [slot|]; [specialize (H2 slot); destruct (Capability.insert_at _ _ _ _) as [r0 w]|destruct (Capability.insert _ _ _) as [r0 w]]; destruct r0; try done; apply (ev_filed X k0 k t b _ _ cap); auto.
Qed.
End calls.

(** ** Delegation *)

(** What a thread may make of the capabilities that are held: a copy of one that may
    be granted, with no more rights, or a badge on an unbadged endpoint it may grant. *)
Inductive delegated (k : IpcTables) : Cap -> Prop :=
  | narrowed src r : held k src -> Capability.allows (Capability.rights src) Capability.GRANT = true -> Capability.is_subset_of r (Capability.rights src) = true ->
      delegated k (Capability.MkCap (Capability.object src) r)
  | badged ep r badge : held k (Capability.MkCap (ORendezvous ep 0) r) -> Capability.allows r Capability.GRANT = true -> badge <> 0 ->
      delegated k (Capability.MkCap (ORendezvous ep badge) r).

Lemma current_held k t slot cap : current_cap k t slot = Some cap -> held k cap.
Proof. intros (b & Hb & Hs)%current_cap_slot. exists t, b. split; [done|]. left. eauto. Qed.

Lemma ev_invoke k c slot m n k' : invoke k c slot m = Done (n, k') -> evolves (delegated k) k k'.
Proof.
  intros H. pose proof (ev_refl (delegated k) k) as He. unfold invoke, refuse in H. open_path H. destruct (current_cap k a slot) as [[o rights]|] eqn:Hcap; [|by injection H as _ <-]. apply current_held in Hcap.
  cbn [Capability.object Capability.rights] in H. destruct o; try by injection H as _ <-.
  - unfold invoke_rendezvous, refuse in H. destruct m; try by injection H as _ <-.
    6: { unfold rendezvous_badge, refuse in H. destruct (Capability.allows rights Capability.GRANT) eqn:Hg; [|by injection H as _ <-]. destruct (Z.eqb_spec badge0 0) as [|Hz]; [by injection H as _ <-|].
      destruct (Z.eqb_spec badge 0) as [->|]; [|by injection H as _ <-]. cbn [negb orb] in H. repeat open_path H. eapply ev_granted; [exact He| |eassumption]. by apply badged. }
    all: destruct (negb _); [by injection H as _ <-|].
    + repeat open_path H. by eapply ev_send.
    + repeat open_path H. by eapply ev_receive.
    + destruct (current_cap k a slot0) as [src|] eqn:Hsrc; [|by injection H as _ <-]. destruct (Capability.allows _ _) eqn:Hg; [|by injection H as _ <-]. destruct (Capability.is_subset_of _ _) eqn:Hs; [|by injection H as _ <-].
      cbn [negb] in H. repeat open_path H. eapply ev_send_cap; [exact He| |eassumption]. apply narrowed; [by eapply current_held|done|done].
    + repeat open_path H. by eapply ev_receive_cap.
    + repeat open_path H. by eapply ev_call.
  - unfold invoke_reply, refuse in H. destruct m; try by injection H as _ <-. repeat open_path H; [done|]. by eapply ev_reply.
  - unfold invoke_notification, refuse in H. cbv zeta in H. destruct m; try by injection H as _ <-.
    all: destruct (negb _); [by injection H as _ <-|].
    + repeat open_path H. by eapply ev_signal.
    + repeat open_path H. by eapply ev_wait.
    + pose proof (ev_poll (delegated k) k k id He) as Hp. destruct (notification_poll k id). by injection H as _ <-.
    + repeat open_path H; try done. by eapply ev_bind.
Qed.

(** ** Steps *)

(** The tables are within their limits and the signal counters within their width. *)
Definition within (k : IpcTables) : Prop :=
  (size (rendezvous_table k) <= MAX_RENDEZVOUS)%nat /\ (size (notification_table k) <= MAX_NOTIFICATIONS)%nat /\
  forall ep p, rendezvous_table k !! ep = Some p -> fits (r_state p).

Lemma evolves_within X k k' : evolves X k k' -> within k -> within k'.
Proof.
  intros [_ He Hn] (H1 & H2 & H3). split_and!.
  - etrans; [|exact H1]. rewrite <- !size_dom. apply subseteq_size. intros ep. rewrite !elem_of_dom. intros [p' (p & Hp & _)%He]. eauto.
  - etrans; [|exact H2]. rewrite <- !size_dom. apply subseteq_size. intros id. rewrite !elem_of_dom. apply Hn.
  - intros ep p' (p & Hp & Hf)%He. eauto.
Qed.

Lemma create_endpoint_within k page name : within k -> within (try_create_rendezvous_from k page name).2.
Proof.
  intros (H1 & H2 & H3). unfold try_create_rendezvous_from. destruct (Nat.leb_spec MAX_RENDEZVOUS (size (rendezvous_table k))) as [|Hlt]; [done|]. destruct page as [phys|]; [|done].
  cbn [snd]. split_and!; cbn [rendezvous_table notification_table set_rendezvous]; [|done|].
  - rewrite map_size_insert. destruct (_ !! name); cbn; lia.
  - intros ep p [[_ <-]|[_ Hp]]%lookup_insert_Some; [done|eauto].
Qed.

Lemma create_notification_within k page name : within k -> within (create_notification_from k page name).2.
Proof.
  intros (H1 & H2 & H3). unfold create_notification_from. destruct (Nat.leb_spec MAX_NOTIFICATIONS (size (notification_table k))) as [|Hlt]; [done|]. destruct page as [phys|]; [|done].
  cbn [snd]. split_and!; cbn [rendezvous_table notification_table set_notifications]; [done| |done]. rewrite map_size_insert. destruct (_ !! name); cbn; lia.
Qed.

(** What one step makes of the capabilities and of the tables. *)
Definition step_ok (X : Cap -> Prop) (k k' : IpcTables) : Prop :=
  (forall cap, held k' cap -> held k cap \/ is_reply_cap cap = true \/ X cap) /\ (within k -> within k').

Lemma evolves_ok X k k' : evolves X k k' -> step_ok X k k'.
Proof. intros He. split; [apply (ev_held _ _ _ He)|by apply (evolves_within X)]. Qed.

Lemma bind_irq_evolves X k ep : evolves X k (bind_irq k ep).
Proof.
  unfold bind_irq. destruct (rendezvous_table k !! ep) as [p|] eqn:Hp; [|apply ev_refl]. apply ev_put; [apply ev_refl|done|]. apply (ep_fits Rendezvous.CBind).
Qed.

Lemma ustep_ok y y' : ustep y y' -> step_ok (delegated (tabs y)) (tabs y) (tabs y').
Proof.
  intros Hs. set (X := delegated (tabs y)). pose proof (ev_refl X (tabs y)) as He.
  destruct Hs; cbn [tabs]; try (apply evolves_ok; first [by apply ev_machine|by eapply ev_invoke|by eapply ev_resume|by apply ev_delete_cap|by eapply ev_depart|by eapply ev_irq|by eapply ev_signal|
    apply bind_irq_evolves|by eapply ev_reap_region|by apply ev_no_thread|by eapply ev_start]).
  - apply evolves_ok. unfold finish_killed_current in H3. eapply ev_strand_of; [|exact H3]. by apply ev_machine.
  - apply evolves_ok. unfold finish_switch in H. repeat open_path H. apply ev_fewer; [done|apply map_filter_subseteq].
  - split; [|by apply create_endpoint_within]. intros cap Hc. left. unfold try_create_rendezvous_from in Hc. destruct (_ <=? _)%nat; [done|]. by destruct page0.
  - split; [|by apply create_notification_within]. intros cap Hc. left. unfold create_notification_from in Hc. destruct (_ <=? _)%nat; [done|]. by destruct page0.
  - apply evolves_ok. unfold spawn_on in H0. repeat open_path H0. by apply ev_no_thread.
Qed.

Lemma gstep_ok y cap y' : gstep y cap y' -> step_ok (eq cap) (tabs y) (tabs y').
Proof.
  intros Hs. pose proof (ev_refl (eq cap) (tabs y)) as He. apply evolves_ok. destruct Hs; cbn [tabs]; [by eapply ev_granted|by apply ev_thread_cap].
Qed.

(** ** Executions *)

(** A set of capabilities that delegation does not leave: it holds the replies, with
    each capability every copy of it with no more rights, and with each endpoint the
    badged ones, when the capability may be granted. *)
Record closed (Q : Cap -> Prop) : Prop := {
  cl_reply : forall cap, is_reply_cap cap = true -> Q cap;
  cl_narrowed : forall src r, Q src -> Capability.allows (Capability.rights src) Capability.GRANT = true -> Capability.is_subset_of r (Capability.rights src) = true ->
    Q (Capability.MkCap (Capability.object src) r);
  cl_badged : forall ep r badge, Q (Capability.MkCap (ORendezvous ep 0) r) -> Capability.allows r Capability.GRANT = true -> badge <> 0 -> Q (Capability.MkCap (ORendezvous ep badge) r) }.

(** Executions in which the kernel itself files only capabilities of [Q]. *)
Definition granting (Q : Cap -> Prop) (y y' : Sys) : Prop := ustep y y' \/ exists cap, Q cap /\ gstep y cap y'.

Lemma granting_kept Q y y' : closed Q -> granting Q y y' -> (forall cap, held (tabs y) cap -> Q cap) -> forall cap, held (tabs y') cap -> Q cap.
Proof.
  intros [C1 C2 C3] [Hs|(g & Hg & Hs)] Hq cap Hc.
  - destruct (proj1 (ustep_ok y y' Hs) cap Hc) as [?|[?|Hd]]; [auto|auto|]. destruct Hd; auto.
  - destruct (proj1 (gstep_ok y g y' Hs) cap Hc) as [?|[?|<-]]; auto.
Qed.

Lemma plays_granting Q l : Forall (fun mv => match mv with Grant _ cap => Q cap | _ => True end) l -> forall y y', plays y l = Some y' -> steps (granting Q) y y'.
Proof.
  induction 1 as [|mv l Hq _ IH]; intros y y'; cbn [plays]; [intros [= <-]; constructor|]. destruct (play y mv) as [y1|] eqn:Hp; [|done]. cbn [mbind option_bind].
  intros Hl%IH. eapply steps_step; [|done]. apply play_step in Hp as [Hp|(c & cap & -> & Hp)]; [by left|right; eauto].
Qed.

(** C3: Authority spreads by delegation alone. Take any set of capabilities that
    narrowing and badging what may be granted does not leave. If every capability held,
    in a table or in flight in a hand-off slot, is in the set, and the kernel itself
    files only capabilities of the set in new objects and new threads, then after any
    execution of calls, messages, replies, switches, interrupts, deaths and teardowns
    every capability held is still in the set. In particular no thread comes to hold an
    object, a right or a badge that nobody could have passed to it: the only
    capabilities IPC itself creates are replies. *)
Theorem authority_spreads_only_by_delegation Q y y' : closed Q -> steps (granting Q) y y' ->
  (forall t b cap, tcbs (tabs y) !! t = Some b -> carries b cap -> Q cap) -> forall t b cap, tcbs (tabs y') !! t = Some b -> carries b cap -> Q cap.
Proof.
  intros HQ Hs Hq t b cap Hb Hc. assert (Hh : forall x, held (tabs y) x -> Q x) by (intros x (u & b0 & Hb0 & Hx); by eapply Hq).
  assert (Hh' : forall x, held (tabs y') x -> Q x).
  { revert Hh. refine (steps_invariant _ (fun y => forall x, held (tabs y) x -> Q x) _ _ _ Hs). intros s1 s2 H12 H1 x. exact (granting_kept Q s1 s2 HQ H1 H12 x). }
  apply Hh'. by exists t, b.
Qed.

(** The endpoint of the example, badged 7, with any rights, and replies. *)
Definition only_endpoint (cap : Cap) : Prop := Capability.object cap = ORendezvous 100 7 \/ is_reply_cap cap = true.

Lemma only_endpoint_closed : closed only_endpoint.
Proof.
  constructor.
  - intros cap Hr. by right.
  - intros src r [Hs|Hs] _ _; [by left|by right].
  - by intros ep r badge [Hs|Hs].
Qed.

Lemma open_call_held : held (tabs (demo open_call)) (reply_cap 0).
Proof. eexists 3, _. split; [vm_compute; reflexivity|]. left. exists 1%nat. vm_compute. reflexivity. Qed.

Lemma authority_spreads_only_by_delegation_witness : held (tabs (demo open_call)) (reply_cap 0) /\ only_endpoint (reply_cap 0).
Proof.
  assert (Hs : steps (granting only_endpoint) (boot 0 1 28672 32768) (demo open_call)).
  { apply (plays_granting only_endpoint open_call); [|vm_compute; reflexivity]. repeat constructor. }
  split; [exact open_call_held|]. destruct open_call_held as (t & b & Hb & Hc).
  refine (authority_spreads_only_by_delegation only_endpoint (boot 0 1 28672 32768) (demo open_call) only_endpoint_closed Hs _ t b (reply_cap 0) Hb Hc). clear t b Hb Hc.
  intros t b cap Hb Hc. exfalso. cbn [boot tabs init tcbs] in Hb. apply lookup_insert_Some in Hb as [[_ <-]|[_ Hb]]; [|apply lookup_insert_Some in Hb as [[_ <-]|[_ Hb]]; [|by rewrite lookup_empty in Hb]];
    (destruct Hc as [[i Hc]|Hc]; [|done]; cbn [fresh_tcb capability_table Capability.new Capability.slots] in Hc; by apply lookup_replicate_1 in Hc as [? _]).
Defined.

Lemma reachable_within y : reachable y -> within (tabs y).
Proof.
  intros (b & i & pg & pg' & Hne & Hs). refine (steps_invariant _ (fun y => within (tabs y)) _ _ _ Hs _).
  - intros s1 s2 Hw [Hu|[cap Hg]]; [by apply (ustep_ok s1 s2 Hu)|by apply (gstep_ok s1 cap s2 Hg)].
  - split_and!; cbn; [by apply Nat.leb_le..|]. intros ep p Hp. by rewrite lookup_empty in Hp.
Qed.

(** C20: The kernel's IPC tables stay within the memory and the widths set aside for
    them, in every reachable state: at most 512 endpoints and 256 notifications exist, a
    pending-signal counter is a 32-bit number whatever number of interrupts arrived with
    nobody receiving, and every thread's capability table has exactly 32 slots, with a
    use count that is the number of live capabilities in it. *)
Theorem ipc_tables_stay_bounded y : reachable y ->
  (size (rendezvous_table (tabs y)) <= MAX_RENDEZVOUS)%nat /\ (size (notification_table (tabs y)) <= MAX_NOTIFICATIONS)%nat /\
  (forall ep p, rendezvous_table (tabs y) !! ep = Some p -> 0 <= Rendezvous.pend (r_state p) < 2 ^ 32) /\
  (forall t b, tcbs (tabs y) !! t = Some b -> length (slots_of b) = CAPABILITY_TABLE_SLOTS /\
     Capability.used (capability_table b) = Z.of_nat (occupied (slots_of b)) /\ 0 <= Capability.used (capability_table b) <= Z.of_nat CAPABILITY_TABLE_SLOTS).
Proof.
  intros Hr. destruct (reachable_within y Hr) as (H1 & H2 & H3). split_and!; [done|done|by apply H3|]. intros t b Hb. pose proof (reachable_holds y Hr) as Hi.
  destruct (proj1 (inv_dom _ _ _ Hi t)) as [h Hh]; [eauto|]. destruct (ti_table _ _ _ _ _ (inv_threads _ _ _ Hi t h b Hh Hb)) as [W1 _ _ W4 W5 _]. cbn [Capability.table] in *. lia.
Qed.

Lemma ipc_tables_stay_bounded_witness : (size (rendezvous_table (tabs (demo open_call))) <= MAX_RENDEZVOUS)%nat.
Proof. apply (ipc_tables_stay_bounded (demo open_call)). apply (plays_reachable open_call). vm_compute. reflexivity. Defined.
End IpcAuthority.
